(* ===== verification/_CoqProject ===== *)
-Q . S2P
Prelude.v
GoStd.v
Scope.v
Proc.v
Tokens.v
Client.v
AuditLog.v
Device.v
Service.v
ServiceRun.v
Demo.v
ServiceProps.v
GrantProps.v
DeviceProps.v
Concurrency.v
SortedIndex.v
VaultRepo.v
VaultEnvelope.v
Vault.v
VaultProps.v
VaultRotate.v
VaultDemo.v
FedRegistry.v
RawPath.v
FedStore.v
FedLimits.v
FedLocks.v
Fed.v
FedConc.v
FedRun.v
FedProps.v
FedBind.v
FedDemo.v
OidcPolicy.v
OidcTables.v
OidcStore.v
OidcWf.v
OidcRevoke.v
OidcShrink.v
OidcSteps.v
OidcFlight.v
OidcRuns.v
OidcProps.v
OidcConsent.v
OidcGrants.v
OidcFlow.v
OidcDemo.v
Account.v
Lifecycle.v
Erasure.v
ErasureDemo.v
Core.v
CoreRun.v
CoreSteps.v
CoreSettle.v
CoreOps.v
CoreShutdown.v
CoreCheck.v
CoreConc.v
CoreProps.v
Wiring.v
Admin.v
AdminProps.v
AdminMem.v
AdminDemo.v
Rely.v
SafeUrl.v
Session.v
SessionProps.v
Tombstones.v
SessionDemo.v
Idp.v
Login.v
LoginProps.v
IdpProps.v
LoginIdp.v
LoginDemo.v
