(* ===== verification/Prelude.v ===== *)
(** * r0semi: a verification development

    r0semi (Re0Auth) is an OAuth 2.0 authorization server and OpenID Provider in
    Go, with a login plane in front of it, a credential vault beside it and a
    data plane that reads other services with the credentials it keeps. This
    development models everything of it that keeps state in memory or decides
    about it, the packages [oauth], [audit], [vault], [idp], [safeurl] and, under
    [internal/], [federation], [account], [lifecycle], [oidcstore],
    [store/memory], [core], [wiring], [admin] and [auth], as executable
    definitions and proves what makes them correct, alone and under interleaving.

    ** The program

    - [oauth/scope.go]: a catalogue of scopes with a risk and a consent text,
      and the resolution of a request against it.
    - [oauth/client.go]: registered clients, their secret verifiers and redirect
      URIs, and the in-memory registry.
    - [oauth/tokens.go], [oauth/grants.go]: codes, access and refresh tokens,
      the tombstones of spent refresh tokens, and the in-memory store.
    - [oauth/device.go]: device authorizations, their store and their flow.
    - [oauth/as.go], [oauth/service.go]: the authorization service, which ties
      the four together behind per-family locks and per-grant epochs.
    - [audit/audit.go]: the log every service records in.
    - [vault/]: credentials at rest under envelope encryption, and the rotation
      of the key that wraps them.
    - [internal/federation/]: sources and the bindings of accounts to them. A
      bind is an OAuth flow whose tokens go to the vault; a read goes through the
      binding, refreshing it when due; a disconnection or the kill switch tells
      the source, shreds the secret and deletes the row. A lock per binding
      serialises what touches a credential.
    - [internal/account/account.go]: accounts and their linked identities.
    - [internal/lifecycle/lifecycle.go]: the erasure of an account across every
      store, through ports the others implement.
    - [internal/oidcstore/], [internal/store/memory/oidc.go]: the state of the
      OpenID Provider behind the protocol library: requests, codes, tokens,
      device authorizations, each map with its indexes, and the counters that
      tell a mint of a revocation since its credential was resolved.
    - [internal/core/], [internal/wiring/]: the component runtime, which loads a
      component when what it injects is there and unloads it when that stops
      being so, and the authorization server as a component of it.
    - [internal/admin/admin.go]: the operator plane: clients and the kill switch,
      again through ports.
    - [internal/auth/auth.go], [internal/auth/session_tombstones.go]: browser
      sessions (sign-in, CSRF tokens, the handles a browser may use), the
      in-process session store that keeps deleted sessions deleted, and the
      handlers that start a login and take its callback.
    - [idp/idp.go]: the identity providers of a login: the registry, discovery
      and its cache, the pinning of endpoints and key sets, identities.
    - [safeurl/safeurl.go]: the guard on return paths.

    ** The files

    - [Prelude]: automation and generic lemmas. [GoStd]: what the sources use of
      Go and its library: errors and [(value, error)] results, 64-bit integers,
      byte strings, base64 and hex, [sort.Search], times as nanoseconds. The
      hash functions, [url.Parse], [net.ParseIP] and the Unicode tables are the
      class [Platform]; the system generator is the class [Entropy].
    - [Proc]: handlers as resumptions. An [Act] is one atomic action on the
      shared world (a call of a component under its mutex, a read of the clock,
      a lock), and may have to wait; [run] runs one handler alone, [pstep] and
      [preach] interleave a pool of them, [run_sched] executes a schedule. Three
      program logics over pools: tickets (something taken at most once),
      guarantees (a relation every step of a process stays within) and knowledge
      ([gsafe]: what each process knows and the others respect); two for a
      handler alone: [runs] (it ends, and how) and [keeps] (an invariant). [zoom]
      runs a handler on a part of a larger world.
    - [Scope], [Client], [Tokens], [AuditLog], [Device]: one component each, the
      interfaces of the source ([Store], [ClientRegistry], [TokenAdmin],
      [DeviceStore], [Logger]) as classes and the in-memory types as instances.
    - [Service]: the world and every handler of [oauth.Service], action by
      action. [ServiceRun]: their equations when they run alone. [Demo]: a small
      world for closed examples. [ServiceProps], [GrantProps], [DeviceProps]:
      properties of handlers that run alone. [Concurrency]: pools of requests.
    - [VaultRepo], [VaultEnvelope], [Vault]: the repository, the envelope and
      the service of [vault]; AES-GCM is the class [Aead], a wrapping key is a
      record of operations. [VaultProps], [VaultRotate]: their properties,
      alone and under interleaving. [VaultDemo]: closed examples. [SortedIndex]:
      what the sorted slices of the stores share.
    - [FedRegistry]: sources, their validation, the candidates for a read and the
      bindings a set of scopes still needs ([federation.go], [missing.go]).
      [RawPath]: the cleaning of raw paths. [FedStore]: the binding and flow
      stores and the contracts [BindingStoreOk] and [BindFlowStoreOk] the service
      relies on. [FedLimits]: the cooldown of a rejected binding and the buffer budget. [FedLocks]: the
      keyed mutex. [Fed]: the world and every operation of the service.
    - [FedConc]: operations of the data plane at once. [FedRun]: their parts when
      they run alone; [FedProps], [FedBind]: the operations. [FedDemo]: closed
      examples.
    - [Account]: the account store. [Lifecycle]: erasure over ports with a
      contract ([Estate], [DeleterOk]); [Erasure]: the contract kept by the
      stores in memory. [ErasureDemo]: closed examples.
    - [OidcPolicy]: what every provider store shares. [OidcTables], [OidcStore]:
      the maps with their indexes and every method of the store in memory.
      [OidcWf]: its invariant; [OidcRevoke]: bulk revocation against the store
      without indexes; [OidcShrink]: calls that only remove; [OidcSteps]: every
      call as one transition relation; [OidcFlight], [OidcRuns], [OidcProps]:
      what holds along its runs; [OidcConsent], [OidcGrants], [OidcFlow]: consent
      and freshness, listings, whole flows. [OidcDemo]: closed examples.
    - [Core]: the runtime, a component's code being the tree of the calls it
      makes. [CoreRun], [CoreSteps], [CoreSettle], [CoreOps], [CoreShutdown]: its
      operations alone; [CoreCheck]: the static check; [CoreConc]: operations at
      once; [CoreProps]: the properties. [Wiring]: the composition root and
      closed examples.
    - [Admin]: the operator plane over ports. [AdminProps]: against the contract
      of the ports ([AdminOk]); [AdminMem]: the contract kept by the stores in
      memory. [AdminDemo]: closed examples.
    - [Rely]: a program logic for a process in a pool whose members keep an
      invariant and move the world along a preorder. [SafeUrl]: the guard, with
      the parts of [net/url] and [http.Redirect] behind it, and where a redirect
      leads.
      [Session], [SessionProps]: the session manager. [Tombstones]: the
      in-process store. [Idp], [IdpProps]: the provider clients. [Login],
      [LoginProps]: the handlers over any clients with the contract
      [IdpClientOk]; [LoginIdp]: over those of [Idp], which keep it.
      [SessionDemo], [LoginDemo]: closed examples.

    Definitions carry the names of the source, with a type's name in front
    where two types share a method name ([MemoryStore_SaveCode]). A Go map is a
    [gmap]; a loop over one is a fold whose result is shown not to depend on the
    order, or is sorted as the source sorts it. Byte slices are values: where
    the source clones, the model applies the clone and shows it is the identity.

    ** What the theorems show

    - Requests at once: whatever interleaves, a code, a refresh token or a
      device code is redeemed at most once ([credential_single_use]); no
      rotation loses, changes or revives a secret ([vault_no_lost_update]); a
      rotation's tally adds up ([Rotate_balanced]); whatever binds, refreshes and
      disconnects at once, no upstream credential stays in the vault without the
      binding it belongs to ([no_orphan_secret]).
    - The flows: what every request of the token endpoint answers and what it
      leaves behind, errors included ([Exchange_exact], [Refresh_exact],
      [Poll_exact], [Decide_exact], [Revoke_exact], [Introspect_exact],
      [RevokeGrant_exact], [Grants_exact]), the replay of a spent refresh token
      ending its family, the round trips from authorization to introspection and
      through the device flow, with every deadline on the way, PKCE, and the rollback of a pair minted while its
      grant was revoked.
    - The stores: invariants over every sequence of calls, the contract of each
      destructive call, sweeps that nobody can observe, exact revocation.
    - Clients and scopes: secrets verify, every stored client can be restored,
      redirect matching, paging, resolution.
    - The vault: enrolment is all or nothing and audited first, a use hands out
      the stored secret and only on record, the identity is bound without
      ambiguity, the index of the repository follows its map, erasure is exact,
      a rotation that runs alone is complete.
    - The data plane: what a bind, a refresh, a disconnection and a cascading
      revocation answer and leave behind ([CompleteBind_exact],
      [refreshBinding_exact], [Unbind_exact], [CascadeRevoke_exact]), the kill
      switch ending with nothing left ([RevokeAllBindings_complete]), a read
      at any time after a bind ([bind_then_fetch]), the choice of sources
      ([candidates_exact], [missing_exact]), raw paths that stay below their base
      ([cleanRawPath_stays]), the cooldown against a plain counter
      ([cooldown_refines], [cooldown_window]), buffers within their budget.
    - Accounts: an account exists exactly while it owns an identity, and no
      identity changes hands ([accounts_refine]). Erasure clears what it says it
      cleared, touches nothing of anybody else, and leaves a truthful last record
      ([DeleteAccount_sound], [DeleteAccount_memory]).
    - The OpenID Provider: a revocation reaches tokens whose request was under
      way ([revoked_in_flight]); codes, device codes and refresh tokens are used
      once over every run ([oidc_single_use]); a revocation through the indexes
      is the deletion by predicate from the maps ([oidc_revocation_exact]); the
      replay of a spent refresh token, whatever ran in between, ends its family
      while the mark of the rotation is kept ([oidc_rotation_theft]); the code
      and device flows from their request to the tokens ([oidc_code_flow],
      [oidc_device_flow]); consent, freshness, grants, sweeps, bounds of the maps
      an anonymous caller fills ([oidc_bounded]), and the indexes on every
      reachable store ([oidc_indexes_reachable]).
    - The runtime: every operation ends with each component loaded exactly when
      its dependencies are there ([runtime_settles]); a shutdown undoes
      everything, dependents first ([Shutdown_exact]); the static check is exact
      and what passes it comes up ([Check_exact], [checked_composition_runs]);
      and under any interleaving nothing removed comes back and nothing
      undeclared is published ([runtime_confined]).
    - The operator plane: what the kill switch says it cut is cut and what it
      could not reach it says ([KillSwitch_sound]), and over the stores in memory
      which records are gone and which are untouched ([KillSwitch_memory]).
    - Logins: whatever requests run at once, a callback that ends signed in is of
      the pending flow and is in the one account that owns an identity the
      provider attested for that flow, and what a failure leaves of the session
      ([sign_in_attested]); a flow is used once
      ([callback_single_use]) and every request ends ([serve_returns]); secrets,
      browsers and key sets stay with configured endpoints or the issuer's
      origin ([idp_trust]); a retired key set ages out ([key_set_ages_out]).
    - Sessions: what a sign-in and a sign-out leave ([SignIn_exact],
      [EndSession_exact]), CSRF tokens agree within a session
      ([CSRFToken_agree]), the handles of a browser are the most recent ones it
      bound ([handles_refine]), and a deleted session stays deleted whatever
      commits late ([deleted_stays_deleted]).
    - Return paths: the guard answers a path of this origin, the redirect after a
      login stays on it, and when an error redirect does
      ([redirectError_origin]).
    - Runs the code does not mean: a revocation that an exchange under way
      survives ([RevokeGrant_race]), a device approval that outlives the
      revocation of its grant ([RevokeGrant_leaves_device]), a raw path whose
      malformed escape hides a traversal ([cleanRawPath_malformed_bypass]) and a
      bind that brings back a binding removed after it began
      ([removed_binding_returns]); a refused rotation that spends its token
      ([oidc_refused_rotation_spends]), a sweep that takes a live code
      ([swept_code]), an overflow in the freshness test ([freshness_overflow]); a
      shutdown that a reconciliation undoes ([shutdown_race]), a removal before
      its dependents ([remove_race]), a cycle behind a repeated name
      ([check_same_name]); a kill switch that forgets what it had done
      ([killswitch_forgets_partial]); an error redirect that leaves the origin
      ([leaves_origin]) and a session signed in outside the index
      ([unrecorded_session]).

    ** Fuel, bounds and hypotheses

    [sort_Search] is given as many steps as the slice is long, more than halving
    needs. [newUserCode] redraws bytes without bound; its loop takes a fuel and
    never returns when it runs out ([newUserCode_exact] says which draws are
    enough). The page loop of [Rotate] takes a fuel too; one more than the full
    pages is enough alone ([Rotate_complete]), and for the kill switch more than
    there are bindings ([RevokeAllBindings_complete]). [uvarint_loop] has the ten
    steps a 64-bit value takes. A reconciliation repeats its pass while anything
    changes; two passes more than there were operations are enough
    ([runtime_settles]). The depth-first walks of [unloadOrder] and [Check] have
    one step more than there are nodes, [replace_all] one more than the text has
    bytes, [evict] as many as the queue has entries.

    [PlatformOk] states output lengths of the hashes, [EntropyOk] that reads
    succeed. Single use assumes that no later draw hashes like the credential in
    question ([never_redrawn]). The vault assumes that GCM opens exactly what it
    sealed ([AeadOk]), that a key unwraps what it wrapped ([KeyWrapperOk], proved
    of the local wrapper), and that no configured key unwraps another's blob to
    something else ([KeysOk]). The data plane talks to a source through the class
    [Upstream] ([http.Client.Do] and [golang.org/x/oauth2]) with no assumption on
    the answers, and encodes a token pair with [encoding/json], the class [Json],
    of which it needs that text survives a round trip ([JsonOk]). A flow store
    removes the flow it hands out ([BindFlowStoreOk], proved of the one in
    memory). What a disconnection reports of the source assumes that neither
    [encoding/json] nor the audit log answers with the vault's own [ErrNotFound]
    ([not_found_is_vaults]). Minted account
    and identity ids are new ([fresh_user], [fresh_identity]); under logins this
    follows from a generator that does not answer the same bytes twice ([apart]).

    The order in which the runtime walks a map is the class [MapOrder], and
    [MapOrderOk] that every entry is visited once. The transition relation of the
    provider store takes the hashes of new random values to be new, and
    [revoked_in_flight] speaks of fewer than 2^64 calls, the range of its
    counters. The session library is the class [Scs] ([ScsOk]: reads see writes,
    a renewal keeps the values and changes the token, a destruction that succeeds
    clears them), the index [SessionIndex], the text of times [TimeText] (it can
    be read back), the library's store [ScsStore]. The OAuth and OpenID libraries
    behind a login are the class [IdpUpstream], of which only is assumed that a
    verified token names the client among its audiences ([IdpUpstreamOk]), and
    that [url.Parse] finds no scheme in the empty string. Closed instances show
    that each can hold.

    ** What is not modelled

    HTTP routing and encoding ([oauth/http.go], [internal/httpapi],
    [internal/oidchttp], [internal/compress]), SQL ([internal/store/postgres]),
    start-up, configuration and metrics, and the upstream source servers and
    their clients are left out: they drive packages that are not part of this
    repository, and decide little of their own. Of [cmd/re0auth] the adapters
    between the components are modelled. Memory that is overwritten
    ([vault/scrub.go]) has no value in the model. Of the data plane, the total
    timeout of a read, the durations given to metrics and the log lines are left
    out, and the workers of the kill switch run one after the other: their
    interleavings are those of [FedConc]. Of the provider clients, timeouts, the
    durations named in error texts and the removal of URLs from error texts are
    left out, and a cache lifetime is far from the range of a 64-bit duration.
    [internal/ratelimit] computes its windows in floating point over a
    third-party bucket, and the state machine of the circuit breaker in
    [httpclient] is a third-party package; neither has a model. *)

From stdpp Require Export gmap strings list sorting pretty.
From Stdlib Require Export Lia ZArith ZifyN ZifyNat ZifyBool.

(** ** Notations and automation *)

Declare Scope go_scope.
Delimit Scope go_scope with go.

(** Hints of this development: facts about map filters, string order and the
    lookups of the stores. *)
Create HintDb r0semi discriminated.

(** Rewrite rules that execute handlers and strip copies. *)
Create Rewrite HintDb run.

(** Case analysis on every [match] of the goal and the hypotheses, cleaning up
    after each step. *)
Ltac go_cases := repeat (case_match; simplify_eq/=).

(** Boolean tests of the code, turned into the propositions they decide. *)
Ltac bools :=
  repeat match goal with
  | H : negb _ = true |- _ => apply negb_true_iff in H
  | H : negb _ = false |- _ => apply negb_false_iff in H
  | H : _ && _ = true |- _ => apply andb_true_iff in H as [??]
  | H : _ || _ = false |- _ => apply orb_false_iff in H as [??]
  | H : bool_decide _ = true |- _ => apply bool_decide_eq_true_1 in H
  | H : bool_decide _ = false |- _ => apply bool_decide_eq_false_1 in H
  | H : (_ <? _)%Z = true |- _ => apply Z.ltb_lt in H
  | H : (_ <? _)%Z = false |- _ => apply Z.ltb_ge in H
  | H : (_ <=? _)%Z = true |- _ => apply Z.leb_le in H
  | H : (_ <=? _)%Z = false |- _ => apply Z.leb_gt in H
  | H : (_ =? _)%Z = true |- _ => apply Z.eqb_eq in H
  | H : (_ =? _)%Z = false |- _ => apply Z.eqb_neq in H
  end.

(** ** Maps: the loop [for k, v := range m { if P(v) { delete(m, k) } }] *)

Section delete_where.
Context {K V : Type} `{Countable K}.

(** What the loop leaves behind. *)
Definition delete_where (P : V → bool) (m : gmap K V) : gmap K V :=
  filter (λ kv : K * V, P kv.2 = false) m.

(** How many entries the loop removed. *)
Definition count_where (P : V → bool) (m : gmap K V) : nat :=
  size (filter (λ kv : K * V, P kv.2 = true) m).

(** The loop itself, visiting the keys in the order [ks]: Go leaves that order
    unspecified, and deleting while ranging is allowed. *)
Definition range_delete_step (P : V → bool) (acc : gmap K V * nat) (k : K) : gmap K V * nat :=
  match acc.1 !! k with
  | Some v => if P v then (delete k acc.1, S acc.2) else acc
  | None => acc
  end.

Definition range_delete (P : V → bool) (ks : list K) (m : gmap K V) : gmap K V * nat :=
  foldl (range_delete_step P) (m, 0) ks.

Lemma lookup_delete_where P (m : gmap K V) k v :
  delete_where P m !! k = Some v ↔ m !! k = Some v ∧ P v = false.
Proof. unfold delete_where. by rewrite map_lookup_filter_Some. Qed.

Lemma lookup_delete_where_None P (m : gmap K V) k :
  delete_where P m !! k = None ↔ m !! k = None ∨ (∃ v, m !! k = Some v ∧ P v = true).
Proof.
  unfold delete_where. rewrite map_lookup_filter_None. split.
  - intros [?|Hall]; [by left|]. destruct (m !! k) as [v|] eqn:E; [|by left].
    right. exists v. split; [done|]. specialize (Hall v eq_refl). simpl in Hall.
    by destruct (P v).
  - intros [?|(v & Hv & HP)]; [by left|right]. intros v' Hv'. simplify_eq/=. congruence.
Qed.

Lemma delete_where_mono P (m : gmap K V) k v :
  delete_where P m !! k = Some v → m !! k = Some v.
Proof. intros [??]%lookup_delete_where. done. Qed.

Lemma delete_where_keep P (m : gmap K V) k :
  (∀ v, m !! k = Some v → P v = false) → delete_where P m !! k = m !! k.
Proof.
  intros Hk. destruct (m !! k) as [v|] eqn:E.
  - apply lookup_delete_where. auto.
  - apply lookup_delete_where_None. by left.
Qed.

Lemma delete_where_idemp P (m : gmap K V) :
  delete_where P (delete_where P m) = delete_where P m.
Proof.
  apply map_eq. intros k. apply option_eq. intros v.
  rewrite !lookup_delete_where. naive_solver.
Qed.

Lemma delete_where_id P (m : gmap K V) :
  (∀ k v, m !! k = Some v → P v = false) → delete_where P m = m.
Proof.
  intros Hall. apply map_eq. intros k. apply delete_where_keep. eauto.
Qed.

(** The count and the survivors partition the map. *)
Lemma count_where_size P (m : gmap K V) :
  count_where P m + size (delete_where P m) = size m.
Proof.
  unfold count_where, delete_where.
  rewrite <-(map_filter_union_complement (λ kv : K * V, P kv.2 = true) m) at 3.
  rewrite map_size_disj_union by apply map_disjoint_filter_complement.
  f_equal. f_equal. apply map_filter_ext. intros k v _. simpl.
  by rewrite not_true_iff_false.
Qed.

Lemma count_where_zero P (m : gmap K V) :
  count_where P m = 0 ↔ delete_where P m = m.
Proof.
  split.
  - intros Hc. apply delete_where_id. intros k v Hk.
    destruct (P v) eqn:HP; [|done]. exfalso.
    unfold count_where in Hc. apply map_size_empty_inv in Hc.
    apply (map_filter_empty_not_lookup _ _ k v Hc); done.
  - intros Heq. pose proof (count_where_size P m) as Hs. rewrite Heq in Hs. lia.
Qed.

(** One step of the loop, on the partition of the map by the visited keys. *)
Lemma range_delete_foldl P (ks : list K) (m : gmap K V) n :
  NoDup ks →
  foldl (range_delete_step P) (m, n) ks =
    (filter (λ kv : K * V, ¬ (kv.1 ∈ ks ∧ P kv.2 = true)) m,
     n + size (filter (λ kv : K * V, kv.1 ∈ ks ∧ P kv.2 = true) m)).
Proof.
  revert m n. induction ks as [|k ks IH]; intros m n Hnd.
  { simpl. f_equal.
    - symmetry. apply map_filter_id. intros k v _. simpl. set_solver.
    - rewrite (proj2 (map_empty_filter _ m)) by (intros k v _; simpl; set_solver).
      by rewrite map_size_empty, Nat.add_0_r. }
  apply NoDup_cons in Hnd as [Hk Hnd].
  assert (Hskip : (∀ v, m !! k = Some v → P v = false) →
    foldl (range_delete_step P) (m, n) ks =
    (filter (λ kv : K * V, ¬ (kv.1 ∈ k :: ks ∧ P kv.2 = true)) m,
     n + size (filter (λ kv : K * V, kv.1 ∈ k :: ks ∧ P kv.2 = true) m))).
  { intros Hno. rewrite IH by done. f_equal; [|do 2 f_equal];
      apply map_filter_ext; intros k' v' Hk'; simpl; rewrite elem_of_cons;
      assert (k' = k → P v' = false) by (intros ->; auto);
      destruct (decide (k' = k)), (P v'); intuition congruence. }
  simpl. unfold range_delete_step at 2. simpl.
  destruct (m !! k) as [v|] eqn:E; [|apply Hskip; congruence].
  destruct (P v) eqn:HP; [|apply Hskip; congruence].
  rewrite IH by done. f_equal.
  - apply map_eq. intros k'. apply option_eq. intros v'.
    rewrite !map_lookup_filter_Some, lookup_delete_Some. simpl.
    rewrite elem_of_cons. destruct (decide (k' = k)) as [->|]; naive_solver.
  - assert (Hext : filter (λ kv : K * V, kv.1 ∈ ks ∧ P kv.2 = true) (delete k m) =
      delete k (filter (λ kv : K * V, kv.1 ∈ k :: ks ∧ P kv.2 = true) m)).
    { rewrite <-map_filter_delete. apply map_filter_ext. intros k' v' Hk'. simpl.
      rewrite elem_of_cons. apply lookup_delete_Some in Hk' as [? _]. naive_solver. }
    assert (Hin : filter (λ kv : K * V, kv.1 ∈ k :: ks ∧ P kv.2 = true) m !! k = Some v).
    { apply map_lookup_filter_Some. split; [done|]. simpl. split; [left|done]. }
    rewrite Hext, map_size_delete, Hin. simpl.
    assert (size (filter (λ kv : K * V, kv.1 ∈ k :: ks ∧ P kv.2 = true) m) ≠ 0); [|lia].
    intros Hz%map_size_empty_inv. rewrite Hz in Hin. by rewrite lookup_empty in Hin.
Qed.

(** Whatever order the runtime picks for the keys of the map, the loop leaves
    [delete_where] and counts [count_where]. *)
Lemma range_delete_spec P (ks : list K) (m : gmap K V) :
  NoDup ks → (∀ k, is_Some (m !! k) → k ∈ ks) →
  range_delete P ks m = (delete_where P m, count_where P m).
Proof.
  intros Hnd Hdom. unfold range_delete. rewrite range_delete_foldl by done.
  unfold delete_where, count_where. f_equal; [|simpl; f_equal];
    apply map_filter_ext; intros k v Hk; simpl;
    assert (k ∈ ks) by (apply Hdom; eauto); destruct (P v); naive_solver.
Qed.

(** A loop over entries that deletes a key computed from some of them. *)
Lemma foldl_delete_Some {E} (c : E → bool) (f : E → K) (l : list E) (m : gmap K V) k v :
  foldl (λ m e, if c e then delete (f e) m else m) m l !! k = Some v ↔
    m !! k = Some v ∧ ∀ e, e ∈ l → c e = true → f e ≠ k.
Proof.
  revert m. induction l as [|e l IH]; intros m; simpl; [set_solver|]. rewrite IH.
  destruct (c e) eqn:Hc; [rewrite lookup_delete_Some|]; setoid_rewrite elem_of_cons; [naive_solver|].
  split; [intros [? Hl]|naive_solver]. split; [done|]. intros e' [->|He']; [congruence|eauto].
Qed.

(** Such a loop over the entries themselves, in any order. *)
Lemma foldl_delete_entries (P : V → bool) (l : list (K * V)) (m : gmap K V) :
  l ≡ₚ map_to_list m →
  foldl (λ m e, if P e.2 then delete e.1 m else m) m l = delete_where P m.
Proof.
  intros Hl. apply map_eq. intros k. apply option_eq. intros v.
  rewrite (foldl_delete_Some (λ e, P e.2) fst), lookup_delete_where. setoid_rewrite Hl. split.
  - intros [Hk Hno]. split; [done|]. destruct (P v) eqn:HP; [|done].
    by destruct (Hno (k, v)); [apply elem_of_map_to_list|..].
  - intros [Hk HP]. split; [done|]. intros [k' v'] Hin%elem_of_map_to_list HP' [= ->]. simpl in *. congruence.
Qed.

Lemma foldl_delete_id {E} (c : E → bool) (f : E → K) (l : list E) (m : gmap K V) :
  (∀ e, e ∈ l → c e = true → m !! f e = None) → foldl (λ m e, if c e then delete (f e) m else m) m l = m.
Proof.
  intros Hl. apply map_eq. intros k. apply option_eq. intros v. rewrite foldl_delete_Some.
  split; [naive_solver|]. intros Hk. split; [done|]. intros e He Hc <-. rewrite Hl in Hk by done. done.
Qed.

(** A loop over keys that looks the entry up again before it decides. *)
Lemma foldl_delete_own (P : V → bool) (ks : list K) (m : gmap K V) :
  foldl (λ m k, match m !! k with Some v => if P v then delete k m else m | None => m end) m ks =
    filter (λ kv : K * V, ¬ (kv.1 ∈ ks ∧ P kv.2 = true)) m.
Proof.
  revert m. induction ks as [|k ks IH]; intros m; simpl.
  { symmetry. apply map_filter_id. by intros k v _ [?%elem_of_nil _]. }
  rewrite IH. apply map_eq. intros k'. apply option_eq. intros v'. rewrite !map_lookup_filter_Some. simpl.
  rewrite elem_of_cons. destruct (m !! k) as [v|] eqn:E; [destruct (P v) eqn:HP|].
  - rewrite lookup_delete_Some. destruct (decide (k' = k)) as [->|]; naive_solver.
  - destruct (decide (k' = k)) as [->|]; [|naive_solver]. rewrite E.
    split; intros [[= <-] _]; (split; [done|]); intros [_ ?]; congruence.
  - destruct (decide (k' = k)) as [->|]; [|naive_solver]. rewrite E. by split; intros [? _].
Qed.

(** Two such sets of deletions, and their counts. *)
Lemma delete_where_compose P Q (m : gmap K V) :
  delete_where P (delete_where Q m) = delete_where (λ v, Q v || P v) m.
Proof.
  apply map_eq. intros k. apply option_eq. intros v. rewrite !lookup_delete_where, orb_false_iff. naive_solver.
Qed.

Lemma count_where_compose P Q (m : gmap K V) :
  count_where Q m + count_where P (delete_where Q m) = count_where (λ v, Q v || P v) m.
Proof.
  pose proof (count_where_size Q m). pose proof (count_where_size P (delete_where Q m)).
  pose proof (count_where_size (λ v, Q v || P v) m). rewrite delete_where_compose in *. lia.
Qed.

Lemma delete_where_ext P Q (m : gmap K V) :
  (∀ k v, m !! k = Some v → P v = Q v) → delete_where P m = delete_where Q m.
Proof. intros HPQ. apply map_filter_ext. intros k v Hk. simpl. by rewrite (HPQ k v Hk). Qed.

Lemma count_where_ext P Q (m : gmap K V) :
  (∀ k v, m !! k = Some v → P v = Q v) → count_where P m = count_where Q m.
Proof. intros HPQ. unfold count_where. f_equal. apply map_filter_ext. intros k v Hk. simpl. by rewrite (HPQ k v Hk). Qed.

(** Entries that satisfy the test, counted along a listing of the map. *)
Lemma count_where_list P (l : list (K * V)) (m : gmap K V) :
  l ≡ₚ map_to_list m → count_where P m = length (filter (λ e, P e.2 = true) l).
Proof.
  intros Hl. unfold count_where. rewrite <-length_map_to_list, map_filter_alt, map_to_list_to_map; [by rewrite Hl|].
  eapply sublist_NoDup; [|apply fmap_sublist, sublist_filter]. apply NoDup_fst_map_to_list.
Qed.

End delete_where.

#[export] Hint Resolve delete_where_mono delete_where_idemp : r0semi.

(** ** Lists: filters and sorted lists *)

Section lists.
Context {A : Type}.

Lemma filter_all (P : A → Prop) `{∀ x, Decision (P x)} l : Forall P l → filter P l = l.
Proof.
  induction 1 as [|x l Hx _ IH]; [done|]. by rewrite filter_cons_True, IH.
Qed.

Lemma filter_none (P : A → Prop) `{∀ x, Decision (P x)} l :
  Forall (λ x, ¬ P x) l → filter P l = [].
Proof.
  induction 1 as [|x l Hx _ IH]; [done|]. by rewrite filter_cons_False, IH.
Qed.

Lemma sorted_lookup (R : relation A) l i j x y :
  StronglySorted R l → l !! i = Some x → l !! j = Some y → i < j → R x y.
Proof.
  intros Hs Hi Hj Hij. rewrite <-(take_drop (S i) l) in Hs.
  apply (StronglySorted_app_1_elem_of R _ _ x y Hs).
  - apply list_elem_of_lookup. exists i. rewrite lookup_take_lt by lia. done.
  - apply list_elem_of_lookup. exists (j - S i). rewrite lookup_drop.
    replace (S i + (j - S i)) with j by lia. done.
Qed.

Lemma sorted_filter (R : relation A) (P : A → Prop) `{∀ x, Decision (P x)} l :
  StronglySorted R l → StronglySorted R (filter P l).
Proof.
  induction 1 as [|x l Hs IH Hx]; [constructor|]. rewrite filter_cons.
  case_decide; [|done]. apply StronglySorted_cons. split; [|done].
  rewrite Forall_forall in *. intros y [_ Hy]%list_elem_of_filter. by apply Hx.
Qed.

(** Strictly sorted lists with the same elements are equal. *)
Lemma sorted_unique (R : relation A) l1 l2 :
  (∀ x, ¬ R x x) → Transitive R → StronglySorted R l1 → StronglySorted R l2 →
  (∀ x, x ∈ l1 ↔ x ∈ l2) → l1 = l2.
Proof.
  intros Hirr Htr H1 H2 Hel.
  assert (Hnd : ∀ l, StronglySorted R l → NoDup l).
  { induction 1 as [|x l _ IH Hx]; constructor; [|done]. intros Hin.
    rewrite Forall_forall in Hx. by apply (Hirr x), Hx. }
  assert (AntiSymm (=) R) by (intros x y Hxy Hyx; exfalso; by apply (Hirr x), (Htr x y x)).
  apply (StronglySorted_unique R); [done..|]. apply NoDup_Permutation; auto.
Qed.

(** A loop that counts. *)
Lemma foldl_count (c : A → bool) l n :
  foldl (λ n x, if c x then S n else n) n l = n + length (filter (λ x, c x = true) l).
Proof.
  revert n. induction l as [|x l IH]; intros n; simpl; [lia|]. rewrite IH, filter_cons.
  destruct (c x); simpl; lia.
Qed.

(** A loop seen through a projection of its state. *)
Lemma foldl_proj {B M} (get : B → M) (f : B → A → B) (g : M → A → M) l b :
  (∀ b x, get (f b x) = g (get b) x) → get (foldl f b l) = foldl g (get b) l.
Proof. intros Hg. revert b. induction l as [|x l IH]; intros b; simpl; [done|]. by rewrite IH, Hg. Qed.

(** What every step of a loop keeps, holds at its end; what one iteration
    establishes and every other keeps, holds at its end. *)
Lemma foldl_invariant {B} (P : B → Prop) (f : B → A → B) l b :
  P b → (∀ b x, x ∈ l → P b → P (f b x)) → P (foldl f b l).
Proof.
  revert b. induction l as [|x l IH]; intros b Hb Hf; [done|]. simpl. apply IH.
  - apply Hf; [by left|done].
  - intros b' y Hy. apply Hf. by right.
Qed.

Lemma foldl_reach {B} (P : B → Prop) (f : B → A → B) l b x :
  x ∈ l → (∀ b, P (f b x)) → (∀ b y, P b → P (f b y)) → P (foldl f b l).
Proof.
  intros Hx Hone Hkeep. revert b. induction Hx as [x l|x y l _ IH]; intros b; simpl.
  - apply foldl_invariant; eauto.
  - by apply IH.
Qed.
End lists.
