(* ===== verification/GoStd.v ===== *)
(** * The Go values and standard-library functions the packages use

    Errors with [errors.Is] and [errors.As], two-valued returns, byte strings
    and the functions of [strings], [strconv], [encoding/hex],
    [encoding/base64], [net/url] and [sort] that the modelled packages call,
    instants and durations, and the interface to what the runtime supplies as
    a black box (hash functions and the Unicode tables). A Go [string] and a
    Go [[]byte] are both a [string] here: a list of bytes. *)

From Stdlib Require Export Ascii.
From S2P Require Import Prelude.

(** ** Errors *)

(** An error value. [New] is a package-level [errors.New] (identified by its
    text, which is unique among them); [Wrap] is [fmt.Errorf] with a [%w] verb;
    [Join] is [errors.Join]; [Proto] is [*oauth.Error]; [Reuse] is
    [*oauth.RefreshReuseError]; [Typed] is one of the error structs of the data
    plane or the protocol library's [*oidc.Error]. *)
Inductive errval : Type :=
| NotBoundError (Game Source : string)
| SourceError (Source : string) (Status : Z)
| BindingCooldownError (Game Source : string)
| RetrieveError (ErrorCode message : string)
| OIDCError (ErrorType Description : string).

Inductive error : Type :=
| New (msg : string)
| Wrap (msg : string) (inner : error)
| Join (e1 e2 : error)
| Proto (Code Description : string)
| Reuse (FamilyID : string)
| Typed (v : errval).

#[export] Instance errval_eq_dec : EqDecision errval.
Proof. solve_decision. Defined.

#[export] Instance error_eq_dec : EqDecision error.
Proof. solve_decision. Defined.

(** [oauth.ErrRefreshTokenReused], which [RefreshReuseError.Unwrap] returns. *)
Definition ErrRefreshTokenReused : error :=
  New "oauth: refresh token reused after rotation".

(** [federation.ErrNotBound] and [federation.ErrBindingCooldown], which the [Is]
    methods of the structs answer to. *)
Definition ErrNotBound : error := New "federation: source is not bound".
Definition ErrBindingCooldown : error :=
  New "federation: this binding's upstream credential is in cooldown".

(** The [Is] methods: the sentinel a struct stands for. *)
Definition errval_Is (v : errval) : option error :=
  match v with
  | NotBoundError _ _ => Some ErrNotBound
  | BindingCooldownError _ _ => Some ErrBindingCooldown
  | SourceError _ _ | RetrieveError _ _ | OIDCError _ _ => None
  end.

(** [errors.Is]: the error itself or anything it wraps. *)
Fixpoint errors_Is (e target : error) : bool :=
  bool_decide (e = target) ||
  match e with
  | Wrap _ inner => errors_Is inner target
  | Join e1 e2 => errors_Is e1 target || errors_Is e2 target
  | Reuse _ => bool_decide (ErrRefreshTokenReused = target)
  | Typed v => bool_decide (errval_Is v = Some target)
  | New _ | Proto _ _ => false
  end.

(** [errors.As] into a [*RefreshReuseError]: the family of the first one in
    the chain. *)
Fixpoint errors_As_reuse (e : error) : option string :=
  match e with
  | Reuse f => Some f
  | Wrap _ inner => errors_As_reuse inner
  | Join e1 e2 =>
      match errors_As_reuse e1 with
      | Some f => Some f
      | None => errors_As_reuse e2
      end
  | New _ | Proto _ _ | Typed _ => None
  end.

(** [errors.As] into one of the structs: the first one in the chain that
    [sel] selects. *)
Fixpoint errors_As {A} (sel : errval → option A) (e : error) : option A :=
  match e with
  | Typed v => sel v
  | Wrap _ inner => errors_As sel inner
  | Join e1 e2 =>
      match errors_As sel e1 with
      | Some a => Some a
      | None => errors_As sel e2
      end
  | New _ | Proto _ _ | Reuse _ => None
  end.

(** The [Error] methods of the structs; the text of a [RetrieveError] is its
    own. *)
Definition errval_Error (v : errval) : string :=
  match v with
  | NotBoundError g s => "federation: " +:+ g +:+ "/" +:+ s +:+ " is not bound"
  | SourceError s st => "federation: source " +:+ s +:+ " returned HTTP " +:+ pretty st
  | BindingCooldownError g s =>
      "federation: " +:+ g +:+ "/" +:+ s +:+
      " is not being asked: the credential was rejected repeatedly"
  | RetrieveError _ msg => msg
  | OIDCError t EmptyString => "ErrorType=" +:+ t
  | OIDCError t d => "ErrorType=" +:+ t +:+ " Description=" +:+ d
  end.

(** The [Error] method. *)
Fixpoint Error (e : error) : string :=
  match e with
  | New msg => msg
  | Wrap msg _ => msg
  | Join e1 e2 => Error e1 +:+ String "010" EmptyString +:+ Error e2
  | Proto code description => "oauth: " +:+ code +:+ ": " +:+ description
  | Reuse f => "oauth: refresh token reused after rotation (family " +:+ f +:+ ")"
  | Typed v => errval_Error v
  end.

(** [errors.Join] of an error and a possibly nil one, which it drops. *)
Definition errors_Join (e : error) (o : option error) : error :=
  match o with Some e' => Join e e' | None => Wrap (Error e) e end.

(** ** Results: the [(value, error)] pairs of Go *)

Inductive result (A : Type) : Type :=
| Ok (a : A)
| Err (e : error).
Arguments Ok {A} _.
Arguments Err {A} _.

#[export] Instance Ok_inj {A} : Inj (=) (=) (@Ok A).
Proof. by intros a b [= ->]. Qed.

#[export] Instance result_ret : MRet result := λ A a, Ok a.
#[export] Instance result_bind : MBind result := λ A B f r,
  match r with Ok a => f a | Err e => Err e end.

Definition is_ok {A} (r : result A) : bool :=
  match r with Ok _ => true | Err _ => false end.

(** ** Integers and instants *)

Open Scope Z_scope.

(** Two's-complement [int64] and unsigned [uint64] arithmetic. *)
Definition wrap64 (z : Z) : Z := (z + 2 ^ 63) mod 2 ^ 64 - 2 ^ 63.
Definition wrapu64 (z : Z) : Z := z mod 2 ^ 64.
Definition max_int64 : Z := 2 ^ 63 - 1.

(** A [time.Time] is its number of nanoseconds since the zero time; a
    [time.Duration] is an [int64] number of nanoseconds. *)
Definition time_Before (t u : Z) : bool := t <? u.
Definition time_After (t u : Z) : bool := u <? t.
Definition time_IsZero (t : Z) : bool := t =? 0.
Definition time_Second : Z := 1000000000.
Definition time_Minute : Z := 60 * time_Second.
Definition time_Hour : Z := 60 * time_Minute.
(** [t.Sub(u)], which saturates at the bounds of a [Duration]. *)
Definition time_Sub (t u : Z) : Z := Z.max (- 2 ^ 63) (Z.min max_int64 (t - u)).

Lemma wrap64_id z : - 2 ^ 63 <= z <= max_int64 → wrap64 z = z.
Proof. unfold wrap64, max_int64. intros. rewrite Z.mod_small; lia. Qed.

Close Scope Z_scope.

(** ** Byte strings *)

(** [len(s)]. *)
Abbreviation len := String.length.

Definition code (c : ascii) : N := N_of_ascii c.
Definition chr (n : N) : ascii := ascii_of_N n.

Lemma chr_code c : chr (code c) = c.
Proof. apply ascii_N_embedding. Qed.
Lemma chr_eq n c : n = code c → chr n = c.
Proof. intros ->. apply chr_code. Qed.
Lemma code_chr n : (n < 256)%N → code (chr n) = n.
Proof. apply N_ascii_embedding. Qed.
Lemma code_lt c : (code c < 256)%N.
Proof. apply N_ascii_bounded. Qed.

(** The characters of a string satisfy a test. *)
Fixpoint str_forall (P : ascii → bool) (s : string) : bool :=
  match s with
  | EmptyString => true
  | String c s' => P c && str_forall P s'
  end.

Fixpoint str_map (f : ascii → ascii) (s : string) : string :=
  match s with
  | EmptyString => EmptyString
  | String c s' => String (f c) (str_map f s')
  end.

Fixpoint str_filter (P : ascii → bool) (s : string) : string :=
  match s with
  | EmptyString => EmptyString
  | String c s' => if P c then String c (str_filter P s') else str_filter P s'
  end.

Definition str_exists (P : ascii → bool) (s : string) : bool :=
  negb (str_forall (λ c, negb (P c)) s).

(** Character classes. *)
Definition in_range (lo hi : N) (c : ascii) : bool :=
  ((lo <=? code c) && (code c <=? hi))%N.
Definition is_upper : ascii → bool := in_range 65 90.
Definition is_lower : ascii → bool := in_range 97 122.
Definition is_digit : ascii → bool := in_range 48 57.
Definition is_ascii (c : ascii) : bool := (code c <? 128)%N.
Definition is_space (c : ascii) : bool :=
  in_range 9 13 c || bool_decide (c = " "%char).

Definition ascii_upper (c : ascii) : ascii :=
  if is_lower c then chr (code c - 32) else c.
Definition ascii_lower (c : ascii) : ascii :=
  if is_upper c then chr (code c + 32) else c.

(** [strings.Split] on a one-byte separator. *)
Fixpoint strings_Split (s : string) (sep : ascii) : list string :=
  match s with
  | EmptyString => [EmptyString]
  | String c s' =>
      if bool_decide (c = sep) then EmptyString :: strings_Split s' sep
      else match strings_Split s' sep with
           | p :: ps => String c p :: ps
           | [] => [String c EmptyString]
           end
  end.

(** [strings.Join]. *)
Fixpoint strings_Join (l : list string) (sep : string) : string :=
  match l with
  | [] => EmptyString
  | [x] => x
  | x :: l' => x +:+ sep +:+ strings_Join l' sep
  end.

(** [strings.HasPrefix] and [strings.CutPrefix]. *)
Fixpoint strings_CutPrefix (s p : string) : option string :=
  match p, s with
  | EmptyString, _ => Some s
  | String a p', String b s' => if bool_decide (a = b) then strings_CutPrefix s' p' else None
  | String _ _, EmptyString => None
  end.
Definition strings_HasPrefix (s p : string) : bool :=
  bool_decide (is_Some (strings_CutPrefix s p)).

(** [strings.IndexByte(s, c)] and the prefix before it. *)
Fixpoint str_before (c : ascii) (s : string) : option string :=
  match s with
  | EmptyString => None
  | String a s' => if bool_decide (a = c) then Some EmptyString
                   else String a <$> str_before c s'
  end.

(** Leading and trailing characters dropped by a test. *)
Fixpoint trim_left (P : ascii → bool) (s : string) : string :=
  match s with
  | String c s' => if P c then trim_left P s' else s
  | EmptyString => EmptyString
  end.
Fixpoint trim_right (P : ascii → bool) (s : string) : string :=
  match s with
  | EmptyString => EmptyString
  | String c s' =>
      match trim_right P s' with
      | EmptyString => if P c then EmptyString else String c EmptyString
      | t => String c t
      end
  end.

(** ** What the runtime supplies *)

(** What the packages read of a parsed [url.URL]: [User] is whether userinfo is
    present, [Hostname] is the method. *)
Record URL := mkURL {
  u_Scheme : string;
  u_Opaque : string;
  u_User : bool;
  u_Host : string;
  u_Hostname : string;
  u_Path : string;
  u_RawQuery : string;
  u_Fragment : string;
}.

(** The hash functions of [crypto/*], the URL and IP parsers, and the parts of
    [strings] and [strconv] that consult the Unicode tables. Every definition
    that reaches one of them takes it as an argument. *)
Class Platform := {
  (** [sha256.Sum256]. *)
  sha256 : string → string;
  (** [hmac.New(sha256.New, key)], the parts written, [Sum(nil)]. *)
  hmac_sha256 : string → string → string;
  (** [pbkdf2.Key(sha256.New, password, salt, iterations, keyLength)]. *)
  pbkdf2_sha256 : string → string → Z → nat → result string;
  (** [url.Parse], and [net.ParseIP] followed by [IP.IsLoopback]. *)
  url_Parse : string → option URL;
  (** The error of [url.Parse] on a string it refuses. *)
  url_ParseError : string → error;
  net_loopback_ip : string → bool;
  (** [strings.ToUpper], [strings.ToLower], [strings.TrimSpace] and [strings.Fields] on a string
      with a byte outside ASCII. *)
  unicode_ToUpper : string → string;
  unicode_ToLower : string → string;
  unicode_TrimSpace : string → string;
  unicode_Fields : string → list string;
  (** [strconv.Quote], the [%q] verb. *)
  strconv_Quote : string → string;
}.

(** Documented facts about the hash functions: their output lengths. *)
Class PlatformOk `{Platform} : Prop := {
  sha256_length : ∀ s, len (sha256 s) = 32;
  hmac_sha256_length : ∀ k m, len (hmac_sha256 k m) = 32;
  pbkdf2_sha256_length : ∀ p s i n dk, pbkdf2_sha256 p s i n = Ok dk → len dk = n;
}.

(** [rand.Read]: the bytes the n-th read of the system generator returns for a
    buffer of a length; [None] is its failure. *)
Class Entropy := rand_read : nat → nat → option string.

(** The system generator works: every read fills its buffer. *)
Class EntropyOk `{Entropy} : Prop :=
  rand_read_ok : ∀ n k, ∃ b, rand_read n k = Some b ∧ len b = k.

(** The order in which [for range] visits a map, which the language leaves open. *)
Class MapOrder := {
  range : ∀ {V : Type}, gmap string V → list (string * V);
  range_set : gset string → list string;
}.

(** Every entry is visited once. *)
Class MapOrderOk `{MapOrder} : Prop := {
  range_perm : ∀ V (m : gmap string V), range m ≡ₚ map_to_list m;
  range_set_perm : ∀ s : gset string, range_set s ≡ₚ elements s;
}.

Section unicode_aware.
Context `{Platform}.

(** [strings.ToUpper], with its ASCII fast path. *)
Definition strings_ToUpper (s : string) : string :=
  if str_forall is_ascii s then str_map ascii_upper s else unicode_ToUpper s.

(** [strings.ToLower], with its ASCII fast path. *)
Definition strings_ToLower (s : string) : string :=
  if str_forall is_ascii s then str_map ascii_lower s else unicode_ToLower s.

(** [strings.TrimSpace], with its ASCII fast path. *)
Definition strings_TrimSpace (s : string) : string :=
  if str_forall is_ascii s then trim_right is_space (trim_left is_space s)
  else unicode_TrimSpace s.

(** [strings.Fields], with its ASCII fast path: the maximal runs of
    characters that are not white space. [cur] is the field being read. *)
Fixpoint fields_go (cur : string) (s : string) : list string :=
  match s with
  | EmptyString => if bool_decide (cur = EmptyString) then [] else [cur]
  | String c s' =>
      if is_space c
      then (if bool_decide (cur = EmptyString) then [] else [cur]) ++ fields_go EmptyString s'
      else fields_go (cur +:+ String c EmptyString) s'
  end.
Definition strings_Fields (s : string) : list string :=
  if str_forall is_ascii s then fields_go EmptyString s else unicode_Fields s.
End unicode_aware.

(** ** [encoding/hex] *)

Definition hex_digit (n : N) : ascii := chr (if (n <? 10)%N then 48 + n else 87 + n)%N.

Fixpoint hex_EncodeToString (s : string) : string :=
  match s with
  | EmptyString => EmptyString
  | String c s' =>
      String (hex_digit (code c / 16)) (String (hex_digit (code c mod 16)) (hex_EncodeToString s'))
  end.

(** ** [encoding/base64], without padding *)

(** The two alphabets share everything but the last two characters. *)
Definition b64_char (c62 c63 : ascii) (n : N) : ascii :=
  if (n <? 26)%N then chr (65 + n) else
  if (n <? 52)%N then chr (71 + n) else
  if (n <? 62)%N then chr (n - 4) else
  if (n =? 62)%N then c62 else c63.

Definition b64_val (c62 c63 c : ascii) : option N :=
  if is_upper c then Some (code c - 65)%N else
  if is_lower c then Some (code c - 71)%N else
  if is_digit c then Some (code c + 4)%N else
  if bool_decide (c = c62) then Some 62%N else
  if bool_decide (c = c63) then Some 63%N else None.

Section base64.
Context (c62 c63 : ascii).

Fixpoint b64_encode (s : string) : string :=
  match s with
  | EmptyString => EmptyString
  | String a EmptyString =>
      String (b64_char c62 c63 (code a / 4))
     (String (b64_char c62 c63 (code a mod 4 * 16)) EmptyString)
  | String a (String b EmptyString) =>
      String (b64_char c62 c63 (code a / 4))
     (String (b64_char c62 c63 (code a mod 4 * 16 + code b / 16))
     (String (b64_char c62 c63 (code b mod 16 * 4)) EmptyString))
  | String a (String b (String c s')) =>
      String (b64_char c62 c63 (code a / 4))
     (String (b64_char c62 c63 (code a mod 4 * 16 + code b / 16))
     (String (b64_char c62 c63 (code b mod 16 * 4 + code c / 64))
     (String (b64_char c62 c63 (code c mod 64)) (b64_encode s'))))
  end%N.

(** Decoding a text without line breaks: the trailing bits of a short last
    group are dropped, and a last group of one character is an error. *)
Fixpoint b64_decode_clean (s : string) : option string :=
  match s with
  | EmptyString => Some EmptyString
  | String _ EmptyString => None
  | String a (String b EmptyString) =>
      va ← b64_val c62 c63 a; vb ← b64_val c62 c63 b;
      Some (String (chr (va * 4 + vb / 16)) EmptyString)
  | String a (String b (String c EmptyString)) =>
      va ← b64_val c62 c63 a; vb ← b64_val c62 c63 b; vc ← b64_val c62 c63 c;
      Some (String (chr (va * 4 + vb / 16)) (String (chr (vb mod 16 * 16 + vc / 4)) EmptyString))
  | String a (String b (String c (String d s'))) =>
      va ← b64_val c62 c63 a; vb ← b64_val c62 c63 b;
      vc ← b64_val c62 c63 c; vd ← b64_val c62 c63 d;
      r ← b64_decode_clean s';
      Some (String (chr (va * 4 + vb / 16)) (String (chr (vb mod 16 * 16 + vc / 4))
             (String (chr (vc mod 4 * 64 + vd)) r)))
  end%N.

(** The decoder skips carriage returns and line feeds. *)
Definition b64_decode (s : string) : option string :=
  b64_decode_clean (str_filter (λ c, negb (bool_decide (c = "010"%char) || bool_decide (c = "013"%char))) s).
End base64.

(** [base64.RawStdEncoding] and [base64.RawURLEncoding]. *)
Definition RawStd_EncodeToString : string → string := b64_encode "+" "/".
Definition RawStd_DecodeString : string → option string := b64_decode "+" "/".
Definition RawURL_EncodeToString : string → string := b64_encode "-" "_".
Definition RawURL_DecodeString : string → option string := b64_decode "-" "_".

(** ** [strconv] *)

Fixpoint atoi_digits (acc : Z) (s : string) : option Z :=
  match s with
  | EmptyString => Some acc
  | String c s' =>
      if is_digit c then atoi_digits (acc * 10 + (Z.of_N (code c) - 48))%Z s' else None
  end.

(** [strconv.Atoi]: an optional sign, at least one digit, within [int]. *)
Definition strconv_Atoi (s : string) : option Z :=
  let '(neg, digits) :=
    match s with
    | String c d =>
        if bool_decide (c = "-"%char) then (true, d)
        else if bool_decide (c = "+"%char) then (false, d) else (false, s)
    | EmptyString => (false, s)
    end in
  if bool_decide (digits = EmptyString) then None
  else v ← atoi_digits 0 digits;
       let z := if neg then (- v)%Z else v in
       if ((- 2 ^ 63 <=? z) && (z <=? max_int64))%Z then Some z else None.

(** [strconv.Itoa]. *)
Definition strconv_Itoa (z : Z) : string := pretty z.

(** ** [net/url]: query components *)

Definition upper_hex (n : N) : ascii := chr (if (n <? 10)%N then 48 + n else 55 + n)%N.

Definition hex_val (c : ascii) : option N :=
  if is_digit c then Some (code c - 48)%N else
  if in_range 97 102 c then Some (code c - 87)%N else
  if in_range 65 70 c then Some (code c - 55)%N else None.

(** The characters [url.QueryEscape] leaves alone. *)
Definition is_unreserved (c : ascii) : bool :=
  is_upper c || is_lower c || is_digit c ||
  bool_decide (c = "-"%char) || bool_decide (c = "_"%char) ||
  bool_decide (c = "."%char) || bool_decide (c = "~"%char).

Fixpoint url_QueryEscape (s : string) : string :=
  match s with
  | EmptyString => EmptyString
  | String c s' =>
      if is_unreserved c then String c (url_QueryEscape s')
      else if bool_decide (c = " "%char) then String "+" (url_QueryEscape s')
      else String "%" (String (upper_hex (code c / 16))
             (String (upper_hex (code c mod 16)) (url_QueryEscape s')))
  end.

(** [url.QueryUnescape]; [None] is the error on a malformed escape. *)
Fixpoint url_QueryUnescape (s : string) : option string :=
  match s with
  | EmptyString => Some EmptyString
  | String c s' =>
      if bool_decide (c = "%"%char) then
        match s' with
        | String a (String b s'') =>
            va ← hex_val a; vb ← hex_val b;
            String (chr (va * 16 + vb)) <$> url_QueryUnescape s''
        | _ => None
        end
      else if bool_decide (c = "+"%char) then String " " <$> url_QueryUnescape s'
      else String c <$> url_QueryUnescape s'
  end.

(** ** [net/url]: path segments, and [path] *)

(** The characters [url.PathEscape] leaves alone. *)
Definition is_path_plain (c : ascii) : bool :=
  is_unreserved c || existsb (λ d, bool_decide (c = d)) ["$"; "&"; "+"; ":"; "="; "@"]%char.

Fixpoint url_PathEscape (s : string) : string :=
  match s with
  | EmptyString => EmptyString
  | String c s' =>
      if is_path_plain c then String c (url_PathEscape s')
      else String "%" (String (upper_hex (code c / 16))
             (String (upper_hex (code c mod 16)) (url_PathEscape s')))
  end.

(** [url.PathUnescape]; [None] is the error on a malformed escape. *)
Fixpoint url_PathUnescape (s : string) : option string :=
  match s with
  | EmptyString => Some EmptyString
  | String c s' =>
      if bool_decide (c = "%"%char) then
        match s' with
        | String a (String b s'') =>
            va ← hex_val a; vb ← hex_val b;
            String (chr (va * 16 + vb)) <$> url_PathUnescape s''
        | _ => None
        end
      else String c <$> url_PathUnescape s'
  end.

(** One element of a rooted path, after the elements already taken (the last
    one first): empty ones and [.] are dropped, [..] drops the one before it. *)
Definition clean_elem (acc : list string) (e : string) : list string :=
  if bool_decide (e = EmptyString) || bool_decide (e = ".") then acc
  else if bool_decide (e = "..") then tail acc
  else e :: acc.

(** [path.Clean("/" + s)]: the shortest equivalent rooted path. *)
Definition path_CleanRooted (s : string) : string :=
  "/" +:+ strings_Join (reverse (foldl clean_elem [] (strings_Split s "/"))) "/".

(** ** [sort] *)

(** [sort.SliceStable(l, less)]: every element goes before the first one of the
    rest that is not less than it. *)
Fixpoint insert_stable {A} (less : A → A → bool) (x : A) (l : list A) : list A :=
  match l with
  | [] => [x]
  | y :: l' => if less y x then y :: insert_stable less x l' else x :: y :: l'
  end.
Definition sort_SliceStable {A} (less : A → A → bool) (l : list A) : list A :=
  foldr (insert_stable less) [] l.

(** The loop of [sort.Search]: [i] and [j] bracket the answer. *)
Fixpoint search_loop (fuel : nat) (f : nat → bool) (i j : nat) : nat :=
  match fuel with
  | 0 => i
  | S fuel =>
      if i <? j then
        let h := (i + j) / 2 in
        if f h then search_loop fuel f i h else search_loop fuel f (S h) j
      else i
  end.

(** [sort.Search(n, f)]: [n] iterations are more than the halving needs. *)
Definition sort_Search (n : nat) (f : nat → bool) : nat := search_loop n f 0 n.

(** [sort.Slice(l, func(i, j) { return key(l[i]) < key(l[j]) })]. The keys of
    every call are distinct, so the order is the only one. *)
Definition key_le {A} (key : A → string) (a b : A) : Prop := String.le (key a) (key b).

#[export] Instance key_le_dec {A} (key : A → string) : RelDecision (key_le key).
Proof. intros a b. unfold key_le. apply _. Defined.

Definition sort_by {A} (key : A → string) (l : list A) : list A := merge_sort (key_le key) l.

(** [a < b] on strings. *)
Definition str_lt (a b : string) : bool := String.ltb a b.

(** ** Lemmas: byte strings *)

Lemma str_app_assoc (a b c : string) : (a +:+ b) +:+ c = a +:+ (b +:+ c).
Proof. induction a as [|x a IH]; [done|]. unfold String.app in *. simpl. by rewrite IH. Qed.

Lemma str_app_nil_r (a : string) : a +:+ EmptyString = a.
Proof. induction a as [|x a IH]; [done|]. unfold String.app in *. simpl. by rewrite IH. Qed.

Lemma len_app (a b : string) : len (a +:+ b) = len a + len b.
Proof. induction a as [|x a IH]; [done|]. unfold String.app in *. simpl. by rewrite IH. Qed.

Lemma CutPrefix_app (p s : string) : strings_CutPrefix (p +:+ s) p = Some s.
Proof.
  induction p as [|c p IH]; [by destruct s|]. unfold String.app in *. simpl.
  by rewrite bool_decide_true.
Qed.

Lemma CutPrefix_Some (p s r : string) : strings_CutPrefix s p = Some r → s = p +:+ r.
Proof.
  revert s. induction p as [|c p IH]; intros [|d s] Hs; simplify_eq/=; try done.
  case_bool_decide; [subst|done]. apply IH in Hs. unfold String.app in *. simpl. by rewrite Hs.
Qed.

Lemma str_forall_app P (a b : string) : str_forall P (a +:+ b) = str_forall P a && str_forall P b.
Proof.
  induction a as [|x a IH]; [done|]. unfold String.app in *. simpl. rewrite IH.
  by rewrite andb_assoc.
Qed.

(** A string with one separator is read one way: from the side that does not
    contain it. *)
Definition lacks (c : ascii) (s : string) : bool := str_forall (λ d, negb (bool_decide (d = c))) s.

Lemma str_sep_inj_l c a b a' b' :
  lacks c a = true → lacks c a' = true → a +:+ String c b = a' +:+ String c b' → a = a' ∧ b = b'.
Proof.
  unfold lacks. revert a'. induction a as [|d a IH]; intros [|d' a']; simpl.
  - by intros _ _ [= ->].
  - intros _ Hc [= -> _]. by rewrite bool_decide_true in Hc.
  - intros Hc _ [= -> _]. by rewrite bool_decide_true in Hc.
  - intros [_ Ha]%andb_true_iff [_ Ha']%andb_true_iff [= -> Heq].
    by destruct (IH a' Ha Ha' Heq) as [-> ->].
Qed.

Lemma lacks_app c a b : lacks c (a +:+ b) = lacks c a && lacks c b.
Proof. apply str_forall_app. Qed.

Lemma str_sep_inj_r c a b a' b' :
  lacks c b = true → lacks c b' = true → a +:+ String c b = a' +:+ String c b' → a = a' ∧ b = b'.
Proof.
  revert a'. induction a as [|d a IH]; intros [|d' a']; simpl; intros Hb Hb' Heq.
  - by injection Heq as ->.
  - injection Heq as -> Hb2. exfalso. subst b. rewrite lacks_app in Hb. simpl in Hb.
    unfold lacks in Hb at 2. simpl in Hb. rewrite bool_decide_true in Hb by done.
    simpl in Hb. by rewrite andb_false_r in Hb.
  - injection Heq as -> Hb2. exfalso. subst b'. rewrite lacks_app in Hb'. simpl in Hb'.
    unfold lacks in Hb' at 2. simpl in Hb'. rewrite bool_decide_true in Hb' by done.
    simpl in Hb'. by rewrite andb_false_r in Hb'.
  - injection Heq as -> Heq. by destruct (IH a' Hb Hb' Heq) as [-> ->].
Qed.

(** With one separator on one side there is one on the other. *)
Lemma str_sep_once c a b a' b' :
  lacks c a = true → lacks c b = true → a +:+ String c b = a' +:+ String c b' → a = a' ∧ b = b'.
Proof.
  intros Ha Hb Heq. assert (Hb' : lacks c b' = true).
  { revert a' Heq. induction a as [|d a IH]; intros [|d' a']; simpl; intros Heq.
    - by injection Heq as <-.
    - injection Heq as _ ->. rewrite lacks_app in Hb. unfold lacks in Hb at 2. simpl in Hb.
      rewrite bool_decide_true in Hb by done. simpl in Hb. by rewrite andb_false_r in Hb.
    - injection Heq as -> _. unfold lacks in Ha. simpl in Ha. by rewrite bool_decide_true in Ha.
    - injection Heq as _ Heq. apply (IH (proj2 (proj1 (andb_true_iff _ _) Ha)) a' Heq). }
  by apply (str_sep_inj_r c).
Qed.

Lemma str_forall_impl (P Q : ascii → bool) s :
  (∀ c, P c = true → Q c = true) → str_forall P s = true → str_forall Q s = true.
Proof.
  intros HPQ. induction s as [|c s IH]; simpl; [done|].
  intros [Hc Hs]%andb_true_iff. apply andb_true_iff. auto.
Qed.

(** Facts about one character, by evaluation on all 256. *)
Ltac all_chars := intros [[] [] [] [] [] [] [] []]; vm_compute; try done.

Lemma ascii_upper_idemp c : ascii_upper (ascii_upper c) = ascii_upper c.
Proof. revert c. all_chars. Qed.

Lemma ascii_upper_ascii c : is_ascii (ascii_upper c) = is_ascii c.
Proof. revert c. all_chars. Qed.

Lemma hex_digit_inj n m : (n < 16 → m < 16 → hex_digit n = hex_digit m → n = m)%N.
Proof.
  unfold hex_digit. intros ??.
  destruct (N.ltb_spec n 10), (N.ltb_spec m 10); intros E%(f_equal code);
    rewrite !code_chr in E by lia; lia.
Qed.

(** [hex.EncodeToString] loses nothing. *)
Lemma hex_EncodeToString_inj s t : hex_EncodeToString s = hex_EncodeToString t → s = t.
Proof.
  revert t. induction s as [|a s IH]; intros [|b t]; cbn [hex_EncodeToString];
    intros E; try done. injection E as E1 E2 E3.
  pose proof (code_lt a). pose proof (code_lt b).
  apply hex_digit_inj in E1; [|lia..]. apply hex_digit_inj in E2; [|lia..].
  f_equal; [|auto]. rewrite <-(chr_code a), <-(chr_code b). f_equal. lia.
Qed.

(** ** Lemmas: the encodings *)

Lemma b64_char_val c62 c63 n :
  (n < 64)%N → b64_val c62 c63 c62 = Some 62%N → b64_val c62 c63 c63 = Some 63%N →
  b64_val c62 c63 (b64_char c62 c63 n) = Some n.
Proof.
  intros Hn H62 H63. unfold b64_char.
  destruct (N.ltb_spec n 26) as [?|?].
  { unfold b64_val, is_upper, in_range. rewrite code_chr by lia.
    rewrite (proj2 (N.leb_le _ _)), (proj2 (N.leb_le _ _)) by lia. simpl. f_equal. lia. }
  destruct (N.ltb_spec n 52) as [?|?].
  { unfold b64_val, is_upper, is_lower, in_range. rewrite code_chr by lia.
    rewrite (proj2 (N.leb_gt (71 + n) 90)) by lia. rewrite andb_false_r.
    rewrite !(proj2 (N.leb_le _ _)) by lia. simpl. f_equal. lia. }
  destruct (N.ltb_spec n 62) as [?|?].
  { unfold b64_val, is_upper, is_lower, is_digit, in_range. rewrite code_chr by lia.
    rewrite (proj2 (N.leb_gt 65 (n - 4))), (proj2 (N.leb_gt 97 (n - 4))) by lia.
    rewrite !(proj2 (N.leb_le _ _)) by lia. simpl. f_equal. lia. }
  destruct (N.eqb_spec n 62) as [->|?]; [done|]. assert (n = 63%N) as -> by lia. done.
Qed.

Section base64_lemmas.
Context (c62 c63 : ascii).
Hypothesis (H62 : b64_val c62 c63 c62 = Some 62%N) (H63 : b64_val c62 c63 c63 = Some 63%N).

Lemma b64_decode_clean_encode s : b64_decode_clean c62 c63 (b64_encode c62 c63 s) = Some s.
Proof.
  assert (Hv : ∀ n, (n < 64)%N → b64_val c62 c63 (b64_char c62 c63 n) = Some n)
    by (intros; by apply b64_char_val).
  assert (Hlen : ∃ n, (len s <= n)%nat) by eauto. destruct Hlen as [n Hlen].
  revert s Hlen. induction n as [|n IH]; intros s Hlen.
  { destruct s; [done|simpl in Hlen; lia]. }
  destruct s as [|a [|b [|c s]]]; [done|..];
    cbn [b64_encode b64_decode_clean];
    pose proof (code_lt a); try pose proof (code_lt b); try pose proof (code_lt c);
    rewrite !Hv by lia; cbn [mbind option_bind].
  - do 2 f_equal. apply chr_eq. lia.
  - do 2 f_equal; [|f_equal]; apply chr_eq; lia.
  - rewrite IH by (simpl in Hlen; lia). cbn [mbind option_bind].
    do 2 f_equal; [|f_equal; [|f_equal]]; apply chr_eq; lia.
Qed.

Lemma b64_encode_chars (P : ascii → bool) s :
  (∀ n, (n < 64)%N → P (b64_char c62 c63 n) = true) → str_forall P (b64_encode c62 c63 s) = true.
Proof.
  intros HP. assert (Hlen : ∃ n, (len s <= n)%nat) by eauto. destruct Hlen as [n Hlen].
  revert s Hlen. induction n as [|n IH]; intros s Hlen.
  { destruct s; [done|simpl in Hlen; lia]. }
  destruct s as [|a [|b [|c s]]]; [done|..];
    cbn [b64_encode str_forall];
    pose proof (code_lt a); try pose proof (code_lt b); try pose proof (code_lt c);
    rewrite !HP by lia; simpl; [done..|]. apply IH. simpl in Hlen. lia.
Qed.
End base64_lemmas.

Lemma str_filter_id P s : str_forall P s = true → str_filter P s = s.
Proof.
  induction s as [|c s IH]; simpl; [done|]. intros [-> Hs]%andb_true_iff. by rewrite IH.
Qed.

(** The 64 digits, by evaluation. *)
Lemma N_below_64 (P : N → bool) :
  forallb P (N.of_nat <$> seq 0 64) = true → ∀ n, (n < 64)%N → P n = true.
Proof.
  rewrite List.forallb_forall. intros HP n Hn. apply HP. apply list_elem_of_In, list_elem_of_fmap.
  exists (N.to_nat n). rewrite N2Nat.id. split; [done|]. apply elem_of_seq. lia.
Qed.

Lemma RawURL_roundtrip s : RawURL_DecodeString (RawURL_EncodeToString s) = Some s.
Proof.
  unfold RawURL_DecodeString, RawURL_EncodeToString, b64_decode.
  rewrite str_filter_id; [by apply b64_decode_clean_encode|].
  apply b64_encode_chars. by apply (N_below_64 (λ n, negb _)).
Qed.

Lemma RawStd_roundtrip s : RawStd_DecodeString (RawStd_EncodeToString s) = Some s.
Proof.
  unfold RawStd_DecodeString, RawStd_EncodeToString, b64_decode.
  rewrite str_filter_id; [by apply b64_decode_clean_encode|].
  apply b64_encode_chars. by apply (N_below_64 (λ n, negb _)).
Qed.

(** The encoded length: four characters for three bytes, none for padding. *)
Lemma b64_encode_length c62 c63 s : len (b64_encode c62 c63 s) = (4 * len s + 2) / 3.
Proof.
  assert (Hlen : ∃ n, (len s <= n)%nat) by eauto. destruct Hlen as [n Hlen].
  revert s Hlen. induction n as [|n IH]; intros s Hlen.
  { destruct s; [done|simpl in Hlen; lia]. }
  destruct s as [|a [|b [|c s]]]; [done..|].
  cbn [b64_encode String.length]. rewrite IH by (simpl in Hlen; lia).
  replace (4 * S (S (S (len s))) + 2) with (4 * len s + 2 + 4 * 3) by lia.
  rewrite Nat.div_add by lia. lia.
Qed.

(** [url.QueryUnescape] undoes [url.QueryEscape] on every byte string. *)
Lemma hex_val_upper_hex n : (n < 16)%N → hex_val (upper_hex n) = Some n.
Proof.
  intros Hn. assert (Hall : forallb (λ n, bool_decide (hex_val (upper_hex n) = Some n))
    (N.of_nat <$> seq 0 16) = true) by (vm_compute; reflexivity).
  rewrite List.forallb_forall in Hall. eapply bool_decide_eq_true_1, Hall.
  apply list_elem_of_In, list_elem_of_fmap. exists (N.to_nat n). rewrite N2Nat.id.
  split; [done|]. apply elem_of_seq. lia.
Qed.

Lemma unreserved_plain c :
  is_unreserved c = true → c ≠ "%"%char ∧ c ≠ "+"%char.
Proof. intros Hc. split; intros ->; vm_compute in Hc; done. Qed.

Lemma QueryUnescape_Escape s : url_QueryUnescape (url_QueryEscape s) = Some s.
Proof.
  induction s as [|c s IH]; [done|]. cbn [url_QueryEscape].
  destruct (is_unreserved c) eqn:Hu; [|case_bool_decide as Hsp].
  - apply unreserved_plain in Hu as [??]. cbn [url_QueryUnescape].
    rewrite !bool_decide_false by done. by rewrite IH.
  - subst. cbn [url_QueryUnescape]. rewrite bool_decide_false, bool_decide_true by done.
    by rewrite IH.
  - cbn [url_QueryUnescape]. rewrite bool_decide_true by done. pose proof (code_lt c).
    rewrite !hex_val_upper_hex by lia. cbn [mbind option_bind]. rewrite IH.
    cbn. do 2 f_equal. apply chr_eq. lia.
Qed.

(** ** Lemmas: [sort] *)

(** [f] goes from false to true once on [0, n). *)
Definition monotone_below (n : nat) (f : nat → bool) : Prop :=
  ∀ i j, i ≤ j → j < n → f i = true → f j = true.

Lemma search_loop_spec fuel f n i j :
  monotone_below n f → i ≤ j → j ≤ n → j - i ≤ fuel →
  (∀ k, k < i → f k = false) → (∀ k, j ≤ k → k < n → f k = true) →
  search_loop fuel f i j ≤ n ∧
  (∀ k, k < search_loop fuel f i j → f k = false) ∧
  (∀ k, search_loop fuel f i j ≤ k → k < n → f k = true).
Proof.
  intros Hm. revert i j. induction fuel as [|fuel IH]; intros i j Hij Hjn Hf Hlo Hhi;
    cbn [search_loop].
  { assert (i = j) as -> by lia. eauto with lia. }
  destruct (Nat.ltb_spec i j) as [Hlt|Hge]; [|assert (i = j) as -> by lia; eauto with lia].
  assert (Hh : i ≤ (i + j) / 2 < j) by lia.
  destruct (f ((i + j) / 2)) eqn:E.
  - apply IH; try lia; [done|]. intros k Hk Hkn. by apply (Hm ((i + j) / 2) k).
  - apply IH; try lia; [|done]. intros k Hk. destruct (f k) eqn:Ek; [|done].
    rewrite <-E. symmetry. apply (Hm k); [lia..|done].
Qed.

(** [sort.Search] finds the boundary of a monotone test: it returns within
    [0, n], everything before is false, everything from it on is true. *)
Lemma sort_Search_spec n f :
  monotone_below n f →
  sort_Search n f ≤ n ∧ (∀ k, k < sort_Search n f → f k = false) ∧
  (∀ k, sort_Search n f ≤ k → k < n → f k = true).
Proof. intros Hm. apply search_loop_spec; try lia; done. Qed.

#[export] Instance key_le_trans {A} (key : A → string) : Transitive (key_le key).
Proof. intros a b c. unfold key_le. by etrans. Qed.
#[export] Instance key_le_total {A} (key : A → string) : Total (key_le key).
Proof. intros a b. apply (total String.le (key a) (key b)). Qed.

Lemma sort_by_perm {A} (key : A → string) l : sort_by key l ≡ₚ l.
Proof. apply merge_sort_Permutation. Qed.

Lemma sort_by_sorted {A} (key : A → string) l : StronglySorted (key_le key) (sort_by key l).
Proof. apply StronglySorted_merge_sort; apply _. Qed.

(** Sorting by distinct keys has one answer, whatever order the input came in. *)
Lemma sort_by_unique {A} (key : A → string) l1 l2 :
  NoDup (key <$> l1) → l1 ≡ₚ l2 → sort_by key l1 = sort_by key l2.
Proof.
  intros Hnd Hp. apply (StronglySorted_unique_strong (key_le key)).
  - intros x y Hx Hy Hxy Hyx.
    assert (Hk : key x = key y) by (eapply (anti_symm String.le); done).
    rewrite sort_by_perm in Hx, Hy. rewrite <-Hp in Hy.
    apply list_elem_of_lookup in Hx as [i Hi]. apply list_elem_of_lookup in Hy as [j Hj].
    assert (i = j) as <-; [|congruence].
    apply (NoDup_lookup (key <$> l1) i j (key x) Hnd);
      rewrite list_lookup_fmap, ?Hi, ?Hj; simpl; congruence.
  - apply sort_by_sorted.
  - apply sort_by_sorted.
  - by rewrite !sort_by_perm.
Qed.

(** [<] on strings is the strict part of the total order [String.le]. *)
Lemma str_lt_spec a b : str_lt a b = true ↔ String.le a b ∧ a ≠ b.
Proof.
  unfold str_lt, String.ltb, String.le, String.leb.
  destruct (String.compare a b) eqn:E; split; try done.
  - intros [_ Hne]. apply String.compare_eq_iff in E. done.
  - intros _. split; [done|]. intros ->.
    assert (String.compare b b = Eq) as E'.
    { clear. induction b as [|c b IH]; simpl; [done|].
      unfold Ascii.compare. by rewrite N.compare_refl. }
    congruence.
  - by intros [? _].
Qed.

Lemma str_lt_irrefl a : str_lt a a = false.
Proof. apply not_true_iff_false. rewrite str_lt_spec. naive_solver. Qed.

Lemma str_lt_trans a b c : str_lt a b = true → str_lt b c = true → str_lt a c = true.
Proof.
  rewrite !str_lt_spec. intros [Hab Hne] [Hbc ?]. split; [by etrans|].
  intros ->. apply Hne. by apply (anti_symm String.le).
Qed.

Lemma str_lt_total a b : str_lt a b = true ∨ a = b ∨ str_lt b a = true.
Proof.
  destruct (decide (a = b)); [by right; left|].
  destruct (total String.le a b) as [?|?]; [left|right; right]; by apply str_lt_spec.
Qed.

Lemma str_lt_asym a b : str_lt a b = true → str_lt b a = false.
Proof.
  intros Hab. apply not_true_iff_false. intros Hba.
  pose proof (str_lt_trans _ _ _ Hab Hba) as Haa. by rewrite str_lt_irrefl in Haa.
Qed.

Lemma str_lt_ge a b : str_lt a b = false ↔ b = a ∨ str_lt b a = true.
Proof.
  split.
  - intros Hab. destruct (str_lt_total a b) as [?|[?|?]]; [congruence|by left|by right].
  - intros [->|?]; [apply str_lt_irrefl|by apply str_lt_asym].
Qed.

Lemma str_lt_ge_trans a b c : str_lt b a = false → str_lt c b = false → str_lt c a = false.
Proof.
  intros [E|Hba]%str_lt_ge [E'|Hcb]%str_lt_ge; apply str_lt_ge.
  - left. congruence.
  - right. by rewrite E.
  - right. by rewrite <-E'.
  - right. by eapply str_lt_trans.
Qed.

(** The stable sort permutes and sorts; by a key of two values it is the first ones, then
    the second ones; its head is a least element. *)
Section stable_sort.
Context {A : Type} (less : A → A → bool).

Lemma insert_stable_perm x l : insert_stable less x l ≡ₚ x :: l.
Proof.
  induction l as [|y l IH]; simpl; [done|]. case_match; [|done]. rewrite IH. apply perm_swap.
Qed.
Lemma sort_SliceStable_perm l : sort_SliceStable less l ≡ₚ l.
Proof. induction l as [|x l IH]; simpl; [done|]. by rewrite insert_stable_perm, IH. Qed.

Context (Hasym : ∀ a b, less a b = true → less b a = false).
Context (Htr : ∀ a b c, less b a = false → less c b = false → less c a = false).

Lemma insert_stable_sorted x l :
  StronglySorted (λ a b, less b a = false) l → StronglySorted (λ a b, less b a = false) (insert_stable less x l).
Proof using Hasym Htr.
  induction 1 as [|y l Hl IH Hy]; simpl; [repeat constructor|]. destruct (less y x) eqn:E.
  - constructor; [done|]. rewrite insert_stable_perm. constructor; [by apply Hasym|done].
  - constructor; [by constructor|]. constructor; [done|]. eapply Forall_impl; [exact Hy|]. simpl. intros z Hz.
    by apply (Htr _ y).
Qed.
Lemma sort_SliceStable_sorted l : StronglySorted (λ a b, less b a = false) (sort_SliceStable less l).
Proof using Hasym Htr. induction l; simpl; [constructor|]. by apply insert_stable_sorted. Qed.

Lemma sorted_head x l :
  StronglySorted (λ a b, less b a = false) (x :: l) → ∀ y, y ∈ x :: l → less y x = false.
Proof using Hasym.
  intros [_ Hx]%StronglySorted_inv y [->|Hy]%elem_of_cons; [|by rewrite Forall_forall in Hx; apply Hx].
  destruct (less x x) eqn:E; [|done]. by rewrite Hasym in E.
Qed.

Lemma sort_SliceStable_head l x :
  head (sort_SliceStable less l) = Some x → x ∈ l ∧ ∀ y, y ∈ l → less y x = false.
Proof using Hasym Htr.
  pose proof (sort_SliceStable_sorted l) as Hs. intros Hx. setoid_rewrite <-(sort_SliceStable_perm l).
  destruct (sort_SliceStable less l) as [|y l']; simplify_eq/=. split; [by left|by apply sorted_head].
Qed.
End stable_sort.

Lemma sort_SliceStable_two {A} (rank : A → nat) l :
  Forall (λ x, rank x ≤ 1) l →
  sort_SliceStable (λ a b, rank a <? rank b) l =
    filter (λ x, rank x = 0) l ++ filter (λ x, rank x = 1) l.
Proof.
  induction 1 as [|x l Hx _ IH]; [done|]. cbn [sort_SliceStable foldr].
  change (foldr _ [] l) with (sort_SliceStable (λ a b, rank a <? rank b) l). rewrite IH, !filter_cons.
  assert (H0 : Forall (λ y, rank y = 0) (filter (λ x, rank x = 0) l))
    by (apply Forall_forall; by intros y [? _]%list_elem_of_filter).
  assert (H1 : Forall (λ y, rank y = 1) (filter (λ x, rank x = 1) l))
    by (apply Forall_forall; by intros y [? _]%list_elem_of_filter).
  destruct (decide (rank x = 0)) as [E|E].
  - rewrite (decide_False (P:=rank x = 1)) by lia. simpl.
    destruct (filter (λ x, rank x = 0) l ++ _) as [|y l'] eqn:El; simpl; [done|].
    rewrite E. by destruct (rank y).
  - rewrite (decide_True (P:=rank x = 1)) by lia.
    clear IH. induction H0 as [|y l0 Hy H0 IH0]; simpl.
    + destruct H1 as [|y l1 Hy _]; simpl; [done|]. by replace (rank y <? rank x) with false
        by (symmetry; apply Nat.ltb_ge; lia).
    + replace (rank y <? rank x) with true by (symmetry; apply Nat.ltb_lt; lia). simpl. by f_equal.
Qed.

#[export] Hint Resolve str_lt_irrefl str_lt_trans str_lt_asym sort_by_perm sort_by_sorted : r0semi.

(** ** Keyset paging over a sorted slice *)

(** [sort.Search(len(l), func(i) { return P(l[i]) })]. *)
Definition search_list {A} (P : A → bool) (l : list A) : nat :=
  sort_Search (length l) (λ i, match l !! i with Some x => P x | None => false end).

(** On a slice where [P], once true, stays true, it splits the slice. *)
Lemma search_list_split {A} (P : A → bool) l :
  (∀ i j x y, i < j → l !! i = Some x → l !! j = Some y → P x = true → P y = true) →
  take (search_list P l) l = filter (λ x, P x = false) l ∧
  drop (search_list P l) l = filter (λ x, P x = true) l.
Proof.
  intros Hup. unfold search_list. set (f := λ i, _).
  assert (Hm : monotone_below (length l) f).
  { intros i j Hij Hj. unfold f. destruct (l !! i) as [x|] eqn:Ei; [|done].
    destruct (lookup_lt_is_Some_2 l j Hj) as [y Ey]. rewrite Ey.
    destruct (decide (i = j)) as [->|]; [by simplify_eq|]. apply (Hup i j); [lia|done..]. }
  destruct (sort_Search_spec _ _ Hm) as (Hle & Hlo & Hhi).
  set (n := sort_Search (length l) f) in *.
  assert (Ht : Forall (λ x, P x = false) (take n l)).
  { apply Forall_lookup. intros i x [Hx Hi]%lookup_take_Some. specialize (Hlo i Hi).
    unfold f in Hlo. by rewrite Hx in Hlo. }
  assert (Hd : Forall (λ x, P x = true) (drop n l)).
  { apply Forall_lookup. intros i x Hx. rewrite lookup_drop in Hx.
    assert (n + i < length l) by (apply lookup_lt_Some in Hx; lia).
    specialize (Hhi (n + i) ltac:(lia) ltac:(done)). unfold f in Hhi. by rewrite Hx in Hhi. }
  rewrite <-(take_drop n l) at 2 4. rewrite !filter_app. split.
  - rewrite filter_all, (filter_none _ (drop n l)), app_nil_r; [done| |done].
    eapply Forall_impl; [exact Hd|]. simpl. congruence.
  - rewrite (filter_none _ (take n l)), filter_all; [done|done|].
    eapply Forall_impl; [exact Ht|]. simpl. congruence.
Qed.

Section keyset.
Context {A : Type} (key : A → string).

(** [l[sort.Search(len(l), func(i) { return key(l[i]) > after }):]]. *)
Definition after_key (after : string) (l : list A) : list A :=
  drop (search_list (λ x, str_lt after (key x)) l) l.

(** On a sorted slice it is the elements with a greater key. *)
Lemma after_key_spec after l :
  StronglySorted (key_le key) l →
  after_key after l = filter (λ x, str_lt after (key x) = true) l.
Proof.
  intros Hs. apply search_list_split. intros i j x y Hij Hi Hj.
  pose proof (sorted_lookup _ _ _ _ _ _ Hs Hi Hj Hij) as Hxy. unfold key_le in Hxy.
  rewrite !str_lt_spec. intros [Hax Hne].
  split; [by etrans|]. intros ->. apply Hne. by apply (anti_symm String.le).
Qed.

(** The elements after the last one of a prefix are the rest. *)
Lemma after_key_prefix l1 l2 x :
  StronglySorted (key_le key) (l1 ++ l2) → NoDup (key <$> l1 ++ l2) →
  last l1 = Some x → after_key (key x) (l1 ++ l2) = l2.
Proof.
  intros Hs Hnd Hx. rewrite after_key_spec by done. rewrite filter_app.
  apply last_Some in Hx as [l0 ->].
  rewrite (filter_none _ (l0 ++ [x])); [rewrite filter_all; [done|]|].
  - apply Forall_forall. intros y Hy. apply str_lt_spec. split.
    + apply (StronglySorted_app_1_elem_of (key_le key) (l0 ++ [x]) l2); [done|set_solver|done].
    + intros Heq. rewrite fmap_app in Hnd. apply NoDup_app in Hnd as (_ & Hnd & _).
      apply (Hnd (key x)); [|rewrite Heq]; apply list_elem_of_fmap; set_solver.
  - apply Forall_forall. intros y Hy. rewrite str_lt_spec. intros [Hle Hne].
    apply Hne. apply elem_of_app in Hy as [Hy|Hy]; [|set_solver].
    apply (anti_symm String.le); [done|].
    rewrite <-app_assoc in Hs.
    apply (StronglySorted_app_1_elem_of (key_le key) l0 ([x] ++ l2)); [done|done|set_solver].
Qed.
End keyset.

(** ** A platform for closed examples *)

(** One order the runtime may pick. *)
Definition canonical_order : MapOrder := {|
  range V m := map_to_list m;
  range_set s := elements s;
|}.
Lemma canonical_order_ok : @MapOrderOk canonical_order.
Proof. by split. Qed.

(** Hashes of the right length, and a runtime that leaves text outside ASCII
    alone. It is an instance only where an example asks for it. *)
Fixpoint fill (n : nat) (s : string) : string :=
  match n, s with
  | 0, _ => EmptyString
  | S n, EmptyString => String "." (fill n EmptyString)
  | S n, String c s' => String c (fill n s')
  end.

Definition toy_platform : Platform := {|
  sha256 := fill 32;
  hmac_sha256 k m := fill 32 (k +:+ m);
  pbkdf2_sha256 p s _ n := Ok (fill n (p +:+ s));
  url_Parse s :=
    match str_before ":" s with
    | Some scheme => Some (mkURL scheme EmptyString false s s s EmptyString EmptyString)
    | None => None
    end;
  url_ParseError s := New ("parse " +:+ s);
  net_loopback_ip _ := false;
  unicode_ToUpper s := s;
  unicode_ToLower s := s;
  unicode_TrimSpace s := s;
  unicode_Fields s := [s];
  strconv_Quote s := s;
|}.


Lemma fill_length n s : len (fill n s) = n.
Proof. revert s. induction n as [|n IH]; intros [|c s]; simpl; auto. Qed.

Lemma toy_platform_ok : @PlatformOk toy_platform.
Proof.
  constructor; [intros s; apply fill_length|intros k m; apply fill_length|].
  intros p s i n dk [= <-]. apply fill_length.
Qed.
