(* ===== verification/Scope.v ===== *)
(** * Scopes and the scope registry ([oauth/scope.go])

    Scope names, risk tiers, descriptors, the built-in catalogue, and the
    registry that resolves a requested scope set for a client. *)

From S2P Require Import Prelude GoStd.

(** ** Scope names *)

(** [Scope]: a namespaced permission such as "phigros.score.read". *)
Abbreviation Scope := string.

(** [Scope.Provider]: the first segment, when it is not empty. *)
Definition Scope_Provider (s : Scope) : string :=
  match str_before "." s with
  | Some p => p
  | None => EmptyString
  end.

(** The characters of one segment: lower-case letters, digits, underscore. The
    loop ranges over runes; a byte outside ASCII always yields a rune above
    the ranges tested, so testing bytes gives the same answer. *)
Definition segment_char (c : ascii) : bool :=
  bool_decide (c = "_"%char) || is_lower c || is_digit c.

Definition segment_ok (p : string) : bool :=
  negb (bool_decide (p = EmptyString)) && str_forall segment_char p.

(** [Scope.valid]. *)
Definition Scope_valid (s : Scope) : bool :=
  let parts := strings_Split s "." in
  if length parts <? 2 then false else forallb segment_ok parts.

(** [MustScope]; [None] is the panic. *)
Definition MustScope (s : string) : option Scope :=
  if Scope_valid s then Some s else None.

Definition ScopeAccountID : Scope := "account.id".
Definition ScopeTapTapAccount : Scope := "taptap.account.id".
Definition ScopePhigrosProfile : Scope := "phigros.profile.read".
Definition ScopePhigrosScore : Scope := "phigros.score.read".
Definition ScopePhigrosB30 : Scope := "phigros.b30.read".

(** [RawScope]. *)
Definition RawScope (game : string) : string := game +:+ ".raw.read".

(** ** Risk *)

(** [Risk] is an [int]; the four constants are its [iota]. *)
Definition Risk := Z.
Definition RiskLow : Risk := 0%Z.
Definition RiskMedium : Risk := 1%Z.
Definition RiskHigh : Risk := 2%Z.
Definition RiskCritical : Risk := 3%Z.

Definition Risk_String (r : Risk) : string :=
  if (r =? RiskLow)%Z then "low" else
  if (r =? RiskMedium)%Z then "medium" else
  if (r =? RiskHigh)%Z then "high" else
  if (r =? RiskCritical)%Z then "critical" else "unknown".

(** ** Descriptors *)

Record Descriptor := mkDescriptor {
  d_Scope : Scope;
  d_Title : string;
  d_Description : string;
  d_Risk : Risk;
  d_ExplicitConsent : bool;
  d_AllowedClients : list string;
}.

(** [Descriptor.allowsClient]: an empty allowlist allows every client. *)
Definition allowsClient (d : Descriptor) (id : string) : bool :=
  match d_AllowedClients d with
  | [] => true
  | cs => existsb (λ c, bool_decide (c = id)) cs
  end.

(** [DefaultDescriptors]. *)
Definition DefaultDescriptors : list Descriptor := [
  mkDescriptor ScopeAccountID "账号 ID" "读取你的 Re0Auth 账号标识（subject）。" RiskLow false [];
  mkDescriptor ScopeTapTapAccount "TapTap 账号" "读取你的 TapTap openid / unionid。" RiskLow false [];
  mkDescriptor ScopePhigrosProfile "读取 Phigros 档案"
    "通过 Re0Auth 代理读取你的 Phigros 档案（rks 等）。" RiskMedium false [];
  mkDescriptor ScopePhigrosScore "读取 Phigros 成绩"
    "通过 Re0Auth 代理读取你的 Phigros 成绩。" RiskMedium false [];
  mkDescriptor ScopePhigrosB30 "读取 Phigros B30"
    "通过 Re0Auth 代理读取你的 Phigros B30。" RiskMedium false []
].

(** ** The registry *)

(** [Registry]: its map; the read-write lock makes each operation one step. *)
Record Registry := mkRegistry { byScope : gmap string Descriptor }.

Definition emptyRegistry : Registry := mkRegistry ∅.

Section registry.
Context `{Platform}.

(** [Registry.Register]. *)
Definition Register (r : Registry) (d : Descriptor) : result Registry :=
  if negb (Scope_valid (d_Scope d)) then
    Err (New ("oauth: malformed scope " +:+ strconv_Quote (d_Scope d)))
  else if bool_decide (d_Title d = EmptyString) then
    Err (New ("oauth: scope " +:+ d_Scope d +:+ " needs a title"))
  else match byScope r !! d_Scope d with
  | Some _ => Err (New ("oauth: duplicate scope " +:+ d_Scope d))
  | None => Ok (mkRegistry (<[d_Scope d := d]> (byScope r)))
  end.

(** [NewRegistry]: registers in order, stopping at the first error. *)
Fixpoint register_all (r : Registry) (ds : list Descriptor) : result Registry :=
  match ds with
  | [] => Ok r
  | d :: ds' => match Register r d with
                | Err e => Err e
                | Ok r' => register_all r' ds'
                end
  end.
Definition NewRegistry (ds : list Descriptor) : result Registry := register_all emptyRegistry ds.

(** [DefaultRegistry]; [None] is the panic. *)
Definition DefaultRegistry : option Registry :=
  match NewRegistry DefaultDescriptors with Ok r => Some r | Err _ => None end.

(** [Registry.Get]. *)
Definition Registry_Get (r : Registry) (s : Scope) : option Descriptor := byScope r !! s.

(** [Registry.Descriptors], ordered by scope. *)
Definition Descriptors (r : Registry) : list Descriptor :=
  sort_by d_Scope (map_to_list (byScope r)).*2.

(** The loop of [Registry.Resolve]; [seen] holds the scopes already met. *)
Fixpoint resolve_loop (r : Registry) (clientID : string) (seen : gset string)
    (scopes : list Scope) : result (list Descriptor) :=
  match scopes with
  | [] => Ok []
  | s :: scopes' =>
      if bool_decide (s ∈ seen) then resolve_loop r clientID seen scopes'
      else match byScope r !! s with
      | None => Err (New ("oauth: unknown scope " +:+ strconv_Quote s))
      | Some d =>
          if negb (allowsClient d clientID) then
            Err (New ("oauth: scope " +:+ s +:+ " is not available to client " +:+ clientID))
          else match resolve_loop r clientID ({[s]} ∪ seen) scopes' with
               | Ok out => Ok (d :: out)
               | Err e => Err e
               end
      end
  end.

(** [Registry.Resolve]. *)
Definition Resolve (r : Registry) (scopes : list Scope) (clientID : string)
    : result (list Descriptor) :=
  resolve_loop r clientID ∅ scopes.
End registry.

(** ** Invariant *)

(** What [Register] maintains: a descriptor sits under its own scope, which is
    well formed, and has a title. *)
Definition registry_wf (r : Registry) : Prop :=
  ∀ s d, byScope r !! s = Some d →
    d_Scope d = s ∧ Scope_valid s = true ∧ d_Title d ≠ EmptyString.

(** The specification of a resolved set: the requested scopes in order of first
    appearance. *)
Fixpoint first_occurrences (seen : gset string) (l : list Scope) : list Scope :=
  match l with
  | [] => []
  | s :: l' => if bool_decide (s ∈ seen) then first_occurrences seen l'
               else s :: first_occurrences ({[s]} ∪ seen) l'
  end.

(** A scope the client may be granted. *)
Definition grantable (r : Registry) (clientID : string) (s : Scope) : Prop :=
  ∃ d, byScope r !! s = Some d ∧ allowsClient d clientID = true.

(** ** Lemmas *)

Section registry_lemmas.
Context `{Platform}.

Lemma Register_Ok r d r' :
  Register r d = Ok r' ↔
    Scope_valid (d_Scope d) = true ∧ d_Title d ≠ EmptyString ∧
    byScope r !! d_Scope d = None ∧ r' = mkRegistry (<[d_Scope d := d]> (byScope r)).
Proof.
  unfold Register. destruct (Scope_valid (d_Scope d)); simpl; [|naive_solver].
  case_bool_decide; [naive_solver|]. destruct (byScope r !! d_Scope d); naive_solver.
Qed.

Lemma Register_wf r d r' : registry_wf r → Register r d = Ok r' → registry_wf r'.
Proof.
  intros Hwf (Hv & Ht & Hn & ->)%Register_Ok s d'. simpl.
  rewrite lookup_insert_Some. intros [[<- <-]|[_ Hd]]; eauto.
Qed.

Lemma register_all_wf ds r r' : registry_wf r → register_all r ds = Ok r' → registry_wf r'.
Proof.
  revert r. induction ds as [|d ds IH]; intros r Hwf; simpl; [naive_solver|].
  destruct (Register r d) eqn:E; [|done]. eauto using Register_wf.
Qed.

Lemma emptyRegistry_wf : registry_wf emptyRegistry.
Proof. intros s d Hd. simpl in Hd. by rewrite lookup_empty in Hd. Qed.

Lemma first_occurrences_seen seen l s :
  s ∈ first_occurrences seen l ↔ s ∈ l ∧ s ∉ seen.
Proof.
  revert seen. induction l as [|s' l IH]; intros seen; simpl; [set_solver|].
  case_bool_decide; rewrite ?elem_of_cons, IH; [set_solver|].
  destruct (decide (s = s')); set_solver.
Qed.

Lemma first_occurrences_NoDup seen l : NoDup (first_occurrences seen l).
Proof.
  revert seen. induction l as [|s' l IH]; intros seen; simpl; [constructor|].
  case_bool_decide; [done|]. constructor; [|done].
  rewrite first_occurrences_seen. set_solver.
Qed.

Lemma resolve_loop_Ok r c seen scopes ds :
  registry_wf r →
  resolve_loop r c seen scopes = Ok ds →
  (∀ s, s ∈ scopes → s ∉ seen → grantable r c s) ∧
  d_Scope <$> ds = first_occurrences seen scopes ∧
  Forall (λ d, byScope r !! d_Scope d = Some d ∧ allowsClient d c = true) ds.
Proof.
  intros Hwf. revert seen ds. induction scopes as [|s scopes IH]; intros seen ds; simpl.
  { intros [= <-]. split_and!; [set_solver|done|constructor]. }
  case_bool_decide as Hs.
  { intros (?&?&?)%IH. split_and!; [|done..]. set_solver. }
  destruct (byScope r !! s) as [d|] eqn:Hd; [|done].
  destruct (allowsClient d c) eqn:Ha; simpl; [|done].
  destruct (resolve_loop r c _ scopes) as [out|] eqn:E; [|done]. intros [= <-].
  apply IH in E as (Hg & Hout & Hall). pose proof (Hwf _ _ Hd) as (Hsc & _).
  split_and!.
  - intros s' [->|Hin]%elem_of_cons Hns; [by exists d|].
    destruct (decide (s' = s)) as [->|]; [by exists d|]. apply Hg; set_solver.
  - rewrite fmap_cons. by rewrite Hsc, Hout.
  - constructor; [|done]. by rewrite Hsc.
Qed.

Lemma resolve_loop_complete r c seen scopes :
  (∀ s, s ∈ scopes → s ∉ seen → grantable r c s) →
  ∃ ds, resolve_loop r c seen scopes = Ok ds.
Proof.
  revert seen. induction scopes as [|s scopes IH]; intros seen Hg; simpl; [eauto|].
  case_bool_decide as Hs; [apply IH; set_solver|].
  destruct (Hg s) as (d & Hd & Ha); [set_solver..|]. rewrite Hd, Ha. simpl.
  destruct (IH ({[s]} ∪ seen)) as [out Hout]; [set_solver|]. rewrite Hout. eauto.
Qed.

Lemma register_all_contents r ds r' :
  register_all r ds = Ok r' →
  (∀ s d, byScope r' !! s = Some d ↔ byScope r !! s = Some d ∨ (d ∈ ds ∧ d_Scope d = s)) ∧
  (map_to_list (byScope r')).*2 ≡ₚ (map_to_list (byScope r)).*2 ++ ds ∧
  NoDup (d_Scope <$> ds) ∧
  (∀ d, d ∈ ds → byScope r !! d_Scope d = None).
Proof.
  revert r. induction ds as [|d ds IH]; intros r; simpl.
  { intros [= ->]. split_and!; [set_solver|by rewrite app_nil_r|constructor|set_solver]. }
  destruct (Register r d) as [r1|] eqn:E; [|done].
  apply Register_Ok in E as (_ & _ & Hn & ->). intros Hall.
  apply IH in Hall as (Hc & Hp & Hnd & Hfresh). simpl in *.
  assert (Hne : ∀ d', d' ∈ ds → d_Scope d' ≠ d_Scope d ∧ byScope r !! d_Scope d' = None).
  { intros d' Hd'. apply Hfresh in Hd'. by apply lookup_insert_None in Hd' as [? ?]. }
  split_and!.
  - intros s d'. rewrite Hc, lookup_insert_Some, elem_of_cons. split.
    + intros [[[? ?]|[? ?]]|[? ?]]; subst; auto.
    + intros [?|[[->|?] <-]]; auto. left. right. split; [congruence|done].
  - rewrite Hp, map_to_list_insert by done. simpl.
    by rewrite Permutation_middle.
  - constructor; [|done]. intros (d' & ? & Hd')%list_elem_of_fmap.
    apply Hne in Hd' as [? _]. congruence.
  - intros d' [->|Hd']%elem_of_cons; [done|]. by apply Hne.
Qed.

(** [strings.Split] never returns an empty list. *)
Lemma Split_not_nil s c : strings_Split s c ≠ [].
Proof. induction s as [|a s IH]; simpl; [done|]. repeat case_match; done. Qed.

Lemma Split_app s t c :
  strings_Split (s +:+ String c t) c = strings_Split s c ++ strings_Split t c.
Proof.
  unfold String.app. induction s as [|a s IH]; simpl.
  { by rewrite bool_decide_true. }
  case_bool_decide; rewrite IH; [done|].
  pose proof (Split_not_nil s c). by destruct (strings_Split s c).
Qed.

Lemma Split_head s c :
  head (strings_Split s c) = Some (from_option id s (str_before c s)).
Proof.
  induction s as [|a s IH]; simpl; [done|]. case_bool_decide; [done|].
  pose proof (Split_not_nil s c). destruct (strings_Split s c) as [|p ps]; [done|].
  simpl in *. destruct (str_before c s); simpl in *; congruence.
Qed.

Lemma Split_single s c : str_before c s = None → strings_Split s c = [s].
Proof.
  induction s as [|a s IH]; simpl; [done|]. case_bool_decide; [done|].
  intros Hn. rewrite IH; [done|]. by destruct (str_before c s).
Qed.
End registry_lemmas.

#[export] Hint Resolve emptyRegistry_wf Register_wf register_all_wf : r0semi.

(** ** Properties *)

Section registry_properties.
Context `{Platform}.

(** [Registry.Resolve] answers exactly the requests it may: on a registry
    built by [Register] it succeeds iff every requested scope is registered and
    open to the client, and then returns the registered descriptors of the
    requested scopes, each once, in order of first appearance. *)
Theorem Resolve_correct r scopes clientID :
  registry_wf r →
  ((∃ ds, Resolve r scopes clientID = Ok ds) ↔ Forall (grantable r clientID) scopes) ∧
  (∀ ds, Resolve r scopes clientID = Ok ds →
     d_Scope <$> ds = first_occurrences ∅ scopes ∧
     NoDup (d_Scope <$> ds) ∧
     Forall (λ d, byScope r !! d_Scope d = Some d ∧ allowsClient d clientID = true) ds).
Proof.
  intros Hwf. unfold Resolve. split; [split|].
  - intros [ds (Hg & _)%resolve_loop_Ok]; [|done]. apply Forall_forall. set_solver.
  - rewrite Forall_forall. intros Hg. apply resolve_loop_complete. auto.
  - intros ds (_ & Hout & Hall)%resolve_loop_Ok; [|done].
    rewrite Hout. auto using first_occurrences_NoDup.
Qed.

(** The registry invariant: whatever descriptors a registry is built from,
    in whatever order, if [NewRegistry] accepts them then each sits under its
    own well-formed scope with a title, exactly the given ones are stored, no
    scope was given twice, and [Descriptors] lists them once each in strictly
    increasing scope order. *)
Theorem NewRegistry_correct ds r :
  NewRegistry ds = Ok r →
  registry_wf r ∧ NoDup (d_Scope <$> ds) ∧
  (∀ d, byScope r !! d_Scope d = Some d ↔ d ∈ ds) ∧
  Descriptors r ≡ₚ ds ∧ StronglySorted (key_le d_Scope) (Descriptors r).
Proof.
  intros E. pose proof (register_all_contents _ _ _ E) as (Hc & Hp & Hnd & _).
  assert (Hwf : registry_wf r) by eauto with r0semi.
  simpl in Hp. rewrite map_to_list_empty in Hp. simpl in Hp. split_and!; [done|done| | |apply sort_by_sorted].
  - intros d. rewrite Hc. simpl. rewrite lookup_empty. naive_solver.
  - unfold Descriptors. by rewrite sort_by_perm, Hp.
Qed.
End registry_properties.

(** ** Witnesses *)

#[local] Existing Instance toy_platform.

Definition demo_registry : Registry :=
  match NewRegistry DefaultDescriptors with Ok r => r | Err _ => emptyRegistry end.

Lemma demo_registry_wf : registry_wf demo_registry.
Proof.
  apply (register_all_wf DefaultDescriptors emptyRegistry);
    [apply emptyRegistry_wf|vm_compute; reflexivity].
Qed.

Lemma Resolve_correct_witness :
  registry_wf demo_registry ∧
  ∃ ds, Resolve demo_registry [ScopePhigrosScore; ScopeAccountID; ScopePhigrosScore] "app" = Ok ds.
Proof.
  split; [exact demo_registry_wf|].
  apply (proj1 (Resolve_correct demo_registry
    [ScopePhigrosScore; ScopeAccountID; ScopePhigrosScore] "app" demo_registry_wf)).
  repeat constructor; (eexists; split; [vm_compute; reflexivity|reflexivity]).
Defined.

Lemma NewRegistry_correct_witness :
  NewRegistry DefaultDescriptors = Ok demo_registry ∧ Descriptors demo_registry ≡ₚ DefaultDescriptors.
Proof.
  assert (E : NewRegistry DefaultDescriptors = Ok demo_registry) by (vm_compute; reflexivity).
  split; [exact E|]. apply (NewRegistry_correct DefaultDescriptors demo_registry E).
Defined.
