(* ===== verification/Proc.v ===== *)
(** * Request handlers as processes over shared state

    A handler of the service takes locks, calls stores and returns; two
    handlers interleave between those calls, never inside one. A [proc] is a
    handler written as that sequence of atomic actions on the shared world. It
    has two readings: [run] executes it alone, and [pstep] lets a pool of
    handlers take turns. Each handler is written once and both readings are
    theorems about the same definition. *)

From S2P Require Import Prelude GoStd.

(** ** Processes *)

(** An action reads and writes the whole world in one step; [None] means it is
    blocked (a mutex somebody else holds). *)
Inductive proc (W A : Type) : Type :=
| Ret (a : A)
| Act {B : Type} (act : W → option (W * B)) (k : B → proc W A).
Arguments Ret {W A} _.
Arguments Act {W A B} _ _.

Fixpoint pbind {W A B} (p : proc W A) (f : A → proc W B) : proc W B :=
  match p with
  | Ret a => f a
  | Act act k => Act act (λ b, pbind (k b) f)
  end.

(** The process run with nobody else in the world; [None] if it blocks. *)
Fixpoint run {W A} (p : proc W A) (w : W) : option (W * A) :=
  match p with
  | Ret a => Some (w, a)
  | Act act k => match act w with
                 | Some (w', b) => run (k b) w'
                 | None => None
                 end
  end.

(** ** Fallible handlers: Go functions that return [(A, error)] *)

Definition go (W A : Type) : Type := proc W (result A).

#[export] Instance go_ret W : MRet (go W) := λ A a, Ret (Ok a).
#[export] Instance go_bind W : MBind (go W) := λ A B f p,
  pbind p (λ r, match r with Ok a => f a | Err e => Ret (Err e) end).

Section actions.
Context {W : Type}.

Definition throw {A} (e : error) : go W A := Ret (Err e).

(** One atomic action that cannot fail, or that returns its own error. *)
Definition atomic {A} (f : W → W * A) : go W A := Act (λ w, Some (f w)) (λ a, Ret (Ok a)).
Definition call {A} (f : W → W * result A) : go W A := Act (λ w, Some (f w)) (λ r, Ret r).
Definition reads {A} (f : W → A) : go W A := atomic (λ w, (w, f w)).
Definition modify (f : W → W) : go W unit := atomic (λ w, (f w, tt)).

(** Waits until [f] is defined, then acts: [sync.Mutex.Lock]. *)
Definition await (f : W → option W) : go W unit :=
  Act (λ w, (λ w', (w', tt)) <$> f w) (λ _, Ret (Ok tt)).

(** [v, err := p]: the error as a value, for code that inspects it. *)
Definition try {A} (p : go W A) : go W (result A) := pbind p (λ r, Ret (Ok r)).

(** [return r] for a result already in hand. *)
Definition lift_result {A} (r : result A) : go W A := Ret r.

(** A process that never moves: a loop that ran out of fuel has not returned. *)
Definition diverge {A} : go W A :=
  Act (λ _ : W, @None (W * Empty_set)) (λ b : Empty_set, match b with end).

(** [if cond { return e }]. *)
Definition guard_err (b : bool) (e : error) : go W unit := if b then throw e else mret tt.
End actions.

(** ** Pools of handlers *)

Section pools.
Context {W A : Type}.

(** One scheduling step: a handler that is not blocked performs its next
    action. *)
Inductive pstep : W * list (proc W A) → W * list (proc W A) → Prop :=
| pstep_act w w' (ps : list (proc W A)) i B (act : W → option (W * B)) k b :
    ps !! i = Some (Act act k) → act w = Some (w', b) →
    pstep (w, ps) (w', <[i := k b]> ps).

Definition preach : W * list (proc W A) → W * list (proc W A) → Prop := rtc pstep.

(** A schedule names the handler that moves next; [None] if it is finished,
    blocked or absent. *)
Fixpoint run_sched (sched : list nat) (w : W) (ps : list (proc W A))
    : option (W * list (proc W A)) :=
  match sched with
  | [] => Some (w, ps)
  | i :: sched' =>
      match ps !! i with
      | Some (Act act k) =>
          match act w with
          | Some (w', b) => run_sched sched' w' (<[i := k b]> ps)
          | None => None
          end
      | _ => None
      end
  end.
End pools.

(** ** Lemmas *)

Lemma run_pbind {W A B} (p : proc W A) (f : A → proc W B) w :
  run (pbind p f) w = match run p w with Some (w', a) => run (f a) w' | None => None end.
Proof.
  revert w. induction p as [a|C act k IH]; intros w; simpl; [done|].
  destruct (act w) as [[w' b]|]; [apply IH|done].
Qed.

Lemma run_bind {W A B} (p : go W A) (f : A → go W B) w :
  run (mbind (M:=go W) f p) w =
    match run p w with
    | Some (w', Ok a) => run (f a) w'
    | Some (w', Err e) => Some (w', Err e)
    | None => None
    end.
Proof. unfold mbind, go_bind. rewrite run_pbind. by destruct (run p w) as [[w' []]|]. Qed.

Lemma run_ret {W A} (a : A) (w : W) : run (mret (M:=go W) a) w = Some (w, Ok a).
Proof. done. Qed.
Lemma run_throw {W A} (e : error) (w : W) : run (throw (A:=A) e) w = Some (w, Err e).
Proof. done. Qed.
Lemma run_lift {W A} (r : result A) (w : W) : run (lift_result r) w = Some (w, r).
Proof. done. Qed.
Lemma run_atomic {W A} (f : W → W * A) w : run (atomic f) w = Some ((f w).1, Ok (f w).2).
Proof. unfold atomic. simpl. by destruct (f w). Qed.
Lemma run_call {W A} (f : W → W * result A) w : run (call f) w = Some (f w).
Proof. unfold call. simpl. by destruct (f w). Qed.
Lemma run_reads {W A} (f : W → A) w : run (reads f) w = Some (w, Ok (f w)).
Proof. done. Qed.
Lemma run_modify {W} (f : W → W) w : run (modify f) w = Some (f w, Ok tt).
Proof. done. Qed.
Lemma run_await {W} (f : W → option W) w :
  run (await f) w = match f w with Some w' => Some (w', Ok tt) | None => None end.
Proof. unfold await. simpl. by destruct (f w). Qed.
Lemma run_try {W A} (p : go W A) w :
  run (try p) w = match run p w with Some (w', r) => Some (w', Ok r) | None => None end.
Proof. unfold try. rewrite run_pbind. by destruct (run p w) as [[??]|]. Qed.
Lemma run_guard {W} b e (w : W) : run (guard_err b e) w = Some (w, if b then Err e else Ok tt).
Proof. by destruct b. Qed.

#[export] Hint Rewrite @run_bind @run_ret @run_throw @run_lift @run_atomic @run_call
  @run_reads @run_modify @run_await @run_try @run_guard : run.

(** Executes the handler in the goal as far as the known facts allow. *)
Ltac run_simpl := repeat (progress (autorewrite with run; cbn [fst snd])).

(** ** A process that runs alone

    [runs p w Q]: from [w] the process comes to an end, in a world and with a
    result for which [Q] holds. *)

Section alone.
Context {W : Type}.

Definition runs {A} (p : proc W A) (w : W) (Q : W → A → Prop) : Prop :=
  match run p w with Some (w', a) => Q w' a | None => False end.

Lemma runs_elim {A} (p : proc W A) w Q : runs p w Q → ∃ w' a, run p w = Some (w', a) ∧ Q w' a.
Proof. unfold runs. destruct (run p w) as [[w' a]|]; [eauto|done]. Qed.

Lemma runs_intro {A} (p : proc W A) w w' a (Q : W → A → Prop) : run p w = Some (w', a) → Q w' a → runs p w Q.
Proof. unfold runs. by intros ->. Qed.

Lemma runs_mono {A} (p : proc W A) w (P Q : W → A → Prop) :
  runs p w P → (∀ w' a, P w' a → Q w' a) → runs p w Q.
Proof. unfold runs. destruct (run p w) as [[w' a]|]; auto. Qed.

Lemma runs_bind {A B} (p : go W A) (f : A → go W B) w (P : W → result A → Prop) Q :
  runs p w P → (∀ w' a, P w' (Ok a) → runs (f a) w' Q) → (∀ w' e, P w' (Err e) → Q w' (Err e)) →
  runs (mbind (M:=go W) f p) w Q.
Proof.
  unfold runs. rewrite run_bind. destruct (run p w) as [[w' [a|e]]|]; [|auto|done].
  intros HP Hf _. by apply Hf.
Qed.

Lemma runs_bind_try {A B} (p : go W A) (f : result A → go W B) w (P : W → result A → Prop) Q :
  runs p w P → (∀ w' r, P w' r → runs (f r) w' Q) → runs (mbind (M:=go W) f (try p)) w Q.
Proof.
  unfold runs. rewrite run_bind, run_try. destruct (run p w) as [[w' r]|]; [|done].
  intros HP Hf. by apply Hf.
Qed.

Lemma runs_call {A} (f : W → W * result A) w Q : Q (f w).1 (f w).2 → runs (call f) w Q.
Proof. unfold runs. rewrite run_call. by destruct (f w). Qed.

Lemma runs_atomic {A} (f : W → W * A) w (Q : W → result A → Prop) : Q (f w).1 (Ok (f w).2) → runs (atomic f) w Q.
Proof. unfold runs. by rewrite run_atomic. Qed.

(** [if cond { return e }] and what follows. *)
Lemma runs_guard {B} b e (f : unit → go W B) w (Q : W → result B → Prop) :
  (b = true → Q w (Err e)) → (b = false → runs (f tt) w Q) →
  runs (mbind (M:=go W) f (guard_err b e)) w Q.
Proof. intros Ht Hf. unfold runs. rewrite run_bind, run_guard. destruct b; [by apply Ht|by apply Hf]. Qed.
End alone.

(** ** Tickets: what can be taken at most once

    [has w] says that the one ticket is still there. [ticket I has c p Q] holds
    of a process that keeps the invariant [I] and never puts a ticket back,
    started in a state where it holds the ticket iff [c]: along every run, with
    the other processes moving between its actions, it may take the ticket when
    it is there, and [Q] holds of its final holding and result. *)

Section tickets.
Context {W : Type} (I : W → Prop) (has : W → Prop).

Fixpoint ticket {A} (c : bool) (p : proc W A) (Q : bool → A → Prop) : Prop :=
  match p with
  | Ret a => Q c a
  | Act act k => ∀ w w' b, I w → act w = Some (w', b) →
      I w' ∧ (¬ has w → ¬ has w') ∧
      (ticket c (k b) Q ∨ (c = false ∧ has w ∧ ¬ has w' ∧ ticket true (k b) Q))
  end.

Lemma ticket_mono {A} c (p : proc W A) (Q R : bool → A → Prop) :
  (∀ c a, Q c a → R c a) → ticket c p Q → ticket c p R.
Proof.
  intros HQ. revert c. induction p as [a|B act k IH]; intros c; simpl; [auto|].
  intros Hp w w' b Hw Ha. destruct (Hp w w' b Hw Ha) as (? & ? & [?|(?&?&?&?)]); naive_solver.
Qed.

Lemma ticket_pbind {A B} c (p : proc W A) (f : A → proc W B) Q :
  ticket c p (λ c a, ticket c (f a) Q) → ticket c (pbind p f) Q.
Proof.
  revert c. induction p as [a|C act k IH]; intros c; simpl; [done|].
  intros Hp w w' b Hw Ha. destruct (Hp w w' b Hw Ha) as (? & ? & [?|(?&?&?&?)]); naive_solver.
Qed.

Lemma ticket_bind {A B} c (p : go W A) (f : A → go W B) Q :
  ticket c p (λ c r, match r with Ok a => ticket c (f a) Q | Err e => Q c (Err e) end) →
  ticket c (mbind (M:=go W) f p) Q.
Proof.
  intros Hp. apply ticket_pbind. eapply ticket_mono; [|exact Hp]. by intros c' [a|e].
Qed.

Lemma ticket_try {A} c (p : go W A) Q :
  ticket c p (λ c r, Q c (Ok r)) → ticket c (try p) Q.
Proof. intros Hp. by apply ticket_pbind. Qed.

(** A process that leaves the ticket alone, with a fact about its result. *)
Definition quiet {A} (p : proc W A) (Q : A → Prop) : Prop :=
  ∀ c, ticket c p (λ c' a, c' = c ∧ Q a).

Lemma quiet_ticket {A} c (p : proc W A) (P : A → Prop) (Q : bool → A → Prop) :
  quiet p P → (∀ a, P a → Q c a) → ticket c p Q.
Proof. intros Hp HQ. eapply ticket_mono; [|apply (Hp c)]. naive_solver. Qed.

Lemma ticket_quiet_bind {A B} c (p : go W A) (f : A → go W B) (P : result A → Prop) Q :
  quiet p P → (∀ a, P (Ok a) → ticket c (f a) Q) → (∀ e, Q c (Err e)) →
  ticket c (mbind (M:=go W) f p) Q.
Proof.
  intros Hp Hf He. apply ticket_bind. eapply quiet_ticket; [exact Hp|]. intros [a|e] HP; auto.
Qed.

Lemma quiet_mono {A} (p : proc W A) (P Q : A → Prop) :
  quiet p P → (∀ a, P a → Q a) → quiet p Q.
Proof. intros Hp HQ c. eapply ticket_mono; [|apply (Hp c)]. naive_solver. Qed.

Lemma quiet_ret {A} (a : A) Q : Q a → quiet (Ret a) Q.
Proof. by intros ? c. Qed.

Lemma quiet_bind {A B} (p : go W A) (f : A → go W B) (P : result A → Prop) Q :
  quiet p P → (∀ a, P (Ok a) → quiet (f a) Q) → (∀ e, P (Err e) → Q (Err e)) →
  quiet (mbind (M:=go W) f p) Q.
Proof.
  intros Hp Hf He c. apply ticket_bind. eapply quiet_ticket; [exact Hp|].
  intros [a|e] HP; [by apply Hf|auto].
Qed.

Lemma quiet_try {A} (p : go W A) (P : result A → Prop) (Q : result (result A) → Prop) :
  quiet p P → (∀ r, P r → Q (Ok r)) → quiet (try p) Q.
Proof. intros Hp HQ c. apply ticket_try. eapply quiet_ticket; [exact Hp|]. auto. Qed.

(** One action that keeps the invariant and never puts a ticket back. *)
Definition harmless (f : W → W) : Prop := ∀ w, I w → I (f w) ∧ (¬ has w → ¬ has (f w)).

Lemma quiet_call {A} (f : W → W * result A) (Q : result A → Prop) :
  harmless (λ w, (f w).1) → (∀ w, I w → Q (f w).2) → quiet (call f) Q.
Proof.
  intros Hf HQ c w w' b Hw [= Heq]. destruct (Hf w Hw) as [HI Hh].
  specialize (HQ w Hw). rewrite Heq in *. simpl in *. eauto.
Qed.

Lemma quiet_atomic {A} (f : W → W * A) (Q : result A → Prop) :
  harmless (λ w, (f w).1) → (∀ w, I w → Q (Ok (f w).2)) → quiet (atomic f) Q.
Proof.
  intros Hf HQ c w w' b Hw [= Heq]. destruct (Hf w Hw) as [HI Hh].
  specialize (HQ w Hw). rewrite Heq in *. simpl in *. eauto.
Qed.

Lemma quiet_reads {A} (f : W → A) (Q : result A → Prop) :
  (∀ w, I w → Q (Ok (f w))) → quiet (reads f) Q.
Proof. intros HQ. by apply quiet_atomic. Qed.

Lemma quiet_modify (f : W → W) (Q : result unit → Prop) :
  harmless f → Q (Ok tt) → quiet (modify f) Q.
Proof. intros Hf HQ. by apply quiet_atomic. Qed.

Lemma quiet_await (f : W → option W) (Q : result unit → Prop) :
  (∀ w w', I w → f w = Some w' → I w' ∧ (¬ has w → ¬ has w')) → Q (Ok tt) → quiet (await f) Q.
Proof.
  intros Hf HQ c w w' b Hw Ha. simpl in Ha. destruct (f w) as [w1|] eqn:E; [|done].
  injection Ha as <- <-. destruct (Hf _ _ Hw E). simpl. eauto.
Qed.
End tickets.

(** In a pool of such processes, whatever the schedule, the ones that end
    holding the ticket are at most one, and then the world has lost it. *)
Section ticket_pool.
Context {W A : Type} (I : W → Prop) (has : W → Prop) (Qs : nat → bool → A → Prop).

Definition pool_ok (w : W) (ps : list (proc W A)) (cs : list bool) : Prop :=
  I w ∧ length cs = length ps ∧
  (∀ i p c, ps !! i = Some p → cs !! i = Some c → ticket I has c p (Qs i)) ∧
  (∀ i j, cs !! i = Some true → cs !! j = Some true → i = j) ∧
  (∀ i, cs !! i = Some true → ¬ has w).

Lemma pool_ok_step w ps cs w' ps' :
  pool_ok w ps cs → pstep (w, ps) (w', ps') → ∃ cs', pool_ok w' ps' cs'.
Proof.
  intros (HI & Hlen & Hps & Hone & Hno) Hst. inversion Hst as [w1 w1' ps1 i B act k b Hi Ha]; subst.
  assert (Hi' : i < length ps) by by eapply lookup_lt_Some.
  destruct (lookup_lt_is_Some_2 cs i) as [c Hc]; [lia|].
  destruct (Hps i _ c Hi Hc w w' b HI Ha) as (HI' & Hmono & [Hk|(-> & Hw & Hw' & Hk)]).
  - exists cs. split_and!; [done|by rewrite length_insert|..|done|by eauto].
    intros j p c' Hj Hc'. apply list_lookup_insert_Some in Hj as [(<- & <- & _)|[_ Hj]].
    + by simplify_eq.
    + by eapply Hps.
  - assert (Hnone : ∀ j, cs !! j ≠ Some true) by (intros j Hj; by apply (Hno j)).
    exists (<[i := true]> cs). split_and!; [done|by rewrite !length_insert|..].
    + intros j p c' Hj Hc'. apply list_lookup_insert_Some in Hj as [(<- & <- & _)|[Hne Hj]].
      * rewrite list_lookup_insert_eq in Hc' by lia. by simplify_eq.
      * rewrite list_lookup_insert_ne in Hc' by done. by eapply Hps.
    + intros j1 j2 [(<- & _ & _)|[? H1]]%list_lookup_insert_Some; [|by apply Hnone in H1].
      intros [(<- & _ & _)|[? H2]]%list_lookup_insert_Some; [done|by apply Hnone in H2].
    + done.
Qed.

Lemma pool_ok_reach w ps cs w' ps' :
  pool_ok w ps cs → preach (w, ps) (w', ps') → ∃ cs', pool_ok w' ps' cs'.
Proof.
  intros Hok Hr. remember (w, ps) as x eqn:Ex. remember (w', ps') as y eqn:Ey.
  revert w ps cs Ex Hok. induction Hr as [x|x [w1 ps1] z Hst Hr IH]; intros w ps cs -> Hok.
  - injection Ey as <- <-. eauto.
  - destruct (pool_ok_step _ _ _ _ _ Hok Hst) as [cs1 Hok1]. by eapply IH.
Qed.

Lemma ticket_once w ps w' ps' i j a1 a2 :
  I w → (∀ k p, ps !! k = Some p → ticket I has false p (Qs k)) →
  preach (w, ps) (w', ps') →
  ps' !! i = Some (Ret a1) → (∀ c, Qs i c a1 → c = true) →
  ps' !! j = Some (Ret a2) → (∀ c, Qs j c a2 → c = true) → i = j ∧ ¬ has w'.
Proof.
  intros HI Hps Hr Hi Hci Hj Hcj.
  destruct (pool_ok_reach w ps (replicate (length ps) false) w' ps') as (cs & _ & Hlen & Hok & Hone & Hno).
  - split_and!; [done|by rewrite length_replicate|..].
    + intros k p c Hk [-> _]%lookup_replicate. by apply Hps.
    + intros k1 k2 [? _]%lookup_replicate. done.
    + intros k [? _]%lookup_replicate. done.
  - done.
  - destruct (lookup_lt_is_Some_2 cs i) as [ci Hi']; [apply lookup_lt_Some in Hi; lia|].
    destruct (lookup_lt_is_Some_2 cs j) as [cj Hj']; [apply lookup_lt_Some in Hj; lia|].
    assert (ci = true ∧ cj = true) as [-> ->]; [|by split; eauto].
    split; [apply Hci, (Hok i _ ci Hi Hi')|apply Hcj, (Hok j _ cj Hj Hj')].
Qed.
End ticket_pool.

(** ** What a process guarantees

    Every action of the process, taken in a world where the invariant holds,
    keeps the invariant and stays within a relation on worlds. *)

Section guarantees.
Context {W : Type} (I : W → Prop) (R : W → W → Prop).

Fixpoint guar {A} (p : proc W A) (Q : A → Prop) : Prop :=
  match p with
  | Ret a => Q a
  | Act act k => ∀ w w' b, I w → act w = Some (w', b) → I w' ∧ R w w' ∧ guar (k b) Q
  end.

Lemma guar_mono {A} (p : proc W A) (P Q : A → Prop) :
  guar p P → (∀ a, P a → Q a) → guar p Q.
Proof.
  intros Hp HQ. induction p as [a|B act k IH]; simpl in *; [auto|].
  intros w w' b Hw Ha. destruct (Hp w w' b Hw Ha) as (? & ? & ?). auto.
Qed.

Lemma guar_pbind {A B} (p : proc W A) (f : A → proc W B) Q :
  guar p (λ a, guar (f a) Q) → guar (pbind p f) Q.
Proof.
  intros Hp. induction p as [a|C act k IH]; simpl in *; [done|].
  intros w w' b Hw Ha. destruct (Hp w w' b Hw Ha) as (? & ? & ?). auto.
Qed.

Lemma guar_bind {A B} (p : go W A) (f : A → go W B) (P : result A → Prop) Q :
  guar p P → (∀ a, P (Ok a) → guar (f a) Q) → (∀ e, P (Err e) → Q (Err e)) →
  guar (mbind (M:=go W) f p) Q.
Proof.
  intros Hp Hf He. apply guar_pbind. eapply guar_mono; [exact Hp|].
  intros [a|e] HP; simpl; auto.
Qed.

Lemma guar_try {A} (p : go W A) (P : result A → Prop) (Q : result (result A) → Prop) :
  guar p P → (∀ r, P r → Q (Ok r)) → guar (try p) Q.
Proof. intros Hp HQ. apply guar_pbind. eapply guar_mono; [exact Hp|]. done. Qed.

Lemma guar_call {A} (f : W → W * result A) (Q : result A → Prop) :
  (∀ w, I w → I (f w).1 ∧ R w (f w).1 ∧ Q (f w).2) → guar (call f) Q.
Proof. intros Hf w w' b Hw [= Heq]. specialize (Hf w Hw). by rewrite Heq in Hf. Qed.

Lemma guar_atomic {A} (f : W → W * A) (Q : result A → Prop) :
  (∀ w, I w → I (f w).1 ∧ R w (f w).1 ∧ Q (Ok (f w).2)) → guar (atomic f) Q.
Proof. intros Hf w w' b Hw [= Heq]. specialize (Hf w Hw). by rewrite Heq in Hf. Qed.
End guarantees.

(** With nothing to keep, every process qualifies. *)
Lemma guar_trivial {W A} (p : proc W A) : guar (λ _, True) (λ _ _, True) p (λ _, True).
Proof. induction p as [a|B act k IH]; [done|]. intros w w' b _ _. auto. Qed.

Lemma guar_weaken {W A} (I : W → Prop) (R R' : W → W → Prop) (p : proc W A) Q :
  guar I R p Q → (∀ w w', R w w' → R' w w') → guar I R' p Q.
Proof.
  intros Hp HR. induction p as [a|B act k IH]; simpl in *; [done|].
  intros w w' b Hw Ha. destruct (Hp w w' b Hw Ha) as (? & ? & ?). auto.
Qed.

(** In a pool where each process guarantees its own relation, the invariant
    holds throughout and every step is within the relation of the process that
    takes it. *)
Section guarantee_pool.
Context {W A : Type} (I : W → Prop) (Rs : nat → W → W → Prop) (Qs : nat → A → Prop).

Lemma guar_reach w (ps : list (proc W A)) w' ps' :
  I w → (∀ i p, ps !! i = Some p → guar I (Rs i) p (Qs i)) → preach (w, ps) (w', ps') →
  I w' ∧ ∀ i p, ps' !! i = Some p → guar I (Rs i) p (Qs i).
Proof.
  intros HI Hps Hr. remember (w, ps) as x eqn:Ex. remember (w', ps') as y eqn:Ey.
  revert w ps Ex HI Hps. induction Hr as [x|x [w1 ps1] z Hst Hr IH]; intros w ps -> HI Hps.
  - injection Ey as <- <-. done.
  - inversion Hst as [? ? ? i B act k b Hi Ha]; subst.
    destruct (Hps i _ Hi w w1 b HI Ha) as (HI1 & _ & Hk). eapply (IH eq_refl); [done|done|].
    intros j p [(<- & <- & _)|[_ Hj]]%list_lookup_insert_Some; [done|by apply Hps].
Qed.

Lemma guar_step w (ps : list (proc W A)) w1 ps1 i B (act : W → option (W * B)) k w2 b :
  I w → (∀ i p, ps !! i = Some p → guar I (Rs i) p (Qs i)) → preach (w, ps) (w1, ps1) →
  ps1 !! i = Some (Act act k) → act w1 = Some (w2, b) → I w1 ∧ I w2 ∧ Rs i w1 w2.
Proof.
  intros HI Hps Hr Hi Ha. destruct (guar_reach w ps w1 ps1) as [HI1 Hps1]; [done..|].
  destruct (Hps1 i _ Hi w1 w2 b HI1 Ha) as (? & ? & _). done.
Qed.
End guarantee_pool.

Lemma run_sched_reach {W A} sched (w : W) (ps : list (proc W A)) w' ps' :
  run_sched sched w ps = Some (w', ps') → preach (w, ps) (w', ps').
Proof.
  revert w ps. induction sched as [|i sched IH]; intros w ps; simpl.
  - intros [= <- <-]. apply rtc_refl.
  - destruct (ps !! i) as [[a|B act k]|] eqn:Hi; [done| |done].
    destruct (act w) as [[w1 b]|] eqn:Ha; [|done]. intros Hr.
    eapply rtc_l; [by eapply pstep_act|by apply IH].
Qed.

(** ** A process on a part of the world

    [zoom get set p] is [p] acting on the part of a larger world that [get]
    reads and [set] writes. *)

Fixpoint zoom {V W A} (get : W → V) (set : V → W → W) (p : proc V A) : proc W A :=
  match p with
  | Ret a => Ret a
  | Act act k =>
      Act (λ w, match act (get w) with Some (v, b) => Some (set v w, b) | None => None end)
        (λ b, zoom get set (k b))
  end.

(** What [set] writes [get] reads; writing twice is writing once; writing what
    is there changes nothing. *)
Class Lens {V W} (get : W → V) (set : V → W → W) : Prop := {
  lens_get_set v w : get (set v w) = v;
  lens_set_set v v' w : set v (set v' w) = set v w;
  lens_set_get w : set (get w) w = w;
}.

Lemma run_zoom {V W A} (get : W → V) (set : V → W → W) `{!Lens get set} (p : proc V A) w :
  run (zoom get set p) w = match run p (get w) with Some (v, a) => Some (set v w, a) | None => None end.
Proof.
  revert w. induction p as [a|B act k IH]; intros w; simpl; [by rewrite (lens_set_get w)|].
  destruct (act (get w)) as [[v b]|]; [|done]. rewrite IH, (lens_get_set v w).
  destruct (run (k b) v) as [[v' a]|]; [|done]. by rewrite (lens_set_set v' v w).
Qed.

Lemma runs_zoom {V W A} (get : W → V) (set : V → W → W) `{!Lens get set} (p : proc V A) w (Q : W → A → Prop) :
  runs p (get w) (λ v a, Q (set v w) a) → runs (zoom get set p) w Q.
Proof. unfold runs. rewrite run_zoom by done. by destruct (run p (get w)) as [[v a]|]. Qed.

(** ** Invariants of a run

    [keeps I p]: run from a world in which [I] holds, the process ends in one. *)

Create HintDb keeps discriminated.

Section keeping.
Context {W : Type} (I : W → Prop).

Definition keeps {A} (p : proc W A) : Prop := ∀ w w' a, I w → run p w = Some (w', a) → I w'.

Lemma keeps_ret {A} (a : A) : keeps (Ret a).
Proof. by intros w w' b Hw [= <- _]. Qed.
Lemma keeps_bind {A B} (p : go W A) (f : A → go W B) : keeps p → (∀ a, keeps (f a)) → keeps (mbind (M:=go W) f p).
Proof.
  intros Hp Hf w w' b Hw. rewrite run_bind. destruct (run p w) as [[w1 [a|e]]|] eqn:E; [| |done].
  - apply Hf. by eapply Hp.
  - intros [= <- _]. by eapply Hp.
Qed.
Lemma keeps_try {A} (p : go W A) : keeps p → keeps (try p).
Proof.
  intros Hp w w' b Hw. rewrite run_try. destruct (run p w) as [[w1 a]|] eqn:E; [|done]. intros [= <- _].
  by eapply Hp.
Qed.
Lemma keeps_call {A} (f : W → W * result A) : (∀ w, I w → I (f w).1) → keeps (call f).
Proof. intros Hf w w' b Hw. rewrite run_call. intros [= E]. specialize (Hf w Hw). by rewrite E in Hf. Qed.
Lemma keeps_atomic {A} (f : W → W * A) : (∀ w, I w → I (f w).1) → keeps (atomic f).
Proof. intros Hf w w' b Hw. rewrite run_atomic. intros [= <- _]. by apply Hf. Qed.
Lemma keeps_await (f : W → option W) : (∀ w w', I w → f w = Some w' → I w') → keeps (await f).
Proof.
  intros Hf w w' b Hw. rewrite run_await. destruct (f w) as [w1|] eqn:E; [|done]. intros [= <- _]. by eapply Hf.
Qed.
Lemma keeps_guard b e : keeps (guard_err b e).
Proof. destruct b; apply keeps_ret. Qed.
End keeping.

Lemma keeps_zoom {V W A} (I : W → Prop) (get : W → V) (set : V → W → W) `{!Lens get set} (p : proc V A) :
  (∀ w, keeps (λ v, I (set v w)) p) → keeps I (zoom get set p).
Proof.
  intros Hp w w' a Hw. rewrite run_zoom by done. destruct (run p (get w)) as [[v b]|] eqn:E; [|done].
  intros [= <- _]. eapply (Hp w); [|exact E]. simpl. by rewrite (lens_set_get w).
Qed.

Lemma runs_keeps {W A} (I : W → Prop) (p : proc W A) w (Q : W → A → Prop) :
  keeps I p → I w → runs p w Q → runs p w (λ w' a, I w' ∧ Q w' a).
Proof.
  intros Hk Hw. unfold runs. destruct (run p w) as [[w' a]|] eqn:E; [|done]. split; [by eapply Hk|done].
Qed.

#[export] Hint Resolve keeps_ret keeps_guard : keeps.

(** Takes a handler apart; the actions that are left are found in [keeps]. *)
Ltac keeps_step :=
  match goal with
  | |- keeps _ (mbind _ _) => apply keeps_bind; [|intros ?]
  | |- keeps _ (try _) => apply keeps_try
  | |- keeps _ (match ?x with _ => _ end) => destruct x
  | |- _ => solve [eauto with keeps nocore]
  end.
Ltac keeps_tac := repeat keeps_step.

(** ** Processes with private knowledge

    Each process of a pool carries a piece of knowledge about the world (a lock
    it holds, a row it saw) that the others respect. [gsafe i g p Q] holds of a
    process that, taking its steps as number [i] with knowledge [g], keeps the
    joint invariant of the world and everybody's knowledge. *)

Section knowledge.
Context {W G : Type} (Inv : W → list G → Prop).

Fixpoint gsafe {A} (i : nat) (g : G) (p : proc W A) (Q : G → A → Prop) : Prop :=
  match p with
  | Ret a => Q g a
  | Act act k => ∀ w gs w' b, Inv w gs → gs !! i = Some g → act w = Some (w', b) →
      ∃ g', Inv w' (<[i := g']> gs) ∧ gsafe i g' (k b) Q
  end.

Lemma gsafe_mono {A} i g (p : proc W A) (P Q : G → A → Prop) :
  gsafe i g p P → (∀ g a, P g a → Q g a) → gsafe i g p Q.
Proof.
  intros Hp HQ. revert g Hp. induction p as [a|B act k IH]; intros g Hp; simpl in *; [auto|].
  intros w gs w' b Hw Hg Ha. destruct (Hp w gs w' b Hw Hg Ha) as (g' & ? & ?). eauto.
Qed.

Lemma gsafe_pbind {A B} i g (p : proc W A) (f : A → proc W B) Q :
  gsafe i g p (λ g a, gsafe i g (f a) Q) → gsafe i g (pbind p f) Q.
Proof.
  intros Hp. revert g Hp. induction p as [a|C act k IH]; intros g Hp; simpl in *; [done|].
  intros w gs w' b Hw Hg Ha. destruct (Hp w gs w' b Hw Hg Ha) as (g' & ? & ?). eauto.
Qed.

Lemma gsafe_bind {A B} i g (p : go W A) (f : A → go W B) (P : G → result A → Prop) Q :
  gsafe i g p P → (∀ g a, P g (Ok a) → gsafe i g (f a) Q) → (∀ g e, P g (Err e) → Q g (Err e)) →
  gsafe i g (mbind (M:=go W) f p) Q.
Proof.
  intros Hp Hf He. apply gsafe_pbind. eapply gsafe_mono; [exact Hp|].
  intros g' [a|e] HP; simpl; auto.
Qed.

Lemma gsafe_try {A} i g (p : go W A) (P : G → result A → Prop) (Q : G → result (result A) → Prop) :
  gsafe i g p P → (∀ g r, P g r → Q g (Ok r)) → gsafe i g (try p) Q.
Proof. intros Hp HQ. apply gsafe_pbind. eapply gsafe_mono; [exact Hp|]. done. Qed.

(** [v, err := p] and what follows. *)
Lemma gsafe_bind_try {A B} i g (p : go W A) (f : result A → go W B) (P : G → result A → Prop) Q :
  gsafe i g p P → (∀ g r, P g r → gsafe i g (f r) Q) → gsafe i g (mbind (M:=go W) f (try p)) Q.
Proof.
  intros Hp Hf. eapply (gsafe_bind _ _ _ _ (λ g r, ∃ r', r = Ok r' ∧ P g r'));
    [eapply gsafe_try; [exact Hp|eauto]|intros g' r (r' & [= <-] & Hr); by apply Hf|by intros g' e (? & ? & _)].
Qed.

Lemma gsafe_act {A} i g (f : W → W * A) (Q : G → A → Prop) {C} (k : A → proc W C) (R : G → C → Prop) :
  (∀ w gs, Inv w gs → gs !! i = Some g → ∃ g', Inv (f w).1 (<[i := g']> gs) ∧ Q g' (f w).2) →
  (∀ g a, Q g a → gsafe i g (k a) R) → gsafe i g (Act (λ w, Some (f w)) k) R.
Proof.
  intros Hf Hk w gs w' b Hw Hg [= Heq]. destruct (Hf w gs Hw Hg) as (g' & HI & HQ).
  rewrite Heq in HI, HQ. eauto.
Qed.

Lemma gsafe_call {A} i g (f : W → W * result A) (Q : G → result A → Prop) :
  (∀ w gs, Inv w gs → gs !! i = Some g → ∃ g', Inv (f w).1 (<[i := g']> gs) ∧ Q g' (f w).2) →
  gsafe i g (call f) Q.
Proof. intros Hf. by eapply gsafe_act. Qed.

Lemma gsafe_atomic {A} i g (f : W → W * A) (Q : G → result A → Prop) :
  (∀ w gs, Inv w gs → gs !! i = Some g → ∃ g', Inv (f w).1 (<[i := g']> gs) ∧ Q g' (Ok (f w).2)) →
  gsafe i g (atomic f) Q.
Proof. intros Hf. by eapply (gsafe_act i g f (λ g a, Q g (Ok a))). Qed.

Lemma gsafe_await i g (f : W → option W) (Q : G → result unit → Prop) :
  (∀ w gs w', Inv w gs → gs !! i = Some g → f w = Some w' →
     ∃ g', Inv w' (<[i := g']> gs) ∧ Q g' (Ok tt)) →
  gsafe i g (await f) Q.
Proof.
  intros Hf w gs w' b Hw Hg Ha. simpl in Ha. destruct (f w) as [w1|] eqn:E; [|done].
  injection Ha as <- <-. eauto.
Qed.

(** A process that guarantees a relation on its part of the world, when the
    invariant allows every such step. *)
Lemma gsafe_zoom {V A} (get : W → V) (set : V → W → W) (I : V → Prop) (R : V → V → Prop)
    i g (p : proc V A) (Q : A → Prop) :
  guar I R p Q →
  (∀ w gs, Inv w gs → I (get w)) →
  (∀ w gs v, Inv w gs → gs !! i = Some g → I v → R (get w) v → Inv (set v w) gs) →
  gsafe i g (zoom get set p) (λ g' a, g' = g ∧ Q a).
Proof.
  intros Hp HI HR. induction p as [a|B act k IH]; simpl in *; [done|].
  intros w gs w' b Hw Hg Ha. destruct (act (get w)) as [[v b']|] eqn:E; [|done].
  injection Ha as <- <-. destruct (Hp (get w) v b' (HI w gs Hw) E) as (Hv & HRv & Hk).
  exists g. rewrite list_insert_id by done. split; [by apply HR|by apply IH].
Qed.

(** In a pool of such processes the joint invariant holds throughout. *)
Lemma gsafe_reach {A} (Qs : nat → G → A → Prop) w (ps : list (proc W A)) gs w' ps' :
  Inv w gs → length gs = length ps →
  (∀ i p g, ps !! i = Some p → gs !! i = Some g → gsafe i g p (Qs i)) →
  preach (w, ps) (w', ps') →
  ∃ gs', Inv w' gs' ∧ length gs' = length ps' ∧
    ∀ i p g, ps' !! i = Some p → gs' !! i = Some g → gsafe i g p (Qs i).
Proof.
  intros HI Hlen Hps Hr. remember (w, ps) as x eqn:Ex. remember (w', ps') as y eqn:Ey.
  revert w ps gs Ex HI Hlen Hps. induction Hr as [x|x [w1 ps1] z Hst Hr IH];
    intros w ps gs -> HI Hlen Hps.
  - injection Ey as <- <-. eauto.
  - inversion Hst as [? ? ? i B act k b Hi Ha]; subst.
    destruct (lookup_lt_is_Some_2 gs i) as [g Hg]; [rewrite Hlen; by eapply lookup_lt_Some|].
    destruct (Hps i _ g Hi Hg w gs w1 b HI Hg Ha) as (g' & HI1 & Hk).
    eapply (IH eq_refl); [done|exact HI1|by rewrite !length_insert|].
    intros j p gj Hj Hgj. apply list_lookup_insert_Some in Hj as [(<- & <- & _)|[Hne Hj]].
    + rewrite list_lookup_insert_eq in Hgj by (by eapply lookup_lt_Some). by injection Hgj as <-.
    + rewrite list_lookup_insert_ne in Hgj by done. by eapply Hps.
Qed.
End knowledge.
