(* ===== verification/Tokens.v ===== *)
(** * Token records and the in-memory token store ([oauth/tokens.go])

    The records a store keeps, the [Store] interface the service depends on,
    and [MemoryStore], its in-memory implementation: authorization codes,
    access tokens, refresh tokens and the tombstones of spent refresh tokens,
    all keyed by the hash of the opaque value. The store methods of
    [oauth/grants.go] are here as well. *)

From S2P Require Import Prelude GoStd Scope.

(** ** Records *)

Definition ErrTokenNotFound : error := New "oauth: token not found".

Record AccessToken := mkAccess {
  at_ClientID : string;
  at_Subject : string;
  at_Scopes : list Scope;
  at_FamilyID : string;
  at_IssuedAt : Z;
  at_ExpiresAt : Z;
}.

Record RefreshToken := mkRefresh {
  rt_ClientID : string;
  rt_Subject : string;
  rt_Scopes : list Scope;
  rt_FamilyID : string;
  rt_IssuedAt : Z;
  rt_ExpiresAt : Z;
}.

Record AuthorizationCode := mkCode {
  ac_ClientID : string;
  ac_Subject : string;
  ac_Scopes : list Scope;
  ac_RedirectURI : string;
  ac_CodeChallenge : string;
  ac_CodeChallengeMethod : string;
  ac_ExpiresAt : Z;
}.

(** [TokenKind] and [GrantRecord]: one stored token row without its value. *)
Inductive TokenKind := TokenKindAccess | TokenKindRefresh.

#[export] Instance TokenKind_eq_dec : EqDecision TokenKind.
Proof. solve_decision. Defined.

Record GrantRecord := mkGrantRecord {
  gr_Kind : TokenKind;
  gr_ClientID : string;
  gr_Scopes : list Scope;
  gr_IssuedAt : Z;
  gr_ExpiresAt : Z;
}.

(** [TokenFilter] and [TokenFilter.Matches]. *)
Record TokenFilter := mkFilter { tf_ClientID : string; tf_Subject : string }.

Definition Matches (f : TokenFilter) (clientID subject : string) : bool :=
  (bool_decide (tf_ClientID f = EmptyString) || bool_decide (tf_ClientID f = clientID)) &&
  (bool_decide (tf_Subject f = EmptyString) || bool_decide (tf_Subject f = subject)).

(** [refreshTombstone]: what a spent refresh token leaves behind. *)
Record refreshTombstone := mkTomb {
  tb_FamilyID : string;
  tb_ClientID : string;
  tb_Subject : string;
  tb_ExpiresAt : Z;
}.

(** ** The interface *)

(** [Store], with its optional extensions [RefreshFamilyResolver] and
    [SpentRefreshOwner]. A method maps the store to the store it leaves and
    what it returns; a read leaves the store alone. The methods that consult
    the injected clock take its reading. *)
Class Store (St : Type) := {
  store_SaveCode : string → AuthorizationCode → St → St * result unit;
  store_GetCode : string → St → result AuthorizationCode;
  store_ConsumeCode : string → St → St * result AuthorizationCode;
  store_SaveAccess : string → AccessToken → St → St * result unit;
  store_GetAccess : string → St → result AccessToken;
  store_DeleteAccess : string → St → St * result unit;
  store_SaveRefresh : string → RefreshToken → St → St * result unit;
  store_GetRefresh : string → St → result RefreshToken;
  store_ConsumeRefresh : Z → string → St → St * result RefreshToken;
  store_DeleteRefresh : string → St → St * result unit;
  store_RevokeRefreshFamily : string → St → St * result nat;
  store_ListBySubject : string → St → result (list GrantRecord);
  store_DeleteBySubjectClient : string → string → St → St * result unit;
  store_TokenOwner : string → St → result string;
  store_RefreshFamily : option (Z → string → St → result string);
  store_SpentRefreshOwner : option (Z → string → St → result string);
}.

(** [TokenAdmin]: bulk revocation. *)
Class TokenAdmin (St : Type) := {
  admin_RevokeTokens : TokenFilter → St → St * result nat;
}.

(** ** [MemoryStore] *)

(** The four maps, and whether [NewService] injected a clock. Every method
    runs under the store's lock, so it is one step. *)
Record MemoryStore := mkStore {
  codes : gmap string AuthorizationCode;
  access : gmap string AccessToken;
  refresh : gmap string RefreshToken;
  tombstones : gmap string refreshTombstone;
  ms_clock : bool;
}.

Definition NewMemoryStore : MemoryStore := mkStore ∅ ∅ ∅ ∅ false.

Definition set_codes (m : gmap string AuthorizationCode) (s : MemoryStore) : MemoryStore :=
  mkStore m (access s) (refresh s) (tombstones s) (ms_clock s).
Definition set_access (m : gmap string AccessToken) (s : MemoryStore) : MemoryStore :=
  mkStore (codes s) m (refresh s) (tombstones s) (ms_clock s).
Definition set_refresh (m : gmap string RefreshToken) (s : MemoryStore) : MemoryStore :=
  mkStore (codes s) (access s) m (tombstones s) (ms_clock s).
Definition set_tombstones (m : gmap string refreshTombstone) (s : MemoryStore) : MemoryStore :=
  mkStore (codes s) (access s) (refresh s) m (ms_clock s).

(** [cloneScopes]: an owned copy, which is the same list of values. *)
Definition cloneScopes (l : list Scope) : list Scope := [] ++ l.

(** A record with its own copy of the scopes, as every method that takes one in
    or hands one out makes. *)
Definition clone_code (c : AuthorizationCode) : AuthorizationCode :=
  mkCode (ac_ClientID c) (ac_Subject c) (cloneScopes (ac_Scopes c)) (ac_RedirectURI c)
    (ac_CodeChallenge c) (ac_CodeChallengeMethod c) (ac_ExpiresAt c).
Definition clone_access (t : AccessToken) : AccessToken :=
  mkAccess (at_ClientID t) (at_Subject t) (cloneScopes (at_Scopes t)) (at_FamilyID t)
    (at_IssuedAt t) (at_ExpiresAt t).
Definition clone_refresh (t : RefreshToken) : RefreshToken :=
  mkRefresh (rt_ClientID t) (rt_Subject t) (cloneScopes (rt_Scopes t)) (rt_FamilyID t)
    (rt_IssuedAt t) (rt_ExpiresAt t).

(** [!now.Before(deadline)]. *)
Definition expired (now deadline : Z) : bool := negb (time_Before now deadline).

(** [MemoryStore.SweepExpired]. *)
Definition SweepExpired (now : Z) (s : MemoryStore) : MemoryStore * nat :=
  let dead_code := λ c, expired now (ac_ExpiresAt c) in
  let dead_access := λ t, expired now (at_ExpiresAt t) in
  let dead_refresh := λ t, expired now (rt_ExpiresAt t) in
  let dead_tomb := λ t, expired now (tb_ExpiresAt t) in
  (mkStore (delete_where dead_code (codes s)) (delete_where dead_access (access s))
           (delete_where dead_refresh (refresh s)) (delete_where dead_tomb (tombstones s))
           (ms_clock s),
   count_where dead_code (codes s) + count_where dead_access (access s) +
   count_where dead_refresh (refresh s) + count_where dead_tomb (tombstones s)).

Section memory_store.
Context `{Platform}.

(** [TokenHash]: the at-rest form of an opaque value. *)
Definition TokenHash (value : string) : string := hex_EncodeToString (sha256 value).

Definition MemoryStore_SaveCode (value : string) (c : AuthorizationCode) (s : MemoryStore)
    : MemoryStore * result unit :=
  (set_codes (<[TokenHash value := clone_code c]> (codes s)) s, Ok tt).

Definition MemoryStore_GetCode (value : string) (s : MemoryStore) : result AuthorizationCode :=
  match codes s !! TokenHash value with
  | None => Err ErrTokenNotFound
  | Some c => Ok (clone_code c)
  end.

Definition MemoryStore_ConsumeCode (value : string) (s : MemoryStore)
    : MemoryStore * result AuthorizationCode :=
  let key := TokenHash value in
  match codes s !! key with
  | None => (s, Err ErrTokenNotFound)
  | Some c => (set_codes (delete key (codes s)) s, Ok (clone_code c))
  end.

Definition MemoryStore_SaveAccess (value : string) (t : AccessToken) (s : MemoryStore)
    : MemoryStore * result unit :=
  (set_access (<[TokenHash value := clone_access t]> (access s)) s, Ok tt).

Definition MemoryStore_GetAccess (value : string) (s : MemoryStore) : result AccessToken :=
  match access s !! TokenHash value with
  | None => Err ErrTokenNotFound
  | Some t => Ok (clone_access t)
  end.

Definition MemoryStore_DeleteAccess (value : string) (s : MemoryStore)
    : MemoryStore * result unit :=
  (set_access (delete (TokenHash value) (access s)) s, Ok tt).

(** [MemoryStore.TokenOwner]: for a live value only. *)
Definition MemoryStore_TokenOwner (value : string) (s : MemoryStore) : result string :=
  let key := TokenHash value in
  match access s !! key with
  | Some t => Ok (at_ClientID t)
  | None =>
      match refresh s !! key with
      | Some t => Ok (rt_ClientID t)
      | None => Err ErrTokenNotFound
      end
  end.

(** [s.now != nil && !s.now().Before(tomb.ExpiresAt)]. *)
Definition tomb_lapsed (now : Z) (s : MemoryStore) (t : refreshTombstone) : bool :=
  ms_clock s && expired now (tb_ExpiresAt t).

Definition MemoryStore_SpentRefreshOwner (now : Z) (value : string) (s : MemoryStore)
    : result string :=
  match tombstones s !! TokenHash value with
  | None => Err ErrTokenNotFound
  | Some tomb => if tomb_lapsed now s tomb then Err ErrTokenNotFound else Ok (tb_ClientID tomb)
  end.

Definition MemoryStore_SaveRefresh (value : string) (t : RefreshToken) (s : MemoryStore)
    : MemoryStore * result unit :=
  (set_refresh (<[TokenHash value := clone_refresh t]> (refresh s)) s, Ok tt).

Definition MemoryStore_GetRefresh (value : string) (s : MemoryStore) : result RefreshToken :=
  match refresh s !! TokenHash value with
  | None => Err ErrTokenNotFound
  | Some t => Ok (clone_refresh t)
  end.

(** [MemoryStore.ConsumeRefresh]: claims and retires in one step; a spent value
    still inside its tombstone's deadline is a replay. *)
Definition MemoryStore_ConsumeRefresh (now : Z) (value : string) (s : MemoryStore)
    : MemoryStore * result RefreshToken :=
  let key := TokenHash value in
  match refresh s !! key with
  | None =>
      match tombstones s !! key with
      | Some tomb =>
          if tomb_lapsed now s tomb then (s, Err ErrTokenNotFound)
          else (s, Err (Reuse (tb_FamilyID tomb)))
      | None => (s, Err ErrTokenNotFound)
      end
  | Some t =>
      (set_tombstones
         (<[key := mkTomb (rt_FamilyID t) (rt_ClientID t) (rt_Subject t) (rt_ExpiresAt t)]>
            (tombstones s))
         (set_refresh (delete key (refresh s)) s),
       Ok (clone_refresh t))
  end.

Definition MemoryStore_DeleteRefresh (value : string) (s : MemoryStore)
    : MemoryStore * result unit :=
  let key := TokenHash value in
  (set_tombstones (delete key (tombstones s)) (set_refresh (delete key (refresh s)) s), Ok tt).

(** [MemoryStore.RevokeRefreshFamily]: an empty family revokes nothing. *)
Definition MemoryStore_RevokeRefreshFamily (familyID : string) (s : MemoryStore)
    : MemoryStore * result nat :=
  if bool_decide (familyID = EmptyString) then (s, Ok 0)
  else
    let in_refresh := λ t, bool_decide (rt_FamilyID t = familyID) in
    let in_access := λ t, bool_decide (at_FamilyID t = familyID) in
    let in_tomb := λ t, bool_decide (tb_FamilyID t = familyID) in
    (mkStore (codes s) (delete_where in_access (access s)) (delete_where in_refresh (refresh s))
       (delete_where in_tomb (tombstones s)) (ms_clock s),
     Ok (count_where in_refresh (refresh s) + count_where in_access (access s))).

Definition MemoryStore_RefreshFamily (now : Z) (value : string) (s : MemoryStore)
    : result string :=
  let key := TokenHash value in
  match refresh s !! key with
  | Some t => Ok (rt_FamilyID t)
  | None =>
      match tombstones s !! key with
      | Some tomb => if tomb_lapsed now s tomb then Err ErrTokenNotFound else Ok (tb_FamilyID tomb)
      | None => Err ErrTokenNotFound
      end
  end.

(** [MemoryStore.ListBySubject]: both tables scanned, in no particular order. *)
Definition MemoryStore_ListBySubject (subject : string) (s : MemoryStore)
    : result (list GrantRecord) :=
  let from_access := λ t, mkGrantRecord TokenKindAccess (at_ClientID t) (cloneScopes (at_Scopes t))
                            (at_IssuedAt t) (at_ExpiresAt t) in
  let from_refresh := λ t, mkGrantRecord TokenKindRefresh (rt_ClientID t) (cloneScopes (rt_Scopes t))
                             (rt_IssuedAt t) (rt_ExpiresAt t) in
  Ok ((from_access <$> filter (λ t, at_Subject t = subject) (map_to_list (access s)).*2) ++
      (from_refresh <$> filter (λ t, rt_Subject t = subject) (map_to_list (refresh s)).*2)).

(** [MemoryStore.DeleteBySubjectClient]: tokens, unspent codes, tombstones. *)
Definition MemoryStore_DeleteBySubjectClient (subject clientID : string) (s : MemoryStore)
    : MemoryStore * result unit :=
  let owned := λ sub cl, bool_decide (sub = subject) && bool_decide (cl = clientID) in
  (mkStore (delete_where (λ c, owned (ac_Subject c) (ac_ClientID c)) (codes s))
     (delete_where (λ t, owned (at_Subject t) (at_ClientID t)) (access s))
     (delete_where (λ t, owned (rt_Subject t) (rt_ClientID t)) (refresh s))
     (delete_where (λ t, owned (tb_Subject t) (tb_ClientID t)) (tombstones s)) (ms_clock s),
   Ok tt).

(** [MemoryStore.RevokeTokens]: codes and tombstones go uncounted. *)
Definition MemoryStore_RevokeTokens (f : TokenFilter) (s : MemoryStore)
    : MemoryStore * result nat :=
  let m_access := λ t, Matches f (at_ClientID t) (at_Subject t) in
  let m_refresh := λ t, Matches f (rt_ClientID t) (rt_Subject t) in
  (mkStore (delete_where (λ c, Matches f (ac_ClientID c) (ac_Subject c)) (codes s))
     (delete_where m_access (access s)) (delete_where m_refresh (refresh s))
     (delete_where (λ t, Matches f (tb_ClientID t) (tb_Subject t)) (tombstones s)) (ms_clock s),
   Ok (count_where m_access (access s) + count_where m_refresh (refresh s))).

#[export] Instance memory_store : Store MemoryStore := {|
  store_SaveCode := MemoryStore_SaveCode;
  store_GetCode := MemoryStore_GetCode;
  store_ConsumeCode := MemoryStore_ConsumeCode;
  store_SaveAccess := MemoryStore_SaveAccess;
  store_GetAccess := MemoryStore_GetAccess;
  store_DeleteAccess := MemoryStore_DeleteAccess;
  store_SaveRefresh := MemoryStore_SaveRefresh;
  store_GetRefresh := MemoryStore_GetRefresh;
  store_ConsumeRefresh := MemoryStore_ConsumeRefresh;
  store_DeleteRefresh := MemoryStore_DeleteRefresh;
  store_RevokeRefreshFamily := MemoryStore_RevokeRefreshFamily;
  store_ListBySubject := MemoryStore_ListBySubject;
  store_DeleteBySubjectClient := MemoryStore_DeleteBySubjectClient;
  store_TokenOwner := MemoryStore_TokenOwner;
  store_RefreshFamily := Some MemoryStore_RefreshFamily;
  store_SpentRefreshOwner := Some MemoryStore_SpentRefreshOwner;
|}.
End memory_store.

#[export] Instance memory_store_admin : TokenAdmin MemoryStore := {|
  admin_RevokeTokens := MemoryStore_RevokeTokens;
|}.

(** [TokenAdmins.RevokeTokens]: every engine is asked, the counts are summed,
    the first error is kept. An engine is its reply to the filter. *)
Fixpoint TokenAdmins_RevokeTokens {St} (revoke : St → TokenFilter → St * (nat * option error))
    (f : TokenFilter) (stores : list St) (total : nat) (firstErr : option error)
    : list St * (nat * option error) :=
  match stores with
  | [] => ([], (total, firstErr))
  | st :: rest =>
      let '(st', (n, err)) := revoke st f in
      let firstErr' := match firstErr with Some e => Some e | None => err end in
      let '(rest', out) := TokenAdmins_RevokeTokens revoke f rest (total + n) firstErr' in
      (st' :: rest', out)
  end.

(** ** Invariant and derived notions *)

(** A value is live or spent, never both. *)
Definition store_wf (s : MemoryStore) : Prop :=
  ∀ k, is_Some (refresh s !! k) → tombstones s !! k = None.

(** The methods as one transition relation, with what the caller passes. *)
Inductive store_op :=
| OpSaveCode (v : string) (c : AuthorizationCode)
| OpConsumeCode (v : string)
| OpSaveAccess (v : string) (t : AccessToken)
| OpDeleteAccess (v : string)
| OpSaveRefresh (v : string) (t : RefreshToken)
| OpConsumeRefresh (now : Z) (v : string)
| OpDeleteRefresh (v : string)
| OpRevokeRefreshFamily (f : string)
| OpDeleteBySubjectClient (subject client : string)
| OpRevokeTokens (f : TokenFilter)
| OpSweepExpired (now : Z).

Definition apply_op `{Platform} (op : store_op) (s : MemoryStore) : MemoryStore :=
  match op with
  | OpSaveCode v c => (MemoryStore_SaveCode v c s).1
  | OpConsumeCode v => (MemoryStore_ConsumeCode v s).1
  | OpSaveAccess v t => (MemoryStore_SaveAccess v t s).1
  | OpDeleteAccess v => (MemoryStore_DeleteAccess v s).1
  | OpSaveRefresh v t => (MemoryStore_SaveRefresh v t s).1
  | OpConsumeRefresh now v => (MemoryStore_ConsumeRefresh now v s).1
  | OpDeleteRefresh v => (MemoryStore_DeleteRefresh v s).1
  | OpRevokeRefreshFamily f => (MemoryStore_RevokeRefreshFamily f s).1
  | OpDeleteBySubjectClient sub cl => (MemoryStore_DeleteBySubjectClient sub cl s).1
  | OpRevokeTokens f => (MemoryStore_RevokeTokens f s).1
  | OpSweepExpired now => (SweepExpired now s).1
  end.

(** The one obligation of a caller: a saved refresh value is not one whose
    tombstone is still held. The service draws it from 32 random bytes. *)
Definition op_fresh `{Platform} (op : store_op) (s : MemoryStore) : Prop :=
  match op with
  | OpSaveRefresh v _ => tombstones s !! TokenHash v = None
  | _ => True
  end.

(** ** Lemmas *)

Lemma clone_code_id c : clone_code c = c.
Proof. by destruct c. Qed.
Lemma clone_access_id t : clone_access t = t.
Proof. by destruct t. Qed.
Lemma clone_refresh_id t : clone_refresh t = t.
Proof. by destruct t. Qed.

Lemma expired_spec now d : expired now d = true ↔ (d <= now)%Z.
Proof. unfold expired, time_Before. rewrite negb_true_iff, Z.ltb_ge. done. Qed.
Lemma expired_false now d : expired now d = false ↔ (now < d)%Z.
Proof. unfold expired, time_Before. rewrite negb_false_iff, Z.ltb_lt. done. Qed.
Lemma expired_mono now now' d : (now <= now')%Z → expired now d = true → expired now' d = true.
Proof. rewrite !expired_spec. lia. Qed.

Lemma Matches_spec f cl sub :
  Matches f cl sub = true ↔
    (tf_ClientID f = EmptyString ∨ tf_ClientID f = cl) ∧
    (tf_Subject f = EmptyString ∨ tf_Subject f = sub).
Proof. unfold Matches. by rewrite andb_true_iff, !orb_true_iff, !bool_decide_eq_true. Qed.

#[export] Hint Rewrite clone_code_id clone_access_id clone_refresh_id : run.

(** Deleting from both tables keeps them apart. *)
Lemma delete_where_apart (P : RefreshToken → bool) (Q : refreshTombstone → bool)
    (m : gmap string RefreshToken) (m' : gmap string refreshTombstone) k :
  (is_Some (m !! k) → m' !! k = None) →
  is_Some (delete_where P m !! k) → delete_where Q m' !! k = None.
Proof.
  intros Hmm [t [Ht _]%lookup_delete_where]. apply lookup_delete_where_None. left. eauto.
Qed.

Lemma apply_op_wf `{Platform} op s : store_wf s → op_fresh op s → store_wf (apply_op op s).
Proof.
  intros Hwf Hf k. specialize (Hwf k). destruct op; simpl in *;
    try done; try by apply delete_where_apart.
  - unfold MemoryStore_ConsumeCode. by case_match.
  - rewrite lookup_insert. case_decide; [by subst|done].
  - unfold MemoryStore_ConsumeRefresh. repeat case_match; simpl; try done.
    rewrite lookup_delete, lookup_insert. case_decide; [by intros [? [=]]|done].
  - rewrite !lookup_delete. by case_decide.
  - unfold MemoryStore_RevokeRefreshFamily. case_bool_decide; simpl; [done|].
    by apply delete_where_apart.
Qed.

(** What a family revocation leaves. *)
Lemma RevokeRefreshFamily_lookup f s :
  f ≠ EmptyString →
  let s' := (MemoryStore_RevokeRefreshFamily f s).1 in
  (∀ k t, refresh s' !! k = Some t ↔ refresh s !! k = Some t ∧ rt_FamilyID t ≠ f) ∧
  (∀ k t, access s' !! k = Some t ↔ access s !! k = Some t ∧ at_FamilyID t ≠ f) ∧
  (∀ k t, tombstones s' !! k = Some t ↔ tombstones s !! k = Some t ∧ tb_FamilyID t ≠ f) ∧
  codes s' = codes s.
Proof.
  intros Hf. unfold MemoryStore_RevokeRefreshFamily. rewrite bool_decide_false by done. simpl.
  split_and!; try (intros k t; rewrite lookup_delete_where, bool_decide_eq_false; done). done.
Qed.

(** What the store knows about a refresh value at an instant: the three answers
    the [Store] contract distinguishes. *)
Inductive refresh_status :=
| Live (t : RefreshToken)
| Spent (family : string)
| Unknown.

Definition status `{Platform} (now : Z) (s : MemoryStore) (v : string) : refresh_status :=
  match refresh s !! TokenHash v with
  | Some t => Live t
  | None => match tombstones s !! TokenHash v with
            | Some tomb => if tomb_lapsed now s tomb then Unknown else Spent (tb_FamilyID tomb)
            | None => Unknown
            end
  end.

(** What an entry point can still do with a value at an instant. *)
Definition usable_code `{Platform} (now : Z) (s : MemoryStore) (v : string)
    : option AuthorizationCode :=
  match codes s !! TokenHash v with
  | Some c => if expired now (ac_ExpiresAt c) then None else Some c
  | None => None
  end.
Definition usable_access `{Platform} (now : Z) (s : MemoryStore) (v : string)
    : option AccessToken :=
  match access s !! TokenHash v with
  | Some t => if expired now (at_ExpiresAt t) then None else Some t
  | None => None
  end.
Definition usable_refresh `{Platform} (now : Z) (s : MemoryStore) (v : string)
    : option RefreshToken :=
  match refresh s !! TokenHash v with
  | Some t => if expired now (rt_ExpiresAt t) then None else Some t
  | None => None
  end.

(** A lookup in a map swept of what [now] has expired, judged at a later time. *)
Lemma swept_lookup {V} (dl : V → Z) now now' (m : gmap string V) k :
  (now <= now')%Z →
  match delete_where (λ v, expired now (dl v)) m !! k with
  | Some v => if expired now' (dl v) then None else Some v
  | None => None
  end =
  match m !! k with
  | Some v => if expired now' (dl v) then None else Some v
  | None => None
  end.
Proof.
  intros Hle. destruct (m !! k) as [v|] eqn:E.
  - destruct (expired now (dl v)) eqn:Ex.
    + assert (delete_where (λ v, expired now (dl v)) m !! k = None) as ->
        by (apply lookup_delete_where_None; eauto).
      by rewrite (expired_mono _ _ _ Hle Ex).
    + by rewrite (proj2 (lookup_delete_where (λ v, expired now (dl v)) m k v)).
  - assert (delete_where (λ v, expired now (dl v)) m !! k = None) as ->
      by (apply lookup_delete_where_None; eauto). done.
Qed.

(** ** Properties *)

Section store_properties.
Context `{Platform}.

(** Whatever sequence of calls a [MemoryStore] receives, as long as saved
    refresh values do not collide with a held tombstone, no value is at once
    live and spent: presenting it has one answer. *)
Theorem store_wf_reachable s :
  rtc (λ s1 s2, ∃ op, op_fresh op s1 ∧ s2 = apply_op op s1) NewMemoryStore s → store_wf s.
Proof.
  apply (rtc_ind_r (λ s, store_wf s)).
  - intros k [t Ht]. simpl in Ht. by rewrite lookup_empty in Ht.
  - intros s1 s2 _ (op & Hf & ->) Hwf. by apply apply_op_wf.
Qed.

(** [MemoryStore.ConsumeRefresh] meets the [Store] contract for rotation. A
    live value, expired or not, is handed out once and from then on is spent
    with its family, until its own deadline when a clock is injected and for
    ever otherwise; a spent value reports the replay with that family and
    changes nothing; an unknown value is [ErrTokenNotFound] and changes
    nothing. No other value changes status, and codes and access tokens are
    untouched. *)
Theorem ConsumeRefresh_contract now s v :
  let out := MemoryStore_ConsumeRefresh now v s in
  match status now s v with
  | Live t =>
      out.2 = Ok t ∧
      ∀ now', status now' out.1 v =
        if ms_clock s && expired now' (rt_ExpiresAt t) then Unknown else Spent (rt_FamilyID t)
  | Spent f => out = (s, Err (Reuse f))
  | Unknown => out = (s, Err ErrTokenNotFound)
  end ∧
  (∀ v' now', TokenHash v' ≠ TokenHash v → status now' out.1 v' = status now' s v') ∧
  codes out.1 = codes s ∧ access out.1 = access s.
Proof.
  unfold status, MemoryStore_ConsumeRefresh, tomb_lapsed.
  destruct (refresh s !! TokenHash v) as [t|] eqn:E; simpl.
  - rewrite clone_refresh_id, lookup_delete_eq, lookup_insert_eq. simpl.
    split_and!; [done|done| |done|done].
    intros v' now' Hne. by rewrite lookup_delete_ne, lookup_insert_ne by done.
  - destruct (tombstones s !! TokenHash v) as [tomb|]; [|done].
    by destruct (ms_clock s && expired now (tb_ExpiresAt tomb)).
Qed.

(** [MemoryStore.RevokeRefreshFamily] kills exactly the family it names: no
    live refresh token, tombstone or access token of it remains, every record
    of another family and every code stays, the count is the number of token
    records that went, a second call finds none, and the empty family, which
    would otherwise name every record minted without one, is a no-op. *)
Theorem RevokeRefreshFamily_exact f s :
  let s' := (MemoryStore_RevokeRefreshFamily f s).1 in
  (f = EmptyString → MemoryStore_RevokeRefreshFamily f s = (s, Ok 0)) ∧
  (f ≠ EmptyString →
    (∀ k t, refresh s' !! k = Some t ↔ refresh s !! k = Some t ∧ rt_FamilyID t ≠ f) ∧
    (∀ k t, access s' !! k = Some t ↔ access s !! k = Some t ∧ at_FamilyID t ≠ f) ∧
    (∀ k t, tombstones s' !! k = Some t ↔ tombstones s !! k = Some t ∧ tb_FamilyID t ≠ f) ∧
    codes s' = codes s ∧
    (∃ n, (MemoryStore_RevokeRefreshFamily f s).2 = Ok n ∧
          n + size (refresh s') + size (access s') = size (refresh s) + size (access s)) ∧
    MemoryStore_RevokeRefreshFamily f s' = (s', Ok 0)).
Proof.
  split; [intros ->; done|intros Hf].
  destruct (RevokeRefreshFamily_lookup f s Hf) as (Hr & Ha & Ht & Hc).
  split_and!; [done..| |]; clear Hr Ha Ht Hc;
    unfold MemoryStore_RevokeRefreshFamily; rewrite bool_decide_false by done; simpl.
  - eexists. split; [done|].
    pose proof (count_where_size (λ t, bool_decide (rt_FamilyID t = f)) (refresh s)).
    pose proof (count_where_size (λ t, bool_decide (at_FamilyID t = f)) (access s)). lia.
  - rewrite !delete_where_idemp.
    rewrite !(proj2 (count_where_zero _ _)) by apply delete_where_idemp. done.
Qed.

(** [MemoryStore.RevokeTokens], the Kill Switch, is exact: after it no
    code, access token, refresh token or tombstone matches the filter, every
    record that did not match is still there, and the reported count is the
    number of access and refresh tokens removed. *)
Theorem RevokeTokens_exact f s :
  let s' := (MemoryStore_RevokeTokens f s).1 in
  (∀ k c, codes s' !! k = Some c ↔
     codes s !! k = Some c ∧ Matches f (ac_ClientID c) (ac_Subject c) = false) ∧
  (∀ k t, access s' !! k = Some t ↔
     access s !! k = Some t ∧ Matches f (at_ClientID t) (at_Subject t) = false) ∧
  (∀ k t, refresh s' !! k = Some t ↔
     refresh s !! k = Some t ∧ Matches f (rt_ClientID t) (rt_Subject t) = false) ∧
  (∀ k t, tombstones s' !! k = Some t ↔
     tombstones s !! k = Some t ∧ Matches f (tb_ClientID t) (tb_Subject t) = false) ∧
  ∃ n, (MemoryStore_RevokeTokens f s).2 = Ok n ∧
       n + size (refresh s') + size (access s') = size (refresh s) + size (access s).
Proof.
  cbn [MemoryStore_RevokeTokens fst snd codes access refresh tombstones].
  split_and!; [by intros; rewrite lookup_delete_where..|].
  eexists. split; [reflexivity|].
  pose proof (count_where_size (λ t, Matches f (rt_ClientID t) (rt_Subject t)) (refresh s)).
  pose proof (count_where_size (λ t, Matches f (at_ClientID t) (at_Subject t)) (access s)). lia.
Qed.

(** [MemoryStore.SweepExpired] cannot be observed: at the sweep's instant
    and every later one, each value names the same unexpired code, access token
    and refresh token as before, and with the injected clock a value that is
    not a live record reports the same replay or the same not-found. *)
Theorem SweepExpired_unobservable now now' s v :
  (now <= now')%Z →
  let s' := (SweepExpired now s).1 in
  usable_code now' s' v = usable_code now' s v ∧
  usable_access now' s' v = usable_access now' s v ∧
  usable_refresh now' s' v = usable_refresh now' s v ∧
  (ms_clock s = true → refresh s !! TokenHash v = None → status now' s' v = status now' s v).
Proof.
  intros Hle. unfold usable_code, usable_access, usable_refresh, status, tomb_lapsed.
  cbn [SweepExpired fst codes access refresh tombstones ms_clock].
  split_and!; [by apply swept_lookup..|].
  intros -> Hn. rewrite Hn.
  assert (delete_where (λ t, expired now (rt_ExpiresAt t)) (refresh s) !! TokenHash v = None) as ->
    by (apply lookup_delete_where_None; by left).
  pose proof (swept_lookup tb_ExpiresAt now now' (tombstones s) (TokenHash v) Hle) as Hs.
  simpl. repeat case_match; simplify_eq; congruence.
Qed.
End store_properties.

(** ** Witnesses *)

#[local] Existing Instance toy_platform.

Definition demo_refresh : RefreshToken := mkRefresh "app" "alice" [ScopeAccountID] "fam" 0 100.

Lemma store_wf_reachable_witness :
  store_wf (apply_op (OpConsumeRefresh 5 "r") (apply_op (OpSaveRefresh "r" demo_refresh) NewMemoryStore)).
Proof.
  apply store_wf_reachable.
  apply (rtc_l _ _ (apply_op (OpSaveRefresh "r" demo_refresh) NewMemoryStore)).
  - exists (OpSaveRefresh "r" demo_refresh). split; [vm_compute; reflexivity|reflexivity].
  - apply rtc_once. exists (OpConsumeRefresh 5 "r"). split; [exact I|reflexivity].
Defined.

(** A store with the injected clock, holding a live and a spent token. *)
Definition demo_swept : MemoryStore :=
  mkStore ∅ ∅ {[ TokenHash "live" := demo_refresh ]}
    {[ TokenHash "spent" := mkTomb "fam" "app" "alice" 50 ]} true.

Lemma SweepExpired_unobservable_witness :
  (60 <= 70)%Z ∧
  status 70 (SweepExpired 60 demo_swept).1 "spent" = Unknown.
Proof.
  split; [lia|].
  rewrite (proj2 (proj2 (proj2 (SweepExpired_unobservable 60 70 demo_swept "spent"
    ltac:(lia)))) ltac:(reflexivity) ltac:(vm_compute; reflexivity)).
  vm_compute. reflexivity.
Defined.
