(* ===== verification/Client.v ===== *)
(** * Clients and the client registry ([oauth/client.go])

    Registered downstream applications: construction and restoration, the
    stored verifier of a client secret, redirect URIs, page cursors, and the
    in-memory registry with its management operations. *)

From S2P Require Import Prelude GoStd Scope Proc Tokens.

(** ** Clients *)

(** [ClientType] and [ClientStatus] are strings with two named values each. *)
Abbreviation ClientType := string (only parsing).
Definition ClientPublic : ClientType := "public".
Definition ClientConfidential : ClientType := "confidential".

Definition ErrClientNotFound : error := New "oauth: client not found".
Definition ErrNoSecretToRotate : error := New "oauth: client has no secret to rotate".

Abbreviation ClientStatus := string (only parsing).
Definition ClientActive : ClientStatus := "active".
Definition ClientSuspended : ClientStatus := "suspended".

Record Client := mkClient {
  cl_ID : string;
  cl_Name : string;
  cl_Type : ClientType;
  cl_Status : ClientStatus;
  cl_CreatedAt : Z;
  cl_RedirectURIs : list string;
  cl_AllowedScopes : list Scope;
  cl_AllowMissingPKCE : bool;
  cl_secretHash : string;
}.

(** [Client.WithAllowMissingPKCE]. *)
Definition WithAllowMissingPKCE (allow : bool) (c : Client) : Client :=
  mkClient (cl_ID c) (cl_Name c) (cl_Type c) (cl_Status c) (cl_CreatedAt c) (cl_RedirectURIs c)
    (cl_AllowedScopes c) allow (cl_secretHash c).

Definition set_status (status : ClientStatus) (c : Client) : Client :=
  mkClient (cl_ID c) (cl_Name c) (cl_Type c) status (cl_CreatedAt c) (cl_RedirectURIs c)
    (cl_AllowedScopes c) (cl_AllowMissingPKCE c) (cl_secretHash c).
Definition set_secretHash (h : string) (c : Client) : Client :=
  mkClient (cl_ID c) (cl_Name c) (cl_Type c) (cl_Status c) (cl_CreatedAt c) (cl_RedirectURIs c)
    (cl_AllowedScopes c) (cl_AllowMissingPKCE c) h.

(** [Client.AllowsScope]. *)
Definition AllowsScope (c : Client) (s : Scope) : bool :=
  existsb (λ a, bool_decide (a = s)) (cl_AllowedScopes c).

(** ** The stored verifier of a client secret *)

Definition secretHashAlgorithm : string := "pbkdf2-sha256".
Definition secretHashIterations : Z := 210000.
Definition secretHashMaxIterations : Z := 4000000.
Definition secretHashSaltBytes : nat := 16.
Definition secretHashKeyBytes : nat := 32.
Definition secretHashFastAlgorithm : string := "hmac-sha256".
Definition secretHashFastVersion : string := "v=1".
Definition secretHashFastDomain : string :=
  "r0semi:client-secret:v2" +:+ String "000" EmptyString.

(** [VerifierPolicy]. *)
Inductive VerifierPolicy := VerifierPBKDF2 | VerifierGenerated.

Definition dollar : ascii := "$".

Section secret_hash.
Context `{Platform}.

(** [hashSecret]; [salt] is what [rand.Read] put in the 16-byte buffer, [None]
    its failure. *)
Definition hashSecret (salt : option string) (secret : string) : result string :=
  match salt with
  | None => Err (New "client secret salt")
  | Some salt =>
      match pbkdf2_sha256 secret salt secretHashIterations secretHashKeyBytes with
      | Err e => Err (Wrap "client secret hash" e)
      | Ok dk =>
          Ok (strings_Join [EmptyString; secretHashAlgorithm;
                            "i=" +:+ strconv_Itoa secretHashIterations;
                            RawStd_EncodeToString salt; RawStd_EncodeToString dk] "$")
      end
  end.

(** [hashGeneratedSecret]. *)
Definition hashGeneratedSecret (salt : option string) (secret : string) : result string :=
  match salt with
  | None => Err (New "client secret salt")
  | Some salt =>
      let dk := hmac_sha256 salt (secretHashFastDomain +:+ secret) in
      Ok (strings_Join [EmptyString; secretHashFastAlgorithm; secretHashFastVersion;
                        RawStd_EncodeToString salt; RawStd_EncodeToString dk] "$")
  end.

(** [NewSecretHash] and [NewGeneratedSecretHash]; [None] is the panic. *)
Definition NewSecretHash (salt : option string) (secret : string) : option string :=
  match hashSecret salt secret with Ok h => Some h | Err _ => None end.
Definition NewGeneratedSecretHash (salt : option string) (secret : string) : option string :=
  match hashGeneratedSecret salt secret with Ok h => Some h | Err _ => None end.

(** [LooksGeneratedSecret]. *)
Definition LooksGeneratedSecret (secret : string) : bool :=
  if (len secret =? 64) && str_forall (λ c, is_digit c || in_range 97 102 c) secret then true
  else if len secret <? 43 then false
  else if str_forall (λ c, is_lower c || is_upper c || is_digit c ||
            existsb (λ d, bool_decide (c = d)) ["+"; "/"; "-"; "_"; "="]%char) secret
  then str_exists (λ c, is_lower c || is_upper c) secret && str_exists is_digit secret &&
       (16 <=? size (list_to_set (String.list_ascii_of_string secret) : gset ascii))
  else false.

(** [splitSecretHash]: salt, derived key and work factor. *)
Definition splitSecretHash (encoded : string) : option (string * string * Z) :=
  match strings_Split encoded dollar with
  | [p0; p1; p2; p3; p4] =>
      if negb (bool_decide (p0 = EmptyString)) || negb (bool_decide (p1 = secretHashAlgorithm))
      then None
      else
        rawIter ← strings_CutPrefix p2 "i=";
        iterations ← strconv_Atoi rawIter;
        if ((iterations <? 1) || (secretHashMaxIterations <? iterations))%Z then None else
        salt ← RawStd_DecodeString p3;
        if len salt <? 8 then None else
        dk ← RawStd_DecodeString p4;
        if negb (len dk =? secretHashKeyBytes) then None
        else Some (salt, dk, iterations)
  | _ => None
  end.

(** [splitFastSecretHash]. *)
Definition splitFastSecretHash (encoded : string) : option (string * string) :=
  match strings_Split encoded dollar with
  | [p0; p1; p2; p3; p4] =>
      if negb (bool_decide (p0 = EmptyString)) || negb (bool_decide (p1 = secretHashFastAlgorithm))
         || negb (bool_decide (p2 = secretHashFastVersion))
      then None
      else
        salt ← RawStd_DecodeString p3;
        if len salt <? 8 then None else
        dk ← RawStd_DecodeString p4;
        if negb (len dk =? secretHashKeyBytes) then None
        else Some (salt, dk)
  | _ => None
  end.

(** [validSecretHash] and the exported [ValidSecretHash]. *)
Definition validSecretHash (encoded : string) : bool :=
  match splitSecretHash encoded with
  | Some _ => true
  | None => match splitFastSecretHash encoded with Some _ => true | None => false end
  end.
Definition ValidSecretHash (encoded : string) : bool := validSecretHash encoded.

(** [verifySecretHash]; [subtle.ConstantTimeCompare] is equality of bytes. *)
Definition verifySecretHash (encoded secret : string) : bool :=
  match splitFastSecretHash encoded with
  | Some (salt, want) => bool_decide (want = hmac_sha256 salt (secretHashFastDomain +:+ secret))
  | None =>
      match splitSecretHash encoded with
      | None => false
      | Some (salt, want, iterations) =>
          match pbkdf2_sha256 secret salt iterations (len want) with
          | Err _ => false
          | Ok got => bool_decide (want = got)
          end
      end
  end.

(** [Client.Authenticate] and [Client.SecretHash]. *)
Definition Authenticate (c : Client) (secret : string) : bool :=
  if len (cl_secretHash c) =? 0 then false else verifySecretHash (cl_secretHash c) secret.
Definition SecretHash (c : Client) : string := cl_secretHash c.
End secret_hash.

(** ** Redirect URIs *)

Section redirects.
Context `{Platform}.

Definition forbiddenRedirectSchemes : list string :=
  ["javascript"; "data"; "vbscript"; "file"; "blob"; "about"].

Definition scheme_forbidden (scheme : string) : bool :=
  bool_decide (scheme ∈ forbiddenRedirectSchemes).

(** [forbiddenRedirectScheme]: what does not parse is forbidden. *)
Definition forbiddenRedirectScheme (raw : string) : bool :=
  match url_Parse raw with
  | None => true
  | Some u => scheme_forbidden (strings_ToLower (u_Scheme u))
  end.

(** [loopbackHost]. *)
Definition loopbackHost (host : string) : bool :=
  bool_decide (host ∈ ["localhost"; "127.0.0.1"; "::1"]) || net_loopback_ip host.

(** [validRedirectURI]; [None] is the nil error. *)
Definition validRedirectURI (raw : string) : option error :=
  match url_Parse raw with
  | None => Some (New "it does not parse as a URL")
  | Some u =>
      if bool_decide (u_Scheme u = EmptyString) then Some (New "it has no scheme") else
      if negb (bool_decide (u_Fragment u = EmptyString))
      then Some (New "RFC 6749 3.1.2 forbids a fragment") else
      if u_User u then Some (New "it carries userinfo, which no client needs and a phisher does") else
      let scheme := strings_ToLower (u_Scheme u) in
      if scheme_forbidden scheme
      then Some (New ("the " +:+ scheme +:+ ": scheme is never a redirect target")) else
      if bool_decide (scheme = "https") then
        if bool_decide (u_Host u = EmptyString)
        then Some (New "an https redirect URI needs a host") else None
      else if bool_decide (scheme = "http") then
        if loopbackHost (strings_ToLower (u_Hostname u)) then None
        else Some (New "http is allowed only for a loopback host (RFC 8252 7.3); use https")
      else
        if negb (str_exists (λ c, bool_decide (c = "."%char)) scheme)
        then Some (New "a custom scheme must be in reverse-DNS notation (RFC 8252 7.1), e.g. com.example.app")
        else if bool_decide (u_Opaque u = EmptyString) && bool_decide (u_Path u = EmptyString) &&
                bool_decide (u_Host u = EmptyString)
        then Some (New "it names no target") else None
  end.

(** The loop of [Client.RegisteredRedirect]. *)
Fixpoint registered_loop (uri : string) (rs : list string) : string :=
  match rs with
  | [] => EmptyString
  | r :: rs' => if bool_decide (r = uri) && negb (forbiddenRedirectScheme r) then r
                else registered_loop uri rs'
  end.

(** [Client.RegisteredRedirect] and [Client.AllowsRedirect]. *)
Definition RegisteredRedirect (c : Client) (uri : string) : string :=
  if forbiddenRedirectScheme uri then EmptyString else registered_loop uri (cl_RedirectURIs c).
Definition AllowsRedirect (c : Client) (uri : string) : bool :=
  negb (bool_decide (RegisteredRedirect c uri = EmptyString)).

(** ** Construction and restoration *)

(** The loop of [newClient] over the redirect URIs. *)
Fixpoint check_redirects (rs : list string) : option error :=
  match rs with
  | [] => None
  | r :: rs' =>
      match validRedirectURI r with
      | Some err => Some (Wrap ("oauth: invalid redirect URI " +:+ strconv_Quote r +:+ ": " +:+ Error err) err)
      | None => check_redirects rs'
      end
  end.

(** [newClient]; [hash] writes the verifier and [None] is its panic. [now] is
    the reading of [time.Now]. *)
Definition newClient (now : Z) (id name : string) (typ : ClientType) (secret : string)
    (redirects : list string) (allowed : list Scope) (hash : string → option string)
    : option (result Client) :=
  if bool_decide (id = EmptyString) then Some (Err (New "oauth: client id is required")) else
  if negb (bool_decide (typ = ClientPublic)) && negb (bool_decide (typ = ClientConfidential))
  then Some (Err (New ("oauth: invalid client type " +:+ strconv_Quote typ))) else
  if bool_decide (typ = ClientConfidential) && bool_decide (secret = EmptyString)
  then Some (Err (New "oauth: confidential client requires a secret")) else
  if bool_decide (typ = ClientPublic) && negb (bool_decide (secret = EmptyString))
  then Some (Err (New "oauth: public client must not have a secret")) else
  if length redirects =? 0
  then Some (Err (New "oauth: at least one redirect URI is required")) else
  match check_redirects redirects with
  | Some err => Some (Err err)
  | None =>
      if bool_decide (secret = EmptyString)
      then Some (Ok (mkClient id name typ ClientActive now redirects allowed false EmptyString))
      else h ← hash secret;
           Some (Ok (mkClient id name typ ClientActive now redirects allowed false h))
  end.

(** [NewClient] and [NewClientWithVerifier]; [salt] as in [hashSecret]. *)
Definition NewClient (now : Z) (salt : option string) (id name : string) (typ : ClientType)
    (secret : string) (redirects : list string) (allowed : list Scope) : option (result Client) :=
  newClient now id name typ secret redirects allowed (NewSecretHash salt).
Definition NewClientWithVerifier (now : Z) (salt : option string) (id name : string)
    (typ : ClientType) (secret : string) (redirects : list string) (allowed : list Scope)
    (policy : VerifierPolicy) : option (result Client) :=
  newClient now id name typ secret redirects allowed
    (match policy with
     | VerifierGenerated => NewGeneratedSecretHash salt
     | VerifierPBKDF2 => NewSecretHash salt
     end).

(** [RestoreClientWithStatus] and [RestoreClient]. *)
Definition RestoreClientWithStatus (id name : string) (typ : ClientType) (status : ClientStatus)
    (secretHash : string) (redirects : list string) (allowed : list Scope) (createdAt : Z)
    : result Client :=
  if negb (bool_decide (status = ClientActive)) && negb (bool_decide (status = ClientSuspended))
  then Err (New ("oauth: invalid client status " +:+ strconv_Quote status)) else
  if bool_decide (id = EmptyString) then Err (New "oauth: client id is required") else
  if negb (bool_decide (typ = ClientPublic)) && negb (bool_decide (typ = ClientConfidential))
  then Err (New ("oauth: invalid client type " +:+ strconv_Quote typ)) else
  if bool_decide (typ = ClientConfidential) && negb (validSecretHash secretHash)
  then Err (New "oauth: confidential client requires a secret hash") else
  if bool_decide (typ = ClientPublic) && negb (len secretHash =? 0)
  then Err (New "oauth: public client must not have a secret hash") else
  if length redirects =? 0
  then Err (New "oauth: at least one redirect URI is required") else
  Ok (mkClient id name typ status createdAt redirects allowed false secretHash).

Definition RestoreClient (id name : string) (typ : ClientType) (secretHash : string)
    (redirects : list string) (allowed : list Scope) (createdAt : Z) : result Client :=
  RestoreClientWithStatus id name typ ClientActive secretHash redirects allowed createdAt.
End redirects.

(** ** Page cursors *)

Definition DefaultClientPageSize : Z := 100.
Definition MaxClientPageSize : Z := 100.
Definition ErrInvalidClientLimit : error := New "oauth: invalid client page limit".
Definition ErrInvalidClientCursor : error := New "oauth: invalid client cursor".
Definition clientCursorPrefix : string := "cl1:".

Definition EncodeClientCursor (id : string) : string :=
  RawURL_EncodeToString (clientCursorPrefix +:+ id).

Definition DecodeClientCursor (cursor : string) : result string :=
  if bool_decide (cursor = EmptyString) then Ok EmptyString
  else match RawURL_DecodeString cursor with
       | None => Err (Wrap (Error ErrInvalidClientCursor +:+ ": it is not base64url")
                        ErrInvalidClientCursor)
       | Some raw =>
           match strings_CutPrefix raw clientCursorPrefix with
           | Some (String c after) => Ok (String c after)
           | _ => Err (Wrap (Error ErrInvalidClientCursor +:+ ": it does not carry a client key")
                         ErrInvalidClientCursor)
           end
       end.

Definition ResolveClientPageLimit (limit : Z) : result Z :=
  if (limit =? 0)%Z then Ok DefaultClientPageSize
  else if ((limit <? 1) || (MaxClientPageSize <? limit))%Z
  then Err (Wrap (Error ErrInvalidClientLimit +:+ ": it must be between 1 and " +:+
                  strconv_Itoa MaxClientPageSize) ErrInvalidClientLimit)
  else Ok limit.

(** ** The registry *)

(** [ClientRegistry], with the optional [ClientNameLookup]. *)
Class ClientRegistry (R : Type) := {
  reg_Create : Client → R → R * result unit;
  reg_Get : string → R → result Client;
  reg_ClientNames : option (list string → R → result (gmap string string));
}.

(** The second loop of [LookupClientNames]. *)
Definition lookup_missing {R} `{ClientRegistry R} (reg : R) (out : gmap string string) (id : string)
    : gmap string string :=
  match out !! id with
  | Some _ => out
  | None => match reg_Get id reg with
            | Ok c => <[id := cl_Name c]> out
            | Err _ => out
            end
  end.

(** [LookupClientNames]; a nil registry is [None]. *)
Definition LookupClientNames {R} `{ClientRegistry R} (reg : option R) (ids : list string)
    : gmap string string :=
  match reg with
  | None => ∅
  | Some reg =>
      if length ids =? 0 then ∅
      else
        let out := match reg_ClientNames with
                   | Some bulk => match bulk ids reg with Ok names => names ∪ ∅ | Err _ => ∅ end
                   | None => ∅
                   end in
        foldl (lookup_missing reg) out ids
  end.

(** [MemoryClientRegistry]; [wired] is whether [SetTokenRevoker] recorded the
    token engine. *)
Record MemoryClientRegistry := mkClients { byID : gmap string Client; wired : bool }.

Definition NewMemoryClientRegistry : MemoryClientRegistry := mkClients ∅ false.
Definition SetTokenRevoker (r : MemoryClientRegistry) : MemoryClientRegistry :=
  mkClients (byID r) true.

Definition Create (c : Client) (r : MemoryClientRegistry) : MemoryClientRegistry * result unit :=
  match byID r !! cl_ID c with
  | Some _ => (r, Err (New ("oauth: client " +:+ cl_ID c +:+ " already exists")))
  | None => (mkClients (<[cl_ID c := c]> (byID r)) (wired r), Ok tt)
  end.

(** [MemoryClientRegistry.Get]: a suspended client is unknown. *)
Definition Get (id : string) (r : MemoryClientRegistry) : result Client :=
  match byID r !! id with
  | None => Err ErrClientNotFound
  | Some c => if bool_decide (cl_Status c = ClientSuspended) then Err ErrClientNotFound else Ok c
  end.

(** [MemoryClientRegistry.ClientNames]: a suspended client keeps its name. *)
Definition ClientNames (ids : list string) (r : MemoryClientRegistry)
    : result (gmap string string) :=
  Ok (foldl (λ out id, match byID r !! id with
                       | Some c => <[id := cl_Name c]> out
                       | None => out
                       end) ∅ ids).

#[export] Instance memory_registry : ClientRegistry MemoryClientRegistry := {|
  reg_Create := Create;
  reg_Get := Get;
  reg_ClientNames := Some ClientNames;
|}.

(** [MemoryClientRegistry.ListClients]. *)
Definition ListClients (limit : Z) (cursor : string) (r : MemoryClientRegistry)
    : result (list Client * string) :=
  limit ← ResolveClientPageLimit limit;
  after ← DecodeClientCursor cursor;
  let out := sort_by cl_ID (map_to_list (byID r)).*2 in
  let out :=
    if bool_decide (after = EmptyString) then out
    else after_key cl_ID after out in
  if (limit <? Z.of_nat (length out))%Z then
    let out := take (Z.to_nat limit) out in
    Ok (out, EncodeClientCursor (from_option cl_ID EmptyString (last out)))
  else Ok (out, EmptyString).

Section registry_admin.
Context `{Platform}.

(** [MemoryClientRegistry.SetStatus]. *)
Definition SetStatus (id : string) (status : ClientStatus) (r : MemoryClientRegistry)
    : MemoryClientRegistry * result unit :=
  if negb (bool_decide (status = ClientActive)) && negb (bool_decide (status = ClientSuspended))
  then (r, Err (New ("oauth: invalid client status " +:+ strconv_Quote status)))
  else match byID r !! id with
       | None => (r, Err ErrClientNotFound)
       | Some c => (mkClients (<[id := set_status status c]> (byID r)) (wired r), Ok tt)
       end.

(** [MemoryClientRegistry.RotateSecret]. *)
Definition RotateSecret (id secretHash : string) (r : MemoryClientRegistry)
    : MemoryClientRegistry * result unit :=
  if negb (validSecretHash secretHash)
  then (r, Err (New ("oauth: a rotation needs a " +:+ secretHashAlgorithm +:+
                     " secret hash, got " +:+ strconv_Itoa (Z.of_nat (len secretHash)) +:+ " bytes")))
  else match byID r !! id with
       | None => (r, Err ErrClientNotFound)
       | Some c =>
           if negb (bool_decide (cl_Type c = ClientConfidential)) then (r, Err ErrNoSecretToRotate)
           else (mkClients (<[id := set_secretHash secretHash c]> (byID r)) (wired r), Ok tt)
       end.
End registry_admin.

(** [MemoryClientRegistry.Delete], over the registry and the token engine it is
    wired to: reading the revoker, revoking, and removing the registration are
    three separate critical sections. *)
Definition Delete {St} `{TokenAdmin St} (id : string) : go (MemoryClientRegistry * St) unit :=
  rev ← reads (λ w : MemoryClientRegistry * St, wired w.1);
  (if rev : bool then
     call (λ w : MemoryClientRegistry * St,
             let '(st, r) := admin_RevokeTokens (mkFilter id EmptyString) w.2 in ((w.1, st), r));;
     mret tt
   else mret tt);;
  modify (λ w : MemoryClientRegistry * St, (mkClients (delete id (byID w.1)) (wired w.1), w.2)).

(** ** Invariant *)

(** Clients sit under their own non-empty id, as [NewClient] and [Create]
    leave them. *)
Definition clients_wf (r : MemoryClientRegistry) : Prop :=
  ∀ k c, byID r !! k = Some c → cl_ID c = k ∧ k ≠ EmptyString.

(** The row a persistent registry would write for the client is one
    [RestoreClientWithStatus] reads back as the client, without the PKCE
    exemption, which is stored apart. *)
Definition restorable `{Platform} (c : Client) : Prop :=
  RestoreClientWithStatus (cl_ID c) (cl_Name c) (cl_Type c) (cl_Status c) (SecretHash c)
    (cl_RedirectURIs c) (cl_AllowedScopes c) (cl_CreatedAt c) = Ok (WithAllowMissingPKCE false c).

Definition registry_ok `{Platform} (r : MemoryClientRegistry) : Prop :=
  clients_wf r ∧ ∀ k c, byID r !! k = Some c → restorable c.

(** What the protocol plane and an operator can do to a registry. A client is
    created from [NewClientWithVerifier], with or without the exemption. *)
Inductive registry_step `{Platform} : MemoryClientRegistry → MemoryClientRegistry → Prop :=
| step_create r now salt id name typ secret redirects allowed policy allow c :
    len salt = secretHashSaltBytes →
    NewClientWithVerifier now (Some salt) id name typ secret redirects allowed policy = Some (Ok c) →
    registry_step r (Create (WithAllowMissingPKCE allow c) r).1
| step_status r id status : registry_step r (SetStatus id status r).1
| step_rotate r id h : registry_step r (RotateSecret id h r).1
| step_delete r id : registry_step r (mkClients (delete id (byID r)) (wired r))
| step_wire r : registry_step r (SetTokenRevoker r).

(** A caller that follows the cursors: the pages it sees, concatenated. *)
Fixpoint walk_pages (fuel : nat) (limit : Z) (cursor : string) (r : MemoryClientRegistry)
    : option (list Client) :=
  match fuel with
  | 0 => None
  | S fuel =>
      match ListClients limit cursor r with
      | Err _ => None
      | Ok (page, next) =>
          if bool_decide (next = EmptyString) then Some page
          else (λ rest, page ++ rest) <$> walk_pages fuel limit next r
      end
  end.

(** ** Lemmas *)

(** A string without the separator is one part of the split. *)
Lemma Split_part s t c :
  str_before c s = None → strings_Split (s +:+ String c t) c = s :: strings_Split t c.
Proof. intros Hs. by rewrite Split_app, Split_single. Qed.

Lemma str_before_none P c s : str_forall P s = true → P c = false → str_before c s = None.
Proof.
  intros Hs Hc. induction s as [|a s IH]; simpl in *; [done|]. bools.
  case_bool_decide; [congruence|]. by rewrite IH.
Qed.

Lemma RawStd_no_dollar s : str_before dollar (RawStd_EncodeToString s) = None.
Proof.
  apply (str_before_none (λ c, negb (bool_decide (c = dollar)))); [|done].
  apply b64_encode_chars. by apply (N_below_64 (λ n, negb _)).
Qed.

(** The parts of a verifier in the stored format. *)
Lemma Split_verifier alg param salt dk :
  str_before dollar alg = None → str_before dollar param = None →
  strings_Split (strings_Join [EmptyString; alg; param; RawStd_EncodeToString salt;
                               RawStd_EncodeToString dk] "$") dollar =
    [EmptyString; alg; param; RawStd_EncodeToString salt; RawStd_EncodeToString dk].
Proof.
  intros Ha Hp. cbn [strings_Join].
  assert (Hd : ∀ t, ("$" +:+ t)%string = String dollar t) by done. rewrite !Hd.
  rewrite !Split_part by (done || apply RawStd_no_dollar).
  by rewrite Split_single by apply RawStd_no_dollar.
Qed.

Lemma splitFast_encoded salt dk :
  8 ≤ len salt → len dk = secretHashKeyBytes →
  splitFastSecretHash (strings_Join [EmptyString; secretHashFastAlgorithm; secretHashFastVersion;
    RawStd_EncodeToString salt; RawStd_EncodeToString dk] "$") = Some (salt, dk).
Proof.
  intros Hs Hd. unfold splitFastSecretHash. rewrite Split_verifier by done.
  rewrite !bool_decide_true by done. cbn [negb orb].
  rewrite !RawStd_roundtrip. cbn [mbind option_bind].
  rewrite (proj2 (Nat.ltb_ge _ _)) by done. rewrite ?RawStd_roundtrip. cbn [mbind option_bind].
  by rewrite Hd.
Qed.

Lemma split_encoded salt dk :
  8 ≤ len salt → len dk = secretHashKeyBytes →
  let h := strings_Join [EmptyString; secretHashAlgorithm; "i=" +:+ strconv_Itoa secretHashIterations;
    RawStd_EncodeToString salt; RawStd_EncodeToString dk] "$" in
  splitFastSecretHash h = None ∧ splitSecretHash h = Some (salt, dk, secretHashIterations).
Proof.
  intros Hs Hd. unfold splitFastSecretHash, splitSecretHash.
  cbv zeta. rewrite Split_verifier by (vm_compute; reflexivity). split; [done|].
  rewrite !bool_decide_true by done. cbn [negb orb].
  change (strings_CutPrefix ("i=" +:+ strconv_Itoa secretHashIterations) "i=")
    with (Some (strconv_Itoa secretHashIterations)). cbn [mbind option_bind].
  replace (strconv_Atoi (strconv_Itoa secretHashIterations)) with (Some secretHashIterations)
    by (vm_compute; reflexivity). cbn [mbind option_bind].
  replace (_ || _)%Z with false by (vm_compute; reflexivity).
  rewrite !RawStd_roundtrip. cbn [mbind option_bind].
  rewrite (proj2 (Nat.ltb_ge _ _)) by done. rewrite ?RawStd_roundtrip. cbn [mbind option_bind].
  by rewrite Hd.
Qed.

Section client_lemmas.
Context `{Platform}.

(** A verifier either scheme wrote is one [validSecretHash] admits, is not
    empty, and verifies as its scheme says. *)
Lemma hashGeneratedSecret_spec `{!PlatformOk} salt secret h :
  len salt = secretHashSaltBytes → hashGeneratedSecret (Some salt) secret = Ok h →
  validSecretHash h = true ∧ len h ≠ 0 ∧
  ∀ s, verifySecretHash h s =
    bool_decide (hmac_sha256 salt (secretHashFastDomain +:+ secret) =
                 hmac_sha256 salt (secretHashFastDomain +:+ s)).
Proof.
  intros Hs Hh. unfold hashGeneratedSecret in Hh. apply (inj Ok) in Hh as <-.
  unfold validSecretHash, verifySecretHash.
  rewrite splitFast_encoded by (rewrite ?Hs, ?hmac_sha256_length; unfold secretHashSaltBytes, secretHashKeyBytes; lia).
  split_and!; [by case_match|done|done].
Qed.

Lemma hashSecret_spec `{!PlatformOk} salt secret h :
  len salt = secretHashSaltBytes → hashSecret (Some salt) secret = Ok h →
  validSecretHash h = true ∧ len h ≠ 0 ∧
  ∀ s, verifySecretHash h s = true ↔
    pbkdf2_sha256 s salt secretHashIterations secretHashKeyBytes =
    pbkdf2_sha256 secret salt secretHashIterations secretHashKeyBytes.
Proof.
  intros Hs. unfold hashSecret.
  destruct (pbkdf2_sha256 secret _ _ _) as [dk|] eqn:E; [|done]. intros <-%(inj Ok).
  pose proof (pbkdf2_sha256_length _ _ _ _ _ E) as Hd.
  unfold validSecretHash, verifySecretHash.
  destruct (split_encoded salt dk) as [-> ->]; [rewrite Hs; unfold secretHashSaltBytes; lia|done|].
  split_and!; [done|done|]. intros s. rewrite Hd.
  destruct (pbkdf2_sha256 s _ _ _) as [got|]; [|done].
  rewrite bool_decide_eq_true. split; congruence.
Qed.

Lemma valid_not_forbidden r : validRedirectURI r = None → forbiddenRedirectScheme r = false.
Proof. unfold validRedirectURI, forbiddenRedirectScheme. intros. by go_cases. Qed.

Lemma check_redirects_spec rs :
  check_redirects rs = None ↔ Forall (λ r, validRedirectURI r = None) rs.
Proof.
  induction rs as [|r rs IH]; simpl; [by split|]. rewrite Forall_cons.
  destruct (validRedirectURI r); naive_solver.
Qed.

Lemma registered_loop_spec uri rs :
  registered_loop uri rs =
    if bool_decide (uri ∈ rs) && negb (forbiddenRedirectScheme uri) then uri else EmptyString.
Proof.
  induction rs as [|r rs IH]; simpl; [done|].
  destruct (decide (r = uri)) as [->|Hne].
  - rewrite (bool_decide_true (uri = uri)), (bool_decide_true (uri ∈ _)) by set_solver.
    simpl. destruct (forbiddenRedirectScheme uri) eqn:E; simpl; [|done].
    rewrite IH, andb_false_r. done.
  - rewrite (bool_decide_false (r = uri)) by done. simpl. rewrite IH.
    rewrite (bool_decide_ext (uri ∈ r :: rs) (uri ∈ rs)); [done|]. set_solver.
Qed.

(** What [newClient] accepts, field by field. *)
Lemma newClient_Ok now id name typ secret redirects allowed hash c :
  newClient now id name typ secret redirects allowed hash = Some (Ok c) →
  id ≠ EmptyString ∧ redirects ≠ [] ∧ Forall (λ r, validRedirectURI r = None) redirects ∧
  ((typ = ClientPublic ∧ secret = EmptyString ∧
    c = mkClient id name typ ClientActive now redirects allowed false EmptyString) ∨
   (typ = ClientConfidential ∧ secret ≠ EmptyString ∧ ∃ h, hash secret = Some h ∧
    c = mkClient id name typ ClientActive now redirects allowed false h)).
Proof.
  unfold newClient. intros Hc.
  case_bool_decide; [done|].
  destruct (decide (typ = ClientPublic)) as [->|Hp].
  - rewrite !(bool_decide_true (ClientPublic = ClientPublic)) in Hc by done.
    rewrite !(bool_decide_false (ClientPublic = ClientConfidential)) in Hc by done. cbn [negb andb] in Hc.
    case_bool_decide; [|done]. cbn [negb] in Hc. destruct redirects; [done|]. cbn [length Nat.eqb] in Hc.
    destruct (check_redirects _) eqn:E; [done|]. apply check_redirects_spec in E.
    simplify_eq. split_and!; [done..|]. left. done.
  - destruct (decide (typ = ClientConfidential)) as [->|Hp'].
    2: { rewrite !(bool_decide_false (typ = _)) in Hc by done. done. }
    rewrite !(bool_decide_true (ClientConfidential = ClientConfidential)) in Hc by done.
    rewrite !(bool_decide_false (ClientConfidential = ClientPublic)) in Hc by done.
    cbn [negb andb] in Hc. case_bool_decide; [done|]. destruct redirects; [done|]. cbn [length Nat.eqb] in Hc.
    destruct (check_redirects _) eqn:E; [done|]. apply check_redirects_spec in E.
    destruct (hash secret) as [h|] eqn:Eh; [|done]. cbn in Hc. simplify_eq.
    split_and!; [done..|]. right. eauto.
Qed.
End client_lemmas.

(** *** Paging *)

Definition clients_sorted (r : MemoryClientRegistry) : list Client :=
  sort_by cl_ID (map_to_list (byID r)).*2.

Lemma clients_values r c : c ∈ (map_to_list (byID r)).*2 ↔ ∃ k, byID r !! k = Some c.
Proof.
  rewrite list_elem_of_fmap. split.
  - intros ([k c'] & -> & Hk%elem_of_map_to_list). eauto.
  - intros [k Hk]. exists (k, c). split; [done|]. by apply elem_of_map_to_list.
Qed.

Lemma clients_sorted_elem r c :
  clients_wf r → c ∈ clients_sorted r ↔ byID r !! cl_ID c = Some c.
Proof.
  intros Hwf. unfold clients_sorted. rewrite sort_by_perm, clients_values. split; [|eauto].
  intros [k Hk]. by destruct (Hwf _ _ Hk) as [-> _].
Qed.

Lemma clients_sorted_NoDup r : clients_wf r → NoDup (cl_ID <$> clients_sorted r).
Proof.
  intros Hwf. unfold clients_sorted. rewrite sort_by_perm.
  assert (cl_ID <$> (map_to_list (byID r)).*2 = (map_to_list (byID r)).*1) as ->.
  { rewrite <-list_fmap_compose. apply list_fmap_ext. intros i [k c] Hi. simpl.
    apply list_elem_of_lookup_2, elem_of_map_to_list in Hi. by apply Hwf in Hi as [? _]. }
  apply NoDup_fst_map_to_list.
Qed.

Lemma cursor_roundtrip id : id ≠ EmptyString → DecodeClientCursor (EncodeClientCursor id) = Ok id.
Proof.
  intros Hid. unfold DecodeClientCursor, EncodeClientCursor. case_bool_decide as He.
  { pose proof (f_equal len He) as Hl. unfold RawURL_EncodeToString in Hl.
    rewrite b64_encode_length, len_app in Hl. unfold clientCursorPrefix in Hl. cbn [len] in Hl. lia. }
  rewrite RawURL_roundtrip, CutPrefix_app. by destruct id.
Qed.

Lemma EncodeClientCursor_not_empty id : EncodeClientCursor id ≠ EmptyString.
Proof.
  intros Hl%(f_equal len). unfold EncodeClientCursor, RawURL_EncodeToString in Hl.
  rewrite b64_encode_length, len_app in Hl. unfold clientCursorPrefix in Hl. cbn [len] in Hl. lia.
Qed.

(** Where a cursor stands: before everything, or after the last client of a
    prefix. *)
Definition cursor_at (cursor : string) (seen : list Client) : Prop :=
  match last seen with
  | None => cursor = EmptyString
  | Some c => cursor = EncodeClientCursor (cl_ID c)
  end.

(** One page, from wherever the cursor stands. *)
Lemma ListClients_page limit lim cursor seen rest r :
  clients_wf r → ResolveClientPageLimit limit = Ok lim → clients_sorted r = seen ++ rest →
  cursor_at cursor seen →
  ListClients limit cursor r =
    if (lim <? Z.of_nat (length rest))%Z
    then Ok (take (Z.to_nat lim) rest,
             EncodeClientCursor (from_option cl_ID EmptyString (last (take (Z.to_nat lim) rest))))
    else Ok (rest, EmptyString).
Proof.
  intros Hwf Hlim Heq Hcur. unfold ListClients. rewrite Hlim. cbn [mbind result_bind].
  change (sort_by cl_ID (map_to_list (byID r)).*2) with (clients_sorted r). rewrite Heq.
  pose proof (clients_sorted_NoDup r Hwf) as Hnd. rewrite Heq in Hnd.
  pose proof (sort_by_sorted cl_ID (map_to_list (byID r)).*2) as Hs.
  change (sort_by cl_ID (map_to_list (byID r)).*2) with (clients_sorted r) in Hs. rewrite Heq in Hs.
  unfold cursor_at in Hcur. destruct (last seen) as [c|] eqn:El; subst cursor.
  - assert (Hid : cl_ID c ≠ EmptyString).
    { assert (c ∈ clients_sorted r) as Hc by (rewrite Heq; apply last_Some in El as [? ->]; set_solver).
      apply clients_sorted_elem in Hc; [|done]. by apply Hwf in Hc as [_ ?]. }
    rewrite cursor_roundtrip by done. cbn [mbind result_bind].
    rewrite bool_decide_false by done. rewrite after_key_prefix by done. done.
  - apply last_None in El as ->. simpl. done.
Qed.

Lemma ResolveClientPageLimit_pos limit lim : ResolveClientPageLimit limit = Ok lim → (1 <= lim <= 100)%Z.
Proof.
  unfold ResolveClientPageLimit, DefaultClientPageSize, MaxClientPageSize.
  destruct (Z.eqb_spec limit 0); [intros [= <-]; lia|].
  destruct (_ || _)%Z eqn:E; [done|]. intros [= <-]. bools. lia.
Qed.

Lemma walk_pages_from fuel limit lim cursor seen rest r :
  clients_wf r → ResolveClientPageLimit limit = Ok lim → clients_sorted r = seen ++ rest →
  cursor_at cursor seen → length rest < fuel → walk_pages fuel limit cursor r = Some rest.
Proof.
  intros Hwf Hlim. pose proof (ResolveClientPageLimit_pos _ _ Hlim) as Hpos.
  revert cursor seen rest. induction fuel as [|fuel IH]; intros cursor seen rest Heq Hcur Hf; [lia|].
  cbn [walk_pages]. rewrite (ListClients_page _ _ _ _ _ _ Hwf Hlim Heq Hcur).
  destruct (Z.ltb_spec lim (Z.of_nat (length rest))) as [Hlt|Hge]; [|done].
  rewrite bool_decide_false by apply EncodeClientCursor_not_empty.
  rewrite (IH _ (seen ++ take (Z.to_nat lim) rest) (drop (Z.to_nat lim) rest)).
  - simpl. by rewrite take_drop.
  - by rewrite <-app_assoc, take_drop.
  - unfold cursor_at. rewrite last_app.
    destruct (last (take (Z.to_nat lim) rest)) eqn:E; [done|].
    apply last_None, (f_equal length) in E. rewrite length_take in E. simpl in E. lia.
  - rewrite length_drop. lia.
Qed.

(** *** The registry invariant *)

Section registry_invariant.
Context `{Platform}.

Lemma newClient_verifier `{!PlatformOk} salt policy secret h :
  len salt = secretHashSaltBytes →
  (match policy with
   | VerifierGenerated => NewGeneratedSecretHash (Some salt)
   | VerifierPBKDF2 => NewSecretHash (Some salt)
   end) secret = Some h →
  validSecretHash h = true ∧ len h ≠ 0 ∧ verifySecretHash h secret = true.
Proof.
  intros Hs. destruct policy; unfold NewSecretHash, NewGeneratedSecretHash.
  - destruct (hashSecret _ secret) eqn:E; [|done]. intros [= <-].
    pose proof (hashSecret_spec _ _ _ Hs E) as (Hv & Hl & Hver). split_and!; [done..|].
    by apply Hver.
  - destruct (hashGeneratedSecret _ secret) eqn:E; [|done]. intros [= <-].
    pose proof (hashGeneratedSecret_spec _ _ _ Hs E) as (Hv & Hl & Hver). split_and!; [done..|].
    rewrite Hver. by apply bool_decide_true.
Qed.

(** What a row must satisfy to be read back. *)
Lemma restorable_iff c :
  restorable c ↔
    (cl_Status c = ClientActive ∨ cl_Status c = ClientSuspended) ∧ cl_ID c ≠ EmptyString ∧
    ((cl_Type c = ClientPublic ∧ cl_secretHash c = EmptyString) ∨
     (cl_Type c = ClientConfidential ∧ validSecretHash (cl_secretHash c) = true)) ∧
    cl_RedirectURIs c ≠ [].
Proof.
  destruct c as [id name typ st at_ rs al pk h]. unfold restorable, RestoreClientWithStatus, SecretHash.
  simpl. split.
  - repeat case_bool_decide; subst; simpl in *; try done;
      destruct (validSecretHash h) eqn:Ev, h, rs; simpl in *; intuition congruence.
  - intros (Hst & Hid & Ht & Hr). rewrite (bool_decide_false (id = _)) by done.
    destruct rs; [done|].
    destruct Hst as [->| ->], Ht as [[-> ->]|[-> Hv]]; try done; simpl; by rewrite Hv.
Qed.

Lemma newClient_restorable `{!PlatformOk} now salt id name typ secret redirects allowed policy c :
  len salt = secretHashSaltBytes →
  NewClientWithVerifier now (Some salt) id name typ secret redirects allowed policy = Some (Ok c) →
  restorable c.
Proof.
  intros Hs (Hid & Hr & _ & Hc)%newClient_Ok. apply restorable_iff.
  destruct Hc as [(-> & _ & ->)|(-> & _ & h & Hh & ->)]; simpl; [by split_and!; auto|].
  apply newClient_verifier in Hh as (Hv & _ & _); [|done]. split_and!; auto.
Qed.

Lemma restorable_status status c :
  status = ClientActive ∨ status = ClientSuspended → restorable c → restorable (set_status status c).
Proof. rewrite !restorable_iff. intros Hst (_ & Hc). done. Qed.

Lemma restorable_secret h c :
  validSecretHash h = true → cl_Type c = ClientConfidential → restorable c →
  restorable (set_secretHash h c).
Proof. rewrite !restorable_iff. intros Hv Ht (? & ? & _ & ?). split_and!; eauto. Qed.

Lemma registry_insert r k c :
  registry_ok r → cl_ID c = k → k ≠ EmptyString → restorable c →
  registry_ok (mkClients (<[k := c]> (byID r)) (wired r)).
Proof.
  intros [Hwf Hr] Hc Hk Hrc. split; intros k' c' Hk'; simpl in Hk';
    apply lookup_insert_Some in Hk' as [[<- <-]|[_ Hk']]; eauto.
Qed.

Lemma registry_step_ok `{!PlatformOk} r r' : registry_ok r → registry_step r r' → registry_ok r'.
Proof.
  intros Hok Hst. destruct Hst as [r now salt id name typ secret rs allowed policy allow c Hs Hc
    |r id status|r id h|r id|r].
  - unfold Create. case_match; simpl; [done|].
    pose proof (newClient_restorable _ _ _ _ _ _ _ _ _ _ Hs Hc) as Hr.
    apply registry_insert; [done..| |done]. by apply restorable_iff in Hr as (_ & ? & _).
  - unfold SetStatus. destruct (negb _ && negb _) eqn:Est; [done|].
    destruct (byID r !! id) as [c|] eqn:E; [|done]. destruct Hok as [Hwf Hr].
    destruct (Hwf _ _ E). apply registry_insert; [done..|]. apply restorable_status; [|by eapply Hr].
    apply andb_false_iff in Est as [Est|Est]; bools; eauto.
  - unfold RotateSecret. destruct (validSecretHash h) eqn:Eh; [|done]. simpl.
    destruct (byID r !! id) as [c|] eqn:E; [|done]. case_bool_decide; [|done].
    destruct Hok as [Hwf Hr]. destruct (Hwf _ _ E). apply registry_insert; [done..|].
    apply restorable_secret; [done..|by eapply Hr].
  - destruct Hok as [Hwf Hr]. split; intros k c Hk; simpl in Hk;
      apply lookup_delete_Some in Hk as [_ Hk]; eauto.
  - done.
Qed.

Lemma lookup_missing_fold {R} `{ClientRegistry R} (reg : R) ids out id :
  foldl (lookup_missing reg) out ids !! id =
    match out !! id with
    | Some n => Some n
    | None => if bool_decide (id ∈ ids)
              then match reg_Get id reg with Ok c => Some (cl_Name c) | Err _ => None end
              else None
    end.
Proof.
  revert out. induction ids as [|i ids IH]; intros out; simpl; [by destruct (out !! id)|].
  rewrite IH. unfold lookup_missing.
  destruct (decide (id = i)) as [->|Hne].
  - rewrite (bool_decide_true (i ∈ i :: ids)) by set_solver.
    destruct (out !! i) as [n|] eqn:E; [by rewrite E|].
    destruct (reg_Get i reg) as [c|] eqn:Eg; [by rewrite lookup_insert_eq|].
    rewrite E. by destruct (bool_decide (i ∈ ids)).
  - rewrite (bool_decide_ext (id ∈ i :: ids) (id ∈ ids)) by set_solver.
    destruct (out !! i); [done|]. destruct (reg_Get i reg); [|done].
    by rewrite lookup_insert_ne by congruence.
Qed.

(** Over the in-memory registry every requested id that is registered has its
    name, suspended or not. *)
Lemma ClientNames_lookup ids r names id :
  ClientNames ids r = Ok names →
  names !! id = if bool_decide (id ∈ ids) then cl_Name <$> byID r !! id else None.
Proof.
  intros [= <-]. assert (Hgen : ∀ out : gmap string string,
    foldl (λ out id, match byID r !! id with Some c => <[id := cl_Name c]> out | None => out end)
      out ids !! id =
    if bool_decide (id ∈ ids) then (match byID r !! id with Some c => Some (cl_Name c) | None => out !! id end)
    else out !! id).
  { induction ids as [|i ids IH]; intros out; simpl; [done|]. rewrite IH.
    destruct (decide (id = i)) as [->|Hne].
    - rewrite (bool_decide_true (i ∈ i :: ids)) by set_solver.
      destruct (byID r !! i); [|by case_bool_decide]. rewrite lookup_insert_eq. by case_bool_decide.
    - rewrite (bool_decide_ext (id ∈ i :: ids) (id ∈ ids)) by set_solver.
      destruct (byID r !! i); [|done]. by rewrite lookup_insert_ne by congruence. }
  rewrite Hgen, lookup_empty. case_bool_decide; [|done]. by destruct (byID r !! id).
Qed.

Lemma memory_names r ids id :
  id ∈ ids → LookupClientNames (Some r) ids !! id = cl_Name <$> byID r !! id.
Proof.
  intros Hin. unfold LookupClientNames. destruct ids as [|i ids]; [set_solver|].
  set (l := i :: ids) in *. change (length l =? 0) with false. cbv iota.
  rewrite lookup_missing_fold.
  change reg_ClientNames with (Some ClientNames). cbv iota.
  destruct (ClientNames l r) as [names|] eqn:E; [|done].
  rewrite map_union_empty, (ClientNames_lookup _ _ _ _ E), bool_decide_true by done.
  simpl. unfold Get. by destruct (byID r !! id).
Qed.
End registry_invariant.

(** ** Properties *)

Section client_properties.
Context `{Platform}.

(** A confidential client built by [NewClientWithVerifier], under either
    verifier scheme and any salt the generator filled, authenticates with its
    own secret, and with another string only if that string derives the same
    digest; a public client never authenticates. *)
Theorem NewClient_authenticates `{!PlatformOk}
    now salt id name typ secret redirects allowed policy c :
  len salt = secretHashSaltBytes →
  NewClientWithVerifier now (Some salt) id name typ secret redirects allowed policy = Some (Ok c) →
  (typ = ClientPublic → ∀ s, Authenticate c s = false) ∧
  (typ = ClientConfidential →
   Authenticate c secret = true ∧
   ∀ s, Authenticate c s = true →
     match policy with
     | VerifierPBKDF2 =>
         pbkdf2_sha256 s salt secretHashIterations secretHashKeyBytes =
         pbkdf2_sha256 secret salt secretHashIterations secretHashKeyBytes
     | VerifierGenerated =>
         hmac_sha256 salt (secretHashFastDomain +:+ s) =
         hmac_sha256 salt (secretHashFastDomain +:+ secret)
     end).
Proof.
  intros Hs (_ & _ & _ & Hc)%newClient_Ok.
  destruct Hc as [(-> & _ & ->)|(-> & _ & h & Hh & ->)]; split; try done. intros _.
  pose proof (newClient_verifier _ _ _ _ Hs Hh) as (_ & Hl & Hv). unfold Authenticate. simpl.
  rewrite (proj2 (Nat.eqb_neq _ _)) by done. split; [done|]. intros s.
  destruct policy; unfold NewSecretHash, NewGeneratedSecretHash in Hh.
  - destruct (hashSecret _ secret) eqn:E; simplify_eq. by apply (hashSecret_spec _ _ _ Hs E).
  - destruct (hashGeneratedSecret _ secret) eqn:E; simplify_eq.
    rewrite (proj2 (proj2 (hashGeneratedSecret_spec _ _ _ Hs E))). by intros ?%bool_decide_eq_true_1.
Qed.

(** Every client a registry can come to hold, through any sequence of
    creations, suspensions, secret rotations and deletions, sits under its own
    non-empty id and is one whose stored row [RestoreClientWithStatus] reads
    back unchanged: no operation stores a client the next start would refuse. *)
Theorem registry_restorable_reachable `{!PlatformOk} r :
  rtc registry_step NewMemoryClientRegistry r → registry_ok r.
Proof.
  apply (rtc_ind_r (λ r, registry_ok r)).
  - split; intros k c Hk; simpl in Hk; by rewrite lookup_empty in Hk.
  - intros r1 r2 _ Hst Hok. by eapply registry_step_ok.
Qed.

(** [Client.RegisteredRedirect] is exact: it returns the URI itself when
    the client registered it and its scheme is not a forbidden one, and the
    empty string otherwise; and registration and use agree, for a URI accepted
    by [newClient] always is usable. *)
Theorem RegisteredRedirect_exact now id name typ secret redirects allowed hash c :
  newClient now id name typ secret redirects allowed hash = Some (Ok c) →
  ∀ uri, RegisteredRedirect c uri = (if bool_decide (uri ∈ redirects) then uri else EmptyString) ∧
         (uri ∈ redirects → forbiddenRedirectScheme uri = false).
Proof.
  intros (_ & _ & Hall & Hc)%newClient_Ok uri. rewrite Forall_forall in Hall.
  assert (cl_RedirectURIs c = redirects) as Hr by (destruct Hc as [(_&_&->)|(_&_&h&_&->)]; done).
  split; [|by intros ?%Hall%valid_not_forbidden].
  unfold RegisteredRedirect. rewrite registered_loop_spec, Hr.
  case_bool_decide as Hin; simpl.
  - by rewrite (valid_not_forbidden _ (Hall _ Hin)).
  - by destruct (forbiddenRedirectScheme uri).
Qed.

(** [LookupClientNames] over any registry: an id the bulk lookup answered
    has that name; any other requested id has the name [Get] gives it, also
    when the bulk lookup failed or is not offered; no other id has a name. *)
Theorem LookupClientNames_exact {R} `{ClientRegistry R} (reg : R) ids id :
  LookupClientNames (Some reg) ids !! id =
    match
      match reg_ClientNames with
      | Some bulk => match bulk ids reg with
                     | Ok names => if bool_decide (ids = []) then None else names !! id
                     | Err _ => None
                     end
      | None => None
      end
    with
    | Some n => Some n
    | None => if bool_decide (id ∈ ids)
              then match reg_Get id reg with Ok c => Some (cl_Name c) | Err _ => None end
              else None
    end.
Proof.
  unfold LookupClientNames. destruct ids as [|i ids]; simpl.
  { repeat case_match; done. }
  change (foldl (lookup_missing reg) (lookup_missing reg ?o i) ids)
    with (foldl (lookup_missing reg) o (i :: ids)).
  rewrite (lookup_missing_fold reg (i :: ids)).
  destruct reg_ClientNames as [bulk|]; [|by rewrite lookup_empty].
  destruct (bulk (i :: ids) reg); [by rewrite map_union_empty|by rewrite lookup_empty].
Qed.
End client_properties.

(** Following the cursors of [ListClients] from the empty one, with any
    admissible limit, ends, and the pages together are every client of the
    registry, suspended ones included, exactly once and in increasing order of
    id. *)
Theorem ListClients_pages limit lim r :
  clients_wf r → ResolveClientPageLimit limit = Ok lim →
  ∃ all, walk_pages (S (size (byID r))) limit EmptyString r = Some all ∧
         (∀ c, c ∈ all ↔ byID r !! cl_ID c = Some c) ∧
         NoDup (cl_ID <$> all) ∧ StronglySorted (key_le cl_ID) all.
Proof.
  intros Hwf Hlim. exists (clients_sorted r). split_and!.
  - apply (walk_pages_from _ _ lim _ []); [done..|].
    unfold clients_sorted. rewrite sort_by_perm, length_fmap, length_map_to_list. lia.
  - intros c. by apply clients_sorted_elem.
  - by apply clients_sorted_NoDup.
  - apply sort_by_sorted.
Qed.

(** [MemoryClientRegistry.Delete] on a wired registry: the registration is
    gone, no authorization code, token or tombstone of the client is left, and
    every other registration and credential is untouched. *)
Theorem Delete_exact id r (st : MemoryStore) :
  id ≠ EmptyString → wired r = true →
  ∃ r' st', run (Delete id) (r, st) = Some ((r', st'), Ok tt) ∧
    byID r' = delete id (byID r) ∧
    (∀ k c, codes st' !! k = Some c ↔ codes st !! k = Some c ∧ ac_ClientID c ≠ id) ∧
    (∀ k t, access st' !! k = Some t ↔ access st !! k = Some t ∧ at_ClientID t ≠ id) ∧
    (∀ k t, refresh st' !! k = Some t ↔ refresh st !! k = Some t ∧ rt_ClientID t ≠ id) ∧
    (∀ k t, tombstones st' !! k = Some t ↔ tombstones st !! k = Some t ∧ tb_ClientID t ≠ id).
Proof.
  intros Hid Hw. unfold Delete. run_simpl. rewrite Hw. run_simpl. simpl.
  eexists _, _. split; [reflexivity|]. simpl.
  assert (HM : ∀ cl sub, Matches (mkFilter id EmptyString) cl sub = false ↔ cl ≠ id).
  { intros cl sub. rewrite <-not_true_iff_false, Matches_spec. simpl. naive_solver. }
  split_and!; [done|..]; intros k t; rewrite lookup_delete_where, HM; done.
Qed.

(** On a wired registry [Delete] of the empty id passes the filter that names no
    client, which matches every record: all credentials of the deployment go. *)
Theorem Delete_empty_id r (st : MemoryStore) :
  wired r = true →
  ∃ r', run (Delete EmptyString) (r, st) = Some ((r', mkStore ∅ ∅ ∅ ∅ (ms_clock st)), Ok tt).
Proof.
  intros Hw. unfold Delete. run_simpl. rewrite Hw. run_simpl. simpl.
  assert (Hall : ∀ V (m : gmap string V), delete_where (λ _ : V, true) m = ∅).
  { intros V m. apply map_eq. intros k. rewrite lookup_empty. apply lookup_delete_where_None.
    destruct (m !! k); eauto. }
  eexists. unfold MemoryStore_RevokeTokens, Matches. simpl. by rewrite !Hall.
Qed.

(** ** Witnesses *)

#[local] Existing Instance toy_platform.
#[local] Existing Instance toy_platform_ok.

Definition demo_salt : string := "0123456789abcdef".

(** A registered confidential client, and a registry holding it. *)
Definition demo_client : Client :=
  match NewClientWithVerifier 7 (Some demo_salt) "app" "App" ClientConfidential "s3cret"
          ["https://app.example/cb"] [ScopeAccountID] VerifierGenerated with
  | Some (Ok c) => c
  | _ => mkClient EmptyString EmptyString EmptyString EmptyString 0 [] [] false EmptyString
  end.
Definition demo_clients : MemoryClientRegistry :=
  SetTokenRevoker (Create demo_client NewMemoryClientRegistry).1.

Lemma NewClient_authenticates_witness :
  Authenticate demo_client "s3cret" = true.
Proof.
  apply (NewClient_authenticates 7 demo_salt "app" "App" ClientConfidential "s3cret"
    ["https://app.example/cb"] [ScopeAccountID] VerifierGenerated demo_client);
    vm_compute; reflexivity.
Defined.

Lemma registry_restorable_reachable_witness : registry_ok demo_clients.
Proof.
  apply (registry_restorable_reachable demo_clients).
  apply (rtc_l _ _ (Create (WithAllowMissingPKCE false demo_client) NewMemoryClientRegistry).1).
  - apply (step_create _ 7 demo_salt "app" "App" ClientConfidential "s3cret"
      ["https://app.example/cb"] [ScopeAccountID] VerifierGenerated false demo_client);
      vm_compute; reflexivity.
  - apply rtc_once. apply step_wire.
Defined.

Lemma RegisteredRedirect_exact_witness :
  RegisteredRedirect demo_client "https://app.example/cb" = "https://app.example/cb" ∧
  RegisteredRedirect demo_client "https://evil.example/cb" = EmptyString.
Proof.
  assert (E : newClient 7 "app" "App" ClientConfidential "s3cret" ["https://app.example/cb"]
    [ScopeAccountID] (NewGeneratedSecretHash (Some demo_salt)) = Some (Ok demo_client))
    by (vm_compute; reflexivity).
  pose proof (RegisteredRedirect_exact _ _ _ _ _ _ _ _ _ E) as Hr.
  split; [exact (proj1 (Hr "https://app.example/cb"))|exact (proj1 (Hr "https://evil.example/cb"))].
Defined.

Lemma demo_clients_wf : clients_wf demo_clients.
Proof.
  intros k c Hk. change (byID demo_clients) with (<["app" := demo_client]> (∅ : gmap string Client)) in Hk.
  apply lookup_insert_Some in Hk as [[<- <-]|[_ Hk]]; [done|].
  simpl in Hk. by rewrite lookup_empty in Hk.
Qed.

Lemma ListClients_pages_witness :
  clients_wf demo_clients ∧
  ∃ all, walk_pages (S (size (byID demo_clients))) 1 EmptyString demo_clients = Some all ∧
         demo_client ∈ all.
Proof.
  split; [exact demo_clients_wf|].
  destruct (ListClients_pages 1 1 demo_clients demo_clients_wf eq_refl) as (all & Hw & Hin & _).
  exists all. split; [exact Hw|]. apply Hin. vm_compute. reflexivity.
Defined.

Definition demo_store : MemoryStore :=
  (MemoryStore_SaveAccess "other" (mkAccess "cli" "alice" [ScopeAccountID] EmptyString 0 90)
   (MemoryStore_SaveAccess "t" (mkAccess "app" "alice" [ScopeAccountID] EmptyString 0 90)
      NewMemoryStore).1).1.

Lemma Delete_exact_witness :
  ∃ r' st', run (Delete "app") (demo_clients, demo_store) = Some ((r', st'), Ok tt) ∧
    byID r' !! "app" = None ∧ access st' !! TokenHash "t" = None ∧
    is_Some (access st' !! TokenHash "other").
Proof.
  destruct (Delete_exact "app" demo_clients demo_store) as (r' & st' & Hrun & Hr & _ & Ha & _);
    [done|done|].
  exists r', st'. split_and!; [exact Hrun|by rewrite Hr, lookup_delete_eq| |].
  - destruct (access st' !! TokenHash "t") as [t|] eqn:E; [|done].
    apply Ha in E as [E Hne]. vm_compute in E. by simplify_eq.
  - eexists. apply Ha. split; [vm_compute; reflexivity|done].
Defined.
