(* ===== verification/AuditLog.v ===== *)
(** * The audit log ([audit/audit.go])

    Events, the [Logger] interface the services record through, and
    [MemoryLogger], the bounded ring that keeps the most recent events. *)

From S2P Require Import Prelude GoStd.

(** ** Events *)

Definition OutcomeOK : string := "ok".
Definition OutcomeDenied : string := "denied".
Definition OutcomeError : string := "error".

Record Event := mkEvent {
  ev_Time : Z;
  ev_Action : string;
  ev_Subject : string;
  ev_Provider : string;
  ev_Outcome : string;
  ev_Detail : gmap string string;
}.

(** [Logger]: [Record] with the reading of [time.Now]; [None] is the nil
    error. *)
Class Logger (L : Type) := {
  log_Record : Z → Event → L → L * option error;
}.

(** ** [MemoryLogger] *)

Definition DefaultMaxEvents : Z := 10000.

(** The ring: once [ml_count] reaches [ml_max] the buffer is full and [ml_next]
    indexes its oldest slot. *)
Record MemoryLogger := mkLogger {
  ml_max : nat;
  ml_buf : list Event;
  ml_next : nat;
  ml_count : nat;
}.

(** [NewMemoryLoggerWithCapacity] and [NewMemoryLogger]. *)
Definition NewMemoryLoggerWithCapacity (max : Z) : MemoryLogger :=
  let max := if (max <=? 0)%Z then DefaultMaxEvents else max in
  mkLogger (Z.to_nat max) [] 0 0.
Definition NewMemoryLogger : MemoryLogger := NewMemoryLoggerWithCapacity DefaultMaxEvents.

Definition set_time (t : Z) (e : Event) : Event :=
  mkEvent t (ev_Action e) (ev_Subject e) (ev_Provider e) (ev_Outcome e) (ev_Detail e).

(** The event as [Record] stores it: a zero time becomes the current one. *)
Definition stamp (now : Z) (e : Event) : Event :=
  if time_IsZero (ev_Time e) then set_time now e else e.

(** [MemoryLogger.Record]; [None] is the index panic of [l.buf[l.next] = e]. *)
Definition MemoryLogger_Record (now : Z) (e : Event) (l : MemoryLogger) : option MemoryLogger :=
  let e := stamp now e in
  if ml_count l <? ml_max l
  then Some (mkLogger (ml_max l) (ml_buf l ++ [e]) (ml_next l) (S (ml_count l)))
  else if ml_next l <? length (ml_buf l)
  then Some (mkLogger (ml_max l) (<[ml_next l := e]> (ml_buf l)) ((ml_next l + 1) mod ml_max l)
               (ml_count l))
  else None.

(** [MemoryLogger.Events]: oldest first. *)
Definition Events (l : MemoryLogger) : list Event :=
  if ml_count l <? ml_max l then ml_buf l
  else drop (ml_next l) (ml_buf l) ++ take (ml_next l) (ml_buf l).

#[export] Instance memory_logger : Logger MemoryLogger := {|
  log_Record now e l := (from_option id l (MemoryLogger_Record now e l), None);
|}.

(** A run of [Record] calls, each with its clock reading. *)
Fixpoint record_all (l : MemoryLogger) (es : list (Z * Event)) : option MemoryLogger :=
  match es with
  | [] => Some l
  | (now, e) :: es' => l' ← MemoryLogger_Record now e l; record_all l' es'
  end.

(** The last [n] elements of a list. *)
Definition lastn {A} (n : nat) (l : list A) : list A := drop (length l - n) l.

(** The ring holds the last [ml_max] of the [hist] events recorded so far. *)
Definition ring_ok (hist : list Event) (l : MemoryLogger) : Prop :=
  0 < ml_max l ∧ length (ml_buf l) = ml_count l ∧ ml_count l = length hist `min` ml_max l ∧
  ml_next l < ml_max l ∧ (ml_count l < ml_max l → ml_next l = 0) ∧
  Events l = lastn (ml_max l) hist.

(** ** Lemmas *)

Lemma lastn_all {A} n (l : list A) : length l ≤ n → lastn n l = l.
Proof. intros. unfold lastn. by replace (length l - n) with 0 by lia. Qed.

Lemma lastn_snoc {A} n (l : list A) x :
  n ≤ length l → 0 < n → lastn n (l ++ [x]) = drop 1 (lastn n l) ++ [x].
Proof.
  intros Hn H0. unfold lastn. rewrite length_app. simpl. rewrite drop_drop.
  rewrite drop_app_le by lia. do 2 f_equal. lia.
Qed.

Lemma ring_new max : ring_ok [] (NewMemoryLoggerWithCapacity max).
Proof.
  unfold ring_ok, NewMemoryLoggerWithCapacity, Events, DefaultMaxEvents. simpl.
  destruct (Z.leb_spec max 0); split_and!; try lia; by case_match.
Qed.

(** One [Record] on the ring: it does not panic, and the history grows by the
    stamped event. *)
Lemma ring_record hist now e l :
  ring_ok hist l →
  ∃ l', MemoryLogger_Record now e l = Some l' ∧ ml_max l' = ml_max l ∧
        ring_ok (hist ++ [stamp now e]) l'.
Proof.
  intros (H0 & Hlen & Hcnt & Hnext & Hz & Hev). unfold MemoryLogger_Record, ring_ok, Events in *.
  destruct (Nat.ltb_spec (ml_count l) (ml_max l)) as [Hlt|Hge].
  - eexists. split; [done|split; [done|]]. simpl. rewrite !length_app, Hlen. simpl.
    rewrite lastn_all in Hev by lia. subst hist.
    split_and!; [lia..|rewrite Hz by done; done|].
    rewrite lastn_all by (rewrite length_app; simpl; lia).
    case_match; [done|]. by rewrite Hz, drop_0, take_0, app_nil_r by done.
  - rewrite (proj2 (Nat.ltb_lt _ _)) by lia. eexists. split; [done|split; [done|]]. simpl.
    rewrite length_insert, length_app. simpl.
    assert (Hc : ml_count l = ml_max l) by lia.
    split_and!; [lia..|apply Nat.mod_upper_bound; lia|lia|].
    rewrite (proj2 (Nat.ltb_ge _ _)) by lia. rewrite lastn_snoc by lia. rewrite <-Hev.
    destruct (lookup_lt_is_Some_2 (ml_buf l) (ml_next l)) as [x Hx]; [lia|].
    rewrite (drop_S _ _ _ Hx). cbn [app drop]. rewrite drop_0.
    rewrite <-app_assoc. destruct (decide (S (ml_next l) = ml_max l)) as [Hw|Hw].
    + rewrite Nat.add_1_r, Hw, Nat.Div0.mod_same. rewrite drop_0, take_0, app_nil_r.
      rewrite (drop_ge _ (ml_max l)) by lia. simpl.
      rewrite insert_take_drop by lia. rewrite (drop_ge _ (S _)) by lia. done.
    + rewrite Nat.mod_small by lia. rewrite Nat.add_1_r.
      rewrite drop_insert_lt by lia. f_equal.
      rewrite (take_S_r _ _ (stamp now e)) by (apply list_lookup_insert_eq; lia).
      by rewrite take_insert_ge by lia.
Qed.

(** ** Properties *)

(** The in-memory audit log, of any capacity, never panics, never holds
    more than its capacity, and [Events] returns exactly the most recent events
    recorded, oldest first: the whole history until the ring wraps, its tail
    afterwards. *)
Theorem MemoryLogger_keeps_tail max es :
  ∃ l, record_all (NewMemoryLoggerWithCapacity max) es = Some l ∧
       length (ml_buf l) ≤ ml_max (NewMemoryLoggerWithCapacity max) ∧
       Events l = lastn (ml_max (NewMemoryLoggerWithCapacity max))
                    ((λ p, stamp p.1 p.2) <$> es).
Proof.
  assert (Hgen : ∀ hist l, ring_ok hist l →
    ∃ l', record_all l es = Some l' ∧ ml_max l' = ml_max l ∧
          ring_ok (hist ++ ((λ p, stamp p.1 p.2) <$> es)) l').
  { induction es as [|[now e] es IH]; intros hist l Hl; simpl.
    - rewrite app_nil_r. eauto.
    - destruct (ring_record hist now e l Hl) as (l1 & -> & Hm1 & Hl1). simpl.
      destruct (IH _ _ Hl1) as (l' & Hr & Hm & Hok). exists l'.
      rewrite <-app_assoc in Hok. split_and!; [done|congruence|done]. }
  destruct (Hgen [] _ (ring_new max)) as (l & Hr & Hm & (_ & Hlen & Hcnt & _ & _ & Hev)).
  exists l. rewrite <-Hm. split_and!; [done|lia|done].
Qed.
