(* ===== verification/Device.v ===== *)
(** * Device authorizations and their store ([oauth/device.go])

    The records of RFC 8628 requests, the [DeviceStore] interface the service
    depends on, and [MemoryDeviceStore]: one map by device-code hash and an
    index by normalized user code. The handlers that use it are in [Service]. *)

From S2P Require Import Prelude GoStd Scope Tokens.

(** ** Records *)

Definition ErrDeviceNotFound : error := New "oauth: device authorization not found".
Definition ErrUserCodeConflict : error := New "oauth: user code already in use".

Inductive DeviceStatus := DevicePending | DeviceApproved | DeviceDenied.

#[export] Instance DeviceStatus_eq_dec : EqDecision DeviceStatus.
Proof. solve_decision. Defined.

Record DeviceAuthorizationRecord := mkDevice {
  dr_DeviceCodeHash : string;
  dr_UserCode : string;
  dr_ClientID : string;
  dr_Scopes : list Scope;
  dr_Status : DeviceStatus;
  dr_Subject : string;
  dr_Explicit : list Scope;
  dr_ExpiresAt : Z;
  dr_LastPoll : Z;
}.

Record DeviceDecision := mkDecision {
  dd_Status : DeviceStatus;
  dd_Subject : string;
  dd_Scopes : list Scope;
  dd_Explicit : list Scope;
}.

Definition with_hash (h : string) (d : DeviceAuthorizationRecord) : DeviceAuthorizationRecord :=
  mkDevice h (dr_UserCode d) (dr_ClientID d) (dr_Scopes d) (dr_Status d) (dr_Subject d)
    (dr_Explicit d) (dr_ExpiresAt d) (dr_LastPoll d).
Definition with_user_code (c : string) (d : DeviceAuthorizationRecord) : DeviceAuthorizationRecord :=
  mkDevice (dr_DeviceCodeHash d) c (dr_ClientID d) (dr_Scopes d) (dr_Status d) (dr_Subject d)
    (dr_Explicit d) (dr_ExpiresAt d) (dr_LastPoll d).
Definition with_poll (t : Z) (d : DeviceAuthorizationRecord) : DeviceAuthorizationRecord :=
  mkDevice (dr_DeviceCodeHash d) (dr_UserCode d) (dr_ClientID d) (dr_Scopes d) (dr_Status d)
    (dr_Subject d) (dr_Explicit d) (dr_ExpiresAt d) t.
Definition with_decision (c : DeviceDecision) (d : DeviceAuthorizationRecord)
    : DeviceAuthorizationRecord :=
  mkDevice (dr_DeviceCodeHash d) (dr_UserCode d) (dr_ClientID d) (dd_Scopes c) (dd_Status c)
    (dd_Subject c) (dd_Explicit c) (dr_ExpiresAt d) (dr_LastPoll d).

(** ** The interface *)

(** [DeviceStore]. [ConsumeDevice] reports [ok=false] as [Ok None]. *)
Class DeviceStore (Dv : Type) := {
  dev_SaveDevice : string → DeviceAuthorizationRecord → Dv → Dv * result unit;
  dev_GetDevice : string → Dv → result DeviceAuthorizationRecord;
  dev_GetDeviceByUserCode : string → Dv → result DeviceAuthorizationRecord;
  dev_RecordPoll : string → Z → Dv → Dv * result unit;
  dev_RecordDecision : string → DeviceDecision → Dv → Dv * result bool;
  dev_ConsumeDevice : string → Dv → Dv * result (option DeviceAuthorizationRecord);
}.

(** ** [MemoryDeviceStore] *)

Record MemoryDeviceStore := mkDevices {
  byDev : gmap string DeviceAuthorizationRecord;
  byUser : gmap string string;
}.

Definition NewMemoryDeviceStore : MemoryDeviceStore := mkDevices ∅ ∅.

Definition dash : ascii := "-".

Section memory_devices.
Context `{Platform}.

(** [NormalizeUserCode]. *)
Definition NormalizeUserCode (s : string) : string :=
  str_filter (λ c, negb (bool_decide (c = dash))) (strings_ToUpper (strings_TrimSpace s)).

Definition SaveDevice (deviceCode : string) (d : DeviceAuthorizationRecord) (s : MemoryDeviceStore)
    : MemoryDeviceStore * result unit :=
  let d := with_hash (TokenHash deviceCode) d in
  let canonical := NormalizeUserCode (dr_UserCode d) in
  match byDev s !! dr_DeviceCodeHash d with
  | Some _ => (s, Err (New "oauth: device code already stored"))
  | None =>
      match byUser s !! canonical with
      | Some _ => (s, Err (Wrap (Error ErrUserCodeConflict +:+ ": " +:+ canonical) ErrUserCodeConflict))
      | None => (mkDevices (<[dr_DeviceCodeHash d := d]> (byDev s))
                   (<[canonical := dr_DeviceCodeHash d]> (byUser s)), Ok tt)
      end
  end.

Definition GetDevice (deviceCode : string) (s : MemoryDeviceStore)
    : result DeviceAuthorizationRecord :=
  match byDev s !! TokenHash deviceCode with
  | None => Err ErrDeviceNotFound
  | Some d => Ok d
  end.

Definition GetDeviceByUserCode (userCode : string) (s : MemoryDeviceStore)
    : result DeviceAuthorizationRecord :=
  match byUser s !! NormalizeUserCode userCode with
  | None => Err ErrDeviceNotFound
  | Some hash => match byDev s !! hash with
                 | None => Err ErrDeviceNotFound
                 | Some d => Ok d
                 end
  end.

Definition RecordPoll (deviceCodeHash : string) (t : Z) (s : MemoryDeviceStore)
    : MemoryDeviceStore * result unit :=
  match byDev s !! deviceCodeHash with
  | None => (s, Err ErrDeviceNotFound)
  | Some d => (mkDevices (<[deviceCodeHash := with_poll t d]> (byDev s)) (byUser s), Ok tt)
  end.

(** [RecordDecision]: only a pending request takes a decision. *)
Definition RecordDecision (deviceCodeHash : string) (dec : DeviceDecision) (s : MemoryDeviceStore)
    : MemoryDeviceStore * result bool :=
  match byDev s !! deviceCodeHash with
  | None => (s, Ok false)
  | Some d =>
      if negb (bool_decide (dr_Status d = DevicePending)) then (s, Ok false)
      else (mkDevices (<[deviceCodeHash := with_decision dec d]> (byDev s)) (byUser s), Ok true)
  end.

(** The index entry of a record that goes: dropped only if it still points at
    it. A missing entry reads as the empty string. *)
Definition drop_index (hash : string) (d : DeviceAuthorizationRecord) (m : gmap string string)
    : gmap string string :=
  let key := NormalizeUserCode (dr_UserCode d) in
  if bool_decide (default EmptyString (m !! key) = hash) then delete key m else m.

(** [ConsumeDevice]: only an approved request is redeemed, once. *)
Definition ConsumeDevice (deviceCodeHash : string) (s : MemoryDeviceStore)
    : MemoryDeviceStore * result (option DeviceAuthorizationRecord) :=
  match byDev s !! deviceCodeHash with
  | None => (s, Ok None)
  | Some d =>
      if negb (bool_decide (dr_Status d = DeviceApproved)) then (s, Ok None)
      else (mkDevices (delete deviceCodeHash (byDev s)) (drop_index deviceCodeHash d (byUser s)),
            Ok (Some d))
  end.

(** The body of the loop of [MemoryDeviceStore.SweepExpired], and the loop over
    the records in the order [order] the runtime picks. *)
Definition sweep_device (now : Z) (acc : MemoryDeviceStore * nat)
    (e : string * DeviceAuthorizationRecord) : MemoryDeviceStore * nat :=
  let '(s, removed) := acc in
  let '(devHash, rec) := e in
  if time_Before now (dr_ExpiresAt rec) then (s, removed)
  else (mkDevices (delete devHash (byDev s)) (drop_index devHash rec (byUser s)), S removed).

Definition SweepExpiredDevices (now : Z) (order : list (string * DeviceAuthorizationRecord))
    (s : MemoryDeviceStore) : MemoryDeviceStore * nat :=
  foldl (sweep_device now) (s, 0) order.

#[export] Instance memory_devices : DeviceStore MemoryDeviceStore := {|
  dev_SaveDevice := SaveDevice;
  dev_GetDevice := GetDevice;
  dev_GetDeviceByUserCode := GetDeviceByUserCode;
  dev_RecordPoll := RecordPoll;
  dev_RecordDecision := RecordDecision;
  dev_ConsumeDevice := ConsumeDevice;
|}.

(** ** Invariant *)

(** The two maps are one bijection: every record is under its own hash and
    named by its normalized user code, and the index names nothing else. *)
Definition devices_wf (s : MemoryDeviceStore) : Prop :=
  (∀ h d, byDev s !! h = Some d →
     dr_DeviceCodeHash d = h ∧ byUser s !! NormalizeUserCode (dr_UserCode d) = Some h) ∧
  (∀ k h, byUser s !! k = Some h →
     ∃ d, byDev s !! h = Some d ∧ NormalizeUserCode (dr_UserCode d) = k).

(** The methods as one transition relation. *)
Inductive device_step : MemoryDeviceStore → MemoryDeviceStore → Prop :=
| step_save s code d : device_step s (SaveDevice code d s).1
| step_poll s h t : device_step s (RecordPoll h t s).1
| step_decide s h dec : device_step s (RecordDecision h dec s).1
| step_consume s h : device_step s (ConsumeDevice h s).1
| step_sweep s now order :
    order ≡ₚ map_to_list (byDev s) → device_step s (SweepExpiredDevices now order s).1.

(** The outcome a record carries once it is decided. *)
Definition decision_of (d : DeviceAuthorizationRecord) : DeviceDecision :=
  mkDecision (dr_Status d) (dr_Subject d) (dr_Scopes d) (dr_Explicit d).
End memory_devices.

(** ** Lemmas *)

Section device_lemmas.
Context `{Platform}.

Lemma devices_wf_new : devices_wf NewMemoryDeviceStore.
Proof. split; intros ?? Hk; simpl in Hk; by rewrite lookup_empty in Hk. Qed.

(** With the bijection in place a removed record takes its index entry along. *)
Lemma drop_index_wf s h d :
  devices_wf s → byDev s !! h = Some d →
  drop_index h d (byUser s) = delete (NormalizeUserCode (dr_UserCode d)) (byUser s).
Proof.
  intros [Hd _] Hh. destruct (Hd _ _ Hh) as [_ Hu]. unfold drop_index. rewrite Hu.
  by rewrite bool_decide_true.
Qed.

Lemma devices_wf_remove s h d :
  devices_wf s → byDev s !! h = Some d →
  devices_wf (mkDevices (delete h (byDev s)) (drop_index h d (byUser s))).
Proof.
  intros Hwf Hh. rewrite (drop_index_wf _ _ _ Hwf Hh). destruct Hwf as [Hd Hu].
  destruct (Hd _ _ Hh) as [_ Hk]. split; simpl.
  - intros h' d' [Hne Hh']%lookup_delete_Some. destruct (Hd _ _ Hh') as [Hid Hk'].
    split; [done|]. rewrite lookup_delete_ne; [done|]. intros Heq. rewrite Heq in Hk. congruence.
  - intros k h' [Hne Hk']%lookup_delete_Some. destruct (Hu _ _ Hk') as (d' & Hh' & Hn).
    exists d'. split; [|done]. rewrite lookup_delete_ne; [done|]. intros <-. congruence.
Qed.

(** An update that keeps the hash and the user code keeps the bijection. *)
Lemma devices_wf_update s h d d' :
  devices_wf s → byDev s !! h = Some d →
  dr_DeviceCodeHash d' = dr_DeviceCodeHash d → dr_UserCode d' = dr_UserCode d →
  devices_wf (mkDevices (<[h := d']> (byDev s)) (byUser s)).
Proof.
  intros [Hd Hu] Hh Hid Hcode. destruct (Hd _ _ Hh) as [Hhd Hk]. split; simpl.
  - intros h1 d1 [[<- <-]|[Hne H1]]%lookup_insert_Some; [|by apply Hd].
    rewrite Hid, Hcode. done.
  - intros k h1 Hk1. destruct (Hu _ _ Hk1) as (d1 & H1 & Hn).
    destruct (decide (h = h1)) as [<-|Hne].
    + exists d'. rewrite lookup_insert_eq, Hcode. simplify_eq. done.
    + exists d1. by rewrite lookup_insert_ne.
Qed.

Lemma SaveDevice_wf s code d : devices_wf s → devices_wf (SaveDevice code d s).1.
Proof.
  intros [Hd Hu]. unfold SaveDevice. simpl.
  destruct (byDev s !! TokenHash code) eqn:Eh; [done|].
  destruct (byUser s !! _) eqn:Ek; [done|]. split; simpl.
  - intros h d' [[<- <-]|[Hne Hh]]%lookup_insert_Some; [by rewrite lookup_insert_eq|].
    destruct (Hd _ _ Hh) as [Hid Hk]. split; [done|]. rewrite lookup_insert_ne; [done|congruence].
  - intros k h [[<- <-]|[Hne Hk]]%lookup_insert_Some.
    + eexists. by rewrite lookup_insert_eq.
    + destruct (Hu _ _ Hk) as (d' & Hh & Hn). exists d'. split; [|done].
      rewrite lookup_insert_ne; congruence.
Qed.

(** The sweep, over any list of distinct records the store holds. *)
Lemma sweep_devices_spec now order s n :
  devices_wf s → NoDup order.*1 → (∀ h d, (h, d) ∈ order → byDev s !! h = Some d) →
  let '(s', n') := foldl (sweep_device now) (s, n) order in
  devices_wf s' ∧
  (∀ h d, byDev s' !! h = Some d ↔
     byDev s !! h = Some d ∧ ((h, d) ∈ order → (now < dr_ExpiresAt d)%Z)) ∧
  n' + size (byDev s') = n + size (byDev s).
Proof.
  revert s n. induction order as [|[h d] order IH]; intros s n Hwf Hnd Hin.
  { simpl. split_and!; [done| |done]. set_solver. }
  apply NoDup_cons in Hnd as [Hh Hnd]. simpl in Hh.
  assert (Hhd : byDev s !! h = Some d) by (apply Hin; left).
  assert (Hno : ∀ d', (h, d') ∉ order)
    by (intros d' Hd'; apply Hh; apply list_elem_of_fmap; by exists (h, d')).
  cbn [foldl sweep_device]. unfold time_Before. destruct (Z.ltb_spec now (dr_ExpiresAt d)) as [Hlt|Hge].
  - specialize (IH s n Hwf Hnd). destruct (foldl _ _ order) as [s' n'].
    destruct IH as (Hwf' & Hl & Hs); [set_solver|]. split_and!; [done| |done].
    intros h' d'. rewrite Hl, elem_of_cons. naive_solver.
  - set (s1 := mkDevices _ _). specialize (IH s1 (S n)).
    assert (Hs1 : size (byDev s) = S (size (byDev s1))).
    { unfold s1. simpl. rewrite map_size_delete, Hhd. simpl.
      assert (size (byDev s) ≠ 0); [|lia].
      intros Hz%map_size_empty_inv. rewrite Hz in Hhd. by rewrite lookup_empty in Hhd. }
    destruct (foldl _ _ order) as [s' n'].
    destruct IH as (Hwf' & Hl & Hs); [by apply devices_wf_remove|done| |].
    { intros h' d' Hd'. unfold s1. simpl. rewrite lookup_delete_ne; [by apply Hin; right|].
      intros <-. by apply (Hno d'). }
    split_and!; [done| |lia]. intros h' d'. rewrite Hl. unfold s1. simpl.
    rewrite lookup_delete_Some, elem_of_cons. destruct (decide (h = h')) as [<-|Hne].
    + split; [naive_solver|]. intros [Hd' Hexp]. simplify_eq.
      specialize (Hexp (or_introl eq_refl)). lia.
    + naive_solver.
Qed.

Lemma map_to_list_order {V} (m : gmap string V) order :
  order ≡ₚ map_to_list m →
  NoDup order.*1 ∧ (∀ h d, (h, d) ∈ order ↔ m !! h = Some d).
Proof.
  intros Hp. split; [rewrite Hp; apply NoDup_fst_map_to_list|].
  intros h d. rewrite Hp. apply elem_of_map_to_list.
Qed.

Lemma device_step_wf s s' : devices_wf s → device_step s s' → devices_wf s'.
Proof.
  intros Hwf Hst. destruct Hst as [s code d|s h t|s h dec|s h|s now order Hp].
  - by apply SaveDevice_wf.
  - unfold RecordPoll. destruct (byDev s !! h) eqn:E; [|done]. by eapply devices_wf_update.
  - unfold RecordDecision. destruct (byDev s !! h) eqn:E; [|done].
    case_bool_decide; [|done]. by eapply devices_wf_update.
  - unfold ConsumeDevice. destruct (byDev s !! h) eqn:E; [|done].
    case_bool_decide; [|done]. by apply devices_wf_remove.
  - destruct (map_to_list_order _ _ Hp) as [Hnd Hin].
    pose proof (sweep_devices_spec now order s 0 Hwf Hnd (λ h d, proj1 (Hin h d))) as Hs.
    unfold SweepExpiredDevices. by destruct (foldl _ _ order) as [s' n'], Hs.
Qed.
End device_lemmas.

(** ** Properties *)

Section device_properties.
Context `{Platform}.

(** Whatever calls a [MemoryDeviceStore] receives, its two maps stay one
    bijection: every stored request is found by its device code's hash and by
    its user code, however typed, and a user code never leads to a request that
    is gone or carries another code. *)
Theorem devices_wf_reachable s : rtc device_step NewMemoryDeviceStore s → devices_wf s.
Proof.
  apply (rtc_ind_r (λ s, devices_wf s)); [apply devices_wf_new|].
  intros s1 s2 _ Hst Hwf. by eapply device_step_wf.
Qed.

(** A decision is final: no call changes the outcome of a decided request
    (status, subject, scopes, explicit ticks) or what was requested; a call
    either leaves them or removes the request. In particular a poll and a
    decision, in either order, never undo one another. *)
Theorem decision_final s s' h d :
  devices_wf s → device_step s s' →
  byDev s !! h = Some d → dr_Status d ≠ DevicePending →
  match byDev s' !! h with
  | None => True
  | Some d' => decision_of d' = decision_of d ∧ dr_UserCode d' = dr_UserCode d ∧
               dr_ClientID d' = dr_ClientID d ∧ dr_ExpiresAt d' = dr_ExpiresAt d
  end.
Proof.
  intros Hwf Hst Hh Hdec. destruct Hst as [s code d0|s h0 t|s h0 dec|s h0|s now order Hp].
  - unfold SaveDevice. simpl. destruct (byDev s !! TokenHash code) eqn:E; simpl; [by rewrite Hh|].
    destruct (byUser s !! _); simpl; [by rewrite Hh|].
    rewrite lookup_insert_ne by congruence. by rewrite Hh.
  - unfold RecordPoll. destruct (byDev s !! h0) as [d0|] eqn:E; simpl; [|by rewrite Hh].
    rewrite lookup_insert. case_decide; [|by rewrite Hh]. by simplify_eq.
  - unfold RecordDecision. destruct (byDev s !! h0) as [d0|] eqn:E; simpl; [|by rewrite Hh].
    case_bool_decide; simpl; [|by rewrite Hh].
    rewrite lookup_insert_ne by congruence. by rewrite Hh.
  - unfold ConsumeDevice. destruct (byDev s !! h0) as [d0|] eqn:E; simpl; [|by rewrite Hh].
    case_bool_decide; simpl; [|by rewrite Hh].
    rewrite lookup_delete. case_decide; [done|]. by rewrite Hh.
  - destruct (map_to_list_order _ _ Hp) as [Hnd Hin].
    pose proof (sweep_devices_spec now order s 0 Hwf Hnd (λ h d, proj1 (Hin h d))) as Hs.
    unfold SweepExpiredDevices. destruct (foldl _ _ order) as [s' n']. destruct Hs as (_ & Hl & _).
    simpl. destruct (byDev s' !! h) as [d'|] eqn:E; [|done]. apply Hl in E as [E _]. by simplify_eq.
Qed.

(** One approval is redeemed at most once: [ConsumeDevice] hands out a
    record only if it was approved, removes it together with its user code, and
    every later call for the same hash, until another request is saved under
    it, hands out nothing. *)
Theorem ConsumeDevice_once s s' h d :
  devices_wf s → ConsumeDevice h s = (s', Ok (Some d)) →
  dr_Status d = DeviceApproved ∧ byDev s !! h = Some d ∧
  GetDeviceByUserCode (dr_UserCode d) s' = Err ErrDeviceNotFound ∧
  ConsumeDevice h s' = (s', Ok None) ∧
  (∀ h' d', h' ≠ h → byDev s !! h' = Some d' →
     byDev s' !! h' = Some d' ∧ GetDeviceByUserCode (dr_UserCode d') s' = Ok d').
Proof.
  intros Hwf Hc. unfold ConsumeDevice in Hc.
  destruct (byDev s !! h) as [d0|] eqn:E; [|done].
  case_bool_decide as Ha; simpl in Hc; [|done]. simplify_eq.
  pose proof (devices_wf_remove s h d Hwf E) as [Hwf' _]. unfold GetDeviceByUserCode.
  rewrite (drop_index_wf _ _ _ Hwf E) in *. simpl in *. split_and!; [done|done| | |].
  - by rewrite lookup_delete_eq.
  - unfold ConsumeDevice. simpl. by rewrite lookup_delete_eq.
  - intros h' d' Hne Hd'.
    assert (Hd'' : delete h (byDev s) !! h' = Some d') by (rewrite lookup_delete_ne; done).
    destruct (Hwf' _ _ Hd'') as [_ Hu]. by rewrite Hu, Hd''.
Qed.

(** [MemoryDeviceStore.SweepExpired], in whatever order the runtime walks
    the map, removes exactly the expired requests, reports their number, and
    leaves every live one reachable by both of its codes. *)
Theorem SweepExpiredDevices_exact now order s :
  devices_wf s → order ≡ₚ map_to_list (byDev s) →
  let '(s', n) := SweepExpiredDevices now order s in
  devices_wf s' ∧
  (∀ h d, byDev s' !! h = Some d ↔
     byDev s !! h = Some d ∧ (now < dr_ExpiresAt d)%Z) ∧
  n + size (byDev s') = size (byDev s).
Proof.
  intros Hwf Hp. destruct (map_to_list_order _ _ Hp) as [Hnd Hin].
  pose proof (sweep_devices_spec now order s 0 Hwf Hnd (λ h d, proj1 (Hin h d))) as Hs.
  unfold SweepExpiredDevices. destruct (foldl _ _ order) as [s' n].
  destruct Hs as (Hwf' & Hl & Hsz). split_and!; [done| |done].
  intros h d. rewrite Hl, Hin. naive_solver.
Qed.
End device_properties.

(** ** Witnesses *)

#[local] Existing Instance toy_platform.

Definition demo_request : DeviceAuthorizationRecord :=
  mkDevice EmptyString "BCDF-GHJK" "app" [ScopeAccountID] DevicePending EmptyString [] 900 0.
Definition demo_approval : DeviceDecision :=
  mkDecision DeviceApproved "alice" [ScopeAccountID] [].
(** A store holding one approved request. *)
Definition demo_devices : MemoryDeviceStore :=
  (RecordDecision (TokenHash "dev") demo_approval
     (SaveDevice "dev" demo_request NewMemoryDeviceStore).1).1.

Lemma demo_devices_reach : rtc device_step NewMemoryDeviceStore demo_devices.
Proof. eapply rtc_l; [apply step_save|]. apply rtc_once. apply step_decide. Qed.

Lemma demo_devices_wf : devices_wf demo_devices.
Proof.
  unfold demo_devices. eapply device_step_wf; [|apply step_decide].
  eapply device_step_wf; [apply devices_wf_new|apply step_save].
Qed.

Lemma devices_wf_reachable_witness :
  devices_wf demo_devices ∧ is_Some (byDev demo_devices !! TokenHash "dev").
Proof.
  split; [exact (devices_wf_reachable demo_devices demo_devices_reach)|].
  eexists. vm_compute. reflexivity.
Defined.

Lemma decision_final_witness :
  match byDev (RecordDecision (TokenHash "dev") (mkDecision DeviceDenied EmptyString [] [])
                 demo_devices).1 !! TokenHash "dev" with
  | None => True
  | Some d' => decision_of d' = demo_approval ∧ dr_UserCode d' = "BCDF-GHJK" ∧
               dr_ClientID d' = "app" ∧ dr_ExpiresAt d' = 900%Z
  end.
Proof.
  apply (decision_final demo_devices _ (TokenHash "dev")
    (with_decision demo_approval (with_hash (TokenHash "dev") demo_request)));
    [exact demo_devices_wf|apply step_decide|vm_compute; reflexivity|done].
Defined.

Lemma ConsumeDevice_once_witness :
  ConsumeDevice (TokenHash "dev") (ConsumeDevice (TokenHash "dev") demo_devices).1 =
  ((ConsumeDevice (TokenHash "dev") demo_devices).1, Ok None).
Proof.
  apply (ConsumeDevice_once demo_devices _ (TokenHash "dev")
    (with_decision demo_approval (with_hash (TokenHash "dev") demo_request)));
    [exact demo_devices_wf|vm_compute; reflexivity].
Defined.

Lemma SweepExpiredDevices_exact_witness :
  let '(s', n) := SweepExpiredDevices 900 (map_to_list (byDev demo_devices)) demo_devices in
  devices_wf s' ∧
  (∀ h d, byDev s' !! h = Some d ↔
     byDev demo_devices !! h = Some d ∧ (900 < dr_ExpiresAt d)%Z) ∧
  n + size (byDev s') = size (byDev demo_devices).
Proof.
  apply (SweepExpiredDevices_exact 900 _ demo_devices); [exact demo_devices_wf|reflexivity].
Defined.
