(* ===== verification/Service.v ===== *)
(** * The authorization server core ([oauth/service.go], [oauth/as.go],
    [oauth/device.go], [oauth/grants.go])

    The service behind the OAuth endpoints, over any client registry, token
    store, device store and audit logger. Each handler is a process: what it
    does between two calls that another request could interleave with is one
    action. *)

From S2P Require Import Prelude GoStd Scope Proc Tokens Client AuditLog Device.

(** ** Requests and responses ([oauth/service.go]) *)

(** [protocolError]. *)
Definition protocolError (code description : string) : error := Proto code description.

Record AuthorizationRequest := mkAuthReq {
  aq_ClientID : string;
  aq_RedirectURI : string;
  aq_Subject : string;
  aq_Scopes : list Scope;
  aq_Explicit : list Scope;
  aq_State : string;
  aq_CodeChallenge : string;
  aq_CodeChallengeMethod : string;
}.

Record AuthorizationResponse := mkAuthResp {
  ap_Code : string;
  ap_State : string;
  ap_RedirectURI : string;
}.

Record CodeExchangeRequest := mkExchange {
  xr_ClientID : string;
  xr_ClientSecret : string;
  xr_Code : string;
  xr_RedirectURI : string;
  xr_CodeVerifier : string;
}.

Record RefreshRequest := mkRefreshReq {
  rr_ClientID : string;
  rr_ClientSecret : string;
  rr_RefreshToken : string;
  rr_Scopes : list Scope;
}.

Record RevokeRequest := mkRevoke {
  vr_ClientID : string;
  vr_ClientSecret : string;
  vr_Token : string;
  vr_TokenTypeHint : string;
}.

Record TokenResponse := mkTokens {
  tr_AccessToken : string;
  tr_TokenType : string;
  tr_ExpiresIn : Z;
  tr_RefreshToken : string;
  tr_Scope : string;
}.

Record TokenInfo := mkInfo {
  ti_Active : bool;
  ti_Subject : string;
  ti_ClientID : string;
  ti_Scopes : list Scope;
  ti_ExpiresAt : Z;
}.

(** [TokenInfo{Active: false}]. *)
Definition inactive : TokenInfo := mkInfo false EmptyString EmptyString [] 0.

Record AuthorizationDetails := mkDetails {
  dt_Client : Client;
  dt_Scopes : list Descriptor;
}.

Record DeviceAuthorizationRequest := mkDeviceReq {
  dq_ClientID : string;
  dq_ClientSecret : string;
  dq_Scopes : list Scope;
}.

Record DeviceAuthorizationResponse := mkDeviceResp {
  dp_DeviceCode : string;
  dp_UserCode : string;
  dp_VerificationURI : string;
  dp_VerificationURIComplete : string;
  dp_ExpiresIn : Z;
  dp_Interval : Z;
}.

Record DeviceCodeExchangeRequest := mkDevicePoll {
  dx_ClientID : string;
  dx_ClientSecret : string;
  dx_DeviceCode : string;
}.

Record DeviceAuthorization := mkDeviceAuth {
  da_UserCode : string;
  da_Client : Client;
  da_Scopes : list Descriptor;
  da_ExpiresAt : Z;
}.

(** [Grant] of [oauth/grants.go]. *)
Record Grant := mkGrant {
  g_ClientID : string;
  g_ClientName : string;
  g_Scopes : list Scope;
  g_HasRefresh : bool;
  g_IssuedAt : Z;
  g_ExpiresAt : Z;
}.

(** ** The service and its world *)

(** The fields of [service] that never change after [NewService].
    [sv_dummyHash] is the package variable [dummyClientSecretHash]. *)
Record service := mkService {
  sv_scopes : Registry;
  sv_issuer : string;
  sv_atTTL : Z;
  sv_rtTTL : Z;
  sv_codeTTL : Z;
  sv_deviceTTL : Z;
  sv_pollInterval : Z;
  sv_verifyPath : string;
  sv_dummyHash : string;
}.

(** [refreshFamilyLock]: whether the mutex is held, and [refs]. *)
Record refreshFamilyLock := mkLock { lk_held : bool; lk_refs : Z }.

(** What the handlers share: the stores, the clock, the lock table (a map of
    pointers into a heap of locks), the revocation generations, and how many
    times the system generator was read. *)
Record World (Rg St Dv Lg : Type) := mkWorld {
  clients : Rg;
  tokens : St;
  devices : Dv;
  logger : Lg;
  clock : Z;
  refreshLocks : gmap string nat;
  lockHeap : gmap nat refreshFamilyLock;
  nextLock : nat;
  grantEpochs : gmap string Z;
  entropy : nat;
}.
Arguments mkWorld {Rg St Dv Lg}.
Arguments clients {Rg St Dv Lg}.
Arguments tokens {Rg St Dv Lg}.
Arguments devices {Rg St Dv Lg}.
Arguments logger {Rg St Dv Lg}.
Arguments clock {Rg St Dv Lg}.
Arguments refreshLocks {Rg St Dv Lg}.
Arguments lockHeap {Rg St Dv Lg}.
Arguments nextLock {Rg St Dv Lg}.
Arguments grantEpochs {Rg St Dv Lg}.
Arguments entropy {Rg St Dv Lg}.

Section world.
Context {Rg St Dv Lg : Type}.
Local Abbreviation W := (World Rg St Dv Lg).

Definition set_tokens (st : St) (w : W) : W :=
  mkWorld (clients w) st (devices w) (logger w) (clock w) (refreshLocks w) (lockHeap w)
    (nextLock w) (grantEpochs w) (entropy w).
Definition set_devices (dv : Dv) (w : W) : W :=
  mkWorld (clients w) (tokens w) dv (logger w) (clock w) (refreshLocks w) (lockHeap w)
    (nextLock w) (grantEpochs w) (entropy w).
Definition set_logger (lg : Lg) (w : W) : W :=
  mkWorld (clients w) (tokens w) (devices w) lg (clock w) (refreshLocks w) (lockHeap w)
    (nextLock w) (grantEpochs w) (entropy w).
Definition set_locks (m : gmap string nat) (hp : gmap nat refreshFamilyLock) (n : nat) (w : W) : W :=
  mkWorld (clients w) (tokens w) (devices w) (logger w) (clock w) m hp n
    (grantEpochs w) (entropy w).
Definition set_epochs (m : gmap string Z) (w : W) : W :=
  mkWorld (clients w) (tokens w) (devices w) (logger w) (clock w) (refreshLocks w) (lockHeap w)
    (nextLock w) m (entropy w).
Definition set_entropy (n : nat) (w : W) : W :=
  mkWorld (clients w) (tokens w) (devices w) (logger w) (clock w) (refreshLocks w) (lockHeap w)
    (nextLock w) (grantEpochs w) n.
(** The same world, when the clock shows [t]. *)
Definition at_time (t : Z) (w : W) : W :=
  mkWorld (clients w) (tokens w) (devices w) (logger w) t (refreshLocks w) (lockHeap w)
    (nextLock w) (grantEpochs w) (entropy w).

(** Calls into the components. *)
Definition on_tokens {A} (f : St → St * result A) : go W A :=
  call (λ w, let '(st, r) := f (tokens w) in (set_tokens st w, r)).
Definition on_tokens_at {A} (f : Z → St → St * result A) : go W A :=
  call (λ w, let '(st, r) := f (clock w) (tokens w) in (set_tokens st w, r)).
Definition ask_tokens {A} (f : St → result A) : go W A := call (λ w, (w, f (tokens w))).
Definition ask_tokens_at {A} (f : Z → St → result A) : go W A :=
  call (λ w, (w, f (clock w) (tokens w))).
Definition on_devices {A} (f : Dv → Dv * result A) : go W A :=
  call (λ w, let '(dv, r) := f (devices w) in (set_devices dv w, r)).
Definition ask_devices {A} (f : Dv → result A) : go W A := call (λ w, (w, f (devices w))).
Definition ask_clients {A} (f : Rg → A) : go W A := reads (λ w, f (clients w)).
Definition now : go W Z := reads clock.

(** One read of the system generator. *)
Definition draw `{Entropy} (n : nat) : go W string :=
  call (λ w, (set_entropy (S (entropy w)) w,
              match rand_read (entropy w) n with
              | Some b => Ok b
              | None => Err (New "rand: read failed")
              end)).
End world.

(** ** Pure helpers *)

Section helpers.
Context `{Platform}.

(** [validPKCEChallenge]. *)
Definition validPKCEChallenge (challenge : string) : bool :=
  if negb (len challenge =? 43) then false
  else str_forall (λ c, is_upper c || is_lower c || is_digit c ||
                        bool_decide (c = "-"%char) || bool_decide (c = "_"%char)) challenge.

(** [verifyPKCE]. *)
Definition verifyPKCE (verifier challenge method : string) : bool :=
  if bool_decide (verifier = EmptyString) || negb (validPKCEChallenge challenge) ||
     negb (bool_decide (method = "S256"))
  then false
  else bool_decide (RawURL_EncodeToString (sha256 verifier) = challenge).

(** [joinScopes]. *)
Definition joinScopes (scopes : list Scope) : string := strings_Join scopes " ".

(** [slices.Contains]. *)
Definition slices_Contains (l : list Scope) (s : Scope) : bool := bool_decide (s ∈ l).

(** [checkExplicit]; [None] is the nil error. *)
Fixpoint checkExplicit (descriptors : list Descriptor) (explicit : list Scope) : option error :=
  match descriptors with
  | [] => None
  | d :: ds =>
      if d_ExplicitConsent d && negb (bool_decide (d_Scope d ∈ explicit))
      then Some (protocolError "access_denied" ("explicit consent is required for " +:+ d_Scope d))
      else checkExplicit ds explicit
  end.

(** The loop over the requested scopes in [describe] and [resolveScopes]. *)
Fixpoint check_allowed (c : Client) (scopes : list Scope) : option error :=
  match scopes with
  | [] => None
  | sc :: scs =>
      if negb (AllowsScope c sc)
      then Some (protocolError "invalid_scope" ("client is not registered for " +:+ sc))
      else check_allowed c scs
  end.

(** [service.checkCodeBinding], at a reading of the clock. *)
Definition checkCodeBinding (now : Z) (client : Client) (code : AuthorizationCode)
    (req : CodeExchangeRequest) : option error :=
  if negb (time_Before now (ac_ExpiresAt code))
  then Some (protocolError "invalid_grant" "authorization code has expired") else
  if negb (bool_decide (ac_ClientID code = cl_ID client))
  then Some (protocolError "invalid_grant" "authorization code was issued to another client") else
  if negb (bool_decide (ac_RedirectURI code = xr_RedirectURI req))
  then Some (protocolError "invalid_grant" "redirect_uri mismatch") else
  if negb (verifyPKCE (xr_CodeVerifier req) (ac_CodeChallenge code) (ac_CodeChallengeMethod code))
  then Some (protocolError "invalid_grant" "PKCE verification failed") else None.

(** [service.resolveScopes]. *)
Definition resolveScopes (s : service) (client : Client) (scopes : list Scope)
    : result (Client * list Descriptor) :=
  match Resolve (sv_scopes s) scopes (cl_ID client) with
  | Err err => Err (protocolError "invalid_scope" (Error err))
  | Ok descriptors =>
      match check_allowed client scopes with
      | Some err => Err err
      | None => Ok (client, descriptors)
      end
  end.

(** [unionScopes]: the set of both, sorted. *)
Definition unionScopes (a b : list Scope) : list Scope :=
  sort_by id (elements (list_to_set (a ++ b) : gset Scope)).

(** The body of the loop of [Grants] over the records. *)
Definition grant_step (now : Z) (byClient : gmap string Grant) (r : GrantRecord) : gmap string Grant :=
  if negb (time_After (gr_ExpiresAt r) now) then byClient
  else
    let g := match byClient !! gr_ClientID r with
             | Some g => g
             | None => mkGrant (gr_ClientID r) EmptyString [] false (gr_IssuedAt r) (gr_ExpiresAt r)
             end in
    <[gr_ClientID r :=
        mkGrant (g_ClientID g) (g_ClientName g) (unionScopes (g_Scopes g) (gr_Scopes r))
          (g_HasRefresh g || bool_decide (gr_Kind r = TokenKindRefresh))
          (if time_Before (gr_IssuedAt r) (g_IssuedAt g) then gr_IssuedAt r else g_IssuedAt g)
          (if time_After (gr_ExpiresAt r) (g_ExpiresAt g) then gr_ExpiresAt r else g_ExpiresAt g)]>
      byClient.

Definition set_name (n : string) (g : Grant) : Grant :=
  mkGrant (g_ClientID g) n (g_Scopes g) (g_HasRefresh g) (g_IssuedAt g) (g_ExpiresAt g).

(** [grantEpochKey]. *)
Definition grantEpochKey (subject clientID : string) : string :=
  subject +:+ String "000" clientID.

(** The advertised polling interval: the configured one in seconds, rounded up. *)
Definition pollSeconds (s : service) : Z :=
  let interval := Z.quot (wrap64 (wrap64 (sv_pollInterval s + time_Second) - 1)) time_Second in
  if (interval <? 1)%Z then 1%Z else interval.
End helpers.

(** ** User codes *)

Definition userCodeLen : nat := 8.
Definition userCodeAlphabet : string := "BCDFGHJKLMNPQRSTVWXZ".
Definition slash : ascii := "/".

(** [byte(256 - 256%len(userCodeAlphabet))]. *)
Definition userCodeMax : N := 256 - 256 mod (N.of_nat (len userCodeAlphabet)).

(** The character an accepted byte selects. *)
Definition userCodeChar (b : ascii) : ascii :=
  match String.get (N.to_nat (code b mod N.of_nat (len userCodeAlphabet))) userCodeAlphabet with
  | Some c => c
  | None => "?"
  end.

(** ** Handlers *)

Section handlers.
Context `{Platform} `{Entropy}.
Context {Rg St Dv Lg : Type} `{ClientRegistry Rg} `{Store St} `{DeviceStore Dv} `{Logger Lg}.
Context (s : service).
Local Abbreviation W := (World Rg St Dv Lg).

(** [service.record]: a failing sink is logged and the handler goes on. *)
Definition record (action subject clientID outcome : string) : go W unit :=
  modify (λ w, set_logger
    (log_Record (clock w)
       (mkEvent 0 action subject "oauth" outcome {[ "client_id" := clientID ]}) (logger w)).1 w).

(** [newToken]. *)
Definition newToken : go W string :=
  b ← try (draw 32);
  match b with
  | Err err => throw (Wrap ("oauth: random: " +:+ Error err) err)
  | Ok b => mret (RawURL_EncodeToString b)
  end.

(** [service.client]: the unknown-client branch recomputes a verifier and
    discards the answer. *)
Definition client (id secret : string) (auth : bool) : go W Client :=
  r ← ask_clients (reg_Get id);
  match r with
  | Err err =>
      if errors_Is err ErrClientNotFound
      then let _ := if auth then verifySecretHash (sv_dummyHash s) secret else false in
           throw (protocolError "invalid_client" "invalid client credentials")
      else throw err
  | Ok c =>
      if auth && bool_decide (cl_Type c = ClientConfidential) && negb (Authenticate c secret)
      then throw (protocolError "invalid_client" "invalid client credentials")
      else mret c
  end.

(** [service.AuthenticateClient]. *)
Definition AuthenticateClient (clientID clientSecret : string) : go W unit :=
  c ← client clientID clientSecret true;
  if negb (bool_decide (cl_Type c = ClientConfidential))
  then throw (protocolError "invalid_client" "public clients cannot authenticate")
  else mret tt.

(** [service.describe]. *)
Definition describe (req : AuthorizationRequest) : go W (Client * list Descriptor) :=
  c ← client (aq_ClientID req) EmptyString false;
  if negb (AllowsRedirect c (aq_RedirectURI req))
  then throw (protocolError "invalid_request" "redirect_uri is not registered") else
  if negb (validPKCEChallenge (aq_CodeChallenge req)) ||
     negb (bool_decide (aq_CodeChallengeMethod req = "S256"))
  then throw (protocolError "invalid_request" "PKCE with S256 is required") else
  lift_result (resolveScopes s c (aq_Scopes req)).

(** [service.DescribeAuthorization]. *)
Definition DescribeAuthorization (req : AuthorizationRequest) : go W AuthorizationDetails :=
  cd ← describe req;
  mret (mkDetails cd.1 cd.2).

(** [service.Authorize]. *)
Definition Authorize (req : AuthorizationRequest) : go W AuthorizationResponse :=
  cd ← describe req;
  if bool_decide (aq_Subject req = EmptyString)
  then throw (protocolError "access_denied" "user is not authenticated") else
  match checkExplicit cd.2 (aq_Explicit req) with
  | Some err => throw err
  | None =>
      code ← newToken;
      t ← now;
      on_tokens (store_SaveCode code
        (mkCode (cl_ID cd.1) (aq_Subject req) (aq_Scopes req) (aq_RedirectURI req)
           (aq_CodeChallenge req) (aq_CodeChallengeMethod req) (t + sv_codeTTL s)));;
      record "oauth.authorize" (aq_Subject req) (cl_ID cd.1) OutcomeOK;;
      mret (mkAuthResp code (aq_State req) (aq_RedirectURI req))
  end.

(** [service.grantEpoch] and [service.bumpGrantEpoch]; a missing entry is 0. *)
Definition epoch_of (w : W) (subject clientID : string) : Z :=
  default 0%Z (grantEpochs w !! grantEpochKey subject clientID).
Definition grantEpoch (subject clientID : string) : go W Z :=
  reads (λ w, epoch_of w subject clientID).
Definition bumpGrantEpoch (subject clientID : string) : go W unit :=
  modify (λ w, set_epochs
    (<[grantEpochKey subject clientID := wrapu64 (epoch_of w subject clientID + 1)]>
       (grantEpochs w)) w).

(** [service.issue]. *)
Definition issue (clientID subject : string) (scopes : list Scope) (familyID : string)
    : go W TokenResponse :=
  at_ ← newToken;
  rt ← newToken;
  familyID ← (if bool_decide (familyID = EmptyString) then newToken else mret familyID);
  t ← now;
  on_tokens (store_SaveAccess at_ (mkAccess clientID subject scopes familyID t (t + sv_atTTL s)));;
  saved ← try (on_tokens (store_SaveRefresh rt
                 (mkRefresh clientID subject scopes familyID t (t + sv_rtTTL s))));
  match saved with
  | Err err =>
      undone ← try (on_tokens (store_DeleteAccess at_));
      match undone with
      | Err delErr =>
          throw (Wrap ("oauth: save refresh token: " +:+ Error err +:+
                       " (access-token rollback also failed: " +:+ Error delErr +:+ ")") err)
      | Ok _ => throw err
      end
  | Ok _ =>
      record "oauth.token" subject clientID OutcomeOK;;
      mret (mkTokens at_ "Bearer" (Z.quot (sv_atTTL s) time_Second) rt (joinScopes scopes))
  end.

(** The [%v] of a possibly nil error. *)
Definition err_text {A} (r : result A) : string :=
  match r with Ok _ => "<nil>" | Err e => Error e end.

(** [service.issueGuarded]. *)
Definition issueGuarded (clientID subject : string) (scopes : list Scope) (familyID : string)
    (epoch : Z) : go W TokenResponse :=
  resp ← issue clientID subject scopes familyID;
  e ← grantEpoch subject clientID;
  if (e =? epoch)%Z then mret resp
  else
    accessErr ← try (on_tokens (store_DeleteAccess (tr_AccessToken resp)));
    refreshErr ← try (on_tokens (store_DeleteRefresh (tr_RefreshToken resp)));
    if negb (is_ok accessErr) || negb (is_ok refreshErr)
    then throw (New ("oauth: grant revoked during issuance; rolling the pair back failed: access=" +:+
                     err_text accessErr +:+ " refresh=" +:+ err_text refreshErr))
    else
      record "oauth.issue_revoked" subject clientID OutcomeDenied;;
      throw (protocolError "invalid_grant" "the grant was revoked while this request was in flight").

(** [service.Exchange]. *)
Definition Exchange (req : CodeExchangeRequest) : go W TokenResponse :=
  c ← client (xr_ClientID req) (xr_ClientSecret req) true;
  found ← try (ask_tokens (store_GetCode (xr_Code req)));
  match found with
  | Err err =>
      if errors_Is err ErrTokenNotFound
      then throw (protocolError "invalid_grant" "authorization code is unknown or already used")
      else throw err
  | Ok code =>
      t ← now;
      match checkCodeBinding t c code req with
      | Some err =>
          record "oauth.exchange_failed" (ac_Subject code) (cl_ID c) OutcomeDenied;;
          throw err
      | None =>
          epoch ← grantEpoch (ac_Subject code) (cl_ID c);
          claim ← try (on_tokens (store_ConsumeCode (xr_Code req)));
          match claim with
          | Err err =>
              if errors_Is err ErrTokenNotFound
              then throw (protocolError "invalid_grant" "authorization code is unknown or already used")
              else throw err
          | Ok claimed =>
              t ← now;
              match checkCodeBinding t c claimed req with
              | Some err =>
                  record "oauth.exchange_failed" (ac_Subject claimed) (cl_ID c) OutcomeDenied;;
                  throw err
              | None =>
                  issueGuarded (cl_ID c) (ac_Subject claimed) (ac_Scopes claimed) EmptyString epoch
              end
          end
      end
  end.

(** [service.lockRefreshFamily]: find or create the family's lock and count the
    caller in, then take its mutex. The result is the pointer the release
    closes over. *)
Definition find_lock (key : string) (w : W) : W * nat :=
  match refreshLocks w !! key with
  | Some l =>
      match lockHeap w !! l with
      | Some lk => (set_locks (refreshLocks w)
                      (<[l := mkLock (lk_held lk) (lk_refs lk + 1)]> (lockHeap w)) (nextLock w) w, l)
      | None => (w, l)
      end
  | None =>
      let l := nextLock w in
      (set_locks (<[key := l]> (refreshLocks w)) (<[l := mkLock false 1]> (lockHeap w)) (S l) w, l)
  end.
Definition take_mutex (l : nat) (w : W) : option W :=
  match lockHeap w !! l with
  | Some (mkLock false refs) =>
      Some (set_locks (refreshLocks w) (<[l := mkLock true refs]> (lockHeap w)) (nextLock w) w)
  | _ => None
  end.
Definition lockRefreshFamily (key : string) : go W nat :=
  l ← atomic (find_lock key);
  await (take_mutex l);;
  mret l.

(** The release: unlock the mutex, then count the caller out and drop the map
    entry of a lock nobody uses. *)
Definition drop_mutex (l : nat) (w : W) : W :=
  match lockHeap w !! l with
  | Some lk => set_locks (refreshLocks w) (<[l := mkLock false (lk_refs lk)]> (lockHeap w)) (nextLock w) w
  | None => w
  end.
Definition leave_lock (key : string) (l : nat) (w : W) : W :=
  match lockHeap w !! l with
  | Some lk =>
      let refs := (lk_refs lk - 1)%Z in
      set_locks (if (refs =? 0)%Z then delete key (refreshLocks w) else refreshLocks w)
        (<[l := mkLock (lk_held lk) refs]> (lockHeap w)) (nextLock w) w
  | None => w
  end.
Definition unlockRefreshFamily (key : string) (l : nat) : go W unit :=
  modify (drop_mutex l);; modify (leave_lock key l).

(** [service.refreshFamilyKey]. *)
Definition refreshFamilyKey (value : string) : go W string :=
  match store_RefreshFamily with
  | None => mret "refresh:global"
  | Some resolve =>
      r ← try (ask_tokens_at (λ t, resolve t value));
      match r with
      | Ok family =>
          if bool_decide (family = EmptyString)
          then mret ("refresh:value:" +:+ TokenHash value)
          else mret ("refresh:family:" +:+ family)
      | Err err =>
          if errors_Is err ErrTokenNotFound
          then mret ("refresh:value:" +:+ TokenHash value)
          else throw err
      end
  end.

(** The part of [service.Refresh] that runs under the family lock. *)
Definition refresh_locked (c : Client) (req : RefreshRequest) (epoch : Z) : go W TokenResponse :=
  claim ← try (on_tokens_at (λ t, store_ConsumeRefresh t (rr_RefreshToken req)));
  match claim with
  | Err err =>
      match errors_As_reuse err with
      | Some family =>
          on_tokens (store_RevokeRefreshFamily family);;
          record "oauth.reuse_detected" EmptyString (cl_ID c) OutcomeDenied;;
          throw (protocolError "invalid_grant" "refresh token is unknown or already used")
      | None =>
          if errors_Is err ErrTokenNotFound
          then throw (protocolError "invalid_grant" "refresh token is unknown or already used")
          else throw err
      end
  | Ok rt =>
      t ← now;
      if negb (time_Before t (rt_ExpiresAt rt))
      then throw (protocolError "invalid_grant" "refresh token has expired") else
      if negb (bool_decide (rt_ClientID rt = cl_ID c))
      then throw (protocolError "invalid_grant" "refresh token was issued to another client") else
      if forallb (slices_Contains (rt_Scopes rt)) (rr_Scopes req)
      then issueGuarded (cl_ID c) (rt_Subject rt)
             (if 0 <? length (rr_Scopes req) then rr_Scopes req else rt_Scopes rt)
             (rt_FamilyID rt) epoch
      else throw (protocolError "invalid_scope" "refresh cannot widen the granted scope")
  end.

(** [service.Refresh]. *)
Definition Refresh (req : RefreshRequest) : go W TokenResponse :=
  c ← client (rr_ClientID req) (rr_ClientSecret req) true;
  owner ← try (ask_tokens (store_TokenOwner (rr_RefreshToken req)));
  match owner with
  | Ok owner => guard_err (negb (bool_decide (owner = cl_ID c)))
                  (protocolError "invalid_grant" "refresh token was issued to another client")
  | Err err => guard_err (negb (errors_Is err ErrTokenNotFound)) err
  end;;
  held ← try (ask_tokens (store_GetRefresh (rr_RefreshToken req)));
  epoch ← (match held with
           | Ok held => grantEpoch (rt_Subject held) (cl_ID c)
           | Err _ => mret 0%Z
           end);
  key ← refreshFamilyKey (rr_RefreshToken req);
  l ← lockRefreshFamily key;
  r ← try (refresh_locked c req epoch);
  unlockRefreshFamily key l;;
  lift_result r.

(** [service.revocableOwner]. *)
Definition revocableOwner (value : string) : go W string :=
  r ← try (ask_tokens (store_TokenOwner value));
  match r with
  | Ok owner => mret owner
  | Err err =>
      if negb (errors_Is err ErrTokenNotFound) then throw err
      else match store_SpentRefreshOwner with
           | Some spent => ask_tokens_at (λ t, spent t value)
           | None => throw ErrTokenNotFound
           end
  end.

(** [service.Revoke]. *)
Definition Revoke (req : RevokeRequest) : go W unit :=
  c ← client (vr_ClientID req) (vr_ClientSecret req) true;
  r ← try (revocableOwner (vr_Token req));
  match r with
  | Err err => if errors_Is err ErrTokenNotFound then mret tt else throw err
  | Ok owner =>
      if negb (bool_decide (owner = cl_ID c)) then mret tt
      else
        on_tokens (store_DeleteAccess (vr_Token req));;
        on_tokens (store_DeleteRefresh (vr_Token req));;
        record "oauth.revoke" EmptyString (cl_ID c) OutcomeOK
  end.

(** [service.Introspect]. *)
Definition Introspect (accessToken : string) : go W TokenInfo :=
  r ← try (ask_tokens (store_GetAccess accessToken));
  match r with
  | Err err => if errors_Is err ErrTokenNotFound then mret inactive else throw err
  | Ok at_ =>
      t ← now;
      if negb (time_Before t (at_ExpiresAt at_)) then mret inactive
      else
        c ← ask_clients (reg_Get (at_ClientID at_));
        match c with
        | Err err => if errors_Is err ErrClientNotFound then mret inactive else throw err
        | Ok _ => mret (mkInfo true (at_Subject at_) (at_ClientID at_) (at_Scopes at_) (at_ExpiresAt at_))
        end
  end.

(** [service.Grants]; the two passes over [byClient] visit it in key order
    here, and the final sort makes any order give the same answer. *)
Definition Grants (subject : string) : go W (list Grant) :=
  if bool_decide (subject = EmptyString) then throw (New "oauth: subject is required")
  else
    records ← ask_tokens (store_ListBySubject subject);
    t ← now;
    let byClient := foldl (grant_step t) ∅ records in
    names ← ask_clients (λ reg, LookupClientNames (Some reg) (map_to_list byClient).*1);
    mret (sort_by g_ClientID
            ((λ g, set_name (default EmptyString (names !! g_ClientID g)) g) <$>
               (map_to_list byClient).*2)).

(** [service.RevokeGrant]. *)
Definition RevokeGrant (subject clientID : string) : go W unit :=
  if bool_decide (subject = EmptyString) || bool_decide (clientID = EmptyString)
  then throw (New "oauth: subject and client id are required")
  else
    bumpGrantEpoch subject clientID;;
    on_tokens (store_DeleteBySubjectClient subject clientID);;
    record "oauth.grant.revoke" subject clientID OutcomeOK.
End handlers.

(** ** The device flow *)

Section device_handlers.
Context `{Platform} `{Entropy}.
Context {Rg St Dv Lg : Type} `{ClientRegistry Rg} `{Store St} `{DeviceStore Dv} `{Logger Lg}.
Context (s : service).
Local Abbreviation W := (World Rg St Dv Lg).

(** The loop of [newUserCode]: bytes at or above [userCodeMax] are redrawn, so
    it has no bound; [fuel] bounds the draws. *)
Fixpoint userCode_loop (fuel : nat) (raw : string) : go W string :=
  match fuel with
  | 0 => diverge
  | S fuel =>
      if len raw <? userCodeLen then
        buf ← try (draw 1);
        match buf with
        | Err err => throw (Wrap ("oauth: random: " +:+ Error err) err)
        | Ok buf =>
            let b := match buf with String b _ => b | EmptyString => "000"%char end in
            if (userCodeMax <=? code b)%N then userCode_loop fuel raw
            else userCode_loop fuel (raw +:+ String (userCodeChar b) EmptyString)
        end
      else mret raw
  end.

(** [newUserCode]. *)
Definition newUserCode (fuel : nat) : go W string :=
  raw ← userCode_loop fuel EmptyString;
  mret (String.substring 0 (userCodeLen / 2) raw +:+ String dash
          (String.substring (userCodeLen / 2) (len raw - userCodeLen / 2) raw)).

(** [service.freeUserCode] from an attempt on. *)
Fixpoint freeUserCode (fuel attempts : nat) : go W string :=
  match attempts with
  | 0 => throw (New "oauth: could not allocate a unique user code")
  | S attempts =>
      code ← newUserCode fuel;
      r ← try (ask_devices (dev_GetDeviceByUserCode code));
      match r with
      | Ok _ => freeUserCode fuel attempts
      | Err err =>
          if errors_Is err ErrUserCodeConflict then freeUserCode fuel attempts
          else if errors_Is err ErrDeviceNotFound then mret code
          else throw err
      end
  end.

(** [service.saveDeviceAuthorization] from an attempt on. *)
Fixpoint saveDeviceAuthorization (fuel attempts : nat) (deviceCode : string)
    (base : DeviceAuthorizationRecord) : go W string :=
  match attempts with
  | 0 => throw (New "oauth: could not allocate a unique user code")
  | S attempts =>
      userCode ← freeUserCode fuel 8;
      r ← try (on_devices (dev_SaveDevice deviceCode (with_user_code userCode base)));
      match r with
      | Ok _ => mret userCode
      | Err err =>
          if errors_Is err ErrUserCodeConflict
          then saveDeviceAuthorization fuel attempts deviceCode base
          else throw err
      end
  end.

(** [service.describeScopes] and [service.describeAuthenticatedScopes]. *)
Definition describeScopes (clientID : string) (scopes : list Scope) : go W (Client * list Descriptor) :=
  c ← client s clientID EmptyString false;
  lift_result (resolveScopes s c scopes).
Definition describeAuthenticatedScopes (clientID clientSecret : string) (scopes : list Scope)
    : go W (Client * list Descriptor) :=
  c ← client s clientID clientSecret true;
  lift_result (resolveScopes s c scopes).

(** [service.BeginDeviceAuthorization]. *)
Definition BeginDeviceAuthorization (fuel : nat) (req : DeviceAuthorizationRequest)
    : go W DeviceAuthorizationResponse :=
  if length (dq_Scopes req) =? 0
  then throw (protocolError "invalid_scope" "scope is required")
  else
    cd ← describeAuthenticatedScopes (dq_ClientID req) (dq_ClientSecret req) (dq_Scopes req);
    deviceCode ← newToken;
    t ← now;
    userCode ← saveDeviceAuthorization fuel 8 deviceCode
                 (mkDevice EmptyString EmptyString (cl_ID cd.1) (dq_Scopes req) DevicePending
                    EmptyString [] (t + sv_deviceTTL s) 0);
    record "oauth.device.begin" EmptyString (cl_ID cd.1) OutcomeOK;;
    let verify := trim_right (λ c, bool_decide (c = slash)) (sv_issuer s) +:+ sv_verifyPath s in
    mret (mkDeviceResp deviceCode userCode verify
            (verify +:+ "?user_code=" +:+ url_QueryEscape userCode)
            (Z.quot (sv_deviceTTL s) time_Second) (pollSeconds s)).

(** [service.PollDeviceAuthorization]. *)
Definition PollDeviceAuthorization (req : DeviceCodeExchangeRequest) : go W TokenResponse :=
  c ← client s (dx_ClientID req) (dx_ClientSecret req) true;
  r ← try (ask_devices (dev_GetDevice (dx_DeviceCode req)));
  match r with
  | Err err =>
      if errors_Is err ErrDeviceNotFound
      then throw (protocolError "invalid_grant" "device code is unknown")
      else throw err
  | Ok rec =>
      if negb (bool_decide (dr_ClientID rec = cl_ID c))
      then throw (protocolError "invalid_grant" "device code was issued to another client") else
      t ← now;
      if negb (time_Before t (dr_ExpiresAt rec))
      then throw (protocolError "expired_token" "the device code has expired") else
      match dr_Status rec with
      | DeviceDenied => throw (protocolError "access_denied" "the user denied the request")
      | DevicePending =>
          if negb (time_IsZero (dr_LastPoll rec)) &&
             time_Before t (dr_LastPoll rec + sv_pollInterval s)
          then throw (protocolError "slow_down" "polling faster than the advertised interval")
          else
            on_devices (dev_RecordPoll (dr_DeviceCodeHash rec) t);;
            throw (protocolError "authorization_pending" "the user has not decided yet")
      | DeviceApproved =>
          epoch ← grantEpoch (dr_Subject rec) (cl_ID c);
          consumed ← on_devices (dev_ConsumeDevice (dr_DeviceCodeHash rec));
          match consumed with
          | None => throw (protocolError "invalid_grant" "device code has already been redeemed")
          | Some d => issueGuarded s (cl_ID c) (dr_Subject d) (dr_Scopes d) EmptyString epoch
          end
      end
  end.

(** [service.DescribeDeviceAuthorization]. *)
Definition DescribeDeviceAuthorization (userCode : string) : go W DeviceAuthorization :=
  r ← try (ask_devices (dev_GetDeviceByUserCode userCode));
  match r with
  | Err err => if errors_Is err ErrDeviceNotFound then throw ErrDeviceNotFound else throw err
  | Ok rec =>
      t ← now;
      if negb (time_Before t (dr_ExpiresAt rec)) then throw ErrDeviceNotFound else
      if negb (bool_decide (dr_Status rec = DevicePending)) then throw ErrDeviceNotFound else
      cd ← describeScopes (dr_ClientID rec) (dr_Scopes rec);
      mret (mkDeviceAuth (dr_UserCode rec) cd.1 cd.2 (dr_ExpiresAt rec))
  end.

(** The write of a decision at the end of [DecideDeviceAuthorization]. *)
Definition apply_decision (rec : DeviceAuthorizationRecord) (dec : DeviceDecision)
    (action subject outcome : string) : go W unit :=
  applied ← on_devices (dev_RecordDecision (dr_DeviceCodeHash rec) dec);
  if negb applied
  then throw (protocolError "invalid_request" "the request has already been decided")
  else record action subject (dr_ClientID rec) outcome.

(** The scopes an approval grants: the requested ones, or a narrower set; a nil
    slice is [None]. *)
Definition granted_scopes (requested : list Scope) (scopes : option (list Scope))
    : result (list Scope) :=
  match scopes with
  | None => Ok requested
  | Some scopes =>
      if length scopes =? 0
      then Err (protocolError "invalid_request"
             "an approval must grant at least one scope; omit scopes to grant the requested set")
      else if forallb (slices_Contains requested) scopes then Ok scopes
      else Err (protocolError "invalid_scope" "the decision cannot widen the requested scope")
  end.

(** [service.DecideDeviceAuthorization]. *)
Definition DecideDeviceAuthorization (userCode subject : string) (approve : bool)
    (scopes : option (list Scope)) (explicit : list Scope) : go W unit :=
  if bool_decide (subject = EmptyString)
  then throw (protocolError "access_denied" "user is not authenticated")
  else
    r ← try (ask_devices (dev_GetDeviceByUserCode userCode));
    match r with
    | Err err => if errors_Is err ErrDeviceNotFound then throw ErrDeviceNotFound else throw err
    | Ok rec =>
        t ← now;
        if negb (time_Before t (dr_ExpiresAt rec)) then throw ErrDeviceNotFound else
        if negb (bool_decide (dr_Status rec = DevicePending))
        then throw (protocolError "invalid_request" "the request has already been decided") else
        if negb approve
        then apply_decision rec (mkDecision DeviceDenied EmptyString [] [])
               "oauth.device.deny" subject OutcomeDenied
        else
          granted ← lift_result (granted_scopes (dr_Scopes rec) scopes);
          cd ← describeScopes (dr_ClientID rec) granted;
          match checkExplicit cd.2 explicit with
          | Some err => throw err
          | None => apply_decision rec (mkDecision DeviceApproved subject granted explicit)
                      "oauth.device.approve" subject OutcomeOK
          end
    end.
End device_handlers.

(** ** Construction ([NewService]) over the in-memory components *)

Record Config := mkConfig {
  cfg_Issuer : string;
  cfg_Scopes : option Registry;
  cfg_AccessTokenTTL : Z;
  cfg_RefreshTokenTTL : Z;
  cfg_CodeTTL : Z;
  cfg_Devices : option MemoryDeviceStore;
  cfg_DeviceCodeTTL : Z;
  cfg_DevicePollInterval : Z;
  cfg_VerificationPath : string;
}.

Definition defaultAccessTokenTTL : Z := time_Hour.
Definition defaultRefreshTokenTTL : Z := 30 * 24 * time_Hour.
Definition defaultCodeTTL : Z := 5 * time_Minute.
Definition defaultDeviceCodeTTL : Z := 10 * time_Minute.
Definition defaultDevicePollInterval : Z := 5 * time_Second.
Definition defaultVerificationPath : string := "/device".

(** [if d <= 0 { d = def }]. *)
Definition or_default (d def : Z) : Z := if (d <=? 0)%Z then def else d.

Abbreviation memory_world := (World MemoryClientRegistry MemoryStore MemoryDeviceStore MemoryLogger)
  (only parsing).

(** [NewService] with the in-memory registry, store and logger, nil ones being
    [None]. It injects the clock into the store and wires the registry to it.
    [t] is the clock at start, [dummy] the package's [dummyClientSecretHash]. *)
Definition NewService (t : Z) (dummy : string) (clients : option MemoryClientRegistry)
    (tokens : option MemoryStore) (lg : option MemoryLogger) (cfg : Config)
    : result (service * memory_world) :=
  match clients, tokens, lg, cfg_Scopes cfg with
  | None, _, _, _ => Err (New "oauth: ClientRegistry is required")
  | Some _, None, _, _ => Err (New "oauth: token Store is required")
  | Some _, Some _, None, _ => Err (New "oauth: audit.Logger is required")
  | Some reg, Some st, Some lg, scopes =>
      if bool_decide (cfg_Issuer cfg = EmptyString)
      then Err (New "oauth: Config.Issuer is required")
      else match scopes with
           | None => Err (New "oauth: Config.Scopes registry is required")
           | Some scopes =>
               Ok (mkService scopes (cfg_Issuer cfg)
                     (or_default (cfg_AccessTokenTTL cfg) defaultAccessTokenTTL)
                     (or_default (cfg_RefreshTokenTTL cfg) defaultRefreshTokenTTL)
                     (or_default (cfg_CodeTTL cfg) defaultCodeTTL)
                     (or_default (cfg_DeviceCodeTTL cfg) defaultDeviceCodeTTL)
                     (or_default (cfg_DevicePollInterval cfg) defaultDevicePollInterval)
                     (if bool_decide (cfg_VerificationPath cfg = EmptyString)
                      then defaultVerificationPath else cfg_VerificationPath cfg)
                     dummy,
                   mkWorld (SetTokenRevoker reg)
                     (mkStore (codes st) (access st) (refresh st) (tombstones st) true)
                     (default NewMemoryDeviceStore (cfg_Devices cfg)) lg t ∅ ∅ 0 ∅ 0)
           end
  end.
