(* ===== verification/ServiceRun.v ===== *)
(** * Running the service alone

    What each building block and each handler of [Service] does to the
    in-memory world when no other request interleaves: the equations the
    properties of the service are proved from. *)

From S2P Require Import Prelude GoStd Scope Proc Tokens Client AuditLog Device Service.

(** The token the n-th read of the generator yields. *)
Definition token_at `{Entropy} (n : nat) : string :=
  match rand_read n 32 with Some b => RawURL_EncodeToString b | None => EmptyString end.

Section blocks.
Context `{Platform} `{Entropy}.
Context {Rg St Dv Lg : Type} `{ClientRegistry Rg} `{Store St} `{DeviceStore Dv} `{Logger Lg}.
Local Abbreviation W := (World Rg St Dv Lg).
Implicit Types w : W.

(** The world after an audit event. *)
Definition logged (action subject clientID outcome : string) w : W :=
  set_logger
    (log_Record (clock w)
       (mkEvent 0 action subject "oauth" outcome {[ "client_id" := clientID ]}) (logger w)).1 w.

Lemma run_record a sub c o w : run (record a sub c o) w = Some (logged a sub c o w, Ok tt).
Proof. done. Qed.

Lemma run_on_tokens {A} (f : St → St * result A) w :
  run (on_tokens f) w = Some (set_tokens (f (tokens w)).1 w, (f (tokens w)).2).
Proof. unfold on_tokens. rewrite run_call. by destruct (f (tokens w)). Qed.
Lemma run_on_tokens_at {A} (f : Z → St → St * result A) w :
  run (on_tokens_at f) w = Some (set_tokens (f (clock w) (tokens w)).1 w, (f (clock w) (tokens w)).2).
Proof. unfold on_tokens_at. rewrite run_call. by destruct (f (clock w) (tokens w)). Qed.
Lemma run_ask_tokens {A} (f : St → result A) w : run (ask_tokens f) w = Some (w, f (tokens w)).
Proof. done. Qed.
Lemma run_ask_tokens_at {A} (f : Z → St → result A) w :
  run (ask_tokens_at f) w = Some (w, f (clock w) (tokens w)).
Proof. done. Qed.
Lemma run_on_devices {A} (f : Dv → Dv * result A) w :
  run (on_devices f) w = Some (set_devices (f (devices w)).1 w, (f (devices w)).2).
Proof. unfold on_devices. rewrite run_call. by destruct (f (devices w)). Qed.
Lemma run_ask_devices {A} (f : Dv → result A) w : run (ask_devices f) w = Some (w, f (devices w)).
Proof. done. Qed.
Lemma run_ask_clients {A} (f : Rg → A) w : run (ask_clients f) w = Some (w, Ok (f (clients w))).
Proof. done. Qed.
Lemma run_now w : run now w = Some (w, Ok (clock w)).
Proof. done. Qed.
Lemma run_grantEpoch sub c w : run (grantEpoch sub c) w = Some (w, Ok (epoch_of w sub c)).
Proof. done. Qed.
Lemma run_bumpGrantEpoch sub c w :
  run (bumpGrantEpoch sub c) w =
    Some (set_epochs (<[grantEpochKey sub c := wrapu64 (epoch_of w sub c + 1)]> (grantEpochs w)) w, Ok tt).
Proof. done. Qed.

Lemma run_newToken `{!EntropyOk} w :
  run newToken w = Some (set_entropy (S (entropy w)) w, Ok (token_at (entropy w))).
Proof.
  unfold newToken, token_at, draw. rewrite run_bind, run_try, run_call.
  by destruct (rand_read_ok (entropy w) 32) as (b & -> & _).
Qed.
End blocks.

#[export] Hint Rewrite @run_record @run_on_tokens @run_on_tokens_at @run_ask_tokens
  @run_ask_tokens_at @run_on_devices @run_ask_devices @run_ask_clients @run_now @run_grantEpoch
  @run_bumpGrantEpoch : run.
#[export] Hint Rewrite @run_newToken using typeclasses eauto : run.

(** Projections of an updated world. *)
Ltac world_simpl :=
  cbn [set_tokens set_devices set_logger set_locks set_epochs set_entropy at_time logged
       clients tokens devices logger clock refreshLocks lockHeap nextLock grantEpochs entropy
       fst snd epoch_of] in *.

(** ** The in-memory service *)

Section memory.
Context `{Platform} `{Entropy}.
Context (s : service).
Implicit Types w : memory_world.

Definition invalid_client : error := protocolError "invalid_client" "invalid client credentials".

(** What [client] answers. *)
Definition client_result (reg : MemoryClientRegistry) (id secret : string) (auth : bool) : result Client :=
  match Get id reg with
  | Err _ => Err invalid_client
  | Ok c => if auth && bool_decide (cl_Type c = ClientConfidential) && negb (Authenticate c secret)
            then Err invalid_client else Ok c
  end.

Lemma run_client id secret auth w :
  run (client s id secret auth) w = Some (w, client_result (clients w) id secret auth).
Proof.
  unfold client, client_result. rewrite run_bind, run_ask_clients.
  change (reg_Get id (clients w)) with (Get id (clients w)). unfold Get.
  repeat case_match; simplify_eq; try done; by rewrite ?run_throw, ?run_ret.
Qed.

Lemma client_result_Get reg id secret auth c :
  client_result reg id secret auth = Ok c → Get id reg = Ok c.
Proof. unfold client_result. intros. by go_cases. Qed.

(** The store after [issue] minted the pair of reads [n] and [S n] into a
    family. *)
Definition issued (t : Z) (n : nat) (clientID subject : string) (scopes : list Scope)
    (family : string) (st : MemoryStore) : MemoryStore :=
  set_refresh
    (<[TokenHash (token_at (S n)) := mkRefresh clientID subject scopes family t (t + sv_rtTTL s)]>
       (refresh st))
    (set_access
       (<[TokenHash (token_at n) := mkAccess clientID subject scopes family t (t + sv_atTTL s)]>
          (access st)) st).

(** The family [issue] mints into, and how many reads it took. *)
Definition issue_family (n : nat) (familyID : string) : string :=
  if bool_decide (familyID = EmptyString) then token_at (S (S n)) else familyID.
Definition issue_reads (familyID : string) : nat :=
  if bool_decide (familyID = EmptyString) then 3 else 2.

Definition issue_response (n : nat) (scopes : list Scope) : TokenResponse :=
  mkTokens (token_at n) "Bearer" (Z.quot (sv_atTTL s) time_Second) (token_at (S n)) (joinScopes scopes).

Definition issue_world (clientID subject : string) (scopes : list Scope) (familyID : string) w
    : memory_world :=
  let n := entropy w in
  logged "oauth.token" subject clientID OutcomeOK
    (set_tokens (issued (clock w) n clientID subject scopes (issue_family n familyID) (tokens w))
       (set_entropy (issue_reads familyID + n) w)).

Lemma run_issue `{!EntropyOk} clientID subject scopes familyID w :
  run (issue s clientID subject scopes familyID) w =
    Some (issue_world clientID subject scopes familyID w, Ok (issue_response (entropy w) scopes)).
Proof.
  unfold issue, issue_world, issue_family, issue_reads. run_simpl.
  case_bool_decide; run_simpl; world_simpl; simpl; unfold MemoryStore_SaveRefresh, MemoryStore_SaveAccess;
    simpl; run_simpl; unfold issued; by rewrite ?clone_access_id, ?clone_refresh_id.
Qed.

(** With no revocation since the capture the guard lets the pair through. *)
Lemma run_issueGuarded `{!EntropyOk} clientID subject scopes familyID epoch w :
  epoch = epoch_of w subject clientID →
  run (issueGuarded s clientID subject scopes familyID epoch) w =
    Some (issue_world clientID subject scopes familyID w, Ok (issue_response (entropy w) scopes)).
Proof.
  intros ->. unfold issueGuarded. rewrite run_bind, run_issue, run_bind, run_grantEpoch.
  replace (epoch_of (issue_world _ _ _ _ _) subject clientID) with (epoch_of w subject clientID)
    by done.
  by rewrite Z.eqb_refl.
Qed.

Definition unknown_code : error :=
  protocolError "invalid_grant" "authorization code is unknown or already used".

(** [Exchange], branch by branch. *)
Lemma run_Exchange `{!EntropyOk} req w :
  run (Exchange s req) w = Some
    match client_result (clients w) (xr_ClientID req) (xr_ClientSecret req) true with
    | Err e => (w, Err e)
    | Ok c =>
        match codes (tokens w) !! TokenHash (xr_Code req) with
        | None => (w, Err unknown_code)
        | Some code =>
            match checkCodeBinding (clock w) c code req with
            | Some e => (logged "oauth.exchange_failed" (ac_Subject code) (cl_ID c) OutcomeDenied w, Err e)
            | None =>
                (issue_world (cl_ID c) (ac_Subject code) (ac_Scopes code) EmptyString
                   (set_tokens (set_codes (delete (TokenHash (xr_Code req)) (codes (tokens w)))
                                  (tokens w)) w),
                 Ok (issue_response (entropy w) (ac_Scopes code)))
            end
        end
    end.
Proof.
  unfold Exchange. rewrite run_bind, run_client.
  destruct (client_result _ _ _ _) as [c|]; [|done]. run_simpl.
  unfold store_GetCode, memory_store, MemoryStore_GetCode.
  destruct (codes (tokens w) !! _) as [code|] eqn:E; [|done]. rewrite clone_code_id. run_simpl.
  destruct (checkCodeBinding _ _ _ _) eqn:Eb; [by run_simpl|]. run_simpl.
  unfold store_ConsumeCode, MemoryStore_ConsumeCode. rewrite E. cbn [fst snd]. rewrite clone_code_id.
  run_simpl. world_simpl. rewrite Eb. by rewrite run_issueGuarded.
Qed.

Definition unknown_refresh : error :=
  protocolError "invalid_grant" "refresh token is unknown or already used".
Definition foreign_refresh : error :=
  protocolError "invalid_grant" "refresh token was issued to another client".

(** The world after the claim of a refresh value. *)
Definition claimed (v : string) w : memory_world :=
  set_tokens (MemoryStore_ConsumeRefresh (clock w) v (tokens w)).1 w.

(** What the part of [Refresh] under the lock does. *)
Definition refresh_outcome (c : Client) (req : RefreshRequest) w : memory_world * result TokenResponse :=
  match status (clock w) (tokens w) (rr_RefreshToken req) with
  | Unknown => (w, Err unknown_refresh)
  | Spent f =>
      (logged "oauth.reuse_detected" EmptyString (cl_ID c) OutcomeDenied
         (set_tokens (MemoryStore_RevokeRefreshFamily f (tokens w)).1 w), Err unknown_refresh)
  | Live t =>
      let w1 := claimed (rr_RefreshToken req) w in
      if expired (clock w) (rt_ExpiresAt t)
      then (w1, Err (protocolError "invalid_grant" "refresh token has expired"))
      else if negb (bool_decide (rt_ClientID t = cl_ID c)) then (w1, Err foreign_refresh)
      else if forallb (slices_Contains (rt_Scopes t)) (rr_Scopes req)
      then let scopes := if 0 <? length (rr_Scopes req) then rr_Scopes req else rt_Scopes t in
           (issue_world (cl_ID c) (rt_Subject t) scopes (rt_FamilyID t) w1,
            Ok (issue_response (entropy w) scopes))
      else (w1, Err (protocolError "invalid_scope" "refresh cannot widen the granted scope"))
  end.

Lemma ConsumeRefresh_status now v st :
  (MemoryStore_ConsumeRefresh now v st).2 =
    match status now st v with
    | Live t => Ok t
    | Spent f => Err (Reuse f)
    | Unknown => Err ErrTokenNotFound
    end ∧
  ((∀ t, status now st v ≠ Live t) → (MemoryStore_ConsumeRefresh now v st).1 = st).
Proof.
  unfold status, MemoryStore_ConsumeRefresh, tomb_lapsed.
  repeat case_match; simpl; rewrite ?clone_refresh_id; split; try done. naive_solver.
Qed.

Lemma RevokeRefreshFamily_Ok f st : ∃ n, (MemoryStore_RevokeRefreshFamily f st).2 = Ok n.
Proof. unfold MemoryStore_RevokeRefreshFamily. case_bool_decide; eauto. Qed.

Lemma run_refresh_locked `{!EntropyOk} c req epoch w :
  (∀ t, status (clock w) (tokens w) (rr_RefreshToken req) = Live t →
        epoch = epoch_of w (rt_Subject t) (cl_ID c)) →
  run (refresh_locked s c req epoch) w = Some (refresh_outcome c req w).
Proof.
  intros Hep. unfold refresh_locked, refresh_outcome. run_simpl.
  change (store_ConsumeRefresh (clock w) (rr_RefreshToken req) (tokens w))
    with (MemoryStore_ConsumeRefresh (clock w) (rr_RefreshToken req) (tokens w)).
  destruct (ConsumeRefresh_status (clock w) (rr_RefreshToken req) (tokens w)) as [-> Hst].
  destruct (status _ _ _) as [t|f|] eqn:E; cbn [errors_As_reuse errors_Is].
  - run_simpl. change (clock (set_tokens _ w)) with (clock w). unfold expired.
    destruct (negb (time_Before _ _)); [done|].
    case_bool_decide; [|done]. cbn [negb].
    destruct (forallb _ _); [|done]. rewrite run_issueGuarded; [done|]. by rewrite (Hep t).
  - rewrite Hst by done. run_simpl.
    change (store_RevokeRefreshFamily f (tokens (set_tokens (tokens w) w)))
      with (MemoryStore_RevokeRefreshFamily f (tokens w)).
    destruct (RevokeRefreshFamily_Ok f (tokens w)) as [n ->]. by run_simpl.
  - rewrite Hst by done. run_simpl. by destruct w.
Qed.

(** Whose token a value is, as [TokenOwner] tells. *)
Definition live_owner (st : MemoryStore) (v : string) : option string :=
  match access st !! TokenHash v with
  | Some t => Some (at_ClientID t)
  | None => rt_ClientID <$> refresh st !! TokenHash v
  end.

(** A pass through the lock of a family nobody else uses leaves its retired
    lock on the heap and the table empty. *)
Definition passed_lock w : memory_world :=
  set_locks ∅ (<[nextLock w := mkLock false 0]> (lockHeap w)) (S (nextLock w)) w.

Lemma passed_lock_outcome key c req w :
  refreshLocks w = ∅ →
  let l := nextLock w in
  let w1 := set_locks {[ key := l ]} (<[l := mkLock true 1]> (lockHeap w)) (S l) w in
  leave_lock key l (drop_mutex l (refresh_outcome c req w1).1) =
    passed_lock (refresh_outcome c req w).1 ∧
  (refresh_outcome c req w1).2 = (refresh_outcome c req w).2.
Proof.
  intros Hl l w1. unfold refresh_outcome.
  change (status (clock w1) (tokens w1)) with (status (clock w) (tokens w)).
  change (clock w1) with (clock w).
  assert (Hrel : ∀ v : memory_world, refreshLocks v = {[ key := l ]} →
    lockHeap v = <[l := mkLock true 1]> (lockHeap w) → nextLock v = S l →
    leave_lock key l (drop_mutex l v) =
      set_locks ∅ (<[l := mkLock false 0]> (lockHeap w)) (S l) v).
  { intros v Hr Hh Hn. unfold drop_mutex. rewrite Hh, lookup_insert_eq. unfold leave_lock.
    world_simpl. rewrite lookup_insert_eq. cbn [lk_refs lk_held].
    rewrite Hr, delete_singleton_eq, !insert_insert_eq. by rewrite Hn. }
  repeat case_match; (split; [|done]); cbn [fst]; rewrite Hrel by done; done.
Qed.

(** The key [refreshFamilyKey] picks. *)
Definition family_key (t : Z) (st : MemoryStore) (v : string) : string :=
  match MemoryStore_RefreshFamily t v st with
  | Ok f => if bool_decide (f = EmptyString) then "refresh:value:" +:+ TokenHash v
            else "refresh:family:" +:+ f
  | Err _ => "refresh:value:" +:+ TokenHash v
  end.

Lemma run_refreshFamilyKey v w :
  run (refreshFamilyKey v) w = Some (w, Ok (family_key (clock w) (tokens w) v)).
Proof.
  unfold refreshFamilyKey, family_key. simpl. run_simpl. unfold MemoryStore_RefreshFamily.
  repeat case_match; simplify_eq; try done; by run_simpl.
Qed.

Lemma run_lockRefreshFamily key w :
  refreshLocks w = ∅ →
  run (lockRefreshFamily key) w =
    Some (set_locks {[ key := nextLock w ]} (<[nextLock w := mkLock true 1]> (lockHeap w))
            (S (nextLock w)) w, Ok (nextLock w)).
Proof.
  intros Hl. unfold lockRefreshFamily. run_simpl. unfold find_lock. rewrite Hl, lookup_empty.
  cbn [fst snd]. unfold take_mutex. world_simpl. rewrite lookup_insert_eq. run_simpl.
  by rewrite insert_insert_eq, insert_empty.
Qed.

Lemma TokenOwner_live v st :
  MemoryStore_TokenOwner v st =
    match live_owner st v with Some o => Ok o | None => Err ErrTokenNotFound end.
Proof. unfold MemoryStore_TokenOwner, live_owner. repeat case_match; simplify_option_eq; done. Qed.

(** The claim and what follows it, in and out of the lock. *)
Lemma run_refresh_critical `{!EntropyOk} c req epoch w :
  refreshLocks w = ∅ →
  (∀ t, status (clock w) (tokens w) (rr_RefreshToken req) = Live t →
        epoch = epoch_of w (rt_Subject t) (cl_ID c)) →
  run (key ← refreshFamilyKey (rr_RefreshToken req);
       l ← lockRefreshFamily key;
       r ← try (refresh_locked s c req epoch);
       unlockRefreshFamily key l;; lift_result r) w =
  Some (passed_lock (refresh_outcome c req w).1, (refresh_outcome c req w).2).
Proof.
  intros Hl Hep. rewrite run_bind, run_refreshFamilyKey.
  set (key := family_key _ _ _). rewrite run_bind, run_lockRefreshFamily by done.
  rewrite run_bind, run_try, run_refresh_locked by done. unfold unlockRefreshFamily.
  destruct (passed_lock_outcome key c req w Hl) as [Ho1 Ho2]. cbv zeta in Ho1, Ho2.
  destruct (refresh_outcome c req (set_locks _ _ _ _)) as [w' r'].
  cbn [fst snd] in *. run_simpl. by rewrite Ho1, Ho2.
Qed.

(** [Refresh], branch by branch, with no other request in the lock table. *)
Lemma run_Refresh `{!EntropyOk} req w :
  refreshLocks w = ∅ →
  run (Refresh s req) w = Some
    match client_result (clients w) (rr_ClientID req) (rr_ClientSecret req) true with
    | Err e => (w, Err e)
    | Ok c =>
        if match live_owner (tokens w) (rr_RefreshToken req) with
           | Some o => negb (bool_decide (o = cl_ID c))
           | None => false
           end
        then (w, Err foreign_refresh)
        else (passed_lock (refresh_outcome c req w).1, (refresh_outcome c req w).2)
    end.
Proof.
  intros Hl. unfold Refresh. rewrite run_bind, run_client.
  destruct (client_result _ _ _ _) as [c|]; [|done]. rewrite run_bind, run_try, run_ask_tokens.
  change (store_TokenOwner (rr_RefreshToken req) (tokens w))
    with (MemoryStore_TokenOwner (rr_RefreshToken req) (tokens w)).
  rewrite TokenOwner_live. rewrite run_bind.
  assert (Hheld : ∀ r, store_GetRefresh (rr_RefreshToken req) (tokens w) = r →
     run (match r with
          | Ok held => grantEpoch (rt_Subject held) (cl_ID c)
          | Err _ => mret 0%Z
          end : go memory_world Z) w =
     Some (w, Ok (match refresh (tokens w) !! TokenHash (rr_RefreshToken req) with
            | Some t => epoch_of w (rt_Subject t) (cl_ID c) | None => 0%Z end))).
  { intros r <-. simpl. unfold MemoryStore_GetRefresh. by destruct (refresh (tokens w) !! _). }
  destruct (live_owner _ _) as [o|]; [case_bool_decide|]; cbn [negb errors_Is]; try done.
  all: rewrite run_guard, run_bind, run_try, run_ask_tokens, run_bind, (Hheld _ eq_refl);
    apply run_refresh_critical; [done|]; intros t; unfold status;
    destruct (refresh (tokens w) !! _); [by intros [= ->]|by repeat case_match].
Qed.

(** Whose value it is for revocation: a live token's owner, or a spent refresh
    token's while its tombstone stands. *)
Definition revocable (t : Z) (st : MemoryStore) (v : string) : option string :=
  match live_owner st v with
  | Some o => Some o
  | None => match tombstones st !! TokenHash v with
            | Some tomb => if tomb_lapsed t st tomb then None else Some (tb_ClientID tomb)
            | None => None
            end
  end.

(** The store without a value, of whatever kind. *)
Definition forget (v : string) (st : MemoryStore) : MemoryStore :=
  (MemoryStore_DeleteRefresh v (MemoryStore_DeleteAccess v st).1).1.

Lemma run_revocableOwner v w :
  run (revocableOwner v) w =
    Some (w, match revocable (clock w) (tokens w) v with
             | Some o => Ok o
             | None => Err ErrTokenNotFound
             end).
Proof.
  unfold revocableOwner, revocable. run_simpl.
  change (store_TokenOwner v (tokens w)) with (MemoryStore_TokenOwner v (tokens w)).
  rewrite TokenOwner_live. destruct (live_owner _ _); [by run_simpl|]. simpl. run_simpl.
  unfold MemoryStore_SpentRefreshOwner. by repeat case_match.
Qed.

Lemma run_Revoke req w :
  run (Revoke s req) w = Some
    match client_result (clients w) (vr_ClientID req) (vr_ClientSecret req) true with
    | Err e => (w, Err e)
    | Ok c =>
        match revocable (clock w) (tokens w) (vr_Token req) with
        | None => (w, Ok tt)
        | Some o =>
            if bool_decide (o = cl_ID c)
            then (logged "oauth.revoke" EmptyString (cl_ID c) OutcomeOK
                    (set_tokens (forget (vr_Token req) (tokens w)) w), Ok tt)
            else (w, Ok tt)
        end
    end.
Proof.
  unfold Revoke. rewrite run_bind, run_client. destruct (client_result _ _ _ _) as [c|]; [|done].
  rewrite run_bind, run_try, run_revocableOwner.
  destruct (revocable _ _ _) as [o|]; [|done]. case_bool_decide; [|done]. by run_simpl.
Qed.

Lemma run_Introspect v w :
  run (Introspect v) w = Some (w, Ok
    match access (tokens w) !! TokenHash v with
    | None => inactive
    | Some t =>
        if expired (clock w) (at_ExpiresAt t) then inactive
        else match Get (at_ClientID t) (clients w) with
             | Err _ => inactive
             | Ok _ => mkInfo true (at_Subject t) (at_ClientID t) (at_Scopes t) (at_ExpiresAt t)
             end
    end).
Proof.
  unfold Introspect. run_simpl. unfold store_GetAccess, memory_store, MemoryStore_GetAccess, expired.
  destruct (access (tokens w) !! _) as [t|]; [|done]. rewrite clone_access_id. run_simpl.
  destruct (negb _); [done|]. run_simpl. simpl. unfold Get. repeat case_match; simplify_eq; done.
Qed.

(** The access token of a pair, introspected at any time after it was issued. *)
Lemma issue_introspects id subject scopes family w c t :
  Get id (clients w) = Ok c →
  let w' := at_time t (issue_world id subject scopes family w) in
  run (Introspect (token_at (entropy w))) w' = Some (w', Ok
    (if (t <? clock w + sv_atTTL s)%Z then mkInfo true subject id scopes (clock w + sv_atTTL s) else inactive)).
Proof.
  intros Hg w'. rewrite run_Introspect. unfold w', issue_world, issued. world_simpl. simpl.
  rewrite lookup_insert_eq. simpl. rewrite Hg. unfold expired, time_Before. by destruct (t <? _)%Z.
Qed.

Lemma run_RevokeGrant subject clientID w :
  subject ≠ EmptyString → clientID ≠ EmptyString →
  run (RevokeGrant subject clientID) w = Some
    (logged "oauth.grant.revoke" subject clientID OutcomeOK
       (set_tokens (MemoryStore_DeleteBySubjectClient subject clientID (tokens w)).1
          (set_epochs (<[grantEpochKey subject clientID := wrapu64 (epoch_of w subject clientID + 1)]>
                         (grantEpochs w)) w)), Ok tt).
Proof.
  intros Hs Hc. unfold RevokeGrant. rewrite !bool_decide_false by done. cbn [orb]. by run_simpl.
Qed.

(** What [describe] answers. *)
Definition describe_result (reg : MemoryClientRegistry) (req : AuthorizationRequest)
    : result (Client * list Descriptor) :=
  match client_result reg (aq_ClientID req) EmptyString false with
  | Err e => Err e
  | Ok c =>
      if negb (AllowsRedirect c (aq_RedirectURI req))
      then Err (protocolError "invalid_request" "redirect_uri is not registered") else
      if negb (validPKCEChallenge (aq_CodeChallenge req)) ||
         negb (bool_decide (aq_CodeChallengeMethod req = "S256"))
      then Err (protocolError "invalid_request" "PKCE with S256 is required")
      else resolveScopes s c (aq_Scopes req)
  end.

Lemma run_describe req w : run (describe s req) w = Some (w, describe_result (clients w) req).
Proof.
  unfold describe, describe_result. rewrite run_bind, run_client.
  destruct (client_result _ _ _ _); [|done]. repeat case_match; done.
Qed.

(** The code [Authorize] saves. *)
Definition authorized_code (t : Z) (c : Client) (req : AuthorizationRequest) : AuthorizationCode :=
  mkCode (cl_ID c) (aq_Subject req) (aq_Scopes req) (aq_RedirectURI req)
    (aq_CodeChallenge req) (aq_CodeChallengeMethod req) (t + sv_codeTTL s).

Lemma run_Authorize `{!EntropyOk} req w :
  run (Authorize s req) w = Some
    match describe_result (clients w) req with
    | Err e => (w, Err e)
    | Ok (c, ds) =>
        if bool_decide (aq_Subject req = EmptyString)
        then (w, Err (protocolError "access_denied" "user is not authenticated"))
        else match checkExplicit ds (aq_Explicit req) with
             | Some e => (w, Err e)
             | None =>
                 (logged "oauth.authorize" (aq_Subject req) (cl_ID c) OutcomeOK
                    (set_tokens (set_codes (<[TokenHash (token_at (entropy w)) :=
                         authorized_code (clock w) c req]> (codes (tokens w))) (tokens w))
                       (set_entropy (S (entropy w)) w)),
                  Ok (mkAuthResp (token_at (entropy w)) (aq_State req) (aq_RedirectURI req)))
             end
    end.
Proof.
  unfold Authorize. rewrite run_bind, run_describe.
  destruct (describe_result _ _) as [[c ds]|]; [|done]. cbn [fst snd].
  case_bool_decide; [done|]. destruct (checkExplicit _ _); [done|]. run_simpl.
  world_simpl. unfold store_SaveCode, memory_store, MemoryStore_SaveCode. cbn [fst snd].
  rewrite clone_code_id. by run_simpl.
Qed.
End memory.
