(* ===== verification/Demo.v ===== *)
(** * A small running service for closed examples

    One confidential client, one scope catalogue, one grant: the world the
    witnesses of the service's properties evaluate in. *)

From S2P Require Import Prelude GoStd Scope Proc Tokens Client AuditLog Device Service ServiceRun.

#[local] Existing Instance toy_platform.

(** A generator that always answers: the number of the read, padded. *)
Definition demo_entropy : Entropy := λ n k, Some (fill k (pretty n)).

#[local] Existing Instance demo_entropy.

Lemma demo_entropy_ok : @EntropyOk demo_entropy.
Proof. intros n k. eexists. split; [reflexivity|apply fill_length]. Qed.

Definition demo_verifier : string := "a-verifier-of-sufficient-length".
Definition demo_challenge : string := RawURL_EncodeToString (sha256 demo_verifier).

Definition demo_config : Config :=
  mkConfig "https://auth.example/" (Some demo_registry) 0 0 0
    (Some (SaveDevice "dev" demo_request NewMemoryDeviceStore).1) 0 0 EmptyString.

Definition demo_code : AuthorizationCode :=
  mkCode "app" "alice" [ScopeAccountID] "https://app.example/cb" demo_challenge "S256" 500.
Definition demo_live : RefreshToken := mkRefresh "app" "alice" [ScopeAccountID] "fam" 0 500.

(** An unspent code, a live refresh token and the tombstone of a spent one of
    the same family, with its access token. *)
Definition demo_tokens : MemoryStore :=
  mkStore
    {[ TokenHash "code" := demo_code ]}
    {[ TokenHash "acc" := mkAccess "app" "alice" [ScopeAccountID] "fam" 0 500 ]}
    {[ TokenHash "ref" := demo_live ]}
    {[ TokenHash "old" := mkTomb "fam" "app" "alice" 500 ]} false.

Definition demo_started : result (service * memory_world) :=
  NewService 10 EmptyString (Some demo_clients) (Some demo_tokens) (Some NewMemoryLogger) demo_config.

Definition demo_service : service :=
  match demo_started with
  | Ok (s, _) => s
  | Err _ => mkService demo_registry EmptyString 0 0 0 0 0 EmptyString EmptyString
  end.
Definition demo_world : memory_world :=
  match demo_started with
  | Ok (_, w) => w
  | Err _ => mkWorld demo_clients demo_tokens NewMemoryDeviceStore NewMemoryLogger 0 ∅ ∅ 0 ∅ 0
  end.

Definition demo_exchange : CodeExchangeRequest :=
  mkExchange "app" "s3cret" "code" "https://app.example/cb" demo_verifier.
Definition demo_authorize : AuthorizationRequest :=
  mkAuthReq "app" "https://app.example/cb" "bob" [ScopeAccountID] [] "st" demo_challenge "S256".

(** What [Authorize] makes of it. *)
Definition demo_authorized : memory_world * AuthorizationResponse :=
  match run (Authorize demo_service demo_authorize) demo_world with
  | Some (w, Ok r) => (w, r)
  | _ => (demo_world, mkAuthResp EmptyString EmptyString EmptyString)
  end.
