(* ===== verification/ServiceProps.v ===== *)
(** * Properties of the authorization server

    What the OAuth endpoints promise, proved of the handlers of [Service] over
    the in-memory components: which requests are granted, what each one
    changes, and what the error paths leave alone. *)

From S2P Require Import Prelude GoStd Scope Proc Tokens Client AuditLog Device Service ServiceRun Demo.

(** ** Vocabulary *)

Section vocabulary.
Context `{Platform}.

(** The caller named [id] may act: it is registered and not suspended, and a
    confidential client presented its secret. *)
Definition admitted (reg : MemoryClientRegistry) (id secret : string) (c : Client) : Prop :=
  Get id reg = Ok c ∧ (cl_Type c = ClientConfidential → Authenticate c secret = true).

(** The code may be redeemed by this request at [t]. *)
Definition redeemable (t : Z) (c : Client) (code : AuthorizationCode) (req : CodeExchangeRequest) : Prop :=
  (t < ac_ExpiresAt code)%Z ∧ ac_ClientID code = cl_ID c ∧
  ac_RedirectURI code = xr_RedirectURI req ∧
  ac_CodeChallengeMethod code = "S256" ∧ xr_CodeVerifier req ≠ EmptyString ∧
  RawURL_EncodeToString (sha256 (xr_CodeVerifier req)) = ac_CodeChallenge code.

(** Everything but the token store and the bookkeeping of the process. *)
Definition same_surroundings (w w' : memory_world) : Prop :=
  clients w' = clients w ∧ devices w' = devices w ∧ clock w' = clock w ∧
  grantEpochs w' = grantEpochs w ∧ refreshLocks w' = refreshLocks w.
End vocabulary.

(** ** Lemmas *)

Section lemmas.
Context `{Platform}.

Lemma client_result_Ok reg id secret c :
  client_result reg id secret true = Ok c ↔ admitted reg id secret c.
Proof.
  unfold client_result, admitted. destruct (Get id reg) as [c'|]; simpl; [|naive_solver].
  case_bool_decide as Ht; simpl.
  - destruct (Authenticate c' secret) eqn:Ea; simpl; split.
    + by intros [= ->].
    + by intros [[= ->] _].
    + done.
    + intros [[= ->] Hc]. apply Hc in Ht. congruence.
  - split; [intros [= ->]; split; [done|congruence]|naive_solver].
Qed.

Lemma client_result_Err reg id secret auth e :
  client_result reg id secret auth = Err e → e = invalid_client.
Proof. unfold client_result. intros. by go_cases. Qed.

Lemma AllowsRedirect_registered c uri : AllowsRedirect c uri = true → uri ∈ cl_RedirectURIs c.
Proof.
  unfold AllowsRedirect, RegisteredRedirect. rewrite registered_loop_spec.
  destruct (forbiddenRedirectScheme uri); [done|]. destruct (decide (uri ∈ cl_RedirectURIs c)); [done|].
  by rewrite (bool_decide_false (uri ∈ _)).
Qed.

(** The shape of a challenge is the shape of an encoded digest. *)
Lemma validPKCEChallenge_digest `{!PlatformOk} v :
  validPKCEChallenge (RawURL_EncodeToString (sha256 v)) = true.
Proof.
  unfold validPKCEChallenge, RawURL_EncodeToString. rewrite b64_encode_length, sha256_length.
  change (negb ((4 * 32 + 2) / 3 =? 43)) with false. cbv iota.
  apply b64_encode_chars. by apply (N_below_64 (λ n, _ || _ || _ || _ || _)).
Qed.

Lemma verifyPKCE_spec `{!PlatformOk} v challenge m :
  verifyPKCE v challenge m = true ↔
    v ≠ EmptyString ∧ m = "S256" ∧ RawURL_EncodeToString (sha256 v) = challenge.
Proof.
  unfold verifyPKCE. case_bool_decide; simpl; [naive_solver|].
  destruct (validPKCEChallenge challenge) eqn:Ec; simpl.
  - case_bool_decide; simpl; [|naive_solver]. rewrite bool_decide_eq_true. naive_solver.
  - split; [done|]. intros (_ & _ & <-). by rewrite validPKCEChallenge_digest in Ec.
Qed.

Lemma checkCodeBinding_None `{!PlatformOk} t c code req :
  checkCodeBinding t c code req = None ↔ redeemable t c code req.
Proof.
  unfold checkCodeBinding, redeemable, time_Before.
  destruct (Z.ltb_spec t (ac_ExpiresAt code)); simpl; [|naive_solver lia].
  case_bool_decide; simpl; [|naive_solver]. case_bool_decide; simpl; [|naive_solver].
  destruct (verifyPKCE _ _ _) eqn:E; simpl.
  - apply verifyPKCE_spec in E. naive_solver.
  - split; [done|]. intros (_ & _ & _ & Hm & Hv & Hc).
    assert (verifyPKCE (xr_CodeVerifier req) (ac_CodeChallenge code) (ac_CodeChallengeMethod code) = true)
      by (apply verifyPKCE_spec; done).
    congruence.
Qed.
End lemmas.

(** ** Authorization codes *)

Section code_properties.
Context `{Platform} `{Entropy} (s : service).
Implicit Types w : memory_world.

(** PKCE is sound and complete: the exchange accepts a non-empty verifier
    against the challenge derived from it by S256, and against no challenge
    derived otherwise; every such challenge passes the admission check of the
    authorize endpoint, so what was admitted there can be redeemed. *)
Theorem PKCE_exact `{!PlatformOk} v challenge m :
  validPKCEChallenge (RawURL_EncodeToString (sha256 v)) = true ∧
  (verifyPKCE v challenge m = true ↔
     v ≠ EmptyString ∧ m = "S256" ∧ RawURL_EncodeToString (sha256 v) = challenge).
Proof. split; [apply validPKCEChallenge_digest|apply verifyPKCE_spec]. Qed.

(** C6. The code exchange always answers, and grants exactly what it should: it
    issues tokens iff the caller is an admitted client and the presented code
    is stored, unexpired, its own, for the same redirect URI and matched by the
    PKCE verifier. A granted exchange spends the code and stores one access and
    one refresh token with the code's subject and scopes in a new family; a
    refused one leaves the token store untouched, so nobody can burn a code
    they cannot redeem. *)
Theorem Exchange_exact `{!PlatformOk, !EntropyOk} req w :
  ∃ w' r, run (Exchange s req) w = Some (w', r) ∧ same_surroundings w w' ∧
  let eligible c code :=
    admitted (clients w) (xr_ClientID req) (xr_ClientSecret req) c ∧
    codes (tokens w) !! TokenHash (xr_Code req) = Some code ∧ redeemable (clock w) c code req in
  match r with
  | Ok resp =>
      ∃ c code, eligible c code ∧
        tr_AccessToken resp = token_at (entropy w) ∧
        tr_RefreshToken resp = token_at (S (entropy w)) ∧
        tr_Scope resp = joinScopes (ac_Scopes code) ∧
        tokens w' = issued s (clock w) (entropy w) (cl_ID c) (ac_Subject code) (ac_Scopes code)
                      (token_at (S (S (entropy w))))
                      (set_codes (delete (TokenHash (xr_Code req)) (codes (tokens w))) (tokens w))
  | Err e => tokens w' = tokens w ∧ ¬ (∃ c code, eligible c code) ∧
             (e = invalid_client ∨ ∃ d, e = protocolError "invalid_grant" d)
  end.
Proof.
  rewrite (run_Exchange s req w). cbv zeta. destruct (client_result _ _ _ _) as [c|e] eqn:Ec.
  2: { eexists _, _. split; [done|]. split_and!; try done.
       - intros (c & code & Ha & _). apply client_result_Ok in Ha. congruence.
       - left. by eapply client_result_Err. }
  assert (Hc := Ec). apply client_result_Ok in Hc.
  assert (Huniq : ∀ c', admitted (clients w) (xr_ClientID req) (xr_ClientSecret req) c' → c' = c).
  { intros c' Hc'. apply client_result_Ok in Hc'. congruence. }
  destruct (codes (tokens w) !! _) as [code|] eqn:Ek.
  2: { eexists _, _. split; [done|]. split_and!; try done; [naive_solver|right; by eexists]. }
  destruct (checkCodeBinding _ _ _ _) as [e|] eqn:Eb.
  - eexists _, _. split; [done|]. split_and!; try done.
    + intros (c' & code' & ->%Huniq & [= <-] & Hr). apply checkCodeBinding_None in Hr. congruence.
    + right. revert Eb. unfold checkCodeBinding. repeat case_match; naive_solver.
  - apply checkCodeBinding_None in Eb. eexists _, _. split; [done|]. split; [done|].
    exists c, code. done.
Qed.

(** C23. A user who consents gets what was asked for, for as long as it lasts.
    When [Authorize] answers with a code (its redirect URI is a registered one),
    let any time pass with no other request in between. Before the code's
    deadline, its lifetime after the authorization, the client that started the
    request and holds the verifier of its challenge exchanges it for a pair of
    tokens; from the deadline on the exchange is refused. The access token
    introspects, again after any time, as active for exactly that subject, client
    and set of scopes before its own deadline, its lifetime after the exchange,
    and as inactive from then on. *)
Theorem authorize_exchange_introspect `{!PlatformOk, !EntropyOk} req w w1 resp c secret verifier t :
  run (Authorize s req) w = Some (w1, Ok resp) →
  admitted (clients w) (aq_ClientID req) secret c → cl_ID c = aq_ClientID req →
  verifier ≠ EmptyString → aq_CodeChallenge req = RawURL_EncodeToString (sha256 verifier) →
  let exchanged :=
    run (Exchange s (mkExchange (aq_ClientID req) secret (ap_Code resp) (aq_RedirectURI req) verifier)) (at_time t w1) in
  ap_RedirectURI resp ∈ cl_RedirectURIs c ∧
  ((t < clock w + sv_codeTTL s)%Z →
     ∃ w2 toks, exchanged = Some (w2, Ok toks) ∧
     ∀ t', run (Introspect (tr_AccessToken toks)) (at_time t' w2) = Some (at_time t' w2, Ok
       (if (t' <? t + sv_atTTL s)%Z
        then mkInfo true (aq_Subject req) (aq_ClientID req) (aq_Scopes req) (t + sv_atTTL s)
        else inactive))) ∧
  ((clock w + sv_codeTTL s <= t)%Z → ∃ w2 e, exchanged = Some (w2, Err (protocolError "invalid_grant" e))).
Proof.
  intros Ha Hc Hid Hv Hch. rewrite (run_Authorize s req w) in Ha.
  destruct (describe_result _ _ _) as [[c' ds]|] eqn:Ed; [|done].
  case_bool_decide; [done|]. destruct (checkExplicit _ _); [done|]. simplify_eq.
  unfold describe_result in Ed. destruct Hc as [Hg Hauth].
  unfold client_result in Ed. rewrite Hg in Ed. cbn [andb] in Ed.
  destruct (AllowsRedirect c _) eqn:Er; [|done]. cbn [negb] in Ed.
  destruct (negb (validPKCEChallenge _) || _) eqn:Ep; [done|]. bools.
  unfold resolveScopes in Ed. destruct (Resolve _ _ _); [|done].
  destruct (check_allowed _ _); [done|]. simplify_eq. cbv zeta. split; [by apply AllowsRedirect_registered|].
  rewrite (run_Exchange s _ _). world_simpl.
  cbn [xr_ClientID xr_ClientSecret xr_Code ap_Code codes set_codes].
  rewrite (proj2 (client_result_Ok _ _ _ c')) by done. rewrite lookup_insert_eq. split; intros Ht.
  - rewrite (proj2 (checkCodeBinding_None _ _ _ _)).
    2: { unfold redeemable, authorized_code. simpl. split_and!; try done; lia. }
    eexists _, _. split; [done|]. intros t'. rewrite run_Introspect. world_simpl. simpl.
    rewrite lookup_insert_eq. simpl. rewrite Hid, Hg. unfold expired, time_Before. by destruct (t' <? _)%Z.
  - destruct (checkCodeBinding _ _ _ _) as [e|] eqn:Eb.
    + assert (∃ d, e = protocolError "invalid_grant" d) as [d ->]; [|by eexists _, _].
      revert Eb. unfold checkCodeBinding. repeat case_match; naive_solver.
    + apply checkCodeBinding_None in Eb as (Ht' & _). simpl in Ht'. lia.
Qed.
End code_properties.

(** ** Refresh tokens *)

Section refresh_properties.
Context `{Platform} `{Entropy} (s : service).
Implicit Types w : memory_world.

(** The refresh value is a live token the client may rotate at [t], and the
    request does not widen its scopes. *)
Definition rotatable (t : Z) (st : MemoryStore) (c : Client) (req : RefreshRequest)
    (rt : RefreshToken) : Prop :=
  refresh st !! TokenHash (rr_RefreshToken req) = Some rt ∧
  live_owner st (rr_RefreshToken req) = Some (cl_ID c) ∧
  (t < rt_ExpiresAt rt)%Z ∧ rt_ClientID rt = cl_ID c ∧
  (∀ sc, sc ∈ rr_Scopes req → sc ∈ rt_Scopes rt).

(** The scopes of the rotated pair. *)
Definition rotated_scopes (req : RefreshRequest) (rt : RefreshToken) : list Scope :=
  if bool_decide (rr_Scopes req = []) then rt_Scopes rt else rr_Scopes req.

Lemma forallb_contains l scs :
  forallb (slices_Contains l) scs = true ↔ ∀ sc, sc ∈ scs → sc ∈ l.
Proof.
  unfold slices_Contains. rewrite List.forallb_forall. split.
  - intros Hf sc Hsc. apply list_elem_of_In in Hsc. by apply Hf, bool_decide_eq_true_1 in Hsc.
  - intros Hf sc Hsc. apply bool_decide_eq_true_2, Hf. by apply list_elem_of_In.
Qed.

Lemma status_Live t st v rt : status t st v = Live rt ↔ refresh st !! TokenHash v = Some rt.
Proof. unfold status. repeat case_match; naive_solver. Qed.

Lemma rotated_scopes_eq req rt :
  (if 0 <? length (rr_Scopes req) then rr_Scopes req else rt_Scopes rt) = rotated_scopes req rt.
Proof. unfold rotated_scopes. by destruct (rr_Scopes req). Qed.

Lemma refresh_same_surroundings c req w :
  refreshLocks w = ∅ → same_surroundings w (passed_lock (refresh_outcome s c req w).1).
Proof.
  intros Hl. unfold same_surroundings, passed_lock. cbn [refreshLocks set_locks]. rewrite Hl.
  unfold refresh_outcome. by repeat case_match.
Qed.

(** No token of [st'] is new. *)
Definition mints_nothing (st st' : MemoryStore) : Prop :=
  (∀ k t, refresh st' !! k = Some t → refresh st !! k = Some t) ∧
  (∀ k t, access st' !! k = Some t → access st !! k = Some t).

Lemma claimed_live w v rt : refresh (tokens w) !! TokenHash v = Some rt →
  tokens (claimed v w) =
    mkStore (codes (tokens w)) (access (tokens w)) (delete (TokenHash v) (refresh (tokens w)))
      (<[TokenHash v := mkTomb (rt_FamilyID rt) (rt_ClientID rt) (rt_Subject rt) (rt_ExpiresAt rt)]> (tombstones (tokens w)))
      (ms_clock (tokens w)).
Proof. intros Hv. unfold claimed, MemoryStore_ConsumeRefresh. by rewrite Hv. Qed.

Lemma claimed_mints_nothing w v rt : refresh (tokens w) !! TokenHash v = Some rt →
  mints_nothing (tokens w) (tokens (claimed v w)).
Proof. intros Hv. rewrite (claimed_live w v rt Hv). split; simpl; [|done]. intros k t [_ ?]%lookup_delete_Some. done. Qed.

Lemma refused_mints_nothing c req w e :
  (refresh_outcome s c req w).2 = Err e → mints_nothing (tokens w) (tokens (refresh_outcome s c req w).1).
Proof.
  unfold refresh_outcome. destruct (status _ _ _) as [rt|f|] eqn:Es; [|intros _|done].
  - apply status_Live in Es. pose proof (claimed_mints_nothing w _ rt Es). by repeat case_match.
  - simpl. unfold MemoryStore_RevokeRefreshFamily. case_bool_decide; [done|].
    split; intros k t; simpl; rewrite lookup_delete_where; by intros [? _].
Qed.

(** C7. Refreshing, with no other rotation under way and a generator that answers,
    always answers, and rotates exactly when it should: it
    issues tokens iff the caller is an admitted client presenting its own live,
    unexpired refresh token and asking for no scope outside it. A rotation takes
    the presented token out of the live ones and leaves a tombstone with its
    family, owner and deadline in its place, adds one access and one refresh
    token of the same subject and family (a new family where it had none) with the
    requested, never wider, scopes and full lifetimes, and changes no other record
    of the store. A refusal, for whatever reason, adds no token. *)
Theorem Refresh_exact `{!EntropyOk} req w :
  refreshLocks w = ∅ →
  ∃ w' r, run (Refresh s req) w = Some (w', r) ∧ same_surroundings w w' ∧
  let eligible c rt :=
    admitted (clients w) (rr_ClientID req) (rr_ClientSecret req) c ∧
    rotatable (clock w) (tokens w) c req rt in
  match r with
  | Ok resp =>
      ∃ c rt, eligible c rt ∧
        let old := TokenHash (rr_RefreshToken req) in
        let scopes := rotated_scopes req rt in
        let family := issue_family (entropy w) (rt_FamilyID rt) in
        (∀ sc, sc ∈ scopes → sc ∈ rt_Scopes rt) ∧
        tr_Scope resp = joinScopes scopes ∧
        tr_AccessToken resp = token_at (entropy w) ∧
        tr_RefreshToken resp = token_at (S (entropy w)) ∧
        refresh (tokens w') =
          <[TokenHash (tr_RefreshToken resp) :=
              mkRefresh (cl_ID c) (rt_Subject rt) scopes family (clock w) (clock w + sv_rtTTL s)]>
            (delete old (refresh (tokens w))) ∧
        access (tokens w') =
          <[TokenHash (tr_AccessToken resp) :=
              mkAccess (cl_ID c) (rt_Subject rt) scopes family (clock w) (clock w + sv_atTTL s)]>
            (access (tokens w)) ∧
        tombstones (tokens w') =
          <[old := mkTomb (rt_FamilyID rt) (rt_ClientID rt) (rt_Subject rt) (rt_ExpiresAt rt)]> (tombstones (tokens w)) ∧
        codes (tokens w') = codes (tokens w)
  | Err _ => (¬ ∃ c rt, eligible c rt) ∧ mints_nothing (tokens w) (tokens w')
  end.
Proof.
  intros Hl. rewrite (run_Refresh s req w Hl). cbv zeta.
  destruct (client_result _ _ _ _) as [c|e] eqn:Ec.
  2: { eexists _, _. split; [done|]. split; [done|]. split; [|done]. intros (c & rt & Ha & _).
       apply client_result_Ok in Ha. congruence. }
  assert (Hc := Ec). apply client_result_Ok in Hc.
  assert (Huniq : ∀ c', admitted (clients w) (rr_ClientID req) (rr_ClientSecret req) c' → c' = c).
  { intros c' Hc'. apply client_result_Ok in Hc'. congruence. }
  destruct (match live_owner _ _ with Some o => _ | None => _ end) eqn:Eo.
  { eexists _, _. split; [done|]. split; [done|]. split; [|done].
    intros (c' & rt & ->%Huniq & _ & Ho & _). rewrite Ho in Eo. by rewrite bool_decide_true in Eo. }
  eexists _, _. split; [reflexivity|]. split; [by apply refresh_same_surroundings|].
  pose proof (refused_mints_nothing c req w) as Hno.
  change (tokens (passed_lock (refresh_outcome s c req w).1)) with (tokens (refresh_outcome s c req w).1).
  unfold refresh_outcome in *. destruct (status _ _ _) as [rt|f|] eqn:Es.
  2,3: split; [|by eapply Hno]; simpl; intros (c' & rt & _ & Hrt & _); apply (status_Live (clock w)) in Hrt; congruence.
  apply status_Live in Es. destruct (expired _ _) eqn:Ex.
  { split; [|by eapply Hno]. intros (c' & rt' & _ & Hrt & _ & Hexp & _). simplify_eq. apply expired_spec in Ex. lia. }
  case_bool_decide as Hcl; cbn [negb] in *.
  2: { split; [|by eapply Hno]. intros (c' & rt' & ->%Huniq & Hrt & _ & _ & Hcl' & _). by simplify_eq. }
  destruct (forallb _ _) eqn:Ef.
  2: { split; [|by eapply Hno]. intros (c' & rt' & _ & Hrt & _ & _ & _ & Hsc). simplify_eq.
       apply forallb_contains in Hsc. congruence. }
  assert (Hsc := Ef). rewrite forallb_contains in Hsc. apply expired_false in Ex.
  rewrite rotated_scopes_eq. exists c, rt. split.
  - unfold rotatable, live_owner in *. rewrite Es in *. split_and!; try done.
    destruct (access (tokens w) !! _); simpl in *; bools; congruence.
  - cbn -[claimed]. rewrite !(claimed_live w _ rt Es). split_and!; try done.
    unfold rotated_scopes. intros sc. case_bool_decide; auto.
Qed.

(** C22. A replayed refresh token kills its family: when an admitted client
    presents a value that was already spent, the request is refused and every
    access token, refresh token and tombstone of that family is gone, while
    every record of another family and every code is untouched. *)
Theorem Refresh_replay_kills_family `{!EntropyOk} req w c f :
  refreshLocks w = ∅ → f ≠ EmptyString →
  admitted (clients w) (rr_ClientID req) (rr_ClientSecret req) c →
  live_owner (tokens w) (rr_RefreshToken req) = None →
  status (clock w) (tokens w) (rr_RefreshToken req) = Spent f →
  ∃ w', run (Refresh s req) w = Some (w', Err unknown_refresh) ∧ same_surroundings w w' ∧
    (∀ k t, refresh (tokens w') !! k = Some t ↔
       refresh (tokens w) !! k = Some t ∧ rt_FamilyID t ≠ f) ∧
    (∀ k t, access (tokens w') !! k = Some t ↔
       access (tokens w) !! k = Some t ∧ at_FamilyID t ≠ f) ∧
    (∀ k t, tombstones (tokens w') !! k = Some t ↔
       tombstones (tokens w) !! k = Some t ∧ tb_FamilyID t ≠ f) ∧
    codes (tokens w') = codes (tokens w).
Proof.
  intros Hl Hf Hc Ho Hs. rewrite (run_Refresh s req w Hl).
  rewrite (proj2 (client_result_Ok _ _ _ c)) by done. rewrite Ho.
  eexists. split; [unfold refresh_outcome; rewrite Hs; reflexivity|].
  split; [|by apply RevokeRefreshFamily_lookup].
  pose proof (refresh_same_surroundings c req w Hl) as Hss.
  unfold refresh_outcome in Hss. by rewrite Hs in Hss.
Qed.

(** A refused refresh takes nothing from anybody it does not belong to: a
    caller that is not admitted, a live token of another client, and a value
    the server does not know are all refused with the token store unchanged,
    so a client cannot burn a token it merely came by. *)
Theorem Refresh_refusal_harmless `{!EntropyOk} req w :
  refreshLocks w = ∅ →
  (∀ c, admitted (clients w) (rr_ClientID req) (rr_ClientSecret req) c →
     match live_owner (tokens w) (rr_RefreshToken req) with
     | Some o => o ≠ cl_ID c
     | None => status (clock w) (tokens w) (rr_RefreshToken req) = Unknown
     end) →
  ∃ w' e, run (Refresh s req) w = Some (w', Err e) ∧ same_surroundings w w' ∧
    tokens w' = tokens w ∧
    (e = invalid_client ∨ e = foreign_refresh ∨ e = unknown_refresh).
Proof.
  intros Hl Hno. rewrite (run_Refresh s req w Hl).
  destruct (client_result _ _ _ _) as [c|e] eqn:Ec.
  2: { eexists _, _. split; [done|]. split_and!; try done. left. by eapply client_result_Err. }
  apply client_result_Ok in Ec. specialize (Hno c Ec).
  destruct (live_owner _ _) as [o|].
  - rewrite bool_decide_false by done. eexists _, _. split; [done|]. split_and!; try done. auto.
  - pose proof (refresh_same_surroundings c req w Hl) as Hss.
    unfold refresh_outcome in *. rewrite Hno in *. eexists _, _. split; [done|]. split_and!; auto.
Qed.

(** A revocation that lands between the claim and the mint is not lost: if
    the grant's generation has moved since the issuing request captured it, the
    request is refused and the freshly written pair is gone again, leaving the
    token store exactly as it was. *)
Theorem issueGuarded_revoked `{!EntropyOk} clientID subject scopes familyID epoch w :
  epoch ≠ epoch_of w subject clientID →
  access (tokens w) !! TokenHash (token_at (entropy w)) = None →
  refresh (tokens w) !! TokenHash (token_at (S (entropy w))) = None →
  tombstones (tokens w) !! TokenHash (token_at (S (entropy w))) = None →
  ∃ w', run (issueGuarded s clientID subject scopes familyID epoch) w =
          Some (w', Err (protocolError "invalid_grant"
                           "the grant was revoked while this request was in flight")) ∧
        tokens w' = tokens w ∧ same_surroundings w w'.
Proof.
  intros Hne Ha Hr Ht. unfold issueGuarded. rewrite run_bind, (run_issue s _ _ _ _ w), run_bind, run_grantEpoch.
  replace (epoch_of (issue_world _ _ _ _ _ _) subject clientID) with (epoch_of w subject clientID)
    by done.
  rewrite (proj2 (Z.eqb_neq _ _)) by done. run_simpl. eexists. split; [reflexivity|].
  split; [|done]. cbn [tr_AccessToken tr_RefreshToken issue_response].
  unfold issue_world, issued. world_simpl. simpl.
  rewrite !delete_insert_id, (delete_id (tombstones _)) by done. by destruct (tokens w).
Qed.
End refresh_properties.

(** ** Revocation and introspection *)

Section revocation_properties.
Context `{Platform} (s : service).
Implicit Types w : memory_world.

(** Revocation checks ownership and does not advertise: an admitted client
    is always answered with success, whatever the value is, and anybody else is
    refused; the value, live or spent, is removed exactly when it belongs to
    the caller, and no other value ever is. *)
Theorem Revoke_exact req w :
  let v := vr_Token req in
  ∃ w' r, run (Revoke s req) w = Some (w', r) ∧ same_surroundings w w' ∧
  match r with
  | Err e => e = invalid_client ∧ tokens w' = tokens w ∧
             ∀ c, ¬ admitted (clients w) (vr_ClientID req) (vr_ClientSecret req) c
  | Ok _ =>
      ∃ c, admitted (clients w) (vr_ClientID req) (vr_ClientSecret req) c ∧
      codes (tokens w') = codes (tokens w) ∧
      (revocable (clock w) (tokens w) v = Some (cl_ID c) →
         access (tokens w') = delete (TokenHash v) (access (tokens w)) ∧
         refresh (tokens w') = delete (TokenHash v) (refresh (tokens w)) ∧
         tombstones (tokens w') = delete (TokenHash v) (tombstones (tokens w))) ∧
      (revocable (clock w) (tokens w) v ≠ Some (cl_ID c) → tokens w' = tokens w)
  end.
Proof.
  cbv zeta. rewrite (run_Revoke s req w). destruct (client_result _ _ _ _) as [c|e] eqn:Ec.
  2: { eexists _, _. split; [done|]. split_and!; try done; [by eapply client_result_Err|].
       intros c Ha. apply client_result_Ok in Ha. congruence. }
  apply client_result_Ok in Ec.
  destruct (revocable _ _ _) as [o|]; [case_bool_decide as Ho|].
  - eexists _, _. split; [done|]. split; [done|]. exists c. rewrite Ho. done.
  - eexists _, _. split; [done|]. split; [done|]. exists c.
    split_and!; try done. intros [= ?]. done.
  - eexists _, _. split; [done|]. split; [done|]. exists c. done.
Qed.

(** Introspection tells the truth and changes nothing: it reports active
    exactly for a stored, unexpired access token whose client is registered and
    not suspended, with that token's subject, client, scopes and deadline; to
    everything else it gives the same empty inactive answer. *)
Theorem Introspect_exact v w :
  ∃ info, run (Introspect v) w = Some (w, Ok info) ∧
    (ti_Active info = true ↔
       ∃ t c, access (tokens w) !! TokenHash v = Some t ∧ (clock w < at_ExpiresAt t)%Z ∧
              byID (clients w) !! at_ClientID t = Some c ∧ cl_Status c ≠ ClientSuspended) ∧
    (ti_Active info = false → info = inactive) ∧
    (∀ t, access (tokens w) !! TokenHash v = Some t → ti_Active info = true →
       ti_Subject info = at_Subject t ∧ ti_ClientID info = at_ClientID t ∧
       ti_Scopes info = at_Scopes t ∧ ti_ExpiresAt info = at_ExpiresAt t).
Proof.
  rewrite (run_Introspect v w). eexists. split; [done|].
  destruct (access (tokens w) !! _) as [t|]; simpl; [|naive_solver].
  destruct (expired _ _) eqn:Ex; simpl.
  { apply expired_spec in Ex. naive_solver lia. }
  apply expired_false in Ex. unfold Get. destruct (byID _ !! _) as [c|] eqn:Ec; simpl.
  - case_bool_decide; simpl; [naive_solver|]. split_and!; [naive_solver|done|naive_solver].
  - naive_solver.
Qed.

(** The epoch key is a pair: the NUL separates. *)
Lemma grantEpochKey_inj sub1 c1 sub2 c2 :
  str_before "000" sub1 = None → str_before "000" sub2 = None →
  grantEpochKey sub1 c1 = grantEpochKey sub2 c2 → sub1 = sub2 ∧ c1 = c2.
Proof.
  unfold grantEpochKey. revert sub2.
  induction sub1 as [|a sub1 IH]; intros [|b sub2] H1 H2 Heq; cbn [str_before String.app] in *.
  - by injection Heq.
  - injection Heq as <- _. by rewrite bool_decide_true in H2.
  - injection Heq as -> _. by rewrite bool_decide_true in H1.
  - injection Heq as <- Heq. case_bool_decide; [done|].
    destruct (str_before _ sub1) eqn:E1; [done|]. destruct (str_before _ sub2) eqn:E2; [done|].
    destruct (IH sub2 eq_refl E2 Heq) as [-> ->]. done.
Qed.

Lemma wrapu64_succ e : (0 <= e < 2 ^ 64)%Z → wrapu64 (e + 1) ≠ e.
Proof.
  unfold wrapu64. intros He. destruct (decide (e + 1 = 2 ^ 64)%Z) as [Heq|].
  - rewrite Heq, Z.mod_same by lia. lia.
  - rewrite Z.mod_small by lia. lia.
Qed.

(** Revoking a grant removes everything of it and nothing else: afterwards
    no code, access token, refresh token or tombstone of that subject and
    client exists, every record of another subject or client is untouched, and
    the grant's generation has moved while that of every other grant has not. *)
Theorem RevokeGrant_exact subject clientID w :
  subject ≠ EmptyString → clientID ≠ EmptyString → str_before "000" subject = None →
  (0 <= epoch_of w subject clientID < 2 ^ 64)%Z →
  let mine sub c := sub = subject ∧ c = clientID in
  ∃ w', run (RevokeGrant subject clientID) w = Some (w', Ok tt) ∧
    (∀ k c, codes (tokens w') !! k = Some c ↔
       codes (tokens w) !! k = Some c ∧ ¬ mine (ac_Subject c) (ac_ClientID c)) ∧
    (∀ k t, access (tokens w') !! k = Some t ↔
       access (tokens w) !! k = Some t ∧ ¬ mine (at_Subject t) (at_ClientID t)) ∧
    (∀ k t, refresh (tokens w') !! k = Some t ↔
       refresh (tokens w) !! k = Some t ∧ ¬ mine (rt_Subject t) (rt_ClientID t)) ∧
    (∀ k t, tombstones (tokens w') !! k = Some t ↔
       tombstones (tokens w) !! k = Some t ∧ ¬ mine (tb_Subject t) (tb_ClientID t)) ∧
    epoch_of w' subject clientID ≠ epoch_of w subject clientID ∧
    (∀ sub c, str_before "000" sub = None → ¬ mine sub c → epoch_of w' sub c = epoch_of w sub c).
Proof.
  intros Hs Hc Hnul He mine. rewrite (run_RevokeGrant subject clientID w) by done.
  eexists. split; [done|].
  assert (Hm : ∀ sub c, bool_decide (sub = subject) && bool_decide (c = clientID) = false ↔
    ¬ mine sub c).
  { intros sub c. rewrite <-not_true_iff_false, andb_true_iff, !bool_decide_eq_true. done. }
  split_and!; try (intros k t; cbn; rewrite lookup_delete_where, Hm; done).
  - unfold epoch_of at 1. world_simpl. rewrite lookup_insert_eq. by apply wrapu64_succ.
  - intros sub c Hsub Hne. unfold epoch_of. world_simpl. rewrite lookup_insert_ne; [done|].
    intros Heq. apply Hne. apply grantEpochKey_inj in Heq as [-> ->]; done.
Qed.
End revocation_properties.

(** ** Client authentication *)

Section client_properties.
Context `{Platform} `{Entropy} (s : service).
Implicit Types w : memory_world.

(** The entrances that authenticate do not tell an unknown client from a
    suspended one or from a wrong secret: each answers the identical
    invalid_client error, whatever else the request carries, and changes
    nothing. *)
Theorem client_errors_uniform fuel id secret w :
  (∀ c, ¬ admitted (clients w) id secret c) →
  let refused {A} (p : go memory_world A) := run p w = Some (w, Err invalid_client) in
  refused (AuthenticateClient s id secret) ∧
  (∀ code uri v, refused (Exchange s (mkExchange id secret code uri v))) ∧
  (∀ v scopes, refused (Refresh s (mkRefreshReq id secret v scopes))) ∧
  (∀ v hint, refused (Revoke s (mkRevoke id secret v hint))) ∧
  (∀ code, refused (PollDeviceAuthorization s (mkDevicePoll id secret code))) ∧
  (∀ scopes, scopes ≠ [] →
     refused (BeginDeviceAuthorization s fuel (mkDeviceReq id secret scopes))).
Proof.
  intros Hno. cbv zeta.
  assert (Hc : client_result (clients w) id secret true = Err invalid_client).
  { destruct (client_result _ _ _ _) as [c|e] eqn:E.
    - apply client_result_Ok in E. by apply Hno in E.
    - by apply client_result_Err in E as ->. }
  assert (Hr : ∀ A (k : Client → go memory_world A),
    run (mbind (M:=go memory_world) k (client s id secret true)) w = Some (w, Err invalid_client)).
  { intros A k. by rewrite run_bind, run_client, Hc. }
  split_and!; intros; try apply Hr.
  unfold BeginDeviceAuthorization. cbn [dq_Scopes dq_ClientID dq_ClientSecret].
  destruct scopes; [done|]. cbn [length Nat.eqb]. unfold describeAuthenticatedScopes.
  by rewrite run_bind, Hr.
Qed.
End client_properties.

(** ** Witnesses *)

#[local] Existing Instance toy_platform.
#[local] Existing Instance toy_platform_ok.
#[local] Existing Instance demo_entropy.
#[local] Existing Instance demo_entropy_ok.

Lemma demo_admitted : admitted (clients demo_world) "app" "s3cret" demo_client.
Proof. split; [vm_compute; reflexivity|]. intros _. vm_compute. reflexivity. Qed.

Lemma PKCE_exact_witness : verifyPKCE demo_verifier demo_challenge "S256" = true.
Proof. apply (PKCE_exact demo_verifier demo_challenge "S256"). done. Defined.

Lemma Exchange_exact_witness :
  ∃ w' resp, run (Exchange demo_service demo_exchange) demo_world = Some (w', Ok resp) ∧
    codes (tokens w') !! TokenHash "code" = None.
Proof.
  destruct (Exchange_exact demo_service demo_exchange demo_world) as (w' & r & Hrun & _ & Hr).
  destruct r as [resp|e].
  - exists w', resp. split; [exact Hrun|]. destruct Hr as (c & code & _ & _ & _ & _ & ->).
    vm_compute. reflexivity.
  - exfalso. destruct Hr as (_ & Hno & _). apply Hno. exists demo_client, demo_code.
    split; [exact demo_admitted|]. split; [vm_compute; reflexivity|].
    split; [vm_compute; reflexivity|]. split_and!; reflexivity || done.
Defined.

Lemma authorize_exchange_introspect_witness :
  ∃ w2 toks,
    run (Exchange demo_service (mkExchange "app" "s3cret" (ap_Code demo_authorized.2)
           "https://app.example/cb" demo_verifier)) (at_time 20 demo_authorized.1) = Some (w2, Ok toks) ∧
    run (Introspect (tr_AccessToken toks)) (at_time 30 w2) =
      Some (at_time 30 w2, Ok (mkInfo true "bob" "app" [ScopeAccountID] (20 + sv_atTTL demo_service))).
Proof.
  destruct (authorize_exchange_introspect demo_service demo_authorize demo_world
    demo_authorized.1 demo_authorized.2 demo_client "s3cret" demo_verifier 20) as (_ & Hex & _);
    [vm_compute; reflexivity|exact demo_admitted|reflexivity|done|reflexivity|].
  destruct Hex as (w2 & toks & Hrun & Hint); [vm_compute; reflexivity|].
  exists w2, toks. split; [exact Hrun|]. exact (Hint 30%Z).
Defined.

Lemma Refresh_exact_witness :
  ∃ w' resp, run (Refresh demo_service (mkRefreshReq "app" "s3cret" "ref" [])) demo_world =
               Some (w', Ok resp).
Proof.
  destruct (Refresh_exact demo_service (mkRefreshReq "app" "s3cret" "ref" []) demo_world eq_refl)
    as (w' & r & Hrun & _ & Hr).
  destruct r as [resp|e]; [by exists w', resp|].
  exfalso. apply (proj1 Hr). exists demo_client, demo_live. split; [exact demo_admitted|].
  split; [vm_compute; reflexivity|]. split; [vm_compute; reflexivity|].
  split; [vm_compute; reflexivity|]. split; [reflexivity|].
  intros sc Hsc. by apply not_elem_of_nil in Hsc.
Defined.

Lemma Refresh_replay_kills_family_witness :
  ∃ w', run (Refresh demo_service (mkRefreshReq "app" "s3cret" "old" [])) demo_world =
          Some (w', Err unknown_refresh) ∧ access (tokens w') !! TokenHash "acc" = None.
Proof.
  destruct (Refresh_replay_kills_family demo_service (mkRefreshReq "app" "s3cret" "old" [])
    demo_world demo_client "fam") as (w' & Hrun & _ & _ & Ha & _);
    [reflexivity|done|exact demo_admitted|vm_compute; reflexivity..|].
  exists w'. split; [exact Hrun|]. destruct (access (tokens w') !! _) as [t|] eqn:E; [|done].
  apply Ha in E as [E Hne]. exfalso. apply Hne. vm_compute in E. by injection E as <-.
Defined.

Lemma Refresh_refusal_harmless_witness :
  ∃ w' e, run (Refresh demo_service (mkRefreshReq "ghost" "s3cret" "ref" [])) demo_world =
            Some (w', Err e) ∧ tokens w' = tokens demo_world.
Proof.
  destruct (Refresh_refusal_harmless demo_service (mkRefreshReq "ghost" "s3cret" "ref" []) demo_world
    eq_refl) as (w' & e & Hrun & _ & Ht & _).
  - intros c [Hg _]. vm_compute in Hg. discriminate.
  - by exists w', e.
Defined.

Lemma issueGuarded_revoked_witness :
  ∃ w', run (issueGuarded demo_service "app" "alice" [ScopeAccountID] EmptyString 1) demo_world =
          Some (w', Err (protocolError "invalid_grant"
                           "the grant was revoked while this request was in flight")) ∧
        tokens w' = tokens demo_world.
Proof.
  destruct (issueGuarded_revoked demo_service "app" "alice" [ScopeAccountID] EmptyString 1 demo_world)
    as (w' & Hrun & Ht & _); [done|vm_compute; reflexivity..|].
  by exists w'.
Defined.

Lemma RevokeGrant_exact_witness :
  ∃ w', run (RevokeGrant "alice" "app") demo_world = Some (w', Ok tt) ∧
        codes (tokens w') !! TokenHash "code" = None.
Proof.
  destruct (RevokeGrant_exact "alice" "app" demo_world) as (w' & Hrun & Hc & _);
    [done|done|reflexivity|vm_compute; done|].
  exists w'. split; [exact Hrun|]. destruct (codes (tokens w') !! _) as [c|] eqn:E; [|done].
  apply Hc in E as [E Hne]. exfalso. apply Hne. vm_compute in E. by injection E as <-.
Defined.

Lemma client_errors_uniform_witness :
  run (AuthenticateClient demo_service "ghost" "s3cret") demo_world =
    Some (demo_world, Err invalid_client).
Proof.
  apply (client_errors_uniform demo_service 0 "ghost" "s3cret" demo_world).
  intros c [Hg _]. vm_compute in Hg. discriminate.
Defined.
