(* ===== verification/GrantProps.v ===== *)
(** * The grants view ([service.Grants] of [oauth/grants.go])

    The list a user sees of what each client can still do is derived from the
    live tokens, and from nothing else. *)

From S2P Require Import Prelude GoStd Scope Proc Tokens Client AuditLog Device Service ServiceRun Demo.

(** ** Vocabulary *)

(** The records of one client that have not expired. *)
Definition live_records (now : Z) (id : string) (rs : list GrantRecord) : list GrantRecord :=
  filter (λ r, (now < gr_ExpiresAt r)%Z ∧ gr_ClientID r = id) rs.

(** The grant summarises the records: the union of their scopes, sorted; the
    earliest issue and the furthest deadline; whether one can be refreshed. *)
Definition summarises (rs : list GrantRecord) (g : Grant) : Prop :=
  (∀ sc, sc ∈ g_Scopes g ↔ ∃ r, r ∈ rs ∧ sc ∈ gr_Scopes r) ∧
  NoDup (g_Scopes g) ∧ StronglySorted (key_le id) (g_Scopes g) ∧
  (g_HasRefresh g = true ↔ ∃ r, r ∈ rs ∧ gr_Kind r = TokenKindRefresh) ∧
  (∃ r, r ∈ rs ∧ gr_IssuedAt r = g_IssuedAt g) ∧
  (∀ r, r ∈ rs → (g_IssuedAt g <= gr_IssuedAt r)%Z) ∧
  (∃ r, r ∈ rs ∧ gr_ExpiresAt r = g_ExpiresAt g) ∧
  (∀ r, r ∈ rs → (gr_ExpiresAt r <= g_ExpiresAt g)%Z).

(** The record is a stored token of the subject, without its value. *)
Definition stored_record (st : MemoryStore) (subject : string) (r : GrantRecord) : Prop :=
  (∃ k t, access st !! k = Some t ∧ at_Subject t = subject ∧
     r = mkGrantRecord TokenKindAccess (at_ClientID t) (at_Scopes t) (at_IssuedAt t) (at_ExpiresAt t)) ∨
  (∃ k t, refresh st !! k = Some t ∧ rt_Subject t = subject ∧
     r = mkGrantRecord TokenKindRefresh (rt_ClientID t) (rt_Scopes t) (rt_IssuedAt t) (rt_ExpiresAt t)).

(** ** Lemmas *)

Lemma elem_of_unionScopes a b sc : sc ∈ unionScopes a b ↔ sc ∈ a ∨ sc ∈ b.
Proof. unfold unionScopes. rewrite sort_by_perm, elem_of_elements, elem_of_list_to_set. set_solver. Qed.

Lemma NoDup_unionScopes a b : NoDup (unionScopes a b).
Proof. unfold unionScopes. rewrite sort_by_perm. apply NoDup_elements. Qed.

Lemma live_records_snoc now id rs r :
  live_records now id (rs ++ [r]) =
    live_records now id rs ++
    (if bool_decide ((now < gr_ExpiresAt r)%Z ∧ gr_ClientID r = id) then [r] else []).
Proof.
  unfold live_records. rewrite filter_app. f_equal.
  case_bool_decide as Hr; [by rewrite filter_cons_True|by rewrite filter_cons_False].
Qed.

(** The first record of a client opens its grant. *)
Lemma summarises_one r g :
  g = mkGrant (gr_ClientID r) EmptyString (unionScopes [] (gr_Scopes r))
        (bool_decide (gr_Kind r = TokenKindRefresh)) (gr_IssuedAt r) (gr_ExpiresAt r) →
  summarises [r] g.
Proof.
  intros ->. unfold summarises. simpl. split_and!.
  - intros sc. rewrite elem_of_unionScopes. set_solver.
  - apply NoDup_unionScopes.
  - apply sort_by_sorted.
  - rewrite bool_decide_eq_true. set_solver.
  - set_solver.
  - intros r' ->%list_elem_of_singleton. lia.
  - set_solver.
  - intros r' ->%list_elem_of_singleton. lia.
Qed.

(** A further record is merged in. *)
Lemma summarises_snoc rs r g :
  summarises rs g →
  summarises (rs ++ [r])
    (mkGrant (g_ClientID g) (g_ClientName g) (unionScopes (g_Scopes g) (gr_Scopes r))
       (g_HasRefresh g || bool_decide (gr_Kind r = TokenKindRefresh))
       (if time_Before (gr_IssuedAt r) (g_IssuedAt g) then gr_IssuedAt r else g_IssuedAt g)
       (if time_After (gr_ExpiresAt r) (g_ExpiresAt g) then gr_ExpiresAt r else g_ExpiresAt g)).
Proof.
  intros (Hsc & _ & _ & Href & (ri & Hri & Hrie) & Hiss & (rx & Hrx & Hrxe) & Hexp).
  unfold summarises, time_Before, time_After. simpl.
  assert (Hin : ∀ r', r' ∈ rs ++ [r] ↔ r' ∈ rs ∨ r' = r) by set_solver.
  split_and!.
  - intros sc. rewrite elem_of_unionScopes, Hsc. set_solver.
  - apply NoDup_unionScopes.
  - apply sort_by_sorted.
  - rewrite orb_true_iff, Href, bool_decide_eq_true. set_solver.
  - destruct (Z.ltb_spec (gr_IssuedAt r) (g_IssuedAt g)); [exists r|exists ri]; set_solver.
  - intros r' [Hr'| ->]%Hin; destruct (Z.ltb_spec (gr_IssuedAt r) (g_IssuedAt g)); try lia;
      apply Hiss in Hr'; lia.
  - destruct (Z.ltb_spec (g_ExpiresAt g) (gr_ExpiresAt r)); [exists r|exists rx]; set_solver.
  - intros r' [Hr'| ->]%Hin; destruct (Z.ltb_spec (g_ExpiresAt g) (gr_ExpiresAt r)); try lia;
      apply Hexp in Hr'; lia.
Qed.

(** The loop of [Grants], for one client. *)
Lemma grants_fold now rs id :
  match foldl (grant_step now) ∅ rs !! id with
  | None => live_records now id rs = []
  | Some g => live_records now id rs ≠ [] ∧ g_ClientID g = id ∧ g_ClientName g = EmptyString ∧
              summarises (live_records now id rs) g
  end.
Proof.
  induction rs as [|r rs IH] using rev_ind; simpl; [by rewrite lookup_empty|].
  rewrite foldl_app, live_records_snoc. simpl. unfold grant_step, time_After.
  destruct (Z.ltb_spec now (gr_ExpiresAt r)) as [Hlt|Hge]; simpl.
  2: { rewrite (bool_decide_false (_ ∧ _)) by lia. by rewrite app_nil_r. }
  destruct (decide (gr_ClientID r = id)) as [<-|Hne].
  - rewrite (bool_decide_true (_ ∧ _)) by done. rewrite lookup_insert_eq.
    destruct (foldl _ _ _ !! _) as [g|]; simpl.
    + destruct IH as (Hn & Hid & Hname & Hsum). split_and!; [by destruct (live_records _ _ _)|done..|].
      by apply summarises_snoc.
    + rewrite IH. split_and!; [done..|]. simpl. apply summarises_one.
      unfold time_Before. by rewrite !Z.ltb_irrefl.
  - rewrite (bool_decide_false (_ ∧ _)) by naive_solver. rewrite lookup_insert_ne by done.
    by rewrite app_nil_r.
Qed.

(** The records [ListBySubject] reports are the stored tokens. *)
Lemma ListBySubject_elem st subject rs :
  MemoryStore_ListBySubject subject st = Ok rs →
  ∀ r, r ∈ rs ↔ stored_record st subject r.
Proof.
  assert (Hval : ∀ V (m : gmap string V) v, v ∈ (map_to_list m).*2 ↔ ∃ k, m !! k = Some v).
  { intros V m v. rewrite list_elem_of_fmap. setoid_rewrite <-elem_of_map_to_list.
    split; [intros ([k v'] & -> & ?); eauto|intros [k ?]; by exists (k, v)]. }
  intros [= <-] r. unfold stored_record. rewrite elem_of_app, !list_elem_of_fmap.
  setoid_rewrite list_elem_of_filter. setoid_rewrite Hval. unfold cloneScopes. simpl. naive_solver.
Qed.

Lemma sort_by_elem {A} (key : A → string) l x : x ∈ sort_by key l ↔ x ∈ l.
Proof. by rewrite sort_by_perm. Qed.

(** ** Properties *)

Section grant_properties.
Context `{Platform}.
Implicit Types w : memory_world.

(** The grants view shows current access and nothing else: it lists a
    client exactly when the subject has an unexpired token of it, once each and
    in order of client id, and each entry is the summary of those tokens (union
    of scopes, earliest issue, furthest deadline, whether it can renew) under
    the name the registry knows, also for a suspended client. *)
Theorem Grants_exact subject w :
  subject ≠ EmptyString →
  ∃ out rs, run (Grants subject) w = Some (w, Ok out) ∧
    (∀ r, r ∈ rs ↔ stored_record (tokens w) subject r) ∧
    NoDup (g_ClientID <$> out) ∧ StronglySorted (key_le g_ClientID) out ∧
    (∀ id, id ∈ g_ClientID <$> out ↔ live_records (clock w) id rs ≠ []) ∧
    (∀ g, g ∈ out → summarises (live_records (clock w) (g_ClientID g) rs) g ∧
       g_ClientName g = default EmptyString (cl_Name <$> byID (clients w) !! g_ClientID g)).
Proof.
  intros Hs. unfold Grants. rewrite bool_decide_false by done. run_simpl.
  destruct (store_ListBySubject subject (tokens w)) as [rs|] eqn:Ers; [|done]. run_simpl.
  eexists _, rs. split; [reflexivity|]. split; [by apply ListBySubject_elem|].
  set (m := foldl (grant_step (clock w)) ∅ rs).
  set (names := LookupClientNames (Some (clients w)) (map_to_list m).*1).
  assert (Hm : ∀ k g, m !! k = Some g → live_records (clock w) k rs ≠ [] ∧ g_ClientID g = k ∧
    summarises (live_records (clock w) k rs) g).
  { intros k g Hg. pose proof (grants_fold (clock w) rs k) as Hf. fold m in Hf. rewrite Hg in Hf.
    naive_solver. }
  assert (Hids : g_ClientID <$> ((λ g, set_name (default EmptyString (names !! g_ClientID g)) g) <$>
    (map_to_list m).*2) = (map_to_list m).*1).
  { rewrite <-!list_fmap_compose. apply list_fmap_ext. intros i [k g] Hi. simpl.
    apply list_elem_of_lookup_2, elem_of_map_to_list in Hi. by apply Hm in Hi as (_ & ? & _). }
  assert (Hperm : g_ClientID <$> sort_by g_ClientID ((λ g, set_name (default EmptyString
    (names !! g_ClientID g)) g) <$> (map_to_list m).*2) ≡ₚ (map_to_list m).*1).
  { rewrite sort_by_perm. by rewrite Hids. }
  split_and!.
  - rewrite Hperm. apply NoDup_fst_map_to_list.
  - apply sort_by_sorted.
  - intros k. rewrite Hperm. pose proof (grants_fold (clock w) rs k) as Hf. fold m in Hf.
    rewrite list_elem_of_fmap. split.
    + intros ([k' g] & -> & Hg%elem_of_map_to_list). by apply Hm in Hg as (? & _).
    + intros Hne. destruct (m !! k) as [g|] eqn:Eg; [|done]. exists (k, g).
      split; [done|]. by apply elem_of_map_to_list.
  - intros g. rewrite sort_by_elem. intros (g0 & -> & Hg0)%list_elem_of_fmap.
    apply list_elem_of_fmap in Hg0 as ([k g1] & -> & Hg1%elem_of_map_to_list). simpl.
    pose proof (Hm _ _ Hg1) as (Hne & Hk & Hsum). rewrite Hk. split; [done|].
    assert (Hin : k ∈ (map_to_list m).*1)
      by (apply list_elem_of_fmap; exists (k, g1); split; [done|by apply elem_of_map_to_list]).
    unfold names. rewrite memory_names by done. done.
Qed.
End grant_properties.

(** ** Witnesses *)

#[local] Existing Instance toy_platform.

Lemma Grants_exact_witness :
  ∃ out, run (Grants "alice") demo_world = Some (demo_world, Ok out) ∧ "app" ∈ g_ClientID <$> out.
Proof.
  destruct (Grants_exact "alice" demo_world ltac:(done)) as (out & rs & Hrun & Hrs & _ & _ & Hids & _).
  exists out. split; [exact Hrun|]. apply Hids. intros Hnil.
  assert (Hin : mkGrantRecord TokenKindRefresh "app" [ScopeAccountID] 0 500 ∈ rs).
  { apply Hrs. right. exists (TokenHash "ref"), demo_live.
    split; [vm_compute; reflexivity|split; reflexivity]. }
  assert (Hl : mkGrantRecord TokenKindRefresh "app" [ScopeAccountID] 0 500 ∈
    live_records (clock demo_world) "app" rs).
  { apply list_elem_of_filter. split; [split; reflexivity|exact Hin]. }
  rewrite Hnil in Hl. exact (not_elem_of_nil _ Hl).
Defined.
