(* ===== verification/DeviceProps.v ===== *)
(** * The device flow (RFC 8628 handlers of [oauth/device.go])

    Polling, deciding and redeeming a device authorization, the user codes the
    flow shows to people, and the polling interval it advertises. *)

From S2P Require Import Prelude GoStd Scope Proc Tokens Client AuditLog Device Service ServiceRun Demo ServiceProps.

(** ** Running the handlers *)

Section device_runs.
Context `{Platform} `{Entropy} (s : service).
Implicit Types w : memory_world.

Definition poll_too_soon (t : Z) (d : DeviceAuthorizationRecord) : bool :=
  negb (time_IsZero (dr_LastPoll d)) && time_Before t (dr_LastPoll d + sv_pollInterval s).

(** [PollDeviceAuthorization] over a well-formed store, branch by branch. *)
Lemma run_Poll `{!EntropyOk} req w :
  devices_wf (devices w) →
  let h := TokenHash (dx_DeviceCode req) in
  run (PollDeviceAuthorization s req) w = Some
    match client_result (clients w) (dx_ClientID req) (dx_ClientSecret req) true with
    | Err e => (w, Err e)
    | Ok c =>
        match byDev (devices w) !! h with
        | None => (w, Err (protocolError "invalid_grant" "device code is unknown"))
        | Some d =>
            if negb (bool_decide (dr_ClientID d = cl_ID c))
            then (w, Err (protocolError "invalid_grant" "device code was issued to another client")) else
            if expired (clock w) (dr_ExpiresAt d)
            then (w, Err (protocolError "expired_token" "the device code has expired")) else
            match dr_Status d with
            | DeviceDenied => (w, Err (protocolError "access_denied" "the user denied the request"))
            | DevicePending =>
                if poll_too_soon (clock w) d
                then (w, Err (protocolError "slow_down" "polling faster than the advertised interval"))
                else (set_devices (RecordPoll h (clock w) (devices w)).1 w,
                      Err (protocolError "authorization_pending" "the user has not decided yet"))
            | DeviceApproved =>
                (issue_world s (cl_ID c) (dr_Subject d) (dr_Scopes d) EmptyString
                   (set_devices (ConsumeDevice h (devices w)).1 w),
                 Ok (issue_response s (entropy w) (dr_Scopes d)))
            end
        end
    end.
Proof.
  intros [Hwf _] h. unfold PollDeviceAuthorization. rewrite run_bind, run_client.
  destruct (client_result _ _ _ _) as [c|]; [|done].
  rewrite run_bind, run_try, run_ask_devices. cbn [dev_GetDevice memory_devices]. unfold GetDevice. fold h.
  destruct (byDev (devices w) !! h) as [d|] eqn:Ed; [|done].
  destruct (Hwf _ _ Ed) as [Hh _]. destruct (negb (bool_decide _)); [done|].
  rewrite run_bind, run_now. unfold expired. destruct (negb (time_Before _ _)); [done|].
  destruct (dr_Status d) eqn:Est; [|..|done].
  - unfold poll_too_soon. destruct (_ && _); [done|]. rewrite run_bind, run_on_devices.
    cbn [dev_RecordPoll memory_devices]. rewrite Hh. unfold RecordPoll. by rewrite Ed.
  - rewrite run_bind, run_grantEpoch, run_bind, run_on_devices.
    cbn [dev_ConsumeDevice memory_devices]. rewrite Hh.
    unfold ConsumeDevice. rewrite Ed, Est. rewrite bool_decide_true by done. cbn [snd fst negb]. by rewrite run_issueGuarded.
Qed.

(** What [describeScopes] answers. *)
Definition scopes_result (reg : MemoryClientRegistry) (id : string) (scopes : list Scope)
    : result (Client * list Descriptor) :=
  match client_result reg id EmptyString false with
  | Err e => Err e
  | Ok c => resolveScopes s c scopes
  end.

Lemma run_describeScopes id scopes w :
  run (describeScopes s id scopes) w = Some (w, scopes_result (clients w) id scopes).
Proof.
  unfold describeScopes, scopes_result. rewrite run_bind, run_client. by destruct (client_result _ _ _ _).
Qed.

(** A record found by its user code is the one under its own hash. *)
Lemma user_code_record dv userCode d :
  devices_wf dv → GetDeviceByUserCode userCode dv = Ok d →
  byDev dv !! dr_DeviceCodeHash d = Some d.
Proof.
  intros [Hwf _] Hg. unfold GetDeviceByUserCode in Hg. destruct (byUser _ !! _) as [h|]; [|done].
  destruct (byDev _ !! h) as [d'|] eqn:E; simplify_eq. by destruct (Hwf _ _ E) as [-> _].
Qed.

(** The world after a decision was recorded. *)
Definition decided_world (d : DeviceAuthorizationRecord) (dec : DeviceDecision)
    (action subject outcome : string) w : memory_world :=
  logged action subject (dr_ClientID d) outcome
    (set_devices (mkDevices (<[dr_DeviceCodeHash d := with_decision dec d]> (byDev (devices w)))
                    (byUser (devices w))) w).

Lemma run_apply_decision d dec action subject outcome w :
  byDev (devices w) !! dr_DeviceCodeHash d = Some d → dr_Status d = DevicePending →
  run (apply_decision d dec action subject outcome) w =
    Some (decided_world d dec action subject outcome w, Ok tt).
Proof.
  intros Hd Hp. unfold apply_decision. rewrite run_bind, run_on_devices. simpl.
  unfold RecordDecision. by rewrite Hd, Hp.
Qed.

(** [DecideDeviceAuthorization] on a pending request the page can reach. *)
Lemma run_Decide userCode subject approve scopes explicit d w :
  devices_wf (devices w) → subject ≠ EmptyString →
  GetDeviceByUserCode userCode (devices w) = Ok d →
  expired (clock w) (dr_ExpiresAt d) = false → dr_Status d = DevicePending →
  run (DecideDeviceAuthorization s userCode subject approve scopes explicit) w = Some
    (if approve then
       match granted_scopes (dr_Scopes d) scopes with
       | Err e => (w, Err e)
       | Ok granted =>
           match scopes_result (clients w) (dr_ClientID d) granted with
           | Err e => (w, Err e)
           | Ok (_, ds) =>
               match checkExplicit ds explicit with
               | Some e => (w, Err e)
               | None => (decided_world d (mkDecision DeviceApproved subject granted explicit)
                            "oauth.device.approve" subject OutcomeOK w, Ok tt)
               end
           end
       end
     else (decided_world d (mkDecision DeviceDenied EmptyString [] [])
             "oauth.device.deny" subject OutcomeDenied w, Ok tt)).
Proof.
  intros Hwf Hs Hg He Hp. unfold DecideDeviceAuthorization. rewrite bool_decide_false by done.
  assert (Hd : byDev (devices w) !! dr_DeviceCodeHash d = Some d) by by eapply user_code_record.
  rewrite run_bind, run_try, run_ask_devices. cbn [dev_GetDeviceByUserCode memory_devices]. rewrite Hg.
  rewrite run_bind, run_now. unfold expired in He. rewrite He.
  rewrite bool_decide_true by done. cbn [negb]. destruct approve; cbn [negb].
  - rewrite run_bind, run_lift. destruct (granted_scopes _ _) as [granted|]; [|done].
    rewrite run_bind, run_describeScopes. destruct (scopes_result _ _ _) as [[c ds]|]; [|done].
    cbn [snd]. destruct (checkExplicit _ _); [done|]. by rewrite run_apply_decision.
  - by rewrite run_apply_decision.
Qed.

(** ** User codes *)

(** The byte the n-th one-byte read of the generator yields. *)
Definition byte_at (n : nat) : ascii :=
  match rand_read n 1 with Some (String b _) => b | _ => "000"%char end.

Definition acceptable (b : ascii) : bool := (code b <? userCodeMax)%N.

(** Among the bytes of reads [n], [n+1], ... the ones the loop keeps. *)
Definition kept (n fuel : nat) : list ascii :=
  filter (λ b, acceptable b = true) (byte_at <$> seq n fuel).

(** The loop returns the first characters it needs, wherever they are in the
    stream, if there are enough within the fuel. *)
Lemma run_userCode_loop `{!EntropyOk} fuel raw w :
  len raw ≤ userCodeLen →
  userCodeLen - len raw ≤ length (kept (entropy w) fuel) →
  ∃ k, k ≤ fuel ∧
    run (userCode_loop (S fuel) raw) w =
      Some (set_entropy (k + entropy w) w,
            Ok (raw +:+ String.string_of_list_ascii
                  (userCodeChar <$> take (userCodeLen - len raw) (kept (entropy w) fuel)))).
Proof.
  revert raw w. induction fuel as [|fuel IH]; intros raw w Hraw Hk.
  - assert (Hl : len raw = userCodeLen) by (unfold kept in Hk; simpl in Hk; lia).
    exists 0. split; [done|]. cbn [userCode_loop]. rewrite Hl, Nat.ltb_irrefl, Nat.sub_diag. simpl.
    rewrite str_app_nil_r. by destruct w.
  - remember (S fuel) as f1. cbn [userCode_loop].
    destruct (Nat.ltb_spec (len raw) userCodeLen) as [Hlt|Hge].
    2: { exists 0. split; [lia|]. assert (Hl : len raw = userCodeLen) by lia.
         rewrite Hl, Nat.sub_diag. simpl. rewrite str_app_nil_r. by destruct w. }
    rewrite run_bind, run_try. unfold draw. rewrite run_call.
    destruct (rand_read_ok (entropy w) 1) as (b & Hb & Hlen).
    assert (Hbyte : byte_at (entropy w) = match b with String c _ => c | EmptyString => "000"%char end).
    { unfold byte_at. rewrite Hb. by destruct b. }
    rewrite Hb, <-Hbyte. subst f1.
    assert (Hkept : kept (entropy w) (S fuel) =
      (if acceptable (byte_at (entropy w)) then [byte_at (entropy w)] else []) ++ kept (S (entropy w)) fuel).
    { unfold kept. cbn [seq]. rewrite fmap_cons. destruct (acceptable _) eqn:Ea.
      - by rewrite filter_cons_True.
      - rewrite filter_cons_False; [done|]. congruence. }
    assert (Hacc : (userCodeMax <=? code (byte_at (entropy w)))%N = negb (acceptable (byte_at (entropy w)))).
    { unfold acceptable. rewrite N.ltb_antisym. by rewrite negb_involutive. }
    rewrite Hacc, Hkept in *. destruct (acceptable (byte_at (entropy w))); cbn [negb app] in *.
    + set (raw' := raw +:+ String _ EmptyString).
      assert (Hl' : len raw' = S (len raw)) by (unfold raw'; rewrite len_app; simpl; lia).
      destruct (IH raw' (set_entropy (S (entropy w)) w)) as (k & Hkf & Hrun);
        [lia|simpl in *; rewrite Hl'; lia|].
      exists (S k). split; [lia|]. cbn [set_entropy entropy] in Hrun.
      rewrite Hrun. rewrite Hl'. unfold set_entropy. simpl.
      replace (userCodeLen - len raw) with (S (userCodeLen - S (len raw))) by lia.
      rewrite Nat.add_succ_r. unfold raw'. rewrite str_app_assoc. done.
    + destruct (IH raw (set_entropy (S (entropy w)) w)) as (k & Hkf & Hrun); [lia|done|].
      exists (S k). split; [lia|]. cbn [set_entropy entropy] in Hrun. rewrite Hrun.
      unfold set_entropy. simpl. by rewrite Nat.add_succ_r.
Qed.
End device_runs.

(** ** Lemmas: normalization of user codes *)

Lemma trim_left_id P s : str_forall (λ c, negb (P c)) s = true → trim_left P s = s.
Proof. destruct s; simpl; [done|]. intros Hs. bools. by rewrite H. Qed.

Lemma trim_right_id P s : str_forall (λ c, negb (P c)) s = true → trim_right P s = s.
Proof.
  induction s as [|c s IH]; simpl; [done|]. intros Hs. bools. rewrite IH by done.
  destruct s; [by rewrite H|done].
Qed.

Lemma str_map_id f s : str_forall (λ c, bool_decide (f c = c)) s = true → str_map f s = s.
Proof. induction s as [|c s IH]; simpl; [done|]. intros Hs. bools. by rewrite H, IH. Qed.

Lemma str_filter_app P a b : str_filter P (a +:+ b) = str_filter P a +:+ str_filter P b.
Proof.
  induction a as [|c a IH]; [done|]. change (String c a +:+ b) with (String c (a +:+ b)). simpl.
  rewrite IH. by destruct (P c).
Qed.

(** A letter of the alphabet, in either case, or the dash. *)
Definition code_char (c : ascii) : bool := is_upper c || is_lower c || bool_decide (c = dash).

Section normalize.
Context `{Platform}.

(** On such text white space plays no part. *)
Lemma NormalizeUserCode_plain s :
  str_forall code_char s = true →
  NormalizeUserCode s = str_filter (λ c, negb (bool_decide (c = dash))) (str_map ascii_upper s).
Proof.
  intros Hs. unfold NormalizeUserCode, strings_ToUpper, strings_TrimSpace.
  assert (Ha : str_forall is_ascii s = true).
  { eapply (str_forall_impl code_char); [|done]. all_chars. }
  assert (Hsp : str_forall (λ c, negb (is_space c)) s = true).
  { eapply (str_forall_impl code_char); [|done]. all_chars. }
  rewrite Ha, trim_left_id, trim_right_id by done. by rewrite Ha.
Qed.

Lemma userCodeChar_upper b : acceptable b = true → is_upper (userCodeChar b) = true.
Proof. revert b. all_chars. Qed.

Lemma str_forall_of_list P l :
  Forall (λ c, P c = true) l → str_forall P (String.string_of_list_ascii l) = true.
Proof. induction 1 as [|c l Hc _ IH]; simpl; [done|]. by rewrite Hc. Qed.

Lemma upper_letters s : str_forall is_upper s = true →
  str_map ascii_upper s = s ∧ str_map ascii_upper (str_map ascii_lower s) = s ∧
  str_filter (λ c, negb (bool_decide (c = dash))) s = s ∧
  str_forall code_char s = true ∧ str_forall code_char (str_map ascii_lower s) = true.
Proof.
  induction s as [|c s IH]; [done|]. cbn [str_forall]. intros [Hc Hs]%andb_true_iff.
  destruct (IH Hs) as (I1 & I2 & I3 & I4 & I5).
  assert (Hch : ∀ c, is_upper c = true → ascii_upper c = c ∧ ascii_upper (ascii_lower c) = c ∧
    bool_decide (c = dash) = false ∧ code_char c = true ∧ code_char (ascii_lower c) = true)
    by all_chars.
  destruct (Hch c Hc) as (E1 & E2 & E3 & E4 & E5). cbn [str_map str_filter str_forall].
  by rewrite E1, E2, E3, E4, E5, I1, I2, I3, I4, I5.
Qed.
End normalize.

(** ** Lemmas: decisions *)

Lemma granted_scopes_Ok requested scopes g :
  granted_scopes requested scopes = Ok g ↔
    g = default requested scopes ∧ scopes ≠ Some [] ∧
    ∀ sc, sc ∈ default requested scopes → sc ∈ requested.
Proof.
  unfold granted_scopes. destruct scopes as [scs|]; simpl; [|naive_solver].
  destruct (decide (scs = [])) as [->|Hne]; [naive_solver|].
  replace (length scs =? 0) with false by (by destruct scs).
  destruct (forallb _ _) eqn:Ef.
  - rewrite forallb_contains in Ef. naive_solver.
  - split; [done|]. intros (_ & _ & Hsub). apply forallb_contains in Hsub. congruence.
Qed.

Lemma AllowsScope_spec c sc : AllowsScope c sc = true ↔ sc ∈ cl_AllowedScopes c.
Proof.
  unfold AllowsScope. rewrite List.existsb_exists. setoid_rewrite bool_decide_eq_true.
  rewrite list_elem_of_In. naive_solver.
Qed.

Lemma check_allowed_None c scs :
  check_allowed c scs = None ↔ ∀ sc, sc ∈ scs → sc ∈ cl_AllowedScopes c.
Proof.
  induction scs as [|sc scs IH]; simpl; [set_solver|].
  destruct (AllowsScope c sc) eqn:Ea; simpl.
  - apply AllowsScope_spec in Ea. rewrite IH. set_solver.
  - split; [done|]. intros Hsub. assert (AllowsScope c sc = true); [|congruence].
    apply AllowsScope_spec. set_solver.
Qed.

Lemma checkExplicit_None ds explicit :
  checkExplicit ds explicit = None ↔
    ∀ x, x ∈ ds → d_ExplicitConsent x = true → d_Scope x ∈ explicit.
Proof.
  induction ds as [|d ds IH]; simpl; [set_solver|].
  setoid_rewrite elem_of_cons.
  destruct (d_ExplicitConsent d) eqn:Ed; simpl; [case_bool_decide; simpl|]; rewrite ?IH.
  - split; intros Hx x; [intros [->|?]; auto|auto].
  - split; [done|]. intros Hx. exfalso. auto.
  - split; intros Hx x; [intros [->|?]; [congruence|auto]|auto].
Qed.

Lemma scopes_result_Ok `{Platform} s reg id scopes c ds :
  scopes_result s reg id scopes = Ok (c, ds) ↔
    Get id reg = Ok c ∧ Resolve (sv_scopes s) scopes (cl_ID c) = Ok ds ∧
    (∀ sc, sc ∈ scopes → sc ∈ cl_AllowedScopes c).
Proof.
  unfold scopes_result, client_result. destruct (Get id reg) as [c'|]; simpl; [|naive_solver].
  unfold resolveScopes. split.
  - destruct (Resolve _ _ _) eqn:Er; [|done]. destruct (check_allowed _ _) eqn:Ea; [done|].
    intros [= -> ->]. rewrite check_allowed_None in Ea. done.
  - intros ([= ->] & -> & Ha). rewrite (proj2 (check_allowed_None _ _) Ha). done.
Qed.

(** ** Properties *)

Section device_flow_properties.
Context `{Platform} `{Entropy} (s : service).
Implicit Types w : memory_world.

(** A poll answers as RFC 8628 says, on every branch. For an admitted
    client: an unknown code or one of another client is invalid_grant, an
    expired one expired_token, a denied one access_denied; a pending one is
    slow_down when polled too soon, which leaves no trace, and otherwise
    authorization_pending with only the poll time recorded; and an approved one
    is redeemed, the request gone and one pair of tokens stored with the
    approved subject and scopes. Only the last ever touches the token store. *)
Theorem Poll_exact `{!EntropyOk} req w c :
  devices_wf (devices w) → admitted (clients w) (dx_ClientID req) (dx_ClientSecret req) c →
  let h := TokenHash (dx_DeviceCode req) in
  ∃ w' r, run (PollDeviceAuthorization s req) w = Some (w', r) ∧
  clients w' = clients w ∧ clock w' = clock w ∧ grantEpochs w' = grantEpochs w ∧
  match byDev (devices w) !! h with
  | None => w' = w ∧ ∃ e, r = Err (protocolError "invalid_grant" e)
  | Some d =>
      (dr_ClientID d ≠ cl_ID c → w' = w ∧ ∃ e, r = Err (protocolError "invalid_grant" e)) ∧
      (dr_ClientID d = cl_ID c →
       ((dr_ExpiresAt d <= clock w)%Z → w' = w ∧ ∃ e, r = Err (protocolError "expired_token" e)) ∧
       ((clock w < dr_ExpiresAt d)%Z →
        match dr_Status d with
        | DeviceDenied => w' = w ∧ ∃ e, r = Err (protocolError "access_denied" e)
        | DevicePending =>
            if bool_decide (dr_LastPoll d ≠ 0%Z ∧ (clock w < dr_LastPoll d + sv_pollInterval s)%Z)
            then w' = w ∧ ∃ e, r = Err (protocolError "slow_down" e)
            else tokens w' = tokens w ∧ byUser (devices w') = byUser (devices w) ∧
                 byDev (devices w') = <[h := with_poll (clock w) d]> (byDev (devices w)) ∧
                 ∃ e, r = Err (protocolError "authorization_pending" e)
        | DeviceApproved =>
            byDev (devices w') = delete h (byDev (devices w)) ∧
            tokens w' = issued s (clock w) (entropy w) (cl_ID c) (dr_Subject d) (dr_Scopes d)
                          (token_at (S (S (entropy w)))) (tokens w) ∧
            r = Ok (issue_response s (entropy w) (dr_Scopes d))
        end))
  end.
Proof.
  intros Hwf Hc h. rewrite (run_Poll s req w Hwf). fold h.
  rewrite (proj2 (client_result_Ok _ _ _ c)) by done.
  destruct (byDev (devices w) !! h) as [d|] eqn:Ed.
  2: { eexists _, _. split; [done|]. split_and!; eauto. }
  case_bool_decide as Hcl; cbn [negb].
  2: { eexists _, _. split; [done|]. split_and!; try done. eauto. }
  destruct (expired _ _) eqn:Ex; [apply expired_spec in Ex|apply expired_false in Ex].
  { eexists _, _. split; [done|]. split_and!; try done. intros _. split; [eauto|lia]. }
  destruct (dr_Status d) eqn:Est.
  - assert (Hsoon : poll_too_soon s (clock w) d =
      bool_decide (dr_LastPoll d ≠ 0%Z ∧ (clock w < dr_LastPoll d + sv_pollInterval s)%Z)).
    { unfold poll_too_soon, time_IsZero, time_Before. apply eq_iff_eq_true.
      rewrite andb_true_iff, negb_true_iff, Z.eqb_neq, Z.ltb_lt, bool_decide_eq_true. done. }
    rewrite Hsoon. case_bool_decide.
    + eexists _, _. split; [done|]. split_and!; try done. intros _. split; [lia|eauto].
    + unfold RecordPoll. rewrite Ed. eexists _, _. split; [done|]. split_and!; try done.
      intros _. split; [lia|]. intros _. split_and!; eauto.
  - unfold ConsumeDevice. rewrite Ed, Est. rewrite bool_decide_true by done. cbn [negb fst].
    eexists _, _. split; [done|]. split_and!; try done. intros _. split; [lia|done].
  - eexists _, _. split; [done|]. split_and!; try done. intros _. split; [lia|eauto].
Qed.

(** Deciding on a request the page can reach: a denial is always recorded;
    an approval is recorded exactly when it grants at least one scope, none
    outside the request, each registered and allowed to the client, and every
    scope that needs it was ticked individually. The recorded approval carries
    the deciding subject and the granted scopes, everything else about the
    request and every other request is unchanged, and no token is issued. *)
Theorem Decide_exact userCode subject approve scopes explicit d w :
  devices_wf (devices w) → subject ≠ EmptyString →
  GetDeviceByUserCode userCode (devices w) = Ok d →
  (clock w < dr_ExpiresAt d)%Z → dr_Status d = DevicePending →
  let granted := default (dr_Scopes d) scopes in
  let allowed :=
    approve = true → scopes ≠ Some [] ∧ (∀ sc, sc ∈ granted → sc ∈ dr_Scopes d) ∧
    ∃ c ds, Get (dr_ClientID d) (clients w) = Ok c ∧
      Resolve (sv_scopes s) granted (cl_ID c) = Ok ds ∧
      (∀ sc, sc ∈ granted → sc ∈ cl_AllowedScopes c) ∧
      (∀ x, x ∈ ds → d_ExplicitConsent x = true → d_Scope x ∈ explicit) in
  ∃ w' r, run (DecideDeviceAuthorization s userCode subject approve scopes explicit) w = Some (w', r) ∧
    tokens w' = tokens w ∧ clients w' = clients w ∧
    (is_ok r = true ↔ allowed) ∧
    devices w' =
      if is_ok r
      then mkDevices
             (<[dr_DeviceCodeHash d :=
                  with_decision (if approve then mkDecision DeviceApproved subject granted explicit
                                 else mkDecision DeviceDenied EmptyString [] []) d]>
                (byDev (devices w))) (byUser (devices w))
      else devices w.
Proof.
  intros Hwf Hs Hg He Hp granted allowed.
  rewrite (run_Decide s _ _ approve scopes explicit d w Hwf Hs Hg) by (done || by apply expired_false).
  destruct approve.
  2: { eexists _, _. split; [done|]. by split_and!. }
  destruct (granted_scopes _ _) as [g|] eqn:Eg.
  2: { eexists _, _. split; [done|]. split_and!; try done. split; [done|].
       intros Hok. destruct (Hok eq_refl) as (H1 & H2 & _). exfalso.
       rewrite (proj2 (granted_scopes_Ok _ _ granted)) in Eg; done. }
  apply granted_scopes_Ok in Eg as (-> & Hne & Hsub). fold granted in Hsub |- *.
  destruct (scopes_result _ _ _ _) as [[c ds]|] eqn:Er.
  2: { eexists _, _. split; [done|]. split_and!; try done. split; [done|].
       intros Hok. destruct (Hok eq_refl) as (_ & _ & c & ds & Hc & Hr & Ha & _). exfalso.
       assert (scopes_result s (clients w) (dr_ClientID d) granted = Ok (c, ds))
         by by apply scopes_result_Ok.
       congruence. }
  apply scopes_result_Ok in Er as (Hc & Hr & Ha).
  destruct (checkExplicit ds explicit) as [e|] eqn:Ex.
  - eexists _, _. split; [done|]. split_and!; try done. split; [done|].
    intros Hok. destruct (Hok eq_refl) as (_ & _ & c' & ds' & Hc' & Hr' & _ & Hx). exfalso.
    rewrite Hc in Hc'. injection Hc' as <-. rewrite Hr in Hr'. injection Hr' as <-.
    by rewrite (proj2 (checkExplicit_None _ _) Hx) in Ex.
  - rewrite checkExplicit_None in Ex. eexists _, _. split; [done|]. split_and!; try done.
    split; [|done]. intros _ _. split_and!; [done..|]. by exists c, ds.
Qed.

(** A decision that is accepted is of a known subject and in time. *)
Lemma Decide_in_time userCode subject scopes explicit d w w' :
  GetDeviceByUserCode userCode (devices w) = Ok d →
  run (DecideDeviceAuthorization s userCode subject true scopes explicit) w = Some (w', Ok tt) →
  subject ≠ EmptyString ∧ (clock w < dr_ExpiresAt d)%Z.
Proof.
  intros Hg. unfold DecideDeviceAuthorization. case_bool_decide; [done|].
  rewrite run_bind, run_try, run_ask_devices. cbn [dev_GetDeviceByUserCode memory_devices]. rewrite Hg.
  rewrite run_bind, run_now. destruct (negb (time_Before _ _)) eqn:E; [done|]. intros _. split; [done|].
  by apply expired_false.
Qed.

(** A poll with a code that is gone. *)
Lemma Poll_spent `{!EntropyOk} req w c :
  devices_wf (devices w) → admitted (clients w) (dx_ClientID req) (dx_ClientSecret req) c →
  byDev (devices w) !! TokenHash (dx_DeviceCode req) = None →
  ∃ e, run (PollDeviceAuthorization s req) w = Some (w, Err (protocolError "invalid_grant" e)).
Proof.
  intros Hwf Hc Hd. rewrite (run_Poll s req w Hwf). rewrite (proj2 (client_result_Ok _ _ _ c) Hc), Hd. eauto.
Qed.

(** *** Beginning a device authorization *)

(** Drawing user codes moves the generator only. *)
Definition drew w w' : Prop := ∃ n, w' = set_entropy n w.
Lemma drew_refl w : drew w w.
Proof. exists (entropy w). by destruct w. Qed.
Lemma drew_more w n w' : drew (set_entropy n w) w' → drew w w'.
Proof. intros [m ->]. by exists m. Qed.

Lemma userCode_loop_draws `{!EntropyOk} fuel raw w w' x : run (userCode_loop fuel raw) w = Some (w', x) → drew w w'.
Proof.
  revert raw w. induction fuel as [|fuel IH]; intros raw w; [done|]. cbn [userCode_loop].
  destruct (_ <? _); [|by intros [= <- _]; apply drew_refl]. unfold draw. rewrite run_bind, run_try, run_call.
  destruct (rand_read_ok (entropy w) 1) as (b & -> & _). cbv iota beta.
  destruct (_ <=? _)%N; intros Hr; eapply drew_more, IH, Hr.
Qed.
Lemma newUserCode_draws `{!EntropyOk} fuel w w' x : run (newUserCode fuel) w = Some (w', x) → drew w w'.
Proof.
  unfold newUserCode. rewrite run_bind. destruct (run (userCode_loop _ _) w) as [[w1 [raw|e]]|] eqn:E; [..|done];
    apply userCode_loop_draws in E; by intros [= <- _].
Qed.
Lemma freeUserCode_draws `{!EntropyOk} fuel n w w' x : run (freeUserCode fuel n) w = Some (w', x) → drew w w'.
Proof.
  revert w. induction n as [|n IH]; intros w; [intros [= <- _]; apply drew_refl|]. cbn [freeUserCode]. rewrite run_bind.
  destruct (run (newUserCode _) w) as [[w1 [c|e]]|] eqn:E; [..|done]; apply newUserCode_draws in E as [m ->];
    [|intros [= <- _]; by exists m].
  rewrite run_bind, run_try, run_ask_devices. repeat case_match; try (intros [= <- _]; by exists m);
    intros Hr; eapply drew_more, IH, Hr.
Qed.

(** What a saved authorization is. *)
Lemma saveDevice_stores `{!EntropyOk} fuel n deviceCode base w w' userCode :
  run (saveDeviceAuthorization fuel n deviceCode base) w = Some (w', Ok userCode) →
  ∃ m, w' = set_devices (SaveDevice deviceCode (with_user_code userCode base) (devices w)).1 (set_entropy m w) ∧
    (SaveDevice deviceCode (with_user_code userCode base) (devices w)).2 = Ok tt.
Proof.
  revert w. induction n as [|n IH]; intros w; [done|]. cbn [saveDeviceAuthorization]. rewrite run_bind.
  destruct (run (freeUserCode _ _) w) as [[w1 [c|e]]|] eqn:E; [..|done]; [|done]. apply freeUserCode_draws in E as [m ->].
  rewrite run_bind, run_try, run_on_devices. cbn [dev_SaveDevice memory_devices].
  change (devices (set_entropy m w)) with (devices w).
  destruct (SaveDevice deviceCode (with_user_code c base) (devices w)) as [dv [[]|e]] eqn:Es; cbn [fst snd].
  - intros [= <- <-]. exists m. by rewrite Es.
  - destruct (errors_Is _ _); [|done]. intros Hr.
    assert (dv = devices w) as -> by (revert Es; unfold SaveDevice; by repeat case_match; intros [= <- _]).
    destruct (IH _ Hr) as (m' & -> & Hok). by exists m'.
Qed.

(** The record of a new authorization. *)
Definition begun (req : DeviceAuthorizationRequest) (resp : DeviceAuthorizationResponse) (c : Client) w
    : DeviceAuthorizationRecord :=
  mkDevice (TokenHash (dp_DeviceCode resp)) (dp_UserCode resp) (cl_ID c) (dq_Scopes req) DevicePending
    EmptyString [] (clock w + sv_deviceTTL s) 0.

Lemma run_Begin `{!EntropyOk} fuel req w w1 resp :
  devices_wf (devices w) → run (BeginDeviceAuthorization s fuel req) w = Some (w1, Ok resp) →
  ∃ c, admitted (clients w) (dq_ClientID req) (dq_ClientSecret req) c ∧ clients w1 = clients w ∧
    devices_wf (devices w1) ∧ byDev (devices w1) !! TokenHash (dp_DeviceCode resp) = Some (begun req resp c w) ∧
    ∀ code, NormalizeUserCode code = NormalizeUserCode (dp_UserCode resp) →
      GetDeviceByUserCode code (devices w1) = Ok (begun req resp c w).
Proof.
  intros Hwf. unfold BeginDeviceAuthorization, describeAuthenticatedScopes. destruct (_ =? 0); [done|].
  rewrite !run_bind, run_client. destruct (client_result _ _ _ _) as [c|] eqn:Ec; [|done].
  apply client_result_Ok in Ec. rewrite run_lift. unfold resolveScopes.
  destruct (Resolve _ _ _) as [ds|]; [|done]. destruct (check_allowed _ _); [done|].
  rewrite run_bind, run_newToken, run_bind, run_now, run_bind. cbn [fst].
  destruct (run (saveDeviceAuthorization _ _ _ _) _) as [[w2 [uc|e]]|] eqn:Es; [..|done]; [|done].
  rewrite run_bind, run_record. intros [= <- <-]. cbn [dp_DeviceCode dp_UserCode].
  apply saveDevice_stores in Es as (m & -> & Hok). exists c. world_simpl. set (dv := SaveDevice _ _ _) in *.
  assert (Hwf' : devices_wf dv.1) by (eapply device_step_wf; [exact Hwf|apply step_save]).
  assert (Hd : ∀ h, h = TokenHash (token_at (entropy w)) → byDev dv.1 !! h = Some (begun req
    (mkDeviceResp (token_at (entropy w)) uc EmptyString EmptyString 0 0) c w)).
  { intros h ->. revert Hok. unfold dv, SaveDevice. repeat case_match; try done. intros _. apply lookup_insert_eq. }
  split_and!; try done; [by apply Hd|]. intros code Hcode. unfold GetDeviceByUserCode. rewrite Hcode.
  destruct (proj1 Hwf' _ _ (Hd _ eq_refl)) as [_ Hu]. cbn [dr_UserCode begun dp_UserCode] in Hu. rewrite Hu.
  by rewrite (Hd _ eq_refl).
Qed.

(** C39. The device flow delivers, once. A client that is filed under its id begins
    a device authorization; a subject approves it under its user code, in any
    spelling that normalizes to it; and the client polls with its device code,
    each call at a time of its own and with no other request in between. Before
    the deadline, the lifetime after the beginning, the poll receives a pair of
    tokens whose access token introspects as active for the approving subject,
    the client and the granted scopes before its own deadline and as inactive
    from then on, and every later poll is refused. From the deadline on the poll
    is refused, with nothing spent. *)
Theorem device_flow_delivers_once `{!EntropyOk} fuel req w w1 resp t userCode subject scopes explicit w2 t2 :
  devices_wf (devices w) →
  (∀ c, Get (dq_ClientID req) (clients w) = Ok c → cl_ID c = dq_ClientID req) →
  run (BeginDeviceAuthorization s fuel req) w = Some (w1, Ok resp) →
  NormalizeUserCode userCode = NormalizeUserCode (dp_UserCode resp) →
  run (DecideDeviceAuthorization s userCode subject true scopes explicit) (at_time t w1) = Some (w2, Ok tt) →
  let poll t w := run (PollDeviceAuthorization s
    (mkDevicePoll (dq_ClientID req) (dq_ClientSecret req) (dp_DeviceCode resp))) (at_time t w) in
  if (t2 <? clock w + sv_deviceTTL s)%Z then
    ∃ w3 toks, poll t2 w2 = Some (w3, Ok toks) ∧
    (∀ t3, run (Introspect (tr_AccessToken toks)) (at_time t3 w3) = Some (at_time t3 w3, Ok
       (if (t3 <? t2 + sv_atTTL s)%Z
        then mkInfo true subject (dq_ClientID req) (default (dq_Scopes req) scopes) (t2 + sv_atTTL s)
        else inactive))) ∧
    ∀ t3, ∃ e, poll t3 w3 = Some (at_time t3 w3, Err (protocolError "invalid_grant" e))
  else ∃ e, poll t2 w2 = Some (at_time t2 w2, Err (protocolError "expired_token" e)).
Proof.
  intros Hwf Hreg Hbegin Hcode Hdec poll.
  destruct (run_Begin fuel req w w1 resp Hwf Hbegin) as (c & Hc & Hcl & Hwf1 & Hd & Hget). specialize (Hget _ Hcode).
  assert (Hid : cl_ID c = dq_ClientID req) by apply Hreg, Hc.
  destruct (Decide_in_time _ _ _ _ _ (at_time t w1) _ Hget Hdec) as [Hs Ht].
  rewrite (run_Decide s _ _ true scopes explicit _ (at_time t w1) Hwf1 Hs Hget) in Hdec
    by (done || by apply expired_false).
  destruct (granted_scopes _ _) as [g|] eqn:Eg; [|done]. apply granted_scopes_Ok in Eg as (Hgr & _ & _). subst g.
  destruct (scopes_result _ _ _ _) as [[c0 ds]|]; [|done]. destruct (checkExplicit _ _); [done|]. injection Hdec as <-.
  set (d1 := with_decision (mkDecision DeviceApproved subject (default (dq_Scopes req) scopes) explicit) (begun req resp c w)).
  set (w2 := decided_world _ _ _ _ _ _) in *.
  assert (Hd1 : byDev (devices w2) !! TokenHash (dp_DeviceCode resp) = Some d1) by apply lookup_insert_eq.
  assert (Hwf2 : devices_wf (devices w2)) by (eapply devices_wf_update; eauto).
  assert (Hcl2 : clients w2 = clients w) by exact Hcl.
  pose proof (run_Poll s (mkDevicePoll (dq_ClientID req) (dq_ClientSecret req) (dp_DeviceCode resp)) (at_time t2 w2) Hwf2) as Hpoll.
  cbv zeta in Hpoll. cbn [dx_DeviceCode dx_ClientID dx_ClientSecret] in Hpoll. world_simpl.
  rewrite Hcl2, (proj2 (client_result_Ok _ _ _ c) Hc), Hd1 in Hpoll.
  rewrite (bool_decide_true (dr_ClientID d1 = _)) in Hpoll by done. cbn [negb] in Hpoll.
  change (dr_ExpiresAt d1) with (clock w + sv_deviceTTL s)%Z in Hpoll. change (dr_Status d1) with DeviceApproved in Hpoll.
  unfold expired, time_Before in Hpoll. destruct (t2 <? _)%Z; cbn [negb] in Hpoll; [|by eexists].
  set (w3 := issue_world _ _ _ _ _ _) in Hpoll. exists w3, (issue_response s (entropy w2) (dr_Scopes d1)). split; [exact Hpoll|]. split.
  - intros t3. rewrite <-Hid. apply (issue_introspects s (cl_ID c) subject (default (dq_Scopes req) scopes) EmptyString
      (set_devices _ (at_time t2 w2)) c). change (Get (cl_ID c) (clients w2) = Ok c). rewrite Hcl2, Hid. apply Hc.
  - intros t3. apply (Poll_spent _ _ c).
    + change (devices (at_time t3 w3)) with (ConsumeDevice (TokenHash (dp_DeviceCode resp)) (devices w2)).1.
      eapply device_step_wf; [done|apply step_consume].
    + change (clients (at_time t3 w3)) with (clients w2). by rewrite Hcl2.
    + change (devices (at_time t3 w3)) with (ConsumeDevice (TokenHash (dp_DeviceCode resp)) (devices w2)).1.
      unfold ConsumeDevice. cbn [dx_DeviceCode]. rewrite Hd1. apply lookup_delete_eq.
Qed.

(** User codes: whenever the generator yields eight acceptable bytes within
    the fuel, drawing a code returns, with nine characters, a dash in the
    middle and the letters those bytes select; typed back in either case it
    normalizes to those letters. Rejection makes the letters uniform: each of
    the twenty is selected by exactly twelve of the acceptable bytes. *)
Theorem newUserCode_exact `{!EntropyOk} fuel w :
  userCodeLen ≤ length (kept (entropy w) fuel) →
  let letters := String.string_of_list_ascii (userCodeChar <$> take userCodeLen (kept (entropy w) fuel)) in
  (∃ k code, k ≤ fuel ∧
    run (newUserCode (S fuel)) w = Some (set_entropy (k + entropy w) w, Ok code) ∧
    len code = 9 ∧ String.get 4 code = Some dash ∧
    NormalizeUserCode code = letters ∧ NormalizeUserCode (str_map ascii_lower code) = letters) ∧
  (∀ c, c ∈ String.list_ascii_of_string userCodeAlphabet →
     length (filter (λ b, acceptable b = true ∧ userCodeChar b = c)
               ((λ n, chr (N.of_nat n)) <$> seq 0 256)) = 12).
Proof.
  intros Hk letters. split.
  - destruct (run_userCode_loop fuel EmptyString w) as (k & Hkf & Hrun);
      [unfold userCodeLen in *; simpl in *; lia..|].
    change (userCodeLen - len EmptyString) with userCodeLen in Hrun.
    assert (Hup : str_forall is_upper letters = true).
    { apply str_forall_of_list, Forall_fmap, Forall_take, Forall_forall.
      intros b Hb. apply list_elem_of_filter in Hb as [Hb _]. by apply userCodeChar_upper. }
    assert (Hlen : length (userCodeChar <$> take userCodeLen (kept (entropy w) fuel)) = 8)
      by (rewrite length_fmap, length_take; unfold userCodeLen in *; lia).
    unfold letters in *. clear letters.
    destruct (userCodeChar <$> _) as [|c1 [|c2 [|c3 [|c4 [|c5 [|c6 [|c7 [|c8 [|? ?]]]]]]]]]; try done.
    eexists k, _. split; [done|]. unfold newUserCode. rewrite run_bind, Hrun. split; [reflexivity|].
    split; [done|]. split; [done|].
    set (a := String.string_of_list_ascii [c1; c2; c3; c4]).
    set (b := String.string_of_list_ascii [c5; c6; c7; c8]).
    change (str_forall is_upper (a +:+ b) = true) in Hup. rewrite str_forall_app in Hup.
    apply andb_true_iff in Hup as [Ha Hb].
    destruct (upper_letters a Ha) as (A1 & A2 & A3 & A4 & A5).
    destruct (upper_letters b Hb) as (B1 & B2 & B3 & B4 & B5).
    assert (Hmap : ∀ f x y, str_map f (x +:+ y) = str_map f x +:+ str_map f y).
    { intros f x y. induction x as [|? x IH]; [done|].
      change (String a0 x +:+ y) with (String a0 (x +:+ y)). simpl. by rewrite IH. }
    change (NormalizeUserCode (a +:+ String dash EmptyString +:+ b) = a +:+ b ∧
            NormalizeUserCode (str_map ascii_lower (a +:+ String dash EmptyString +:+ b)) = a +:+ b).
    split; rewrite NormalizeUserCode_plain; rewrite ?Hmap, ?str_filter_app, ?str_forall_app,
      ?A1, ?A2, ?A3, ?A4, ?A5, ?B1, ?B2, ?B3, ?B4, ?B5; done.
  - intros c Hc. unfold userCodeAlphabet in Hc. simpl in Hc.
    repeat (apply elem_of_cons in Hc as [->|Hc]; [vm_compute; reflexivity|]).
    by apply not_elem_of_nil in Hc.
Qed.

(** The advertised polling interval can be trusted: for every configured
    interval that leaves room for the rounding it is the next whole number of
    seconds, at least one, and a client that waits it out is never told to slow
    down. *)
Theorem pollSeconds_exact :
  (0 < sv_pollInterval s)%Z → (sv_pollInterval s + time_Second <= max_int64)%Z →
  (1 <= pollSeconds s)%Z ∧
  (sv_pollInterval s <= pollSeconds s * time_Second < sv_pollInterval s + time_Second)%Z ∧
  ∀ d t, (dr_LastPoll d + pollSeconds s * time_Second <= t)%Z → poll_too_soon s t d = false.
Proof.
  intros Hpos Hmax. unfold time_Second in *.
  assert (Hp : pollSeconds s = ((sv_pollInterval s + 999999999) / 1000000000)%Z).
  { unfold pollSeconds, time_Second, max_int64 in *.
    rewrite (wrap64_id (sv_pollInterval s + _)) by (unfold max_int64; lia).
    rewrite wrap64_id by (unfold max_int64; lia).
    replace (sv_pollInterval s + 1000000000 - 1)%Z with (sv_pollInterval s + 999999999)%Z by lia.
    rewrite Z.quot_div_nonneg by lia.
    destruct (Z.ltb_spec ((sv_pollInterval s + 999999999) / 1000000000) 1); lia. }
  rewrite Hp. split_and!; [lia|lia|lia|].
  intros d t Ht. unfold poll_too_soon, time_Before. apply andb_false_iff. right.
  apply Z.ltb_ge. lia.
Qed.
End device_flow_properties.

(** ** Witnesses *)

#[local] Existing Instance toy_platform.
#[local] Existing Instance toy_platform_ok.
#[local] Existing Instance demo_entropy.
#[local] Existing Instance demo_entropy_ok.

Lemma demo_world_devices_wf : devices_wf (devices demo_world).
Proof. eapply device_step_wf; [apply devices_wf_new|apply (step_save _ "dev" demo_request)]. Qed.

Definition demo_poll : DeviceCodeExchangeRequest := mkDevicePoll "app" "s3cret" "dev".
(** The pending request as the store holds it, and the world after its approval. *)
Definition demo_pending : DeviceAuthorizationRecord := with_hash (TokenHash "dev") demo_request.
Definition demo_approved : memory_world :=
  match run (DecideDeviceAuthorization demo_service "bcdf-ghjk" "alice" true None []) demo_world with
  | Some (w, _) => w
  | None => demo_world
  end.

Lemma demo_pending_stored : byDev (devices demo_world) !! TokenHash "dev" = Some demo_pending.
Proof. vm_compute. reflexivity. Qed.

Lemma Poll_exact_witness :
  ∃ w' e, run (PollDeviceAuthorization demo_service demo_poll) demo_world =
            Some (w', Err (protocolError "authorization_pending" e)) ∧ tokens w' = tokens demo_world.
Proof.
  destruct (Poll_exact demo_service demo_poll demo_world demo_client demo_world_devices_wf
    demo_admitted) as (w' & r & Hrun & _ & _ & _ & Hr).
  change (TokenHash (dx_DeviceCode demo_poll)) with (TokenHash "dev") in Hr.
  rewrite demo_pending_stored in Hr. destruct (proj2 (proj2 Hr eq_refl) eq_refl) as (Ht & _ & _ & e & ->).
  by exists w', e.
Defined.

Lemma Decide_exact_witness :
  ∃ w' r, run (DecideDeviceAuthorization demo_service "BCDF-GHJK" "alice" false None []) demo_world =
            Some (w', r) ∧ is_ok r = true.
Proof.
  destruct (Decide_exact demo_service "BCDF-GHJK" "alice" false None [] demo_pending demo_world
    demo_world_devices_wf) as (w' & r & Hrun & _ & _ & Hok & _);
    [done|vm_compute; reflexivity|reflexivity|reflexivity|].
  exists w', r. split; [exact Hrun|]. by apply Hok.
Defined.

(** A client begins, the user types the code in lower case, the client polls. *)
Definition demo_begin : DeviceAuthorizationRequest := mkDeviceReq "app" "s3cret" [ScopeAccountID].
Definition demo_begun : memory_world * DeviceAuthorizationResponse :=
  match run (BeginDeviceAuthorization demo_service 200 demo_begin) demo_world with
  | Some (w, Ok r) => (w, r)
  | _ => (demo_world, mkDeviceResp EmptyString EmptyString EmptyString EmptyString 0 0)
  end.
Definition demo_typed : string := str_map ascii_lower (dp_UserCode demo_begun.2).
Definition demo_allowed : memory_world :=
  match run (DecideDeviceAuthorization demo_service demo_typed "alice" true None []) (at_time 20 demo_begun.1) with
  | Some (w, _) => w
  | None => demo_world
  end.

Lemma device_flow_delivers_once_witness :
  ∃ w3 toks,
    run (PollDeviceAuthorization demo_service (mkDevicePoll "app" "s3cret" (dp_DeviceCode demo_begun.2)))
      (at_time 30 demo_allowed) = Some (w3, Ok toks) ∧
    run (Introspect (tr_AccessToken toks)) (at_time 40 w3) =
      Some (at_time 40 w3, Ok (mkInfo true "alice" "app" [ScopeAccountID] (30 + sv_atTTL demo_service))).
Proof.
  destruct (device_flow_delivers_once demo_service 200 demo_begin demo_world demo_begun.1 demo_begun.2 20
    demo_typed "alice" None [] demo_allowed 30 demo_world_devices_wf) as (w3 & toks & Hpoll & Hint & _).
  - intros c. vm_compute. intros [= <-]. reflexivity.
  - vm_compute. reflexivity.
  - vm_compute. reflexivity.
  - vm_compute. reflexivity.
  - exists w3, toks. split; [exact Hpoll|]. exact (Hint 40%Z).
Defined.

Lemma newUserCode_exact_witness :
  ∃ k code, k ≤ 8 ∧
    run (newUserCode (S 8)) demo_world = Some (set_entropy (k + 0) demo_world, Ok code) ∧ len code = 9.
Proof.
  destruct (newUserCode_exact 8 demo_world) as [(k & code & Hk & Hrun & Hl & _) _];
    [vm_compute; lia|].
  by exists k, code.
Defined.

Lemma pollSeconds_exact_witness :
  (1 <= pollSeconds demo_service)%Z ∧ poll_too_soon demo_service (3 + 5 * time_Second)
    (with_poll 3 demo_pending) = false.
Proof.
  destruct (pollSeconds_exact demo_service) as (H1 & _ & Hs); [reflexivity|vm_compute; done|].
  split; [exact H1|]. apply Hs. vm_compute. done.
Defined.
