(* ===== verification/Concurrency.v ===== *)
(** * Requests that interleave

    Pools of handlers of [Service] over one in-memory world, scheduled action
    by action. A code, a refresh token and an approved device authorization are
    each spent at most once, whatever else runs; and a schedule on which a
    revocation of a grant is undone by an exchange that was already under
    way. *)

From S2P Require Import Prelude GoStd Scope Proc Tokens Client AuditLog Device Service ServiceRun Demo.

Create HintDb quiet.

(** ** Requests *)

(** What can run against one service, maintenance included. *)
Inductive request :=
| RqDescribe (r : AuthorizationRequest)
| RqAuthorize (r : AuthorizationRequest)
| RqExchange (r : CodeExchangeRequest)
| RqRefresh (r : RefreshRequest)
| RqRevoke (r : RevokeRequest)
| RqIntrospect (v : string)
| RqAuthenticate (id secret : string)
| RqGrants (subject : string)
| RqRevokeGrant (subject clientID : string)
| RqBeginDevice (fuel : nat) (r : DeviceAuthorizationRequest)
| RqPollDevice (r : DeviceCodeExchangeRequest)
| RqDescribeDevice (userCode : string)
| RqDecideDevice (userCode subject : string) (approve : bool) (scopes : option (list Scope))
    (explicit : list Scope)
| RqRevokeTokens (f : TokenFilter)
| RqSweep
| RqClock (d : Z).

Section serve.
Context `{Platform} `{Entropy} (s : service).
Local Abbreviation W := memory_world.

Definition advance (d : Z) (w : W) : W :=
  mkWorld (clients w) (tokens w) (devices w) (logger w) (clock w + Z.abs d) (refreshLocks w)
    (lockHeap w) (nextLock w) (grantEpochs w) (entropy w).

(** The handler of a request; the tokens it was answered with, if any. *)
Definition serve (rq : request) : go W (option TokenResponse) :=
  match rq with
  | RqDescribe r => DescribeAuthorization s r;; mret None
  | RqAuthorize r => Authorize s r;; mret None
  | RqExchange r => t ← Exchange s r; mret (Some t)
  | RqRefresh r => t ← Refresh s r; mret (Some t)
  | RqRevoke r => Revoke s r;; mret None
  | RqIntrospect v => Introspect v;; mret None
  | RqAuthenticate id secret => AuthenticateClient s id secret;; mret None
  | RqGrants subject => Grants subject;; mret None
  | RqRevokeGrant subject clientID => RevokeGrant subject clientID;; mret None
  | RqBeginDevice fuel r => BeginDeviceAuthorization s fuel r;; mret None
  | RqPollDevice r => t ← PollDeviceAuthorization s r; mret (Some t)
  | RqDescribeDevice c => DescribeDeviceAuthorization s c;; mret None
  | RqDecideDevice c sub a sc ex => DecideDeviceAuthorization s c sub a sc ex;; mret None
  | RqRevokeTokens f => on_tokens (admin_RevokeTokens f);; mret None
  | RqSweep => modify (λ w, set_tokens (SweepExpired (clock w) (tokens w)).1 w);; mret None
  | RqClock d => modify (advance d);; mret None
  end.

(** ** Tickets over the in-memory world *)

(** The value comes from a read of the generator at or after the [n0]-th. *)
Definition drawn (n0 : nat) (v : string) : Prop := ∃ n, n0 ≤ n ∧ v = token_at n.

(** The calls of the service on the token store: what it saves it has drawn. *)
Definition op_drawn (n0 : nat) (op : store_op) : Prop :=
  match op with
  | OpSaveCode v _ | OpSaveRefresh v _ => drawn n0 v
  | _ => True
  end.

(** A ticket lives in the stores, and no call of the service puts it back. *)
Class Ticket (n0 : nat) (holds : MemoryStore → MemoryDeviceStore → Prop) : Prop := {
  tk_tokens op st dv : op_drawn n0 op → ¬ holds st dv → ¬ holds (apply_op op st) dv;
  tk_save code d st dv : drawn n0 code → ¬ holds st dv → ¬ holds st (SaveDevice code d dv).1;
  tk_poll h t st dv : ¬ holds st dv → ¬ holds st (RecordPoll h t dv).1;
  tk_decide h dec st dv : ¬ holds st dv → ¬ holds st (RecordDecision h dec dv).1;
  tk_consume h st dv : ¬ holds st dv → ¬ holds st (ConsumeDevice h dv).1;
}.

(** The invariant of the world a ticket needs: the generator has passed the
    [n0]-th read, and device records sit under their own hash. *)
Definition running (n0 : nat) (w : W) : Prop :=
  n0 ≤ entropy w ∧ ∀ h d, byDev (devices w) !! h = Some d → dr_DeviceCodeHash d = h.

Section quiet_actions.
Context (n0 : nat) (holds : MemoryStore → MemoryDeviceStore → Prop) `{!Ticket n0 holds}.
Local Abbreviation I := (running n0).
Local Abbreviation has := (λ w : W, holds (tokens w) (devices w)).
Local Abbreviation quiet := (Proc.quiet I has).
Local Abbreviation any := (λ _, True).

(** *** Actions *)

Lemma quiet_newToken :
  quiet newToken (λ r, match r with Ok v => drawn n0 v | Err _ => True end).
Proof.
  unfold newToken. eapply (quiet_bind _ _ _ _ (λ r, match r with
    | Ok (Ok b) => drawn n0 (RawURL_EncodeToString b) | _ => True end)).
  - eapply (quiet_try _ _ _ (λ r, match r with
      | Ok b => drawn n0 (RawURL_EncodeToString b) | Err _ => True end)); [|by intros [?|?]].
    apply quiet_call.
    + intros w [Hn Hd]. split; [split; simpl; [lia|done]|done].
    + intros w [Hn _]. simpl. destruct (rand_read (entropy w) 32) as [b|] eqn:E; [|done].
      exists (entropy w). split; [done|]. unfold token_at. by rewrite E.
  - intros [b|e] Hb; by apply quiet_ret.
  - done.
Qed.

Lemma quiet_draw n : quiet (draw n) any.
Proof. apply quiet_call; [|done]. intros w [Hn Hd]. split; [split; simpl; [lia|done]|done]. Qed.

Lemma quiet_tokens {A} (f : MemoryStore → MemoryStore * result A) op :
  op_drawn n0 op → (∀ st, (f st).1 = apply_op op st) → quiet (on_tokens f) any.
Proof.
  intros Hop Hf. apply quiet_call; [|done]. intros w [Hn Hd].
  specialize (Hf (tokens w)). destruct (f (tokens w)) as [st r]. simpl in *. subst st.
  split; [done|]. by apply tk_tokens.
Qed.

Lemma quiet_tokens_at {A} (f : Z → MemoryStore → MemoryStore * result A) op :
  (∀ t, op_drawn n0 (op t)) → (∀ t st, (f t st).1 = apply_op (op t) st) → quiet (on_tokens_at f) any.
Proof.
  intros Hop Hf. apply quiet_call; [|done]. intros w [Hn Hd].
  specialize (Hf (clock w) (tokens w)). destruct (f (clock w) (tokens w)) as [st r]. simpl in *.
  subst st. split; [done|]. by apply tk_tokens.
Qed.

Lemma quiet_ask_tokens {A} (f : MemoryStore → result A) : quiet (ask_tokens f) any.
Proof. by apply quiet_call. Qed.
Lemma quiet_ask_tokens_at {A} (f : Z → MemoryStore → result A) : quiet (ask_tokens_at f) any.
Proof. by apply quiet_call. Qed.
Lemma quiet_ask_devices {A} (f : MemoryDeviceStore → result A) : quiet (ask_devices f) any.
Proof. by apply quiet_call. Qed.
Lemma quiet_ask_clients {A} (f : MemoryClientRegistry → A) : quiet (ask_clients f) any.
Proof. by apply quiet_reads. Qed.
Lemma quiet_now : quiet now any.
Proof. by apply quiet_reads. Qed.
Lemma quiet_grantEpoch sub c : quiet (grantEpoch sub c) any.
Proof. by apply quiet_reads. Qed.
Lemma quiet_record a sub c o : quiet (record a sub c o) any.
Proof. by apply quiet_modify. Qed.
Lemma quiet_bumpGrantEpoch sub c : quiet (bumpGrantEpoch sub c) any.
Proof. by apply quiet_modify. Qed.
Lemma quiet_lift {A} (r : result A) : quiet (lift_result r) any.
Proof. by apply quiet_ret. Qed.
Lemma quiet_throw {A} e : quiet (throw (A:=A) e) any.
Proof. by apply quiet_ret. Qed.
Lemma quiet_mret {A} (a : A) : quiet (mret (M:=go W) a) any.
Proof. by apply quiet_ret. Qed.
Lemma quiet_guard b e : quiet (guard_err b e) any.
Proof. destruct b; by apply quiet_ret. Qed.
Lemma quiet_diverge {A} : quiet (diverge (A:=A)) any.
Proof. intros c w w' b _. by destruct b. Qed.

Lemma quiet_SaveDevice code d : drawn n0 code → quiet (on_devices (dev_SaveDevice code d)) any.
Proof.
  intros Hc. apply quiet_call; [|done]. intros w [Hn Hd]. simpl.
  destruct (SaveDevice code d (devices w)) as [dv r] eqn:E. simpl. split; [split; simpl; [done|]|].
  - intros h d' Hh. unfold SaveDevice in E. repeat case_match; simplify_eq; eauto.
    simpl in Hh. apply lookup_insert_Some in Hh as [[<- <-]|[_ Hh]]; eauto.
  - intros Hno. pose proof (tk_save code d (tokens w) (devices w) Hc Hno) as Hs. by rewrite E in Hs.
Qed.

Lemma quiet_RecordPoll h t : quiet (on_devices (dev_RecordPoll h t)) any.
Proof.
  apply quiet_call; [|done]. intros w [Hn Hd]. simpl.
  destruct (RecordPoll h t (devices w)) as [dv r] eqn:E. simpl. split; [split; simpl; [done|]|].
  - intros h' d' Hh. unfold RecordPoll in E. repeat case_match; simplify_eq; eauto.
    simpl in Hh. apply lookup_insert_Some in Hh as [[<- <-]|[_ Hh]]; simpl; eauto.
  - intros Hno. pose proof (tk_poll h t (tokens w) (devices w) Hno) as Hs. by rewrite E in Hs.
Qed.

Lemma quiet_RecordDecision h dec : quiet (on_devices (dev_RecordDecision h dec)) any.
Proof.
  apply quiet_call; [|done]. intros w [Hn Hd]. simpl.
  destruct (RecordDecision h dec (devices w)) as [dv r] eqn:E. simpl. split; [split; simpl; [done|]|].
  - intros h' d' Hh. unfold RecordDecision in E. repeat case_match; simplify_eq; eauto.
    simpl in Hh. apply lookup_insert_Some in Hh as [[<- <-]|[_ Hh]]; simpl; eauto.
  - intros Hno. pose proof (tk_decide h dec (tokens w) (devices w) Hno) as Hs. by rewrite E in Hs.
Qed.

Lemma ConsumeDevice_shrinks h dv h' d :
  byDev (ConsumeDevice h dv).1 !! h' = Some d → byDev dv !! h' = Some d.
Proof.
  unfold ConsumeDevice. repeat case_match; try done. simpl. by intros [_ ?]%lookup_delete_Some.
Qed.

Lemma quiet_ConsumeDevice h : quiet (on_devices (dev_ConsumeDevice h)) any.
Proof.
  apply quiet_call; [|done]. intros w [Hn Hd]. simpl.
  pose proof (ConsumeDevice_shrinks h (devices w)) as Hsh.
  pose proof (tk_consume h (tokens w) (devices w)) as Hs.
  destruct (ConsumeDevice h (devices w)) as [dv r]. simpl in *. split; [split; simpl; eauto|done].
Qed.
Lemma quiet_find_lock key : quiet (atomic (find_lock key)) any.
Proof. apply quiet_atomic; [|done]. intros w Hw. unfold find_lock. by repeat case_match. Qed.
Lemma quiet_take_mutex l : quiet (await (take_mutex l)) any.
Proof.
  apply quiet_await; [|done]. intros w w' Hw. unfold take_mutex.
  repeat case_match; intros; by simplify_eq.
Qed.
Lemma quiet_drop_mutex l : quiet (modify (drop_mutex l)) any.
Proof. apply quiet_modify; [|done]. intros w Hw. unfold drop_mutex. by case_match. Qed.
Lemma quiet_leave_lock key l : quiet (modify (leave_lock key l)) any.
Proof. apply quiet_modify; [|done]. intros w Hw. unfold leave_lock. by case_match. Qed.

Lemma quiet_SaveCode v c : drawn n0 v → quiet (on_tokens (store_SaveCode v c)) any.
Proof. intros Hv. by apply (quiet_tokens _ (OpSaveCode v c)). Qed.
Lemma quiet_SaveAccess v t : quiet (on_tokens (store_SaveAccess v t)) any.
Proof. by apply (quiet_tokens _ (OpSaveAccess v t)). Qed.
Lemma quiet_SaveRefresh v t : drawn n0 v → quiet (on_tokens (store_SaveRefresh v t)) any.
Proof. intros Hv. by apply (quiet_tokens _ (OpSaveRefresh v t)). Qed.
Lemma quiet_DeleteAccess v : quiet (on_tokens (store_DeleteAccess v)) any.
Proof. by apply (quiet_tokens _ (OpDeleteAccess v)). Qed.
Lemma quiet_DeleteRefresh v : quiet (on_tokens (store_DeleteRefresh v)) any.
Proof. by apply (quiet_tokens _ (OpDeleteRefresh v)). Qed.
Lemma quiet_ConsumeCode v : quiet (on_tokens (store_ConsumeCode v)) any.
Proof. by apply (quiet_tokens _ (OpConsumeCode v)). Qed.
Lemma quiet_ConsumeRefresh v : quiet (on_tokens_at (λ t, store_ConsumeRefresh t v)) any.
Proof. by apply (quiet_tokens_at _ (λ t, OpConsumeRefresh t v)). Qed.
Lemma quiet_RevokeFamily f : quiet (on_tokens (store_RevokeRefreshFamily f)) any.
Proof. by apply (quiet_tokens _ (OpRevokeRefreshFamily f)). Qed.
Lemma quiet_DeleteBySubjectClient sub c :
  quiet (on_tokens (store_DeleteBySubjectClient sub c)) any.
Proof. by apply (quiet_tokens _ (OpDeleteBySubjectClient sub c)). Qed.
Lemma quiet_RevokeTokens f : quiet (on_tokens (admin_RevokeTokens f)) any.
Proof. by apply (quiet_tokens _ (OpRevokeTokens f)). Qed.
Lemma quiet_sweep : quiet (modify (λ w, set_tokens (SweepExpired (clock w) (tokens w)).1 w)) any.
Proof.
  apply quiet_modify; [|done]. intros w Hw. split; [done|].
  by apply (tk_tokens (OpSweepExpired (clock w))).
Qed.
Lemma quiet_advance d : quiet (modify (advance d)) any.
Proof. by apply quiet_modify. Qed.

End quiet_actions.

#[local] Hint Resolve quiet_draw quiet_ask_tokens quiet_ask_tokens_at quiet_ask_devices quiet_ask_clients
  quiet_now quiet_grantEpoch quiet_record quiet_bumpGrantEpoch quiet_lift quiet_throw quiet_mret
  quiet_guard quiet_diverge quiet_SaveDevice quiet_RecordPoll quiet_RecordDecision
  quiet_ConsumeDevice quiet_find_lock quiet_take_mutex quiet_drop_mutex quiet_leave_lock
  quiet_SaveCode quiet_SaveAccess quiet_SaveRefresh quiet_DeleteAccess quiet_DeleteRefresh
  quiet_ConsumeCode quiet_ConsumeRefresh quiet_RevokeFamily quiet_DeleteBySubjectClient
  quiet_RevokeTokens quiet_sweep quiet_advance : quiet.

(** Walks a handler down to its actions. *)
Ltac quiet_step :=
  match goal with
  | |- Proc.quiet _ _ (mbind _ newToken) _ =>
      eapply quiet_bind; [apply quiet_newToken|intros ? ?|done]
  | |- Proc.quiet _ _ (mbind _ _) _ =>
      eapply (quiet_bind _ _ _ _ (λ _, True)); [|intros ? _|done]
  | |- Proc.quiet _ _ (try _) _ => eapply (quiet_try _ _ _ (λ _, True)); [|done]
  | |- Proc.quiet _ _ newToken _ => eapply quiet_mono; [by apply quiet_newToken|done]
  | |- Proc.quiet _ _ (match ?x with _ => _ end) _ => destruct x
  | |- Proc.quiet _ _ (let _ := _ in _) _ => cbv zeta
  | |- _ => solve [eauto with quiet nocore]
  end.
Ltac quiet_tac := repeat quiet_step.

(** *** Handlers *)

Section quiet_handlers.
Context (n0 : nat) (holds : MemoryStore → MemoryDeviceStore → Prop) `{!Ticket n0 holds}.
Local Abbreviation I := (running n0).
Local Abbreviation has := (λ w : W, holds (tokens w) (devices w)).
Local Abbreviation quiet := (Proc.quiet I has).
Local Abbreviation any := (λ _, True).

Lemma quiet_client id secret auth : quiet (client s id secret auth) any.
Proof. unfold client. quiet_tac. Qed.
#[local] Hint Resolve quiet_client : quiet.

Lemma quiet_describe r : quiet (describe s r) any.
Proof. unfold describe. quiet_tac. Qed.
Lemma quiet_describeScopes c sc : quiet (describeScopes s c sc) any.
Proof. unfold describeScopes. quiet_tac. Qed.
Lemma quiet_describeAuthenticatedScopes c se sc : quiet (describeAuthenticatedScopes s c se sc) any.
Proof. unfold describeAuthenticatedScopes. quiet_tac. Qed.
#[local] Hint Resolve quiet_describe quiet_describeScopes quiet_describeAuthenticatedScopes : quiet.

Lemma quiet_issue c sub sc f : quiet (issue s c sub sc f) any.
Proof. unfold issue. quiet_tac. Qed.
#[local] Hint Resolve quiet_issue : quiet.
Lemma quiet_issueGuarded c sub sc f e : quiet (issueGuarded s c sub sc f e) any.
Proof. unfold issueGuarded. quiet_tac. Qed.
#[local] Hint Resolve quiet_issueGuarded : quiet.

Lemma quiet_Exchange r : quiet (Exchange s r) any.
Proof. unfold Exchange. quiet_tac. Qed.

Lemma quiet_refreshFamilyKey v : quiet (refreshFamilyKey v) any.
Proof. unfold refreshFamilyKey. cbn [store_RefreshFamily memory_store]. quiet_tac. Qed.
Lemma quiet_lockRefreshFamily key : quiet (lockRefreshFamily key) any.
Proof. unfold lockRefreshFamily. quiet_tac. Qed.
Lemma quiet_unlockRefreshFamily key l : quiet (unlockRefreshFamily key l) any.
Proof. unfold unlockRefreshFamily. quiet_tac. Qed.
Lemma quiet_refresh_locked c r e : quiet (refresh_locked s c r e) any.
Proof. unfold refresh_locked. quiet_tac. Qed.
#[local] Hint Resolve quiet_refreshFamilyKey quiet_lockRefreshFamily quiet_unlockRefreshFamily
  quiet_refresh_locked : quiet.
Lemma quiet_Refresh r : quiet (Refresh s r) any.
Proof. unfold Refresh. quiet_tac. Qed.

Lemma quiet_userCode_loop fuel raw : quiet (userCode_loop fuel raw) any.
Proof. revert raw. induction fuel as [|fuel IH]; intros raw; cbn [userCode_loop]; quiet_tac. Qed.
Lemma quiet_newUserCode fuel : quiet (newUserCode fuel) any.
Proof. unfold newUserCode. quiet_step; [apply quiet_userCode_loop|quiet_tac]. Qed.
#[local] Hint Resolve quiet_newUserCode : quiet.
Lemma quiet_freeUserCode fuel n : quiet (freeUserCode fuel n) any.
Proof. induction n as [|n IH]; cbn [freeUserCode]; quiet_tac. Qed.
#[local] Hint Resolve quiet_freeUserCode : quiet.
Lemma quiet_saveDevice fuel n code base :
  drawn n0 code → quiet (saveDeviceAuthorization fuel n code base) any.
Proof. intros Hc. induction n as [|n IH]; cbn [saveDeviceAuthorization]; quiet_tac. Qed.
#[local] Hint Resolve quiet_saveDevice : quiet.

Lemma quiet_Poll r : quiet (PollDeviceAuthorization s r) any.
Proof. unfold PollDeviceAuthorization. quiet_tac. Qed.
#[local] Hint Resolve quiet_Exchange quiet_Refresh quiet_Poll : quiet.

Lemma quiet_serve rq : quiet (serve rq) any.
Proof.
  destruct rq; unfold serve, DescribeAuthorization, Authorize, Revoke, revocableOwner, Introspect,
    AuthenticateClient, Grants, RevokeGrant, BeginDeviceAuthorization, DescribeDeviceAuthorization,
    DecideDeviceAuthorization, apply_decision; cbn [store_SpentRefreshOwner memory_store]; quiet_tac.
Qed.
End quiet_handlers.
#[local] Hint Resolve quiet_client quiet_issueGuarded quiet_refreshFamilyKey quiet_lockRefreshFamily
  quiet_unlockRefreshFamily quiet_serve : quiet.

(** ** Credentials that are spent once *)

Inductive credential :=
| CodeOf (v : string)
| RefreshOf (v : string)
| DeviceOf (v : string).

Definition cred_value (c : credential) : string :=
  match c with CodeOf v | RefreshOf v | DeviceOf v => v end.

(** The store still holds it. *)
Definition holds_of (c : credential) (st : MemoryStore) (dv : MemoryDeviceStore) : Prop :=
  match c with
  | CodeOf v => is_Some (codes st !! TokenHash v)
  | RefreshOf v => is_Some (refresh st !! TokenHash v)
  | DeviceOf v => is_Some (byDev dv !! TokenHash v)
  end.

(** The request redeems it. *)
Definition presents (c : credential) (rq : request) : bool :=
  match c, rq with
  | CodeOf v, RqExchange r => bool_decide (xr_Code r = v)
  | RefreshOf v, RqRefresh r => bool_decide (rr_RefreshToken r = v)
  | DeviceOf v, RqPollDevice r => bool_decide (dx_DeviceCode r = v)
  | _, _ => false
  end.

(** No value drawn from the [n0]-th read on hashes like [v]. *)
Definition never_redrawn (n0 : nat) (v : string) : Prop :=
  ∀ n, n0 ≤ n → TokenHash (token_at n) ≠ TokenHash v.

Lemma drawn_other n0 v u : never_redrawn n0 v → drawn n0 u → TokenHash u ≠ TokenHash v.
Proof. intros Hv (n & Hn & ->). by apply Hv. Qed.

(** No call of the service on a store brings a map entry into being under a
    hash that is not drawn. *)
Lemma codes_shrink n0 v op st :
  never_redrawn n0 v → op_drawn n0 op →
  is_Some (codes (apply_op op st) !! TokenHash v) → is_Some (codes st !! TokenHash v).
Proof.
  intros Hv Hop [c Hc]. destruct op; simpl in *; try by eexists.
  all: try (apply delete_where_mono in Hc; by eexists).
  - rewrite lookup_insert_ne in Hc by (by eapply drawn_other). by eexists.
  - unfold MemoryStore_ConsumeCode in Hc. case_match; simpl in Hc; [|by eexists].
    apply lookup_delete_Some in Hc as [_ Hc]. by eexists.
  - unfold MemoryStore_ConsumeRefresh in Hc. repeat case_match; simpl in Hc; by eexists.
  - unfold MemoryStore_RevokeRefreshFamily in Hc. case_match; simpl in Hc; by eexists.
Qed.

Lemma refresh_shrink n0 v op st :
  never_redrawn n0 v → op_drawn n0 op →
  is_Some (refresh (apply_op op st) !! TokenHash v) → is_Some (refresh st !! TokenHash v).
Proof.
  intros Hv Hop [c Hc]. destruct op; simpl in *; try by eexists.
  all: try (apply delete_where_mono in Hc; by eexists).
  - unfold MemoryStore_ConsumeCode in Hc. case_match; simpl in Hc; by eexists.
  - rewrite lookup_insert_ne in Hc by (by eapply drawn_other). by eexists.
  - unfold MemoryStore_ConsumeRefresh in Hc. repeat case_match; simpl in Hc; try by eexists.
    apply lookup_delete_Some in Hc as [_ Hc]. by eexists.
  - apply lookup_delete_Some in Hc as [_ Hc]. by eexists.
  - unfold MemoryStore_RevokeRefreshFamily in Hc. case_match; simpl in Hc; [by eexists|].
    apply delete_where_mono in Hc. by eexists.
Qed.

Lemma holds_ticket n0 c : never_redrawn n0 (cred_value c) → Ticket n0 (holds_of c).
Proof.
  intros Hv. destruct c as [v|v|v]; split; simpl in *; try done.
  - intros op st _ Hop Hno Hs. by eapply Hno, codes_shrink.
  - intros op st _ Hop Hno Hs. by eapply Hno, refresh_shrink.
  - intros code d _ dv Hc Hno [d' Hd]. apply Hno. unfold SaveDevice in Hd.
    repeat case_match; simpl in Hd; [by eexists..|].
    rewrite lookup_insert_ne in Hd by (by eapply drawn_other). by eexists.
  - intros h t _ dv Hno [d Hd]. apply Hno. unfold RecordPoll in Hd.
    case_match; simpl in Hd; [|by eexists].
    apply lookup_insert_Some in Hd as [[<- _]|[_ Hd]]; by eexists.
  - intros h dec _ dv Hno [d Hd]. apply Hno. unfold RecordDecision in Hd.
    repeat case_match; simpl in Hd; try by eexists.
    apply lookup_insert_Some in Hd as [[<- _]|[_ Hd]]; by eexists.
  - intros h _ dv Hno [d Hd]. apply Hno. eexists. by eapply ConsumeDevice_shrinks.
Qed.

(** *** The three redemptions claim their ticket *)

(** Tokens were answered only by a process that holds the ticket. *)
Definition paid (c : bool) (r : result (option TokenResponse)) : Prop :=
  (∃ t, r = Ok (Some t)) → c = true.

Section claims.
Context (n0 : nat).

Lemma claim_code v :
  never_redrawn n0 v →
  ticket (running n0) (λ w : W, holds_of (CodeOf v) (tokens w) (devices w)) false
    (on_tokens (store_ConsumeCode v)) (λ c r, is_ok r = true → c = true).
Proof.
  intros Hv w w' b [Hn Hd] [= E]. simpl in E. unfold MemoryStore_ConsumeCode in E.
  destruct (codes (tokens w) !! TokenHash v) as [c|] eqn:Hc; injection E as <- <-; simpl.
  - split; [done|]. split; [intros Hno; by destruct Hno|]. right. split_and!; [done|by eexists| |done].
    rewrite lookup_delete_eq. by intros [? [=]].
  - rewrite Hc. split; [done|]. split; [done|]. by left.
Qed.

Lemma claim_refresh v :
  never_redrawn n0 v →
  ticket (running n0) (λ w : W, holds_of (RefreshOf v) (tokens w) (devices w)) false
    (on_tokens_at (λ t, store_ConsumeRefresh t v)) (λ c r, is_ok r = true → c = true).
Proof.
  intros Hv w w' b [Hn Hd] [= E]. simpl in E. unfold MemoryStore_ConsumeRefresh in E.
  destruct (refresh (tokens w) !! TokenHash v) as [c|] eqn:Hc.
  - injection E as <- <-. simpl. split; [done|]. split; [intros Hno; by destruct Hno|].
    right. split_and!; [done|by eexists| |done]. rewrite lookup_delete_eq. by intros [? [=]].
  - destruct (tombstones _ !! _) as [tb|]; [destruct (tomb_lapsed _ _ tb)|]; injection E as <- <-; simpl;
      rewrite Hc; (split; [done|]; split; [done|by left]).
Qed.

Lemma claim_device v :
  ticket (running n0) (λ w : W, holds_of (DeviceOf v) (tokens w) (devices w)) false
    (on_devices (dev_ConsumeDevice (TokenHash v))) (λ c r, (∃ d, r = Ok (Some d)) → c = true).
Proof.
  intros w w' b [Hn Hd] [= E]. simpl in E. unfold ConsumeDevice in E.
  destruct (byDev (devices w) !! TokenHash v) as [d|] eqn:Hc;
    [destruct (negb _)|]; injection E as <- <-; simpl.
  - rewrite Hc. split; [done|]. split; [done|]. left. by intros [? [=]].
  - split; [split; simpl; [done|]|].
    { intros h d' [_ Hh]%lookup_delete_Some. by apply Hd. }
    split; [intros Hno; by destruct Hno|]. right. split_and!; [done|by eexists| |done].
    rewrite lookup_delete_eq. by intros [? [=]].
  - rewrite Hc. split; [done|]. split; [done|]. left. by intros [? [=]].
Qed.

Local Abbreviation has c := (λ w : W, holds_of c (tokens w) (devices w)).
Local Abbreviation won := (λ b r, is_ok r = true → b = true).

(** Walks to the claim; what comes after it is quiet. *)
Ltac ticket_step :=
  match goal with
  | |- ticket _ _ _ (mbind _ (try (on_tokens (store_ConsumeCode _)))) _ => fail 1
  | |- ticket _ _ _ (mbind _ (try (on_tokens_at _))) _ => fail 1
  | |- ticket _ _ _ (mbind _ (on_devices (dev_ConsumeDevice _))) _ => fail 1
  | |- ticket _ _ _ (mbind _ _) _ =>
      eapply (ticket_quiet_bind _ _ _ _ _ (λ _, True)); [solve [quiet_tac]|intros ? _|done]
  | |- ticket _ _ _ (match ?x with _ => _ end) _ => destruct x eqn:?
  | |- ticket _ _ _ (throw _) _ => done
  | |- ticket _ _ true _ _ => eapply quiet_ticket; [solve [quiet_tac]|done]
  end.

Lemma ticket_Exchange r :
  never_redrawn n0 (xr_Code r) →
  ticket (running n0) (has (CodeOf (xr_Code r))) false (Exchange s r) won.
Proof.
  intros Hv. pose proof (holds_ticket n0 (CodeOf (xr_Code r)) Hv).
  unfold Exchange. repeat ticket_step.
  apply ticket_bind, ticket_try. eapply ticket_mono; [|by apply claim_code].
  intros b [code|e] Hb; [rewrite (Hb eq_refl)|]; repeat ticket_step.
Qed.

Lemma ticket_refresh_locked c r e :
  never_redrawn n0 (rr_RefreshToken r) →
  ticket (running n0) (has (RefreshOf (rr_RefreshToken r))) false (refresh_locked s c r e) won.
Proof.
  intros Hv. pose proof (holds_ticket n0 (RefreshOf (rr_RefreshToken r)) Hv).
  unfold refresh_locked.
  apply ticket_bind, ticket_try. eapply ticket_mono; [|by apply claim_refresh].
  intros b [rt|err] Hb; [rewrite (Hb eq_refl)|]; repeat ticket_step.
Qed.

Lemma ticket_Refresh r :
  never_redrawn n0 (rr_RefreshToken r) →
  ticket (running n0) (has (RefreshOf (rr_RefreshToken r))) false (Refresh s r) won.
Proof.
  intros Hv. pose proof (holds_ticket n0 (RefreshOf (rr_RefreshToken r)) Hv).
  unfold Refresh. do 7 ticket_step.
  apply ticket_bind, ticket_try. eapply ticket_mono; [|by apply ticket_refresh_locked].
  intros b r' Hb. by ticket_step.
Qed.

Lemma quiet_GetDevice v :
  Proc.quiet (running n0) (has (DeviceOf v)) (ask_devices (dev_GetDevice v))
    (λ r, ∀ d, r = Ok d → dr_DeviceCodeHash d = TokenHash v).
Proof.
  apply quiet_call; [done|]. intros w [_ Hd] d. simpl. unfold GetDevice.
  destruct (byDev (devices w) !! TokenHash v) as [d'|] eqn:E; [|done].
  intros [= <-]. by apply Hd.
Qed.

Lemma ticket_Poll r :
  never_redrawn n0 (dx_DeviceCode r) →
  ticket (running n0) (has (DeviceOf (dx_DeviceCode r))) false (PollDeviceAuthorization s r) won.
Proof.
  intros Hv. pose proof (holds_ticket n0 (DeviceOf (dx_DeviceCode r)) Hv).
  unfold PollDeviceAuthorization. ticket_step.
  eapply (ticket_quiet_bind _ _ _ _ _
    (λ r', ∀ d, r' = Ok (Ok d) → dr_DeviceCodeHash d = TokenHash (dx_DeviceCode r))).
  { eapply quiet_try; [apply quiet_GetDevice|]. intros r' Hr' d [= ->]. by apply Hr'. }
  2: done.
  intros [rec|err] Hrec; repeat ticket_step. rewrite (Hrec rec eq_refl).
  apply ticket_bind. eapply ticket_mono; [|apply claim_device].
  intros b [[d|]|err] Hb; [rewrite Hb by eauto|..]; repeat ticket_step. done.
Qed.

Lemma ticket_paid {A} h (p : go W A) (f : A → option TokenResponse) :
  ticket (running n0) h false p won → ticket (running n0) h false (a ← p; mret (f a)) paid.
Proof.
  intros Hp. apply ticket_bind. eapply ticket_mono; [|exact Hp].
  intros b [a|e] Hb; simpl; intros [t [=]]. by apply Hb.
Qed.

Lemma ticket_serve c rq :
  never_redrawn n0 (cred_value c) → presents c rq = true →
  ticket (running n0) (has c) false (serve rq) paid.
Proof.
  intros Hv Hp. destruct c, rq; try done; apply bool_decide_eq_true in Hp as <-; apply ticket_paid.
  - by apply ticket_Exchange.
  - by apply ticket_Refresh.
  - by apply ticket_Poll.
Qed.
End claims.

(** C2. Single use under concurrency. Take any number of requests of any kind,
    maintenance and revocations included, served at once by one service over
    one in-memory world, and any interleaving of their actions, finished or
    not. Of the requests that present the same authorization code, the same
    refresh token or the same device code, at most one has been answered with
    tokens, and then the credential is gone from its store. *)
Theorem credential_single_use c rqs w w' ps' i j r1 r2 t1 t2 :
  devices_wf (devices w) → never_redrawn (entropy w) (cred_value c) →
  preach (w, serve <$> rqs) (w', ps') →
  rqs !! i = Some r1 → presents c r1 = true → ps' !! i = Some (Ret (Ok (Some t1))) →
  rqs !! j = Some r2 → presents c r2 = true → ps' !! j = Some (Ret (Ok (Some t2))) →
  i = j ∧ ¬ holds_of c (tokens w') (devices w').
Proof.
  intros Hwf Hv Hr Hi Hpi Hri Hj Hpj Hrj.
  pose proof (holds_ticket _ c Hv) as Htk.
  set (Qs := λ k b r, (∃ rq, rqs !! k = Some rq ∧ presents c rq = true) → paid b r).
  apply (ticket_once (running (entropy w)) (λ w, holds_of c (tokens w) (devices w)) Qs
           w (serve <$> rqs) w' ps' i j (Ok (Some t1)) (Ok (Some t2))); try done.
  - split; [done|]. intros h d Hd. by apply Hwf in Hd as [? _].
  - intros k p Hk. apply list_lookup_fmap_Some in Hk as (rq & -> & Hrq).
    destruct (presents c rq) eqn:Hp.
    + eapply ticket_mono; [|by apply ticket_serve]. by intros b r Hb _.
    + eapply quiet_ticket; [by apply quiet_serve|]. intros r _ (rq' & Hrq' & Hp'). congruence.
  - intros b HQ. apply HQ; eauto.
  - intros b HQ. apply HQ; eauto.
Qed.
End serve.

(** ** Closed runs *)

#[local] Existing Instance toy_platform.

(** A generator that always answers the same bytes. *)
Definition still_entropy : Entropy := λ n k, Some (fill k "x").

#[local] Existing Instance still_entropy.

Local Abbreviation pool := (memory_world * list (go memory_world (option TokenResponse)))%type.

(** The pool a schedule leads to; unchanged if the schedule is not possible. *)
Definition after (sched : list nat) (x : pool) : pool := default x (run_sched sched x.1 x.2).
Definition possible (sched : list nat) (x : pool) : bool :=
  bool_decide (is_Some (run_sched sched x.1 x.2)).

Lemma after_reach sched x : possible sched x = true → preach x (after sched x).
Proof.
  destruct x as [w ps]. unfold possible, after. intros [[w' ps'] E]%bool_decide_eq_true.
  rewrite E. by eapply run_sched_reach.
Qed.

(** Two exchanges of one code take turns; the first takes the code. *)
Definition duel_requests : list request := [RqExchange demo_exchange; RqExchange demo_exchange].
Definition duel_sched : list nat := [0; 1; 0; 1; 0; 1; 0; 1; 0; 1; 0; 0; 0; 0; 0; 0; 0; 0; 0].
Definition duel : pool := after duel_sched (demo_world, serve demo_service <$> duel_requests).
Definition answer (i : nat) (x : pool) : TokenResponse :=
  match x.2 !! i with
  | Some (Ret (Ok (Some t))) => t
  | _ => mkTokens EmptyString EmptyString 0 EmptyString EmptyString
  end.

Lemma credential_single_use_witness :
  0 = 0 ∧ ¬ holds_of (CodeOf "code") (tokens duel.1) (devices duel.1).
Proof.
  apply (credential_single_use demo_service (CodeOf "code") duel_requests demo_world duel.1 duel.2
           0 0 (RqExchange demo_exchange) (RqExchange demo_exchange) (answer 0 duel) (answer 0 duel)).
  - apply SaveDevice_wf, devices_wf_new.
  - intros n _. vm_compute. discriminate.
  - rewrite <- surjective_pairing. apply after_reach. vm_compute. reflexivity.
  - reflexivity.
  - reflexivity.
  - vm_compute. reflexivity.
  - reflexivity.
  - reflexivity.
  - vm_compute. reflexivity.
Defined.

(** A token that introspects as active for a subject and a client. *)
Definition active_for (v sub cl : string) (w : memory_world) : bool :=
  match run (Introspect v) w with
  | Some (_, Ok i) => ti_Active i && bool_decide (ti_Subject i = sub) && bool_decide (ti_ClientID i = cl)
  | _ => false
  end.

Definition race_start : pool :=
  (demo_world, serve demo_service <$> [RqRevokeGrant "alice" "app"; RqExchange demo_exchange]).
(** The revocation bumps the epoch; the exchange runs up to the claim of its
    code; the revocation deletes, records and returns. *)
Definition race_revoked : pool := after [0; 1; 1; 1; 1; 1; 0; 0] race_start.
Definition race_end : pool := after [1; 1; 1; 1; 1; 1; 1; 1; 1] race_revoked.

(** The epoch is bumped before the records are deleted. An exchange that reads
    the epoch and takes its code between the two is invisible to the deletion
    and sees no change of epoch when it re-checks: it mints a live pair after
    [RevokeGrant] returned without error. *)
Theorem RevokeGrant_race :
  preach race_start race_revoked ∧ preach race_revoked race_end ∧
  race_revoked.2 !! 0 = Some (Ret (Ok None)) ∧
  access (tokens race_revoked.1) = ∅ ∧ refresh (tokens race_revoked.1) = ∅ ∧
  codes (tokens race_revoked.1) = ∅ ∧
  race_end.2 !! 1 = Some (Ret (Ok (Some (answer 1 race_end)))) ∧
  active_for (tr_AccessToken (answer 1 race_end)) "alice" "app" race_end.1 = true.
Proof.
  split; [apply after_reach; vm_compute; reflexivity|].
  split; [apply after_reach; vm_compute; reflexivity|].
  split_and!; vm_compute; reflexivity.
Qed.

(** Approve the pending device, revoke the grant, poll. *)
Definition device_after_revoke : go memory_world TokenResponse :=
  DecideDeviceAuthorization demo_service (dr_UserCode demo_request) "alice" true None [];;
  RevokeGrant "alice" "app";;
  PollDeviceAuthorization demo_service (mkDevicePoll "app" "s3cret" "dev").

(** An approved device authorization is not a record [RevokeGrant] deletes:
    polled after the revocation, it still mints a live pair. *)
Theorem RevokeGrant_leaves_device :
  match run device_after_revoke demo_world with
  | Some (w, Ok t) => active_for (tr_AccessToken t) "alice" "app" w = true
  | _ => False
  end.
Proof. vm_compute. reflexivity. Qed.
