(* ===== verification/SortedIndex.v ===== *)
(** * Sorted indexes

    Two stores keep the keys of a map in a sorted slice beside it and find a key
    by binary search. This file holds what they share: a strict total order given
    by a [less] function, the position of a key, insertion and removal, and the
    page after a cursor. *)

From S2P Require Import Prelude GoStd.

(** A [less] function that orders its arguments strictly and totally. *)
Class TotalLess {A} (less : A → A → bool) : Prop := {
  less_irrefl a : less a a = false;
  less_trans a b c : less a b = true → less b c = true → less a c = true;
  less_total a b : less a b = true ∨ a = b ∨ less b a = true;
}.

Section index.
Context {A : Type} `{EqDecision A} (less : A → A → bool).

(** [sort.Search] for the first element not less than [x], and whether it is
    [x]. *)
Definition index_of (x : A) (l : list A) : nat * bool :=
  let i := search_list (λ y, negb (less y x)) l in (i, bool_decide (l !! i = Some x)).

(** [append], [copy] one to the right, assign. *)
Definition index_insert (x : A) (l : list A) : list A :=
  let i := (index_of x l).1 in take i l ++ x :: drop i l.

Definition index_remove (x : A) (l : list A) : list A :=
  let '(i, ok) := index_of x l in if ok then take i l ++ drop (S i) l else l.

Local Abbreviation sorted := (StronglySorted (λ a b, less a b = true)).

Lemma elem_of_index_insert x l y : y ∈ index_insert x l ↔ y = x ∨ y ∈ l.
Proof.
  unfold index_insert. set (i := (index_of x l).1).
  rewrite <-(take_drop i l) at 3. rewrite !elem_of_app, elem_of_cons. tauto.
Qed.

Context `{!TotalLess less}.

Lemma less_asym a b : less a b = true → less b a = false.
Proof.
  intros H1. apply not_true_iff_false. intros H2.
  pose proof (less_trans _ _ _ H1 H2) as H3. by rewrite less_irrefl in H3.
Qed.

Lemma not_less a b : less a b = false → a = b ∨ less b a = true.
Proof. intros H. destruct (less_total a b) as [?|?]; [congruence|done]. Qed.

Lemma index_unique l1 l2 : sorted l1 → sorted l2 → (∀ x, x ∈ l1 ↔ x ∈ l2) → l1 = l2.
Proof.
  apply sorted_unique; [intros x; by rewrite less_irrefl|intros x y z; apply less_trans].
Qed.

(** The index around a key: the smaller ones before its position, the others
    from it on. *)
Lemma index_of_split x l :
  sorted l →
  take (index_of x l).1 l = filter (λ y, less y x = true) l ∧
  drop (index_of x l).1 l = filter (λ y, less y x = false) l.
Proof.
  intros Hs. unfold index_of. simpl.
  destruct (search_list_split (λ y, negb (less y x)) l) as [-> ->].
  - intros i j a b Hij Hi Hj. rewrite !negb_true_iff. intros Ha. apply not_true_iff_false. intros Hb.
    pose proof (sorted_lookup _ _ _ _ _ _ Hs Hi Hj Hij) as Hab. simpl in Hab.
    rewrite (less_trans _ _ _ Hab Hb) in Ha. done.
  - split; apply list_filter_iff; intros y; by destruct (less y x).
Qed.

Lemma index_insert_sorted x l : sorted l → x ∉ l → sorted (index_insert x l).
Proof.
  intros Hs Hx. unfold index_insert. destruct (index_of_split x l Hs) as [-> ->].
  assert (Hgt : ∀ y, y ∈ filter (λ y, less y x = false) l → less x y = true).
  { intros y [Hy Hin]%list_elem_of_filter. apply not_less in Hy as [->|]; done. }
  apply StronglySorted_app. split_and!.
  - intros y z [Hy _]%list_elem_of_filter [->|Hz]%elem_of_cons; [done|].
    eapply less_trans; [exact Hy|by apply Hgt].
  - by apply sorted_filter.
  - apply StronglySorted_cons. split; [by apply Forall_forall|by apply sorted_filter].
Qed.

Lemma index_remove_filter x l : sorted l → index_remove x l = filter (λ y, y ≠ x) l.
Proof.
  intros Hs. unfold index_remove. destruct (index_of_split x l Hs) as [Ht Hd].
  destruct (index_of x l) as [i ok] eqn:E. simpl in *. injection E as Ei Eok. rewrite Ei in Eok.
  destruct ok.
  - apply bool_decide_eq_true in Eok.
    assert (Heq : l = take i l ++ x :: drop (S i) l) by (symmetry; by apply take_drop_middle).
    assert (Hx : x ∉ take i l ++ drop (S i) l).
    { intros Hin. rewrite Heq in Hs. apply StronglySorted_app in Hs as (H1 & _ & H2).
      apply StronglySorted_cons in H2 as [H2 _]. rewrite Forall_forall in H2.
      apply elem_of_app in Hin as [Hin|Hin].
      - specialize (H1 x x Hin ltac:(set_solver)). by rewrite less_irrefl in H1.
      - specialize (H2 x Hin). by rewrite less_irrefl in H2. }
    rewrite Heq at 3. rewrite filter_app, filter_cons_False by (intros Hne; by apply Hne).
    rewrite !filter_all; [done|..]; apply Forall_forall; intros y Hy ->; set_solver.
  - symmetry. apply filter_all, Forall_forall. intros y Hy ->.
    apply bool_decide_eq_false in Eok. apply Eok.
    assert (Hin : x ∈ drop i l).
    { rewrite Hd. apply list_elem_of_filter. split; [apply less_irrefl|done]. }
    destruct (drop i l) as [|y l'] eqn:El; [by apply not_elem_of_nil in Hin|].
    assert (Hy' : l !! i = Some y) by (rewrite <-(Nat.add_0_r i), <-lookup_drop, El; done).
    rewrite Hy'. f_equal. apply elem_of_cons in Hin as [->|Hin]; [done|]. exfalso.
    assert (Hs' : sorted (y :: l')) by (rewrite Hd; by apply sorted_filter).
    apply StronglySorted_cons in Hs' as [Hs' _]. rewrite Forall_forall in Hs'.
    specialize (Hs' x Hin).
    assert (Hyl : y ∈ y :: l') by set_solver. rewrite Hd in Hyl.
    apply list_elem_of_filter in Hyl as [Hyl _]. congruence.
Qed.

(** The elements after a cursor, by binary search. *)
Lemma index_after c l :
  sorted l → drop (search_list (less c) l) l = filter (λ y, less c y = true) l.
Proof.
  intros Hs. apply search_list_split. intros i j a b Hij Hi Hj Ha.
  eapply less_trans; [exact Ha|]. exact (sorted_lookup _ _ _ _ _ _ Hs Hi Hj Hij).
Qed.

(** The elements after one of the list are those that follow it. *)
Lemma index_after_prefix l1 x l2 :
  sorted (l1 ++ x :: l2) → filter (λ y, less x y = true) (l1 ++ x :: l2) = l2.
Proof.
  intros (H1 & _ & [H2 _]%StronglySorted_cons)%StronglySorted_app.
  rewrite filter_app, filter_cons_False by (by rewrite less_irrefl).
  rewrite filter_none, filter_all; [done|done|]. apply Forall_forall. intros y Hy.
  rewrite less_asym; [done|]. apply H1; [done|by left].
Qed.
End index.

Lemma search_list_ext {A} (P Q : A → bool) l :
  (∀ x, x ∈ l → P x = Q x) → search_list P l = search_list Q l.
Proof.
  intros HPQ. unfold search_list, sort_Search.
  set (f := λ i, _). set (g := λ i, match l !! i with Some x => Q x | None => false end).
  assert (Hfg : ∀ i, f i = g i).
  { intros i. unfold f, g. destruct (l !! i) as [x|] eqn:E; [|done]. by eapply HPQ, list_elem_of_lookup_2. }
  assert (Hg : ∀ fuel i j, search_loop fuel f i j = search_loop fuel g i j); [|apply Hg].
  induction fuel as [|fuel IH]; intros i j; cbn [search_loop]; [done|].
  destruct (i <? j); [|done]. cbv zeta. rewrite Hfg. case_match; apply IH.
Qed.
