(* ===== verification/VaultRepo.v ===== *)
(** * The credential repository ([vault/repo.go])

    Identities, records, the [Repo] and [RecordPager] interfaces as one class,
    and [MemoryRepo]: a map with a sorted index of its keys, kept in step by
    binary search. *)

From S2P Require Import Prelude GoStd SortedIndex.

(** ** Identities *)

Record Identity := mkIdentity {
  id_Subject : string;
  id_Provider : string;
}.

#[export] Instance Identity_eq_dec : EqDecision Identity.
Proof. solve_decision. Defined.
#[export] Instance Identity_countable : Countable Identity.
Proof.
  refine (inj_countable' (λ i, (id_Subject i, id_Provider i)) (λ p, mkIdentity p.1 p.2) _).
  by intros [].
Defined.

Definition ErrInvalidIdentity : error := New "vault: invalid identity".
Definition ErrNotFound : error := New "vault: credential not found".
Definition maxIdentityFieldLen : nat := 1024.

(** [Identity.validate]; [None] is the nil error. *)
Definition validate (i : Identity) : option error :=
  if bool_decide (id_Subject i = EmptyString) then Some ErrInvalidIdentity else
  if bool_decide (id_Provider i = EmptyString) then Some ErrInvalidIdentity else
  if (maxIdentityFieldLen <? len (id_Subject i)) || (maxIdentityFieldLen <? len (id_Provider i))
  then Some ErrInvalidIdentity else None.

(** [identityRef]: an identity in an error message. *)
Definition identityRef `{Platform} (id : Identity) : string :=
  "provider " +:+ strconv_Quote (id_Provider id) +:+ " (subject " +:+
  strconv_Itoa (Z.of_nat (len (id_Subject id))) +:+ " bytes)".

(** [identityLess]. *)
Definition identityLess (a b : Identity) : bool :=
  if negb (bool_decide (id_Subject a = id_Subject b))
  then str_lt (id_Subject a) (id_Subject b)
  else str_lt (id_Provider a) (id_Provider b).

(** [recordAfter]. *)
Definition recordAfter (id : Identity) (subject provider : string) : bool :=
  if bool_decide (subject = EmptyString) && bool_decide (provider = EmptyString) then true
  else if negb (bool_decide (id_Subject id = subject)) then str_lt subject (id_Subject id)
  else str_lt provider (id_Provider id).

(** ** Records *)

(** [Record]; a nil [Meta] is [None]. *)
Record CredRecord := mkRecord {
  rec_Identity : Identity;
  rec_Version : N;
  rec_WrappedDEK : string;
  rec_KEKID : string;
  rec_Nonce : string;
  rec_Ciphertext : string;
  rec_Meta : option (gmap string string);
  rec_CreatedAt : Z;
  rec_UpdatedAt : Z;
}.

Record Envelope := mkEnvelope {
  env_KEKID : string;
  env_WrappedDEK : string;
  env_UpdatedAt : Z;
}.

(** [cloneMeta]: the same entries in a new map. *)
Definition cloneMeta (m : option (gmap string string)) : option (gmap string string) :=
  match m with None => None | Some m => Some (list_to_map (map_to_list m)) end.

(** [cloneRecord]; the byte slices are values here. *)
Definition cloneRecord (r : CredRecord) : CredRecord :=
  mkRecord (rec_Identity r) (rec_Version r) (rec_WrappedDEK r) (rec_KEKID r) (rec_Nonce r)
    (rec_Ciphertext r) (cloneMeta (rec_Meta r)) (rec_CreatedAt r) (rec_UpdatedAt r).

(** The record with another envelope, as [RewrapIfUnchanged] writes it. *)
Definition rewrapped (next : Envelope) (r : CredRecord) : CredRecord :=
  mkRecord (rec_Identity r) (rec_Version r) (env_WrappedDEK next) (env_KEKID next) (rec_Nonce r)
    (rec_Ciphertext r) (rec_Meta r) (rec_CreatedAt r) (env_UpdatedAt next).

(** ** The interface *)

(** [Repo], and [RecordPager] where the repository implements it. *)
Class Repo (R : Type) := {
  repo_Put : CredRecord → R → R * result unit;
  repo_Get : Identity → R → result CredRecord;
  repo_Delete : Identity → R → R * result unit;
  repo_RewrapIfUnchanged : Identity → string → Envelope → R → R * result bool;
  repo_List : R → R * result (list CredRecord);
  repo_DeleteSubject : string → R → R * result nat;
  repo_ListPage : option (string → string → Z → R → R * result (list CredRecord));
}.

(** ** [MemoryRepo] *)

Record MemoryRepo := mkRepo {
  mr_records : gmap Identity CredRecord;
  mr_ids : list Identity;
  mr_rowsCopied : nat;
}.

Definition NewMemoryRepo : MemoryRepo := mkRepo ∅ [] 0.

(** [indexOf]: the position, and whether the identity is there. *)
Definition indexOf (id : Identity) (ids : list Identity) : nat * bool :=
  let i := search_list (λ x, negb (identityLess x id)) ids in
  (i, bool_decide (ids !! i = Some id)).

(** [insertIndex]: [append], [copy] one to the right, assign. *)
Definition insertIndex (id : Identity) (ids : list Identity) : list Identity :=
  let i := (indexOf id ids).1 in take i ids ++ id :: drop i ids.

(** [removeIndex]. *)
Definition removeIndex (id : Identity) (ids : list Identity) : list Identity :=
  let '(i, ok) := indexOf id ids in
  if ok then take i ids ++ drop (S i) ids else ids.

Definition MemoryRepo_Put (rec : CredRecord) (r : MemoryRepo) : MemoryRepo * result unit :=
  let ids := match mr_records r !! rec_Identity rec with
             | None => insertIndex (rec_Identity rec) (mr_ids r)
             | Some _ => mr_ids r
             end in
  (mkRepo (<[rec_Identity rec := cloneRecord rec]> (mr_records r)) ids (mr_rowsCopied r), Ok tt).

Definition MemoryRepo_RewrapIfUnchanged (id : Identity) (expect : string) (next : Envelope)
    (r : MemoryRepo) : MemoryRepo * result bool :=
  match mr_records r !! id with
  | None => (r, Ok false)
  | Some rec =>
      if negb (bool_decide (rec_WrappedDEK rec = expect)) then (r, Ok false)
      else (mkRepo (<[id := rewrapped next rec]> (mr_records r)) (mr_ids r) (mr_rowsCopied r), Ok true)
  end.

Definition MemoryRepo_Get (id : Identity) (r : MemoryRepo) : result CredRecord :=
  match mr_records r !! id with
  | None => Err ErrNotFound
  | Some rec => Ok (cloneRecord rec)
  end.

Definition MemoryRepo_Delete (id : Identity) (r : MemoryRepo) : MemoryRepo * result unit :=
  match mr_records r !! id with
  | None => (r, Err ErrNotFound)
  | Some _ => (mkRepo (delete id (mr_records r)) (removeIndex id (mr_ids r)) (mr_rowsCopied r), Ok tt)
  end.

(** [r.records[id]]: a missing key reads as the zero record. *)
Definition zero_record : CredRecord :=
  mkRecord (mkIdentity EmptyString EmptyString) 0 EmptyString EmptyString EmptyString EmptyString
    None 0 0.
Definition row (r : MemoryRepo) (id : Identity) : CredRecord :=
  cloneRecord (default zero_record (mr_records r !! id)).

Definition copied (n : nat) (r : MemoryRepo) : MemoryRepo :=
  mkRepo (mr_records r) (mr_ids r) (mr_rowsCopied r + n).

Definition MemoryRepo_List (r : MemoryRepo) : MemoryRepo * result (list CredRecord) :=
  let out := row r <$> mr_ids r in (copied (length out) r, Ok out).

(** [ListPage]; the one caller passes a page size of 200, so [pos + limit] stays
    far below the width of an [int]. *)
Definition MemoryRepo_ListPage (afterSubject afterProvider : string) (limit : Z) (r : MemoryRepo)
    : MemoryRepo * result (list CredRecord) :=
  let limit := if (limit <=? 0)%Z then 1%Z else limit in
  let pos := search_list (λ id, recordAfter id afterSubject afterProvider) (mr_ids r) in
  let end_ := if (Z.of_nat (length (mr_ids r)) <? Z.of_nat pos + limit)%Z
              then length (mr_ids r) else Z.to_nat (Z.of_nat pos + limit) in
  let out := row r <$> take (end_ - pos) (drop pos (mr_ids r)) in
  (copied (length out) r, Ok out).

(** The loop of [DeleteSubject] from the first identity of the run. *)
Fixpoint delete_run (subject : string) (ids : list Identity) (m : gmap Identity CredRecord)
    : gmap Identity CredRecord * nat :=
  match ids with
  | [] => (m, 0)
  | id :: ids' =>
      if bool_decide (id_Subject id = subject)
      then let '(m', n) := delete_run subject ids' (delete id m) in (m', S n)
      else (m, 0)
  end.

Definition MemoryRepo_DeleteSubject (subject : string) (r : MemoryRepo) : MemoryRepo * result nat :=
  if bool_decide (subject = EmptyString) then (r, Err ErrInvalidIdentity)
  else
    let lo := search_list (λ id, negb (str_lt (id_Subject id) subject)) (mr_ids r) in
    let '(m, n) := delete_run subject (drop lo (mr_ids r)) (mr_records r) in
    (mkRepo m (if 0 <? n then take lo (mr_ids r) ++ drop (lo + n) (mr_ids r) else mr_ids r)
       (mr_rowsCopied r), Ok n).

#[export] Instance memory_repo : Repo MemoryRepo := {|
  repo_Put := MemoryRepo_Put;
  repo_Get := MemoryRepo_Get;
  repo_Delete := MemoryRepo_Delete;
  repo_RewrapIfUnchanged := MemoryRepo_RewrapIfUnchanged;
  repo_List := MemoryRepo_List;
  repo_DeleteSubject := MemoryRepo_DeleteSubject;
  repo_ListPage := Some MemoryRepo_ListPage;
|}.

(** ** Invariant *)

(** The index is strictly increasing and lists exactly the keys, and every
    record sits under its own identity. *)
Definition repo_wf (r : MemoryRepo) : Prop :=
  StronglySorted (λ a b, identityLess a b = true) (mr_ids r) ∧
  (∀ id, id ∈ mr_ids r ↔ is_Some (mr_records r !! id)) ∧
  (∀ id rec, mr_records r !! id = Some rec → rec_Identity rec = id).

(** The methods as one transition relation. *)
Inductive repo_step : MemoryRepo → MemoryRepo → Prop :=
| step_Put rec r : repo_step r (MemoryRepo_Put rec r).1
| step_Rewrap id expect next r : repo_step r (MemoryRepo_RewrapIfUnchanged id expect next r).1
| step_Delete id r : repo_step r (MemoryRepo_Delete id r).1
| step_List r : repo_step r (MemoryRepo_List r).1
| step_ListPage s p limit r : repo_step r (MemoryRepo_ListPage s p limit r).1
| step_DeleteSubject s r : repo_step r (MemoryRepo_DeleteSubject s r).1.

(** ** Lemmas *)

Lemma cloneMeta_id m : cloneMeta m = m.
Proof. destruct m as [m|]; [|done]. simpl. by rewrite list_to_map_to_list. Qed.
Lemma cloneRecord_id r : cloneRecord r = r.
Proof. destruct r. unfold cloneRecord. simpl. by rewrite cloneMeta_id. Qed.

Lemma identityLess_spec a b :
  identityLess a b = true ↔
    str_lt (id_Subject a) (id_Subject b) = true ∨
    (id_Subject a = id_Subject b ∧ str_lt (id_Provider a) (id_Provider b) = true).
Proof.
  unfold identityLess. destruct (decide (id_Subject a = id_Subject b)) as [E|E].
  - rewrite bool_decide_true by done. simpl. rewrite E, str_lt_irrefl. naive_solver.
  - rewrite bool_decide_false by done. simpl. naive_solver.
Qed.

Lemma identityLess_irrefl a : identityLess a a = false.
Proof. apply not_true_iff_false. rewrite identityLess_spec, !str_lt_irrefl. naive_solver. Qed.

Lemma identityLess_trans a b c :
  identityLess a b = true → identityLess b c = true → identityLess a c = true.
Proof.
  rewrite !identityLess_spec. intros [H1|[E1 H1]] [H2|[E2 H2]].
  - left. by eapply str_lt_trans.
  - left. by rewrite <-E2.
  - left. by rewrite E1.
  - right. split; [congruence|by eapply str_lt_trans].
Qed.

Lemma identityLess_total a b : identityLess a b = true ∨ a = b ∨ identityLess b a = true.
Proof.
  rewrite !identityLess_spec. destruct a as [s1 p1], b as [s2 p2]. simpl.
  destruct (str_lt_total s1 s2) as [|[->|]]; [naive_solver| |naive_solver].
  destruct (str_lt_total p1 p2) as [|[->|]]; naive_solver.
Qed.

#[export] Instance identityLess_total_less : TotalLess identityLess.
Proof.
  split; [apply identityLess_irrefl|apply identityLess_trans|apply identityLess_total].
Qed.

#[local] Abbreviation sorted := (StronglySorted (λ a b, identityLess a b = true)).

Lemma sorted_ids_unique l1 l2 :
  sorted l1 → sorted l2 → (∀ x, x ∈ l1 ↔ x ∈ l2) → l1 = l2.
Proof. apply (index_unique identityLess). Qed.

Lemma insertIndex_sorted id ids : sorted ids → id ∉ ids → sorted (insertIndex id ids).
Proof. apply (index_insert_sorted identityLess). Qed.

Lemma elem_of_insertIndex id ids x : x ∈ insertIndex id ids ↔ x = id ∨ x ∈ ids.
Proof. apply (elem_of_index_insert identityLess). Qed.

Lemma removeIndex_filter id ids : sorted ids → removeIndex id ids = filter (λ x, x ≠ id) ids.
Proof. apply (index_remove_filter identityLess). Qed.

Lemma delete_run_spec s ids m m' n :
  sorted ids → (∀ x, x ∈ ids → str_lt (id_Subject x) s = false) → delete_run s ids m = (m', n) →
  (∀ k, m' !! k = if decide (k ∈ ids ∧ id_Subject k = s) then None else m !! k) ∧
  n = length (filter (λ x, id_Subject x = s) ids) ∧
  drop n ids = filter (λ x, id_Subject x ≠ s) ids.
Proof.
  intros Hs. revert m m' n. induction Hs as [|id ids Hs IH Hid]; intros m m' n Hge Hrun; simpl in Hrun.
  { injection Hrun as <- <-. split_and!; [|done..]. intros k. rewrite decide_False; [done|].
    intros [Hk _]. by apply not_elem_of_nil in Hk. }
  destruct (decide (id_Subject id = s)) as [Es|Es].
  - rewrite bool_decide_true in Hrun by done.
    destruct (delete_run s ids (delete id m)) as [m1 n1] eqn:E1. injection Hrun as <- <-.
    destruct (IH (delete id m) m1 n1) as (Hm & -> & Hd); [intros; apply Hge; set_solver|done|].
    rewrite filter_cons_True, filter_cons_False by (try done; intros Hne; by apply Hne).
    split_and!; [|done..]. intros k. rewrite Hm.
    destruct (decide (k = id)) as [->|Hne].
    + rewrite lookup_delete_eq. rewrite (decide_True (P:=id ∈ id :: ids ∧ _)) by set_solver.
      by case_decide.
    + rewrite lookup_delete_ne by done. apply decide_ext. set_solver.
  - rewrite bool_decide_false in Hrun by done. injection Hrun as <- <-.
    assert (Hall : ∀ x, x ∈ id :: ids → id_Subject x ≠ s).
    { intros x Hx. apply elem_of_cons in Hx as [->|Hx]; [done|]. intros <-.
      rewrite Forall_forall in Hid. specialize (Hid x Hx). apply identityLess_spec in Hid.
      destruct Hid as [Hlt|[? _]]; [|done]. rewrite Hge in Hlt by set_solver. done. }
    split_and!.
    + intros k. rewrite decide_False; [done|]. intros [Hk Hks]. by apply (Hall k).
    + rewrite filter_none; [done|]. by apply Forall_forall.
    + symmetry. apply filter_all. by apply Forall_forall.
Qed.

Lemma DeleteSubject_lookup s r :
  repo_wf r → s ≠ EmptyString →
  let r' := (MemoryRepo_DeleteSubject s r).1 in
  (∀ k, mr_records r' !! k = if decide (id_Subject k = s) then None else mr_records r !! k) ∧
  mr_ids r' = filter (λ x, id_Subject x ≠ s) (mr_ids r) ∧
  (MemoryRepo_DeleteSubject s r).2 = Ok (length (filter (λ x, id_Subject x = s) (mr_ids r))).
Proof.
  intros (Hs & Hdom & Hown) Hne. unfold MemoryRepo_DeleteSubject.
  rewrite bool_decide_false by done. set (P := λ id, negb (str_lt (id_Subject id) s)).
  destruct (search_list_split P (mr_ids r)) as [Ht Hd].
  { intros i j x y Hij Hi Hj. unfold P. rewrite !negb_true_iff, !str_lt_ge.
    pose proof (sorted_lookup _ _ _ _ _ _ Hs Hi Hj Hij) as Hxy. simpl in Hxy.
    rewrite identityLess_spec in Hxy. intros [->|Hx].
    - destruct Hxy as [?|[-> _]]; auto.
    - right. destruct Hxy as [?|[<- _]]; [by eapply str_lt_trans|done]. }
  set (lo := search_list P (mr_ids r)) in *.
  destruct (delete_run s (drop lo (mr_ids r)) (mr_records r)) as [m n] eqn:E.
  apply delete_run_spec in E as (Hm & Hn & Hdr).
  2: { rewrite Hd. by apply sorted_filter. }
  2: { rewrite Hd. intros x [Hx _]%list_elem_of_filter. unfold P in Hx. by apply negb_true_iff in Hx. }
  assert (HtP : ∀ x, x ∈ take lo (mr_ids r) → id_Subject x ≠ s).
  { rewrite Ht. intros x [Hx _]%list_elem_of_filter <-. unfold P in Hx. by rewrite str_lt_irrefl in Hx. }
  assert (Hcount : n = length (filter (λ x, id_Subject x = s) (mr_ids r))).
  { rewrite <-(take_drop lo (mr_ids r)), filter_app, (filter_none _ (take lo _)); [done|].
    by apply Forall_forall. }
  simpl. split_and!.
  - intros k. rewrite Hm. destruct (decide (id_Subject k = s)) as [Ek|Ek].
    + destruct (decide (k ∈ drop lo (mr_ids r) ∧ id_Subject k = s)) as [|Hk]; [done|].
      destruct (mr_records r !! k) as [rec|] eqn:Ek'; [|done]. exfalso.
      assert (Hin : k ∈ mr_ids r) by (apply Hdom; by eexists).
      rewrite <-(take_drop lo (mr_ids r)) in Hin. apply elem_of_app in Hin as [Hin|Hin].
      * by apply (HtP k).
      * by apply Hk.
    + rewrite decide_False; [done|]. by intros [_ ?].
  - rewrite <-(take_drop lo (mr_ids r)) at 4. rewrite filter_app, <-Hdr, drop_drop.
    rewrite (filter_all _ (take lo _)) by (by apply Forall_forall).
    destruct (Nat.ltb_spec 0 n); [done|].
    replace n with 0 by lia. by rewrite Nat.add_0_r, take_drop.
  - by rewrite Hcount.
Qed.

Lemma repo_step_wf r r' : repo_wf r → repo_step r r' → repo_wf r'.
Proof.
  intros Hwf Hst. pose proof Hwf as (Hs & Hdom & Hown).
  destruct Hst as [rec r|id expect next r|id r|r|s p limit r|s r]; try done.
  - unfold MemoryRepo_Put, repo_wf. simpl. rewrite cloneRecord_id. split_and!.
    + case_match; [done|]. apply insertIndex_sorted; [done|]. rewrite Hdom. intros [??]. congruence.
    + intros id. rewrite lookup_insert_is_Some'.
      destruct (mr_records r !! rec_Identity rec) as [rec'|] eqn:E.
      * rewrite Hdom. split; [by right|]. intros [<-|?]; [by eexists|done].
      * rewrite elem_of_insertIndex, Hdom. naive_solver.
    + intros id rec' [[<- <-]|[_ ?]]%lookup_insert_Some; [done|by apply Hown].
  - unfold MemoryRepo_RewrapIfUnchanged. destruct (mr_records r !! id) as [rec|] eqn:E; [|done].
    case_match; [done|]. unfold repo_wf. simpl. split_and!; [done|..].
    + intros id'. rewrite Hdom, lookup_insert_is_Some'. split; [by right|].
      intros [<-|?]; [by eexists|done].
    + intros id' rec' [[<- <-]|[_ ?]]%lookup_insert_Some; [exact (Hown _ _ E)|by apply Hown].
  - unfold MemoryRepo_Delete. destruct (mr_records r !! id) as [rec|] eqn:E; [|done].
    unfold repo_wf. simpl. rewrite removeIndex_filter by done. split_and!.
    + by apply sorted_filter.
    + intros id'. rewrite list_elem_of_filter, lookup_delete_is_Some, Hdom. naive_solver.
    + intros id' rec' [_ ?]%lookup_delete_Some. by apply Hown.
  - destruct (decide (s = EmptyString)) as [->|Hne]; [done|].
    destruct (DeleteSubject_lookup s r Hwf Hne) as (Hl & Hi & _). unfold repo_wf. rewrite Hi.
    split_and!; [by apply sorted_filter|..].
    + intros id. rewrite list_elem_of_filter, Hl, Hdom. case_decide; [|naive_solver].
      split; [naive_solver|]. by intros [? [=]].
    + intros id rec. rewrite Hl. case_decide; [done|]. apply Hown.
Qed.

(** ** The rows a listing returns *)

Definition rows (r : MemoryRepo) : list CredRecord := row r <$> mr_ids r.

Lemma row_own r id : repo_wf r → id ∈ mr_ids r → rec_Identity (row r id) = id.
Proof.
  intros (_ & Hdom & Hown) [rec E]%Hdom. unfold row. rewrite E, cloneRecord_id. by apply Hown.
Qed.

Lemma elem_of_rows r rec :
  repo_wf r → rec ∈ rows r ↔ mr_records r !! rec_Identity rec = Some rec.
Proof.
  intros Hwf. pose proof Hwf as (_ & Hdom & Hown). unfold rows. rewrite list_elem_of_fmap. split.
  - intros (id & -> & Hid). rewrite row_own by done. apply Hdom in Hid as [rec E].
    unfold row. by rewrite E, cloneRecord_id.
  - intros E. exists (rec_Identity rec). split; [unfold row; by rewrite E, cloneRecord_id|].
    apply Hdom. by eexists.
Qed.

(** The cursor a page starts after: the identity of the last row read, or the
    empty one. *)
Definition cursor_of (l : list CredRecord) : string * string :=
  match last l with
  | Some rec => (id_Subject (rec_Identity rec), id_Provider (rec_Identity rec))
  | None => (EmptyString, EmptyString)
  end.

Lemma recordAfter_spec id c :
  c ≠ mkIdentity EmptyString EmptyString →
  recordAfter id (id_Subject c) (id_Provider c) = identityLess c id.
Proof.
  intros Hc. unfold recordAfter, identityLess. destruct c as [s p]. simpl.
  destruct (bool_decide (s = EmptyString) && bool_decide (p = EmptyString)) eqn:E.
  { bools. by subst. }
  rewrite (bool_decide_ext (id_Subject id = s) (s = id_Subject id)) by done. done.
Qed.

(** The index after a prefix of it, from the cursor of the prefix. *)
Lemma drop_after_start ids :
  drop (search_list (λ id, recordAfter id EmptyString EmptyString) ids) ids = ids.
Proof.
  destruct (search_list_split (λ id, recordAfter id EmptyString EmptyString) ids) as [_ ->]; [done|].
  by apply filter_all, Forall_forall.
Qed.

Lemma drop_after_prefix ids1 c ids2 :
  sorted (ids1 ++ ids2) → last ids1 = Some c → c ≠ mkIdentity EmptyString EmptyString →
  drop (search_list (λ id, recordAfter id (id_Subject c) (id_Provider c)) (ids1 ++ ids2))
    (ids1 ++ ids2) = ids2.
Proof.
  intros Hs Hl Hc.
  destruct (search_list_split (λ id, recordAfter id (id_Subject c) (id_Provider c)) (ids1 ++ ids2))
    as [_ ->].
  { intros i j x y Hij Hi Hj. rewrite !recordAfter_spec by done. intros Hx.
    eapply identityLess_trans; [exact Hx|]. exact (sorted_lookup _ _ _ _ _ _ Hs Hi Hj Hij). }
  apply last_Some in Hl as [ids0 ->]. rewrite filter_app, (filter_none _ (ids0 ++ [c])), filter_all; [done|..].
  - apply Forall_forall. intros x Hx. rewrite recordAfter_spec by done.
    apply (StronglySorted_app_1_elem_of _ _ _ c x Hs); [set_solver|done].
  - apply Forall_forall. intros x Hx. rewrite recordAfter_spec by done.
    apply not_true_iff_false. apply elem_of_app in Hx as [Hx|Hx%list_elem_of_singleton].
    + apply (less_asym identityLess). rewrite <-app_assoc in Hs.
      apply (StronglySorted_app_1_elem_of _ _ _ x c Hs); [done|set_solver].
    + subst x. apply identityLess_irrefl.
Qed.

Lemma copied_wf n r : repo_wf r → repo_wf (copied n r).
Proof. done. Qed.

(** A page after a prefix of the rows is the next rows. *)
Lemma ListPage_next r l1 l2 limit :
  repo_wf r → rows r = l1 ++ l2 → Forall (λ x, rec_Identity x ≠ mkIdentity EmptyString EmptyString) l1 →
  MemoryRepo_ListPage (cursor_of l1).1 (cursor_of l1).2 limit r =
    (copied (length (take (Z.to_nat (Z.max 1 limit)) l2)) r, Ok (take (Z.to_nat (Z.max 1 limit)) l2)).
Proof.
  intros Hwf Hrows Hne. pose proof Hwf as (Hs & _ & _).
  set (ids1 := take (length l1) (mr_ids r)). set (ids2 := drop (length l1) (mr_ids r)).
  assert (Hids : mr_ids r = ids1 ++ ids2) by (symmetry; apply take_drop).
  assert (Hl1 : row r <$> ids1 = l1).
  { unfold ids1. rewrite fmap_take. unfold rows in Hrows. by rewrite Hrows, take_app_length. }
  assert (Hl2 : row r <$> ids2 = l2).
  { unfold ids2. rewrite fmap_drop. unfold rows in Hrows. by rewrite Hrows, drop_app_length. }
  clearbody ids1 ids2. subst l1 l2. set (l1 := row r <$> ids1) in *.
  assert (Hdrop : drop (search_list (λ id, recordAfter id (cursor_of l1).1 (cursor_of l1).2) (mr_ids r))
                    (mr_ids r) = ids2).
  { rewrite Hids. unfold cursor_of, l1. rewrite fmap_last.
    destruct (last ids1) as [c|] eqn:Ec; cbn [fmap option_fmap option_map fst snd].
    - assert (Hc : rec_Identity (row r c) = c).
      { apply row_own; [done|]. rewrite Hids. apply elem_of_app. left. by apply last_Some_elem_of. }
      rewrite Hc. rewrite Hids in Hs. apply drop_after_prefix; [done|done|].
      rewrite <-Hc. rewrite Forall_forall in Hne. apply Hne.
      apply list_elem_of_fmap_2. by apply last_Some_elem_of.
    - apply last_None in Ec. rewrite Ec. apply drop_after_start. }
  unfold MemoryRepo_ListPage. set (pos := search_list _ _) in *. rewrite Hdrop.
  assert (Hlen : length (mr_ids r) - pos = length ids2) by (rewrite <-Hdrop, length_drop; done).
  replace (if (limit <=? 0)%Z then 1%Z else limit) with (Z.max 1 limit)
    by (destruct (Z.leb_spec limit 0); lia).
  rewrite <-fmap_take. case_match; [|by replace (_ - pos) with (Z.to_nat (Z.max 1 limit)) by lia].
  rewrite Hlen, !take_ge by lia. done.
Qed.

(** Every row of a page is a row of the repository, which a listing leaves as it
    is but for the count of copies. *)
Lemma ListPage_rows a b limit r :
  ∃ l, (MemoryRepo_ListPage a b limit r) = (copied (length l) r, Ok l) ∧ ∀ x, x ∈ l → x ∈ rows r.
Proof.
  unfold MemoryRepo_ListPage. set (l := row r <$> _). exists l. split; [done|]. intros x.
  unfold l, rows. rewrite !list_elem_of_fmap. intros (id & -> & Hid). exists id. split; [done|].
  apply elem_of_take in Hid as (i & Hi & _). rewrite lookup_drop in Hi. by eapply list_elem_of_lookup_2.
Qed.

(** ** Properties *)

(** Whatever calls a [MemoryRepo] receives, its index stays in step with its
    map: strictly increasing, one entry per record, every record under its own
    identity. So [List] returns exactly the stored records, each once, in
    increasing (subject, provider) order. *)
Theorem repo_index_reachable r :
  rtc repo_step NewMemoryRepo r →
  repo_wf r ∧
  StronglySorted (λ a b, identityLess (rec_Identity a) (rec_Identity b) = true) (rows r) ∧
  (∀ rec, rec ∈ rows r ↔ mr_records r !! rec_Identity rec = Some rec) ∧
  (MemoryRepo_List r).2 = Ok (rows r).
Proof.
  intros Hr. assert (Hwf : repo_wf r).
  { revert Hr. apply (rtc_ind_r repo_wf).
    - split; [constructor|]. split; [|done]. intros id. split; [by intros ?%not_elem_of_nil|by intros [? [=]]].
    - intros r1 r2 _ Hst Hwf. by eapply repo_step_wf. }
  split; [done|]. split; [|split; [intros rec; by apply elem_of_rows|done]].
  unfold rows. assert (Hown : ∀ id, id ∈ mr_ids r → rec_Identity (row r id) = id) by (intros; by apply row_own).
  destruct Hwf as [Hs _]. induction Hs as [|id ids Hs IH Hid]; [constructor|].
  rewrite fmap_cons. apply StronglySorted_cons. split; [|apply IH; intros; apply Hown; by right].
  apply Forall_fmap, Forall_forall. intros id' Hin. unfold compose. rewrite !Hown by (by left || by right).
  rewrite Forall_forall in Hid. by apply Hid.
Qed.

Lemma filter_rows r (P : Identity → Prop) `{∀ x, Decision (P x)}
    `{∀ rec, Decision (P (rec_Identity rec))} l :
  repo_wf r → (∀ x, x ∈ l → x ∈ mr_ids r) →
  filter (λ rec, P (rec_Identity rec)) (row r <$> l) = row r <$> (filter P l : list Identity).
Proof.
  intros Hwf Hin. induction l as [|id l IH]; [done|]. rewrite fmap_cons, !filter_cons.
  assert (Hid : rec_Identity (row r id) = id) by (apply row_own; [done|apply Hin; by left]).
  rewrite IH by (intros; apply Hin; by right).
  destruct (decide (P (rec_Identity (row r id)))) as [Hp|Hp], (decide (P id)); try done;
    rewrite Hid in Hp; done.
Qed.

(** Account erasure is exact: [DeleteSubject] removes every record of the
    subject and no other, keeps the order of the rest, and reports how many
    there were; it refuses the empty subject and changes nothing. *)
Theorem DeleteSubject_exact r sub :
  repo_wf r →
  let '(r', n) := MemoryRepo_DeleteSubject sub r in
  if decide (sub = EmptyString) then r' = r ∧ n = Err ErrInvalidIdentity
  else rows r' = filter (λ rec, id_Subject (rec_Identity rec) ≠ sub) (rows r) ∧
       n = Ok (length (filter (λ rec, id_Subject (rec_Identity rec) = sub) (rows r))).
Proof.
  intros Hwf. case_decide as Hs; [by subst|].
  destruct (DeleteSubject_lookup sub r Hwf Hs) as (Hl & Hi & Hn).
  destruct (MemoryRepo_DeleteSubject sub r) as [r' n]. simpl in *. subst n.
  unfold rows. split.
  - rewrite Hi. trans (row r <$> filter (λ id, id_Subject id ≠ sub) (mr_ids r)).
    + apply list_fmap_ext. intros i id Hid%list_elem_of_lookup_2.
      apply list_elem_of_filter in Hid as [Hid _]. unfold row. rewrite Hl. by rewrite decide_False.
    + symmetry. by apply (filter_rows r (λ id, id_Subject id ≠ sub)).
  - rewrite <-(length_fmap (row r)). do 2 f_equal. symmetry.
    by apply (filter_rows r (λ id, id_Subject id = sub)).
Qed.
