(* ===== verification/VaultEnvelope.v ===== *)
(** * The envelope ([vault/envelope.go])

    AES-GCM as a parameter, the binding of a credential's identity into the
    additional data, key wrappers as the [KeyWrapper] interface promises them,
    and the in-process wrapper that keeps the promise. *)

From S2P Require Import Prelude GoStd.

(** ** AES-256-GCM *)

(** [crypto/cipher]'s AEAD on a key, a nonce and additional data; [None] is a
    failed authentication. *)
Class Aead := {
  gcm_Seal : string → string → string → string → string;
  gcm_Open : string → string → string → string → option string;
}.

(** GCM is deterministic in its nonce: a ciphertext opens to a plaintext exactly
    when it is the sealing of it. *)
Class AeadOk `{Aead} : Prop :=
  gcm_Open_Seal : ∀ key nonce ct aad pt,
    gcm_Open key nonce ct aad = Some pt ↔ ct = gcm_Seal key nonce pt aad.

Definition recordVersion : N := 1.
Definition dekSize : nat := 32.
Definition nonceSize : nat := 12.

Definition errOpen : error := New "cipher: message authentication failed".

(** [aes.NewCipher]: AES has three key sizes. *)
Definition aes_NewCipher (key : string) : option error :=
  if (len key =? 16) || (len key =? 24) || (len key =? 32) then None
  else Some (New ("crypto/aes: invalid key size " +:+ strconv_Itoa (Z.of_nat (len key)))).

(** [io.ReadFull(rand.Reader, b)] for a buffer of [k] bytes, at a read of the
    generator: the next read, and the bytes. *)
Definition readFull `{Entropy} (k n : nat) : nat * result string :=
  (S n, match rand_read n k with
        | Some b => Ok b
        | None => Err (New "rand: read failed")
        end).

(** ** Binding the identity *)

(** [binary.AppendUvarint]: seven bits a byte, low ones first, the high bit set
    on all but the last. Ten bytes hold any 64-bit value. *)
Fixpoint uvarint_loop (fuel : nat) (x : N) : string :=
  match fuel with
  | 0 => EmptyString
  | S fuel =>
      if (x <? 128)%N then String (chr x) EmptyString
      else String (chr (128 + x mod 128)) (uvarint_loop fuel (x / 128))
  end.
Definition AppendUvarint (b : string) (x : N) : string := b +:+ uvarint_loop 10 x.

(** [bindingAAD]. *)
Definition bindingAAD (version : N) (subject provider : string) : string :=
  let b := String (chr version) EmptyString in
  let b := AppendUvarint b (N.of_nat (len subject)) in
  let b := b +:+ subject in
  let b := AppendUvarint b (N.of_nat (len provider)) in
  b +:+ provider.

(** ** Key wrappers *)

(** [KeyWrapper], with the optional [KeyFingerprint]. [Wrap] may draw from the
    generator: it is given the number of the next read and returns the one after
    it. *)
Record KeyWrapper := mkWrapper {
  kw_KeyID : string;
  kw_Wrap : nat → string → string → nat * result string;
  kw_Unwrap : string → string → result string;
  kw_Fingerprint : option string;
}.

(** What the vault counts on: a key unwraps what it wrapped, for the identity it
    was wrapped for. *)
Class KeyWrapperOk (k : KeyWrapper) : Prop :=
  unwrap_wrap : ∀ n n' dek aad b,
    kw_Wrap k n dek aad = (n', Ok b) → kw_Unwrap k b aad = Ok dek.

Section local.
Context `{Platform} `{Entropy} `{Aead}.

(** [keyFingerprint]. *)
Definition keyFingerprint (kek : string) : string :=
  sha256 ("r0semi/vault/kek-fingerprint" +:+ String "000" kek).

(** [LocalKeyWrapper]: the AEAD is the key it was built from. *)
Record LocalKeyWrapper := mkLocal {
  lk_id : string;
  lk_kek : string;
  lk_fingerprint : string;
}.

(** [NewLocalKeyWrapper]. *)
Definition NewLocalKeyWrapper (id kek : string) : result LocalKeyWrapper :=
  if bool_decide (id = EmptyString) then Err (New "vault: KeyWrapper id is required") else
  if negb (len kek =? dekSize)
  then Err (New ("vault: KEK must be " +:+ strconv_Itoa (Z.of_nat dekSize) +:+ " bytes, got " +:+
                 strconv_Itoa (Z.of_nat (len kek)))) else
  match aes_NewCipher kek with
  | Some err => Err (Wrap ("vault: KEK: " +:+ Error err) err)
  | None => Ok (mkLocal id kek (keyFingerprint kek))
  end.

(** [LocalKeyWrapper.seal] and [LocalKeyWrapper.open]. *)
Definition local_seal (w : LocalKeyWrapper) (n : nat) (plaintext aad : string)
    : nat * result (string * string) :=
  let '(n', nonce) := readFull nonceSize n in
  (n', match nonce with
       | Err err => Err err
       | Ok nonce => Ok (nonce, gcm_Seal (lk_kek w) nonce plaintext aad)
       end).
Definition local_open (w : LocalKeyWrapper) (nonce ct aad : string) : result string :=
  match gcm_Open (lk_kek w) nonce ct aad with
  | Some pt => Ok pt
  | None => Err (Wrap ("vault: open wrapped DEK: " +:+ Error errOpen) errOpen)
  end.

(** [LocalKeyWrapper.Wrap] and [LocalKeyWrapper.Unwrap]. *)
Definition local_Wrap (w : LocalKeyWrapper) (n : nat) (dek aad : string) : nat * result string :=
  let '(n', r) := local_seal w n dek aad in
  (n', match r with Err err => Err err | Ok (nonce, ct) => Ok (nonce +:+ ct) end).
Definition local_Unwrap (w : LocalKeyWrapper) (wrapped aad : string) : result string :=
  if len wrapped <? nonceSize then Err (New "vault: wrapped DEK is too short")
  else local_open w (String.substring 0 nonceSize wrapped)
         (String.substring nonceSize (len wrapped - nonceSize) wrapped) aad.

(** As a [KeyWrapper]. *)
Definition local_wrapper (w : LocalKeyWrapper) : KeyWrapper :=
  mkWrapper (lk_id w) (local_Wrap w) (local_Unwrap w) (Some (lk_fingerprint w)).

(** ** The payload *)

(** [sealSecret]. *)
Definition sealSecret (dek : string) (n : nat) (plaintext aad : string)
    : nat * result (string * string) :=
  match aes_NewCipher dek with
  | Some err => (n, Err (Wrap ("vault: DEK: " +:+ Error err) err))
  | None =>
      let '(n', nonce) := readFull nonceSize n in
      (n', match nonce with
           | Err err => Err err
           | Ok nonce => Ok (nonce, gcm_Seal dek nonce plaintext aad)
           end)
  end.

(** [openSecret]. *)
Definition openSecret (dek nonce ct aad : string) : result string :=
  match aes_NewCipher dek with
  | Some err => Err (Wrap ("vault: DEK: " +:+ Error err) err)
  | None =>
      match gcm_Open dek nonce ct aad with
      | Some pt => Ok pt
      | None => Err (Wrap ("vault: decrypt credential: " +:+ Error errOpen) errOpen)
      end
  end.
End local.

(** ** Lemmas *)

Lemma substring_app_l a b : String.substring 0 (len a) (a +:+ b) = a.
Proof. induction a as [|c a IH]; simpl; [by destruct b|by rewrite IH]. Qed.
Lemma substring_all b : String.substring 0 (len b) b = b.
Proof. rewrite <-(str_app_nil_r b) at 2. apply substring_app_l. Qed.
Lemma substring_app_r a b : String.substring (len a) (len b) (a +:+ b) = b.
Proof. induction a as [|c a IH]; simpl; [apply substring_all|done]. Qed.

Lemma str_app_inj_len a b c d : len a = len c → a +:+ b = c +:+ d → a = c ∧ b = d.
Proof.
  revert c. induction a as [|x a IH]; intros [|y c] Hl; simpl in *; try done.
  intros [= -> Heq]. injection Hl as Hl. destruct (IH c Hl Heq) as [-> ->]. done.
Qed.

(** The prefix code: a value and what follows it are read back. *)
Lemma uvarint_inj fuel x y r s :
  (x < 128 ^ N.of_nat fuel)%N → (y < 128 ^ N.of_nat fuel)%N →
  uvarint_loop fuel x +:+ r = uvarint_loop fuel y +:+ s → x = y ∧ r = s.
Proof.
  revert x y. induction fuel as [|fuel IH]; intros x y Hx Hy.
  { simpl in Hx, Hy. intros Heq. split; [lia|exact Heq]. }
  assert (Hp : (128 ^ N.of_nat (S fuel) = 128 * 128 ^ N.of_nat fuel)%N)
    by (rewrite Nat2N.inj_succ; apply N.pow_succ_r').
  assert (Hdiv : ∀ z, (z < 128 ^ N.of_nat (S fuel) → z / 128 < 128 ^ N.of_nat fuel)%N)
    by (intros z Hz; apply N.Div0.div_lt_upper_bound; lia).
  assert (Hchr : ∀ a b, (a < 256 → b < 256 → chr a = chr b → a = b)%N).
  { intros a b Ha Hb E. rewrite <-(code_chr a), <-(code_chr b) by done. by rewrite E. }
  cbn [uvarint_loop]. destruct (N.ltb_spec x 128), (N.ltb_spec y 128); simpl; intros Heq;
    injection Heq as Hc Hr; apply Hchr in Hc; try lia; [by split|].
  destruct (IH (x / 128)%N (y / 128)%N) as [Hd ->]; auto.
  split; [|done]. rewrite (N.div_mod x 128), (N.div_mod y 128) by done. lia.
Qed.

Section envelope_properties.
Context `{Platform} `{Entropy} `{Aead}.

Lemma readFull_ok `{!EntropyOk} k n : ∃ b, readFull k n = (S n, Ok b) ∧ len b = k.
Proof. destruct (rand_read_ok n k) as (b & E & Hl). exists b. unfold readFull. by rewrite E. Qed.

(** The identity is bound unambiguously: two credentials whose additional
    data agree have the same format version, the same subject and the same
    provider, for every length a Go string can have. *)
Theorem bindingAAD_inj v s p v' s' p' :
  (v < 256)%N → (v' < 256)%N →
  (Z.of_nat (len s) <= max_int64)%Z → (Z.of_nat (len p) <= max_int64)%Z →
  (Z.of_nat (len s') <= max_int64)%Z → (Z.of_nat (len p') <= max_int64)%Z →
  bindingAAD v s p = bindingAAD v' s' p' → v = v' ∧ s = s' ∧ p = p'.
Proof.
  unfold max_int64. intros Hv Hv' Hs Hp Hs' Hp' Heq. unfold bindingAAD, AppendUvarint in Heq.
  rewrite !str_app_assoc in Heq. apply str_app_inj_len in Heq as [Hc Heq]; [|done].
  apply (f_equal (String.get 0)) in Hc. injection Hc as Hc.
  assert (v = v') as ->.
  { rewrite <-(code_chr v), <-(code_chr v') by done. by rewrite Hc. }
  assert (H70 : (128 ^ N.of_nat 10 = 2 ^ 70)%N) by reflexivity.
  apply uvarint_inj in Heq as [Hls Heq]; [|lia..].
  apply str_app_inj_len in Heq as [-> Heq]; [|lia].
  by apply uvarint_inj in Heq as [_ ->]; [|lia..].
Qed.

(** The in-process wrapper keeps the interface's promise. *)
Lemma local_wrapper_ok `{!EntropyOk, !AeadOk} w : KeyWrapperOk (local_wrapper w).
Proof.
  intros n n' dek aad b. simpl. unfold local_Wrap, local_seal, local_Unwrap, local_open.
  destruct (readFull_ok nonceSize n) as (nonce & -> & Hl). intros [= <- <-].
  rewrite len_app. destruct (Nat.ltb_spec (len nonce + len (gcm_Seal (lk_kek w) nonce dek aad)) nonceSize);
    [lia|]. rewrite <-Hl. rewrite substring_app_l.
  replace (len nonce + len (gcm_Seal (lk_kek w) nonce dek aad) - len nonce)
    with (len (gcm_Seal (lk_kek w) nonce dek aad)) by lia.
  rewrite substring_app_r. by rewrite (proj2 (gcm_Open_Seal _ _ _ _ _) eq_refl).
Qed.

(** What a wrapped key opens to pins the blob down: it is the nonce and the
    sealing of the key under that very identity. *)
Lemma local_Unwrap_inv `{!AeadOk} w b aad dek :
  local_Unwrap w b aad = Ok dek →
  String.substring nonceSize (len b - nonceSize) b =
    gcm_Seal (lk_kek w) (String.substring 0 nonceSize b) dek aad.
Proof.
  unfold local_Unwrap, local_open. case_match; [done|]. case_match; [|done].
  intros [= <-]. by apply gcm_Open_Seal.
Qed.

Lemma openSecret_seal `{!AeadOk} dek nonce pt aad :
  aes_NewCipher dek = None → openSecret dek nonce (gcm_Seal dek nonce pt aad) aad = Ok pt.
Proof. intros E. unfold openSecret. by rewrite E, (proj2 (gcm_Open_Seal _ _ _ _ _) eq_refl). Qed.

Lemma sealSecret_opens `{!AeadOk} dek n n' pt aad nonce ct :
  sealSecret dek n pt aad = (n', Ok (nonce, ct)) → openSecret dek nonce ct aad = Ok pt.
Proof.
  unfold sealSecret. destruct (aes_NewCipher dek) eqn:E; [done|].
  destruct (readFull nonceSize n) as [m [nc|e]]; [|done]. intros [= <- <- <-].
  by apply openSecret_seal.
Qed.
End envelope_properties.
