(* ===== verification/Vault.v ===== *)
(** * The credential vault ([vault/service.go], [vault/rotate.go])

    [Enroll], [Use], [Revoke], [Exists] and [Rotate] as processes over a
    repository, an audit log, a clock and a generator; construction with retired
    keys. *)

From S2P Require Import Prelude GoStd Proc AuditLog VaultRepo VaultEnvelope.

(** ** State *)

(** The configuration of the service: the key that wraps, every key that may
    unwrap by its id, and whether an observer is attached. *)
Record vault := mkVault {
  vs_current : KeyWrapper;
  vs_keys : gmap string KeyWrapper;
  vs_metrics : bool;
}.

(** What the service acts on. [vw_observed] is what the observer was told:
    operation and result; the durations are left out. *)
Record VWorld (Rp Lg : Type) := mkVWorld {
  vw_repo : Rp;
  vw_audit : Lg;
  vw_clock : Z;
  vw_entropy : nat;
  vw_observed : list (string * string);
}.
Arguments mkVWorld {Rp Lg}.
Arguments vw_repo {Rp Lg}.
Arguments vw_audit {Rp Lg}.
Arguments vw_clock {Rp Lg}.
Arguments vw_entropy {Rp Lg}.
Arguments vw_observed {Rp Lg}.

(** [Rotation]. *)
Record Rotation := mkRotation {
  ro_Scanned : nat;
  ro_Rewrapped : nat;
  ro_AlreadyCurrent : nat;
  ro_Skipped : nat;
}.

Definition metricOpUse : string := "use".
Definition metricOpEnroll : string := "enroll".
Definition metricOpRevoke : string := "revoke".
Definition metricOK : string := "ok".
Definition metricNotFound : string := "not_found".
Definition metricRepoError : string := "repo_error".
Definition metricKeyUnavailable : string := "key_unavailable".
Definition metricDecryptError : string := "decrypt_error".
Definition metricAuditError : string := "audit_error".
Definition metricError : string := "error".

(** ** Construction *)

(** [sameKeyMaterial]: only two wrappers with a fingerprint can be compared. *)
Definition sameKeyMaterial (a b : KeyWrapper) : bool :=
  match kw_Fingerprint a, kw_Fingerprint b with
  | Some af, Some bf => bool_decide (af = bf)
  | _, _ => false
  end.

(** [Option]: [WithMetrics] of a possibly nil observer, [WithRetiredKeys] of
    possibly nil wrappers. *)
Inductive VaultOption :=
| WithMetrics (m : bool)
| WithRetiredKeys (keys : list (option KeyWrapper)).

Section construction.
Context `{Platform}.

(** The loop of [WithRetiredKeys]; [added] are the keys taken so far. *)
Fixpoint retire_keys (keys : list (option KeyWrapper)) (added : list KeyWrapper) (s : vault)
    : result vault :=
  match keys with
  | [] => Ok s
  | None :: _ => Err (New "vault: a retired KeyWrapper must not be nil")
  | Some k :: keys' =>
      let id := kw_KeyID k in
      if bool_decide (id = kw_KeyID (vs_current s))
      then Err (New ("vault: retired key " +:+ strconv_Quote id +:+
        " has the same id as the current key; a KEK id must change when the key material does")) else
      match vs_keys s !! id with
      | Some _ => Err (New ("vault: retired key " +:+ strconv_Quote id +:+ " is declared twice"))
      | None =>
          if sameKeyMaterial k (vs_current s)
          then Err (New ("vault: retired key " +:+ strconv_Quote id +:+
            " holds the same material as the current key " +:+
            strconv_Quote (kw_KeyID (vs_current s)) +:+
            "; reusing material under a new id is not a rotation, because the envelopes it relabels stay openable by the retired bytes"))
          else
          match filter (λ prev, sameKeyMaterial k prev = true) added with
          | prev :: _ => Err (New ("vault: retired key " +:+ strconv_Quote id +:+
              " holds the same material as retired key " +:+ strconv_Quote (kw_KeyID prev) +:+
              "; two retired keys that share material are one key under two ids"))
          | [] => retire_keys keys' (added ++ [k])
                    (mkVault (vs_current s) (<[id := k]> (vs_keys s)) (vs_metrics s))
          end
      end
  end.

Definition apply_option (o : VaultOption) (s : vault) : result vault :=
  match o with
  | WithMetrics m => Ok (mkVault (vs_current s) (vs_keys s) m)
  | WithRetiredKeys keys => retire_keys keys [] s
  end.

Fixpoint apply_options (opts : list VaultOption) (s : vault) : result vault :=
  match opts with
  | [] => Ok s
  | o :: opts' => match apply_option o s with Err err => Err err | Ok s' => apply_options opts' s' end
  end.

(** [NewService]; [repo] and [logger] are whether the interface is non-nil. *)
Definition NewVault (repo : bool) (kek : option KeyWrapper) (logger : bool) (opts : list VaultOption)
    : result vault :=
  if negb repo then Err (New "vault: Repo is required") else
  match kek with
  | None => Err (New "vault: KeyWrapper is required")
  | Some kek =>
      if negb logger then Err (New "vault: audit.Logger is required") else
      if bool_decide (kw_KeyID kek = EmptyString)
      then Err (New "vault: KeyWrapper.KeyID must not be empty")
      else apply_options opts (mkVault kek {[ kw_KeyID kek := kek ]} false)
  end.
End construction.

(** ** Operations *)

Section operations.
Context `{Platform} `{Entropy} `{Aead}.
Context {Rp Lg : Type} `{Repo Rp} `{Logger Lg}.
Context (s : vault).
Local Abbreviation W := (VWorld Rp Lg).

Definition set_repo (r : Rp) (w : W) : W :=
  mkVWorld r (vw_audit w) (vw_clock w) (vw_entropy w) (vw_observed w).
Definition set_audit (l : Lg) (w : W) : W :=
  mkVWorld (vw_repo w) l (vw_clock w) (vw_entropy w) (vw_observed w).
Definition set_ventropy (n : nat) (w : W) : W :=
  mkVWorld (vw_repo w) (vw_audit w) (vw_clock w) n (vw_observed w).
Definition add_observed (o : string * string) (w : W) : W :=
  mkVWorld (vw_repo w) (vw_audit w) (vw_clock w) (vw_entropy w) (vw_observed w ++ [o]).

(** Calls into the repository, the generator and the clock. *)
Definition on_repo {A} (f : Rp → Rp * result A) : go W A :=
  call (λ w, let '(r, a) := f (vw_repo w) in (set_repo r w, a)).
Definition ask_repo {A} (f : Rp → result A) : go W A := call (λ w, (w, f (vw_repo w))).
Definition with_entropy {A} (f : nat → nat * result A) : go W A :=
  call (λ w, let '(n, a) := f (vw_entropy w) in (set_ventropy n w, a)).
Definition vnow : go W Z := reads vw_clock.

(** [service.observe]. *)
Definition observe (operation res : string) : go W unit :=
  if vs_metrics s then modify (add_observed (operation, res)) else mret tt.

(** [service.record]. *)
Definition vrecord (e : Event) : go W unit :=
  call (λ w,
    let '(l, err) := log_Record (vw_clock w) (stamp (vw_clock w) e) (vw_audit w) in
    (set_audit l w,
     match err with
     | Some err => Err (Wrap ("vault: audit: " +:+ Error err) err)
     | None => Ok tt
     end)).

(** The error of an operation that may be nil. *)
Definition err_of {A} (r : result A) : option error :=
  match r with Ok _ => None | Err e => Some e end.

(** [service.Enroll]. *)
Definition Enroll (id : Identity) (secret : string) (meta : option (gmap string string)) : go W unit :=
  match validate id with
  | Some err => throw err
  | None =>
      let aad := bindingAAD recordVersion (id_Subject id) (id_Provider id) in
      dek ← try (with_entropy (readFull dekSize));
      match dek with
      | Err err => observe metricOpEnroll metricError;; throw err
      | Ok dek =>
          wrapped ← try (with_entropy (λ n, kw_Wrap (vs_current s) n dek aad));
          match wrapped with
          | Err err =>
              observe metricOpEnroll metricError;;
              throw (Wrap ("vault: wrap DEK: " +:+ Error err) err)
          | Ok wrapped =>
              sealed ← try (with_entropy (λ n, sealSecret dek n secret aad));
              match sealed with
              | Err err => observe metricOpEnroll metricError;; throw err
              | Ok (nonce, ct) =>
                  now ← vnow;
                  logged ← try (vrecord (mkEvent 0 "vault.enroll" (id_Subject id) (id_Provider id)
                                           OutcomeOK ∅));
                  match logged with
                  | Err err => observe metricOpEnroll metricAuditError;; throw err
                  | Ok _ =>
                      prev ← try (ask_repo (repo_Get id));
                      let createdAt := match prev with Ok prev => rec_CreatedAt prev | Err _ => now end in
                      put ← try (on_repo (repo_Put
                              (mkRecord id recordVersion wrapped (kw_KeyID (vs_current s)) nonce ct
                                 (cloneMeta meta) createdAt now)));
                      match put with
                      | Err err =>
                          observe metricOpEnroll metricRepoError;;
                          throw (Wrap ("vault: persist credential: " +:+ Error err) err)
                      | Ok _ => observe metricOpEnroll metricOK
                      end
                  end
              end
          end
      end
  end.

(** The refusals of [service.Use]: the attempt is recorded, the observer told,
    and a failure of the log joined to the error. *)
Definition use_refused {A} (id : Identity) (outcome res : string) (err : error) : go W A :=
  aerr ← try (vrecord (mkEvent 0 "vault.use" (id_Subject id) (id_Provider id) outcome ∅));
  observe metricOpUse res;;
  throw (errors_Join err (err_of aerr)).

(** [service.Use]; a nil callback is [None]. The callback may act on a world the
    vault is only a part of, so the vault's own actions are taken through [lift];
    what it stores in captured variables is its value. *)
Definition UseIn {W' A : Type} (lift : ∀ B, go W B → go W' B) (id : Identity)
    (fn : option (string → go W' A)) : go W' A :=
  match validate id with
  | Some err => throw err
  | None =>
      match fn with
      | None => throw (New "vault: Use requires a callback")
      | Some fn =>
          rec ← lift _ (try (ask_repo (repo_Get id)));
          match rec with
          | Err err =>
              lift _ (use_refused id OutcomeDenied
                (if errors_Is err ErrNotFound then metricNotFound else metricRepoError) err)
          | Ok rec =>
              let aad := bindingAAD (rec_Version rec) (id_Subject (rec_Identity rec))
                           (id_Provider (rec_Identity rec)) in
              match vs_keys s !! rec_KEKID rec with
              | None =>
                  lift _ (use_refused id OutcomeError metricKeyUnavailable
                    (New ("vault: " +:+ identityRef (rec_Identity rec) +:+ " was wrapped by key " +:+
                       strconv_Quote (rec_KEKID rec) +:+
                       ", which is not configured; declare it as a retired key if this deployment rotated away from it")))
              | Some key =>
                  match kw_Unwrap key (rec_WrappedDEK rec) aad with
                  | Err err =>
                      lift _ (use_refused id OutcomeError metricDecryptError
                        (Wrap ("vault: unwrap DEK: " +:+ Error err) err))
                  | Ok dek =>
                      match openSecret dek (rec_Nonce rec) (rec_Ciphertext rec) aad with
                      | Err err => lift _ (use_refused id OutcomeError metricDecryptError err)
                      | Ok plain =>
                          logged ← lift _ (try (vrecord (mkEvent 0 "vault.use" (id_Subject id)
                                                           (id_Provider id) OutcomeOK ∅)));
                          match logged with
                          | Err err => lift _ (observe metricOpUse metricAuditError);; throw err
                          | Ok _ =>
                              res ← try (fn plain);
                              lift _ (observe metricOpUse metricOK);;
                              lift_result res
                          end
                      end
                  end
              end
          end
      end
  end.
Definition Use (id : Identity) (fn : option (string → go W unit)) : go W unit :=
  UseIn (λ _ p, p) id fn.

(** [service.Revoke]. *)
Definition VRevoke (id : Identity) : go W unit :=
  match validate id with
  | Some err => throw err
  | None =>
      deleted ← try (on_repo (repo_Delete id));
      match deleted with
      | Err err =>
          if negb (errors_Is err ErrNotFound)
          then observe metricOpRevoke metricRepoError;;
               throw (Wrap ("vault: delete credential: " +:+ Error err) err)
          else mret tt
      | Ok _ => mret tt
      end;;
      logged ← try (vrecord (mkEvent 0 "vault.revoke" (id_Subject id) (id_Provider id) OutcomeOK ∅));
      match logged with
      | Err err => observe metricOpRevoke metricAuditError;; throw err
      | Ok _ => observe metricOpRevoke metricOK
      end
  end.

(** [service.Exists]. *)
Definition Exists (id : Identity) : go W bool :=
  match validate id with
  | Some err => throw err
  | None =>
      r ← try (ask_repo (repo_Get id));
      match r with
      | Err err => if errors_Is err ErrNotFound then mret false else throw err
      | Ok _ => mret true
      end
  end.

(** ** Rotation *)

Definition rotatePageSize : nat := 200.

Definition scanned (o : Rotation) : Rotation :=
  mkRotation (S (ro_Scanned o)) (ro_Rewrapped o) (ro_AlreadyCurrent o) (ro_Skipped o).
Definition counted_current (o : Rotation) : Rotation :=
  mkRotation (ro_Scanned o) (ro_Rewrapped o) (S (ro_AlreadyCurrent o)) (ro_Skipped o).
Definition counted_rewrapped (o : Rotation) : Rotation :=
  mkRotation (ro_Scanned o) (S (ro_Rewrapped o)) (ro_AlreadyCurrent o) (ro_Skipped o).
Definition counted_skipped (o : Rotation) : Rotation :=
  mkRotation (ro_Scanned o) (ro_Rewrapped o) (ro_AlreadyCurrent o) (S (ro_Skipped o)).

Definition rotate_error (rec : CredRecord) (pre post : string) : string :=
  "vault: rotate: " +:+ pre +:+ identityRef (rec_Identity rec) +:+ post.

(** The body of the loop of [service.rotateRecords]. *)
Definition rotate_one (rec : CredRecord) (out : Rotation) : go W (Rotation * option error) :=
  let current := kw_KeyID (vs_current s) in
  let out := scanned out in
  let aad := bindingAAD (rec_Version rec) (id_Subject (rec_Identity rec))
               (id_Provider (rec_Identity rec)) in
  if bool_decide (rec_KEKID rec = current) then
    match kw_Unwrap (vs_current s) (rec_WrappedDEK rec) aad with
    | Err err =>
        mret (out, Some (Wrap (rotate_error rec EmptyString (" is tagged " +:+ strconv_Quote current +:+
          " but the current key cannot unwrap it: the key material changed without changing kek_id: " +:+
          Error err)) err))
    | Ok _ => mret (counted_current out, None)
    end
  else
    match vs_keys s !! rec_KEKID rec with
    | None =>
        mret (out, Some (New (rotate_error rec EmptyString (" was wrapped by key " +:+
          strconv_Quote (rec_KEKID rec) +:+
          ", which is not configured; declare it as a retired key and run again"))))
    | Some old =>
        match kw_Unwrap old (rec_WrappedDEK rec) aad with
        | Err err => mret (out, Some (Wrap (rotate_error rec "unwrap " (": " +:+ Error err)) err))
        | Ok dek =>
            wrapped ← try (with_entropy (λ n, kw_Wrap (vs_current s) n dek aad));
            match wrapped with
            | Err err => mret (out, Some (Wrap (rotate_error rec "re-wrap " (": " +:+ Error err)) err))
            | Ok wrapped =>
                now ← vnow;
                applied ← try (on_repo (repo_RewrapIfUnchanged (rec_Identity rec) (rec_WrappedDEK rec)
                                 (mkEnvelope current wrapped now)));
                match applied with
                | Err err => mret (out, Some (Wrap (rotate_error rec "persist " (": " +:+ Error err)) err))
                | Ok applied =>
                    if negb applied then mret (counted_skipped out, None)
                    else mret (counted_rewrapped out, None)
                end
            end
        end
    end.

(** [service.rotateRecords]: the tally so far, and the error that stopped it. *)
Fixpoint rotateRecords (records : list CredRecord) (out : Rotation)
    : go W (Rotation * option error) :=
  match records with
  | [] => mret (out, None)
  | rec :: records' =>
      r ← rotate_one rec out;
      match r.2 with
      | Some _ => mret r
      | None => rotateRecords records' r.1
      end
  end.

(** The page loop of [service.Rotate]; other writers may keep it going, [fuel]
    bounds the pages. *)
Fixpoint rotate_pages (pager : string → string → Z → Rp → Rp * result (list CredRecord))
    (fuel : nat) (afterSubject afterProvider : string) (out : Rotation)
    : go W (Rotation * option error) :=
  match fuel with
  | 0 => diverge
  | S fuel =>
      page ← try (on_repo (pager afterSubject afterProvider (Z.of_nat rotatePageSize)));
      match page with
      | Err err => mret (out, Some (Wrap ("vault: rotate: list: " +:+ Error err) err))
      | Ok page =>
          if length page =? 0 then mret (out, None)
          else
            r ← rotateRecords page out;
            match r.2 with
            | Some _ => mret r
            | None =>
                if length page <? rotatePageSize then mret r
                else
                  let '(subject, provider) := cursor_of page in
                  rotate_pages pager fuel subject provider r.1
            end
      end
  end.

(** [service.Rotate]. *)
Definition Rotate (fuel : nat) : go W (Rotation * option error) :=
  r ← (match repo_ListPage with
       | Some pager => rotate_pages pager fuel EmptyString EmptyString (mkRotation 0 0 0 0)
       | None =>
           records ← try (on_repo repo_List);
           match records with
           | Err err => mret (mkRotation 0 0 0 0, Some (Wrap ("vault: rotate: list: " +:+ Error err) err))
           | Ok records => rotateRecords records (mkRotation 0 0 0 0)
           end
       end);
  match r.2 with
  | Some _ => mret r
  | None =>
      let out := r.1 in
      logged ← try (vrecord (mkEvent 0 "vault.rotate_keys" EmptyString EmptyString
        (if 0 <? ro_Skipped out then OutcomeError else OutcomeOK)
        (list_to_map [("to_key", kw_KeyID (vs_current s));
                      ("scanned", strconv_Itoa (Z.of_nat (ro_Scanned out)));
                      ("rewrapped", strconv_Itoa (Z.of_nat (ro_Rewrapped out)));
                      ("skipped", strconv_Itoa (Z.of_nat (ro_Skipped out)))])));
      match logged with
      | Err err => mret (out, Some err)
      | Ok _ => mret (out, None)
      end
  end.
End operations.
