(* ===== verification/VaultProps.v ===== *)
(** * Properties of the vault

    Which secret a stored record opens to, what every operation guarantees about
    it under interleaving, and what each operation does when it runs alone. *)

From S2P Require Import Prelude GoStd Proc AuditLog VaultRepo VaultEnvelope Vault.

Create HintDb guar.

(** Walks an operation down to its actions. *)
Ltac guar_step :=
  match goal with
  | |- Proc.guar _ _ (mbind _ _) _ =>
      eapply (guar_bind _ _ _ _ (λ _, True)); [|intros ? _|done]
  | |- Proc.guar _ _ (try _) _ => eapply (guar_try _ _ _ (λ _, True)); [|done]
  | |- Proc.guar _ _ (match ?x with _ => _ end) _ => destruct x eqn:?
  | |- _ => solve [eauto with guar nocore]
  end.
Ltac guar_tac := repeat guar_step.

(** ** What a record opens to *)

Section readable.
Context `{Platform} `{Entropy} `{Aead} (s : vault).

(** The additional data of a record. *)
Definition record_aad (rec : CredRecord) : string :=
  bindingAAD (rec_Version rec) (id_Subject (rec_Identity rec)) (id_Provider (rec_Identity rec)).

(** The secret, by the key the record names. *)
Definition opened (rec : CredRecord) : option string :=
  match vs_keys s !! rec_KEKID rec with
  | None => None
  | Some key =>
      match kw_Unwrap key (rec_WrappedDEK rec) (record_aad rec) with
      | Err _ => None
      | Ok dek =>
          match openSecret dek (rec_Nonce rec) (rec_Ciphertext rec) (record_aad rec) with
          | Ok pt => Some pt
          | Err _ => None
          end
      end
  end.

Definition stored_secret (r : MemoryRepo) (id : Identity) : option string :=
  mr_records r !! id ≫= opened.

(** What the keys of a service are relied on for: the current one is among
    them, each is under its own id and unwraps what it wrapped, and what one of
    them wrapped no other one unwraps to something else. *)
Class KeysOk : Prop := {
  keys_current : vs_keys s !! kw_KeyID (vs_current s) = Some (vs_current s);
  keys_wrap id k : vs_keys s !! id = Some k → KeyWrapperOk k;
  keys_exclusive i j k1 k2 n n' dek aad b d :
    vs_keys s !! i = Some k1 → vs_keys s !! j = Some k2 →
    kw_Wrap k1 n dek aad = (n', Ok b) → kw_Unwrap k2 b aad = Ok d → d = dek;
}.

(** A record the vault wrote: of the current format, its key wrapped by a
    configured key for its identity, its payload sealed with that key. *)
Definition sealed_as (rec : CredRecord) (dek pt : string) : Prop :=
  rec_Version rec = recordVersion ∧
  (∃ key n n', vs_keys s !! rec_KEKID rec = Some key ∧
     kw_Wrap key n dek (record_aad rec) = (n', Ok (rec_WrappedDEK rec))) ∧
  openSecret dek (rec_Nonce rec) (rec_Ciphertext rec) (record_aad rec) = Ok pt.

(** The invariant: a well-formed repository of such records. *)
Definition vault_ok (r : MemoryRepo) : Prop :=
  repo_wf r ∧ ∀ id rec, mr_records r !! id = Some rec → ∃ dek pt, sealed_as rec dek pt.

Lemma sealed_opened `{!KeysOk} rec dek pt : sealed_as rec dek pt → opened rec = Some pt.
Proof.
  intros (_ & (key & n & n' & Hk & Hw) & Ho). unfold opened. rewrite Hk.
  pose proof (keys_wrap _ _ Hk) as Hok. by rewrite (unwrap_wrap _ _ _ _ _ Hw), Ho.
Qed.

(** Two records of one identity with the same wrapped key hold the same key,
    whichever configured keys wrapped them. *)
Lemma same_blob_same_key `{!KeysOk} rec rec' dek pt dek' pt' key d :
  sealed_as rec dek pt → sealed_as rec' dek' pt' →
  rec_Identity rec = rec_Identity rec' → rec_WrappedDEK rec = rec_WrappedDEK rec' →
  vs_keys s !! rec_KEKID rec = Some key → kw_Unwrap key (rec_WrappedDEK rec) (record_aad rec) = Ok d →
  d = dek'.
Proof.
  intros (Hv & _ & _) (Hv' & (key' & n & n' & Hk' & Hw') & _) Hid Hb Hk Hu.
  assert (Ha : record_aad rec = record_aad rec') by (unfold record_aad; congruence).
  rewrite Hb, Ha in Hu. exact (keys_exclusive _ _ _ _ _ _ _ _ _ _ Hk' Hk Hw' Hu).
Qed.

(** Re-wrapping under the current key leaves what the record opens to. *)
Lemma sealed_rewrapped `{!KeysOk} rec dek pt n n' b t :
  sealed_as rec dek pt → kw_Wrap (vs_current s) n dek (record_aad rec) = (n', Ok b) →
  sealed_as (rewrapped (mkEnvelope (kw_KeyID (vs_current s)) b t) rec) dek pt.
Proof.
  intros (Hv & _ & Ho) Hw. split_and!; [done| |done].
  exists (vs_current s), n, n'. split; [apply keys_current|done].
Qed.

(** *** The repository's writes *)

Lemma vault_ok_rows r : vault_ok r → Forall (λ rec, ∃ dek pt, sealed_as rec dek pt) (rows r).
Proof.
  intros [Hwf Hs]. apply Forall_forall. intros rec Hin%elem_of_rows; [|done]. by eapply Hs.
Qed.

Lemma vault_ok_Put r rec dek pt :
  vault_ok r → sealed_as rec dek pt → vault_ok (MemoryRepo_Put rec r).1.
Proof.
  intros [Hwf Hs] Hrec. split; [by eapply repo_step_wf, step_Put|].
  intros id rec'. simpl. rewrite cloneRecord_id.
  intros [[<- <-]|[_ ?]]%lookup_insert_Some; eauto.
Qed.

Lemma stored_secret_Put `{!KeysOk} r rec dek pt id :
  sealed_as rec dek pt →
  stored_secret (MemoryRepo_Put rec r).1 id =
    if decide (id = rec_Identity rec) then Some pt else stored_secret r id.
Proof.
  intros Hrec. unfold stored_secret. simpl. case_decide as E.
  - subst id. rewrite lookup_insert_eq, cloneRecord_id. simpl. by eapply sealed_opened.
  - by rewrite lookup_insert_ne.
Qed.

Lemma vault_ok_Delete r id : vault_ok r → vault_ok (MemoryRepo_Delete id r).1.
Proof.
  intros [Hwf Hs]. split; [by eapply repo_step_wf, step_Delete|].
  unfold MemoryRepo_Delete. case_match; [|done]. intros id' rec'. simpl.
  intros [_ ?]%lookup_delete_Some. by eapply Hs.
Qed.

Lemma stored_secret_Delete r id id' :
  stored_secret (MemoryRepo_Delete id r).1 id' =
    if decide (id' = id) then None else stored_secret r id'.
Proof.
  unfold stored_secret, MemoryRepo_Delete. destruct (mr_records r !! id) as [rec|] eqn:E; simpl.
  - case_decide as Ei; [subst; by rewrite lookup_delete_eq|by rewrite lookup_delete_ne].
  - case_decide as Ei; [subst; by rewrite E|done].
Qed.

Lemma vault_ok_DeleteSubject r sub : vault_ok r → vault_ok (MemoryRepo_DeleteSubject sub r).1.
Proof.
  intros [Hwf Hs]. destruct (decide (sub = EmptyString)) as [->|Hne]; [done|].
  destruct (DeleteSubject_lookup sub r Hwf Hne) as (Hl & _ & _).
  split; [by eapply repo_step_wf, step_DeleteSubject|].
  intros id rec. rewrite Hl. case_decide; [done|]. apply Hs.
Qed.

Lemma stored_secret_DeleteSubject r sub id :
  vault_ok r → sub ≠ EmptyString →
  stored_secret (MemoryRepo_DeleteSubject sub r).1 id =
    if decide (id_Subject id = sub) then None else stored_secret r id.
Proof.
  intros [Hwf _] Hne. destruct (DeleteSubject_lookup sub r Hwf Hne) as (Hl & _ & _).
  unfold stored_secret. rewrite Hl. by case_decide.
Qed.

(** The compare-and-swap of a rotation: whatever was stored in the meantime,
    the secrets stay. *)
Lemma Rewrap_keeps `{!KeysOk} r rec dek0 pt0 key dek n n' b t :
  vault_ok r → sealed_as rec dek0 pt0 →
  vs_keys s !! rec_KEKID rec = Some key →
  kw_Unwrap key (rec_WrappedDEK rec) (record_aad rec) = Ok dek →
  kw_Wrap (vs_current s) n dek (record_aad rec) = (n', Ok b) →
  let r' := (MemoryRepo_RewrapIfUnchanged (rec_Identity rec) (rec_WrappedDEK rec)
               (mkEnvelope (kw_KeyID (vs_current s)) b t) r).1 in
  vault_ok r' ∧ ∀ id, stored_secret r' id = stored_secret r id.
Proof.
  intros [Hwf Hs] Hrec Hk Hu Hw r'. subst r'. unfold MemoryRepo_RewrapIfUnchanged.
  destruct (mr_records r !! rec_Identity rec) as [cur|] eqn:Ec; [|done].
  case_match; [done|]. bools.
  assert (Hid : rec_Identity cur = rec_Identity rec) by by apply Hwf.
  destruct (Hs _ _ Ec) as (dek' & pt' & Hcur).
  assert (dek = dek') as -> by by eapply (same_blob_same_key rec cur).
  assert (Ha : record_aad rec = record_aad cur).
  { destruct Hrec as (Hv & _), Hcur as (Hv' & _). unfold record_aad. congruence. }
  rewrite Ha in Hw. pose proof (sealed_rewrapped _ _ _ _ _ _ t Hcur Hw) as Hnew. split.
  - split; [|intros id rec'; simpl; intros [[<- <-]|[_ ?]]%lookup_insert_Some; eauto].
    pose proof (repo_step_wf _ _ Hwf (step_Rewrap (rec_Identity rec) (rec_WrappedDEK rec)
      (mkEnvelope (kw_KeyID (vs_current s)) b t) r)) as Hwf'.
    unfold MemoryRepo_RewrapIfUnchanged in Hwf'. rewrite Ec, bool_decide_true in Hwf' by done. done.
  - intros id. unfold stored_secret. simpl.
    destruct (decide (id = rec_Identity rec)) as [->|]; [|by rewrite lookup_insert_ne].
    rewrite lookup_insert_eq, Ec. simpl.
    by rewrite (sealed_opened _ _ _ Hnew), (sealed_opened _ _ _ Hcur).
Qed.
End readable.

(** ** Construction *)

Section constructed.
Context `{Platform}.

(** The keys of a service under construction: the current one and retired ones
    of other ids and, where both have a fingerprint, other material. *)
Definition keys_wf (s : vault) : Prop :=
  vs_keys s !! kw_KeyID (vs_current s) = Some (vs_current s) ∧
  ∀ id k, vs_keys s !! id = Some k →
    kw_KeyID k = id ∧ (k = vs_current s ∨ sameKeyMaterial k (vs_current s) = false).

Lemma retire_keys_wf keys added s s' :
  keys_wf s → retire_keys keys added s = Ok s' → keys_wf s' ∧ vs_current s' = vs_current s.
Proof.
  revert added s. induction keys as [|[k|] keys IH]; intros added s Hwf; simpl; [by intros [= <-]| |done].
  case_bool_decide as Hid; [done|]. destruct (vs_keys s !! kw_KeyID k) eqn:Ek; [done|].
  destruct (sameKeyMaterial k (vs_current s)) eqn:Hm; [done|]. case_match; [|done].
  intros Hr. apply IH in Hr; [done|]. destruct Hwf as [Hc Hk]. split; simpl; [by rewrite lookup_insert_ne|].
  intros id k' [[<- <-]|[_ ?]]%lookup_insert_Some; auto.
Qed.

Lemma apply_options_wf opts s s' :
  keys_wf s → apply_options opts s = Ok s' → keys_wf s' ∧ vs_current s' = vs_current s.
Proof.
  revert s. induction opts as [|o opts IH]; intros s Hwf; simpl; [by intros [= <-]|].
  destruct (apply_option o s) as [s1|] eqn:E; [|done].
  assert (keys_wf s1 ∧ vs_current s1 = vs_current s) as [Hwf1 <-]; [|by apply IH].
  destruct o; simpl in E; [by injection E as <-|by eapply retire_keys_wf].
Qed.

(** A service that [NewService] builds finds its current key under its id, and
    every retired key under the id it had; no retired key is the current one
    relabelled. *)
Theorem NewVault_keys repo kek logger opts s :
  NewVault repo kek logger opts = Ok s → keys_wf s ∧ kw_KeyID (vs_current s) ≠ EmptyString.
Proof.
  unfold NewVault. destruct repo, kek as [kek|], logger; try done. simpl.
  case_bool_decide as Hid; [done|]. intros Hopts.
  assert (Hwf : keys_wf (mkVault kek {[ kw_KeyID kek := kek ]} false)).
  { split; simpl; [by rewrite lookup_singleton_eq|]. intros id k [<- <-]%lookup_singleton_Some. auto. }
  destruct (apply_options_wf opts _ s Hwf Hopts) as [? ->]. done.
Qed.
End constructed.

(** ** Operations that interleave *)

(** What can run against one vault; the callback of [Use] does not reach back
    into it. *)
Inductive vrequest :=
| VqEnroll (id : Identity) (secret : string) (meta : option (gmap string string))
| VqUse (id : Identity) (fn : string → result unit)
| VqRevoke (id : Identity)
| VqExists (id : Identity)
| VqRotate (fuel : nat)
| VqDeleteSubject (subject : string).

(** What a request may make of the secret of an identity. *)
Definition vwrites (rq : vrequest) (id : Identity) (o : option string) : Prop :=
  match rq with
  | VqEnroll id' secret _ => id = id' ∧ o = Some secret
  | VqRevoke id' => id = id' ∧ o = None
  | VqDeleteSubject subject => id_Subject id = subject ∧ o = None
  | VqUse _ _ | VqExists _ | VqRotate _ => False
  end.

Section interleaved.
Context `{Platform} `{Entropy} `{Aead} (s : vault) `{!KeysOk s}.
Context {Lg : Type} `{Logger Lg}.
Local Abbreviation W := (VWorld MemoryRepo Lg).
Implicit Types w : W.

(** The operation; what a rotation tallied, if it is one. *)
Definition vserve (rq : vrequest) : go W (option (Rotation * option error)) :=
  match rq with
  | VqEnroll id secret meta => Enroll s id secret meta;; mret None
  | VqUse id fn => Use s id (Some (λ p, lift_result (fn p)));; mret None
  | VqRevoke id => VRevoke s id;; mret None
  | VqExists id => Exists id;; mret None
  | VqRotate fuel => r ← Rotate s fuel; mret (Some r)
  | VqDeleteSubject subject => on_repo (repo_DeleteSubject subject);; mret None
  end.

Definition secret_of (w : W) (id : Identity) : option string := stored_secret s (vw_repo w) id.

(** A step within what the request may write. *)
Definition within (rq : vrequest) (w w' : W) : Prop :=
  ∀ id, secret_of w' id = secret_of w id ∨ vwrites rq id (secret_of w' id).

Section steps.
Context (rq : vrequest).
Local Abbreviation I := (λ w : W, vault_ok s (vw_repo w)).
Local Abbreviation guar := (Proc.guar I (within rq)).
Local Abbreviation any := (λ _, True).

Lemma within_same w w' : vw_repo w' = vw_repo w → within rq w w'.
Proof. intros E id. left. unfold secret_of. by rewrite E. Qed.

Lemma guar_still {A} (f : W → W * result A) (Q : result A → Prop) :
  (∀ w, vw_repo (f w).1 = vw_repo w) → (∀ w, I w → Q (f w).2) → guar (call f) Q.
Proof.
  intros Hr HQ. apply guar_call. intros w Hw. rewrite Hr. split; [done|].
  split; [by apply within_same|by apply HQ].
Qed.

Lemma guar_with_entropy {A} (f : nat → nat * result A) :
  guar (with_entropy f) (λ r, ∃ n n', f n = (n', r)).
Proof.
  apply guar_still; intros w; [by destruct (f (vw_entropy w))|]. intros _.
  destruct (f (vw_entropy w)) as [n' r] eqn:E. eauto.
Qed.
Lemma guar_with_entropy_any {A} (f : nat → nat * result A) : guar (with_entropy f) any.
Proof. eapply guar_mono; [apply guar_with_entropy|done]. Qed.

Lemma guar_vrecord e : guar (vrecord e) any.
Proof. apply guar_still; intros w; [by destruct (log_Record _ _ _)|done]. Qed.
Lemma guar_observe op r : guar (observe s op r) any.
Proof.
  unfold observe. case_match; [|done]. apply guar_atomic. intros w Hw. split; [done|].
  split; [by apply within_same|done].
Qed.
Lemma guar_vnow : guar vnow any.
Proof. apply guar_atomic. intros w Hw. split; [done|]. split; [by apply within_same|done]. Qed.
Lemma guar_ask_repo {A} (f : MemoryRepo → result A) : guar (ask_repo f) any.
Proof. by apply guar_still. Qed.
Lemma guar_throw {A} e : guar (throw (A:=A) e) any.
Proof. done. Qed.
Lemma guar_mret {A} (a : A) : guar (mret (M:=go W) a) any.
Proof. done. Qed.
Lemma guar_lift {A} (r : result A) : guar (lift_result r) any.
Proof. done. Qed.
Lemma guar_diverge {A} Q : guar (diverge (A:=A)) Q.
Proof. intros w w' b _. by destruct b. Qed.

Lemma guar_Put rec dek pt :
  sealed_as s rec dek pt → vwrites rq (rec_Identity rec) (Some pt) →
  guar (on_repo (repo_Put rec)) any.
Proof.
  intros Hrec Hwr. apply guar_call. intros w Hw. cbn [repo_Put memory_repo].
  pose proof (vault_ok_Put s (vw_repo w) rec dek pt Hw Hrec) as Hok.
  pose proof (λ id, stored_secret_Put s (vw_repo w) rec dek pt id Hrec) as Hst.
  destruct (MemoryRepo_Put rec (vw_repo w)) as [r a]. simpl in *. split; [done|]. split; [|done].
  intros id. unfold secret_of. simpl. rewrite Hst. case_decide; [subst; by right|by left].
Qed.

Lemma guar_Delete id : vwrites rq id None → guar (on_repo (repo_Delete id)) any.
Proof.
  intros Hwr. apply guar_call. intros w Hw. simpl.
  pose proof (vault_ok_Delete s (vw_repo w) id Hw) as Hok.
  pose proof (stored_secret_Delete s (vw_repo w) id) as Hst.
  destruct (MemoryRepo_Delete id (vw_repo w)) as [r a]. simpl in *. split; [done|]. split; [|done].
  intros id'. unfold secret_of. simpl. rewrite Hst. case_decide; [subst; by right|by left].
Qed.

Lemma guar_DeleteSubject sub :
  (∀ id, id_Subject id = sub → vwrites rq id None) → guar (on_repo (repo_DeleteSubject sub)) any.
Proof.
  intros Hwr. apply guar_call. intros w Hw. simpl.
  pose proof (vault_ok_DeleteSubject s (vw_repo w) sub Hw) as Hok.
  destruct (decide (sub = EmptyString)) as [->|Hne].
  { simpl. split; [done|]. split; [by apply within_same|done]. }
  pose proof (λ id, stored_secret_DeleteSubject s (vw_repo w) sub id Hw Hne) as Hst.
  destruct (MemoryRepo_DeleteSubject sub (vw_repo w)) as [r a]. simpl in *. split; [done|]. split; [|done].
  intros id'. unfold secret_of. simpl. rewrite Hst. case_decide; [right; by apply Hwr|by left].
Qed.

Lemma guar_page a b limit :
  guar (on_repo (MemoryRepo_ListPage a b limit))
    (λ r, ∀ l, r = Ok l → Forall (λ rec, ∃ dek pt, sealed_as s rec dek pt) l).
Proof.
  apply guar_call. intros w Hw. destruct (ListPage_rows a b limit (vw_repo w)) as (l & -> & Hl). simpl.
  split; [done|]. split; [by left|]. intros l' [= <-].
  apply vault_ok_rows in Hw. rewrite Forall_forall in *. auto.
Qed.

Lemma guar_Rewrap rec dek0 pt0 key dek n n' b t :
  sealed_as s rec dek0 pt0 → vs_keys s !! rec_KEKID rec = Some key →
  kw_Unwrap key (rec_WrappedDEK rec) (record_aad rec) = Ok dek →
  kw_Wrap (vs_current s) n dek (record_aad rec) = (n', Ok b) →
  guar (on_repo (repo_RewrapIfUnchanged (rec_Identity rec) (rec_WrappedDEK rec)
                   (mkEnvelope (kw_KeyID (vs_current s)) b t))) any.
Proof.
  intros Hrec Hk Hu Hwr. apply guar_call. intros w Hw. simpl.
  pose proof (Rewrap_keeps s (vw_repo w) rec dek0 pt0 key dek n n' b t Hw Hrec Hk Hu Hwr) as [Hok Hst].
  destruct (MemoryRepo_RewrapIfUnchanged _ _ _ _) as [r a]. simpl in *. split; [done|]. split; [|done].
  intros id. left. apply Hst.
Qed.

#[local] Hint Resolve guar_with_entropy_any guar_vrecord guar_observe guar_vnow guar_ask_repo
  guar_throw guar_mret guar_lift guar_Delete : guar.

Lemma guar_use_refused {A} id o r e : guar (use_refused (A:=A) s id o r e) any.
Proof. unfold use_refused. guar_tac. Qed.
#[local] Hint Resolve guar_use_refused : guar.

Lemma guar_Use id fn : guar (Use s id (Some (λ p, lift_result (fn p)))) any.
Proof. unfold Use, UseIn. guar_tac. Qed.

Lemma guar_VRevoke id : vwrites rq id None → guar (VRevoke s id) any.
Proof. intros Hwr. unfold VRevoke. guar_tac. Qed.

Lemma guar_Exists id : guar (Exists id) any.
Proof. unfold Exists. guar_tac. Qed.

(** A call whose answer is needed later. *)
Lemma guar_bind_try {A B} (p : go W A) (f : result A → go W B) (P : result A → Prop) :
  guar p P → (∀ r, P r → guar (f r) any) → guar (mbind (M:=go W) f (try p)) any.
Proof.
  intros Hp Hf. eapply (guar_bind _ _ _ _ (λ r, ∀ r', r = Ok r' → P r')); [|intros r HP; by apply Hf, HP|done].
  eapply guar_try; [exact Hp|]. intros r HP r' [= <-]. done.
Qed.

Lemma guar_Enroll `{!AeadOk} id secret meta :
  vwrites rq id (Some secret) → guar (Enroll s id secret meta) any.
Proof.
  intros Hwr. unfold Enroll. destruct (validate id); [guar_tac|]. cbv zeta.
  set (aad := bindingAAD _ _ _).
  guar_step; [guar_tac|]. destruct a as [dek|]; [|guar_tac].
  eapply guar_bind_try; [apply guar_with_entropy|]. intros [wrapped|] (n & n' & Hw); [|guar_tac].
  eapply guar_bind_try; [apply guar_with_entropy|]. intros [[nonce ct]|] (m & m' & Hs); [|guar_tac].
  apply sealSecret_opens in Hs.
  do 2 (guar_step; [guar_tac|]). destruct a0; [|guar_tac]. guar_step; [guar_tac|].
  guar_step; [|guar_tac]. eapply guar_try; [|done]. eapply (guar_Put _ dek secret); [|done].
  split_and!; [done| |done]. exists (vs_current s), n, n'. split; [exact (keys_current s)|done].
Qed.

Lemma guar_rotate_one rec out dek0 pt0 :
  sealed_as s rec dek0 pt0 → guar (rotate_one s rec out) any.
Proof.
  intros Hrec. unfold rotate_one. cbv zeta. case_bool_decide; [guar_tac|].
  destruct (vs_keys s !! rec_KEKID rec) as [key|] eqn:Hk; [|guar_tac].
  destruct (kw_Unwrap key _ _) as [dek|] eqn:Hu; [|guar_tac].
  eapply guar_bind_try; [apply guar_with_entropy|]. intros [wrapped|] (n & n' & Hw); [|guar_tac].
  guar_step; [guar_tac|]. guar_step; [|guar_tac]. eapply guar_try; [|done].
  by eapply guar_Rewrap.
Qed.

Lemma guar_rotateRecords l out :
  Forall (λ rec, ∃ dek pt, sealed_as s rec dek pt) l → guar (rotateRecords s l out) any.
Proof.
  intros Hl. revert out. induction Hl as [|rec l (dek & pt & Hrec) _ IH]; intros out;
    cbn [rotateRecords]; [guar_tac|].
  guar_step; [by eapply guar_rotate_one|]. guar_tac.
Qed.

Lemma guar_rotate_pages fuel a b out :
  guar (rotate_pages s MemoryRepo_ListPage fuel a b out) any.
Proof.
  revert a b out. induction fuel as [|fuel IH]; intros a b out; cbn [rotate_pages];
    [apply guar_diverge|].
  eapply guar_bind_try; [apply guar_page|]. intros [page|] Hp; [|guar_tac].
  case_match; [guar_tac|]. guar_step; [by apply guar_rotateRecords, Hp|]. guar_tac.
Qed.

Lemma guar_Rotate fuel : guar (Rotate s fuel) any.
Proof.
  unfold Rotate. cbn [repo_ListPage memory_repo]. guar_step; [apply guar_rotate_pages|].
  cbv zeta. guar_tac.
Qed.
End steps.

Lemma guar_vserve `{!AeadOk} rq :
  guar (λ w, vault_ok s (vw_repo w)) (within rq) (vserve rq) (λ _, True).
Proof.
  destruct rq; unfold vserve; (eapply (guar_bind _ _ _ _ (λ _, True)); [|done..]).
  - by apply guar_Enroll.
  - apply guar_Use.
  - by apply guar_VRevoke.
  - apply guar_Exists.
  - apply guar_Rotate.
  - by apply guar_DeleteSubject.
Qed.

(** C10. No lost update. Take any number of enrolments, uses, revocations,
    erasures and key rotations at once over one in-memory repository, and any
    interleaving of their actions. Every stored record stays readable with the
    configured keys, and a step of a request changes what an identity's secret
    is only in the way that request asks for: a rotation, which pages through
    records others are rewriting, never changes or revives any secret. *)
Theorem vault_no_lost_update `{!AeadOk} rqs w w1 ps1 i rq B (act : W → option (W * B)) k w2 b :
  vault_ok s (vw_repo w) → preach (w, vserve <$> rqs) (w1, ps1) →
  rqs !! i = Some rq → ps1 !! i = Some (Act act k) → act w1 = Some (w2, b) →
  (∀ id, secret_of w2 id = secret_of w1 id ∨ vwrites rq id (secret_of w2 id)) ∧
  (∀ id rec, mr_records (vw_repo w2) !! id = Some rec → is_Some (opened s rec)).
Proof.
  intros Hw Hr Hrq Hi Ha.
  set (Rs := λ j w w', ∀ rq, rqs !! j = Some rq → within rq w w').
  destruct (guar_step (λ w, vault_ok s (vw_repo w)) Rs (λ _ _, True)
              w (vserve <$> rqs) w1 ps1 i B act k w2 b) as (_ & Hok2 & HR); try done.
  - intros j p Hj. apply list_lookup_fmap_Some in Hj as (rq' & -> & Hrq').
    eapply guar_weaken; [apply (guar_vserve rq')|]. intros w0 w0' Hwi rq'' Hrq''. by simplify_eq.
  - split; [by apply HR|]. intros id rec Hrec. destruct Hok2 as [_ Hs].
    destruct (Hs _ _ Hrec) as (dek & pt & Hsl). exists pt. by eapply sealed_opened.
Qed.
End interleaved.

#[export] Hint Resolve guar_with_entropy_any guar_vrecord guar_observe guar_vnow guar_ask_repo
  guar_throw guar_mret guar_lift guar_Delete guar_use_refused : guar.

(** ** Operations that run alone *)

Section alone.
Context `{Platform} `{Entropy} `{Aead} (s : vault) `{!KeysOk s}.
Context {Lg : Type} `{Logger Lg}.
Local Abbreviation W := (VWorld MemoryRepo Lg).
Implicit Types w : W.

(** The world after an event, and the error of a log that refused it. *)
Definition audited (e : Event) (w : W) : W * option error :=
  let '(l, err) := log_Record (vw_clock w) (stamp (vw_clock w) e) (vw_audit w) in
  (set_audit l w, (λ err, Wrap ("vault: audit: " +:+ Error err) err) <$> err).

(** The world after the observer was told. *)
Definition noticed (op res : string) (w : W) : W :=
  if vs_metrics s then add_observed (op, res) w else w.

Definition vault_event (action outcome : string) (id : Identity) : Event :=
  mkEvent 0 action (id_Subject id) (id_Provider id) outcome ∅.

Lemma run_vrecord e w :
  run (vrecord e) w =
    Some ((audited e w).1, match (audited e w).2 with None => Ok tt | Some err => Err err end).
Proof.
  unfold vrecord, audited. rewrite run_call.
  destruct (log_Record (vw_clock w) (stamp (vw_clock w) e) (vw_audit w)) as [l [err|]]; done.
Qed.

Lemma run_observe op res w : run (observe s op res) w = Some (noticed op res w, Ok tt).
Proof. unfold observe, noticed. by destruct (vs_metrics s). Qed.

Lemma run_use_refused {A} id o res err w :
  run (use_refused (A:=A) s id o res err) w =
    let '(w1, aerr) := audited (vault_event "vault.use" o id) w in
    Some (noticed metricOpUse res w1, Err (errors_Join err aerr)).
Proof.
  unfold use_refused. rewrite run_bind, run_try, run_vrecord. fold (vault_event "vault.use" o id).
  destruct (audited (vault_event "vault.use" o id) w) as [w1 [aerr|]]; simpl;
    by rewrite run_bind, run_observe.
Qed.

Lemma secret_of_Some w id pt :
  secret_of s w id = Some pt ↔
  ∃ rec, mr_records (vw_repo w) !! id = Some rec ∧ opened s rec = Some pt.
Proof. unfold secret_of, stored_secret. apply bind_Some. Qed.

(** [Use] seen from a larger world, of which [get] is the vault's part. *)
Lemma run_UseIn {W' A} (lift : ∀ B, go W B → go W' B) (get : W' → W) (set : W → W' → W') `{!Lens get set}
    id (fn : string → go W' A) (w : W') :
  (∀ B (p : go W B) (w : W'), run (lift B p) w =
     match run p (get w) with Some (v, a) => Some (set v w, a) | None => None end) →
  vault_ok s (vw_repo (get w)) → validate id = None →
  run (UseIn s lift id (Some fn)) w =
    match secret_of s (get w) id with
    | None =>
        let '(w1, aerr) := audited (vault_event "vault.use" OutcomeDenied id) (get w) in
        Some (set (noticed metricOpUse metricNotFound w1) w, Err (errors_Join ErrNotFound aerr))
    | Some secret =>
        let '(w1, aerr) := audited (vault_event "vault.use" OutcomeOK id) (get w) in
        match aerr with
        | Some err => Some (set (noticed metricOpUse metricAuditError w1) w, Err err)
        | None =>
            match run (fn secret) (set w1 w) with
            | Some (w2, r) => Some (set (noticed metricOpUse metricOK (get w2)) w2, r)
            | None => None
            end
        end
    end.
Proof.
  intros Hlift [Hwf Hs] Hv. unfold UseIn. rewrite Hv, run_bind, Hlift, run_try. unfold ask_repo. rewrite run_call.
  unfold secret_of, stored_secret. cbn [repo_Get memory_repo]. unfold MemoryRepo_Get.
  rewrite (lens_set_get w).
  destruct (mr_records (vw_repo (get w)) !! id) as [rec|] eqn:E; cbn [mbind option_bind].
  2: { rewrite Hlift, run_use_refused. by destruct (audited _ _). }
  destruct (Hs _ _ E) as (dek & pt & Hsl). rewrite (sealed_opened s _ _ _ Hsl), cloneRecord_id.
  destruct Hsl as (_ & (key & n & n' & Hk & Hw) & Ho). rewrite Hk.
  pose proof (keys_wrap s _ _ Hk) as Hok. fold (record_aad rec).
  rewrite (unwrap_wrap _ _ _ _ _ Hw), Ho, run_bind, Hlift, run_try, run_vrecord.
  fold (vault_event "vault.use" OutcomeOK id).
  destruct (audited (vault_event "vault.use" OutcomeOK id) (get w)) as [w1 [aerr|]]; cbn [fst snd].
  - by rewrite run_bind, Hlift, run_observe, (lens_get_set w1 w), (lens_set_set _ w1 w).
  - rewrite run_bind, run_try. destruct (run (fn pt) (set w1 w)) as [[w2 r]|]; [|done].
    by rewrite run_bind, Hlift, run_observe.
Qed.

(** [Use] hands the callback exactly the stored secret, and only after the
    access is on record. With nothing stored it answers not found and says so in
    the log; when the log refuses the event the callback does not run and the
    log's error comes back; otherwise the callback's own outcome is the
    answer. *)
Theorem Use_exact id (fn : string → go W unit) w :
  vault_ok s (vw_repo w) → validate id = None →
  run (Use s id (Some fn)) w =
    match secret_of s w id with
    | None =>
        let '(w1, aerr) := audited (vault_event "vault.use" OutcomeDenied id) w in
        Some (noticed metricOpUse metricNotFound w1, Err (errors_Join ErrNotFound aerr))
    | Some secret =>
        let '(w1, aerr) := audited (vault_event "vault.use" OutcomeOK id) w in
        match aerr with
        | Some err => Some (noticed metricOpUse metricAuditError w1, Err err)
        | None =>
            match run (fn secret) w1 with
            | Some (w2, r) => Some (noticed metricOpUse metricOK w2, r)
            | None => None
            end
        end
    end.
Proof.
  intros Hok Hv. assert (Lens (λ v : W, v) (λ v _, v)) by done.
  unfold Use. rewrite (run_UseIn (λ _ p, p) (λ v, v) (λ v _, v)); [done|..|done|done].
  intros B p w0. by destruct (run p w0) as [[]|].
Qed.

Lemma run_with_entropy {A} (f : nat → nat * result A) w :
  run (with_entropy f) w =
    Some (set_ventropy (f (vw_entropy w)).1 w, (f (vw_entropy w)).2).
Proof. unfold with_entropy. rewrite run_call. by destruct (f (vw_entropy w)). Qed.

(** The log takes the event. *)
Definition accepts (e : Event) (w : W) : Prop := (audited e w).2 = None.

Lemma audited_world e w :
  vw_repo (audited e w).1 = vw_repo w ∧ vw_clock (audited e w).1 = vw_clock w ∧
  vw_entropy (audited e w).1 = vw_entropy w.
Proof. unfold audited. by destruct (log_Record _ _ _). Qed.

Lemma noticed_world op res w :
  vw_repo (noticed op res w) = vw_repo w ∧ vw_audit (noticed op res w) = vw_audit w.
Proof. unfold noticed. by destruct (vs_metrics s). Qed.

(** An event does not depend on the reads of the generator. *)
Lemma audited_entropy e n w : audited e (set_ventropy n w) =
  (set_ventropy n (audited e w).1, (audited e w).2).
Proof. unfold audited. simpl. by destruct (log_Record _ _ _). Qed.

(** The record an enrolment stores. *)
Definition enrolled (id : Identity) (meta : option (gmap string string)) (w : W) (rec : CredRecord)
    : Prop :=
  rec_Identity rec = id ∧ rec_KEKID rec = kw_KeyID (vs_current s) ∧ rec_Meta rec = meta ∧
  rec_UpdatedAt rec = vw_clock w ∧
  rec_CreatedAt rec = match mr_records (vw_repo w) !! id with
                      | Some prev => rec_CreatedAt prev
                      | None => vw_clock w
                      end.

(** The cryptographic half of an enrolment: the wrapped key, the nonce and the
    ciphertext, from a read of the generator on. *)
Definition enroll_material (id : Identity) (secret : string) (n : nat)
    : nat * result (string * string * string) :=
  let aad := bindingAAD recordVersion (id_Subject id) (id_Provider id) in
  let '(n1, dek) := readFull dekSize n in
  match dek with
  | Err err => (n1, Err err)
  | Ok dek =>
      let '(n2, wrapped) := kw_Wrap (vs_current s) n1 dek aad in
      match wrapped with
      | Err err => (n2, Err (Wrap ("vault: wrap DEK: " +:+ Error err) err))
      | Ok wrapped =>
          let '(n3, sealed) := sealSecret dek n2 secret aad in
          (n3, match sealed with
               | Err err => Err err
               | Ok (nonce, ct) => Ok (wrapped, nonce, ct)
               end)
      end
  end.

Definition enroll_record (id : Identity) (m : string * string * string)
    (meta : option (gmap string string)) (w : W) : CredRecord :=
  mkRecord id recordVersion m.1.1 (kw_KeyID (vs_current s)) m.1.2 m.2 meta
    (match mr_records (vw_repo w) !! id with Some prev => rec_CreatedAt prev | None => vw_clock w end)
    (vw_clock w).

Lemma run_Enroll id secret meta w :
  validate id = None →
  run (Enroll s id secret meta) w =
    let '(n, m) := enroll_material id secret (vw_entropy w) in
    let w1 := set_ventropy n w in
    match m with
    | Err err => Some (noticed metricOpEnroll metricError w1, Err err)
    | Ok m =>
        let '(w2, aerr) := audited (vault_event "vault.enroll" OutcomeOK id) w1 in
        match aerr with
        | Some err => Some (noticed metricOpEnroll metricAuditError w2, Err err)
        | None =>
            Some (noticed metricOpEnroll metricOK
                    (set_repo (MemoryRepo_Put (enroll_record id m meta w) (vw_repo w)).1 w2), Ok tt)
        end
    end.
Proof.
  intros Hv. unfold Enroll, enroll_material. rewrite Hv. cbv zeta. set (aad := bindingAAD _ _ _).
  rewrite run_bind, run_try, run_with_entropy.
  destruct (readFull dekSize (vw_entropy w)) as [n1 [dek|err]]; cbn [fst snd];
    [|by rewrite run_bind, run_observe].
  rewrite run_bind, run_try, run_with_entropy. cbn [vw_entropy set_ventropy].
  destruct (kw_Wrap (vs_current s) n1 dek aad) as [n2 [wrapped|err]]; cbn [fst snd];
    [|by rewrite run_bind, run_observe].
  rewrite run_bind, run_try, run_with_entropy. cbn [vw_entropy set_ventropy].
  destruct (sealSecret dek n2 secret aad) as [n3 [[nonce ct]|err]]; cbn [fst snd];
    [|by rewrite run_bind, run_observe].
  rewrite run_bind. unfold vnow. rewrite run_reads, run_bind, run_try, run_vrecord.
  fold (vault_event "vault.enroll" OutcomeOK id).
  change (set_ventropy n3 (set_ventropy n2 (set_ventropy n1 w))) with (set_ventropy n3 w).
  pose proof (audited_world (vault_event "vault.enroll" OutcomeOK id) (set_ventropy n3 w)) as (Hr & _ & _).
  destruct (audited (vault_event "vault.enroll" OutcomeOK id) (set_ventropy n3 w)) as [w2 [aerr|]];
    cbn [fst snd] in *; [by rewrite run_bind, run_observe|].
  unfold ask_repo, on_repo. rewrite run_bind, run_try, run_call, run_bind, run_try, run_call, Hr.
  cbn [repo_Get repo_Put memory_repo vw_repo set_ventropy vw_clock]. rewrite cloneMeta_id.
  unfold MemoryRepo_Get, enroll_record. cbn [fst snd].
  destruct (mr_records (vw_repo w) !! id) as [prev|] eqn:E; cbn [fst snd];
    rewrite ?cloneRecord_id; apply run_observe.
Qed.

Lemma enroll_material_sealed `{!AeadOk} id secret n n' m meta w :
  enroll_material id secret n = (n', Ok m) → ∃ dek, sealed_as s (enroll_record id m meta w) dek secret.
Proof.
  unfold enroll_material. destruct (readFull dekSize n) as [n1 [dek|err]]; [|done].
  destruct (kw_Wrap _ _ _ _) as [n2 [wrapped|err]] eqn:Hw; [|done].
  destruct (sealSecret _ _ _ _) as [n3 [[nonce ct]|err]] eqn:Hs; [|done]. intros [= <- <-].
  exists dek. split_and!; [done| |by eapply sealSecret_opens].
  exists (vs_current s), n1, n2. split; [exact (keys_current s)|done].
Qed.

Lemma enroll_material_total id secret n :
  EntropyOk → (∀ n dek aad, ∃ n' b, kw_Wrap (vs_current s) n dek aad = (n', Ok b)) →
  ∃ n' m, enroll_material id secret n = (n', Ok m).
Proof.
  intros Hent Hwrap. unfold enroll_material.
  destruct (readFull_ok dekSize n) as (dek & -> & Hl).
  destruct (Hwrap (S n) dek (bindingAAD recordVersion (id_Subject id) (id_Provider id))) as (n2 & b & ->).
  assert (Haes : aes_NewCipher dek = None) by (unfold aes_NewCipher; by rewrite Hl).
  unfold sealSecret. rewrite Haes. destruct (readFull_ok nonceSize n2) as (nonce & -> & _). eauto.
Qed.

Lemma Enroll_spec `{!AeadOk} id secret meta w :
  vault_ok s (vw_repo w) →
  ∃ w' r, run (Enroll s id secret meta) w = Some (w', r) ∧
    match r with
    | Err _ => vw_repo w' = vw_repo w
    | Ok _ =>
        accepts (vault_event "vault.enroll" OutcomeOK id) w ∧
        vault_ok s (vw_repo w') ∧
        (∀ id', secret_of s w' id' = if decide (id' = id) then Some secret else secret_of s w id') ∧
        (∃ rec, mr_records (vw_repo w') !! id = Some rec ∧ enrolled id meta w rec)
    end ∧
    (validate id = None → EntropyOk →
     (∀ n dek aad, ∃ n' b, kw_Wrap (vs_current s) n dek aad = (n', Ok b)) →
     accepts (vault_event "vault.enroll" OutcomeOK id) w → r = Ok tt).
Proof.
  intros Hok. destruct (validate id) as [err|] eqn:Hv.
  { exists w, (Err err). split; [unfold Enroll; by rewrite Hv|]. by split. }
  rewrite run_Enroll by done. set (ev := vault_event "vault.enroll" OutcomeOK id).
  assert (Htot : EntropyOk → (∀ n dek aad, ∃ n' b, kw_Wrap (vs_current s) n dek aad = (n', Ok b)) →
    ∃ n' m, enroll_material id secret (vw_entropy w) = (n', Ok m)) by apply enroll_material_total.
  destruct (enroll_material id secret (vw_entropy w)) as [n [m|err]] eqn:Em.
  2: { eexists _, _. split; [done|]. split; [exact (proj1 (noticed_world _ _ _))|].
       intros _ He Hw. by destruct (Htot He Hw) as (? & ? & [=]). }
  cbv zeta. rewrite audited_entropy. unfold accepts. destruct (audited_world ev w) as (Hr & _ & _).
  destruct (audited ev w) as [w2 [aerr|]]; cbn [fst snd] in *.
  { eexists _, _. split; [done|]. split; [etrans; [exact (proj1 (noticed_world _ _ _))|done]|done]. }
  destruct (enroll_material_sealed _ _ _ _ _ meta w Em) as [dek Hsl].
  eexists _, _. split; [done|]. split; [|done]. split; [done|].
  unfold secret_of. rewrite (proj1 (noticed_world _ _ _)). cbn [vw_repo set_repo].
  split; [by eapply vault_ok_Put|]. split; [intros id'; by eapply stored_secret_Put|].
  exists (enroll_record id m meta w). split; [|done]. simpl. by rewrite lookup_insert_eq, cloneRecord_id.
Qed.

(** [Enroll] is all or nothing and fails closed. It always returns; an
    error leaves the repository untouched, and a refusal by the audit log is an
    error. On success the event was accepted, the identity's secret is the
    enrolled one, every other secret is as before, and the record is on the
    current key with the birth date of the one it replaces. A valid identity, a
    working generator, a working key and an accepting log are enough for
    success. *)
Theorem Enroll_exact `{!AeadOk} id secret meta w :
  vault_ok s (vw_repo w) →
  ∃ w' r, run (Enroll s id secret meta) w = Some (w', r) ∧
    match r with
    | Err _ => vw_repo w' = vw_repo w
    | Ok _ =>
        accepts (vault_event "vault.enroll" OutcomeOK id) w ∧
        vault_ok s (vw_repo w') ∧
        (∀ id', secret_of s w' id' = if decide (id' = id) then Some secret else secret_of s w id') ∧
        (∃ rec, mr_records (vw_repo w') !! id = Some rec ∧ enrolled id meta w rec)
    end ∧
    (validate id = None → EntropyOk →
     (∀ n dek aad, ∃ n' b, kw_Wrap (vs_current s) n dek aad = (n', Ok b)) →
     accepts (vault_event "vault.enroll" OutcomeOK id) w → r = Ok tt).
Proof. apply Enroll_spec. Qed.
End alone.
