(* ===== verification/VaultRotate.v ===== *)
(** * Key rotation that runs alone

    [Rotate] over the in-memory repository with no other request: it visits
    every record once, page by page, and leaves every one on the current key
    with its secret as it was. *)

From S2P Require Import Prelude GoStd Proc AuditLog VaultRepo VaultEnvelope Vault VaultProps.

Section rotation.
Context `{Platform} `{Entropy} `{Aead} (s : vault) `{!KeysOk s}.
Context {Lg : Type} `{Logger Lg}.
Local Abbreviation W := (VWorld MemoryRepo Lg).
Implicit Types w : W.

(** The current key wraps whatever it is given. *)
Context (Hwrap : ∀ n dek aad, ∃ n' b, kw_Wrap (vs_current s) n dek aad = (n', Ok b)).

(** ** What a rotation may do to a record *)

(** Only the envelope differs, and the secret is the same. *)
Definition renewed (rec rec' : CredRecord) : Prop :=
  rec_Identity rec' = rec_Identity rec ∧ rec_Version rec' = rec_Version rec ∧
  rec_Nonce rec' = rec_Nonce rec ∧ rec_Ciphertext rec' = rec_Ciphertext rec ∧
  rec_Meta rec' = rec_Meta rec ∧ rec_CreatedAt rec' = rec_CreatedAt rec ∧
  opened s rec' = opened s rec.

Definition on_current (rec : CredRecord) : Prop := rec_KEKID rec = kw_KeyID (vs_current s).

(** The records of [l] are done, the others untouched. *)
Definition advanced (l : list CredRecord) (r r' : MemoryRepo) : Prop :=
  mr_ids r' = mr_ids r ∧
  ∀ id, match mr_records r !! id with
        | None => mr_records r' !! id = None
        | Some rec => ∃ rec', mr_records r' !! id = Some rec' ∧ renewed rec rec' ∧
            (id ∈ rec_Identity <$> l → on_current rec') ∧
            (id ∉ rec_Identity <$> l → rec' = rec)
        end.

(** The tally after [n] more records, none of them skipped. *)
Definition tallied (n : nat) (out out' : Rotation) : Prop :=
  ro_Scanned out' = ro_Scanned out + n ∧
  ro_Rewrapped out' + ro_AlreadyCurrent out' = ro_Rewrapped out + ro_AlreadyCurrent out + n ∧
  ro_Skipped out' = ro_Skipped out.

(** Nothing but the repository and the generator moved. *)
Definition same_log (w w' : W) : Prop :=
  vw_audit w' = vw_audit w ∧ vw_clock w' = vw_clock w ∧ vw_observed w' = vw_observed w.

Lemma renewed_refl rec : renewed rec rec.
Proof. by split_and!. Qed.
Lemma renewed_trans r1 r2 r3 : renewed r1 r2 → renewed r2 r3 → renewed r1 r3.
Proof. unfold renewed. intros (?&?&?&?&?&?&?) (?&?&?&?&?&?&?). split_and!; congruence. Qed.

Lemma advanced_nil r : advanced [] r r.
Proof.
  split; [done|]. intros id. destruct (mr_records r !! id) as [rec|] eqn:E; [|done].
  exists rec. split_and!; [done|apply renewed_refl| |done]. intros Hin. by apply not_elem_of_nil in Hin.
Qed.

Lemma advanced_app l1 l2 r1 r2 r3 :
  (∀ id, id ∈ rec_Identity <$> l1 → id ∉ rec_Identity <$> l2) →
  advanced l1 r1 r2 → advanced l2 r2 r3 → advanced (l1 ++ l2) r1 r3.
Proof.
  intros Hdis [Hi1 Ha] [Hi2 Hb]. split; [congruence|]. intros id. specialize (Ha id). specialize (Hb id).
  destruct (mr_records r1 !! id) as [rec|]; [|by rewrite Ha in Hb].
  destruct Ha as (rec1 & E1 & Hr1 & Hin1 & Hout1). rewrite E1 in Hb.
  destruct Hb as (rec2 & E2 & Hr2 & Hin2 & Hout2). exists rec2. rewrite fmap_app.
  split_and!; [done|by eapply renewed_trans|..].
  - intros [Hin|Hin]%elem_of_app; [|by apply Hin2].
    rewrite (Hout2 (Hdis id Hin)). by apply Hin1.
  - rewrite not_elem_of_app. intros [Ho1 Ho2]. by rewrite Hout2, Hout1.
Qed.

Lemma tallied_app n m o1 o2 o3 : tallied n o1 o2 → tallied m o2 o3 → tallied (n + m) o1 o3.
Proof. unfold tallied. lia. Qed.

(** ** One record *)

Lemma run_rotate_one rec out w :
  vault_ok s (vw_repo w) → mr_records (vw_repo w) !! rec_Identity rec = Some rec →
  ∃ w' out', run (rotate_one s rec out) w = Some (w', Ok (out', None)) ∧
    vault_ok s (vw_repo w') ∧ advanced [rec] (vw_repo w) (vw_repo w') ∧ tallied 1 out out' ∧
    same_log w w'.
Proof.
  intros Hok E. destruct Hok as [Hwf Hs]. destruct (Hs _ _ E) as (dek & pt & Hsl).
  pose proof Hsl as (_ & (key & n & n' & Hk & Hw) & _).
  pose proof (keys_wrap s _ _ Hk) as Hkok. apply unwrap_wrap in Hw as Hu.
  unfold rotate_one. cbv zeta. fold (record_aad rec). case_bool_decide as Hcur.
  - assert (key = vs_current s) as -> by (rewrite Hcur, (keys_current s) in Hk; congruence).
    rewrite Hu. exists w, (counted_current (scanned out)).
    split; [done|]. split; [done|]. split; [|unfold tallied; simpl; split_and!; lia || done].
    split; [done|]. intros id. destruct (mr_records (vw_repo w) !! id) as [rec'|] eqn:E'; [|done].
    exists rec'. split_and!; [done|apply renewed_refl| |done].
    intros ->%list_elem_of_singleton. by simplify_eq.
  - rewrite Hk, Hu, run_bind, run_try, run_with_entropy.
    destruct (Hwrap (vw_entropy w) dek (record_aad rec)) as (n2 & b & Hw2). rewrite Hw2. cbn [fst snd].
    rewrite run_bind. unfold vnow, on_repo. rewrite run_reads, run_bind, run_try, run_call.
    cbn [repo_RewrapIfUnchanged memory_repo vw_repo vw_clock set_ventropy].
    pose proof (Rewrap_keeps s (vw_repo w) rec dek pt key dek _ _ b (vw_clock w) (conj Hwf Hs) Hsl Hk Hu Hw2)
      as [Hok' _]. pose proof (sealed_rewrapped s rec dek pt _ _ b (vw_clock w) Hsl Hw2) as Hnew.
    unfold MemoryRepo_RewrapIfUnchanged in Hok' |- *. rewrite E in Hok' |- *.
    rewrite bool_decide_true in Hok' |- * by done. simpl in Hok' |- *.
    eexists _, _. split; [done|]. simpl. split; [done|]. split; [|unfold tallied; simpl; split_and!; lia || done].
    split; [done|]. intros id. simpl.
    destruct (decide (id = rec_Identity rec)) as [->|Hne].
    + rewrite E, lookup_insert_eq. eexists. split; [done|].
      split; [|split; [done|intros Hno; exfalso; apply Hno; by left]].
      split_and!; try done. by rewrite (sealed_opened s _ _ _ Hnew), (sealed_opened s _ _ _ Hsl).
    + rewrite lookup_insert_ne by done.
      destruct (mr_records (vw_repo w) !! id) as [rec'|]; [|done].
      exists rec'. split_and!; [done|apply renewed_refl| |done].
      by intros ?%list_elem_of_singleton.
Qed.

(** ** The records of a page *)

Lemma run_rotateRecords l out w :
  vault_ok s (vw_repo w) → NoDup (rec_Identity <$> l) →
  (∀ rec, rec ∈ l → mr_records (vw_repo w) !! rec_Identity rec = Some rec) →
  ∃ w' out', run (rotateRecords s l out) w = Some (w', Ok (out', None)) ∧
    vault_ok s (vw_repo w') ∧ advanced l (vw_repo w) (vw_repo w') ∧ tallied (length l) out out' ∧
    same_log w w'.
Proof.
  revert out w. induction l as [|rec l IH]; intros out w Hok Hnd Hst; cbn [rotateRecords].
  { exists w, out. split; [done|]. split; [done|]. split; [apply advanced_nil|].
    split; [unfold tallied; simpl; lia|done]. }
  rewrite fmap_cons in Hnd. apply NoDup_cons in Hnd as [Hni Hnd].
  assert (Hrec : mr_records (vw_repo w) !! rec_Identity rec = Some rec) by (apply Hst; by left).
  destruct (run_rotate_one rec out w Hok Hrec)
    as (w1 & out1 & Hrun & Hok1 & Hadv & Htal & Hlog).
  destruct (IH out1 w1 Hok1 Hnd) as (w2 & out2 & Hrun2 & Hok2 & Hadv2 & Htal2 & Hlog2).
  { intros rec' Hin. destruct Hadv as [_ Hadv]. specialize (Hadv (rec_Identity rec')).
    rewrite Hst in Hadv by (by right). destruct Hadv as (rec1 & -> & _ & _ & Hout).
    f_equal. apply Hout. simpl. intros Heq%list_elem_of_singleton. apply Hni.
    rewrite <-Heq. by apply list_elem_of_fmap_2. }
  exists w2, out2. rewrite run_bind, Hrun. cbn [fst snd]. split; [done|]. split; [done|].
  split; [|split].
  - apply (advanced_app [rec] l _ (vw_repo w1)); [|done..]. simpl. by intros id ->%list_elem_of_singleton.
  - by apply (tallied_app 1 (length l) out out1).
  - unfold same_log in *. naive_solver congruence.
Qed.

(** ** The pages *)

Lemma rows_ids r : repo_wf r → rec_Identity <$> rows r = mr_ids r.
Proof.
  intros Hwf. unfold rows. rewrite <-list_fmap_compose. apply list_eq. intros i.
  rewrite list_lookup_fmap. destruct (mr_ids r !! i) as [id|] eqn:E; [|done]. simpl. f_equal.
  apply row_own; [done|]. by eapply list_elem_of_lookup_2.
Qed.

Lemma rows_NoDup r : repo_wf r → NoDup (rec_Identity <$> rows r).
Proof.
  intros Hwf. rewrite rows_ids by done. destruct Hwf as [Hs _].
  induction Hs as [|x l _ IH Hx]; constructor; [|done]. intros Hin. rewrite Forall_forall in Hx.
  specialize (Hx x Hin). by rewrite identityLess_irrefl in Hx.
Qed.

Lemma cursor_of_ids l1 l2 : rec_Identity <$> l1 = rec_Identity <$> l2 → cursor_of l1 = cursor_of l2.
Proof.
  intros E. apply (f_equal last) in E. rewrite !fmap_last in E. unfold cursor_of.
  destruct (last l1), (last l2); simplify_eq/=; congruence.
Qed.

Lemma cursor_of_app l1 l2 : l2 ≠ [] → cursor_of (l1 ++ l2) = cursor_of l2.
Proof.
  intros Hne. unfold cursor_of. rewrite last_app. destruct (last l2) eqn:E; [done|].
  by apply last_None in E.
Qed.

(** Once the first rows are done, the rest are as they were. *)
Lemma rows_advanced l1 l2 r0 r :
  repo_wf r0 → repo_wf r → rows r0 = l1 ++ l2 → advanced l1 r0 r →
  ∃ l1', rows r = l1' ++ l2 ∧ rec_Identity <$> l1' = rec_Identity <$> l1.
Proof.
  intros Hwf0 Hwf Hrows [Hids Hadv].
  pose proof (rows_ids r0 Hwf0) as Hi0. pose proof (rows_NoDup r0 Hwf0) as Hnd.
  rewrite Hrows, fmap_app in Hi0, Hnd.
  exists (row r <$> (rec_Identity <$> l1)). unfold rows. rewrite Hids, <-Hi0, fmap_app. split.
  - f_equal. rewrite <-list_fmap_compose. rewrite <-(list_fmap_id l2) at 2.
    apply list_fmap_ext. intros i rec Hi. simpl. apply list_elem_of_lookup_2 in Hi.
    assert (Hrec : mr_records r0 !! rec_Identity rec = Some rec).
    { apply elem_of_rows; [done|]. rewrite Hrows. apply elem_of_app. by right. }
    specialize (Hadv (rec_Identity rec)). rewrite Hrec in Hadv.
    destruct Hadv as (rec' & E & _ & _ & Hout). unfold row. rewrite E, cloneRecord_id. simpl.
    apply Hout. intros Hin. apply NoDup_app in Hnd as (_ & Hnd & _).
    apply (Hnd _ Hin). by apply list_elem_of_fmap_2.
  - rewrite <-list_fmap_compose. rewrite <-(list_fmap_id (rec_Identity <$> l1)) at 2.
    apply list_fmap_ext. intros i id Hi. simpl. apply row_own; [done|].
    rewrite Hids, <-Hi0. apply elem_of_app. left. by eapply list_elem_of_lookup_2.
Qed.

Definition named (rec : CredRecord) : Prop :=
  rec_Identity rec ≠ mkIdentity EmptyString EmptyString.

(** The page read after the first rows are done: the next rows, stored as
    listed, and none of them done yet. *)
Lemma rotation_page r0 l1 l2 r :
  repo_wf r0 → rows r0 = l1 ++ l2 → Forall named (rows r0) → vault_ok s r → advanced l1 r0 r →
  let page := take rotatePageSize l2 in
  MemoryRepo_ListPage (cursor_of l1).1 (cursor_of l1).2 (Z.of_nat rotatePageSize) r =
    (copied (length page) r, Ok page) ∧
  NoDup (rec_Identity <$> page) ∧
  (∀ rec, rec ∈ page → mr_records r !! rec_Identity rec = Some rec) ∧
  (∀ id, id ∈ rec_Identity <$> l1 → id ∉ rec_Identity <$> page).
Proof.
  intros Hwf0 Hrows Hne Hok Hadv page.
  destruct (rows_advanced l1 l2 r0 r Hwf0 (proj1 Hok) Hrows Hadv) as (l1' & Hrows' & Hids').
  assert (Hne' : Forall (λ x, rec_Identity x ≠ mkIdentity EmptyString EmptyString) l1').
  { rewrite Hrows, Forall_app in Hne. destruct Hne as [Hne _]. rewrite Forall_forall in Hne |- *.
    intros x Hx. apply (list_elem_of_fmap_2 rec_Identity) in Hx. rewrite Hids' in Hx.
    apply list_elem_of_fmap in Hx as (y & -> & Hy). by apply Hne. }
  pose proof (rows_NoDup r (proj1 Hok)) as Hnd. rewrite Hrows', fmap_app, Hids' in Hnd.
  apply NoDup_app in Hnd as (_ & Hdis & Hnd).
  assert (Hsub : ∀ rec, rec ∈ page → rec ∈ l2) by (intros rec; apply subseteq_take).
  split_and!.
  - pose proof (ListPage_next r l1' l2 (Z.of_nat rotatePageSize) (proj1 Hok) Hrows' Hne') as Hpage.
    by rewrite (cursor_of_ids _ _ Hids') in Hpage.
  - unfold page. rewrite fmap_take. by apply (sublist_NoDup _ (rec_Identity <$> l2)); [|apply sublist_take].
  - intros rec Hin%Hsub. apply elem_of_rows; [apply Hok|]. rewrite Hrows'. apply elem_of_app. by right.
  - intros id Hin (rec & -> & Hrec)%list_elem_of_fmap. apply (Hdis _ Hin).
    apply list_elem_of_fmap_2. by apply Hsub.
Qed.

Lemma run_rotate_pages fuel r0 l1 l2 out w :
  repo_wf r0 → rows r0 = l1 ++ l2 → Forall named (rows r0) → length l2 / rotatePageSize < fuel →
  vault_ok s (vw_repo w) → advanced l1 r0 (vw_repo w) →
  ∃ w' out',
    run (rotate_pages s MemoryRepo_ListPage fuel (cursor_of l1).1 (cursor_of l1).2 out) w =
      Some (w', Ok (out', None)) ∧
    vault_ok s (vw_repo w') ∧ advanced (l1 ++ l2) r0 (vw_repo w') ∧ tallied (length l2) out out' ∧
    same_log w w'.
Proof.
  intros Hwf0. revert l1 l2 out w. induction fuel as [|fuel IH]; intros l1 l2 out w Hrows Hne Hf Hok Hadv;
    [lia|]. cbn [rotate_pages].
  destruct (rotation_page r0 l1 l2 (vw_repo w) Hwf0 Hrows Hne Hok Hadv) as (Hpage & Hnd & Hst & Hdis).
  set (page := take rotatePageSize l2) in *.
  rewrite run_bind, run_try. unfold on_repo at 1. rewrite run_call, Hpage. cbn [fst snd].
  assert (Hpl : length page = rotatePageSize `min` length l2) by apply length_take.
  assert (Hpd : page ++ drop rotatePageSize l2 = l2) by apply take_drop.
  set (w1 := set_repo (copied (length page) (vw_repo w)) w).
  destruct (Nat.eqb_spec (length page) 0) as [Hz|Hz].
  { assert (l2 = []) as -> by (apply length_zero_iff_nil; unfold rotatePageSize in *; lia).
    exists w1, out. rewrite app_nil_r. split; [done|]. split; [done|]. split; [done|].
    split; [unfold tallied; simpl; lia|done]. }
  destruct (run_rotateRecords page out w1 Hok Hnd Hst) as (w2 & out2 & Hrun & Hok2 & Hadv2 & Htal & Hlog).
  rewrite run_bind, Hrun. cbn [fst snd].
  assert (Hadv' : advanced (l1 ++ page) r0 (vw_repo w2)) by (by eapply advanced_app).
  destruct (Nat.ltb_spec (length page) rotatePageSize) as [Hlt|Hge].
  { assert (page = l2) as Hp by (apply take_ge; lia).
    exists w2, out2. rewrite Hp in *. by split_and!. }
  destruct (IH (l1 ++ page) (drop rotatePageSize l2) out2 w2)
    as (w3 & out3 & Hrun3 & Hok3 & Hadv3 & Htal3 & Hlog3); try done.
  { by rewrite <-app_assoc, Hpd. }
  { rewrite length_drop. unfold rotatePageSize in *. lia. }
  rewrite cursor_of_app in Hrun3 by (intros E; by rewrite E in Hz).
  exists w3, out3. destruct (cursor_of page) as [cs cp]. split; [done|]. split; [done|].
  rewrite <-app_assoc, Hpd in Hadv3. split; [done|]. split.
  - replace (length l2) with (length page + length (drop rotatePageSize l2)) by (rewrite length_drop; lia).
    by eapply tallied_app.
  - unfold same_log in *. simpl in *. naive_solver congruence.
Qed.

(** ** The whole rotation *)

Definition rotate_event (out : Rotation) : Event :=
  mkEvent 0 "vault.rotate_keys" EmptyString EmptyString
    (if 0 <? ro_Skipped out then OutcomeError else OutcomeOK)
    (list_to_map [("to_key", kw_KeyID (vs_current s));
                  ("scanned", strconv_Itoa (Z.of_nat (ro_Scanned out)));
                  ("rewrapped", strconv_Itoa (Z.of_nat (ro_Rewrapped out)));
                  ("skipped", strconv_Itoa (Z.of_nat (ro_Skipped out)))]).

Lemma audited_same_log e w w' :
  same_log w w' → (audited e w').2 = (audited e w).2 ∧
    vw_audit (audited e w').1 = vw_audit (audited e w).1.
Proof.
  intros (Ha & Hc & _). unfold audited. rewrite Ha, Hc. by destruct (log_Record _ _ _).
Qed.

(** C38. A rotation that runs alone is complete, over a repository in memory in which
    every record was sealed with a configured key and no identity is empty, and
    with a current key whose wrapping does not fail. With a fuel of one more page
    than the records fill it returns; it has scanned every record exactly once
    and skipped none; every record is on the current key and differs from what
    it was in its envelope only; every secret is what it was; and the outcome is
    the audit log's answer to the event that carries the tally. *)
Theorem Rotate_complete fuel w :
  vault_ok s (vw_repo w) → Forall named (rows (vw_repo w)) →
  length (mr_ids (vw_repo w)) / rotatePageSize < fuel →
  ∃ w' out, run (Rotate s fuel) w = Some (w', Ok (out, (audited (rotate_event out) w).2)) ∧
    vw_audit w' = vw_audit (audited (rotate_event out) w).1 ∧
    ro_Scanned out = length (mr_ids (vw_repo w)) ∧
    ro_Rewrapped out + ro_AlreadyCurrent out = length (mr_ids (vw_repo w)) ∧ ro_Skipped out = 0 ∧
    (∀ id, match mr_records (vw_repo w) !! id with
           | None => mr_records (vw_repo w') !! id = None
           | Some rec => ∃ rec', mr_records (vw_repo w') !! id = Some rec' ∧
                           renewed rec rec' ∧ on_current rec'
           end) ∧
    (∀ id, secret_of s w' id = secret_of s w id).
Proof.
  intros Hok Hne Hf. set (r0 := vw_repo w) in *.
  assert (Hlen : length (rows r0) = length (mr_ids r0)) by apply length_fmap.
  destruct (run_rotate_pages fuel r0 [] (rows r0) (mkRotation 0 0 0 0) w)
    as (w1 & out & Hrun & Hok1 & Hadv & (Hsc & Hrw & Hsk) & Hlog);
    [apply Hok|done|done|by rewrite Hlen|done|apply advanced_nil|].
  destruct (audited_same_log (rotate_event out) _ _ Hlog) as [Herr Haud].
  destruct (audited_world (rotate_event out) w1) as (Hrepo & _ & _).
  assert (Hall : ∀ id, match mr_records r0 !! id with
           | None => mr_records (vw_repo w1) !! id = None
           | Some rec => ∃ rec', mr_records (vw_repo w1) !! id = Some rec' ∧
                           renewed rec rec' ∧ on_current rec'
           end).
  { intros id. destruct Hadv as [_ Hadv]. specialize (Hadv id).
    destruct (mr_records r0 !! id) as [rec|] eqn:E; [|done].
    destruct Hadv as (rec' & E' & Hr & Hin & _). exists rec'. split_and!; [done|done|]. apply Hin.
    simpl. rewrite rows_ids by apply Hok. destruct Hok as [(_ & Hdom & _) _]. apply Hdom. by eexists. }
  exists (audited (rotate_event out) w1).1, out. rewrite Hrepo. split_and!; try (simpl in *; lia).
  - unfold Rotate. cbn [repo_ListPage memory_repo]. rewrite run_bind.
    change (cursor_of []) with (EmptyString, EmptyString) in Hrun. cbn [fst snd] in Hrun.
    rewrite Hrun. cbv zeta. cbn [fst snd]. fold (rotate_event out).
    rewrite run_bind, run_try, run_vrecord, <-Herr. by destruct (audited (rotate_event out) w1).2.
  - done.
  - done.
  - intros id. unfold secret_of. rewrite Hrepo. unfold stored_secret. specialize (Hall id).
    fold r0. destruct (mr_records r0 !! id) as [rec|]; [|by rewrite Hall].
    destruct Hall as (rec' & -> & Hr & _). simpl. apply Hr.
Qed.
End rotation.

(** ** The tally of a rotation, whatever else runs *)

Definition balanced (out : Rotation) : Prop :=
  ro_Scanned out = ro_Rewrapped out + ro_AlreadyCurrent out + ro_Skipped out.

Section tally.
Context `{Platform} `{Entropy} `{Aead} (s : vault).
Context {Rp Lg : Type} `{Repo Rp} `{Logger Lg}.
Local Abbreviation W := (VWorld Rp Lg).
Local Abbreviation free := (guar (λ _ : W, True) (λ _ _ : W, True)).
(** A run that ends without an error ends balanced. *)
Local Abbreviation tally := (λ r : result (Rotation * option error),
  ∀ out, r = Ok (out, None) → balanced out).

Lemma free_bind {A B} (p : go W A) (f : A → go W B) Q :
  (∀ a, free (f a) Q) → (∀ e, Q (Err e)) → free (mbind (M:=go W) f p) Q.
Proof. intros Hf He. eapply guar_bind; [apply guar_trivial|auto..]. Qed.

Lemma free_rotate_one rec out : balanced out → free (rotate_one s rec out) tally.
Proof.
  unfold balanced. intros Hb. unfold rotate_one. cbv zeta.
  repeat match goal with
  | |- guar _ _ (mbind _ _) _ => apply free_bind; [intros ?|done]
  | |- guar _ _ (match ?x with _ => _ end) _ => destruct x
  | |- guar _ _ (mret _) _ => intros ? [= <-]; simpl; lia
  | |- guar _ _ (mret (_, Some _)) _ => by intros ? [=]
  end.
Qed.

Lemma free_rotateRecords l out : balanced out → free (rotateRecords s l out) tally.
Proof.
  revert out. induction l as [|rec l IH]; intros out Hb; cbn [rotateRecords].
  { intros out' [= <-]. done. }
  eapply guar_bind; [by apply free_rotate_one|..].
  - intros [out1 [err|]] Ht; simpl; [by intros ? [=]|]. apply IH. by apply Ht.
  - by intros e _ ? [=].
Qed.

Lemma free_rotate_pages pager fuel a b out :
  balanced out → free (rotate_pages s pager fuel a b out) tally.
Proof.
  revert a b out. induction fuel as [|fuel IH]; intros a b out Hb; cbn [rotate_pages].
  { intros w w' x _. by destruct x. }
  apply free_bind; [|by intros ? ? [=]]. intros [page|err]; [|by intros ? [=]].
  case_match; [by intros ? [= <-]|].
  eapply guar_bind; [by apply (free_rotateRecords page out)|..]; [|by intros e _ ? [=]].
  intros [out1 [err|]] Ht; simpl; [by intros ? [=]|]. case_match; [exact Ht|].
  destruct (cursor_of page). apply IH. by apply Ht.
Qed.

(** The tally adds up. Over any repository and any log, in any interleaving
    with any other processes, a rotation that returns without an error has
    accounted for every record it scanned: re-wrapped, already current or
    skipped. *)
Theorem Rotate_balanced fuel w (ps : list (go W (Rotation * option error))) w' ps' i out :
  preach (w, ps) (w', ps') → ps !! i = Some (Rotate s fuel) →
  ps' !! i = Some (Ret (Ok (out, None))) → balanced out.
Proof.
  intros Hr Hi Hi'.
  destruct (guar_reach (λ _, True) (λ _ _ _, True) (λ j, if decide (j = i) then tally else λ _, True)
              w ps w' ps') as [_ Hps]; [done| |done|].
  - intros j p Hj. case_decide; [subst j|apply guar_trivial].
    assert (E : Some p = Some (Rotate s fuel)) by (rewrite <-Hj; exact Hi).
    apply (inj Some) in E as ->. unfold Rotate.
    eapply guar_bind; [|..|by intros e _ ? [=]].
    + instantiate (1 := tally). case_match; [by apply free_rotate_pages|].
      apply free_bind; [|by intros ? ? [=]]. intros [l|err]; [by apply free_rotateRecords|by intros ? [=]].
    + intros [o [err|]] Ht; cbv zeta; cbn [fst snd]; [by intros ? [=]|].
      apply free_bind; [|by intros ? ? [=]]. intros [[]|err]; [|by intros ? [=]].
      intros o' [= <-]. by apply Ht.
  - specialize (Hps i _ Hi'). rewrite decide_True in Hps by done. by apply Hps.
Qed.
End tally.
