(* ===== verification/VaultDemo.v ===== *)
(** * A small vault for closed examples

    An AEAD that authenticates everything, two local keys, one stored
    credential, and the closed instances of the vault's properties. *)

From S2P Require Import Prelude GoStd Proc AuditLog VaultRepo VaultEnvelope Vault VaultProps VaultRotate.

#[local] Existing Instance toy_platform.

(** Key, nonce and additional data in front of the plaintext. *)
Definition toy_aead : Aead := {|
  gcm_Seal key nonce pt aad := (key +:+ nonce +:+ aad) +:+ pt;
  gcm_Open key nonce ct aad := strings_CutPrefix ct (key +:+ nonce +:+ aad);
|}.
#[local] Existing Instance toy_aead.

#[local] Instance toy_aead_ok : AeadOk.
Proof.
  intros key nonce ct aad pt. simpl. split; [apply CutPrefix_Some|]. intros ->. apply CutPrefix_app.
Qed.

(** A generator that always answers: the number of the read, padded. *)
Definition vault_entropy : Entropy := λ n k, Some (fill k (pretty n)).
#[local] Existing Instance vault_entropy.

#[local] Instance vault_entropy_ok : EntropyOk.
Proof. intros n k. eexists. split; [reflexivity|apply fill_length]. Qed.

(** ** Keys *)

(** Local keys of the right size are exclusive: one does not open what another
    wrapped. *)
Lemma toy_exclusive w1 w2 n n' dek aad b d :
  len (lk_kek w1) = len (lk_kek w2) →
  kw_Wrap (local_wrapper w1) n dek aad = (n', Ok b) → kw_Unwrap (local_wrapper w2) b aad = Ok d →
  d = dek.
Proof.
  intros Hl Hw Hu. simpl in Hu. apply local_Unwrap_inv in Hu. revert Hw Hu. simpl.
  unfold local_Wrap, local_seal. destruct (readFull_ok nonceSize n) as (nonce & -> & Hn).
  intros [= <- <-]. rewrite len_app, <-Hn, substring_app_l.
  match goal with |- context [len nonce + ?x - len nonce] =>
    replace (len nonce + x - len nonce) with x by lia end.
  rewrite substring_app_r. simpl. rewrite !str_app_assoc. intros Heq.
  apply str_app_inj_len in Heq as [_ Heq]; [|done].
  apply str_app_inj_len in Heq as [_ Heq]; [|done].
  by apply str_app_inj_len in Heq as [_ Heq].
Qed.

Definition local_key (id kek : string) : LocalKeyWrapper :=
  mkLocal id (fill dekSize kek) (keyFingerprint (fill dekSize kek)).
Definition old_key : KeyWrapper := local_wrapper (local_key "k1" "one").
Definition new_key : KeyWrapper := local_wrapper (local_key "k2" "two").

(** The service after the keys were exchanged: [k2] wraps, [k1] is retired. *)
Definition demo_vault : vault :=
  match NewVault true (Some new_key) true [WithRetiredKeys [Some old_key]] with
  | Ok s => s
  | Err _ => mkVault new_key ∅ false
  end.

Lemma demo_vault_eq :
  demo_vault = mkVault new_key (<["k1" := old_key]> {[ "k2" := new_key ]}) false.
Proof. reflexivity. Qed.

Lemma demo_key id k :
  vs_keys demo_vault !! id = Some k → ∃ w, k = local_wrapper w ∧ len (lk_kek w) = dekSize.
Proof.
  rewrite demo_vault_eq. simpl. intros [[_ <-]|[_ [_ <-]%lookup_singleton_Some]]%lookup_insert_Some;
    eexists; (split; [reflexivity|apply fill_length]).
Qed.

#[local] Instance demo_keys_ok : KeysOk demo_vault.
Proof.
  split.
  - reflexivity.
  - intros id k (w & -> & _)%demo_key. apply local_wrapper_ok.
  - intros i j k1 k2 n n' dek aad b d (w1 & -> & H1)%demo_key (w2 & -> & H2)%demo_key.
    apply toy_exclusive. congruence.
Qed.

Lemma demo_wraps n dek aad : ∃ n' b, kw_Wrap (vs_current demo_vault) n dek aad = (n', Ok b).
Proof. eexists _, _. reflexivity. Qed.

(** ** One credential, stored while [k1] was the key *)

Definition demo_identity : Identity := mkIdentity "alice" "taptap".
Definition start_world : VWorld MemoryRepo MemoryLogger :=
  mkVWorld NewMemoryRepo NewMemoryLogger 10 0 [].
Definition demo_vworld : VWorld MemoryRepo MemoryLogger :=
  match run (Enroll (mkVault old_key {[ "k1" := old_key ]} false) demo_identity "s3cret" None)
          start_world with
  | Some (w, Ok _) => w
  | _ => start_world
  end.
Definition demo_record : CredRecord :=
  match MemoryRepo_Get demo_identity (vw_repo demo_vworld) with
  | Ok rec => rec
  | Err _ => zero_record
  end.

Lemma demo_sealed : sealed_as demo_vault demo_record (fill dekSize "0") "s3cret".
Proof.
  split_and!; [reflexivity| |vm_compute; reflexivity].
  exists old_key, 1, 2. split; vm_compute; reflexivity.
Qed.

Lemma start_ok s : vault_ok s NewMemoryRepo.
Proof.
  split; [|by intros ? ? [=]]. split; [constructor|]. split; [|done]. intros id.
  split; [by intros ?%not_elem_of_nil|by intros [? [=]]].
Qed.

Lemma demo_repo_eq : vw_repo demo_vworld = (MemoryRepo_Put demo_record NewMemoryRepo).1.
Proof. vm_compute. reflexivity. Qed.

Lemma demo_vault_ok : vault_ok demo_vault (vw_repo demo_vworld).
Proof. rewrite demo_repo_eq. eapply vault_ok_Put; [apply start_ok|apply demo_sealed]. Qed.

(** ** Closed instances *)

Lemma bindingAAD_inj_witness : 1%N = 1%N ∧ "alice" = "alice" ∧ "taptap" = "taptap".
Proof.
  apply (bindingAAD_inj 1 "alice" "taptap" 1 "alice" "taptap"); try reflexivity;
    vm_compute; discriminate.
Defined.

Lemma repo_index_reachable_witness :
  repo_wf (MemoryRepo_Put demo_record NewMemoryRepo).1 ∧
  (MemoryRepo_List (MemoryRepo_Put demo_record NewMemoryRepo).1).2 = Ok [demo_record].
Proof.
  destruct (repo_index_reachable (MemoryRepo_Put demo_record NewMemoryRepo).1) as (Hwf & _ & _ & Hl).
  - apply rtc_once, step_Put.
  - split; [exact Hwf|]. rewrite Hl. vm_compute. reflexivity.
Defined.

Lemma DeleteSubject_exact_witness :
  rows (MemoryRepo_DeleteSubject "alice" (vw_repo demo_vworld)).1 = [].
Proof.
  pose proof (DeleteSubject_exact (vw_repo demo_vworld) "alice" (proj1 demo_vault_ok)) as Hd.
  change ((rows (MemoryRepo_DeleteSubject "alice" (vw_repo demo_vworld)).1 =
    filter (λ rec, id_Subject (rec_Identity rec) ≠ "alice") (rows (vw_repo demo_vworld))) ∧
    (MemoryRepo_DeleteSubject "alice" (vw_repo demo_vworld)).2 =
    Ok (length (filter (λ rec, id_Subject (rec_Identity rec) = "alice") (rows (vw_repo demo_vworld))))) in Hd.
  rewrite (proj1 Hd). vm_compute. reflexivity.
Defined.

(** The callback that fails unless it is given the secret. *)
Definition want (secret : string) (p : string) : go (VWorld MemoryRepo MemoryLogger) unit :=
  if bool_decide (p = secret) then mret tt else throw (New "wrong secret").

Lemma Use_exact_witness :
  match run (Use demo_vault demo_identity (Some (want "s3cret"))) demo_vworld with
  | Some (_, r) => r = Ok tt
  | None => False
  end.
Proof.
  rewrite (Use_exact demo_vault demo_identity (want "s3cret") demo_vworld demo_vault_ok eq_refl).
  vm_compute. reflexivity.
Defined.

Lemma Enroll_exact_witness :
  ∃ w', run (Enroll demo_vault demo_identity "n3w" None) demo_vworld = Some (w', Ok tt) ∧
    secret_of demo_vault w' demo_identity = Some "n3w".
Proof.
  destruct (Enroll_exact demo_vault demo_identity "n3w" None demo_vworld demo_vault_ok)
    as (w' & r & Hrun & Hr & Hok).
  assert (Hacc : accepts (vault_event "vault.enroll" OutcomeOK demo_identity) demo_vworld)
    by (vm_compute; reflexivity).
  specialize (Hok eq_refl _ demo_wraps Hacc). subst r. exists w'. split; [exact Hrun|].
  destruct Hr as (_ & _ & Hs & _). rewrite Hs. reflexivity.
Defined.

(** The first action of a rotation: it reads a page. *)
Definition page_read : VWorld MemoryRepo MemoryLogger :=
  set_repo (copied 1 (vw_repo demo_vworld)) demo_vworld.

Lemma vault_no_lost_update_witness :
  (∀ id, secret_of demo_vault page_read id = secret_of demo_vault demo_vworld id ∨
         vwrites (VqRotate 1) id (secret_of demo_vault page_read id)) ∧
  (∀ id rec, mr_records (vw_repo page_read) !! id = Some rec → is_Some (opened demo_vault rec)).
Proof.
  eapply (vault_no_lost_update demo_vault [VqRotate 1; VqEnroll demo_identity "n3w" None]
            demo_vworld demo_vworld _ 0 (VqRotate 1)).
  - exact demo_vault_ok.
  - apply rtc_refl.
  - reflexivity.
  - reflexivity.
  - vm_compute. reflexivity.
Defined.

Lemma Rotate_complete_witness :
  ∃ w' out, run (Rotate demo_vault 1) demo_vworld = Some (w', Ok (out, None)) ∧
    ro_Scanned out = 1 ∧ secret_of demo_vault w' demo_identity = Some "s3cret".
Proof.
  destruct (Rotate_complete demo_vault demo_wraps 1 demo_vworld demo_vault_ok)
    as (w' & out & Hrun & _ & Hsc & _ & _ & _ & Hsec).
  - rewrite demo_repo_eq. repeat constructor. intros E. apply (f_equal id_Subject) in E.
    vm_compute in E. discriminate E.
  - vm_compute. lia.
  - exists w', out. split; [|split].
    + etransitivity; [exact Hrun|]. unfold audited. reflexivity.
    + rewrite Hsc. vm_compute. reflexivity.
    + rewrite Hsec. vm_compute. reflexivity.
Defined.

Definition rotated : VWorld MemoryRepo MemoryLogger * list (go _ (Rotation * option error)) :=
  default (demo_vworld, []) (run_sched [0; 0; 0; 0; 0] demo_vworld [Rotate demo_vault 1]).

Lemma Rotate_balanced_witness : balanced (mkRotation 1 1 0 0).
Proof.
  apply (Rotate_balanced demo_vault 1 demo_vworld [Rotate demo_vault 1] rotated.1 rotated.2 0).
  - apply (run_sched_reach [0; 0; 0; 0; 0]). vm_compute. reflexivity.
  - reflexivity.
  - vm_compute. reflexivity.
Defined.

(** The documented equation does not survive an error: a record on a key that is
    not configured has been scanned and is in none of the three counts. *)
Theorem Rotate_error_unbalanced :
  match run (Rotate (mkVault new_key {[ "k2" := new_key ]} false) 1) demo_vworld with
  | Some (_, Ok (out, Some _)) => out = mkRotation 1 0 0 0
  | _ => False
  end.
Proof. vm_compute. reflexivity. Qed.
