(* ===== verification/FedRegistry.v ===== *)
(** * The configured data sources ([internal/federation/federation.go],
    [internal/federation/missing.go])

    Sources and their resources, the registry [NewRegistry] builds from the
    configuration, the candidates a read tries and in which order, and the
    bindings an account is still missing for a set of scopes. The probe counter
    [sourcesCopied] is left out: nothing but a test reads it. *)

From S2P Require Import Prelude GoStd.

(** ** Sources *)

Definition ErrUnknownGame : error := New "federation: unknown game".
Definition ErrUnknownSource : error := New "federation: unknown source".
Definition ErrUnknownResource : error := New "federation: unknown resource".
Definition ErrSourceRetired : error := New "federation: source is retired".

(** [SourceStatus] is a string. *)
Definition StatusActive : string := "active".
Definition StatusDegraded : string := "degraded".
Definition StatusRetired : string := "retired".

Definition statusRank (s : string) : nat :=
  if bool_decide (s = StatusActive) || bool_decide (s = EmptyString) then 0
  else if bool_decide (s = StatusDegraded) then 1 else 2.

Definition tokenClassRevocable : string := "revocable".
Definition tokenClassLongLived : string := "long_lived".

Record Resource := mkResource {
  res_Name : string;
  res_Schema : string;
  res_Scope : string;
}.

Record Source := mkSource {
  src_Game : string;
  src_Name : string;
  src_DisplayName : string;
  src_Issuer : string;
  src_TokenClass : string;
  src_Resources : list Resource;
  src_Status : string;
  src_RawBase : string;
  src_ClientID : string;
  src_ClientSecret : string;
  src_AuthorizationEndpoint : string;
  src_TokenEndpoint : string;
  src_RevocationEndpoint : string;
  src_CascadeRevocationEndpoint : string;
}.

#[export] Instance Resource_eq_dec : EqDecision Resource.
Proof. solve_decision. Defined.
#[export] Instance Source_eq_dec : EqDecision Source.
Proof. solve_decision. Defined.

(** [Source.bindScopes]: [out] carries the scopes taken so far; [seen] is the
    set of its elements. *)
Fixpoint bindScopes_loop (rs : list Resource) (out : list string) : list string :=
  match rs with
  | [] => out
  | r :: rs' =>
      if negb (bool_decide (res_Scope r = EmptyString)) && negb (bool_decide (res_Scope r ∈ out))
      then bindScopes_loop rs' (out ++ [res_Scope r])
      else bindScopes_loop rs' out
  end.
Definition bindScopes (s : Source) : list string := bindScopes_loop (src_Resources s) ["account.read"].

(** [Source.Resource]: the first resource of the name. *)
Fixpoint find_resource (name : string) (rs : list Resource) : option Resource :=
  match rs with
  | [] => None
  | r :: rs' => if bool_decide (res_Name r = name) then Some r else find_resource name rs'
  end.
Definition Source_Resource (s : Source) (name : string) : option Resource :=
  find_resource name (src_Resources s).

(** ** Validation *)

Definition sourceKey (game name : string) : string := game +:+ "/" +:+ name.

Definition maxSourceNameBytes : nat := 128.

Definition is_name_char (c : ascii) : bool :=
  is_lower c || is_digit c || bool_decide (c = "-"%char) || bool_decide (c = "_"%char).
Definition is_name_start (c : ascii) : bool := is_lower c || is_digit c.

(** The loop of [validateSourceName]: a byte outside ASCII is part of a rune
    outside the allowed ones, so it may go byte by byte. *)
Definition name_ok (value : string) : bool :=
  match value with
  | EmptyString => true
  | String c rest => is_name_start c && str_forall is_name_char rest
  end.

Definition is_scope_byte (c : ascii) : bool :=
  is_lower c || is_upper c || is_digit c ||
  bool_decide (c = "."%char) || bool_decide (c = "-"%char) || bool_decide (c = "_"%char).

Section registry.
Context `{Platform}.

(** [validateSourceName]; [None] is the nil error. *)
Definition validateSourceName (field value : string) : option error :=
  if maxSourceNameBytes <? len value
  then Some (New (field +:+ " is " +:+ strconv_Itoa (Z.of_nat (len value)) +:+ " bytes, over the " +:+
    strconv_Itoa (Z.of_nat maxSourceNameBytes) +:+
    "-byte limit: the name is joined into a URL path, a vault identity and the registry key, so it is bounded rather than carried"))
  else if negb (name_ok value)
  then Some (New (field +:+ " " +:+ strconv_Quote value +:+
    " must be lowercase letters, digits, '-' or '_' (no '.'), and start with a letter or digit"))
  else None.

(** [validateResourceScope]. *)
Definition validateResourceScope (resource scope : string) : option error :=
  if negb (str_forall is_scope_byte scope)
  then Some (New ("resource " +:+ resource +:+ ": scope " +:+ strconv_Quote scope +:+
    " must be letters, digits, '.', '-' or '_' only (whitespace would be sent as several scopes)"))
  else None.

Definition absolute_http (u : URL) : bool :=
  (bool_decide (u_Scheme u = "http") || bool_decide (u_Scheme u = "https")) &&
  negb (bool_decide (u_Host u = EmptyString)).

(** [validateEndpointURL]. *)
Definition validateEndpointURL (field raw : string) : option error :=
  match url_Parse raw with
  | None =>
      Some (Wrap (field +:+ " " +:+ strconv_Quote raw +:+ " is not a URL: " +:+ Error (url_ParseError raw))
              (url_ParseError raw))
  | Some u =>
      if negb (absolute_http u)
      then Some (New (field +:+ " " +:+ strconv_Quote raw +:+ " must be an absolute http(s) URL"))
      else None
  end.

(** [validateRawBase]. *)
Definition validateRawBase (raw : string) : option error :=
  match url_Parse raw with
  | None =>
      Some (Wrap ("raw_base " +:+ strconv_Quote raw +:+ " is not a URL: " +:+ Error (url_ParseError raw))
              (url_ParseError raw))
  | Some u =>
      if negb (absolute_http u)
      then Some (New ("raw_base " +:+ strconv_Quote raw +:+ " must be an absolute http(s) URL"))
      else if negb (bool_decide (u_RawQuery u = EmptyString)) || negb (bool_decide (u_Fragment u = EmptyString))
      then Some (New ("raw_base " +:+ strconv_Quote raw +:+
        " must not carry a query or fragment: the caller's path is appended to it"))
      else None
  end.

(** ** The registry *)

Record SourceRegistry := mkSources {
  sr_byGame : gmap string (list Source);
  sr_byKey : gmap string Source;
}.

(** [strings.TrimRight(s, "/")]. *)
Definition trim_slashes (s : string) : string := trim_right (λ c, bool_decide (c = "/"%char)) s.

(** [if err := check; err != nil { return nil, fmt.Errorf(msg + ": %w", err) }]. *)
Definition refuse (msg : string) (o : option error) : result unit :=
  match o with
  | Some err => Err (Wrap (msg +:+ Error err) err)
  | None => Ok tt
  end.

(** The resources of one source. *)
Fixpoint check_resources (msg : string) (rs : list Resource) : result unit :=
  match rs with
  | [] => Ok tt
  | r :: rs' =>
      (if negb (bool_decide (res_Name r = EmptyString))
       then refuse msg (validateSourceName "resource name" (res_Name r)) else Ok tt);;
      refuse msg (validateResourceScope (res_Name r) (res_Scope r));;
      check_resources msg rs'
  end.

(** The endpoints of one source, the empty ones skipped. *)
Fixpoint check_endpoints (msg : string) (eps : list (string * string)) : result unit :=
  match eps with
  | [] => Ok tt
  | (field, value) :: eps' =>
      (if bool_decide (value = EmptyString) then Ok tt else refuse msg (validateEndpointURL field value));;
      check_endpoints msg eps'
  end.

Definition default_to (d s : string) : string := if bool_decide (s = EmptyString) then d else s.

(** The source as it is stored: endpoints derived from the issuer, defaults for
    the status and the token class, no trailing slashes. *)
Definition normalize_source (s : Source) : Source :=
  let issuer := trim_slashes (src_Issuer s) in
  mkSource (src_Game s) (src_Name s) (src_DisplayName s) issuer
    (default_to tokenClassRevocable (src_TokenClass s)) (src_Resources s)
    (default_to StatusActive (src_Status s)) (trim_slashes (src_RawBase s))
    (src_ClientID s) (src_ClientSecret s)
    (default_to (issuer +:+ "/oauth/authorize") (src_AuthorizationEndpoint s))
    (default_to (issuer +:+ "/oauth/token") (src_TokenEndpoint s))
    (default_to (issuer +:+ "/oauth/revoke") (src_RevocationEndpoint s))
    (src_CascadeRevocationEndpoint s).

(** The body of the loop of [NewRegistry]. *)
Definition register_source (r : SourceRegistry) (s0 : Source) : result SourceRegistry :=
  if bool_decide (src_Game s0 = EmptyString) || bool_decide (src_Name s0 = EmptyString) ||
     bool_decide (src_Issuer s0 = EmptyString)
  then Err (New "federation: source requires game, name and issuer") else
  let pair := "federation: source " +:+ src_Game s0 +:+ "/" +:+ src_Name s0 +:+ ": " in
  refuse pair (validateSourceName "game" (src_Game s0));;
  refuse pair (validateSourceName "name" (src_Name s0));;
  check_resources pair (src_Resources s0);;
  let k := sourceKey (src_Game s0) (src_Name s0) in
  match sr_byKey r !! k with
  | Some _ => Err (New ("federation: duplicate source " +:+ k))
  | None =>
      let pre := "federation: source " +:+ k +:+ ": " in
      refuse pre (validateEndpointURL "issuer" (src_Issuer s0));;
      let s := normalize_source s0 in
      check_endpoints pre
        [("authorization_endpoint", src_AuthorizationEndpoint s);
         ("token_endpoint", src_TokenEndpoint s);
         ("revocation_endpoint", src_RevocationEndpoint s);
         ("cascade_revocation_endpoint", src_CascadeRevocationEndpoint s)];;
      if negb (bool_decide (src_Status s ∈ [StatusActive; StatusDegraded; StatusRetired]))
      then Err (New (pre +:+ "status " +:+ strconv_Quote (src_Status s) +:+ " must be " +:+
        strconv_Quote StatusActive +:+ ", " +:+ strconv_Quote StatusDegraded +:+ " or " +:+
        strconv_Quote StatusRetired)) else
      if negb (bool_decide (src_TokenClass s ∈ [tokenClassRevocable; tokenClassLongLived]))
      then Err (New (pre +:+ "token_class " +:+ strconv_Quote (src_TokenClass s) +:+ " must be " +:+
        strconv_Quote tokenClassRevocable +:+ " or " +:+ strconv_Quote tokenClassLongLived)) else
      (if bool_decide (src_RawBase s = EmptyString) then Ok tt
       else refuse pre (validateRawBase (src_RawBase s)));;
      Ok (mkSources (<[src_Game s := default [] (sr_byGame r !! src_Game s) ++ [s]]> (sr_byGame r))
            (<[k := s]> (sr_byKey r)))
  end.

Fixpoint register_sources (r : SourceRegistry) (ss : list Source) : result SourceRegistry :=
  match ss with
  | [] => Ok r
  | s :: ss' => r' ← register_source r s; register_sources r' ss'
  end.

(** [NewRegistry]. *)
Definition NewSourceRegistry (sources : list Source) : result SourceRegistry :=
  register_sources (mkSources ∅ ∅) sources.
End registry.

(** [Registry.Get], [Registry.Sources], [Registry.AllSources], [Registry.Games]. *)
Definition Sources_Get (r : SourceRegistry) (game name : string) : option Source :=
  sr_byKey r !! sourceKey game name.
Definition Sources (r : SourceRegistry) (game : string) : list Source :=
  sort_by src_Name (default [] (sr_byGame r !! game)).
Definition Games (r : SourceRegistry) : list string := sort_by id (map_to_list (sr_byGame r)).*1.
Definition AllSources (r : SourceRegistry) : list Source :=
  mjoin ((λ game, sort_by src_Name (default [] (sr_byGame r !! game))) <$> Games r).

(** ** Candidates ([service.go]) *)

Definition retired (s : Source) : bool := bool_decide (src_Status s = StatusRetired).

Definition less_rank (a b : Source) : bool := statusRank (src_Status a) <? statusRank (src_Status b).

(** [service.candidates]. *)
Definition candidates (r : SourceRegistry) (game resource pinned : string) : result (list Source) :=
  let all := Sources r game in
  if length all =? 0 then Err ErrUnknownGame else
  if negb (bool_decide (pinned = EmptyString)) then
    match Sources_Get r game pinned with
    | None => Err ErrUnknownSource
    | Some src =>
        if retired src then Err ErrSourceRetired else
        match Source_Resource src resource with
        | None => Err ErrUnknownResource
        | Some _ => Ok [src]
        end
    end
  else
    let out := filter (λ src, retired src = false ∧ is_Some (Source_Resource src resource)) all in
    Ok (sort_SliceStable less_rank out).

(** [ResourceRequirement]. *)
Record ResourceRequirement := mkResourceReq {
  rr_Source : string;
  rr_Scope : string;
}.

(** The loop of [service.ResourceRequirements]; [seen] is the scopes of [out]. *)
Fixpoint requirements_loop (resource : string) (cs : list Source) (out : list ResourceRequirement)
    : list ResourceRequirement :=
  match cs with
  | [] => out
  | src :: cs' =>
      match Source_Resource src resource with
      | None => requirements_loop resource cs' out
      | Some res =>
          if bool_decide (res_Scope res ∈ rr_Scope <$> out) then requirements_loop resource cs' out
          else requirements_loop resource cs' (out ++ [mkResourceReq (src_Name src) (res_Scope res)])
      end
  end.

Definition ResourceRequirements (r : SourceRegistry) (game resource pinned : string)
    : result (list ResourceRequirement) :=
  cs ← candidates r game resource pinned;
  let out := requirements_loop resource cs [] in
  if length out =? 0 then Err ErrUnknownResource else Ok out.

(** ** Missing bindings ([missing.go]) *)

Record BindingRequirement := mkBindingReq {
  br_Game : string;
  br_Source : string;
  br_DisplayName : string;
  br_Scopes : list string;
}.

Definition src_key (s : Source) : string := sourceKey (src_Game s) (src_Name s).

(** [candidatesByResource]: for each game and resource name, the sources in
    service that declare it. *)
Definition append_at {K} `{Countable K} {A} (k : K) (a : A) (m : gmap K (list A)) : gmap K (list A) :=
  <[k := default [] (m !! k) ++ [a]]> m.
Definition declare (src : Source) (m : gmap (string * string) (list Source))
    : gmap (string * string) (list Source) :=
  if retired src then m
  else foldl (λ m res, append_at (src_Game src, res_Name res) src m) m (src_Resources src).
Definition candidatesByResource (sources : list Source) : gmap (string * string) (list Source) :=
  foldl (λ m src, declare src m) ∅ sources.

(** [byScope]: for each wanted scope, every candidate for a resource declared
    with it, once; [seen] is the set of keys of the list. *)
Definition offer (scope : string) (m : gmap string (list Source)) (cand : Source)
    : gmap string (list Source) :=
  if bool_decide (src_key cand ∈ src_key <$> default [] (m !! scope)) then m
  else append_at scope cand m.
Definition offer_resource (cbr : gmap (string * string) (list Source)) (wanted : list string)
    (game : string) (m : gmap string (list Source)) (res : Resource) : gmap string (list Source) :=
  if bool_decide (res_Scope res = EmptyString) || negb (bool_decide (res_Scope res ∈ wanted)) then m
  else foldl (offer (res_Scope res)) m (default [] (cbr !! (game, res_Name res))).
Definition byScope (sources : list Source) (wanted : list string) : gmap string (list Source) :=
  let cbr := candidatesByResource sources in
  foldl (λ m src, foldl (offer_resource cbr wanted (src_Game src)) m (src_Resources src)) ∅ sources.

Definition less_pick (a b : Source) : bool :=
  if negb (statusRank (src_Status a) =? statusRank (src_Status b))
  then statusRank (src_Status a) <? statusRank (src_Status b)
  else str_lt (src_Name a) (src_Name b).

(** [bySource[key]] gains a scope; a new key goes to the end of [order]. *)
Fixpoint add_requirement (pick : Source) (scope : string) (reqs : list BindingRequirement)
    : list BindingRequirement :=
  match reqs with
  | [] => [mkBindingReq (src_Game pick) (src_Name pick)
             (if bool_decide (src_DisplayName pick = EmptyString) then src_Name pick
              else src_DisplayName pick) [scope]]
  | r :: reqs' =>
      if bool_decide (sourceKey (br_Game r) (br_Source r) = src_key pick)
      then mkBindingReq (br_Game r) (br_Source r) (br_DisplayName r) (br_Scopes r ++ [scope]) :: reqs'
      else r :: add_requirement pick scope reqs'
  end.

(** The body of the loop over the scopes. *)
Definition require_scope (connected : list string) (bs : gmap string (list Source))
    (reqs : list BindingRequirement) (scope : string) : list BindingRequirement :=
  let cands := default [] (bs !! scope) in
  if existsb (λ src, bool_decide (src_key src ∈ connected)) cands then reqs else
  match sort_SliceStable less_pick cands with
  | [] => reqs
  | pick :: _ => add_requirement pick scope reqs
  end.

(** [service.MissingBindings] on the keys of the bindings the account holds. *)
Definition missing (r : SourceRegistry) (connected scopes : list string) : list BindingRequirement :=
  let wanted := filter (λ s, s ≠ EmptyString) scopes in
  let bs := byScope (AllSources r) wanted in
  foldl (require_scope connected bs) [] (sort_by id (map_to_list bs).*1).

(** ** Invariant of the registry *)

Section wf.
Context `{Platform}.

(** What every registered source satisfies: both names are non-empty words of
    lowercase letters, digits, [-] and [_]; the status and the token class are
    of their vocabularies; every URL requests are built from is absolute; no
    scope contains white space. *)
Definition source_ok (s : Source) : Prop :=
  src_Game s ≠ EmptyString ∧ src_Name s ≠ EmptyString ∧
  name_ok (src_Game s) = true ∧ name_ok (src_Name s) = true ∧
  len (src_Game s) ≤ maxSourceNameBytes ∧ len (src_Name s) ≤ maxSourceNameBytes ∧
  src_Status s ∈ [StatusActive; StatusDegraded; StatusRetired] ∧
  src_TokenClass s ∈ [tokenClassRevocable; tokenClassLongLived] ∧
  Forall (λ ep, ep ≠ EmptyString ∧ validateEndpointURL EmptyString ep = None)
    [src_AuthorizationEndpoint s; src_TokenEndpoint s; src_RevocationEndpoint s] ∧
  (src_RawBase s = EmptyString ∨ validateRawBase (src_RawBase s) = None) ∧
  Forall (λ r, str_forall is_scope_byte (res_Scope r) = true) (src_Resources s).

(** The two maps agree: a source is under its own key and in the list of its
    game, once, and nothing else is. *)
Definition sources_wf (r : SourceRegistry) : Prop :=
  (∀ k s, sr_byKey r !! k = Some s → k = src_key s ∧ source_ok s) ∧
  (∀ g l, sr_byGame r !! g = Some l →
     l ≠ [] ∧ NoDup (src_Name <$> l) ∧
     ∀ s, s ∈ l ↔ src_Game s = g ∧ sr_byKey r !! src_key s = Some s) ∧
  (∀ g, sr_byGame r !! g = None → ∀ k s, sr_byKey r !! k = Some s → src_Game s ≠ g).
End wf.

(** ** Lemmas *)

Lemma name_ok_lacks c s : is_name_char c = false → name_ok s = true → lacks c s = true.
Proof.
  intros Hc. destruct s as [|d s]; [done|]. simpl. intros [Hd Hs]%andb_true_iff.
  assert (Hne : ∀ e, is_name_char e = true → negb (bool_decide (e = c)) = true).
  { intros e He. apply negb_true_iff, bool_decide_eq_false. intros ->. congruence. }
  unfold lacks. simpl. apply andb_true_iff. split.
  - apply Hne. unfold is_name_char. unfold is_name_start in Hd. by rewrite Hd.
  - eapply str_forall_impl; [|exact Hs]. exact Hne.
Qed.

Lemma sourceKey_inj g n g' n' :
  name_ok g = true → name_ok g' = true → sourceKey g n = sourceKey g' n' → g = g' ∧ n = n'.
Proof.
  intros Hg Hg'. unfold sourceKey. simpl. apply str_sep_inj_l; by apply name_ok_lacks.
Qed.

Lemma sourceKey_inj_any g n g' n' :
  name_ok g = true → name_ok n = true → sourceKey g' n' = sourceKey g n → g' = g ∧ n' = n.
Proof.
  intros Hg%(name_ok_lacks "/"%char) Hn%(name_ok_lacks "/"%char) Heq; [|done..].
  by apply eq_sym, (str_sep_once "/"%char) in Heq as [-> ->].
Qed.

Section registration.
Context `{Platform}.

Lemma refuse_ok msg o : refuse msg o = Ok tt → o = None.
Proof. by destruct o. Qed.

Lemma bind_ok {A B} (p : result A) (f : A → result B) b :
  mbind (M:=result) f p = Ok b → ∃ a, p = Ok a ∧ f a = Ok b.
Proof. destruct p; [eauto|done]. Qed.

Lemma validateSourceName_None f v :
  validateSourceName f v = None → len v ≤ maxSourceNameBytes ∧ name_ok v = true.
Proof.
  unfold validateSourceName. destruct (maxSourceNameBytes <? len v) eqn:E; [done|].
  apply Nat.ltb_ge in E. by destruct (name_ok v).
Qed.

Lemma validateEndpointURL_field f f' v :
  validateEndpointURL f v = None → validateEndpointURL f' v = None.
Proof. unfold validateEndpointURL. destruct (url_Parse v) as [u|]; [|done]. by destruct (absolute_http u). Qed.

Lemma check_resources_ok msg rs :
  check_resources msg rs = Ok tt → Forall (λ r, str_forall is_scope_byte (res_Scope r) = true) rs.
Proof.
  induction rs as [|r rs IH]; simpl; [done|].
  intros (_ & _ & ([] & Hs & Hr)%bind_ok)%bind_ok. constructor; [|auto].
  apply refuse_ok in Hs. unfold validateResourceScope in Hs. by destruct (str_forall _ _).
Qed.

Lemma check_endpoints_ok msg eps :
  check_endpoints msg eps = Ok tt →
  Forall (λ ep, ep.2 = EmptyString ∨ validateEndpointURL EmptyString ep.2 = None) eps.
Proof.
  induction eps as [|[f v] eps IH]; simpl; [done|]. intros ([] & Hv & Hr)%bind_ok.
  constructor; [|auto]. simpl. case_bool_decide; [by left|]. right.
  eapply validateEndpointURL_field. by eapply refuse_ok.
Qed.

Lemma default_to_ne d s : d ≠ EmptyString → default_to d s ≠ EmptyString.
Proof. intros Hd. unfold default_to. by case_bool_decide. Qed.

(** A source that is taken is new, is stored in its normal form, and is
    [source_ok]. *)
Lemma register_source_ok r s0 r' :
  register_source r s0 = Ok r' →
  let s := normalize_source s0 in
  source_ok s ∧ sr_byKey r !! src_key s = None ∧
  r' = mkSources (<[src_Game s := default [] (sr_byGame r !! src_Game s) ++ [s]]> (sr_byGame r))
         (<[src_key s := s]> (sr_byKey r)).
Proof.
  unfold register_source. destruct (_ || _ || _) eqn:Ee; [done|]. bools.
  intros ([] & Hg & ([] & Hn & ([] & Hrs & Hk)%bind_ok)%bind_ok)%bind_ok.
  apply refuse_ok, validateSourceName_None in Hg as [Hgl Hg].
  apply refuse_ok, validateSourceName_None in Hn as [Hnl Hn].
  apply check_resources_ok in Hrs. destruct (sr_byKey r !! sourceKey _ _) eqn:Edup; [done|].
  apply bind_ok in Hk as ([] & _ & ([] & Heps & Hk)%bind_ok).
  apply check_endpoints_ok in Heps. cbn [fst snd] in *.
  set (s := normalize_source s0) in *.
  destruct (negb (bool_decide (src_Status s ∈ _))) eqn:Est; [done|].
  destruct (negb (bool_decide (src_TokenClass s ∈ _))) eqn:Etc; [done|]. bools.
  apply bind_ok in Hk as ([] & Hraw & [= <-]). split; [|done].
  rewrite !Forall_cons in Heps. cbn [snd] in Heps. destruct Heps as (Ha & Ht & Hv & _ & _).
  assert (Hne : ∀ i x, i +:+ String "/" x ≠ EmptyString) by (by intros []).
  assert (Hep : ∀ d v, d ≠ EmptyString →
    default_to d v = EmptyString ∨ validateEndpointURL EmptyString (default_to d v) = None →
    default_to d v ≠ EmptyString ∧ validateEndpointURL EmptyString (default_to d v) = None).
  { intros d v Hd [E|E]; [by apply default_to_ne in E|]. split; [by apply default_to_ne|done]. }
  unfold source_ok. split_and!; try done.
  - rewrite !Forall_cons, Forall_nil.
    split; [exact (Hep _ _ (Hne _ _) Ha)|]. split; [exact (Hep _ _ (Hne _ _) Ht)|].
    by split; [exact (Hep _ _ (Hne _ _) Hv)|].
  - case_bool_decide; [by left|]. right. by eapply refuse_ok.
Qed.

Lemma sources_wf_register r s0 r' : sources_wf r → register_source r s0 = Ok r' → sources_wf r'.
Proof.
  intros (Hk & Hg & Hn) (Hok & Hnew & ->)%register_source_ok. set (s := normalize_source s0) in *.
  assert (Hinj : ∀ s', sr_byKey r !! src_key s' = Some s' → src_key s' ≠ src_key s) by congruence.
  split_and!; cbn [sr_byGame sr_byKey].
  - intros k s' [[<- <-]|[_ ?]]%lookup_insert_Some; [by split|by apply Hk].
  - intros g l [[<- <-]|[Hne Hl]]%lookup_insert_Some.
    + destruct (sr_byGame r !! src_Game s) as [l|] eqn:El; cbn [default from_option app].
      * destruct (Hg _ _ El) as (_ & Hnd & Hel). split; [by intros [_ ?]%app_nil|]. split.
        -- rewrite fmap_app. apply NoDup_app. split_and!; [done| |apply NoDup_singleton].
           intros n (s' & -> & Hs')%list_elem_of_fmap Heq%list_elem_of_singleton.
           apply Hel in Hs' as [Hg' Hs']. apply (Hinj _ Hs'). unfold src_key. congruence.
        -- intros s'. rewrite elem_of_app, list_elem_of_singleton, Hel. split.
           ++ intros [[Hg' Hs']| ->]; [|by rewrite lookup_insert_eq].
              split; [done|]. by rewrite lookup_insert_ne; [|apply not_eq_sym, Hinj].
           ++ intros [Hg' [[_ ->]|[_ ?]]%lookup_insert_Some]; auto.
      * split; [done|]. split; [apply NoDup_singleton|]. intros s'. rewrite list_elem_of_singleton. split.
        -- intros ->. by rewrite lookup_insert_eq.
        -- intros [Hg' [[_ ->]|[_ Hs']]%lookup_insert_Some]; [done|]. by destruct (Hn _ El _ _ Hs').
    + destruct (Hg _ _ Hl) as (? & ? & Hel). split_and!; [done..|]. intros s'. rewrite Hel. split.
      * intros [Hg' Hs']. split; [done|]. by rewrite lookup_insert_ne; [|apply not_eq_sym, Hinj].
      * intros [Hg' [[_ ->]|[_ ?]]%lookup_insert_Some]; done.
  - intros g [Hl Hne]%lookup_insert_None k s' [[_ <-]|[_ ?]]%lookup_insert_Some; [done|]. by eapply Hn.
Qed.

Lemma sources_wf_empty : sources_wf (mkSources ∅ ∅).
Proof. by split_and!. Qed.

Lemma NewSourceRegistry_wf ss r : NewSourceRegistry ss = Ok r → sources_wf r.
Proof.
  unfold NewSourceRegistry. generalize sources_wf_empty. generalize (mkSources ∅ ∅) as r0.
  induction ss as [|s ss IH]; intros r0 Hr0; simpl; [by intros [= <-]|].
  intros (r1 & Hr1 & Hr)%bind_ok. eapply IH; [|exact Hr]. by eapply sources_wf_register.
Qed.
End registration.

(** ** Looking sources up *)

Section lookup.
Context `{Platform} (r : SourceRegistry) (Hwf : sources_wf r).

Lemma elem_of_Sources g s :
  s ∈ Sources r g ↔ src_Game s = g ∧ sr_byKey r !! src_key s = Some s.
Proof.
  unfold Sources. rewrite sort_by_perm. destruct Hwf as (_ & Hg & Hn).
  destruct (sr_byGame r !! g) as [l|] eqn:El; simpl; [by apply Hg|].
  split; [by intros ?%elem_of_nil|]. intros [Hsg Hs]. by destruct (Hn _ El _ _ Hs).
Qed.

Lemma elem_of_AllSources s : s ∈ AllSources r ↔ sr_byKey r !! src_key s = Some s.
Proof.
  unfold AllSources. rewrite list_elem_of_join. split.
  - intros (l & Hs & (g & -> & _)%list_elem_of_fmap). by apply elem_of_Sources in Hs as [_ ?].
  - intros Hs. exists (Sources r (src_Game s)). split; [by apply elem_of_Sources|].
    apply list_elem_of_fmap. exists (src_Game s). split; [done|]. unfold Games.
    rewrite sort_by_perm. apply list_elem_of_fmap. destruct Hwf as (_ & _ & Hn).
    destruct (sr_byGame r !! src_Game s) as [l|] eqn:El; [|by destruct (Hn _ El _ _ Hs)].
    exists (src_Game s, l). split; [done|by apply elem_of_map_to_list].
Qed.

Lemma registered_ok s : sr_byKey r !! src_key s = Some s → source_ok s.
Proof. intros Hs. by apply Hwf in Hs as [_ ?]. Qed.

Lemma registered_key_inj s s' :
  sr_byKey r !! src_key s = Some s → sr_byKey r !! src_key s' = Some s' →
  src_key s = src_key s' → s = s'.
Proof. congruence. Qed.

(** [Get] finds a source by its own names and by no others. *)
Lemma Sources_Get_spec g n s :
  Sources_Get r g n = Some s ↔ s ∈ Sources r g ∧ src_Name s = n.
Proof.
  rewrite elem_of_Sources. unfold Sources_Get. split.
  - intros Hs. destruct Hwf as (Hk & _). destruct (Hk _ _ Hs) as [Heq Hok].
    pose proof Hok as (_ & _ & Hg & Hn & _). apply sourceKey_inj_any in Heq as [-> ->]; done.
  - by intros [[<- Hs] <-].
Qed.
End lookup.

(** ** Candidates *)

(** A source of the status that declares the resource, and is the pinned one if
    one is pinned. *)
Definition offered (status resource pinned : string) (s : Source) : Prop :=
  src_Status s = status ∧ is_Some (Source_Resource s resource) ∧
  (pinned = EmptyString ∨ src_Name s = pinned).
#[export] Instance offered_dec status resource pinned s : Decision (offered status resource pinned s).
Proof. unfold offered. apply _. Defined.

Lemma in_service_status `{Platform} s :
  source_ok s → retired s = false → src_Status s = StatusActive ∨ src_Status s = StatusDegraded.
Proof.
  unfold retired. intros (_ & _ & _ & _ & _ & _ & Hst & _) Hr%bool_decide_eq_false.
  rewrite !elem_of_cons in Hst. destruct Hst as [?|[?|[?|?%elem_of_nil]]]; [by left|by right|done|done].
Qed.

Lemma filter_filter_iff {A} (P Q R : A → Prop) `{∀ x, Decision (P x)} `{∀ x, Decision (Q x)}
    `{∀ x, Decision (R x)} (l : list A) :
  (∀ x, x ∈ l → (Q x ∧ P x) ↔ R x) → filter Q (filter P l) = filter R l.
Proof.
  induction l as [|x l IH]; intros HR; [done|].
  assert (Hx : Q x ∧ P x ↔ R x) by (apply HR; by left).
  assert (Hl : filter Q (filter P l) = filter R l) by (apply IH; intros y Hy; apply HR; by right).
  destruct (decide (R x)) as [HRx|HRx].
  - rewrite !filter_cons_True by tauto. by rewrite Hl.
  - rewrite (filter_cons_False R) by done. destruct (decide (P x)).
    + rewrite filter_cons_True, filter_cons_False by tauto. done.
    + by rewrite filter_cons_False.
Qed.

Lemma filter_single {A} (P : A → Prop) `{∀ x, Decision (P x)} (x : A) (l : list A) :
  NoDup l → x ∈ l → (∀ y, y ∈ l → P y ↔ y = x) → filter P l = [x].
Proof.
  intros Hnd Hx HP. apply Permutation_singleton_r, NoDup_Permutation.
  - by apply NoDup_filter.
  - apply NoDup_singleton.
  - intros y. rewrite list_elem_of_filter, list_elem_of_singleton. naive_solver.
Qed.

Section candidates.
Context `{Platform} (r : SourceRegistry) (Hwf : sources_wf r).

Lemma Sources_NoDup g : NoDup (Sources r g).
Proof.
  unfold Sources. rewrite sort_by_perm. destruct Hwf as (_ & Hg & _).
  destruct (sr_byGame r !! g) as [l|] eqn:El; simpl; [|constructor].
  destruct (Hg _ _ El) as (_ & Hnd & _). by eapply NoDup_fmap_1.
Qed.

Lemma registered_status g s :
  s ∈ Sources r g → retired s = false →
  (src_Status s = StatusActive ∧ statusRank (src_Status s) = 0) ∨
  (src_Status s = StatusDegraded ∧ statusRank (src_Status s) = 1).
Proof.
  intros [_ Hs]%elem_of_Sources Hr; [|done]. apply registered_ok in Hs; [|done].
  destruct (in_service_status s Hs Hr) as [E|E]; rewrite E; auto.
Qed.

Lemma candidates_unpinned g resource :
  sort_SliceStable less_rank
    (filter (λ src, retired src = false ∧ is_Some (Source_Resource src resource)) (Sources r g)) =
  filter (offered StatusActive resource EmptyString) (Sources r g) ++
  filter (offered StatusDegraded resource EmptyString) (Sources r g).
Proof.
  rewrite (sort_SliceStable_two (λ s, statusRank (src_Status s))).
  - f_equal; apply filter_filter_iff; intros s Hs; unfold offered; split.
    1,3: intros [Hr [Hret Hres]]; destruct (registered_status g s Hs Hret) as [[]|[]];
      (split_and!; [|done|by left]); congruence || lia.
    all: intros (Hst & Hres & _); unfold retired; rewrite Hst; done.
  - apply Forall_forall. intros s [[Hret _] Hs]%list_elem_of_filter.
    destruct (registered_status g s Hs Hret) as [[_ ->]|[_ ->]]; lia.
Qed.

Lemma candidates_pinned g resource s :
  s ∈ Sources r g → src_Name s ≠ EmptyString →
  filter (offered StatusActive resource (src_Name s)) (Sources r g) ++
  filter (offered StatusDegraded resource (src_Name s)) (Sources r g) =
    if retired s then [] else match Source_Resource s resource with Some _ => [s] | None => [] end.
Proof.
  intros Hs Hne.
  assert (Hone : ∀ st s', s' ∈ Sources r g → offered st resource (src_Name s) s' →
    s' = s ∧ src_Status s = st ∧ is_Some (Source_Resource s resource)).
  { intros st s' Hs' (Hst & Hres & [?|Hn]); [done|].
    assert (s' = s) as ->; [|done]. apply elem_of_Sources in Hs as [Hg Hk], Hs' as [Hg' Hk']; [|done..].
    eapply registered_key_inj; [done..|]. unfold src_key. congruence. }
  assert (Hnil : ∀ st, src_Status s ≠ st ∨ Source_Resource s resource = None →
    filter (offered st resource (src_Name s)) (Sources r g) = []).
  { intros st Hst. apply filter_none, Forall_forall. intros s' Hs' Ho.
    destruct (Hone st s' Hs' Ho) as (_ & ? & [? ?]). destruct Hst; congruence. }
  assert (Hsing : ∀ st x, src_Status s = st → Source_Resource s resource = Some x →
    filter (offered st resource (src_Name s)) (Sources r g) = [s]).
  { intros st x Hst Hx. apply filter_single; [apply Sources_NoDup|done|]. intros s' Hs'. split.
    - intros Ho. by apply (Hone st) in Ho as [-> _].
    - intros ->. split_and!; [done|by rewrite Hx|by right]. }
  destruct (retired s) eqn:Hret.
  - apply bool_decide_eq_true in Hret. by rewrite !Hnil by (left; rewrite Hret; done).
  - destruct (Source_Resource s resource) as [x|] eqn:Ex; [|by rewrite !Hnil by by right].
    destruct (registered_status g s Hs Hret) as [[Hst _]|[Hst _]].
    + rewrite (Hsing StatusActive x) by done. by rewrite Hnil by (left; rewrite Hst; done).
    + rewrite (Hsing StatusDegraded x) by done. by rewrite Hnil by (left; rewrite Hst; done).
Qed.
End candidates.

(** The candidates of a read are the sources of the game that declare the
    resource and are in service, the active ones before the degraded ones and
    each group by name; a pinned source is never substituted. A read of an
    unknown game, or pinned to a source that cannot serve it, is an error. *)
Theorem candidates_exact `{Platform} ss r game resource pinned :
  NewSourceRegistry ss = Ok r →
  let expected := filter (offered StatusActive resource pinned) (Sources r game) ++
                  filter (offered StatusDegraded resource pinned) (Sources r game) in
  match candidates r game resource pinned with
  | Ok cs => cs = expected ∧ Sources r game ≠ []
  | Err e => expected = [] ∧ (e = ErrUnknownGame ↔ Sources r game = []) ∧
             (e = ErrSourceRetired ↔ ∃ s, s ∈ Sources r game ∧ src_Name s = pinned ∧
                pinned ≠ EmptyString ∧ src_Status s = StatusRetired)
  end.
Proof.
  intros Hwf%NewSourceRegistry_wf expected. unfold candidates.
  destruct (length (Sources r game) =? 0) eqn:El.
  { apply Nat.eqb_eq, nil_length_inv in El. unfold expected. rewrite El. split_and!; [done..|].
    split; [done|]. by intros (s & ?%elem_of_nil & _). }
  assert (HS : Sources r game ≠ []) by (intros E; by rewrite E in El).
  case_bool_decide as Hp; simpl.
  { subst pinned. split; [|done]. by apply candidates_unpinned. }
  destruct (Sources_Get r game pinned) as [s|] eqn:Eg.
  - apply Sources_Get_spec in Eg as [Hs <-]; [|done].
    pose proof (candidates_pinned r Hwf game resource s Hs Hp) as Hex. fold expected in Hex.
    destruct (retired s) eqn:Hret.
    + split_and!; [done..|]. split; [|done]. intros _. exists s. by apply bool_decide_eq_true in Hret.
    + destruct (Source_Resource s resource); [done|]. split_and!; [done..|]. split; [done|].
      intros (s' & Hs' & Hn & _ & Hst).
      assert (s' = s) as ->.
      { apply elem_of_Sources in Hs as [Hg Hk], Hs' as [Hg' Hk']; [|done..].
        eapply registered_key_inj; [done..|]. unfold src_key. congruence. }
      unfold retired in Hret. by rewrite bool_decide_true in Hret.
  - assert (Hno : ∀ s, s ∈ Sources r game → src_Name s ≠ pinned).
    { intros s Hs Hn. assert (Some s = None); [|done]. rewrite <-Eg. symmetry.
      by apply Sources_Get_spec. }
    split_and!; [|done|split; [done|]; intros (s & Hs & Hn & _); by destruct (Hno s)].
    unfold expected. rewrite !filter_none; [done|..]; apply Forall_forall;
      intros s Hs (_ & _ & [?|?]); by eapply Hno.
Qed.

(** ** Missing bindings *)

(** [c] would be tried for a resource that some source of its game declares with
    the scope. *)
Definition serves (sources : list Source) (scope : string) (c : Source) : Prop :=
  c ∈ sources ∧ retired c = false ∧
  ∃ d res res', d ∈ sources ∧ res ∈ src_Resources d ∧ res_Scope res = scope ∧
    src_Game d = src_Game c ∧ res' ∈ src_Resources c ∧ res_Name res' = res_Name res.

Section by_scope.
Context {K A : Type} `{Countable K}.
Implicit Types m : gmap K (list A).

Lemma elem_of_append_at k a m k' x :
  x ∈ default [] (append_at k a m !! k') ↔ x ∈ default [] (m !! k') ∨ (k' = k ∧ x = a).
Proof.
  unfold append_at. destruct (decide (k' = k)) as [->|Hne].
  - rewrite lookup_insert_eq. simpl. rewrite elem_of_app, list_elem_of_singleton. naive_solver.
  - rewrite lookup_insert_ne by done. naive_solver.
Qed.
End by_scope.

Lemma elem_of_declare src m k c :
  c ∈ default [] (declare src m !! k) ↔
  c ∈ default [] (m !! k) ∨
  (c = src ∧ retired src = false ∧ ∃ res, res ∈ src_Resources src ∧ k = (src_Game src, res_Name res)).
Proof.
  unfold declare. destruct (retired src) eqn:Hret; [naive_solver|].
  generalize (src_Resources src) as rs. intros rs. revert m.
  induction rs as [|res rs IH]; intros m; simpl.
  - split; [by left|]. intros [?|(_ & _ & res & ?%elem_of_nil & _)]; done.
  - rewrite IH, elem_of_append_at. setoid_rewrite elem_of_cons. naive_solver.
Qed.

Lemma elem_of_candidatesByResource sources k c :
  c ∈ default [] (candidatesByResource sources !! k) ↔
  c ∈ sources ∧ retired c = false ∧ ∃ res, res ∈ src_Resources c ∧ k = (src_Game c, res_Name res).
Proof.
  unfold candidatesByResource.
  assert (Hg : ∀ m, c ∈ default [] (foldl (λ m src, declare src m) m sources !! k) ↔
    c ∈ default [] (m !! k) ∨ (c ∈ sources ∧ retired c = false ∧
      ∃ res, res ∈ src_Resources c ∧ k = (src_Game c, res_Name res))).
  { induction sources as [|src sources IH]; intros m; simpl.
    - split; [by left|]. intros [?|[?%elem_of_nil _]]; done.
    - rewrite IH, elem_of_declare. setoid_rewrite elem_of_cons. naive_solver. }
  rewrite Hg, lookup_empty. simpl. split; [|by right]. by intros [?%elem_of_nil|?].
Qed.

(** What [byScope] holds along its loops: only candidates, under wanted scopes. *)
Definition offers_ok (sources : list Source) (wanted : list string) (m : gmap string (list Source)) : Prop :=
  ∀ scope l, m !! scope = Some l →
    l ≠ [] ∧ scope ∈ wanted ∧ scope ≠ EmptyString ∧ ∀ c, c ∈ l → serves sources scope c.

Lemma offers_ok_offer sources wanted m scope c :
  offers_ok sources wanted m → scope ∈ wanted → scope ≠ EmptyString → serves sources scope c →
  offers_ok sources wanted (offer scope m c).
Proof.
  intros Hm Hw Hne Hc. unfold offer. case_bool_decide; [done|].
  intros scope' l. unfold append_at. intros [[<- <-]|[_ ?]]%lookup_insert_Some; [|by apply Hm].
  split; [by intros [_ ?]%app_nil|]. split_and!; [done..|].
  intros c' [Hc'| ->%list_elem_of_singleton]%elem_of_app; [|done].
  destruct (m !! scope) as [l|] eqn:El; simpl in Hc'; [|by apply elem_of_nil in Hc'].
  by apply Hm in El as (_ & _ & _ & ?); auto.
Qed.

Definition has_key (k scope : string) (m : gmap string (list Source)) : Prop :=
  k ∈ src_key <$> default [] (m !! scope).

Lemma has_key_offer k scope scope' m c :
  has_key k scope m → has_key k scope (offer scope' m c).
Proof.
  unfold has_key, offer. case_bool_decide; [done|]. intros (c' & -> & Hc')%list_elem_of_fmap.
  apply list_elem_of_fmap. exists c'. split; [done|]. apply elem_of_append_at. by left.
Qed.

Lemma offer_has_key scope m c : has_key (src_key c) scope (offer scope m c).
Proof.
  unfold has_key, offer. case_bool_decide; [done|]. apply list_elem_of_fmap. exists c.
  split; [done|]. apply elem_of_append_at. by right.
Qed.

Lemma has_key_offer_resource k scope cbr wanted game m res :
  has_key k scope m → has_key k scope (offer_resource cbr wanted game m res).
Proof.
  intros Hk. unfold offer_resource. case_match; [done|].
  apply (foldl_invariant (has_key k scope)); [done|]. intros. by apply has_key_offer.
Qed.

Lemma byScope_ok sources wanted : offers_ok sources wanted (byScope sources wanted).
Proof.
  unfold byScope. apply (foldl_invariant (offers_ok sources wanted)); [done|].
  intros m d Hd Hm. apply (foldl_invariant (offers_ok sources wanted)); [done|].
  intros m' res Hres Hm'. unfold offer_resource. destruct (_ || _) eqn:E; [done|]. bools.
  apply (foldl_invariant (offers_ok sources wanted)); [done|]. intros m2 c Hc Hm2.
  apply offers_ok_offer; try done.
  apply elem_of_candidatesByResource in Hc as (? & ? & res' & ? & [= ? ?]). split_and!; [done..|].
  by exists d, res, res'.
Qed.

Lemma byScope_complete sources wanted scope c :
  scope ∈ wanted → scope ≠ EmptyString → serves sources scope c →
  has_key (src_key c) scope (byScope sources wanted).
Proof.
  intros Hw Hne (Hc & Hret & d & res & res' & Hd & Hres & Hsc & Hg & Hres' & Hn).
  unfold byScope. eapply (foldl_reach (has_key (src_key c) scope)); [exact Hd|..].
  - intros m. eapply (foldl_reach (has_key (src_key c) scope)); [exact Hres|..].
    + intros m'. unfold offer_resource. subst scope. rewrite bool_decide_false by done.
      rewrite bool_decide_true by done. simpl.
      apply (foldl_reach (has_key (src_key c) (res_Scope res)) _ _ _ c); [|intros; apply offer_has_key|].
      * apply elem_of_candidatesByResource. split_and!; [done..|]. exists res'. rewrite Hg, Hn. done.
      * intros. by apply has_key_offer.
    + intros. by apply has_key_offer_resource.
  - intros m src Hm. apply (foldl_invariant (has_key (src_key c) scope)); [done|].
    intros. by apply has_key_offer_resource.
Qed.

Lemma less_pick_asym a b : less_pick a b = true → less_pick b a = false.
Proof.
  unfold less_pick. rewrite (Nat.eqb_sym (statusRank (src_Status b))).
  destruct (_ =? _); simpl; [apply str_lt_asym|]. rewrite Nat.ltb_lt, Nat.ltb_ge. lia.
Qed.

Lemma less_pick_trans a b c :
  less_pick b a = false → less_pick c b = false → less_pick c a = false.
Proof.
  unfold less_pick.
  destruct (statusRank (src_Status b) =? statusRank (src_Status a)) eqn:E1,
    (statusRank (src_Status c) =? statusRank (src_Status b)) eqn:E2,
    (statusRank (src_Status c) =? statusRank (src_Status a)) eqn:E3; simpl;
    rewrite ?Nat.eqb_eq, ?Nat.eqb_neq in *; rewrite ?Nat.ltb_ge; try lia.
  apply str_lt_ge_trans.
Qed.

Lemma add_requirement_In pick scope reqs q :
  name_ok (src_Game pick) = true → Forall (λ q, name_ok (br_Game q) = true) reqs →
  q ∈ add_requirement pick scope reqs →
  q ∈ reqs ∨
  (br_Game q = src_Game pick ∧ br_Source q = src_Name pick ∧ br_Scopes q ≠ [] ∧
   ∀ sc, sc ∈ br_Scopes q → sc = scope ∨
     ∃ q0, q0 ∈ reqs ∧ br_Game q0 = br_Game q ∧ br_Source q0 = br_Source q ∧ sc ∈ br_Scopes q0).
Proof.
  intros Hp. induction 1 as [|q0 reqs Hq0 _ IH]; simpl.
  - intros ->%list_elem_of_singleton. right. simpl. split_and!; [done..|].
    intros sc ->%list_elem_of_singleton. by left.
  - case_bool_decide as Hk.
    + apply sourceKey_inj in Hk as [Hg Hn]; [|done..].
      intros [->|?]%elem_of_cons; [|left; by right]. right. simpl. split_and!; [done..| |].
      * by intros [_ ?]%app_nil.
      * intros sc [Hsc| ->%list_elem_of_singleton]%elem_of_app; [|by left]. right. exists q0.
        split; [by left|done].
    + intros [->|Hq]%elem_of_cons; [left; by left|]. destruct (IH Hq) as [?|(? & ? & ? & Hsc)]; [left; by right|].
      right. split_and!; [done..|]. intros sc Hin. destruct (Hsc sc Hin) as [?|(q1 & ? & ?)]; [by left|].
      right. exists q1. split; [by right|done].
Qed.

Lemma add_requirement_has pick scope reqs sc :
  (∃ q, q ∈ add_requirement pick scope reqs ∧ sc ∈ br_Scopes q) ↔
  sc = scope ∨ ∃ q, q ∈ reqs ∧ sc ∈ br_Scopes q.
Proof.
  induction reqs as [|q reqs IH]; simpl.
  - setoid_rewrite list_elem_of_singleton. split.
    + intros (q & -> & Hq). simpl in Hq. apply list_elem_of_singleton in Hq. by left.
    + intros [->|(q & ?%elem_of_nil & _)]; [|done]. eexists. split; [reflexivity|]. simpl. by left.
  - case_bool_decide.
    + setoid_rewrite elem_of_cons. split.
      * intros (q' & [->|Hq'] & Hsc); [|eauto]. simpl in Hsc.
        apply elem_of_app in Hsc as [?|?%list_elem_of_singleton]; eauto.
      * intros [->|(q' & [->|Hq'] & Hsc)]; [| |eauto];
          (eexists; split; [by left|]; simpl; apply elem_of_app); [right; by left|by left].
    + setoid_rewrite elem_of_cons. split.
      * intros (q' & [->|Hq'] & Hsc); [eauto|]. destruct (proj1 IH) as [?|(? & ? & ?)]; eauto.
      * intros [->|(q' & [->|Hq'] & Hsc)]; [|eauto|];
          (destruct (proj2 IH) as (? & ? & ?); [|by eauto]); eauto.
Qed.

Section missing.
Context `{Platform} (r : SourceRegistry) (Hwf : sources_wf r) (connected scopes : list string).
Local Abbreviation serves := (serves (AllSources r)).

(** The scope is wanted, some source could serve it, and none of those is
    connected. *)
Definition unserved (scope : string) : Prop :=
  scope ∈ scopes ∧ scope ≠ EmptyString ∧ (∃ c, serves scope c) ∧
  ¬ ∃ c, serves scope c ∧ src_key c ∈ connected.

(** The requirement names a source that would serve the scope, and none would be
    preferred to it. *)
Definition names_best (q : BindingRequirement) (scope : string) : Prop :=
  ∃ c, serves scope c ∧ br_Game q = src_Game c ∧ br_Source q = src_Name c ∧
    ∀ c', serves scope c' → less_pick c' c = false.

Definition reqs_ok (done : list string) (reqs : list BindingRequirement) : Prop :=
  (∀ scope, (∃ q, q ∈ reqs ∧ scope ∈ br_Scopes q) ↔ scope ∈ done ∧ unserved scope) ∧
  Forall (λ q, br_Scopes q ≠ [] ∧ name_ok (br_Game q) = true ∧
            ∀ scope, scope ∈ br_Scopes q → names_best q scope) reqs.

Local Abbreviation wanted := (filter (λ s, s ≠ EmptyString) scopes).
Local Abbreviation bs := (byScope (AllSources r) wanted).

Lemma serves_listed scope c :
  scope ∈ scopes → scope ≠ EmptyString → serves scope c ↔ c ∈ default [] (bs !! scope).
Proof.
  intros Hs Hne. split.
  - intros Hc. assert (Hk : has_key (src_key c) scope bs).
    { apply byScope_complete; [by apply list_elem_of_filter|done..]. }
    apply list_elem_of_fmap in Hk as (c' & Hk & Hc').
    assert (c = c') as ->; [|done]. apply (registered_key_inj r); [..|done].
    + apply elem_of_AllSources; [done|]. apply Hc.
    + apply elem_of_AllSources; [done|]. destruct (bs !! scope) as [l|] eqn:El; [|by apply elem_of_nil in Hc'].
      apply (byScope_ok (AllSources r) wanted) in El as (_ & _ & _ & Hl). by apply Hl.
  - destruct (bs !! scope) as [l|] eqn:El; [|by intros ?%elem_of_nil].
    apply (byScope_ok (AllSources r) wanted) in El as (_ & _ & _ & Hl). apply Hl.
Qed.

Lemma require_scope_ok done reqs scope l :
  bs !! scope = Some l → reqs_ok done reqs → reqs_ok (done ++ [scope]) (require_scope connected bs reqs scope).
Proof.
  intros El [Hin Hall]. pose proof (byScope_ok (AllSources r) wanted _ _ El) as (Hl & Hw & Hne & Hc).
  apply list_elem_of_filter in Hw as [_ Hw].
  assert (Hserve : ∀ c, serves scope c ↔ c ∈ l) by (intros c; rewrite serves_listed, El; done).
  unfold require_scope. rewrite El. simpl.
  destruct (existsb _ l) eqn:Esat.
  - split; [|done]. intros sc. rewrite Hin, elem_of_app, list_elem_of_singleton. split; [naive_solver|].
    intros [[?| ->] Hu]; [done|]. exfalso. destruct Hu as (_ & _ & _ & Hno). apply Hno.
    apply existsb_exists in Esat as (c & Hcl%list_elem_of_In & Hk). bools. exists c. by rewrite Hserve.
  - destruct (sort_SliceStable less_pick l) as [|pick l'] eqn:Es.
    { pose proof (sort_SliceStable_perm less_pick l) as Hp. rewrite Es in Hp.
      by apply Permutation_nil_l in Hp. }
    destruct (sort_SliceStable_head less_pick less_pick_asym less_pick_trans l pick) as [Hpick Hmin];
      [by rewrite Es|].
    assert (Hun : unserved scope).
    { split_and!; [done..|exists pick; by apply Hserve|]. intros (c & Hsc%Hserve & Hk).
      assert (existsb (λ src, bool_decide (src_key src ∈ connected)) l = true); [|congruence].
      apply existsb_exists. exists c. split; [by apply list_elem_of_In|by apply bool_decide_eq_true]. }
    assert (Hbest : ∀ q, br_Game q = src_Game pick → br_Source q = src_Name pick → names_best q scope).
    { intros q Hg Hn. exists pick. split_and!; [by apply Hserve|done..|]. intros c' ?%Hserve. auto. }
    assert (Hpn : name_ok (src_Game pick) = true).
    { apply Hserve in Hpick as (Hp & _). apply elem_of_AllSources in Hp; [|done].
      apply (registered_ok r Hwf) in Hp. apply Hp. }
    split.
    + intros sc. rewrite add_requirement_has, Hin, elem_of_app, list_elem_of_singleton. naive_solver.
    + apply Forall_forall. intros q Hq. apply add_requirement_In in Hq as [Hq|(Hg & Hn & Hsne & Hsc)].
      * rewrite Forall_forall in Hall. by apply Hall.
      * split_and!; [done|by rewrite Hg|]. intros sc Hsc'. destruct (Hsc sc Hsc') as [->|(q0 & Hq0 & Hg0 & Hn0 & Hs0)].
        -- by apply Hbest.
        -- rewrite Forall_forall in Hall. destruct (Hall q0 Hq0) as (_ & _ & Hb).
           destruct (Hb sc Hs0) as (c & ? & ? & ? & ?). exists c. by rewrite <-Hg0, <-Hn0.
      * done.
      * eapply Forall_impl; [exact Hall|]. naive_solver.
Qed.

Lemma missing_ok : reqs_ok (sort_by id (map_to_list bs).*1) (missing r connected scopes).
Proof.
  unfold missing. cbv zeta.
  assert (Hks : Forall (λ k, is_Some (bs !! k)) (sort_by id (map_to_list bs).*1)).
  { apply Forall_forall. intros k. rewrite sort_by_perm.
    intros ([k' l] & -> & Hk%elem_of_map_to_list)%list_elem_of_fmap. by eexists. }
  assert (Hgen : ∀ ks done reqs, Forall (λ k, is_Some (bs !! k)) ks → reqs_ok done reqs →
    reqs_ok (done ++ ks) (foldl (require_scope connected bs) reqs ks)).
  { induction ks as [|k ks IH]; intros done reqs Hk Hr; simpl; [by rewrite app_nil_r|].
    inversion Hk as [|? ? [l Hl] Hk']; subst. rewrite cons_middle, app_assoc.
    apply IH; [done|]. by eapply require_scope_ok. }
  apply (Hgen _ []); [done|]. split; [|constructor]. intros scope. split.
  - intros (q & ?%elem_of_nil & _). done.
  - intros [?%elem_of_nil _]. done.
Qed.

Lemma missing_spec :
  (∀ scope, (∃ q, q ∈ missing r connected scopes ∧ scope ∈ br_Scopes q) ↔ unserved scope) ∧
  (∀ q, q ∈ missing r connected scopes → br_Scopes q ≠ [] ∧
     ∀ scope, scope ∈ br_Scopes q → names_best q scope).
Proof.
  destruct missing_ok as [Hin Hall]. split.
  - intros scope. rewrite Hin. split; [naive_solver|]. intros Hu. split; [|done].
    destruct Hu as (Hs & Hne & (c & Hc) & _). rewrite serves_listed in Hc by done.
    destruct (bs !! scope) as [l|] eqn:El; [|by apply elem_of_nil in Hc].
    rewrite sort_by_perm. apply list_elem_of_fmap. exists (scope, l).
    split; [done|by apply elem_of_map_to_list].
  - intros q Hq. rewrite Forall_forall in Hall. destruct (Hall q Hq) as (? & _ & ?). done.
Qed.
End missing.

(** What the consent screen asks for is what a read needs. A requested scope
    is reported exactly when some configured source in service would be tried
    for a resource declared with it and none of those sources is connected; the
    source named for it is one of them, and none is preferred to it; and once
    the account has connected every source named, nothing is missing. *)
Theorem missing_exact `{Platform} ss r connected scopes :
  NewSourceRegistry ss = Ok r →
  let out := missing r connected scopes in
  (∀ scope, (∃ q, q ∈ out ∧ scope ∈ br_Scopes q) ↔ unserved r connected scopes scope) ∧
  (∀ q scope, q ∈ out → scope ∈ br_Scopes q → names_best r q scope) ∧
  missing r (connected ++ ((λ q, sourceKey (br_Game q) (br_Source q)) <$> out)) scopes = [].
Proof.
  intros Hwf%NewSourceRegistry_wf out.
  destruct (missing_spec r Hwf connected scopes) as [Hin Hbest]. split_and!; [done| |].
  - intros q scope Hq. by apply Hbest.
  - destruct (missing r (_ ++ _) scopes) as [|q l] eqn:E; [done|exfalso].
    destruct (missing_spec r Hwf (connected ++ ((λ q, sourceKey (br_Game q) (br_Source q)) <$> out)) scopes)
      as [Hin2 Hbest2]. rewrite E in Hin2, Hbest2.
    destruct (Hbest2 q) as [Hsne _]; [by left|]. destruct (br_Scopes q) as [|scope sl] eqn:Es; [done|].
    destruct (proj1 (Hin2 scope)) as (Hs & Hne & Hsome & Hno).
    { exists q. rewrite Es. split; by left. }
    destruct (proj2 (Hin scope)) as (q' & Hq' & Hsc).
    { split_and!; [done..|]. intros (c & Hc & Hk). apply Hno. exists c. split; [done|].
      apply elem_of_app. by left. }
    destruct (Hbest q' Hq') as [_ Hb]. destruct (Hb scope Hsc) as (c & Hc & Hg & Hn & _).
    apply Hno. exists c. split; [done|]. apply elem_of_app. right. apply list_elem_of_fmap.
    exists q'. split; [|done]. unfold src_key. by rewrite Hg, Hn.
Qed.
