(* ===== verification/RawPath.v ===== *)
(** * The path of a raw request ([internal/federation/service.go])

    [cleanRawPath] and [rejectEscapingPath]: what a caller-supplied path must
    look like before it is joined to a source's base URL. *)

From S2P Require Import Prelude GoStd.

Definition ErrRawPathEscapes : error := New "federation: raw path escapes the source base".

Definition maxRawPathDecodeRounds : nat := 4.

(** A segment that begins with [..] or contains a backslash. *)
Definition escaping_segment (segment : string) : bool :=
  strings_HasPrefix segment ".." || negb (lacks "\" segment).

(** The loop of [rejectEscapingPath]; [None] is the nil error. *)
Fixpoint reject_rounds (rounds : nat) (candidate : string) : option error :=
  match rounds with
  | 0 => Some ErrRawPathEscapes
  | S rounds =>
      if existsb escaping_segment (strings_Split candidate "/") then Some ErrRawPathEscapes else
      match url_PathUnescape candidate with
      | None => None
      | Some decoded =>
          if bool_decide (decoded = candidate) then None else reject_rounds rounds decoded
      end
  end.
Definition rejectEscapingPath (raw : string) : option error :=
  reject_rounds maxRawPathDecodeRounds raw.

(** [cleanRawPath]. *)
Definition cleanRawPath (raw : string) : result string :=
  match rejectEscapingPath raw with
  | Some err => Err err
  | None =>
      let cleaned := path_CleanRooted raw in
      if bool_decide (cleaned = "/") then Ok EmptyString
      else Ok (from_option id cleaned (strings_CutPrefix cleaned "/"))
  end.

(** ** Lemmas *)

(** A path decoded a number of times, as the hops after this one may. *)
Fixpoint decoded (n : nat) (s : string) : option string :=
  match n with
  | 0 => Some s
  | S n => url_PathUnescape s ≫= decoded n
  end.

(** No hop finds a malformed escape. *)
Definition well_escaped (s : string) : Prop := ∀ n, is_Some (decoded n s).

(** The path stays where it is put, read literally. *)
Definition stays (s : string) : Prop := Forall (λ seg, escaping_segment seg = false) (strings_Split s "/").

Lemma hex_val_slash : hex_val "/" = None.
Proof. reflexivity. Qed.

(** Decoding goes segment by segment: a slash is not part of an escape. *)
Lemma PathUnescape_sep a b :
  url_PathUnescape (a +:+ String "/" b) =
    x ← url_PathUnescape a; y ← url_PathUnescape b; Some (x +:+ String "/" y).
Proof.
  remember (len a) as n eqn:En. revert a En.
  induction (lt_wf n) as [n _ IH]. intros a ->. destruct a as [|c a]; simpl.
  - by destruct (url_PathUnescape b).
  - case_bool_decide.
    + destruct a as [|c1 a]; [by destruct b as [|? []]|].
      destruct a as [|c2 a]; [simpl; by destruct (hex_val c1)|]. simpl.
      destruct (hex_val c1), (hex_val c2); simpl; try done.
      rewrite (IH (len a)); [|simpl; lia|done].
      by destruct (url_PathUnescape a), (url_PathUnescape b).
    + rewrite (IH (len a)); [|simpl; lia|done].
      by destruct (url_PathUnescape a), (url_PathUnescape b).
Qed.

Lemma Join_cons x y l : strings_Join (x :: y :: l) "/" = x +:+ String "/" (strings_Join (y :: l) "/").
Proof. done. Qed.

Lemma PathUnescape_Join l :
  url_PathUnescape (strings_Join l "/") = (λ l', strings_Join l' "/") <$> mapM url_PathUnescape l.
Proof.
  induction l as [|x l IH]; [done|]. destruct l as [|y l].
  - simpl. by destruct (url_PathUnescape x).
  - rewrite Join_cons, PathUnescape_sep, IH. cbn [mapM].
    destruct (url_PathUnescape x); [|done]. simpl.
    destruct (url_PathUnescape y); [|done]. simpl. by destruct (mapM url_PathUnescape l).
Qed.

Lemma decoded_Join n l q :
  decoded n (strings_Join l "/") = Some q →
  ∃ qs, Forall2 (λ s q, decoded n s = Some q) l qs ∧ q = strings_Join qs "/".
Proof.
  revert l. induction n as [|n IH]; intros l.
  - intros [= <-]. exists l. split; [|done]. induction l; by constructor.
  - cbn [decoded]. rewrite PathUnescape_Join. destruct (mapM url_PathUnescape l) as [l'|] eqn:El; [|done].
    intros (qs & Hqs & ->)%IH. exists qs. split; [|done]. apply mapM_Some in El. clear IH.
    revert qs Hqs. induction El as [|x x' l l' Hx _ IHl]; intros qs Hqs; inversion Hqs; subst; [constructor|].
    constructor; [|by apply IHl]. simpl. by rewrite Hx.
Qed.

Lemma Split_ne s c : strings_Split s c ≠ [].
Proof. destruct s; simpl; [done|]. case_bool_decide; [done|]. by destruct (strings_Split s c). Qed.

Lemma Split_sep a b : strings_Split (a +:+ String "/" b) "/" = strings_Split a "/" ++ strings_Split b "/".
Proof.
  induction a as [|c a IH]; simpl; [done|]. rewrite IH. case_bool_decide; [done|].
  pose proof (Split_ne a "/"). by destruct (strings_Split a "/").
Qed.

Lemma Split_Join l :
  l ≠ [] → strings_Split (strings_Join l "/") "/" = mjoin ((λ s, strings_Split s "/") <$> l).
Proof.
  induction l as [|x l IH]; [done|]. intros _. destruct l as [|y l]; [simpl; by rewrite app_nil_r|].
  rewrite Join_cons, Split_sep, IH by done. done.
Qed.

Lemma Join_Split s : strings_Join (strings_Split s "/") "/" = s.
Proof.
  induction s as [|c s IH]; [done|]. simpl. case_bool_decide as Hc.
  - subst c. pose proof (Split_ne s "/"). destruct (strings_Split s "/") eqn:E; [done|].
    rewrite Join_cons, IH. done.
  - pose proof (Split_ne s "/"). destruct (strings_Split s "/") as [|x l] eqn:E; [done|].
    rewrite <-IH. by destruct l.
Qed.

(** With no segment [..], cleaning drops the empty segments and the dots. *)
Definition kept (seg : string) : Prop := seg ≠ EmptyString ∧ seg ≠ ".".
#[export] Instance kept_dec seg : Decision (kept seg).
Proof. unfold kept. apply _. Defined.

Lemma clean_kept l :
  ".." ∉ l → reverse (foldl clean_elem [] l) = filter kept l.
Proof.
  assert (Hg : ∀ acc, ".." ∉ l → foldl clean_elem acc l = reverse (filter kept l) ++ acc).
  { induction l as [|x l IH]; intros acc Hx; [done|]. apply not_elem_of_cons in Hx as [Hx Hl].
    simpl. rewrite IH by done. unfold clean_elem. rewrite filter_cons. unfold kept at 2.
    destruct (decide (x = EmptyString)) as [->|Hne]; [by rewrite decide_False by (by intros [])|].
    rewrite (bool_decide_false (x = EmptyString)) by done. simpl.
    destruct (decide (x = ".")) as [->|Hnd]; [by rewrite decide_False by (by intros [])|].
    rewrite !bool_decide_false by done. rewrite decide_True by done. rewrite reverse_cons.
    by rewrite <-app_assoc. }
  intros Hl. rewrite Hg by done. by rewrite app_nil_r, reverse_involutive.
Qed.

(** What [cleanRawPath] returns: the segments of the request without the empty
    ones and the dots. *)
Lemma cleanRawPath_Ok raw p :
  cleanRawPath raw = Ok p →
  rejectEscapingPath raw = None ∧ p = strings_Join (filter kept (strings_Split raw "/")) "/".
Proof.
  unfold cleanRawPath. destruct (rejectEscapingPath raw) eqn:Er; [done|]. intros Hp. split; [done|].
  assert (Hdd : ".." ∉ strings_Split raw "/").
  { intros Hin. unfold rejectEscapingPath in Er. simpl in Er.
    assert (existsb escaping_segment (strings_Split raw "/") = true) as E; [|by rewrite E in Er].
    apply existsb_exists. exists "..". split; [by apply list_elem_of_In|done]. }
  unfold path_CleanRooted in Hp. rewrite clean_kept in Hp by done.
  set (j := strings_Join _ "/") in *. case_bool_decide as Ej.
  - injection Hp as <-. by injection Ej.
  - rewrite CutPrefix_app in Hp. by injection Hp as <-.
Qed.

Lemma reject_rounds_stays n c k q :
  reject_rounds n c = None → well_escaped c → decoded k c = Some q → stays q.
Proof.
  revert c k. induction n as [|n IH]; intros c k; [done|]. cbn [reject_rounds].
  destruct (existsb _ _) eqn:E; [done|].
  assert (Hc : stays c).
  { apply Forall_forall. intros seg Hin. apply not_true_iff_false. intros Hs.
    rewrite <-not_true_iff_false in E. apply E, existsb_exists. exists seg.
    split; [by apply list_elem_of_In|done]. }
  intros Hrej Hwe; destruct (url_PathUnescape c) as [d|] eqn:Ed.
  - case_bool_decide as Heq.
    + subst d. assert (Hfix : ∀ k, decoded k c = Some c).
      { intros j. induction j as [|j IHj]; [done|]. cbn [decoded]. by rewrite Ed. }
      rewrite Hfix. by intros [= <-].
    + destruct k as [|k]; [by intros [= <-]|]. simpl. rewrite Ed. simpl. apply IH; [done|].
      intros m. specialize (Hwe (S m)). simpl in Hwe. by rewrite Ed in Hwe.
  - specialize (Hwe 1). simpl in Hwe. rewrite Ed in Hwe. by destruct Hwe.
Qed.

(** C40. A raw request does not climb out of its base. When the path has no
    malformed escape at any depth, what [cleanRawPath] lets through, decoded any
    number of times by the hops after it, has no segment that begins with [..]
    and no backslash; and it is the requested path with only empty segments and
    dots removed. *)
Theorem cleanRawPath_stays raw p :
  cleanRawPath raw = Ok p → well_escaped raw →
  p = strings_Join (filter kept (strings_Split raw "/")) "/" ∧
  ∀ n q, decoded n p = Some q → stays q.
Proof.
  intros (Hrej & ->)%cleanRawPath_Ok Hwe. split; [done|]. intros n q.
  destruct (filter kept (strings_Split raw "/")) as [|s0 l0] eqn:Ef.
  { replace (decoded n (strings_Join [] "/")) with (Some EmptyString) by (induction n; done).
    intros [= <-]. by constructor. }
  rewrite <-Ef. intros (qs & Hqs & ->)%decoded_Join. unfold stays. rewrite Split_Join.
  - apply Forall_forall. intros seg (l & Hseg & (q & -> & Hq)%list_elem_of_fmap)%list_elem_of_join.
    apply list_elem_of_lookup in Hq as [i Hi].
    destruct (Forall2_lookup_r _ _ _ _ _ Hqs Hi) as (s & Hs & Hd).
    apply list_elem_of_lookup_2, list_elem_of_filter in Hs as [_ Hs].
    destruct (Hwe n) as [qr Hqr]. pose proof Hqr as Hqr'.
    rewrite <-(Join_Split raw) in Hqr'. apply decoded_Join in Hqr' as (rs & Hrs & Hqe).
    apply list_elem_of_lookup in Hs as [j Hj].
    destruct (Forall2_lookup_l _ _ _ _ _ Hrs Hj) as (q' & Hq' & Hd'). rewrite Hd in Hd'. injection Hd' as <-.
    pose proof (reject_rounds_stays _ _ _ _ Hrej Hwe Hqr) as Hst. unfold stays in Hst.
    rewrite Hqe, Split_Join, Forall_forall in Hst.
    + apply Hst. apply list_elem_of_join. exists (strings_Split q "/"). split; [done|].
      apply list_elem_of_fmap. exists q. split; [done|]. by eapply list_elem_of_lookup_2.
    + intros ->. by inversion Hrs; destruct (Split_ne raw "/").
  - intros ->. inversion Hqs as [E|]. by rewrite Ef in E.
Qed.

Lemma cleanRawPath_stays_witness :
  cleanRawPath "scores//./b30%20x" = Ok "scores/b30%20x" ∧
  stays "scores/b30 x".
Proof.
  assert (Hwe : well_escaped "scores//./b30%20x").
  { intros [|[|n]]; [by eexists..|]. exists "scores//./b30 x".
    change (decoded n "scores//./b30 x" = Some "scores//./b30 x"). by induction n. }
  destruct (cleanRawPath_stays "scores//./b30%20x" "scores/b30%20x" eq_refl Hwe) as [_ H].
  split; [reflexivity|]. by apply (H 1).
Defined.

(** The check stops at a malformed escape, and one after a question mark
    does not stop the request: this path is let through whole, and the part the
    source reads as its path, up to the question mark, decodes to one that
    begins with [..]. *)
Theorem cleanRawPath_malformed_bypass :
  cleanRawPath "%2e%2e/admin?%zz" = Ok "%2e%2e/admin?%zz" ∧
  (str_before "?" "%2e%2e/admin?%zz" ≫= url_PathUnescape) = Some "../admin" ∧ ¬ stays "../admin".
Proof. split_and!; [reflexivity..|]. by inversion 1. Qed.
