(* ===== verification/FedStore.v ===== *)
(** * Bindings and pending bind flows ([internal/federation/binding.go],
    [internal/federation/bind.go])

    The [BindingStore] interface with what its clients rely on,
    [MemoryBindingStore] with its two sorted indexes as an instance of it, and
    [MemoryBindFlowStore]. The probe counters [rowsCopied] and [listScanned] are
    left out: nothing but a test reads them. *)

From S2P Require Import Prelude GoStd SortedIndex VaultRepo FedRegistry.

(** ** Bindings *)

(** [Binding]; the version is a [uint64], the zero expiry means none. *)
Record Binding := mkBinding {
  b_User : string;
  b_Game : string;
  b_Source : string;
  b_TokenType : string;
  b_Expiry : Z;
  b_HasRefresh : bool;
  b_Version : Z;
}.

#[export] Instance Binding_eq_dec : EqDecision Binding.
Proof. solve_decision. Defined.

(** [BindingIdentity]. *)
Definition BindingIdentity (b : Binding) : Identity :=
  mkIdentity (b_User b) (b_Game b +:+ "." +:+ b_Source b).

(** [bindingKey]. *)
Definition bindingKey (user game source : string) : string :=
  user +:+ "|" +:+ game +:+ "|" +:+ source.

Record bindingIndexKey := mkBKey {
  bk_user : string;
  bk_game : string;
  bk_source : string;
}.
#[export] Instance bindingIndexKey_eq_dec : EqDecision bindingIndexKey.
Proof. solve_decision. Defined.
#[export] Instance bindingIndexKey_countable : Countable bindingIndexKey.
Proof.
  refine (inj_countable' (λ k, (bk_user k, bk_game k, bk_source k))
            (λ p, mkBKey p.1.1 p.1.2 p.2) _). by intros [].
Defined.

Definition key_string (k : bindingIndexKey) : string := bindingKey (bk_user k) (bk_game k) (bk_source k).
Definition bkey (b : Binding) : bindingIndexKey := mkBKey (b_User b) (b_Game b) (b_Source b).

(** ** The interface *)

(** [BindingStore], and [BindingPager] where the store implements it. *)
Class BindingStore (B : Type) := {
  bs_Get : string → string → string → B → result Binding;
  bs_Put : Binding → B → B * result unit;
  bs_PutIfVersion : Binding → Z → B → B * result bool;
  bs_Create : Binding → B → B * result bool;
  bs_Delete : string → string → string → B → B * result unit;
  bs_List : string → B → result (list Binding);
  bs_ListAll : B → result (list Binding);
  bs_ListAllPage : option (string → string → string → Z → B → result (list Binding));
}.

(** ** [MemoryBindingStore] *)

Record MemoryBindingStore := mkBindings {
  mb_m : gmap string Binding;
  mb_index : list bindingIndexKey;
  mb_byUser : gmap string (list bindingIndexKey);
}.

Definition NewMemoryBindingStore : MemoryBindingStore := mkBindings ∅ [] ∅.

(** [bindingIndexLess] and [bindingUserIndexLess]. *)
Definition bindingUserIndexLess (a b : bindingIndexKey) : bool :=
  if negb (bool_decide (bk_game a = bk_game b)) then str_lt (bk_game a) (bk_game b)
  else str_lt (bk_source a) (bk_source b).
Definition bindingIndexLess (a b : bindingIndexKey) : bool :=
  if negb (bool_decide (bk_user a = bk_user b)) then str_lt (bk_user a) (bk_user b)
  else if negb (bool_decide (bk_game a = bk_game b)) then str_lt (bk_game a) (bk_game b)
  else str_lt (bk_source a) (bk_source b).

(** [bindingIndexAfter]. *)
Definition bindingIndexAfter (k : bindingIndexKey) (user game source : string) : bool :=
  if bool_decide (user = EmptyString) && bool_decide (game = EmptyString) &&
     bool_decide (source = EmptyString) then true
  else if negb (bool_decide (bk_user k = user)) then str_lt user (bk_user k)
  else if negb (bool_decide (bk_game k = game)) then str_lt game (bk_game k)
  else str_lt source (bk_source k).

(** [indexOf], [insertIndex], [removeIndex]. *)
Definition bindings_indexOf (key : bindingIndexKey) (index : list bindingIndexKey) : nat * bool :=
  let i := search_list (λ k, negb (bindingIndexLess k key)) index in
  (i, bool_decide (index !! i = Some key)).
Definition bindings_insertIndex (key : bindingIndexKey) (index : list bindingIndexKey)
    : list bindingIndexKey :=
  let i := (bindings_indexOf key index).1 in take i index ++ key :: drop i index.
Definition bindings_removeIndex (key : bindingIndexKey) (index : list bindingIndexKey)
    : list bindingIndexKey :=
  let '(i, ok) := bindings_indexOf key index in
  if ok then take i index ++ drop (S i) index else index.

(** [insertUserIndex], [removeUserIndex]. *)
Definition insertUserIndex (key : bindingIndexKey) (byUser : gmap string (list bindingIndexKey))
    : gmap string (list bindingIndexKey) :=
  let keys := default [] (byUser !! bk_user key) in
  let i := search_list (λ k, negb (bindingUserIndexLess k key)) keys in
  <[bk_user key := take i keys ++ key :: drop i keys]> byUser.
Definition removeUserIndex (key : bindingIndexKey) (byUser : gmap string (list bindingIndexKey))
    : gmap string (list bindingIndexKey) :=
  let keys := default [] (byUser !! bk_user key) in
  let i := search_list (λ k, negb (bindingUserIndexLess k key)) keys in
  if negb (bool_decide (keys !! i = Some key)) then byUser
  else
    let keys' := take i keys ++ drop (S i) keys in
    if length keys' =? 0 then delete (bk_user key) byUser else <[bk_user key := keys']> byUser.

Definition Bindings_Get (user game source : string) (s : MemoryBindingStore) : result Binding :=
  match mb_m s !! bindingKey user game source with
  | None => Err ErrNotBound
  | Some b => Ok b
  end.

Definition Bindings_Put (b : Binding) (s : MemoryBindingStore) : MemoryBindingStore * result unit :=
  let key := bindingKey (b_User b) (b_Game b) (b_Source b) in
  let '(index, byUser) :=
    match mb_m s !! key with
    | Some _ => (mb_index s, mb_byUser s)
    | None => (bindings_insertIndex (bkey b) (mb_index s), insertUserIndex (bkey b) (mb_byUser s))
    end in
  (mkBindings (<[key := b]> (mb_m s)) index byUser, Ok tt).

Definition Bindings_PutIfVersion (b : Binding) (expectedVersion : Z) (s : MemoryBindingStore)
    : MemoryBindingStore * result bool :=
  let key := bindingKey (b_User b) (b_Game b) (b_Source b) in
  match mb_m s !! key with
  | None => (s, Ok false)
  | Some existing =>
      if negb (b_Version existing =? expectedVersion)%Z then (s, Ok false)
      else (mkBindings (<[key := b]> (mb_m s)) (mb_index s) (mb_byUser s), Ok true)
  end.

Definition Bindings_Create (b : Binding) (s : MemoryBindingStore) : MemoryBindingStore * result bool :=
  let key := bindingKey (b_User b) (b_Game b) (b_Source b) in
  match mb_m s !! key with
  | Some _ => (s, Ok false)
  | None => (mkBindings (<[key := b]> (mb_m s)) (bindings_insertIndex (bkey b) (mb_index s))
               (insertUserIndex (bkey b) (mb_byUser s)), Ok true)
  end.

Definition Bindings_Delete (user game source : string) (s : MemoryBindingStore)
    : MemoryBindingStore * result unit :=
  let key := bindingKey user game source in
  match mb_m s !! key with
  | None => (s, Ok tt)
  | Some _ =>
      let k := mkBKey user game source in
      (mkBindings (delete key (mb_m s)) (bindings_removeIndex k (mb_index s))
         (removeUserIndex k (mb_byUser s)), Ok tt)
  end.

(** [s.m[key]]: a missing key reads as the zero binding. *)
Definition zero_binding : Binding :=
  mkBinding EmptyString EmptyString EmptyString EmptyString 0 false 0.
Definition binding_at (s : MemoryBindingStore) (k : bindingIndexKey) : Binding :=
  default zero_binding (mb_m s !! bindingKey (bk_user k) (bk_game k) (bk_source k)).

Definition Bindings_List (user : string) (s : MemoryBindingStore) : result (list Binding) :=
  Ok (binding_at s <$> default [] (mb_byUser s !! user)).

Definition Bindings_ListAll (s : MemoryBindingStore) : result (list Binding) :=
  Ok (binding_at s <$> mb_index s).

(** [ListAllPage]; a page of 500 keeps [pos + limit] far below the width of an
    [int]. *)
Definition Bindings_ListAllPage (afterUser afterGame afterSource : string) (limit : Z)
    (s : MemoryBindingStore) : result (list Binding) :=
  let limit := if (limit <=? 0)%Z then 1%Z else limit in
  let pos := search_list (λ k, bindingIndexAfter k afterUser afterGame afterSource) (mb_index s) in
  let end_ := if (Z.of_nat (length (mb_index s)) <? Z.of_nat pos + limit)%Z
              then length (mb_index s) else Z.to_nat (Z.of_nat pos + limit) in
  Ok (binding_at s <$> take (end_ - pos) (drop pos (mb_index s))).

#[export] Instance memory_bindings : BindingStore MemoryBindingStore := {|
  bs_Get := Bindings_Get;
  bs_Put := Bindings_Put;
  bs_PutIfVersion := Bindings_PutIfVersion;
  bs_Create := Bindings_Create;
  bs_Delete := Bindings_Delete;
  bs_List := Bindings_List;
  bs_ListAll := Bindings_ListAll;
  bs_ListAllPage := Some Bindings_ListAllPage;
|}.

(** ** Pending bind flows ([bind.go]) *)

Definition ErrUnknownBind : error := New "federation: unknown or expired bind request".

Record BindFlow := mkFlow {
  fl_ID : string;
  fl_User : string;
  fl_Game : string;
  fl_Source : string;
  fl_Verifier : string;
  fl_State : string;
  fl_ReturnTo : string;
  fl_ExpiresAt : Z;
  fl_Bound : bool;
  fl_BoundVersion : Z;
}.

(** [BindFlow{}]. *)
Definition zero_flow : BindFlow :=
  mkFlow EmptyString EmptyString EmptyString EmptyString EmptyString EmptyString EmptyString 0 false 0.

(** [BindFlowStore]. *)
Class BindFlowStore (F : Type) := {
  fs_Put : BindFlow → F → F * result unit;
  fs_Consume : string → F → F * result BindFlow;
  fs_PurgeUserFlows : string → F → F * result nat;
}.

(** [MemoryBindFlowStore]: flows by state. *)
Definition MemoryBindFlowStore : Type := gmap string BindFlow.

Definition Flows_Put (f : BindFlow) (m : MemoryBindFlowStore) : MemoryBindFlowStore * result unit :=
  (<[fl_State f := f]> m, Ok tt).

Definition Flows_Consume (state : string) (m : MemoryBindFlowStore)
    : MemoryBindFlowStore * result BindFlow :=
  match m !! state with
  | None => (m, Err ErrUnknownBind)
  | Some f => (delete state m, Ok f)
  end.

(** The loops over the map, by what they leave and how often they deleted. *)
Definition Flows_PurgeUserFlows (user : string) (m : MemoryBindFlowStore)
    : MemoryBindFlowStore * result nat :=
  let mine f := bool_decide (fl_User f = user) in
  (delete_where mine m, Ok (count_where mine m)).
Definition Flows_SweepExpired (now : Z) (m : MemoryBindFlowStore) : MemoryBindFlowStore * nat :=
  let over f := negb (time_Before now (fl_ExpiresAt f)) in
  (delete_where over m, count_where over m).

#[export] Instance memory_flows : BindFlowStore MemoryBindFlowStore := {|
  fs_Put := Flows_Put;
  fs_Consume := Flows_Consume;
  fs_PurgeUserFlows := Flows_PurgeUserFlows;
|}.

(** ** What the service relies on *)

(** The contract of [Consume]: it returns and removes the flow. *)
Class BindFlowStoreOk (F : Type) `{BindFlowStore F} : Prop :=
  fs_consumed state f f1 fl : fs_Consume state f = (f1, Ok fl) → ∃ e, (fs_Consume state f1).2 = Err e.
#[export] Instance memory_flows_ok : BindFlowStoreOk MemoryBindFlowStore.
Proof.
  intros state f f1 fl. cbn [fs_Consume memory_flows]. unfold Flows_Consume at 1.
  destruct (f !! state) as [g|]; [|done]. intros [= <- _]. exists ErrUnknownBind. unfold Flows_Consume.
  replace (_ !! state) with (@None BindFlow); [done|]. symmetry. apply (lookup_delete_eq (M:=gmap string)).
Qed.

(** The parts of a key carry no separator: account identifiers have none, and
    the names a registry accepts do not either ([named_ok]). *)
Definition named (k : bindingIndexKey) : Prop :=
  lacks "|" (bk_user k) = true ∧ lacks "|" (bk_game k) = true ∧ lacks "|" (bk_source k) = true.

(** The contract of a binding store: [bs_row] is the row of a key. An operation
    that fails may or may not have taken effect, as with a lost connection; it
    never does anything else. *)
Class BindingStoreOk (B : Type) `{BindingStore B} : Type := {
  bs_inv : B → Prop;
  bs_row : B → bindingIndexKey → option Binding;
  bs_same (b b' : B) : Prop := bs_inv b' ∧ ∀ k, bs_row b' k = bs_row b k;
  bs_wrote (b b' : B) (k : bindingIndexKey) (o : option Binding) : Prop :=
    bs_inv b' ∧ bs_row b' k = o ∧ ∀ k', k' ≠ k → bs_row b' k' = bs_row b k';
  bs_row_key b k x : bs_inv b → bs_row b k = Some x → bkey x = k ∧ named k;
  bs_Get_ok u g s b : bs_inv b → lacks "|" u = true →
    match bs_Get u g s b with
    | Ok x => bs_row b (mkBKey u g s) = Some x
    | Err e => errors_Is e ErrNotBound = true → bs_row b (mkBKey u g s) = None
    end;
  bs_Put_ok x b : bs_inv b → named (bkey x) →
    let '(b', r) := bs_Put x b in
    match r with
    | Ok _ => bs_wrote b b' (bkey x) (Some x)
    | Err _ => bs_same b b' ∨ bs_wrote b b' (bkey x) (Some x)
    end;
  bs_PutIfVersion_ok x v b : bs_inv b → named (bkey x) →
    let '(b', r) := bs_PutIfVersion x v b in
    match r with
    | Ok true => (b_Version <$> bs_row b (bkey x)) = Some v ∧ bs_wrote b b' (bkey x) (Some x)
    | Ok false => (b_Version <$> bs_row b (bkey x)) ≠ Some v ∧ bs_same b b'
    | Err _ => bs_same b b' ∨
        ((b_Version <$> bs_row b (bkey x)) = Some v ∧ bs_wrote b b' (bkey x) (Some x))
    end;
  bs_Create_ok x b : bs_inv b → named (bkey x) →
    let '(b', r) := bs_Create x b in
    match r with
    | Ok true => bs_row b (bkey x) = None ∧ bs_wrote b b' (bkey x) (Some x)
    | Ok false => is_Some (bs_row b (bkey x)) ∧ bs_same b b'
    | Err _ => bs_same b b' ∨ (bs_row b (bkey x) = None ∧ bs_wrote b b' (bkey x) (Some x))
    end;
  bs_Delete_ok u g s b : bs_inv b → lacks "|" u = true →
    let '(b', r) := bs_Delete u g s b in
    match r with
    | Ok _ => bs_wrote b b' (mkBKey u g s) None
    | Err _ => bs_same b b' ∨ bs_wrote b b' (mkBKey u g s) None
    end;
  bs_List_ok u b l : bs_inv b → bs_List u b = Ok l →
    NoDup (bkey <$> l) ∧ ∀ x, x ∈ l ↔ b_User x = u ∧ bs_row b (bkey x) = Some x;
  bs_ListAll_ok b l : bs_inv b → bs_ListAll b = Ok l →
    NoDup (bkey <$> l) ∧ ∀ x, x ∈ l ↔ bs_row b (bkey x) = Some x;
  bs_Page_ok pager u g s limit b l : bs_inv b → bs_ListAllPage = Some pager → (0 < limit)%Z →
    pager u g s limit b = Ok l →
    ∃ rows, StronglySorted (λ x y, bindingIndexLess (bkey x) (bkey y) = true) rows ∧
      (∀ x, x ∈ rows ↔ bs_row b (bkey x) = Some x ∧ bindingIndexAfter (bkey x) u g s = true) ∧
      l = take (Z.to_nat limit) rows;
}.

(** ** Lemmas: the order of the keys *)

Lemma named_ok u g s :
  lacks "|" u = true → name_ok g = true → name_ok s = true → named (mkBKey u g s).
Proof. intros Hu Hg Hs. split_and!; [done|by apply name_ok_lacks..]. Qed.

Lemma named_user k : named k → lacks "|" (bk_user k) = true.
Proof. by intros []. Qed.
#[local] Hint Resolve named_user : core.

Lemma key_string_inj k k' :
  named k → lacks "|" (bk_user k') = true → key_string k = key_string k' → k = k'.
Proof.
  destruct k as [u g s], k' as [u' g' s']. intros (Hu & Hg & Hs) Hu'. unfold key_string, bindingKey. simpl in *.
  intros [-> Heq]%(str_sep_inj_l "|"); [|done..].
  by apply (str_sep_once "|") in Heq as [-> ->].
Qed.

Lemma bindingIndexLess_spec a b :
  bindingIndexLess a b = true ↔
    str_lt (bk_user a) (bk_user b) = true ∨
    (bk_user a = bk_user b ∧ bindingUserIndexLess a b = true).
Proof.
  unfold bindingIndexLess, bindingUserIndexLess.
  destruct (decide (bk_user a = bk_user b)) as [E|E].
  - rewrite (bool_decide_true (bk_user a = _)) by done. simpl. rewrite E, str_lt_irrefl. naive_solver.
  - rewrite (bool_decide_false (bk_user a = _)) by done. simpl. naive_solver.
Qed.

Lemma bindingUserIndexLess_spec a b :
  bindingUserIndexLess a b = true ↔
    str_lt (bk_game a) (bk_game b) = true ∨
    (bk_game a = bk_game b ∧ str_lt (bk_source a) (bk_source b) = true).
Proof.
  unfold bindingUserIndexLess. destruct (decide (bk_game a = bk_game b)) as [E|E].
  - rewrite bool_decide_true by done. simpl. rewrite E, str_lt_irrefl. naive_solver.
  - rewrite bool_decide_false by done. simpl. naive_solver.
Qed.

#[export] Instance bindingIndexLess_total_less : TotalLess bindingIndexLess.
Proof.
  split.
  - intros a. apply not_true_iff_false.
    rewrite bindingIndexLess_spec, bindingUserIndexLess_spec, !str_lt_irrefl. naive_solver.
  - intros [u1 g1 s1] [u2 g2 s2] [u3 g3 s3].
    rewrite !bindingIndexLess_spec, !bindingUserIndexLess_spec. simpl.
    intros [H1|[-> [H1|[-> H1]]]] [H2|[-> [H2|[-> H2]]]]; naive_solver eauto using str_lt_trans.
  - intros [u g s] [u' g' s']. rewrite !bindingIndexLess_spec, !bindingUserIndexLess_spec. simpl.
    destruct (str_lt_total u u') as [|[->|]]; [naive_solver| |naive_solver].
    destruct (str_lt_total g g') as [|[->|]]; [naive_solver| |naive_solver].
    destruct (str_lt_total s s') as [|[->|]]; naive_solver.
Qed.

(** Within one account both orders agree. *)
Lemma user_less_same a b : bk_user a = bk_user b → bindingUserIndexLess a b = bindingIndexLess a b.
Proof.
  intros E. apply eq_bool_prop_intro. rewrite !Is_true_true, bindingIndexLess_spec, E, str_lt_irrefl.
  naive_solver.
Qed.

Lemma bindingIndexAfter_spec k c :
  c ≠ mkBKey EmptyString EmptyString EmptyString →
  bindingIndexAfter k (bk_user c) (bk_game c) (bk_source c) = bindingIndexLess c k.
Proof.
  destruct c as [u g s]. intros Hc. unfold bindingIndexAfter, bindingIndexLess. simpl.
  destruct (bool_decide (u = EmptyString) && _ && _) eqn:E; [bools; by subst|].
  destruct k as [u' g' s']. simpl.
  rewrite (bool_decide_ext (u' = u) (u = u')), (bool_decide_ext (g' = g) (g = g')) by done. done.
Qed.

(** ** Invariant of [MemoryBindingStore] *)

Local Abbreviation sorted := (StronglySorted (λ a b, bindingIndexLess a b = true)).

(** Every row is under its own key; the index lists exactly the keys, in order;
    each account's list is its part of the index, and no account has an empty
    one. *)
Definition bindings_wf (s : MemoryBindingStore) : Prop :=
  (∀ ks b, mb_m s !! ks = Some b → ks = key_string (bkey b) ∧ named (bkey b)) ∧
  sorted (mb_index s) ∧
  (∀ k, k ∈ mb_index s ↔ ∃ b, mb_m s !! key_string k = Some b ∧ bkey b = k) ∧
  (∀ u, mb_byUser s !! u =
     match filter (λ k, bk_user k = u) (mb_index s) with [] => None | l => Some l end).

Definition mem_row (s : MemoryBindingStore) (k : bindingIndexKey) : option Binding :=
  b ← mb_m s !! key_string k; if decide (bkey b = k) then Some b else None.

Lemma mem_row_named s k :
  bindings_wf s → lacks "|" (bk_user k) = true → mem_row s k = mb_m s !! key_string k.
Proof.
  intros (Hm & _) Hk. unfold mem_row. destruct (mb_m s !! key_string k) as [b|] eqn:E; [|done].
  destruct (Hm _ _ E) as [He Hb]. simpl. rewrite decide_True; [done|].
  by apply key_string_inj.
Qed.

Lemma byUser_default s u :
  bindings_wf s → default [] (mb_byUser s !! u) = filter (λ k, bk_user k = u) (mb_index s).
Proof. intros (_ & _ & _ & Hu). rewrite Hu. by destruct (filter _ _). Qed.

(** The user's list changes as the index does. *)
Lemma user_insert u k l :
  bk_user k = u → Forall (λ k', bk_user k' = u) l →
  let i := search_list (λ k', negb (bindingUserIndexLess k' k)) l in
  take i l ++ k :: drop i l = index_insert bindingIndexLess k l.
Proof.
  intros Hk Hl. cbv zeta. unfold index_insert, index_of. cbn [fst].
  rewrite (search_list_ext _ (λ k', negb (bindingIndexLess k' k))); [done|].
  rewrite Forall_forall in Hl. intros k' Hk'. rewrite user_less_same; [done|]. rewrite Hl; done.
Qed.

Lemma user_remove u k l :
  bk_user k = u → Forall (λ k', bk_user k' = u) l →
  let i := search_list (λ k', negb (bindingUserIndexLess k' k)) l in
  (if bool_decide (l !! i = Some k) then take i l ++ drop (S i) l else l) =
    index_remove bindingIndexLess k l.
Proof.
  intros Hk Hl. cbv zeta. unfold index_remove, index_of. cbn [fst].
  rewrite (search_list_ext _ (λ k', negb (bindingIndexLess k' k))); [done|].
  rewrite Forall_forall in Hl. intros k' Hk'. rewrite user_less_same; [done|]. rewrite Hl; done.
Qed.

Lemma filter_user_all u l : Forall (λ k, bk_user k = u) (filter (λ k, bk_user k = u) l).
Proof. apply Forall_forall. by intros k [? _]%list_elem_of_filter. Qed.

Lemma filter_index_insert u k l :
  sorted l → k ∉ l →
  filter (λ k', bk_user k' = u) (index_insert bindingIndexLess k l) =
    if decide (bk_user k = u) then index_insert bindingIndexLess k (filter (λ k', bk_user k' = u) l)
    else filter (λ k', bk_user k' = u) l.
Proof.
  intros Hs Hk.
  assert (Hs1 : sorted (filter (λ k', bk_user k' = u) (index_insert bindingIndexLess k l)))
    by (apply sorted_filter, (index_insert_sorted bindingIndexLess); done).
  case_decide as Eu; (apply (index_unique bindingIndexLess); [done| |]).
  - apply index_insert_sorted; [apply _|by apply sorted_filter|]. by intros [_ ?]%list_elem_of_filter.
  - intros x. rewrite elem_of_index_insert, !list_elem_of_filter, elem_of_index_insert. naive_solver.
  - by apply sorted_filter.
  - intros x. rewrite !list_elem_of_filter, elem_of_index_insert. naive_solver.
Qed.

Lemma index_insert_cons k l : ∃ x l', index_insert bindingIndexLess k l = x :: l'.
Proof.
  destruct (index_insert bindingIndexLess k l) as [|x l'] eqn:E; [|eauto].
  assert (Hin : k ∈ index_insert bindingIndexLess k l) by (apply elem_of_index_insert; by left).
  rewrite E in Hin. by apply elem_of_nil in Hin.
Qed.

Lemma wf_insert s b :
  bindings_wf s → named (bkey b) → mb_m s !! key_string (bkey b) = None →
  bindings_wf (mkBindings (<[key_string (bkey b) := b]> (mb_m s))
                 (bindings_insertIndex (bkey b) (mb_index s)) (insertUserIndex (bkey b) (mb_byUser s))).
Proof.
  intros Hwf Hn Hnew. pose proof Hwf as (Hm & Hs & Hi & Hu). set (k := bkey b) in *.
  assert (Hk : k ∉ mb_index s) by (rewrite Hi; intros (? & ? & _); congruence).
  change (bindings_insertIndex k (mb_index s)) with (index_insert bindingIndexLess k (mb_index s)).
  split_and!; cbn [mb_m mb_index mb_byUser].
  - intros ks b' [[<- <-]|[_ ?]]%lookup_insert_Some; [done|by apply Hm].
  - by apply index_insert_sorted; [apply _|..].
  - intros k'. rewrite elem_of_index_insert, Hi. split.
    + intros [->|(b' & Hb' & Hk')]; [exists b; by rewrite lookup_insert_eq|]. exists b'. split; [|done].
      rewrite lookup_insert_ne; [done|]. congruence.
    + intros (b' & [[_ <-]|[_ ?]]%lookup_insert_Some & Hk'); [by left|]. right. eauto.
  - intros u. unfold insertUserIndex. cbv zeta. rewrite byUser_default by done.
    rewrite (user_insert (bk_user k)) by (done || apply filter_user_all).
    rewrite filter_index_insert by done. case_decide as Eu.
    + subst u. rewrite lookup_insert_eq.
      destruct (index_insert_cons k (filter (λ k', bk_user k' = bk_user k) (mb_index s))) as (x & l & ->). done.
    + by rewrite lookup_insert_ne by done.
Qed.

Lemma wf_update s b b0 :
  bindings_wf s → mb_m s !! key_string (bkey b) = Some b0 → named (bkey b) →
  bindings_wf (mkBindings (<[key_string (bkey b) := b]> (mb_m s)) (mb_index s) (mb_byUser s)).
Proof.
  intros (Hm & Hs & Hi & Hu) Hb0 Hn. split_and!; cbn [mb_m mb_index mb_byUser]; [|done| |done].
  - intros ks b' [[<- <-]|[_ ?]]%lookup_insert_Some; [done|by apply Hm].
  - destruct (Hm _ _ Hb0) as [He Hn0]. apply key_string_inj in He; [|by auto..].
    intros k. rewrite Hi. split.
    + intros (b' & Hb' & Hk'). destruct (decide (key_string k = key_string (bkey b))) as [E|E].
      * exists b. rewrite E, lookup_insert_eq. split; [done|]. rewrite E, Hb0 in Hb'. congruence.
      * exists b'. by rewrite lookup_insert_ne.
    + intros (b' & [[_ <-]|[_ ?]]%lookup_insert_Some & Hk'); [|eauto].
      subst k. exists b0. by rewrite Hb0, He.
Qed.

Lemma wf_delete s k b :
  bindings_wf s → named k → mb_m s !! key_string k = Some b →
  bindings_wf (mkBindings (delete (key_string k) (mb_m s)) (bindings_removeIndex k (mb_index s))
                 (removeUserIndex k (mb_byUser s))).
Proof.
  intros Hwf Hn Hb. pose proof Hwf as (Hm & Hs & Hi & Hu).
  change (bindings_removeIndex k (mb_index s)) with (index_remove bindingIndexLess k (mb_index s)).
  rewrite index_remove_filter by (done || apply _).
  split_and!; cbn [mb_m mb_index mb_byUser].
  - intros ks b' [_ ?]%lookup_delete_Some. by apply Hm.
  - by apply sorted_filter.
  - intros k'. rewrite list_elem_of_filter, Hi. split.
    + intros (Hne & b' & Hb' & Hk'). exists b'. split; [|done]. rewrite lookup_delete_ne; [done|].
      intros E. rewrite <-E in Hb'. apply Hne. rewrite Hb in Hb'. injection Hb' as ->.
      destruct (Hm _ _ Hb) as [He Hnb]. rewrite <-Hk'. symmetry. apply key_string_inj; auto.
    + intros (b' & [Hne ?]%lookup_delete_Some & Hk'). split; [congruence|eauto].
  - intros u. unfold removeUserIndex. cbv zeta. rewrite byUser_default by done.
    pose proof (user_remove (bk_user k) k (filter (λ k', bk_user k' = bk_user k) (mb_index s)) eq_refl
                  (filter_user_all _ _)) as Hrem. cbv zeta in Hrem.
    rewrite index_remove_filter in Hrem by (apply _ || by apply sorted_filter).
    set (keys := filter (λ k', bk_user k' = bk_user k) (mb_index s)) in *.
    set (i := search_list _ keys) in *.
    assert (Hcomm : filter (λ k', bk_user k' = u) (filter (λ y, y ≠ k) (mb_index s)) =
      if decide (bk_user k = u) then filter (λ y, y ≠ k) keys else filter (λ k', bk_user k' = u) (mb_index s)).
    { destruct (decide (bk_user k = u)) as [Eu|Eu].
      - subst u. unfold keys. rewrite !list_filter_filter. apply list_filter_iff. naive_solver.
      - rewrite list_filter_filter. apply list_filter_iff. intros x. split; [naive_solver|].
        intros Hx. assert (x ≠ k) by (intros ->; done). naive_solver. }
    rewrite Hcomm. case_bool_decide as Hl; simpl.
    + destruct (length (take i keys ++ drop (S i) keys) =? 0) eqn:E.
      * apply Nat.eqb_eq, nil_length_inv in E. rewrite E in Hrem. destruct (decide (bk_user k = u)) as [Eu|Eu].
        -- subst u. by rewrite lookup_delete_eq, <-Hrem.
        -- by rewrite lookup_delete_ne, Hu.
      * rewrite Hrem in *. destruct (decide (bk_user k = u)) as [Eu|Eu].
        -- subst u. rewrite lookup_insert_eq. by destruct (filter (λ y, y ≠ k) keys).
        -- by rewrite lookup_insert_ne, Hu.
    + exfalso. assert (Hin : k ∈ keys).
      { apply list_elem_of_filter. split; [done|]. apply Hi. exists b. split; [done|].
        destruct (Hm _ _ Hb) as [He Hnb]. symmetry. apply key_string_inj; auto. }
      rewrite Hrem in Hin. apply list_elem_of_filter in Hin as [Hne _]. by apply Hne.
Qed.

(** A key without a separator in its account finds a row of that very key. *)
Lemma stored_named s k b :
  bindings_wf s → lacks "|" (bk_user k) = true → mb_m s !! key_string k = Some b → bkey b = k ∧ named k.
Proof.
  intros (Hm & _) Hk Hb. destruct (Hm _ _ Hb) as [He Hn]. apply eq_sym in He.
  apply key_string_inj in He; [|done..]. by subst.
Qed.

(** The methods that write, as one transition relation, for bindings whose names
    carry no separator. *)
Inductive bindings_step : MemoryBindingStore → MemoryBindingStore → Prop :=
| step_BPut b s : named (bkey b) → bindings_step s (Bindings_Put b s).1
| step_BPutIfVersion b v s : named (bkey b) → bindings_step s (Bindings_PutIfVersion b v s).1
| step_BCreate b s : named (bkey b) → bindings_step s (Bindings_Create b s).1
| step_BDelete u g n s : lacks "|" u = true → bindings_step s (Bindings_Delete u g n s).1.

Lemma bindings_step_wf s s' : bindings_wf s → bindings_step s s' → bindings_wf s'.
Proof.
  intros Hwf Hst. destruct Hst as [b s Hn|b v s Hn|b s Hn|u g n s Hn].
  - unfold Bindings_Put. change (bindingKey _ _ _) with (key_string (bkey b)).
    destruct (mb_m s !! key_string (bkey b)) eqn:E; [by eapply wf_update|by apply wf_insert].
  - unfold Bindings_PutIfVersion. change (bindingKey _ _ _) with (key_string (bkey b)).
    destruct (mb_m s !! key_string (bkey b)) eqn:E; [|done]. case_match; [done|]. by eapply wf_update.
  - unfold Bindings_Create. change (bindingKey _ _ _) with (key_string (bkey b)).
    destruct (mb_m s !! key_string (bkey b)) eqn:E; [done|by apply wf_insert].
  - unfold Bindings_Delete. change (bindingKey u g n) with (key_string (mkBKey u g n)).
    destruct (mb_m s !! key_string (mkBKey u g n)) eqn:E; [|done].
    destruct (stored_named s (mkBKey u g n) _ Hwf Hn E). by eapply wf_delete.
Qed.

Lemma bindings_wf_empty : bindings_wf NewMemoryBindingStore.
Proof.
  split_and!; [done|constructor| |done].
  intros k. split; [by intros ?%elem_of_nil|]. by intros (b & ? & _).
Qed.

Lemma bindings_reach_wf s : rtc bindings_step NewMemoryBindingStore s → bindings_wf s.
Proof.
  intros Hr. pose proof bindings_wf_empty as Hwf. induction Hr as [|x y z Hst _ IH]; [done|].
  apply IH. by eapply bindings_step_wf.
Qed.

(** The rows, in the order of the index. *)
Definition binding_rows (s : MemoryBindingStore) : list Binding := binding_at s <$> mb_index s.

Lemma binding_at_key s k : bindings_wf s → k ∈ mb_index s → bkey (binding_at s k) = k.
Proof.
  intros (_ & _ & Hi & _) (b & Hb & Hk)%Hi. unfold binding_at. fold (key_string k). by rewrite Hb.
Qed.

Lemma elem_of_binding_rows s b :
  bindings_wf s → b ∈ binding_rows s ↔ mb_m s !! key_string (bkey b) = Some b.
Proof.
  intros Hwf. pose proof Hwf as (_ & _ & Hi & _). unfold binding_rows. rewrite list_elem_of_fmap. split.
  - intros (k & -> & Hk). rewrite binding_at_key by done. apply Hi in Hk as (b & Hb & _).
    unfold binding_at. fold (key_string k). by rewrite Hb.
  - intros Hb. exists (bkey b). split; [|apply Hi; eauto]. unfold binding_at.
    fold (key_string (bkey b)). by rewrite Hb.
Qed.

Lemma filter_binding_rows (P : bindingIndexKey → Prop) `{∀ k, Decision (P k)}
    `{∀ b, Decision (P (bkey b))} s :
  bindings_wf s → binding_at s <$> filter P (mb_index s) = filter (λ b, P (bkey b)) (binding_rows s).
Proof.
  intros Hwf. assert (Hk : ∀ k, k ∈ mb_index s → bkey (binding_at s k) = k)
    by (intros k; by apply binding_at_key).
  unfold binding_rows. revert Hk. generalize (mb_index s) as l.
  induction l as [|k l IH]; intros Hk; [done|]. csimpl. rewrite !filter_cons.
  assert (Hkk : bkey (binding_at s k) = k) by (apply Hk; by left).
  assert (Hl : binding_at s <$> filter P l = filter (λ b, P (bkey b)) (binding_at s <$> l))
    by (apply IH; intros k' ?; apply Hk; by right).
  destruct (decide (P k)) as [HP|HP].
  - rewrite decide_True by (by rewrite Hkk). csimpl. by rewrite Hl.
  - rewrite decide_False by (by rewrite Hkk). done.
Qed.

Lemma binding_rows_sorted s :
  bindings_wf s → StronglySorted (λ a b, bindingIndexLess (bkey a) (bkey b) = true) (binding_rows s).
Proof.
  intros Hwf. pose proof Hwf as (_ & Hs & _). unfold binding_rows.
  assert (Hk : ∀ k, k ∈ mb_index s → bkey (binding_at s k) = k) by (intros; by apply binding_at_key).
  revert Hk. induction Hs as [|k l Hs IH Hall]; intros Hk; csimpl; [constructor|]. constructor.
  - apply IH. intros k' ?. apply Hk. by right.
  - rewrite Forall_fmap. rewrite Forall_forall in *. intros k' Hk'. simpl. rewrite !Hk; [by apply Hall|..].
    + by right.
    + by left.
Qed.

Lemma ListAllPage_spec u g n limit s :
  bindings_wf s →
  Bindings_ListAllPage u g n limit s =
    Ok (take (Z.to_nat (Z.max 1 limit))
          (filter (λ b, bindingIndexAfter (bkey b) u g n = true) (binding_rows s))).
Proof.
  intros Hwf. pose proof Hwf as (_ & Hs & _). unfold Bindings_ListAllPage. cbv zeta. f_equal.
  set (limit' := if (limit <=? 0)%Z then 1%Z else limit).
  assert (Hlim : limit' = Z.max 1 limit) by (unfold limit'; destruct (Z.leb_spec limit 0); lia).
  set (pos := search_list _ _).
  assert (Hdrop : drop pos (mb_index s) = filter (λ k, bindingIndexAfter k u g n = true) (mb_index s)).
  { destruct (decide (mkBKey u g n = mkBKey EmptyString EmptyString EmptyString)) as [E|E].
    - injection E as -> -> ->. unfold pos.
      destruct (search_list_split (λ k, bindingIndexAfter k EmptyString EmptyString EmptyString) (mb_index s))
        as [_ ->]; done.
    - unfold pos. rewrite (search_list_ext _ (bindingIndexLess (mkBKey u g n))).
      + rewrite index_after by (done || apply _). apply list_filter_iff. intros k.
        by rewrite <-(bindingIndexAfter_spec k _ E).
      + intros k _. by apply (bindingIndexAfter_spec k _ E). }
  rewrite Hdrop, <-(filter_binding_rows (λ k, bindingIndexAfter k u g n = true)) by done.
  rewrite <-fmap_take. f_equal. rewrite <-Hdrop, <-Hlim.
  destruct (Z.ltb_spec (Z.of_nat (length (mb_index s))) (Z.of_nat pos + limit')).
  - rewrite !take_ge; [done|..]; rewrite length_drop; lia.
  - f_equal. lia.
Qed.

(** What a binding store lists. Whatever sequence of writes led here, the
    listing holds every row [Get] finds, each once, in the order of account,
    game and source; an account's listing is its part of it; and a page is the
    rows after the cursor up to the limit. *)
Theorem bindings_listed s :
  rtc bindings_step NewMemoryBindingStore s →
  ∃ rows, Bindings_ListAll s = Ok rows ∧
    StronglySorted (λ a b, bindingIndexLess (bkey a) (bkey b) = true) rows ∧
    (∀ b, b ∈ rows ↔ Bindings_Get (b_User b) (b_Game b) (b_Source b) s = Ok b) ∧
    (∀ u, Bindings_List u s = Ok (filter (λ b, b_User b = u) rows)) ∧
    (∀ u g n limit, Bindings_ListAllPage u g n limit s =
       Ok (take (Z.to_nat (Z.max 1 limit))
             (filter (λ b, bindingIndexAfter (bkey b) u g n = true) rows))).
Proof.
  intros Hwf%bindings_reach_wf. exists (binding_rows s). split_and!; [done|..].
  - by apply binding_rows_sorted.
  - intros b. rewrite elem_of_binding_rows by done. unfold Bindings_Get.
    fold (key_string (bkey b)). change (bindingKey _ _ _) with (key_string (bkey b)).
    destruct (mb_m s !! key_string (bkey b)); [|done]. split; [by intros [= ->]|by intros [= ->]].
  - intros u. unfold Bindings_List. rewrite byUser_default by done.
    by rewrite (filter_binding_rows (λ k, bk_user k = u)).
  - intros. by apply ListAllPage_spec.
Qed.

(** ** The store meets its contract *)

Lemma mem_row_Some s k b :
  bindings_wf s → mem_row s k = Some b ↔ mb_m s !! key_string k = Some b ∧ bkey b = k.
Proof.
  intros _. unfold mem_row. destruct (mb_m s !! key_string k) as [b'|]; simpl; [|naive_solver].
  case_decide; naive_solver.
Qed.

Lemma mem_row_write s s' k o :
  bindings_wf s → bindings_wf s' → named k → (∀ b, o = Some b → bkey b = k) →
  mb_m s' = partial_alter (λ _, o) (key_string k) (mb_m s) →
  mem_row s' k = o ∧ ∀ k', k' ≠ k → mem_row s' k' = mem_row s k'.
Proof.
  intros Hwf Hwf' Hn Ho Hm'. split.
  - rewrite mem_row_named, Hm', lookup_partial_alter_eq by auto. done.
  - intros k' Hne. unfold mem_row. rewrite Hm'.
    destruct (decide (key_string k' = key_string k)) as [E|E].
    + rewrite E, lookup_partial_alter_eq.
      assert (Hold : ∀ b, mb_m s !! key_string k = Some b → bkey b = k).
      { intros b Hb. destruct Hwf as (Hm & _). destruct (Hm _ _ Hb). symmetry. apply key_string_inj; auto. }
      transitivity (@None Binding).
      * destruct o as [b|]; [|done]. simpl. rewrite decide_False; [done|]. by rewrite (Ho b).
      * destruct (mb_m s !! key_string k) as [b|]; [|done]. simpl. rewrite decide_False; [done|].
        by rewrite (Hold b).
    + by rewrite lookup_partial_alter_ne.
Qed.

Lemma sorted_keys_NoDup (l : list Binding) :
  StronglySorted (λ a b, bindingIndexLess (bkey a) (bkey b) = true) l → NoDup (bkey <$> l).
Proof.
  induction 1 as [|x l _ IH Hall]; csimpl; constructor; [|done].
  intros (y & E & Hy)%list_elem_of_fmap. rewrite Forall_forall in Hall. specialize (Hall _ Hy).
  simpl in Hall. by rewrite E, less_irrefl in Hall.
Qed.

Lemma binding_rows_NoDup s : bindings_wf s → NoDup (bkey <$> binding_rows s).
Proof. intros. by apply sorted_keys_NoDup, binding_rows_sorted. Qed.

#[export] Instance memory_bindings_ok : BindingStoreOk MemoryBindingStore.
Proof.
  refine {| bs_inv := bindings_wf; bs_row := mem_row |}.
  - intros s k x Hwf [Hx <-]%mem_row_Some; [|done]. split; [done|]. by apply Hwf in Hx as [_ ?].
  - intros u g n s Hwf Hn. simpl. unfold Bindings_Get. rewrite mem_row_named by auto.
    change (bindingKey u g n) with (key_string (mkBKey u g n)). by destruct (mb_m s !! _).
  - intros x s Hwf Hn. pose proof (bindings_step_wf _ _ Hwf (step_BPut x s Hn)) as Hwf'.
    destruct (mem_row_write s (Bindings_Put x s).1 (bkey x) (Some x)) as [H1 H2];
      [done|done|done|by intros b [= ->]|unfold Bindings_Put; by destruct (mb_m s !! _)|].
    cbn [bs_Put memory_bindings]. destruct (Bindings_Put x s) as [s' r] eqn:E.
    unfold Bindings_Put in E. destruct (mb_m s !! _); injection E as <- <-; done.
  - intros x v s Hwf Hn. pose proof (bindings_step_wf _ _ Hwf (step_BPutIfVersion x v s Hn)) as Hwf'.
    cbn [bs_PutIfVersion memory_bindings]. rewrite mem_row_named by auto.
    unfold Bindings_PutIfVersion in *. change (bindingKey _ _ _) with (key_string (bkey x)) in *.
    destruct (mb_m s !! key_string (bkey x)) as [y|] eqn:E; [|done]. simpl.
    destruct (Z.eqb_spec (b_Version y) v) as [Ev|Ev]; simpl in *; [|split; [congruence|done]].
    split; [by rewrite Ev|]. split; [done|]. apply mem_row_write; [done..| |done]. by intros b [= ->].
  - intros x s Hwf Hn. pose proof (bindings_step_wf _ _ Hwf (step_BCreate x s Hn)) as Hwf'.
    cbn [bs_Create memory_bindings]. rewrite mem_row_named by auto.
    unfold Bindings_Create in *. change (bindingKey _ _ _) with (key_string (bkey x)) in *.
    destruct (mb_m s !! key_string (bkey x)) as [y|] eqn:E; [by split; [eexists|]|]. simpl in *.
    split; [done|]. split; [done|]. apply mem_row_write; [done..| |done]. by intros b [= ->].
  - intros u g n s Hwf Hn. pose proof (bindings_step_wf _ _ Hwf (step_BDelete u g n s Hn)) as Hwf'.
    cbn [bs_Delete memory_bindings].
    unfold Bindings_Delete in *. change (bindingKey _ _ _) with (key_string (mkBKey u g n)) in *.
    destruct (mb_m s !! key_string (mkBKey u g n)) as [y|] eqn:E; simpl in *.
    + destruct (stored_named s (mkBKey u g n) _ Hwf Hn E). split; [done|]. by apply mem_row_write.
    + split; [done|]. by rewrite mem_row_named, E by done.
  - intros u s l Hwf. simpl. unfold Bindings_List. rewrite byUser_default by done.
    rewrite (filter_binding_rows (λ k, bk_user k = u)) by done. intros [= <-]. split.
    + by apply sorted_keys_NoDup, sorted_filter, binding_rows_sorted.
    + intros x. rewrite list_elem_of_filter, elem_of_binding_rows, mem_row_Some by done. naive_solver.
  - intros s l Hwf [= <-]. split; [by apply binding_rows_NoDup|]. intros x.
    fold (binding_rows s). rewrite elem_of_binding_rows, mem_row_Some by done. naive_solver.
  - intros pager u g n limit s l Hwf [= <-] Hl. cbn beta. rewrite ListAllPage_spec by done. intros [= <-].
    eexists. split; [|split; [|by rewrite Z.max_r by lia]].
    + by apply sorted_filter, binding_rows_sorted.
    + intros x. rewrite list_elem_of_filter, elem_of_binding_rows, mem_row_Some by done. naive_solver.
Defined.

(** ** Keys and vault identities *)

(** The vault identity of a key; [BindingIdentity b] is that of [bkey b]. *)
Definition ident (k : bindingIndexKey) : Identity :=
  mkIdentity (bk_user k) (bk_game k +:+ "." +:+ bk_source k).

(** The key of a source a registry can hold, for an account. *)
Definition sourced (k : bindingIndexKey) : Prop :=
  lacks "|" (bk_user k) = true ∧ name_ok (bk_game k) = true ∧ name_ok (bk_source k) = true.

Lemma sourced_named k : sourced k → named k.
Proof. destruct k. intros (? & ? & ?). by apply named_ok. Qed.

Lemma ident_inj k k' : sourced k → ident k = ident k' → k = k'.
Proof.
  destruct k as [u g n], k' as [u' g' n']. intros (_ & Hg & Hn) [= -> Heq]. simpl in *.
  apply (str_sep_once "."%char) in Heq as [-> ->]; [done|by apply name_ok_lacks..].
Qed.
