(* ===== verification/FedLimits.v ===== *)
(** * The limits of the data plane ([internal/federation/binding_cooldown.go],
    [internal/federation/service.go])

    The per-binding cooldown with its bounded, least-recently-used table, and
    the byte budget that admits upstream bodies. *)

From S2P Require Import Prelude GoStd.

(** ** The cooldown *)

Definition bindingCooldownThreshold : Z := 5.
Definition bindingCooldownWindow : Z := 30 * time_Second.
Definition maxCooledBindings : Z := 4096.

(** [coolingBinding]; its list element is its key in [cd_lru]. *)
Record coolingBinding := mkCooling {
  co_failures : Z;
  co_until : Z;
}.

(** [bindingCooldown]: the front of [cd_lru] is the most recent key. *)
Record bindingCooldown := mkCooldown {
  cd_limit : Z;
  cd_threshold : Z;
  cd_window : Z;
  cd_entries : gmap string coolingBinding;
  cd_lru : list string;
}.

(** [newBindingCooldown]. *)
Definition newBindingCooldown (limit threshold window : Z) : bindingCooldown :=
  mkCooldown (if (limit <=? 0)%Z then maxCooledBindings else limit)
    (if (threshold <=? 0)%Z then bindingCooldownThreshold else threshold)
    (if (window <=? 0)%Z then bindingCooldownWindow else window) ∅ [].

Definition cd_set (entries : gmap string coolingBinding) (lru : list string) (c : bindingCooldown)
    : bindingCooldown :=
  mkCooldown (cd_limit c) (cd_threshold c) (cd_window c) entries lru.

(** [list.MoveToFront] and [list.Remove] of the element of a key. *)
Definition lru_remove (key : string) (l : list string) : list string := filter (λ k, k ≠ key) l.
Definition lru_front (key : string) (l : list string) : list string := key :: lru_remove key l.

(** [removeLocked]. *)
Definition removeLocked (key : string) (c : bindingCooldown) : bindingCooldown :=
  cd_set (delete key (cd_entries c)) (lru_remove key (cd_lru c)) c.

(** [bindingCooldown.cooling]. *)
Definition cooling (now : Z) (key : string) (c : bindingCooldown) : bindingCooldown * bool :=
  match cd_entries c !! key with
  | None => (c, false)
  | Some e =>
      if time_IsZero (co_until e) then (cd_set (cd_entries c) (lru_front key (cd_lru c)) c, false)
      else if negb (time_Before now (co_until e)) then (removeLocked key c, false)
      else (cd_set (cd_entries c) (lru_front key (cd_lru c)) c, true)
  end.

(** The entry [reject] counts on: a new one at the front, evicting the back when
    the table is over its limit, or the one there is, moved to the front. *)
Definition reject_entry (key : string) (c : bindingCooldown) : bindingCooldown * coolingBinding :=
  match cd_entries c !! key with
  | None =>
      let e := mkCooling 0 0 in
      let c := cd_set (<[key := e]> (cd_entries c)) (key :: cd_lru c) c in
      (if (cd_limit c <? Z.of_nat (size (cd_entries c)))%Z
       then match last (cd_lru c) with Some back => removeLocked back c | None => c end
       else c, e)
  | Some e => (cd_set (cd_entries c) (lru_front key (cd_lru c)) c, e)
  end.

(** [bindingCooldown.reject]: [e] is a pointer, so an entry that was evicted at
    once is written to but no longer in the table. *)
Definition reject (now : Z) (key : string) (c : bindingCooldown) : bindingCooldown * bool :=
  let '(c, e) := reject_entry key c in
  let failures := (co_failures e + 1)%Z in
  let '(e, hot) := if (failures <? cd_threshold c)%Z then (mkCooling failures (co_until e), false)
                   else (mkCooling failures (now + cd_window c), true) in
  (match cd_entries c !! key with
   | Some _ => cd_set (<[key := e]> (cd_entries c)) (cd_lru c) c
   | None => c
   end, hot).

(** [bindingCooldown.reset]. *)
Definition reset (key : string) (c : bindingCooldown) : bindingCooldown :=
  match cd_entries c !! key with Some _ => removeLocked key c | None => c end.

(** ** The byte budget *)

Definition maxBody : Z := 4194304.
Definition defaultMaxBufferedBytes : Z := 67108864.
Definition ErrBufferBudget : error :=
  New "federation: the upstream response buffer budget is exhausted".

(** [bufferBudget]. *)
Record bufferBudget := mkBudget {
  bb_limit : Z;
  bb_share : Z;
  bb_held : Z;
  bb_perKey : gmap string Z;
}.

(** [bufferShare]; [/] truncates. *)
Definition bufferShare (limit : Z) : Z :=
  let share := Z.quot limit 4 in
  let floor := (2 * maxBody)%Z in
  if (share <? floor)%Z then floor else share.

Definition newBufferBudget (limit : Z) : bufferBudget := mkBudget limit (bufferShare limit) 0 ∅.

Definition bb_of (key : string) (b : bufferBudget) : Z := default 0%Z (bb_perKey b !! key).

(** [bufferBudget.acquire], on the wrapping sums of Go. *)
Definition acquire (key : string) (n : Z) (b : bufferBudget) : bufferBudget * bool :=
  if (bb_limit b <? wrap64 (bb_held b + n))%Z then (b, false) else
  if (bb_share b <? wrap64 (bb_of key b + n))%Z then (b, false) else
  (mkBudget (bb_limit b) (bb_share b) (wrap64 (bb_held b + n))
     (<[key := wrap64 (bb_of key b + n)]> (bb_perKey b)), true).

(** [bufferBudget.release]. *)
Definition release (key : string) (n : Z) (b : bufferBudget) : bufferBudget :=
  let held := wrap64 (bb_held b - n) in
  let left := wrap64 (bb_of key b - n) in
  mkBudget (bb_limit b) (bb_share b) (if (held <? 0)%Z then 0%Z else held)
    (if (left <=? 0)%Z then delete key (bb_perKey b) else <[key := left]> (bb_perKey b)).

(** [reserveFor] for a declared [ContentLength]. *)
Definition reserveFor (contentLength readCap : Z) : Z :=
  if (0 <? contentLength)%Z && (contentLength <? readCap)%Z then (contentLength + 1)%Z else readCap.

(** ** Properties of the cooldown *)

(** The table and the order list hold the same keys, at most [cd_limit] of
    them. *)
Definition cooldown_wf (c : bindingCooldown) : Prop :=
  (0 < cd_limit c)%Z ∧ NoDup (cd_lru c) ∧ (∀ k, k ∈ cd_lru c ↔ is_Some (cd_entries c !! k)) ∧
  (Z.of_nat (size (cd_entries c)) ≤ cd_limit c)%Z.

Inductive cooldown_op :=
| OpCooling (now : Z) (key : string)
| OpReject (now : Z) (key : string)
| OpReset (key : string).

Definition op_key (o : cooldown_op) : string :=
  match o with OpCooling _ k | OpReject _ k | OpReset k => k end.

Definition cooldown_apply (c : bindingCooldown) (o : cooldown_op) : bindingCooldown :=
  match o with
  | OpCooling now k => (cooling now k c).1
  | OpReject now k => (reject now k c).1
  | OpReset k => reset k c
  end.

(** What one binding's counter should be, from the operations on that binding
    alone: rejections in a row, and the end of the window once there are
    enough. *)
Definition counter_step (threshold window : Z) (k : string) (o : cooldown_op)
    (e : option coolingBinding) : option coolingBinding :=
  if negb (bool_decide (op_key o = k)) then e else
  match o with
  | OpReset _ => None
  | OpCooling now _ =>
      e ← e; if (co_until e =? 0)%Z || (now <? co_until e)%Z then Some e else None
  | OpReject now _ =>
      let f := (from_option co_failures 0 e + 1)%Z in
      Some (mkCooling f (if (f <? threshold)%Z then from_option co_until 0%Z e else now + window)%Z)
  end.
Definition counter (threshold window : Z) (k : string) (ops : list cooldown_op) : option coolingBinding :=
  foldl (λ e o, counter_step threshold window k o e) None ops.

Lemma size_lru c : cooldown_wf c → size (cd_entries c) = length (cd_lru c).
Proof.
  intros (_ & Hnd & Hk & _). rewrite <-(size_dom (D:=gset string)), <-(size_list_to_set (C:=gset string)) by done.
  f_equal. apply set_eq. intros k. by rewrite elem_of_dom, elem_of_list_to_set, Hk.
Qed.

Lemma lru_remove_NoDup key l : NoDup l → NoDup (lru_remove key l).
Proof. apply NoDup_filter. Qed.
Lemma elem_of_lru_remove key l k : k ∈ lru_remove key l ↔ k ≠ key ∧ k ∈ l.
Proof. unfold lru_remove. by rewrite list_elem_of_filter. Qed.
Lemma lru_front_NoDup key l : NoDup l → NoDup (lru_front key l).
Proof.
  intros Hl. constructor; [|by apply lru_remove_NoDup]. by rewrite elem_of_lru_remove; intros [? _].
Qed.
Lemma elem_of_lru_front key l k : key ∈ l → k ∈ lru_front key l ↔ k ∈ l.
Proof.
  intros Hk. unfold lru_front. rewrite elem_of_cons, elem_of_lru_remove.
  destruct (decide (k = key)); naive_solver.
Qed.

Lemma wf_removeLocked key c : cooldown_wf c → cooldown_wf (removeLocked key c).
Proof.
  intros (Hl & Hnd & Hk & Hs). split_and!; simpl; [done|by apply lru_remove_NoDup|..].
  - intros k. rewrite elem_of_lru_remove, Hk, lookup_delete_is_Some. naive_solver.
  - pose proof (map_size_delete key (cd_entries c)) as E. rewrite E. destruct (cd_entries c !! key); simpl; lia.
Qed.

Lemma wf_front key c e :
  cooldown_wf c → cd_entries c !! key = Some e →
  cooldown_wf (cd_set (cd_entries c) (lru_front key (cd_lru c)) c).
Proof.
  intros (Hl & Hnd & Hk & Hs) He. split_and!; simpl; [done|by apply lru_front_NoDup| |done].
  intros k. rewrite elem_of_lru_front; [done|]. apply Hk. by eexists.
Qed.

Lemma cooling_spec now key c c' hot :
  cooldown_wf c → cooling now key c = (c', hot) →
  cooldown_wf c' ∧ cd_limit c' = cd_limit c ∧ cd_threshold c' = cd_threshold c ∧ cd_window c' = cd_window c ∧
  ∀ k, cd_entries c' !! k =
    counter_step (cd_threshold c) (cd_window c) k (OpCooling now key) (cd_entries c !! k).
Proof.
  intros Hwf. unfold cooling, counter_step. cbn [op_key].
  destruct (cd_entries c !! key) as [e|] eqn:E.
  - unfold time_IsZero, time_Before. destruct (Z.eqb_spec (co_until e) 0) as [Eu|Eu].
    + intros [= <- _]. split_and!; [by eapply wf_front|done..|]. intros k. simpl.
      case_bool_decide; [|done]. subst k. rewrite E. simpl. by rewrite Eu.
    + destruct (now <? co_until e)%Z eqn:En; simpl; intros [= <- _].
      * split_and!; [by eapply wf_front|done..|]. intros k. simpl. case_bool_decide; [|done].
        subst k. rewrite E. simpl. rewrite En. by rewrite orb_true_r.
      * split_and!; [by apply wf_removeLocked|done..|]. intros k. simpl. case_bool_decide; simpl.
        -- subst k. rewrite lookup_delete_eq, E. simpl. rewrite En. by apply Z.eqb_neq in Eu as ->.
        -- by rewrite lookup_delete_ne.
  - intros [= <- _]. split_and!; [done..|]. intros k. case_bool_decide; [|done]. subst k. by rewrite E.
Qed.

Lemma reset_spec key c :
  cooldown_wf c →
  cooldown_wf (reset key c) ∧ cd_limit (reset key c) = cd_limit c ∧
  cd_threshold (reset key c) = cd_threshold c ∧ cd_window (reset key c) = cd_window c ∧
  ∀ k, cd_entries (reset key c) !! k =
    counter_step (cd_threshold c) (cd_window c) k (OpReset key) (cd_entries c !! k).
Proof.
  intros Hwf. unfold reset, counter_step. cbn [op_key]. destruct (cd_entries c !! key) as [e|] eqn:E.
  - split_and!; [by apply wf_removeLocked|done..|]. intros k. simpl. case_bool_decide; simpl.
    + subst k. by rewrite lookup_delete_eq.
    + by rewrite lookup_delete_ne.
  - split_and!; [done..|]. intros k. case_bool_decide; [|done]. by subst k.
Qed.

(** A rejection counts on its own key; it may evict one other, and does not
    while there is room. *)
Lemma reject_entry_spec key c c' e :
  cooldown_wf c → reject_entry key c = (c', e) →
  e = default (mkCooling 0 0) (cd_entries c !! key) ∧
  cooldown_wf c' ∧ cd_limit c' = cd_limit c ∧ cd_threshold c' = cd_threshold c ∧ cd_window c' = cd_window c ∧
  is_Some (cd_entries c' !! key) ∧
  ∃ ev : option string, ev ≠ Some key ∧
    (∀ k, k ≠ key → cd_entries c' !! k = if decide (ev = Some k) then None else cd_entries c !! k) ∧
    ((Z.of_nat (size (<[key := e]> (cd_entries c))) ≤ cd_limit c)%Z → ev = None).
Proof.
  intros Hwf. pose proof Hwf as (Hl & Hnd & Hk & Hs). unfold reject_entry.
  destruct (cd_entries c !! key) as [e0|] eqn:E.
  { intros [= <- <-]. split_and!; [done|by eapply wf_front|done..|simpl; by rewrite E|].
    exists None. split_and!; [done| |done]. intros k _. by case_decide. }
  set (c1 := cd_set _ _ c).
  assert (Hkn : key ∉ cd_lru c) by (rewrite Hk, E; by intros []).
  assert (Hnd1 : NoDup (cd_lru c1)) by (simpl; by constructor).
  assert (Hk1 : ∀ k, k ∈ cd_lru c1 ↔ is_Some (cd_entries c1 !! k)).
  { intros k. simpl. rewrite elem_of_cons, Hk, lookup_insert_is_Some'. naive_solver. }
  assert (Hsz : size (cd_entries c1) = S (size (cd_entries c))) by (simpl; by apply map_size_insert_None).
  destruct (Z.ltb_spec (cd_limit c1) (Z.of_nat (size (cd_entries c1)))) as [Hov|Hov].
  - destruct (last (cd_lru c1)) as [back|] eqn:Eb; [|by apply last_None in Eb].
    intros Heq. injection Heq as <- <-. split; [done|].
    assert (Hback : back ∈ cd_lru c).
    { simpl in Eb. pose proof (size_lru c Hwf) as Hsl. destruct (cd_lru c) as [|x l] eqn:El.
      - simpl in Hsl. rewrite Hsz in Hov. simpl in Hov. lia.
      - rewrite last_cons in Eb. apply last_Some_elem_of. destruct (last (x :: l)) eqn:El'; [done|].
        by apply last_None in El'. }
    assert (Hne : back ≠ key) by (intros ->; done).
    assert (Hin1 : cd_entries c1 !! back = cd_entries c !! back) by (simpl; by rewrite lookup_insert_ne).
    split_and!; [|done..| |].
    + split_and!; simpl; [done|apply lru_remove_NoDup, Hnd1|..].
      * intros k. rewrite elem_of_lru_remove. change (key :: cd_lru c) with (cd_lru c1).
        rewrite Hk1, lookup_delete_is_Some. naive_solver.
      * rewrite map_size_delete. change (<[key := mkCooling 0 0]> (cd_entries c)) with (cd_entries c1).
        rewrite Hin1, Hsz. apply Hk in Hback as [x Hx]. rewrite Hx. simpl. lia.
    + simpl. rewrite lookup_delete_ne by done. by rewrite lookup_insert_eq.
    + exists (Some back). split_and!; [congruence| |].
      * intros k Hkk. simpl. case_decide as Ek; [injection Ek as ->; by rewrite lookup_delete_eq|].
        rewrite lookup_delete_ne, lookup_insert_ne by congruence. done.
      * intros Hle. change (<[key := mkCooling 0 0]> (cd_entries c)) with (cd_entries c1) in Hle.
        simpl in Hov, Hle. lia.
  - intros Heq. injection Heq as <- <-. split; [done|]. split_and!; [|done..| |].
    + split_and!; [done|done|done|]. simpl in *. lia.
    + simpl. by rewrite lookup_insert_eq.
    + exists None. split_and!; [done| |done]. intros k Hkk. simpl. by rewrite lookup_insert_ne.
Qed.

Lemma wf_overwrite c key e e' :
  cooldown_wf c → cd_entries c !! key = Some e → cooldown_wf (cd_set (<[key := e']> (cd_entries c)) (cd_lru c) c).
Proof.
  intros (Hl & Hnd & Hk & Hs) He. split_and!; simpl; [done..| |].
  - intros k. rewrite Hk, lookup_insert_is_Some'. split; [by right|]. intros [<-|?]; [by eexists|done].
  - rewrite map_size_insert_Some; [done|by eexists].
Qed.

Lemma reject_spec now key c c' hot :
  cooldown_wf c → reject now key c = (c', hot) →
  cooldown_wf c' ∧ cd_limit c' = cd_limit c ∧ cd_threshold c' = cd_threshold c ∧ cd_window c' = cd_window c ∧
  hot = (cd_threshold c <=? from_option co_failures 0 (cd_entries c !! key) + 1)%Z ∧
  ∃ ev : option string, ev ≠ Some key ∧
    (∀ k, cd_entries c' !! k = if decide (ev = Some k) then None
       else counter_step (cd_threshold c) (cd_window c) k (OpReject now key) (cd_entries c !! k)) ∧
    ((Z.of_nat (size ({[ key ]} ∪ dom (cd_entries c) : gset string)) ≤ cd_limit c)%Z → ev = None).
Proof.
  intros Hwf. unfold reject. destruct (reject_entry key c) as [c1 e] eqn:E1.
  apply reject_entry_spec in E1 as (-> & Hwf1 & Hl1 & Ht1 & Hw1 & [e1 He1] & ev & Hev & Hk & Hroom); [|done].
  set (e := default _ _) in *. rewrite Ht1, Hw1.
  assert (Hf : (co_failures e + 1 = from_option co_failures 0 (cd_entries c !! key) + 1)%Z)
    by (unfold e; by destruct (cd_entries c !! key)).
  assert (Hu : co_until e = from_option co_until 0%Z (cd_entries c !! key))
    by (unfold e; by destruct (cd_entries c !! key)).
  set (e' := mkCooling (co_failures e + 1)
    (if (co_failures e + 1 <? cd_threshold c)%Z then co_until e else now + cd_window c)%Z).
  set (hot' := (cd_threshold c <=? co_failures e + 1)%Z).
  replace (if (co_failures e + 1 <? cd_threshold c)%Z then _ else _) with (e', hot').
  2: { unfold e', hot'. rewrite Z.ltb_antisym. by destruct (cd_threshold c <=? co_failures e + 1)%Z. }
  rewrite He1. intros [= <- <-]. split_and!; [by eapply wf_overwrite|done..|by unfold hot'; rewrite Hf|].
  exists ev. split_and!; [done| |].
  - intros k. simpl. unfold counter_step. cbn [op_key]. case_bool_decide as Ek; simpl.
    + subst k. rewrite lookup_insert_eq, decide_False by done. unfold e'. by rewrite Hf, Hu.
    + rewrite lookup_insert_ne by done. rewrite Hk by done. done.
  - intros Hs. apply Hroom. rewrite <-(size_dom (D:=gset string)), dom_insert_L. done.
Qed.

Lemma counter_snoc threshold window k ops o :
  counter threshold window k (ops ++ [o]) =
    counter_step threshold window k o (counter threshold window k ops).
Proof. unfold counter. by rewrite foldl_app. Qed.

Section cooldown.
Context (limit threshold window : Z).
Local Abbreviation c0 := (newBindingCooldown limit threshold window).
Local Abbreviation T := (cd_threshold c0).
Local Abbreviation Wd := (cd_window c0).
Local Abbreviation after ops := (foldl cooldown_apply c0 ops).
Local Abbreviation keys ops := (list_to_set (op_key <$> ops) : gset string).

(** A present entry is what its own key's operations made it since some point;
    while the keys fit the table, since the beginning. *)
Definition cooldown_inv (ops : list cooldown_op) (c : bindingCooldown) : Prop :=
  cooldown_wf c ∧ cd_limit c = cd_limit c0 ∧ cd_threshold c = T ∧ cd_window c = Wd ∧
  dom (cd_entries c) ⊆ keys ops ∧
  (∀ k e, cd_entries c !! k = Some e →
     ∃ pre post, ops = pre ++ post ∧ counter T Wd k post = Some e) ∧
  ((Z.of_nat (size (keys ops)) ≤ cd_limit c0)%Z → ∀ k, cd_entries c !! k = counter T Wd k ops).

Lemma cooldown_inv_step ops c o c' (ev : option string) :
  cooldown_inv ops c → cooldown_wf c' →
  cd_limit c' = cd_limit c → cd_threshold c' = cd_threshold c → cd_window c' = cd_window c →
  (∀ k, cd_entries c' !! k = if decide (ev = Some k) then None else counter_step T Wd k o (cd_entries c !! k)) →
  ((Z.of_nat (size ({[ op_key o ]} ∪ dom (cd_entries c) : gset string)) ≤ cd_limit c)%Z → ev = None) →
  cooldown_inv (ops ++ [o]) c'.
Proof.
  intros (Hwf & Hl & Ht & Hw & Hd & Hsome & Hall) Hwf' Hl' Ht' Hw' Hk Hev.
  assert (Hkeys : keys (ops ++ [o]) = keys ops ∪ {[ op_key o ]}).
  { rewrite fmap_app, list_to_set_app_L. simpl. set_solver. }
  split_and!; [done|congruence..| | |].
  - intros k Hin. rewrite Hkeys. apply elem_of_dom in Hin as [e He]. rewrite Hk in He. case_decide; [done|].
    unfold counter_step in He. case_bool_decide as Ek; [set_solver|]. simpl in He.
    apply elem_of_dom_2, Hd in He. set_solver.
  - intros k e He. rewrite Hk in He. case_decide; [done|].
    destruct (cd_entries c !! k) as [e0|] eqn:E0.
    + destruct (Hsome k e0 E0) as (pre & post & -> & Hc). exists pre, (post ++ [o]).
      rewrite app_assoc. split; [done|]. by rewrite counter_snoc, Hc.
    + exists ops, [o]. split; [done|]. unfold counter. simpl. done.
  - intros Hs k. rewrite counter_snoc, <-Hall.
    + rewrite Hk, decide_False; [done|]. rewrite Hev; [done|]. rewrite Hl.
      etrans; [|exact Hs]. apply inj_le, subseteq_size. rewrite Hkeys. set_solver.
    + etrans; [|exact Hs]. apply inj_le, subseteq_size. rewrite Hkeys. set_solver.
Qed.

Lemma cooldown_inv_after ops : cooldown_inv ops (after ops).
Proof.
  induction ops as [|o ops IH] using rev_ind.
  - split; [|done]. split_and!; simpl; [|constructor|..].
    + destruct (Z.leb_spec limit 0); [done|lia].
    + intros k. split; intros Hk; [by apply elem_of_nil in Hk|by destruct Hk].
    + rewrite map_size_empty. destruct (Z.leb_spec limit 0); [done|lia].
  - rewrite foldl_app. cbn [foldl]. pose proof IH as (Hwf & Hl & Ht & Hw & _).
    destruct o as [now key|now key|key]; cbn [cooldown_apply].
    + destruct (cooling now key (after ops)) as [c' hot] eqn:E.
      apply cooling_spec in E as (? & ? & ? & ? & Hk); [|done]. rewrite Ht, Hw in Hk.
      by eapply (cooldown_inv_step _ _ _ _ None).
    + destruct (reject now key (after ops)) as [c' hot] eqn:E.
      apply reject_spec in E as (? & ? & ? & ? & _ & ev & Hev & Hk & Hroom); [|done]. rewrite Ht, Hw in Hk.
      by eapply (cooldown_inv_step _ _ _ _ ev).
    + destruct (reset_spec key (after ops)) as (? & ? & ? & ? & Hk); [done|]. rewrite Ht, Hw in Hk.
      by eapply (cooldown_inv_step _ _ _ _ None).
Qed.
End cooldown.

(** The cooldown table is bounded and keeps bindings apart. Whatever the
    sequence of operations, it never holds more entries than its limit; an entry
    is always the count of rejections of its own binding since some point, never
    of another's; and as long as the bindings seen fit the limit, it is exactly
    the count since the last reset or lapse. *)
Theorem cooldown_refines limit threshold window ops :
  let c0 := newBindingCooldown limit threshold window in
  let c := foldl cooldown_apply c0 ops in
  (Z.of_nat (size (cd_entries c)) ≤ cd_limit c0)%Z ∧
  (∀ k e, cd_entries c !! k = Some e →
     ∃ pre post, ops = pre ++ post ∧ counter (cd_threshold c0) (cd_window c0) k post = Some e) ∧
  ((Z.of_nat (size (list_to_set (op_key <$> ops) : gset string)) ≤ cd_limit c0)%Z →
   ∀ k, cd_entries c !! k = counter (cd_threshold c0) (cd_window c0) k ops).
Proof.
  destruct (cooldown_inv_after limit threshold window ops) as ((_ & _ & _ & Hs) & Hl & _ & _ & _ & Hsome & Hall).
  cbv zeta. split_and!; [by rewrite <-Hl|done|done].
Qed.

Section window.
Context (limit threshold window : Z).
Local Abbreviation c0 := (newBindingCooldown limit threshold window).
Local Abbreviation after ops := (foldl cooldown_apply c0 ops).

Lemma counter_in_row ops key ts t :
  cd_entries (after (ops ++ [OpReset key] ++ ((λ t, OpReject t key) <$> ts ++ [t]))) !! key =
    Some (mkCooling (Z.of_nat (length (ts ++ [t])))
            (if (Z.of_nat (length (ts ++ [t])) <? cd_threshold c0)%Z then 0%Z else (t + cd_window c0)%Z)).
Proof.
  revert t. induction ts as [|t' ts IH] using rev_ind; intros t.
  - rewrite app_assoc, foldl_app. cbn [app fmap list_fmap foldl cooldown_apply].
    destruct (cooldown_inv_after limit threshold window (ops ++ [OpReset key])) as (Hwf & _ & Ht & Hw & _).
    rewrite foldl_app in Hwf, Ht, Hw. rewrite foldl_app. cbn [foldl cooldown_apply] in *.
    destruct (cooldown_inv_after limit threshold window ops) as (Hwf0 & _ & _).
    destruct (reset_spec key (after ops) Hwf0) as (_ & _ & _ & _ & Hr). specialize (Hr key).
    unfold counter_step in Hr. cbn [op_key] in Hr. rewrite bool_decide_true in Hr by done. simpl in Hr.
    destruct (reject t key (reset key (after ops))) as [c' hot] eqn:E.
    apply reject_spec in E as (_ & _ & _ & _ & _ & ev & Hev & Hk & _); [|done]. cbn [fst].
    rewrite Hk, decide_False, Hr by done. unfold counter_step. cbn [op_key].
    rewrite bool_decide_true by done. simpl. by rewrite Ht, Hw.
  - rewrite fmap_app, (app_assoc [OpReset key]), app_assoc, foldl_app. cbn [fmap list_fmap foldl cooldown_apply].
    specialize (IH t').
    destruct (cooldown_inv_after limit threshold window
      (ops ++ [OpReset key] ++ ((λ t, OpReject t key) <$> ts ++ [t']))) as (Hwf & _ & Ht & Hw & _).
    set (c := after (ops ++ [OpReset key] ++ _)) in *.
    destruct (reject t key c) as [c' hot] eqn:E.
    apply reject_spec in E as (_ & _ & _ & _ & _ & ev & Hev & Hk & _); [|done]. cbn [fst].
    rewrite Hk, decide_False, IH by done. unfold counter_step. cbn [op_key].
    rewrite bool_decide_true by done. simpl. rewrite Ht, Hw, !length_app. simpl.
    replace (Z.of_nat (length ts + 1) + 1)%Z with (Z.of_nat (length ts + 1 + 1)) by lia.
    set (T := if (threshold <=? 0)%Z then bindingCooldownThreshold else threshold).
    destruct (Z.ltb_spec (Z.of_nat (length ts + 1 + 1)) T) as [Hlt|]; [|done].
    destruct (Z.ltb_spec (Z.of_nat (length ts + 1)) T); [done|lia].
Qed.
End window.

(** A binding is cooled by a run of rejections and asked again afterwards.
    After the run a reset has started, whatever happened before it, the binding
    is cooling exactly when the run has reached the threshold and the window
    since the last rejection is not over; once it is over, the check forgets the
    run, so that the binding is asked again and its rejections count anew. *)
Theorem cooldown_window limit threshold window ops key ts t now :
  let c0 := newBindingCooldown limit threshold window in
  let run := (λ t, OpReject t key) <$> ts ++ [t] in
  let c := foldl cooldown_apply c0 (ops ++ [OpReset key] ++ run) in
  (0 ≤ t)%Z →
  (cooling now key c).2 =
    ((cd_threshold c0 <=? Z.of_nat (length run)) && (now <? t + cd_window c0))%Z ∧
  ((cd_threshold c0 ≤ Z.of_nat (length run))%Z → (t + cd_window c0 ≤ now)%Z →
   cd_entries (cooling now key c).1 !! key = None).
Proof.
  intros c0 run c Ht. pose proof (counter_in_row limit threshold window ops key ts t) as He.
  fold c0 in He. fold run c in He. unfold cooling. rewrite He. cbn [co_until].
  assert (Hlen : length run = length (ts ++ [t])) by apply length_fmap. rewrite Hlen.
  assert (Hw : (0 < cd_window c0)%Z) by (simpl; unfold bindingCooldownWindow, time_Second; destruct (Z.leb_spec window 0); lia).
  unfold time_IsZero, time_Before.
  destruct (Z.ltb_spec (Z.of_nat (length (ts ++ [t]))) (cd_threshold c0)) as [Hlt|Hge].
  - rewrite Z.eqb_refl, (proj2 (Z.leb_gt _ _)) by done. split; [done|]. intros. exfalso. lia.
  - rewrite (proj2 (Z.leb_le _ _)) by done. rewrite (proj2 (Z.eqb_neq _ _)) by lia. cbn [andb].
    destruct (Z.ltb_spec now (t + cd_window c0)); cbn [negb fst snd]; (split; [done|]); intros.
    + exfalso. lia.
    + simpl. by rewrite lookup_delete_eq.
Qed.

(** ** Properties of the byte budget *)

(** What the reservations in a list add up to; those of one caller. *)
Definition reserved (out : list (string * Z)) : Z := foldr Z.add 0%Z out.*2.
Definition reserved_by (key : string) (out : list (string * Z)) : Z :=
  reserved (filter (λ r, r.1 = key) out).

(** The budget with the reservations that are out: a read acquires what
    [reserveFor] may ask for, and each reservation is returned once. *)
Inductive budget_step : bufferBudget * list (string * Z) → bufferBudget * list (string * Z) → Prop :=
| step_acquired key n b b' out :
    (0 < n ≤ maxBody + 1)%Z → acquire key n b = (b', true) → budget_step (b, out) (b', (key, n) :: out)
| step_refused key n b b' out :
    (0 < n ≤ maxBody + 1)%Z → acquire key n b = (b', false) → budget_step (b, out) (b', out)
| step_released key n b out1 out2 :
    budget_step (b, out1 ++ (key, n) :: out2) (release key n b, out1 ++ out2).

Lemma reserved_app l1 l2 : reserved (l1 ++ l2) = (reserved l1 + reserved l2)%Z.
Proof. unfold reserved. rewrite fmap_app. induction l1.*2; simpl; lia. Qed.
Lemma reserved_cons key n l : reserved ((key, n) :: l) = (n + reserved l)%Z.
Proof. done. Qed.
Lemma reserved_by_app key l1 l2 : reserved_by key (l1 ++ l2) = (reserved_by key l1 + reserved_by key l2)%Z.
Proof. unfold reserved_by. by rewrite filter_app, reserved_app. Qed.
Lemma reserved_by_cons key k n l :
  reserved_by key ((k, n) :: l) = ((if decide (k = key) then n else 0) + reserved_by key l)%Z.
Proof. unfold reserved_by. rewrite filter_cons. simpl. case_decide; [by rewrite reserved_cons|lia]. Qed.

Lemma reserved_nonneg l : Forall (λ r, 0 < r.2)%Z l → (0 ≤ reserved l)%Z.
Proof. induction 1 as [|[k n] l Hn _ IH]; [done|]. rewrite reserved_cons. simpl in Hn. lia. Qed.
Lemma reserved_by_nonneg key l : Forall (λ r, 0 < r.2)%Z l → (0 ≤ reserved_by key l ≤ reserved l)%Z.
Proof.
  induction 1 as [|[k n] l Hn _ IH]; [done|]. rewrite reserved_by_cons, reserved_cons. simpl in Hn.
  case_decide; lia.
Qed.
Lemma reserved_by_zero key l :
  Forall (λ r, 0 < r.2)%Z l → reserved_by key l = 0%Z ↔ key ∉ l.*1.
Proof.
  induction 1 as [|[k n] l Hn Hl IH]; [by split; [intros _ ?%elem_of_nil|]|].
  rewrite reserved_by_cons. csimpl. rewrite not_elem_of_cons. simpl in Hn.
  pose proof (reserved_by_nonneg key l Hl). case_decide; [split; [lia|naive_solver]|].
  rewrite <-IH. split; [intros; split; [done|lia]|lia].
Qed.

Section budget.
Context (limit : Z) (Hlimit : (0 ≤ limit ≤ max_int64 - (maxBody + 1))%Z).

(** The counters are the sums of what is out, within their bounds. *)
Definition budget_ok (x : bufferBudget * list (string * Z)) : Prop :=
  let '(b, out) := x in
  bb_limit b = limit ∧ bb_share b = bufferShare limit ∧
  Forall (λ r, 0 < r.2)%Z out ∧ bb_held b = reserved out ∧ (reserved out ≤ limit)%Z ∧
  ∀ key, bb_perKey b !! key = (if decide (key ∈ out.*1) then Some (reserved_by key out) else None) ∧
    (reserved_by key out ≤ bufferShare limit)%Z.

Lemma bb_of_ok b out key : budget_ok (b, out) → bb_of key b = reserved_by key out.
Proof.
  intros (_ & _ & Hpos & _ & _ & Hk). unfold bb_of. destruct (Hk key) as [-> _].
  case_decide as E; simpl; [done|]. symmetry. by apply reserved_by_zero.
Qed.

(** While the invariant holds nothing wraps. *)
Lemma acquire_exact b out key n :
  budget_ok (b, out) → (0 < n ≤ maxBody + 1)%Z →
  acquire key n b =
    if ((reserved out + n <=? limit) && (reserved_by key out + n <=? bufferShare limit))%Z
    then (mkBudget limit (bufferShare limit) (reserved out + n)
            (<[key := (reserved_by key out + n)%Z]> (bb_perKey b)), true)
    else (b, false).
Proof.
  intros Hok Hn. pose proof Hok as (Hl & Hs & Hpos & Hh & Hle & Hk). unfold acquire.
  rewrite (bb_of_ok b out key Hok), Hl, Hs, Hh.
  pose proof (reserved_nonneg out Hpos). pose proof (reserved_by_nonneg key out Hpos).
  unfold max_int64, maxBody in *. rewrite !wrap64_id by (unfold max_int64; lia).
  rewrite !Z.ltb_antisym. destruct (reserved out + n <=? limit)%Z; simpl; [|done].
  by destruct (reserved_by key out + n <=? bufferShare limit)%Z.
Qed.

Lemma budget_step_ok x y : budget_ok x → budget_step x y → budget_ok y.
Proof.
  intros Hok Hst. destruct Hst as [key n b b' out Hn Ha|key n b b' out Hn Ha|key n b out1 out2].
  - rewrite (acquire_exact _ _ _ _ Hok Hn) in Ha. destruct (_ && _) eqn:E; [|done]. injection Ha as <-. bools.
    pose proof Hok as (Hl & Hs & Hpos & Hh & Hle & Hk). split_and!; simpl; [done..|constructor; simpl; [lia|done]| | |].
    + rewrite reserved_cons. lia.
    + rewrite reserved_cons. lia.
    + intros k. destruct (Hk k) as [Hkk Hb]. rewrite reserved_by_cons. split.
      * destruct (decide (key = k)) as [->|Hne].
        -- rewrite lookup_insert_eq, decide_True by (csimpl; by left). f_equal. lia.
        -- rewrite lookup_insert_ne, Hkk, Z.add_0_l by done. csimpl. 
           apply decide_ext. change (list_fmap _ _ fst out) with (out.*1). rewrite elem_of_cons. naive_solver.
      * destruct (decide (key = k)) as [<-|]; lia.
  - rewrite (acquire_exact _ _ _ _ Hok Hn) in Ha. destruct (_ && _) eqn:E; [done|]. by injection Ha as <-.
  - pose proof Hok as (Hl & Hs & Hpos & Hh & Hle & Hk).
    pose proof (bb_of_ok _ _ key Hok) as Hof.
    apply Forall_app in Hpos as [Hp1 Hp2]. apply Forall_cons in Hp2 as [Hn Hp2]. simpl in Hn.
    assert (Hp : Forall (λ r, 0 < r.2)%Z (out1 ++ out2)) by by apply Forall_app.
    pose proof (reserved_nonneg _ Hp) as Hr0.
    assert (Hsum : reserved (out1 ++ (key, n) :: out2) = (reserved (out1 ++ out2) + n)%Z)
      by (rewrite !reserved_app, reserved_cons; lia).
    assert (Hby : ∀ k, reserved_by k (out1 ++ (key, n) :: out2) =
      (reserved_by k (out1 ++ out2) + if decide (key = k) then n else 0)%Z)
      by (intros k; rewrite !reserved_by_app, reserved_by_cons; lia).
    pose proof (Hby key) as Hbk. rewrite decide_True in Hbk by done.
    pose proof (reserved_by_nonneg key _ Hp) as Hbn.
    unfold release, budget_ok. cbv zeta. rewrite Hh, Hof, Hsum, Hbk in *. unfold max_int64, maxBody in Hlimit.
    rewrite !wrap64_id by (unfold max_int64; lia).
    replace (reserved (out1 ++ out2) + n - n)%Z with (reserved (out1 ++ out2)) by lia.
    replace (reserved_by key (out1 ++ out2) + n - n)%Z with (reserved_by key (out1 ++ out2)) by lia.
    cbn [bb_limit bb_share bb_held bb_perKey]. split_and!; [done..| |lia|].
    + destruct (Z.ltb_spec (reserved (out1 ++ out2)) 0); lia.
    + intros k. destruct (Hk k) as [Hkk Hb]. rewrite Hby in Hkk, Hb. split; [|case_decide; lia].
      destruct (decide (k = key)) as [->|Hne].
      * destruct (Z.leb_spec (reserved_by key (out1 ++ out2)) 0).
        -- rewrite lookup_delete_eq, decide_False; [done|]. apply reserved_by_zero; [done|lia].
        -- rewrite lookup_insert_eq, decide_True; [done|]. apply dec_stable. intros Hnot.
           apply reserved_by_zero in Hnot; [lia|done].
      * rewrite (decide_False (P:=key = k)), Z.add_0_r in Hkk by done.
        assert (Hin : k ∈ (out1 ++ (key, n) :: out2).*1 ↔ k ∈ (out1 ++ out2).*1)
          by (rewrite !fmap_app, !elem_of_app; csimpl; rewrite elem_of_cons; naive_solver).
        rewrite (decide_ext _ _ _ _ Hin) in Hkk.
        destruct (reserved_by key (out1 ++ out2) <=? 0)%Z;
          [by rewrite lookup_delete_ne|by rewrite lookup_insert_ne].
Qed.
End budget.

Lemma reserveFor_bounds contentLength :
  (0 < reserveFor contentLength (maxBody + 1) ≤ maxBody + 1)%Z.
Proof.
  unfold reserveFor, maxBody. destruct (_ && _) eqn:E; [|lia]. bools. lia.
Qed.

(** The memory the data plane admits is bounded. Whatever reads acquire and
    return their reservations, in whatever order, the budget counts exactly what
    is out, which never exceeds the limit nor, for one caller, that caller's
    share; a read is admitted exactly when it fits both; and when everything has
    been returned no trace of a caller is left. *)
Theorem budget_bounded limit b out :
  (0 ≤ limit ≤ max_int64 - (maxBody + 1))%Z →
  rtc budget_step (newBufferBudget limit, []) (b, out) →
  bb_held b = reserved out ∧ (reserved out ≤ limit)%Z ∧
  (∀ key, bb_of key b = reserved_by key out ∧ (reserved_by key out ≤ bufferShare limit)%Z) ∧
  (∀ key n, (0 < n ≤ maxBody + 1)%Z →
     (acquire key n b).2 =
       ((reserved out + n <=? limit) && (reserved_by key out + n <=? bufferShare limit))%Z) ∧
  (out = [] → bb_perKey b = ∅).
Proof.
  intros Hlimit Hr.
  assert (Hok : budget_ok limit (b, out)).
  { assert (H0 : budget_ok limit (newBufferBudget limit, [])).
    { split_and!; [done..|unfold reserved; simpl; lia|]. intros key. rewrite decide_False by apply not_elem_of_nil.
      split; [done|]. unfold bufferShare, maxBody, reserved_by, reserved. simpl. case_match eqn:E; lia. }
    remember (newBufferBudget limit, []) as x eqn:Ex. remember (b, out) as y eqn:Ey. clear Ex Ey.
    induction Hr as [x|x y z Hst _ IH]; [done|]. apply IH. by eapply budget_step_ok. }
  pose proof Hok as (_ & _ & _ & Hh & Hle & Hk). split_and!; [done..| | |].
  - intros key. split; [by eapply bb_of_ok|apply Hk].
  - intros key n Hn. rewrite (acquire_exact limit Hlimit b out key n Hok Hn). by case_match.
  - intros ->. apply map_empty. intros key. destruct (Hk key) as [-> _].
    by rewrite decide_False by apply not_elem_of_nil.
Qed.
