(* ===== verification/FedLocks.v ===== *)
(** * The per-binding lock ([internal/federation/refresh.go])

    [keyedMutex]: a mutex per key, created on first use and dropped by its last
    user. Entries are pointers, so the model has a heap of them; the section of
    [lock] under [k.mu] is one action, waiting for [e.mu] another, and so are the
    two halves of the unlock function. *)

From S2P Require Import Prelude GoStd Proc.

Record keyedEntry := mkEntry {
  ke_locked : bool;
  ke_refs : nat;
}.

Record keyedMutex := mkKeyed {
  km_m : gmap string nat;
  km_heap : gmap nat keyedEntry;
  km_next : nat;
}.

Definition NewKeyedMutex : keyedMutex := mkKeyed ∅ ∅ 0.

Definition km_entry (k : keyedMutex) (e : nat) : keyedEntry := default (mkEntry false 0) (km_heap k !! e).
Definition km_write (e : nat) (x : keyedEntry) (k : keyedMutex) : keyedMutex :=
  mkKeyed (km_m k) (<[e := x]> (km_heap k)) (km_next k).

(** [lock], up to [k.mu.Unlock()]: the entry of the key, with one more user. *)
Definition km_enter (key : string) (k : keyedMutex) : keyedMutex * nat :=
  match km_m k !! key with
  | Some e =>
      (km_write e (mkEntry (ke_locked (km_entry k e)) (S (ke_refs (km_entry k e)))) k, e)
  | None =>
      (mkKeyed (<[key := km_next k]> (km_m k)) (<[km_next k := mkEntry false 1]> (km_heap k))
         (S (km_next k)), km_next k)
  end.

(** [e.mu.Lock()]: waits while somebody holds it. *)
Definition km_acquire (e : nat) (k : keyedMutex) : option keyedMutex :=
  if ke_locked (km_entry k e) then None
  else Some (km_write e (mkEntry true (ke_refs (km_entry k e))) k).

(** [e.mu.Unlock()]. *)
Definition km_release (e : nat) (k : keyedMutex) : keyedMutex :=
  km_write e (mkEntry false (ke_refs (km_entry k e))) k.

(** The rest of the unlock function: one user less, and the last one drops the
    entry. *)
Definition km_leave (key : string) (e : nat) (k : keyedMutex) : keyedMutex :=
  let refs := pred (ke_refs (km_entry k e)) in
  let k := km_write e (mkEntry (ke_locked (km_entry k e)) refs) k in
  if refs =? 0 then mkKeyed (delete key (km_m k)) (km_heap k) (km_next k) else k.

Section locking.
Context {W : Type} (get : W → keyedMutex) (set : keyedMutex → W → W).

(** [keyedMutex.lock]; the unlock function it returns is [unlock key] of the
    entry. *)
Definition lock (key : string) : go W nat :=
  e ← atomic (λ w, let '(k, e) := km_enter key (get w) in (set k w, e));
  await (λ w, (λ k, set k w) <$> km_acquire e (get w));;
  mret e.
Definition unlock (key : string) (e : nat) : go W unit :=
  modify (λ w, set (km_release e (get w)) w);;
  modify (λ w, set (km_leave key e (get w)) w).

(** [unlock := s.locks.lock(key); defer unlock()] around the rest of a
    function. *)
Definition with_lock {A} (key : string) (body : go W A) : go W A :=
  e ← lock key;
  r ← try body;
  unlock key e;;
  lift_result r.
End locking.

(** ** Who holds what

    What a process knows while it holds a key: nothing more, that the row of the
    key is there, or that the vault has no secret for it. *)
Inductive claim := Plain | Claimed | Shredded.

(** Where a process is in the life of the lock: not using it, counted as a user
    and waiting, holding it, or counted but done. *)
Inductive phase :=
| Idle
| Entered (key : string) (e : nat)
| Holding (key : string) (e : nat) (c : claim)
| Leaving (key : string) (e : nat).

Definition phase_at (g : phase) : option (string * nat) :=
  match g with
  | Idle => None
  | Entered key e | Holding key e _ | Leaving key e => Some (key, e)
  end.

#[export] Instance claim_eq_dec : EqDecision claim.
Proof. solve_decision. Defined.
#[export] Instance phase_eq_dec : EqDecision phase.
Proof. solve_decision. Defined.

(** The users of an entry. *)
Definition uses (e : nat) (g : phase) : nat :=
  match phase_at g with Some (_, e') => if decide (e' = e) then 1 else 0 | None => 0 end.
Fixpoint users (e : nat) (gs : list phase) : nat :=
  match gs with [] => 0 | g :: gs' => uses e g + users e gs' end.

Definition holds (e : nat) (g : phase) : Prop :=
  match g with Holding _ e' _ => e' = e | _ => False end.

(** An entry that is in the map is used, counts its users, and is locked exactly
    while one of them holds it; two processes never hold one entry; keys have
    entries of their own. *)
Definition locks_ok (k : keyedMutex) (gs : list phase) : Prop :=
  (∀ key e, km_m k !! key = Some e → e < km_next k) ∧
  (∀ key key' e, km_m k !! key = Some e → km_m k !! key' = Some e → key = key') ∧
  (∀ i g key e, gs !! i = Some g → phase_at g = Some (key, e) → km_m k !! key = Some e) ∧
  (∀ key e, km_m k !! key = Some e →
     ke_refs (km_entry k e) = users e gs ∧ 0 < users e gs ∧
     (ke_locked (km_entry k e) = true ↔ ∃ i g, gs !! i = Some g ∧ holds e g)) ∧
  (∀ i j g g' e, gs !! i = Some g → gs !! j = Some g' → holds e g → holds e g' → i = j).

(** ** Lemmas *)

Lemma users_insert e gs i g g' :
  gs !! i = Some g → users e (<[i := g']> gs) + uses e g = users e gs + uses e g'.
Proof.
  revert i. induction gs as [|x gs IH]; intros [|i]; simpl; [done..| |].
  - intros [= ->]. lia.
  - intros Hi. specialize (IH i Hi). lia.
Qed.

Lemma users_pos e gs i g key : gs !! i = Some g → phase_at g = Some (key, e) → 0 < users e gs.
Proof.
  intros Hi Hg. apply list_elem_of_lookup_2 in Hi. induction Hi as [x l|x y l _ IH]; simpl.
  - unfold uses. rewrite Hg, decide_True by done. lia.
  - specialize (IH Hg). lia.
Qed.

Lemma users_zero e gs : users e gs = 0 → ∀ i g, gs !! i = Some g → uses e g = 0.
Proof.
  intros Hz i g Hi%list_elem_of_lookup_2. induction Hi as [x l|x y l _ IH]; simpl in Hz; [lia|].
  apply IH. lia.
Qed.

Lemma km_entry_write e e' x k : km_entry (km_write e x k) e' = if decide (e' = e) then x else km_entry k e'.
Proof.
  unfold km_entry, km_write. simpl. case_decide; [subst; by rewrite lookup_insert_eq|].
  by rewrite lookup_insert_ne.
Qed.

Lemma lookup_phase_insert (gs : list phase) i g g' j x :
  gs !! i = Some g → <[i := g']> gs !! j = Some x ↔ (j = i ∧ x = g') ∨ (j ≠ i ∧ gs !! j = Some x).
Proof.
  intros Hi. rewrite list_lookup_insert_Some. pose proof (lookup_lt_Some _ _ _ Hi).
  destruct (decide (i = j)); naive_solver.
Qed.

Lemma NewKeyedMutex_ok n : locks_ok NewKeyedMutex (replicate n Idle).
Proof.
  split_and!; try done.
  - by intros i g key e [-> _]%lookup_replicate.
  - by intros i j g g' e [-> _]%lookup_replicate.
Qed.

(** A step of one process changes its phase; what the others hold stays. *)
Lemma some_holds_insert (gs : list phase) i g g' e :
  gs !! i = Some g →
  (∃ j x, <[i := g']> gs !! j = Some x ∧ holds e x) ↔
  holds e g' ∨ ∃ j x, j ≠ i ∧ gs !! j = Some x ∧ holds e x.
Proof.
  intros Hi. split.
  - intros (j & x & [[-> ->]|[? Hj]]%(lookup_phase_insert _ _ _ _ _ _ Hi) & Hh); [by left|].
    right. eauto.
  - intros [Hh|(j & x & Hne & Hj & Hh)].
    + exists i, g'. split; [|done]. apply (lookup_phase_insert _ _ _ _ _ _ Hi). by left.
    + exists j, x. split; [|done]. apply (lookup_phase_insert _ _ _ _ _ _ Hi). by right.
Qed.

Lemma some_holds_split (gs : list phase) i g e :
  gs !! i = Some g →
  (∃ j x, gs !! j = Some x ∧ holds e x) ↔ holds e g ∨ ∃ j x, j ≠ i ∧ gs !! j = Some x ∧ holds e x.
Proof.
  intros Hi. rewrite <-(some_holds_insert gs i g g e Hi). by rewrite list_insert_id.
Qed.

(** A process that stays at its entry, and takes no entry it did not hold, keeps
    the invariant of a lock state that differs in the flag of that entry only. *)
Lemma locks_ok_move k gs i g g' key e k' :
  locks_ok k gs → gs !! i = Some g → phase_at g = Some (key, e) → phase_at g' = Some (key, e) →
  km_m k' = km_m k → km_next k' = km_next k →
  (∀ e', ke_refs (km_entry k' e') = ke_refs (km_entry k e')) →
  (∀ e', e' ≠ e → ke_locked (km_entry k' e') = ke_locked (km_entry k e')) →
  (ke_locked (km_entry k' e) = true ↔ holds e g' ∨ ∃ j x, j ≠ i ∧ gs !! j = Some x ∧ holds e x) →
  (holds e g' → ∀ j x, j ≠ i → gs !! j = Some x → ¬ holds e x) →
  locks_ok k' (<[i := g']> gs).
Proof.
  intros (H1 & H2 & H3 & H4 & H5) Hi Hg Hg' Hm Hn Hr Hl1 Hl2 Hex.
  assert (Hholds : ∀ e' x, phase_at x = Some (key, e) → holds e' x → e' = e).
  { intros e' []; simpl; naive_solver. }
  assert (Huses : ∀ e', uses e' g' = uses e' g) by (intros e'; unfold uses; by rewrite Hg, Hg').
  split_and!.
  - intros key' e'. rewrite Hm, Hn. apply H1.
  - intros key1 key2 e'. rewrite !Hm. apply H2.
  - intros j x key' e' Hj Hx. rewrite Hm.
    apply (lookup_phase_insert _ _ _ _ _ _ Hi) in Hj as [[-> ->]|[_ Hj]]; [|by eapply H3].
    rewrite Hg' in Hx. injection Hx as <- <-. by eapply H3.
  - intros key' e'. rewrite Hm. intros Hk. destruct (H4 key' e' Hk) as (Hrefs & Hpos & Hlock).
    assert (Hu : users e' (<[i := g']> gs) = users e' gs).
    { pose proof (users_insert e' gs i g g' Hi) as Hu. rewrite Huses in Hu. lia. }
    rewrite Hu, Hr. split_and!; [done..|]. rewrite (some_holds_insert gs i g g' e' Hi).
    destruct (decide (e' = e)) as [->|Hne]; [done|]. rewrite Hl1, Hlock, (some_holds_split gs i g e' Hi) by done.
    split; (intros [Hh|?]; [|by right]); [by apply Hholds in Hh|by apply Hholds in Hh].
  - intros j1 j2 x y e' [[-> ->]|[Hn1 Hj1]]%(lookup_phase_insert _ _ _ _ _ _ Hi)
      [[-> ->]|[Hn2 Hj2]]%(lookup_phase_insert _ _ _ _ _ _ Hi) Hh1 Hh2; [done|..|by eapply (H5 j1 j2)].
    + pose proof (Hholds _ _ Hg' Hh1) as ->. by destruct (Hex Hh1 j2 y).
    + pose proof (Hholds _ _ Hg' Hh2) as ->. by destruct (Hex Hh2 j1 x).
Qed.

(** The knowledge of a holder may change freely. *)
Lemma locks_ok_claim k gs i key e c c' :
  locks_ok k gs → gs !! i = Some (Holding key e c) → locks_ok k (<[i := Holding key e c']> gs).
Proof.
  intros Hok Hi. pose proof Hok as (_ & _ & H3 & H4 & H5).
  eapply (locks_ok_move k gs i (Holding key e c) _ key e); try done.
  - destruct (H4 key e) as (_ & _ & Hl); [by eapply H3|]. by rewrite Hl, (some_holds_split _ _ _ _ Hi).
  - intros _ j x Hne Hj Hh. apply Hne. by eapply (H5 j i).
Qed.

Lemma km_release_ok k gs i key e c :
  locks_ok k gs → gs !! i = Some (Holding key e c) →
  locks_ok (km_release e k) (<[i := Leaving key e]> gs).
Proof.
  intros Hok Hi. pose proof Hok as (_ & _ & H3 & H4 & H5).
  eapply (locks_ok_move k gs i (Holding key e c) _ key e); try done.
  - intros e'. unfold km_release. rewrite km_entry_write. case_decide; [by subst|done].
  - intros e' Hne. unfold km_release. rewrite km_entry_write. by case_decide.
  - unfold km_release. rewrite km_entry_write, decide_True by done. simpl. split; [done|].
    intros [[]|(j & x & Hne & Hj & Hh)]. destruct Hne. by eapply (H5 j i).
Qed.

Lemma km_acquire_ok k k' gs i key e c :
  locks_ok k gs → gs !! i = Some (Entered key e) → km_acquire e k = Some k' →
  locks_ok k' (<[i := Holding key e c]> gs).
Proof.
  intros Hok Hi. pose proof Hok as (_ & _ & H3 & H4 & H5). unfold km_acquire.
  destruct (ke_locked (km_entry k e)) eqn:El; [done|]. intros [= <-].
  assert (Hfree : ∀ j x, gs !! j = Some x → ¬ holds e x).
  { intros j x Hj Hh. destruct (H4 key e) as (_ & _ & Hl); [by apply (H3 i (Entered key e))|].
    rewrite El in Hl. assert (false = true) by (apply Hl; eauto). done. }
  eapply (locks_ok_move k gs i (Entered key e) _ key e); try done.
  - intros e'. rewrite km_entry_write. case_decide; [by subst|done].
  - intros e' Hne. rewrite km_entry_write. by case_decide.
  - rewrite km_entry_write, decide_True by done. simpl. split; [by left|done].
  - intros _ j x _ Hj. by eapply Hfree.
Qed.

Lemma uses_other e e' g key : phase_at g = Some (key, e) → e' ≠ e → uses e' g = 0.
Proof. intros Hg Hne. unfold uses. rewrite Hg. by rewrite decide_False. Qed.
Lemma uses_own e g key : phase_at g = Some (key, e) → uses e g = 1.
Proof. intros Hg. unfold uses. rewrite Hg. by rewrite decide_True. Qed.

Lemma km_enter_ok k k' gs i key e :
  locks_ok k gs → gs !! i = Some Idle → km_enter key k = (k', e) →
  locks_ok k' (<[i := Entered key e]> gs).
Proof.
  intros (H1 & H2 & H3 & H4 & H5) Hi He.
  assert (Hu : ∀ e', users e' (<[i := Entered key e]> gs) = users e' gs + uses e' (Entered key e)).
  { intros e'. pose proof (users_insert e' gs i _ (Entered key e) Hi) as Hu.
    change (uses e' Idle) with 0 in Hu. lia. }
  assert (Hh : ∀ e', (∃ j x, <[i := Entered key e]> gs !! j = Some x ∧ holds e' x) ↔
    ∃ j x, gs !! j = Some x ∧ holds e' x).
  { intros e'. rewrite (some_holds_insert _ _ _ _ _ Hi), (some_holds_split _ _ _ _ Hi). simpl. tauto. }
  assert (Hone : ∀ j1 j2 x y e', <[i := Entered key e]> gs !! j1 = Some x →
    <[i := Entered key e]> gs !! j2 = Some y → holds e' x → holds e' y → j1 = j2).
  { intros j1 j2 x y e' [[-> ->]|[_ Hj1]]%(lookup_phase_insert _ _ _ _ _ _ Hi)
      [[-> ->]|[_ Hj2]]%(lookup_phase_insert _ _ _ _ _ _ Hi) Hx Hy; [done..|by eapply H5]. }
  unfold km_enter in He. destruct (km_m k !! key) as [e0|] eqn:Ek; injection He as <- <-.
  - split_and!; [done..| | |done].
    + intros j x key' e' [[-> ->]|[_ Hj]]%(lookup_phase_insert _ _ _ _ _ _ Hi) Hx; [|by eapply H3].
      injection Hx as <- <-. done.
    + intros key' e' Hm. cbn [km_m km_write] in Hm. destruct (H4 key' e' Hm) as (Hr & Hp & Hl).
      rewrite km_entry_write, Hu, Hh. case_decide as Ee.
      * subst e'. rewrite (uses_own _ _ key) by done. cbn [ke_refs ke_locked]. split_and!; [lia..|done].
      * rewrite (uses_other e0 _ _ key) by done. split_and!; [lia..|done].
  - assert (Hfree : ∀ j x, gs !! j = Some x → uses (km_next k) x = 0 ∧ ¬ holds (km_next k) x).
    { intros j x Hj. unfold uses. destruct (phase_at x) as [[key' e']|] eqn:Ex.
      - pose proof (H1 _ _ (H3 _ _ _ _ Hj Ex)) as Hlt. rewrite decide_False by lia. split; [done|].
        destruct x; simpl in *; simplify_eq/=; try tauto. lia.
      - split; [done|]. destruct x; simpl in *; [intros []|done..]. }
    assert (Hz : users (km_next k) gs = 0).
    { clear -Hfree. induction gs as [|x gs IH]; simpl; [done|]. destruct (Hfree 0 x) as [-> _]; [done|].
      apply IH. intros j y Hj. by apply (Hfree (S j)). }
    split_and!; cbn [km_m km_next]; [| | | |done].
    + intros key' e' [[<- <-]|[_ Hm]]%lookup_insert_Some; [lia|]. specialize (H1 _ _ Hm). lia.
    + intros key1 key2 e' [[<- <-]|[_ Hm1]]%lookup_insert_Some [[<- Heq]|[_ Hm2]]%lookup_insert_Some;
        [done|..|by eapply H2].
      * specialize (H1 _ _ Hm2). lia.
      * subst e'. specialize (H1 _ _ Hm1). lia.
    + intros j x key' e' [[-> ->]|[_ Hj]]%(lookup_phase_insert _ _ _ _ _ _ Hi) Hx.
      * injection Hx as <- <-. by rewrite lookup_insert_eq.
      * rewrite lookup_insert_ne; [by eapply H3|]. intros <-. specialize (H3 _ _ _ _ Hj Hx). congruence.
    + intros key' e' Hm. rewrite Hu, Hh.
      change (km_entry (mkKeyed _ _ _) e') with (km_entry (km_write (km_next k) (mkEntry false 1) k) e').
      rewrite km_entry_write. apply lookup_insert_Some in Hm as [[<- <-]|[Hne Hm]].
      * rewrite decide_True, Hz, (uses_own _ _ key) by done. cbn [ke_refs ke_locked]. split_and!; [lia..|].
        split; [done|]. intros (j & x & Hj & Hx). by destruct (Hfree j x Hj).
      * pose proof (H1 _ _ Hm). destruct (H4 key' e' Hm) as (Hr & Hp & Hl).
        rewrite decide_False, (uses_other (km_next k) _ _ key) by (done || lia). split_and!; [lia..|done].
Qed.

Lemma km_leave_ok k gs i key e :
  locks_ok k gs → gs !! i = Some (Leaving key e) → locks_ok (km_leave key e k) (<[i := Idle]> gs).
Proof.
  intros (H1 & H2 & H3 & H4 & H5) Hi.
  assert (Hkey : km_m k !! key = Some e) by by eapply H3.
  assert (Hu : ∀ e', users e' (<[i := Idle]> gs) + uses e' (Leaving key e) = users e' gs).
  { intros e'. pose proof (users_insert e' gs i _ Idle Hi) as Hu. change (uses e' Idle) with 0 in Hu. lia. }
  assert (Hh : ∀ e', (∃ j x, <[i := Idle]> gs !! j = Some x ∧ holds e' x) ↔
    ∃ j x, gs !! j = Some x ∧ holds e' x).
  { intros e'. rewrite (some_holds_insert _ _ _ _ _ Hi), (some_holds_split _ _ _ _ Hi). simpl. tauto. }
  assert (Hone : ∀ j1 j2 x y e', <[i := Idle]> gs !! j1 = Some x →
    <[i := Idle]> gs !! j2 = Some y → holds e' x → holds e' y → j1 = j2).
  { intros j1 j2 x y e' [[-> ->]|[_ Hj1]]%(lookup_phase_insert _ _ _ _ _ _ Hi)
      [[-> ->]|[_ Hj2]]%(lookup_phase_insert _ _ _ _ _ _ Hi) Hx Hy; [done..|by eapply H5]. }
  destruct (H4 key e Hkey) as (Hr & Hp & Hl).
  pose proof (Hu e) as Hue. rewrite (uses_own e (Leaving key e) key) in Hue by done.
  unfold km_leave. cbv zeta. set (k1 := km_write e _ k).
  assert (Hent : ∀ key' e', km_m k !! key' = Some e' → 0 < users e' (<[i := Idle]> gs) →
    ke_refs (km_entry k1 e') = users e' (<[i := Idle]> gs) ∧ 0 < users e' (<[i := Idle]> gs) ∧
    (ke_locked (km_entry k1 e') = true ↔ ∃ j x, <[i := Idle]> gs !! j = Some x ∧ holds e' x)).
  { intros key' e' Hm Hpos. destruct (H4 key' e' Hm) as (Hr' & Hp' & Hl'). rewrite Hh. unfold k1.
    rewrite km_entry_write. case_decide as Ee.
    - subst e'. cbn [ke_refs ke_locked]. split_and!; [lia..|done].
    - specialize (Hu e'). rewrite (uses_other e _ _ key) in Hu by done. split_and!; [lia..|done]. }
  destruct (Nat.eqb_spec (pred (ke_refs (km_entry k e))) 0) as [Hz|Hz].
  - assert (Hnone : users e (<[i := Idle]> gs) = 0) by lia.
    split_and!; cbn [km_m km_next k1 km_write]; [| | | |done].
    + intros key' e' [_ Hm]%lookup_delete_Some. by eapply H1.
    + intros key1 key2 e' [_ Hm1]%lookup_delete_Some [_ Hm2]%lookup_delete_Some. by eapply H2.
    + intros j x key' e' Hj Hx. rewrite lookup_delete_ne.
      * apply (lookup_phase_insert _ _ _ _ _ _ Hi) in Hj as [[-> ->]|[_ Hj]]; [done|by eapply H3].
      * intros <-. pose proof (users_zero _ _ Hnone j x Hj) as Hux.
        apply (lookup_phase_insert _ _ _ _ _ _ Hi) in Hj as [[-> ->]|[_ Hj]]; [done|].
        pose proof (H3 _ _ _ _ Hj Hx) as Hk'. rewrite Hkey in Hk'. injection Hk' as <-.
        by rewrite (uses_own e x key) in Hux.
    + intros key' e' [Hne Hm]%lookup_delete_Some. apply (Hent key' e' Hm).
      destruct (H4 key' e' Hm) as (_ & Hp' & _). specialize (Hu e').
      rewrite (uses_other e) with (key := key) in Hu by (done || intros ->; by apply Hne, (H2 _ _ e)). lia.
  - split_and!; cbn [km_m km_next k1 km_write]; [done..| | |done].
    + intros j x key' e' Hj Hx.
      apply (lookup_phase_insert _ _ _ _ _ _ Hi) in Hj as [[-> ->]|[_ Hj]]; [done|by eapply H3].
    + intros key' e' Hm. apply (Hent key' e' Hm). destruct (H4 key' e' Hm) as (_ & Hp' & _).
      specialize (Hu e'). destruct (decide (e' = e)) as [->|Hne]; [lia|].
      rewrite (uses_other e _ _ key) in Hu by done. lia.
Qed.

(** When no process uses the lock, no mutex is left behind. *)
Lemma locks_no_leak k gs : locks_ok k gs → Forall (λ g, g = Idle) gs → km_m k = ∅.
Proof.
  intros (_ & _ & _ & H4 & _) Hidle. apply map_empty. intros key.
  destruct (km_m k !! key) as [e|] eqn:E; [|done]. destruct (H4 key e E) as (_ & Hp & _).
  assert (users e gs = 0); [|lia]. clear -Hidle. induction Hidle as [|g gs -> _ IH]; [done|]. simpl. done.
Qed.

(** Two processes never hold one key. *)
Lemma locks_exclusive k gs i j key e e' c c' :
  locks_ok k gs → gs !! i = Some (Holding key e c) → gs !! j = Some (Holding key e' c') → i = j.
Proof.
  intros (_ & _ & H3 & _ & H5) Hi Hj. pose proof (H3 _ _ _ _ Hi eq_refl) as Hk.
  pose proof (H3 _ _ _ _ Hj eq_refl) as Hk'. rewrite Hk in Hk'. injection Hk' as <-. by eapply (H5 i j).
Qed.
