(* ===== verification/Fed.v ===== *)
(** * The data plane ([internal/federation])

    Binding a source, refreshing and using its token, reading through it, and
    disconnecting it: the operations of [service.go], [bind.go], [refresh.go],
    [unbind.go], [revocation.go], [killswitch.go] and the vault side of
    [binding.go], as processes over the stores, the vault, the per-binding locks,
    the limits and the upstream. Request deadlines, log lines and durations are
    left out; an upstream call that times out is one that returns an error. *)

From S2P Require Import Prelude GoStd Proc AuditLog VaultRepo VaultEnvelope Vault.
From S2P Require Import FedRegistry RawPath FedStore FedLimits FedLocks.

Definition ErrBindUser : error := New "federation: bind request belongs to another user".
Definition ErrBindUnavailable : error := New "federation: source cannot be bound".
Definition ErrBindSuperseded : error :=
  New "federation: the binding was removed or changed while this bind was in progress".
Definition ErrRawUnsupported : error := New "federation: source has no raw API".
Definition ErrResponseTooLarge : error := New "federation: upstream response exceeds the size limit".
Definition ErrNoRefreshToken : error := New "federation: binding has no refresh token".
Definition errRefreshRejected : error := New "federation: refresh grant rejected".
Definition ErrCascadeUnsupported : error :=
  New "federation: the source cannot revoke the upstream session".
Definition ErrCircuitOpen : error := New "httpclient: circuit breaker is open".

Definition refreshSkew : Z := 30 * time_Second.
Definition killSwitchPageSize : Z := 500.

Definition UpstreamOK : string := "ok".
Definition UpstreamDegraded : string := "degraded".
Definition UpstreamNotBound : string := "not_bound".
Definition UpstreamUnavailable : string := "unavailable".
Definition UpstreamCircuitOpen : string := "circuit_open".
Definition RefreshOK : string := "ok".
Definition RefreshRejected : string := "rejected".
Definition RefreshTransient : string := "transient".
Definition RefreshLost : string := "lost_race".
Definition RefreshNoToken : string := "no_refresh_token".

(** ** What the packages of others supply *)

(** [bindingSecret]. *)
Record bindingSecret := mkSecret {
  sec_AccessToken : string;
  sec_RefreshToken : string;
}.

(** [encoding/json] on a token pair, and [json.Valid]. *)
Class Json := {
  json_Marshal : bindingSecret → result string;
  json_Unmarshal : string → result bindingSecret;
  json_Valid : string → bool;
}.

(** What a pair is decoded to is what was encoded, for strings JSON can carry
    (valid UTF-8, which a token read from a JSON response is); decoding yields
    such strings. *)
Class JsonOk `{Json} := {
  json_text : string → Prop;
  json_roundtrip s : json_text (sec_AccessToken s) → json_text (sec_RefreshToken s) →
    ∃ p, json_Marshal s = Ok p ∧ json_Unmarshal p = Ok s;
  json_decoded p s : json_Unmarshal p = Ok s →
    json_text (sec_AccessToken s) ∧ json_text (sec_RefreshToken s);
}.

(** [oauth2.Token] and [oauth2.Config], as far as they are read and set. *)
Record Token := mkToken {
  tok_AccessToken : string;
  tok_TokenType : string;
  tok_RefreshToken : string;
  tok_Expiry : Z;
}.
Record OAuthConfig := mkOAuth {
  oc_ClientID : string;
  oc_ClientSecret : string;
  oc_AuthURL : string;
  oc_TokenURL : string;
  oc_RedirectURL : string;
  oc_Scopes : list string;
}.

(** A request as it is handed to the client, and what is read of a response: the
    body is the bytes that arrive and the error they end with, if any. *)
Record HTTPRequest := mkRequest {
  rq_Method : string;
  rq_URL : string;
  rq_Headers : list (string * string);
  rq_BasicAuth : option (string * string);
  rq_Body : string;
}.
Record HTTPResponse := mkResponse {
  rs_StatusCode : Z;
  rs_ContentLength : Z;
  rs_ContentType : string;
  rs_ContentEncoding : string;
  rs_Body : string * option error;
}.

(** The upstream, with whatever state it keeps: the [oauth2] library and the
    HTTP client in front of the sources. *)
Class Upstream (U : Type) := {
  oauth2_GenerateVerifier : U → U * string;
  oauth2_AuthCodeURL : OAuthConfig → string → string → string;
  oauth2_Exchange : OAuthConfig → string → string → U → U * result Token;
  oauth2_Refresh : OAuthConfig → string → U → U * result Token;
  http_Do : HTTPRequest → U → U * result HTTPResponse;
}.

(** [url.Values.Encode]: by key, in order. *)
Definition url_Encode (v : gmap string (list string)) : string :=
  strings_Join
    (mjoin ((λ kv, (λ x, url_QueryEscape kv.1 +:+ "=" +:+ url_QueryEscape x) <$> kv.2) <$>
              sort_by fst (map_to_list v))) "&".

(** [io.ReadAll(io.LimitReader(body, n))]. *)
Definition read_limited (n : Z) (body : string * option error) : result string :=
  if (n <=? Z.of_nat (String.length body.1))%Z then Ok (String.substring 0 (Z.to_nat n) body.1)
  else match body.2 with None => Ok body.1 | Some err => Err err end.

(** [http.NewRequestWithContext]: it refuses a URL that does not parse. *)
Definition newRequest `{Platform} (method url : string) (headers : list (string * string))
    (basic : option (string * string)) (body : string) : result HTTPRequest :=
  match url_Parse url with
  | None => Err (url_ParseError url)
  | Some _ => Ok (mkRequest method url headers basic body)
  end.

(** ** State *)

(** [service], the parts that do not change. *)
Record federation := mkFed {
  fe_registry : SourceRegistry;
  fe_vault : vault;
  fe_baseURL : string;
  fe_bindTTL : Z;
  fe_sweepPage : Z;
  fe_metrics : bool;
}.

(** What a metrics observer was told: upstream reads and refreshes. *)
Inductive observation :=
| ObserveUpstreamFetch (game source result : string)
| ObserveUpstreamRefresh (result : string).

Record FWorld (Rp Lg B F U : Type) := mkFWorld {
  fw_vault : VWorld Rp Lg;
  fw_bindings : B;
  fw_flows : F;
  fw_locks : keyedMutex;
  fw_cooldown : bindingCooldown;
  fw_buffers : bufferBudget;
  fw_up : U;
  fw_observed : list observation;
}.
Arguments mkFWorld {Rp Lg B F U}.
Arguments fw_vault {Rp Lg B F U}.
Arguments fw_bindings {Rp Lg B F U}.
Arguments fw_flows {Rp Lg B F U}.
Arguments fw_locks {Rp Lg B F U}.
Arguments fw_cooldown {Rp Lg B F U}.
Arguments fw_buffers {Rp Lg B F U}.
Arguments fw_up {Rp Lg B F U}.
Arguments fw_observed {Rp Lg B F U}.

(** ** Configuration *)

(** [Config]; a nil dependency is [None] or [false]. *)
Record FedConfig := mkFedConfig {
  fc_Registry : option SourceRegistry;
  fc_Bindings : bool;
  fc_Vault : option vault;
  fc_Doer : bool;
  fc_BaseURL : string;
  fc_BindTTL : Z;
  fc_KillSwitchPageSize : Z;
  fc_Metrics : bool;
  fc_MaxBufferedBytes : Z;
  fc_BindingFailureThreshold : Z;
  fc_BindingCooldown : Z;
  fc_TotalTimeout : Z;
}.

Definition defaultTotalTimeout : Z := 45 * time_Second.

(** [NewService]: the service, its byte budget and its cooldown table; the choice
    of the HTTP client is not modelled. *)
Definition NewFederation (cfg : FedConfig) : result (federation * bufferBudget * bindingCooldown) :=
  match fc_Registry cfg with
  | None => Err (New "federation: Registry is required")
  | Some registry =>
      if negb (fc_Bindings cfg) then Err (New "federation: BindingStore is required") else
      match fc_Vault cfg with
      | None => Err (New "federation: Vault is required")
      | Some v =>
          if negb (fc_Doer cfg) then Err (New "federation: Doer is required") else
          let bindTTL := if (fc_BindTTL cfg <=? 0)%Z then (10 * time_Minute)%Z else fc_BindTTL cfg in
          let page := if (fc_KillSwitchPageSize cfg <=? 0)%Z then killSwitchPageSize
                      else fc_KillSwitchPageSize cfg in
          let bytes := if (fc_MaxBufferedBytes cfg =? 0)%Z then defaultMaxBufferedBytes
                       else fc_MaxBufferedBytes cfg in
          let total := if (fc_TotalTimeout cfg =? 0)%Z then defaultTotalTimeout else fc_TotalTimeout cfg in
          if (total <? 0)%Z then Err (New "federation: TotalTimeout must not be negative") else
          if (bytes <? 0)%Z then Err (New "federation: MaxBufferedBytes must not be negative") else
          Ok (mkFed registry v (trim_slashes (fc_BaseURL cfg)) bindTTL page (fc_Metrics cfg),
              newBufferBudget bytes,
              newBindingCooldown maxCooledBindings (fc_BindingFailureThreshold cfg) (fc_BindingCooldown cfg))
      end
  end.

(** ** Operations *)

(** [UpstreamRevocation] is a string. *)
Definition RevocationDone : string := "done".
Definition RevocationUnsupported : string := "unsupported".
Definition RevocationUnavailable : string := "unavailable".
Definition RevocationNothingToDo : string := "nothing".
Definition upstreamRevocationFailed : string := "upstream_revocation_failed".

Record RevocationResult := mkRevocation {
  rv_Upstream : string;
  rv_UpstreamError : string;
}.
Definition zero_revocation : RevocationResult := mkRevocation EmptyString EmptyString.

Record BindChallenge := mkChallenge {
  bc_ID : string;
  bc_AuthorizeURL : string;
}.

Record FetchRequest := mkFetch {
  fq_User : string;
  fq_Game : string;
  fq_Resource : string;
  fq_Source : string;
}.

(** [FetchResult] and [RawResult]; [Release] is the reservation it returns. *)
Record FetchResult := mkFetched {
  fr_Source : string;
  fr_Degraded : bool;
  fr_Data : string;
  fr_Release : option (string * Z);
}.
Record RawRequest := mkRawRequest {
  rawq_User : string;
  rawq_Game : string;
  rawq_Source : string;
  rawq_Path : string;
  rawq_Query : gmap string (list string);
}.
Record RawResult := mkRaw {
  rawr_Source : string;
  rawr_Status : Z;
  rawr_ContentType : string;
  rawr_ContentEncoding : string;
  rawr_Body : string;
  rawr_Release : option (string * Z);
}.

Record BindingRevocationSummary := mkSummary {
  su_Total : Z;
  su_Revoked : Z;
  su_Cascade : Z;
  su_Unsupported : Z;
  su_Unavailable : Z;
  su_Orphaned : Z;
  su_Failed : Z;
}.
Definition zero_summary : BindingRevocationSummary := mkSummary 0 0 0 0 0 0 0.

(** [isRefreshRejected] and [isUnauthorized]. *)
Definition isRefreshRejected (err : error) : bool :=
  match errors_As (λ v, match v with RetrieveError code _ => Some code | _ => None end) err with
  | Some code => bool_decide (code = "invalid_grant")
  | None => false
  end.
Definition isUnauthorized (err : error) : bool :=
  match errors_As (λ v, match v with SourceError _ status => Some status | _ => None end) err with
  | Some status => (status =? 401)%Z
  | None => false
  end.
Definition as_not_bound (err : error) : option (string * string) :=
  errors_As (λ v, match v with NotBoundError g s => Some (g, s) | _ => None end) err.

(** [preferredToken]: the token and its hint. *)
Definition preferredToken (secret : bindingSecret) : string * string :=
  if negb (bool_decide (sec_RefreshToken secret = EmptyString))
  then (sec_RefreshToken secret, "refresh_token")
  else if negb (bool_decide (sec_AccessToken secret = EmptyString))
  then (sec_AccessToken secret, "access_token")
  else (EmptyString, EmptyString).

(** [newBindingGeneration]: eight bytes, big endian; zero becomes one. *)
Fixpoint uint64_be (acc : N) (s : string) : N :=
  match s with EmptyString => acc | String c s' => uint64_be (acc * 256 + code c) s' end.
Definition newBindingGeneration `{Entropy} (n : nat) : nat * result Z :=
  let '(n', b) := readFull 8 n in
  (n', match b with
       | Err err => Err (Wrap ("federation: generate binding version: " +:+ Error err) err)
       | Ok b => let v := Z.of_N (uint64_be 0 b) in Ok (if negb (v =? 0)%Z then v else 1%Z)
       end).

(** [newBindID]. *)
Definition newBindID `{Entropy} (n : nat) : nat * result string :=
  let '(n', b) := readFull 16 n in
  (n', match b with
       | Err _ => Err (New "federation: random source failed")
       | Ok b => Ok ("bnd_" +:+ hex_EncodeToString b)
       end).

Section operations.
Context `{Platform} `{Entropy} `{Aead} `{Json}.
Context {Rp Lg B F U : Type} `{Repo Rp} `{Logger Lg} `{BindingStore B} `{BindFlowStore F} `{Upstream U}.
Context (s : federation).
Local Abbreviation W := (FWorld Rp Lg B F U).

Definition set_vault (v : VWorld Rp Lg) (w : W) : W :=
  mkFWorld v (fw_bindings w) (fw_flows w) (fw_locks w) (fw_cooldown w) (fw_buffers w) (fw_up w)
    (fw_observed w).
Definition set_bindings (b : B) (w : W) : W :=
  mkFWorld (fw_vault w) b (fw_flows w) (fw_locks w) (fw_cooldown w) (fw_buffers w) (fw_up w)
    (fw_observed w).
Definition set_flows (f : F) (w : W) : W :=
  mkFWorld (fw_vault w) (fw_bindings w) f (fw_locks w) (fw_cooldown w) (fw_buffers w) (fw_up w)
    (fw_observed w).
Definition set_locks (k : keyedMutex) (w : W) : W :=
  mkFWorld (fw_vault w) (fw_bindings w) (fw_flows w) k (fw_cooldown w) (fw_buffers w) (fw_up w)
    (fw_observed w).
Definition set_cooldown (c : bindingCooldown) (w : W) : W :=
  mkFWorld (fw_vault w) (fw_bindings w) (fw_flows w) (fw_locks w) c (fw_buffers w) (fw_up w)
    (fw_observed w).
Definition set_buffers (b : bufferBudget) (w : W) : W :=
  mkFWorld (fw_vault w) (fw_bindings w) (fw_flows w) (fw_locks w) (fw_cooldown w) b (fw_up w)
    (fw_observed w).
Definition set_up (u : U) (w : W) : W :=
  mkFWorld (fw_vault w) (fw_bindings w) (fw_flows w) (fw_locks w) (fw_cooldown w) (fw_buffers w) u
    (fw_observed w).
Definition add_observation (o : observation) (w : W) : W :=
  mkFWorld (fw_vault w) (fw_bindings w) (fw_flows w) (fw_locks w) (fw_cooldown w) (fw_buffers w)
    (fw_up w) (fw_observed w ++ [o]).

(** Calls into the parts. *)
Definition on_vault {A} (p : go (VWorld Rp Lg) A) : go W A := zoom fw_vault set_vault p.
Definition on_bindings {A} (f : B → B * result A) : go W A :=
  call (λ w, let '(b, r) := f (fw_bindings w) in (set_bindings b w, r)).
Definition ask_bindings {A} (f : B → result A) : go W A := call (λ w, (w, f (fw_bindings w))).
Definition on_flows {A} (f : F → F * result A) : go W A :=
  call (λ w, let '(b, r) := f (fw_flows w) in (set_flows b w, r)).
Definition on_up {A} (f : U → U * result A) : go W A :=
  call (λ w, let '(u, r) := f (fw_up w) in (set_up u w, r)).
Definition fnow : go W Z := on_vault vnow.
Definition fobserve (o : observation) : go W unit :=
  if fe_metrics s then modify (add_observation o) else mret tt.
Definition locked {A} (user game source : string) (body : go W A) : go W A :=
  with_lock fw_locks set_locks (bindingKey user game source) body.
Definition getBinding (user game source : string) : go W (result Binding) :=
  try (ask_bindings (bs_Get user game source)).
Definition lookup_source (game source : string) : option Source :=
  Sources_Get (fe_registry s) game source.

(** ** The vault side ([binding.go]) *)

Definition storeBindingSecret (b : Binding) (secret : bindingSecret) : go W unit :=
  match json_Marshal secret with
  | Err err => throw (Wrap ("federation: encode binding secret: " +:+ Error err) err)
  | Ok encoded =>
      on_vault (Enroll (fe_vault s) (BindingIdentity b) encoded
                  (Some (<["game" := b_Game b]> {[ "source" := b_Source b ]})))
  end.

Definition useBindingSecret {A} (b : Binding) (fn : bindingSecret → go W A) : go W A :=
  UseIn (fe_vault s) (@on_vault) (BindingIdentity b)
    (Some (λ plaintext,
       match json_Unmarshal plaintext with
       | Err err => throw (Wrap ("federation: decode binding secret: " +:+ Error err) err)
       | Ok secret => fn secret
       end)).

Definition withAccessToken {A} (b : Binding) (fn : string → go W A) : go W A :=
  useBindingSecret b (λ secret, fn (sec_AccessToken secret)).

(** [s.vault.Revoke(ctx, BindingIdentity(b))]. *)
Definition shredSecret (b : Binding) : go W unit := on_vault (VRevoke (fe_vault s) (BindingIdentity b)).

(** ** Binding ([bind.go]) *)

Definition redirectURL (src : Source) : string :=
  trim_slashes (fe_baseURL s) +:+ "/auth/upstream/" +:+ src_Game src +:+ "/" +:+ src_Name src +:+ "/callback".

Definition oauthConfig (src : Source) : OAuthConfig :=
  mkOAuth (src_ClientID src) (src_ClientSecret src) (src_AuthorizationEndpoint src) (src_TokenEndpoint src)
    (redirectURL src) (bindScopes src).

Definition BeginBind (user game source returnTo : string) : go W BindChallenge :=
  match lookup_source game source with
  | None => throw ErrUnknownSource
  | Some src =>
      guard_err (retired src) ErrSourceRetired;;
      guard_err (bool_decide (src_ClientID src = EmptyString) ||
                 bool_decide (fe_baseURL s = EmptyString)) ErrBindUnavailable;;
      id ← on_vault (with_entropy newBindID);
      verifier ← on_up (λ u, let '(u, v) := oauth2_GenerateVerifier u in (u, Ok v));
      now ← fnow;
      let flow bound version :=
        mkFlow id user game source verifier id returnTo (now + fe_bindTTL s)%Z bound version in
      current ← getBinding user game source;
      flow ← match current with
             | Ok current => mret (flow true (b_Version current))
             | Err gerr => if negb (errors_Is gerr ErrNotBound) then throw gerr else mret (flow false 0%Z)
             end;
      on_flows (fs_Put flow);;
      mret (mkChallenge id (oauth2_AuthCodeURL (oauthConfig src) id verifier))
  end.

(** The part of [CompleteBind] under the lock, for a flow it accepts. *)
Definition bind_locked (user code : string) (flow : BindFlow) : go W Binding :=
  match lookup_source (fl_Game flow) (fl_Source flow) with
  | None => throw ErrUnknownSource
  | Some src =>
      guard_err (retired src) ErrSourceRetired;;
      token ← try (on_up (oauth2_Exchange (oauthConfig src) code (fl_Verifier flow)));
      match token with
      | Err err => throw (Wrap ("federation: bind exchange: " +:+ Error err) err)
      | Ok token =>
          generation ← on_vault (with_entropy newBindingGeneration);
          let binding := mkBinding user (fl_Game flow) (fl_Source flow) (tok_TokenType token)
            (tok_Expiry token) (negb (bool_decide (tok_RefreshToken token = EmptyString))) generation in
          won ← on_bindings (if fl_Bound flow then bs_PutIfVersion binding (fl_BoundVersion flow)
                             else bs_Create binding);
          guard_err (negb won) ErrBindSuperseded;;
          stored ← try (storeBindingSecret binding
                          (mkSecret (tok_AccessToken token) (tok_RefreshToken token)));
          match stored with
          | Err err =>
              rolled ← try (shredSecret binding);
              match rolled with
              | Err rerr => throw (errors_Join err (Some rerr))
              | Ok _ => throw err
              end
          | Ok _ => mret binding
          end
      end
  end.

(** [CompleteBind]: the flow, and the binding or the error. *)
Definition CompleteBind (user state code : string) : go W (BindFlow * result Binding) :=
  consumed ← try (on_flows (fs_Consume state));
  match consumed with
  | Err err => mret (zero_flow, Err err)
  | Ok flow =>
      if negb (bool_decide (fl_User flow = user)) then
        restored ← try (on_flows (fs_Put flow));
        mret (flow, match restored with Err rerr => Err rerr | Ok _ => Err ErrBindUser end)
      else
        now ← fnow;
        if negb (time_Before now (fl_ExpiresAt flow)) then mret (flow, Err ErrUnknownBind) else
        if bool_decide (code = EmptyString)
        then mret (flow, Err (New "federation: authorization was refused")) else
        r ← try (locked user (fl_Game flow) (fl_Source flow) (bind_locked user code flow));
        mret (flow, r)
  end.

(** ** Refreshing ([refresh.go]) *)

Definition needsRefresh (b : Binding) : go W bool :=
  if negb (b_HasRefresh b) || time_IsZero (b_Expiry b) then mret false
  else now ← fnow; mret (time_After (now + refreshSkew) (b_Expiry b)).

Definition refreshRejected (spent : Binding) : go W Binding :=
  let gone := Typed (NotBoundError (b_Game spent) (b_Source spent)) in
  let remove : go W Binding :=
    shredded ← try (shredSecret spent);
    match shredded with
    | Err _ => throw gone
    | Ok _ =>
        try (on_bindings (bs_Delete (b_User spent) (b_Game spent) (b_Source spent)));;
        throw gone
    end in
  latest ← getBinding (b_User spent) (b_Game spent) (b_Source spent);
  match latest with
  | Ok latest =>
      if negb (b_Version latest =? b_Version spent)%Z then mret latest else remove
  | Err err => if negb (errors_Is err ErrNotBound) then throw err else remove
  end.

(** What the callback of [refreshBinding] collects: the rotated pair and the
    updated row. *)
Definition rotate_with (src : Source) (fresh : Binding) (secret : bindingSecret)
    : go W (bindingSecret * Binding) :=
  guard_err (bool_decide (sec_RefreshToken secret = EmptyString)) ErrNoRefreshToken;;
  token ← try (on_up (oauth2_Refresh (oauthConfig src) (sec_RefreshToken secret)));
  match token with
  | Err err =>
      if isRefreshRejected err then throw errRefreshRejected
      else throw (Wrap ("federation: refresh " +:+ src_Name src +:+ ": " +:+ Error err) err)
  | Ok token =>
      let kept := if negb (bool_decide (tok_RefreshToken token = EmptyString))
                  then tok_RefreshToken token else sec_RefreshToken secret in
      mret (mkSecret (tok_AccessToken token) kept,
            mkBinding (b_User fresh) (b_Game fresh) (b_Source fresh) (tok_TokenType token)
              (tok_Expiry token) (negb (bool_decide (kept = EmptyString)))
              (wrapu64 (b_Version fresh + 1)))
  end.

(** The part of [refreshBinding] under the lock, from the re-read on. *)
Definition refresh_locked (src : Source) (current : Binding) (force : bool) : go W Binding :=
  fresh ← ask_bindings (bs_Get (b_User current) (b_Game current) (b_Source current));
  if negb (b_Version fresh =? b_Version current)%Z then mret fresh else
  due ← (if force then mret true else needsRefresh fresh);
  if negb due then mret fresh else
  if negb (b_HasRefresh fresh)
  then fobserve (ObserveUpstreamRefresh RefreshNoToken);; throw ErrNoRefreshToken
  else
  rotated ← try (useBindingSecret fresh (rotate_with src fresh));
  match rotated with
  | Err err =>
      if errors_Is err errRefreshRejected then
        fobserve (ObserveUpstreamRefresh RefreshRejected);; refreshRejected fresh
      else if errors_Is err ErrNoRefreshToken then
        fobserve (ObserveUpstreamRefresh RefreshNoToken);; throw err
      else fobserve (ObserveUpstreamRefresh RefreshTransient);; throw err
  | Ok (rotated, updated) =>
      won ← on_bindings (bs_PutIfVersion updated (b_Version fresh));
      if negb won then
        fobserve (ObserveUpstreamRefresh RefreshLost);;
        ask_bindings (bs_Get (b_User fresh) (b_Game fresh) (b_Source fresh))
      else
        stored ← try (storeBindingSecret updated rotated);
        match stored with
        | Err err => fobserve (ObserveUpstreamRefresh RefreshTransient);; throw err
        | Ok _ => fobserve (ObserveUpstreamRefresh RefreshOK);; mret updated
        end
  end.

Definition refreshBinding (src : Source) (current : Binding) (force : bool) : go W Binding :=
  locked (b_User current) (b_Game current) (b_Source current) (refresh_locked src current force).

Definition callWithRefresh {A} (src : Source) (binding : Binding) (fn : string → go W A) : go W A :=
  due ← needsRefresh binding;
  binding ← (if (due : bool) then refreshBinding src binding false else mret binding);
  r ← try (withAccessToken binding fn);
  match r with
  | Ok a => mret a
  | Err err =>
      if negb (isUnauthorized err) || negb (b_HasRefresh binding) then throw err
      else
        refreshed ← refreshBinding src binding true;
        withAccessToken refreshed fn
  end.

(** ** Reading through a source ([service.go]) *)

(** What both reads do with a response: reserve its worst case, read one byte
    past the cap, and return the reservation unless [keep] accepts the body. *)
Definition read_body {A} (caller readErr : string) (resp : HTTPResponse)
    (keep : string → option (string * Z) → result A) : go W A :=
  let reserve := reserveFor (rs_ContentLength resp) (maxBody + 1) in
  got ← atomic (λ w, let '(b, ok) := acquire caller reserve (fw_buffers w) in (set_buffers b w, ok));
  guard_err (negb got) ErrBufferBudget;;
  let r := match read_limited (maxBody + 1) (rs_Body resp) with
           | Err err => Err (Wrap (readErr +:+ Error err) err)
           | Ok body =>
               if (maxBody <? Z.of_nat (String.length body))%Z then Err ErrResponseTooLarge
               else keep body (Some (caller, reserve))
           end in
  (if is_ok r then mret tt
   else modify (λ w, set_buffers (release caller reserve (fw_buffers w)) w));;
  lift_result r.

(** Calling [Release] of a result. *)
Definition Release (o : option (string * Z)) : go W unit :=
  match o with
  | Some (caller, n) => modify (λ w, set_buffers (release caller n (fw_buffers w)) w)
  | None => mret tt
  end.

Definition fetchResource (src : Source) (resource token caller : string)
    : go W (string * option (string * Z)) :=
  let endpoint := trim_slashes (src_Issuer src) +:+ "/resources/" +:+ url_PathEscape resource in
  match newRequest "GET" endpoint [("Authorization", "Bearer " +:+ token); ("Accept", "application/json")]
          None EmptyString with
  | Err err => throw (Wrap ("federation: build request: " +:+ Error err) err)
  | Ok req =>
      resp ← try (on_up (http_Do req));
      match resp with
      | Err err => throw (Wrap ("federation: source " +:+ src_Name src +:+ ": " +:+ Error err) err)
      | Ok resp =>
          read_body caller ("federation: read " +:+ src_Name src +:+ ": ") resp (λ body rel,
            if negb (rs_StatusCode resp =? 200)%Z
            then Err (Typed (SourceError (src_Name src) (rs_StatusCode resp))) else
            if negb (json_Valid body)
            then Err (New ("federation: source " +:+ src_Name src +:+ " returned invalid JSON"))
            else Ok (body, rel))
      end
  end.

(** [noteBindingOutcome]; [err] may be nil. *)
Definition noteBindingOutcome (key : string) (err : option error) : go W unit :=
  if from_option isUnauthorized false err
  then now ← fnow; modify (λ w, set_cooldown (reject now key (fw_cooldown w)).1 w)
  else modify (λ w, set_cooldown (reset key (fw_cooldown w)) w).

(** [s.cooldown.cooling(key)]. *)
Definition isCooling (key : string) : go W bool :=
  now ← fnow;
  atomic (λ w, let '(c, b) := cooling now key (fw_cooldown w) in (set_cooldown c w, b)).

Definition trySource (src : Source) (req : FetchRequest) : go W FetchResult :=
  binding ← getBinding (fq_User req) (fq_Game req) (src_Name src);
  match binding with
  | Err err =>
      if errors_Is err ErrNotBound then throw (Typed (NotBoundError (fq_Game req) (src_Name src)))
      else throw err
  | Ok binding =>
      let key := bindingKey (fq_User req) (fq_Game req) (src_Name src) in
      cold ← isCooling key;
      guard_err cold (Typed (BindingCooldownError (fq_Game req) (src_Name src)));;
      r ← try (callWithRefresh src binding (λ token,
                 fetchResource src (fq_Resource req) token (fq_User req)));
      noteBindingOutcome key (err_of r);;
      '(data, rel) ← lift_result r;
      mret (mkFetched (src_Name src) false data rel)
  end.

(** The loop of [Fetch] over the candidates: [i] counts them, [last] is the
    last error and its source. *)
Fixpoint fetch_loop (req : FetchRequest) (i : nat) (candidates : list Source)
    (last : option (error * string)) (firstNotBound : option (string * string)) (sawOther : bool)
    : go W FetchResult :=
  match candidates with
  | src :: rest =>
      r ← try (trySource src req);
      match r with
      | Ok result =>
          let degraded := negb (i =? 0) in
          fobserve (ObserveUpstreamFetch (fq_Game req) (fr_Source result)
                      (if degraded then UpstreamDegraded else UpstreamOK));;
          mret (mkFetched (fr_Source result) degraded (fr_Data result) (fr_Release result))
      | Err err =>
          match as_not_bound err with
          | Some nb =>
              fetch_loop req (S i) rest (Some (err, src_Name src))
                (match firstNotBound with Some f => Some f | None => Some nb end) sawOther
          | None => fetch_loop req (S i) rest (Some (err, src_Name src)) firstNotBound true
          end
      end
  | [] =>
      match (if sawOther then None else firstNotBound) with
      | Some (g, n) =>
          fobserve (ObserveUpstreamFetch (fq_Game req) n UpstreamNotBound);;
          throw (Typed (NotBoundError g n))
      | None =>
          match last with
          | None => throw ErrUnknownResource
          | Some (lastErr, lastSource) =>
              fobserve (ObserveUpstreamFetch (fq_Game req) lastSource
                (if errors_Is lastErr ErrCircuitOpen then UpstreamCircuitOpen else UpstreamUnavailable));;
              throw lastErr
          end
      end
  end.

Definition Fetch (req : FetchRequest) : go W FetchResult :=
  match candidates (fe_registry s) (fq_Game req) (fq_Resource req) (fq_Source req) with
  | Err err => throw err
  | Ok cands => fetch_loop req 0 cands None None false
  end.

Definition rawFetch (src : Source) (path : string) (query : gmap string (list string))
    (token caller : string) : go W RawResult :=
  match cleanRawPath path with
  | Err err => throw err
  | Ok cleaned =>
      let endpoint := src_RawBase src +:+
        (if bool_decide (cleaned = EmptyString) then EmptyString else "/" +:+ cleaned) +:+
        (if bool_decide (query = ∅) then EmptyString else "?" +:+ url_Encode query) in
      match newRequest "GET" endpoint [("Authorization", "Bearer " +:+ token); ("Accept", "*/*");
                                       ("Accept-Encoding", "identity")] None EmptyString with
      | Err err => throw (Wrap ("federation: build raw request: " +:+ Error err) err)
      | Ok req =>
          resp ← try (on_up (http_Do req));
          match resp with
          | Err err => throw (Wrap ("federation: raw " +:+ src_Name src +:+ ": " +:+ Error err) err)
          | Ok resp =>
              read_body caller ("federation: read raw " +:+ src_Name src +:+ ": ") resp (λ body rel,
                Ok (mkRaw EmptyString (rs_StatusCode resp) (rs_ContentType resp)
                      (rs_ContentEncoding resp) body rel))
          end
      end
  end.

Definition Raw (req : RawRequest) : go W RawResult :=
  let observed src res := fobserve (ObserveUpstreamFetch (rawq_Game req) (src_Name src) res) in
  match lookup_source (rawq_Game req) (rawq_Source req) with
  | None => throw ErrUnknownSource
  | Some src =>
      guard_err (retired src) ErrSourceRetired;;
      guard_err (bool_decide (src_RawBase src = EmptyString)) ErrRawUnsupported;;
      binding ← getBinding (rawq_User req) (rawq_Game req) (src_Name src);
      match binding with
      | Err err =>
          if errors_Is err ErrNotBound then
            observed src UpstreamNotBound;; throw (Typed (NotBoundError (rawq_Game req) (src_Name src)))
          else observed src UpstreamUnavailable;; throw err
      | Ok binding =>
          let key := bindingKey (rawq_User req) (rawq_Game req) (src_Name src) in
          cold ← isCooling key;
          if (cold : bool) then
            observed src UpstreamUnavailable;;
            throw (Typed (BindingCooldownError (rawq_Game req) (src_Name src)))
          else
          r ← try (callWithRefresh src binding (λ token,
                 result ← rawFetch src (rawq_Path req) (rawq_Query req) token (rawq_User req);
                 if (rawr_Status result =? 401)%Z
                 then Release (rawr_Release result);; throw (Typed (SourceError (src_Name src) 401))
                 else mret result));
          noteBindingOutcome key (err_of r);;
          match r with
          | Err err =>
              observed src (if errors_Is err ErrCircuitOpen then UpstreamCircuitOpen
                            else UpstreamUnavailable);;
              throw err
          | Ok out =>
              observed src UpstreamOK;;
              mret (mkRaw (src_Name src) (rawr_Status out) (rawr_ContentType out)
                      (rawr_ContentEncoding out) (rawr_Body out) (rawr_Release out))
          end
      end
  end.

(** ** Disconnecting ([unbind.go], [revocation.go]) *)

Definition listBindings (user : string) : go W (list Binding) :=
  guard_err (bool_decide (user = EmptyString)) (New "federation: user is required");;
  ask_bindings (bs_List user).

(** [MissingBindings] of [missing.go]: without a wanted scope the store is not
    read. *)
Definition MissingBindings (user : string) (scopes : list string) : go W (list BindingRequirement) :=
  if bool_decide (filter (λ x, x ≠ EmptyString) scopes = []) then mret []
  else
    bound ← ask_bindings (bs_List user);
    mret (missing (fe_registry s) ((λ b, sourceKey (b_Game b) (b_Source b)) <$> bound) scopes).

Definition postRevocation (src : Source) (endpoint : string) (form : gmap string (list string))
    : go W unit :=
  match newRequest "POST" endpoint [("Content-Type", "application/x-www-form-urlencoded")]
          (Some (url_QueryEscape (src_ClientID src), url_QueryEscape (src_ClientSecret src)))
          (url_Encode form) with
  | Err err => throw err
  | Ok req =>
      resp ← on_up (http_Do req);
      guard_err (300 <=? rs_StatusCode resp)%Z
        (New ("the source answered " +:+ pretty (rs_StatusCode resp)))
  end.

Definition revocation_form (token hint : string) : gmap string (list string) :=
  <["token" := [token]]> {[ "token_type_hint" := [hint] ]}.

Definition revokeUpstream (src : Source) (binding : Binding) : go W (string * string) :=
  secret ← try (useBindingSecret binding (λ sec, mret sec));
  match secret with
  | Err err =>
      if errors_Is err ErrNotFound then mret (RevocationNothingToDo, EmptyString)
      else mret (RevocationUnavailable, upstreamRevocationFailed)
  | Ok secret =>
      let '(token, hint) := preferredToken secret in
      if bool_decide (token = EmptyString) then mret (RevocationNothingToDo, EmptyString) else
      sent ← try (postRevocation src (src_RevocationEndpoint src) (revocation_form token hint));
      mret (match sent with
            | Err _ => (RevocationUnavailable, upstreamRevocationFailed)
            | Ok _ => (RevocationDone, EmptyString)
            end)
  end.

(** The local half of [Unbind] and [CascadeRevoke]: the secret, then the row. *)
Definition cut (binding : Binding) (user game source : string) : go W unit :=
  shredded ← try (shredSecret binding);
  match shredded with
  | Err err => throw (Wrap ("federation: shred binding secret: " +:+ Error err) err)
  | Ok _ =>
      deleted ← try (on_bindings (bs_Delete user game source));
      match deleted with
      | Err err => throw (Wrap ("federation: delete binding: " +:+ Error err) err)
      | Ok _ => mret tt
      end
  end.

Definition unbind_locked (user game source : string) : go W (RevocationResult * option error) :=
  binding ← getBinding user game source;
  match binding with
  | Err err =>
      mret (if errors_Is err ErrNotBound then
              match lookup_source game source with
              | None => (zero_revocation, Some ErrUnknownSource)
              | Some _ => (mkRevocation RevocationNothingToDo EmptyString, None)
              end
            else (zero_revocation, Some err))
  | Ok binding =>
      told ← (match lookup_source game source with
              | None => mret (RevocationNothingToDo, EmptyString)
              | Some src =>
                  if bool_decide (src_TokenClass src = tokenClassLongLived)
                  then mret (RevocationUnsupported, EmptyString)
                  else revokeUpstream src binding
              end : go W (string * string));
      r ← try (cut binding user game source);
      mret (mkRevocation told.1 told.2, err_of r)
  end.

(** [Unbind]: the result and the error, which may both be there. *)
Definition Unbind (user game source : string) : go W (RevocationResult * option error) :=
  if bool_decide (user = EmptyString) || bool_decide (game = EmptyString) ||
     bool_decide (source = EmptyString)
  then mret (zero_revocation, Some (New "federation: user, game and source are required"))
  else locked user game source (unbind_locked user game source).

Definition cascade_locked (src : Source) (user game source : string) : go W RevocationResult :=
  binding ← ask_bindings (bs_Get user game source);
  secret ← try (useBindingSecret binding (λ sec, mret sec));
  match secret with
  | Err err => throw (Wrap ("federation: read binding secret: " +:+ Error err) err)
  | Ok secret =>
      let '(token, hint) := preferredToken secret in
      guard_err (bool_decide (token = EmptyString))
        (New "federation: the binding holds no token to identify the session");;
      sent ← try (postRevocation src (src_CascadeRevocationEndpoint src) (revocation_form token hint));
      match sent with
      | Err err => throw (Wrap ("federation: cascade revocation: " +:+ Error err) err)
      | Ok _ => cut binding user game source;; mret (mkRevocation RevocationDone EmptyString)
      end
  end.

Definition CascadeRevoke (user game source : string) : go W RevocationResult :=
  guard_err (bool_decide (user = EmptyString) || bool_decide (game = EmptyString) ||
             bool_decide (source = EmptyString))
    (New "federation: user, game and source are required");;
  match lookup_source game source with
  | None => throw ErrUnknownSource
  | Some src =>
      guard_err (bool_decide (src_CascadeRevocationEndpoint src = EmptyString)) ErrCascadeUnsupported;;
      locked user game source (cascade_locked src user game source)
  end.

(** ** The kill switch ([killswitch.go]) *)

Definition shredBinding (b : Binding) : go W unit :=
  locked (b_User b) (b_Game b) (b_Source b)
    (shredSecret b;; on_bindings (bs_Delete (b_User b) (b_Game b) (b_Source b))).

(** [bindingOutcome], in the shape it is added to the summary: [Total] is
    revoked plus failed. *)
Definition outcome (revoked cascade unsupported unavailable orphaned failed : Z)
    : BindingRevocationSummary :=
  mkSummary (revoked + failed) revoked cascade unsupported unavailable orphaned failed.
Definition add_summary (a b : BindingRevocationSummary) : BindingRevocationSummary :=
  mkSummary (su_Total a + su_Total b) (su_Revoked a + su_Revoked b) (su_Cascade a + su_Cascade b)
    (su_Unsupported a + su_Unsupported b) (su_Unavailable a + su_Unavailable b)
    (su_Orphaned a + su_Orphaned b) (su_Failed a + su_Failed b).

(** [revokeBinding]. *)
Definition unbind_outcome (b : Binding) : go W BindingRevocationSummary :=
  '(result, err) ← Unbind (b_User b) (b_Game b) (b_Source b);
  mret (match err with
        | Some _ => outcome 0 0 0 0 0 1
        | None =>
            outcome 1 0 (if bool_decide (rv_Upstream result = RevocationUnsupported) then 1 else 0)
              (if bool_decide (rv_Upstream result = RevocationUnavailable) then 1 else 0) 0 0
        end)%Z.
Definition revokeBinding (b : Binding) : go W BindingRevocationSummary :=
  match lookup_source (b_Game b) (b_Source b) with
  | None =>
      r ← try (shredBinding b);
      mret (match r with Err _ => outcome 0 0 0 0 0 1 | Ok _ => outcome 1 0 0 0 1 0 end)%Z
  | Some src =>
      if bool_decide (src_CascadeRevocationEndpoint src = EmptyString) then unbind_outcome b else
      r ← try (CascadeRevoke (b_User b) (b_Game b) (b_Source b));
      match r with
      | Ok _ => mret (outcome 1 1 0 0 0 0)
      | Err _ => unbind_outcome b
      end
  end.

(** [revokeBindings]. The code has up to eight workers, which take the bindings from
    a queue in order and merge their outcomes by addition under a mutex. This is
    the sweep with one worker; what holds of the interleavings of several calls of
    [revokeBinding] is the subject of the pools of [FedConc]. *)
Fixpoint revokeBindings (bindings : list Binding) (summary : BindingRevocationSummary)
    : go W BindingRevocationSummary :=
  match bindings with
  | [] => mret summary
  | b :: rest =>
      out ← revokeBinding b;
      revokeBindings rest (add_summary summary out)
  end.

(** The loop of [RevokeAllBindings] over a pager's pages. *)
Fixpoint sweep_pages (pager : string → string → string → Z → B → result (list Binding)) (fuel : nat)
    (afterUser afterGame afterSource : string) (summary : BindingRevocationSummary)
    : go W (BindingRevocationSummary * option error) :=
  match fuel with
  | 0 => diverge
  | S fuel =>
      page ← try (ask_bindings (pager afterUser afterGame afterSource (fe_sweepPage s)));
      match page with
      | Err err => mret (summary, Some err)
      | Ok page =>
          match last page with
          | None => mret (summary, None)
          | Some lst =>
              summary ← revokeBindings page summary;
              if (Z.of_nat (length page) <? fe_sweepPage s)%Z then mret (summary, None)
              else sweep_pages pager fuel (b_User lst) (b_Game lst) (b_Source lst) summary
          end
      end
  end.

Definition RevokeAllBindings (fuel : nat) : go W (BindingRevocationSummary * option error) :=
  match bs_ListAllPage with
  | None =>
      all ← try (ask_bindings bs_ListAll);
      match all with
      | Err err => mret (zero_summary, Some err)
      | Ok all => summary ← revokeBindings all zero_summary; mret (summary, None)
      end
  | Some pager => sweep_pages pager fuel EmptyString EmptyString EmptyString zero_summary
  end.

Definition RevokeUserBindings (user : string) : go W BindingRevocationSummary :=
  guard_err (bool_decide (user = EmptyString)) (New "federation: user is required");;
  list ← ask_bindings (bs_List user);
  revokeBindings list zero_summary.
End operations.

(** A binding of a registered source has a key without separators. *)
Lemma lookup_source_named `{Platform} (s : federation) gm n src u :
  sources_wf (fe_registry s) → lacks "|" u = true → lookup_source s gm n = Some src →
  named (mkBKey u gm n).
Proof.
  intros (Hk & _) Hu Hs. destruct (Hk _ _ Hs) as [Heq (_ & _ & Hg & Hn & _)].
  apply sourceKey_inj_any in Heq as [-> ->]; [|done..]. by apply named_ok.
Qed.
