(* ===== verification/FedConc.v ===== *)
(** * The data plane under interleaving

    Any number of requests at once over one set of stores: a secret in the vault
    always has its binding row, so that every stored credential can be listed and
    revoked; the per-binding locks exclude each other and leave nothing behind. *)

From S2P Require Import Prelude GoStd Proc AuditLog VaultRepo VaultEnvelope Vault VaultProps.
From S2P Require Import FedRegistry RawPath FedStore FedLimits FedLocks Fed.

Create HintDb kept.

(** ** Processes on a part of the world, continued *)

Section zooming.
Context {V W G : Type} (Inv : W → list G → Prop) (get : W → V) (set : V → W → W).

Lemma gsafe_zoom_pbind {A C} i g (p : proc V A) (f : A → proc V C) Q :
  gsafe Inv i g (zoom get set p) (λ g a, gsafe Inv i g (zoom get set (f a)) Q) →
  gsafe Inv i g (zoom get set (pbind p f)) Q.
Proof.
  revert g. induction p as [a|D act k IH]; intros g Hp; simpl in *; [done|].
  intros w gs w' b Hw Hg Ha. destruct (Hp w gs w' b Hw Hg Ha) as (g' & ? & ?). eauto.
Qed.

Lemma gsafe_zoom_bind {A C} i g (p : go V A) (f : A → go V C) (P : G → result A → Prop) Q :
  gsafe Inv i g (zoom get set p) P →
  (∀ g a, P g (Ok a) → gsafe Inv i g (zoom get set (f a)) Q) → (∀ g e, P g (Err e) → Q g (Err e)) →
  gsafe Inv i g (zoom get set (mbind (M:=go V) f p)) Q.
Proof.
  intros Hp Hf He. apply gsafe_zoom_pbind. eapply gsafe_mono; [exact Hp|].
  intros g' [a|e] HP; simpl; auto.
Qed.

Lemma gsafe_zoom_try {A} i g (p : go V A) (P : G → result A → Prop) (Q : G → result (result A) → Prop) :
  gsafe Inv i g (zoom get set p) P → (∀ g r, P g r → Q g (Ok r)) →
  gsafe Inv i g (zoom get set (try p)) Q.
Proof. intros Hp HQ. apply gsafe_zoom_pbind. eapply gsafe_mono; [exact Hp|]. done. Qed.
End zooming.

(** ** The invariant *)

Section interleaved.
Context `{Platform} `{Entropy} `{Aead} `{!AeadOk} `{Json}.
Context {Lg B F U : Type} `{Logger Lg} `{BindingStore B} `{!BindingStoreOk B} `{BindFlowStore F} `{Upstream U}.
Context (s : federation) `{!KeysOk (fe_vault s)}.
Local Abbreviation W := (FWorld MemoryRepo Lg B F U).
Implicit Types w : W.
Implicit Types g : phase.

(** The secret stored for a key, and that it has its row. *)
Definition fsecret w (k : bindingIndexKey) : option string :=
  secret_of (fe_vault s) (fw_vault w) (ident k).
Definition owned w : Prop :=
  ∀ k, sourced k → fsecret w k ≠ None → is_Some (bs_row (fw_bindings w) k).

(** What a process that holds a key knows. *)
Definition knows w g : Prop :=
  match g with
  | Holding key _ c => ∀ k, sourced k → key_string k = key →
      match c with
      | Plain => True
      | Claimed => is_Some (bs_row (fw_bindings w) k)
      | Shredded => fsecret w k = None
      end
  | _ => True
  end.

Definition FInv w (gs : list phase) : Prop :=
  vault_ok (fe_vault s) (vw_repo (fw_vault w)) ∧ bs_inv (fw_bindings w) ∧
  locks_ok (fw_locks w) gs ∧ owned w ∧ ∀ i g, gs !! i = Some g → knows w g.

Local Abbreviation gsafe := (Proc.gsafe FInv).

(** A process that ends with the knowledge it started with. *)
Definition kept {A} i g (p : proc W A) (P : A → Prop) : Prop := gsafe i g p (λ g' a, g' = g ∧ P a).

(** *** Steps outside the vault, the rows and the locks *)

Definition quiet_step w w' : Prop :=
  vw_repo (fw_vault w') = vw_repo (fw_vault w) ∧ fw_bindings w' = fw_bindings w ∧
  fw_locks w' = fw_locks w.

Lemma FInv_quiet w w' gs : quiet_step w w' → FInv w gs → FInv w' gs.
Proof.
  intros (Hv & Hb & Hl) (Iv & Ib & Il & Io & Ik).
  assert (Hs : ∀ k, fsecret w' k = fsecret w k) by (intros; unfold fsecret, secret_of; by rewrite Hv).
  split_and!; rewrite ?Hv, ?Hb, ?Hl; try done.
  - intros k. rewrite Hs, Hb. apply Io.
  - intros i [|key e|key e c|key e] Hg; try done. intros k Hk Hkey.
    specialize (Ik _ _ Hg k Hk Hkey). rewrite Hs, Hb. done.
Qed.

Lemma kept_call {A} i g (f : W → W * result A) (P : result A → Prop) :
  (∀ w gs, FInv w gs → gs !! i = Some g → quiet_step w (f w).1 ∧ P (f w).2) → kept i g (call f) P.
Proof.
  intros Hf. apply gsafe_call. intros w gs Hw Hg. destruct (Hf w gs Hw Hg). exists g.
  rewrite list_insert_id by done. split; [by eapply FInv_quiet|done].
Qed.

Lemma kept_atomic {A} i g (f : W → W * A) (P : result A → Prop) :
  (∀ w, quiet_step w (f w).1) → (∀ a, P (Ok a)) → kept i g (atomic f) P.
Proof.
  intros Hf HP. apply gsafe_atomic. intros w gs Hw Hg. exists g. rewrite list_insert_id by done.
  split; [by eapply FInv_quiet|done].
Qed.

Lemma kept_bind {A C} i g (p : go W A) (f : A → go W C) (P : result A → Prop) Q :
  kept i g p P → (∀ a, P (Ok a) → gsafe i g (f a) Q) → (∀ e, P (Err e) → Q g (Err e)) →
  gsafe i g (mbind (M:=go W) f p) Q.
Proof. intros Hp Hf He. eapply gsafe_bind; [exact Hp|..]; intros g' ? [-> ?]; eauto. Qed.

Lemma kept_try {A} i g (p : go W A) (P : result A → Prop) :
  kept i g p P → kept i g (try p) (λ r, ∃ r', r = Ok r' ∧ P r').
Proof. intros Hp. eapply gsafe_try; [exact Hp|]. naive_solver. Qed.

(** [v, err := p] and what follows. *)
Lemma kept_bind_try {A C} i g (p : go W A) (f : result A → go W C) (P : result A → Prop) Q :
  kept i g p P → (∀ r, P r → gsafe i g (f r) Q) → gsafe i g (mbind (M:=go W) f (try p)) Q.
Proof. intros Hp Hf. eapply gsafe_bind_try; [exact Hp|]. intros g' r [-> HP]. by apply Hf. Qed.

Lemma kept_any {A} i g (p : proc W A) P : kept i g p P → kept i g p (λ _, True).
Proof. intros Hp. eapply gsafe_mono; [exact Hp|]. naive_solver. Qed.

(** *** Steps of the vault *)

(** A request may write a secret only for a key that is held and claimed. *)
Definition permitted (rq : vrequest) g : Prop :=
  match rq with
  | VqEnroll id _ _ => ∃ key e k, g = Holding key e Claimed ∧ id = ident k ∧ key_string k = key
  | _ => True
  end.

Lemma secret_within w v rq k :
  within (fe_vault s) rq (fw_vault w) v → sourced k →
  fsecret (set_vault v w) k = fsecret w k ∨ fsecret (set_vault v w) k = None ∨
  ∃ secret meta k', rq = VqEnroll (ident k') secret meta ∧ k' = k.
Proof.
  intros Hwi Hk. destruct (Hwi (ident k)) as [?|Hw]; [by left|]. right.
  destruct rq; simpl in Hw; try done; try (left; by apply Hw).
  destruct Hw as [<- _]. right. by eexists _, _, k.
Qed.

Lemma FInv_vault w gs i g rq v :
  FInv w gs → gs !! i = Some g → permitted rq g → vault_ok (fe_vault s) (vw_repo v) →
  within (fe_vault s) rq (fw_vault w) v → FInv (set_vault v w) gs.
Proof.
  intros (Iv & Ib & Il & Io & Ik) Hi Hp Hv Hwi. split_and!; try done.
  - intros k Hk Hs. change (bs_row (fw_bindings (set_vault v w)) k) with (bs_row (fw_bindings w) k).
    destruct (secret_within w v rq k Hwi Hk) as [E|[E|(x & m & k' & -> & ->)]].
    + rewrite E in Hs. by apply Io.
    + congruence.
    + destruct Hp as (key & e & k0 & -> & Hid%ident_inj & Hkey); [|done]. subst k0.
      exact (Ik _ _ Hi k Hk Hkey).
  - intros j [|key e|key e c|key e] Hg; try done. intros k Hk Hkey.
    specialize (Ik _ _ Hg) as Hkn. specialize (Hkn k Hk Hkey). destruct c; try done.
    destruct (secret_within w v rq k Hwi Hk) as [E|[E|(x & m & k' & -> & ->)]]; [congruence|done|].
    destruct Hp as (key' & e' & k0 & -> & Hid%ident_inj & Hkey'); [|done]. subst k0.
    rewrite Hkey in Hkey'. subst key'. pose proof (locks_exclusive _ _ _ _ _ _ _ _ _ Il Hi Hg). subst j.
    rewrite Hi in Hg. congruence.
Qed.

Lemma kept_vault {A} i g rq (p : go (VWorld MemoryRepo Lg) A) (P : result A → Prop) :
  permitted rq g →
  guar (λ w : VWorld MemoryRepo Lg, vault_ok (fe_vault s) (vw_repo w)) (within (fe_vault s) rq) p P →
  kept i g (on_vault p) P.
Proof.
  intros Hp Hg. eapply gsafe_zoom; [exact Hg|by intros w gs (? & _)|].
  intros w gs v Hw Hi Hv Hwi. by eapply FInv_vault.
Qed.

(** Deleting a record leaves its key without a secret. *)
Lemma gsafe_shred i key e c b :
  lacks "|" (b_User b) = true → key_string (bkey b) = key →
  gsafe i (Holding key e c) (shredSecret s b)
    (λ g r, ∃ c', g = Holding key e c' ∧ (is_ok r = true → c' = Shredded)).
Proof.
  intros Hu Hkey. unfold shredSecret, on_vault, VRevoke.
  destruct (validate (BindingIdentity b)); [by exists c|].
  eapply (gsafe_zoom_bind _ _ _ _ _ _ _ (λ g r, g = Holding key e Shredded ∧ ∃ r', r = Ok r'));
    [|intros g a [-> _]|by intros g e' [_ [? ?]]].
  { eapply gsafe_zoom_try; [|intros g r Hg; split; [exact Hg|by eexists]]. simpl.
    intros w gs w' b' Hw Hi Ha. exists (Holding key e Shredded). split; [|done].
    pose proof (stored_secret_Delete (fe_vault s) (vw_repo (fw_vault w)) (BindingIdentity b)) as Hst.
    pose proof (guar_Delete (fe_vault s) (VqRevoke (BindingIdentity b)) (BindingIdentity b)
                  (conj eq_refl eq_refl) (fw_vault w)) as Hd. simpl in Hd.
    destruct (MemoryRepo_Delete _ _) as [r a] eqn:E. injection Ha as <- <-.
    destruct (Hd _ _ (proj1 Hw) eq_refl) as (Hv & Hwi & _).
    pose proof (FInv_vault _ _ _ _ (VqRevoke _) _ Hw Hi I Hv Hwi) as (Iv & Ib & Il & Io & Ik).
    split_and!; try done; [by eapply locks_ok_claim|].
    intros j g [[-> ->]|[_ Hj]]%(lookup_phase_insert _ _ _ _ _ _ Hi); [|by eapply Ik].
    intros k Hk Hks. assert (k = bkey b) as ->.
    { apply key_string_inj; [by apply sourced_named|done|congruence]. }
    unfold fsecret, secret_of. simpl in *. by rewrite Hst, decide_True. }
  eapply gsafe_mono; [apply (kept_vault i (Holding key e Shredded) (VqRevoke (BindingIdentity b)) _
    (λ _, True) I); guar_tac|]. intros g r [-> _]. eauto.
Qed.

Lemma kept_observe i g op r : kept i g (on_vault (observe (fe_vault s) op r)) (λ r, r = Ok tt).
Proof.
  apply (kept_vault i g (VqRotate 0)); [done|]. unfold observe. case_match; [|done].
  apply guar_atomic. intros w Hw. split; [done|]. split; [by left|done].
Qed.

(** Reading a secret: the callback runs with what was known before. *)
Lemma gsafe_use {A} i g b (fn : bindingSecret → go W A) (Q : phase → result A → Prop) :
  (∀ secret, gsafe i g (fn secret) Q) → (∀ e, Q g (Err e)) → gsafe i g (useBindingSecret s b fn) Q.
Proof.
  intros Hfn HQ. unfold useBindingSecret, UseIn. set (id := BindingIdentity b).
  assert (Hv : ∀ g C (p : go (VWorld MemoryRepo Lg) C),
    guar (λ w : VWorld MemoryRepo Lg, vault_ok (fe_vault s) (vw_repo w))
      (within (fe_vault s) (VqExists id)) p (λ _, True) → kept i g (on_vault p) (λ _, True))
    by (intros; by apply (kept_vault i g0 (VqExists id))).
  assert (Href : ∀ o m err, gsafe i g (on_vault (use_refused (A:=A) (fe_vault s) id o m err)) Q).
  { intros o m err. unfold use_refused. eapply gsafe_zoom_bind; [apply Hv; guar_tac|..].
    - intros g' a [-> _]. eapply gsafe_zoom_bind; [apply Hv; guar_tac|..]; [|by intros g' e [-> _]].
      intros g' a' [-> _]. apply HQ.
    - by intros g' e [-> _]. }
  destruct (validate id); [apply HQ|].
  eapply kept_bind; [apply Hv; guar_tac|..]; [|by intros]. intros [rec|err] _; [|apply Href].
  destruct (vs_keys (fe_vault s) !! rec_KEKID rec) as [key|]; [|apply Href].
  destruct (kw_Unwrap key _ _) as [dek|]; [|apply Href]. destruct (openSecret _ _ _ _) as [pt|]; [|apply Href].
  eapply kept_bind; [apply Hv; guar_tac|..]; [|by intros]. intros [[]|err] _.
  2: { eapply kept_bind; [apply Hv; guar_tac|..]; intros; apply HQ. }
  eapply (gsafe_bind_try _ _ _ _ _ Q); [|intros g' r Hr].
  - destruct (json_Unmarshal pt); [apply Hfn|apply HQ].
  - eapply kept_bind; [apply kept_observe|by intros|by intros].
Qed.

(** *** Steps of the binding rows *)

Lemma FInv_rows_same w gs b' :
  FInv w gs → bs_same (fw_bindings w) b' → FInv (set_bindings b' w) gs.
Proof.
  intros (Iv & Ib & Il & Io & Ik) [Hb Hrow]. split_and!; try done.
  - intros k Hk Hs. simpl. rewrite Hrow. by apply Io.
  - intros j [|key e|key e c|key e] Hg; try done. intros k Hk Hkey.
    specialize (Ik _ _ Hg k Hk Hkey). destruct c; try done. simpl. by rewrite Hrow.
Qed.

(** The holder of a key may write its row, and remove it when no secret is left. *)
Lemma FInv_rows w gs i key e c c' b' k0 o :
  FInv w gs → gs !! i = Some (Holding key e c) → key_string k0 = key → (o = None → c = Shredded) →
  bs_wrote (fw_bindings w) b' k0 o → knows (set_bindings b' w) (Holding key e c') →
  FInv (set_bindings b' w) (<[i := Holding key e c']> gs).
Proof.
  intros (Iv & Ib & Il & Io & Ik) Hi Hk0 Ho (Hb & Hrow & Hoth) Hkn.
  split_and!; try done; [by eapply locks_ok_claim|..].
  - intros k Hk Hs. simpl. destruct (decide (k = k0)) as [->|Hne].
    + rewrite Hrow. destruct o as [x|]; [by eexists|]. rewrite (Ho eq_refl) in Hi.
      destruct (Hs (Ik _ _ Hi k0 Hk Hk0)).
    + rewrite Hoth by done. by apply Io.
  - intros j g [[-> ->]|[Hne Hj]]%(lookup_phase_insert _ _ _ _ _ _ Hi); [done|].
    destruct g as [|key' e'|key' e' c1|key' e']; try done. intros k Hk Hkey.
    specialize (Ik _ _ Hj k Hk Hkey). destruct c1; try done. simpl. rewrite Hoth; [done|].
    intros ->. apply Hne. rewrite Hkey in Hk0. subst key'. by apply eq_sym, (locks_exclusive _ _ _ _ _ _ _ _ _ Il Hi Hj).
Qed.

Lemma gsafe_claim i key e x (f : B → B * result bool) :
  named (bkey x) → key_string (bkey x) = key →
  (∀ b, bs_inv b → let '(b', r) := f b in
     match r with
     | Ok true => bs_wrote b b' (bkey x) (Some x)
     | Ok false => bs_same b b'
     | Err _ => bs_same b b' ∨ bs_wrote b b' (bkey x) (Some x)
     end) →
  gsafe i (Holding key e Plain) (on_bindings f)
    (λ g r, g = Holding key e (match r with Ok true => Claimed | _ => Plain end)).
Proof.
  intros Hn Hkey Hf. apply gsafe_call. intros w gs Hw Hi. specialize (Hf _ (proj1 (proj2 Hw))).
  destruct (f (fw_bindings w)) as [b' r]. eexists. split; [|done]. simpl.
  assert (Hsame : bs_same (fw_bindings w) b' →
            FInv (set_bindings b' w) (<[i := Holding key e Plain]> gs)).
  { rewrite list_insert_id by done. by apply FInv_rows_same. }
  assert (Hwr : ∀ c, (c = Plain ∨ c = Claimed) → bs_wrote (fw_bindings w) b' (bkey x) (Some x) →
            FInv (set_bindings b' w) (<[i := Holding key e c]> gs)).
  { intros c Hc Hwr. apply (FInv_rows w gs i key e Plain c b' (bkey x) (Some x)); [done..|]. intros k Hk Hks.
    destruct Hc as [->| ->]; [done|]. assert (bkey x = k) as <-.
    { apply key_string_inj; [done|by apply sourced_named in Hk as []|congruence]. }
    simpl. destruct Hwr as (_ & -> & _). by eexists. }
  destruct r as [[]|]; [apply Hwr; auto|by apply Hsame|]. destruct Hf; [by apply Hsame|apply Hwr; auto].
Qed.

Lemma kept_delete i u gm n e :
  lacks "|" u = true →
  kept i (Holding (bindingKey u gm n) e Shredded) (on_bindings (bs_Delete u gm n)) (λ _, True).
Proof.
  intros Hu. apply gsafe_call. intros w gs Hw Hi. pose proof (bs_Delete_ok u gm n _ (proj1 (proj2 Hw)) Hu) as Hd.
  destruct (bs_Delete u gm n (fw_bindings w)) as [b' r]. eexists. split; [|done]. simpl.
  assert (Hwr : bs_wrote (fw_bindings w) b' (mkBKey u gm n) None →
    FInv (set_bindings b' w) (<[i := Holding (bindingKey u gm n) e Shredded]> gs)).
  { intros Hwr. apply (FInv_rows w gs i _ e Shredded _ b' (mkBKey u gm n) None); [done..|]. destruct Hw as (_ & _ & _ & _ & Ik). exact (Ik _ _ Hi). }
  destruct r as [[]|]; [by apply Hwr|]. destruct Hd as [Hs|Hd]; [|by apply Hwr].
  rewrite list_insert_id by done. by apply FInv_rows_same.
Qed.

(** [Get] finds a row of the very key, which is named. *)
Lemma kept_get i g u gm n :
  lacks "|" u = true →
  kept i g (ask_bindings (bs_Get u gm n))
    (λ r, ∀ x, r = Ok x → bkey x = mkBKey u gm n ∧ named (bkey x)).
Proof.
  intros Hu. apply kept_call. intros w gs Hw Hi. split; [done|]. simpl. intros x Hx.
  pose proof (bs_Get_ok u gm n _ (proj1 (proj2 Hw)) Hu) as Hg. rewrite Hx in Hg.
  destruct (bs_row_key _ _ _ (proj1 (proj2 Hw)) Hg) as [-> ?]. done.
Qed.

Lemma kept_rows {A} i g (f : B → result (list A)) (P : A → Prop) :
  (∀ b l, bs_inv b → f b = Ok l → Forall P l) →
  kept i g (ask_bindings f) (λ r, ∀ l, r = Ok l → Forall P l).
Proof. intros Hf. apply kept_call. intros w gs Hw Hi. split; [done|]. intros l. apply Hf, Hw. Qed.

Lemma kept_list i g u :
  kept i g (ask_bindings (bs_List u)) (λ r, ∀ l, r = Ok l → Forall (λ x, named (bkey x)) l).
Proof.
  apply kept_rows. intros b l Hb Hl. destruct (bs_List_ok _ _ _ Hb Hl) as [_ Hx].
  apply Forall_forall. intros x [_ Hr]%Hx. by destruct (bs_row_key _ _ _ Hb Hr).
Qed.

(** *** The lock *)

Lemma FInv_locks w gs i g g' k' :
  FInv w gs → gs !! i = Some g → locks_ok k' (<[i := g']> gs) → knows w g' →
  FInv (set_locks k' w) (<[i := g']> gs).
Proof.
  intros (Iv & Ib & Il & Io & Ik) Hi Hl Hkn. split_and!; try done.
  intros j x [[-> ->]|[_ Hj]]%(lookup_phase_insert _ _ _ _ _ _ Hi); [done|]. exact (Ik _ _ Hj).
Qed.

Lemma kept_locked {A} i u gm n (body : go W A) (P : result A → Prop) :
  (∀ e, gsafe i (Holding (bindingKey u gm n) e Plain) body
          (λ g r, (∃ c, g = Holding (bindingKey u gm n) e c) ∧ P r)) →
  kept i Idle (locked u gm n body) P.
Proof.
  intros Hbody. unfold locked, with_lock, lock. set (key := bindingKey u gm n) in *.
  eapply (gsafe_bind _ _ _ _ _ (λ g r, ∃ e, g = Holding key e Plain ∧ r = Ok e)); [|..].
  { eapply (gsafe_bind _ _ _ _ _ (λ g r, ∃ e, g = Entered key e ∧ r = Ok e)).
    - apply gsafe_atomic. intros w gs Hw Hi. destruct (km_enter key (fw_locks w)) as [k e] eqn:E.
      exists (Entered key e). split; [|by exists e]. simpl. eapply FInv_locks; [done..| |done].
      eapply km_enter_ok; [apply Hw|done..].
    - intros g e (e' & -> & [= <-]).
      eapply (gsafe_bind _ _ _ _ _ (λ g r, g = Holding key e Plain ∧ r = Ok tt)).
      + apply gsafe_await. intros w gs w' Hw Hi Ha. destruct (km_acquire e (fw_locks w)) as [k|] eqn:E; [|done].
        injection Ha as <-. exists (Holding key e Plain). split; [|done]. eapply FInv_locks; [done..| |done].
        eapply km_acquire_ok; [apply Hw|done..].
      + intros g a [-> _]. simpl. eauto.
      + by intros g e' [_ ?].
    - by intros g e (e' & _ & ?). }
  2: by intros g e (e' & _ & ?).
  intros g e (e' & -> & [= <-]).
  eapply gsafe_bind_try; [apply Hbody|]. intros g r [(c & ->) HP]. unfold unlock.
  eapply (gsafe_bind _ _ _ _ _ (λ g r, g = Idle ∧ r = Ok tt)); [|by intros g a [-> _]|by intros g e' [_ ?]].
  eapply (gsafe_bind _ _ _ _ _ (λ g r, g = Leaving key e ∧ r = Ok tt)); [|intros g a [-> _]|by intros g e' [_ ?]].
  - apply gsafe_atomic. intros w gs Hw Hi. exists (Leaving key e). split; [|done].
    eapply FInv_locks; [done..| |done]. eapply km_release_ok; [apply Hw|done].
  - apply gsafe_atomic. intros w gs Hw Hi. exists Idle. split; [|done].
    eapply FInv_locks; [done..| |done]. eapply km_leave_ok; [apply Hw|done].
Qed.

(** ** The operations *)

Local Abbreviation any := (λ _, True).

Lemma kept_seq_with {A C} i g (p : go W A) (f : A → go W C) P :
  kept i g p P → (∀ a, P (Ok a) → kept i g (f a) any) → kept i g (mbind (M:=go W) f p) any.
Proof. intros Hp Hf. by eapply kept_bind. Qed.

Lemma kept_seq {A C} i g (p : go W A) (f : A → go W C) :
  kept i g p any → (∀ a, kept i g (f a) any) → kept i g (mbind (M:=go W) f p) any.
Proof. intros Hp Hf. by eapply kept_seq_with. Qed.

Lemma kept_seq_try {A C} i g (p : go W A) (f : result A → go W C) :
  kept i g p any → (∀ r, kept i g (f r) any) → kept i g (mbind (M:=go W) f (try p)) any.
Proof. intros Hp Hf. eapply kept_bind_try; [exact Hp|]. intros r _. apply Hf. Qed.

Lemma kept_ret {A} i g (r : result A) : kept i g (lift_result r) any.
Proof. done. Qed.
Lemma kept_mret {A} i g (a : A) : kept i g (mret (M:=go W) a) any.
Proof. done. Qed.
Lemma kept_throw {A} i g e : kept i g (throw (A:=A) (W:=W) e) any.
Proof. done. Qed.
Lemma kept_guard i g b e : kept i g (guard_err (W:=W) b e) any.
Proof. by destruct b. Qed.
Lemma kept_diverge {A} i g : kept i g (diverge (A:=A) (W:=W)) any.
Proof. intros w gs w' b _ _ Ha. destruct b. Qed.
Lemma kept_modify i g f : (∀ w, quiet_step w (f w)) → kept i g (modify f) any.
Proof. intros Hf. by apply kept_atomic. Qed.
Lemma kept_up {A} i g (f : U → U * result A) : kept i g (on_up f) any.
Proof. apply kept_call. intros w gs _ _. simpl. by destruct (f (fw_up w)). Qed.
Lemma kept_flows {A} i g (f : F → F * result A) : kept i g (on_flows f) any.
Proof. apply kept_call. intros w gs _ _. simpl. by destruct (f (fw_flows w)). Qed.
Lemma kept_ask {A} i g (f : B → result A) : kept i g (ask_bindings f) any.
Proof. by apply kept_call. Qed.
Lemma kept_fobserve i g o : kept i g (fobserve s o) any.
Proof. unfold fobserve. case_match; [by apply kept_modify|done]. Qed.
Lemma kept_fnow i g : kept i g fnow any.
Proof. apply (kept_vault i g (VqRotate 0)); [done|]. guar_tac. Qed.
Lemma kept_entropy {A} i g (f : nat → nat * result A) : kept i g (on_vault (with_entropy f)) any.
Proof. apply (kept_vault i g (VqRotate 0)); [done|]. guar_tac. Qed.
Lemma kept_getBinding i g u gm n : kept i g (getBinding u gm n) any.
Proof. eapply kept_any, kept_try, kept_ask. Qed.

#[local] Hint Resolve kept_ret kept_mret kept_throw kept_guard kept_diverge kept_up kept_flows kept_ask
  kept_fobserve kept_fnow kept_entropy kept_getBinding : kept.

(** Walks an operation that keeps what is known down to its actions. *)
Ltac kept_step :=
  match goal with
  | |- kept _ _ (mbind _ (try _)) _ => apply kept_seq_try; [|intros ?]
  | |- kept _ _ (mbind _ _) _ => apply kept_seq; [|intros ?]
  | |- kept _ _ (try _) _ => eapply kept_any, kept_try
  | |- kept _ _ (let _ := _ in _) _ => cbv zeta
  | |- kept _ _ (match ?x with _ => _ end) _ => destruct x eqn:?
  | |- _ => solve [eauto with kept nocore]
  end.
Ltac kept_tac := repeat kept_step.

Lemma kept_needsRefresh i g b : kept i g (needsRefresh b) any.
Proof. unfold needsRefresh. kept_tac. Qed.
Lemma kept_isCooling i g key : kept i g (isCooling key) any.
Proof.
  unfold isCooling. kept_step; [kept_tac|]. apply kept_atomic; [|done].
  intros w. by destruct (cooling _ _ _).
Qed.
Lemma kept_note i g key err : kept i g (noteBindingOutcome key err) any.
Proof.
  unfold noteBindingOutcome. kept_step; [kept_step; [kept_tac|]|]; by apply kept_modify.
Qed.
Lemma kept_release i g o : kept i g (Release o) any.
Proof. unfold Release. kept_tac. by apply kept_modify. Qed.
Lemma kept_read_body {A} i g caller e resp (keep : string → option (string * Z) → result A) :
  kept i g (read_body caller e resp keep) any.
Proof.
  unfold read_body. cbv zeta. kept_step.
  { apply kept_atomic; [|done]. intros w. by destruct (acquire _ _ _). }
  kept_step; [kept_tac|]. kept_step; [|kept_tac]. case_match; [kept_tac|by apply kept_modify].
Qed.
#[local] Hint Resolve kept_needsRefresh kept_isCooling kept_note kept_release kept_read_body : kept.

Lemma kept_fetchResource i g src res tok caller : kept i g (fetchResource src res tok caller) any.
Proof. unfold fetchResource. kept_tac. Qed.
Lemma kept_rawFetch i g src path query tok caller : kept i g (rawFetch src path query tok caller) any.
Proof. unfold rawFetch. kept_tac. Qed.
Lemma kept_BeginBind i g u gm n ret : kept i g (BeginBind s u gm n ret) any.
Proof. unfold BeginBind. kept_tac. Qed.
Lemma kept_post i g src endpoint form : kept i g (postRevocation src endpoint form) any.
Proof. unfold postRevocation. kept_tac. Qed.
#[local] Hint Resolve kept_fetchResource kept_rawFetch kept_BeginBind kept_post : kept.

Lemma kept_use {A} i g b (fn : bindingSecret → go W A) (P : result A → Prop) :
  (∀ secret, kept i g (fn secret) P) → (∀ e, P (Err e)) → kept i g (useBindingSecret s b fn) P.
Proof. intros Hfn HP. apply gsafe_use; [done|]. naive_solver. Qed.

Lemma kept_revokeUpstream i g src b : kept i g (revokeUpstream s src b) any.
Proof.
  unfold revokeUpstream. kept_step; [apply kept_use; [intros; kept_tac|done]|].
  kept_step; [|kept_tac]. destruct (preferredToken _) as [token hint]. kept_tac.
Qed.
#[local] Hint Resolve kept_revokeUpstream : kept.

(** *** Under the lock *)

(** Ends holding the key, whatever it has learned. *)
Definition held {A} i key e c (p : proc W A) (P : A → Prop) : Prop :=
  gsafe i (Holding key e c) p (λ g r, (∃ c', g = Holding key e c') ∧ P r).

Lemma held_kept {A} i key e c (p : proc W A) P : kept i (Holding key e c) p P → held i key e c p P.
Proof. intros Hp. eapply gsafe_mono; [exact Hp|]. intros g a [-> ?]. eauto. Qed.

Lemma held_cut i u gm n e c b :
  lacks "|" u = true → bkey b = mkBKey u gm n → held i (bindingKey u gm n) e c (cut s b u gm n) any.
Proof.
  intros Hu Hb. unfold cut.
  assert (b_User b = u) as Hbu by (by injection Hb).
  eapply gsafe_bind_try; [apply gsafe_shred; [by rewrite Hbu|by rewrite Hb]|].
  intros g [[]|err] (c' & -> & Hc); [|by split; [eexists|]]. rewrite (Hc eq_refl).
  apply held_kept. kept_step; [by apply kept_delete|]. kept_tac.
Qed.

Lemma held_bind {A C} i key e c (p : go W A) (f : A → go W C) (P : result A → Prop) Q :
  kept i (Holding key e c) p P → (∀ a, P (Ok a) → held i key e c (f a) Q) → (∀ x, Q (Err x)) →
  held i key e c (mbind (M:=go W) f p) Q.
Proof. intros Hp Hf HQ. eapply kept_bind; [exact Hp|exact Hf|]. intros x _. split; [by eexists|done]. Qed.

(** A secret is written only over a claimed row. *)
Lemma kept_store i key e b secret :
  key_string (bkey b) = key →
  kept i (Holding key e Claimed) (storeBindingSecret s b secret) any.
Proof.
  intros Hkey. unfold storeBindingSecret. destruct (json_Marshal secret) as [enc|]; [|kept_tac].
  apply (kept_vault i _ (VqEnroll (ident (bkey b)) enc None)); [by exists key, e, (bkey b)|].
  by apply guar_Enroll.
Qed.

Lemma held_bind_locked i u code flow e :
  sources_wf (fe_registry s) → lacks "|" u = true →
  held i (bindingKey u (fl_Game flow) (fl_Source flow)) e Plain (bind_locked s u code flow) any.
Proof.
  intros Hreg Hu. unfold bind_locked. set (key := bindingKey _ _ _).
  destruct (lookup_source s _ _) as [src|] eqn:Hsrc; [|by split; [eexists|]].
  pose proof (lookup_source_named _ _ _ _ _ Hreg Hu Hsrc) as Hn.
  eapply held_bind; [kept_tac|intros _ _|done].
  eapply kept_bind_try; [kept_tac|]. intros [token|err] _; [|by split; [eexists|]].
  eapply held_bind; [kept_tac|intros generation _|done]. cbv zeta. set (x := mkBinding _ _ _ _ _ _ _).
  eapply gsafe_bind; [apply (gsafe_claim i key e x); [done..|]| |].
  { intros b Hb. destruct (fl_Bound flow).
    - pose proof (bs_PutIfVersion_ok x (fl_BoundVersion flow) b Hb Hn) as Hp.
      destruct (bs_PutIfVersion _ _ _) as [b' [[]|]]; naive_solver.
    - pose proof (bs_Create_ok x b Hb Hn) as Hp. destruct (bs_Create _ _) as [b' [[]|]]; naive_solver. }
  2: { intros g err ->. by split; [eexists|]. }
  intros g [] ->; [|by split; [eexists|]].
  eapply held_bind; [kept_tac|intros _ _|done].
  eapply kept_bind_try; [by apply kept_store|]. intros [[]|err] _; [by split; [eexists|]|].
  eapply gsafe_bind_try; [by apply gsafe_shred|]. intros g [[]|rerr] (c' & -> & _); by split; [eexists|].
Qed.

Lemma kept_CompleteBind i u state code :
  sources_wf (fe_registry s) → lacks "|" u = true → kept i Idle (CompleteBind s u state code) any.
Proof.
  intros Hreg Hu. unfold CompleteBind. kept_step; [kept_tac|]. destruct r as [flow|]; [|kept_tac].
  do 4 (kept_step; [kept_tac|]). kept_step; [|kept_tac].
  apply kept_locked. intros e. by apply held_bind_locked.
Qed.

(** What a refresh returns is a binding of the same key. *)
Definition same_key (b : Binding) (r : result Binding) : Prop := ∀ x, r = Ok x → bkey x = bkey b.

Lemma held_err {A} i key e c err (P : result A → Prop) :
  P (Err err) → held i key e c (throw (A:=A) err) P.
Proof. intros HP. split; [by eexists|done]. Qed.

Lemma held_remove i b e err :
  lacks "|" (b_User b) = true →
  held i (key_string (bkey b)) e Plain
    (shredded ← try (shredSecret s b);
     match shredded with
     | Err _ => throw err
     | Ok _ => try (on_bindings (bs_Delete (b_User b) (b_Game b) (b_Source b)));; throw err
     end : go W Binding) (same_key b).
Proof.
  intros Hu. eapply gsafe_bind_try; [by apply gsafe_shred|].
  intros g [[]|err'] (c & -> & Hc); [rewrite (Hc eq_refl)|by apply held_err].
  eapply held_bind; [by eapply kept_any, kept_try, kept_delete|by intros; apply held_err|done].
Qed.

Lemma held_refreshRejected i b e :
  lacks "|" (b_User b) = true →
  held i (key_string (bkey b)) e Plain (refreshRejected s b) (same_key b).
Proof.
  intros Hu. unfold refreshRejected. cbv zeta. eapply kept_bind_try; [by apply kept_get|].
  intros [latest|err] Hl.
  - case_match; [|by apply held_remove]. split; [by eexists|]. intros x [= <-]. by destruct (Hl _ eq_refl).
  - case_match; [by apply held_err|by apply held_remove].
Qed.

Lemma kept_rotate i g src fresh secret :
  kept i g (rotate_with s src fresh secret) (λ r, ∀ x, r = Ok x → bkey x.2 = bkey fresh).
Proof.
  unfold rotate_with. eapply kept_bind; [kept_tac|intros _ _|done].
  eapply kept_bind_try; [kept_tac|]. intros [token|err] _; [|by case_match].
  split; [done|]. by intros x [= <-].
Qed.

Lemma held_refresh_locked i src current force e :
  lacks "|" (b_User current) = true →
  held i (key_string (bkey current)) e Plain (refresh_locked s src current force) (same_key current).
Proof.
  intros Hu. unfold refresh_locked. eapply held_bind; [by apply kept_get|intros fresh Hf|done].
  destruct (Hf _ eq_refl) as [Hk Hn]. change (mkBKey _ _ _) with (bkey current) in Hk.
  assert (Hgot : ∀ c, held i (key_string (bkey current)) e c (mret (M:=go W) fresh) (same_key current)).
  { intros c. split; [by eexists|]. by intros x [= <-]. }
  case_match; [apply Hgot|].
  eapply held_bind; [case_match; kept_tac|intros due _|done]. case_match; [apply Hgot|].
  case_match. { eapply held_bind; [kept_tac|by intros; apply held_err|done]. }
  unfold same_key. rewrite <-Hk. fold (same_key fresh). clear Hgot Hk.
  eapply kept_bind_try; [apply kept_use; [intros; apply kept_rotate|done]|].
  intros [[rotated updated]|err] Hr.
  2: { repeat case_match; (eapply held_bind; [kept_tac|intros|done]); [|by apply held_err..].
       apply held_refreshRejected. exact (named_user _ Hn). }
  specialize (Hr _ eq_refl). simpl in Hr.
  eapply gsafe_bind; [apply (gsafe_claim i (key_string (bkey fresh)) e updated); [by rewrite Hr|by rewrite Hr|]| |].
  { intros b Hb. pose proof (bs_PutIfVersion_ok updated (b_Version fresh) b Hb) as Hp. rewrite Hr in *.
    specialize (Hp Hn). destruct (bs_PutIfVersion _ _ _) as [b' [[]|]]; naive_solver. }
  2: { intros g err ->. by apply (held_err i _ e Plain). }
  intros g [] ->; simpl.
  - eapply kept_bind_try; [by apply kept_store; rewrite Hr|].
    intros [[]|err] _; (eapply held_bind; [kept_tac|intros|done]); [|by apply held_err].
    split; [by eexists|]. by intros x [= <-].
  - eapply held_bind; [kept_tac|intros|done]. apply held_kept. eapply gsafe_mono; [apply kept_get|].
    + exact (named_user _ Hn).
    + intros g r [-> Hg]. split; [done|]. intros x ->. by destruct (Hg _ eq_refl).
Qed.

Lemma kept_refreshBinding i src current force :
  lacks "|" (b_User current) = true →
  kept i Idle (refreshBinding s src current force) (same_key current).
Proof. intros Hu. apply kept_locked. intros e. by apply held_refresh_locked. Qed.

Lemma kept_callWithRefresh {A} i src b (fn : string → go W A) :
  lacks "|" (b_User b) = true → (∀ token, kept i Idle (fn token) any) →
  kept i Idle (callWithRefresh s src b fn) any.
Proof.
  intros Hu Hfn. unfold callWithRefresh.
  assert (Hw : ∀ b, kept i Idle (withAccessToken s b fn) any) by (intros; apply kept_use; [intros; apply Hfn|done]).
  kept_step; [kept_tac|]. eapply (kept_seq_with _ _ _ _ (same_key b)); [|intros b' Hb'].
  { case_match; [by apply kept_refreshBinding|]. split; [done|]. by intros x [= <-]. }
  assert (lacks "|" (b_User b') = true) by (specialize (Hb' _ eq_refl); injection Hb' as E _ _; by rewrite E).
  kept_step; [apply Hw|]. destruct r as [a0|err]; [kept_tac|]. case_match; [kept_tac|].
  kept_step; [by eapply kept_any, kept_refreshBinding|apply Hw].
Qed.

(** A read starts from a row of the account. *)
Lemma kept_getBinding_row i g u gm n C (f : result Binding → go W C) :
  lacks "|" u = true →
  (∀ b, b_User b = u → kept i g (f (Ok b)) any) → (∀ e, kept i g (f (Err e)) any) →
  kept i g (mbind (M:=go W) f (getBinding u gm n)) any.
Proof.
  intros Hu Hok Herr. eapply kept_bind_try; [by apply kept_get|]. intros [b|e] Hb; [|apply Herr].
  apply Hok. destruct (Hb _ eq_refl) as [Hk _]. by injection Hk.
Qed.

Lemma kept_trySource i src req :
  lacks "|" (fq_User req) = true → kept i Idle (trySource s src req) any.
Proof.
  intros Hu. unfold trySource. apply kept_getBinding_row; [done|intros b Hb|intros; kept_tac]. cbv zeta.
  do 2 (kept_step; [kept_tac|]). kept_step.
  { apply kept_callWithRefresh; [by rewrite Hb|intros; kept_tac]. }
  kept_step; [kept_tac|]. kept_step; [kept_tac|]. destruct a2. kept_tac.
Qed.

Lemma kept_Fetch i req : lacks "|" (fq_User req) = true → kept i Idle (Fetch s req) any.
Proof.
  intros Hu. unfold Fetch. kept_step; [|kept_tac]. clear Heqr. generalize 0 as n, (@None (error * string)) as last,
    (@None (string * string)) as nb, false as other.
  induction a as [|src rest IH]; intros n last nb other; cbn [fetch_loop]; [kept_tac|].
  kept_step; [by apply kept_trySource|]. destruct r as [result|err]; [kept_tac|]. case_match; apply IH.
Qed.

Lemma kept_Raw i req : lacks "|" (rawq_User req) = true → kept i Idle (Raw s req) any.
Proof.
  intros Hu. unfold Raw. cbv zeta. kept_step; [|kept_tac]. do 2 (kept_step; [kept_tac|]).
  apply kept_getBinding_row; [done|intros b Hb|intros; kept_tac].
  kept_step; [kept_tac|]. case_match; [kept_tac|]. kept_step; [|kept_tac].
  apply kept_callWithRefresh; [by rewrite Hb|intros; kept_tac].
Qed.

Lemma kept_Unbind i u gm n : lacks "|" u = true → kept i Idle (Unbind s u gm n) any.
Proof.
  intros Hu. unfold Unbind. kept_step; [kept_tac|]. apply kept_locked. intros e. unfold unbind_locked.
  eapply kept_bind_try; [by apply kept_get|]. intros [b|err] Hb; [|by split; [eexists|]].
  eapply held_bind; [kept_tac|intros told _|done].
  eapply gsafe_bind_try; [apply held_cut; [done|by destruct (Hb _ eq_refl)]|].
  intros g r [Hc _]. by split.
Qed.

Lemma kept_Cascade i u gm n : lacks "|" u = true → kept i Idle (CascadeRevoke s u gm n) any.
Proof.
  intros Hu. unfold CascadeRevoke. kept_step; [kept_tac|]. kept_step; [|kept_tac].
  kept_step; [kept_tac|]. apply kept_locked. intros e. unfold cascade_locked.
  eapply held_bind; [by apply kept_get|intros b Hb|done].
  eapply kept_bind_try; [apply (kept_use _ _ _ _ any); [intros; kept_tac|done]|].
  intros [secret|err] _; [|by apply held_err]. destruct (preferredToken secret) as [token hint].
  eapply held_bind; [kept_tac|intros _ _|done]. eapply kept_bind_try; [kept_tac|].
  intros [[]|err] _; [|by apply held_err].
  eapply gsafe_bind; [apply held_cut; [done|by destruct (Hb _ eq_refl)]|..]; intros g ? [Hc _]; by split.
Qed.

Lemma kept_shredBinding i b : lacks "|" (b_User b) = true → kept i Idle (shredBinding s b) any.
Proof.
  intros Hu. apply kept_locked. intros e.
  eapply gsafe_bind; [by apply gsafe_shred|..]; intros g ? (c & -> & Hc); [|by split; [eexists|]].
  rewrite (Hc eq_refl). by apply held_kept, kept_delete.
Qed.

Lemma kept_revokeBinding i b : lacks "|" (b_User b) = true → kept i Idle (revokeBinding s b) any.
Proof.
  intros Hu. unfold revokeBinding.
  assert (kept i Idle (unbind_outcome s b) any).
  { unfold unbind_outcome. kept_step; [by apply kept_Unbind|]. destruct a. kept_tac. }
  kept_step; [case_match; [done|kept_step; [by apply kept_Cascade|kept_tac; done]]|].
  kept_step; [by apply kept_shredBinding|kept_tac].
Qed.

Lemma kept_revokeBindings i l sum :
  Forall (λ b, named (bkey b)) l → kept i Idle (revokeBindings s l sum) any.
Proof.
  intros Hl. revert sum. induction Hl as [|b l Hb _ IH]; intros sum; cbn [revokeBindings]; [kept_tac|].
  kept_step; [by apply kept_revokeBinding, (named_user _ Hb)|apply IH].
Qed.

Lemma kept_RevokeUser i u : kept i Idle (RevokeUserBindings s u) any.
Proof.
  unfold RevokeUserBindings. kept_step; [kept_tac|]. eapply kept_seq_with; [apply kept_list|intros l Hl].
  apply kept_revokeBindings. by apply Hl.
Qed.

Lemma kept_sweep i fuel pager u gm n sum :
  (0 < fe_sweepPage s)%Z → bs_ListAllPage = Some pager → kept i Idle (sweep_pages s pager fuel u gm n sum) any.
Proof.
  intros Hpos Hp. revert u gm n sum. induction fuel as [|fuel IH]; intros u gm n sum; cbn [sweep_pages]; [kept_tac|].
  eapply kept_bind_try; [apply (kept_rows i Idle _ (λ x, named (bkey x)))|].
  { intros b l Hb Hl. destruct (bs_Page_ok _ _ _ _ _ _ _ Hb Hp Hpos Hl) as (rows & _ & Hx & ->).
    apply Forall_take, Forall_forall. intros x [Hr _]%Hx. by destruct (bs_row_key _ _ _ Hb Hr). }
  intros [page|err] Hl; [|by split]. case_match; [|by split].
  apply kept_seq; [by apply kept_revokeBindings, Hl|]. intros sum'. case_match; [kept_tac|apply IH].
Qed.

Lemma kept_RevokeAll i fuel : (0 < fe_sweepPage s)%Z → kept i Idle (RevokeAllBindings s fuel) any.
Proof.
  intros Hpos. unfold RevokeAllBindings. destruct bs_ListAllPage as [pager|] eqn:Hp; [by apply kept_sweep|].
  eapply kept_bind_try; [apply (kept_rows i Idle _ (λ x, named (bkey x)))|].
  { intros b l Hb Hl. destruct (bs_ListAll_ok _ _ Hb Hl) as (_ & Hx).
    apply Forall_forall. intros x Hr%Hx. by destruct (bs_row_key _ _ _ Hb Hr). }
  intros [all|err] Hl; [|by split]. apply kept_seq; [by apply kept_revokeBindings, Hl|]. intros. kept_tac.
Qed.

(** *** A pool of requests *)

(** What can run at once: every operation of the service, a worker of the kill
    switch, an operation of the vault itself, the clock. *)
Inductive frequest :=
| FqBeginBind (user game source returnTo : string)
| FqCompleteBind (user state code : string)
| FqFetch (req : FetchRequest)
| FqRaw (req : RawRequest)
| FqRelease (o : option (string * Z))
| FqUnbind (user game source : string)
| FqCascadeRevoke (user game source : string)
| FqRevokeUserBindings (user : string)
| FqRevokeAllBindings (fuel : nat)
| FqRevokeBinding (b : Binding)
| FqPurgeUserFlows (user : string)
| FqVault (rq : vrequest)
| FqClock (now : Z).

Definition set_clock (now : Z) (v : VWorld MemoryRepo Lg) : VWorld MemoryRepo Lg :=
  mkVWorld (vw_repo v) (vw_audit v) now (vw_entropy v) (vw_observed v).

Definition fserve (rq : frequest) : go W unit :=
  match rq with
  | FqBeginBind u g n ret => BeginBind s u g n ret;; mret tt
  | FqCompleteBind u st c => CompleteBind s u st c;; mret tt
  | FqFetch req => Fetch s req;; mret tt
  | FqRaw req => Raw s req;; mret tt
  | FqRelease o => Release o
  | FqUnbind u g n => Unbind s u g n;; mret tt
  | FqCascadeRevoke u g n => CascadeRevoke s u g n;; mret tt
  | FqRevokeUserBindings u => RevokeUserBindings s u;; mret tt
  | FqRevokeAllBindings fuel => RevokeAllBindings s fuel;; mret tt
  | FqRevokeBinding b => revokeBinding s b;; mret tt
  | FqPurgeUserFlows u => on_flows (fs_PurgeUserFlows u);; mret tt
  | FqVault rq => on_vault (vserve (fe_vault s) rq);; mret tt
  | FqClock now => modify (λ w, set_vault (set_clock now (fw_vault w)) w)
  end.

(** An account identifier has no [|]; secrets are written by the service only. *)
Definition frequest_ok (rq : frequest) : Prop :=
  match rq with
  | FqCompleteBind u _ _ | FqUnbind u _ _ | FqCascadeRevoke u _ _ => lacks "|" u = true
  | FqFetch req => lacks "|" (fq_User req) = true
  | FqRaw req => lacks "|" (rawq_User req) = true
  | FqRevokeBinding b => lacks "|" (b_User b) = true
  | FqVault (VqEnroll _ _ _) => False
  | _ => True
  end.

Lemma kept_fserve i rq :
  sources_wf (fe_registry s) → (0 < fe_sweepPage s)%Z → frequest_ok rq → kept i Idle (fserve rq) any.
Proof.
  intros Hreg Hpos Hok. destruct rq; cbn [fserve frequest_ok] in *; try (apply kept_seq; [|intros; kept_tac]).
  - kept_tac.
  - by apply kept_CompleteBind.
  - by apply kept_Fetch.
  - by apply kept_Raw.
  - kept_tac.
  - by apply kept_Unbind.
  - by apply kept_Cascade.
  - apply kept_RevokeUser.
  - by apply kept_RevokeAll.
  - by apply kept_revokeBinding.
  - kept_tac.
  - apply (kept_vault i Idle rq); [by destruct rq|]. by apply guar_vserve.
  - by apply kept_modify.
Qed.

(** C11. No orphaned credential. Take any number of bind, read, refresh, disconnect,
    cascade, erasure and kill-switch requests, with key rotations and erasures of
    the vault beside them, over a store that meets its contract (an operation
    that fails may still have taken effect), and any interleaving of their
    actions. If every upstream token in the vault had its binding row at the
    start it has one at every moment: no token is ever left where the listing and
    the kill switch cannot see it. And when all requests are done no lock is left
    behind. *)
Theorem no_orphan_secret rqs w w' ps' :
  sources_wf (fe_registry s) → (0 < fe_sweepPage s)%Z → Forall frequest_ok rqs →
  vault_ok (fe_vault s) (vw_repo (fw_vault w)) → bs_inv (fw_bindings w) → fw_locks w = NewKeyedMutex →
  owned w → preach (w, fserve <$> rqs) (w', ps') →
  (∀ k, sourced k → fsecret w' k ≠ None → is_Some (bs_row (fw_bindings w') k)) ∧
  ((∀ p, p ∈ ps' → ∃ r, p = Ret r) → km_m (fw_locks w') = ∅).
Proof.
  intros Hreg Hpos Hok Hv Hb Hl Ho Hr.
  destruct (gsafe_reach FInv (λ _ g _, g = Idle) w (fserve <$> rqs) (replicate (length rqs) Idle) w' ps')
    as (gs' & (_ & _ & Il & Io & _) & Hlen & Hps); [| | |exact Hr|].
  - split_and!; try done; [rewrite Hl; apply NewKeyedMutex_ok|]. by intros i g [-> _]%lookup_replicate.
  - by rewrite length_replicate, length_fmap.
  - intros i p g (rq & -> & Hrq)%list_lookup_fmap_Some [-> _]%lookup_replicate.
    eapply gsafe_mono; [apply (kept_fserve i rq); [done..|]|by intros g' a []].
    rewrite Forall_forall in Hok. by eapply Hok, list_elem_of_lookup_2.
  - split; [exact Io|]. intros Hdone. apply (locks_no_leak _ gs' Il), Forall_forall. intros g [i Hi]%list_elem_of_lookup_1.
    destruct (lookup_lt_is_Some_2 ps' i) as [p Hp]; [rewrite <-Hlen; by eapply lookup_lt_Some|].
    destruct (Hdone p) as [r ->]; [by eapply list_elem_of_lookup_2|]. exact (Hps i _ g Hp Hi).
Qed.
End interleaved.
