(* ===== verification/FedRun.v ===== *)
(** * The data plane, one request at a time

    What the parts of an operation do when nothing else runs: reading and writing
    a binding's secret, its row, the lock. [FedProps] puts them together. *)

From S2P Require Import Prelude GoStd Proc AuditLog VaultRepo VaultEnvelope Vault VaultProps.
From S2P Require Import FedRegistry RawPath FedStore FedLimits FedLocks Fed.

#[export] Instance vault_lens {Rp Lg B F U} : Lens (@fw_vault Rp Lg B F U) set_vault.
Proof. split; [done|done|by intros []]. Qed.

Section alone.
Context `{Platform} `{Entropy} `{Aead} `{!AeadOk} `{Json} `{!JsonOk}.
Context {Lg B F U : Type} `{Logger Lg} `{BindingStore B} `{!BindingStoreOk B} `{BindFlowStore F} `{Upstream U}.
Context (s : federation) `{!KeysOk (fe_vault s)}.
Local Abbreviation W := (FWorld MemoryRepo Lg B F U).
Implicit Types w : W.

(** What the properties are about: the row of a key, the secret of an identity. *)
Definition row w (k : bindingIndexKey) : option Binding := bs_row (fw_bindings w) k.
Definition secretAt w (id : Identity) : option string := secret_of (fe_vault s) (fw_vault w) id.

(** The stores are in order, and nobody holds a lock. *)
Definition stores_ok w : Prop := vault_ok (fe_vault s) (vw_repo (fw_vault w)) ∧ bs_inv (fw_bindings w).
Definition rests w : Prop := stores_ok w ∧ km_m (fw_locks w) = ∅.

(** The audit log takes every event. *)
Definition log_takes_all : Prop := ∀ t e (l : Lg), (log_Record t e l).2 = None.

(** The generator and the key that wraps do their work. *)
Definition crypto_works : Prop :=
  EntropyOk ∧ ∀ n dek aad, ∃ n' b, kw_Wrap (vs_current (fe_vault s)) n dek aad = (n', Ok b).

(** Only the vault moved. *)
Definition in_vault w w' : Prop :=
  w' = set_vault (fw_vault w') w ∧ vault_ok (fe_vault s) (vw_repo (fw_vault w')).

(** ** The vault *)

Lemma log_accepts e (v : VWorld MemoryRepo Lg) : log_takes_all → accepts e v.
Proof.
  intros Hl. unfold accepts, audited. specialize (Hl (vw_clock v) (stamp (vw_clock v) e) (vw_audit v)).
  destruct (log_Record _ _ _) as [l o]. simpl in *. by subst.
Qed.

Lemma VRevoke_spec id (v : VWorld MemoryRepo Lg) :
  vault_ok (fe_vault s) (vw_repo v) → validate id = None →
  runs (VRevoke (fe_vault s) id) v (λ v' r,
    vault_ok (fe_vault s) (vw_repo v') ∧
    (∀ id', secret_of (fe_vault s) v' id' =
       if decide (id' = id) then None else secret_of (fe_vault s) v id') ∧
    (log_takes_all → r = Ok tt)).
Proof.
  intros Hv Hid. unfold VRevoke. rewrite Hid.
  pose proof (vault_ok_Delete (fe_vault s) _ id Hv) as Hok.
  pose proof (stored_secret_Delete (fe_vault s) (vw_repo v) id) as Hst.
  set (r1 := (MemoryRepo_Delete id (vw_repo v)).1) in *.
  eapply (runs_bind_try _ _ _ (λ v1 r, vw_repo v1 = r1 ∧ (r = Ok tt ∨ r = Err ErrNotFound))).
  { apply runs_call. cbn [repo_Delete memory_repo]. unfold r1, MemoryRepo_Delete.
    destruct (mr_records (vw_repo v) !! id); simpl; auto. }
  intros v0 r [Hr0 Hr]. eapply (runs_bind _ _ _ (λ v1 r, v1 = v0 ∧ r = Ok tt)); [|intros v1 _ [-> _]|by intros v' e [_ ?]].
  { by destruct Hr as [->| ->]. }
  unfold runs. rewrite run_bind, run_try, run_vrecord. set (ev := mkEvent _ _ _ _ _ _).
  pose proof (audited_world ev v0) as (Hr2 & _). pose proof (log_accepts ev v0) as Hacc. unfold accepts in Hacc.
  destruct (audited ev v0) as [v2 [err|]]; cbn [fst snd] in *; rewrite ?run_bind, run_observe;
    unfold secret_of; cbn; rewrite (proj1 (noticed_world _ _ _ _)), Hr2, Hr0; split_and!; try done.
  intros Hl. by specialize (Hacc Hl).
Qed.

Lemma runs_shred b w :
  stores_ok w → validate (BindingIdentity b) = None →
  runs (shredSecret s b) w (λ w' r,
    in_vault w w' ∧
    (∀ id, secretAt w' id = if decide (id = BindingIdentity b) then None else secretAt w id) ∧
    (log_takes_all → r = Ok tt)).
Proof.
  intros [Hv _] Hu. unfold shredSecret, on_vault. apply runs_zoom; [apply _|].
  eapply runs_mono; [by apply VRevoke_spec|by intros v' r (? & ? & ?)].
Qed.

Lemma runs_store b secret w :
  stores_ok w → json_text (sec_AccessToken secret) → json_text (sec_RefreshToken secret) →
  runs (storeBindingSecret s b secret) w (λ w' r,
    in_vault w w' ∧
    match r with
    | Err _ => ∀ id, secretAt w' id = secretAt w id
    | Ok _ => ∃ enc, json_Unmarshal enc = Ok secret ∧
        ∀ id, secretAt w' id = if decide (id = BindingIdentity b) then Some enc else secretAt w id
    end ∧
    (validate (BindingIdentity b) = None → crypto_works → log_takes_all → r = Ok tt)).
Proof.
  intros [Hv _] Ha Hr. unfold storeBindingSecret, on_vault.
  destruct (json_roundtrip secret Ha Hr) as (enc & -> & Hdec). apply runs_zoom; [apply _|].
  destruct (Enroll_spec (fe_vault s) (BindingIdentity b) enc
    (Some (<["game" := b_Game b]> {[ "source" := b_Source b ]})) (fw_vault w) Hv) as (v' & r & Hrun & Hres & Hsucc).
  eapply runs_intro; [exact Hrun|]. split; [|split].
  - destruct r as [[]|err]; [by destruct Hres as (_ & ? & _)|]. split; [done|]. simpl. by rewrite Hres.
  - destruct r as [[]|err]; [destruct Hres as (_ & Hok & Hs & _); exists enc; by split|].
    intros id. unfold secretAt, secret_of. simpl. by rewrite Hres.
  - intros Hid [Hent Hwrap] Hlog. apply Hsucc; [done..|]. by apply log_accepts.
Qed.

(** The vault window: the callback runs with the stored pair, in a world in
    which only the log moved; without a secret, or when the log refuses, it does
    not run. *)
Definition logged w w' : Prop := in_vault w w' ∧ vw_repo (fw_vault w') = vw_repo (fw_vault w).

Lemma logged_secret w w' : logged w w' → ∀ id, secretAt w' id = secretAt w id.
Proof. intros [_ Hr] id. unfold secretAt, secret_of. by rewrite Hr. Qed.

Lemma logged_trans w w' w'' : logged w w' → logged w' w'' → logged w w''.
Proof.
  intros [[E Hv] Hr] [[E' Hv'] Hr']. split; [|congruence]. split; [|done].
  rewrite E', E. done.
Qed.

Lemma logged_event e w :
  stores_ok w → logged w (set_vault (audited e (fw_vault w)).1 w).
Proof.
  intros [Hv _]. destruct (audited_world e (fw_vault w)) as (Hr & _). split; [|done].
  split; [done|]. simpl. by rewrite Hr.
Qed.

Lemma logged_noticed op res w : stores_ok w → logged w (set_vault (noticed (fe_vault s) op res (fw_vault w)) w).
Proof.
  intros [Hv _]. pose proof (proj1 (noticed_world (fe_vault s) op res (fw_vault w))) as Hr.
  split; [|done]. split; [done|]. simpl. by rewrite Hr.
Qed.

Lemma logged_stores w w' : stores_ok w → logged w w' → stores_ok w'.
Proof. intros [_ Hb] [[E Hv] _]. split; [done|]. by rewrite E. Qed.

(** The error of a use the log refused. *)
Definition log_refusal (err : error) : Prop :=
  ∃ t e (l : Lg) cause m, (log_Record t e l).2 = Some cause ∧ err = Wrap m cause.
Lemma no_refusal err : log_takes_all → ¬ log_refusal err.
Proof. intros Hlog (t & e & l & cause & m & Hr & _). by rewrite Hlog in Hr. Qed.
Lemma audited_refusal e (v : VWorld MemoryRepo Lg) err : (audited e v).2 = Some err → log_refusal err.
Proof.
  unfold audited. destruct (log_Record _ _ _) as [l [cause|]] eqn:Er; [|done]. intros [= <-].
  eexists _, _, _, cause, _. split; [by rewrite Er|done].
Qed.

Lemma runs_use {A} b (fn : bindingSecret → go W A) w Q :
  stores_ok w → validate (BindingIdentity b) = None →
  (∀ w1, logged w w1 →
     match secretAt w (BindingIdentity b) with
     | None => ∀ err, errors_Is err ErrNotFound = true →
         (log_takes_all → err = errors_Join ErrNotFound None) → Q w1 (Err err)
     | Some plain =>
         (∀ err, log_refusal err → Q w1 (Err err)) ∧
         match json_Unmarshal plain with
         | Err err => Q w1 (Err (Wrap ("federation: decode binding secret: " +:+ Error err) err))
         | Ok secret => runs (fn secret) w1 (λ w2 r, stores_ok w2 ∧ ∀ w3, logged w2 w3 → Q w3 r)
         end
     end) →
  runs (useBindingSecret s b fn) w Q.
Proof.
  intros Hok Hid Hq. unfold runs, useBindingSecret.
  rewrite (run_UseIn _ (@on_vault MemoryRepo Lg B F U) fw_vault set_vault); [|intros; apply run_zoom, vault_lens|apply Hok|done].
  change (secret_of (fe_vault s) (fw_vault w) (BindingIdentity b)) with (secretAt w (BindingIdentity b)).
  destruct (secretAt w (BindingIdentity b)) as [plain|].
  - set (ev := vault_event _ _ _). pose proof (logged_event ev w Hok) as Hlog.
    pose proof (audited_refusal ev (fw_vault w)) as Hacc.
    destruct (audited ev (fw_vault w)) as [v1 [err|]]; cbn [fst snd] in *.
    + apply (Hq (set_vault _ w)); [|by apply Hacc].
      eapply logged_trans; [exact Hlog|]. apply (logged_noticed _ _ (set_vault v1 w)). exact (logged_stores _ _ Hok Hlog).
    + destruct (json_Unmarshal plain) as [secret|err]; [destruct (Hq _ Hlog) as [_ Hfn]|].
      * apply runs_elim in Hfn as (w2 & r & -> & Hok2 & Hk). apply Hk. by apply logged_noticed.
      * apply (Hq (set_vault _ w)). eapply logged_trans; [exact Hlog|].
        apply (logged_noticed _ _ (set_vault v1 w)). exact (logged_stores _ _ Hok Hlog).
  - set (ev := vault_event _ _ _). pose proof (logged_event ev w Hok) as Hlog.
    pose proof (log_accepts ev (fw_vault w)) as Hacc. unfold accepts in Hacc.
    destruct (audited ev (fw_vault w)) as [v1 aerr]; cbn [fst snd] in *.
    apply (Hq (set_vault _ w)).
    + eapply logged_trans; [exact Hlog|]. apply (logged_noticed _ _ (set_vault v1 w)). exact (logged_stores _ _ Hok Hlog).
    + by destruct aerr.
    + intros Hl. by rewrite (Hacc Hl).
Qed.

(** The token pair stored for an identity. *)
Definition stored_pair w (id : Identity) : option bindingSecret :=
  match secretAt w id with
  | Some plain => match json_Unmarshal plain with Ok toks => Some toks | Err _ => None end
  | None => None
  end.

Lemma runs_pair b w :
  stores_ok w → validate (BindingIdentity b) = None →
  runs (useBindingSecret s b (λ sec, mret sec)) w (λ w' r,
    logged w w' ∧
    match r with
    | Ok toks => stored_pair w (BindingIdentity b) = Some toks
    | Err err =>
        match secretAt w (BindingIdentity b) with
        | None => errors_Is err ErrNotFound = true
        | Some plain => log_refusal err ∨ ∃ m e, json_Unmarshal plain = Err e ∧ err = Wrap m e
        end
    end).
Proof.
  intros Hok Hid. apply runs_use; [done..|]. intros w1 Hl. unfold stored_pair.
  destruct (secretAt w (BindingIdentity b)) as [plain|]; [|done]. split; [by auto|].
  destruct (json_Unmarshal plain) as [toks|err]; [|by eauto 10]. split; [exact (logged_stores _ _ Hok Hl)|].
  intros w3 Hl3. split; [by eapply logged_trans|done].
Qed.

Lemma no_pair w id err : log_takes_all →
  match secretAt w id with
  | None => errors_Is err ErrNotFound = true
  | Some plain => log_refusal err ∨ ∃ m e, json_Unmarshal plain = Err e ∧ err = Wrap m e
  end → stored_pair w id = None.
Proof.
  intros Hlog. unfold stored_pair. destruct (secretAt w id) as [plain|]; [|done].
  intros [Hr|(m & e & -> & _)]; [by apply no_refusal in Hr|done].
Qed.

Lemma run_fnow w : run fnow w = Some (w, Ok (vw_clock (fw_vault w))).
Proof.
  unfold fnow, on_vault. rewrite run_zoom by apply _. unfold vnow. rewrite run_reads.
  by rewrite (lens_set_get w).
Qed.
Lemma runs_fnow {C} (f : Z → go W C) w Q : runs (f (vw_clock (fw_vault w))) w Q → runs (fnow ≫= f) w Q.
Proof. unfold runs. by rewrite run_bind, run_fnow. Qed.

(** ** Rows *)

(** A store that answers: no failure but "not bound". *)
Definition store_answers : Prop :=
  (∀ u g n (b : B) e, bs_Get u g n b = Err e → errors_Is e ErrNotBound = true) ∧
  (∀ u g n (b : B), (bs_Delete u g n b).2 = Ok tt) ∧
  (∀ x v (b : B), is_ok (bs_PutIfVersion x v b).2 = true) ∧
  (∀ x (b : B), is_ok (bs_Create x b).2 = true) ∧
  (∀ b : B, is_ok (bs_ListAll b) = true) ∧
  (∀ pager u g n limit (b : B), bs_ListAllPage = Some pager → is_ok (pager u g n limit b) = true).

Lemma runs_get {C} u g n w (f : Binding → go W C) (Q : W → result C → Prop) :
  stores_ok w → lacks "|" u = true →
  (∀ x, row w (mkBKey u g n) = Some x → runs (f x) w Q) →
  (∀ e, (errors_Is e ErrNotBound = true → row w (mkBKey u g n) = None) →
     (store_answers → row w (mkBKey u g n) = None) → Q w (Err e)) →
  runs (mbind (M:=go W) f (ask_bindings (bs_Get u g n))) w Q.
Proof.
  intros [_ Hb] Hu Hok Herr. pose proof (bs_Get_ok u g n _ Hb Hu) as Hg.
  eapply (runs_bind _ _ _ (λ w' r, w' = w ∧ r = bs_Get u g n (fw_bindings w))); [by apply runs_call|..].
  - intros w' x [-> Hx]. rewrite <-Hx in Hg. by apply Hok.
  - intros w' e [-> He]. rewrite <-He in Hg. apply Herr; [done|]. intros (Hans & _).
    by eapply Hg, Hans, eq_sym.
Qed.

Lemma runs_getBinding {C} u g n w (f : result Binding → go W C) (Q : W → result C → Prop) :
  stores_ok w → lacks "|" u = true →
  (∀ x, row w (mkBKey u g n) = Some x → runs (f (Ok x)) w Q) →
  (∀ e, (errors_Is e ErrNotBound = true → row w (mkBKey u g n) = None) →
     (store_answers → errors_Is e ErrNotBound = true) → runs (f (Err e)) w Q) →
  runs (mbind (M:=go W) f (getBinding u g n)) w Q.
Proof.
  intros [_ Hb] Hu Hok Herr. pose proof (bs_Get_ok u g n _ Hb Hu) as Hg. unfold getBinding.
  eapply (runs_bind_try _ _ _ (λ w' r, w' = w ∧ r = bs_Get u g n (fw_bindings w))); [by apply runs_call|..].
  intros w' r [-> Hr]. rewrite <-Hr in Hg. destruct r as [x|e]; [by apply Hok|]. apply Herr; [done|].
  intros (Hans & _). by eapply Hans.
Qed.

(** A write that concerns one key. *)
Definition at_key (k : bindingIndexKey) w w' : Prop :=
  stores_ok w' ∧ fw_locks w' = fw_locks w ∧
  (∀ id, id ≠ ident k → secretAt w' id = secretAt w id) ∧ (∀ k', k' ≠ k → row w' k' = row w k').

Lemma at_key_trans k w w' w'' : at_key k w w' → at_key k w' w'' → at_key k w w''.
Proof.
  intros (_ & E1 & E3 & E4) (? & E1' & E3' & E4'). split_and!; [done|congruence|..].
  - intros id Hid. by rewrite E3', E3.
  - intros k' Hk'. by rewrite E4', E4.
Qed.

Lemma in_vault_stores w w' : stores_ok w → in_vault w w' → stores_ok w'.
Proof. intros [_ Hb] [E Hv]. split; [done|]. by rewrite E. Qed.

Lemma in_vault_at_key k w w' :
  stores_ok w → in_vault w w' → (∀ id, id ≠ ident k → secretAt w' id = secretAt w id) → at_key k w w'.
Proof.
  intros Hok Hin Hs. split; [by eapply in_vault_stores|]. destruct Hin as [E _]. rewrite E.
  by split_and!.
Qed.

Lemma logged_at_key k w w' : stores_ok w → logged w w' → at_key k w w'.
Proof. intros Hok Hl. apply in_vault_at_key; [done|apply Hl|]. intros id _. by apply logged_secret. Qed.

Lemma runs_delete u g n w :
  stores_ok w → lacks "|" u = true →
  runs (on_bindings (bs_Delete u g n)) w (λ w' r,
    at_key (mkBKey u g n) w w' ∧ (∀ id, secretAt w' id = secretAt w id) ∧
    (row w' (mkBKey u g n) = None ∨ is_ok r = false ∧ row w' (mkBKey u g n) = row w (mkBKey u g n)) ∧
    (store_answers → r = Ok tt)).
Proof.
  intros [Hv Hb] Hu. apply runs_call. pose proof (bs_Delete_ok u g n _ Hb Hu) as Hd.
  assert (Hans : store_answers → (bs_Delete u g n (fw_bindings w)).2 = Ok tt) by (intros (_ & Hdel & _); apply Hdel).
  destruct (bs_Delete u g n (fw_bindings w)) as [b' r]. simpl in *. unfold at_key, stores_ok, row. simpl.
  destruct r as [[]|err]; [destruct Hd as (? & ? & ?); by split_and!; auto|].
  destruct Hd as [[? Hr]|(? & ? & ?)]; split_and!; auto.
Qed.

(** The secret always goes; the row with it, unless the log or the store fails. *)
Lemma runs_cut b u g n w :
  stores_ok w → lacks "|" u = true → bkey b = mkBKey u g n → validate (BindingIdentity b) = None →
  runs (cut s b u g n) w (λ w' r,
    at_key (mkBKey u g n) w w' ∧ secretAt w' (ident (mkBKey u g n)) = None ∧
    (row w' (mkBKey u g n) = None ∨ is_ok r = false ∧ row w' (mkBKey u g n) = row w (mkBKey u g n)) ∧
    (log_takes_all → store_answers → r = Ok tt)).
Proof.
  intros Hok Hu Hk Hid. assert (Hident : BindingIdentity b = ident (mkBKey u g n)) by (by rewrite <-Hk).
  unfold cut. eapply runs_bind_try; [by apply runs_shred|]. intros w1 r (Hin & Hs & Hlog).
  assert (Ha1 : at_key (mkBKey u g n) w w1).
  { apply in_vault_at_key; [done..|]. intros id Hne. rewrite Hs, decide_False; [done|]. by rewrite Hident. }
  assert (Hgone : secretAt w1 (ident (mkBKey u g n)) = None) by (by rewrite Hs, Hident, decide_True).
  destruct r as [[]|err].
  - eapply runs_bind_try; [apply runs_delete; [apply Ha1|done]|]. intros w2 r (Ha2 & Hs2 & Hrow & Hans).
    assert (Hr1 : row w1 (mkBKey u g n) = row w (mkBKey u g n)) by (unfold row; by rewrite (proj1 Hin)).
    assert (Ha12 : at_key (mkBKey u g n) w w2) by (by eapply at_key_trans). rewrite Hr1 in Hrow.
    destruct r as [[]|err]; (split; [done|]; split; [by rewrite Hs2|]); (split; [naive_solver|]); [done|].
    intros _ Ha. by specialize (Hans Ha).
  - split; [done|]. split; [done|]. split; [right; split; [done|]; unfold row; by rewrite (proj1 Hin)|].
    intros Hl. by specialize (Hlog Hl).
Qed.

(** ** The source *)

(** Only the state of the upstream and the vault's log moved. *)
Definition asked w w' : Prop := logged w (set_up (fw_up w) w') ∧ fw_locks w' = fw_locks w.

Lemma asked_secret w w' : asked w w' → ∀ id, secretAt w' id = secretAt w id.
Proof. intros [Hl _] id. by rewrite <-(logged_secret _ _ Hl). Qed.
Lemma asked_row w w' : asked w w' → ∀ k, row w' k = row w k.
Proof.
  intros [[[E _] _] _] k. unfold row. apply (f_equal fw_bindings) in E. simpl in E. by rewrite E.
Qed.
Lemma asked_at_key k w w' : stores_ok w → asked w w' → at_key k w w'.
Proof.
  intros Hok Ha. pose proof Ha as [Hl Hk]. split_and!.
  - exact (logged_stores _ _ Hok Hl).
  - done.
  - intros id _. by apply asked_secret.
  - intros k' _. by apply asked_row.
Qed.
Lemma logged_asked w w' : logged w w' → asked w w'.
Proof.
  intros Hl. pose proof Hl as [[E _] _]. split; [|by rewrite E].
  assert (Heq : set_up (fw_up w) w' = w'); [|by rewrite Heq].
  rewrite E at 1. rewrite E at 2. done.
Qed.
Lemma asked_trans w w' w'' : asked w w' → asked w' w'' → asked w w''.
Proof.
  intros [[[E Hv] Hr] Hk] [[[E' Hv'] Hr'] Hk']. split; [|congruence]. simpl in *.
  split; [split; [|done]|simpl; congruence].
  destruct w, w', w''. unfold set_up, set_vault in *. simpl in *. congruence.
Qed.
Lemma logged_refl w : stores_ok w → logged w w.
Proof. intros [Hv _]. split; [split; [by destruct w|done]|done]. Qed.
Lemma asked_refl w : stores_ok w → asked w w.
Proof. intros. by apply logged_asked, logged_refl. Qed.
Lemma asked_up u w : stores_ok w → asked w (set_up u w).
Proof. intros [Hv _]. split; [|done]. destruct w. by split. Qed.

(** The source answered a revocation request at [endpoint] for the stored pair
    with a success. *)
Definition confirmed (src : Source) (endpoint : string) (toks : bindingSecret) w : Prop :=
  (preferredToken toks).1 ≠ EmptyString ∧
  ∃ req u' resp,
    newRequest "POST" endpoint [("Content-Type", "application/x-www-form-urlencoded")]
      (Some (url_QueryEscape (src_ClientID src), url_QueryEscape (src_ClientSecret src)))
      (url_Encode (revocation_form (preferredToken toks).1 (preferredToken toks).2)) = Ok req ∧
    http_Do req (fw_up w) = (u', Ok resp) ∧ (rs_StatusCode resp < 300)%Z.

Lemma runs_post src endpoint toks w :
  stores_ok w → (preferredToken toks).1 ≠ EmptyString →
  runs (postRevocation src endpoint (revocation_form (preferredToken toks).1 (preferredToken toks).2)) w
    (λ w' r, asked w w' ∧ (is_ok r = true ↔ confirmed src endpoint toks w)).
Proof.
  intros Hok Hne. unfold postRevocation, confirmed. destruct (newRequest _ _ _ _ _) as [req|err] eqn:E.
  2: { split; [by apply asked_refl|]. split; [done|]. by intros (_ & ? & ? & ? & ? & _). }
  unfold runs. rewrite run_bind. unfold on_up. rewrite run_call.
  destruct (http_Do req (fw_up w)) as [u' [resp|err]] eqn:Ed.
  - rewrite run_guard. split; [by apply asked_up|]. split.
    + destruct (Z.leb_spec 300 (rs_StatusCode resp)); [done|]. intros _. split; [done|]. by exists req, u', resp.
    + intros (_ & req' & u'' & resp' & [= <-] & Hd & Hst). rewrite Ed in Hd. injection Hd as <- <-.
      by rewrite (proj2 (Z.leb_gt _ _)).
  - split; [by apply asked_up|]. split; [done|]. intros (_ & req' & u'' & resp' & [= <-] & Hd & _). congruence.
Qed.

(** ** The lock *)

(** Alone, taking a key succeeds, and giving it back leaves no entry. *)
Lemma run_lock key w :
  km_m (fw_locks w) = ∅ →
  ∃ k e, run (lock fw_locks set_locks key) w = Some (set_locks k w, Ok e) ∧
    ∀ w', fw_locks w' = k →
      ∃ k', run (unlock fw_locks set_locks key e) w' = Some (set_locks k' w', Ok tt) ∧ km_m k' = ∅.
Proof.
  intros Hm. set (e := km_next (fw_locks w)).
  set (k0 := mkKeyed {[ key := e ]} (<[e := mkEntry false 1]> (km_heap (fw_locks w))) (S e)).
  assert (Henter : km_enter key (fw_locks w) = (k0, e)) by (unfold km_enter; by rewrite Hm, lookup_empty).
  assert (Hacq : km_acquire e k0 = Some (km_write e (mkEntry true 1) k0)).
  { unfold km_acquire, km_entry. simpl. by rewrite lookup_insert_eq. }
  exists (km_write e (mkEntry true 1) k0), e. split.
  - unfold lock. rewrite run_bind, run_atomic, Henter, run_bind, run_await. cbn [fst snd].
    by change (fw_locks (set_locks k0 w)) with k0; rewrite Hacq.
  - intros w' Hk. unfold unlock. rewrite run_bind, !run_modify. eexists. split; [done|]. simpl.
    rewrite Hk. unfold km_leave, km_release, km_entry. simpl. rewrite !lookup_insert_eq. simpl.
    by rewrite delete_singleton_eq.
Qed.

Lemma runs_locked {A} u g n (body : go W A) w (Q : W → result A → Prop) :
  km_m (fw_locks w) = ∅ →
  (∀ k, runs body (set_locks k w) (λ w' r, fw_locks w' = k ∧ ∀ k', km_m k' = ∅ → Q (set_locks k' w') r)) →
  runs (locked u g n body) w Q.
Proof.
  intros Hm Hbody. unfold locked, with_lock, runs. set (key := bindingKey u g n).
  destruct (run_lock key w Hm) as (k & e & Hlock & Hunlock). rewrite run_bind, Hlock, run_bind, run_try.
  destruct (runs_elim _ _ _ (Hbody k)) as (w1 & r & -> & Hk & HQ).
  destruct (Hunlock w1 Hk) as (k' & Hu & Hm'). rewrite run_bind, Hu, run_lift. by apply HQ.
Qed.
End alone.

(** The stores in memory answer, and the ring takes every event. *)
Lemma memory_answers : store_answers (B:=MemoryBindingStore).
Proof.
  split_and!.
  - intros u g n b e. simpl. unfold Bindings_Get. destruct (mb_m b !! _); [done|]. by intros [= <-].
  - intros u g n b. simpl. unfold Bindings_Delete. by destruct (mb_m b !! _).
  - intros x v b. simpl. unfold Bindings_PutIfVersion. destruct (mb_m b !! _); [|done]. by case_match.
  - intros x b. simpl. unfold Bindings_Create. by destruct (mb_m b !! _).
  - done.
  - intros pager u g n limit b [= <-]. done.
Qed.
Lemma memory_log_takes_all : log_takes_all (Lg:=MemoryLogger).
Proof. done. Qed.
