(* ===== verification/FedProps.v ===== *)
(** * Properties of the data plane

    Binding, refreshing, reading, disconnecting and the kill switch, each from a
    state in which no other request runs. *)

From S2P Require Import Prelude GoStd Proc AuditLog SortedIndex VaultRepo VaultEnvelope Vault VaultProps.
From S2P Require Import FedRegistry RawPath FedStore FedLimits FedLocks Fed FedRun.

Section properties.
Context `{Platform} `{Entropy} `{Aead} `{!AeadOk} `{Json} `{!JsonOk}.
Context {Lg B F U : Type} `{Logger Lg} `{BindingStore B} `{!BindingStoreOk B} `{BindFlowStore F} `{Upstream U}.
Context (s : federation) `{!KeysOk (fe_vault s)}.
Local Abbreviation W := (FWorld MemoryRepo Lg B F U).
Implicit Types w : W.

(** A key every operation accepts. *)
Definition valid_key (k : bindingIndexKey) : Prop :=
  lacks "|" (bk_user k) = true ∧ bk_user k ≠ EmptyString ∧ bk_game k ≠ EmptyString ∧
  bk_source k ≠ EmptyString ∧ validate (ident k) = None.

(** Nothing stored changed. *)
Definition unchanged w w' : Prop :=
  (∀ id, secretAt s w' id = secretAt s w id) ∧ ∀ k, row w' k = row w k.

(** Only what is stored for [k] changed. *)
Definition others_unchanged (k : bindingIndexKey) w w' : Prop :=
  (∀ id, id ≠ ident k → secretAt s w' id = secretAt s w id) ∧ ∀ k', k' ≠ k → row w' k' = row w k'.

Lemma bound_key w k b : stores_ok s w → row w k = Some b → bkey b = k ∧ named k.
Proof. intros [_ Hb] Hr. by eapply bs_row_key. Qed.

(** ** Disconnecting *)

(** Nobody but the vault answers that it holds no record. *)
Definition not_found_is_vaults : Prop :=
  (∀ p e, json_Unmarshal p = Err e → errors_Is e ErrNotFound = false) ∧
  ∀ t e (l : Lg) err, (log_Record t e l).2 = Some err → errors_Is err ErrNotFound = false.

(** What [Unbind] may report of the source of a binding: there was nothing to revoke
    exactly when the source is not configured, or the vault holds no record, or
    the record holds no token; it was done exactly when the source confirmed it
    for the stored token; a source that declares so does not support it; and it
    was not available when the record is not a token pair, the source did not
    confirm, or the log refused the use of the record. *)
Definition told_of (src : Source) (k : bindingIndexKey) w (upstream : string) : Prop :=
  match secretAt s w (ident k) with
  | None => upstream = RevocationNothingToDo
  | Some plain =>
      upstream = RevocationUnavailable ∧ ¬ log_takes_all (Lg:=Lg) ∨
      match json_Unmarshal plain with
      | Err _ => upstream = RevocationUnavailable
      | Ok toks =>
          if bool_decide ((preferredToken toks).1 = EmptyString) then upstream = RevocationNothingToDo
          else upstream = RevocationDone ∧ confirmed src (src_RevocationEndpoint src) toks w ∨
               upstream = RevocationUnavailable ∧ ¬ confirmed src (src_RevocationEndpoint src) toks w
      end
  end.
Definition told_truth (k : bindingIndexKey) w (upstream : string) : Prop :=
  match lookup_source s (bk_game k) (bk_source k) with
  | None => upstream = RevocationNothingToDo
  | Some src =>
      if bool_decide (src_TokenClass src = tokenClassLongLived) then upstream = RevocationUnsupported
      else told_of src k w upstream
  end.

Lemma runs_revokeUpstream src b k w :
  stores_ok s w → BindingIdentity b = ident k → validate (ident k) = None →
  runs (revokeUpstream s src b) w (λ w' r, asked s w w' ∧ ∃ up err, r = Ok (up, err) ∧
    (not_found_is_vaults → told_of src k w up)).
Proof.
  intros Hok Hk Hid. unfold revokeUpstream, told_of. eapply runs_bind_try; [apply (runs_pair s b); [done|by rewrite Hk]|].
  intros w1 r [Hl Hr]. rewrite Hk in Hr. pose proof (logged_stores s _ _ Hok Hl) as Hok1. apply logged_asked in Hl as Ha.
  destruct r as [toks|err].
  2: { destruct (secretAt s w (ident k)) as [plain|]; [|rewrite Hr; split; [done|]; eexists _, _; by split].
       assert (Herr : not_found_is_vaults → errors_Is err ErrNotFound = false).
       { intros [Hj Hlg]. by destruct Hr as [(t & e & l & cause & m & Hc & ->)|(m & e & He & ->)]; simpl; [rewrite (Hlg _ _ _ _ Hc)|rewrite (Hj _ _ He)]. }
       assert (Htold : RevocationUnavailable = RevocationUnavailable ∧ ¬ log_takes_all (Lg:=Lg) ∨
         ∃ e, json_Unmarshal plain = Err e).
       { destruct Hr as [Href|(m & e & He & _)]; [left|by right; exists e]. split; [done|]. intros Hlog. by eapply no_refusal. }
       destruct (errors_Is err ErrNotFound); (split; [done|]); eexists _, _; (split; [done|]); intros Hnf; [by specialize (Herr Hnf)|].
       destruct Htold as [?|[e ->]]; [by left|by right]. }
  unfold stored_pair in Hr. destruct (secretAt s w (ident k)) as [plain|]; [|done].
  destruct (json_Unmarshal plain) as [toks'|]; [injection Hr as ->|done].
  pose proof (runs_post s src (src_RevocationEndpoint src) toks w1 Hok1) as Hp.
  destruct (preferredToken toks) as [token hint] eqn:Ep. cbn [fst snd] in *. case_bool_decide as Ht.
  { split; [done|]. eexists _, _. split; [done|]. auto. }
  eapply runs_bind_try; [by apply Hp|]. intros w2 sent [Ha2 Hc]. split; [by eapply asked_trans|].
  assert (Hc' : is_ok sent = true ↔ confirmed src (src_RevocationEndpoint src) toks w).
  { rewrite Hc. unfold confirmed. destruct Hl as [[E _] _]. by rewrite E. }
  destruct sent as [[]|e]; eexists _, _; (split; [done|]); intros _; right; [left|right].
  - split; [done|]. by apply Hc'.
  - split; [done|]. by rewrite <-Hc'.
Qed.

Lemma runs_unbind_locked k w :
  stores_ok s w → store_answers (B:=B) → valid_key k →
  runs (unbind_locked s (bk_user k) (bk_game k) (bk_source k)) w (λ w' r,
    stores_ok s w' ∧ fw_locks w' = fw_locks w ∧ others_unchanged k w w' ∧
    ∃ res err, r = Ok (res, err) ∧
      match row w k with
      | None => unchanged w w' ∧
          match lookup_source s (bk_game k) (bk_source k) with
          | None => err = Some ErrUnknownSource
          | Some _ => err = None ∧ rv_Upstream res = RevocationNothingToDo
          end
      | Some b =>
          secretAt s w' (ident k) = None ∧ (not_found_is_vaults → told_truth k w (rv_Upstream res)) ∧
          (err = None → row w' k = None) ∧ (log_takes_all (Lg:=Lg) → err = None)
      end).
Proof.
  intros Hok Hans (Hu & _ & _ & _ & Hid). destruct k as [u g n]. simpl bk_user in *. simpl bk_game. simpl bk_source.
  unfold unbind_locked. apply (runs_getBinding s); [done..| |].
  - intros b Hb. rewrite Hb. destruct (bound_key _ _ _ Hok Hb) as [Hk _].
    assert (Hbid : BindingIdentity b = ident (mkBKey u g n)) by (by rewrite <-Hk).
    eapply (runs_bind _ _ _ (λ w1 r, asked s w w1 ∧ ∃ up err, r = Ok (up, err) ∧
      (not_found_is_vaults → told_truth (mkBKey u g n) w up))).
    { unfold told_truth. simpl. destruct (lookup_source s g n) as [src|].
      - case_bool_decide; [split; [by apply asked_refl|eauto]|].
        by apply runs_revokeUpstream.
      - split; [by apply asked_refl|eauto]. }
    2: { by intros w1 e (_ & ? & ? & ? & _). }
    intros w1 told (Ha & up & uerr & [= ->] & Htold).
    pose proof (asked_at_key s (mkBKey u g n) _ _ Hok Ha) as Ha1.
    eapply runs_bind_try; [apply runs_cut; [apply Ha1|done|done|by rewrite Hbid]|].
    intros w2 r (Ha2 & Hs2 & Hrow & Hans2). pose proof (at_key_trans s _ _ _ _ Ha1 Ha2) as (? & ? & ? & ?).
    split; [done|]. split; [done|]. split; [done|]. eexists _, _. split; [done|]. split; [done|]. split; [done|].
    split; [intros Herr; destruct r; [destruct Hrow as [?|[? _]]; done|done]|].
    intros Hl. by rewrite Hans2.
  - intros e He Hnb. rewrite (He (Hnb Hans)). rewrite (Hnb Hans). simpl.
    split; [done|]. split; [done|]. split; [done|].
    destruct (lookup_source s g n); by eexists _, _.
Qed.

(** What [Unbind] leaves and reports, for a store that answers. *)
Definition unbound k w w' (r : result (RevocationResult * option error)) : Prop :=
  rests s w' ∧ others_unchanged k w w' ∧
  ∃ res err, r = Ok (res, err) ∧
    match row w k with
    | None => unchanged w w' ∧
        match lookup_source s (bk_game k) (bk_source k) with
        | None => err = Some ErrUnknownSource
        | Some _ => err = None ∧ rv_Upstream res = RevocationNothingToDo
        end
    | Some b =>
        secretAt s w' (ident k) = None ∧ (not_found_is_vaults → told_truth k w (rv_Upstream res)) ∧
        (err = None → row w' k = None) ∧ (log_takes_all (Lg:=Lg) → err = None)
    end.

Lemma empty_args k (A : Type) (x y : A) :
  valid_key k →
  (if bool_decide (bk_user k = EmptyString) || bool_decide (bk_game k = EmptyString) ||
      bool_decide (bk_source k = EmptyString) then x else y) = y.
Proof. intros (_ & ? & ? & ? & _). by rewrite !bool_decide_false. Qed.

Lemma runs_Unbind k w :
  rests s w → store_answers (B:=B) → valid_key k →
  runs (Unbind s (bk_user k) (bk_game k) (bk_source k)) w (unbound k w).
Proof.
  intros [Hok Hm] Hans Hk. unfold Unbind. rewrite empty_args by done. apply runs_locked; [done|].
  intros k0. eapply runs_mono; [by apply (runs_unbind_locked k (set_locks k0 w))|].
  intros w' r (? & Hl & ? & Hres). split; [done|]. intros k' Hk'. by split; [|split].
Qed.

(** C31. Disconnecting a source, with no other request running, stores in order that
    answer, and only the vault answering that it holds no record. Whatever the
    source answers, is down or no longer configured, a bound account's token is
    gone from the vault afterwards, and the row with it unless the audit log
    refused the event, which is reported; nothing else stored changes. The report
    about the source is true. "Nothing": the source is not configured, or the
    vault held no record, or no token in it. "Done": the source answered a
    revocation request for the stored token with success. "Unsupported": the
    source declared so. "Unavailable": the record was not a token pair, or the
    source did not confirm, or the log refused the use of the record. With nothing
    bound nothing changes, and only an unknown source is an error. *)
Theorem Unbind_exact k w :
  rests s w → store_answers (B:=B) → not_found_is_vaults → valid_key k →
  ∃ w' res err, run (Unbind s (bk_user k) (bk_game k) (bk_source k)) w = Some (w', Ok (res, err)) ∧
    rests s w' ∧ others_unchanged k w w' ∧
    match row w k with
    | None => unchanged w w' ∧
        match lookup_source s (bk_game k) (bk_source k) with
        | None => err = Some ErrUnknownSource
        | Some _ => err = None ∧ rv_Upstream res = RevocationNothingToDo
        end
    | Some b =>
        secretAt s w' (ident k) = None ∧ told_truth k w (rv_Upstream res) ∧
        (err = None → row w' k = None) ∧ (log_takes_all (Lg:=Lg) → err = None)
    end.
Proof.
  intros Hw Hans Hnf Hk. destruct (runs_elim _ _ _ (runs_Unbind k w Hw Hans Hk)) as (w' & r & Hrun & ? & ? & res & err & -> & Hres).
  exists w', res, err. split_and!; [done..|]. destruct (row w k); [|done]. destruct Hres as (? & Ht & ?). auto.
Qed.

(** The source can be asked to end the session of [k], and confirms. *)
Definition cascade_confirmed (k : bindingIndexKey) w : Prop :=
  ∃ src b toks, lookup_source s (bk_game k) (bk_source k) = Some src ∧
    src_CascadeRevocationEndpoint src ≠ EmptyString ∧ row w k = Some b ∧
    stored_pair s w (ident k) = Some toks ∧ confirmed src (src_CascadeRevocationEndpoint src) toks w.

Definition cascaded k w w' (r : result RevocationResult) : Prop :=
  (cascade_confirmed k w ∧ secretAt s w' (ident k) = None ∧ others_unchanged k w w' ∧
     (is_ok r = true → row w' k = None) ∧
     (log_takes_all (Lg:=Lg) → r = Ok (mkRevocation RevocationDone EmptyString))) ∨
  (unchanged w w' ∧ is_ok r = false ∧ (log_takes_all (Lg:=Lg) → ¬ cascade_confirmed k w)).

Lemma runs_cascade_locked k src w :
  stores_ok s w → store_answers (B:=B) → valid_key k →
  lookup_source s (bk_game k) (bk_source k) = Some src → src_CascadeRevocationEndpoint src ≠ EmptyString →
  runs (cascade_locked s src (bk_user k) (bk_game k) (bk_source k)) w (λ w' r,
    stores_ok s w' ∧ fw_locks w' = fw_locks w ∧ cascaded k w w' r).
Proof.
  intros Hok Hans (Hu & _ & _ & _ & Hid) Hsrc Hep. destruct k as [u g n]. simpl bk_user in *. simpl bk_game in *.
  simpl bk_source in *. unfold cascade_locked. apply (runs_get s); [done..| |].
  2: { intros e _ Hnone. split; [done|]. split; [done|]. right. split; [done|]. split; [done|].
       intros _ (src' & b & toks & _ & _ & Hb & _). specialize (Hnone Hans). congruence. }
  intros b Hb. destruct (bound_key _ _ _ Hok Hb) as [Hk _].
  assert (Hbid : BindingIdentity b = ident (mkBKey u g n)) by (by rewrite <-Hk).
  eapply runs_bind_try; [apply (runs_pair s b); [done|by rewrite Hbid]|].
  intros w1 r [Hl Hr]. rewrite Hbid in Hr. pose proof (logged_stores s _ _ Hok Hl) as Hok1.
  pose proof (logged_asked s _ _ Hl) as Ha1.
  assert (Hkeep : ∀ w2 e, asked s w w2 → (log_takes_all (Lg:=Lg) → ¬ cascade_confirmed (mkBKey u g n) w) →
    stores_ok s w2 ∧ fw_locks w2 = fw_locks w ∧ cascaded (mkBKey u g n) w w2 (Err e)).
  { intros w2 e Ha Hno. destruct (asked_at_key s (mkBKey u g n) _ _ Hok Ha) as (? & ? & _). split; [done|].
    split; [done|]. right. split; [|done]. split; intros; [by eapply asked_secret|by eapply asked_row]. }
  destruct r as [toks|err].
  2: { apply Hkeep; [done|]. intros Hlog (src' & b' & toks & _ & _ & _ & Hst & _). apply (no_pair s w _ err Hlog) in Hr. congruence. }
  destruct (preferredToken toks) as [token hint] eqn:Ep.
  apply runs_guard; intros Ht; [apply bool_decide_eq_true in Ht|apply bool_decide_eq_false in Ht].
  - apply Hkeep; [done|]. intros _ (src' & b' & toks' & _ & _ & _ & Hst & Hne & _). rewrite Hr in Hst.
    injection Hst as <-. by rewrite Ep in Hne.
  - pose proof (runs_post s src (src_CascadeRevocationEndpoint src) toks w1 Hok1) as Hp. rewrite Ep in Hp.
    eapply runs_bind_try; [by apply Hp|]. intros w2 sent [Ha2 Hc].
    assert (Hc' : is_ok sent = true ↔ cascade_confirmed (mkBKey u g n) w).
    { rewrite Hc. destruct Hl as [[E _] _]. split.
      - intros (Hne & Hx). exists src, b, toks. split_and!; try done. by rewrite E in Hx.
      - intros (src' & b' & toks' & Hs' & _ & _ & Hst & Hne & Hx). simpl in Hs'. rewrite Hsrc in Hs'. rewrite Hr in Hst.
        simplify_eq. split; [by rewrite Ep in *|]. by rewrite E. }
    pose proof (asked_trans s _ _ _ Ha1 Ha2) as Ha. destruct sent as [[]|err].
    2: { apply Hkeep; [done|]. intros _ Hx%Hc'. done. }
    pose proof (asked_at_key s (mkBKey u g n) _ _ Hok Ha) as Hk2.
    eapply runs_bind; [apply runs_cut; [apply Hk2|done|done|by rewrite Hbid]|..].
    + intros w3 [] (Hk3 & Hs3 & Hrow & _). pose proof (at_key_trans s _ _ _ _ Hk2 Hk3) as (? & ? & ? & ?).
      split; [done|]. split; [done|]. left. split; [by apply Hc'|]. split; [done|]. split; [done|].
      split; [|done]. intros _. by destruct Hrow as [?|[? _]].
    + intros w3 e (Hk3 & Hs3 & Hrow & Hlog). pose proof (at_key_trans s _ _ _ _ Hk2 Hk3) as (? & ? & ? & ?).
      split; [done|]. split; [done|]. left. split; [by apply Hc'|]. split; [done|]. split; [done|].
      split; [done|]. intros Hl'. by specialize (Hlog Hl' Hans).
Qed.

Lemma runs_Cascade k w :
  rests s w → store_answers (B:=B) → valid_key k →
  runs (CascadeRevoke s (bk_user k) (bk_game k) (bk_source k)) w (λ w' r, rests s w' ∧ cascaded k w w' r).
Proof.
  intros [Hok Hm] Hans Hk. unfold CascadeRevoke. apply runs_guard.
  { intros Hb. pose proof (empty_args k bool true false Hk) as He. by rewrite Hb in He. }
  intros _. destruct (lookup_source s _ _) as [src|] eqn:Hsrc.
  - apply runs_guard; intros Hep.
    + split; [done|]. right. split; [done|]. split; [done|]. intros _ (src' & b & toks & Hs' & Hne & _).
      apply bool_decide_eq_true in Hep. congruence.
    + apply bool_decide_eq_false in Hep. apply runs_locked; [done|]. intros k0.
      eapply runs_mono; [by apply (runs_cascade_locked k src (set_locks k0 w))|].
      intros w' r (? & Hl & Hc). split; [done|]. intros k' Hk'. by split; [split|].
  - split; [done|]. right. split; [done|]. split; [done|]. intros _ (src' & b & toks & Hs' & _). congruence.
Qed.

(** Ending the session at the source fails closed. Either the source confirmed
    a cascade request for the stored token, and then the token is gone from the
    vault and, on success, the row too; or the answer is an error and nothing
    stored changed, so that the request can be made again. When the source can be
    asked and confirms, and the audit log takes the events, the call succeeds. *)
Theorem CascadeRevoke_exact k w :
  rests s w → store_answers (B:=B) → valid_key k →
  ∃ w' r, run (CascadeRevoke s (bk_user k) (bk_game k) (bk_source k)) w = Some (w', r) ∧ rests s w' ∧
    ((cascade_confirmed k w ∧ secretAt s w' (ident k) = None ∧ others_unchanged k w w' ∧
        (is_ok r = true → row w' k = None) ∧
        (log_takes_all (Lg:=Lg) → r = Ok (mkRevocation RevocationDone EmptyString))) ∨
     (unchanged w w' ∧ is_ok r = false ∧ (log_takes_all (Lg:=Lg) → ¬ cascade_confirmed k w))).
Proof.
  intros Hw Hans Hk. destruct (runs_elim _ _ _ (runs_Cascade k w Hw Hans Hk)) as (w' & r & Hrun & ? & ?).
  by exists w', r.
Qed.

(** ** The kill switch *)

Section sweeping.
Context (Hans : store_answers (B:=B)) (Hlog : log_takes_all (Lg:=Lg)).

(** The binding is gone, and counted as revoked. *)
Definition removed (k : bindingIndexKey) w w' : Prop :=
  rests s w' ∧ others_unchanged k w w' ∧ secretAt s w' (ident k) = None ∧ row w' k = None.
Definition revoked_one (r : result BindingRevocationSummary) : Prop :=
  ∃ o, r = Ok o ∧ su_Total o = 1%Z ∧ su_Revoked o = 1%Z ∧ su_Failed o = 0%Z.

Lemma runs_unbind_outcome b w :
  rests s w → valid_key (bkey b) → row w (bkey b) ≠ None →
  runs (unbind_outcome s b) w (λ w' r, removed (bkey b) w w' ∧ revoked_one r).
Proof.
  intros Hw Hk Hrow. unfold unbind_outcome.
  eapply runs_bind; [exact (runs_Unbind (bkey b) w Hw Hans Hk)| |by intros w' e (_ & _ & ? & ? & ? & _)].
  intros w' a (Hw' & Hoth & res & err & [= ->] & Hres). destruct (row w (bkey b)) as [x|]; [|done].
  destruct Hres as (Hs & _ & Hgone & Herr). rewrite (Herr Hlog). specialize (Hgone (Herr Hlog)).
  split; [by split_and!|]. by eexists.
Qed.

Lemma runs_shredBinding b w :
  rests s w → valid_key (bkey b) →
  runs (shredBinding s b) w (λ w' r, removed (bkey b) w w' ∧ r = Ok tt).
Proof.
  intros [Hok Hm] (Hu & _ & _ & _ & Hid). unfold shredBinding. apply runs_locked; [done|]. intros k0.
  eapply runs_bind; [by apply runs_shred|..]; intros w1 r (Hin & Hs & Hr).
  2: { by specialize (Hr Hlog). }
  pose proof (in_vault_stores s (set_locks k0 w) _ Hok Hin) as Hok1.
  eapply runs_mono; [by apply (runs_delete s)|]. intros w2 r2 (Hk & Hs2 & Hrow & Hr2).
  destruct Hk as (Hok2 & Hl2 & _ & Hoth). split; [rewrite Hl2; by rewrite (proj1 Hin)|].
  intros k' Hk'. specialize (Hr2 Hans). subst r2. split; [|done]. split; [by split|].
  split; [split|split].
  - intros id Hne. change (secretAt s (set_locks k' w2) id) with (secretAt s w2 id).
    rewrite Hs2, Hs, decide_False; [done|]. exact Hne.
  - intros k1 Hne. change (row (set_locks k' w2) k1) with (row w2 k1). rewrite Hoth by done.
    unfold row. by rewrite (proj1 Hin).
  - change (secretAt s (set_locks k' w2) (ident (bkey b))) with (secretAt s w2 (ident (bkey b))).
    by rewrite Hs2, Hs, decide_True.
  - by destruct Hrow as [?|[? _]].
Qed.

Lemma runs_revokeBinding b w :
  rests s w → valid_key (bkey b) → row w (bkey b) ≠ None →
  runs (revokeBinding s b) w (λ w' r, removed (bkey b) w w' ∧ revoked_one r).
Proof.
  intros Hw Hk Hrow. unfold revokeBinding. destruct (lookup_source s _ _) as [src|].
  - case_bool_decide; [by apply runs_unbind_outcome|].
    eapply runs_bind_try; [exact (runs_Cascade (bkey b) w Hw Hans Hk)|].
    intros w1 r (Hw1 & [(_ & Hs & Hoth & Hgone & Hok)|((Hs & Hr) & Herr & _)]).
    + rewrite (Hok Hlog) in *. split; [by split_and!; auto|]. by eexists.
    + destruct r; [done|]. eapply runs_mono; [apply runs_unbind_outcome; [done|done|by rewrite Hr]|].
      intros w2 r2 [(? & [Hs2 Hr2] & ? & ?) ?]. split; [|done]. split_and!; try done. split.
      * intros id Hne. by rewrite Hs2, Hs.
      * intros k' Hne. by rewrite Hr2, Hr.
  - eapply runs_bind_try; [by apply runs_shredBinding|]. intros w1 r [Hrem ->]. split; [done|]. by eexists.
Qed.

(** A list of bindings is gone, nothing else changed. *)
Definition removed_all (l : list Binding) w w' : Prop :=
  rests s w' ∧
  (∀ b, b ∈ l → secretAt s w' (ident (bkey b)) = None ∧ row w' (bkey b) = None) ∧
  (∀ k, k ∉ bkey <$> l → row w' k = row w k) ∧
  (∀ id, id ∉ (ident ∘ bkey) <$> l → secretAt s w' id = secretAt s w id).

Definition revoked_count (sum sum' : BindingRevocationSummary) (n : nat) : Prop :=
  su_Total sum' = (su_Total sum + Z.of_nat n)%Z ∧ su_Revoked sum' = (su_Revoked sum + Z.of_nat n)%Z ∧
  su_Failed sum' = su_Failed sum.

Lemma runs_revokeBindings l sum w :
  rests s w → NoDup (bkey <$> l) → Forall (λ b, valid_key (bkey b) ∧ row w (bkey b) ≠ None) l →
  runs (revokeBindings s l sum) w (λ w' r, removed_all l w w' ∧
    ∃ sum', r = Ok sum' ∧ revoked_count sum sum' (length l)).
Proof.
  revert sum w. induction l as [|b l IH]; intros sum w Hw Hnd Hall; cbn [revokeBindings].
  { split; [|eexists; split; [done|]; split_and!; simpl; lia]. split; [done|].
    split; [by intros b ?%elem_of_nil|]. done. }
  csimpl in *. apply NoDup_cons in Hnd as [Hnb Hnd]. apply Forall_cons in Hall as [[Hk Hr] Hall].
  eapply runs_bind; [by apply runs_revokeBinding| |by intros w' e [_ (? & ? & _)]].
  intros w1 o [(Hw1 & [Hs1 Hr1] & Hs & Hr0) (o' & [= <-] & Ht & Hrev & Hf)].
  eapply runs_mono; [apply IH; [done|done|]|].
  { rewrite Forall_forall in *. intros x Hx. destruct (Hall x Hx) as [? Hrx]. split; [done|].
    rewrite Hr1; [done|]. intros E. apply Hnb. rewrite <-E. by apply list_elem_of_fmap_2. }
  intros w2 r ((Hw2 & Hgone & Hr2 & Hs2) & sum' & -> & Hc1 & Hc2 & Hc3). split.
  - split; [done|]. split; [|split].
    + intros x [->|Hx]%elem_of_cons; [|by apply Hgone]. split; [|by rewrite Hr2].
      destruct (decide (ident (bkey b) ∈ (ident ∘ bkey) <$> l)) as [(x & E & Hx)%list_elem_of_fmap|Hno].
      * simpl in E. rewrite E. by apply Hgone.
      * by rewrite Hs2.
    + intros k [Hne Hno]%not_elem_of_cons. by rewrite Hr2, Hr1.
    + intros id [Hne Hno]%not_elem_of_cons. by rewrite Hs2, Hs1.
  - exists sum'. split; [done|]. unfold add_summary in *. simpl in *. split_and!; lia.
Qed.

(** The sweep over pages: [l] is every row there is, all of them after the
    cursor. *)
Definition all_rows w (l : list Binding) : Prop :=
  StronglySorted (λ x y, bindingIndexLess (bkey x) (bkey y) = true) l ∧
  ∀ x, x ∈ l ↔ row w (bkey x) = Some x.

Lemma sorted_rows_unique (l l' : list Binding) :
  StronglySorted (λ x y, bindingIndexLess (bkey x) (bkey y) = true) l →
  StronglySorted (λ x y, bindingIndexLess (bkey x) (bkey y) = true) l' → (∀ x, x ∈ l ↔ x ∈ l') → l = l'.
Proof.
  apply sorted_unique; [intros x; by rewrite less_irrefl|intros x y z; apply less_trans].
Qed.

Lemma removed_all_app l1 l2 w w1 w2 :
  removed_all l1 w w1 → removed_all l2 w1 w2 → removed_all (l1 ++ l2) w w2.
Proof.
  intros (_ & Hg1 & Hr1 & Hs1) (Hw & Hg2 & Hr2 & Hs2). split; [done|]. split; [|split].
  - intros b [Hb|Hb]%elem_of_app; [|by apply Hg2]. destruct (Hg1 b Hb) as [Hs Hr]. split.
    + destruct (decide (ident (bkey b) ∈ (ident ∘ bkey) <$> l2)) as [(x & E & Hx)%list_elem_of_fmap|Hno].
      * simpl in E. rewrite E. by apply Hg2.
      * by rewrite Hs2.
    + destruct (decide (bkey b ∈ bkey <$> l2)) as [(x & E & Hx)%list_elem_of_fmap|Hno].
      * rewrite E. by apply Hg2.
      * by rewrite Hr2.
  - intros k. rewrite fmap_app. intros [? ?]%not_elem_of_app. by rewrite Hr2, Hr1.
  - intros id. rewrite fmap_app. intros [? ?]%not_elem_of_app. by rewrite Hs2, Hs1.
Qed.

(** What is left after a prefix was removed. *)
Lemma all_rows_rest l1 l2 w w1 : all_rows w (l1 ++ l2) → removed_all l1 w w1 → all_rows w1 l2.
Proof.
  intros [Hsort Hin] (_ & Hg & Hr & _). pose proof (sorted_keys_NoDup _ Hsort) as Hnd.
  split; [by apply StronglySorted_app in Hsort as (_ & _ & ?)|]. rewrite fmap_app in Hnd.
  apply NoDup_app in Hnd as (_ & Hdisj & _). intros x. split.
  - intros Hx. rewrite Hr; [apply Hin, elem_of_app; by right|].
    intros Hx'. by apply (Hdisj _ Hx'), list_elem_of_fmap_2.
  - intros Hx. assert (Hno : bkey x ∉ bkey <$> l1).
    { intros (y & E & Hy)%list_elem_of_fmap. rewrite E in Hx. destruct (Hg y Hy) as [_ Hn]. congruence. }
    rewrite Hr in Hx by done. apply Hin, elem_of_app in Hx as [Hx|Hx]; [|done].
    destruct Hno. by apply list_elem_of_fmap_2.
Qed.

(** The page after a cursor that every row lies behind. *)
Lemma page_take pager u g n l w :
  bs_ListAllPage = Some pager → (0 < fe_sweepPage s)%Z → rests s w → all_rows w l →
  Forall (λ b, bindingIndexAfter (bkey b) u g n = true) l →
  pager u g n (fe_sweepPage s) (fw_bindings w) = Ok (take (Z.to_nat (fe_sweepPage s)) l).
Proof.
  intros Hp Hpos Hw [Hsl Hl] Haft. destruct Hans as (_ & _ & _ & _ & _ & Hpg).
  specialize (Hpg pager u g n (fe_sweepPage s) (fw_bindings w) Hp).
  destruct (pager u g n _ _) as [page|] eqn:E; [|done]. f_equal.
  destruct (bs_Page_ok _ _ _ _ _ _ _ (proj2 (proj1 Hw)) Hp Hpos E) as (rows & Hs & Hin & ->). f_equal.
  apply sorted_rows_unique; [done..|]. intros x. rewrite Hin, Hl.
  rewrite Forall_forall in Haft. split; [by intros []|]. intros Hx. split; [done|]. by apply Haft, Hl.
Qed.

(** The last binding of a page is a cursor the rest lies behind. *)
Lemma after_last (page rest : list Binding) lst :
  last page = Some lst → bk_user (bkey lst) ≠ EmptyString →
  StronglySorted (λ x y, bindingIndexLess (bkey x) (bkey y) = true) (page ++ rest) →
  Forall (λ b, bindingIndexAfter (bkey b) (b_User lst) (b_Game lst) (b_Source lst) = true) rest.
Proof.
  intros [front ->]%last_Some Hne Hs. apply Forall_forall. intros b Hb.
  change (b_User lst) with (bk_user (bkey lst)). change (b_Game lst) with (bk_game (bkey lst)).
  change (b_Source lst) with (bk_source (bkey lst)).
  rewrite bindingIndexAfter_spec; [|intros E; by rewrite E in Hne].
  rewrite <-(assoc_L (++)) in Hs. apply StronglySorted_app in Hs as (_ & _ & Hs).
  apply StronglySorted_cons in Hs as [Hf _]. simpl in Hf. rewrite Forall_forall in Hf. by apply Hf.
Qed.

Lemma runs_sweep pager fuel u g n sum l w :
  bs_ListAllPage = Some pager → (0 < fe_sweepPage s)%Z → length l < fuel →
  rests s w → all_rows w l → Forall (λ b, valid_key (bkey b)) l →
  Forall (λ b, bindingIndexAfter (bkey b) u g n = true) l →
  runs (sweep_pages s pager fuel u g n sum) w (λ w' r, removed_all l w w' ∧
    ∃ sum', r = Ok (sum', None) ∧ revoked_count sum sum' (length l)).
Proof.
  intros Hp Hpos. revert u g n sum l w. induction fuel as [|fuel IH]; intros u g n sum l w Hfuel Hw Hall Hval Haft; [lia|].
  cbn [sweep_pages]. set (P := Z.to_nat (fe_sweepPage s)).
  pose proof (page_take pager u g n l w Hp Hpos Hw Hall Haft) as Hpage.
  eapply (runs_bind_try _ _ _ (λ w' r, w' = w ∧ r = Ok (take P l))); [by apply runs_call|]. intros w' r [-> ->].
  rewrite <-(take_drop P l) in Hall, Hval.
  destruct (last (take P l)) as [lst|] eqn:Elast.
  2: { apply last_None in Elast. assert (l = []) as ->.
       { destruct l; [done|]. unfold P in Elast. destruct (Z.to_nat (fe_sweepPage s)) eqn:EP; [lia|done]. }
       split; [|eexists; split; [done|]; split_and!; simpl; lia]. by split_and!; [|intros b ?%elem_of_nil|..]. }
  assert (Hnd : NoDup (bkey <$> take P l)).
  { destruct Hall as [Hs%sorted_keys_NoDup _]. rewrite fmap_app in Hs. by apply NoDup_app in Hs as []. }
  eapply runs_bind; [apply runs_revokeBindings; [done|done|]| |by intros w' e (_ & ? & ? & _)].
  { apply Forall_app in Hval as [Hv _]. rewrite Forall_forall in *. intros b Hb. split; [by apply Hv|].
    destruct Hall as [_ Hin]. rewrite (proj1 (Hin b)); [done|]. apply elem_of_app. by left. }
  intros w1 sum1 (Hrem & sum' & [= <-] & Hc).
  pose proof (all_rows_rest _ _ _ _ Hall Hrem) as Hall1.
  destruct (Z.ltb_spec (Z.of_nat (length (take P l))) (fe_sweepPage s)) as [Hlt|Hge].
  - assert (Hle : take P l = l) by (apply take_ge; rewrite length_take in Hlt; lia). rewrite Hle in *.
    split; [done|]. by eexists.
  - rewrite length_take in Hge. apply Forall_app in Hval as [Hv1 Hv2].
    eapply runs_mono; [apply (IH _ _ _ _ (drop P l))|].
    + rewrite length_drop. lia.
    + apply Hrem.
    + done.
    + done.
    + apply (after_last (take P l)); [done| |apply Hall].
      apply last_Some in Elast as [front Ef]. rewrite Ef in Hv1.
      by apply Forall_app in Hv1 as [_ ((_ & ? & _) & _)%Forall_cons].
    + intros w2 r (Hrem2 & sum2 & -> & Hc2). split.
      * rewrite <-(take_drop P l). by eapply removed_all_app.
      * eexists. split; [done|]. rewrite length_take in Hc. rewrite length_drop in Hc2.
        unfold revoked_count in *. lia.
Qed.

Lemma runs_revoke_listed l sum w :
  rests s w → NoDup (bkey <$> l) → (∀ x, x ∈ l → row w (bkey x) = Some x) →
  Forall (λ b, valid_key (bkey b)) l →
  runs (revokeBindings s l sum) w (λ w' r, removed_all l w w' ∧
    ∃ sum', r = Ok sum' ∧ revoked_count sum sum' (length l)).
Proof.
  intros Hw Hnd Hin Hval. apply runs_revokeBindings; [done..|]. rewrite Forall_forall in *.
  intros b Hb. split; [by apply Hval|]. by rewrite Hin.
Qed.

Lemma runs_RevokeAll fuel l w :
  (0 < fe_sweepPage s)%Z → length l < fuel → rests s w → all_rows w l →
  Forall (λ b, valid_key (bkey b)) l →
  runs (RevokeAllBindings s fuel) w (λ w' r, removed_all l w w' ∧
    ∃ sum', r = Ok (sum', None) ∧ revoked_count zero_summary sum' (length l)).
Proof.
  intros Hpos Hfuel Hw Hall Hval. unfold RevokeAllBindings. destruct bs_ListAllPage as [pager|] eqn:Hp.
  - apply runs_sweep; [done..|]. by apply Forall_true.
  - destruct Hans as (_ & _ & _ & _ & Hla & _). specialize (Hla (fw_bindings w)).
    eapply (runs_bind_try _ _ _ (λ w' r, w' = w ∧ r = bs_ListAll (fw_bindings w))); [by apply runs_call|].
    intros w' r [-> ->]. destruct (bs_ListAll (fw_bindings w)) as [all|] eqn:E; [|done].
    destruct (bs_ListAll_ok _ _ (proj2 (proj1 Hw)) E) as [Hnd Hin]. destruct Hall as [Hsort Hl].
    assert (Hperm : all ≡ₚ l).
    { apply NoDup_Permutation; [by eapply NoDup_fmap_1|by eapply NoDup_fmap_1, sorted_keys_NoDup|].
      intros x. by rewrite Hin, Hl. }
    eapply runs_bind; [apply runs_revoke_listed; [done|done|intros x; apply Hin|by rewrite Hperm]| |by intros w' e (_ & ? & ? & _)].
    intros w1 sum ((Hw1 & Hg & Hr & Hs) & sum' & [= <-] & Hc). split; [|eexists; by rewrite <-Hperm].
    split; [done|]. split; [intros b; rewrite <-Hperm; apply Hg|].
    split; [intros k; rewrite <-Hperm; apply Hr|intros id; rewrite <-Hperm; apply Hs].
Qed.
End sweeping.

(** C32. The kill switch. Started on any set of bindings, with stores and a log
    that answer, and enough fuel for one page per binding, the sweep over the
    pages ends, and afterwards no binding is left and no token of any of them is
    in the vault, whatever the sources answered and whether or not they are still
    configured. Every binding was counted, and none as failed. *)
Theorem RevokeAllBindings_complete fuel l w :
  store_answers (B:=B) → log_takes_all (Lg:=Lg) → (0 < fe_sweepPage s)%Z → rests s w →
  all_rows w l → Forall (λ b, valid_key (bkey b)) l → length l < fuel →
  ∃ w' sum, run (RevokeAllBindings s fuel) w = Some (w', Ok (sum, None)) ∧ rests s w' ∧
    (∀ k, row w' k = None) ∧ (∀ b, b ∈ l → secretAt s w' (ident (bkey b)) = None) ∧
    su_Total sum = Z.of_nat (length l) ∧ su_Revoked sum = Z.of_nat (length l) ∧ su_Failed sum = 0%Z.
Proof.
  intros Hans Hlog Hpos Hw Hall Hval Hfuel.
  destruct (runs_elim _ _ _ (runs_RevokeAll Hans Hlog fuel l w Hpos Hfuel Hw Hall Hval))
    as (w' & r & Hrun & (Hw' & Hg & Hr & _) & sum & -> & Hc1 & Hc2 & Hc3).
  exists w', sum. split_and!; try done. 2: { intros b Hb. by apply Hg. }
  intros k. destruct (decide (k ∈ bkey <$> l)) as [(b & -> & Hb)%list_elem_of_fmap|Hno]; [by apply Hg|].
  rewrite Hr by done. destruct (row w k) as [x|] eqn:E; [|done]. destruct Hno.
  destruct (bound_key _ _ _ (proj1 Hw) E) as [<- _]. apply list_elem_of_fmap_2. by apply Hall.
Qed.
End properties.
