(* ===== verification/FedBind.v ===== *)
(** * Properties of binding and refreshing

    What [CompleteBind] and a refresh make of the row and the secret of a
    binding, and that a read afterwards presents the token that was issued. *)

From S2P Require Import Prelude GoStd Proc AuditLog VaultRepo VaultEnvelope Vault VaultProps.
From S2P Require Import FedRegistry RawPath FedStore FedLimits FedLocks Fed FedRun FedProps.

Section properties.
Context `{Platform} `{Entropy} `{Aead} `{!AeadOk} `{Json} `{!JsonOk}.
Context {Lg B F U : Type} `{Logger Lg} `{BindingStore B} `{!BindingStoreOk B} `{BindFlowStore F} `{Upstream U}.
Context (s : federation) `{!KeysOk (fe_vault s)}.
Local Abbreviation W := (FWorld MemoryRepo Lg B F U).
Implicit Types w : W.

(** The tokens the upstream hands out are text. *)
Definition tokens_are_text : Prop :=
  (∀ cfg code verifier (u u' : U) tok, oauth2_Exchange cfg code verifier u = (u', Ok tok) →
     json_text (tok_AccessToken tok) ∧ json_text (tok_RefreshToken tok)) ∧
  (∀ cfg token (u u' : U) tok, oauth2_Refresh cfg token u = (u', Ok tok) →
     json_text (tok_AccessToken tok) ∧ json_text (tok_RefreshToken tok)).

(** Nobody else returns the unexported [errRefreshRejected]. *)
Definition errors_are_foreign : Prop :=
  (∀ p e, json_Unmarshal p = Err e → errors_Is e errRefreshRejected = false) ∧
  (∀ cfg token (u u' : U) e, oauth2_Refresh cfg token u = (u', Err e) → errors_Is e errRefreshRejected = false).

(** Everything but the source works. *)
Definition healthy : Prop :=
  store_answers (B:=B) ∧ crypto_works s ∧ log_takes_all (Lg:=Lg) ∧ tokens_are_text ∧ errors_are_foreign.

(** ** Claiming a row *)

(** The condition a claim is made under: the row at a version, or no row. *)
Definition claimable (v : option Z) w (k : bindingIndexKey) : Prop :=
  match v with
  | Some v => b_Version <$> row w k = Some v
  | None => row w k = None
  end.
Definition claim_op (v : option Z) (x : Binding) : B → B * result bool :=
  match v with Some v => bs_PutIfVersion x v | None => bs_Create x end.

Lemma claim_ok v x (b : B) :
  bs_inv b → named (bkey x) →
  let '(b', r) := claim_op v x b in
  let pre := match v with
             | Some v => b_Version <$> bs_row b (bkey x) = Some v
             | None => bs_row b (bkey x) = None
             end in
  match r with
  | Ok true => pre ∧ bs_wrote b b' (bkey x) (Some x)
  | Ok false => ¬ pre ∧ bs_same b b'
  | Err _ => bs_same b b' ∨ (pre ∧ bs_wrote b b' (bkey x) (Some x))
  end.
Proof.
  intros Hb Hn. destruct v as [v|]; simpl.
  - pose proof (bs_PutIfVersion_ok x v b Hb Hn) as Hp. by destruct (bs_PutIfVersion x v b) as [b' [[]|]].
  - pose proof (bs_Create_ok x b Hb Hn) as Hp. destruct (bs_Create x b) as [b' [[]|]]; [done| |done].
    destruct Hp as [[y Hy] ?]. split; [by rewrite Hy|done].
Qed.

Lemma runs_claim v x w :
  stores_ok s w → named (bkey x) →
  runs (on_bindings (claim_op v x)) w (λ w' r,
    at_key s (bkey x) w w' ∧ fw_vault w' = fw_vault w ∧
    match r with
    | Ok true => claimable v w (bkey x) ∧ row w' (bkey x) = Some x
    | Ok false => ¬ claimable v w (bkey x) ∧ row w' (bkey x) = row w (bkey x)
    | Err _ => row w' (bkey x) = row w (bkey x) ∨ claimable v w (bkey x)
    end ∧
    (store_answers (B:=B) → is_ok r = true)).
Proof.
  intros [Hv Hb] Hn. apply runs_call. pose proof (claim_ok v x _ Hb Hn) as Hc.
  assert (Hans : store_answers (B:=B) → is_ok (claim_op v x (fw_bindings w)).2 = true).
  { intros (_ & _ & Hp & Hcr & _). destruct v; [apply Hp|apply Hcr]. }
  destruct (claim_op v x (fw_bindings w)) as [b' r]. unfold at_key, stores_ok, claimable, row. simpl in *.
  destruct r as [[]|e].
  - destruct Hc as (? & ? & ? & ?). by split_and!.
  - destruct Hc as (? & ? & Hr). by split_and!; auto.
  - destruct Hc as [[? Hr]|(? & ? & ? & ?)]; split_and!; auto.
Qed.

Lemma runs_entropy {A} (f : nat → nat * result A) w :
  stores_ok s w →
  runs (on_vault (with_entropy f)) w (λ w' r, logged s w w' ∧ ∃ n, r = (f n).2).
Proof.
  intros [Hv _]. apply runs_zoom; [apply _|]. unfold runs. rewrite run_with_entropy. split; [|by eexists].
  by split.
Qed.

Lemma newBindingGeneration_ok n : EntropyOk → is_ok (newBindingGeneration n).2 = true.
Proof. intros He. unfold newBindingGeneration. by destruct (readFull_ok 8 n) as (b & -> & _). Qed.

(** ** Completing a bind *)

(** The version a flow remembers. *)
Definition flow_version (flow : BindFlow) : option Z :=
  if fl_Bound flow then Some (fl_BoundVersion flow) else None.

(** What the source issued for the code, and the binding made of it. *)
Definition issued (user code : string) (flow : BindFlow) w (tok : Token) : Prop :=
  ∃ src u', lookup_source s (fl_Game flow) (fl_Source flow) = Some src ∧ retired src = false ∧
    oauth2_Exchange (oauthConfig s src) code (fl_Verifier flow) (fw_up w) = (u', Ok tok).
Definition binding_for (user : string) (flow : BindFlow) (tok : Token) (b : Binding) : Prop :=
  bkey b = mkBKey user (fl_Game flow) (fl_Source flow) ∧ b_TokenType b = tok_TokenType tok ∧
  b_Expiry b = tok_Expiry tok ∧ (b_HasRefresh b = true ↔ tok_RefreshToken tok ≠ EmptyString).

Definition flow_key (user : string) (flow : BindFlow) : bindingIndexKey :=
  mkBKey user (fl_Game flow) (fl_Source flow).
Definition bound_as (k : bindingIndexKey) (user code : string) (flow : BindFlow) w w'
    (r : result Binding) : Prop :=
  others_unchanged s k w w' ∧
  match r with
  | Ok b => ∃ tok, issued user code flow w tok ∧ binding_for user flow tok b ∧
      claimable (flow_version flow) w k ∧ row w' k = Some b ∧
      stored_pair s w' (ident k) = Some (mkSecret (tok_AccessToken tok) (tok_RefreshToken tok))
  | Err _ =>
      (unchanged s w w' ∨ claimable (flow_version flow) w k ∧
         (secretAt s w' (ident k) = secretAt s w (ident k) ∨ secretAt s w' (ident k) = None)) ∧
      (healthy → ¬ (∃ tok, issued user code flow w tok ∧ claimable (flow_version flow) w k))
  end.

(** From the claim on: the row is claimed, then the secret is written. *)
Lemma runs_bind_claimed user code flow x tok k w w2 :
  stores_ok s w → k = flow_key user flow → validate (ident k) = None → named k →
  issued user code flow w tok → json_text (tok_AccessToken tok) → json_text (tok_RefreshToken tok) →
  asked s w w2 → binding_for user flow tok x →
  runs (won ← on_bindings (if fl_Bound flow then bs_PutIfVersion x (fl_BoundVersion flow) else bs_Create x);
        guard_err (negb won) ErrBindSuperseded;;
        stored ← try (storeBindingSecret s x (mkSecret (tok_AccessToken tok) (tok_RefreshToken tok)));
        match stored with
        | Err err =>
            rolled ← try (shredSecret s x);
            match rolled with
            | Err rerr => throw (errors_Join err (Some rerr))
            | Ok _ => throw err
            end
        | Ok _ => mret x
        end : go W Binding) w2 (λ w' r,
    stores_ok s w' ∧ fw_locks w' = fw_locks w ∧ bound_as k user code flow w w' r).
Proof.
  intros Hok Hk Hid Hn Hiss Hta Htr Ha Hx. assert (Hkx : bkey x = k) by (by rewrite Hk; apply Hx).
  pose proof (asked_at_key s k _ _ Hok Ha) as Hk2.
  assert (Hcl : ∀ v, claimable v w2 k ↔ claimable v w k).
  { intros [v|]; unfold claimable; by rewrite (asked_row s _ _ Ha). }
  replace (if fl_Bound flow then _ else _) with (claim_op (flow_version flow) x)
    by (unfold flow_version; by destruct (fl_Bound flow)).
  eapply (runs_bind _ _ _ _ _ (runs_claim (flow_version flow) x w2 (proj1 Hk2) ltac:(by rewrite Hkx)));
    rewrite Hkx; intros w3 r (Hk3 & Hv3 & Hr3 & Hans3);
    pose proof (at_key_trans s _ _ _ _ Hk2 Hk3) as (Hok3 & Hl3 & Hoth3 & Hrow3); 
    assert (Hs3 : ∀ id, secretAt s w3 id = secretAt s w id)
      by (intros id; unfold secretAt at 1; rewrite Hv3; by apply asked_secret).
  2: { split; [done|]. split; [done|]. split; [done|]. split.
       - destruct Hr3 as [Hr|Hc%Hcl]; [left|right; by auto].
         split; [done|]. intros k'. destruct (decide (k' = k)) as [->|?]; [|by apply Hrow3].
         by rewrite Hr, (asked_row s _ _ Ha).
       - intros (Hsa & _). by specialize (Hans3 Hsa). }
  apply runs_guard; intros Hwon.
  { destruct r; [done|]. destruct Hr3 as [Hnc Hr]. split; [done|]. split; [done|]. split; [done|].
    split; [|by intros _ (tok' & _ & ?%Hcl)]. left. split; [done|]. intros k'.
    destruct (decide (k' = k)) as [->|?]; [|by apply Hrow3]. by rewrite Hr, (asked_row s _ _ Ha). }
  destruct r; [|done]. destruct Hr3 as [Hc%Hcl Hr].
  assert (Hidx : BindingIdentity x = ident k) by (by rewrite <-Hkx).
  eapply runs_bind_try; [by apply runs_store|]. intros w4 stored (Hin4 & Hst & Hsucc).
  pose proof (in_vault_stores s _ _ Hok3 Hin4) as Hok4. pose proof (proj1 Hin4) as E4.
  destruct stored as [[]|err].
  - destruct Hst as (enc & Henc & Hst). split; [done|]. split; [by rewrite E4|]. split; [split|].
    + intros id Hne. by rewrite Hst, decide_False, Hs3 by (by rewrite Hidx).
    + intros k' Hne. rewrite <-Hrow3 by done. unfold row. by rewrite E4.
    + exists tok. split_and!; try done; [unfold row; by rewrite E4|].
      unfold stored_pair. by rewrite Hst, decide_True, Henc.
  - eapply runs_bind_try; [by apply runs_shred; rewrite ?Hidx|]. intros w5 rolled (Hin5 & Hs5 & _).
    pose proof (in_vault_stores s _ _ Hok4 Hin5) as Hok5. pose proof (proj1 Hin5) as E5.
    enough (Hpost : ∀ e, stores_ok s w5 ∧ fw_locks w5 = fw_locks w ∧ bound_as k user code flow w w5 (Err e))
      by (destruct rolled; apply Hpost).
    intros e. split; [done|]. split; [by rewrite E5, E4|]. split; [split|split].
    + intros id Hne. by rewrite Hs5, decide_False, Hst, Hs3 by (by rewrite Hidx).
    + intros k' Hne. rewrite <-Hrow3 by done. unfold row. by rewrite E5, E4.
    + right. split; [done|]. right. by rewrite Hs5, decide_True.
    + intros (_ & Hcr & Hlog & _) _. rewrite Hidx in Hsucc. by specialize (Hsucc Hid Hcr Hlog).
Qed.

Lemma runs_bind_locked user code flow w :
  stores_ok s w → sources_wf (fe_registry s) → lacks "|" user = true → tokens_are_text →
  validate (ident (flow_key user flow)) = None →
  runs (bind_locked s user code flow) w (λ w' r,
    stores_ok s w' ∧ fw_locks w' = fw_locks w ∧ bound_as (flow_key user flow) user code flow w w' r).
Proof.
  intros Hok Hreg Hu Htext Hid. set (k := flow_key user flow) in *. unfold bind_locked.
  assert (Hno : ∀ e w1, asked s w w1 → (healthy → ¬ ∃ tok, issued user code flow w tok ∧ claimable (flow_version flow) w k) →
    stores_ok s w1 ∧ fw_locks w1 = fw_locks w ∧ bound_as k user code flow w w1 (Err e)).
  { intros e w1 Ha Hn. destruct (asked_at_key s k _ _ Hok Ha) as (? & ? & ? & ?). split; [done|]. split; [done|].
    split; [done|]. split; [|done]. left. split; [by apply asked_secret|by apply (asked_row s)]. }
  destruct (lookup_source s _ _) as [src|] eqn:Hsrc.
  2: { apply Hno; [by apply asked_refl|]. intros _ (tok & (src & u' & Hs & _) & _). congruence. }
  apply runs_guard; intros Hret.
  { apply Hno; [by apply asked_refl|]. intros _ (tok & (src' & u' & Hs & Hr & _) & _). congruence. }
  eapply (runs_bind_try _ _ _ (λ w1 r, w1 = set_up (oauth2_Exchange (oauthConfig s src) code (fl_Verifier flow) (fw_up w)).1 w ∧
    r = (oauth2_Exchange (oauthConfig s src) code (fl_Verifier flow) (fw_up w)).2)).
  { apply runs_call. by destruct (oauth2_Exchange _ _ _ _). }
  intros w1 r [Hw1 Hr]. destruct (oauth2_Exchange _ _ _ _) as [u' r'] eqn:Hex. simpl in Hw1, Hr. subst r'.
  pose proof (asked_up s u' w Hok) as Ha1. rewrite <-Hw1 in Ha1. clear Hw1. destruct r as [tok|e].
  2: { apply Hno; [done|]. intros _ (tok & (src' & u'' & Hs & _ & Hx) & _). rewrite Hsrc in Hs. injection Hs as <-. congruence. }
  assert (Hiss : issued user code flow w tok) by (by exists src, u').
  destruct (proj1 Htext _ _ _ _ _ _ Hex) as [Hta Htr].
  pose proof (proj1 (asked_at_key s k _ _ Hok Ha1)) as Hok1.
  eapply runs_bind; [by apply runs_entropy|intros w2 gen [Hl2 _]|].
  2: { intros w2 e [Hl2 (n & He)]. apply Hno; [eapply asked_trans; [exact Ha1|by apply logged_asked]|].
       intros (_ & (Hent & _) & _) _. pose proof (newBindingGeneration_ok n Hent) as Hg. by rewrite <-He in Hg. }
  pose proof (asked_trans s _ _ _ Ha1 (logged_asked s _ _ Hl2)) as Ha2. clear Hl2 Ha1.
  cbv zeta. set (x := mkBinding _ _ _ _ _ _ gen).
  eapply runs_mono; [apply (runs_bind_claimed user code flow x tok k w w2); try done|].
  - by eapply lookup_source_named.
  - split_and!; try done. simpl. by rewrite negb_true_iff, bool_decide_eq_false.
  - by intros w' r.
Qed.

(** Nothing under the lock touches the pending flows. *)
Section flows.
Context (f : F).
Definition flows_are w : Prop := fw_flows w = f.
Lemma flows_on_vault {A} (p : go (VWorld MemoryRepo Lg) A) : keeps flows_are (on_vault p).
Proof. apply keeps_zoom; [apply _|]. by intros w v v' a. Qed.
Lemma flows_on_bindings {A} (g : B → B * result A) : keeps flows_are (on_bindings g).
Proof. apply keeps_call. intros w Hw. by destruct (g (fw_bindings w)). Qed.
Lemma flows_on_up {A} (g : U → U * result A) : keeps flows_are (on_up g).
Proof. apply keeps_call. intros w Hw. by destruct (g (fw_up w)). Qed.
Lemma flows_locked {A} u g n (p : go W A) : keeps flows_are p → keeps flows_are (locked u g n p).
Proof.
  intros Hp. unfold locked, with_lock, lock, unlock. repeat (apply keeps_bind; [|intros ?]); try apply keeps_ret.
  - apply keeps_atomic. intros w Hw. by destruct (km_enter _ (fw_locks w)).
  - apply keeps_await. intros w w' Hw. by destruct (km_acquire _ _) as [k|]; simpl; [intros [= <-]|].
  - by apply keeps_try.
  - by apply keeps_atomic.
  - by apply keeps_atomic.
Qed.
Lemma flows_bind_locked user code flow : keeps flows_are (bind_locked s user code flow).
Proof.
  pose proof @flows_on_vault as Hv. pose proof @flows_on_bindings as Hb. pose proof @flows_on_up as Hup.
  unfold bind_locked, storeBindingSecret, shredSecret, throw. keeps_tac; eauto.
Qed.
End flows.

Lemma CompleteBind_spec user state code w :
  rests s w → sources_wf (fe_registry s) → lacks "|" user = true → tokens_are_text →
  (∀ flow, (fs_Consume state (fw_flows w)).2 = Ok flow → validate (ident (flow_key user flow)) = None) →
  ∃ w' flow r, run (CompleteBind s user state code) w = Some (w', Ok (flow, r)) ∧
    let '(f1, c) := fs_Consume state (fw_flows w) in
    match c with
    | Err e => w' = set_flows f1 w ∧ flow = zero_flow ∧ r = Err e
    | Ok fl => flow = fl ∧
        if negb (bool_decide (fl_User fl = user)) then
          w' = set_flows (fs_Put fl f1).1 w ∧
          r = match (fs_Put fl f1).2 with Err e => Err e | Ok _ => Err ErrBindUser end
        else if negb (time_Before (vw_clock (fw_vault w)) (fl_ExpiresAt fl)) || bool_decide (code = EmptyString) then
          w' = set_flows f1 w ∧ is_ok r = false
        else rests s w' ∧ fw_flows w' = f1 ∧ bound_as (flow_key user fl) user code fl w w' r
    end.
Proof.
  intros Hw Hreg Hu Htext Hid. unfold CompleteBind, on_flows. rewrite run_bind, run_try, run_call.
  destruct (fs_Consume state (fw_flows w)) as [f1 [fl|e]]; [|by eexists _, _, _].
  specialize (Hid fl eq_refl). destruct (negb _).
  { rewrite run_bind, run_try, run_call. simpl. destruct (fs_Put fl f1) as [f2 put]. by eexists _, _, _. }
  rewrite run_bind, run_fnow. change (vw_clock (fw_vault (set_flows f1 w))) with (vw_clock (fw_vault w)).
  destruct (negb _); cbn [orb]; [by eexists _, _, _|].
  case_bool_decide; [by eexists _, _, _|]. rewrite run_bind, run_try.
  destruct (runs_elim (locked user (fl_Game fl) (fl_Source fl) (bind_locked s user code fl)) (set_flows f1 w)
    (λ w' r, fw_flows w' = f1 ∧ rests s w' ∧ bound_as (flow_key user fl) user code fl w w' r)) as (w' & r & -> & ? & ? & ?).
  { apply (runs_keeps (flows_are f1)); [apply flows_locked, flows_bind_locked|done|].
    destruct Hw as [Hok Hm]. apply runs_locked; [done|]. intros k0.
    eapply runs_mono; [by apply (runs_bind_locked user code fl (set_locks k0 (set_flows f1 w)))|].
    intros w' r (? & Hl & Hb). split; [done|]. intros k' Hk'. by split; [split|]. }
  by eexists _, _, _.
Qed.

(** Nobody completes the flow of this state any more. *)
Definition used_up (state : string) w : Prop :=
  ∀ user code, ∃ w' e, run (CompleteBind s user state code) w = Some (w', Ok (zero_flow, Err e)) ∧ unchanged s w w'.

Lemma consumed_used_up `{!BindFlowStoreOk F} state f f1 fl w :
  fs_Consume state f = (f1, Ok fl) → fw_flows w = f1 → used_up state w.
Proof.
  intros Hc Hf user code. destruct (fs_consumed _ _ _ _ Hc) as [e He]. unfold CompleteBind, on_flows.
  rewrite run_bind, run_try, run_call, Hf. destruct (fs_Consume state f1) as [f2 c]. simpl in He. subst c.
  by eexists _, _.
Qed.


(** ** Refreshing *)

(** [needsRefresh] at a reading of the clock. *)
Definition due (now : Z) (b : Binding) : bool :=
  if negb (b_HasRefresh b) || time_IsZero (b_Expiry b) then false
  else time_After (now + refreshSkew) (b_Expiry b).

Lemma run_needsRefresh b w : run (needsRefresh b) w = Some (w, Ok (due (vw_clock (fw_vault w)) b)).
Proof. unfold needsRefresh, due. case_match; [done|]. by rewrite run_bind, run_fnow. Qed.

Lemma runs_fobserve {C} o (f : unit → go W C) w (Q : W → result C → Prop) :
  (∀ l, runs (f tt) (mkFWorld (fw_vault w) (fw_bindings w) (fw_flows w) (fw_locks w) (fw_cooldown w)
                       (fw_buffers w) (fw_up w) l) Q) → runs (mbind (M:=go W) f (fobserve s o)) w Q.
Proof.
  intros Hf. unfold runs, fobserve. rewrite run_bind. destruct (fe_metrics s).
  - rewrite run_modify. apply Hf.
  - rewrite run_ret. specialize (Hf (fw_observed w)). by destruct w.
Qed.

(** The pair and the row a refresh response makes. *)
Definition rotated_pair (toks : bindingSecret) (tok : Token) : bindingSecret :=
  mkSecret (tok_AccessToken tok)
    (if bool_decide (tok_RefreshToken tok = EmptyString) then sec_RefreshToken toks else tok_RefreshToken tok).
Definition rotated_row (fresh : Binding) (toks : bindingSecret) (tok : Token) : Binding :=
  mkBinding (b_User fresh) (b_Game fresh) (b_Source fresh) (tok_TokenType tok) (tok_Expiry tok)
    (negb (bool_decide (sec_RefreshToken (rotated_pair toks tok) = EmptyString)))
    (wrapu64 (b_Version fresh + 1)).

(** The outcome of reading the pair and asking the source with it. *)
Lemma runs_rotate src fresh w :
  healthy → stores_ok s w → validate (BindingIdentity fresh) = None →
  runs (useBindingSecret s fresh (rotate_with s src fresh)) w (λ w' r, asked s w w' ∧
    match stored_pair s w (BindingIdentity fresh) with
    | None => ∃ e, r = Err e ∧ errors_Is e errRefreshRejected = false
    | Some toks =>
        if bool_decide (sec_RefreshToken toks = EmptyString) then r = Err ErrNoRefreshToken
        else match (oauth2_Refresh (oauthConfig s src) (sec_RefreshToken toks) (fw_up w)).2 with
             | Err e =>
                 if isRefreshRejected e then r = Err errRefreshRejected
                 else ∃ e', r = Err e' ∧ errors_Is e' errRefreshRejected = false
             | Ok tok => r = Ok (rotated_pair toks tok, rotated_row fresh toks tok)
             end
    end).
Proof.
  intros (_ & _ & Hlog & _ & Hjson & Hup) Hok Hid. apply runs_use; [done..|]. intros w1 Hl.
  pose proof (logged_asked s _ _ Hl) as Ha. unfold stored_pair.
  destruct (secretAt s w (BindingIdentity fresh)) as [plain|].
  2: { intros err _ Herr. split; [done|]. rewrite (Herr Hlog). by eexists. }
  split; [by intros err ?%no_refusal|]. destruct (json_Unmarshal plain) as [toks|e] eqn:Ej.
  2: { split; [done|]. eexists. split; [done|]. simpl. by rewrite (Hjson _ _ Ej). }
  pose proof (logged_stores s _ _ Hok Hl) as Hok1.
  assert (Hend : ∀ w2, asked s w1 w2 → stores_ok s w2 ∧ ∀ w3, logged s w2 w3 → asked s w w3).
  { intros w2 Ha2. split; [exact (proj1 (asked_at_key s (bkey fresh) _ _ Hok1 Ha2))|]. intros w3 Hl3.
    eapply asked_trans; [exact Ha|]. eapply asked_trans; [exact Ha2|]. by apply logged_asked. }
  unfold rotate_with. apply runs_guard; intros Hr.
  { destruct (Hend w1 (asked_refl s w1 Hok1)) as [? Hall]. split; [done|]. intros w3 Hl3. split; [by apply Hall|].
    by rewrite Hr. }
  rewrite Hr. assert (Hup1 : fw_up w1 = fw_up w) by (destruct Hl as [[E _] _]; by rewrite E).
  eapply (runs_bind_try _ _ _ (λ w2 r, asked s w1 w2 ∧ r = (oauth2_Refresh (oauthConfig s src) (sec_RefreshToken toks) (fw_up w)).2)).
  { apply runs_call. rewrite Hup1. destruct (oauth2_Refresh _ _ _) as [u' r]. split; [by apply asked_up|done]. }
  intros w2 r [Ha2 ->]. destruct (Hend w2 Ha2) as [Hok2 Hall].
  destruct (oauth2_Refresh _ _ (fw_up w)) as [u' [tok|e]] eqn:Er; simpl.
  - split; [done|]. intros w3 Hl3. split; [by apply Hall|]. unfold rotated_row, rotated_pair. simpl.
    by destruct (bool_decide (tok_RefreshToken tok = EmptyString)).
  - destruct (isRefreshRejected e) eqn:Erj; (split; [done|]); intros w3 Hl3; (split; [by apply Hall|]); [done|].
    eexists. split; [done|]. simpl. by rewrite (Hup _ _ _ _ _ Er).
Qed.

Lemma runs_rejected spent w :
  healthy → stores_ok s w → lacks "|" (b_User spent) = true → validate (BindingIdentity spent) = None →
  row w (bkey spent) = Some spent →
  runs (refreshRejected s spent) w (λ w' r,
    at_key s (bkey spent) w w' ∧ row w' (bkey spent) = None ∧ secretAt s w' (ident (bkey spent)) = None ∧
    r = Err (Typed (NotBoundError (b_Game spent) (b_Source spent)))).
Proof.
  intros (Hans & _ & Hlog & _) Hok Hu Hid Hrow. unfold refreshRejected. cbv zeta.
  apply (runs_getBinding s); [done..| |].
  2: { intros e He Hnb. specialize (He (Hnb Hans)). change (mkBKey _ _ _) with (bkey spent) in He. congruence. }
  intros x Hx. change (mkBKey _ _ _) with (bkey spent) in Hx. rewrite Hrow in Hx. injection Hx as <-.
  rewrite Z.eqb_refl. simpl negb. cbn iota.
  eapply runs_bind_try; [by apply runs_shred|]. intros w1 r (Hin & Hs & Hr). specialize (Hr Hlog). subst r.
  assert (Hk1 : at_key s (bkey spent) w w1).
  { apply in_vault_at_key; [done..|]. intros id Hne. rewrite Hs, decide_False; [done|]. exact Hne. }
  eapply runs_bind_try; [apply (runs_delete s); [apply Hk1|done]|]. intros w2 r (Hk2 & Hs2 & Hrow2 & Hr2).
  specialize (Hr2 Hans). subst r. split; [by eapply at_key_trans|].
  split; [by destruct Hrow2 as [?|[? _]]|]. split; [|done]. by rewrite Hs2, Hs, decide_True.
Qed.

(** What a refresh does to the row and the pair of a binding. *)
Definition refreshed (src : Source) (current : Binding) (force : bool) w w' (r : result Binding) : Prop :=
  let k := bkey current in
  match row w k with
  | None => unchanged s w w' ∧ is_ok r = false
  | Some fresh =>
      if negb (b_Version fresh =? b_Version current)%Z || negb (force || due (vw_clock (fw_vault w)) fresh)
      then unchanged s w w' ∧ r = Ok fresh
      else if negb (b_HasRefresh fresh) then unchanged s w w' ∧ r = Err ErrNoRefreshToken
      else match stored_pair s w (ident k) with
           | None => unchanged s w w' ∧ is_ok r = false
           | Some toks =>
               if bool_decide (sec_RefreshToken toks = EmptyString)
               then unchanged s w w' ∧ r = Err ErrNoRefreshToken
               else match (oauth2_Refresh (oauthConfig s src) (sec_RefreshToken toks) (fw_up w)).2 with
                    | Err e =>
                        if isRefreshRejected e
                        then row w' k = None ∧ secretAt s w' (ident k) = None ∧
                             r = Err (Typed (NotBoundError (b_Game fresh) (b_Source fresh)))
                        else unchanged s w w' ∧ is_ok r = false
                    | Ok tok => row w' k = Some (rotated_row fresh toks tok) ∧
                        stored_pair s w' (ident k) = Some (rotated_pair toks tok) ∧
                        r = Ok (rotated_row fresh toks tok)
                    end
           end
  end.

Lemma asked_unchanged w w' : asked s w w' → unchanged s w w'.
Proof. intros Ha. split; [by apply asked_secret|by apply (asked_row s)]. Qed.

(** The claim and the write that end a successful refresh. *)
Lemma runs_rotated toks tok fresh w w1 :
  healthy → stores_ok s w → validate (ident (bkey fresh)) = None → row w (bkey fresh) = Some fresh →
  named (bkey fresh) → json_text (tok_AccessToken tok) → json_text (tok_RefreshToken tok) →
  json_text (sec_RefreshToken toks) → asked s w w1 →
  runs (won ← on_bindings (bs_PutIfVersion (rotated_row fresh toks tok) (b_Version fresh));
        if negb won then
          fobserve s (ObserveUpstreamRefresh RefreshLost);;
          ask_bindings (bs_Get (b_User fresh) (b_Game fresh) (b_Source fresh))
        else
          stored ← try (storeBindingSecret s (rotated_row fresh toks tok) (rotated_pair toks tok));
          match stored with
          | Err err => fobserve s (ObserveUpstreamRefresh RefreshTransient);; throw err
          | Ok _ => fobserve s (ObserveUpstreamRefresh RefreshOK);; mret (rotated_row fresh toks tok)
          end : go W Binding) w1 (λ w' r,
    at_key s (bkey fresh) w w' ∧ row w' (bkey fresh) = Some (rotated_row fresh toks tok) ∧
    stored_pair s w' (ident (bkey fresh)) = Some (rotated_pair toks tok) ∧
    r = Ok (rotated_row fresh toks tok)).
Proof.
  intros (Hans & Hcr & Hlog & _) Hok Hid Hrow Hn Hta Htr Hts Ha. set (x := rotated_row fresh toks tok).
  assert (Hkx : bkey x = bkey fresh) by done.
  pose proof (asked_at_key s (bkey fresh) _ _ Hok Ha) as Hk1.
  change (bs_PutIfVersion x (b_Version fresh)) with (claim_op (Some (b_Version fresh)) x).
  eapply runs_bind; [by apply runs_claim; [apply Hk1|]| |].
  2: { intros w2 e (_ & _ & _ & Hx). by specialize (Hx Hans). }
  intros w2 won (Hk2 & Hv2 & Hwon & _). rewrite Hkx in *. destruct won; simpl negb; cbn iota.
  2: { destruct Hwon as [Hwon _]. destruct Hwon. simpl. by rewrite (asked_row s _ _ Ha), Hrow. }
  destruct Hwon as [_ Hrow2]. pose proof (at_key_trans s _ _ _ _ Hk1 Hk2) as Hk12.
  eapply runs_bind_try; [apply (runs_store s); [apply Hk12|done|unfold rotated_pair; simpl; by case_bool_decide]|].
  intros w3 stored (Hin3 & Hst & Hsucc). specialize (Hsucc Hid Hcr Hlog). subst stored.
  destruct Hst as (enc & Henc & Hst). pose proof (proj1 Hin3) as E3.
  assert (Hk3 : at_key s (bkey fresh) w2 w3).
  { apply in_vault_at_key; [apply Hk12|done|]. intros id Hne. by rewrite Hst, decide_False. }
  apply runs_fobserve. intros l. split; [exact (at_key_trans s _ _ _ _ Hk12 Hk3)|].
  split; [change (row w3 (bkey fresh) = Some x); unfold row; by rewrite E3|]. split; [|done].
  change (stored_pair s w3 (ident (bkey fresh)) = Some (rotated_pair toks tok)).
  unfold stored_pair. by rewrite Hst, decide_True, Henc.
Qed.

Lemma runs_refresh_locked src current force w :
  healthy → stores_ok s w → lacks "|" (b_User current) = true → validate (ident (bkey current)) = None →
  runs (refresh_locked s src current force) w (λ w' r,
    at_key s (bkey current) w w' ∧ refreshed src current force w w' r).
Proof.
  intros Hh Hok Hu Hid. pose proof Hh as (Hans & _ & _ & (_ & Htext) & _). unfold refresh_locked, refreshed. cbv zeta.
  apply (runs_get s); [done|done| |].
  2: { intros e _ Hnone. change (mkBKey _ _ _) with (bkey current) in Hnone. rewrite (Hnone Hans).
       split; [|done]. by apply logged_at_key, logged_refl. }
  intros fresh Hrow. change (mkBKey _ _ _) with (bkey current) in Hrow. rewrite Hrow.
  destruct (bound_key s _ _ _ Hok Hrow) as [Hk Hn].
  assert (Hstay : ∀ w1, asked s w w1 → at_key s (bkey current) w w1 ∧ unchanged s w w1).
  { intros w1 Ha. split; [by apply asked_at_key|by apply asked_unchanged]. }
  pose proof (Hstay w (asked_refl s w Hok)) as [Hat Hunch].
  destruct (Z.eqb_spec (b_Version fresh) (b_Version current)) as [Hver|Hver]; simpl; [|done].
  eapply (runs_bind _ _ _ (λ w' r, w' = w ∧ r = Ok (force || due (vw_clock (fw_vault w)) fresh)));
    [|intros w' d [-> [= ->]]|by intros w' e [_ ?]].
  { unfold runs. destruct force; [done|]. by rewrite run_needsRefresh. }
  destruct (force || _); simpl; [|done]. destruct (b_HasRefresh fresh); simpl.
  2: { apply runs_fobserve. by intros l. }
  rewrite <-Hk in *. eapply runs_bind_try; [by apply runs_rotate|]. intros w1 r [Ha Hr].
  change (BindingIdentity fresh) with (ident (bkey fresh)) in Hr. destruct (Hstay w1 Ha) as [Hat1 Hunch1].
  assert (Hfail : ∀ e o, runs (fobserve s o;; throw e : go W Binding) w1 (λ w' r,
    at_key s (bkey fresh) w w' ∧ unchanged s w w' ∧ r = Err e)).
  { intros e o. apply runs_fobserve. by intros l. }
  destruct (stored_pair s w (ident (bkey fresh))) as [toks|] eqn:Est.
  2: { destruct Hr as (e & -> & ->). case_match; (eapply runs_mono; [apply Hfail|naive_solver]). }
  case_bool_decide as Hempty.
  { subst r. eapply runs_mono; [apply Hfail|naive_solver]. }
  destruct (oauth2_Refresh _ _ (fw_up w)) as [u' [tok|e]] eqn:Eo; simpl in *.
  - subst r. destruct (Htext _ _ _ _ _ Eo) as [Hta Htr].
    apply runs_rotated; [done..| |done]. unfold stored_pair in Est.
    destruct (secretAt s w _) as [plain|]; [|done]. destruct (json_Unmarshal plain) as [t|] eqn:Ej; [|done].
    injection Est as <-. by apply json_decoded in Ej as [_ ?].
  - destruct (isRefreshRejected e).
    + subst r. simpl. apply runs_fobserve. intros l. set (w2 := mkFWorld _ _ _ _ _ _ _ l).
      eapply runs_mono; [apply (runs_rejected fresh w2); [done|apply Hat1|exact (proj1 Hn)|done|]|].
      * change (row w1 (bkey fresh) = Some fresh). by rewrite (asked_row s _ _ Ha).
      * intros w3 r (Hk3 & ? & ? & ?). split; [exact (at_key_trans s _ _ _ _ Hat1 Hk3)|done].
    + destruct Hr as (e' & -> & ->). case_match; (eapply runs_mono; [apply Hfail|naive_solver]).
Qed.

(** Refreshing a binding, with everything but the source working. The row is
    re-read under the lock: a version that moved, or a token that is not due, is
    returned as it is, without asking the source. Otherwise the source is asked
    with exactly the stored refresh token. What it issues replaces the stored
    pair, keeping the old refresh token when none was returned, and the row moves
    to the next version with the new expiry. A definitive rejection removes the
    secret and the row and reports the source as not bound; any other failure
    changes nothing. *)
Theorem refreshBinding_exact src current force w :
  healthy → rests s w → lacks "|" (b_User current) = true → validate (ident (bkey current)) = None →
  ∃ w' r, run (refreshBinding s src current force) w = Some (w', r) ∧ rests s w' ∧
    others_unchanged s (bkey current) w w' ∧ refreshed src current force w w' r.
Proof.
  intros Hh [Hok Hm] Hu Hid.
  destruct (runs_elim (refreshBinding s src current force) w (λ w' r, rests s w' ∧
    others_unchanged s (bkey current) w w' ∧ refreshed src current force w w' r)) as (w' & r & ? & ? & ? & ?);
    [|by eexists _, _].
  apply runs_locked; [done|]. intros k0.
  eapply runs_mono; [by apply (runs_refresh_locked src current force (set_locks k0 w))|].
  intros w' r ((Hok' & Hl & Hs & Hr) & Href). split; [done|]. intros k' Hk'. by split; [split|split].
Qed.

(** ** Reading with what was bound *)

Lemma runs_read_body {A} caller e resp (keep : string → option (string * Z) → result A) w a :
  (acquire caller (reserveFor (rs_ContentLength resp) (maxBody + 1)) (fw_buffers w)).2 = true →
  (Z.of_nat (String.length (rs_Body resp).1) ≤ maxBody)%Z → (rs_Body resp).2 = None →
  keep (rs_Body resp).1 (Some (caller, reserveFor (rs_ContentLength resp) (maxBody + 1))) = Ok a →
  runs (read_body caller e resp keep) w (λ w' r, (∃ b, w' = set_buffers b w) ∧ r = Ok a).
Proof.
  set (reserve := reserveFor _ _). intros Hacq Hlen Hend Hkeep. unfold runs, read_body. cbv zeta. fold reserve.
  rewrite run_bind, run_atomic. destruct (acquire caller reserve (fw_buffers w)) as [b got]. simpl in Hacq. subst got.
  rewrite run_bind, run_guard. cbn [fst snd negb]. unfold read_limited.
  rewrite (proj2 (Z.leb_gt _ _)) by lia. rewrite Hend, (proj2 (Z.ltb_ge _ _)) by lia. rewrite Hkeep. cbn [is_ok].
  rewrite run_bind, run_ret, run_lift. split; [by eexists|done].
Qed.

(** The request a read of a resource sends with a token. *)
Definition resource_request (src : Source) (resource token : string) : result HTTPRequest :=
  newRequest "GET" (trim_slashes (src_Issuer src) +:+ "/resources/" +:+ url_PathEscape resource)
    [("Authorization", "Bearer " +:+ token); ("Accept", "application/json")] None EmptyString.

(** The source answers a read made with the token with this JSON body. *)
Definition serves (src : Source) (resource token caller body : string) (n : Z) w : Prop :=
  ∃ req u' resp, resource_request src resource token = Ok req ∧ http_Do req (fw_up w) = (u', Ok resp) ∧
    rs_StatusCode resp = 200%Z ∧ rs_Body resp = (body, None) ∧ json_Valid body = true ∧
    (Z.of_nat (String.length body) ≤ maxBody)%Z ∧ n = reserveFor (rs_ContentLength resp) (maxBody + 1) ∧
    (acquire caller n (fw_buffers w)).2 = true.

Lemma runs_fetchResource src resource token caller body n w :
  stores_ok s w → serves src resource token caller body n w →
  runs (fetchResource src resource token caller) w (λ w' r,
    stores_ok s w' ∧ r = Ok (body, Some (caller, n))).
Proof.
  intros Hok (req & u' & resp & Hreq & Hdo & Hst & Hbody & Hv & Hlen & -> & Hacq).
  unfold fetchResource. cbv zeta. unfold resource_request in Hreq. rewrite Hreq.
  eapply (runs_bind_try _ _ _ (λ w1 r, w1 = set_up u' w ∧ r = Ok resp)).
  { apply runs_call. by rewrite Hdo. }
  intros w1 r [-> ->]. eapply runs_mono; [eapply runs_read_body; rewrite ?Hbody; [done..|]; simpl; by rewrite Hst, Hv|].
  by intros w' r [(b & ->) ->].
Qed.

Lemma run_isCooling key w :
  run (isCooling key) w =
    Some (set_cooldown (cooling (vw_clock (fw_vault w)) key (fw_cooldown w)).1 w,
          Ok (cooling (vw_clock (fw_vault w)) key (fw_cooldown w)).2).
Proof. unfold isCooling. rewrite run_bind, run_fnow, run_atomic. by destruct (cooling _ _ _). Qed.

Lemma run_note key err w :
  ∃ c, run (noteBindingOutcome key err) w = Some (set_cooldown c w, Ok tt).
Proof.
  unfold noteBindingOutcome. case_match; [rewrite run_bind, run_fnow|]; rewrite run_modify; by eexists.
Qed.

(** A token that is not due is used as it is stored. *)
Lemma runs_callWithRefresh {A} src b (fn : string → go W A) toks a w :
  stores_ok s w → log_takes_all (Lg:=Lg) → validate (BindingIdentity b) = None →
  stored_pair s w (BindingIdentity b) = Some toks → due (vw_clock (fw_vault w)) b = false →
  (∀ w1, logged s w w1 → runs (fn (sec_AccessToken toks)) w1 (λ w' r, stores_ok s w' ∧ r = Ok a)) →
  runs (callWithRefresh s src b fn) w (λ _ r, r = Ok a).
Proof.
  intros Hok Hlog Hid Hpair Hdue Hfn. unfold callWithRefresh, runs. rewrite run_bind, run_needsRefresh, Hdue.
  rewrite run_bind, run_ret, run_bind, run_try. unfold stored_pair in Hpair.
  destruct (runs_elim (withAccessToken s b fn) w (λ _ r, r = Ok a)) as (w' & r & -> & ->); [|done].
  unfold withAccessToken. apply runs_use; [done..|]. intros w1 Hl.
  destruct (secretAt s w (BindingIdentity b)) as [plain|]; [|done]. split; [by intros err ?%no_refusal|].
  destruct (json_Unmarshal plain) as [t|]; [|done]. injection Hpair as ->.
  eapply runs_mono; [by apply Hfn|]. by intros w' r [? ->].
Qed.

(** An account whose binding is not due and not cooling is served with the
    stored access token. *)
Lemma runs_trySource src req b toks body n w :
  rests s w → store_answers (B:=B) → log_takes_all (Lg:=Lg) → lacks "|" (fq_User req) = true →
  let k := mkBKey (fq_User req) (fq_Game req) (src_Name src) in
  row w k = Some b → validate (ident k) = None → stored_pair s w (ident k) = Some toks →
  due (vw_clock (fw_vault w)) b = false →
  (cooling (vw_clock (fw_vault w)) (key_string k) (fw_cooldown w)).2 = false →
  serves src (fq_Resource req) (sec_AccessToken toks) (fq_User req) body n w →
  runs (trySource s src req) w (λ _ r, r = Ok (mkFetched (src_Name src) false body (Some (fq_User req, n)))).
Proof.
  intros [Hok _] Hans Hlog Hu k Hrow Hid Hpair Hdue Hcool Hserves.
  unfold trySource. apply (runs_getBinding s); [done|done| |].
  2: { intros e He Hnb. fold k in He. specialize (He (Hnb Hans)). congruence. }
  intros x Hx. fold k in Hx. rewrite Hrow in Hx. injection Hx as <-. cbv zeta.
  destruct (bound_key s _ _ _ Hok Hrow) as [Hk _].
  assert (Hbid : BindingIdentity b = ident k) by (by rewrite <-Hk).
  unfold runs. rewrite run_bind, run_isCooling. change (bindingKey _ _ _) with (key_string k).
  rewrite Hcool, run_bind, run_guard, run_bind, run_try.
  set (w1 := set_cooldown _ w).
  destruct (runs_elim (callWithRefresh s src b (λ token, fetchResource src (fq_Resource req) token (fq_User req))) w1
    (λ _ r, r = Ok (body, Some (fq_User req, n)))) as (w2 & r & -> & ->).
  { apply (runs_callWithRefresh src b _ toks); [done|done|by rewrite Hbid|by rewrite Hbid|done|].
    intros w3 Hl3. apply runs_fetchResource; [exact (logged_stores s w1 w3 Hok Hl3)|].
    destruct Hl3 as [[E _] _]. by rewrite E. }
  destruct (run_note (key_string k) (err_of (Ok (body, Some (fq_User req, n)))) w2) as [c Hnote].
  by rewrite run_bind, Hnote.
Qed.

(** The candidates the account has not bound are passed over. *)
Lemma runs_fetch_loop req pre src rest w i last nb other (Q : W → result FetchResult → Prop) :
  rests s w → store_answers (B:=B) → lacks "|" (fq_User req) = true →
  Forall (λ x, row w (mkBKey (fq_User req) (fq_Game req) (src_Name x)) = None) pre →
  runs (trySource s src req) w (λ w1 r, ∃ a, r = Ok a ∧
    ∀ l, Q (mkFWorld (fw_vault w1) (fw_bindings w1) (fw_flows w1) (fw_locks w1) (fw_cooldown w1) (fw_buffers w1) (fw_up w1) l)
      (Ok (mkFetched (fr_Source a) (negb (i + length pre =? 0)) (fr_Data a) (fr_Release a)))) →
  runs (fetch_loop s req i (pre ++ src :: rest) last nb other) w Q.
Proof.
  intros Hw Hans Hu Hpre Hsrc. revert i last nb other Hsrc. induction Hpre as [|x pre Hx Hpre IH]; intros i last nb other Hsrc.
  - cbn [app fetch_loop length] in *. rewrite Nat.add_0_r in Hsrc. eapply runs_bind_try; [exact Hsrc|].
    intros w1 r (a & -> & Ha). cbv zeta. apply runs_fobserve. intros l. apply Ha.
  - cbn [app fetch_loop length] in *. eapply (runs_bind_try _ _ _ (λ w1 r, w1 = w ∧
      r = Err (Typed (NotBoundError (fq_Game req) (src_Name x))))).
    + unfold trySource. apply (runs_getBinding s); [apply Hw|done|by intros ? ?; congruence|].
      intros e _ Hnb. by rewrite (Hnb Hans).
    + intros w1 r [-> ->]. cbn [as_not_bound]. apply IH. by rewrite Nat.add_succ_comm.
Qed.

(** C33. What is bound can be used. Take a bind that succeeded and any later state
    with no request running, in which the account's row and secret for the source
    are still the ones the bind left, the token is not due and the binding not
    cooling, and a read for which every candidate before that source is one the
    account has not bound. The binding store answers and the audit log takes every
    event. Then the read sends the source exactly the access token the source
    issued for the code, and hands back the JSON body it answers with, under the
    account's byte reservation, marked degraded exactly when there was such an
    earlier candidate. *)
Theorem bind_then_fetch user state code w w1 flow b w2 req pre src rest :
  rests s w → sources_wf (fe_registry s) → lacks "|" user = true →
  store_answers (B:=B) → log_takes_all (Lg:=Lg) → tokens_are_text →
  (fs_Consume state (fw_flows w)).2 = Ok flow → validate (ident (flow_key user flow)) = None →
  run (CompleteBind s user state code) w = Some (w1, Ok (flow, Ok b)) →
  rests s w2 → row w2 (flow_key user flow) = row w1 (flow_key user flow) →
  secretAt s w2 (ident (flow_key user flow)) = secretAt s w1 (ident (flow_key user flow)) →
  fq_User req = user → fq_Game req = fl_Game flow →
  candidates (fe_registry s) (fq_Game req) (fq_Resource req) (fq_Source req) = Ok (pre ++ src :: rest) →
  Forall (λ x, row w2 (mkBKey user (fl_Game flow) (src_Name x)) = None) pre → src_Name src = fl_Source flow →
  due (vw_clock (fw_vault w2)) b = false →
  (cooling (vw_clock (fw_vault w2)) (key_string (flow_key user flow)) (fw_cooldown w2)).2 = false →
  ∃ tok, issued user code flow w tok ∧
    ∀ body n, serves src (fq_Resource req) (tok_AccessToken tok) user body n w2 →
      ∃ w3, run (Fetch s req) w2 = Some (w3, Ok (mkFetched (fl_Source flow) (negb (length pre =? 0)) body (Some (user, n)))).
Proof.
  intros Hw Hreg Hu Hans Hlog Htext Hcons Hid Hrun Hw2 Hrow2 Hsec2 <- Hg Hcand Hpre Hn Hdue Hcool.
  destruct (CompleteBind_spec (fq_User req) state code w) as (w' & fl & r & Hrun' & Hspec); [done..| |].
  { intros fl Hfl. rewrite Hcons in Hfl. by injection Hfl as <-. }
  rewrite Hrun in Hrun'. injection Hrun' as <- <- <-.
  destruct (fs_Consume state (fw_flows w)) as [f1 c]. simpl in Hcons. subst c. destruct Hspec as [_ Hspec].
  destruct (negb (bool_decide _)). { destruct Hspec as [_ Hr]. by destruct (fs_Put flow f1).2. }
  destruct (negb _ || _). { by destruct Hspec. }
  destruct Hspec as (_ & _ & _ & tok & Hiss & (Hk & _) & _ & Hrow & Hpair). exists tok. split; [done|].
  intros body n Hserves. unfold flow_key in *. rewrite <-Hg, <-Hn in *.
  assert (Hpair2 : stored_pair s w2 (ident (mkBKey (fq_User req) (fq_Game req) (src_Name src))) =
    Some (mkSecret (tok_AccessToken tok) (tok_RefreshToken tok))) by (unfold stored_pair; by rewrite Hsec2).
  destruct (runs_elim (Fetch s req) w2 (λ _ r, r =
    Ok (mkFetched (src_Name src) (negb (length pre =? 0)) body (Some (fq_User req, n))))) as (w3 & r & -> & ->); [|by eexists].
  unfold Fetch. rewrite Hcand. apply runs_fetch_loop; [done..|]. eapply runs_mono; [by eapply runs_trySource; rewrite ?Hrow2|].
  intros w3 r ->. eexists. by split; [done|].
Qed.
End properties.
