(* ===== verification/FedDemo.v ===== *)
(** * A small data plane for closed examples

    One configured source, one account, stores in memory, a source that answers
    what its token allows, and the closed instances of the data plane's
    properties. *)

From S2P Require Import Prelude GoStd Proc AuditLog VaultRepo VaultEnvelope Vault VaultProps VaultRotate.
From S2P Require Import VaultDemo FedRegistry RawPath FedStore FedLimits FedLocks Fed FedConc FedRun FedProps FedBind.

#[local] Existing Instance toy_platform.
#[local] Existing Instance toy_aead.
#[local] Existing Instance toy_aead_ok.
#[local] Existing Instance vault_entropy.
#[local] Existing Instance vault_entropy_ok.

(** ** Token pairs *)

(** The two tokens with a bar between them. *)
Fixpoint cut_at (c : ascii) (s : string) : option (string * string) :=
  match s with
  | EmptyString => None
  | String d s' =>
      if bool_decide (d = c) then Some (EmptyString, s')
      else match cut_at c s' with Some (a, b) => Some (String d a, b) | None => None end
  end.
Definition toy_json : Json := {|
  json_Marshal s := Ok (sec_AccessToken s +:+ String "|" (sec_RefreshToken s));
  json_Unmarshal p :=
    match cut_at "|" p with
    | Some (a, b) => if lacks "|" b then Ok (mkSecret a b) else Err (New "json")
    | None => Err (New "json")
    end;
  json_Valid p := negb (bool_decide (p = EmptyString));
|}.
#[local] Existing Instance toy_json.

Lemma cut_at_app c a b : lacks c a = true → cut_at c (a +:+ String c b) = Some (a, b).
Proof.
  induction a as [|d a IH]; simpl; [by rewrite bool_decide_true|]. unfold lacks. simpl.
  intros [Hd Ha]%andb_true_iff. apply negb_true_iff in Hd. rewrite Hd. by rewrite IH.
Qed.
Lemma cut_at_lacks c s a b : cut_at c s = Some (a, b) → lacks c a = true.
Proof.
  revert a. induction s as [|d s IH]; intros a; simpl; [done|]. case_bool_decide as Hd; [by intros [= <- _]|].
  destruct (cut_at c s) as [[a' b']|]; [|done]. intros [= <- <-]. unfold lacks. simpl.
  rewrite bool_decide_false by done. by apply IH.
Qed.

#[local] Instance toy_json_ok : JsonOk.
Proof.
  refine {| json_text s := lacks "|" s = true |}.
  - intros [a b] Ha Hb. eexists. split; [reflexivity|]. simpl in *. by rewrite cut_at_app, Hb.
  - intros p t. simpl. destruct (cut_at "|" p) as [[a b]|] eqn:E; [|done].
    destruct (lacks "|" b) eqn:Hb; [|done]. intros [= <-]. simpl. split; [by eapply cut_at_lacks|done].
Defined.

(** ** The source *)

(** It issues a token named after the code, rotates to a fixed one, serves a
    resource to the first, and confirms every revocation. *)
Definition toy_upstream : Upstream (list HTTPRequest) := {|
  oauth2_GenerateVerifier u := (u, "verifier");
  oauth2_AuthCodeURL cfg state _ := oc_AuthURL cfg +:+ "?state=" +:+ state;
  oauth2_Exchange _ code _ u :=
    (u, Ok (mkToken (if lacks "|" code then "at-" +:+ code else "at") "Bearer" "rt" 5000000000000));
  oauth2_Refresh _ token u :=
    (u, if bool_decide (token = "rt") then Ok (mkToken "at-2" "Bearer" "rt-2" 9000000000000)
        else Err (Typed (RetrieveError "invalid_grant" "rejected")));
  http_Do req u :=
    (u ++ [req],
     Ok (if bool_decide (rq_Method req = "POST")
         then mkResponse 200 0 EmptyString EmptyString (EmptyString, None)
         else if bool_decide (("Authorization", "Bearer at-code") ∈ rq_Headers req)
         then mkResponse 200 7 "application/json" EmptyString ("[1,2,3]", None)
         else mkResponse 401 0 EmptyString EmptyString (EmptyString, None)));
|}.
#[local] Existing Instance toy_upstream.

Definition demo_source : Source :=
  mkSource "osu" "main" "Osu" "https://a" tokenClassRevocable
    [mkResource "profile" "v1" "osu.profile"] StatusActive "https://a/raw" "client" "shh"
    "https://a/authorize" "https://a/token" "https://a/revoke" "https://a/cascade".
Definition demo_sources : SourceRegistry :=
  match NewSourceRegistry [demo_source] with Ok r => r | Err _ => mkSources ∅ ∅ end.
Lemma demo_sources_eq : NewSourceRegistry [demo_source] = Ok demo_sources.
Proof. vm_compute. reflexivity. Qed.
Lemma demo_sources_wf : sources_wf demo_sources.
Proof. exact (NewSourceRegistry_wf _ _ demo_sources_eq). Qed.

Definition demo_config : FedConfig :=
  mkFedConfig (Some demo_sources) true (Some demo_vault) true "https://re0/" 0 1 true 0 0 0 0.
Definition demo_fed : federation :=
  match NewFederation demo_config with
  | Ok (f, _, _) => f
  | Err _ => mkFed demo_sources demo_vault EmptyString 0 0 false
  end.
Lemma demo_fed_vault : fe_vault demo_fed = demo_vault.
Proof. reflexivity. Qed.
#[local] Instance demo_fed_keys : KeysOk (fe_vault demo_fed) := demo_keys_ok.

Local Abbreviation DW := (FWorld MemoryRepo MemoryLogger MemoryBindingStore MemoryBindFlowStore (list HTTPRequest)).

Lemma demo_crypto : crypto_works demo_fed.
Proof. split; [apply _|]. rewrite demo_fed_vault. apply demo_wraps. Qed.
Lemma demo_healthy : healthy (Lg:=MemoryLogger) (B:=MemoryBindingStore) (U:=list HTTPRequest) demo_fed.
Proof.
  split; [apply memory_answers|]. split; [apply demo_crypto|]. split; [done|]. split.
  - split; simpl.
    + intros cfg code v u u' tok [= <- <-]. simpl. split; [|done].
      destruct (lacks "|" code) eqn:E; [|done]. unfold lacks in *. simpl. exact E.
    + intros cfg token u u' tok. case_bool_decide; [|done]. by intros [= <- <-].
  - split; simpl.
    + intros p e. destruct (cut_at _ _) as [[a b]|]; [destruct (lacks _ _); [done|]|]; by intros [= <-].
    + intros cfg token u u' e. case_bool_decide; [done|]. by intros [= <- <-].
Qed.

(** ** An account binds the source *)

Definition w_start : DW :=
  mkFWorld start_world NewMemoryBindingStore ∅ NewKeyedMutex (newBindingCooldown 0 0 0)
    (newBufferBudget defaultMaxBufferedBytes) [] [].
Definition after {A} (p : go DW A) (w : DW) : DW :=
  match run p w with Some (w', _) => w' | None => w end.
Definition w_begun : DW := after (BeginBind demo_fed "usr_1" "osu" "main" "/home") w_start.
Definition demo_flow : BindFlow :=
  match map_to_list (fw_flows w_begun) with (_, f) :: _ => f | [] => zero_flow end.
Definition w_bound : DW := after (CompleteBind demo_fed "usr_1" (fl_State demo_flow) "code") w_begun.
Definition demo_binding : Binding :=
  match Bindings_Get "usr_1" "osu" "main" (fw_bindings w_bound) with Ok b => b | Err _ => zero_binding end.
Definition demo_key3 : bindingIndexKey := mkBKey "usr_1" "osu" "main".

Lemma w_start_rests : rests demo_fed w_start.
Proof. split; [split; [apply start_ok|apply bindings_wf_empty]|done]. Qed.

Lemma w_begun_rests : rests demo_fed w_begun.
Proof.
  split; [split|vm_compute; reflexivity].
  - assert (vw_repo (fw_vault w_begun) = NewMemoryRepo) as -> by (vm_compute; reflexivity). apply start_ok.
  - assert (fw_bindings w_begun = NewMemoryBindingStore) as -> by (vm_compute; reflexivity). apply bindings_wf_empty.
Qed.

Lemma w_bound_run :
  run (CompleteBind demo_fed "usr_1" (fl_State demo_flow) "code") w_begun =
    Some (w_bound, Ok (demo_flow, Ok demo_binding)).
Proof. vm_compute. reflexivity. Qed.

Lemma demo_consume : fs_Consume (fl_State demo_flow) (fw_flows w_begun) = (∅, Ok demo_flow).
Proof. vm_compute. reflexivity. Qed.
Lemma demo_valid : validate (ident (flow_key "usr_1" demo_flow)) = None.
Proof. vm_compute. reflexivity. Qed.
Lemma demo_owner : negb (bool_decide (fl_User demo_flow = "usr_1")) = false.
Proof. vm_compute. reflexivity. Qed.
Lemma demo_accepts :
  negb (time_Before (vw_clock (fw_vault w_begun)) (fl_ExpiresAt demo_flow)) || bool_decide ("code" = EmptyString) = false.
Proof. vm_compute. reflexivity. Qed.
Lemma demo_flow_key : flow_key "usr_1" demo_flow = demo_key3.
Proof. vm_compute. reflexivity. Qed.
(** An hour after the bind. *)
Definition hour_after (w : DW) : DW :=
  let v := fw_vault w in
  set_vault (mkVWorld (vw_repo v) (vw_audit v) (vw_clock v + 3600 * 1000000000)%Z (vw_entropy v) (vw_observed v)) w.
Definition w_hour : DW := hour_after w_bound.
Lemma hour_later : vw_clock (fw_vault w_hour) = (vw_clock (fw_vault w_bound) + 3600 * 1000000000)%Z.
Proof. vm_compute. reflexivity. Qed.
Lemma hour_due : due (vw_clock (fw_vault w_hour)) demo_binding = false.
Proof. vm_compute. reflexivity. Qed.
Lemma hour_not_cooling :
  (cooling (vw_clock (fw_vault w_hour)) (key_string demo_key3) (fw_cooldown w_hour)).2 = false.
Proof. vm_compute. reflexivity. Qed.
Lemma demo_cascade_endpoint : lookup_source demo_fed "osu" "main" = Some demo_source.
Proof. vm_compute. reflexivity. Qed.
Lemma demo_binding_key : bkey demo_binding = demo_key3.
Proof. vm_compute. reflexivity. Qed.
Lemma demo_flow_names : fl_Game demo_flow = "osu" ∧ fl_Source demo_flow = "main".
Proof. vm_compute. split; reflexivity. Qed.
Lemma demo_user : lacks "|" (b_User demo_binding) = true.
Proof. vm_compute. reflexivity. Qed.
Lemma demo_ident_valid : validate (ident (bkey demo_binding)) = None.
Proof. vm_compute. reflexivity. Qed.
Lemma demo_has_refresh : b_HasRefresh demo_binding = true.
Proof. vm_compute. reflexivity. Qed.
Lemma demo_rows : binding_rows (fw_bindings w_bound) = [demo_binding].
Proof. vm_compute. reflexivity. Qed.

(** Two flows begun while nothing was bound: the second completes, its binding is
    removed, and the first still completes afterwards. [Bound] is false in both, and
    a [Create] cannot tell a row that was never there from one that came and went. *)
Definition w_two : DW := after (BeginBind demo_fed "usr_1" "osu" "main" "/other") w_begun.
Definition other_flow : BindFlow :=
  match filter (λ f, fl_State f ≠ fl_State demo_flow) (map_to_list (fw_flows w_two)).*2 with
  | f :: _ => f
  | [] => zero_flow
  end.
Definition w_removed : DW :=
  after (Unbind demo_fed "usr_1" "osu" "main")
    (after (CompleteBind demo_fed "usr_1" (fl_State other_flow) "other") w_two).

Example removed_binding_returns :
  (∃ b, Bindings_Get "usr_1" "osu" "main"
    (fw_bindings (after (CompleteBind demo_fed "usr_1" (fl_State other_flow) "other") w_two)) = Ok b) ∧
  Bindings_Get "usr_1" "osu" "main" (fw_bindings w_removed) = Err ErrNotBound ∧
  (∃ w' b, run (CompleteBind demo_fed "usr_1" (fl_State demo_flow) "code") w_removed =
      Some (w', Ok (demo_flow, Ok b)) ∧
    Bindings_Get "usr_1" "osu" "main" (fw_bindings w') = Ok b).
Proof. split_and!; [eexists|..|eexists _, _; split]; vm_compute; reflexivity. Qed.

(** What equal answers agree on, without unfolding them. *)
Lemma Ok_inj {A} (a b : A) : Ok a = Ok b → a = b.
Proof. congruence. Qed.
Lemma bound_inj {A B C} (w w' : A) (f f' : B) (r r' : C) :
  Some (w, Ok (f, r)) = Some (w', Ok (f', r')) → w = w' ∧ f = f' ∧ r = r'.
Proof. by intros [= -> -> ->]. Qed.

Lemma demo_consumed fl :
  (fs_Consume (fl_State demo_flow) (fw_flows w_begun)).2 = Ok fl →
  validate (ident (flow_key "usr_1" fl)) = None.
Proof. rewrite demo_consume. cbn [snd]. intros Hfl%Ok_inj. rewrite <-Hfl. exact demo_valid. Qed.

#[local] Opaque w_begun demo_flow w_bound demo_binding.

Lemma demo_token cfg v u u' tok :
  oauth2_Exchange cfg "code" v u = (u', Ok tok) → tok = mkToken "at-code" "Bearer" "rt" 5000000000000.
Proof. by intros [= _ <-]. Qed.

Lemma w_bound_facts :
  rests demo_fed w_bound ∧ row w_bound demo_key3 = Some demo_binding ∧
  stored_pair demo_fed w_bound (ident demo_key3) = Some (mkSecret "at-code" "rt").
Proof.
  pose proof demo_healthy as (_ & _ & _ & Htext & _).
  destruct (CompleteBind_spec demo_fed "usr_1" (fl_State demo_flow) "code" w_begun) as (w' & fl & r & Hrun & Hspec).
  - apply w_begun_rests.
  - apply demo_sources_wf.
  - reflexivity.
  - exact Htext.
  - exact demo_consumed.
  - rewrite w_bound_run in Hrun. apply bound_inj in Hrun as (Hw & Hf & Hr'). rewrite <-Hw, <-Hf, <-Hr' in Hspec.
    rewrite demo_consume in Hspec.
    rewrite demo_owner, demo_accepts, demo_flow_key in Hspec.
    destruct Hspec as (_ & Hr & _ & _ & tok & (src & u & Hs & _ & Hex) & _ & _ & Hrow & Hpair).
    split; [exact Hr|]. split; [exact Hrow|]. apply demo_token in Hex. rewrite Hex in Hpair. exact Hpair.
Qed.

Lemma hour_stores (w : DW) k id : row (hour_after w) k = row w k ∧ secretAt demo_fed (hour_after w) id = secretAt demo_fed w id.
Proof. destruct w. split; reflexivity. Qed.
Lemma hour_rests (w : DW) : rests demo_fed w → rests demo_fed (hour_after w).
Proof. by destruct w. Qed.
#[local] Opaque hour_after.

(** ** Closed instances *)


Lemma demo_key3_valid : valid_key demo_key3.
Proof. by split_and!. Qed.

Lemma demo_not_found : not_found_is_vaults (Lg:=MemoryLogger).
Proof.
  split; [|done]. intros p e. simpl. destruct (cut_at _ _) as [[a b]|]; [destruct (lacks _ _); [done|]|]; by intros [= <-].
Qed.

Lemma Unbind_exact_witness :
  ∃ w' res err, run (Unbind demo_fed "usr_1" "osu" "main") w_bound = Some (w', Ok (res, err)) ∧
    told_truth demo_fed demo_key3 w_bound (rv_Upstream res) ∧
    secretAt demo_fed w' (ident demo_key3) = None ∧ err = None ∧ row w' demo_key3 = None.
Proof.
  destruct w_bound_facts as (Hr & Hrow & _).
  destruct (Unbind_exact demo_fed demo_key3 w_bound Hr memory_answers demo_not_found demo_key3_valid)
    as (w' & res & err & Hrun & _ & _ & Hres).
  rewrite Hrow in Hres. destruct Hres as (Hs & Htold & Hgone & Herr).
  exists w', res, err. split; [exact Hrun|]. split; [exact Htold|]. split; [exact Hs|].
  split; [exact (Herr memory_log_takes_all)|exact (Hgone (Herr memory_log_takes_all))].
Defined.

Lemma CascadeRevoke_exact_witness :
  ∃ w', run (CascadeRevoke demo_fed "usr_1" "osu" "main") w_bound =
      Some (w', Ok (mkRevocation RevocationDone EmptyString)) ∧
    secretAt demo_fed w' (ident demo_key3) = None ∧ row w' demo_key3 = None.
Proof.
  destruct w_bound_facts as (Hr & Hrow & Hpair).
  destruct (CascadeRevoke_exact demo_fed demo_key3 w_bound Hr memory_answers demo_key3_valid)
    as (w' & r & Hrun & _ & [(_ & Hs & _ & Hgone & Hok)|(_ & _ & Hno)]).
  - rewrite (Hok memory_log_takes_all) in *. exists w'. split; [exact Hrun|]. split; [exact Hs|exact (Hgone eq_refl)].
  - destruct (Hno memory_log_takes_all). exists demo_source, demo_binding, (mkSecret "at-code" "rt").
    split; [exact demo_cascade_endpoint|]. split; [discriminate|]. split; [exact Hrow|]. split; [exact Hpair|].
    split; [discriminate|]. eexists _, _, _. split; [reflexivity|]. split; [reflexivity|]. reflexivity.
Defined.

Lemma demo_all_rows : all_rows w_bound [demo_binding].
Proof.
  destruct w_bound_facts as (((_ & Hb) & _) & Hrow & _). split; [repeat constructor|].
  intros x. rewrite list_elem_of_singleton. split; [intros ->; by rewrite demo_binding_key|].
  intros Hx. assert (Hin : x ∈ binding_rows (fw_bindings w_bound)).
  { apply elem_of_binding_rows; [exact Hb|]. exact (proj1 (proj1 (mem_row_Some _ _ _ Hb) Hx)). }
  rewrite demo_rows in Hin. by apply list_elem_of_singleton in Hin.
Qed.

Lemma RevokeAllBindings_complete_witness :
  ∃ w' sum, run (RevokeAllBindings demo_fed 2) w_bound = Some (w', Ok (sum, None)) ∧
    (∀ k, row w' k = None) ∧ su_Revoked sum = 1%Z.
Proof.
  destruct (RevokeAllBindings_complete demo_fed 2 [demo_binding] w_bound memory_answers memory_log_takes_all
    eq_refl (proj1 w_bound_facts) demo_all_rows) as (w' & sum & Hrun & _ & Hrow & _ & _ & Hrev & _).
  - apply Forall_singleton. rewrite demo_binding_key. exact demo_key3_valid.
  - apply Nat.lt_succ_diag_r.
  - exists w', sum. split; [exact Hrun|]. split; [exact Hrow|exact Hrev].
Defined.

Lemma refreshBinding_exact_witness :
  ∃ w' r, run (refreshBinding demo_fed demo_source demo_binding true) w_bound = Some (w', r) ∧
    stored_pair demo_fed w' (ident demo_key3) = Some (mkSecret "at-2" "rt-2").
Proof.
  destruct w_bound_facts as (Hr & Hrow & Hpair).
  destruct (refreshBinding_exact demo_fed demo_source demo_binding true w_bound demo_healthy Hr demo_user demo_ident_valid)
    as (w' & r & Hrun & _ & _ & Href).
  exists w', r. split; [exact Hrun|]. unfold refreshed in Href.
  rewrite demo_binding_key, Hrow, Hpair, Z.eqb_refl, demo_has_refresh in Href. exact (proj1 (proj2 Href)).
Defined.

Lemma bind_then_fetch_witness :
  vw_clock (fw_vault w_hour) = (vw_clock (fw_vault w_bound) + 3600 * 1000000000)%Z ∧
  ∃ w3, run (Fetch demo_fed (mkFetch "usr_1" "osu" "profile" EmptyString)) w_hour =
    Some (w3, Ok (mkFetched "main" false "[1,2,3]" (Some ("usr_1", 8%Z)))).
Proof.
  split; [exact hour_later|]. pose proof demo_healthy as (Hans & _ & Hlog & Htext & _).
  destruct (bind_then_fetch demo_fed "usr_1" (fl_State demo_flow) "code" w_begun w_bound demo_flow demo_binding w_hour
    (mkFetch "usr_1" "osu" "profile" EmptyString) [] demo_source [] w_begun_rests demo_sources_wf eq_refl Hans Hlog Htext)
    as (tok & (src & u & Hsrc & _ & Hex) & Hserve).
  - rewrite demo_consume. reflexivity.
  - exact demo_valid.
  - exact w_bound_run.
  - exact (hour_rests w_bound (proj1 w_bound_facts)).
  - exact (proj1 (hour_stores w_bound _ (ident demo_key3))).
  - exact (proj2 (hour_stores w_bound demo_key3 _)).
  - reflexivity.
  - symmetry. exact (proj1 demo_flow_names).
  - vm_compute. reflexivity.
  - constructor.
  - symmetry. exact (proj2 demo_flow_names).
  - exact hour_due.
  - rewrite demo_flow_key. exact hour_not_cooling.
  - apply demo_token in Hex. rewrite Hex in Hserve. rewrite (proj2 demo_flow_names) in Hserve. apply Hserve.
    eexists _, _, _. split; [reflexivity|]. split; [reflexivity|].
    do 3 (split; [reflexivity|]). split; [discriminate|]. split; [reflexivity|]. vm_compute. reflexivity.
Defined.

(** A bind and a disconnection at once: the disconnection waits for the lock the
    bind holds, and then removes what it made. *)
Definition demo_requests : list frequest :=
  [FqCompleteBind "usr_1" (fl_State demo_flow) "code"; FqUnbind "usr_1" "osu" "main"].
Definition demo_schedule : list nat := replicate 4 0 ++ [1] ++ replicate 12 0 ++ replicate 10 1.
Definition demo_pool_end : DW * list (go DW unit) :=
  default (w_begun, []) (run_sched demo_schedule w_begun (fserve demo_fed <$> demo_requests)).

Lemma demo_pool_run :
  run_sched demo_schedule w_begun (fserve demo_fed <$> demo_requests) = Some demo_pool_end.
Proof. vm_compute. reflexivity. Qed.
Lemma demo_pool_done : demo_pool_end.2 = [Ret (Ok tt); Ret (Ok tt)].
Proof. vm_compute. reflexivity. Qed.
Lemma w_begun_locks : fw_locks w_begun = NewKeyedMutex.
Proof. vm_compute. reflexivity. Qed.
Lemma w_begun_repo : vw_repo (fw_vault w_begun) = NewMemoryRepo.
Proof. vm_compute. reflexivity. Qed.
#[local] Opaque demo_pool_end.

Lemma no_orphan_secret_witness :
  (∀ k, sourced k → fsecret demo_fed demo_pool_end.1 k ≠ None → is_Some (bs_row (fw_bindings demo_pool_end.1) k)) ∧
  km_m (fw_locks demo_pool_end.1) = ∅.
Proof.
  pose proof w_begun_rests as [[Hv Hb] _].
  destruct (no_orphan_secret demo_fed demo_requests w_begun demo_pool_end.1 demo_pool_end.2) as [Hs Hl].
  - exact demo_sources_wf.
  - reflexivity.
  - repeat constructor.
  - exact Hv.
  - exact Hb.
  - exact w_begun_locks.
  - intros k _ Hk. destruct Hk. unfold fsecret, secret_of. rewrite w_begun_repo. reflexivity.
  - apply (run_sched_reach demo_schedule). rewrite <-surjective_pairing. exact demo_pool_run.
  - split; [exact Hs|]. apply Hl. rewrite demo_pool_done. intros p Hp.
    apply elem_of_cons in Hp as [->|Hp]; [by eexists|]. apply list_elem_of_singleton in Hp as ->. by eexists.
Defined.

(** ** Limits, listings and the registry *)

Lemma candidates_exact_witness :
  candidates demo_sources "osu" "profile" EmptyString = Ok [demo_source].
Proof.
  pose proof (candidates_exact [demo_source] demo_sources "osu" "profile" EmptyString demo_sources_eq) as Hc.
  cbv zeta in Hc. destruct (candidates demo_sources "osu" "profile" EmptyString) as [cs|e].
  - destruct Hc as [-> _]. vm_compute. reflexivity.
  - destruct Hc as [He _]. exfalso. revert He. vm_compute. discriminate.
Defined.

Lemma missing_exact_witness :
  (∃ q, q ∈ missing demo_sources [] ["osu.profile"] ∧ "osu.profile" ∈ br_Scopes q) ↔
  unserved demo_sources [] ["osu.profile"] "osu.profile".
Proof.
  destruct (missing_exact [demo_source] demo_sources [] ["osu.profile"] demo_sources_eq) as (Hm & _ & _).
  exact (Hm "osu.profile").
Defined.

Lemma bindings_listed_witness :
  ∃ rows, Bindings_ListAll (Bindings_Put (mkBinding "u" "g" "n" EmptyString 0 false 1) NewMemoryBindingStore).1 = Ok rows ∧
    ∀ b, b ∈ rows ↔ Bindings_Get (b_User b) (b_Game b) (b_Source b)
      (Bindings_Put (mkBinding "u" "g" "n" EmptyString 0 false 1) NewMemoryBindingStore).1 = Ok b.
Proof.
  destruct (bindings_listed (Bindings_Put (mkBinding "u" "g" "n" EmptyString 0 false 1) NewMemoryBindingStore).1)
    as (rows & Hl & _ & Hin & _).
  - apply rtc_once, step_BPut. by split_and!.
  - exists rows. split; [exact Hl|exact Hin].
Defined.

(** Five rejections in a row start the window, which ends by itself. *)
Lemma cooldown_window_witness :
  (cooling 7 "k" (foldl cooldown_apply (newBindingCooldown 0 0 0)
     ([] ++ [OpReset "k"] ++ ((λ t, OpReject t "k") <$> [1; 2; 3; 4]%Z ++ [5%Z])))).2 = true.
Proof.
  assert (H5 : (0 ≤ 5)%Z) by lia.
  exact (proj1 (cooldown_window 0 0 0 [] "k" [1; 2; 3; 4]%Z 5%Z 7%Z H5)).
Defined.

Lemma budget_bounded_witness :
  bb_held (acquire "u" 100 (newBufferBudget 1000)).1 = 100%Z ∧ (100 ≤ 1000)%Z.
Proof.
  destruct (budget_bounded 1000 (acquire "u" 100 (newBufferBudget 1000)).1 [("u", 100%Z)]) as (Hh & Hle & _).
  - vm_compute. split; discriminate.
  - apply rtc_once. apply (step_acquired "u" 100); [vm_compute; split; [reflexivity|discriminate]|reflexivity].
  - split; [exact Hh|exact Hle].
Defined.
