(* ===== verification/OidcPolicy.v ===== *)
(** * What every OpenID Provider store shares ([internal/oidcstore])

    The signing keys, the registered client as the protocol library sees it, the
    authorization and refresh requests a store hands to the library, the consent
    policy (narrowing, explicit consent, the protocol scopes), the freshness of
    an authentication, and the carrier of revocation generations that links the
    resolution of a credential to the mint that follows it. *)

From S2P Require Import Prelude GoStd Scope Client.

(** ** Names of the protocol library *)

Definition ScopeOpenID : string := "openid".
Definition ScopeProfile : string := "profile".
Definition ScopeEmail : string := "email".
Definition ScopePhone : string := "phone".
Definition ScopeAddress : string := "address".
Definition ScopeOfflineAccess : string := "offline_access".
Definition PromptLogin : string := "login".

(** [oidc.ErrInvalidGrant().WithDescription(d)] and [oidc.ErrInvalidClient()]. *)
Definition ErrInvalidGrant (d : string) : error := Typed (OIDCError "invalid_grant" d).
Definition ErrInvalidClient (d : string) : error := Typed (OIDCError "invalid_client" d).

(** ** Signing keys *)

(** What the code reads of an RSA key is its modulus: [*rsa.PublicKey] may be
    nil, and so may its [N]. *)
Record RetiredSigningKey := mkRetired {
  rk_ID : string;
  rk_Public : option (option Z);
}.

Record Signer := mkSigner {
  sg_id : string;
  sg_key : option Z;
  sg_retired : list RetiredSigningKey;
}.

Definition NewSigner (id : string) (key : option Z) : Signer := mkSigner id key [].

Definition WithRetired (s : Signer) (keys : list RetiredSigningKey) : Signer :=
  mkSigner (sg_id s) (sg_key s) (sg_retired s ++ keys).

(** [big.Int.BitLen]. *)
Definition BitLen (n : Z) : Z := if (n =? 0)%Z then 0%Z else (Z.log2 (Z.abs n) + 1)%Z.

Section signer.
Context `{Platform}.

(** The loop of [ValidateSigner] over the retired keys. *)
Fixpoint validate_retired (seen : gset string) (rs : list RetiredSigningKey) : option error :=
  match rs with
  | [] => None
  | r :: rs' =>
      if bool_decide (rk_ID r = EmptyString) then Some (New "oidcstore: retired signing key id is required")
      else match rk_Public r with
      | None => Some (New ("oidcstore: retired signing key " +:+ strconv_Quote (rk_ID r) +:+ " has no public key"))
      | Some pub =>
          if bool_decide (rk_ID r ∈ seen)
          then Some (New ("oidcstore: duplicate signing key id " +:+ strconv_Quote (rk_ID r)))
          else
            let bits := match pub with Some n => BitLen n | None => 0%Z end in
            if (bits <? 2048)%Z
            then Some (New ("oidcstore: retired signing key " +:+ strconv_Quote (rk_ID r) +:+
                            " must be at least 2048 bits, got " +:+ strconv_Itoa bits))
            else validate_retired ({[rk_ID r]} ∪ seen) rs'
      end
  end.

(** [ValidateSigner]; [None] is the nil error, a nil signer is [None]. *)
Definition ValidateSigner (s : option Signer) : option error :=
  match s with
  | None => Some (New "oidcstore: signing key is required")
  | Some s =>
      match sg_key s with
      | None => Some (New "oidcstore: signing key is required")
      | Some n =>
          if bool_decide (sg_id s = EmptyString) then Some (New "oidcstore: signing key id is required")
          else if (BitLen n <? 2048)%Z
          then Some (New ("oidcstore: signing key must be at least 2048 bits, got " +:+ strconv_Itoa (BitLen n)))
          else validate_retired {[sg_id s]} (sg_retired s)
      end
  end.
End signer.

(** [op.Key]: what the key set publishes of a key. *)
Record PublicKey := mkPublic { pk_ID : string; pk_Algorithm : string; pk_Use : string; pk_Key : option (option Z) }.

Definition RS256 : string := "RS256".

(** [publicKey] and [retiredPublicKey]. *)
Definition publicKey (s : Signer) : PublicKey := mkPublic (sg_id s) RS256 "sig" (Some (sg_key s)).
Definition retiredPublicKey (r : RetiredSigningKey) : PublicKey := mkPublic (rk_ID r) RS256 "sig" (rk_Public r).

(** [Signer.KeySet]. *)
Definition KeySet (s : Signer) : list PublicKey := publicKey s :: (retiredPublicKey <$> sg_retired s).

(** ** The registered client, for the library *)

(** [ProviderClient], without its login hook; a nil registry is [None]. *)
Record ProviderClient := mkProvider { pc_Client : Client; pc_Registry : option Registry }.

Inductive ApplicationType := ApplicationTypeWeb | ApplicationTypeNative.
Inductive AuthMethod := AuthMethodNone | AuthMethodBasic.

Definition ProviderClient_ApplicationType (c : ProviderClient) : ApplicationType :=
  if bool_decide (cl_Type (pc_Client c) = ClientPublic) then ApplicationTypeNative else ApplicationTypeWeb.
Definition ProviderClient_AuthMethod (c : ProviderClient) : AuthMethod :=
  if bool_decide (cl_Type (pc_Client c) = ClientPublic) then AuthMethodNone else AuthMethodBasic.

(** [ProviderClient.IsScopeAllowed]. *)
Definition IsScopeAllowed (c : ProviderClient) (scope : string) : bool :=
  match pc_Registry c with
  | None => false
  | Some r =>
      match Registry_Get r scope with
      | None => false
      | Some _ => AllowsScope (pc_Client c) scope
      end
  end.

(** ** Requests *)

(** [oidc.CodeChallenge]. *)
Record CodeChallenge := mkChallenge { cc_Challenge : string; cc_Method : string }.

(** [AuthRequest]. The pointers of the struct are options: a request is copied
    whenever it enters or leaves a store, so no two holders share them. *)
Record AuthRequest := mkAuthRequest {
  oa_ID : string;
  oa_ClientID : string;
  oa_RedirectURI : string;
  oa_ResponseType : string;
  oa_ResponseMode : string;
  oa_Scopes : list string;
  oa_State : string;
  oa_Nonce : string;
  oa_CodeChallenge : option CodeChallenge;
  oa_Subject : string;
  oa_IsDone : bool;
  oa_AuthTime : option Z;
  oa_Prompt : list string;
  oa_MaxAge : option Z;
}.

Definition ErrReauthenticationRequired : error :=
  New "oidc: this authorization request requires a fresh authentication".

(** [AuthRequest.GetAuthTime]: the zero time when there is none. *)
Definition AuthRequest_GetAuthTime (a : AuthRequest) : Z := default 0%Z (oa_AuthTime a).

Definition reauthRoundTripTolerance : Z := 2 * time_Minute.

(** [uint64(math.MaxInt64) / uint64(time.Second)]. *)
Definition maxDurationSeconds : Z := max_int64 / time_Second.

(** [AuthRequest.FreshnessNeeded]; [oa_MaxAge] is a [uint]. *)
Definition FreshnessNeeded (a : AuthRequest) (at_ now : Z) : bool :=
  if bool_decide (PromptLogin ∈ oa_Prompt a) then true
  else match oa_MaxAge a with
  | None => false
  | Some age =>
      if time_IsZero at_ then true
      else if (maxDurationSeconds <? age)%Z then false
      else (wrap64 (age * time_Second) <? time_Sub now at_)%Z
  end.

(** [AuthRequest.FreshnessSatisfied]: the sum is [int64] arithmetic. *)
Definition FreshnessSatisfied (a : AuthRequest) (at_ now : Z) : bool :=
  match oa_MaxAge a with
  | None => true
  | Some age =>
      if time_IsZero at_ then false
      else if (maxDurationSeconds <? age)%Z then true
      else (time_Sub now at_ <=? wrap64 (wrap64 (age * time_Second) + reauthRoundTripTolerance))%Z
  end.

(** [AuthRequest.RequiresReauthentication]. *)
Definition RequiresReauthentication (a : AuthRequest) (now : Z) : bool :=
  match oa_MaxAge a with
  | None => false
  | Some _ => negb (FreshnessSatisfied a (AuthRequest_GetAuthTime a) now)
  end.

(** [RefreshRequest]. *)
Record RefreshRequest := mkRefreshRequest {
  of_IDHash : string;
  of_ClientID : string;
  of_Subject : string;
  of_Scopes : list string;
  of_AMR : list string;
  of_Audience : list string;
  of_AuthTime : option Z;
  of_Nonce : string;
}.

Definition RefreshRequest_SetCurrentScopes (s : list string) (r : RefreshRequest) : RefreshRequest :=
  mkRefreshRequest (of_IDHash r) (of_ClientID r) (of_Subject r) s (of_AMR r) (of_Audience r) (of_AuthTime r)
    (of_Nonce r).
Definition RefreshRequest_GetAuthTime (r : RefreshRequest) : Z := default 0%Z (of_AuthTime r).

(** [op.TokenRequest] with the methods a store looks for by assertion: [None] is
    a request that has no such method. *)
Record TokenRequest := mkTokenRequest {
  tq_Subject : string;
  tq_Scopes : list string;
  tq_ClientID : option string;
  tq_AuthTime : option Z;
  tq_AMR : option (list string);
  tq_Audience : option (list string);
  tq_Nonce : option string;
}.

(** The requests of this package behind the interface. *)
Definition of_auth_request (a : AuthRequest) : TokenRequest :=
  mkTokenRequest (oa_Subject a) (oa_Scopes a) (Some (oa_ClientID a)) (Some (AuthRequest_GetAuthTime a))
    (Some []) (Some [oa_ClientID a]) (Some (oa_Nonce a)).
Definition of_refresh_request (r : RefreshRequest) : TokenRequest :=
  mkTokenRequest (of_Subject r) (of_Scopes r) (Some (of_ClientID r)) (Some (RefreshRequest_GetAuthTime r))
    (Some (of_AMR r)) (Some (of_Audience r)) (Some (of_Nonce r)).

(** [NonceOf] and [ClientIDOf]. *)
Definition NonceOf (request : TokenRequest) : string := default EmptyString (tq_Nonce request).
Definition ClientIDOf (request : TokenRequest) : string := default EmptyString (tq_ClientID request).

(** ** Scopes and consent *)

Definition DefaultDevicePollInterval : Z := 5 * time_Second.

(** [StandardOIDCScope]. *)
Definition StandardOIDCScope (scope : string) : bool :=
  bool_decide (scope ∈ [ScopeOpenID; ScopeProfile; ScopeEmail; ScopePhone; ScopeAddress; ScopeOfflineAccess]).

(** [SplitProtocolScopes]. *)
Fixpoint SplitProtocolScopes (scopes : list string) : list string * list string :=
  match scopes with
  | [] => ([], [])
  | s :: scopes' =>
      let '(described, protocol) := SplitProtocolScopes scopes' in
      if StandardOIDCScope s then (described, s :: protocol) else (s :: described, protocol)
  end.

(** [HasScope]. *)
Definition HasScope (scopes : list string) (name : string) : bool := bool_decide (name ∈ scopes).

(** The loop of [NarrowScopes]. *)
Fixpoint narrow_loop (requested : list string) (approved : list Scope) : result (list string) :=
  match approved with
  | [] => Ok []
  | s :: approved' =>
      if negb (HasScope requested s)
      then Err (Proto "invalid_scope" "the decision cannot widen the requested scope")
      else match narrow_loop requested approved' with
           | Ok granted => Ok (s :: granted)
           | Err e => Err e
           end
  end.

(** [NarrowScopes]; a nil approval is [None]. *)
Definition NarrowScopes (requested : list string) (approved : option (list Scope)) : result (list string) :=
  match approved with
  | None => Ok requested
  | Some [] =>
      Err (Proto "invalid_request"
             "an approval must grant at least one scope; omit the field to grant the requested scopes")
  | Some approved => narrow_loop requested approved
  end.

(** [RequireExplicitConsent]; [None] is the nil error. *)
Fixpoint RequireExplicitConsent (descriptors : list Descriptor) (explicit : list Scope) : option error :=
  match descriptors with
  | [] => None
  | d :: ds =>
      if negb (d_ExplicitConsent d) then RequireExplicitConsent ds explicit
      else if bool_decide (d_Scope d ∈ explicit) then RequireExplicitConsent ds explicit
      else Some (Proto "access_denied" ("explicit consent is required for " +:+ d_Scope d))
  end.

(** [WithOfflineAccess] and [WithoutOfflineAccess]. *)
Definition WithOfflineAccess (scopes : list string) : list string :=
  if HasScope scopes ScopeOfflineAccess then scopes else scopes ++ [ScopeOfflineAccess].
Definition WithoutOfflineAccess (scopes : list string) : list string :=
  filter (λ s, s ≠ ScopeOfflineAccess) scopes.

(** The loop that puts the protocol scopes of the request back into a grant. *)
Definition reattach (granted protocol : list string) : list string :=
  foldl (λ g s, if HasScope g s then g else g ++ [s]) granted protocol.

(** ** Revocation generations ([revocation_epochs.go]) *)

(** [RevocationEpochs]. A request context holds a pointer to one, or none; the
    functions below take and return what it points to. *)
Record RevocationEpochs := mkEpochs {
  re_Global : Z;
  re_Client : Z;
  re_Subject : Z;
  re_captured : bool;
}.

(** The carrier [WithRevocationEpochs] installs. *)
Definition emptyEpochs : RevocationEpochs := mkEpochs 0 0 0 false.

(** [CaptureRevocationEpochs]: nothing happens to a request without a carrier. *)
Definition CaptureRevocationEpochs (b : option RevocationEpochs) (global client subject : Z)
    : option RevocationEpochs :=
  match b with
  | Some _ => Some (mkEpochs global client subject true)
  | None => None
  end.

(** [RevocationUnchanged]. *)
Definition RevocationUnchanged (b : option RevocationEpochs) (global client subject : Z) : bool :=
  match b with
  | None => true
  | Some b =>
      if negb (re_captured b) then true
      else ((re_Global b =? global) && (re_Client b =? client) && (re_Subject b =? subject))%Z
  end.
