(* ===== verification/OidcTables.v ===== *)
(** * The tables of the in-memory OpenID Provider store ([internal/store/memory])

    The records of [OIDCStore], its maps with the indexes kept beside them, and
    the helpers every write goes through. A map and its indexes form one table
    here; the store is the tuple of its tables. The invariants say that an index
    is the map read the other way, and that the helpers keep it so. *)

From S2P Require Import Prelude GoStd OidcPolicy.

(** ** Records *)

Record codeRecord := mkCodeRecord { cd_requestID : string; cd_expiresAt : Z }.

Record accessToken := mkAccessToken {
  ot_id : string;
  ot_clientID : string;
  ot_subject : string;
  ot_scopes : list string;
  ot_issuedAt : Z;
  ot_expiresAt : Z;
}.

Record refreshToken := mkRefreshToken {
  rf_valueHash : string;
  rf_idHash : string;
  rf_clientID : string;
  rf_subject : string;
  rf_scopes : list string;
  rf_amr : list string;
  rf_audience : list string;
  rf_authTime : option Z;
  rf_nonce : string;
  rf_familyID : string;
  rf_issuedAt : Z;
  rf_expiresAt : Z;
}.

Record refreshTombstone := mkTombstone {
  ts_familyID : string;
  ts_idHash : string;
  ts_clientID : string;
  ts_subject : string;
  ts_expiresAt : Z;
}.

Record deviceRecord := mkDeviceRecord {
  dv_deviceCodeHash : string;
  dv_userCode : string;
  dv_clientID : string;
  dv_scopes : list string;
  dv_expiresAt : Z;
  dv_done : bool;
  dv_denied : bool;
  dv_subject : string;
  dv_authTime : Z;
  dv_lastPoll : Z;
}.

(** ** Indexes by subject *)

(** [subjectIndex]. *)
Abbreviation subjectIndex := (gmap string (gset string)).

Definition ix_add (ix : subjectIndex) (subject key : string) : subjectIndex :=
  if bool_decide (subject = EmptyString) then ix
  else <[subject := {[key]} ∪ default ∅ (ix !! subject)]> ix.

Definition ix_remove (ix : subjectIndex) (subject key : string) : subjectIndex :=
  match ix !! subject with
  | None => ix
  | Some keys =>
      let keys := keys ∖ {[key]} in
      if bool_decide (keys = ∅) then delete subject ix else <[subject := keys]> ix
  end.

(** [subjectIndex.keys]: nothing for a subject without records. *)
Definition ix_keys (ix : subjectIndex) (subject : string) : gset string := default ∅ (ix !! subject).

(** ** Tables *)

Record AccessTable := mkAccessTable {
  accessTokens : gmap string accessToken;
  accessBySubject : subjectIndex;
}.

Definition putAccessLocked (key : string) (t : accessToken) (T : AccessTable) : AccessTable :=
  mkAccessTable (<[key := t]> (accessTokens T)) (ix_add (accessBySubject T) (ot_subject t) key).

Definition deleteAccessLocked (key : string) (T : AccessTable) : AccessTable * bool :=
  match accessTokens T !! key with
  | None => (T, false)
  | Some t => (mkAccessTable (delete key (accessTokens T)) (ix_remove (accessBySubject T) (ot_subject t) key), true)
  end.

Record RefreshTable := mkRefreshTable {
  refreshTokens : gmap string refreshToken;
  refreshBySubject : subjectIndex;
  refreshByIDHash : gmap string string;
}.

Definition putRefreshLocked (key : string) (t : refreshToken) (T : RefreshTable) : RefreshTable :=
  mkRefreshTable (<[key := t]> (refreshTokens T)) (ix_add (refreshBySubject T) (rf_subject t) key)
    (<[rf_idHash t := key]> (refreshByIDHash T)).

Definition deleteRefreshLocked (key : string) (T : RefreshTable) : RefreshTable * bool :=
  match refreshTokens T !! key with
  | None => (T, false)
  | Some t =>
      (mkRefreshTable (delete key (refreshTokens T)) (ix_remove (refreshBySubject T) (rf_subject t) key)
         (if bool_decide (refreshByIDHash T !! rf_idHash t = Some key)
          then delete (rf_idHash t) (refreshByIDHash T) else refreshByIDHash T), true)
  end.

Definition refreshKeyByIDHashLocked (idHash : string) (T : RefreshTable) : option string := refreshByIDHash T !! idHash.

Record RequestTable := mkRequestTable {
  authRequests : gmap string AuthRequest;
  authRequestExpiry : gmap string Z;
  requestBySubject : subjectIndex;
}.

Definition deleteRequestLocked (id : string) (T : RequestTable) : RequestTable * bool :=
  match authRequests T !! id with
  | None => (T, false)
  | Some a =>
      (mkRequestTable (delete id (authRequests T)) (delete id (authRequestExpiry T))
         (ix_remove (requestBySubject T) (oa_Subject a) id), true)
  end.

Record CodeTable := mkCodeTable {
  codes : gmap string codeRecord;
  codeByRequest : gmap string (gset string);
}.

Definition removeCodeFromIndexLocked (requestID key : string) (ix : gmap string (gset string))
    : gmap string (gset string) :=
  match ix !! requestID with
  | None => ix
  | Some keys =>
      let keys := keys ∖ {[key]} in
      if bool_decide (keys = ∅) then delete requestID ix else <[requestID := keys]> ix
  end.

Definition putCodeLocked (key requestID : string) (expiresAt : Z) (T : CodeTable) : CodeTable :=
  let ix := match codes T !! key with
            | Some old => removeCodeFromIndexLocked (cd_requestID old) key (codeByRequest T)
            | None => codeByRequest T
            end in
  mkCodeTable (<[key := mkCodeRecord requestID expiresAt]> (codes T))
    (<[requestID := {[key]} ∪ default ∅ (ix !! requestID)]> ix).

Definition deleteCodeLocked (key : string) (T : CodeTable) : CodeTable * bool :=
  match codes T !! key with
  | None => (T, false)
  | Some c => (mkCodeTable (delete key (codes T)) (removeCodeFromIndexLocked (cd_requestID c) key (codeByRequest T)), true)
  end.

Section order.
Context `{MapOrder}.

Definition deleteCodesForRequestLocked (requestID : string) (T : CodeTable) : CodeTable * nat :=
  let keys := default ∅ (codeByRequest T !! requestID) in
  if size keys =? 0 then (T, 0)
  else (mkCodeTable (foldl (λ m k, delete k m) (codes T) (range_set keys)) (delete requestID (codeByRequest T)),
        size keys).

(** The keys a filtered revocation examines: the subject's, or all. *)
Definition accessKeysLocked (subject : string) (T : AccessTable) : list string :=
  if bool_decide (subject = EmptyString) then (range (accessTokens T)).*1
  else range_set (ix_keys (accessBySubject T) subject).
Definition refreshKeysLocked (subject : string) (T : RefreshTable) : list string :=
  if bool_decide (subject = EmptyString) then (range (refreshTokens T)).*1
  else range_set (ix_keys (refreshBySubject T) subject).
Definition requestKeysLocked (subject : string) (T : RequestTable) : list string :=
  if bool_decide (subject = EmptyString) then (range (authRequests T)).*1
  else range_set (ix_keys (requestBySubject T) subject).
End order.

Record DeviceTable := mkDeviceTable {
  devices : gmap string deviceRecord;
  userCodes : gmap string string;
}.

(** ** The store *)

(** [revocationScope]: kind 0 is everything, 1 a client, 2 a subject. *)
Abbreviation revocationScope := (Z * string)%type.
Definition revocationGlobalScope : revocationScope := (0%Z, EmptyString).

(** The maps of [OIDCStore]. *)
Record OIDCStore := mkOIDCStore {
  os_requests : RequestTable;
  os_codes : CodeTable;
  os_access : AccessTable;
  os_refresh : RefreshTable;
  refreshTombstones : gmap string refreshTombstone;
  revocationEpochs : gmap revocationScope Z;
  os_devices : DeviceTable;
}.

Definition emptyOIDCStore : OIDCStore :=
  mkOIDCStore (mkRequestTable ∅ ∅ ∅) (mkCodeTable ∅ ∅) (mkAccessTable ∅ ∅) (mkRefreshTable ∅ ∅ ∅) ∅ ∅
    (mkDeviceTable ∅ ∅).

Definition set_requests (T : RequestTable) (s : OIDCStore) : OIDCStore :=
  mkOIDCStore T (os_codes s) (os_access s) (os_refresh s) (refreshTombstones s) (revocationEpochs s) (os_devices s).
Definition set_codes (T : CodeTable) (s : OIDCStore) : OIDCStore :=
  mkOIDCStore (os_requests s) T (os_access s) (os_refresh s) (refreshTombstones s) (revocationEpochs s) (os_devices s).
Definition set_access (T : AccessTable) (s : OIDCStore) : OIDCStore :=
  mkOIDCStore (os_requests s) (os_codes s) T (os_refresh s) (refreshTombstones s) (revocationEpochs s) (os_devices s).
Definition set_refresh (T : RefreshTable) (s : OIDCStore) : OIDCStore :=
  mkOIDCStore (os_requests s) (os_codes s) (os_access s) T (refreshTombstones s) (revocationEpochs s) (os_devices s).
Definition set_tombstones (m : gmap string refreshTombstone) (s : OIDCStore) : OIDCStore :=
  mkOIDCStore (os_requests s) (os_codes s) (os_access s) (os_refresh s) m (revocationEpochs s) (os_devices s).
Definition set_epochs (m : gmap revocationScope Z) (s : OIDCStore) : OIDCStore :=
  mkOIDCStore (os_requests s) (os_codes s) (os_access s) (os_refresh s) (refreshTombstones s) m (os_devices s).
Definition set_devices (T : DeviceTable) (s : OIDCStore) : OIDCStore :=
  mkOIDCStore (os_requests s) (os_codes s) (os_access s) (os_refresh s) (refreshTombstones s) (revocationEpochs s) T.

(** The delete helpers on the store; what they return is ignored throughout. *)
Definition drop_access (key : string) (s : OIDCStore) : OIDCStore :=
  set_access (deleteAccessLocked key (os_access s)).1 s.
Definition drop_refresh (key : string) (s : OIDCStore) : OIDCStore :=
  set_refresh (deleteRefreshLocked key (os_refresh s)).1 s.
Definition drop_request (id : string) (s : OIDCStore) : OIDCStore :=
  set_requests (deleteRequestLocked id (os_requests s)).1 s.
Definition drop_code (key : string) (s : OIDCStore) : OIDCStore :=
  set_codes (deleteCodeLocked key (os_codes s)).1 s.
Definition drop_tombstone (key : string) (s : OIDCStore) : OIDCStore :=
  set_tombstones (delete key (refreshTombstones s)) s.

(** ** Revocation generations *)

(** A missing counter reads as zero. *)
Definition epoch (m : gmap revocationScope Z) (k : revocationScope) : Z := default 0%Z (m !! k).

(** [revocationEpochsLocked]: the global, client and subject generations. *)
Definition revocationEpochsLocked (clientID subject : string) (m : gmap revocationScope Z) : Z * Z * Z :=
  (epoch m revocationGlobalScope,
   if bool_decide (clientID = EmptyString) then 0%Z else epoch m (1%Z, clientID),
   if bool_decide (subject = EmptyString) then 0%Z else epoch m (2%Z, subject)).

(** [m[k]++] on [int64] counters. *)
Definition bump (k : revocationScope) (m : gmap revocationScope Z) : gmap revocationScope Z :=
  <[k := wrap64 (epoch m k + 1)]> m.

(** [bumpRevocationEpochsLocked]. *)
Definition bumpRevocationEpochsLocked (clientID subject : string) (m : gmap revocationScope Z)
    : gmap revocationScope Z :=
  if bool_decide (clientID = EmptyString) && bool_decide (subject = EmptyString) then bump revocationGlobalScope m
  else
    let m := if bool_decide (clientID = EmptyString) then m else bump (1%Z, clientID) m in
    if bool_decide (subject = EmptyString) then m else bump (2%Z, subject) m.

(** ** Invariants *)

(** The index of a map by a field of its records, records with an empty field
    left out; no subject has an empty set. *)
Definition indexed {V} (sub : V → string) (m : gmap string V) (ix : subjectIndex) : Prop :=
  (∀ u k, k ∈ ix_keys ix u ↔ u ≠ EmptyString ∧ ∃ t, m !! k = Some t ∧ sub t = u) ∧ (∀ u, ix !! u ≠ Some ∅).

(** The index of the live refresh rows by their access token's hash. *)
Definition id_indexed (m : gmap string refreshToken) (ix : gmap string string) : Prop :=
  ∀ h k, ix !! h = Some k ↔ ∃ t, m !! k = Some t ∧ rf_idHash t = h.

(** The codes a request minted. *)
Definition code_indexed (m : gmap string codeRecord) (ix : gmap string (gset string)) : Prop :=
  (∀ r k, k ∈ ix_keys ix r ↔ ∃ c, m !! k = Some c ∧ cd_requestID c = r) ∧ (∀ r, ix !! r ≠ Some ∅).

Definition access_wf (T : AccessTable) : Prop := indexed ot_subject (accessTokens T) (accessBySubject T).
Definition refresh_wf (T : RefreshTable) : Prop :=
  indexed rf_subject (refreshTokens T) (refreshBySubject T) ∧ id_indexed (refreshTokens T) (refreshByIDHash T).
Definition requests_wf (T : RequestTable) : Prop :=
  indexed oa_Subject (authRequests T) (requestBySubject T) ∧ dom (authRequestExpiry T) = dom (authRequests T).
Definition codes_wf (T : CodeTable) : Prop := code_indexed (codes T) (codeByRequest T).

(** ** Lemmas *)

Section indexes.
Implicit Types ix : subjectIndex.

Lemma elem_of_ix_add ix u k u' k' :
  k' ∈ ix_keys (ix_add ix u k) u' ↔ k' ∈ ix_keys ix u' ∨ (u ≠ EmptyString ∧ u' = u ∧ k' = k).
Proof.
  unfold ix_keys, ix_add. case_bool_decide as Hu; [naive_solver|].
  destruct (decide (u' = u)) as [->|Hne]; [rewrite lookup_insert_eq|rewrite lookup_insert_ne by done]; set_solver.
Qed.

Lemma elem_of_ix_remove ix u k u' k' :
  k' ∈ ix_keys (ix_remove ix u k) u' ↔ k' ∈ ix_keys ix u' ∧ ¬ (u' = u ∧ k' = k).
Proof.
  unfold ix_keys, ix_remove. destruct (ix !! u) as [keys|] eqn:E.
  - destruct (decide (u' = u)) as [->|Hne]; case_bool_decide as Hk;
      rewrite ?lookup_delete_eq, ?lookup_insert_eq, ?lookup_delete_ne, ?lookup_insert_ne, ?E by done; set_solver.
  - destruct (decide (u' = u)) as [->|Hne]; rewrite ?E; set_solver.
Qed.

Lemma ix_add_full ix u k u' : (∀ u, ix !! u ≠ Some ∅) → ix_add ix u k !! u' ≠ Some ∅.
Proof.
  intros Hix. unfold ix_add. case_bool_decide; [auto|].
  rewrite lookup_insert. case_decide; [|auto]. intros [=Heq]. set_solver.
Qed.

Lemma ix_remove_full ix u k u' : (∀ u, ix !! u ≠ Some ∅) → ix_remove ix u k !! u' ≠ Some ∅.
Proof.
  intros Hix. unfold ix_remove. destruct (ix !! u); [|auto]. case_bool_decide.
  - rewrite lookup_delete. case_decide; auto.
  - rewrite lookup_insert. case_decide; [congruence|auto].
Qed.

Context {V : Type} (sub : V → string).
Implicit Types m : gmap string V.

Lemma indexed_empty : indexed sub ∅ ∅.
Proof. split; [|done]. intros u k. unfold ix_keys. setoid_rewrite lookup_empty. set_solver. Qed.

Lemma indexed_insert m ix k t :
  indexed sub m ix → m !! k = None → indexed sub (<[k := t]> m) (ix_add ix (sub t) k).
Proof.
  intros [Hix Hf] Hk. split; [|intros u; by apply ix_add_full].
  intros u k'. rewrite elem_of_ix_add, Hix. setoid_rewrite lookup_insert_Some.
  destruct (decide (k' = k)); naive_solver.
Qed.

Lemma indexed_delete m ix k t :
  indexed sub m ix → m !! k = Some t → indexed sub (delete k m) (ix_remove ix (sub t) k).
Proof.
  intros [Hix Hf] Hk. split; [|intros u; by apply ix_remove_full].
  intros u k'. rewrite elem_of_ix_remove, Hix. setoid_rewrite lookup_delete_Some. naive_solver.
Qed.

(** A record rewritten in place: its field stays, or the index entry moves. *)
Lemma indexed_update m ix k t t' :
  indexed sub m ix → m !! k = Some t → sub t' = sub t → indexed sub (<[k := t']> m) ix.
Proof.
  intros [Hix Hf] Hk Hs. split; [|done]. intros u k'. rewrite Hix. setoid_rewrite lookup_insert_Some.
  destruct (decide (k' = k)); naive_solver.
Qed.

Lemma indexed_move m ix k t t' :
  indexed sub m ix → m !! k = Some t →
  indexed sub (<[k := t']> m) (ix_add (ix_remove ix (sub t) k) (sub t') k).
Proof.
  intros Hix Hk. rewrite <-insert_delete_eq.
  apply indexed_insert; [by apply indexed_delete|apply lookup_delete_eq].
Qed.
End indexes.

Lemma access_wf_put k t T : access_wf T → accessTokens T !! k = None → access_wf (putAccessLocked k t T).
Proof. apply indexed_insert. Qed.

Lemma access_wf_delete k T : access_wf T → access_wf (deleteAccessLocked k T).1.
Proof. intros HT. unfold deleteAccessLocked. destruct (_ !! k) eqn:E; [|done]. by eapply indexed_delete. Qed.

Lemma deleteAccess_tokens k T : accessTokens (deleteAccessLocked k T).1 = delete k (accessTokens T).
Proof. unfold deleteAccessLocked. destruct (_ !! k) eqn:E; [done|]. by rewrite delete_id. Qed.

Lemma id_indexed_insert m ix k t :
  id_indexed m ix → m !! k = None → ix !! rf_idHash t = None → id_indexed (<[k := t]> m) (<[rf_idHash t := k]> ix).
Proof.
  unfold id_indexed. intros Hix Hk Hh h k'. rewrite lookup_insert_Some, Hix. setoid_rewrite lookup_insert_Some.
  assert (∀ t', m !! k' = Some t' → rf_idHash t' ≠ rf_idHash t).
  { intros t' Ht' Heq. enough (ix !! rf_idHash t = Some k') by congruence. apply Hix. eauto. }
  destruct (decide (k' = k)); naive_solver.
Qed.

Lemma id_indexed_delete m ix k t :
  id_indexed m ix → m !! k = Some t → id_indexed (delete k m) (delete (rf_idHash t) ix).
Proof.
  unfold id_indexed. intros Hix Hk h k'. rewrite lookup_delete_Some, Hix. setoid_rewrite lookup_delete_Some. split.
  - intros [Hne (t' & Ht' & <-)]. exists t'. split; [|done]. split; [|done]. intros ->. congruence.
  - intros (t' & [Hne Ht'] & <-). split; [|eauto]. intros Heq. apply Hne.
    assert (ix !! rf_idHash t = Some k) by (apply Hix; eauto).
    assert (ix !! rf_idHash t' = Some k') by (apply Hix; eauto). congruence.
Qed.

Lemma refresh_wf_put k t T :
  refresh_wf T → refreshTokens T !! k = None → refreshByIDHash T !! rf_idHash t = None →
  refresh_wf (putRefreshLocked k t T).
Proof. intros [? ?] ? ?. split; simpl; [by apply indexed_insert|by apply id_indexed_insert]. Qed.

Lemma refresh_wf_delete k T : refresh_wf T → refresh_wf (deleteRefreshLocked k T).1.
Proof.
  intros [Hix Hid]. unfold deleteRefreshLocked. destruct (_ !! k) as [t|] eqn:E; [|done].
  split; simpl; [by apply indexed_delete|]. rewrite bool_decide_true by (apply Hid; eauto).
  by apply id_indexed_delete.
Qed.

Lemma deleteRefresh_tokens k T : refreshTokens (deleteRefreshLocked k T).1 = delete k (refreshTokens T).
Proof. unfold deleteRefreshLocked. destruct (_ !! k) eqn:E; [done|]. by rewrite delete_id. Qed.

Lemma requests_wf_delete k T : requests_wf T → requests_wf (deleteRequestLocked k T).1.
Proof.
  intros [Hix Hd]. unfold deleteRequestLocked. destruct (_ !! k) as [t|] eqn:E; [|done].
  split; simpl; [by apply indexed_delete|]. by rewrite !dom_delete_L, Hd.
Qed.

Lemma deleteRequest_requests k T : authRequests (deleteRequestLocked k T).1 = delete k (authRequests T).
Proof. unfold deleteRequestLocked. destruct (_ !! k) eqn:E; [done|]. by rewrite delete_id. Qed.

Lemma deleteRequest_expiry k T :
  requests_wf T → authRequestExpiry (deleteRequestLocked k T).1 = delete k (authRequestExpiry T).
Proof.
  intros [_ Hd]. unfold deleteRequestLocked. destruct (_ !! k) eqn:E; [done|]. rewrite delete_id; [done|].
  apply not_elem_of_dom. rewrite Hd. by apply not_elem_of_dom.
Qed.

(** Codes *)

Lemma removeCode_as_remove r k ix : removeCodeFromIndexLocked r k ix = ix_remove ix r k.
Proof. done. Qed.

Lemma code_indexed_delete m ix k c :
  code_indexed m ix → m !! k = Some c → code_indexed (delete k m) (ix_remove ix (cd_requestID c) k).
Proof.
  intros [Hix Hf] Hk. split; [|intros r; by apply ix_remove_full].
  intros r k'. rewrite elem_of_ix_remove, Hix. setoid_rewrite lookup_delete_Some. naive_solver.
Qed.

Lemma codes_wf_put k r e T : codes_wf T → codes_wf (putCodeLocked k r e T).
Proof.
  intros HT. unfold putCodeLocked. set (ix := match codes T !! k with Some _ => _ | None => _ end).
  assert (Hix : code_indexed (delete k (codes T)) ix).
  { unfold ix. destruct (codes T !! k) eqn:E; [by apply code_indexed_delete|by rewrite delete_id]. }
  destruct Hix as [Hix Hf]. split; simpl.
  - intros r' k'. unfold ix_keys in *. setoid_rewrite lookup_insert_Some.
    specialize (Hix r' k'). setoid_rewrite lookup_delete_Some in Hix.
    destruct (decide (r' = r)) as [->|Hr];
      [rewrite lookup_insert_eq|rewrite lookup_insert_ne by done]; simpl;
      rewrite ?elem_of_union, ?elem_of_singleton, Hix; destruct (decide (k' = k)); naive_solver.
  - intros r'. rewrite lookup_insert. case_decide; [|auto]. intros [=Heq]. set_solver.
Qed.

Lemma codes_wf_delete k T : codes_wf T → codes_wf (deleteCodeLocked k T).1.
Proof. intros HT. unfold deleteCodeLocked. destruct (_ !! k) eqn:E; [|done]. by apply code_indexed_delete. Qed.

Lemma deleteCode_codes k T : codes (deleteCodeLocked k T).1 = delete k (codes T).
Proof. unfold deleteCodeLocked. destruct (_ !! k) eqn:E; [done|]. by rewrite delete_id. Qed.

Section order_lemmas.
Context `{MapOrderOk}.

Lemma elem_of_range {V} (m : gmap string V) k v : (k, v) ∈ range m ↔ m !! k = Some v.
Proof. rewrite range_perm. apply elem_of_map_to_list. Qed.

Lemma elem_of_range_fst {V} (m : gmap string V) k : k ∈ (range m).*1 ↔ is_Some (m !! k).
Proof.
  rewrite list_elem_of_fmap. split.
  - intros ([k' v] & -> & Hin%elem_of_range). eauto.
  - intros [v Hv]. exists (k, v). split; [done|]. by apply elem_of_range.
Qed.

Lemma elem_of_range_set s k : k ∈ range_set s ↔ k ∈ s.
Proof. rewrite range_set_perm. set_solver. Qed.

Lemma NoDup_range {V} (m : gmap string V) : NoDup (range m).*1.
Proof. rewrite range_perm. apply NoDup_fst_map_to_list. Qed.

Lemma NoDup_range_set s : NoDup (range_set s).
Proof. rewrite range_set_perm. apply NoDup_elements. Qed.

(** The codes of a request go, and no others; they are counted. *)
Lemma deleteCodesForRequest_spec r T :
  codes_wf T →
  let '(T', n) := deleteCodesForRequestLocked r T in
  codes_wf T' ∧ codes T' = delete_where (λ c, bool_decide (cd_requestID c = r)) (codes T) ∧
  n = count_where (λ c, bool_decide (cd_requestID c = r)) (codes T).
Proof.
  intros [Hix Hf]. unfold deleteCodesForRequestLocked. set (keys := default ∅ (codeByRequest T !! r)).
  assert (Hkeys : ∀ k, k ∈ keys ↔ ∃ c, codes T !! k = Some c ∧ cd_requestID c = r) by (intros k; apply Hix).
  assert (Hsize : size keys = count_where (λ c, bool_decide (cd_requestID c = r)) (codes T)).
  { unfold count_where. rewrite <-size_dom. f_equal. apply set_eq. intros k. rewrite elem_of_dom, Hkeys.
    split; [intros (c & Hc & Hr)|intros [c [Hc Hr]%map_lookup_filter_Some]].
    - exists c. apply map_lookup_filter_Some. by rewrite bool_decide_eq_true.
    - exists c. simpl in Hr. by rewrite bool_decide_eq_true in Hr. }
  destruct (Nat.eqb_spec (size keys) 0) as [Hz|Hz].
  { rewrite Hsize in Hz. split_and!; [by split| |done]. symmetry. by apply count_where_zero. }
  assert (Hcodes : foldl (λ m k, delete k m) (codes T) (range_set keys) =
                   delete_where (λ c, bool_decide (cd_requestID c = r)) (codes T)).
  { apply map_eq. intros k. apply option_eq. intros c. rewrite lookup_delete_where, bool_decide_eq_false.
    rewrite (foldl_delete_Some (λ _, true) (λ k, k) (range_set keys) (codes T)).
    setoid_rewrite elem_of_range_set. setoid_rewrite Hkeys. naive_solver. }
  simpl. rewrite Hcodes. split_and!; [|done|done]. split; simpl.
  - intros r' k. unfold ix_keys. setoid_rewrite lookup_delete_where. setoid_rewrite bool_decide_eq_false.
    destruct (decide (r' = r)) as [->|Hne].
    + rewrite lookup_delete_eq. set_solver.
    + rewrite lookup_delete_ne by done. rewrite (Hix r' k). naive_solver.
  - intros r'. rewrite lookup_delete. case_decide; [done|apply Hf].
Qed.
End order_lemmas.
