(* ===== verification/OidcStore.v ===== *)
(** * The in-memory OpenID Provider store ([internal/store/memory/oidc.go])

    The methods of [OIDCStore]: what the protocol library calls to create,
    resolve and redeem authorization requests, codes, tokens and device
    authorizations, and what the business plane calls to decide, list and revoke
    them. Every method takes the store's one mutex, so what it does under the
    lock is a function on the store, named [..._locked] where the method also
    acts outside of it. The methods themselves are processes over the world the
    store lives in. One reading of the clock serves a whole critical section. *)

From S2P Require Import Prelude GoStd Scope Proc Tokens Client AuditLog Device Service.
From S2P Require Import OidcPolicy OidcTables.

(** ** Errors *)

Definition ErrRefreshTokenSpent : error := ErrInvalidGrant "refresh token was already rotated".
Definition ErrGrantRevokedInFlight : error :=
  ErrInvalidGrant "the grant was revoked while this request was in flight".
Definition ErrPendingAuthRequestsFull : error := New "memory: pending authorization request limit reached".
Definition ErrPendingDeviceAuthorizationsFull : error := New "memory: pending device authorization limit reached".
Definition errNotAnAccessToken : error := New "not a live access token".
(** [authorization.ErrRequestExpired]. *)
Definition ErrRequestExpired : error := New "authorization: the authorization request is unknown or expired".
(** Sentinels of the protocol library and of [context]. *)
Definition ErrDuplicateUserCode : error := New "user code already exists".
Definition ErrInvalidRefreshToken : error := New "invalid_refresh_token".
Definition DeadlineExceeded : error := New "context deadline exceeded".

(** ** Configuration *)

(** The fields of the store that never change after [NewOIDCStore]. *)
Record oidc_config := mkOIDCConfig {
  oc_registry : Registry;
  oc_signer : Signer;
  oc_accessTTL : Z;
  oc_refreshTTL : Z;
  oc_requestTTL : Z;
  oc_maxTombstones : Z;
  oc_maxPendingAuthRequests : Z;
  oc_maxPendingDeviceAuthorizations : Z;
}.

(** [OIDCOptions], without the login and clock hooks. *)
Record OIDCOptions (Rg : Type) := mkOIDCOptions {
  oo_Clients : option Rg;
  oo_Registry : option Registry;
  oo_Signer : option Signer;
  oo_RequestTTL : Z;
  oo_MaxRefreshTombstones : Z;
  oo_MaxPendingAuthRequests : Z;
  oo_MaxPendingDeviceAuthorizations : Z;
}.
Arguments mkOIDCOptions {Rg}.
Arguments oo_Clients {Rg}.
Arguments oo_Registry {Rg}.
Arguments oo_Signer {Rg}.
Arguments oo_RequestTTL {Rg}.
Arguments oo_MaxRefreshTombstones {Rg}.
Arguments oo_MaxPendingAuthRequests {Rg}.
Arguments oo_MaxPendingDeviceAuthorizations {Rg}.

Definition defaultMaxRefreshTombstones : Z := Z.shiftl 1 16.
Definition defaultMaxPendingAuthRequests : Z := Z.shiftl 1 17.
Definition defaultMaxPendingDeviceAuthorizations : Z := Z.shiftl 1 15.

(** [if v <= 0 { v = d }]. *)
Definition or_default (v d : Z) : Z := if (v <=? 0)%Z then d else v.

(** [NewOIDCStore]. [setter] is [oauth.TokenRevokerSetter], which a registry may
    implement: the new store is published to it. *)
Definition NewOIDCStore {Rg} (setter : option (Rg → Rg)) (opts : OIDCOptions Rg)
    : result (oidc_config * OIDCStore * Rg) :=
  match oo_Clients opts, oo_Registry opts, oo_Signer opts with
  | None, _, _ => Err (New "memory: OIDCStore: client registry is required")
  | _, None, _ => Err (New "memory: OIDCStore: scope registry is required")
  | _, _, None => Err (New "memory: OIDCStore: signer is required")
  | Some clients, Some registry, Some signer =>
      Ok (mkOIDCConfig registry signer time_Hour (30 * 24 * time_Hour)
            (or_default (oo_RequestTTL opts) (30 * time_Minute))
            (or_default (oo_MaxRefreshTombstones opts) defaultMaxRefreshTombstones)
            (or_default (oo_MaxPendingAuthRequests opts) defaultMaxPendingAuthRequests)
            (or_default (oo_MaxPendingDeviceAuthorizations opts) defaultMaxPendingDeviceAuthorizations),
          emptyOIDCStore,
          match setter with Some f => f clients | None => clients end)
  end.

(** ** Under the lock: authorization requests and codes *)

(** [len(m)]. *)
Definition map_len {V} (m : gmap string V) : Z := Z.of_nat (size m).

(** The parameters of an authorization request as the library parsed them
    ([oidc.AuthRequest]). *)
Record AuthParams := mkAuthParams {
  ap_ClientID : string;
  ap_RedirectURI : string;
  ap_ResponseType : string;
  ap_ResponseMode : string;
  ap_Scopes : list string;
  ap_State : string;
  ap_Nonce : string;
  ap_CodeChallenge : string;
  ap_CodeChallengeMethod : string;
  ap_Prompt : list string;
  ap_MaxAge : option Z;
}.

(** [codeChallenge]. *)
Definition codeChallenge (challenge method : string) : option CodeChallenge :=
  if bool_decide (challenge = EmptyString) then None else Some (mkChallenge challenge method).

(** The record [CreateAuthRequest] stores. *)
Definition new_auth_request (id : string) (req : AuthParams) (userID : string) : AuthRequest :=
  mkAuthRequest id (ap_ClientID req) (ap_RedirectURI req) (ap_ResponseType req) (ap_ResponseMode req)
    (ap_Scopes req) (ap_State req) (ap_Nonce req)
    (codeChallenge (ap_CodeChallenge req) (ap_CodeChallengeMethod req))
    userID false None (ap_Prompt req) (ap_MaxAge req).

Definition CreateAuthRequest_locked (c : oidc_config) (id : string) (req : AuthParams) (userID : string) (now : Z)
    (s : OIDCStore) : OIDCStore * result AuthRequest :=
  let T := os_requests s in
  if (oc_maxPendingAuthRequests c <=? map_len (authRequests T))%Z then (s, Err ErrPendingAuthRequestsFull)
  else
    let a := new_auth_request id req userID in
    (set_requests (mkRequestTable (<[id := a]> (authRequests T))
                     (<[id := (now + oc_requestTTL c)%Z]> (authRequestExpiry T))
                     (ix_add (requestBySubject T) (oa_Subject a) id)) s, Ok a).

(** [AuthRequestByID]: a missing deadline reads as the zero time. *)
Definition AuthRequestByID_locked (id : string) (now : Z) (s : OIDCStore) : result AuthRequest :=
  match authRequests (os_requests s) !! id with
  | None => Err (Wrap ("memory: auth request not found: " +:+ Error ErrRequestExpired) ErrRequestExpired)
  | Some a =>
      if negb (time_Before now (default 0%Z (authRequestExpiry (os_requests s) !! id)))
      then Err (Wrap ("memory: auth request is unknown or expired: " +:+ Error ErrRequestExpired) ErrRequestExpired)
      else Ok a
  end.

Section locked.
Context `{Platform}.

(** [AuthRequestByCode]: the lookup is the claim. *)
Definition AuthRequestByCode_locked (code : string) (now : Z) (b : option RevocationEpochs) (s : OIDCStore)
    : OIDCStore * option RevocationEpochs * result AuthRequest :=
  let key := TokenHash code in
  match codes (os_codes s) !! key with
  | None => (s, b, Err (New "memory: authorization code is unknown or expired"))
  | Some cr =>
      if negb (time_Before now (cd_expiresAt cr))
      then (s, b, Err (New "memory: authorization code is unknown or expired"))
      else match authRequests (os_requests s) !! cd_requestID cr with
      | None => (s, b, Err (New "memory: auth request not found"))
      | Some a =>
          let '(global, client, subject) := revocationEpochsLocked (oa_ClientID a) (oa_Subject a) (revocationEpochs s) in
          (drop_request (cd_requestID cr) (drop_code key s), CaptureRevocationEpochs b global client subject, Ok a)
      end
  end.

Definition SaveAuthCode_locked (c : oidc_config) (id code : string) (now : Z) (s : OIDCStore) : OIDCStore * result unit :=
  (set_codes (putCodeLocked (TokenHash code) id (now + oc_requestTTL c) (os_codes s)) s, Ok tt).

(** [SetAuthTime]. *)
Definition with_auth_time (at_ : option Z) (a : AuthRequest) : AuthRequest :=
  mkAuthRequest (oa_ID a) (oa_ClientID a) (oa_RedirectURI a) (oa_ResponseType a) (oa_ResponseMode a) (oa_Scopes a)
    (oa_State a) (oa_Nonce a) (oa_CodeChallenge a) (oa_Subject a) (oa_IsDone a) at_ (oa_Prompt a) (oa_MaxAge a).
Definition put_request (id : string) (a : AuthRequest) (T : RequestTable) : RequestTable :=
  mkRequestTable (<[id := a]> (authRequests T)) (authRequestExpiry T) (requestBySubject T).

Definition SetAuthTime_locked (id : string) (at_ : Z) (s : OIDCStore) : OIDCStore * result unit :=
  match authRequests (os_requests s) !! id with
  | None => (s, Err (New "memory: auth request not found"))
  | Some a => (set_requests (put_request id (with_auth_time (Some at_) a) (os_requests s)) s, Ok tt)
  end.

(** The request [CompleteLogin] leaves behind. *)
Definition completed (subject : string) (scopes : list string) (now : Z) (a : AuthRequest) : AuthRequest :=
  mkAuthRequest (oa_ID a) (oa_ClientID a) (oa_RedirectURI a) (oa_ResponseType a) (oa_ResponseMode a) scopes
    (oa_State a) (oa_Nonce a) (oa_CodeChallenge a) subject true
    (match oa_AuthTime a with None => Some now | Some t => Some t end) (oa_Prompt a) (oa_MaxAge a).

(** [CompleteLogin]; the result is the client id and the scopes the audit event
    names. *)
Definition CompleteLogin_locked (id subject : string) (scopes : list string) (now : Z) (s : OIDCStore)
    : OIDCStore * result (string * list string) :=
  match authRequests (os_requests s) !! id with
  | None => (s, Err (New "memory: auth request not found"))
  | Some a =>
      if RequiresReauthentication a now then (s, Err ErrReauthenticationRequired)
      else
        let T := os_requests s in
        let previous := oa_Subject a in
        let ix := requestBySubject T in
        let ix := if bool_decide (previous = subject) then ix else ix_add (ix_remove ix previous id) subject id in
        (set_requests (mkRequestTable (<[id := completed subject scopes now a]> (authRequests T))
                         (authRequestExpiry T) ix) s,
         Ok (oa_ClientID a, scopes))
  end.

(** ** Under the lock: tokens *)

Definition CreateAccessToken_locked (id : string) (t : accessToken) (s : OIDCStore) : OIDCStore :=
  set_access (putAccessLocked (TokenHash id) t (os_access s)) s.

Section order.
Context `{MapOrder}.

(** [DeleteAuthRequest]; the result is what to record: the subject and client of
    a request that was still pending. *)
Definition DeleteAuthRequest_locked (id : string) (s : OIDCStore) : OIDCStore * option (string * string) :=
  let denied := match authRequests (os_requests s) !! id with
                | Some a => if oa_IsDone a then None else Some (oa_Subject a, oa_ClientID a)
                | None => None
                end in
  let s := drop_request id s in
  (set_codes (deleteCodesForRequestLocked id (os_codes s)).1 s, denied).

(** The loops of [revokeFamilyLocked]. *)
Definition family_refresh_step (familyID : string) (s : OIDCStore) (e : string * refreshToken) : OIDCStore :=
  if bool_decide (rf_familyID e.2 = familyID) then drop_access (rf_idHash e.2) (drop_refresh e.1 s) else s.
Definition family_tombstone_step (familyID : string) (s : OIDCStore) (e : string * refreshTombstone) : OIDCStore :=
  if bool_decide (ts_familyID e.2 = familyID) then drop_tombstone e.1 (drop_access (ts_idHash e.2) s) else s.

Definition revokeFamilyLocked (familyID : string) (s : OIDCStore) : OIDCStore :=
  if bool_decide (familyID = EmptyString) then s
  else
    let s := foldl (family_refresh_step familyID) s (range (refreshTokens (os_refresh s))) in
    foldl (family_tombstone_step familyID) s (range (refreshTombstones s)).

(** Room for one more tombstone: past the bound an arbitrary one goes. *)
Definition evict_tombstone (c : oidc_config) (spent : string) (m : gmap string refreshTombstone)
    : gmap string refreshTombstone :=
  match m !! spent with
  | Some _ => m
  | None =>
      if (oc_maxTombstones c <=? map_len m)%Z
      then match range m with [] => m | (old, _) :: _ => delete old m end
      else m
  end.

(** The spent half of a rotation: the tombstone written, the live row deleted. *)
Definition spend (c : oidc_config) (spent familyID : string) (held : refreshToken) (s : OIDCStore) : OIDCStore :=
  drop_refresh spent
    (set_tombstones
       (<[spent := mkTombstone familyID (rf_idHash held) (rf_clientID held) (rf_subject held) (rf_expiresAt held)]>
          (evict_tombstone c spent (refreshTombstones s))) s).

Definition with_family (familyID : string) (t : refreshToken) : refreshToken :=
  mkRefreshToken (rf_valueHash t) (rf_idHash t) (rf_clientID t) (rf_subject t) (rf_scopes t) (rf_amr t) (rf_audience t)
    (rf_authTime t) (rf_nonce t) familyID (rf_issuedAt t) (rf_expiresAt t).

(** The critical section of [CreateAccessAndRefreshTokens]: the claim, the
    generation check and the two writes. [fam] is the random family id of a
    first issuance. *)
Definition mint_pair (access : accessToken) (refresh : refreshToken) (b : option RevocationEpochs) (familyID : string)
    (s : OIDCStore) : OIDCStore * result unit :=
  let '(g, cl, sub) := revocationEpochsLocked (ot_clientID access) (ot_subject access) (revocationEpochs s) in
  if negb (RevocationUnchanged b g cl sub) then (s, Err ErrGrantRevokedInFlight)
  else
    let s := set_access (putAccessLocked (TokenHash (ot_id access)) access (os_access s)) s in
    (set_refresh (putRefreshLocked (rf_valueHash refresh) (with_family familyID refresh) (os_refresh s)) s, Ok tt).

Definition CreateAccessAndRefreshTokens_locked (c : oidc_config) (access : accessToken) (refresh : refreshToken)
    (currentRefreshToken : string) (b : option RevocationEpochs) (fam : result string) (s : OIDCStore)
    : OIDCStore * result unit :=
  if bool_decide (currentRefreshToken = EmptyString) then
    match fam with
    | Err err => (s, Err err)
    | Ok familyID => mint_pair access refresh b familyID s
    end
  else
    let spent := TokenHash currentRefreshToken in
    match refreshTokens (os_refresh s) !! spent with
    | None =>
        (match refreshTombstones s !! spent with
         | Some ts => revokeFamilyLocked (ts_familyID ts) s
         | None => s
         end, Err ErrRefreshTokenSpent)
    | Some held =>
        let familyID := if bool_decide (rf_familyID held = EmptyString) then spent else rf_familyID held in
        mint_pair access refresh b familyID (spend c spent familyID held s)
    end.

(** [TokenRequestByRefreshToken]: a spent value takes its family along. *)
Definition TokenRequestByRefreshToken_locked (value : string) (now : Z) (b : option RevocationEpochs) (s : OIDCStore)
    : OIDCStore * option RevocationEpochs * result RefreshRequest :=
  let spent := TokenHash value in
  let refused :=
    match refreshTombstones s !! spent with
    | Some ts =>
        if time_Before now (ts_expiresAt ts)
        then (revokeFamilyLocked (ts_familyID ts) s, b, Err ErrRefreshTokenSpent)
        else (s, b, Err ErrTokenNotFound)
    | None => (s, b, Err ErrTokenNotFound)
    end in
  match refreshTokens (os_refresh s) !! spent with
  | None => refused
  | Some r =>
      if negb (time_Before now (rf_expiresAt r)) then refused
      else
        let '(global, client, subject) := revocationEpochsLocked (rf_clientID r) (rf_subject r) (revocationEpochs s) in
        (s, CaptureRevocationEpochs b global client subject,
         Ok (mkRefreshRequest (rf_idHash r) (rf_clientID r) (rf_subject r) (rf_scopes r) (rf_amr r) (rf_audience r)
               (rf_authTime r) (rf_nonce r)))
  end.

(** The bodies of the loops that delete a subject's tokens for a client: the row
    under an indexed key is looked up again before it goes. *)
Definition drop_access_if (P : accessToken → bool) (s : OIDCStore) (key : string) : OIDCStore :=
  match accessTokens (os_access s) !! key with
  | Some t => if P t then drop_access key s else s
  | None => s
  end.
Definition drop_refresh_if (P : refreshToken → bool) (s : OIDCStore) (key : string) : OIDCStore :=
  match refreshTokens (os_refresh s) !! key with
  | Some t => if P t then drop_refresh key s else s
  | None => s
  end.
Definition drop_tombstone_if (P : refreshTombstone → bool) (s : OIDCStore) (e : string * refreshTombstone) : OIDCStore :=
  if P e.2 then drop_access (ts_idHash e.2) (drop_tombstone e.1 s) else s.

(** The token loops [TerminateSession] and [RevokeGrant] share. *)
Definition drop_grant_tokens (subject clientID : string) (s : OIDCStore) : OIDCStore :=
  let s := foldl (drop_access_if (λ t, bool_decide (ot_clientID t = clientID))) s
             (range_set (ix_keys (accessBySubject (os_access s)) subject)) in
  let s := foldl (drop_refresh_if (λ t, bool_decide (rf_clientID t = clientID))) s
             (range_set (ix_keys (refreshBySubject (os_refresh s)) subject)) in
  foldl (drop_tombstone_if (λ ts, bool_decide (ts_subject ts = subject) && bool_decide (ts_clientID ts = clientID))) s
    (range (refreshTombstones s)).

Definition TerminateSession_locked (userID clientID : string) (s : OIDCStore) : OIDCStore := drop_grant_tokens userID clientID s.

(** The loop that forgets the tombstones paired with an access token. *)
Definition drop_paired_tombstones (h : string) (s : OIDCStore) : OIDCStore :=
  foldl (λ s e, if bool_decide (ts_idHash e.2 = h) then drop_tombstone e.1 s else s) s (range (refreshTombstones s)).

(** [RevokeToken]; the result is whether the revocation is recorded. *)
Definition RevokeToken_locked (tokenOrTokenID clientID : string) (s : OIDCStore) : OIDCStore * bool :=
  let h := TokenHash tokenOrTokenID in
  match accessTokens (os_access s) !! h with
  | Some t =>
      if negb (bool_decide (ot_clientID t = clientID)) then (s, false)
      else
        let s := drop_access h s in
        let s := match refreshKeyByIDHashLocked h (os_refresh s) with Some k => drop_refresh k s | None => s end in
        (drop_paired_tombstones h s, true)
  | None =>
      match refreshKeyByIDHashLocked h (os_refresh s) with
      | Some key =>
          if match refreshTokens (os_refresh s) !! key with
             | Some t => negb (bool_decide (rf_clientID t = clientID))
             | None => false
             end then (s, false)
          else (drop_paired_tombstones h (drop_access h (drop_refresh key s)), true)
      | None =>
          match refreshTokens (os_refresh s) !! h with
          | Some t =>
              if negb (bool_decide (rf_clientID t = clientID)) then (s, false)
              else (drop_tombstone h (drop_access (rf_idHash t) (drop_refresh h s)), true)
          | None => (s, false)
          end
      end
  end.

(** ** Under the lock: bulk revocation *)

(** The loop over pending requests: those that match go, and are remembered. *)
Definition purge_request_step (P : AuthRequest → bool) (acc : OIDCStore * gset string) (id : string)
    : OIDCStore * gset string :=
  let '(s, purged) := acc in
  match authRequests (os_requests s) !! id with
  | Some req => if P req then (drop_request id s, {[id]} ∪ purged) else (s, purged)
  | None => (s, purged)
  end.
Definition purge_requests (P : AuthRequest → bool) (ids : list string) (s : OIDCStore) : OIDCStore * gset string :=
  foldl (purge_request_step P) (s, ∅) ids.

(** The loop over the purged requests: their codes go, and are counted. *)
Definition purge_code_step (acc : OIDCStore * nat) (id : string) : OIDCStore * nat :=
  let '(s, n) := acc in
  let '(T, k) := deleteCodesForRequestLocked id (os_codes s) in (set_codes T s, n + k).
Definition purge_codes (ids : list string) (s : OIDCStore) : OIDCStore * nat := foldl purge_code_step (s, 0) ids.

(** [normalizeUserCode]. *)
Definition normalizeUserCode (code : string) : string :=
  strings_ToUpper (str_filter (λ c, negb (bool_decide (c = dash))) code).

Definition drop_device (h : string) (d : deviceRecord) (T : DeviceTable) : DeviceTable :=
  mkDeviceTable (delete h (devices T)) (delete (normalizeUserCode (dv_userCode d)) (userCodes T)).

(** The loops over the device authorizations, with the number removed. *)
Definition purge_device_step (P : deviceRecord → bool) (acc : DeviceTable * nat) (e : string * deviceRecord) : DeviceTable * nat :=
  let '(T, n) := acc in if P e.2 then (drop_device e.1 e.2 T, S n) else (T, n).
Definition purge_devices (P : deviceRecord → bool) (T : DeviceTable) : DeviceTable * nat :=
  foldl (purge_device_step P) (T, 0) (range (devices T)).

(** Requests, their codes and devices that match: what a revocation takes
    besides tokens. The result counts requests, codes and devices. *)
Definition purge_pending (P : AuthRequest → bool) (Q : deviceRecord → bool) (ids : list string) (s : OIDCStore)
    : OIDCStore * (nat * nat * nat) :=
  let '(s, purged) := purge_requests P ids s in
  let '(s, ncodes) := purge_codes (range_set purged) s in
  let '(T, ndevices) := purge_devices Q (os_devices s) in
  (set_devices T s, (size purged, ncodes, ndevices)).

(** [RevokeGrant]. *)
Definition RevokeGrant_locked (subject clientID : string) (s : OIDCStore) : OIDCStore :=
  let s := set_epochs (bumpRevocationEpochsLocked clientID subject (revocationEpochs s)) s in
  let s := drop_grant_tokens subject clientID s in
  (purge_pending (λ req, bool_decide (oa_ClientID req = clientID))
     (λ d, bool_decide (dv_clientID d = clientID) && bool_decide (dv_subject d = subject))
     (range_set (ix_keys (requestBySubject (os_requests s)) subject)) s).1.

(** The counting loops of [RevokeTokens]. *)
Definition count_access (P : accessToken → bool) (acc : OIDCStore * nat) (k : string) : OIDCStore * nat :=
  let '(s, n) := acc in
  match accessTokens (os_access s) !! k with
  | Some t => if P t then (drop_access k s, S n) else (s, n)
  | None => (s, n)
  end.
Definition count_refresh (P : refreshToken → bool) (acc : OIDCStore * nat) (k : string) : OIDCStore * nat :=
  let '(s, n) := acc in
  match refreshTokens (os_refresh s) !! k with
  | Some t => if P t then (drop_refresh k s, S n) else (s, n)
  | None => (s, n)
  end.

(** [RevokeTokens]. *)
Definition OIDC_RevokeTokens (f : TokenFilter) (s : OIDCStore) : OIDCStore * result nat :=
  let s := set_epochs (bumpRevocationEpochsLocked (tf_ClientID f) (tf_Subject f) (revocationEpochs s)) s in
  let '(s, n) := foldl (count_access (λ t, Matches f (ot_clientID t) (ot_subject t))) (s, 0)
                   (accessKeysLocked (tf_Subject f) (os_access s)) in
  let '(s, n) := foldl (count_refresh (λ t, Matches f (rf_clientID t) (rf_subject t))) (s, n)
                   (refreshKeysLocked (tf_Subject f) (os_refresh s)) in
  let s := foldl (drop_tombstone_if (λ ts, Matches f (ts_clientID ts) (ts_subject ts))) s (range (refreshTombstones s)) in
  ((purge_pending (λ req, Matches f (oa_ClientID req) (oa_Subject req))
      (λ d, Matches f (dv_clientID d) (dv_subject d))
      (requestKeysLocked (tf_Subject f) (os_requests s)) s).1, Ok n).

(** [PurgeSubject]. *)
Definition PurgeSubject (subject : string) (s : OIDCStore) : OIDCStore * result nat :=
  if bool_decide (subject = EmptyString) then (s, Err (New "memory: subject is required"))
  else
    let '(s, (requests, ncodes, ndevices)) :=
      purge_pending (λ req, bool_decide (oa_Subject req = subject)) (λ d, bool_decide (dv_subject d = subject))
        (requestKeysLocked subject (os_requests s)) s in
    (s, Ok (requests + ncodes + ndevices)).

(** ** Under the lock: devices *)

(** [op.DeviceAuthorizationState] and [deviceRecord.state]. *)
Record DeviceAuthorizationState := mkDeviceState {
  ds_ClientID : string;
  ds_Scopes : list string;
  ds_Expires : Z;
  ds_Done : bool;
  ds_Denied : bool;
  ds_Subject : string;
  ds_AuthTime : Z;
}.
Definition device_state (d : deviceRecord) : DeviceAuthorizationState :=
  mkDeviceState (dv_clientID d) (dv_scopes d) (dv_expiresAt d) (dv_done d) (dv_denied d) (dv_subject d) (dv_authTime d).
(** [st.Done = false]. *)
Definition not_done (st : DeviceAuthorizationState) : DeviceAuthorizationState :=
  mkDeviceState (ds_ClientID st) (ds_Scopes st) (ds_Expires st) false (ds_Denied st) (ds_Subject st) (ds_AuthTime st).

Definition set_lastPoll (t : Z) (d : deviceRecord) : deviceRecord :=
  mkDeviceRecord (dv_deviceCodeHash d) (dv_userCode d) (dv_clientID d) (dv_scopes d) (dv_expiresAt d) (dv_done d)
    (dv_denied d) (dv_subject d) (dv_authTime d) t.
Definition put_device (h : string) (d : deviceRecord) (s : OIDCStore) : OIDCStore :=
  set_devices (mkDeviceTable (<[h := d]> (devices (os_devices s))) (userCodes (os_devices s))) s.

(** [StoreDeviceAuthorization]: only an expired record gives up its user code. *)
Definition StoreDeviceAuthorization (c : oidc_config) (clientID deviceCode userCode : string) (expires : Z)
    (scopes : list string) (now : Z) (s : OIDCStore) : OIDCStore * result unit :=
  let key := normalizeUserCode userCode in
  let T := os_devices s in
  let claimed :=
    match userCodes T !! key with
    | None => Some T
    | Some h =>
        match devices T !! h with
        | None => None
        | Some rec =>
            if time_Before now (dv_expiresAt rec) then None
            else Some (mkDeviceTable (delete h (devices T)) (delete key (userCodes T)))
        end
    end in
  match claimed with
  | None => (s, Err ErrDuplicateUserCode)
  | Some T =>
      let h := TokenHash deviceCode in
      if bool_decide (devices T !! h = None) && (oc_maxPendingDeviceAuthorizations c <=? map_len (devices T))%Z
      then (set_devices T s, Err ErrPendingDeviceAuthorizationsFull)
      else
        (set_devices
           (mkDeviceTable
              (<[h := mkDeviceRecord h userCode clientID scopes expires false false EmptyString 0 0]> (devices T))
              (<[key := h]> (userCodes T))) s, Ok tt)
  end.

(** [GetDeviceAuthorizatonState]: a poll, and the redemption of an approval. *)
Definition GetDeviceAuthorizatonState_locked (clientID deviceCode : string) (now : Z) (b : option RevocationEpochs)
    (s : OIDCStore) : OIDCStore * option RevocationEpochs * result DeviceAuthorizationState :=
  let h := TokenHash deviceCode in
  let notFound := (s, b, Err (New "memory: device authorization not found")) in
  match devices (os_devices s) !! h with
  | None => notFound
  | Some d =>
      if negb (bool_decide (dv_clientID d = clientID)) then notFound
      else if negb (dv_done d) && negb (dv_denied d) && negb (time_IsZero (dv_lastPoll d)) &&
              time_Before now (dv_lastPoll d + DefaultDevicePollInterval)
      then (put_device h (set_lastPoll now d) s, b, Err DeadlineExceeded)
      else
        let st := device_state d in
        if dv_done d && negb (dv_denied d) then
          let '(global, client, subject) := revocationEpochsLocked (dv_clientID d) (dv_subject d) (revocationEpochs s) in
          (set_devices (drop_device h d (os_devices s)) s, CaptureRevocationEpochs b global client subject,
           Ok (if negb (time_Before now (dv_expiresAt d)) then not_done st else st))
        else (put_device h (set_lastPoll now d) s, b, Ok st)
  end.

(** [DeviceByUserCode]. *)
Definition DeviceByUserCode (userCode : string) (s : OIDCStore) : result DeviceAuthorizationState :=
  match userCodes (os_devices s) !! normalizeUserCode userCode with
  | None => Err (New "memory: device authorization not found")
  | Some h =>
      match devices (os_devices s) !! h with
      | None => Err (New "memory: device authorization not found")
      | Some d => Ok (device_state d)
      end
  end.

(** The zero [deviceRecord], which a missing key reads as. *)
Definition zeroDevice : deviceRecord :=
  mkDeviceRecord EmptyString EmptyString EmptyString [] 0 false false EmptyString 0 0.

(** [approveDevice]; nil scopes are [None]. The result is the client id and the
    scopes the audit event names. *)
Definition approve_record (subject : string) (scopes : option (list string)) (now : Z) (d : deviceRecord) : deviceRecord :=
  mkDeviceRecord (dv_deviceCodeHash d) (dv_userCode d) (dv_clientID d) (default (dv_scopes d) scopes) (dv_expiresAt d) true
    (dv_denied d) subject now (dv_lastPoll d).
Definition approveDevice_locked (userCode subject : string) (scopes : option (list string)) (now : Z) (s : OIDCStore)
    : OIDCStore * result (string * list string) :=
  match userCodes (os_devices s) !! normalizeUserCode userCode with
  | None => (s, Err ErrDeviceNotFound)
  | Some h =>
      let d := default zeroDevice (devices (os_devices s) !! h) in
      if dv_done d || dv_denied d || negb (time_Before now (dv_expiresAt d)) then (s, Err ErrDeviceNotFound)
      else
        let d := approve_record subject scopes now d in
        (put_device h d s, Ok (dv_clientID d, dv_scopes d))
  end.

(** [DenyDevice]. *)
Definition deny_record (d : deviceRecord) : deviceRecord :=
  mkDeviceRecord (dv_deviceCodeHash d) (dv_userCode d) (dv_clientID d) (dv_scopes d) (dv_expiresAt d) (dv_done d) true
    (dv_subject d) (dv_authTime d) (dv_lastPoll d).
Definition DenyDevice_locked (userCode : string) (s : OIDCStore) : OIDCStore * result string :=
  match userCodes (os_devices s) !! normalizeUserCode userCode with
  | None => (s, Err ErrDeviceNotFound)
  | Some h =>
      let d := default zeroDevice (devices (os_devices s) !! h) in
      if dv_denied d then (s, Err ErrDeviceNotFound)
      else (put_device h (deny_record d) s, Ok (dv_clientID d))
  end.

(** ** Under the lock: the sweep and the counters *)

(** [purgeExpiredDevicesLocked]. *)
Definition purgeExpiredDevicesLocked (now : Z) (T : DeviceTable) : DeviceTable * nat :=
  purge_devices (λ d, time_After now (dv_expiresAt d)) T.

(** One loop of [SweepExpired]: the entries that are [dead] go through [drop]. *)
Definition sweep_step {V} (dead : V → bool) (drop : string → OIDCStore → OIDCStore) (acc : OIDCStore * nat)
    (e : string * V) : OIDCStore * nat :=
  let '(s, n) := acc in if dead e.2 then (drop e.1 s, S n) else (s, n).
Definition sweep {V} (dead : V → bool) (drop : string → OIDCStore → OIDCStore) (m : OIDCStore → gmap string V)
    (acc : OIDCStore * nat) : OIDCStore * nat :=
  foldl (sweep_step dead drop) acc (range (m acc.1)).

(** [OIDCStore.SweepExpired]. *)
Definition OIDC_SweepExpired (now : Z) (s : OIDCStore) : OIDCStore * nat :=
  let acc := sweep (λ expires, time_After now expires) drop_request (λ s, authRequestExpiry (os_requests s)) (s, 0) in
  let acc := sweep (λ c, time_After now (cd_expiresAt c)) drop_code (λ s, codes (os_codes s)) acc in
  let acc := sweep (λ t, negb (time_Before now (ot_expiresAt t))) drop_access (λ s, accessTokens (os_access s)) acc in
  let acc := sweep (λ t, negb (time_Before now (rf_expiresAt t))) drop_refresh (λ s, refreshTokens (os_refresh s)) acc in
  let '(s, removed) := sweep (λ ts, negb (time_Before now (ts_expiresAt ts))) drop_tombstone refreshTombstones acc in
  let '(T, n) := purgeExpiredDevicesLocked now (os_devices s) in
  (set_devices T s, removed + n).

(** [Counts] and [Counts.Records]. *)
Record Counts := mkCounts {
  ct_AuthRequests : Z;
  ct_Codes : Z;
  ct_AccessTokens : Z;
  ct_RefreshTokens : Z;
  ct_Tombstones : Z;
  ct_Devices : Z;
}.
Definition Records (c : Counts) : Z :=
  (ct_AuthRequests c + ct_Codes c + ct_AccessTokens c + ct_RefreshTokens c + ct_Tombstones c + ct_Devices c)%Z.
Definition OIDC_Counts (s : OIDCStore) : Counts :=
  mkCounts (map_len (authRequests (os_requests s))) (map_len (codes (os_codes s)))
    (map_len (accessTokens (os_access s))) (map_len (refreshTokens (os_refresh s))) (map_len (refreshTombstones s))
    (map_len (devices (os_devices s))).

(** ** Under the lock: what a client can still do as a subject *)

(** [appendScopeUnique]. *)
Definition appendScopeUnique (dst : list Scope) (s : Scope) : list Scope :=
  if bool_decide (s ∈ dst) then dst else dst ++ [s].

(** The closure [collect] of [Grants]. *)
Definition collect (now : Z) (byClient : gmap string Grant) (clientID : string) (scopes : list string)
    (issued expires : Z) (refresh : bool) : gmap string Grant :=
  if negb (time_After expires now) then byClient
  else
    let g := match byClient !! clientID with
             | Some g => g
             | None => mkGrant clientID EmptyString [] false issued expires
             end in
    <[clientID :=
        mkGrant (g_ClientID g) (g_ClientName g)
          (foldl (λ acc sc, if bool_decide (sc = ScopeOfflineAccess) then acc else appendScopeUnique acc sc)
             (g_Scopes g) scopes)
          (if refresh then true else g_HasRefresh g)
          (if time_Before issued (g_IssuedAt g) then issued else g_IssuedAt g)
          (if time_After expires (g_ExpiresAt g) then expires else g_ExpiresAt g)]> byClient.

Definition collect_access (now : Z) (s : OIDCStore) (m : gmap string Grant) (key : string) : gmap string Grant :=
  match accessTokens (os_access s) !! key with
  | Some t => collect now m (ot_clientID t) (ot_scopes t) (ot_issuedAt t) (ot_expiresAt t) false
  | None => m
  end.
Definition collect_refresh (now : Z) (s : OIDCStore) (m : gmap string Grant) (key : string) : gmap string Grant :=
  match refreshTokens (os_refresh s) !! key with
  | Some t => collect now m (rf_clientID t) (rf_scopes t) (rf_issuedAt t) (rf_expiresAt t) true
  | None => m
  end.

(** The scan of [Grants]. *)
Definition Grants_locked (subject : string) (now : Z) (s : OIDCStore) : gmap string Grant :=
  foldl (collect_refresh now s)
    (foldl (collect_access now s) ∅ (range_set (ix_keys (accessBySubject (os_access s)) subject)))
    (range_set (ix_keys (refreshBySubject (os_refresh s)) subject)).

(** A grant as [Grants] returns it: with its name, its scopes sorted. *)
Definition finish_grant (names : gmap string string) (g : Grant) : Grant :=
  mkGrant (g_ClientID g) (default EmptyString (names !! g_ClientID g)) (sort_by id (g_Scopes g)) (g_HasRefresh g)
    (g_IssuedAt g) (g_ExpiresAt g).
End order.
End locked.

(** ** The world of the methods *)

(** What the methods share: the store, the client registry, the audit log (none
    when the store has no logger), the clock, how many times the system
    generator was read, and the carriers the request contexts point to. *)
Record OWorld (Rg Lg : Type) := mkOWorld {
  ow_store : OIDCStore;
  ow_clients : Rg;
  ow_audit : option Lg;
  ow_clock : Z;
  ow_entropy : nat;
  ow_carriers : gmap nat RevocationEpochs;
}.
Arguments mkOWorld {Rg Lg}.
Arguments ow_store {Rg Lg}.
Arguments ow_clients {Rg Lg}.
Arguments ow_audit {Rg Lg}.
Arguments ow_clock {Rg Lg}.
Arguments ow_entropy {Rg Lg}.
Arguments ow_carriers {Rg Lg}.

(** What a method reads of a request context: the pointer to its carrier. *)
Abbreviation Ctx := (option nat).

Section oworld.
Context {Rg Lg : Type}.
Local Abbreviation W := (OWorld Rg Lg).

Definition set_store (s : OIDCStore) (w : W) : W :=
  mkOWorld s (ow_clients w) (ow_audit w) (ow_clock w) (ow_entropy w) (ow_carriers w).
Definition set_oaudit (l : option Lg) (w : W) : W :=
  mkOWorld (ow_store w) (ow_clients w) l (ow_clock w) (ow_entropy w) (ow_carriers w).
Definition set_oentropy (n : nat) (w : W) : W :=
  mkOWorld (ow_store w) (ow_clients w) (ow_audit w) (ow_clock w) n (ow_carriers w).
Definition set_carriers (m : gmap nat RevocationEpochs) (w : W) : W :=
  mkOWorld (ow_store w) (ow_clients w) (ow_audit w) (ow_clock w) (ow_entropy w) m.

(** [RevocationEpochsFromContext], and a write through the pointer. *)
Definition RevocationEpochsFromContext (ctx : Ctx) (w : W) : option RevocationEpochs :=
  match ctx with Some p => ow_carriers w !! p | None => None end.
Definition write_carrier (ctx : Ctx) (b : option RevocationEpochs) (w : W) : W :=
  match ctx, b with
  | Some p, Some b => set_carriers (<[p := b]> (ow_carriers w)) w
  | _, _ => w
  end.

(** [WithRevocationEpochs]: a context with a carrier of its own. *)
Definition WithRevocationEpochs : go W Ctx :=
  atomic (λ w, let p := fresh (dom (ow_carriers w)) in
               (set_carriers (<[p := emptyEpochs]> (ow_carriers w)) w, Some p)).

(** Critical sections. *)
Definition on_store {A} (f : Z → OIDCStore → OIDCStore * result A) : go W A :=
  call (λ w, let '(s, r) := f (ow_clock w) (ow_store w) in (set_store s w, r)).
Definition ask_store {A} (f : Z → OIDCStore → result A) : go W A :=
  call (λ w, (w, f (ow_clock w) (ow_store w))).
Definition on_store_ctx {A} (ctx : Ctx)
    (f : Z → option RevocationEpochs → OIDCStore → OIDCStore * option RevocationEpochs * result A) : go W A :=
  call (λ w, let '(s, b, r) := f (ow_clock w) (RevocationEpochsFromContext ctx w) (ow_store w) in
             (write_carrier ctx b (set_store s w), r)).

Definition onow : go W Z := reads ow_clock.

(** The bytes of the next read of the system generator. *)
Definition next_random `{Entropy} (w : W) : result string :=
  match rand_read (ow_entropy w) 32 with
  | Some b => Ok (RawURL_EncodeToString b)
  | None => Err (New "rand: read failed")
  end.

(** [oidcstore.RandomValue]. *)
Definition RandomValue `{Entropy} : go W string :=
  call (λ w, (set_oentropy (S (ow_entropy w)) w, next_random w)).

(** [record] and [recordConsent]: a failing sink is logged and the method goes
    on; a store without a logger records nothing. *)
Definition orecord_event `{Logger Lg} (e : Event) : go W unit :=
  modify (λ w, match ow_audit w with
               | Some l => set_oaudit (Some (log_Record (ow_clock w) e l).1) w
               | None => w
               end).
Definition orecord `{Logger Lg} (action subject clientID outcome : string) : go W unit :=
  orecord_event (mkEvent 0 action subject "oidc" outcome {[ "client_id" := clientID ]}).
Definition recordConsent `{Logger Lg} (action subject clientID : string) (scopes : list string) (outcome : string)
    : go W unit :=
  let detail := {[ "client_id" := clientID ]} in
  let detail := if (0 <? length scopes)%nat then <["scopes" := strings_Join scopes " "]> detail else detail in
  orecord_event (mkEvent 0 action subject "oidc" outcome detail).
End oworld.

(** ** The methods *)

Section methods.
Context `{Platform} `{Entropy} `{MapOrder}.
Context {Rg Lg : Type} `{ClientRegistry Rg} `{Logger Lg}.
Context (c : oidc_config).
Local Abbreviation W := (OWorld Rg Lg).

Definition CreateAuthRequest (req : AuthParams) (userID : string) : go W AuthRequest :=
  id ← RandomValue;
  on_store (CreateAuthRequest_locked c id req userID).

Definition AuthRequestByID (id : string) : go W AuthRequest := ask_store (AuthRequestByID_locked id).

Definition AuthRequestByCode (ctx : Ctx) (code : string) : go W AuthRequest :=
  on_store_ctx ctx (AuthRequestByCode_locked code).

Definition SaveAuthCode (id code : string) : go W unit := on_store (SaveAuthCode_locked c id code).

(** [DeleteAuthRequest]: a refusal is recorded only for a pending request. *)
Definition DeleteAuthRequest (id : string) : go W unit :=
  denied ← atomic (λ w, let '(s, d) := DeleteAuthRequest_locked id (ow_store w) in (set_store s w, d));
  match denied with
  | Some (subject, clientID) => recordConsent "oidc.consent.deny" subject clientID [] OutcomeDenied
  | None => mret tt
  end.

(** The access token of a request. *)
Definition new_access (id : string) (request : TokenRequest) (now : Z) : accessToken :=
  mkAccessToken id (ClientIDOf request) (tq_Subject request) (WithoutOfflineAccess (tq_Scopes request)) now
    (now + oc_accessTTL c).

(** [CreateAccessToken]: the value and its deadline. *)
Definition CreateAccessToken (request : TokenRequest) : go W (string * Z) :=
  id ← RandomValue;
  now ← onow;
  let t := new_access id request now in
  atomic (λ w, (set_store (CreateAccessToken_locked id t (ow_store w)) w, tt));;
  orecord "oidc.token" (tq_Subject request) (ot_clientID t) OutcomeOK;;
  mret (id, ot_expiresAt t).

(** The refresh token of a request, without its family. *)
Definition new_refresh (value accessID : string) (request : TokenRequest) (now : Z) : refreshToken :=
  mkRefreshToken (TokenHash value) (TokenHash accessID) (ClientIDOf request) (tq_Subject request)
    (WithoutOfflineAccess (tq_Scopes request)) (default [] (tq_AMR request)) (default [] (tq_Audience request))
    (match tq_AuthTime request with Some t => if time_IsZero t then None else Some t | None => None end)
    (NonceOf request) EmptyString now (now + oc_refreshTTL c).

(** [CreateAccessAndRefreshTokens]: the access id, the refresh value and the
    deadline of the access token. *)
Definition CreateAccessAndRefreshTokens (ctx : Ctx) (request : TokenRequest) (currentRefreshToken : string)
    : go W (string * string * Z) :=
  accessID ← RandomValue;
  value ← RandomValue;
  now ← onow;
  let access := new_access accessID request now in
  let refresh := new_refresh value accessID request now in
  call (λ w,
    let '(s, r) := CreateAccessAndRefreshTokens_locked c access refresh currentRefreshToken
                     (RevocationEpochsFromContext ctx w) (next_random w) (ow_store w) in
    let w := set_store s w in
    (if bool_decide (currentRefreshToken = EmptyString) then set_oentropy (S (ow_entropy w)) w else w, r));;
  orecord "oidc.token" (tq_Subject request) (ot_clientID access) OutcomeOK;;
  mret (accessID, value, ot_expiresAt access).

Definition TokenRequestByRefreshToken (ctx : Ctx) (value : string) : go W RefreshRequest :=
  on_store_ctx ctx (TokenRequestByRefreshToken_locked value).

Definition TerminateSession (userID clientID : string) : go W unit :=
  on_store (λ _ s, (TerminateSession_locked userID clientID s, Ok tt)).

Definition RevokeToken (tokenOrTokenID userID clientID : string) : go W unit :=
  recorded ← atomic (λ w, let '(s, b) := RevokeToken_locked tokenOrTokenID clientID (ow_store w) in (set_store s w, b));
  if recorded : bool then orecord "oidc.revoke" userID clientID OutcomeOK else mret tt.

(** [GetRefreshTokenInfo]: the subject, and the value itself as the identifier
    [RevokeToken] hashes again. *)
Definition GetRefreshTokenInfo (clientID token : string) : go W (string * string) :=
  ask_store (λ _ s,
    match refreshTokens (os_refresh s) !! TokenHash token with
    | None => Err ErrInvalidRefreshToken
    | Some t =>
        if negb (bool_decide (rf_clientID t = clientID)) then Err ErrInvalidRefreshToken
        else Ok (rf_subject t, token)
    end).

(** [GetClientByClientID] and [AuthorizeClientIDSecret]. *)
Definition client_error (err : error) : error :=
  if errors_Is err ErrClientNotFound then ErrInvalidClient EmptyString else err.
Definition GetClientByClientID (clientID : string) : go W ProviderClient :=
  cl ← reads (λ w, reg_Get clientID (ow_clients w));
  match cl with
  | Err err => throw (client_error err)
  | Ok cl => mret (mkProvider cl (Some (oc_registry c)))
  end.
Definition AuthorizeClientIDSecret (clientID clientSecret : string) : go W unit :=
  cl ← reads (λ w, reg_Get clientID (ow_clients w));
  match cl with
  | Err err => throw (client_error err)
  | Ok cl =>
      if bool_decide (cl_Type cl = ClientConfidential) && negb (Authenticate cl clientSecret)
      then throw (ErrInvalidClient "invalid client secret") else mret tt
  end.

(** [SetUserinfoFromToken]: the subject userinfo publishes. *)
Definition SetUserinfoFromToken (tokenID subject : string) : go W string :=
  if bool_decide (tokenID = EmptyString) then throw errNotAnAccessToken
  else
    now ← onow;
    t ← reads (λ w, accessTokens (os_access (ow_store w)) !! TokenHash tokenID);
    match t with
    | Some t =>
        if bool_decide (ot_subject t = subject) && time_Before now (ot_expiresAt t) then mret (ot_subject t)
        else throw errNotAnAccessToken
    | None => throw errNotAnAccessToken
    end.

(** [oidc.IntrospectionResponse], [oidc.FromTime]: whole seconds since 1970,
    from a count that starts in the year 1. *)
Record IntrospectionResponse := mkIntrospection {
  in_Active : bool;
  in_Subject : string;
  in_ClientID : string;
  in_Scope : list string;
  in_Expiration : Z;
}.
Definition unixToInternal : Z := 62135596800.
Definition FromTime (t : Z) : Z := if time_IsZero t then 0%Z else (t / time_Second - unixToInternal)%Z.

(** [SetIntrospectionFromToken]. *)
Definition SetIntrospectionFromToken (tokenID subject : string) : go W IntrospectionResponse :=
  now ← onow;
  t ← reads (λ w, accessTokens (os_access (ow_store w)) !! TokenHash tokenID);
  match t with
  | None => throw ErrTokenNotFound
  | Some t =>
      if negb (time_Before now (ot_expiresAt t)) then throw ErrTokenNotFound
      else mret (mkIntrospection true subject (ot_clientID t) (ot_scopes t) (FromTime (ot_expiresAt t)))
  end.

Definition GetDeviceAuthorizatonState (ctx : Ctx) (clientID deviceCode : string) : go W DeviceAuthorizationState :=
  on_store_ctx ctx (GetDeviceAuthorizatonState_locked clientID deviceCode).

Definition SetAuthTime (id : string) (at_ : Z) : go W unit := on_store (λ _, SetAuthTime_locked id at_).

Definition CompleteLogin (id subject : string) (scopes : list string) : go W unit :=
  r ← on_store (CompleteLogin_locked id subject scopes);
  recordConsent "oidc.consent.approve" subject r.1 r.2 OutcomeOK.

Definition approveDevice (userCode subject : string) (scopes : option (list string)) : go W unit :=
  r ← on_store (approveDevice_locked userCode subject scopes);
  recordConsent "oidc.device.approve" subject r.1 r.2 OutcomeOK.

Definition DenyDevice (userCode subject : string) : go W unit :=
  clientID ← on_store (λ _, DenyDevice_locked userCode);
  orecord "oidc.device.deny" subject clientID OutcomeDenied.

(** [OIDCStore.Grants]. *)
Definition OIDC_Grants (subject : string) : go W (list Grant) :=
  if bool_decide (subject = EmptyString) then throw (New "memory: subject is required")
  else
    byClient ← reads (λ w, Grants_locked subject (ow_clock w) (ow_store w));
    names ← reads (λ w, LookupClientNames (Some (ow_clients w)) (range byClient).*1);
    mret (sort_by g_ClientID (finish_grant names <$> (range byClient).*2)).

(** [OIDCStore.RevokeGrant]. *)
Definition OIDC_RevokeGrant (subject clientID : string) : go W unit :=
  if bool_decide (subject = EmptyString) || bool_decide (clientID = EmptyString)
  then throw (New "memory: subject and client id are required")
  else
    on_store (λ _ s, (RevokeGrant_locked subject clientID s, Ok tt));;
    orecord "oidc.grant.revoke" subject clientID OutcomeOK.

(** The loop of [deviceDisplayDescriptors]. *)
Definition system_required (s : Scope) : Descriptor :=
  mkDescriptor s "系统必需" "此项由授权服务器要求，权限目录中未单独描述。" RiskLow false [].
Fixpoint display_loop (byScope : gmap string Descriptor) (seen : gset string) (scopes : list string) : list Descriptor :=
  match scopes with
  | [] => []
  | s :: scopes' =>
      if bool_decide (s ∈ seen) then display_loop byScope seen scopes'
      else default (system_required s) (byScope !! s) :: display_loop byScope ({[s]} ∪ seen) scopes'
  end.

(** [deviceDisplayDescriptors]. *)
Definition deviceDisplayDescriptors (registry : Registry) (scopes : list string) (clientID : string)
    : result (list Descriptor) :=
  match Resolve registry (SplitProtocolScopes scopes).1 clientID with
  | Err err => Err err
  | Ok resolved =>
      let byScope := foldl (λ m d, <[d_Scope d := d]> m) (∅ : gmap string Descriptor) resolved in
      Ok (display_loop byScope ∅ scopes)
  end.

(** Whether a device authorization is open for a decision. *)
Definition device_open (now : Z) (st : DeviceAuthorizationState) : bool :=
  negb (ds_Done st || ds_Denied st || time_After now (ds_Expires st)).

(** [DescribeDeviceAuthorization]. *)
Definition OIDC_DescribeDevice (userCode : string) : go W DeviceAuthorization :=
  st ← try (ask_store (λ _, DeviceByUserCode userCode));
  now ← onow;
  match st with
  | Err _ => throw ErrDeviceNotFound
  | Ok st =>
      if negb (device_open now st) then throw ErrDeviceNotFound
      else
        client ← reads (λ w, reg_Get (ds_ClientID st) (ow_clients w));
        match client with
        | Err _ => throw ErrDeviceNotFound
        | Ok client =>
            descriptors ← lift_result (deviceDisplayDescriptors (oc_registry c) (ds_Scopes st) (ds_ClientID st));
            mret (mkDeviceAuth (NormalizeUserCode userCode) client descriptors (ds_Expires st))
        end
  end.

(** The scopes an approval grants: narrowed, the protocol scopes put back,
    resolved, explicit consent checked, [offline_access] added. *)
Definition granted_scopes (requested : list string) (clientID : string) (scopes : option (list Scope))
    (explicit : list Scope) : result (list string) :=
  match NarrowScopes requested scopes with
  | Err err => Err err
  | Ok granted =>
      let granted := reattach granted (SplitProtocolScopes requested).2 in
      match Resolve (oc_registry c) (SplitProtocolScopes granted).1 clientID with
      | Err err => Err err
      | Ok descriptors =>
          match RequireExplicitConsent descriptors explicit with
          | Some err => Err err
          | None => Ok (WithOfflineAccess granted)
          end
      end
  end.

(** [DecideDeviceAuthorization]. *)
Definition OIDC_DecideDevice (userCode subject : string) (approve : bool) (scopes : option (list Scope))
    (explicit : list Scope) : go W unit :=
  if bool_decide (subject = EmptyString) then throw (Proto "access_denied" "user is not authenticated")
  else
    st ← try (ask_store (λ _, DeviceByUserCode userCode));
    now ← onow;
    match st with
    | Err _ => throw ErrDeviceNotFound
    | Ok st =>
        if negb (device_open now st) then throw ErrDeviceNotFound
        else if negb approve then DenyDevice userCode subject
        else
          granted ← lift_result (granted_scopes (ds_Scopes st) (ds_ClientID st) scopes explicit);
          approveDevice userCode subject (Some granted)
    end.
End methods.
