(* ===== verification/OidcWf.v ===== *)
(** * The indexes of the OpenID Provider store, and its bulk operations

    The invariant of [OIDCStore]: every index is the map it describes read the
    other way, the two halves of a pair name the same owner, every family has a
    name. Under it the loops of a revocation, which walk an index, do what a scan
    of the whole map would: the closed forms below. *)

From S2P Require Import Prelude GoStd Scope Proc Tokens Client AuditLog Device Service.
From S2P Require Import OidcPolicy OidcTables OidcStore.

Section wf.
Context `{Platform}.

(** The device records and their user codes are one bijection. *)
Definition odevices_wf (T : DeviceTable) : Prop :=
  (∀ h d, devices T !! h = Some d →
     dv_deviceCodeHash d = h ∧ userCodes T !! normalizeUserCode (dv_userCode d) = Some h) ∧
  (∀ k h, userCodes T !! k = Some h →
     ∃ d, devices T !! h = Some d ∧ normalizeUserCode (dv_userCode d) = k).

Record oidc_wf (s : OIDCStore) : Prop := mkWf {
  wf_requests : requests_wf (os_requests s);
  wf_codes : codes_wf (os_codes s);
  wf_access : access_wf (os_access s);
  wf_refresh : refresh_wf (os_refresh s);
  wf_devices : odevices_wf (os_devices s);
  (** The access token a refresh row or a tombstone names has the same owner. *)
  wf_pairs k t a : refreshTokens (os_refresh s) !! k = Some t → accessTokens (os_access s) !! rf_idHash t = Some a →
    ot_clientID a = rf_clientID t ∧ ot_subject a = rf_subject t;
  wf_residues k ts a : refreshTombstones s !! k = Some ts → accessTokens (os_access s) !! ts_idHash ts = Some a →
    ot_clientID a = ts_clientID ts ∧ ot_subject a = ts_subject ts;
  (** Every family has a name. *)
  wf_families k t : refreshTokens (os_refresh s) !! k = Some t → rf_familyID t ≠ EmptyString;
  wf_spent_families k ts : refreshTombstones s !! k = Some ts → ts_familyID ts ≠ EmptyString;
}.

Lemma oidc_wf_empty : oidc_wf emptyOIDCStore.
Proof.
  split; simpl; try (by intros; simplify_map_eq).
  - split; [apply indexed_empty|done].
  - split; [|done]. intros r k. unfold ix_keys. simpl. setoid_rewrite lookup_empty. set_solver.
  - apply indexed_empty.
  - split; [apply indexed_empty|]. intros h k. simpl. setoid_rewrite lookup_empty. naive_solver.
Qed.

(** ** Deletions keep the invariant *)

Lemma drop_access_tokens k s :
  accessTokens (os_access (drop_access k s)) = delete k (accessTokens (os_access s)).
Proof. apply deleteAccess_tokens. Qed.
Lemma drop_refresh_tokens k s :
  refreshTokens (os_refresh (drop_refresh k s)) = delete k (refreshTokens (os_refresh s)).
Proof. apply deleteRefresh_tokens. Qed.
Lemma drop_request_requests k s :
  authRequests (os_requests (drop_request k s)) = delete k (authRequests (os_requests s)).
Proof. apply deleteRequest_requests. Qed.
Lemma drop_code_codes k s : codes (os_codes (drop_code k s)) = delete k (codes (os_codes s)).
Proof. apply deleteCode_codes. Qed.

Lemma oidc_wf_drop_access k s : oidc_wf s → oidc_wf (drop_access k s).
Proof.
  intros [? ? ? ? ? Hp Hr ? ?]. split; [done|done| |done|done| | |done|done].
  - by apply access_wf_delete.
  - intros k' t a Ht. rewrite drop_access_tokens, lookup_delete_Some. naive_solver.
  - intros k' ts a Ht. rewrite drop_access_tokens, lookup_delete_Some. naive_solver.
Qed.

Lemma oidc_wf_drop_refresh k s : oidc_wf s → oidc_wf (drop_refresh k s).
Proof.
  intros [? ? ? ? ? Hp ? Hf ?]. split; [done|done|done| |done| |done| |done].
  - by apply refresh_wf_delete.
  - intros k' t a. rewrite drop_refresh_tokens, lookup_delete_Some. naive_solver.
  - intros k' t. rewrite drop_refresh_tokens, lookup_delete_Some. naive_solver.
Qed.

Lemma oidc_wf_drop_tombstone k s : oidc_wf s → oidc_wf (drop_tombstone k s).
Proof.
  intros [? ? ? ? ? ? Hr ? Hf]. split; [done..| | |].
  - intros k' ts a. simpl. rewrite lookup_delete_Some. naive_solver.
  - done.
  - intros k' ts. simpl. rewrite lookup_delete_Some. naive_solver.
Qed.

Lemma oidc_wf_drop_request k s : oidc_wf s → oidc_wf (drop_request k s).
Proof. intros []. split; try done. by apply requests_wf_delete. Qed.

Lemma oidc_wf_drop_code k s : oidc_wf s → oidc_wf (drop_code k s).
Proof. intros []. split; try done. by apply codes_wf_delete. Qed.

Lemma oidc_wf_set_codes T s : codes_wf T → oidc_wf s → oidc_wf (set_codes T s).
Proof. intros HT []. by split. Qed.
Lemma oidc_wf_set_devices T s : odevices_wf T → oidc_wf s → oidc_wf (set_devices T s).
Proof. intros HT []. by split. Qed.
Lemma oidc_wf_set_epochs m s : oidc_wf s → oidc_wf (set_epochs m s).
Proof. intros []. by split. Qed.
Lemma oidc_wf_set_requests T s : requests_wf T → oidc_wf s → oidc_wf (set_requests T s).
Proof. intros HT []. by split. Qed.
End wf.

Create HintDb oidc discriminated.
#[export] Hint Resolve oidc_wf_drop_access oidc_wf_drop_refresh oidc_wf_drop_tombstone oidc_wf_drop_request
  oidc_wf_drop_code oidc_wf_set_codes oidc_wf_set_devices oidc_wf_set_epochs oidc_wf_set_requests : oidc.

(** ** Closed forms of the loops *)

Section loops.
Context `{Platform} `{MapOrderOk}.

(** A loop over [ks] that tests [P] finds exactly the records [P'] describes. *)
Definition visits {V} (ks : list string) (m : gmap string V) (P P' : V → bool) : Prop :=
  NoDup ks ∧ ∀ k t, m !! k = Some t → (k ∈ ks ∧ P t = true) ↔ P' t = true.

(** The keys the index holds for a subject. *)
Lemma visits_index {V} (sub : V → string) (m : gmap string V) ix u (P : V → bool) :
  indexed sub m ix → u ≠ EmptyString →
  visits (range_set (ix_keys ix u)) m P (λ t, bool_decide (sub t = u) && P t).
Proof.
  intros [Hix _] Hu. split; [apply NoDup_range_set|]. intros k t Hk.
  rewrite elem_of_range_set, Hix, andb_true_iff, bool_decide_eq_true. naive_solver.
Qed.

(** The candidate keys of a filter: those of its subject, or all. *)
Lemma visits_filter {V} (sub : V → string) (m : gmap string V) ix u (P : V → bool) :
  indexed sub m ix → (u ≠ EmptyString → ∀ t, P t = true → sub t = u) →
  visits (if bool_decide (u = EmptyString) then (range m).*1 else range_set (ix_keys ix u)) m P P.
Proof.
  intros [Hix _] HP. case_bool_decide as Hu.
  - split; [apply NoDup_range|]. intros k t Hk. rewrite elem_of_range_fst. naive_solver.
  - split; [apply NoDup_range_set|]. intros k t Hk. rewrite elem_of_range_set, Hix. naive_solver.
Qed.

Lemma visits_closed {V} ks (m : gmap string V) P P' :
  visits ks m P P' →
  filter (λ kv : string * V, ¬ (kv.1 ∈ ks ∧ P kv.2 = true)) m = delete_where P' m ∧
  size (filter (λ kv : string * V, kv.1 ∈ ks ∧ P kv.2 = true) m) = count_where P' m.
Proof.
  intros [_ Hc]. split; [|unfold count_where; f_equal]; apply map_filter_ext; intros k t Hk; simpl;
    rewrite (Hc k t Hk); [by rewrite not_true_iff_false|done].
Qed.

Lemma Matches_subject f cl sub :
  tf_Subject f ≠ EmptyString → Matches f cl sub = true → sub = tf_Subject f.
Proof.
  unfold Matches. intros Hne [_ [Hm|Hm]%orb_true_iff]%andb_true_iff; apply bool_decide_eq_true in Hm; congruence.
Qed.

(** ** Requests *)

(** The pending requests with their deadlines. *)
Definition pending (T : RequestTable) : gmap string (AuthRequest * Z) :=
  map_zip_with pair (authRequests T) (authRequestExpiry T).

Lemma lookup_pending T k a e :
  pending T !! k = Some (a, e) ↔ authRequests T !! k = Some a ∧ authRequestExpiry T !! k = Some e.
Proof.
  unfold pending. rewrite map_lookup_zip_with_Some. split; [intros (?&?&[= <- <-]&?&?)|intros [??]]; eauto 10.
Qed.

Lemma size_pending T : requests_wf T → size (pending T) = size (authRequestExpiry T).
Proof.
  intros [_ Hd]. rewrite <-!size_dom. f_equal. apply set_eq. intros k. split.
  - intros [[a e] [_ He]%lookup_pending]%elem_of_dom. by apply elem_of_dom.
  - intros Hk. assert (Hk' : k ∈ dom (authRequests T)) by by rewrite <-Hd.
    apply elem_of_dom in Hk as [e He], Hk' as [a Ha]. apply elem_of_dom. exists (a, e). by apply lookup_pending.
Qed.

(** What remains of the deadlines is settled by what remains of the requests. *)
Lemma pending_shrink T T' P :
  requests_wf T → requests_wf T' → authRequestExpiry T' ⊆ authRequestExpiry T →
  authRequests T' = delete_where P (authRequests T) → pending T' = delete_where (λ p, P p.1) (pending T).
Proof.
  intros [_ Hd] [_ Hd'] Hsub Heq. apply map_eq. intros k. apply option_eq. intros [a e].
  rewrite lookup_delete_where, !lookup_pending, Heq, lookup_delete_where. simpl. split.
  - intros [[??] He]. split_and!; [done| |done]. by eapply lookup_weaken.
  - intros [[Ha He] HP]. split; [done|].
    assert (Hin : k ∈ dom (authRequestExpiry T')).
    { rewrite Hd', Heq. apply elem_of_dom. exists a. by apply lookup_delete_where. }
    apply elem_of_dom in Hin as [e' He']. rewrite He'. f_equal.
    eapply lookup_weaken in He'; [|done]. congruence.
Qed.

Lemma drop_request_expiry_sub k s :
  authRequestExpiry (os_requests (drop_request k s)) ⊆ authRequestExpiry (os_requests s).
Proof.
  unfold drop_request, deleteRequestLocked. simpl. destruct (_ !! k); simpl; [apply delete_subseteq|done].
Qed.

(** The invariant a loop over requests keeps besides the maps: everything else is
    left alone. *)
Definition only_requests (s s' : OIDCStore) : Prop := s' = set_requests (os_requests s') s.

Lemma purge_requests_frame P ids s :
  oidc_wf s →
  let '(s', purged) := purge_requests P ids s in
  oidc_wf s' ∧ only_requests s s' ∧ authRequestExpiry (os_requests s') ⊆ authRequestExpiry (os_requests s) ∧
  dom (authRequests (os_requests s')) ⊆ dom (authRequests (os_requests s)) ∧
  purged = dom (authRequests (os_requests s)) ∖ dom (authRequests (os_requests s')).
Proof.
  intros Hwf. unfold purge_requests.
  apply (foldl_invariant (λ acc : OIDCStore * gset string, let '(s', purged) := acc in _)).
  { split_and!; [done|by destruct s|done|done|set_solver]. }
  intros [s1 p] id _ (Hwf1 & Hon & Hexp & Hsub & ->). cbn [purge_request_step].
  destruct (authRequests (os_requests s1) !! id) as [a|] eqn:Ea; [|by split_and!]. destruct (P a); [|by split_and!].
  rewrite drop_request_requests, dom_delete_L. assert (id ∈ dom (authRequests (os_requests s1))) by (by apply elem_of_dom).
  split_and!; [auto with oidc|by rewrite Hon|etrans; [apply drop_request_expiry_sub|done]|set_solver|].
  apply set_eq. intros k. destruct (decide (k = id)); set_solver.
Qed.

Lemma purge_requests_spec P P' ids s :
  oidc_wf s → visits ids (authRequests (os_requests s)) P P' →
  let '(s', purged) := purge_requests P ids s in
  oidc_wf s' ∧ only_requests s s' ∧ pending (os_requests s') = delete_where (λ p, P' p.1) (pending (os_requests s)) ∧
  purged = dom (filter (λ kv, P' kv.2 = true) (authRequests (os_requests s))).
Proof.
  intros Hwf Hc. pose proof (purge_requests_frame P ids s Hwf) as Hf.
  assert (Hreq : authRequests (os_requests (purge_requests P ids s).1) = delete_where P' (authRequests (os_requests s))).
  { unfold purge_requests. rewrite (foldl_proj (λ acc, authRequests (os_requests acc.1)) _
      (λ m k, match m !! k with Some v => if P v then delete k m else m | None => m end)).
    - simpl. rewrite foldl_delete_own. by apply visits_closed.
    - intros [s1 p] id. simpl. destruct (_ !! id) as [a|]; [|done]. destruct (P a); [apply drop_request_requests|done]. }
  destruct (purge_requests P ids s) as [s' purged]. destruct Hf as (Hwf' & Hon & Hexp & _ & ->). simpl in Hreq.
  split_and!; [done|done|apply pending_shrink; [apply Hwf|apply Hwf'|done|done]|].
  rewrite Hreq. apply set_eq. intros k. rewrite elem_of_difference, !elem_of_dom. unfold is_Some.
  setoid_rewrite lookup_delete_where. setoid_rewrite map_lookup_filter_Some. simpl. split.
  - intros [[a Ha] Hno]. exists a. split; [done|]. destruct (P' a) eqn:HP; [done|]. destruct Hno. eauto.
  - intros (a & Ha & HP). split; [eauto|]. intros (a' & Ha' & HP'). congruence.
Qed.

(** ** Codes and devices *)

Lemma purge_codes_spec ids s :
  oidc_wf s →
  let '(s', n) := purge_codes ids s in
  let P := λ c, bool_decide (cd_requestID c ∈ ids) in
  oidc_wf s' ∧ s' = set_codes (os_codes s') s ∧
  codes (os_codes s') = delete_where P (codes (os_codes s)) ∧ n = count_where P (codes (os_codes s)).
Proof.
  intros Hwf. unfold purge_codes.
  assert (Hgen : ∀ n s1, oidc_wf s1 →
    let '(s', n') := foldl purge_code_step (s1, n) ids in
    let P := λ c, bool_decide (cd_requestID c ∈ ids) in
    oidc_wf s' ∧ s' = set_codes (os_codes s') s1 ∧
    codes (os_codes s') = delete_where P (codes (os_codes s1)) ∧ n' = n + count_where P (codes (os_codes s1))).
  { clear Hwf s. induction ids as [|id ids IH]; intros n s1 Hwf.
    { assert (Hid : delete_where (λ c, bool_decide (cd_requestID c ∈ [])) (codes (os_codes s1)) = codes (os_codes s1)).
      { apply delete_where_id. intros k c _. apply bool_decide_eq_false. apply not_elem_of_nil. }
      cbn [foldl]. cbv zeta. rewrite Hid, (proj2 (count_where_zero _ _) Hid), Nat.add_0_r.
      split_and!; [done|by destruct s1|done|done]. }
    cbn [foldl purge_code_step]. pose proof (deleteCodesForRequest_spec id (os_codes s1) (wf_codes _ Hwf)) as Hd.
    destruct (deleteCodesForRequestLocked id (os_codes s1)) as [T k]. destruct Hd as (HT & Hcodes & ->).
    specialize (IH (n + count_where (λ c, bool_decide (cd_requestID c = id)) (codes (os_codes s1))) (set_codes T s1)
                  ltac:(auto with oidc)).
    destruct (foldl _ _ ids) as [s' n']. destruct IH as (Hwf' & Hs' & Hc' & ->). simpl in *.
    assert (Hor : ∀ c, bool_decide (cd_requestID c = id) || bool_decide (cd_requestID c ∈ ids) =
                       bool_decide (cd_requestID c ∈ id :: ids)).
    { intros c. rewrite <-bool_decide_or. apply bool_decide_ext. by rewrite elem_of_cons. }
    split_and!; [done|by rewrite Hs'| |].
    - rewrite Hc', Hcodes, delete_where_compose. by apply delete_where_ext.
    - rewrite Hcodes, <-Nat.add_assoc, count_where_compose. f_equal. by apply count_where_ext. }
  exact (Hgen 0 s Hwf).
Qed.

Lemma odevices_wf_drop h d T : odevices_wf T → devices T !! h = Some d → odevices_wf (drop_device h d T).
Proof.
  intros [Hd Hu] Hh. destruct (Hd _ _ Hh) as [_ Hk]. split; simpl.
  - intros h' d' [Hne Hh']%lookup_delete_Some. destruct (Hd _ _ Hh') as [Hid Hk'].
    split; [done|]. rewrite lookup_delete_ne; [done|]. intros Heq. rewrite Heq in Hk. congruence.
  - intros k h' [Hne Hk']%lookup_delete_Some. destruct (Hu _ _ Hk') as (d' & Hh' & Hn).
    exists d'. split; [|done]. rewrite lookup_delete_ne; [done|]. intros <-. congruence.
Qed.

Lemma purge_devices_wf P l T n :
  odevices_wf T → NoDup l.*1 → (∀ h d, (h, d) ∈ l → devices T !! h = Some d) →
  odevices_wf (foldl (purge_device_step P) (T, n) l).1.
Proof.
  revert T n. induction l as [|[h d] l IH]; intros T n HT Hnd Hin; [done|].
  apply NoDup_cons in Hnd as [Hh Hnd]. cbn [foldl purge_device_step fst snd].
  destruct (P d); apply IH; [|done| |done|done|].
  - apply odevices_wf_drop; [done|]. apply Hin. by left.
  - intros h' d' Hd'. simpl. rewrite lookup_delete_ne; [by apply Hin; right|].
    intros <-. apply Hh, list_elem_of_fmap. by exists (h, d').
  - intros h' d' Hd'. apply Hin. by right.
Qed.

Lemma purge_devices_spec P T :
  odevices_wf T →
  let '(T', n) := purge_devices P T in
  odevices_wf T' ∧ devices T' = delete_where P (devices T) ∧ n = count_where P (devices T).
Proof.
  intros HT. pose proof (purge_devices_wf P (range (devices T)) T 0 HT (NoDup_range _)) as Hwf.
  assert (Hdev : devices (purge_devices P T).1 = delete_where P (devices T)).
  { unfold purge_devices. rewrite (foldl_proj (λ acc, devices acc.1) _ (λ m e, if P e.2 then delete e.1 m else m)).
    - apply foldl_delete_entries, range_perm.
    - intros [T1 n] [h d]. simpl. by destruct (P d). }
  assert (Hn : (purge_devices P T).2 = count_where P (devices T)).
  { rewrite (count_where_list P (range (devices T))) by apply range_perm. unfold purge_devices.
    rewrite (foldl_proj snd _ (λ n e, if P e.2 then S n else n)) by (intros [T1 n] [h d]; simpl; by destruct (P d)).
    apply (foldl_count (λ e, P e.2) (range (devices T)) 0). }
  unfold purge_devices in *. destruct (foldl _ _ _) as [T' n]. simpl in *. split_and!; [|done|done].
  apply Hwf. intros h d. apply elem_of_range.
Qed.

(** Requests, their codes and devices, together. *)

(** A code goes with the request that minted it. *)
Definition code_of (P : AuthRequest → bool) (m : gmap string AuthRequest) (c : codeRecord) : bool :=
  match m !! cd_requestID c with Some a => P a | None => false end.

Lemma purge_pending_spec P P' Q ids s :
  oidc_wf s → visits ids (authRequests (os_requests s)) P P' →
  let '(s', (nr, nc, nd)) := purge_pending P Q ids s in
  let Pc := code_of P' (authRequests (os_requests s)) in
  oidc_wf s' ∧ s' = set_devices (os_devices s') (set_codes (os_codes s') (set_requests (os_requests s') s)) ∧
  pending (os_requests s') = delete_where (λ p, P' p.1) (pending (os_requests s)) ∧
  codes (os_codes s') = delete_where Pc (codes (os_codes s)) ∧
  devices (os_devices s') = delete_where Q (devices (os_devices s)) ∧
  nr = count_where P' (authRequests (os_requests s)) ∧ nc = count_where Pc (codes (os_codes s)) ∧
  nd = count_where Q (devices (os_devices s)).
Proof.
  intros Hwf Hc. unfold purge_pending. pose proof (purge_requests_spec P P' ids s Hwf Hc) as Hs1.
  destruct (purge_requests P ids s) as [s1 purged]. destruct Hs1 as (Hwf1 & Hon1 & Hpend & Hpurged).
  pose proof (purge_codes_spec (range_set purged) s1 Hwf1) as Hs2.
  destruct (purge_codes (range_set purged) s1) as [s2 nc]. destruct Hs2 as (Hwf2 & Hon2 & Hcodes & Hnc).
  pose proof (purge_devices_spec Q (os_devices s2) (wf_devices _ Hwf2)) as Hs3.
  destruct (purge_devices Q (os_devices s2)) as [T nd]. destruct Hs3 as (HT & Hdev & Hnd).
  assert (Hext : ∀ c, bool_decide (cd_requestID c ∈ range_set purged) = code_of P' (authRequests (os_requests s)) c).
  { intros c. unfold code_of. rewrite <-(bool_decide_ext _ _ (symmetry (elem_of_range_set purged _))).
    rewrite Hpurged. destruct (authRequests (os_requests s) !! cd_requestID c) as [a|] eqn:Ea.
    - destruct (P' a) eqn:HP; [apply bool_decide_eq_true|apply bool_decide_eq_false]; rewrite elem_of_dom;
        unfold is_Some; setoid_rewrite map_lookup_filter_Some; simpl; [eauto|]. intros (a' & Ha' & HP'). congruence.
    - apply bool_decide_eq_false. rewrite elem_of_dom. intros (a' & [Ha' _]%map_lookup_filter_Some). congruence. }
  assert (Hcs : os_codes s1 = os_codes s) by by rewrite Hon1.
  assert (Hds : os_devices s2 = os_devices s) by by rewrite Hon2, Hon1.
  assert (Hrs : os_requests s2 = os_requests s1) by by rewrite Hon2.
  rewrite Hcs in *. rewrite Hds in *. simpl. split_and!.
  - auto with oidc.
  - rewrite Hon2, Hon1. done.
  - by rewrite Hrs.
  - rewrite Hcodes. by apply delete_where_ext.
  - done.
  - rewrite Hpurged. apply size_dom.
  - rewrite Hnc. by apply count_where_ext.
  - done.
Qed.

(** ** Tokens *)

Lemma access_loop P ks s :
  let s' := foldl (drop_access_if P) s ks in
  s' = set_access (os_access s') s ∧ (oidc_wf s → oidc_wf s') ∧
  accessTokens (os_access s') =
    filter (λ kv, ¬ (kv.1 ∈ ks ∧ P kv.2 = true)) (accessTokens (os_access s)).
Proof.
  cbv zeta. rewrite <-foldl_delete_own. split_and!.
  - apply (foldl_invariant (λ s', s' = set_access (os_access s') s)); [by destruct s|].
    intros s1 k _ Hs1. unfold drop_access_if. destruct (_ !! k) as [t|]; [|done]. destruct (P t); [|done]. by rewrite Hs1.
  - intros Hwf. apply (foldl_invariant oidc_wf); [done|]. intros s1 k _ Hs1. unfold drop_access_if. go_cases; auto with oidc.
  - apply (foldl_proj (λ s, accessTokens (os_access s))). intros s1 k. unfold drop_access_if.
    destruct (_ !! k) as [t|]; [|done]. destruct (P t); [apply drop_access_tokens|done].
Qed.

Lemma refresh_loop P ks s :
  let s' := foldl (drop_refresh_if P) s ks in
  s' = set_refresh (os_refresh s') s ∧ (oidc_wf s → oidc_wf s') ∧
  refreshTokens (os_refresh s') =
    filter (λ kv, ¬ (kv.1 ∈ ks ∧ P kv.2 = true)) (refreshTokens (os_refresh s)).
Proof.
  cbv zeta. rewrite <-foldl_delete_own. split_and!.
  - apply (foldl_invariant (λ s', s' = set_refresh (os_refresh s') s)); [by destruct s|].
    intros s1 k _ Hs1. unfold drop_refresh_if. destruct (_ !! k) as [t|]; [|done]. destruct (P t); [|done]. by rewrite Hs1.
  - intros Hwf. apply (foldl_invariant oidc_wf); [done|]. intros s1 k _ Hs1. unfold drop_refresh_if. go_cases; auto with oidc.
  - apply (foldl_proj (λ s, refreshTokens (os_refresh s))). intros s1 k. unfold drop_refresh_if.
    destruct (_ !! k) as [t|]; [|done]. destruct (P t); [apply drop_refresh_tokens|done].
Qed.

(** The counting loops are those loops with a counter. *)
Lemma count_access_loop P ks s n :
  NoDup ks →
  foldl (count_access P) (s, n) ks =
    (foldl (drop_access_if P) s ks,
     n + size (filter (λ kv, kv.1 ∈ ks ∧ P kv.2 = true) (accessTokens (os_access s)))).
Proof.
  intros Hnd. rewrite (surjective_pairing (foldl (count_access P) _ _)). f_equal.
  - apply (foldl_proj fst). intros [s1 n1] k. unfold drop_access_if. simpl. go_cases; done.
  - pose proof (range_delete_foldl P ks (accessTokens (os_access s)) n Hnd) as Hr.
    pose proof (foldl_proj (λ acc, (accessTokens (os_access acc.1), acc.2)) (count_access P) (range_delete_step P) ks (s, n)) as Hp.
    simpl in Hp. rewrite Hr in Hp. refine (f_equal snd (Hp _)).
    intros [s1 n1] k. unfold range_delete_step. simpl. destruct (_ !! k) as [t|]; [|done].
    destruct (P t); [|done]. simpl. by rewrite deleteAccess_tokens.
Qed.

Lemma count_refresh_loop P ks s n :
  NoDup ks →
  foldl (count_refresh P) (s, n) ks =
    (foldl (drop_refresh_if P) s ks,
     n + size (filter (λ kv, kv.1 ∈ ks ∧ P kv.2 = true) (refreshTokens (os_refresh s)))).
Proof.
  intros Hnd. rewrite (surjective_pairing (foldl (count_refresh P) _ _)). f_equal.
  - apply (foldl_proj fst). intros [s1 n1] k. unfold drop_refresh_if. simpl. go_cases; done.
  - pose proof (range_delete_foldl P ks (refreshTokens (os_refresh s)) n Hnd) as Hr.
    pose proof (foldl_proj (λ acc, (refreshTokens (os_refresh acc.1), acc.2)) (count_refresh P) (range_delete_step P) ks (s, n)) as Hp.
    simpl in Hp. rewrite Hr in Hp. refine (f_equal snd (Hp _)).
    intros [s1 n1] k. unfold range_delete_step. simpl. destruct (_ !! k) as [t|]; [|done].
    destruct (P t); [|done]. simpl. by rewrite deleteRefresh_tokens.
Qed.

Lemma drop_access_absent k s : accessTokens (os_access s) !! k = None → drop_access k s = s.
Proof. intros Hk. unfold drop_access, deleteAccessLocked. rewrite Hk. by destruct s. Qed.

(** Tombstones whose access token is gone already. *)
Lemma tombstone_loop P s :
  (∀ k ts, refreshTombstones s !! k = Some ts → P ts = true → accessTokens (os_access s) !! ts_idHash ts = None) →
  foldl (drop_tombstone_if P) s (range (refreshTombstones s)) =
    set_tombstones (delete_where P (refreshTombstones s)) s.
Proof.
  intros Hno. rewrite <-(foldl_delete_entries P (range (refreshTombstones s))) by apply range_perm.
  assert (Hl : ∀ e, e ∈ range (refreshTombstones s) → P e.2 = true → accessTokens (os_access s) !! ts_idHash e.2 = None).
  { intros [k ts] He%elem_of_range. by eapply Hno. }
  assert (Hgen : ∀ l m, (∀ e, e ∈ l → P e.2 = true → accessTokens (os_access s) !! ts_idHash e.2 = None) →
    foldl (drop_tombstone_if P) (set_tombstones m s) l =
    set_tombstones (foldl (λ m e, if P e.2 then delete e.1 m else m) m l) s).
  { clear Hno Hl. induction l as [|e l IH]; intros m Hl; [done|]. simpl. unfold drop_tombstone_if at 2.
    destruct (P e.2) eqn:HP; [rewrite drop_access_absent by (by apply Hl; [left|])|]; apply IH; intros e' He'; apply Hl; by right. }
  rewrite <-Hgen by done. by destruct s.
Qed.

(** Two owners compared. *)
Definition owned (subject clientID sub cl : string) : bool :=
  bool_decide (sub = subject) && bool_decide (cl = clientID).

(** What a revocation of tokens leaves behind, whatever [R] says of an owner:
    stated once for a grant and for a filter. *)
Definition drop_tokens (R : string → string → bool) (s s' : OIDCStore) : Prop :=
  oidc_wf s' ∧ s' = set_tombstones (refreshTombstones s') (set_refresh (os_refresh s') (set_access (os_access s') s)) ∧
  accessTokens (os_access s') = delete_where (λ t, R (ot_clientID t) (ot_subject t)) (accessTokens (os_access s)) ∧
  refreshTokens (os_refresh s') = delete_where (λ t, R (rf_clientID t) (rf_subject t)) (refreshTokens (os_refresh s)) ∧
  refreshTombstones s' = delete_where (λ t, R (ts_clientID t) (ts_subject t)) (refreshTombstones s).

(** The three loops, given that the first two find what they should. *)
Lemma drop_tokens_loops R PA PR ksA ksR s :
  oidc_wf s →
  visits ksA (accessTokens (os_access s)) PA (λ t, R (ot_clientID t) (ot_subject t)) →
  visits ksR (refreshTokens (os_refresh s)) PR (λ t, R (rf_clientID t) (rf_subject t)) →
  let s2 := foldl (drop_refresh_if PR) (foldl (drop_access_if PA) s ksA) ksR in
  drop_tokens R s (foldl (drop_tombstone_if (λ ts, R (ts_clientID ts) (ts_subject ts))) s2 (range (refreshTombstones s2))).
Proof.
  intros Hwf [HA _]%visits_closed [HR _]%visits_closed. cbv zeta.
  destruct (access_loop PA ksA s) as (Hf1 & Hwf1 & Ha). specialize (Hwf1 Hwf).
  set (s1 := foldl (drop_access_if PA) s ksA) in *.
  destruct (refresh_loop PR ksR s1) as (Hf2 & Hwf2 & Hr). specialize (Hwf2 Hwf1).
  set (s2 := foldl (drop_refresh_if PR) s1 ksR) in *.
  assert (Hr1 : os_refresh s1 = os_refresh s) by by rewrite Hf1.
  assert (Ha2 : os_access s2 = os_access s1) by by rewrite Hf2.
  assert (Ht2 : refreshTombstones s2 = refreshTombstones s) by by rewrite Hf2, Hf1.
  rewrite HA in Ha. rewrite Hr1, HR in Hr.
  rewrite tombstone_loop.
  - split_and!; simpl.
    + destruct Hwf2 as [? ? ? ? ? ? Hres ? Hfam]. split; simpl; try done.
      * intros k ts a [Hk _]%lookup_delete_where. by eapply Hres.
      * intros k ts [Hk _]%lookup_delete_where. by eapply Hfam.
    + rewrite Hf2, Hf1. done.
    + by rewrite Ha2.
    + done.
    + by rewrite Ht2.
  - intros k ts Hk HRt. rewrite Ha2, Ha. apply eq_None_not_Some. intros [a [Hka HRa]%lookup_delete_where].
    rewrite Ht2 in Hk. destruct (wf_residues _ Hwf _ _ _ Hk Hka) as [He1 He2]. rewrite He1, He2 in HRa. congruence.
Qed.

Lemma drop_grant_tokens_spec subject clientID s :
  oidc_wf s → subject ≠ EmptyString →
  drop_tokens (λ cl sub, owned subject clientID sub cl) s (drop_grant_tokens subject clientID s).
Proof.
  intros Hwf Hs. unfold drop_grant_tokens.
  destruct (access_loop (λ t, bool_decide (ot_clientID t = clientID)) (range_set (ix_keys (accessBySubject (os_access s)) subject)) s)
    as (Hf1 & _ & _). set (s1 := foldl _ s _) in Hf1 at 2.
  change (drop_tombstone_if (λ ts, bool_decide (ts_subject ts = subject) && bool_decide (ts_clientID ts = clientID)))
    with (drop_tombstone_if (λ ts, (λ cl sub, owned subject clientID sub cl) (ts_clientID ts) (ts_subject ts))).
  apply (drop_tokens_loops (λ cl sub, owned subject clientID sub cl)); [done| |].
  - pose proof (visits_index ot_subject _ _ subject (λ t, bool_decide (ot_clientID t = clientID)) (wf_access _ Hwf) Hs) as Hx.
    exact Hx.
  - rewrite Hf1.
    pose proof (visits_index rf_subject _ _ subject (λ t, bool_decide (rf_clientID t = clientID)) (proj1 (wf_refresh _ Hwf)) Hs) as Hx.
    exact Hx.
Qed.
End loops.
