(* ===== verification/OidcRevoke.v ===== *)
(** * Bulk revocation in the OpenID Provider store

    The store without its indexes as the abstract state, and the operations that
    remove many records at once as deletions by a predicate on it. Each indexed
    operation is shown to be that deletion: a revocation finds everything a scan
    of every map would find, and nothing else. *)

From S2P Require Import Prelude GoStd Scope Proc Tokens Client AuditLog Device Service.
From S2P Require Import OidcPolicy OidcTables OidcStore OidcWf.

(** ** The abstract state *)

Record OPState := mkOP {
  op_requests : gmap string (AuthRequest * Z);
  op_codes : gmap string codeRecord;
  op_access : gmap string accessToken;
  op_refresh : gmap string refreshToken;
  op_tombstones : gmap string refreshTombstone;
  op_devices : gmap string deviceRecord;
  op_epochs : gmap revocationScope Z;
}.

Definition abs (s : OIDCStore) : OPState :=
  mkOP (pending (os_requests s)) (codes (os_codes s)) (accessTokens (os_access s)) (refreshTokens (os_refresh s))
    (refreshTombstones s) (devices (os_devices s)) (revocationEpochs s).

(** A code belongs to whoever its request belongs to. *)
Definition request_matches (R : string → string → bool) (σ : OPState) (c : codeRecord) : bool :=
  match op_requests σ !! cd_requestID c with
  | Some (a, _) => R (oa_ClientID a) (oa_Subject a)
  | None => false
  end.

(** What is pending for the owners [R] describes goes: requests, the codes they
    minted, device authorizations. *)
Definition spec_purge (R : string → string → bool) (σ : OPState) : OPState :=
  mkOP (delete_where (λ p, R (oa_ClientID p.1) (oa_Subject p.1)) (op_requests σ))
    (delete_where (request_matches R σ) (op_codes σ)) (op_access σ) (op_refresh σ) (op_tombstones σ)
    (delete_where (λ d, R (dv_clientID d) (dv_subject d)) (op_devices σ)) (op_epochs σ).

(** So do their tokens and the residues of spent ones. *)
Definition spec_drop_tokens (R : string → string → bool) (σ : OPState) : OPState :=
  mkOP (op_requests σ) (op_codes σ)
    (delete_where (λ t, R (ot_clientID t) (ot_subject t)) (op_access σ))
    (delete_where (λ t, R (rf_clientID t) (rf_subject t)) (op_refresh σ))
    (delete_where (λ t, R (ts_clientID t) (ts_subject t)) (op_tombstones σ)) (op_devices σ) (op_epochs σ).

(** A revocation: the generations first, then everything. *)
Definition spec_revoke (clientID subject : string) (R : string → string → bool) (σ : OPState) : OPState :=
  let σ := spec_purge R (spec_drop_tokens R σ) in
  mkOP (op_requests σ) (op_codes σ) (op_access σ) (op_refresh σ) (op_tombstones σ) (op_devices σ)
    (bumpRevocationEpochsLocked clientID subject (op_epochs σ)).

(** ** The indexed operations implement it *)

Section refinement.
Context `{Platform} `{MapOrderOk}.

Lemma abs_drop_tokens R s s' : drop_tokens R s s' → oidc_wf s' ∧ abs s' = spec_drop_tokens R (abs s).
Proof.
  intros (Hwf & Hf & Ha & Hr & Ht). split; [done|]. unfold abs, spec_drop_tokens. simpl.
  rewrite Ha, Hr, Ht. by rewrite Hf.
Qed.

Lemma request_matches_code_of R s c :
  requests_wf (os_requests s) →
  code_of (λ a, R (oa_ClientID a) (oa_Subject a)) (authRequests (os_requests s)) c = request_matches R (abs s) c.
Proof.
  intros [_ Hd]. unfold code_of, request_matches. simpl.
  destruct (authRequests (os_requests s) !! cd_requestID c) as [a|] eqn:Ea.
  - assert (Hin : cd_requestID c ∈ dom (authRequestExpiry (os_requests s))) by (rewrite Hd; by apply elem_of_dom).
    apply elem_of_dom in Hin as [e He]. by rewrite (proj2 (lookup_pending _ _ a e)).
  - destruct (pending _ !! _) as [[a e]|] eqn:Ep; [|done]. apply lookup_pending in Ep as [Ep _]. congruence.
Qed.

(** A purge that visits what [R] describes. *)
Lemma abs_purge R P Q ids s :
  oidc_wf s →
  visits ids (authRequests (os_requests s)) P (λ a, R (oa_ClientID a) (oa_Subject a)) →
  (∀ d, Q d = R (dv_clientID d) (dv_subject d)) →
  let '(s', (nr, nc, nd)) := purge_pending P Q ids s in
  oidc_wf s' ∧ abs s' = spec_purge R (abs s) ∧
  nr = count_where (λ a, R (oa_ClientID a) (oa_Subject a)) (authRequests (os_requests s)) ∧
  nc = count_where (request_matches R (abs s)) (op_codes (abs s)) ∧
  nd = count_where (λ d, R (dv_clientID d) (dv_subject d)) (op_devices (abs s)).
Proof.
  intros Hwf Hv HQ. pose proof (purge_pending_spec P _ Q ids s Hwf Hv) as Hp.
  destruct (purge_pending P Q ids s) as [s' [[nr nc] nd]]. destruct Hp as (Hwf' & Hf & Hpend & Hc & Hd & Hnr & Hnc & Hnd).
  assert (Hcode : ∀ k c, codes (os_codes s) !! k = Some c →
    code_of (λ a, R (oa_ClientID a) (oa_Subject a)) (authRequests (os_requests s)) c = request_matches R (abs s) c).
  { intros k c _. apply request_matches_code_of, Hwf. }
  split_and!; [done| |done| |].
  - unfold abs at 1, spec_purge. simpl. rewrite Hpend, Hc, Hd. f_equal; try by rewrite Hf.
    + by apply delete_where_ext.
    + apply delete_where_ext. auto.
  - rewrite Hnc. by apply count_where_ext.
  - rewrite Hnd. apply count_where_ext. auto.
Qed.

(** Bumping the generations commutes with the rest. *)
Lemma abs_set_epochs m s :
  abs (set_epochs m s) =
    mkOP (op_requests (abs s)) (op_codes (abs s)) (op_access (abs s)) (op_refresh (abs s)) (op_tombstones (abs s))
      (op_devices (abs s)) m.
Proof. done. Qed.

Lemma RevokeGrant_spec subject clientID s :
  oidc_wf s → subject ≠ EmptyString →
  let s' := RevokeGrant_locked subject clientID s in
  oidc_wf s' ∧ abs s' = spec_revoke clientID subject (λ cl sub, owned subject clientID sub cl) (abs s).
Proof.
  intros Hwf Hs. cbv zeta. unfold RevokeGrant_locked.
  set (s0 := set_epochs _ s). assert (Hwf0 : oidc_wf s0) by (unfold s0; auto with oidc).
  destruct (abs_drop_tokens _ _ _ (drop_grant_tokens_spec subject clientID s0 Hwf0 Hs)) as [Hwf1 Habs1].
  set (s1 := drop_grant_tokens subject clientID s0) in *.
  pose proof (visits_index oa_Subject _ _ subject (λ a, bool_decide (oa_ClientID a = clientID))
    (proj1 (wf_requests _ Hwf1)) Hs) as Hv.
  pose proof (abs_purge (λ cl sub, owned subject clientID sub cl) _
    (λ d, bool_decide (dv_clientID d = clientID) && bool_decide (dv_subject d = subject)) _ s1 Hwf1 Hv) as Hp.
  destruct (purge_pending _ _ _ s1) as [s' [[nr nc] nd]].
  destruct Hp as (Hwf' & Habs & _). { intros d. apply andb_comm. }
  split; [done|]. simpl. by rewrite Habs, Habs1.
Qed.

Lemma TerminateSession_spec subject clientID s :
  oidc_wf s → subject ≠ EmptyString →
  let s' := TerminateSession_locked subject clientID s in
  oidc_wf s' ∧ abs s' = spec_drop_tokens (λ cl sub, owned subject clientID sub cl) (abs s).
Proof. intros Hwf Hs. by apply abs_drop_tokens, drop_grant_tokens_spec. Qed.

Lemma RevokeTokens_spec f s :
  oidc_wf s →
  let '(s', r) := OIDC_RevokeTokens f s in
  oidc_wf s' ∧ abs s' = spec_revoke (tf_ClientID f) (tf_Subject f) (Matches f) (abs s) ∧
  r = Ok (count_where (λ t, Matches f (ot_clientID t) (ot_subject t)) (op_access (abs s)) +
          count_where (λ t, Matches f (rf_clientID t) (rf_subject t)) (op_refresh (abs s))).
Proof.
  intros Hwf. unfold OIDC_RevokeTokens. set (s0 := set_epochs _ s).
  assert (Hwf0 : oidc_wf s0) by (unfold s0; auto with oidc).
  pose proof (visits_filter ot_subject _ _ (tf_Subject f) (λ t, Matches f (ot_clientID t) (ot_subject t))
    (wf_access _ Hwf0) ltac:(intros ? t; by apply Matches_subject)) as HvA.
  fold (accessKeysLocked (tf_Subject f) (os_access s0)) in HvA.
  rewrite count_access_loop by apply HvA. rewrite (proj2 (visits_closed _ _ _ _ HvA)).
  destruct (access_loop (λ t, Matches f (ot_clientID t) (ot_subject t)) (accessKeysLocked (tf_Subject f) (os_access s0)) s0)
    as (Hf1 & _ & _). set (s1 := foldl _ s0 _) in *.
  assert (Hr1 : os_refresh s1 = os_refresh s0) by by rewrite Hf1.
  pose proof (visits_filter rf_subject _ _ (tf_Subject f) (λ t, Matches f (rf_clientID t) (rf_subject t))
    (proj1 (wf_refresh _ Hwf0)) ltac:(intros ? t; by apply Matches_subject)) as HvR.
  fold (refreshKeysLocked (tf_Subject f) (os_refresh s0)) in HvR. rewrite <-Hr1 in HvR.
  rewrite count_refresh_loop by apply HvR. rewrite (proj2 (visits_closed _ _ _ _ HvR)). rewrite Hr1 in *.
  pose proof (drop_tokens_loops (Matches f) _ _ _ _ s0 Hwf0 HvA HvR) as [Hwf2 Habs2]%abs_drop_tokens.
  fold s1 in Hwf2, Habs2. set (s2 := foldl _ s1 _) in *. set (s3 := foldl _ s2 _) in *.
  pose proof (visits_filter oa_Subject _ _ (tf_Subject f) (λ a, Matches f (oa_ClientID a) (oa_Subject a))
    (proj1 (wf_requests _ Hwf2)) ltac:(intros ? t; by apply Matches_subject)) as HvQ.
  pose proof (abs_purge (Matches f) _ (λ d, Matches f (dv_clientID d) (dv_subject d)) _ s3 Hwf2 HvQ (λ _, eq_refl)) as Hp.
  fold (requestKeysLocked (tf_Subject f) (os_requests s3)) in Hp.
  destruct (purge_pending _ _ _ s3) as [s' [[nr nc] nd]]. destruct Hp as (Hwf' & Habs & _).
  split_and!; [done| |done]. simpl. by rewrite Habs, Habs2.
Qed.

Lemma PurgeSubject_spec subject s :
  oidc_wf s → subject ≠ EmptyString →
  let R := λ _ sub : string, bool_decide (sub = subject) in
  let '(s', r) := PurgeSubject subject s in
  oidc_wf s' ∧ abs s' = spec_purge R (abs s) ∧
  r = Ok (count_where (λ a, bool_decide (oa_Subject a = subject)) (authRequests (os_requests s)) +
          count_where (request_matches R (abs s)) (op_codes (abs s)) +
          count_where (λ d, bool_decide (dv_subject d = subject)) (op_devices (abs s))).
Proof.
  intros Hwf Hs. cbv zeta. unfold PurgeSubject. rewrite bool_decide_false by done.
  pose proof (visits_filter oa_Subject _ _ subject (λ a, bool_decide (oa_Subject a = subject))
    (proj1 (wf_requests _ Hwf)) ltac:(intros ? t; by rewrite bool_decide_eq_true)) as Hv.
  fold (requestKeysLocked subject (os_requests s)) in Hv.
  pose proof (abs_purge (λ _ sub, bool_decide (sub = subject)) _ (λ d, bool_decide (dv_subject d = subject)) _ s Hwf Hv
    (λ _, eq_refl)) as Hp.
  destruct (purge_pending _ _ _ s) as [s' [[nr nc] nd]]. destruct Hp as (Hwf' & Habs & -> & -> & ->). done.
Qed.
End refinement.

(** ** Families *)

Section families.
Context `{Platform} `{MapOrderOk}.

(** The access tokens a family's generations were paired with. *)
Definition family_access (f : string) (s : OIDCStore) (k : string) : Prop :=
  (∃ k' t, refreshTokens (os_refresh s) !! k' = Some t ∧ rf_familyID t = f ∧ rf_idHash t = k) ∨
  (∃ k' ts, refreshTombstones s !! k' = Some ts ∧ ts_familyID ts = f ∧ ts_idHash ts = k).

Lemma revokeFamily_wf f s : oidc_wf s → oidc_wf (revokeFamilyLocked f s).
Proof.
  intros Hwf. unfold revokeFamilyLocked. case_bool_decide; [done|].
  apply (foldl_invariant oidc_wf).
  - apply (foldl_invariant oidc_wf); [done|]. intros s1 e _ Hs1. unfold family_refresh_step. case_bool_decide; auto with oidc.
  - intros s1 e _ Hs1. unfold family_tombstone_step. case_bool_decide; auto with oidc.
Qed.

Lemma revokeFamily_spec f s :
  f ≠ EmptyString →
  let s' := revokeFamilyLocked f s in
  s' = set_tombstones (refreshTombstones s') (set_refresh (os_refresh s') (set_access (os_access s') s)) ∧
  refreshTokens (os_refresh s') = delete_where (λ t, bool_decide (rf_familyID t = f)) (refreshTokens (os_refresh s)) ∧
  refreshTombstones s' = delete_where (λ t, bool_decide (ts_familyID t = f)) (refreshTombstones s) ∧
  ∀ k a, accessTokens (os_access s') !! k = Some a ↔
         accessTokens (os_access s) !! k = Some a ∧ ¬ family_access f s k.
Proof.
  intros Hf. cbv zeta. unfold revokeFamilyLocked. rewrite bool_decide_false by done.
  set (s1 := foldl (family_refresh_step f) s _).
  assert (Hf1 : s1 = set_refresh (os_refresh s1) (set_access (os_access s1) s)).
  { apply (foldl_invariant (λ s1, s1 = set_refresh (os_refresh s1) (set_access (os_access s1) s))); [by destruct s|].
    intros s2 e _ Hs2. unfold family_refresh_step. case_bool_decide; [|done]. by rewrite Hs2. }
  assert (Ht1 : refreshTombstones s1 = refreshTombstones s) by by rewrite Hf1.
  rewrite Ht1. set (s2 := foldl (family_tombstone_step f) s1 _).
  assert (Hf2 : s2 = set_tombstones (refreshTombstones s2) (set_access (os_access s2) s1)).
  { apply (foldl_invariant (λ s2, s2 = set_tombstones (refreshTombstones s2) (set_access (os_access s2) s1))); [by destruct s1|].
    intros s3 e _ Hs3. unfold family_tombstone_step. case_bool_decide; [|done]. by rewrite Hs3. }
  split_and!.
  - rewrite Hf2, Hf1. done.
  - rewrite Hf2. simpl. unfold s1.
    rewrite (foldl_proj (λ s, refreshTokens (os_refresh s)) _
      (λ m e, if bool_decide (rf_familyID e.2 = f) then delete e.1 m else m)).
    + exact (foldl_delete_entries (λ t, bool_decide (rf_familyID t = f)) _ _ (range_perm _ _)).
    + intros s3 e. unfold family_refresh_step. case_bool_decide; [apply drop_refresh_tokens|done].
  - unfold s2.
    rewrite (foldl_proj refreshTombstones _ (λ m e, if bool_decide (ts_familyID e.2 = f) then delete e.1 m else m)).
    + rewrite Ht1. exact (foldl_delete_entries (λ t, bool_decide (ts_familyID t = f)) _ _ (range_perm _ _)).
    + intros s3 e. unfold family_tombstone_step. by case_bool_decide.
  - intros k a. unfold s2.
    rewrite (foldl_proj (λ s, accessTokens (os_access s)) _
      (λ m e, if bool_decide (ts_familyID e.2 = f) then delete (ts_idHash e.2) m else m))
      by (intros s3 e; unfold family_tombstone_step; case_bool_decide; [exact (drop_access_tokens _ s3)|done]).
    rewrite (foldl_delete_Some (λ e, bool_decide (ts_familyID e.2 = f)) (λ e, ts_idHash e.2)). unfold s1.
    rewrite (foldl_proj (λ s, accessTokens (os_access s)) _
      (λ m e, if bool_decide (rf_familyID e.2 = f) then delete (rf_idHash e.2) m else m))
      by (intros s3 e; unfold family_refresh_step; case_bool_decide; [by rewrite drop_access_tokens|done]).
    rewrite (foldl_delete_Some (λ e, bool_decide (rf_familyID e.2 = f)) (λ e, rf_idHash e.2)).
    unfold family_access. split.
    + intros [[Hk Hr] Ht]. split; [done|]. intros [(k' & t & Hk' & Hfam & Hid)|(k' & t & Hk' & Hfam & Hid)].
      * apply (Hr (k', t)); [by apply elem_of_range|by apply bool_decide_eq_true|done].
      * apply (Ht (k', t)); [by apply elem_of_range|by apply bool_decide_eq_true|done].
    + intros [Hk Hno]. split_and!; [done|intros [k' t] Hin%elem_of_range Hb%bool_decide_eq_true Hid; apply Hno..];
        [left|right]; eauto 10.
Qed.
End families.

(** ** One token *)

Section one_token.
Context `{Platform} `{MapOrderOk}.

(** The access token with a hash, the refresh row minted with it, and what is
    left of that row once it was spent. *)
Definition spec_drop_pair (h : string) (σ : OPState) : OPState :=
  mkOP (op_requests σ) (op_codes σ) (delete h (op_access σ))
    (delete_where (λ t, bool_decide (rf_idHash t = h)) (op_refresh σ))
    (delete_where (λ t, bool_decide (ts_idHash t = h)) (op_tombstones σ)) (op_devices σ) (op_epochs σ).

(** A refresh row by its own key. *)
Definition spec_drop_value (h : string) (t : refreshToken) (σ : OPState) : OPState :=
  mkOP (op_requests σ) (op_codes σ) (delete (rf_idHash t) (op_access σ)) (delete h (op_refresh σ))
    (delete h (op_tombstones σ)) (op_devices σ) (op_epochs σ).

(** Which pair or row a presented value names, and whose it is. *)
Inductive presented (σ : OPState) (h : string) : string → OPState → Prop :=
| presented_access t : op_access σ !! h = Some t → presented σ h (ot_clientID t) (spec_drop_pair h σ)
| presented_pair k t : op_access σ !! h = None → op_refresh σ !! k = Some t → rf_idHash t = h →
    presented σ h (rf_clientID t) (spec_drop_pair h σ)
| presented_value t : op_access σ !! h = None → (∀ k t, op_refresh σ !! k = Some t → rf_idHash t ≠ h) →
    op_refresh σ !! h = Some t → presented σ h (rf_clientID t) (spec_drop_value h t σ).

Lemma drop_paired_tombstones_eq h s :
  drop_paired_tombstones h s = set_tombstones (delete_where (λ t, bool_decide (ts_idHash t = h)) (refreshTombstones s)) s.
Proof.
  unfold drop_paired_tombstones. rewrite <-(foldl_delete_entries _ (range (refreshTombstones s))) by apply range_perm.
  generalize (range (refreshTombstones s)). intros l.
  assert (Hgen : ∀ m, foldl (λ s e, if bool_decide (ts_idHash e.2 = h) then drop_tombstone e.1 s else s) (set_tombstones m s) l =
    set_tombstones (foldl (λ m e, if bool_decide (ts_idHash e.2 = h) then delete e.1 m else m) m l) s).
  { induction l as [|e l IH]; intros m; [done|]. simpl. case_bool_decide; apply IH. }
  rewrite <-Hgen. by destruct s.
Qed.

Lemma oidc_wf_drop_paired h s : oidc_wf s → oidc_wf (drop_paired_tombstones h s).
Proof.
  intros Hwf. apply (foldl_invariant oidc_wf); [done|]. intros s1 e _ Hs1. case_bool_decide; auto with oidc.
Qed.

(** The rows minted with an access token, through the index. *)
Lemma id_index_delete s h k t :
  refresh_wf (os_refresh s) → refreshTokens (os_refresh s) !! k = Some t → rf_idHash t = h →
  delete k (refreshTokens (os_refresh s)) =
    delete_where (λ t, bool_decide (rf_idHash t = h)) (refreshTokens (os_refresh s)).
Proof.
  intros [_ Hid] Hk Hh. apply map_eq. intros k'. apply option_eq. intros t'.
  rewrite lookup_delete_Some, lookup_delete_where, bool_decide_eq_false. split.
  - intros [Hne Hk']. split; [done|]. intros Hh'. apply Hne.
    assert (refreshByIDHash (os_refresh s) !! h = Some k) by (apply Hid; eauto).
    assert (refreshByIDHash (os_refresh s) !! h = Some k') by (apply Hid; eauto). congruence.
  - intros [Hk' Hne]. split; [|done]. intros <-. congruence.
Qed.

Lemma id_index_none s h :
  refresh_wf (os_refresh s) → refreshByIDHash (os_refresh s) !! h = None →
  ∀ k t, refreshTokens (os_refresh s) !! k = Some t → rf_idHash t ≠ h.
Proof. intros [_ Hid] Hn k t Hk Hh. assert (refreshByIDHash (os_refresh s) !! h = Some k) by (apply Hid; eauto). congruence. Qed.

(** A value belongs to one client. *)
Lemma presented_fun s h cl cl' σ σ' :
  oidc_wf s → presented (abs s) h cl σ → presented (abs s) h cl' σ' → cl = cl'.
Proof.
  intros Hwf Hp Hp'. destruct Hp as [t Ht|k t Hn Hk Hh|t Hn Hno Ht], Hp' as [t' Ht'|k' t' Hn' Hk' Hh'|t' Hn' Hno' Ht'];
    simpl in *; try congruence; try (exfalso; naive_solver).
  assert (refreshByIDHash (os_refresh s) !! h = Some k) by (apply (wf_refresh _ Hwf); eauto).
  assert (refreshByIDHash (os_refresh s) !! h = Some k') by (apply (wf_refresh _ Hwf); eauto). congruence.
Qed.

(** The pair of an access token's hash, dropped the way [RevokeToken] does. *)
Lemma drop_pair_spec h s :
  oidc_wf s →
  let s1 := drop_access h s in
  let s2 := match refreshByIDHash (os_refresh s) !! h with Some k => drop_refresh k s1 | None => s1 end in
  oidc_wf (drop_paired_tombstones h s2) ∧ abs (drop_paired_tombstones h s2) = spec_drop_pair h (abs s).
Proof.
  intros Hwf. cbv zeta. split.
  { apply oidc_wf_drop_paired. destruct (_ !! h); auto with oidc. }
  rewrite drop_paired_tombstones_eq. unfold spec_drop_pair, abs. destruct (refreshByIDHash _ !! h) as [k|] eqn:Ek; simpl.
  - destruct (proj1 (proj2 (wf_refresh _ Hwf) h k) Ek) as (r & Hr & Hh).
    by rewrite deleteAccess_tokens, deleteRefresh_tokens, (id_index_delete s h k r (wf_refresh _ Hwf) Hr Hh).
  - rewrite deleteAccess_tokens, (delete_where_id _ (refreshTokens _)); [done|].
    intros k r Hr. apply bool_decide_eq_false. by apply (id_index_none s h (wf_refresh _ Hwf) Ek k r).
Qed.

(** [RevokeToken] by the client the value belongs to removes the pair; by
    another client, or on a value nothing answers to, it changes nothing. *)
Lemma RevokeToken_spec v clientID s :
  oidc_wf s →
  let '(s', recorded) := RevokeToken_locked v clientID s in
  oidc_wf s' ∧
  (recorded = true → presented (abs s) (TokenHash v) clientID (abs s')) ∧
  (recorded = false → s' = s ∧ ∀ σ, ¬ presented (abs s) (TokenHash v) clientID σ).
Proof.
  intros Hwf. unfold RevokeToken_locked, refreshKeyByIDHashLocked. set (h := TokenHash v).
  destruct (drop_pair_spec h s Hwf) as [Hwfp Habs]. cbv zeta in *.
  assert (Hother : ∀ σ cl, presented (abs s) h cl σ → cl ≠ clientID → s = s ∧ ∀ σ, ¬ presented (abs s) h clientID σ).
  { intros σ cl Hp Hne. split; [done|]. intros σ' Hp'. apply Hne. by eapply (presented_fun s). }
  destruct (accessTokens (os_access s) !! h) as [t|] eqn:Ea.
  { pose proof (presented_access (abs s) h t Ea) as Hp. case_bool_decide as Hc; cbn [negb].
    - split_and!; [exact Hwfp| |done]. intros _. rewrite <-Habs, Hc in Hp. exact Hp.
    - split_and!; [done|done|eauto]. }
  destruct (refreshByIDHash (os_refresh s) !! h) as [k|] eqn:Ek.
  { destruct (proj1 (proj2 (wf_refresh _ Hwf) h k) Ek) as (r & Hr & Hh). rewrite Hr.
    pose proof (presented_pair (abs s) h k r Ea Hr Hh) as Hp. case_bool_decide as Hc; cbn [negb].
    - split_and!; [exact Hwfp| |done]. intros _. rewrite <-Habs, Hc in Hp. exact Hp.
    - split_and!; [done|done|eauto]. }
  pose proof (id_index_none s h (wf_refresh _ Hwf) Ek) as Hno.
  destruct (refreshTokens (os_refresh s) !! h) as [r|] eqn:Er.
  - pose proof (presented_value (abs s) h r Ea Hno Er) as Hp. case_bool_decide as Hc; cbn [negb].
    + split_and!; [auto with oidc| |done]. intros _. rewrite Hc in Hp.
      enough (Heq : abs (drop_tombstone h (drop_access (rf_idHash r) (drop_refresh h s))) = spec_drop_value h r (abs s))
        by by rewrite Heq.
      unfold spec_drop_value, abs. simpl. by rewrite deleteAccess_tokens, deleteRefresh_tokens.
    + split_and!; [done|done|eauto].
  - split_and!; [done|done|]. intros _. split; [done|]. intros σ [t Ht|k t _ Hk Hh|t _ _ Ht]; simpl in *; [congruence| |congruence].
    by apply (Hno k t).
Qed.
End one_token.
