(* ===== verification/OidcShrink.v ===== *)
(** * Calls that only remove

    Most calls on the OpenID Provider store only delete: whatever they leave was
    there before, and the revocation counters stand still. One lemma per call,
    for the theorems on bounds, on counters and on tokens that must not appear. *)

From S2P Require Import Prelude GoStd Scope Proc Tokens Client AuditLog Device Service.
From S2P Require Import OidcPolicy OidcTables OidcStore OidcWf OidcRevoke.

Record shrinks (s s' : OIDCStore) : Prop := mkShrinks {
  sh_requests : authRequests (os_requests s') ⊆ authRequests (os_requests s);
  sh_codes : codes (os_codes s') ⊆ codes (os_codes s);
  sh_access : accessTokens (os_access s') ⊆ accessTokens (os_access s);
  sh_refresh : refreshTokens (os_refresh s') ⊆ refreshTokens (os_refresh s);
  sh_tombstones : refreshTombstones s' ⊆ refreshTombstones s;
  sh_devices : devices (os_devices s') ⊆ devices (os_devices s);
  sh_epochs : revocationEpochs s' = revocationEpochs s;
}.

#[export] Instance shrinks_preorder : PreOrder shrinks.
Proof.
  split; [by intros s; split|]. intros s1 s2 s3 [] []. split; by etrans.
Qed.

Lemma foldl_shrinks {A} (f : OIDCStore → A → OIDCStore) l s :
  (∀ s x, shrinks s (f s x)) → shrinks s (foldl f s l).
Proof. intros Hf. apply (foldl_invariant (shrinks s)); [done|]. intros s1 x _ Hs. by etrans. Qed.

(** A loop whose state carries more than the store. *)
Lemma foldl_shrinks_fst {A B} (f : OIDCStore * B → A → OIDCStore * B) l s b :
  (∀ acc x, shrinks acc.1 (f acc x).1) → shrinks s (foldl f (s, b) l).1.
Proof. intros Hf. apply (foldl_invariant (λ acc, shrinks s acc.1)); [done|]. intros acc x _ Hs. by etrans. Qed.

Section drops.
Context `{Platform}.

Lemma shrinks_drop_access k s : shrinks s (drop_access k s).
Proof. split; try done. rewrite drop_access_tokens. apply delete_subseteq. Qed.
Lemma shrinks_drop_refresh k s : shrinks s (drop_refresh k s).
Proof. split; try done. rewrite drop_refresh_tokens. apply delete_subseteq. Qed.
Lemma shrinks_drop_request k s : shrinks s (drop_request k s).
Proof. split; try done. rewrite drop_request_requests. apply delete_subseteq. Qed.
Lemma shrinks_drop_code k s : shrinks s (drop_code k s).
Proof. split; try done. rewrite drop_code_codes. apply delete_subseteq. Qed.
Lemma shrinks_drop_tombstone k s : shrinks s (drop_tombstone k s).
Proof. split; try done. apply delete_subseteq. Qed.
Lemma shrinks_set_devices T s : devices T ⊆ devices (os_devices s) → shrinks s (set_devices T s).
Proof. by split. Qed.
End drops.

#[export] Hint Resolve shrinks_drop_access shrinks_drop_refresh shrinks_drop_request shrinks_drop_code
  shrinks_drop_tombstone : oidc.

(** Follows a chain of deletions. *)
Ltac shrink :=
  repeat first [reflexivity | solve [auto with oidc] | etrans; [|solve [auto with oidc]]].

Section calls.
Context `{Platform} `{MapOrder}.

Lemma shrinks_revokeFamily f s : shrinks s (revokeFamilyLocked f s).
Proof.
  unfold revokeFamilyLocked. case_bool_decide; [done|]. cbv zeta.
  etrans; [|apply foldl_shrinks]; [apply foldl_shrinks|]; intros s1 e.
  - unfold family_refresh_step. case_bool_decide; shrink.
  - unfold family_tombstone_step. case_bool_decide; shrink.
Qed.

Lemma shrinks_tombstone_loop P s l : shrinks s (foldl (drop_tombstone_if P) s l).
Proof. apply foldl_shrinks. intros s1 e. unfold drop_tombstone_if. destruct (P e.2); shrink. Qed.

Lemma shrinks_drop_grant_tokens subject clientID s : shrinks s (drop_grant_tokens subject clientID s).
Proof.
  unfold drop_grant_tokens. cbv zeta. etrans; [|apply shrinks_tombstone_loop]. etrans; [|apply foldl_shrinks].
  - apply foldl_shrinks. intros s1 k. unfold drop_access_if. do 2 (case_match; try done). shrink.
  - intros s1 k. unfold drop_refresh_if. do 2 (case_match; try done). shrink.
Qed.

Lemma shrinks_drop_paired h s : shrinks s (drop_paired_tombstones h s).
Proof. apply foldl_shrinks. intros s1 e. case_bool_decide; shrink. Qed.

Lemma shrinks_RevokeToken v clientID s : shrinks s (RevokeToken_locked v clientID s).1.
Proof.
  unfold RevokeToken_locked. cbv zeta. repeat (case_match; cbn [fst]; try done);
    repeat first [done | apply shrinks_drop_paired | etrans; [|apply shrinks_drop_paired]]; shrink.
Qed.

Lemma shrinks_deleteCodes r s : shrinks s (set_codes (deleteCodesForRequestLocked r (os_codes s)).1 s).
Proof.
  split; try done. simpl. unfold deleteCodesForRequestLocked. cbv zeta. destruct (_ =? 0); [done|]. simpl.
  apply (foldl_invariant (λ m, m ⊆ codes (os_codes s))); [done|]. intros m k _ Hm. etrans; [apply delete_subseteq|done].
Qed.

Lemma shrinks_purge_devices P s : shrinks s (set_devices (purge_devices P (os_devices s)).1 s).
Proof.
  apply shrinks_set_devices. unfold purge_devices.
  apply (foldl_invariant (λ acc, devices acc.1 ⊆ devices (os_devices s))); [done|].
  intros [T n] e _ HT. simpl. destruct (P e.2); [|done]. simpl. etrans; [apply delete_subseteq|done].
Qed.

Lemma shrinks_purge_pending P Q ids s : shrinks s (purge_pending P Q ids s).1.
Proof.
  unfold purge_pending. assert (H1 : shrinks s (purge_requests P ids s).1).
  { apply foldl_shrinks_fst. intros [s1 p] id. simpl. do 2 (case_match; try done). simpl. shrink. }
  destruct (purge_requests P ids s) as [s1 purged]. simpl in H1.
  assert (H2 : shrinks s1 (purge_codes (range_set purged) s1).1).
  { apply foldl_shrinks_fst. intros [s2 n] id. simpl. pose proof (shrinks_deleteCodes id s2) as Hd.
    by destruct (deleteCodesForRequestLocked id (os_codes s2)). }
  destruct (purge_codes _ s1) as [s2 n]. simpl in H2. pose proof (shrinks_purge_devices Q s2) as H3.
  destruct (purge_devices Q _) as [T n']. simpl in *. etrans; [exact H1|]. by etrans.
Qed.

Lemma shrinks_PurgeSubject subject s : shrinks s (PurgeSubject subject s).1.
Proof.
  unfold PurgeSubject. case_bool_decide; [done|].
  pose proof (shrinks_purge_pending (λ req, bool_decide (oa_Subject req = subject)) (λ d, bool_decide (dv_subject d = subject))
    (requestKeysLocked subject (os_requests s)) s) as Hp. by destruct (purge_pending _ _ _ s) as [s' [[??] ?]].
Qed.

(** The revocations, from the store with its counters advanced. *)
Lemma shrinks_RevokeGrant subject clientID s :
  shrinks (set_epochs (bumpRevocationEpochsLocked clientID subject (revocationEpochs s)) s) (RevokeGrant_locked subject clientID s).
Proof. unfold RevokeGrant_locked. cbv zeta. etrans; [apply shrinks_drop_grant_tokens|apply shrinks_purge_pending]. Qed.

Lemma shrinks_RevokeTokens f s :
  shrinks (set_epochs (bumpRevocationEpochsLocked (tf_ClientID f) (tf_Subject f) (revocationEpochs s)) s) (OIDC_RevokeTokens f s).1.
Proof.
  unfold OIDC_RevokeTokens. cbv zeta. set (s0 := set_epochs _ s).
  assert (H1 : shrinks s0 (foldl (count_access (λ t, Matches f (ot_clientID t) (ot_subject t))) (s0, 0)
    (accessKeysLocked (tf_Subject f) (os_access s0))).1).
  { apply foldl_shrinks_fst. intros [s1 n] k. simpl. do 2 (case_match; try done). simpl. shrink. }
  destruct (foldl (count_access _) _ _) as [s1 n1]. simpl in H1.
  assert (H2 : shrinks s1 (foldl (count_refresh (λ t, Matches f (rf_clientID t) (rf_subject t))) (s1, n1)
    (refreshKeysLocked (tf_Subject f) (os_refresh s1))).1).
  { apply foldl_shrinks_fst. intros [s2 n] k. simpl. do 2 (case_match; try done). simpl. shrink. }
  destruct (foldl (count_refresh _) _ _) as [s2 n2]. simpl in *.
  etrans; [exact H1|]. etrans; [exact H2|]. etrans; [apply shrinks_tombstone_loop|apply shrinks_purge_pending].
Qed.

Lemma shrinks_sweep {V} (dead : V → bool) drop m acc :
  (∀ k s, shrinks s (drop k s)) → shrinks acc.1 (sweep dead drop m acc).1.
Proof.
  intros Hd. unfold sweep. destruct acc as [s n]. apply foldl_shrinks_fst. intros [s1 n1] e. simpl. destruct (dead e.2); [apply Hd|done].
Qed.

Lemma shrinks_SweepExpired now s : shrinks s (OIDC_SweepExpired now s).1.
Proof.
  unfold OIDC_SweepExpired. cbv zeta. set (acc := sweep _ drop_refresh _ _).
  assert (Ha : shrinks s acc.1).
  { unfold acc. do 3 (etrans; [|apply shrinks_sweep; auto with oidc]). apply (shrinks_sweep _ _ _ (s, 0)); auto with oidc. }
  pose proof (shrinks_sweep (λ ts, negb (time_Before now (ts_expiresAt ts))) drop_tombstone refreshTombstones acc
    ltac:(auto with oidc)) as Ht.
  destruct (sweep _ drop_tombstone _ acc) as [s5 n5]. pose proof (shrinks_purge_devices (λ d, time_After now (dv_expiresAt d)) s5) as Hd.
  unfold purgeExpiredDevicesLocked. destruct (purge_devices _ _) as [T n]. simpl in *. etrans; [exact Ha|]. by etrans.
Qed.
End calls.

#[export] Hint Resolve shrinks_revokeFamily shrinks_drop_grant_tokens shrinks_RevokeToken shrinks_PurgeSubject
  shrinks_SweepExpired shrinks_deleteCodes : oidc.
