(* ===== verification/OidcSteps.v ===== *)
(** * Every call on the OpenID Provider store, as a transition relation

    One rule per critical section that writes, for whatever order the runtime
    walks a map in. A rule that draws a random value takes its hash to be new: a
    256-bit value is, and the code relies on it. A step is labelled with what it
    revokes, or with the hash of the credential it puts into circulation. *)

From S2P Require Import Prelude GoStd Scope Proc Tokens Client AuditLog Device Service.
From S2P Require Import OidcPolicy OidcTables OidcStore OidcWf OidcRevoke.

Inductive label :=
| l_quiet
| l_revoked (clientID subject : string)
| l_saved (code : string)
| l_minted (value : string)
| l_stored (device : string).

Section steps.
Context `{Platform} (c : oidc_config).

(** No row answers to, or remembers, an access token's hash. *)
Definition fresh_access (h : string) (s : OIDCStore) : Prop :=
  accessTokens (os_access s) !! h = None ∧
  (∀ k t, refreshTokens (os_refresh s) !! k = Some t → rf_idHash t ≠ h) ∧
  (∀ k ts, refreshTombstones s !! k = Some ts → ts_idHash ts ≠ h).

(** The two halves [CreateAccessAndRefreshTokens] builds. *)
Definition is_pair (access : accessToken) (refresh : refreshToken) : Prop :=
  rf_idHash refresh = TokenHash (ot_id access) ∧ rf_clientID refresh = ot_clientID access ∧
  rf_subject refresh = ot_subject access.

Definition fresh_pair (access : accessToken) (refresh : refreshToken) (s : OIDCStore) : Prop :=
  fresh_access (TokenHash (ot_id access)) s ∧ refreshTokens (os_refresh s) !! rf_valueHash refresh = None.


Inductive oidc_step : label → OIDCStore → OIDCStore → Prop :=
| st_create_request id req userID now s :
    authRequests (os_requests s) !! id = None →
    oidc_step l_quiet s (CreateAuthRequest_locked c id req userID now s).1
| st_redeem_code code now b s : oidc_step l_quiet s (AuthRequestByCode_locked code now b s).1.1
| st_save_code id code now s : oidc_step (l_saved (TokenHash code)) s (SaveAuthCode_locked c id code now s).1
| st_auth_time id at_ s : oidc_step l_quiet s (SetAuthTime_locked id at_ s).1
| st_login id subject scopes now s : oidc_step l_quiet s (CompleteLogin_locked id subject scopes now s).1
| st_delete_request `{MapOrderOk} id s : oidc_step l_quiet s (DeleteAuthRequest_locked id s).1
| st_access id t s :
    fresh_access (TokenHash id) s → oidc_step l_quiet s (CreateAccessToken_locked id t s)
| st_mint `{MapOrderOk} access refresh current b fam s :
    is_pair access refresh → fresh_pair access refresh s → fam ≠ Ok EmptyString → TokenHash current ≠ EmptyString →
    oidc_step (l_minted (rf_valueHash refresh)) s (CreateAccessAndRefreshTokens_locked c access refresh current b fam s).1
| st_resolve_refresh `{MapOrderOk} value now b s : oidc_step l_quiet s (TokenRequestByRefreshToken_locked value now b s).1.1
| st_terminate `{MapOrderOk} userID clientID s : oidc_step l_quiet s (TerminateSession_locked userID clientID s)
| st_revoke_token `{MapOrderOk} v clientID s : oidc_step l_quiet s (RevokeToken_locked v clientID s).1
| st_revoke_grant `{MapOrderOk} subject clientID s :
    subject ≠ EmptyString → clientID ≠ EmptyString →
    oidc_step (l_revoked clientID subject) s (RevokeGrant_locked subject clientID s)
| st_revoke_tokens `{MapOrderOk} f s : oidc_step (l_revoked (tf_ClientID f) (tf_Subject f)) s (OIDC_RevokeTokens f s).1
| st_purge `{MapOrderOk} subject s : oidc_step l_quiet s (PurgeSubject subject s).1
| st_store_device clientID deviceCode userCode expires scopes now s :
    devices (os_devices s) !! TokenHash deviceCode = None →
    oidc_step (l_stored (TokenHash deviceCode)) s (StoreDeviceAuthorization c clientID deviceCode userCode expires scopes now s).1
| st_poll_device clientID deviceCode now b s :
    oidc_step l_quiet s (GetDeviceAuthorizatonState_locked clientID deviceCode now b s).1.1
| st_approve userCode subject scopes now s : oidc_step l_quiet s (approveDevice_locked userCode subject scopes now s).1
| st_deny userCode s : oidc_step l_quiet s (DenyDevice_locked userCode s).1
| st_sweep `{MapOrderOk} now s : oidc_step l_quiet s (OIDC_SweepExpired now s).1.

(** A run of the store, with the labels of its steps. *)
Inductive oidc_run : OIDCStore → list label → OIDCStore → Prop :=
| run_nil s : oidc_run s [] s
| run_snoc s ls s1 l s2 : oidc_run s ls s1 → oidc_step l s1 s2 → oidc_run s (ls ++ [l]) s2.

(** ** Sweeping *)

(** What a sweep at [now] leaves of the state, and how much it takes. *)
Definition spec_sweep (now : Z) (σ : OPState) : OPState :=
  mkOP (delete_where (λ p, time_After now p.2) (op_requests σ))
    (delete_where (λ cr, time_After now (cd_expiresAt cr)) (op_codes σ))
    (delete_where (λ t, negb (time_Before now (ot_expiresAt t))) (op_access σ))
    (delete_where (λ t, negb (time_Before now (rf_expiresAt t))) (op_refresh σ))
    (delete_where (λ t, negb (time_Before now (ts_expiresAt t))) (op_tombstones σ))
    (delete_where (λ d, time_After now (dv_expiresAt d)) (op_devices σ)) (op_epochs σ).
Definition spec_swept (now : Z) (σ : OPState) : nat :=
  count_where (λ p, time_After now p.2) (op_requests σ) + count_where (λ cr, time_After now (cd_expiresAt cr)) (op_codes σ) +
  count_where (λ t, negb (time_Before now (ot_expiresAt t))) (op_access σ) +
  count_where (λ t, negb (time_Before now (rf_expiresAt t))) (op_refresh σ) +
  count_where (λ t, negb (time_Before now (ts_expiresAt t))) (op_tombstones σ) +
  count_where (λ d, time_After now (dv_expiresAt d)) (op_devices σ).

Section sweeping.
Context `{MapOrderOk}.

(** One loop of the sweep: what [drop] does to the map it walks. *)
Lemma sweep_loop {V} (dead : V → bool) drop (m : OIDCStore → gmap string V) (P : OIDCStore → Prop) s n :
  P s → (∀ k s, P s → P (drop k s) ∧ m (drop k s) = delete k (m s)) →
  let '(s', n') := sweep dead drop m (s, n) in
  P s' ∧ m s' = delete_where dead (m s) ∧ n' = n + count_where dead (m s).
Proof.
  intros HP Hd. unfold sweep.
  assert (Hs : P (foldl (sweep_step dead drop) (s, n) (range (m s))).1 ∧
    m (foldl (sweep_step dead drop) (s, n) (range (m s))).1 =
    foldl (λ m e, if dead e.2 then delete e.1 m else m) (m s) (range (m s))).
  { generalize (range (m s)). intros l. generalize n. clear n. revert s HP.
    induction l as [|e l IH]; intros s HP n; [done|]. simpl. destruct (dead e.2).
    - destruct (Hd e.1 s HP) as [HP' Hm]. destruct (IH (drop e.1 s) HP' (S n)) as [? Heq]. split; [done|]. by rewrite Heq, Hm.
    - by apply IH. }
  assert (Hn : (foldl (sweep_step dead drop) (s, n) (range (m s))).2 = n + count_where dead (m s)).
  { rewrite (count_where_list dead (range (m s))) by apply range_perm.
    rewrite (foldl_proj snd _ (λ n e, if dead e.2 then S n else n)) by (intros [s1 n1] e; simpl; by destruct (dead e.2)).
    apply (foldl_count (λ e, dead e.2)). }
  simpl. destruct (foldl (sweep_step dead drop) (s, n) (range (m s))) as [s' n']. simpl in *.
  destruct Hs as [HP' Hm]. split_and!; [done| |done]. rewrite Hm. apply foldl_delete_entries, range_perm.
Qed.

(** The loop over deadlines takes the requests with them. *)
Lemma sweep_requests_spec dead s n :
  oidc_wf s →
  let '(s', n') := sweep dead drop_request (λ s, authRequestExpiry (os_requests s)) (s, n) in
  oidc_wf s' ∧ only_requests s s' ∧
  pending (os_requests s') = delete_where (λ p, dead p.2) (pending (os_requests s)) ∧
  n' = n + count_where (λ p, dead p.2) (pending (os_requests s)).
Proof.
  intros Hwf.
  pose proof (sweep_loop dead drop_request (λ s, authRequestExpiry (os_requests s))
    (λ s', oidc_wf s' ∧ only_requests s s' ∧ authRequests (os_requests s') ⊆ authRequests (os_requests s)) s n) as Hl.
  destruct (sweep _ _ _ (s, n)) as [s' n']. destruct Hl as ((Hwf' & Hon & Hsub) & Hexp & ->).
  { split_and!; [done|by destruct s|done]. }
  { intros k s1 (Hwf1 & Hon1 & Hsub1). split; [split_and!; [auto with oidc|by rewrite Hon1|]|].
    - rewrite drop_request_requests. etrans; [apply delete_subseteq|done].
    - apply deleteRequest_expiry, Hwf1. }
  destruct (wf_requests _ Hwf) as [_ Hd], (wf_requests _ Hwf') as [_ Hd'].
  assert (Hp : pending (os_requests s') = delete_where (λ p, dead p.2) (pending (os_requests s))).
  { apply map_eq. intros k. apply option_eq. intros [a e]. rewrite lookup_delete_where, !lookup_pending, Hexp, lookup_delete_where.
    simpl. split; [intros (Ha & He & Hde); split_and!; [by eapply lookup_weaken|done..]|].
    intros ((Ha & He) & Hde). split; [|done].
    assert (Hin : k ∈ dom (authRequests (os_requests s'))).
    { rewrite <-Hd', Hexp. apply elem_of_dom. exists e. by apply lookup_delete_where. }
    apply elem_of_dom in Hin as [a' Ha']. rewrite Ha'. eapply lookup_weaken in Ha'; [|done]. congruence. }
  split_and!; [done|done|done|]. f_equal.
  pose proof (count_where_size (λ p, dead p.2) (pending (os_requests s))) as H1s.
  pose proof (count_where_size dead (authRequestExpiry (os_requests s))) as H2s. rewrite <-Hp in H1s. rewrite <-Hexp in H2s.
  rewrite (size_pending _ (wf_requests _ Hwf)) in H1s. rewrite (size_pending _ (wf_requests _ Hwf')) in H1s. lia.
Qed.

Lemma SweepExpired_spec now s :
  oidc_wf s →
  let '(s', n) := OIDC_SweepExpired now s in
  oidc_wf s' ∧ abs s' = spec_sweep now (abs s) ∧ n = spec_swept now (abs s).
Proof.
  intros Hwf. unfold OIDC_SweepExpired.
  pose proof (sweep_requests_spec (λ e, time_After now e) s 0 Hwf) as Hl.
  destruct (sweep _ drop_request _ _) as [s1 n1]. destruct Hl as (Hwf1 & Hf1 & Hp1 & Hn1).
  pose proof (sweep_loop (λ cr, time_After now (cd_expiresAt cr)) drop_code (λ s, codes (os_codes s))
    (λ s', oidc_wf s' ∧ s' = set_codes (os_codes s') s1) s1 n1) as Hl.
  destruct (sweep _ drop_code _ _) as [s2 n2]. destruct Hl as ((Hwf2 & Hf2) & Hp2 & Hn2).
  { split; [done|by destruct s1]. }
  { intros k s' [? Hs']. split; [split; [auto with oidc|by rewrite Hs']|apply drop_code_codes]. }
  pose proof (sweep_loop (λ t, negb (time_Before now (ot_expiresAt t))) drop_access (λ s, accessTokens (os_access s))
    (λ s', oidc_wf s' ∧ s' = set_access (os_access s') s2) s2 n2) as Hl.
  destruct (sweep _ drop_access _ _) as [s3 n3]. destruct Hl as ((Hwf3 & Hf3) & Hp3 & Hn3).
  { split; [done|by destruct s2]. }
  { intros k s' [? Hs']. split; [split; [auto with oidc|by rewrite Hs']|apply drop_access_tokens]. }
  pose proof (sweep_loop (λ t, negb (time_Before now (rf_expiresAt t))) drop_refresh (λ s, refreshTokens (os_refresh s))
    (λ s', oidc_wf s' ∧ s' = set_refresh (os_refresh s') s3) s3 n3) as Hl.
  destruct (sweep _ drop_refresh _ _) as [s4 n4]. destruct Hl as ((Hwf4 & Hf4) & Hp4 & Hn4).
  { split; [done|by destruct s3]. }
  { intros k s' [? Hs']. split; [split; [auto with oidc|by rewrite Hs']|apply drop_refresh_tokens]. }
  pose proof (sweep_loop (λ t, negb (time_Before now (ts_expiresAt t))) drop_tombstone refreshTombstones
    (λ s', oidc_wf s' ∧ s' = set_tombstones (refreshTombstones s') s4) s4 n4) as Hl.
  destruct (sweep _ drop_tombstone _ _) as [s5 n5]. destruct Hl as ((Hwf5 & Hf5) & Hp5 & Hn5).
  { split; [done|by destruct s4]. }
  { intros k s' [? Hs']. split; [split; [auto with oidc|by rewrite Hs']|done]. }
  pose proof (purge_devices_spec (λ d, time_After now (dv_expiresAt d)) (os_devices s5) (wf_devices _ Hwf5)) as Hd.
  unfold purgeExpiredDevicesLocked. destruct (purge_devices _ _) as [T n6]. destruct Hd as (HT & Hp6 & Hn6).
  rewrite Hf1 in Hf2. rewrite Hf2 in Hf3. rewrite Hf3 in Hf4. rewrite Hf4 in Hf5. subst n1 n2 n3 n4 n5 n6.
  split; [by apply oidc_wf_set_devices|]. unfold spec_swept, abs, spec_sweep. simpl.
  rewrite Hp5, Hp6, Hf5 in *. simpl in *. rewrite Hp4, Hp3, Hp2, Hp1, Hf4, Hf3, Hf2, Hf1. simpl. done.
Qed.
End sweeping.

(** ** Writes keep the invariant *)

Lemma oidc_wf_put_access h t s : oidc_wf s → fresh_access h s → oidc_wf (set_access (putAccessLocked h t (os_access s)) s).
Proof.
  intros [? ? ? ? ? Hp Hr ? ?] (Ha & Hnr & Hnt). split; [done|done| |done|done| | |done|done].
  - by apply access_wf_put.
  - simpl. intros k r a Hk [[Heq _]|[_ Hl]]%lookup_insert_Some; [by destruct (Hnr k r)|by eapply Hp].
  - simpl. intros k ts a Hk [[Heq _]|[_ Hl]]%lookup_insert_Some; [by destruct (Hnt k ts)|by eapply Hr].
Qed.

Lemma mint_pair_wf access refresh b familyID s :
  oidc_wf s → is_pair access refresh → fresh_pair access refresh s → familyID ≠ EmptyString →
  oidc_wf (mint_pair access refresh b familyID s).1.
Proof.
  intros Hwf (Hid & Hcl & Hsub) [Hfa Hfv] Hfam. unfold mint_pair. destruct (revocationEpochsLocked _ _ _) as [[g cl] sub].
  destruct (negb _); [done|]. cbn [fst].
  pose proof (oidc_wf_put_access _ access s Hwf Hfa) as Hwf1. destruct Hfa as (Ha & Hnr & Hnt).
  destruct Hwf1 as [? ? ? Hr ? Hp Hres Hf Hsf]. split; [done|done|done| |done| |done| |done].
  - apply refresh_wf_put; [done|done|]. simpl. apply eq_None_not_Some. intros [k (t & Ht & Heq)%(proj2 Hr)].
    apply (Hnr k t); [done|]. by rewrite Heq.
  - simpl. intros k t a [[_ <-]|[_ Hk]]%lookup_insert_Some; [|by eapply Hp]. simpl. rewrite Hid.
    rewrite lookup_insert_eq. intros [= <-]. done.
  - simpl. intros k t [[_ <-]|[_ Hk]]%lookup_insert_Some; [done|by eapply Hf].
Qed.

Lemma evict_sub `{MapOrder} spent m : evict_tombstone c spent m ⊆ m.
Proof.
  unfold evict_tombstone. destruct (m !! spent); [done|]. destruct (_ <=? _)%Z; [|done].
  destruct (range m) as [|[old ?] ?]; [done|]. apply delete_subseteq.
Qed.

(** The spent half of a rotation keeps the pairing: the residue names what the
    row named. *)
Lemma spend_wf `{MapOrderOk} spent familyID held s :
  oidc_wf s → refreshTokens (os_refresh s) !! spent = Some held → familyID ≠ EmptyString →
  oidc_wf (spend c spent familyID held s).
Proof.
  intros [? ? ? ? ? Hp Hres ? Hsf] Hheld Hfam. unfold spend. apply oidc_wf_drop_refresh. split; try done; simpl.
  - intros k ts a [[_ <-]|[_ Hk]]%lookup_insert_Some Ha; [by eapply Hp|].
    eapply lookup_weaken in Hk; [|apply evict_sub]. by eapply Hres.
  - intros k ts [[_ <-]|[_ Hk]]%lookup_insert_Some; [done|].
    eapply lookup_weaken in Hk; [|apply evict_sub]. by eapply Hsf.
Qed.

Lemma spend_fresh `{MapOrderOk} access refresh spent familyID held s :
  fresh_pair access refresh s → refreshTokens (os_refresh s) !! spent = Some held →
  fresh_pair access refresh (spend c spent familyID held s).
Proof.
  intros [(Ha & Hr & Ht) Hv] Hheld. unfold fresh_pair, fresh_access. unfold spend. rewrite drop_refresh_tokens. simpl.
  split_and!; [done| | |].
  - intros k t [_ Hk]%lookup_delete_Some. eauto.
  - intros k ts [[_ <-]|[_ Hk]]%lookup_insert_Some; [by eapply Hr|].
    eapply lookup_weaken in Hk; [|apply evict_sub]. eauto.
  - rewrite lookup_delete_None. by right.
Qed.

Lemma mint_wf `{MapOrderOk} access refresh current b fam s :
  oidc_wf s → is_pair access refresh → fresh_pair access refresh s → fam ≠ Ok EmptyString → TokenHash current ≠ EmptyString →
  oidc_wf (CreateAccessAndRefreshTokens_locked c access refresh current b fam s).1.
Proof.
  intros Hwf Hpair Hfresh Hfam Hcur. unfold CreateAccessAndRefreshTokens_locked. case_bool_decide.
  { destruct fam as [f|]; [|done]. apply mint_pair_wf; try done. congruence. }
  destruct (refreshTokens (os_refresh s) !! TokenHash current) as [held|] eqn:Eh.
  - set (f := if bool_decide _ then _ else _).
    assert (f ≠ EmptyString) by (unfold f; by case_bool_decide).
    apply mint_pair_wf; [by apply spend_wf|done|by apply spend_fresh|done].
  - simpl. destruct (refreshTombstones s !! _); [by apply revokeFamily_wf|done].
Qed.

Lemma odevices_wf_update h d d' T :
  odevices_wf T → devices T !! h = Some d →
  dv_deviceCodeHash d' = dv_deviceCodeHash d → dv_userCode d' = dv_userCode d →
  odevices_wf (mkDeviceTable (<[h := d']> (devices T)) (userCodes T)).
Proof.
  intros [Hd Hu] Hh Hid Hcode. destruct (Hd _ _ Hh) as [Hhd Hk]. split; simpl.
  - intros h1 d1 [[<- <-]|[Hne H1]]%lookup_insert_Some; [by rewrite Hid, Hcode|by apply Hd].
  - intros k h1 Hk1. destruct (Hu _ _ Hk1) as (d1 & H1 & Hn). destruct (decide (h = h1)) as [<-|Hne].
    + exists d'. rewrite lookup_insert_eq, Hcode. simplify_eq. done.
    + exists d1. by rewrite lookup_insert_ne.
Qed.

Lemma odevices_wf_insert h d T :
  odevices_wf T → devices T !! h = None → userCodes T !! normalizeUserCode (dv_userCode d) = None → dv_deviceCodeHash d = h →
  odevices_wf (mkDeviceTable (<[h := d]> (devices T)) (<[normalizeUserCode (dv_userCode d) := h]> (userCodes T))).
Proof.
  intros [Hd Hu] Hh Hc Hid. split; simpl.
  - intros h1 d1 [[<- <-]|[Hne H1]]%lookup_insert_Some; [by rewrite lookup_insert_eq|].
    destruct (Hd _ _ H1) as [? Hk]. split; [done|]. rewrite lookup_insert_ne; [done|congruence].
  - intros k h1 [[<- <-]|[Hne Hk]]%lookup_insert_Some; [exists d; by rewrite lookup_insert_eq|].
    destruct (Hu _ _ Hk) as (d1 & H1 & Hn). exists d1. split; [|done]. rewrite lookup_insert_ne; [done|congruence].
Qed.

Lemma put_device_wf h d d' s :
  oidc_wf s → devices (os_devices s) !! h = Some d →
  dv_deviceCodeHash d' = dv_deviceCodeHash d → dv_userCode d' = dv_userCode d → oidc_wf (put_device h d' s).
Proof. intros Hwf Hd ? ?. apply oidc_wf_set_devices; [|done]. eapply odevices_wf_update; [apply Hwf|done..]. Qed.

Lemma store_device_wf clientID deviceCode userCode expires scopes now s :
  oidc_wf s → devices (os_devices s) !! TokenHash deviceCode = None →
  oidc_wf (StoreDeviceAuthorization c clientID deviceCode userCode expires scopes now s).1.
Proof.
  intros Hwf Hnew. unfold StoreDeviceAuthorization. set (T := os_devices s) in *.
  set (claimed := match userCodes T !! _ with None => _ | Some _ => _ end).
  assert (Hc : ∀ T', claimed = Some T' → odevices_wf T' ∧ devices T' !! TokenHash deviceCode = None ∧
    userCodes T' !! normalizeUserCode userCode = None).
  { intros T'. unfold claimed. destruct (userCodes T !! _) as [h|] eqn:Eu; [|intros [= <-]; split; [apply Hwf|done]].
    destruct (devices T !! h) as [d|] eqn:Ed; [|done]. destruct (time_Before _ _); [done|]. intros [= <-].
    destruct (proj2 (wf_devices _ Hwf) _ _ Eu) as (d' & Hd' & Hn). fold T in Hd'. simplify_eq.
    split_and!; [rewrite <-Hn; by apply odevices_wf_drop, Ed; apply Hwf| |]; simpl.
    - rewrite lookup_delete_None. by right.
    - by rewrite lookup_delete_eq. }
  destruct claimed as [T'|]; [|done]. destruct (Hc T' eq_refl) as (HT & Hn & Hu). clear Hc.
  destruct (bool_decide _ && _); simpl; apply oidc_wf_set_devices; try done. by apply odevices_wf_insert.
Qed.

Lemma poll_device_wf clientID deviceCode now b s :
  oidc_wf s → oidc_wf (GetDeviceAuthorizatonState_locked clientID deviceCode now b s).1.1.
Proof.
  intros Hwf. unfold GetDeviceAuthorizatonState_locked.
  destruct (devices (os_devices s) !! TokenHash deviceCode) as [d|] eqn:Ed; [|done].
  destruct (negb _); [done|]. destruct (_ && _ && _ && _); [by eapply put_device_wf|].
  destruct (dv_done d && negb (dv_denied d)); [|by eapply put_device_wf].
  destruct (revocationEpochsLocked _ _ _) as [[g cl] sub]. simpl. apply oidc_wf_set_devices; [|done].
  by apply odevices_wf_drop, Ed; apply Hwf.
Qed.

Lemma requests_wf_login id a subject scopes now s :
  oidc_wf s → authRequests (os_requests s) !! id = Some a →
  let T := os_requests s in
  requests_wf (mkRequestTable (<[id := completed subject scopes now a]> (authRequests T)) (authRequestExpiry T)
    (if bool_decide (oa_Subject a = subject) then requestBySubject T
     else ix_add (ix_remove (requestBySubject T) (oa_Subject a) id) subject id)).
Proof.
  intros Hwf Ha. cbv zeta. destruct (wf_requests _ Hwf) as [Hix Hd]. split; simpl.
  - case_bool_decide as Hs; [by eapply indexed_update|].
    by apply (indexed_move oa_Subject _ _ id a (completed subject scopes now a)).
  - rewrite dom_insert_L, Hd. apply elem_of_dom_2 in Ha. set_solver.
Qed.

(** ** Each call keeps it *)

Lemma create_request_wf id req userID now s :
  oidc_wf s → authRequests (os_requests s) !! id = None → oidc_wf (CreateAuthRequest_locked c id req userID now s).1.
Proof.
  intros Hwf Hid. unfold CreateAuthRequest_locked. destruct (_ <=? _)%Z; [done|]. apply oidc_wf_set_requests; [|done].
  destruct (wf_requests _ Hwf) as [Hix Hd]. split; simpl; [|by rewrite !dom_insert_L, Hd].
  by apply (indexed_insert oa_Subject _ _ id (new_auth_request id req userID)).
Qed.

Lemma redeem_code_wf code now b s : oidc_wf s → oidc_wf (AuthRequestByCode_locked code now b s).1.1.
Proof.
  intros Hwf. unfold AuthRequestByCode_locked. destruct (codes _ !! _) as [cr|]; [|done]. destruct (negb _); [done|].
  destruct (authRequests _ !! _) as [a|]; [|done]. destruct (revocationEpochsLocked _ _ _) as [[g cl] sub]. simpl. auto with oidc.
Qed.

Lemma save_code_wf id code now s : oidc_wf s → oidc_wf (SaveAuthCode_locked c id code now s).1.
Proof. intros Hwf. apply oidc_wf_set_codes; [|done]. apply codes_wf_put, Hwf. Qed.

Lemma auth_time_wf id at_ s : oidc_wf s → oidc_wf (SetAuthTime_locked id at_ s).1.
Proof.
  intros Hwf. unfold SetAuthTime_locked. destruct (authRequests _ !! id) as [a|] eqn:Ea; [|done].
  apply oidc_wf_set_requests; [|done]. destruct (wf_requests _ Hwf) as [Hix Hd]. split; simpl; [by eapply indexed_update|].
  rewrite dom_insert_L, Hd. apply elem_of_dom_2 in Ea. set_solver.
Qed.

Lemma login_wf id subject scopes now s : oidc_wf s → oidc_wf (CompleteLogin_locked id subject scopes now s).1.
Proof.
  intros Hwf. unfold CompleteLogin_locked. destruct (authRequests _ !! id) as [a|] eqn:Ea; [|done].
  destruct (RequiresReauthentication _ _); [done|]. apply oidc_wf_set_requests; [|done]. by apply requests_wf_login.
Qed.

Lemma delete_request_wf `{MapOrderOk} id s : oidc_wf s → oidc_wf (DeleteAuthRequest_locked id s).1.
Proof.
  intros Hwf. assert (Hwf1 : oidc_wf (drop_request id s)) by auto with oidc.
  pose proof (deleteCodesForRequest_spec id _ (wf_codes _ Hwf1)) as Hc. unfold DeleteAuthRequest_locked. cbv zeta.
  destruct (deleteCodesForRequestLocked id _) as [T n]. apply oidc_wf_set_codes; [apply Hc|done].
Qed.

Lemma resolve_refresh_wf `{MapOrderOk} value now b s : oidc_wf s → oidc_wf (TokenRequestByRefreshToken_locked value now b s).1.1.
Proof.
  intros Hwf. unfold TokenRequestByRefreshToken_locked. cbv zeta. set (refused := match refreshTombstones s !! _ with None => _ | _ => _ end).
  assert (Href : oidc_wf refused.1.1).
  { unfold refused. destruct (refreshTombstones s !! _); [|done]. destruct (time_Before _ _); [by apply revokeFamily_wf|done]. }
  destruct (refreshTokens _ !! _) as [r|]; [|exact Href]. destruct (negb _); [exact Href|].
  by destruct (revocationEpochsLocked _ _ _) as [[g cl] sub].
Qed.

Lemma terminate_wf `{MapOrderOk} userID clientID s : oidc_wf s → oidc_wf (TerminateSession_locked userID clientID s).
Proof.
  intros Hwf. apply (foldl_invariant oidc_wf).
  - apply refresh_loop. by apply access_loop.
  - intros s1 e _ Hs1. unfold drop_tombstone_if. case_match; auto with oidc.
Qed.

Lemma revoke_token_wf `{MapOrderOk} v clientID s : oidc_wf s → oidc_wf (RevokeToken_locked v clientID s).1.
Proof. intros Hwf. pose proof (RevokeToken_spec v clientID s Hwf) as Hr. by destruct (RevokeToken_locked v clientID s), Hr. Qed.

Lemma revoke_tokens_wf `{MapOrderOk} f s : oidc_wf s → oidc_wf (OIDC_RevokeTokens f s).1.
Proof. intros Hwf. pose proof (RevokeTokens_spec f s Hwf) as Hr. by destruct (OIDC_RevokeTokens f s), Hr. Qed.

Lemma purge_subject_wf `{MapOrderOk} subject s : oidc_wf s → oidc_wf (PurgeSubject subject s).1.
Proof.
  intros Hwf. destruct (decide (subject = EmptyString)) as [->|Hs]; [done|].
  pose proof (PurgeSubject_spec subject s Hwf Hs) as Hr. by destruct (PurgeSubject subject s), Hr.
Qed.

Lemma approve_wf userCode subject scopes now s : oidc_wf s → oidc_wf (approveDevice_locked userCode subject scopes now s).1.
Proof.
  intros Hwf. unfold approveDevice_locked. destruct (userCodes _ !! _) as [h|] eqn:Eu; [|done].
  destruct (proj2 (wf_devices _ Hwf) _ _ Eu) as (d & Hd & _). rewrite Hd. simpl.
  destruct (_ || _); [done|]. by eapply put_device_wf.
Qed.

Lemma deny_wf userCode s : oidc_wf s → oidc_wf (DenyDevice_locked userCode s).1.
Proof.
  intros Hwf. unfold DenyDevice_locked. destruct (userCodes _ !! _) as [h|] eqn:Eu; [|done].
  destruct (proj2 (wf_devices _ Hwf) _ _ Eu) as (d & Hd & _). rewrite Hd. simpl.
  destruct (dv_denied d); [done|]. by eapply put_device_wf.
Qed.

Lemma sweep_expired_wf `{MapOrderOk} now s : oidc_wf s → oidc_wf (OIDC_SweepExpired now s).1.
Proof. intros Hwf. pose proof (SweepExpired_spec now s Hwf) as Hr. by destruct (OIDC_SweepExpired now s), Hr. Qed.

Lemma revoke_grant_wf `{MapOrderOk} subject clientID s :
  oidc_wf s → subject ≠ EmptyString → oidc_wf (RevokeGrant_locked subject clientID s).
Proof. intros Hwf Hs. by apply RevokeGrant_spec. Qed.

Hint Resolve create_request_wf redeem_code_wf save_code_wf auth_time_wf login_wf delete_request_wf oidc_wf_put_access mint_wf
  resolve_refresh_wf terminate_wf revoke_token_wf revoke_tokens_wf purge_subject_wf approve_wf deny_wf sweep_expired_wf
  revoke_grant_wf store_device_wf poll_device_wf : oidc.

Lemma oidc_step_wf l s s' : oidc_wf s → oidc_step l s s' → oidc_wf s'.
Proof. intros Hwf Hst. revert Hwf. destruct Hst; intros Hwf; auto with oidc. by apply oidc_wf_put_access. Qed.

Lemma oidc_run_wf ls s s' : oidc_wf s → oidc_run s ls s' → oidc_wf s'.
Proof. intros Hwf Hr. induction Hr; [done|]. eapply oidc_step_wf; [|done]. auto. Qed.
End steps.
