(* ===== verification/OidcFlight.v ===== *)
(** * Revocation against requests in flight

    The protocol library resolves a credential in one store call and mints
    tokens in another; a revocation between the two finds nothing to delete. The
    store counts revocations per scope, the resolving call notes the counters in
    the request's carrier, and the mint compares. This file shows that the
    comparison is enough. *)

From S2P Require Import Prelude GoStd Scope Proc Tokens Client AuditLog Device Service.
From S2P Require Import OidcPolicy OidcTables OidcStore OidcWf OidcRevoke OidcShrink OidcSteps.

(** ** The counters along a run *)

(** Whether a step advances a counter. *)
Definition touches (l : label) (k : revocationScope) : bool :=
  match l with
  | l_revoked clientID subject =>
      if bool_decide (clientID = EmptyString) && bool_decide (subject = EmptyString) then bool_decide (k = revocationGlobalScope)
      else negb (bool_decide (clientID = EmptyString)) && bool_decide (k = (1%Z, clientID)) ||
           negb (bool_decide (subject = EmptyString)) && bool_decide (k = (2%Z, subject))
  | _ => false
  end.

(** How often a run advances it. *)
Definition advances (ls : list label) (k : revocationScope) : nat :=
  length (filter (λ l, touches l k = true) ls).

Lemma epoch_bump k k' m : epoch (bump k m) k' = if bool_decide (k' = k) then wrap64 (epoch m k + 1) else epoch m k'.
Proof.
  unfold epoch, bump. case_bool_decide as Hk; [subst; by rewrite lookup_insert_eq|by rewrite lookup_insert_ne].
Qed.

Lemma epoch_bumpRevocationEpochs clientID subject m k :
  epoch (bumpRevocationEpochsLocked clientID subject m) k =
    if touches (l_revoked clientID subject) k then wrap64 (epoch m k + 1) else epoch m k.
Proof.
  unfold bumpRevocationEpochsLocked, touches.
  destruct (bool_decide (clientID = EmptyString)), (bool_decide (subject = EmptyString)); simpl;
    rewrite ?orb_false_r, ?epoch_bump.
  - case_bool_decide; by subst.
  - case_bool_decide; by subst.
  - case_bool_decide; by subst.
  - destruct (decide (k = (2%Z, subject))) as [->|H2].
    + by rewrite !(bool_decide_true (_ = (2%Z, subject))), orb_true_r, bool_decide_false by done.
    + rewrite (bool_decide_false (k = (2%Z, subject))), orb_false_r by done. case_bool_decide; by subst.
Qed.

Section counters.
Context `{Platform} (c : oidc_config).

Lemma mint_pair_epochs access refresh b familyID s :
  revocationEpochs (mint_pair access refresh b familyID s).1 = revocationEpochs s.
Proof. unfold mint_pair. destruct (revocationEpochsLocked _ _ _) as [[g cl] sub]. by destruct (negb _). Qed.

Lemma mint_epochs `{MapOrder} access refresh current b fam s :
  revocationEpochs (CreateAccessAndRefreshTokens_locked c access refresh current b fam s).1 = revocationEpochs s.
Proof.
  unfold CreateAccessAndRefreshTokens_locked. case_bool_decide; [destruct fam; [apply mint_pair_epochs|done]|].
  cbv zeta. destruct (refreshTokens _ !! _); [by rewrite mint_pair_epochs|]. simpl.
  destruct (refreshTombstones s !! _); [apply sh_epochs; auto with oidc|done].
Qed.

Lemma resolve_refresh_epochs `{MapOrder} value now b s :
  revocationEpochs (TokenRequestByRefreshToken_locked value now b s).1.1 = revocationEpochs s.
Proof.
  unfold TokenRequestByRefreshToken_locked. cbv zeta. set (refused := match refreshTombstones s !! _ with None => _ | _ => _ end).
  assert (Href : revocationEpochs refused.1.1 = revocationEpochs s).
  { unfold refused. destruct (refreshTombstones s !! _); [|done]. destruct (time_Before _ _); [|done].
    cbn [fst]. apply sh_epochs. auto with oidc. }
  destruct (refreshTokens _ !! _) as [r|]; [|exact Href]. destruct (negb _); [exact Href|].
  by destruct (revocationEpochsLocked _ _ _) as [[g cl] sub].
Qed.

(** Only a revocation moves the counters. *)
Lemma oidc_step_epochs l s s' :
  oidc_step c l s s' →
  revocationEpochs s' = match l with
                        | l_revoked clientID subject => bumpRevocationEpochsLocked clientID subject (revocationEpochs s)
                        | _ => revocationEpochs s
                        end.
Proof.
  destruct 1.
  - unfold CreateAuthRequest_locked. by destruct (_ <=? _)%Z.
  - unfold AuthRequestByCode_locked. destruct (codes _ !! _); [|done]. destruct (negb _); [done|].
    destruct (authRequests _ !! _); [|done]. by destruct (revocationEpochsLocked _ _ _) as [[??] ?].
  - done.
  - unfold SetAuthTime_locked. by destruct (authRequests _ !! _).
  - unfold CompleteLogin_locked. destruct (authRequests _ !! _); [|done]. by destruct (RequiresReauthentication _ _).
  - done.
  - done.
  - apply mint_epochs.
  - apply resolve_refresh_epochs.
  - apply sh_epochs. apply shrinks_drop_grant_tokens.
  - apply sh_epochs. auto with oidc.
  - by rewrite (sh_epochs _ _ (shrinks_RevokeGrant subject clientID s)).
  - by rewrite (sh_epochs _ _ (shrinks_RevokeTokens f s)).
  - apply sh_epochs. auto with oidc.
  - unfold StoreDeviceAuthorization. cbv zeta. case_match; [|done]. by destruct (bool_decide _ && _).
  - unfold GetDeviceAuthorizatonState_locked. destruct (devices _ !! _); [|done]. do 2 (case_match; [done|]).
    cbv zeta. case_match; [|done]. by destruct (revocationEpochsLocked _ _ _) as [[??] ?].
  - unfold approveDevice_locked. destruct (userCodes _ !! _); [|done]. simpl. by destruct (_ || _).
  - unfold DenyDevice_locked. destruct (userCodes _ !! _); [|done]. simpl. by destruct (dv_denied _).
  - apply sh_epochs. auto with oidc.
Qed.

(** A counter is an [int64] that a run advances once per step that touches it. *)
Lemma oidc_run_epoch ls s s' k :
  oidc_run c s ls s' →
  (epoch (revocationEpochs s') k `mod` 2 ^ 64 = (epoch (revocationEpochs s) k + Z.of_nat (advances ls k)) `mod` 2 ^ 64)%Z.
Proof.
  induction 1 as [s|s ls s1 l s2 Hr IH Hst]; [by rewrite Z.add_0_r|].
  rewrite (oidc_step_epochs _ _ _ Hst). unfold advances in *. rewrite filter_app, length_app, filter_cons, filter_nil.
  destruct l as [|cl sub|?|?|?]; try (simpl; rewrite IH; f_equal; lia). rewrite epoch_bumpRevocationEpochs.
  destruct (touches (l_revoked cl sub) k); simpl; [|rewrite IH; f_equal; lia].
  unfold wrap64. rewrite Zminus_mod, Zmod_mod, <-Zminus_mod.
  replace (epoch (revocationEpochs s1) k + 1 + 2 ^ 63 - 2 ^ 63)%Z with (epoch (revocationEpochs s1) k + 1)%Z by lia.
  rewrite Zplus_mod, IH, <-Zplus_mod. f_equal. lia.
Qed.

Lemma oidc_run_moved ls s s' k :
  oidc_run c s ls s' → 0 < advances ls k → (Z.of_nat (length ls) < 2 ^ 64)%Z →
  epoch (revocationEpochs s') k ≠ epoch (revocationEpochs s) k.
Proof.
  intros Hr Hpos Hlen Heq. pose proof (oidc_run_epoch ls s s' k Hr) as Hm. rewrite Heq in Hm.
  assert (Hle : advances ls k ≤ length ls) by (unfold advances; apply length_filter).
  set (e := epoch (revocationEpochs s) k) in *. set (n := Z.of_nat (advances ls k)) in *.
  assert (Hn : (0 < n < 2 ^ 64)%Z) by lia.
  assert (Hz : (n `mod` 2 ^ 64 = 0)%Z).
  { replace n with ((e + n) - e)%Z by lia. rewrite Zminus_mod, <-Hm, Z.sub_diag. done. }
  rewrite Z.mod_small in Hz; lia.
Qed.

Lemma advances_pos ls l k : l ∈ ls → touches l k = true → 0 < advances ls k.
Proof.
  intros Hin Ht. unfold advances. destruct (filter _ ls) as [|x r] eqn:E; simpl; [|lia].
  assert (Hf : l ∈ filter (λ l, touches l k = true) ls) by by apply list_elem_of_filter.
  rewrite E in Hf. by apply elem_of_nil in Hf.
Qed.

(** What a revocation's filter matches, one of its counters covers. *)
Lemma matching_touches cl sub clientID subject :
  Matches (mkFilter cl sub) clientID subject = true →
  touches (l_revoked cl sub) revocationGlobalScope = true ∨
  (clientID ≠ EmptyString ∧ touches (l_revoked cl sub) (1%Z, clientID) = true) ∨
  (subject ≠ EmptyString ∧ touches (l_revoked cl sub) (2%Z, subject) = true).
Proof.
  unfold Matches, touches. simpl.
  rewrite andb_true_iff, !orb_true_iff, !bool_decide_eq_true. intros [Hc Hs].
  destruct (decide (cl = EmptyString)) as [->|Hcl], (decide (sub = EmptyString)) as [->|Hsub];
    rewrite ?(bool_decide_true (EmptyString = EmptyString)) by done; simpl.
  - by left.
  - right; right. destruct Hs as [?|<-]; [done|]. split; [done|]. rewrite (bool_decide_false (sub = _)) by done.
    simpl. by rewrite bool_decide_true.
  - right; left. destruct Hc as [?|<-]; [done|]. split; [done|]. rewrite (bool_decide_false (cl = _)) by done.
    simpl. by rewrite bool_decide_true.
  - right; left. destruct Hc as [?|<-]; [done|]. split; [done|]. rewrite (bool_decide_false (cl = _)) by done.
    simpl. by rewrite bool_decide_true.
Qed.

(** The counters a resolving call noted no longer match. *)
Definition noted (clientID subject : string) (m : gmap revocationScope Z) : RevocationEpochs :=
  let '(g, cl, sub) := revocationEpochsLocked clientID subject m in mkEpochs g cl sub true.

Lemma revocation_noticed ls s s' cl sub clientID subject :
  oidc_run c s ls s' → l_revoked cl sub ∈ ls → Matches (mkFilter cl sub) clientID subject = true →
  (Z.of_nat (length ls) < 2 ^ 64)%Z →
  let '(g, k, u) := revocationEpochsLocked clientID subject (revocationEpochs s') in
  RevocationUnchanged (Some (noted clientID subject (revocationEpochs s))) g k u = false.
Proof.
  intros Hr Hin Hm Hlen. unfold noted, revocationEpochsLocked, RevocationUnchanged. simpl.
  assert (Hmoved : ∀ k, touches (l_revoked cl sub) k = true → epoch (revocationEpochs s) k ≠ epoch (revocationEpochs s') k).
  { intros k Hk Heq. eapply (oidc_run_moved ls s s' k); [done|by eapply advances_pos|done|done]. }
  destruct (matching_touches _ _ _ _ Hm) as [Hk|[[Hne Hk]|[Hne Hk]]]; apply Hmoved, Z.eqb_neq in Hk.
  - by rewrite Hk.
  - by rewrite (bool_decide_false (clientID = _)), Hk, andb_false_r by done.
  - by rewrite (bool_decide_false (subject = _)), Hk, andb_false_r by done.
Qed.

(** ** A mint that is refused writes no token *)

Lemma spend_shrinks `{MapOrder} spent familyID held s :
  let s' := spend c spent familyID held s in
  accessTokens (os_access s') ⊆ accessTokens (os_access s) ∧ refreshTokens (os_refresh s') ⊆ refreshTokens (os_refresh s).
Proof. cbv zeta. unfold spend. rewrite drop_refresh_tokens. split; [done|]. apply delete_subseteq. Qed.

Lemma mint_refused `{MapOrder} access refresh current b fam s g k u :
  revocationEpochsLocked (ot_clientID access) (ot_subject access) (revocationEpochs s) = (g, k, u) →
  RevocationUnchanged b g k u = false →
  let '(s', r) := CreateAccessAndRefreshTokens_locked c access refresh current b fam s in
  (∃ e, r = Err e) ∧ accessTokens (os_access s') ⊆ accessTokens (os_access s) ∧
  refreshTokens (os_refresh s') ⊆ refreshTokens (os_refresh s).
Proof.
  intros He Hu.
  assert (Hmint : ∀ f s1, revocationEpochs s1 = revocationEpochs s →
    mint_pair access refresh b f s1 = (s1, Err ErrGrantRevokedInFlight)).
  { intros f s1 Hs1. unfold mint_pair. rewrite Hs1, He. by rewrite Hu. }
  unfold CreateAccessAndRefreshTokens_locked. case_bool_decide.
  { destruct fam as [f|]; [rewrite Hmint by done|]; eauto. }
  cbv zeta. destruct (refreshTokens (os_refresh s) !! _) as [held|].
  - rewrite Hmint by done. split; [eauto|apply spend_shrinks].
  - split; [eauto|]. destruct (refreshTombstones s !! _) as [ts|]; [|done].
    split; [apply sh_access|apply sh_refresh]; auto with oidc.
Qed.
End counters.

(** ** The requests *)

Section flight.
Context `{Platform} `{Entropy} `{MapOrder} {Rg Lg : Type} `{ClientRegistry Rg} `{Logger Lg} (c : oidc_config).
Local Abbreviation W := (OWorld Rg Lg).

(** The calls that resolve a credential on behalf of a request: a code, a live
    refresh token, an approved device code. *)
Inductive resolves (ctx : Ctx) (w : W) : W → string → string → Prop :=
| resolves_code code w' a :
    run (AuthRequestByCode ctx code) w = Some (w', Ok a) → resolves ctx w w' (oa_ClientID a) (oa_Subject a)
| resolves_refresh value w' r :
    run (TokenRequestByRefreshToken ctx value) w = Some (w', Ok r) → resolves ctx w w' (of_ClientID r) (of_Subject r)
| resolves_device clientID deviceCode w' st :
    run (GetDeviceAuthorizatonState ctx clientID deviceCode) w = Some (w', Ok st) → ds_Done st = true → ds_Denied st = false →
    resolves ctx w w' (ds_ClientID st) (ds_Subject st).

(** The carrier of the request holds the counters of the grant. *)
Definition carries (ctx : Ctx) (clientID subject : string) (w : W) : Prop :=
  RevocationEpochsFromContext ctx w = Some (noted clientID subject (revocationEpochs (ow_store w))).

Lemma resolves_carries p w w' clientID subject :
  is_Some (ow_carriers w !! p) → resolves (Some p) w w' clientID subject → carries (Some p) clientID subject w'.
Proof.
  intros [b Hb] Hr.
  assert (Hdone : ∀ s g k u, revocationEpochsLocked clientID subject (revocationEpochs (ow_store w)) = (g, k, u) →
    revocationEpochs s = revocationEpochs (ow_store w) →
    carries (Some p) clientID subject (write_carrier (Some p) (Some (mkEpochs g k u true)) (set_store s w))).
  { intros s g k u He Hs. unfold carries, noted. change (ow_store _) with s. rewrite Hs, He. apply lookup_insert_eq. }
  destruct Hr as [code w' a Hr|value w' r Hr|cl dc w' st Hr Hd Hden].
  - unfold AuthRequestByCode, on_store_ctx in Hr. rewrite run_call in Hr. simpl in Hr. rewrite Hb in Hr.
    unfold AuthRequestByCode_locked in Hr. destruct (codes _ !! _) as [cr|]; [|done]. destruct (negb _); [done|].
    destruct (authRequests _ !! _) as [a'|]; [|done].
    destruct (revocationEpochsLocked _ _ _) as [[g k] u] eqn:Ee. simplify_eq. by apply Hdone.
  - unfold TokenRequestByRefreshToken, on_store_ctx in Hr. rewrite run_call in Hr. simpl in Hr. rewrite Hb in Hr.
    unfold TokenRequestByRefreshToken_locked in Hr. cbv zeta in Hr.
    destruct (refreshTokens _ !! _) as [t|]; [|repeat case_match; simplify_eq].
    destruct (negb _); [repeat case_match; simplify_eq|].
    destruct (revocationEpochsLocked _ _ _) as [[g k] u] eqn:Ee. simplify_eq. by apply Hdone.
  - unfold GetDeviceAuthorizatonState, on_store_ctx in Hr. rewrite run_call in Hr. simpl in Hr. rewrite Hb in Hr.
    unfold GetDeviceAuthorizatonState_locked in Hr. destruct (devices _ !! _) as [d|]; [|done]. destruct (negb _); [done|].
    destruct (_ && _ && _ && _); [done|]. cbv zeta in Hr. destruct (dv_done d && negb (dv_denied d)) eqn:Ed.
    + destruct (revocationEpochsLocked _ _ _) as [[g k] u] eqn:Ee. simplify_eq. apply Hdone; [destruct (negb (time_Before _ _)); exact Ee|done].
    + simplify_eq/=. by rewrite Hd, Hden in Ed.
Qed.

(** C1. No grant outlives its revocation. A request has resolved its credential: it
    redeemed a code, read a live refresh token or collected an approved device
    code. Then, in whatever run of the store up to the mint, a revocation comes
    by that names the grant: the grant itself, its client, its subject or
    everything. The mint is refused and writes no token, whether it is a first
    issuance or a rotation. (The counters are 64 bits wide; fewer than 2^64 calls
    come between the two.) *)
Theorem revoked_in_flight p (w0 w1 w2 : W) ls cl sub clientID subject request current :
  is_Some (ow_carriers w0 !! p) → resolves (Some p) w0 w1 clientID subject →
  oidc_run c (ow_store w1) ls (ow_store w2) → ow_carriers w2 !! p = ow_carriers w1 !! p →
  l_revoked cl sub ∈ ls → Matches (mkFilter cl sub) clientID subject = true → (Z.of_nat (length ls) < 2 ^ 64)%Z →
  ClientIDOf request = clientID → tq_Subject request = subject →
  ∃ (w3 : W) e, run (CreateAccessAndRefreshTokens c (Some p) request current) w2 = Some (w3, Err e) ∧
    accessTokens (os_access (ow_store w3)) ⊆ accessTokens (os_access (ow_store w2)) ∧
    refreshTokens (os_refresh (ow_store w3)) ⊆ refreshTokens (os_refresh (ow_store w2)).
Proof.
  intros Hb Hres Hrun Hcar Hin Hm Hlen Hcl Hsub.
  pose proof (resolves_carries p w0 w1 clientID subject Hb Hres) as Hc1. unfold carries in Hc1. simpl in Hc1.
  pose proof (revocation_noticed c ls _ _ cl sub clientID subject Hrun Hin Hm Hlen) as Hno.
  destruct (revocationEpochsLocked clientID subject (revocationEpochs (ow_store w2))) as [[g k] u] eqn:Ee.
  unfold CreateAccessAndRefreshTokens, RandomValue, onow. run_simpl. unfold next_random. simpl.
  destruct (rand_read (ow_entropy w2) 32); simpl; [|by eauto]. run_simpl. simpl.
  destruct (rand_read (S (ow_entropy w2)) 32); simpl; [|by eauto]. run_simpl. simpl.
  rewrite Hcar, Hc1. subst clientID subject.
  match goal with |- context [CreateAccessAndRefreshTokens_locked c ?a ?r current ?b ?f ?s] =>
    pose proof (mint_refused c a r current b f s g k u Ee Hno) as Hr;
    destruct (CreateAccessAndRefreshTokens_locked c a r current b f s) as [s' res] end.
  destruct Hr as ([e ->] & Ha & Hr). simpl. case_bool_decide; eauto 10.
Qed.
End flight.
