(* ===== verification/OidcRuns.v ===== *)
(** * What holds along every run of the OpenID Provider store

    A credential that was redeemed stays redeemed, and the maps an anonymous
    caller can fill stay within their bounds: both by induction on the run, with
    one case per call. *)

From S2P Require Import Prelude GoStd Scope Proc Tokens Client AuditLog Device Service.
From S2P Require Import OidcPolicy OidcTables OidcStore OidcWf OidcRevoke OidcShrink OidcSteps.

Section runs.
Context `{Platform} (c : oidc_config).

(** ** Credentials come into circulation only where the label says so *)

Record spawns (l : label) (s s' : OIDCStore) : Prop := mkSpawns {
  sp_codes k : is_Some (codes (os_codes s') !! k) → is_Some (codes (os_codes s) !! k) ∨ l = l_saved k;
  sp_refresh k : is_Some (refreshTokens (os_refresh s') !! k) → is_Some (refreshTokens (os_refresh s) !! k) ∨ l = l_minted k;
  sp_devices k : is_Some (devices (os_devices s') !! k) → is_Some (devices (os_devices s) !! k) ∨ l = l_stored k;
}.

Lemma shrinks_spawns l s s' : shrinks s s' → spawns l s s'.
Proof. intros Hs. split; intros k [x Hx]; left; exists x; (eapply lookup_weaken; [exact Hx|apply Hs]). Qed.

Lemma same_spawns l s s' :
  os_codes s' = os_codes s → os_refresh s' = os_refresh s → os_devices s' = os_devices s → spawns l s s'.
Proof. intros Hc Hr Hd. split; intros k; rewrite ?Hc, ?Hr, ?Hd; auto. Qed.

(** A device record rewritten in place. *)
Lemma put_device_spawns l h d s : is_Some (devices (os_devices s) !! h) → spawns l s (put_device h d s).
Proof. intros Hh. split; simpl; auto. intros k. rewrite lookup_insert_is_Some'. naive_solver. Qed.

Lemma mint_pair_spawns access refresh b f s : spawns (l_minted (rf_valueHash refresh)) s (mint_pair access refresh b f s).1.
Proof.
  unfold mint_pair. destruct (revocationEpochsLocked _ _ _) as [[g k] u]. destruct (negb _); [by apply same_spawns|].
  split; simpl; auto. intros k'. rewrite lookup_insert_is_Some'. naive_solver.
Qed.

Lemma spawns_shrinks l s s1 s2 : shrinks s s1 → spawns l s1 s2 → spawns l s s2.
Proof.
  intros Hs Hp. split; intros k Hk.
  - destruct (sp_codes _ _ _ Hp k Hk) as [[x Hx]|]; [left; exists x; eapply lookup_weaken; [exact Hx|apply Hs]|auto].
  - destruct (sp_refresh _ _ _ Hp k Hk) as [[x Hx]|]; [left; exists x; eapply lookup_weaken; [exact Hx|apply Hs]|auto].
  - destruct (sp_devices _ _ _ Hp k Hk) as [[x Hx]|]; [left; exists x; eapply lookup_weaken; [exact Hx|apply Hs]|auto].
Qed.

Lemma spend_spawns `{MapOrder} access refresh b spent familyID held s :
  spawns (l_minted (rf_valueHash refresh)) s (mint_pair access refresh b familyID (spend c spent familyID held s)).1.
Proof.
  destruct (mint_pair_spawns access refresh b familyID (spend c spent familyID held s)) as [H1 H2 H3]. split; [apply H1| |apply H3].
  intros k [[x Hx]|]%H2; [|auto]. left. exists x. unfold spend in Hx. rewrite drop_refresh_tokens in Hx.
  by apply lookup_delete_Some in Hx as [_ Hx].
Qed.

Lemma mint_spawns `{MapOrder} access refresh current b fam s :
  spawns (l_minted (rf_valueHash refresh)) s (CreateAccessAndRefreshTokens_locked c access refresh current b fam s).1.
Proof.
  unfold CreateAccessAndRefreshTokens_locked. case_bool_decide.
  { destruct fam; [apply mint_pair_spawns|by apply same_spawns]. }
  cbv zeta. destruct (refreshTokens (os_refresh s) !! _); [apply spend_spawns|]. cbn [fst].
  apply shrinks_spawns. destruct (refreshTombstones s !! _); shrink.
Qed.

Lemma store_device_spawns clientID deviceCode userCode expires scopes now s :
  spawns (l_stored (TokenHash deviceCode)) s (StoreDeviceAuthorization c clientID deviceCode userCode expires scopes now s).1.
Proof.
  unfold StoreDeviceAuthorization. cbv zeta. set (claimed := match userCodes _ !! _ with None => _ | Some _ => _ end).
  assert (Hc : ∀ T, claimed = Some T → devices T ⊆ devices (os_devices s)).
  { intros T. unfold claimed. repeat case_match; intros; simplify_eq; [apply delete_subseteq|done]. }
  destruct claimed as [T|]; [|by apply same_spawns]. specialize (Hc T eq_refl).
  destruct (bool_decide _ && _); cbn [fst]; [by apply shrinks_spawns, shrinks_set_devices|].
  split; simpl; auto. intros k. rewrite lookup_insert_is_Some'. intros [->|[x Hx]]; [auto|]. left. exists x.
  by eapply lookup_weaken.
Qed.

Lemma poll_device_spawns clientID deviceCode now b s :
  spawns l_quiet s (GetDeviceAuthorizatonState_locked clientID deviceCode now b s).1.1.
Proof.
  unfold GetDeviceAuthorizatonState_locked. destruct (devices (os_devices s) !! TokenHash deviceCode) as [d|] eqn:Ed; [|by apply same_spawns].
  destruct (negb _); [by apply same_spawns|]. destruct (_ && _ && _ && _); [apply put_device_spawns; eauto|].
  destruct (_ && _); [|apply put_device_spawns; eauto]. destruct (revocationEpochsLocked _ _ _) as [[g k] u]. cbn [fst].
  apply shrinks_spawns, shrinks_set_devices, delete_subseteq.
Qed.

Lemma shrinks_redeem code now b s : shrinks s (AuthRequestByCode_locked code now b s).1.1.
Proof.
  unfold AuthRequestByCode_locked. destruct (codes _ !! _); [|done]. destruct (negb _); [done|].
  destruct (authRequests _ !! _); [|done]. destruct (revocationEpochsLocked _ _ _) as [[g k] u]. cbn [fst]. shrink.
Qed.

Lemma shrinks_resolve `{MapOrder} value now b s : shrinks s (TokenRequestByRefreshToken_locked value now b s).1.1.
Proof.
  unfold TokenRequestByRefreshToken_locked. cbv zeta. set (refused := match refreshTombstones s !! _ with None => _ | _ => _ end).
  assert (Href : shrinks s refused.1.1).
  { unfold refused. destruct (refreshTombstones s !! _); [|done]. destruct (time_Before _ _); [|done]. cbn [fst]. shrink. }
  destruct (refreshTokens _ !! _) as [r|]; [|exact Href]. destruct (negb _); [exact Href|].
  by destruct (revocationEpochsLocked _ _ _) as [[g cl] sub].
Qed.

Lemma shrinks_delete_request `{MapOrder} id s : shrinks s (DeleteAuthRequest_locked id s).1.
Proof. unfold DeleteAuthRequest_locked. cbv zeta. cbn [fst]. etrans; [|apply shrinks_deleteCodes]. shrink. Qed.

Lemma device_known userCode h s :
  oidc_wf s → userCodes (os_devices s) !! normalizeUserCode userCode = Some h → is_Some (devices (os_devices s) !! h).
Proof. intros Hwf Hu. destruct (proj2 (wf_devices _ Hwf) _ _ Hu) as (d & Hd & _). eauto. Qed.

Lemma set_epochs_spawns l m s s' : shrinks (set_epochs m s) s' → spawns l s s'.
Proof. intros Hs. by destruct (shrinks_spawns l _ _ Hs). Qed.

Lemma oidc_step_spawns l s s' : oidc_wf s → oidc_step c l s s' → spawns l s s'.
Proof.
  intros Hwf. destruct 1.
  - unfold CreateAuthRequest_locked. destruct (_ <=? _)%Z; by apply same_spawns.
  - apply shrinks_spawns, shrinks_redeem.
  - split; simpl; auto. intros k. rewrite lookup_insert_is_Some'. naive_solver.
  - unfold SetAuthTime_locked. destruct (authRequests _ !! _); by apply same_spawns.
  - unfold CompleteLogin_locked. destruct (authRequests _ !! _); [|by apply same_spawns].
    destruct (RequiresReauthentication _ _); by apply same_spawns.
  - apply shrinks_spawns, shrinks_delete_request.
  - by apply same_spawns.
  - apply mint_spawns.
  - apply shrinks_spawns, shrinks_resolve.
  - apply shrinks_spawns, shrinks_drop_grant_tokens.
  - apply shrinks_spawns, shrinks_RevokeToken.
  - eapply set_epochs_spawns, shrinks_RevokeGrant.
  - eapply set_epochs_spawns, shrinks_RevokeTokens.
  - apply shrinks_spawns, shrinks_PurgeSubject.
  - apply store_device_spawns.
  - apply poll_device_spawns.
  - unfold approveDevice_locked. destruct (userCodes _ !! _) eqn:Eu; [|by apply same_spawns]. cbv zeta.
    destruct (_ || _); [by apply same_spawns|]. by eapply put_device_spawns, device_known.
  - unfold DenyDevice_locked. destruct (userCodes _ !! _) eqn:Eu; [|by apply same_spawns]. cbv zeta.
    destruct (dv_denied _); [by apply same_spawns|]. by eapply put_device_spawns, device_known.
  - apply shrinks_spawns, shrinks_SweepExpired.
Qed.

(** What is gone stays gone until its value comes into circulation again. *)
Lemma oidc_run_gone {V} (m : OIDCStore → gmap string V) (birth : string → label) k ls s s' :
  (∀ l s s', spawns l s s' → is_Some (m s' !! k) → is_Some (m s !! k) ∨ l = birth k) →
  oidc_wf s → oidc_run c s ls s' → m s !! k = None → birth k ∉ ls → m s' !! k = None.
Proof.
  intros Hm Hwf Hr Hk. induction Hr as [s|s ls s1 l s2 Hr IH Hst]; [done|]. intros [Hn Hl]%not_elem_of_app.
  specialize (IH Hwf Hk Hn). destruct (m s2 !! k) as [x|] eqn:Ex; [|done].
  assert (Hsp : spawns l s1 s2) by (apply oidc_step_spawns; [by eapply oidc_run_wf|done]).
  destruct (Hm l s1 s2 Hsp) as [[y Hy]| ->]; [by eauto|congruence|]. by destruct Hl; apply list_elem_of_singleton.
Qed.

(** ** Refresh tokens and their residues do not change *)

(** What a rotation leaves of a row. *)
Definition residue (k : string) (held : refreshToken) : refreshTombstone :=
  mkTombstone (if bool_decide (rf_familyID held = EmptyString) then k else rf_familyID held)
    (rf_idHash held) (rf_clientID held) (rf_subject held) (rf_expiresAt held).

(** A row is an old one or was minted by this step; a residue is an old one or
    that of a row. *)
Record inherits (l : label) (s s' : OIDCStore) : Prop := mkInherits {
  in_refresh k t : refreshTokens (os_refresh s') !! k = Some t →
    refreshTokens (os_refresh s) !! k = Some t ∨ l = l_minted k;
  in_spent k ts : refreshTombstones s' !! k = Some ts → refreshTombstones s !! k = Some ts ∨
    ∃ held, refreshTokens (os_refresh s) !! k = Some held ∧ ts = residue k held;
}.

Lemma shrinks_inherits l s s' : shrinks s s' → inherits l s s'.
Proof. intros Hs. split; intros k x Hx; left; (eapply lookup_weaken; [exact Hx|apply Hs]). Qed.
Lemma same_inherits l s s' :
  os_refresh s' = os_refresh s → refreshTombstones s' = refreshTombstones s → inherits l s s'.
Proof. intros Hr Ht. split; intros k x; rewrite ?Hr, ?Ht; auto. Qed.
Lemma set_epochs_inherits l m s s' : shrinks (set_epochs m s) s' → inherits l s s'.
Proof. intros Hs. by destruct (shrinks_inherits l _ _ Hs). Qed.

Lemma mint_pair_inherits access refresh b f s : inherits (l_minted (rf_valueHash refresh)) s (mint_pair access refresh b f s).1.
Proof.
  unfold mint_pair. destruct (revocationEpochsLocked _ _ _) as [[g k] u]. destruct (negb _); [by apply same_inherits|].
  split; simpl; auto. intros k' t [[<- _]|[_ ?]]%lookup_insert_Some; auto.
Qed.

Lemma spend_inherits `{MapOrder} access refresh b spent held s :
  refreshTokens (os_refresh s) !! spent = Some held →
  let f := if bool_decide (rf_familyID held = EmptyString) then spent else rf_familyID held in
  inherits (l_minted (rf_valueHash refresh)) s (mint_pair access refresh b f (spend c spent f held s)).1.
Proof.
  intros Hh f. destruct (mint_pair_inherits access refresh b f (spend c spent f held s)) as [H1 H2]. split.
  - intros k t [Ht| ->]%H1; [|auto]. left. unfold spend in Ht. rewrite drop_refresh_tokens in Ht.
    by apply lookup_delete_Some in Ht as [_ Ht].
  - assert (Hres : ∀ k ts, refreshTombstones (spend c spent f held s) !! k = Some ts → refreshTombstones s !! k = Some ts ∨
      ∃ held, refreshTokens (os_refresh s) !! k = Some held ∧ ts = residue k held).
    { intros k ts. change (refreshTombstones (spend c spent f held s)) with
        (<[spent := residue spent held]> (evict_tombstone c spent (refreshTombstones s))).
      intros [[<- <-]|[_ Ht]]%lookup_insert_Some; [eauto|]. left. by eapply lookup_weaken, evict_sub. }
    intros k ts [Ht|(h & Hh' & ->)]%H2; [by apply Hres|]. unfold spend in Hh'. rewrite drop_refresh_tokens in Hh'.
    apply lookup_delete_Some in Hh' as [_ Hh']. eauto.
Qed.

Lemma mint_inherits `{MapOrder} access refresh current b fam s :
  inherits (l_minted (rf_valueHash refresh)) s (CreateAccessAndRefreshTokens_locked c access refresh current b fam s).1.
Proof.
  unfold CreateAccessAndRefreshTokens_locked. case_bool_decide.
  { destruct fam; [apply mint_pair_inherits|by apply same_inherits]. }
  cbv zeta. destruct (refreshTokens (os_refresh s) !! _) eqn:E; [by apply spend_inherits|]. cbn [fst].
  apply shrinks_inherits. destruct (refreshTombstones s !! _); shrink.
Qed.

Lemma oidc_step_inherits l s s' : oidc_step c l s s' → inherits l s s'.
Proof.
  destruct 1.
  - unfold CreateAuthRequest_locked. destruct (_ <=? _)%Z; by apply same_inherits.
  - apply shrinks_inherits, shrinks_redeem.
  - by apply same_inherits.
  - unfold SetAuthTime_locked. destruct (authRequests _ !! _); by apply same_inherits.
  - unfold CompleteLogin_locked. destruct (authRequests _ !! _); [|by apply same_inherits].
    destruct (RequiresReauthentication _ _); by apply same_inherits.
  - apply shrinks_inherits, shrinks_delete_request.
  - by apply same_inherits.
  - apply mint_inherits.
  - apply shrinks_inherits, shrinks_resolve.
  - apply shrinks_inherits, shrinks_drop_grant_tokens.
  - apply shrinks_inherits, shrinks_RevokeToken.
  - eapply set_epochs_inherits, shrinks_RevokeGrant.
  - eapply set_epochs_inherits, shrinks_RevokeTokens.
  - apply shrinks_inherits, shrinks_PurgeSubject.
  - unfold StoreDeviceAuthorization. cbv zeta. repeat case_match; by apply same_inherits.
  - unfold GetDeviceAuthorizatonState_locked. repeat case_match; by apply same_inherits.
  - unfold approveDevice_locked. repeat case_match; by apply same_inherits.
  - unfold DenyDevice_locked. repeat case_match; by apply same_inherits.
  - apply shrinks_inherits, shrinks_SweepExpired.
Qed.

(** Along a run in which a value is not minted again, its row stays the row it
    was, and its residue is the one it had or the one of that row. *)
Lemma oidc_run_inherits k ls s s' :
  oidc_run c s ls s' → l_minted k ∉ ls →
  (∀ t, refreshTokens (os_refresh s') !! k = Some t → refreshTokens (os_refresh s) !! k = Some t) ∧
  (∀ ts, refreshTombstones s' !! k = Some ts → refreshTombstones s !! k = Some ts ∨
     ∃ held, refreshTokens (os_refresh s) !! k = Some held ∧ ts = residue k held).
Proof.
  intros Hr. induction Hr as [s|s ls s1 l s2 Hr IH Hst]; [auto|]. intros [Hn Hl]%not_elem_of_app.
  destruct (IH Hn) as [IHr IHt], (oidc_step_inherits l s1 s2 Hst) as [Hsr Hstomb]. split.
  - intros t [Ht| ->]%Hsr; [auto|]. by destruct Hl; apply list_elem_of_singleton.
  - intros ts [Ht|(held & Hh & ->)]%Hstomb; [auto|]. right. eauto.
Qed.

(** ** Bounds *)

(** The maps that anonymous traffic fills stay within their limits. *)
Definition bounded (s : OIDCStore) : Prop :=
  (map_len (authRequests (os_requests s)) ≤ oc_maxPendingAuthRequests c)%Z ∧
  (map_len (devices (os_devices s)) ≤ oc_maxPendingDeviceAuthorizations c)%Z ∧
  (map_len (refreshTombstones s) ≤ oc_maxTombstones c)%Z.

Lemma map_len_sub {V} (m1 m2 : gmap string V) : m1 ⊆ m2 → (map_len m1 ≤ map_len m2)%Z.
Proof. intros Hs. unfold map_len. apply Nat2Z.inj_le. by apply map_subseteq_size. Qed.

Lemma map_len_insert {V} (m : gmap string V) k v : m !! k = None → map_len (<[k := v]> m) = (map_len m + 1)%Z.
Proof. intros Hk. unfold map_len. rewrite map_size_insert_None by done. lia. Qed.

Lemma map_len_update {V} (m : gmap string V) k v : is_Some (m !! k) → map_len (<[k := v]> m) = map_len m.
Proof. intros Hk. unfold map_len. f_equal. by apply map_size_insert_Some. Qed.

Lemma shrinks_bounded s s' : shrinks s s' → bounded s → bounded s'.
Proof.
  intros Hs (Hr & Hd & Ht). split_and!; (etrans; [apply map_len_sub, Hs|done]).
Qed.

Lemma put_device_bounded h d s : is_Some (devices (os_devices s) !! h) → bounded s → bounded (put_device h d s).
Proof. intros Hh (Hr & Hd & Ht). split_and!; [done| |done]. simpl. by rewrite map_len_update. Qed.

Lemma put_request_bounded T s :
  bounded s → map_len (authRequests T) = map_len (authRequests (os_requests s)) → bounded (set_requests T s).
Proof. intros (Hr & Hd & Ht) HT. split_and!; [|done|done]. simpl. by rewrite HT. Qed.

Hypothesis limits : (0 < oc_maxTombstones c)%Z.

Lemma evict_room `{MapOrderOk} spent m :
  (map_len m ≤ oc_maxTombstones c)%Z → m !! spent = None → (map_len (evict_tombstone c spent m) + 1 ≤ oc_maxTombstones c)%Z.
Proof.
  intros Hm Hs. unfold evict_tombstone. rewrite Hs. destruct (Z.leb_spec (oc_maxTombstones c) (map_len m)); [|lia].
  destruct (range m) as [|[old t] r] eqn:Er.
  - assert (m = ∅) as ->; [|unfold map_len in *; rewrite map_size_empty in *; lia].
    apply map_empty. intros k. destruct (m !! k) as [v|] eqn:Ek; [|done]. apply elem_of_range in Ek. rewrite Er in Ek.
    by apply elem_of_nil in Ek.
  - assert (Ho : m !! old = Some t) by (apply elem_of_range; rewrite Er; left).
    unfold map_len in *. rewrite map_size_delete_Some by eauto.
    assert (0 < size m) by (apply Nat.neq_0_lt_0; intros ->%map_size_empty_iff; by rewrite lookup_empty in Ho). lia.
Qed.

Lemma spend_bounded `{MapOrderOk} spent familyID held s : bounded s → bounded (spend c spent familyID held s).
Proof.
  intros (Hr & Hd & Ht). split_and!; [done|done|]. simpl. destruct (refreshTombstones s !! spent) as [old|] eqn:Es.
  - unfold evict_tombstone. rewrite Es. by rewrite map_len_update by eauto.
  - rewrite map_len_insert; [by apply evict_room|].
    destruct (evict_tombstone c spent (refreshTombstones s) !! spent) eqn:Ee; [|done].
    apply (lookup_weaken _ (refreshTombstones s)) in Ee; [congruence|]. apply evict_sub.
Qed.

Lemma mint_bounded `{MapOrderOk} access refresh current b fam s :
  bounded s → bounded (CreateAccessAndRefreshTokens_locked c access refresh current b fam s).1.
Proof.
  intros Hb. assert (Hm : ∀ f s, bounded s → bounded (mint_pair access refresh b f s).1).
  { intros f s1 Hs1. unfold mint_pair. destruct (revocationEpochsLocked _ _ _) as [[g k] u]. by destruct (negb _). }
  unfold CreateAccessAndRefreshTokens_locked. case_bool_decide; [destruct fam; auto|]. cbv zeta.
  destruct (refreshTokens (os_refresh s) !! _); [by apply Hm, spend_bounded|]. cbn [fst].
  destruct (refreshTombstones s !! _); [|done]. eapply shrinks_bounded; [|done]. auto with oidc.
Qed.

Lemma store_device_bounded clientID deviceCode userCode expires scopes now s :
  bounded s → bounded (StoreDeviceAuthorization c clientID deviceCode userCode expires scopes now s).1.
Proof.
  intros Hb. unfold StoreDeviceAuthorization. cbv zeta. set (claimed := match userCodes _ !! _ with None => _ | Some _ => _ end).
  assert (Hc : ∀ T, claimed = Some T → devices T ⊆ devices (os_devices s)).
  { intros T. unfold claimed. repeat case_match; intros; simplify_eq; [apply delete_subseteq|done]. }
  destruct claimed as [T|]; [|done]. specialize (Hc T eq_refl). apply map_len_sub in Hc as Hl.
  destruct Hb as (Hr & Hd & Ht). case_bool_decide as Hn; simpl.
  - destruct (Z.leb_spec (oc_maxPendingDeviceAuthorizations c) (map_len (devices T))); split_and!; simpl; try done; [lia|].
    rewrite map_len_insert by done. lia.
  - split_and!; [done| |done]. simpl. rewrite map_len_update; [lia|]. by destruct (devices T !! TokenHash deviceCode).
Qed.

Lemma oidc_step_bounded l s s' : oidc_wf s → bounded s → oidc_step c l s s' → bounded s'.
Proof.
  intros Hwf Hb. destruct 1.
  - unfold CreateAuthRequest_locked. destruct Hb as (Hr & Hd & Ht).
    destruct (Z.leb_spec (oc_maxPendingAuthRequests c) (map_len (authRequests (os_requests s)))); [done|].
    split_and!; [|done|done]. simpl. rewrite map_len_insert by done. lia.
  - eapply shrinks_bounded; [apply shrinks_redeem|done].
  - done.
  - unfold SetAuthTime_locked. destruct (authRequests _ !! id) eqn:Ea; [|done]. apply put_request_bounded; [done|].
    simpl. rewrite map_len_update; eauto.
  - unfold CompleteLogin_locked. destruct (authRequests _ !! id) eqn:Ea; [|done].
    destruct (RequiresReauthentication _ _); [done|]. apply put_request_bounded; [done|]. simpl. rewrite map_len_update; eauto.
  - eapply shrinks_bounded; [apply shrinks_delete_request|done].
  - done.
  - by apply mint_bounded.
  - eapply shrinks_bounded; [apply shrinks_resolve|done].
  - eapply shrinks_bounded; [apply shrinks_drop_grant_tokens|done].
  - eapply shrinks_bounded; [apply shrinks_RevokeToken|done].
  - eapply shrinks_bounded; [apply shrinks_RevokeGrant|done].
  - eapply shrinks_bounded; [apply shrinks_RevokeTokens|done].
  - eapply shrinks_bounded; [apply shrinks_PurgeSubject|done].
  - by apply store_device_bounded.
  - unfold GetDeviceAuthorizatonState_locked. destruct (devices (os_devices s) !! TokenHash deviceCode) as [d|] eqn:Ed; [|done].
    destruct (negb _); [done|]. destruct (_ && _ && _ && _); [apply put_device_bounded; eauto|].
    destruct (_ && _); [|apply put_device_bounded; eauto]. destruct (revocationEpochsLocked _ _ _) as [[g k] u]. cbn [fst].
    eapply shrinks_bounded; [apply shrinks_set_devices, delete_subseteq|done].
  - unfold approveDevice_locked. destruct (userCodes _ !! _) eqn:Eu; [|done]. cbv zeta.
    destruct (_ || _); [done|]. apply put_device_bounded; [by eapply device_known|done].
  - unfold DenyDevice_locked. destruct (userCodes _ !! _) eqn:Eu; [|done]. cbv zeta.
    destruct (dv_denied _); [done|]. apply put_device_bounded; [by eapply device_known|done].
  - eapply shrinks_bounded; [apply shrinks_SweepExpired|done].
Qed.

Lemma oidc_run_bounded ls s s' : oidc_wf s → bounded s → oidc_run c s ls s' → bounded s'.
Proof.
  intros Hwf Hb Hr. induction Hr; [done|]. eapply oidc_step_bounded; [|by apply IHHr|done]. by eapply oidc_run_wf.
Qed.
End runs.
