(* ===== verification/OidcProps.v ===== *)
(** * The OpenID Provider store: what its callers rely on

    Theorems on [OIDCStore] over every run from the empty store: its invariant,
    the bounds of its maps, single use of codes, device codes and refresh tokens,
    revocation by filter, by grant and by value, and what a replay costs. *)

From S2P Require Import Prelude GoStd Scope Proc Tokens Client AuditLog Device Service.
From S2P Require Import OidcPolicy OidcTables OidcStore OidcWf OidcRevoke OidcShrink OidcSteps OidcFlight OidcRuns.

Section props.
Context `{Platform} (c : oidc_config).

Definition reachable (s : OIDCStore) : Prop := ∃ ls, oidc_run c emptyOIDCStore ls s.

Lemma reachable_wf s : reachable s → oidc_wf s.
Proof. intros [ls Hr]. by apply (oidc_run_wf c ls emptyOIDCStore), Hr; apply oidc_wf_empty. Qed.

(** C27. The indexes of the store are what they claim to be after any run of calls
    from the empty store, whatever order the runtime walks maps in: every index by
    subject, by request, by access-token hash and by user code is its map read the
    other way, the halves of a token pair and the residue of a spent one name the
    same client and subject, and every family has a name. *)
Theorem oidc_indexes_reachable ls s : oidc_run c emptyOIDCStore ls s → oidc_wf s.
Proof. intros Hr. apply reachable_wf. by exists ls. Qed.

(** C26. A store made by [NewOIDCStore], whatever its options and whatever calls it
    then serves, never holds more pending authorization requests, device
    authorizations or spent refresh tokens than its configured limits. *)
Theorem oidc_bounded {Rg} (setter : option (Rg → Rg)) (opts : OIDCOptions Rg) cfg s0 reg ls s :
  NewOIDCStore setter opts = Ok (cfg, s0, reg) → oidc_run cfg s0 ls s → bounded cfg s.
Proof.
  intros Hn Hr. assert (Hpos : ∀ v d, (0 < d)%Z → (0 < or_default v d)%Z).
  { intros v d Hd. unfold or_default. destruct (Z.leb_spec v 0); lia. }
  unfold NewOIDCStore in Hn. destruct (oo_Clients opts), (oo_Registry opts), (oo_Signer opts); simplify_eq.
  eapply oidc_run_bounded; [by apply Hpos|apply oidc_wf_empty| |exact Hr].
  split_and!; apply Z.lt_le_incl, Hpos; done.
Qed.

(** ** Single use *)

Definition code_dead (code : string) (s : OIDCStore) : Prop :=
  ∀ now b, ∃ e, AuthRequestByCode_locked code now b s = (s, b, Err e).
Definition device_dead (deviceCode : string) (s : OIDCStore) : Prop :=
  ∀ clientID now b, ∃ e, GetDeviceAuthorizatonState_locked clientID deviceCode now b s = (s, b, Err e).
Definition refresh_dead `{MapOrder} (value : string) (s : OIDCStore) : Prop :=
  (∀ now b, ∃ e, (TokenRequestByRefreshToken_locked value now b s).2 = Err e) ∧
  (∀ access refresh b fam, (CreateAccessAndRefreshTokens_locked c access refresh value b fam s).2 = Err ErrRefreshTokenSpent).

Lemma code_gone code s : codes (os_codes s) !! TokenHash code = None → code_dead code s.
Proof. intros Hn now b. unfold AuthRequestByCode_locked. rewrite Hn. eauto. Qed.
Lemma device_gone dc s : devices (os_devices s) !! TokenHash dc = None → device_dead dc s.
Proof. intros Hn cl now b. unfold GetDeviceAuthorizatonState_locked. rewrite Hn. eauto. Qed.
Lemma refresh_gone `{MapOrder} v s : v ≠ EmptyString → refreshTokens (os_refresh s) !! TokenHash v = None → refresh_dead v s.
Proof.
  intros Hv Hn. split.
  - intros now b. unfold TokenRequestByRefreshToken_locked. cbv zeta. rewrite Hn. repeat case_match; eauto.
  - intros access refresh b fam. unfold CreateAccessAndRefreshTokens_locked. rewrite bool_decide_false by done. cbv zeta. by rewrite Hn.
Qed.

Lemma redeemed_code code now b s s1 b1 a :
  AuthRequestByCode_locked code now b s = (s1, b1, Ok a) → codes (os_codes s1) !! TokenHash code = None.
Proof.
  unfold AuthRequestByCode_locked. destruct (codes _ !! _) as [cr|]; [|done]. destruct (negb _); [done|].
  destruct (authRequests _ !! _) as [a'|]; [|done]. destruct (revocationEpochsLocked _ _ _) as [[g k] u]. intros [= <- <- <-].
  change (codes (os_codes (drop_code (TokenHash code) s)) !! TokenHash code = None).
  rewrite drop_code_codes. apply lookup_delete_eq.
Qed.

Lemma redeemed_device cl dc now b s s1 b1 st :
  GetDeviceAuthorizatonState_locked cl dc now b s = (s1, b1, Ok st) → ds_Done st = true → ds_Denied st = false →
  devices (os_devices s1) !! TokenHash dc = None.
Proof.
  unfold GetDeviceAuthorizatonState_locked. destruct (devices _ !! _) as [d|]; [|done]. destruct (negb _); [done|].
  destruct (_ && _ && _ && _); [done|]. cbv zeta. destruct (dv_done d && negb (dv_denied d)) eqn:Ed.
  - destruct (revocationEpochsLocked _ _ _) as [[g k] u]. intros [= <- <- <-] _ _. apply lookup_delete_eq.
  - intros [= <- <- <-] Hd Hn. simpl in *. by rewrite Hd, Hn in Ed.
Qed.

Lemma rotated_refresh `{MapOrder} access refresh v b fam s s1 :
  v ≠ EmptyString → refreshTokens (os_refresh s) !! rf_valueHash refresh = None →
  CreateAccessAndRefreshTokens_locked c access refresh v b fam s = (s1, Ok tt) →
  refreshTokens (os_refresh s1) !! TokenHash v = None.
Proof.
  intros Hv Hf. unfold CreateAccessAndRefreshTokens_locked. rewrite bool_decide_false by done. cbv zeta.
  destruct (refreshTokens (os_refresh s) !! TokenHash v) as [held|] eqn:Eh; [|done].
  unfold mint_pair. destruct (revocationEpochsLocked _ _ _) as [[g k] u]. destruct (negb _); [done|]. intros [= <-].
  cbn [set_refresh os_refresh putRefreshLocked refreshTokens]. rewrite lookup_insert_ne by congruence.
  change (refreshTokens (os_refresh (spend c (TokenHash v) (if bool_decide (rf_familyID held = EmptyString)
    then TokenHash v else rf_familyID held) held s)) !! TokenHash v = None).
  unfold spend. rewrite drop_refresh_tokens. apply lookup_delete_eq.
Qed.

(** C3. Codes, device codes and refresh tokens work once. In a store reached by
    any run, after one call redeemed a code, collected an approved device code or
    rotated a refresh token, and after any further run in which that very value is
    not put into circulation again, the value is refused: by every later
    redemption, whoever asks, at whatever time, in whatever order maps are walked. *)
Theorem oidc_single_use `{MapOrderOk} s s1 s2 ls :
  reachable s → oidc_run c s1 ls s2 →
  (∀ code now b b1 a, AuthRequestByCode_locked code now b s = (s1, b1, Ok a) →
     l_saved (TokenHash code) ∉ ls → code_dead code s2) ∧
  (∀ clientID deviceCode now b b1 st,
     GetDeviceAuthorizatonState_locked clientID deviceCode now b s = (s1, b1, Ok st) →
     ds_Done st = true → ds_Denied st = false → l_stored (TokenHash deviceCode) ∉ ls → device_dead deviceCode s2) ∧
  (∀ access refresh value b fam, value ≠ EmptyString → TokenHash value ≠ EmptyString → fam ≠ Ok EmptyString →
     is_pair access refresh → fresh_pair access refresh s →
     CreateAccessAndRefreshTokens_locked c access refresh value b fam s = (s1, Ok tt) →
     l_minted (TokenHash value) ∉ ls → refresh_dead value s2).
Proof.
  intros Hwf%reachable_wf Hr. split_and!.
  - intros code now b b1 a Hc Hl. apply code_gone.
    pose proof (redeem_code_wf code now b s Hwf) as Hwf1. rewrite Hc in Hwf1.
    eapply (oidc_run_gone c (λ s, codes (os_codes s)) l_saved); [intros ??? Hsp; apply Hsp|exact Hwf1|exact Hr|by eapply redeemed_code|done].
  - intros cl dc now b b1 st Hc Hd Hn Hl. apply device_gone.
    pose proof (poll_device_wf cl dc now b s Hwf) as Hwf1. rewrite Hc in Hwf1.
    eapply (oidc_run_gone c (λ s, devices (os_devices s)) l_stored); [intros ??? Hsp; apply Hsp|exact Hwf1|exact Hr|by eapply redeemed_device|done].
  - intros access refresh v b fam Hv Hh Hfam Hp Hf Hc Hl. apply refresh_gone; [done|].
    pose proof (mint_wf c access refresh v b fam s Hwf Hp Hf Hfam Hh) as Hwf1. rewrite Hc in Hwf1.
    eapply (oidc_run_gone c (λ s, refreshTokens (os_refresh s)) l_minted); [intros ??? Hsp; apply Hsp|exact Hwf1|exact Hr| |done].
    eapply rotated_refresh; [done|apply Hf|done].
Qed.

(** ** Revocation *)

(** C4. Revocation is exact. On any reachable store the calls that walk an index
    do what a scan of every map would: [RevokeTokens] removes precisely what its
    filter matches (tokens, residues of spent ones, pending requests with their
    codes, device authorizations), advances the matching counters and reports the
    number of tokens; [RevokeGrant] does so for one subject and client;
    [TerminateSession] takes their tokens only; [PurgeSubject] takes what is
    pending for a subject and counts it. Nothing else changes. *)
Theorem oidc_revocation_exact `{MapOrderOk} s f subject clientID :
  reachable s → subject ≠ EmptyString →
  (let '(s', r) := OIDC_RevokeTokens f s in
   abs s' = spec_revoke (tf_ClientID f) (tf_Subject f) (Matches f) (abs s) ∧
   r = Ok (count_where (λ t, Matches f (ot_clientID t) (ot_subject t)) (accessTokens (os_access s)) +
           count_where (λ t, Matches f (rf_clientID t) (rf_subject t)) (refreshTokens (os_refresh s)))) ∧
  abs (RevokeGrant_locked subject clientID s) =
    spec_revoke clientID subject (λ cl sub, owned subject clientID sub cl) (abs s) ∧
  abs (TerminateSession_locked subject clientID s) = spec_drop_tokens (λ cl sub, owned subject clientID sub cl) (abs s) ∧
  (let R := λ _ sub, bool_decide (sub = subject) in
   let '(s', r) := PurgeSubject subject s in
   abs s' = spec_purge R (abs s) ∧
   r = Ok (count_where (λ a, bool_decide (oa_Subject a = subject)) (authRequests (os_requests s)) +
           count_where (request_matches R (abs s)) (codes (os_codes s)) +
           count_where (λ d, bool_decide (dv_subject d = subject)) (devices (os_devices s)))).
Proof.
  intros Hwf%reachable_wf Hs. split_and!.
  - pose proof (RevokeTokens_spec f s Hwf) as Hr. by destruct (OIDC_RevokeTokens f s), Hr.
  - by apply RevokeGrant_spec.
  - by apply TerminateSession_spec.
  - pose proof (PurgeSubject_spec subject s Hwf Hs) as Hr. cbv zeta in *. by destruct (PurgeSubject subject s), Hr.
Qed.

(** A sweep removes what has expired, map by map, and nothing else, and
    reports how many records it removed. *)
Theorem oidc_sweep_exact `{MapOrderOk} now s :
  reachable s →
  let '(s', n) := OIDC_SweepExpired now s in abs s' = spec_sweep now (abs s) ∧ n = spec_swept now (abs s).
Proof. intros Hwf%reachable_wf. pose proof (SweepExpired_spec now s Hwf) as Hr. by destruct (OIDC_SweepExpired now s), Hr. Qed.
End props.

(** ** The methods *)

Section methods.
Context `{Platform} `{Entropy} `{MapOrderOk} {Rg Lg : Type} `{ClientRegistry Rg} `{Logger Lg} (c : oidc_config).
Local Abbreviation W := (OWorld Rg Lg).

(** [RevokeToken] on a value, from any client. If the value names something
    that belongs to the caller (an access token, the access half of a live refresh
    row, or a refresh row) the pair goes, with the residue that remembers it, and
    the revocation is recorded. In every other case nothing changes and nothing is
    recorded; the answer is the same. *)
Theorem oidc_RevokeToken_exact (w : W) v userID clientID :
  reachable c (ow_store w) →
  ∃ w', run (RevokeToken v userID clientID) w = Some (w', Ok tt) ∧
    ((∃ s', presented (abs (ow_store w)) (TokenHash v) clientID (abs s') ∧
            run (orecord "oidc.revoke" userID clientID OutcomeOK) (set_store s' w) = Some (w', Ok tt)) ∨
     (w' = w ∧ ∀ σ, ¬ presented (abs (ow_store w)) (TokenHash v) clientID σ)).
Proof.
  intros Hwf%reachable_wf. pose proof (RevokeToken_spec v clientID (ow_store w) Hwf) as Hs.
  unfold RevokeToken. run_simpl. destruct (RevokeToken_locked v clientID (ow_store w)) as [s' recorded].
  destruct Hs as (_ & Ht & Hf). destruct recorded; simpl.
  - unfold orecord, orecord_event. run_simpl. eexists. split; [done|]. left. exists s'. auto.
  - destruct (Hf eq_refl) as [-> Hno]. exists w. split; [|by right]. by destruct w.
Qed.

(** ** Replays *)

(** What a replay leaves: nothing of the family. *)
Definition family_gone (f : string) (s s' : OIDCStore) : Prop :=
  (∀ k t, refreshTokens (os_refresh s') !! k = Some t ↔ refreshTokens (os_refresh s) !! k = Some t ∧ rf_familyID t ≠ f) ∧
  (∀ k t, refreshTombstones s' !! k = Some t ↔ refreshTombstones s !! k = Some t ∧ ts_familyID t ≠ f) ∧
  (∀ k a, accessTokens (os_access s') !! k = Some a ↔ accessTokens (os_access s) !! k = Some a ∧ ¬ family_access f s k) ∧
  os_requests s' = os_requests s ∧ os_codes s' = os_codes s ∧ os_devices s' = os_devices s ∧
  revocationEpochs s' = revocationEpochs s.

Lemma revokeFamily_gone f s : f ≠ EmptyString → family_gone f s (revokeFamilyLocked f s).
Proof.
  intros Hf. destruct (revokeFamily_spec f s Hf) as (Heq & Hr & Ht & Ha). split_and!; try by rewrite Heq.
  - intros k t. by rewrite Hr, lookup_delete_where, bool_decide_eq_false.
  - intros k t. by rewrite Ht, lookup_delete_where, bool_decide_eq_false.
Qed.

(** A replayed value: no live row, a residue that has not expired. *)
Lemma replay_run ctx (w : W) v ts :
  refreshTokens (os_refresh (ow_store w)) !! TokenHash v = None → refreshTombstones (ow_store w) !! TokenHash v = Some ts →
  time_Before (ow_clock w) (ts_expiresAt ts) = true →
  ∃ w', run (TokenRequestByRefreshToken ctx v) w = Some (w', Err ErrRefreshTokenSpent) ∧
    ow_store w' = revokeFamilyLocked (ts_familyID ts) (ow_store w) ∧ ow_clock w' = ow_clock w.
Proof.
  intros Hn Hts Hlive. unfold TokenRequestByRefreshToken, on_store_ctx. rewrite run_call.
  unfold TokenRequestByRefreshToken_locked. cbv zeta. rewrite Hn, Hts, Hlive. eexists. split; [done|].
  unfold write_carrier. by repeat case_match.
Qed.

(** A refresh token presented after it was rotated costs its whole family:
    every live generation, every access token any generation was paired with and
    every residue of the family go, everything else stays, and the caller is told
    the grant is invalid. *)
Theorem oidc_replay_kills_family ctx (w : W) v ts :
  reachable c (ow_store w) →
  refreshTokens (os_refresh (ow_store w)) !! TokenHash v = None → refreshTombstones (ow_store w) !! TokenHash v = Some ts →
  time_Before (ow_clock w) (ts_expiresAt ts) = true →
  ∃ w', run (TokenRequestByRefreshToken ctx v) w = Some (w', Err ErrRefreshTokenSpent) ∧
    family_gone (ts_familyID ts) (ow_store w) (ow_store w').
Proof.
  intros Hwf%reachable_wf Hn Hts Hlive. destruct (replay_run ctx w v ts Hn Hts Hlive) as (w' & Hr & Hs & _).
  exists w'. split; [done|]. rewrite Hs. apply revokeFamily_gone. by apply (wf_spent_families _ Hwf _ _ Hts).
Qed.

(** What a successful rotation leaves: the residue of the old value, and a new
    row of the same family beside its access token. *)
Lemma rotation_leaves access refresh v b fam s s1 held :
  oidc_wf s → v ≠ EmptyString → refreshTokens (os_refresh s) !! rf_valueHash refresh = None →
  refreshTokens (os_refresh s) !! TokenHash v = Some held →
  CreateAccessAndRefreshTokens_locked c access refresh v b fam s = (s1, Ok tt) →
  refreshTombstones s1 !! TokenHash v =
    Some (mkTombstone (rf_familyID held) (rf_idHash held) (rf_clientID held) (rf_subject held) (rf_expiresAt held)) ∧
  refreshTokens (os_refresh s1) !! rf_valueHash refresh = Some (with_family (rf_familyID held) refresh).
Proof.
  intros Hwf Hv Hf Hh. unfold CreateAccessAndRefreshTokens_locked. rewrite bool_decide_false by done. cbv zeta. rewrite Hh.
  rewrite (bool_decide_false (rf_familyID held = _)) by by apply (wf_families _ Hwf _ _ Hh).
  unfold mint_pair. destruct (revocationEpochsLocked _ _ _) as [[g k] u]. destruct (negb _); [done|]. intros [= <-].
  simpl. by rewrite !lookup_insert_eq.
Qed.

(** What [CreateAccessAndRefreshTokens] returning says of its critical section. *)
Lemma mint_run ctx (w w1 : W) request current acc v' exp :
  run (CreateAccessAndRefreshTokens c ctx request current) w = Some (w1, Ok (acc, v', exp)) →
  exp = (ow_clock w + oc_accessTTL c)%Z ∧ ow_clock w1 = ow_clock w ∧
  ∃ fam, CreateAccessAndRefreshTokens_locked c (new_access c acc request (ow_clock w)) (new_refresh c v' acc request (ow_clock w))
    current (RevocationEpochsFromContext ctx w) fam (ow_store w) = (ow_store w1, Ok tt).
Proof.
  unfold CreateAccessAndRefreshTokens, RandomValue, onow. run_simpl. unfold next_random. simpl.
  destruct (rand_read (ow_entropy w) 32) as [b1|]; simpl; [|done]. run_simpl. simpl.
  destruct (rand_read (S (ow_entropy w)) 32) as [b2|]; simpl; [|done]. run_simpl. simpl.
  set (locked := CreateAccessAndRefreshTokens_locked c _ _ _ _ _ _). intros Hrun.
  assert (Hl : ∃ s', locked = (s', Ok tt)).
  { destruct locked as [s' [[]|e]]; [eauto|]. simpl in Hrun. by case_bool_decide. }
  destruct Hl as [s' Hl]. rewrite Hl in Hrun. simpl in Hrun. unfold orecord, orecord_event in Hrun.
  autorewrite with run in Hrun. simpl in Hrun. injection Hrun as Hw1 Hacc Hv Hexp. subst acc v' exp.
  assert (Hst : ow_store w1 = s' ∧ ow_clock w1 = ow_clock w) by (subst w1; case_bool_decide; simpl; by case_match).
  destruct Hst as [-> ->]. split_and!; [done|done|]. eexists. exact Hl.
Qed.

(** A value with neither a row nor a residue in time. *)
Lemma replay_unknown ctx (w : W) v :
  refreshTokens (os_refresh (ow_store w)) !! TokenHash v = None →
  refreshTombstones (ow_store w) !! TokenHash v = None ∨
    (∃ ts, refreshTombstones (ow_store w) !! TokenHash v = Some ts ∧ time_Before (ow_clock w) (ts_expiresAt ts) = false) →
  ∃ w', run (TokenRequestByRefreshToken ctx v) w = Some (w', Err ErrTokenNotFound) ∧ ow_store w' = ow_store w.
Proof.
  intros Hn Hts. unfold TokenRequestByRefreshToken, on_store_ctx. rewrite run_call. unfold TokenRequestByRefreshToken_locked.
  cbv zeta. rewrite Hn. destruct Hts as [->|(ts & -> & ->)]; (eexists; split; [done|]; unfold write_carrier; by repeat case_match).
Qed.
Lemma refresh_refused ctx (w : W) v :
  refreshTokens (os_refresh (ow_store w)) !! TokenHash v = None →
  ∃ w' e, run (TokenRequestByRefreshToken ctx v) w = Some (w', Err e).
Proof.
  intros Hn. unfold TokenRequestByRefreshToken, on_store_ctx. rewrite run_call. unfold TokenRequestByRefreshToken_locked. cbv zeta.
  rewrite Hn. repeat case_match; simplify_eq; eauto.
Qed.
Lemma introspect_gone (w : W) acc subject :
  accessTokens (os_access (ow_store w)) !! TokenHash acc = None →
  run (SetIntrospectionFromToken acc subject) w = Some (w, Err ErrTokenNotFound).
Proof. intros Hn. unfold SetIntrospectionFromToken, onow. run_simpl. rewrite Hn. by run_simpl. Qed.

(** What any later store remembers of a rotation: nothing, or the truth. *)
Lemma rotation_remembered access refresh v b fam s s1 held ls s2 :
  oidc_wf s → v ≠ EmptyString → refreshTokens (os_refresh s) !! TokenHash v = Some held →
  refreshTokens (os_refresh s) !! rf_valueHash refresh = None → refreshTombstones s !! rf_valueHash refresh = None →
  CreateAccessAndRefreshTokens_locked c access refresh v b fam s = (s1, Ok tt) →
  oidc_run c s1 ls s2 → l_minted (TokenHash v) ∉ ls → l_minted (rf_valueHash refresh) ∉ ls →
  refreshTokens (os_refresh s2) !! TokenHash v = None ∧
  (∀ ts, refreshTombstones s2 !! TokenHash v = Some ts →
     ts = mkTombstone (rf_familyID held) (rf_idHash held) (rf_clientID held) (rf_subject held) (rf_expiresAt held)) ∧
  (∀ t, refreshTokens (os_refresh s2) !! rf_valueHash refresh = Some t → t = with_family (rf_familyID held) refresh) ∧
  (∀ ts, refreshTombstones s2 !! rf_valueHash refresh = Some ts →
     ts_familyID ts = rf_familyID held ∧ ts_idHash ts = rf_idHash refresh).
Proof.
  intros Hwf Hv Hh Hf Hft Hl Hls Hnv Hnv'.
  destruct (rotation_leaves _ _ _ _ _ _ _ held Hwf Hv Hf Hh Hl) as [Hts Hrow].
  pose proof (rotated_refresh c _ _ v _ _ _ _ Hv Hf Hl) as Hold.
  pose proof (wf_families _ Hwf _ _ Hh) as Hfam.
  pose proof (mint_inherits c access refresh v b fam s) as Hm. rewrite Hl in Hm.
  destruct (oidc_run_inherits c _ _ _ _ Hls Hnv) as [Hr2 Ht2], (oidc_run_inherits c _ _ _ _ Hls Hnv') as [Hr2' Ht2'].
  split_and!.
  - apply eq_None_not_Some. intros [t E%Hr2]. congruence.
  - intros ts [E|(h & E & _)]%Ht2; congruence.
  - intros t E%Hr2'. congruence.
  - intros ts [E|(h & E & ->)]%Ht2'.
    + destruct (in_spent _ _ _ Hm _ _ E) as [?|(h & ? & _)]; congruence.
    + rewrite Hrow in E. injection E as <-. simpl. by rewrite bool_decide_false.
Qed.

End methods.
