(* ===== verification/OidcConsent.v ===== *)
(** * Consent, freshness and signing keys at the OpenID Provider

    What an approval may grant, how old an authentication may be, and which
    signing keys a provider starts with. *)

From S2P Require Import Prelude GoStd Scope Proc Tokens Client AuditLog Device Service.
From S2P Require Import OidcPolicy OidcTables OidcStore OidcWf OidcRevoke OidcShrink OidcSteps OidcFlight OidcRuns OidcProps.

(** ** Consent *)

Section consent.

Lemma elem_of_split x scopes :
  (x ∈ (SplitProtocolScopes scopes).1 ↔ x ∈ scopes ∧ StandardOIDCScope x = false) ∧
  (x ∈ (SplitProtocolScopes scopes).2 ↔ x ∈ scopes ∧ StandardOIDCScope x = true).
Proof.
  induction scopes as [|s scopes [IH1 IH2]]; simpl; [set_solver|].
  destruct (SplitProtocolScopes scopes) as [described protocol]. simpl in *.
  destruct (StandardOIDCScope s) eqn:Es; simpl; rewrite !elem_of_cons, IH1, IH2; intuition congruence.
Qed.

Lemma elem_of_reattach x granted protocol : x ∈ reattach granted protocol ↔ x ∈ granted ∨ x ∈ protocol.
Proof.
  unfold reattach. revert granted. induction protocol as [|s protocol IH]; intros granted; simpl; [set_solver|].
  rewrite IH. unfold HasScope. case_bool_decide; set_solver.
Qed.

Lemma elem_of_WithOfflineAccess x scopes : x ∈ WithOfflineAccess scopes ↔ x = ScopeOfflineAccess ∨ x ∈ scopes.
Proof. unfold WithOfflineAccess, HasScope. case_bool_decide; set_solver. Qed.

Lemma narrow_loop_Ok requested approved g :
  narrow_loop requested approved = Ok g ↔ g = approved ∧ ∀ x, x ∈ approved → x ∈ requested.
Proof.
  revert g. induction approved as [|s approved IH]; intros g; simpl; [set_solver|].
  unfold HasScope. case_bool_decide as Hs; simpl.
  - destruct (narrow_loop requested approved) as [g'|e].
    + destruct (proj1 (IH g') eq_refl) as [-> Hall]. set_solver.
    + split; [done|]. intros [-> Hall]. enough (Hc : Err e = Ok approved) by done. apply IH. set_solver.
  - set_solver.
Qed.

(** The scopes an approval may choose: all of the request's, or a nonempty part. *)
Definition narrows (requested : list string) (approved : option (list Scope)) : Prop :=
  ∀ l, approved = Some l → l ≠ [] ∧ ∀ x, x ∈ l → x ∈ requested.

Lemma NarrowScopes_Ok requested approved g :
  NarrowScopes requested approved = Ok g ↔ g = default requested approved ∧ narrows requested approved.
Proof.
  unfold narrows. destruct approved as [[|s l]|]; simpl.
  - split; [done|]. intros [_ Hn]. by destruct (Hn [] eq_refl).
  - rewrite (narrow_loop_Ok requested (s :: l) g). naive_solver.
  - naive_solver.
Qed.

Lemma RequireExplicitConsent_None ds explicit :
  RequireExplicitConsent ds explicit = None ↔ ∀ d, d ∈ ds → d_ExplicitConsent d = true → d_Scope d ∈ explicit.
Proof.
  induction ds as [|d ds IH]; simpl; [set_solver|]. destruct (d_ExplicitConsent d) eqn:Ed; simpl.
  - case_bool_decide; [rewrite IH; set_solver|]. split; [done|]. intros Hall. destruct H. apply Hall; [left|done].
  - rewrite IH. split; intros Hall d'; [|set_solver]. intros [->|Hin]%elem_of_cons; [congruence|auto].
Qed.

(** A described scope the client may hold, with consent where it must be given
    by name. *)
Definition consented (r : Registry) (clientID : string) (explicit : list Scope) (x : Scope) : Prop :=
  ∃ d, byScope r !! x = Some d ∧ allowsClient d clientID = true ∧ (d_ExplicitConsent d = true → x ∈ explicit).

Context `{Platform}.

(** Resolution and explicit consent together. *)
Lemma resolve_consented r scopes clientID explicit :
  registry_wf r →
  (∃ ds, Resolve r scopes clientID = Ok ds ∧ RequireExplicitConsent ds explicit = None) ↔
  ∀ x, x ∈ scopes → consented r clientID explicit x.
Proof.
  intros Hwf. unfold Resolve. split.
  - intros (ds & Hds & Hex) x Hx. apply resolve_loop_Ok in Hds as (Hg & Hout & Hall); [|done].
    destruct (Hg x Hx) as (d & Hd & Hal); [set_solver|]. exists d. split_and!; [done..|]. intros Hx'.
    destruct (Hwf _ _ Hd) as [Hsc _]. rewrite <-Hsc. rewrite RequireExplicitConsent_None in Hex. apply Hex; [|done].
    assert (Hin : x ∈ d_Scope <$> ds) by (rewrite Hout; apply first_occurrences_seen; set_solver).
    apply list_elem_of_fmap in Hin as (d' & -> & Hd'). rewrite Forall_forall in Hall.
    destruct (Hall d' Hd') as [Hby _]. congruence.
  - intros Hall. destruct (resolve_loop_complete r clientID ∅ scopes) as [ds Hds].
    { intros s Hs _. destruct (Hall s Hs) as (d & ? & ? & _). by exists d. }
    exists ds. split; [done|]. apply RequireExplicitConsent_None. intros d Hd Hx.
    apply resolve_loop_Ok in Hds as (_ & Hout & Hf); [|done]. rewrite Forall_forall in Hf. destruct (Hf d Hd) as [Hby _].
    assert (Hin : d_Scope d ∈ first_occurrences ∅ scopes) by (rewrite <-Hout; by apply list_elem_of_fmap_2).
    apply first_occurrences_seen in Hin as [Hin _]. destruct (Hall _ Hin) as (d' & Hd' & _ & He).
    apply He. congruence.
Qed.

(** What an approval grants. It is accepted exactly if it narrows the request
    (all of it, or a nonempty list within it) and every described scope it chooses
    is registered, open to the client and, where the catalogue demands consent by
    name, named. The grant then is the choice, the protocol scopes of the request
    put back, and [offline_access]; it never exceeds the request otherwise. *)
Theorem granted_scopes_exact (c : oidc_config) requested clientID approved explicit :
  registry_wf (oc_registry c) →
  ((∃ g, granted_scopes c requested clientID approved explicit = Ok g) ↔
   narrows requested approved ∧
   ∀ x, x ∈ default requested approved → StandardOIDCScope x = false → consented (oc_registry c) clientID explicit x) ∧
  (∀ g, granted_scopes c requested clientID approved explicit = Ok g → ∀ x, x ∈ g ↔
     x = ScopeOfflineAccess ∨ x ∈ default requested approved ∨ (x ∈ requested ∧ StandardOIDCScope x = true)).
Proof.
  intros Hwf. unfold granted_scopes. destruct (NarrowScopes requested approved) as [g0|e] eqn:En.
  - apply NarrowScopes_Ok in En as [-> Hn]. set (g0 := default requested approved).
    set (g := reattach g0 (SplitProtocolScopes requested).2).
    pose proof (resolve_consented (oc_registry c) (SplitProtocolScopes g).1 clientID explicit Hwf) as Hrc.
    assert (Hdesc : (∀ x, x ∈ (SplitProtocolScopes g).1 → consented (oc_registry c) clientID explicit x) ↔
      ∀ x, x ∈ g0 → StandardOIDCScope x = false → consented (oc_registry c) clientID explicit x).
    { apply forall_proper. intros x. unfold g. rewrite (proj1 (elem_of_split x _)), elem_of_reattach, (proj2 (elem_of_split x _)).
      intuition congruence. }
    rewrite Hdesc in Hrc. clear Hdesc. split.
    + rewrite <-Hrc. destruct (Resolve _ _ _) as [ds|e]; [|naive_solver].
      destruct (RequireExplicitConsent ds explicit) eqn:Ee; naive_solver.
    + intros g' Hg'. destruct (Resolve _ _ _) as [ds|e]; [|done]. destruct (RequireExplicitConsent ds explicit); [done|].
      injection Hg' as <-. intros x. unfold g. by rewrite elem_of_WithOfflineAccess, elem_of_reattach, (proj2 (elem_of_split x _)).
  - split; [|done]. split; [naive_solver|]. intros [Hn _].
    enough (Hc : Err e = Ok (default requested approved)) by done. rewrite <-En. by apply NarrowScopes_Ok.
Qed.
End consent.

(** ** Freshness *)

(** How old an authentication may be for a [max_age]: that and the round-trip
    tolerance. A [max_age] beyond the range of a duration sets no limit; one less
    than the tolerance below it wraps around, to 292 years before the
    authentication. *)
Definition allowance (age : Z) : option Z :=
  if (maxDurationSeconds <? age)%Z then None
  else if (age + 120 <=? maxDurationSeconds)%Z then Some (age * time_Second + reauthRoundTripTolerance)%Z
  else Some (age * time_Second + reauthRoundTripTolerance - 2 ^ 64)%Z.

(** The authentication of a request is recent: it happened, and its age is
    within the allowance. *)
Definition recent (a : AuthRequest) (age now : Z) : Prop :=
  ∃ t, oa_AuthTime a = Some t ∧ t ≠ 0%Z ∧ ∀ d, allowance age = Some d → (now - t ≤ d)%Z.

Lemma allowance_sum age d : (0 ≤ age)%Z → allowance age = Some d →
  (maxDurationSeconds <? age)%Z = false ∧ wrap64 (wrap64 (age * time_Second) + reauthRoundTripTolerance) = d ∧ (- 2 ^ 63 <= d < max_int64)%Z.
Proof.
  intros Hage. unfold allowance. destruct (maxDurationSeconds <? age)%Z eqn:Em; [done|]. apply Z.ltb_ge in Em.
  assert (Hr : reauthRoundTripTolerance = 120000000000%Z) by done. assert (Hs : time_Second = 1000000000%Z) by done.
  assert (Hmax : maxDurationSeconds = 9223372036%Z) by done. rewrite Hr, Hs, Hmax in *.
  rewrite (wrap64_id (age * 1000000000)) by (unfold max_int64; lia). unfold wrap64, max_int64.
  destruct (Z.leb_spec (age + 120) 9223372036); intros [= <-]; (split; [done|]; split; [|lia]).
  - rewrite Z.mod_small; lia.
  - rewrite <-(Z.mod_unique (age * 1000000000 + 120000000000 + 2 ^ 63) (2 ^ 64) 1 (age * 1000000000 + 120000000000 + 2 ^ 63 - 2 ^ 64)); lia.
Qed.

Lemma fresh_recent a age now :
  oa_MaxAge a = Some age → (0 ≤ age)%Z → RequiresReauthentication a now = false ↔ recent a age now.
Proof.
  intros Ha Hage. unfold RequiresReauthentication, FreshnessSatisfied, AuthRequest_GetAuthTime, recent. rewrite Ha, negb_false_iff.
  unfold time_IsZero. destruct (oa_AuthTime a) as [t|]; simpl; [|naive_solver].
  destruct (Z.eqb_spec t 0) as [->|Ht]; [naive_solver|]. destruct (allowance age) as [d|] eqn:Ed.
  - destruct (allowance_sum age d Hage Ed) as (-> & -> & Hd). rewrite Z.leb_le. unfold time_Sub. split.
    + intros Hle. exists t. split_and!; [done..|]. intros d' [= <-]. unfold max_int64 in *. lia.
    + intros (t' & [= <-] & _ & Hle). specialize (Hle d eq_refl). lia.
  - unfold allowance in Ed. destruct (maxDurationSeconds <? age)%Z; [|by case_match]. naive_solver.
Qed.

(** A [max_age] within two minutes of the largest duration is never satisfied:
    the sum with the tolerance wraps around. An authentication of this very
    instant is refused, where a larger and a smaller [max_age] accept it. *)
Example freshness_overflow :
  let a age := mkAuthRequest "id" "app" "uri" "code" EmptyString [] EmptyString EmptyString None "u" false (Some 1%Z) [] (Some age) in
  RequiresReauthentication (a (maxDurationSeconds - 119)%Z) 1 = true ∧
  RequiresReauthentication (a maxDurationSeconds) 1 = true ∧
  RequiresReauthentication (a (maxDurationSeconds + 1)%Z) 1 = false ∧
  RequiresReauthentication (a (maxDurationSeconds - 120)%Z) 1 = false.
Proof. vm_compute. done. Qed.

Section login.
Context `{Platform} `{MapOrderOk} {Rg Lg : Type} `{Logger Lg} (c : oidc_config).
Local Abbreviation W := (OWorld Rg Lg).

(** C25. [CompleteLogin] completes a known authorization request exactly if its
    authentication is as recent as the request's [max_age], an unsigned number,
    demands: a missing authentication never is; otherwise it may be that old and
    the two minutes of the round trip to the login, without limit when [max_age]
    exceeds the range of a duration, and, because the sum wraps around there, not
    at all (its time would have to be 292 years ahead) when [max_age] is less than
    two minutes below that range.
    The request then is done, names the subject and the granted scopes, keeps its
    authentication time or takes the present one, and nothing else in the store
    changes; otherwise nothing changes at all. *)
Theorem CompleteLogin_exact (w : W) id subject scopes :
  (∀ a age, authRequests (os_requests (ow_store w)) !! id = Some a → oa_MaxAge a = Some age →
     (0 ≤ age)%Z) →
  reachable c (ow_store w) →
  ∃ w' r, run (CompleteLogin id subject scopes) w = Some (w', r) ∧
    (r = Ok tt ↔ ∃ a, authRequests (os_requests (ow_store w)) !! id = Some a ∧
                      ∀ age, oa_MaxAge a = Some age → recent a age (ow_clock w)) ∧
    (r = Ok tt → abs (ow_store w') =
       let σ := abs (ow_store w) in
       mkOP (alter (λ p, (completed subject scopes (ow_clock w) p.1, p.2)) id (op_requests σ)) (op_codes σ) (op_access σ)
         (op_refresh σ) (op_tombstones σ) (op_devices σ) (op_epochs σ)) ∧
    (r ≠ Ok tt → w' = w).
Proof.
  intros Hage Hwf%reachable_wf. unfold CompleteLogin, on_store. run_simpl. unfold CompleteLogin_locked.
  destruct (authRequests (os_requests (ow_store w)) !! id) as [a|] eqn:Ea; simpl.
  2: { do 2 eexists. split_and!; [done|naive_solver|done|]. intros _. by destruct w. }
  assert (Hf : RequiresReauthentication a (ow_clock w) = false ↔ ∀ age, oa_MaxAge a = Some age → recent a age (ow_clock w)).
  { destruct (oa_MaxAge a) as [age|] eqn:Em.
    - rewrite (fresh_recent a age) by eauto. naive_solver.
    - unfold RequiresReauthentication. rewrite Em. naive_solver. }
  destruct (RequiresReauthentication a (ow_clock w)) eqn:Er; simpl.
  { do 2 eexists. split_and!; [done| |done|intros _; by destruct w].
    split; [done|]. intros (a' & [= <-] & Hr). by apply Hf in Hr. }
  unfold recordConsent, orecord_event. run_simpl. do 2 eexists. split_and!; [done|naive_solver| |done].
  intros _. transitivity (abs (set_requests (mkRequestTable
    (<[id := completed subject scopes (ow_clock w) a]> (authRequests (os_requests (ow_store w))))
    (authRequestExpiry (os_requests (ow_store w))) ∅) (ow_store w))); [by case_match|].
  unfold abs. simpl. f_equal. apply map_eq. intros k. apply option_eq. intros [a' e].
  rewrite lookup_pending. simpl. rewrite lookup_insert_Some, lookup_alter_Some.
  setoid_rewrite lookup_pending. destruct (decide (k = id)) as [->|Hne].
  - split.
    + intros [[[_ <-]|[? _]] He]; [|done]. left. split; [done|]. exists (a, e). by rewrite lookup_pending.
    + intros [[_ ([a1 e1] & [Ha1 He1]%lookup_pending & [= -> ->])]|[? _]]; [|done]. rewrite Ea in Ha1. simplify_eq. auto.
  - split.
    + intros [[[? _]|[_ Ha']] He]; [done|auto].
    + intros [[? _]|(_ & Ha' & He)]; [done|auto].
Qed.
End login.

(** ** Signing keys *)

Section signing.
Context `{Platform}.

Definition strong (pub : option (option Z)) : Prop := ∃ n, pub = Some (Some n) ∧ (2048 ≤ BitLen n)%Z.

Lemma validate_retired_None seen rs :
  validate_retired seen rs = None ↔
  (∀ r, r ∈ rs → rk_ID r ≠ EmptyString ∧ strong (rk_Public r) ∧ rk_ID r ∉ seen) ∧ NoDup (rk_ID <$> rs).
Proof.
  revert seen. induction rs as [|r rs IH]; intros seen; simpl; [split; [|done]; split; [set_solver|constructor]|].
  rewrite NoDup_cons. setoid_rewrite elem_of_cons.
  case_bool_decide as Hid; [split; [done|]; naive_solver|].
  destruct (rk_Public r) as [pub|] eqn:Ep.
  2: { split; [done|]. intros [Hall _]. destruct (Hall r (or_introl eq_refl)) as (_ & (n & Hn & _) & _). congruence. }
  case_bool_decide as Hs; [split; [done|]; naive_solver|].
  destruct (Z.ltb_spec (match pub with Some n => BitLen n | None => 0%Z end) 2048) as [Hb|Hb].
  { split; [done|]. intros [Hall _]. destruct (Hall r (or_introl eq_refl)) as (_ & (n & Hn & Hb') & _).
    rewrite Ep in Hn. simplify_eq. lia. }
  assert (Hst : strong (Some pub)) by (destruct pub as [n|]; [by exists n|lia]).
  rewrite IH, list_elem_of_fmap. split.
  - intros [Hall Hnd]. split_and!; [|intros (r' & Heq & Hr'); destruct (Hall r' Hr') as (_ & _ & []); set_solver|done].
    intros r' [->|Hr']; [by rewrite Ep|]. destruct (Hall r' Hr') as (? & ? & ?). split_and!; [done..|set_solver].
  - intros (Hall & Hnin & Hnd). split; [|done]. intros r' Hr'. destruct (Hall r' (or_intror Hr')) as (? & ? & ?).
    split_and!; [done..|]. intros [Heq%elem_of_singleton|]%elem_of_union; [|done]. apply Hnin. eauto.
Qed.

(** [ValidateSigner] accepts a signer exactly if the key set it publishes is
    sound: every key, the active one and the retired ones, is an RSA key of at
    least 2048 bits under a nonempty id, and no id is published twice. *)
Theorem ValidateSigner_exact s :
  ValidateSigner (Some s) = None ↔
  Forall (λ k, pk_ID k ≠ EmptyString ∧ strong (pk_Key k)) (KeySet s) ∧ NoDup (pk_ID <$> KeySet s).
Proof.
  unfold KeySet. rewrite Forall_cons, Forall_fmap, Forall_forall, fmap_cons, NoDup_cons, <-list_fmap_compose.
  change (pk_ID ∘ retiredPublicKey) with rk_ID. simpl. destruct (sg_key s) as [n|].
  2: { split; [done|]. intros (((_ & n & Hn & _) & _) & _). done. }
  case_bool_decide as Hid; [split; [done|]; naive_solver|].
  destruct (Z.ltb_spec (BitLen n) 2048) as [Hb|Hb].
  { split; [done|]. intros (((_ & n' & Hn & Hb') & _) & _). simplify_eq. lia. }
  rewrite validate_retired_None, list_elem_of_fmap. split.
  - intros [Hall Hnd]. split_and!; [done|by exists n|naive_solver| |done].
    intros (r & Heq & Hr). destruct (Hall r Hr) as (_ & _ & []). set_solver.
  - intros ((_ & Hall) & Hnin & Hnd). split; [|done]. intros r Hr. destruct (Hall r Hr) as [? ?]. split_and!; [done..|].
    intros Heq%elem_of_singleton. apply Hnin. eauto.
Qed.
End signing.
