(* ===== verification/OidcGrants.v ===== *)
(** * What a client can still do as a subject

    [OIDCStore.Grants] folds the live tokens of a subject into one entry per
    client. Its reference definition is a property of the set of tokens: which
    clients appear, and what each entry says. *)

From S2P Require Import Prelude GoStd Scope Proc Tokens Client AuditLog Device Service.
From S2P Require Import OidcPolicy OidcTables OidcStore OidcWf OidcRevoke OidcShrink OidcSteps OidcFlight OidcRuns OidcProps.

(** A token of either kind, as [collect] sees it. *)
Record entry := mkEntry {
  en_client : string;
  en_scopes : list string;
  en_issued : Z;
  en_expires : Z;
  en_refresh : bool;
}.
Definition access_entry (t : accessToken) : entry :=
  mkEntry (ot_clientID t) (ot_scopes t) (ot_issuedAt t) (ot_expiresAt t) false.
Definition refresh_entry (t : refreshToken) : entry :=
  mkEntry (rf_clientID t) (rf_scopes t) (rf_issuedAt t) (rf_expiresAt t) true.

(** The tokens of a subject. *)
Inductive held (subject : string) (s : OIDCStore) : entry → Prop :=
| held_access k t : accessTokens (os_access s) !! k = Some t → ot_subject t = subject → held subject s (access_entry t)
| held_refresh k t : refreshTokens (os_refresh s) !! k = Some t → rf_subject t = subject → held subject s (refresh_entry t).

(** The live ones of a client. *)
Definition live_held (now : Z) (subject clientID : string) (s : OIDCStore) (e : entry) : Prop :=
  held subject s e ∧ en_client e = clientID ∧ (now < en_expires e)%Z.

(** An entry that says what a set of tokens amounts to: their scopes without
    [offline_access], each once; whether one of them refreshes; the earliest
    issue and the latest expiry. *)
Record describes (P : entry → Prop) (g : Grant) : Prop := mkDescribes {
  de_some : ∃ e, P e;
  de_once : NoDup (g_Scopes g);
  de_scopes x : x ∈ g_Scopes g ↔ x ≠ ScopeOfflineAccess ∧ ∃ e, P e ∧ x ∈ en_scopes e;
  de_refresh : g_HasRefresh g = true ↔ ∃ e, P e ∧ en_refresh e = true;
  de_issued : (∃ e, P e ∧ en_issued e = g_IssuedAt g) ∧ ∀ e, P e → (g_IssuedAt g ≤ en_issued e)%Z;
  de_expires : (∃ e, P e ∧ en_expires e = g_ExpiresAt g) ∧ ∀ e, P e → (en_expires e ≤ g_ExpiresAt g)%Z;
}.

Lemma describes_ext P Q g : (∀ e, P e ↔ Q e) → describes P g → describes Q g.
Proof.
  intros Heq [Hs Ho Hsc Hr [Hi1 Hi2] [He1 He2]]. split; [| done | | | split | split]; try setoid_rewrite <-Heq; eauto.
  all: intros e ?%Heq; eauto.
Qed.

(** ** The fold *)

Definition collect_entry (now : Z) (m : gmap string Grant) (e : entry) : gmap string Grant :=
  collect now m (en_client e) (en_scopes e) (en_issued e) (en_expires e) (en_refresh e).

(** Scopes added to an entry. *)
Definition add_scopes (acc : list Scope) (scopes : list string) : list Scope :=
  foldl (λ acc sc, if bool_decide (sc = ScopeOfflineAccess) then acc else appendScopeUnique acc sc) acc scopes.

Lemma add_scopes_spec scopes acc :
  NoDup acc →
  NoDup (add_scopes acc scopes) ∧ ∀ x, x ∈ add_scopes acc scopes ↔ x ∈ acc ∨ (x ≠ ScopeOfflineAccess ∧ x ∈ scopes).
Proof.
  revert acc. induction scopes as [|s scopes IH]; intros acc Hnd; unfold add_scopes; simpl; [set_solver|].
  fold (add_scopes acc scopes). case_bool_decide as Ho.
  - destruct (IH acc Hnd) as [H1 H2]. split; [done|]. set_solver.
  - assert (Hnd' : NoDup (appendScopeUnique acc s)).
    { unfold appendScopeUnique. case_bool_decide; [done|]. apply NoDup_app. split_and!; [done|set_solver|apply NoDup_singleton]. }
    destruct (IH _ Hnd') as [H1 H2]. split; [done|]. intros x. unfold add_scopes in H2. rewrite H2.
    unfold appendScopeUnique. case_bool_decide; set_solver.
Qed.

(** One more live token in an entry. *)
Definition extend (g : Grant) (e : entry) : Grant :=
  mkGrant (g_ClientID g) (g_ClientName g) (add_scopes (g_Scopes g) (en_scopes e))
    (if en_refresh e then true else g_HasRefresh g)
    (if time_Before (en_issued e) (g_IssuedAt g) then en_issued e else g_IssuedAt g)
    (if time_After (en_expires e) (g_ExpiresAt g) then en_expires e else g_ExpiresAt g).

Lemma describes_extend P g e : describes P g → describes (λ x, P x ∨ x = e) (extend g e).
Proof.
  intros [Hs Ho Hsc Hr [(ei & Hei & Hi1) Hi2] [(ee & Hee & He1) He2]].
  destruct (add_scopes_spec (en_scopes e) (g_Scopes g) Ho) as [Hnd Hin]. split; simpl.
  - destruct Hs as [x Hx]. eauto.
  - done.
  - intros x. rewrite Hin, Hsc. split; [|intros (Hx & x' & [Hx'| ->] & Hi); eauto]. intros [(Hx & x' & Hx' & Hi)|[Hx Hi]]; eauto 6.
  - destruct (en_refresh e) eqn:Ee; [split; eauto|]. rewrite Hr.
    split; [intros (x & Hx & Hxr); eauto|]. intros (x & [Hx| ->] & Hxr); [eauto|congruence].
  - unfold time_Before. destruct (Z.ltb_spec (en_issued e) (g_IssuedAt g)).
    + split; [eauto|]. intros x [Hx| ->]; [specialize (Hi2 x Hx)|]; lia.
    + split; [eauto|]. intros x [Hx| ->]; [by apply Hi2|lia].
  - unfold time_After.  destruct (Z.ltb_spec (g_ExpiresAt g) (en_expires e)).
    + split; [eauto|]. intros x [Hx| ->]; [specialize (He2 x Hx)|]; lia.
    + split; [eauto|]. intros x [Hx| ->]; [by apply He2|lia].
Qed.

(** The first live token of a client. *)
Lemma describes_first id name e :
  describes (λ x, x = e) (extend (mkGrant id name [] false (en_issued e) (en_expires e)) e).
Proof.
  destruct (add_scopes_spec (en_scopes e) []) as [Hnd Hin]; [constructor|]. split; simpl.
  - eauto.
  - done.
  - intros x. rewrite Hin. set_solver.
  - destruct (en_refresh e) eqn:Ee; naive_solver.
  - unfold time_Before. rewrite Z.ltb_irrefl. split; [eauto|]. by intros x ->.
  - unfold time_After. rewrite Z.ltb_irrefl. split; [eauto|]. by intros x ->.
Qed.

(** The map summarises the tokens folded so far. *)
Definition summarises (now : Z) (P : entry → Prop) (m : gmap string Grant) : Prop :=
  ∀ cl, let Q := λ e, P e ∧ en_client e = cl ∧ (now < en_expires e)%Z in
    match m !! cl with
    | None => ∀ e, ¬ Q e
    | Some g => g_ClientID g = cl ∧ describes Q g
    end.

Lemma summarises_ext now P Q m : (∀ e, P e ↔ Q e) → summarises now P m → summarises now Q m.
Proof.
  intros Heq Hm cl. specialize (Hm cl). cbv zeta in *. destruct (m !! cl).
  - destruct Hm as [Hid Hd]. split; [done|]. eapply describes_ext; [|exact Hd]. intros e. simpl. by rewrite Heq.
  - intros e. rewrite <-Heq. apply Hm.
Qed.

Lemma summarises_collect now P m e : summarises now P m → summarises now (λ x, P x ∨ x = e) (collect_entry now m e).
Proof.
  intros Hm cl. specialize (Hm cl). cbv zeta in *. unfold collect_entry, collect, time_After.
  destruct (Z.ltb_spec now (en_expires e)) as [Hl|Hl]; simpl.
  2: { destruct (m !! cl).
    - destruct Hm as [Hid Hd]. split; [done|]. eapply describes_ext; [|exact Hd]. intros x. simpl.
      split; [naive_solver|]. intros ([?| ->] & ? & ?); [done|lia].
    - intros x ([?| ->] & ? & ?); [by destruct (Hm x)|lia]. }
  destruct (decide (cl = en_client e)) as [->|Hne].
  - rewrite lookup_insert_eq. destruct (m !! en_client e) as [g|].
    + destruct Hm as [Hid Hd]. split; [done|]. eapply describes_ext; [|exact (describes_extend _ g e Hd)].
      intros x. simpl. naive_solver.
    + split; [done|]. eapply describes_ext; [|exact (describes_first (en_client e) EmptyString e)].
      intros x. simpl. split; [naive_solver|]. intros ([?| ->] & ? & ?); [by destruct (Hm x)|done].
  - rewrite lookup_insert_ne by done. destruct (m !! cl).
    + destruct Hm as [Hid Hd]. split; [done|]. eapply describes_ext; [|exact Hd]. intros x. naive_solver.
    + intros x ([?| ->] & ? & ?); [by destruct (Hm x)|done].
Qed.

(** Folding over the keys of an index: the rows they name. *)
Lemma summarises_fold {V} now (rows : gmap string V) (f : V → entry) ks P m :
  summarises now P m →
  summarises now (λ e, P e ∨ ∃ k t, k ∈ ks ∧ rows !! k = Some t ∧ e = f t)
    (foldl (λ m k, match rows !! k with Some t => collect_entry now m (f t) | None => m end) m ks).
Proof.
  revert P m. induction ks as [|k ks IH]; intros P m Hm; simpl.
  { eapply summarises_ext; [|exact Hm]. set_solver. }
  destruct (rows !! k) as [t|] eqn:Ek.
  - eapply summarises_ext; [|apply IH, (summarises_collect now P m (f t)), Hm]. set_solver.
  - eapply summarises_ext; [|apply IH, Hm]. set_solver.
Qed.

Section grants.
Context `{Platform} `{MapOrderOk}.

Lemma Grants_locked_spec subject now s :
  oidc_wf s → subject ≠ EmptyString → summarises now (held subject s) (Grants_locked subject now s).
Proof.
  intros Hwf Hsub. unfold Grants_locked.
  assert (Hnil : summarises now (λ _, False) ∅) by (intros cl; cbv zeta; rewrite lookup_empty; naive_solver).
  eapply summarises_ext; [|apply (summarises_fold now (refreshTokens (os_refresh s)) refresh_entry),
    (summarises_fold now (accessTokens (os_access s)) access_entry _ _ _ Hnil)].
  destruct (wf_access _ Hwf) as [Hia _], (wf_refresh _ Hwf) as [[Hir _] _]. intros e. simpl. split.
  - intros [[[]|(k & t & Hk & Ht & ->)]|(k & t & Hk & Ht & ->)].
    + rewrite elem_of_range_set, Hia in Hk. destruct Hk as (_ & t' & Ht' & Hs). eapply held_access; [done|congruence].
    + rewrite elem_of_range_set, Hir in Hk. destruct Hk as (_ & t' & Ht' & Hs). eapply held_refresh; [done|congruence].
  - intros [k t Ht Hs|k t Ht Hs]; [left; right|right]; exists k, t; rewrite elem_of_range_set; split_and!; try done.
    + apply Hia. eauto.
    + apply Hir. eauto.
Qed.
End grants.

Section listing.
Context `{Platform} `{Entropy} `{MapOrderOk} {Rg Lg : Type} `{ClientRegistry Rg} `{Logger Lg} (c : oidc_config).
Local Abbreviation W := (OWorld Rg Lg).

Lemma describes_finish P names g : describes P g → describes P (finish_grant names g).
Proof.
  intros [Hs Ho Hsc Hr Hi He]. split; simpl; try done.
  - by rewrite sort_by_perm.
  - intros x. by rewrite sort_by_perm.
Qed.

(** [Grants] tells a subject exactly what clients can still do. It lists a
    client, once and in order of client ids, if and only if a live access or
    refresh token of the subject is out for it; the entry holds the scopes those
    tokens carry between them ([offline_access] aside, each once, sorted), whether
    one of them can be refreshed, the earliest issue and the latest expiry. The
    listing changes nothing, and the order maps are walked in does not show. *)
Theorem oidc_Grants_exact (w : W) subject :
  reachable c (ow_store w) → subject ≠ EmptyString →
  ∃ gs, run (OIDC_Grants subject) w = Some (w, Ok gs) ∧
    StronglySorted (key_le g_ClientID) gs ∧ NoDup (g_ClientID <$> gs) ∧
    (∀ cl, cl ∈ g_ClientID <$> gs ↔ ∃ e, live_held (ow_clock w) subject cl (ow_store w) e) ∧
    (∀ g, g ∈ gs → describes (live_held (ow_clock w) subject (g_ClientID g) (ow_store w)) g ∧
                    StronglySorted (key_le id) (g_Scopes g)).
Proof.
  intros Hwf%reachable_wf Hsub. unfold OIDC_Grants. rewrite bool_decide_false by done. run_simpl.
  pose proof (Grants_locked_spec subject (ow_clock w) (ow_store w) Hwf Hsub) as Hm.
  set (m := Grants_locked subject (ow_clock w) (ow_store w)) in *. set (names := LookupClientNames _ _).
  assert (Hids : g_ClientID <$> (finish_grant names <$> (range m).*2) = (range m).*1).
  { rewrite <-!list_fmap_compose. apply list_fmap_ext. intros i [k g] Hi. simpl.
    apply list_elem_of_lookup_2, elem_of_range in Hi. specialize (Hm k). cbv zeta in Hm. rewrite Hi in Hm. apply Hm. }
  eexists. split; [done|]. split_and!.
  - apply sort_by_sorted.
  - rewrite sort_by_perm, Hids. apply NoDup_range.
  - intros cl. rewrite sort_by_perm, Hids, elem_of_range_fst. specialize (Hm cl). cbv zeta in Hm.
    destruct (m !! cl) as [g|]; [|naive_solver]. destruct Hm as [_ [He _ _ _ _ _]]. split; [done|eauto].
  - intros g. rewrite sort_by_perm, list_elem_of_fmap. intros (g' & -> & Hg').
    apply list_elem_of_fmap in Hg' as ([k g''] & -> & Hk%elem_of_range). specialize (Hm k). cbv zeta in Hm. rewrite Hk in Hm.
    destruct Hm as [<- Hd]. simpl. split; [by apply describes_finish|apply sort_by_sorted].
Qed.
End listing.
