(* ===== verification/OidcFlow.v ===== *)
(** * The authorization code and device flows, end to end

    The calls the protocol library makes for one authorization, in order: what
    comes out of the last is what went into the first. *)

From S2P Require Import Prelude GoStd Scope Proc Tokens Client AuditLog Device Service.
From S2P Require Import OidcPolicy OidcTables OidcStore OidcWf OidcRevoke OidcShrink OidcSteps OidcFlight OidcRuns OidcProps OidcConsent.

Section flows.
Context `{Platform} `{Entropy} `{!EntropyOk} `{MapOrderOk} {Rg Lg : Type} `{ClientRegistry Rg} `{Logger Lg} (c : oidc_config).
Local Abbreviation W := (OWorld Rg Lg).

(** A value the generator draws. *)
Lemma RandomValue_run (w : W) :
  ∃ v, run RandomValue w = Some (set_oentropy (S (ow_entropy w)) w, Ok v) ∧ v ≠ EmptyString.
Proof.
  unfold RandomValue, next_random. rewrite run_call. destruct (rand_read_ok (ow_entropy w) 32) as (b & -> & Hb).
  eexists. split; [done|]. intros Hv. pose proof (RawURL_roundtrip b) as Hr. rewrite Hv in Hr. by destruct b.
Qed.

(** What a call that records an event leaves besides the log. *)
Definition same_but_log (w w' : W) : Prop :=
  ow_store w' = ow_store w ∧ ow_clock w' = ow_clock w ∧ ow_carriers w' = ow_carriers w.

Lemma orecord_event_run (w : W) e : ∃ w', run (orecord_event e) w = Some (w', Ok tt) ∧ same_but_log w w'.
Proof. unfold orecord_event. rewrite run_modify. eexists. split; [done|]. unfold same_but_log. by case_match. Qed.

(** ** The code flow *)

(** Time passes until the clock shows [t]. *)
Definition until (t : Z) : go W unit :=
  modify (λ w, mkOWorld (ow_store w) (ow_clients w) (ow_audit w) t (ow_entropy w) (ow_carriers w)).

(** The calls behind the authorization endpoint: the request, then at [t1] the
    time [auth] of the user's authentication and the consent, then at [t2] the code. *)
Definition authorize_calls (req : AuthParams) (userID : string) (t1 auth : Z) (subject : string) (scopes : list string)
    (t2 : Z) (code : string) : go W unit :=
  a ← CreateAuthRequest c req userID;
  until t1;;
  SetAuthTime (oa_ID a) auth;;
  CompleteLogin (oa_ID a) subject scopes;;
  until t2;;
  SaveAuthCode c (oa_ID a) code.

(** The calls behind the token endpoint. *)
Definition redeem_calls (code : string) : go W (AuthRequest * (string * string * Z)) :=
  ctx ← WithRevocationEpochs;
  a ← AuthRequestByCode ctx code;
  tokens ← CreateAccessAndRefreshTokens c ctx (of_auth_request a) EmptyString;
  mret (a, tokens).

Lemma CreateAuthRequest_run (w : W) req userID :
  (map_len (authRequests (os_requests (ow_store w))) < oc_maxPendingAuthRequests c)%Z →
  ∃ w' id, run (CreateAuthRequest c req userID) w = Some (w', Ok (new_auth_request id req userID)) ∧
    ow_clock w' = ow_clock w ∧ authRequests (os_requests (ow_store w')) !! id = Some (new_auth_request id req userID).
Proof.
  intros Hroom. unfold CreateAuthRequest. run_simpl. destruct (RandomValue_run w) as (id & -> & _).
  unfold on_store. run_simpl. unfold CreateAuthRequest_locked. simpl.
  destruct (Z.leb_spec (oc_maxPendingAuthRequests c) (map_len (authRequests (os_requests (ow_store w))))); [lia|].
  do 2 eexists. split_and!; [done|done|]. simpl. apply lookup_insert_eq.
Qed.

Lemma CompleteLogin_run (w : W) id a subject scopes :
  authRequests (os_requests (ow_store w)) !! id = Some a → RequiresReauthentication a (ow_clock w) = false →
  ∃ w', run (CompleteLogin id subject scopes) w = Some (w', Ok tt) ∧ ow_clock w' = ow_clock w ∧
    authRequests (os_requests (ow_store w')) !! id = Some (completed subject scopes (ow_clock w) a).
Proof.
  intros Ha Hf. unfold CompleteLogin, on_store. run_simpl. unfold CompleteLogin_locked. rewrite Ha, Hf. cbn [fst snd].
  unfold recordConsent.
  match goal with |- context [run (orecord_event ?e) ?w1] => destruct (orecord_event_run w1 e) as (w' & -> & Hs & Hc & _) end.
  exists w'. split_and!; [done|done|]. rewrite Hs. apply lookup_insert_eq.
Qed.

Lemma authorize_run (w : W) req userID t1 auth subject scopes t2 code :
  (map_len (authRequests (os_requests (ow_store w))) < oc_maxPendingAuthRequests c)%Z →
  (∀ id, RequiresReauthentication (with_auth_time (Some auth) (new_auth_request id req userID)) t1 = false) →
  ∃ w' id, run (authorize_calls req userID t1 auth subject scopes t2 code) w = Some (w', Ok tt) ∧
    codes (os_codes (ow_store w')) !! TokenHash code = Some (mkCodeRecord id (t2 + oc_requestTTL c)) ∧
    authRequests (os_requests (ow_store w')) !! id =
      Some (completed subject scopes t1 (with_auth_time (Some auth) (new_auth_request id req userID))).
Proof.
  intros Hroom Hfresh. unfold authorize_calls. rewrite run_bind.
  destruct (CreateAuthRequest_run w req userID Hroom) as (w1 & id & -> & _ & Ha1).
  unfold until. rewrite run_bind, run_modify. change (oa_ID _) with id. set (w1' := mkOWorld _ _ _ t1 _ _).
  change (ow_store w1) with (ow_store w1') in Ha1.
  unfold SetAuthTime, on_store at 1. rewrite run_bind, run_call. unfold SetAuthTime_locked. rewrite Ha1. cbv iota beta.
  set (w2 := set_store _ w1').
  destruct (CompleteLogin_run w2 id (with_auth_time (Some auth) (new_auth_request id req userID)) subject scopes)
    as (w3 & Hl & _ & Ha3); [apply lookup_insert_eq|exact (Hfresh id)|]. rewrite run_bind, Hl, run_bind, run_modify.
  unfold SaveAuthCode, on_store. rewrite run_call. do 2 eexists. split; [done|]. split; [apply lookup_insert_eq|exact Ha3].
Qed.

Lemma redeem_code_run (w : W) p code id a e :
  is_Some (ow_carriers w !! p) →
  codes (os_codes (ow_store w)) !! TokenHash code = Some (mkCodeRecord id e) → (ow_clock w < e)%Z →
  authRequests (os_requests (ow_store w)) !! id = Some a →
  ∃ w', run (AuthRequestByCode (Some p) code) w = Some (w', Ok a) ∧ ow_clock w' = ow_clock w ∧
    carries (Some p) (oa_ClientID a) (oa_Subject a) w'.
Proof.
  intros Hp Hcode Hlive Ha.
  assert (Hr : ∃ w', run (AuthRequestByCode (Some p) code) w = Some (w', Ok a) ∧ ow_clock w' = ow_clock w).
  { unfold AuthRequestByCode, on_store_ctx. rewrite run_call. unfold AuthRequestByCode_locked. rewrite Hcode. simpl.
    assert (Hb : time_Before (ow_clock w) e = true) by by apply Z.ltb_lt. rewrite Hb. simpl. rewrite Ha.
    eexists. split; [done|]. unfold write_carrier. by case_match. }
  destruct Hr as (w' & Hr & Hc). exists w'. split_and!; [done|done|]. eapply resolves_carries; [exact Hp|]. by eapply resolves_code.
Qed.

(** A first issuance under the counters its request noted. *)
Lemma mint_first_run (w : W) ctx request :
  carries ctx (ClientIDOf request) (tq_Subject request) w →
  ∃ w' acc v fam, run (CreateAccessAndRefreshTokens c ctx request EmptyString) w =
      Some (w', Ok (acc, v, (ow_clock w + oc_accessTTL c)%Z)) ∧
    ow_clock w' = ow_clock w ∧ acc ≠ EmptyString ∧
    accessTokens (os_access (ow_store w')) !! TokenHash acc = Some (new_access c acc request (ow_clock w)) ∧
    refreshTokens (os_refresh (ow_store w')) !! TokenHash v =
      Some (with_family fam (new_refresh c v acc request (ow_clock w))).
Proof.
  intros Hcar. unfold CreateAccessAndRefreshTokens, onow. run_simpl.
  destruct (RandomValue_run w) as (acc & -> & Hacc). run_simpl. set (w1 := set_oentropy _ w).
  destruct (RandomValue_run w1) as (v & -> & _). run_simpl. set (w2 := set_oentropy _ w1).
  destruct (RandomValue_run w2) as (fam & Hfam & _). unfold RandomValue in Hfam. rewrite run_call in Hfam. injection Hfam as ->.
  change (RevocationEpochsFromContext ctx w2) with (RevocationEpochsFromContext ctx w). rewrite Hcar.
  unfold CreateAccessAndRefreshTokens_locked. rewrite bool_decide_true by done. unfold mint_pair, noted.
  change (ot_clientID (new_access c acc request (ow_clock w2))) with (ClientIDOf request).
  change (ot_subject (new_access c acc request (ow_clock w2))) with (tq_Subject request).
  change (ow_store w2) with (ow_store w).
  destruct (revocationEpochsLocked (ClientIDOf request) (tq_Subject request) (revocationEpochs (ow_store w))) as [[g k] u].
  unfold RevocationUnchanged. cbn [negb re_captured re_Global re_Client re_Subject]. rewrite !Z.eqb_refl. cbn [andb negb fst snd].
  unfold orecord. run_simpl.
  match goal with |- context [run (orecord_event ?e) ?w1] => destruct (orecord_event_run w1 e) as (w' & -> & Hs & Hc & _) end.
  run_simpl. exists w', acc, v, fam. split_and!; [done|done|done|..]; rewrite Hs; apply lookup_insert_eq.
Qed.

(** What the store answers, at any time, on a pair it minted at [t]. *)
Lemma minted_answers (w : W) request acc v fam t t' subject :
  acc ≠ EmptyString → tq_Subject request = subject →
  accessTokens (os_access (ow_store w)) !! TokenHash acc = Some (new_access c acc request t) →
  refreshTokens (os_refresh (ow_store w)) !! TokenHash v = Some (with_family fam (new_refresh c v acc request t)) →
  let answers {A} (p : go W A) r := ∃ w', run (until t';; p) w = Some (w', r) in
  answers (SetIntrospectionFromToken acc subject)
    (if (t' <? t + oc_accessTTL c)%Z
     then Ok (mkIntrospection true subject (ClientIDOf request) (ot_scopes (new_access c acc request t)) (FromTime (t + oc_accessTTL c)))
     else Err ErrTokenNotFound) ∧
  answers (SetUserinfoFromToken acc subject)
    (if (t' <? t + oc_accessTTL c)%Z then Ok subject else Err errNotAnAccessToken) ∧
  (if (t' <? t + oc_refreshTTL c)%Z
   then answers (TokenRequestByRefreshToken None v) (Ok (mkRefreshRequest (TokenHash acc) (ClientIDOf request) subject
     (rf_scopes (new_refresh c v acc request t)) (rf_amr (new_refresh c v acc request t)) (rf_audience (new_refresh c v acc request t))
     (rf_authTime (new_refresh c v acc request t)) (rf_nonce (new_refresh c v acc request t))))
   else ∃ e, answers (TokenRequestByRefreshToken None v) (Err e)).
Proof.
  intros Hacc <- Hta Htr answers. unfold answers, until.
  unfold SetIntrospectionFromToken, SetUserinfoFromToken, TokenRequestByRefreshToken, on_store_ctx, onow.
  rewrite bool_decide_false by done. run_simpl. simpl. rewrite Hta. split_and!.
  - simpl. unfold time_Before. destruct (t' <? _)%Z; run_simpl; eauto.
  - simpl. rewrite bool_decide_true by done. unfold time_Before. destruct (t' <? _)%Z; run_simpl; eauto.
  - unfold TokenRequestByRefreshToken_locked. cbv zeta. rewrite Htr. simpl. unfold time_Before.
    destruct (t' <? _)%Z; simpl; [eauto|]. repeat case_match; simplify_eq; eauto.
Qed.

(** C9. The authorization code flow delivers what was consented to, for as long as
    it lasts. There is room for a request. A client's request is created; later
    the user authenticates, freshly enough for the request's [max_age] if it has
    one, and consents to some scopes; later a code is saved; and later, with no
    other call in between, the code is redeemed. From the code's deadline on that
    is refused. Before it, it answers a pair for the request's client and the
    subject, and whenever these are used: the access token introspects as active
    with exactly the consented scopes ([offline_access] aside), and userinfo
    answers for the subject, before the access token's deadline and not from then
    on; the refresh token resolves to a request for the same client, subject,
    scopes and nonce before its own deadline and not from then on. *)
Theorem oidc_code_flow (w : W) req userID t1 auth subject scopes t2 code :
  (map_len (authRequests (os_requests (ow_store w))) < oc_maxPendingAuthRequests c)%Z →
  (∀ id, RequiresReauthentication (with_auth_time (Some auth) (new_auth_request id req userID)) t1 = false) →
  ∃ w1, run (authorize_calls req userID t1 auth subject scopes t2 code) w = Some (w1, Ok tt) ∧
  ∀ t3, let redeemed := run (until t3;; redeem_calls code) w1 in
  if (t3 <? t2 + oc_requestTTL c)%Z then
    ∃ w2 a acc v, redeemed = Some (w2, Ok (a, (acc, v, (t3 + oc_accessTTL c)%Z))) ∧
    oa_ClientID a = ap_ClientID req ∧ oa_Subject a = subject ∧ oa_Scopes a = scopes ∧
    ∀ t, let answers {A} (p : go W A) r := ∃ w', run (until t;; p) w2 = Some (w', r) in
    answers (SetIntrospectionFromToken acc subject)
      (if (t <? t3 + oc_accessTTL c)%Z
       then Ok (mkIntrospection true subject (ap_ClientID req) (WithoutOfflineAccess scopes) (FromTime (t3 + oc_accessTTL c)))
       else Err ErrTokenNotFound) ∧
    answers (SetUserinfoFromToken acc subject)
      (if (t <? t3 + oc_accessTTL c)%Z then Ok subject else Err errNotAnAccessToken) ∧
    (if (t <? t3 + oc_refreshTTL c)%Z
     then ∃ r, answers (TokenRequestByRefreshToken None v) (Ok r) ∧ of_ClientID r = ap_ClientID req ∧
       of_Subject r = subject ∧ of_Scopes r = WithoutOfflineAccess scopes ∧ of_Nonce r = ap_Nonce req
     else ∃ e, answers (TokenRequestByRefreshToken None v) (Err e))
  else ∃ w2 e, redeemed = Some (w2, Err e).
Proof.
  intros Hroom Hfresh.
  destruct (authorize_run w req userID t1 auth subject scopes t2 code Hroom Hfresh) as (w1 & id & Hrun1 & Hcode & Hreq).
  exists w1. split; [done|]. intros t3. cbv zeta. set (a := completed _ _ _ _) in Hreq.
  set (w1' := mkOWorld (ow_store w1) (ow_clients w1) (ow_audit w1) t3 (ow_entropy w1) (ow_carriers w1)).
  set (p := fresh (dom (ow_carriers w1'))). set (w2 := set_carriers (<[p := emptyEpochs]> (ow_carriers w1')) w1').
  assert (Hred : run (until t3;; redeem_calls code) w1 =
    run (a ← AuthRequestByCode (Some p) code;
         tokens ← CreateAccessAndRefreshTokens c (Some p) (of_auth_request a) EmptyString; mret (a, tokens)) w2).
  { unfold redeem_calls, WithRevocationEpochs, until. by rewrite run_bind, run_modify, run_bind, run_atomic. }
  rewrite Hred. clear Hred. destruct (Z.ltb_spec t3 (t2 + oc_requestTTL c)) as [Ht3|Ht3].
  2: { rewrite run_bind. unfold AuthRequestByCode, on_store_ctx. rewrite run_call. unfold AuthRequestByCode_locked.
       change (ow_store w2) with (ow_store w1). rewrite Hcode. cbn [cd_expiresAt]. change (ow_clock w2) with t3.
       unfold time_Before. rewrite (proj2 (Z.ltb_ge _ _) Ht3). cbn [negb]. eauto. }
  destruct (redeem_code_run w2 p code id a (t2 + oc_requestTTL c)) as (w3 & Hrun2 & Hc2 & Hcar);
    [exists emptyEpochs; apply lookup_insert_eq|done|done|done|].
  destruct (mint_first_run w3 (Some p) (of_auth_request a) Hcar) as (w4 & acc & v & fam & Hrun3 & _ & Hacc & Hta & Htr).
  assert (Hck : ow_clock w3 = t3) by exact Hc2. rewrite Hck in *.
  exists w4, a, acc, v. split_and!; [|done..|].
  - rewrite run_bind, Hrun2. rewrite run_bind, Hrun3. by rewrite run_ret.
  - intros t. destruct (minted_answers w4 (of_auth_request a) acc v fam t3 t subject Hacc eq_refl Hta Htr) as (Hi & Hu & Hf).
    split_and!; [exact Hi|exact Hu|]. destruct (t <? t3 + oc_refreshTTL c)%Z; [|exact Hf]. by eexists.
Qed.

(** ** The device flow *)

(** The device authorization behind a user code, open for a decision. *)
Lemma open_device_run (w : W) userCode h d :
  userCodes (os_devices (ow_store w)) !! normalizeUserCode userCode = Some h → devices (os_devices (ow_store w)) !! h = Some d →
  dv_done d = false → dv_denied d = false → (ow_clock w < dv_expiresAt d)%Z →
  run (ask_store (λ _, DeviceByUserCode userCode)) w = Some (w, Ok (device_state d)) ∧
  device_open (ow_clock w) (device_state d) = true.
Proof.
  intros Hu Hd Hdone Hden Hlive. split.
  - unfold ask_store. run_simpl. unfold DeviceByUserCode. by rewrite Hu, Hd.
  - unfold device_open. simpl. rewrite Hdone, Hden. simpl. unfold time_After. apply negb_true_iff, Z.ltb_ge. lia.
Qed.

Lemma approve_open userCode subject scopes now s h d :
  userCodes (os_devices s) !! normalizeUserCode userCode = Some h → devices (os_devices s) !! h = Some d →
  dv_done d = false → dv_denied d = false → time_Before now (dv_expiresAt d) = true →
  approveDevice_locked userCode subject scopes now s =
    (put_device h (approve_record subject scopes now d) s, Ok (dv_clientID d, default (dv_scopes d) scopes)).
Proof. intros Hu Hd Hdone Hden Hb. unfold approveDevice_locked. rewrite Hu, Hd. simpl. by rewrite Hdone, Hden, Hb. Qed.

Lemma deny_open userCode s h d :
  userCodes (os_devices s) !! normalizeUserCode userCode = Some h → devices (os_devices s) !! h = Some d →
  dv_denied d = false → DenyDevice_locked userCode s = (put_device h (deny_record d) s, Ok (dv_clientID d)).
Proof. intros Hu Hd Hden. unfold DenyDevice_locked. rewrite Hu, Hd. simpl. by rewrite Hden. Qed.

Lemma write_carrier_same ctx (w : W) s :
  s = ow_store w → write_carrier ctx (RevocationEpochsFromContext ctx w) (set_store s w) = w.
Proof.
  intros ->. unfold write_carrier, RevocationEpochsFromContext. destruct ctx as [p|]; [|by destruct w].
  destruct w as [s r l k n m]. simpl. destruct (m !! p) as [b|] eqn:E; [|done]. unfold set_carriers. simpl. by rewrite insert_id.
Qed.
Lemma write_carrier_store ctx b (w : W) : ow_store (write_carrier ctx b w) = ow_store w.
Proof. unfold write_carrier. by repeat case_match. Qed.

(** C24. The device flow delivers a decision once. A pending device authorization
    is decided by the signed-in user through its user code, in any spelling. An
    approval within consent answers the next poll of the right client with the
    subject and exactly the granted scopes and is then gone, so no second poll
    sees it; a refusal is what the next poll reports. Another client polling the
    device code learns nothing and disturbs nothing. *)
Theorem oidc_device_flow (w : W) ctx userCode subject approve approved explicit deviceCode d :
  reachable c (ow_store w) → subject ≠ EmptyString →
  devices (os_devices (ow_store w)) !! TokenHash deviceCode = Some d →
  normalizeUserCode userCode = normalizeUserCode (dv_userCode d) →
  dv_done d = false → dv_denied d = false → (ow_clock w < dv_expiresAt d)%Z →
  (∀ other, other ≠ dv_clientID d →
     run (GetDeviceAuthorizatonState ctx other deviceCode) w = Some (w, Err (New "memory: device authorization not found"))) ∧
  (∀ granted, approve = true → granted_scopes c (dv_scopes d) (dv_clientID d) approved explicit = Ok granted →
   ∃ w1 w2 st, run (OIDC_DecideDevice c userCode subject approve approved explicit) w = Some (w1, Ok tt) ∧
     run (GetDeviceAuthorizatonState ctx (dv_clientID d) deviceCode) w1 = Some (w2, Ok st) ∧
     ds_Done st = true ∧ ds_Denied st = false ∧ ds_Subject st = subject ∧ ds_Scopes st = granted ∧
     device_dead deviceCode (ow_store w2)) ∧
  (approve = false →
   ∃ w1 w2 st, run (OIDC_DecideDevice c userCode subject approve approved explicit) w = Some (w1, Ok tt) ∧
     run (GetDeviceAuthorizatonState ctx (dv_clientID d) deviceCode) w1 = Some (w2, Ok st) ∧
     ds_Done st = false ∧ ds_Denied st = true).
Proof.
  intros Hwf%reachable_wf Hsub Hd Hcode Hdone Hden Hlive.
  destruct (proj1 (wf_devices _ Hwf) _ _ Hd) as [_ Hu]. rewrite <-Hcode in Hu.
  destruct (open_device_run w userCode (TokenHash deviceCode) d Hu Hd Hdone Hden Hlive) as [Hst Hop].
  assert (Hbef : time_Before (ow_clock w) (dv_expiresAt d) = true) by by apply Z.ltb_lt.
  split_and!.
  - intros other Hne. unfold GetDeviceAuthorizatonState, on_store_ctx. rewrite run_call.
    unfold GetDeviceAuthorizatonState_locked. rewrite Hd, bool_decide_false by done. simpl. do 2 f_equal.
    by apply write_carrier_same.
  - intros granted -> Hg. unfold OIDC_DecideDevice. rewrite bool_decide_false by done. unfold onow. run_simpl.
    rewrite Hst. run_simpl. rewrite Hop. cbn [negb]. change (ds_Scopes (device_state d)) with (dv_scopes d).
    change (ds_ClientID (device_state d)) with (dv_clientID d). rewrite Hg. run_simpl. unfold approveDevice, on_store. run_simpl.
    rewrite (approve_open _ _ _ _ _ _ _ Hu Hd Hdone Hden Hbef). cbn [fst snd].
    unfold recordConsent.
    match goal with |- context [run (orecord_event ?e) ?w1] => destruct (orecord_event_run w1 e) as (w1' & -> & Hs & Hc & _) end.
    eexists w1'. unfold GetDeviceAuthorizatonState, on_store_ctx. rewrite run_call, Hs, Hc.
    unfold GetDeviceAuthorizatonState_locked. cbn [ow_store set_store ow_clock put_device set_devices os_devices devices].
    rewrite lookup_insert_eq. simpl. rewrite bool_decide_true by done. rewrite Hden, Hbef. simpl.
    do 2 eexists. split_and!; [done|done|done|done|done|done|]. apply device_gone.
    rewrite write_carrier_store. simpl. apply lookup_delete_eq.
  - intros ->. unfold OIDC_DecideDevice. rewrite bool_decide_false by done. unfold onow. run_simpl.
    rewrite Hst. run_simpl. rewrite Hop. cbn [negb]. unfold DenyDevice, on_store. run_simpl.
    rewrite (deny_open _ _ _ _ Hu Hd Hden). cbn [fst snd]. unfold orecord.
    match goal with |- context [run (orecord_event ?e) ?w1] => destruct (orecord_event_run w1 e) as (w1' & -> & Hs & Hc & _) end.
    eexists w1'. unfold GetDeviceAuthorizatonState, on_store_ctx. rewrite run_call, Hs, Hc.
    unfold GetDeviceAuthorizatonState_locked. cbn [ow_store set_store ow_clock put_device set_devices os_devices devices].
    rewrite lookup_insert_eq. simpl. rewrite bool_decide_true by done. rewrite Hdone. simpl. by do 2 eexists.
Qed.

(** ** A rotation refused in flight *)

(** A rotation the store refuses because a revocation landed in flight still
    spends the presented refresh token: its row is gone and a residue is in its
    place, so presenting it again, while it would still be live, is taken for a
    replay and costs the whole family. The counters a revocation moves are the
    client's and the subject's, so revoking one client of a subject does this to
    another client's rotation. *)
Theorem oidc_refused_rotation_spends (w : W) ctx ctx' request v held b :
  reachable c (ow_store w) → v ≠ EmptyString →
  refreshTokens (os_refresh (ow_store w)) !! TokenHash v = Some held → (ow_clock w < rf_expiresAt held)%Z →
  RevocationEpochsFromContext ctx w = Some b →
  (let '(g, cl, sub) := revocationEpochsLocked (ClientIDOf request) (tq_Subject request) (revocationEpochs (ow_store w)) in
   RevocationUnchanged (Some b) g cl sub = false) →
  ∃ w1 w2,
    run (CreateAccessAndRefreshTokens c ctx request v) w = Some (w1, Err ErrGrantRevokedInFlight) ∧
    run (TokenRequestByRefreshToken ctx' v) w1 = Some (w2, Err ErrRefreshTokenSpent) ∧
    family_gone (rf_familyID held) (ow_store w1) (ow_store w2).
Proof.
  intros Hwf%reachable_wf Hv Hh Hlive Hb Hmoved.
  assert (Hfam : rf_familyID held ≠ EmptyString) by by apply (wf_families _ Hwf _ _ Hh).
  unfold CreateAccessAndRefreshTokens, onow. run_simpl.
  destruct (RandomValue_run w) as (acc & -> & _). run_simpl. set (w0 := set_oentropy _ w).
  destruct (RandomValue_run w0) as (v' & -> & _). run_simpl. set (w0' := set_oentropy _ w0).
  change (RevocationEpochsFromContext ctx w0') with (RevocationEpochsFromContext ctx w). rewrite Hb.
  unfold CreateAccessAndRefreshTokens_locked. rewrite bool_decide_false by done. change (ow_store w0') with (ow_store w).
  cbv zeta. rewrite Hh, (bool_decide_false (rf_familyID held = _)) by done. unfold mint_pair.
  change (ot_clientID (new_access c acc request (ow_clock w0'))) with (ClientIDOf request).
  change (ot_subject (new_access c acc request (ow_clock w0'))) with (tq_Subject request).
  set (s1 := spend c (TokenHash v) (rf_familyID held) held (ow_store w)).
  change (revocationEpochs s1) with (revocationEpochs (ow_store w)).
  destruct (revocationEpochsLocked (ClientIDOf request) (tq_Subject request) (revocationEpochs (ow_store w))) as [[g k] u].
  rewrite Hmoved. cbn [negb fst snd].
  assert (Hrow : refreshTokens (os_refresh s1) !! TokenHash v = None).
  { unfold s1, spend. rewrite drop_refresh_tokens. apply lookup_delete_eq. }
  assert (Hts : refreshTombstones s1 !! TokenHash v = Some (mkTombstone (rf_familyID held) (rf_idHash held) (rf_clientID held)
    (rf_subject held) (rf_expiresAt held))) by (unfold s1; simpl; apply lookup_insert_eq).
  destruct (replay_run ctx' (set_store s1 w0') v _ Hrow Hts) as (w2 & Hr & Hs2 & _); [by apply Z.ltb_lt|].
  exists (set_store s1 w0'), w2. split_and!; [done|exact Hr|]. rewrite Hs2. by apply revokeFamily_gone.
Qed.
End flows.
