(* ===== verification/OidcDemo.v ===== *)
(** * Closed examples of the OpenID Provider store

    A store reached by a short run of calls, and the properties of the store and
    its methods evaluated in it. *)

From S2P Require Import Prelude GoStd Scope Proc Tokens Client AuditLog Device Service ServiceRun Demo.
From S2P Require Import OidcPolicy OidcTables OidcStore OidcWf OidcRevoke OidcShrink OidcSteps OidcFlight OidcRuns OidcProps.
From S2P Require Import OidcConsent OidcGrants OidcFlow.

#[local] Existing Instance toy_platform.
#[local] Existing Instance demo_entropy.
#[local] Existing Instance demo_entropy_ok.
#[local] Existing Instance canonical_order.
#[local] Existing Instance canonical_order_ok.

Definition demo_signer : Signer := NewSigner "kid-1" (Some (2 ^ 2047)%Z).
Definition demo_options : OIDCOptions MemoryClientRegistry :=
  mkOIDCOptions (Some demo_clients) (Some demo_registry) (Some demo_signer) 100 2 3 3.
Definition demo_oidc : oidc_config * OIDCStore * MemoryClientRegistry :=
  match NewOIDCStore None demo_options with
  | Ok r => r
  | Err _ => (mkOIDCConfig emptyRegistry demo_signer 0 0 0 0 0 0, emptyOIDCStore, demo_clients)
  end.
Definition demo_conf : oidc_config := demo_oidc.1.1.

(** Two generations of one family, for one client and subject. *)
Definition demo_request_of (clientID subject : string) : TokenRequest :=
  mkTokenRequest subject [ScopeOpenID; ScopeAccountID; ScopeOfflineAccess] (Some clientID) (Some 5%Z) None None (Some "n").
Definition pair_of (clientID subject acc value : string) (now : Z) : accessToken * refreshToken :=
  (new_access demo_conf acc (demo_request_of clientID subject) now,
   new_refresh demo_conf value acc (demo_request_of clientID subject) now).

Definition demo_s1 : OIDCStore :=
  let '(a, r) := pair_of "app" "alice" "acc-1" "ref-1" 10 in
  (CreateAccessAndRefreshTokens_locked demo_conf a r EmptyString None (Ok "family") emptyOIDCStore).1.
Definition demo_s2 : OIDCStore :=
  let '(a, r) := pair_of "app" "alice" "acc-2" "ref-2" 20 in
  (CreateAccessAndRefreshTokens_locked demo_conf a r "ref-1" None (Ok "unused") demo_s1).1.
(** A pending device authorization, a request and the code minted from it. *)
Definition demo_s3 : OIDCStore :=
  (StoreDeviceAuthorization demo_conf "app" "device" "ABCD-EFGH" 500 [ScopeOpenID; ScopeAccountID] 20 demo_s2).1.
Definition demo_params : AuthParams :=
  mkAuthParams "app" "https://app.example/cb" "code" EmptyString [ScopeOpenID; ScopeAccountID] "st" "n" EmptyString EmptyString [] None.
Definition demo_s4 : OIDCStore := (CreateAuthRequest_locked demo_conf "request" demo_params "alice" 20 demo_s3).1.
Definition demo_s5 : OIDCStore := (SaveAuthCode_locked demo_conf "request" "code" 60 demo_s4).1.

(** A condition on every entry of a closed map. *)
Ltac by_map P m := exact (bool_decide_unpack (map_Forall P m) ltac:(vm_compute; exact I)).

Lemma demo_run1 : oidc_run demo_conf emptyOIDCStore [l_minted (TokenHash "ref-1")] demo_s1.
Proof.
  apply (run_snoc demo_conf emptyOIDCStore [] emptyOIDCStore); [constructor|].
  apply (st_mint demo_conf (pair_of "app" "alice" "acc-1" "ref-1" 10).1 (pair_of "app" "alice" "acc-1" "ref-1" 10).2);
    [done| |done|done]. split; [|done]. split_and!; [done| |].
  - by_map (λ (_ : string) t, rf_idHash t ≠ TokenHash "acc-1") (refreshTokens (os_refresh emptyOIDCStore)).
  - by_map (λ (_ : string) t, ts_idHash t ≠ TokenHash "acc-1") (refreshTombstones emptyOIDCStore).
Qed.

Lemma demo_fresh2 : let '(a, r) := pair_of "app" "alice" "acc-2" "ref-2" 20 in fresh_pair a r demo_s1.
Proof.
  split; [|vm_compute; reflexivity]. split_and!; [vm_compute; reflexivity| |].
  - by_map (λ (_ : string) t, rf_idHash t ≠ TokenHash "acc-2") (refreshTokens (os_refresh demo_s1)).
  - by_map (λ (_ : string) t, ts_idHash t ≠ TokenHash "acc-2") (refreshTombstones demo_s1).
Qed.

Lemma demo_step2 : oidc_step demo_conf (l_minted (TokenHash "ref-2")) demo_s1 demo_s2.
Proof.
  apply (st_mint demo_conf (pair_of "app" "alice" "acc-2" "ref-2" 20).1 (pair_of "app" "alice" "acc-2" "ref-2" 20).2);
    [done|exact demo_fresh2|done|done].
Qed.

Definition demo_labels : list label :=
  [l_minted (TokenHash "ref-1"); l_minted (TokenHash "ref-2"); l_stored (TokenHash "device"); l_quiet; l_saved (TokenHash "code")].

Lemma demo_run5 : oidc_run demo_conf emptyOIDCStore demo_labels demo_s5.
Proof.
  apply (run_snoc demo_conf emptyOIDCStore [_; _; _; _] demo_s4); [|apply st_save_code].
  apply (run_snoc demo_conf emptyOIDCStore [_; _; _] demo_s3); [|apply st_create_request; vm_compute; reflexivity].
  apply (run_snoc demo_conf emptyOIDCStore [_; _] demo_s2); [|apply st_store_device; vm_compute; reflexivity].
  apply (run_snoc demo_conf emptyOIDCStore [_] demo_s1); [apply demo_run1|apply demo_step2].
Qed.

Lemma demo_reachable1 : reachable demo_conf demo_s1.
Proof. eexists. apply demo_run1. Qed.
Lemma demo_reachable5 : reachable demo_conf demo_s5.
Proof. eexists. apply demo_run5. Qed.

(** The store in its world, at a time and with the carriers of some requests. *)
Definition demo_oworld (s : OIDCStore) (now : Z) (carriers : gmap nat RevocationEpochs) : OWorld MemoryClientRegistry MemoryLogger :=
  mkOWorld s demo_clients (Some NewMemoryLogger) now 0 carriers.

(** The world a run ends in. *)
Definition world_after {A} (p : go (OWorld MemoryClientRegistry MemoryLogger) A) (w : OWorld MemoryClientRegistry MemoryLogger)
    : OWorld MemoryClientRegistry MemoryLogger :=
  match run p w with Some (w', _) => w' | None => w end.
Definition result_of {A} (d : A) (p : go (OWorld MemoryClientRegistry MemoryLogger) A) (w : OWorld MemoryClientRegistry MemoryLogger) : A :=
  match run p w with Some (_, Ok a) => a | _ => d end.
Definition succeeds {A} (p : go (OWorld MemoryClientRegistry MemoryLogger) A) (w : OWorld MemoryClientRegistry MemoryLogger) : bool :=
  match run p w with Some (_, Ok _) => true | _ => false end.

Lemma run_succeeds {A} (d : A) p w : succeeds p w = true → run p w = Some (world_after p w, Ok (result_of d p w)).
Proof. unfold succeeds, world_after, result_of. by destruct (run p w) as [[w' [a|e]]|]. Qed.

(** ** Witnesses *)

Lemma oidc_indexes_reachable_witness : oidc_wf demo_s5.
Proof. exact (oidc_indexes_reachable demo_conf demo_labels demo_s5 demo_run5). Defined.

Lemma oidc_bounded_witness : bounded demo_conf demo_s5.
Proof. exact (oidc_bounded None demo_options demo_conf emptyOIDCStore demo_clients demo_labels demo_s5 eq_refl demo_run5). Defined.

(** The code is redeemed; a second presentation is refused. *)
Definition demo_redeemed : OIDCStore := (AuthRequestByCode_locked "code" 70 None demo_s5).1.1.
Definition demo_approved : AuthRequest :=
  match (AuthRequestByCode_locked "code" 70 None demo_s5).2 with Ok a => a | Err _ => new_auth_request EmptyString demo_params EmptyString end.

Lemma demo_redeems : AuthRequestByCode_locked "code" 70 None demo_s5 = (demo_redeemed, None, Ok demo_approved).
Proof.
  assert (Hb : (AuthRequestByCode_locked "code" 70 None demo_s5).1.2 = None) by (vm_compute; reflexivity).
  assert (Ho : match (AuthRequestByCode_locked "code" 70 None demo_s5).2 with Ok _ => true | Err _ => false end = true)
    by (vm_compute; reflexivity).
  unfold demo_redeemed, demo_approved. destruct (AuthRequestByCode_locked "code" 70 None demo_s5) as [[s1 b] [a|e]]; simpl in *; congruence.
Qed.

Lemma oidc_single_use_witness : code_dead "code" demo_redeemed.
Proof.
  destruct (oidc_single_use demo_conf demo_s5 demo_redeemed demo_redeemed [] demo_reachable5 (run_nil demo_conf demo_redeemed)) as [Hc _].
  exact (Hc "code" 70%Z None None demo_approved demo_redeems (not_elem_of_nil _)).
Defined.

Lemma oidc_revocation_exact_witness :
  abs (RevokeGrant_locked "alice" "app" demo_s5) =
    spec_revoke "app" "alice" (λ cl sub, owned "alice" "app" sub cl) (abs demo_s5).
Proof.
  pose proof (oidc_revocation_exact demo_conf demo_s5 (mkFilter "app" "alice") "alice" "app" demo_reachable5 ltac:(discriminate)) as Hx.
  destruct Hx as (_ & Hg & _). exact Hg.
Defined.

Lemma oidc_sweep_exact_witness :
  ∃ s' n, OIDC_SweepExpired 1000 demo_s5 = (s', n) ∧ abs s' = spec_sweep 1000 (abs demo_s5) ∧ n = spec_swept 1000 (abs demo_s5).
Proof.
  pose proof (oidc_sweep_exact demo_conf 1000 demo_s5 demo_reachable5) as Hx.
  destruct (OIDC_SweepExpired 1000 demo_s5) as [s' n]. exists s', n. split; [reflexivity|exact Hx].
Defined.

Lemma oidc_RevokeToken_exact_witness :
  ∃ w', run (RevokeToken "acc-2" "alice" "app") (demo_oworld demo_s5 30 ∅) = Some (w', Ok tt).
Proof.
  destruct (oidc_RevokeToken_exact demo_conf (demo_oworld demo_s5 30 ∅) "acc-2" "alice" "app" demo_reachable5) as (w' & Hr & _).
  exists w'. exact Hr.
Defined.

(** The first generation was rotated away; presenting it again is a replay. *)
Definition demo_spent : refreshTombstone :=
  mkTombstone "family" (TokenHash "acc-1") "app" "alice" (10 + oc_refreshTTL demo_conf).

Lemma oidc_replay_kills_family_witness :
  ∃ w', run (TokenRequestByRefreshToken None "ref-1") (demo_oworld demo_s5 30 ∅) = Some (w', Err ErrRefreshTokenSpent).
Proof.
  destruct (oidc_replay_kills_family demo_conf None (demo_oworld demo_s5 30 ∅) "ref-1" demo_spent demo_reachable5
    ltac:(vm_compute; reflexivity) ltac:(vm_compute; reflexivity) ltac:(vm_compute; reflexivity)) as (w' & Hr & _).
  exists w'. exact Hr.
Defined.

Definition demo_held : refreshToken :=
  with_family "family" (pair_of "app" "alice" "acc-1" "ref-1" 10).2.
Definition demo_rotate : go (OWorld MemoryClientRegistry MemoryLogger) (string * string * Z) :=
  CreateAccessAndRefreshTokens demo_conf None (demo_request_of "app" "alice") "ref-1".
Definition demo_tokens3 : string * string * Z := result_of (EmptyString, EmptyString, 0%Z) demo_rotate (demo_oworld demo_s1 20 ∅).

Lemma demo_rotates :
  run demo_rotate (demo_oworld demo_s1 20 ∅) =
    Some (world_after demo_rotate (demo_oworld demo_s1 20 ∅), Ok (demo_tokens3.1.1, demo_tokens3.1.2, demo_tokens3.2)).
Proof.
  rewrite <-!surjective_pairing. apply (run_succeeds (EmptyString, EmptyString, 0%Z)). vm_compute. reflexivity.
Qed.

(** The rotation, a sweep, and the replay. *)
#[local] Abbreviation demo_rotated := (world_after demo_rotate (demo_oworld demo_s1 20 ∅)).
#[local] Abbreviation demo_swept := (set_store (OIDC_SweepExpired 25 (ow_store demo_rotated)).1 demo_rotated).
Lemma demo_sweep_run : oidc_run demo_conf (ow_store demo_rotated) [l_quiet] (ow_store demo_swept).
Proof. apply (run_snoc demo_conf _ [] (ow_store demo_rotated)); [constructor|]. exact (st_sweep demo_conf 25 (ow_store demo_rotated)). Qed.


Lemma set_store_carriers s (w : OWorld MemoryClientRegistry MemoryLogger) : ow_carriers (set_store s w) = ow_carriers w.
Proof. reflexivity. Qed.

(** A request resolves the live refresh token; the grant is revoked; the mint
    that follows is refused. *)
Definition demo_w0 : OWorld MemoryClientRegistry MemoryLogger := demo_oworld demo_s5 30 {[ 0 := emptyEpochs ]}.
Definition demo_resolve : go (OWorld MemoryClientRegistry MemoryLogger) RefreshRequest := TokenRequestByRefreshToken (Some 0) "ref-2".
Definition demo_w1 : OWorld MemoryClientRegistry MemoryLogger := world_after demo_resolve demo_w0.
Definition demo_r1 : RefreshRequest :=
  result_of (mkRefreshRequest EmptyString EmptyString EmptyString [] [] [] None EmptyString) demo_resolve demo_w0.
#[local] Abbreviation demo_w2 := (set_store (RevokeGrant_locked "alice" "app" (ow_store demo_w1)) demo_w1).

Lemma demo_resolves : resolves (Some 0) demo_w0 demo_w1 "app" "alice".
Proof.
  refine (resolves_refresh (Some 0) demo_w0 "ref-2" demo_w1 demo_r1 _).
  exact (run_succeeds _ demo_resolve demo_w0 ltac:(vm_compute; reflexivity)).
Qed.

Lemma demo_revoked : oidc_run demo_conf (ow_store demo_w1) [l_revoked "app" "alice"] (ow_store demo_w2).
Proof.
  apply (run_snoc demo_conf _ [] (ow_store demo_w1)); [constructor|].
  exact (st_revoke_grant demo_conf "alice" "app" (ow_store demo_w1) ltac:(done) ltac:(done)).
Qed.

Lemma revoked_in_flight_witness :
  ∃ w3 e, run (CreateAccessAndRefreshTokens demo_conf (Some 0) (of_refresh_request demo_r1) "ref-2") demo_w2 = Some (w3, Err e).
Proof.
  destruct (revoked_in_flight demo_conf 0 demo_w0 demo_w1 demo_w2 [l_revoked "app" "alice"] "app" "alice" "app" "alice"
    (of_refresh_request demo_r1) "ref-2") as (w3 & e & Hr & _).
  - exists emptyEpochs. reflexivity.
  - exact demo_resolves.
  - exact demo_revoked.
  - rewrite set_store_carriers. reflexivity.
  - apply list_elem_of_singleton. reflexivity.
  - reflexivity.
  - reflexivity.
  - vm_compute. reflexivity.
  - vm_compute. reflexivity.
  - exists w3, e. exact Hr.
Defined.

(** ** Consent, login and the flows *)

Lemma demo_conf_registry : registry_wf (oc_registry demo_conf).
Proof. exact demo_registry_wf. Qed.

Lemma granted_scopes_exact_witness :
  granted_scopes demo_conf [ScopeOpenID; ScopeAccountID] "app" None [] = Ok [ScopeOpenID; ScopeAccountID; ScopeOfflineAccess] ∧
  ScopeAccountID ∈ [ScopeOpenID; ScopeAccountID; ScopeOfflineAccess].
Proof.
  assert (Hok : granted_scopes demo_conf [ScopeOpenID; ScopeAccountID] "app" None [] =
    Ok [ScopeOpenID; ScopeAccountID; ScopeOfflineAccess]) by (vm_compute; reflexivity).
  split; [exact Hok|].
  destruct (granted_scopes_exact demo_conf [ScopeOpenID; ScopeAccountID] "app" None [] demo_conf_registry) as [_ Hg].
  apply (Hg _ Hok). right. left. right. left.
Defined.

Lemma demo_no_max_age a age :
  authRequests (os_requests demo_s5) !! "request" = Some a → oa_MaxAge a = Some age → (0 ≤ age)%Z.
Proof.
  intros Ha Hage. exfalso.
  assert (Hall : map_Forall (λ (_ : string) a, oa_MaxAge a = None) (authRequests (os_requests demo_s5)))
    by by_map (λ (_ : string) a, oa_MaxAge a = None) (authRequests (os_requests demo_s5)).
  rewrite (Hall _ _ Ha) in Hage. discriminate.
Qed.

Lemma CompleteLogin_exact_witness :
  ∃ w', run (CompleteLogin "request" "alice" [ScopeOpenID]) (demo_oworld demo_s5 30 ∅) = Some (w', Ok tt).
Proof.
  destruct (CompleteLogin_exact demo_conf (demo_oworld demo_s5 30 ∅) "request" "alice" [ScopeOpenID] demo_no_max_age demo_reachable5)
    as (w' & r & Hr & Hok & _).
  exists w'. rewrite Hr. assert (Hr' : r = Ok tt); [|rewrite Hr'; reflexivity]. apply Hok.
  destruct (authRequests (os_requests demo_s5) !! "request") as [a|] eqn:Ea; [|vm_compute in Ea; discriminate].
  exists a. split; [exact Ea|]. intros age Hage.
  assert (Hall : map_Forall (λ (_ : string) a, oa_MaxAge a = None) (authRequests (os_requests demo_s5)))
    by by_map (λ (_ : string) a, oa_MaxAge a = None) (authRequests (os_requests demo_s5)).
  rewrite (Hall _ _ Ea) in Hage. discriminate.
Defined.

Lemma oidc_Grants_exact_witness :
  ∃ gs, run (OIDC_Grants "alice") (demo_oworld demo_s5 30 ∅) = Some (demo_oworld demo_s5 30 ∅, Ok gs) ∧
    NoDup (g_ClientID <$> gs).
Proof.
  destruct (oidc_Grants_exact demo_conf (demo_oworld demo_s5 30 ∅) "alice" demo_reachable5 ltac:(discriminate)) as (gs & Hr & _ & Hn & _).
  exists gs. split; [exact Hr|exact Hn].
Defined.

(** The request asks for an authentication of the last ten minutes. *)
Definition demo_max_age : AuthParams :=
  mkAuthParams (ap_ClientID demo_params) (ap_RedirectURI demo_params) (ap_ResponseType demo_params) (ap_ResponseMode demo_params)
    (ap_Scopes demo_params) (ap_State demo_params) (ap_Nonce demo_params) (ap_CodeChallenge demo_params)
    (ap_CodeChallengeMethod demo_params) (ap_Prompt demo_params) (Some 600%Z).

Lemma oidc_code_flow_witness :
  ∃ (w1 w2 w3 : OWorld MemoryClientRegistry MemoryLogger) a acc v exp,
    run (authorize_calls demo_conf demo_max_age EmptyString 40 35 "bob" [ScopeOpenID] 50 "code-2") (demo_oworld demo_s5 30 ∅) =
      Some (w1, Ok tt) ∧
    run (until 55;; redeem_calls demo_conf "code-2") w1 = Some (w2, Ok (a, (acc, v, exp))) ∧
    run (until 60;; SetUserinfoFromToken acc "bob") w2 = Some (w3, Ok "bob").
Proof.
  destruct (oidc_code_flow demo_conf (demo_oworld demo_s5 30 ∅) demo_max_age EmptyString 40 35 "bob" [ScopeOpenID] 50 "code-2")
    as (w1 & Hr & Hx).
  - vm_compute. reflexivity.
  - reflexivity.
  - specialize (Hx 55%Z). cbv zeta in Hx.
    assert (Hlive : (55 <? 50 + oc_requestTTL demo_conf)%Z = true) by (vm_compute; reflexivity). rewrite Hlive in Hx.
    destruct Hx as (w2 & a & acc & v & Hred & _ & _ & _ & Hans). destruct (Hans 60%Z) as (_ & [w3 Hu] & _).
    exists w1, w2, w3, a, acc, v, (55 + oc_accessTTL demo_conf)%Z. split; [exact Hr|]. split; [exact Hred|exact Hu].
Defined.

Definition demo_device : deviceRecord :=
  mkDeviceRecord (TokenHash "device") "ABCD-EFGH" "app" [ScopeOpenID; ScopeAccountID] 500 false false EmptyString 0 0.

Lemma oidc_device_flow_witness :
  ∃ w1 w2 st, run (OIDC_DecideDevice demo_conf "abcdefgh" "bob" true None []) (demo_oworld demo_s5 30 ∅) = Some (w1, Ok tt) ∧
    run (GetDeviceAuthorizatonState None "app" "device") w1 = Some (w2, Ok st) ∧ ds_Subject st = "bob".
Proof.
  destruct (oidc_device_flow demo_conf (demo_oworld demo_s5 30 ∅) None "abcdefgh" "bob" true None [] "device" demo_device
    demo_reachable5 ltac:(discriminate) ltac:(vm_compute; reflexivity) ltac:(vm_compute; reflexivity) eq_refl eq_refl
    ltac:(vm_compute; reflexivity)) as (_ & Hok & _).
  destruct (Hok [ScopeOpenID; ScopeAccountID; ScopeOfflineAccess] eq_refl ltac:(vm_compute; reflexivity))
    as (w1 & w2 & st & Hd & Hp & _ & _ & Hs & _).
  exists w1, w2, st. split; [exact Hd|split; [exact Hp|exact Hs]].
Defined.

(** Another client of the subject is revoked while a rotation is in flight. *)
Definition demo_s6 : OIDCStore := RevokeGrant_locked "alice" "other" demo_s5.
Lemma demo_reachable6 : reachable demo_conf demo_s6.
Proof.
  exists (demo_labels ++ [l_revoked "other" "alice"]). apply (run_snoc demo_conf _ demo_labels demo_s5); [apply demo_run5|].
  exact (st_revoke_grant demo_conf "alice" "other" demo_s5 ltac:(done) ltac:(done)).
Qed.

Lemma oidc_refused_rotation_spends_witness :
  ∃ w1 w2, run (CreateAccessAndRefreshTokens demo_conf (Some 0) (demo_request_of "app" "alice") "ref-2")
      (demo_oworld demo_s6 30 {[ 0 := mkEpochs 0 0 0 true ]}) = Some (w1, Err ErrGrantRevokedInFlight) ∧
    run (TokenRequestByRefreshToken None "ref-2") w1 = Some (w2, Err ErrRefreshTokenSpent).
Proof.
  destruct (oidc_refused_rotation_spends demo_conf (demo_oworld demo_s6 30 {[ 0 := mkEpochs 0 0 0 true ]}) (Some 0) None
    (demo_request_of "app" "alice") "ref-2" (with_family "family" (pair_of "app" "alice" "acc-2" "ref-2" 20).2)
    (mkEpochs 0 0 0 true) demo_reachable6 ltac:(discriminate) ltac:(vm_compute; reflexivity) ltac:(vm_compute; reflexivity)
    eq_refl ltac:(vm_compute; reflexivity)) as (w1 & w2 & Hm & Hr & _).
  exists w1, w2. split; [exact Hm|exact Hr].
Defined.

(** ** What a sweep takes from a live code *)

(** A code outlives the request it was minted from when it is saved later: the
    sweep takes the request, and the code, still live, can no longer be redeemed. *)
Example swept_code :
  is_ok (AuthRequestByCode_locked "code" 130 None demo_s5).2 = true ∧
  is_ok (AuthRequestByCode_locked "code" 130 None (OIDC_SweepExpired 130 demo_s5).1).2 = false.
Proof. split; vm_compute; reflexivity. Qed.
