(* ===== verification/Account.v ===== *)
(** * Accounts and their linked identities ([internal/account/account.go])

    The in-memory account store: the users, the external identities linked to
    them, the lookup by provider and subject, and the per-user index. It is shown
    to be one map from external identities to the account that owns each, with the
    package's invariants: an account exists exactly while it owns an identity
    (I-2), and an identity is never linked to a second account (I-3). *)

From S2P Require Import Prelude GoStd.

(** ** Data *)

Definition ErrAccountNotFound : error := New "account: not found".
Definition ErrIdentityTaken : error := New "account: identity is already linked to another account".
Definition ErrLastIdentity : error := New "account: cannot unlink the last identity".

(** [idp.Identity] and its [Validate]; [None] is the nil error. *)
Record IdpIdentity := mkIdp {
  ip_Provider : string;
  ip_Subject : string;
  ip_DisplayName : string;
  ip_Email : string;
  ip_AvatarURL : string;
}.

Definition Idp_Validate (i : IdpIdentity) : option error :=
  if bool_decide (ip_Provider i = EmptyString) then Some (New "idp: identity has no provider")
  else if bool_decide (ip_Subject i = EmptyString)
  then Some (New ("idp: " +:+ ip_Provider i +:+ " identity has no subject"))
  else None.

Record User := mkUser {
  us_ID : string;
  us_PrimaryIdentity : string;
  us_CreatedAt : Z;
}.

(** [account.Identity]. *)
Record LinkedIdentity := mkLinked {
  li_ID : string;
  li_User : string;
  li_Provider : string;
  li_Subject : string;
  li_DisplayName : string;
  li_Email : string;
  li_AvatarURL : string;
  li_LinkedAt : Z;
  li_LastLoginAt : Z;
}.

(** [identityKey]. *)
Definition identityKey (i : LinkedIdentity) : string * string := (li_Provider i, li_Subject i).

(** [MemoryStore] of the package. *)
Record MemoryAccounts := mkAccounts {
  ma_users : gmap string User;
  ma_identities : gmap string LinkedIdentity;
  ma_byKey : gmap (string * string) string;
  ma_byUser : gmap string (list string);
}.

Definition NewMemoryAccounts : MemoryAccounts := mkAccounts ∅ ∅ ∅ ∅.

(** ** The per-user index *)

(** The identity ids of a user: the slice, nil when the key is absent. *)
Definition ids_of (s : MemoryAccounts) (user : string) : list string := default [] (ma_byUser s !! user).

Definition indexIdentityLocked (user id : string) (s : MemoryAccounts) : MemoryAccounts :=
  mkAccounts (ma_users s) (ma_identities s) (ma_byKey s) (<[user := ids_of s user ++ [id]]> (ma_byUser s)).

(** The loop of [unindexIdentityLocked]: the first occurrence goes. *)
Fixpoint remove_first (id : string) (ids : list string) : list string :=
  match ids with
  | [] => []
  | got :: ids => if bool_decide (got = id) then ids else got :: remove_first id ids
  end.

Definition unindexIdentityLocked (user id : string) (s : MemoryAccounts) : MemoryAccounts :=
  let ids := remove_first id (ids_of s user) in
  mkAccounts (ma_users s) (ma_identities s) (ma_byKey s)
    (match ids with [] => delete user (ma_byUser s) | _ => <[user := ids]> (ma_byUser s) end).

(** The order of [identitiesOfLocked]: oldest first, the id breaks ties. The ids
    are distinct, so [sort.Slice] has one answer. *)
Definition linked_less (a b : LinkedIdentity) : bool :=
  if negb (li_LinkedAt a =? li_LinkedAt b)%Z then time_Before (li_LinkedAt a) (li_LinkedAt b)
  else str_lt (li_ID a) (li_ID b).

Definition identitiesOfLocked (s : MemoryAccounts) (user : string) : list LinkedIdentity :=
  sort_SliceStable linked_less (omap (λ id, ma_identities s !! id) (ids_of s user)).

(** ** Identifiers *)

(** [randomHex]; [None] is its panic. *)
Definition randomHex `{Entropy} (k n : nat) : nat * option string :=
  (S n, hex_EncodeToString <$> rand_read n k).
Definition NewUserID `{Entropy} (n : nat) : nat * option string :=
  let '(n, h) := randomHex 16 n in (n, String.app "usr_" <$> h).
Definition NewIdentityID `{Entropy} (n : nat) : nat * option string :=
  let '(n, h) := randomHex 16 n in (n, String.app "idn_" <$> h).

(** ** Operations *)

Definition FindByIdentity (provider subject : string) (s : MemoryAccounts) : result string :=
  match ma_byKey s !! (provider, subject) with
  | None => Err ErrAccountNotFound
  | Some id => Ok (from_option li_User EmptyString (ma_identities s !! id))
  end.

(** The three writes of a new identity. *)
Definition add_identity (ident : LinkedIdentity) (s : MemoryAccounts) : MemoryAccounts :=
  indexIdentityLocked (li_User ident) (li_ID ident)
    (mkAccounts (ma_users s) (<[li_ID ident := ident]> (ma_identities s))
       (<[identityKey ident := li_ID ident]> (ma_byKey s)) (ma_byUser s)).

Definition link (id user : string) (inp : IdpIdentity) (linkedAt lastLoginAt : Z) : LinkedIdentity :=
  mkLinked id user (ip_Provider inp) (ip_Subject inp) (ip_DisplayName inp) (ip_Email inp) (ip_AvatarURL inp)
    linkedAt lastLoginAt.

(** [CreateWithIdentity] at time [now]. The ids are minted before anything is
    written; [None] is a panic of the generator, which leaves the store alone. *)
Definition CreateWithIdentity `{Entropy} (now : Z) (n : nat) (inp : IdpIdentity) (s : MemoryAccounts)
    : MemoryAccounts * nat * option (result (User * LinkedIdentity)) :=
  match Idp_Validate inp with
  | Some err => (s, n, Some (Err err))
  | None =>
      match ma_byKey s !! (ip_Provider inp, ip_Subject inp) with
      | Some _ => (s, n, Some (Err ErrIdentityTaken))
      | None =>
          match NewUserID n with
          | (n, None) => (s, n, None)
          | (n, Some uid) =>
              match NewIdentityID n with
              | (n, None) => (s, n, None)
              | (n, Some iid) =>
                  let ident := link iid uid inp now now in
                  let user := mkUser uid iid now in
                  (add_identity ident
                     (mkAccounts (<[uid := user]> (ma_users s)) (ma_identities s) (ma_byKey s) (ma_byUser s)),
                   n, Some (Ok (user, ident)))
              end
          end
      end
  end.

Definition zero_linked : LinkedIdentity :=
  mkLinked EmptyString EmptyString EmptyString EmptyString EmptyString EmptyString EmptyString 0 0.

Definition LinkIdentity `{Entropy} (now : Z) (n : nat) (user : string) (inp : IdpIdentity) (s : MemoryAccounts)
    : MemoryAccounts * nat * option (result LinkedIdentity) :=
  match Idp_Validate inp with
  | Some err => (s, n, Some (Err err))
  | None =>
      match ma_users s !! user with
      | None => (s, n, Some (Err ErrAccountNotFound))
      | Some _ =>
          match ma_byKey s !! (ip_Provider inp, ip_Subject inp) with
          | Some existingID =>
              let existing := default zero_linked (ma_identities s !! existingID) in
              (s, n, Some (if bool_decide (li_User existing = user) then Ok existing else Err ErrIdentityTaken))
          | None =>
              match NewIdentityID n with
              | (n, None) => (s, n, None)
              | (n, Some iid) =>
                  let ident := link iid user inp now 0 in
                  (add_identity ident s, n, Some (Ok ident))
              end
          end
      end
  end.

Definition zero_user : User := mkUser EmptyString EmptyString 0.

Definition UnlinkIdentity (user identity : string) (s : MemoryAccounts) : MemoryAccounts * result unit :=
  match ma_identities s !! identity with
  | None => (s, Err ErrAccountNotFound)
  | Some ident =>
      if negb (bool_decide (li_User ident = user)) then (s, Err ErrAccountNotFound) else
      let remaining := identitiesOfLocked s user in
      if length remaining <=? 1 then (s, Err ErrLastIdentity) else
      let s1 := unindexIdentityLocked user identity
        (mkAccounts (ma_users s) (delete identity (ma_identities s)) (delete (identityKey ident) (ma_byKey s))
           (ma_byUser s)) in
      let u := default zero_user (ma_users s !! user) in
      if bool_decide (us_PrimaryIdentity u = identity) then
        let u := match filter (λ r, li_ID r ≠ identity) remaining with
                 | r :: _ => mkUser (us_ID u) (li_ID r) (us_CreatedAt u)
                 | [] => u
                 end in
        (mkAccounts (<[user := u]> (ma_users s1)) (ma_identities s1) (ma_byKey s1) (ma_byUser s1), Ok tt)
      else (s1, Ok tt)
  end.

Definition Identities (user : string) (s : MemoryAccounts) : result (list LinkedIdentity) :=
  match ma_users s !! user with
  | None => Err ErrAccountNotFound
  | Some _ => Ok (identitiesOfLocked s user)
  end.

Definition GetUser (user : string) (s : MemoryAccounts) : result User :=
  match ma_users s !! user with
  | None => Err ErrAccountNotFound
  | Some u => Ok u
  end.

Definition TouchLogin (now : Z) (provider subject : string) (s : MemoryAccounts) : MemoryAccounts * result unit :=
  match ma_byKey s !! (provider, subject) with
  | None => (s, Err ErrAccountNotFound)
  | Some id =>
      let i := default zero_linked (ma_identities s !! id) in
      (mkAccounts (ma_users s)
         (<[id := mkLinked (li_ID i) (li_User i) (li_Provider i) (li_Subject i) (li_DisplayName i) (li_Email i)
                    (li_AvatarURL i) (li_LinkedAt i) now]> (ma_identities s))
         (ma_byKey s) (ma_byUser s), Ok tt)
  end.

(** The loop of [DeleteUser] over the ids of the user. *)
Definition drop_identity (s : MemoryAccounts) (id : string) : MemoryAccounts :=
  match ma_identities s !! id with
  | None => s
  | Some ident =>
      mkAccounts (ma_users s) (delete id (ma_identities s)) (delete (identityKey ident) (ma_byKey s)) (ma_byUser s)
  end.

Definition DeleteUser (user : string) (s : MemoryAccounts) : MemoryAccounts * result unit :=
  let s1 := mkAccounts (delete user (ma_users s)) (ma_identities s) (ma_byKey s) (ma_byUser s) in
  let s2 := foldl drop_identity s1 (ids_of s1 user) in
  (mkAccounts (ma_users s2) (ma_identities s2) (ma_byKey s2) (delete user (ma_byUser s2)), Ok tt).

(** ** What the store is: who owns which external identity *)

Definition owners (s : MemoryAccounts) : gmap (string * string) string :=
  omap (λ id, li_User <$> ma_identities s !! id) (ma_byKey s).

(** The lookup, the index and the identities agree. *)
Record index_wf (s : MemoryAccounts) : Prop := mkIndexWf {
  iw_ids id i : ma_identities s !! id = Some i → li_ID i = id;
  iw_keys k id : ma_byKey s !! k = Some id ↔ ∃ i, ma_identities s !! id = Some i ∧ identityKey i = k;
  iw_users u id : id ∈ ids_of s u ↔ ∃ i, ma_identities s !! id = Some i ∧ li_User i = u;
  iw_nodup u : NoDup (ids_of s u);
  iw_nonempty u : ma_byUser s !! u ≠ Some [];
}.

(** An account's primary identity is one of its own, and every identity has an
    account. *)
Record accounts_wf (s : MemoryAccounts) : Prop := mkAccountsWf {
  aw_index : index_wf s;
  aw_primary u x : ma_users s !! u = Some x →
    us_ID x = u ∧ ∃ i, ma_identities s !! us_PrimaryIdentity x = Some i ∧ li_User i = u;
  aw_owned id i : ma_identities s !! id = Some i → is_Some (ma_users s !! li_User i);
}.

Lemma accounts_wf_new : accounts_wf NewMemoryAccounts.
Proof.
  split; [split|..]; unfold ids_of; simpl; try done; intros *; rewrite lookup_empty; try done.
  - split; [done|]. by intros (i & ? & _).
  - simpl. rewrite elem_of_nil. split; [done|]. by intros (i & ? & _).
  - constructor.
Qed.

Lemma owners_Some s k u :
  index_wf s → owners s !! k = Some u ↔ ∃ id i, ma_identities s !! id = Some i ∧ identityKey i = k ∧ li_User i = u.
Proof.
  intros Hw. unfold owners. rewrite lookup_omap. split.
  - destruct (ma_byKey s !! k) as [id|] eqn:Hk; [simpl|done].
    apply (iw_keys s Hw) in Hk as (i & Hi & <-). rewrite Hi. simpl. intros [= <-]. eauto.
  - intros (id & i & Hi & Hk & <-).
    assert (ma_byKey s !! k = Some id) as -> by (apply (iw_keys s Hw); eauto). simpl. by rewrite Hi.
Qed.

(** ** Adding and removing an identity *)

Lemma ids_of_index s user id u :
  ids_of (indexIdentityLocked user id s) u = if decide (u = user) then ids_of s u ++ [id] else ids_of s u.
Proof. unfold ids_of at 1, indexIdentityLocked. simpl. case_decide; subst; by simplify_map_eq. Qed.

Lemma ids_of_unindex s user id u :
  ids_of (unindexIdentityLocked user id s) u =
    if decide (u = user) then remove_first id (ids_of s u) else ids_of s u.
Proof.
  unfold ids_of at 1, unindexIdentityLocked. simpl.
  case_decide as Hu; [subst u|]; destruct (remove_first id (ids_of s user)) eqn:E; by simplify_map_eq.
Qed.

Lemma elem_of_remove_first id ids x : NoDup ids → x ∈ remove_first id ids ↔ x ∈ ids ∧ x ≠ id.
Proof.
  induction 1 as [|y ids Hy _ IH]; simpl; [set_solver|]. case_bool_decide; subst; set_solver.
Qed.

Lemma remove_first_sublist id ids : remove_first id ids `sublist_of` ids.
Proof. induction ids as [|y ids IH]; simpl; [done|]. case_bool_decide; by constructor. Qed.

Lemma index_wf_add i s :
  index_wf s → ma_identities s !! li_ID i = None → ma_byKey s !! identityKey i = None →
  index_wf (add_identity i s).
Proof.
  intros Hw Hid Hkey. destruct Hw as [Hids Hkeys Husers Hnd Hne]. split; simpl.
  - intros id j. rewrite lookup_insert_Some. intros [[<- <-]|[_ ?]]; eauto.
  - intros k id. destruct (decide (k = identityKey i)) as [->|Hk].
    + rewrite lookup_insert_eq. split; [intros [= <-]; exists i; by rewrite lookup_insert_eq|].
      intros (j & Hj & Heq). apply lookup_insert_Some in Hj as [[<- _]|[_ Hj]]; [done|].
      assert (ma_byKey s !! identityKey i = Some id) by (apply Hkeys; eauto). congruence.
    + rewrite lookup_insert_ne, Hkeys by done. apply exist_proper. intros j. rewrite lookup_insert_Some.
      split; [intros [? <-]; split; [right; split; [congruence|done]|done]|].
      intros [[[_ <-]|[_ ?]] <-]; [by destruct Hk|done].
  - intros u id. unfold add_identity. rewrite ids_of_index. unfold ids_of. simpl. fold (ids_of s u).
    case_decide as Hu.
    + rewrite elem_of_app, list_elem_of_singleton, Husers. split.
      * intros [(j & Hj & <-)| ->]; [|exists i; by rewrite lookup_insert_eq].
        exists j. rewrite lookup_insert_ne by congruence. done.
      * intros (j & Hj & <-). apply lookup_insert_Some in Hj as [[<- <-]|[_ Hj]]; [by right|left; eauto].
    + rewrite Husers. apply exist_proper. intros j. rewrite lookup_insert_Some.
      split; [intros [? <-]; split; [right; split; [congruence|done]|done]|].
      intros [[[_ <-]|[_ ?]] <-]; [by destruct Hu|done].
  - intros u. unfold add_identity. rewrite ids_of_index. unfold ids_of. simpl. fold (ids_of s u).
    case_decide; [|apply Hnd]. apply NoDup_app. split; [apply Hnd|]. split; [|apply NoDup_singleton].
    intros id (j & Hj & _)%Husers ->%list_elem_of_singleton. congruence.
  - intros u. unfold add_identity, indexIdentityLocked. simpl.
    destruct (decide (u = li_User i)) as [->|]; [rewrite lookup_insert_eq; by intros [= ?%app_nil]; destruct_and!|].
    rewrite lookup_insert_ne by done. apply Hne.
Qed.

Lemma owners_add i s :
  index_wf s → ma_identities s !! li_ID i = None → ma_byKey s !! identityKey i = None →
  owners (add_identity i s) = <[identityKey i := li_User i]> (owners s).
Proof.
  intros Hw Hid Hkey. apply map_eq. intros k. apply option_eq. intros u.
  rewrite owners_Some by by apply index_wf_add. simpl. rewrite lookup_insert_Some, owners_Some by done. split.
  - intros (id & j & Hj & <- & <-). apply lookup_insert_Some in Hj as [[_ <-]|[Hne Hj]]; [by left|right].
    split; [|eauto]. intros Heq.
    assert (ma_byKey s !! identityKey i = Some id) by (apply (iw_keys s Hw); eauto). congruence.
  - intros [[<- <-]|[Hne (id & j & Hj & <- & <-)]]; [exists (li_ID i), i; by rewrite lookup_insert_eq|].
    exists id, j. rewrite lookup_insert_ne by congruence. done.
Qed.

(** The store without one identity. *)
Definition without (i : LinkedIdentity) (s : MemoryAccounts) : MemoryAccounts :=
  unindexIdentityLocked (li_User i) (li_ID i)
    (mkAccounts (ma_users s) (delete (li_ID i) (ma_identities s)) (delete (identityKey i) (ma_byKey s))
       (ma_byUser s)).

Lemma index_wf_without i s : index_wf s → ma_identities s !! li_ID i = Some i → index_wf (without i s).
Proof.
  intros [Hids Hkeys Husers Hnd Hne] Hi.
  assert (Hof : ∀ u, ids_of (without i s) u =
    if decide (u = li_User i) then remove_first (li_ID i) (ids_of s u) else ids_of s u).
  { intros u. unfold without. by rewrite ids_of_unindex. }
  split; simpl.
  - intros id j. rewrite lookup_delete_Some. naive_solver.
  - intros k id. rewrite lookup_delete_Some, Hkeys. split.
    + intros [Hk (j & Hj & <-)]. exists j. rewrite lookup_delete_Some. split; [split; [|done]|done].
      intros <-. naive_solver.
    + intros (j & [Hid Hj]%lookup_delete_Some & <-). split; [|eauto]. intros Heq.
      assert (ma_byKey s !! identityKey j = Some (li_ID i)) by (apply Hkeys; exists i; by split).
      assert (ma_byKey s !! identityKey j = Some id) by (apply Hkeys; eauto). congruence.
  - intros u id. rewrite Hof. setoid_rewrite lookup_delete_Some. case_decide as Hu.
    + rewrite elem_of_remove_first, Husers by apply Hnd. naive_solver.
    + rewrite Husers. split; [|naive_solver]. intros (j & Hj & <-). exists j.
      split; [split; [|done]|done]. intros <-. naive_solver.
  - intros u. rewrite Hof. case_decide; [|apply Hnd]. eapply sublist_NoDup; [apply Hnd|apply remove_first_sublist].
  - intros u. unfold without, unindexIdentityLocked. simpl.
    destruct (remove_first _ _) eqn:E; [rewrite lookup_delete_Some; naive_solver|].
    rewrite lookup_insert_Some. naive_solver.
Qed.

Lemma owners_without i s :
  index_wf s → ma_identities s !! li_ID i = Some i → owners (without i s) = delete (identityKey i) (owners s).
Proof.
  intros Hw Hi. apply map_eq. intros k. apply option_eq. intros u.
  rewrite owners_Some by by apply index_wf_without. rewrite lookup_delete_Some, owners_Some by done. simpl.
  setoid_rewrite lookup_delete_Some. split.
  - intros (id & j & [Hne Hj] & <- & <-). split; [|eauto]. intros Heq. apply Hne.
    assert (Hk : ma_byKey s !! identityKey j = Some (li_ID i)) by (apply (iw_keys s Hw); exists i; by split).
    assert (ma_byKey s !! identityKey j = Some id) by (apply (iw_keys s Hw); eauto). congruence.
  - intros [Hne (id & j & Hj & <- & <-)]. exists id, j. split; [split; [|done]|done]. intros <-. naive_solver.
Qed.

(** ** The identities of an account *)

Lemma omap_ids s (ids : list string) :
  index_wf s → (∀ id, id ∈ ids → is_Some (ma_identities s !! id)) →
  li_ID <$> omap (λ id, ma_identities s !! id) ids = ids.
Proof.
  intros Hw. induction ids as [|id ids IH]; intros Hall; [done|].
  destruct (Hall id) as [i Hi]; [set_solver|]. simpl. rewrite Hi. simpl. rewrite (iw_ids s Hw id i Hi). f_equal.
  apply IH. set_solver.
Qed.

Lemma listed_ids s u : index_wf s → li_ID <$> identitiesOfLocked s u ≡ₚ ids_of s u.
Proof.
  intros Hw. unfold identitiesOfLocked. rewrite sort_SliceStable_perm, omap_ids; [done..|].
  intros id (i & -> & _)%(iw_users s Hw). eauto.
Qed.

Lemma elem_of_listed s u i :
  index_wf s → i ∈ identitiesOfLocked s u ↔ ma_identities s !! li_ID i = Some i ∧ li_User i = u.
Proof.
  intros Hw. unfold identitiesOfLocked. rewrite sort_SliceStable_perm, list_elem_of_omap. split.
  - intros (id & (j & Hj & <-)%(iw_users s Hw) & Hi). rewrite Hj in Hi. injection Hi as <-. by rewrite (iw_ids s Hw _ _ Hj).
  - intros [Hi <-]. exists (li_ID i). split; [apply (iw_users s Hw); eauto|done].
Qed.

Lemma linked_less_asym a b : linked_less a b = true → linked_less b a = false.
Proof.
  unfold linked_less, time_Before. destruct (Z.eqb_spec (li_LinkedAt a) (li_LinkedAt b)) as [->|Hne]; simpl.
  - rewrite Z.eqb_refl. simpl. apply str_lt_asym.
  - rewrite (proj2 (Z.eqb_neq _ _)) by congruence. simpl. lia.
Qed.

Lemma linked_less_ntrans a b c : linked_less b a = false → linked_less c b = false → linked_less c a = false.
Proof.
  unfold linked_less, time_Before.
  destruct (Z.eqb_spec (li_LinkedAt b) (li_LinkedAt a)) as [->|]; simpl.
  - destruct (Z.eqb_spec (li_LinkedAt c) (li_LinkedAt a)); simpl; [|done].
    apply str_lt_ge_trans.
  - intros ?. destruct (Z.eqb_spec (li_LinkedAt c) (li_LinkedAt b)) as [->|]; simpl.
    + intros _. rewrite (proj2 (Z.eqb_neq _ _)) by done. done.
    + intros ?. destruct (Z.eqb_spec (li_LinkedAt c) (li_LinkedAt a)); simpl; [lia|lia].
Qed.

(** When an account has two identities or more, what is left after taking one
    out starts with the earliest of the others. *)
Lemma remaining_head s id i :
  index_wf s → ma_identities s !! id = Some i → 1 < length (identitiesOfLocked s (li_User i)) →
  ∃ r rest, filter (λ r, li_ID r ≠ id) (identitiesOfLocked s (li_User i)) = r :: rest ∧
    ma_identities s !! li_ID r = Some r ∧ li_User r = li_User i ∧ li_ID r ≠ id ∧
    ∀ j, ma_identities s !! li_ID j = Some j → li_User j = li_User i → li_ID j ≠ id → linked_less j r = false.
Proof.
  intros Hw Hi Hlen. set (l := identitiesOfLocked s (li_User i)) in *.
  assert (Hsort : StronglySorted (λ a b, linked_less b a = false) (filter (λ r, li_ID r ≠ id) l)).
  { apply sorted_filter, sort_SliceStable_sorted; [apply linked_less_asym|apply linked_less_ntrans]. }
  assert (Hel : ∀ j, j ∈ filter (λ r, li_ID r ≠ id) l ↔
    (ma_identities s !! li_ID j = Some j ∧ li_User j = li_User i) ∧ li_ID j ≠ id).
  { intros j. rewrite list_elem_of_filter. unfold l. rewrite elem_of_listed by done. tauto. }
  destruct (filter (λ r, li_ID r ≠ id) l) as [|r rest] eqn:E.
  - exfalso. assert (Hnd : NoDup (li_ID <$> l)) by (unfold l; rewrite listed_ids by done; apply (iw_nodup s Hw)).
    assert (Hall : ∀ j, j ∈ l → li_ID j = id).
    { intros j Hj. destruct (decide (li_ID j = id)); [done|]. assert (j ∈ @nil LinkedIdentity); [|set_solver].
      apply Hel. split; [|done]. unfold l in Hj. by apply elem_of_listed in Hj. }
    destruct l as [|a [|b l']]; simpl in *; [lia..|]. apply NoDup_cons in Hnd as [Hab _]. apply Hab.
    rewrite (Hall a), <-(Hall b) by set_solver. by left.
  - exists r, rest. destruct (proj1 (Hel r)) as [[Hr Hu] Hne]; [by left|]. split_and!; [done..|].
    intros j Hj Hju Hjn. eapply sorted_head; [apply linked_less_asym|exact Hsort|]. by apply Hel.
Qed.

(** ** The operations *)

(** An account whose first identity is new, and a further identity of one. *)
Lemma accounts_wf_create s uid iid inp now :
  accounts_wf s → ma_users s !! uid = None → ma_identities s !! iid = None →
  ma_byKey s !! (ip_Provider inp, ip_Subject inp) = None →
  accounts_wf (add_identity (link iid uid inp now now)
    (mkAccounts (<[uid := mkUser uid iid now]> (ma_users s)) (ma_identities s) (ma_byKey s) (ma_byUser s))).
Proof.
  intros [Hi Hp Ho] Hu Hid Hk. split; simpl.
  - apply index_wf_add; [by destruct Hi|done|done].
  - intros u x. rewrite lookup_insert_Some. intros [[<- <-]|[Hne Hx]]; simpl.
    + split; [done|]. exists (link iid uid inp now now). by rewrite lookup_insert_eq.
    + destruct (Hp u x Hx) as (<- & i & Hx2 & Hui). split; [done|]. exists i.
      rewrite lookup_insert_ne by congruence. done.
  - intros id i. rewrite lookup_insert_Some. intros [[<- <-]|[_ Hx]]; simpl; [rewrite lookup_insert_eq; eauto|].
    destruct (Ho id i Hx) as [x Hx2]. rewrite lookup_insert_ne by congruence. eauto.
Qed.

Lemma accounts_wf_link s i :
  accounts_wf s → is_Some (ma_users s !! li_User i) → ma_identities s !! li_ID i = None →
  ma_byKey s !! identityKey i = None → accounts_wf (add_identity i s).
Proof.
  intros [Hi Hp Ho] Hu Hid Hk. split; [by apply index_wf_add|..]; simpl.
  - intros u x Hx. destruct (Hp u x Hx) as (<- & j & Hj & Huj). split; [done|]. exists j.
    rewrite lookup_insert_ne by congruence. done.
  - intros id j. rewrite lookup_insert_Some. intros [[<- <-]|[_ Hj]]; eauto.
Qed.

(** Taking one out and moving the account's primary off it. *)
Lemma accounts_wf_unlink s i x x' :
  accounts_wf s → ma_identities s !! li_ID i = Some i → ma_users s !! li_User i = Some x →
  us_ID x' = us_ID x → us_PrimaryIdentity x' ≠ li_ID i →
  (∃ j, ma_identities s !! us_PrimaryIdentity x' = Some j ∧ li_User j = li_User i) →
  accounts_wf (mkAccounts (<[li_User i := x']> (ma_users s)) (ma_identities (without i s)) (ma_byKey (without i s))
    (ma_byUser (without i s))).
Proof.
  intros [Hi Hp Ho] Hid Hx Hxid Hprim (j & Hj & Hju). split; simpl.
  - pose proof (index_wf_without i s Hi Hid) as [? ? ? ? ?]. by split.
  - intros u y. rewrite lookup_insert_Some. intros [[<- <-]|[Hne Hy]].
    + split; [rewrite Hxid; by apply Hp|]. exists j. by rewrite lookup_delete_ne.
    + destruct (Hp u y Hy) as (<- & k & Hk & Hku). split; [done|]. exists k.
      rewrite lookup_delete_ne; [done|]. intros Heq. rewrite <-Heq in Hk. congruence.
  - intros id k [_ Hk]%lookup_delete_Some. destruct (decide (li_User k = li_User i)) as [->|];
      [rewrite lookup_insert_eq; eauto|]. rewrite lookup_insert_ne by done. eauto.
Qed.

Lemma UnlinkIdentity_spec user id s :
  accounts_wf s →
  let '(s', r) := UnlinkIdentity user id s in
  accounts_wf s' ∧
  ((r = Err ErrAccountNotFound ∧ s' = s ∧ ¬ ∃ i, ma_identities s !! id = Some i ∧ li_User i = user) ∨
   ∃ i, ma_identities s !! id = Some i ∧ li_User i = user ∧
     ((r = Err ErrLastIdentity ∧ s' = s ∧ ∀ k, owners s !! k = Some user → k = identityKey i) ∨
      (r = Ok tt ∧ owners s' = delete (identityKey i) (owners s) ∧
       ∃ x x' j, ma_users s !! user = Some x ∧ ma_users s' = <[user := x']> (ma_users s) ∧
         ma_identities s' !! us_PrimaryIdentity x' = Some j ∧ li_User j = user ∧
         (us_PrimaryIdentity x ≠ id → x' = x) ∧
         (us_PrimaryIdentity x = id → ∀ k, ma_identities s' !! li_ID k = Some k → li_User k = user →
            linked_less k j = false)))).
Proof.
  intros Hw. unfold UnlinkIdentity. destruct (ma_identities s !! id) as [i|] eqn:Hi.
  2: { split; [done|]. left. split_and!; [done..|]. by intros (i & ? & _). }
  destruct (bool_decide (li_User i = user)) eqn:Hu; simpl.
  2: { split; [done|]. left. split_and!; [done..|]. intros (j & [= <-] & Hj). by rewrite bool_decide_true in Hu. }
  apply bool_decide_eq_true_1 in Hu as <-. pose proof (iw_ids s (aw_index s Hw) id i Hi) as <-.
  destruct (Nat.leb_spec (length (identitiesOfLocked s (li_User i))) 1) as [Hlen|Hlen].
  { split; [done|]. right. exists i. split_and!; [done..|]. left. split_and!; [done..|].
    intros k (id & j & Hj & <- & Hju)%owners_Some; [|apply Hw]. f_equal.
    assert (Hin : ∀ z, ma_identities s !! li_ID z = Some z → li_User z = li_User i → z ∈ identitiesOfLocked s (li_User i))
      by (intros; by apply elem_of_listed; [apply Hw|]).
    assert (Hj2 : j ∈ identitiesOfLocked s (li_User i)).
    { apply Hin; [|done]. by rewrite (iw_ids s (aw_index s Hw) id j Hj). }
    specialize (Hin i Hi eq_refl). destruct (identitiesOfLocked s (li_User i)) as [|a [|b l]]; simpl in *; [set_solver| |lia].
    apply list_elem_of_singleton in Hin, Hj2. congruence. }
  destruct (remaining_head s (li_ID i) i (aw_index s Hw) Hi Hlen) as (r & rest & -> & Hr & Hru & Hrn & Hmin).
  fold (without i s). destruct (aw_owned s Hw _ _ Hi) as [x Hx]. rewrite Hx. simpl.
  destruct (aw_primary s Hw _ _ Hx) as (Hxid & p & Hp & Hpu).
  pose proof (owners_without i s (aw_index s Hw) Hi) as Hown.
  case_bool_decide as Hprim.
  - split. { by eapply accounts_wf_unlink; eauto. }
    right. exists i. split_and!; [done..|]. right. split_and!; [done|exact Hown|].
    eexists x, _, r. split_and!; [done..|by simpl; rewrite lookup_delete_ne|done|done|].
    intros _ k Hk Hku. simpl in Hk. apply lookup_delete_Some in Hk as [??]. by apply Hmin.
  - assert (Hsame : without i s = mkAccounts (<[li_User i := x]> (ma_users s)) (ma_identities (without i s))
      (ma_byKey (without i s)) (ma_byUser (without i s))).
    { rewrite insert_id by done. done. }
    split. { rewrite Hsame. by eapply accounts_wf_unlink; eauto. }
    right. exists i. split_and!; [done..|]. right. split_and!; [done..|].
    exists x, x, p. split_and!; [done|by rewrite insert_id|by simpl; rewrite lookup_delete_ne|done..].
Qed.

(** The loop of [DeleteUser]. *)
Lemma drop_all ids s :
  index_wf s →
  let s' := foldl drop_identity s ids in
  ma_users s' = ma_users s ∧ ma_byUser s' = ma_byUser s ∧
  (∀ id, ma_identities s' !! id = if decide (id ∈ ids) then None else ma_identities s !! id) ∧
  (∀ k id, ma_byKey s' !! k = Some id ↔ ma_byKey s !! k = Some id ∧ id ∉ ids).
Proof.
  intros [Hids Hkeys _ _ _]. revert s Hids Hkeys. induction ids as [|id ids IH]; intros s Hids Hkeys; simpl.
  { split_and!; [done..|]. intros. rewrite elem_of_nil. tauto. }
  set (s1 := drop_identity s id).
  assert (H1 : ma_users s1 = ma_users s ∧ ma_byUser s1 = ma_byUser s ∧ ma_identities s1 = delete id (ma_identities s) ∧
    ∀ k id', ma_byKey s1 !! k = Some id' ↔ ma_byKey s !! k = Some id' ∧ id' ≠ id).
  { unfold s1, drop_identity. destruct (ma_identities s !! id) as [i|] eqn:Hi; simpl.
    - split_and!; [done..|]. intros k id'. rewrite lookup_delete_Some, !Hkeys. split.
      + intros [Hk (j & Hj & <-)]. split; [eauto|]. intros ->. naive_solver.
      + intros [(j & Hj & <-) Hne]. split; [|eauto]. intros Heq. apply Hne.
        assert (Ha : ma_byKey s !! identityKey j = Some id') by (apply Hkeys; eauto).
        assert (Hb : ma_byKey s !! identityKey j = Some id) by (apply Hkeys; eauto). congruence.
    - split_and!; [done..|by rewrite delete_id|]. intros k id'. rewrite Hkeys. naive_solver. }
  destruct H1 as (Hu & Hbu & Hd & Hk). destruct (IH s1) as (Hu2 & Hbu2 & Hd2 & Hk2).
  - intros id' i. rewrite Hd, lookup_delete_Some. naive_solver.
  - intros k id'. rewrite Hk, Hkeys, Hd. setoid_rewrite lookup_delete_Some. naive_solver.
  - split_and!; [congruence..| |].
    + intros id'. rewrite Hd2, Hd. destruct (decide (id' = id)) as [->|Hne].
      * rewrite lookup_delete_eq, (decide_True (P:=id ∈ id :: ids)) by set_solver. by case_decide.
      * rewrite lookup_delete_ne by done. apply decide_ext. set_solver.
    + intros k id'. rewrite Hk2, Hk. set_solver.
Qed.

Lemma DeleteUser_spec user s :
  accounts_wf s →
  let s' := (DeleteUser user s).1 in
  accounts_wf s' ∧ ma_users s' = delete user (ma_users s) ∧
  (∀ id, ma_identities s' !! id = ma_identities s !! id ≫= λ i, if decide (li_User i = user) then None else Some i) ∧
  owners s' = filter (λ kv, kv.2 ≠ user) (owners s).
Proof.
  intros [Hi Hp Ho]. unfold DeleteUser. simpl.
  set (s1 := mkAccounts (delete user (ma_users s)) (ma_identities s) (ma_byKey s) (ma_byUser s)).
  assert (Hi1 : index_wf s1) by (by destruct Hi).
  pose proof (drop_all (ids_of s1 user) s1 Hi1) as Hd. set (s2 := foldl drop_identity s1 (ids_of s1 user)) in *.
  destruct Hd as (Hu & Hbu & Hids & Hkeys). change (ids_of s1 user) with (ids_of s user) in *.
  change (ma_identities s1) with (ma_identities s) in *. change (ma_byKey s1) with (ma_byKey s) in *.
  change (ma_users s1) with (delete user (ma_users s)) in *. change (ma_byUser s1) with (ma_byUser s) in *.
  assert (Hlook : ∀ id i, ma_identities s2 !! id = Some i ↔ ma_identities s !! id = Some i ∧ li_User i ≠ user).
  { intros id i. rewrite Hids. case_decide as Hin.
    - apply (iw_users s Hi) in Hin as (j & Hj & Hju). naive_solver.
    - split; [|naive_solver]. intros Hid. split; [done|]. intros Hui. destruct Hin. apply (iw_users s Hi). eauto. }
  set (s3 := mkAccounts (ma_users s2) (ma_identities s2) (ma_byKey s2) (delete user (ma_byUser s2))).
  assert (Hof : ∀ u, ids_of s3 u = if decide (u = user) then [] else ids_of s u).
  { intros u. unfold ids_of, s3. simpl. rewrite Hbu. case_decide; subst; by simplify_map_eq. }
  assert (Hw3 : index_wf s3).
  { split; simpl.
    - intros id i [? _]%Hlook. by apply (iw_ids s Hi).
    - intros k id. rewrite Hkeys. setoid_rewrite Hlook. rewrite (iw_keys s Hi), (iw_users s Hi). naive_solver.
    - intros u id. rewrite Hof. setoid_rewrite Hlook. case_decide as Hu'.
      + rewrite elem_of_nil. naive_solver.
      + rewrite (iw_users s Hi). naive_solver.
    - intros u. rewrite Hof. case_decide; [constructor|apply (iw_nodup s Hi)].
    - intros u. rewrite Hbu, lookup_delete_Some. intros [_ ?]. by eapply (iw_nonempty s Hi). }
  split_and!; [split|..]; simpl.
  - done.
  - intros u x. rewrite Hu, lookup_delete_Some. intros [Hne Hx]. destruct (Hp u x Hx) as (? & i & ? & ?).
    split; [done|]. exists i. split; [apply Hlook; split; congruence|done].
  - intros id i [Hid Hne]%Hlook. rewrite Hu, lookup_delete_ne by done. eauto.
  - done.
  - intros id. apply option_eq. intros i. rewrite Hlook, bind_Some. split.
    + intros [Hid Hne]. exists i. by rewrite decide_False.
    + intros (j & Hj & Hx). case_decide; naive_solver.
  - apply map_eq. intros k. apply option_eq. intros u. rewrite (owners_Some s3) by done.
    rewrite map_lookup_filter_Some, (owners_Some s) by done. simpl. setoid_rewrite Hlook. naive_solver.
Qed.

Lemma TouchLogin_spec now p sub s :
  accounts_wf s → accounts_wf (TouchLogin now p sub s).1 ∧ owners (TouchLogin now p sub s).1 = owners s.
Proof.
  intros Hw. unfold TouchLogin. destruct (ma_byKey s !! (p, sub)) as [id|] eqn:Hk; [|done].
  destruct (proj1 (iw_keys s (aw_index s Hw) _ _) Hk) as (i & Hi & _). rewrite Hi. simpl.
  set (i' := mkLinked _ _ _ _ _ _ _ _ _).
  assert (Hfw : ∀ id' j, ma_identities s !! id' = Some j → ∃ j', <[id := i']> (ma_identities s) !! id' = Some j' ∧
    li_User j' = li_User j ∧ identityKey j' = identityKey j).
  { intros id' j Hj. destruct (decide (id' = id)) as [->|]; [exists i'; rewrite lookup_insert_eq|exists j; by rewrite lookup_insert_ne].
    rewrite Hi in Hj. by injection Hj as <-. }
  assert (Hbw : ∀ id' j, <[id := i']> (ma_identities s) !! id' = Some j → ∃ j', ma_identities s !! id' = Some j' ∧
    li_ID j = li_ID j' ∧ li_User j = li_User j' ∧ identityKey j = identityKey j').
  { intros id' j. rewrite lookup_insert_Some. intros [[<- <-]|[_ ?]]; eauto. }
  destruct Hw as [Hix Hp Ho].
  assert (Hix' : index_wf (mkAccounts (ma_users s) (<[id := i']> (ma_identities s)) (ma_byKey s) (ma_byUser s))).
  { split; simpl.
    - intros id' j (j' & Hj' & -> & _)%Hbw. by apply (iw_ids s Hix).
    - intros k id'. rewrite (iw_keys s Hix). split.
      + intros (j & Hj & <-). destruct (Hfw _ _ Hj) as (j' & ? & _ & ?). eauto.
      + intros (j & Hj & <-). destruct (Hbw _ _ Hj) as (j' & ? & _ & _ & ?). eauto.
    - intros u id'. change (ids_of _ u) with (ids_of s u). rewrite (iw_users s Hix). split.
      + intros (j & Hj & <-). destruct (Hfw _ _ Hj) as (j' & ? & ? & _). eauto.
      + intros (j & Hj & <-). destruct (Hbw _ _ Hj) as (j' & ? & _ & ? & _). eauto.
    - apply (iw_nodup s Hix).
    - apply (iw_nonempty s Hix). }
  split; [split; [done|..]; simpl|].
  - intros u x Hx. destruct (Hp u x Hx) as (? & j & Hj & <-). destruct (Hfw _ _ Hj) as (j' & ? & ? & _). eauto.
  - intros id' j (j' & Hj' & _ & -> & _)%Hbw. eauto.
  - apply map_eq. intros k. apply option_eq. intros u. rewrite !owners_Some by done. simpl. split.
    + intros (id' & j & Hj & <- & <-). destruct (Hbw _ _ Hj) as (j' & ? & _ & ? & ?). eauto 6.
    + intros (id' & j & Hj & <- & <-). destruct (Hfw _ _ Hj) as (j' & ? & ? & ?). eauto 6.
Qed.

(** ** Runs of the store *)

Section runs.
Context `{Entropy}.

(** The ids minted at a position of the generator are new. *)
Definition fresh_user (n : nat) (s : MemoryAccounts) : Prop :=
  ∀ uid, (NewUserID n).2 = Some uid → ma_users s !! uid = None.
Definition fresh_identity (n : nat) (s : MemoryAccounts) : Prop :=
  ∀ iid, (NewIdentityID n).2 = Some iid → ma_identities s !! iid = None.

Inductive account_call :=
| CallCreate (inp : IdpIdentity)
| CallLink (user : string) (inp : IdpIdentity)
| CallUnlink (user identity : string)
| CallTouch (provider subject : string)
| CallDelete (user : string).

(** One call, whatever it answers. *)
Inductive account_step : MemoryAccounts → account_call → MemoryAccounts → Prop :=
| step_Create now n inp s :
    fresh_user n s → fresh_identity (S n) s →
    account_step s (CallCreate inp) (CreateWithIdentity now n inp s).1.1
| step_Link now n user inp s :
    fresh_identity n s → account_step s (CallLink user inp) (LinkIdentity now n user inp s).1.1
| step_Unlink user id s : account_step s (CallUnlink user id) (UnlinkIdentity user id s).1
| step_Touch now p sub s : account_step s (CallTouch p sub) (TouchLogin now p sub s).1
| step_DeleteUser user s : account_step s (CallDelete user) (DeleteUser user s).1.

Inductive account_run : list account_call → MemoryAccounts → Prop :=
| run_new : account_run [] NewMemoryAccounts
| run_step cs s c s' : account_run cs s → account_step s c s' → account_run (cs ++ [c]) s'.

(** What a call may do to the owners. *)
Definition idp_key (inp : IdpIdentity) : string * string := (ip_Provider inp, ip_Subject inp).
Definition owner_step (c : account_call) (A A' : gmap (string * string) string) : Prop :=
  match c with
  | CallCreate inp => A' = A ∨ A !! idp_key inp = None ∧
      ∃ uid, (∀ k, A !! k ≠ Some uid) ∧ A' = <[idp_key inp := uid]> A
  | CallLink user inp => A' = A ∨ A !! idp_key inp = None ∧
      (∃ k, A !! k = Some user) ∧ A' = <[idp_key inp := user]> A
  | CallUnlink user _ => A' = A ∨ ∃ k k', k' ≠ k ∧ A !! k = Some user ∧ A !! k' = Some user ∧ A' = delete k A
  | CallTouch _ _ => A' = A
  | CallDelete user => A' = filter (λ kv, kv.2 ≠ user) A
  end.

(** An account exists exactly while it owns an identity. *)
Lemma user_owns s u : accounts_wf s → is_Some (ma_users s !! u) ↔ ∃ k, owners s !! k = Some u.
Proof.
  intros Hw. setoid_rewrite (owners_Some s); [|apply Hw]. split.
  - intros [x Hx]. destruct (aw_primary s Hw u x Hx) as (_ & i & Hi & Hu). eauto 6.
  - intros (k & id & i & Hi & _ & <-). by apply (aw_owned s Hw id).
Qed.

Lemma owners_None s k : accounts_wf s → ma_byKey s !! k = None → owners s !! k = None.
Proof. intros _ Hk. unfold owners. by rewrite lookup_omap, Hk. Qed.

Lemma FindByIdentity_owners p sub s : accounts_wf s →
  FindByIdentity p sub s = match owners s !! (p, sub) with Some u => Ok u | None => Err ErrAccountNotFound end.
Proof.
  intros Hw. unfold FindByIdentity, owners. rewrite lookup_omap.
  destruct (ma_byKey s !! (p, sub)) as [id|] eqn:Hk; [simpl|done].
  destruct (proj1 (iw_keys s (aw_index s Hw) _ _) Hk) as (i & -> & _). done.
Qed.

Lemma account_step_spec s c s' :
  accounts_wf s → account_step s c s' → accounts_wf s' ∧ owner_step c (owners s) (owners s').
Proof.
  intros Hw Hst. revert Hw.
  destruct Hst as [now n inp s1 Hfu Hfi|now n user inp s1 Hfi|user id s1|now p sub s1|user s1]; intros Hw; simpl.
  - unfold CreateWithIdentity. destruct (Idp_Validate inp); [by split; [|left]|].
    destruct (ma_byKey s1 !! _) eqn:Hk; [by split; [|left]|]. unfold fresh_user, fresh_identity in *.
    destruct (NewUserID n) as [n1 [uid|]] eqn:En; [|by split; [|left]].
    assert (n1 = S n) as -> by by injection En. destruct (NewIdentityID (S n)) as [n2 [iid|]]; [simpl|by split; [|left]].
    specialize (Hfu uid eq_refl). specialize (Hfi iid eq_refl). split; [by apply accounts_wf_create|].
    right. split; [by apply owners_None|]. exists uid. split.
    + intros k Hown. assert (is_Some (ma_users s1 !! uid)) as [? ?] by (apply user_owns; eauto). congruence.
    + rewrite owners_add; [done| |done|done]. by destruct (aw_index _ Hw).
  - unfold LinkIdentity. destruct (Idp_Validate inp); [by split; [|left]|].
    destruct (ma_users s1 !! user) as [x|] eqn:Hu; [|by split; [|left]].
    destruct (ma_byKey s1 !! _) eqn:Hk; [by split; [|left]|]. unfold fresh_identity in Hfi.
    destruct (NewIdentityID n) as [n2 [iid|]]; [simpl|by split; [|left]]. specialize (Hfi iid eq_refl).
    split; [by apply accounts_wf_link; simpl; eauto|]. right. split; [by apply owners_None|].
    split; [by apply user_owns; eauto|]. rewrite owners_add; [done|apply Hw|done|done].
  - pose proof (UnlinkIdentity_spec user id s1 Hw) as Hsp. destruct (UnlinkIdentity user id s1) as [s2 r].
    destruct Hsp as (Hw2 & [(_ & -> & _)|(i & Hi & <- & [(_ & -> & _)|(_ & Hown & x & x' & j & _ & _ & Hj & Hju & _)])]);
      [by split; [|left]..|].
    split; [done|]. right. assert (owners s2 !! identityKey j = Some (li_User i)) as Hk.
    { apply owners_Some; [apply Hw2|eauto]. }
    simpl in Hk. rewrite Hown, lookup_delete_Some in Hk. destruct Hk. exists (identityKey i), (identityKey j).
    split_and!; [congruence| |done|done]. apply owners_Some; [apply Hw|eauto].
  - by apply TouchLogin_spec.
  - destruct (DeleteUser_spec user s1 Hw) as (? & _ & _ & ?). done.
Qed.

Lemma account_run_wf cs s : account_run cs s → accounts_wf s.
Proof. induction 1 as [|cs s c s' _ IH Hst]; [apply accounts_wf_new|]. by eapply account_step_spec. Qed.

(** C37. The account store over any run. An account exists exactly while it owns an
    external identity, so nobody is left without a way to sign in (I-2); sign-in
    finds the owner; an account's list holds exactly its identities, oldest
    first, and its primary identity is one of them. And the next call moves an
    external identity only from nobody to one account, on a creation under a new
    id or on a link to an existing account, or from its owner to nobody, on the
    owner's deletion or on an unlink by the owner that leaves the owner another
    one; never from one account to another (I-3). *)
Theorem accounts_refine cs s :
  account_run cs s →
  (∀ u, is_ok (GetUser u s) = true ↔ ∃ k, owners s !! k = Some u) ∧
  (∀ p sub, FindByIdentity p sub s = match owners s !! (p, sub) with Some u => Ok u | None => Err ErrAccountNotFound end) ∧
  (∀ u x, GetUser u s = Ok x → us_ID x = u ∧ ∃ l, Identities u s = Ok l ∧
     StronglySorted (λ a b, linked_less b a = false) l ∧ NoDup (li_ID <$> l) ∧
     us_PrimaryIdentity x ∈ li_ID <$> l ∧
     ∀ k, owners s !! k = Some u ↔ ∃ i, i ∈ l ∧ identityKey i = k) ∧
  (∀ c s', account_step s c s' → owner_step c (owners s) (owners s')).
Proof.
  intros Hw%account_run_wf.
  split_and!.
  - intros u. rewrite <-user_owns by done. unfold GetUser. destruct (ma_users s !! u); simpl; [split; eauto|].
    split; [done|]. by intros [? ?].
  - intros p sub. by apply FindByIdentity_owners.
  - intros u x. unfold GetUser, Identities. destruct (ma_users s !! u) as [y|] eqn:Hu; [|done]. intros [= <-].
    destruct (aw_primary s Hw u y Hu) as (Hid & i & Hi & Hui). split; [done|].
    pose proof (iw_ids s (aw_index s Hw) _ _ Hi) as Hii.
    eexists. split; [done|]. split_and!.
    + apply sort_SliceStable_sorted; [apply linked_less_asym|apply linked_less_ntrans].
    + rewrite listed_ids by apply Hw. apply (iw_nodup s (aw_index s Hw)).
    + apply list_elem_of_fmap. exists i. split; [done|]. apply elem_of_listed; [apply Hw|]. by rewrite Hii.
    + intros k. rewrite owners_Some by apply Hw. setoid_rewrite elem_of_listed; [|apply Hw]. split.
      * intros (id & j & Hj & <- & <-). exists j. split; [|done]. by rewrite (iw_ids s (aw_index s Hw) _ _ Hj).
      * intros (j & [Hj <-] & <-). eauto.
  - intros c s' Hst. by apply (account_step_spec s c s' Hw Hst).
Qed.

(** Unlinking, exactly. An identity that is not the account's is not found; the
    account's only identity stays; any other goes, alone, and the account's
    primary moves only when it was the one removed, to the earliest of those that
    are left. *)
Theorem UnlinkIdentity_exact cs s user id :
  account_run cs s →
  let '(s', r) := UnlinkIdentity user id s in
  (r = Err ErrAccountNotFound ∧ s' = s ∧ ¬ ∃ i, ma_identities s !! id = Some i ∧ li_User i = user) ∨
  ∃ i, ma_identities s !! id = Some i ∧ li_User i = user ∧
    ((r = Err ErrLastIdentity ∧ s' = s ∧ ∀ k, owners s !! k = Some user → k = identityKey i) ∨
     (r = Ok tt ∧ owners s' = delete (identityKey i) (owners s) ∧
      ∃ x x' j, ma_users s !! user = Some x ∧ ma_users s' = <[user := x']> (ma_users s) ∧
        ma_identities s' !! us_PrimaryIdentity x' = Some j ∧ li_User j = user ∧
        (us_PrimaryIdentity x ≠ id → x' = x) ∧
        (us_PrimaryIdentity x = id → ∀ k, ma_identities s' !! li_ID k = Some k → li_User k = user →
           linked_less k j = false))).
Proof.
  intros Hw%account_run_wf.
  pose proof (UnlinkIdentity_spec user id s Hw) as Hsp. destruct (UnlinkIdentity user id s). apply Hsp.
Qed.
End runs.
