(* ===== verification/Lifecycle.v ===== *)
(** * Account erasure ([internal/lifecycle/lifecycle.go])

    The package owns no storage: every store it clears is a port, here a process
    over the world the ports share. What a port promises is a contract, and the
    theorem about [DeleteAccount] is proved against the contract. [Erasure]
    discharges it for the stores of this development. *)

From S2P Require Import Prelude GoStd Proc AuditLog Tokens.

(** ** Configuration and result *)

Record BindingOutcome := mkOutcome { bo_Total : Z; bo_Revoked : Z; bo_Failed : Z }.

(** [Config]: a nil port is [None]. *)
Record LifecycleConfig (W : Type) := mkLifecycle {
  lc_Accounts : option (string → go W unit);
  lc_Tokens : option (TokenFilter → go W Z);
  lc_Vault : option (string → go W Z);
  lc_Bindings : option (string → go W BindingOutcome);
  lc_Sessions : option (string → go W Z);
  lc_OIDC : option (string → go W Z);
  lc_Flows : option (string → go W Z);
  lc_Legacy : option (string → go W Z);
  lc_Pseudonyms : option (string → go W unit);
  lc_Audit : option (Event → go W unit);
}.
Arguments mkLifecycle {W}.
Arguments lc_Accounts {W}.
Arguments lc_Tokens {W}.
Arguments lc_Vault {W}.
Arguments lc_Bindings {W}.
Arguments lc_Sessions {W}.
Arguments lc_OIDC {W}.
Arguments lc_Flows {W}.
Arguments lc_Legacy {W}.
Arguments lc_Pseudonyms {W}.
Arguments lc_Audit {W}.

(** [Deleter]: the configuration once the required ports are known to be there. *)
Record Deleter (W : Type) := mkDeleter {
  dl_Accounts : string → go W unit;
  dl_Tokens : TokenFilter → go W Z;
  dl_Vault : string → go W Z;
  dl_Bindings : option (string → go W BindingOutcome);
  dl_Sessions : option (string → go W Z);
  dl_OIDC : option (string → go W Z);
  dl_Flows : option (string → go W Z);
  dl_Legacy : option (string → go W Z);
  dl_Pseudonyms : option (string → go W unit);
  dl_Audit : Event → go W unit;
}.
Arguments mkDeleter {W}.
Arguments dl_Accounts {W}.
Arguments dl_Tokens {W}.
Arguments dl_Vault {W}.
Arguments dl_Bindings {W}.
Arguments dl_Sessions {W}.
Arguments dl_OIDC {W}.
Arguments dl_Flows {W}.
Arguments dl_Legacy {W}.
Arguments dl_Pseudonyms {W}.
Arguments dl_Audit {W}.

(** [New]. *)
Definition NewDeleter {W} (cfg : LifecycleConfig W) : result (Deleter W) :=
  match lc_Accounts cfg with
  | None => Err (New "lifecycle: Accounts is required")
  | Some accounts =>
      match lc_Tokens cfg with
      | None => Err (New "lifecycle: Tokens is required")
      | Some tokens =>
          match lc_Vault cfg with
          | None => Err (New "lifecycle: Vault is required")
          | Some vault =>
              match lc_Audit cfg with
              | None => Err (New "lifecycle: Audit is required")
              | Some audit =>
                  Ok (mkDeleter accounts tokens vault (lc_Bindings cfg) (lc_Sessions cfg) (lc_OIDC cfg)
                        (lc_Flows cfg) (lc_Legacy cfg) (lc_Pseudonyms cfg) audit)
              end
          end
      end
  end.

(** [Result]. *)
Record DelResult := mkResult {
  dr_Bindings : BindingOutcome;
  dr_Vault : Z;
  dr_Tokens : Z;
  dr_Sessions : Z;
  dr_Flows : Z;
  dr_OIDC : Z;
  dr_Legacy : Z;
  dr_SessionScoped : bool;
  dr_PseudonymDestroyed : bool;
}.
Definition zero_outcome : BindingOutcome := mkOutcome 0 0 0.
Definition zero_result : DelResult := mkResult zero_outcome 0 0 0 0 0 0 false false.

Definition set_Bindings (b : BindingOutcome) (r : DelResult) : DelResult :=
  mkResult b (dr_Vault r) (dr_Tokens r) (dr_Sessions r) (dr_Flows r) (dr_OIDC r) (dr_Legacy r)
    (dr_SessionScoped r) (dr_PseudonymDestroyed r).
Definition set_Vault (n : Z) (r : DelResult) : DelResult :=
  mkResult (dr_Bindings r) n (dr_Tokens r) (dr_Sessions r) (dr_Flows r) (dr_OIDC r) (dr_Legacy r)
    (dr_SessionScoped r) (dr_PseudonymDestroyed r).
Definition set_Tokens (n : Z) (r : DelResult) : DelResult :=
  mkResult (dr_Bindings r) (dr_Vault r) n (dr_Sessions r) (dr_Flows r) (dr_OIDC r) (dr_Legacy r)
    (dr_SessionScoped r) (dr_PseudonymDestroyed r).
Definition set_Sessions (n : Z) (r : DelResult) : DelResult :=
  mkResult (dr_Bindings r) (dr_Vault r) (dr_Tokens r) n (dr_Flows r) (dr_OIDC r) (dr_Legacy r)
    true (dr_PseudonymDestroyed r).
Definition set_Flows (n : Z) (r : DelResult) : DelResult :=
  mkResult (dr_Bindings r) (dr_Vault r) (dr_Tokens r) (dr_Sessions r) n (dr_OIDC r) (dr_Legacy r)
    (dr_SessionScoped r) (dr_PseudonymDestroyed r).
Definition set_OIDC (n : Z) (r : DelResult) : DelResult :=
  mkResult (dr_Bindings r) (dr_Vault r) (dr_Tokens r) (dr_Sessions r) (dr_Flows r) n (dr_Legacy r)
    (dr_SessionScoped r) (dr_PseudonymDestroyed r).
Definition set_Legacy (n : Z) (r : DelResult) : DelResult :=
  mkResult (dr_Bindings r) (dr_Vault r) (dr_Tokens r) (dr_Sessions r) (dr_Flows r) (dr_OIDC r) n
    (dr_SessionScoped r) (dr_PseudonymDestroyed r).
Definition set_PseudonymDestroyed (b : bool) (r : DelResult) : DelResult :=
  mkResult (dr_Bindings r) (dr_Vault r) (dr_Tokens r) (dr_Sessions r) (dr_Flows r) (dr_OIDC r) (dr_Legacy r)
    (dr_SessionScoped r) b.

(** ** The record of an erasure *)

Definition FormatBool (b : bool) : string := if b then "true" else "false".

Section deleter.
Context {W : Type} (d : Deleter W).
Local Abbreviation Out := (DelResult * option error)%type.

Definition pseudonymState (failedAt : string) : string :=
  match dl_Pseudonyms d with
  | None => "not_configured"
  | Some _ => if bool_decide (failedAt = "pseudonym") then "failed" else "pending"
  end.

Definition erasure_detail (actor subject : string) (res : DelResult) (failedAt : string) : gmap string string :=
  let detail : gmap string string := list_to_map
    [("bindings_revoked", strconv_Itoa (bo_Revoked (dr_Bindings res)));
     ("bindings_failed", strconv_Itoa (bo_Failed (dr_Bindings res)));
     ("vault_removed", strconv_Itoa (dr_Vault res));
     ("tokens_revoked", strconv_Itoa (dr_Tokens res));
     ("sessions_revoked", strconv_Itoa (dr_Sessions res));
     ("flows_removed", strconv_Itoa (dr_Flows res));
     ("oidc_removed", strconv_Itoa (dr_OIDC res));
     ("legacy_removed", strconv_Itoa (dr_Legacy res));
     ("session_scoped", FormatBool (dr_SessionScoped res));
     ("pseudonym_destroyed", FormatBool (dr_PseudonymDestroyed res));
     ("pseudonym", pseudonymState failedAt);
     ("self", FormatBool (bool_decide (actor = subject)))] in
  if bool_decide (failedAt = EmptyString) then detail else <["failed_at" := failedAt]> detail.

Definition erasure_event (actor subject outcome : string) (res : DelResult) (failedAt : string) : Event :=
  mkEvent 0 "account.delete" subject "account" outcome (erasure_detail actor subject res failedAt).

Definition record_erasure (actor subject outcome : string) (res : DelResult) (failedAt : string) : go W unit :=
  dl_Audit d (erasure_event actor subject outcome res failedAt).

(** [fail]: the cause, joined with the failure to record it. *)
Definition fail (actor subject step : string) (cause : error) (res : DelResult) : go W Out :=
  r ← try (record_erasure actor subject OutcomeError res step);
  match r with
  | Err rerr =>
      mret (res, Some (Join cause (Wrap ("lifecycle: could not record the failure: " +:+ Error rerr) rerr)))
  | Ok _ => mret (res, Some cause)
  end.

(** ** [DeleteAccount] *)

(** [v, err := p; if err != nil { return d.fail(...) }]. *)
Definition attempt {A} (actor subject step : string) (res : DelResult) (p : go W A) (k : A → go W Out) : go W Out :=
  r ← try p;
  match r with
  | Err err => fail actor subject step err res
  | Ok a => k a
  end.

(** [if port != nil { ... }]: the step of an optional port that counts what it
    removed. *)
Definition optional_step (actor subject step : string) (port : option (string → go W Z))
    (store : Z → DelResult → DelResult) (res : DelResult) (k : DelResult → go W Out) : go W Out :=
  match port with
  | None => k res
  | Some port => attempt actor subject step res (port subject) (λ n, k (store n res))
  end.

Definition bindings_step (actor subject : string) (res : DelResult) (k : DelResult → go W Out) : go W Out :=
  match dl_Bindings d with
  | None => k res
  | Some port =>
      attempt actor subject "bindings" res (port subject) (λ outcome,
        let res := set_Bindings outcome res in
        if (0 <? bo_Failed outcome)%Z
        then fail actor subject "bindings"
               (New ("lifecycle: " +:+ strconv_Itoa (bo_Failed outcome) +:+ " of " +:+
                     strconv_Itoa (bo_Total outcome) +:+ " bindings could not be removed locally")) res
        else k res)
  end.

(** The record, then the key that makes the record linkable. *)
Definition finish (actor subject : string) (res : DelResult) : go W Out :=
  let res := set_PseudonymDestroyed false res in
  r ← try (record_erasure actor subject OutcomeOK res EmptyString);
  match r with
  | Err err => mret (res, Some err)
  | Ok _ =>
      match dl_Pseudonyms d with
      | None => mret (res, None)
      | Some destroy =>
          r ← try (destroy subject);
          match r with
          | Err err =>
              fail actor subject "pseudonym"
                (Wrap ("lifecycle: the account was erased but its audit history is still linkable: " +:+ Error err) err)
                (set_PseudonymDestroyed false res)
          | Ok _ => mret (set_PseudonymDestroyed true res, None)
          end
      end
  end.

Definition DeleteAccount (actor subject : string) : go W Out :=
  if bool_decide (subject = EmptyString)
  then mret (zero_result, Some (New "lifecycle: subject is required"))
  else
    bindings_step actor subject zero_result (λ res,
    attempt actor subject "vault" res (dl_Vault d subject) (λ n,
    let res := set_Vault n res in
    attempt actor subject "tokens" res (dl_Tokens d (mkFilter EmptyString subject)) (λ tokens,
    let res := set_Tokens tokens res in
    optional_step actor subject "sessions" (dl_Sessions d) set_Sessions res (λ res,
    optional_step actor subject "bind flows" (dl_Flows d) set_Flows res (λ res,
    optional_step actor subject "OP state" (dl_OIDC d) set_OIDC res (λ res,
    optional_step actor subject "legacy state" (dl_Legacy d) set_Legacy res (λ res,
    attempt actor subject "account" res (dl_Accounts d subject) (λ _,
    finish actor subject res)))))))).
End deleter.

(** ** What the ports promise *)

(** The parts of an account, in the order of erasure. *)
Inductive part :=
| PtBindings | PtVault | PtTokens | PtSessions | PtFlows | PtOIDC | PtLegacy | PtAccount | PtPseudonym.

#[export] Instance part_eq_dec : EqDecision part.
Proof. solve_decision. Defined.

Definition part_rank (p : part) : nat :=
  match p with
  | PtBindings => 0 | PtVault => 1 | PtTokens => 2 | PtSessions => 3 | PtFlows => 4 | PtOIDC => 5
  | PtLegacy => 6 | PtAccount => 7 | PtPseudonym => 8
  end.

(** The name a record gives to the step that stopped. *)
Definition part_name (p : part) : string :=
  match p with
  | PtBindings => "bindings" | PtVault => "vault" | PtTokens => "tokens" | PtSessions => "sessions"
  | PtFlows => "bind flows" | PtOIDC => "OP state" | PtLegacy => "legacy state" | PtAccount => "account"
  | PtPseudonym => "pseudonym"
  end.

Definition configured {A} (o : option A) : bool := match o with Some _ => true | None => false end.
Definition wired {W} (d : Deleter W) (p : part) : bool :=
  match p with
  | PtVault | PtTokens | PtAccount => true
  | PtBindings => configured (dl_Bindings d)
  | PtSessions => configured (dl_Sessions d)
  | PtFlows => configured (dl_Flows d)
  | PtOIDC => configured (dl_OIDC d)
  | PtLegacy => configured (dl_Legacy d)
  | PtPseudonym => configured (dl_Pseudonyms d)
  end.

(** What the world holds of each account, and the last event of the audit log. *)
Class Estate (W : Type) := {
  es_inv : W → Prop;
  es_cleared : part → string → W → Prop;
  es_same : part → string → W → W → Prop;
  es_last : W → option Event;
  es_same_refl p u w : es_same p u w w;
  es_same_trans p u w1 w2 w3 : es_same p u w1 w2 → es_same p u w2 w3 → es_same p u w1 w3;
}.

Section contract.
Context {W : Type} `{Estate W}.

(** A step on behalf of [u]: nothing of another account moves, and what was
    already cleared of this one stays so. The pseudonym is the exception: to
    record an event about an account is to need a key for it. *)
Definition on_behalf (u : string) (w w' : W) : Prop :=
  es_inv w' ∧ (∀ p u', u' ≠ u → es_same p u' w w') ∧
  (∀ p, p ≠ PtPseudonym → es_cleared p u w → es_cleared p u w').

(** A port that answers without an error, with a value it vouches for, has
    cleared its part. *)
Definition clears {A} (p : part) (good : A → bool) (port : string → go W A) : Prop :=
  ∀ u w, u ≠ EmptyString → es_inv w → runs (port u) w (λ w' r,
    on_behalf u w w' ∧ ∀ a, r = Ok a → good a = true → es_cleared p u w').
Definition clears_opt {A} (p : part) (good : A → bool) (port : option (string → go W A)) : Prop :=
  match port with Some port => clears p good port | None => True end.
Definition any_value {A} (_ : A) : bool := true.

(** The log keeps what it says it kept. *)
Definition records (audit : Event → go W unit) : Prop :=
  ∀ e w, es_inv w → runs (audit e) w (λ w' r,
    on_behalf (ev_Subject e) w w' ∧ (r = Ok tt → ∃ t, es_last w' = Some (set_time t e))).

(** Destroying the key is not an event. *)
Definition destroys (port : string → go W unit) : Prop :=
  ∀ u w, u ≠ EmptyString → es_inv w → runs (port u) w (λ w' r,
    on_behalf u w w' ∧ es_last w' = es_last w ∧ (r = Ok tt → es_cleared PtPseudonym u w')).

Class DeleterOk (d : Deleter W) : Prop := {
  ok_Accounts : clears PtAccount any_value (dl_Accounts d);
  ok_Tokens : clears PtTokens any_value (λ u, dl_Tokens d (mkFilter EmptyString u));
  ok_Vault : clears PtVault any_value (dl_Vault d);
  ok_Bindings : clears_opt PtBindings (λ o, (bo_Failed o <=? 0)%Z) (dl_Bindings d);
  ok_Sessions : clears_opt PtSessions any_value (dl_Sessions d);
  ok_OIDC : clears_opt PtOIDC any_value (dl_OIDC d);
  ok_Flows : clears_opt PtFlows any_value (dl_Flows d);
  ok_Legacy : clears_opt PtLegacy any_value (dl_Legacy d);
  ok_Pseudonyms : match dl_Pseudonyms d with Some port => destroys port | None => True end;
  ok_Audit : records (dl_Audit d);
}.

(** Every port answers, with a value it vouches for. *)
Definition answers {A} (good : A → bool) (port : string → go W A) : Prop :=
  ∀ u w, u ≠ EmptyString → es_inv w → runs (port u) w (λ _ r, ∃ a, r = Ok a ∧ good a = true).
Definition answers_opt {A} (good : A → bool) (port : option (string → go W A)) : Prop :=
  match port with Some port => answers good port | None => True end.

Class DeleterAnswers (d : Deleter W) : Prop := {
  an_Accounts : answers any_value (dl_Accounts d);
  an_Tokens : answers any_value (λ u, dl_Tokens d (mkFilter EmptyString u));
  an_Vault : answers any_value (dl_Vault d);
  an_Bindings : answers_opt (λ o, (bo_Failed o <=? 0)%Z) (dl_Bindings d);
  an_Sessions : answers_opt any_value (dl_Sessions d);
  an_OIDC : answers_opt any_value (dl_OIDC d);
  an_Flows : answers_opt any_value (dl_Flows d);
  an_Legacy : answers_opt any_value (dl_Legacy d);
  an_Pseudonyms : answers_opt any_value (dl_Pseudonyms d);
  an_Audit : ∀ e w, es_inv w → runs (dl_Audit d e) w (λ _ r, r = Ok tt);
}.

Lemma on_behalf_refl u w : es_inv w → on_behalf u w w.
Proof. intros. split_and!; [done| |done]. intros. apply es_same_refl. Qed.
Lemma on_behalf_trans u w1 w2 w3 : on_behalf u w1 w2 → on_behalf u w2 w3 → on_behalf u w1 w3.
Proof.
  intros (_ & Hs1 & Hc1) (Hi & Hs2 & Hc2). split_and!; [done| |auto]. intros. eapply es_same_trans; eauto.
Qed.

(** ** Erasure *)

Context (d : Deleter W) `{!DeleterOk d} (actor subject : string) (w0 : W).
Implicit Types w : W.

(** Every wired part before the [n]th is cleared, and only this account moved. *)
Definition erased_before (n : nat) w : Prop :=
  on_behalf subject w0 w ∧ ∀ p, part_rank p < n → wired d p = true → es_cleared p subject w.

(** What the caller is told, against what happened. *)
Definition told (w' : W) (r : result (DelResult * option error)) : Prop :=
  ∃ res err, r = Ok (res, err) ∧ on_behalf subject w0 w' ∧
  match err with
  | None =>
      subject ≠ EmptyString ∧ (∀ p, wired d p = true → es_cleared p subject w') ∧
      dr_SessionScoped res = wired d PtSessions ∧ dr_PseudonymDestroyed res = wired d PtPseudonym ∧
      (bo_Failed (dr_Bindings res) ≤ 0)%Z ∧
      ∃ t, es_last w' = Some (set_time t
        (erasure_event d actor subject OutcomeOK (set_PseudonymDestroyed false res) EmptyString))
  | Some _ =>
      dr_PseudonymDestroyed res = false ∧ (subject ≠ EmptyString → ¬ DeleterAnswers d) ∧
      (subject ≠ EmptyString →
       (∀ e w, es_inv w → runs (dl_Audit d e) w (λ _ r, r = Ok tt)) →
       ∃ p t, wired d p = true ∧ (∀ q, part_rank q < part_rank p → wired d q = true → es_cleared q subject w') ∧
         es_last w' = Some (set_time t (erasure_event d actor subject OutcomeError res (part_name p))))
  end.

Lemma runs_record outcome res failedAt w :
  es_inv w → runs (record_erasure d actor subject outcome res failedAt) w (λ w' r,
    on_behalf subject w w' ∧
    (r = Ok tt → ∃ t, es_last w' = Some (set_time t (erasure_event d actor subject outcome res failedAt))) ∧
    ((∀ e w, es_inv w → runs (dl_Audit d e) w (λ _ r, r = Ok tt)) → r = Ok tt)).
Proof using All.
  intros Hw. unfold record_erasure. set (ev := erasure_event _ _ _ _ _ _).
  pose proof (ok_Audit ev w Hw) as Ha. apply runs_elim in Ha as (w' & r & Hrun & Hb & Hl).
  eapply runs_intro; [exact Hrun|]. split_and!; [done..|]. intros Hall. specialize (Hall ev w Hw).
  unfold runs in Hall. by rewrite Hrun in Hall.
Qed.

Lemma erased_step n w w' : n ≤ 8 → erased_before n w → on_behalf subject w w' → erased_before n w'.
Proof.
  intros Hn [Hb Hc] Hs. split; [by eapply on_behalf_trans|]. intros p Hp Hw. apply Hs; [|by apply Hc].
  intros ->. simpl in Hp. lia.
Qed.

Lemma runs_fail p cause res w :
  ¬ DeleterAnswers d → dr_PseudonymDestroyed res = false → wired d p = true → erased_before (part_rank p) w →
  runs (fail d actor subject (part_name p) cause res) w told.
Proof using All.
  intros Hno Hres Hp Hw. eapply runs_bind_try; [apply runs_record, Hw|]. intros w' r (Hb & Hl & Htakes).
  assert (Hw' : erased_before (part_rank p) w') by (eapply erased_step; [destruct p; simpl; lia|done|done]).
  destruct r as [[]|rerr]; eexists _, _; (split; [done|]); (split; [apply Hw'|]); (split; [done|]); (split; [done|]);
    intros Hsub Hall.
  - destruct (Hl eq_refl) as [t ->]. exists p, t. split_and!; [done|apply Hw'|done].
  - by specialize (Htakes Hall).
Qed.

(** One step: the port is called, and what follows may count on its part. *)
Lemma runs_attempt {A} p good (port : go W A) res k w :
  dr_PseudonymDestroyed res = false → wired d p = true → part_rank p < 8 → erased_before (part_rank p) w →
  runs port w (λ w' r, on_behalf subject w w' ∧ ∀ a, r = Ok a → good a = true → es_cleared p subject w') →
  (DeleterAnswers d → runs port w (λ _ r, ∃ a, r = Ok a ∧ good a = true)) →
  (∀ a w', erased_before (part_rank p) w' → (DeleterAnswers d → good a = true) → (good a = true → erased_before (S (part_rank p)) w') → runs (k a) w' told) →
  runs (attempt d actor subject (part_name p) res port k) w told.
Proof using All.
  intros Hres Hp Hr Hw Hport Han Hk. unfold attempt.
  apply (runs_bind_try _ _ _ (λ w' r, (on_behalf subject w w' ∧ ∀ a, r = Ok a → good a = true → es_cleared p subject w') ∧
    (DeleterAnswers d → ∃ a, r = Ok a ∧ good a = true))).
  { unfold runs in *. destruct (run port w) as [[w' r]|]; [|done]. by split. }
  intros w' r [[Hb Hc] Han'].
  assert (Hw' : erased_before (part_rank p) w') by (eapply erased_step; [lia|done|done]).
  destruct r as [a|err]; [|apply runs_fail; [by intros (? & ? & _)%Han'|done..]].
  apply Hk; [done|by intros (? & [= <-] & ?)%Han'|]. intros Hg. split; [apply Hw'|].
  intros q Hq Hwq. destruct (decide (q = p)) as [->|Hne]; [by eapply Hc|].
  apply Hw'; [|done]. assert (part_rank q ≠ part_rank p); [|lia]. by destruct p, q.
Qed.

Lemma runs_optional p port store res k w :
  clears_opt p any_value port → (DeleterAnswers d → answers_opt any_value port) → wired d p = configured port →
  (∀ n, dr_PseudonymDestroyed (store n res) = dr_PseudonymDestroyed res) → subject ≠ EmptyString →
  dr_PseudonymDestroyed res = false → part_rank p < 8 → erased_before (part_rank p) w →
  (∀ w', erased_before (S (part_rank p)) w' → wired d p = false → runs (k res) w' told) →
  (∀ n w', erased_before (S (part_rank p)) w' → wired d p = true → runs (k (store n res)) w' told) →
  runs (optional_step d actor subject (part_name p) port store res k) w told.
Proof using All.
  intros Hport Han Hwired Hst Hsub Hres Hr Hw Hno Hyes. unfold optional_step. destruct port as [port|].
  - apply (runs_attempt p any_value); [done..|apply Hport; [done|apply Hw]|intros Ha; apply (Han Ha); [done|apply Hw]|].
    intros n w' _ _ Hk. by apply Hyes; [apply Hk|].
  - apply Hno; [|done]. split; [apply Hw|]. intros q Hq Hwq. apply Hw; [|done].
    assert (part_rank q ≠ part_rank p); [|lia]. intros Heq. assert (q = p) as -> by by destruct p, q. by rewrite Hwired in Hwq.
Qed.

Lemma runs_finish res w :
  dr_PseudonymDestroyed res = false → dr_SessionScoped res = wired d PtSessions →
  (bo_Failed (dr_Bindings res) ≤ 0)%Z → subject ≠ EmptyString → erased_before 8 w →
  runs (finish d actor subject res) w told.
Proof using All.
  intros Hres Hsess Hfailed Hsub Hw. unfold finish.
  assert (set_PseudonymDestroyed false res = res) as -> by (destruct res; simpl in *; by subst).
  eapply runs_bind_try; [apply runs_record, Hw|]. intros w1 r (Hb & Hl & Htakes).
  pose proof (erased_step 8 _ _ ltac:(lia) Hw Hb) as Hw1.
  assert (Hcl : ∀ p, p ≠ PtPseudonym → wired d p = true → es_cleared p subject w1).
  { intros p Hp. apply Hw1. destruct p; simpl; (lia || done). }
  destruct r as [[]|err].
  2: { eexists _, _. split; [done|]. split; [apply Hw1|]. split; [done|]. split.
       - intros _ Ha. by specialize (Htakes an_Audit).
       - intros _ Hall. by specialize (Htakes Hall). }
  specialize (Hl eq_refl). pose proof ok_Pseudonyms as Hps. destruct (dl_Pseudonyms d) as [destroy|] eqn:Ep.
  - assert (Han : DeleterAnswers d → runs (destroy subject) w1 (λ _ r, ∃ a, r = Ok a ∧ any_value a = true)).
    { intros Ha. pose proof an_Pseudonyms as Hd. rewrite Ep in Hd. apply Hd; [done|apply Hw1]. }
    specialize (Hps subject w1 Hsub (proj1 (proj1 Hw1))).
    apply (runs_bind_try _ _ _ (λ w2 r, (on_behalf subject w1 w2 ∧ es_last w2 = es_last w1 ∧
      (r = Ok tt → es_cleared PtPseudonym subject w2)) ∧ (DeleterAnswers d → ∃ a, r = Ok a ∧ any_value a = true))).
    { unfold runs in *. destruct (run (destroy subject) w1) as [[w2 r]|]; [|done]. by split. }
    intros w2 r2 [(Hb2 & Hlast & Hc2) Han2].
    pose proof (erased_step 8 _ _ ltac:(lia) Hw1 Hb2) as Hw2. destruct r2 as [[]|err].
    + eexists _, _. split; [done|]. split; [apply Hw2|].
      split_and!; [done| |done|by simpl; rewrite Ep|done|].
      * intros p Hp. destruct (decide (p = PtPseudonym)) as [->|Hne]; [by apply Hc2|].
        apply Hw2; [|done]. destruct p; simpl; (lia || done).
      * rewrite Hlast. assert (set_PseudonymDestroyed false (set_PseudonymDestroyed true res) = res) as ->
          by (destruct res; simpl in *; by subst). done.
    + replace (set_PseudonymDestroyed false res) with res by (destruct res; simpl in *; by subst).
      apply (runs_fail PtPseudonym); [by intros (? & ? & _)%Han2|done|by simpl; rewrite Ep|done].
  - eexists _, _. split; [done|]. split; [apply Hw1|].
    split_and!; [done| |done|by simpl; rewrite Ep|done|].
    + intros p Hp. apply Hcl; [|done]. intros ->. simpl in Hp. by rewrite Ep in Hp.
    + by destruct res; simpl in *; subst.
Qed.

Lemma runs_DeleteAccount : es_inv w0 → runs (DeleteAccount d actor subject) w0 told.
Proof using All.
  intros Hw. unfold DeleteAccount. case_bool_decide as Hsub.
  { eexists _, _. split; [done|]. split; [by apply on_behalf_refl|]. split; [done|].
    by split; intros []. }
  assert (Hw0 : erased_before 0 w0) by (split; [by apply on_behalf_refl|lia]).
  (* what follows the bindings, for a result that reports none as failed *)
  set (rest := λ res, attempt d actor subject "vault" res (dl_Vault d subject) _).
  assert (Hrest : ∀ res w, dr_PseudonymDestroyed res = false → dr_SessionScoped res = false →
    (bo_Failed (dr_Bindings res) ≤ 0)%Z → erased_before 1 w → runs (rest res) w told).
  { clear Hw Hw0. intros res w Hps Hss Hf Hw. unfold rest.
    apply (runs_attempt PtVault any_value); [done|done|simpl; lia|done|apply ok_Vault; [done|apply Hw]|
      intros Ha; apply an_Vault; [done|apply Hw]|].
    clear Hw w. intros n w _ _ Hw. specialize (Hw eq_refl).
    apply (runs_attempt PtTokens any_value); [done|done|simpl; lia|done|apply ok_Tokens; [done|apply Hw]|
      intros Ha; apply an_Tokens; [done|apply Hw]|].
    clear Hw w. intros tokens w _ _ Hw. specialize (Hw eq_refl).
    apply (runs_optional PtSessions); [apply ok_Sessions|by intros Ha; apply an_Sessions|done|done|done|done|simpl; lia|done|..];
      clear Hw w; [intros w Hw Hses|intros sessions w Hw Hses].
    all: apply (runs_optional PtFlows); [apply ok_Flows|by intros Ha; apply an_Flows|done|done|done|done|simpl; lia|done|..];
      clear Hw w; [intros w Hw _|intros flows w Hw _].
    all: apply (runs_optional PtOIDC); [apply ok_OIDC|by intros Ha; apply an_OIDC|done|done|done|done|simpl; lia|done|..];
      clear Hw w; [intros w Hw _|intros oidc w Hw _].
    all: apply (runs_optional PtLegacy); [apply ok_Legacy|by intros Ha; apply an_Legacy|done|done|done|done|simpl; lia|done|..];
      clear Hw w; [intros w Hw _|intros legacy w Hw _].
    all: apply (runs_attempt PtAccount any_value); [done|done|simpl; lia|done|apply ok_Accounts; [done|apply Hw]|
      intros Ha; apply an_Accounts; [done|apply Hw]|]; clear Hw w; intros ? w _ _ Hw; specialize (Hw eq_refl).
    all: apply runs_finish; [done| |done|done|done]; by rewrite Hses. }
  unfold bindings_step. pose proof ok_Bindings as Hbs. destruct (dl_Bindings d) as [port|] eqn:Eb.
  - apply (runs_attempt PtBindings (λ o, (bo_Failed o <=? 0)%Z));
      [done|by simpl; rewrite Eb|simpl; lia|done|by apply Hbs| |].
    { intros Ha. pose proof an_Bindings as Hb. rewrite Eb in Hb. by apply Hb. }
    intros o w Hw1 Han Hgood. simpl.
    destruct (Z.ltb_spec 0 (bo_Failed o)) as [Hf|Hf].
    + apply (runs_fail PtBindings); [intros Ha; specialize (Han Ha); simpl in Han; lia|done|by simpl; rewrite Eb|done].
    + apply Hrest; [done|done|done|apply Hgood; lia].
  - apply Hrest; [done|done|done|]. split; [by apply on_behalf_refl|]. intros p Hp Hwp.
    destruct p; simpl in Hp; [|lia..]. simpl in Hwp. by rewrite Eb in Hwp.
Qed.
End contract.

(** Account erasure, against any deployment whose ports keep their promises. The
    call always answers. Nothing of another account moves. When it answers
    without an error, every part of the account that has a port is cleared, the
    bindings sweep left none behind, the audit log ends with the record of the
    erasure, and the key that links the log to the account is gone although that
    record was written. When it answers with an error and the log takes events,
    the log ends with a record that names the step that stopped, and the parts
    before that step are cleared. With ports that answer, there is no error. The
    result claims a destroyed key only when one
    was destroyed. *)
Theorem DeleteAccount_sound {W} `{Estate W} (d : Deleter W) `{!DeleterOk d} actor subject w :
  es_inv w →
  ∃ w' res err, run (DeleteAccount d actor subject) w = Some (w', Ok (res, err)) ∧
    es_inv w' ∧ (∀ p u, u ≠ subject → es_same p u w w') ∧
    match err with
    | None =>
        (∀ p, wired d p = true → es_cleared p subject w') ∧
        dr_SessionScoped res = wired d PtSessions ∧ dr_PseudonymDestroyed res = wired d PtPseudonym ∧
        (bo_Failed (dr_Bindings res) ≤ 0)%Z ∧
        ∃ t, es_last w' = Some (set_time t
          (erasure_event d actor subject OutcomeOK (set_PseudonymDestroyed false res) EmptyString))
    | Some _ =>
        dr_PseudonymDestroyed res = false ∧ (subject ≠ EmptyString → ¬ DeleterAnswers d) ∧
        (subject ≠ EmptyString →
         (∀ e w, es_inv w → runs (dl_Audit d e) w (λ _ r, r = Ok tt)) →
         ∃ p t, wired d p = true ∧ (∀ q, part_rank q < part_rank p → wired d q = true → es_cleared q subject w') ∧
           es_last w' = Some (set_time t (erasure_event d actor subject OutcomeError res (part_name p))))
    end.
Proof.
  intros Hw. destruct (runs_elim _ _ _ (runs_DeleteAccount d actor subject w Hw))
    as (w' & r & Hrun & res & err & -> & (Hi & Hs & _) & Ht).
  exists w', res, err. split_and!; [done..|]. destruct err; [done|]. apply Ht.
Qed.
