(* ===== verification/Erasure.v ===== *)
(** * Erasure over the stores of this development

    The ports of [lifecycle] over the stores in memory, as [cmd/re0auth/main.go]
    hands them over: the federation service for the bindings, the credential
    repository itself for the vault, the OpenID Provider store for the tokens and
    for the OP state, the bind flows, the account store and the audit ring. Each
    port is shown to keep the promise [Lifecycle] asks of it. *)

From S2P Require Import Prelude GoStd Proc AuditLog Tokens VaultRepo VaultEnvelope Vault VaultProps.
From S2P Require Import FedRegistry FedStore FedLimits FedLocks Fed FedRun FedProps Account Lifecycle.
From S2P Require Import OidcPolicy OidcTables OidcStore OidcWf OidcRevoke.

(** ** The world *)

Record EWorld (U : Type) := mkEWorld {
  ew_fed : FWorld MemoryRepo MemoryLogger MemoryBindingStore MemoryBindFlowStore U;
  ew_oidc : OIDCStore;
  ew_accounts : MemoryAccounts;
}.
Arguments mkEWorld {U}.
Arguments ew_fed {U}.
Arguments ew_oidc {U}.
Arguments ew_accounts {U}.

Section world.
Context {U : Type}.
Local Abbreviation FW := (FWorld MemoryRepo MemoryLogger MemoryBindingStore MemoryBindFlowStore U).
Definition set_fed (f : FW) (w : EWorld U) : EWorld U := mkEWorld f (ew_oidc w) (ew_accounts w).
Definition set_oidc (o : OIDCStore) (w : EWorld U) : EWorld U := mkEWorld (ew_fed w) o (ew_accounts w).
Definition set_accounts (a : MemoryAccounts) (w : EWorld U) : EWorld U := mkEWorld (ew_fed w) (ew_oidc w) a.

#[export] Instance fed_lens : Lens (@ew_fed U) set_fed.
Proof. split; [done|done|by intros []]. Qed.
End world.

(** ** The ports *)

Section ports.
Context `{Platform} `{Entropy} `{MapOrder} `{Aead} `{Json} {U : Type} `{Upstream U} (s : federation).
Local Abbreviation W := (EWorld U).
Local Abbreviation FW := (FWorld MemoryRepo MemoryLogger MemoryBindingStore MemoryBindFlowStore U).

(** A count as Go's [int]. *)
Definition count (r : result nat) : result Z :=
  match r with Ok n => Ok (Z.of_nat n) | Err e => Err e end.

(** [erasureBindings]. *)
Definition erasureBindings (user : string) : go W BindingOutcome :=
  summary ← zoom ew_fed set_fed (RevokeUserBindings s user);
  mret (mkOutcome (su_Total summary) (su_Revoked summary) (su_Failed summary)).

Definition vault_port (subject : string) : go W Z :=
  call (λ w,
    let v := fw_vault (ew_fed w) in
    let '(r, n) := MemoryRepo_DeleteSubject subject (vw_repo v) in
    (set_fed (set_vault (set_repo r v) (ew_fed w)) w, count n)).

(** The OP store as one engine of [oauth.TokenAdmins]. *)
Definition oidc_engine (o : OIDCStore) (f : TokenFilter) : OIDCStore * (nat * option error) :=
  let '(o, r) := OIDC_RevokeTokens f o in
  (o, match r with Ok n => (n, None) | Err e => (0, Some e) end).

(** [oauth.TokenAdmins{oidcStore}]: the one engine of this deployment. *)
Definition tokens_port (f : TokenFilter) : go W Z :=
  call (λ w,
    let '(engines, (n, err)) := TokenAdmins_RevokeTokens oidc_engine f [ew_oidc w] 0 None in
    (set_oidc (default (ew_oidc w) (head engines)) w,
     match err with None => Ok (Z.of_nat n) | Some e => Err e end)).

Definition oidc_port (subject : string) : go W Z :=
  call (λ w, let '(o, n) := PurgeSubject subject (ew_oidc w) in (set_oidc o w, count n)).

Definition flows_port (user : string) : go W Z :=
  call (λ w,
    let '(f, n) := Flows_PurgeUserFlows user (fw_flows (ew_fed w)) in
    (set_fed (set_flows f (ew_fed w)) w, count n)).

Definition accounts_port (user : string) : go W unit :=
  call (λ w, let '(a, r) := DeleteUser user (ew_accounts w) in (set_accounts a w, r)).

Definition audit_port (e : Event) : go W unit :=
  call (λ w,
    let v := fw_vault (ew_fed w) in
    let '(l, err) := log_Record (vw_clock v) e (vw_audit v) in
    (set_fed (set_vault (set_audit l v) (ew_fed w)) w, match err with Some e => Err e | None => Ok tt end)).

(** What [main] hands to [lifecycle.New] in memory mode: no durable sessions, no
    retired engine, and a ring that keeps no pseudonym keys. *)
Definition memory_lifecycle : LifecycleConfig W :=
  mkLifecycle (Some accounts_port) (Some tokens_port) (Some vault_port) (Some erasureBindings) None (Some oidc_port)
    (Some flows_port) None None (Some audit_port).
Definition memory_deleter : Deleter W :=
  mkDeleter accounts_port tokens_port vault_port (Some erasureBindings) None (Some oidc_port) (Some flows_port) None None
    audit_port.

Lemma memory_deleter_new : NewDeleter memory_lifecycle = Ok memory_deleter.
Proof. done. Qed.
End ports.

(** ** What a sweep of bindings leaves alone *)

Section frame.
Context `{Platform} `{Entropy} `{Aead} `{Json}.
Context {Lg B F U : Type} `{Logger Lg} `{BindingStore B} `{BindFlowStore F} `{Upstream U} (s : federation).
Local Abbreviation V := (VWorld MemoryRepo Lg).
Local Abbreviation FW := (FWorld MemoryRepo Lg B F U).
(** A fact about the flows and the log that recording an event does not break. *)
Context (J : F → Lg → Prop) (Hrec : ∀ f l t e, J f l → J f (log_Record t e l).1).

Definition apart (w : FW) : Prop := J (fw_flows w) (vw_audit (fw_vault w)).

Section vault.
Context (f : F).
Definition vapart (v : V) : Prop := J f (vw_audit v).

Lemma keeps_on_repo {A} (g : MemoryRepo → MemoryRepo * result A) : keeps vapart (on_repo g).
Proof. apply keeps_call. intros v Hv. by destruct (g (vw_repo v)). Qed.
Lemma keeps_ask_repo {A} (g : MemoryRepo → result A) : keeps vapart (ask_repo g).
Proof. by apply keeps_call. Qed.
Lemma keeps_observe op res : keeps vapart (observe (fe_vault s) op res).
Proof. unfold observe. destruct (vs_metrics _); [by apply keeps_atomic|apply keeps_ret]. Qed.
Lemma keeps_vrecord e : keeps vapart (vrecord e).
Proof using Hrec.
  apply keeps_call. intros v Hv. specialize (Hrec f (vw_audit v) (vw_clock v) (stamp (vw_clock v) e) Hv).
  by destruct (log_Record _ _ _).
Qed.
Hint Resolve keeps_on_repo keeps_ask_repo keeps_observe keeps_vrecord : keeps.

Lemma keeps_use_refused {A} id outcome res err : keeps vapart (use_refused (A:=A) (fe_vault s) id outcome res err).
Proof using Hrec. unfold use_refused, throw. keeps_tac. Qed.
Lemma keeps_VRevoke id : keeps vapart (VRevoke (fe_vault s) id).
Proof using Hrec. unfold VRevoke, throw. keeps_tac. Qed.
End vault.

Lemma keeps_on_vault {A} (p : go V A) : (∀ f, keeps (vapart f) p) → keeps apart (on_vault p).
Proof. intros Hp. apply keeps_zoom; [apply _|]. intros w. apply (Hp (fw_flows w)). Qed.
Lemma keeps_on_bindings {A} (g : B → B * result A) : keeps apart (on_bindings g).
Proof. apply keeps_call. intros w Hw. by destruct (g (fw_bindings w)). Qed.
Lemma keeps_ask_bindings {A} (g : B → result A) : keeps apart (ask_bindings g).
Proof. by apply keeps_call. Qed.
Lemma keeps_on_up {A} (g : U → U * result A) : keeps apart (on_up g).
Proof. apply keeps_call. intros w Hw. by destruct (g (fw_up w)). Qed.
Lemma keeps_locked {A} u g n (p : go FW A) : keeps apart p → keeps apart (locked u g n p).
Proof.
  intros Hp. unfold locked, with_lock, lock, unlock. repeat (apply keeps_bind; [|intros ?]); try apply keeps_ret.
  - apply keeps_atomic. intros w Hw. by destruct (km_enter _ (fw_locks w)).
  - apply keeps_await. intros w w' Hw. by destruct (km_acquire _ _) as [k|]; simpl; [intros [= <-]|].
  - by apply keeps_try.
  - by apply keeps_atomic.
  - by apply keeps_atomic.
Qed.
Hint Resolve keeps_on_vault keeps_on_bindings keeps_ask_bindings keeps_on_up keeps_locked keeps_use_refused
  keeps_VRevoke keeps_vrecord keeps_observe keeps_ask_repo keeps_try : keeps.

Lemma keeps_useBindingSecret {A} b (fn : bindingSecret → go FW A) :
  (∀ sec, keeps apart (fn sec)) → keeps apart (useBindingSecret s b fn).
Proof using Hrec. intros Hfn. unfold useBindingSecret, UseIn, throw, lift_result. keeps_tac. Qed.
Hint Resolve keeps_useBindingSecret : keeps.

Lemma keeps_postRevocation src ep form : keeps apart (postRevocation (U:=U) src ep form).
Proof. unfold postRevocation, throw. keeps_tac. Qed.
Hint Resolve keeps_postRevocation : keeps.

Lemma keeps_cut b u g n : keeps apart (cut s b u g n).
Proof using Hrec. unfold cut, shredSecret, throw. keeps_tac. Qed.
Hint Resolve keeps_cut : keeps.

Lemma keeps_Unbind u g n : keeps apart (Unbind s u g n).
Proof using Hrec.
  unfold Unbind. case_match; [apply keeps_ret|]. apply keeps_locked. unfold unbind_locked, getBinding, revokeUpstream.
  keeps_tac.
Qed.
Lemma keeps_CascadeRevoke u g n : keeps apart (CascadeRevoke s u g n).
Proof using Hrec.
  unfold CascadeRevoke, throw. apply keeps_bind; [apply keeps_guard|intros _]. case_match; [|apply keeps_ret].
  apply keeps_bind; [apply keeps_guard|intros _]. apply keeps_locked. unfold cascade_locked, throw. keeps_tac.
Qed.
Hint Resolve keeps_Unbind keeps_CascadeRevoke : keeps.

Lemma keeps_shredBinding b : keeps apart (shredBinding s b).
Proof using Hrec. apply keeps_locked. unfold shredSecret. keeps_tac. Qed.
Hint Resolve keeps_shredBinding : keeps.

Lemma keeps_revokeBinding b : keeps apart (revokeBinding s b).
Proof using Hrec. unfold revokeBinding, unbind_outcome. keeps_tac. Qed.

Lemma keeps_revokeBindings l sum : keeps apart (revokeBindings s l sum).
Proof using Hrec.
  revert sum. induction l as [|b l IH]; intros sum; simpl; [apply keeps_ret|].
  apply keeps_bind; [apply keeps_revokeBinding|intros o; apply IH].
Qed.

Lemma keeps_RevokeUserBindings u : keeps apart (RevokeUserBindings s u).
Proof using Hrec.
  unfold RevokeUserBindings. apply keeps_bind; [apply keeps_guard|intros _].
  apply keeps_bind; [apply keeps_ask_bindings|intros l; apply keeps_revokeBindings].
Qed.

Lemma keeps_RevokeAllBindings fuel : keeps apart (RevokeAllBindings s fuel).
Proof using Hrec.
  unfold RevokeAllBindings. destruct bs_ListAllPage as [pager|].
  - enough (Hall : ∀ u g n sum, keeps apart (sweep_pages s pager fuel u g n sum)) by apply Hall.
    induction fuel as [|fuel IH]; intros u g n sum; cbn [sweep_pages]; [by intros w w' a _ [=]|].
    apply keeps_bind; [apply keeps_try, keeps_ask_bindings|]. intros [page|e]; [|apply keeps_ret].
    destruct (last page) as [b|]; [|apply keeps_ret].
    apply keeps_bind; [apply keeps_revokeBindings|]. intros sum'. case_match; [apply keeps_ret|apply IH].
  - apply keeps_bind; [apply keeps_try, keeps_ask_bindings|]. intros [l|e]; [|apply keeps_ret].
    apply keeps_bind; [apply keeps_revokeBindings|intros ?; apply keeps_ret].
Qed.
End frame.

(** ** What the OP store holds of a subject *)

(** Its tokens and the residues of spent ones; its pending requests, the codes
    minted from them, its device authorizations. *)
Definition tokens_of (u : string) (σ : OPState) : gmap string accessToken * gmap string refreshToken * gmap string refreshTombstone :=
  (filter (λ kv, ot_subject kv.2 = u) (op_access σ), filter (λ kv, rf_subject kv.2 = u) (op_refresh σ),
   filter (λ kv, ts_subject kv.2 = u) (op_tombstones σ)).
Definition pending_of (u : string) (σ : OPState) : gmap string (AuthRequest * Z) * gmap string codeRecord * gmap string deviceRecord :=
  (filter (λ kv, oa_Subject kv.2.1 = u) (op_requests σ),
   filter (λ kv, request_matches (λ _ sub, bool_decide (sub = u)) σ kv.2 = true) (op_codes σ),
   filter (λ kv, dv_subject kv.2 = u) (op_devices σ)).
Definition no_tokens : gmap string accessToken * gmap string refreshToken * gmap string refreshTombstone := (∅, ∅, ∅).
Definition no_pending : gmap string (AuthRequest * Z) * gmap string codeRecord * gmap string deviceRecord := (∅, ∅, ∅).

Section views.
Context (u : string) (R : string → string → bool) (HR : ∀ cl sub, R cl sub = true ↔ sub = u).

Lemma subject_view {V} (cl sub : V → string) u' (m : gmap string V) :
  filter (λ kv, sub kv.2 = u') (delete_where (λ v, R (cl v) (sub v)) m) =
    if decide (u' = u) then ∅ else filter (λ kv, sub kv.2 = u') m.
Proof using HR.
  apply map_eq. intros k. apply option_eq. intros v.
  rewrite map_lookup_filter_Some, lookup_delete_where, <-not_true_iff_false, HR. simpl.
  case_decide; [rewrite lookup_empty|rewrite map_lookup_filter_Some; simpl]; naive_solver.
Qed.

Lemma tokens_of_dropped u' σ :
  tokens_of u' (spec_drop_tokens R σ) = if decide (u' = u) then no_tokens else tokens_of u' σ.
Proof using HR.
  pose proof (subject_view ot_clientID ot_subject u' (op_access σ)) as Ha.
  pose proof (subject_view rf_clientID rf_subject u' (op_refresh σ)) as Hr.
  pose proof (subject_view ts_clientID ts_subject u' (op_tombstones σ)) as Ht.
  unfold tokens_of, no_tokens. simpl. rewrite Ha, Hr, Ht. by case_decide.
Qed.

Lemma codes_of_purged u' σ :
  filter (λ kv, request_matches (λ _ sub, bool_decide (sub = u')) (spec_purge R σ) kv.2 = true) (op_codes (spec_purge R σ)) =
    if decide (u' = u) then ∅
    else filter (λ kv, request_matches (λ _ sub, bool_decide (sub = u')) σ kv.2 = true) (op_codes σ).
Proof using HR.
  assert (Hm : ∀ c, request_matches (λ _ sub, bool_decide (sub = u')) (spec_purge R σ) c = true ↔
    u' ≠ u ∧ request_matches (λ _ sub, bool_decide (sub = u')) σ c = true).
  { intros c. unfold request_matches. simpl.
    destruct (delete_where _ (op_requests σ) !! cd_requestID c) as [[a e]|] eqn:E.
    - apply lookup_delete_where in E as [Hl Hn]. rewrite Hl. simpl in Hn. rewrite <-not_true_iff_false, HR in Hn.
      rewrite bool_decide_eq_true. naive_solver.
    - split; [done|]. destruct (op_requests σ !! cd_requestID c) as [[a e]|] eqn:E'; [|naive_solver].
      rewrite bool_decide_eq_true. intros [Hne Hs]. exfalso.
      enough (Hl : delete_where (λ p, R (oa_ClientID p.1) (oa_Subject p.1)) (op_requests σ) !! cd_requestID c = Some (a, e)) by congruence.
      apply lookup_delete_where. split; [done|]. rewrite <-not_true_iff_false, HR. simpl. congruence. }
  apply map_eq. intros k. apply option_eq. intros c. rewrite map_lookup_filter_Some. simpl. rewrite lookup_delete_where, Hm.
  case_decide as Hu; [rewrite lookup_empty; naive_solver|]. rewrite map_lookup_filter_Some. simpl.
  assert (Hx : request_matches (λ _ sub, bool_decide (sub = u')) σ c = true → request_matches R σ c = false).
  { unfold request_matches. destruct (op_requests σ !! _) as [[a e]|]; [|done]. rewrite bool_decide_eq_true, <-not_true_iff_false, HR.
    congruence. }
  naive_solver.
Qed.

Lemma pending_of_purged u' σ : pending_of u' (spec_purge R σ) = if decide (u' = u) then no_pending else pending_of u' σ.
Proof using HR.
  pose proof (subject_view (λ p : AuthRequest * Z, oa_ClientID p.1) (λ p, oa_Subject p.1) u' (op_requests σ)) as Hr.
  pose proof (subject_view dv_clientID dv_subject u' (op_devices σ)) as Hd.
  unfold pending_of, no_pending. rewrite codes_of_purged. simpl. rewrite Hr, Hd. by case_decide.
Qed.
End views.

Section oidc_views.
Context `{Platform} `{MapOrderOk}.

Lemma matches_subject u c sub : u ≠ EmptyString → Matches (mkFilter EmptyString u) c sub = true ↔ sub = u.
Proof. intros Hu. unfold Matches. simpl. rewrite (bool_decide_false (u = EmptyString)) by done. simpl. rewrite bool_decide_eq_true. naive_solver. Qed.

Lemma revoke_views u o :
  oidc_wf o → u ≠ EmptyString →
  let o' := (OIDC_RevokeTokens (mkFilter EmptyString u) o).1 in
  oidc_wf o' ∧
  (∀ u', tokens_of u' (abs o') = if decide (u' = u) then no_tokens else tokens_of u' (abs o)) ∧
  (∀ u', pending_of u' (abs o') = if decide (u' = u) then no_pending else pending_of u' (abs o)).
Proof.
  intros Ho Hu. cbv zeta. pose proof (RevokeTokens_spec (mkFilter EmptyString u) o Ho) as Hs.
  destruct (OIDC_RevokeTokens _ o) as [o' r]. destruct Hs as (Ho' & Habs & _). cbn [fst]. rewrite Habs.
  pose proof (λ cl sub, matches_subject u cl sub Hu) as HR. split_and!; [done| |]; intros u'.
  - exact (tokens_of_dropped u _ HR u' (abs o)).
  - exact (pending_of_purged u _ HR u' (spec_drop_tokens _ (abs o))).
Qed.

Lemma purge_views u o :
  oidc_wf o → u ≠ EmptyString →
  let o' := (PurgeSubject u o).1 in
  oidc_wf o' ∧ (∀ u', tokens_of u' (abs o') = tokens_of u' (abs o)) ∧
  (∀ u', pending_of u' (abs o') = if decide (u' = u) then no_pending else pending_of u' (abs o)).
Proof.
  intros Ho Hu. cbv zeta. pose proof (PurgeSubject_spec u o Ho Hu) as Hs. cbv zeta in Hs.
  destruct (PurgeSubject u o) as [o' r]. destruct Hs as (Ho' & Habs & _). cbn [fst]. rewrite Habs.
  split_and!; [done|done|]. intros u'. apply pending_of_purged. intros cl sub. apply bool_decide_eq_true.
Qed.
End oidc_views.

(** ** What the world holds of an account *)

Section memory.
Context `{Platform} `{Entropy} `{MapOrderOk} `{Aead} `{!AeadOk} `{Json} `{!JsonOk} {U : Type} `{Upstream U}.
Context (s : federation) `{!KeysOk (fe_vault s)}.
Local Abbreviation W := (EWorld U).
Implicit Types w : W.

Definition memory_cleared (p : part) (u : string) w : Prop :=
  match p with
  | PtBindings => ∀ k, bk_user k = u → row (ew_fed w) k = None
  | PtVault => ∀ id, id_Subject id = u → secretAt s (ew_fed w) id = None
  | PtTokens => tokens_of u (abs (ew_oidc w)) = no_tokens
  | PtOIDC => pending_of u (abs (ew_oidc w)) = no_pending
  | PtFlows => ∀ st f, fw_flows (ew_fed w) !! st = Some f → fl_User f ≠ u
  | PtAccount => ma_users (ew_accounts w) !! u = None ∧ (∀ k, owners (ew_accounts w) !! k ≠ Some u) ∧
      ∀ id i, ma_identities (ew_accounts w) !! id = Some i → li_User i ≠ u
  | PtSessions | PtLegacy | PtPseudonym => True
  end.

Definition memory_same (p : part) (u : string) w w' : Prop :=
  match p with
  | PtBindings => ∀ k, bk_user k = u → row (ew_fed w') k = row (ew_fed w) k
  | PtVault => ∀ id, id_Subject id = u → secretAt s (ew_fed w') id = secretAt s (ew_fed w) id
  | PtTokens => tokens_of u (abs (ew_oidc w')) = tokens_of u (abs (ew_oidc w))
  | PtOIDC => pending_of u (abs (ew_oidc w')) = pending_of u (abs (ew_oidc w))
  | PtFlows => ∀ st f, fl_User f = u → fw_flows (ew_fed w') !! st = Some f ↔ fw_flows (ew_fed w) !! st = Some f
  | PtAccount => ma_users (ew_accounts w') !! u = ma_users (ew_accounts w) !! u ∧
      (∀ k, owners (ew_accounts w') !! k = Some u ↔ owners (ew_accounts w) !! k = Some u) ∧
      ∀ id i, li_User i = u → ma_identities (ew_accounts w') !! id = Some i ↔ ma_identities (ew_accounts w) !! id = Some i
  | PtSessions | PtLegacy | PtPseudonym => True
  end.

(** No request is running, the stores are in order, every binding has a key the
    operations accept, and the log is a ring. *)
Definition memory_inv w : Prop :=
  rests s (ew_fed w) ∧ (∀ k b, row (ew_fed w) k = Some b → valid_key k) ∧ accounts_wf (ew_accounts w) ∧
  oidc_wf (ew_oidc w) ∧ ∃ hist, ring_ok hist (vw_audit (fw_vault (ew_fed w))).

Definition last_event (l : MemoryLogger) : option Event := last (Events l).

Lemma memory_same_refl p u w : memory_same p u w w.
Proof. by destruct p. Qed.
Lemma memory_same_trans p u w1 w2 w3 : memory_same p u w1 w2 → memory_same p u w2 w3 → memory_same p u w1 w3.
Proof.
  destruct p; simpl; try done.
  - intros Ha Hb k Hk. by rewrite Hb, Ha.
  - intros Ha Hb id Hid. by rewrite Hb, Ha.
  - congruence.
  - intros Ha Hb st f Hf. by rewrite Hb, Ha.
  - congruence.
  - intros (Ha & Ho & Ha') (Hb & Ho' & Hb'). split_and!; [congruence|intros k; by rewrite Ho', Ho|].
    intros id i Hi. by rewrite Hb', Ha'.
Qed.

#[export] Instance memory_estate : Estate W := {|
  es_inv := memory_inv;
  es_cleared := memory_cleared;
  es_same := memory_same;
  es_last w := last_event (vw_audit (fw_vault (ew_fed w)));
  es_same_refl := memory_same_refl;
  es_same_trans := memory_same_trans;
|}.

Lemma last_record hist t e l :
  ring_ok hist l → (∃ hist', ring_ok hist' (log_Record t e l).1) ∧
  last_event (log_Record t e l).1 = Some (stamp t e).
Proof.
  intros Hl. destruct (ring_record hist t e l Hl) as (l' & Hr & _ & Hl'). simpl. rewrite Hr. simpl.
  split; [eauto|]. destruct Hl' as (Hpos & _ & _ & _ & _ & Hev). unfold last_event. rewrite Hev. unfold lastn.
  rewrite drop_app_le by (rewrite length_app; simpl; lia). by rewrite last_snoc.
Qed.

(** ** The promises *)

#[local] Arguments delete_where : simpl never.

Lemma accounts_clears : clears PtAccount any_value (accounts_port (U:=U)).
Proof.
  intros u w Hu (Hr & Hk & Ha & Ho & Hl). apply runs_call.
  destruct (DeleteUser_spec u (ew_accounts w) Ha) as (Hw & Hus & Hids & Hown).
  destruct (DeleteUser u (ew_accounts w)) as [a r]; simpl in *.
  assert (Hgone : memory_cleared PtAccount u (set_accounts a w)).
  { simpl. rewrite Hus, Hown, lookup_delete_eq. split_and!; [done| |].
    - intros k. rewrite map_lookup_filter_Some. by intros [_ []].
    - intros id i. rewrite Hids, bind_Some. intros (j & _ & Hj). case_decide; congruence. }
  split; [split; [|split]|].
  - by split.
  - intros p u' Hne. destruct p; simpl; try done. rewrite Hus, lookup_delete_ne by done.
    split_and!; [done|intros k; rewrite Hown, map_lookup_filter_Some; naive_solver|].
    intros id i Hi. rewrite Hids, bind_Some. split; [intros (j & -> & Hj); by case_decide|].
    intros Hj. exists i. by rewrite decide_False by congruence.
  - intros p _. by destruct p.
  - by intros _ _ _.
Qed.

Lemma tokens_clears : clears PtTokens any_value (λ u, tokens_port (U:=U) (mkFilter EmptyString u)).
Proof.
  intros u w Hu (Hr & Hk & Ha & Ho & Hl). apply runs_call. unfold TokenAdmins_RevokeTokens, oidc_engine.
  destruct (revoke_views u (ew_oidc w) Ho Hu) as (Ho' & Ht & Hp).
  destruct (OIDC_RevokeTokens _ _) as [o r]; simpl in *. destruct r as [n|e]; simpl; (split; [split; [|split]|]).
  1, 5: by split_and!.
  1, 4: intros p u' Hne; destruct p; simpl; try done; [by rewrite Ht, decide_False|by rewrite Hp, decide_False].
  1, 3: intros p _; destruct p; simpl; try done; intros _; [by rewrite Ht, decide_True|by rewrite Hp, decide_True].
  all: intros _ _ _; simpl; by rewrite Ht, decide_True.
Qed.

Lemma oidc_clears : clears PtOIDC any_value (oidc_port (U:=U)).
Proof.
  intros u w Hu (Hr & Hk & Ha & Ho & Hl). apply runs_call.
  destruct (purge_views u (ew_oidc w) Ho Hu) as (Ho' & Ht & Hp).
  destruct (PurgeSubject _ _) as [o r]; simpl in *. split; [split; [|split]|].
  - by split_and!.
  - intros p u' Hne. destruct p; simpl; try done. by rewrite Hp, decide_False.
  - intros p _. destruct p; simpl; try done; [by rewrite Ht|]. intros _. by rewrite Hp, decide_True.
  - intros _ _ _. simpl. by rewrite Hp, decide_True.
Qed.

Lemma flows_clears : clears PtFlows any_value (flows_port (U:=U)).
Proof.
  intros u w Hu (Hr & Hk & Ha & Ho & Hl). apply runs_call. unfold Flows_PurgeUserFlows. simpl. split; [split; [|split]|].
  - by split.
  - intros p u' Hne. destruct p; simpl; try done. intros st f Hf.
    etrans; [apply lookup_delete_where|]. rewrite bool_decide_eq_false. naive_solver.
  - intros p _. destruct p; simpl; try done. intros Hno st f [Hf _]%lookup_delete_where. eauto.
  - intros _ _ _ st f [_ Hf%bool_decide_eq_false]%lookup_delete_where. done.
Qed.

Lemma vault_clears : clears PtVault any_value (vault_port (U:=U)).
Proof.
  intros u w Hu (Hr & Hk & Ha & Ho & Hl). apply runs_call. cbv zeta.
  set (v := fw_vault (ew_fed w)). destruct Hr as [[Hv Hb] Hlk].
  pose proof (vault_ok_DeleteSubject (fe_vault s) (vw_repo v) u Hv) as Hv'.
  pose proof (λ id, stored_secret_DeleteSubject (fe_vault s) (vw_repo v) u id Hv Hu) as Hst.
  destruct (MemoryRepo_DeleteSubject u (vw_repo v)) as [r n]; simpl in *. split; [split; [|split]|].
  - split; [split; [by split|done]|]. done.
  - intros p u' Hne. destruct p; simpl; try done. intros id Hid. unfold secretAt, secret_of. simpl.
    rewrite Hst, decide_False by congruence. done.
  - intros p _. destruct p; simpl; try done. intros _ id Hid. unfold secretAt, secret_of. simpl.
    by rewrite Hst, decide_True.
  - intros _ _ _ id Hid. unfold secretAt, secret_of. simpl. by rewrite Hst, decide_True.
Qed.

Lemma audit_records : records (audit_port (U:=U)).
Proof.
  intros e w (Hr & Hk & Ha & Ho & hist & Hl). apply runs_call. cbv zeta. set (v := fw_vault (ew_fed w)).
  destruct (last_record hist (vw_clock v) e (vw_audit v) Hl) as [Hring Hlast].
  destruct (log_Record (vw_clock v) e (vw_audit v)) as [l err] eqn:E; simpl in *. split; [split; [|split]|].
  - by split_and!.
  - intros p u' Hne. by destruct p.
  - intros p _. by destruct p.
  - intros _. unfold last_event in *. rewrite Hlast. unfold stamp. case_match; [eauto|]. exists (ev_Time e). by destruct e.
Qed.

(** The sweep over an account's bindings. *)
Definition swept (u : string) (f f' : FWorld MemoryRepo MemoryLogger MemoryBindingStore MemoryBindFlowStore U)
    (r : result BindingRevocationSummary) : Prop :=
  rests s f' ∧ (∃ sum, r = Ok sum ∧ su_Failed sum = 0%Z) ∧
  (∀ k, row f' k = if decide (bk_user k = u) then None else row f k) ∧
  (∀ id, secretAt s f' id = None ∨ secretAt s f' id = secretAt s f id) ∧
  (∀ id, id_Subject id ≠ u → secretAt s f' id = secretAt s f id).
Lemma runs_RevokeUserBindings u (f : FWorld MemoryRepo MemoryLogger MemoryBindingStore MemoryBindFlowStore U) :
  u ≠ EmptyString → rests s f → (∀ k b, row f k = Some b → valid_key k) →
  runs (RevokeUserBindings s u) f (swept u f).
Proof using All.
  intros Hu Hr Hk. unfold RevokeUserBindings. rewrite bool_decide_false by done.
  apply runs_guard; [done|intros _]. set (l := binding_at (fw_bindings f) <$> default [] (mb_byUser (fw_bindings f) !! u)).
  assert (Hl : bs_List u (fw_bindings f) = Ok l) by done.
  destruct (bs_List_ok u _ l (proj2 (proj1 Hr)) Hl) as [Hnd Hin].
  eapply (runs_bind _ _ _ (λ f' r, f' = f ∧ r = Ok l)); [by apply runs_call| |by intros f' e [_ ?]].
  intros f' ? [-> [= ->]].
  eapply runs_mono; [apply (runs_revoke_listed s memory_answers memory_log_takes_all l); [done|done|intros x; apply Hin|]|].
  { apply Forall_forall. intros x [_ Hx]%Hin. by eapply Hk. }
  intros f2 r ((Hr2 & Hgone & Hrow & Hsec) & sum & -> & _ & _ & Hfailed). split; [done|]. split; [eauto|].
  assert (Hmine : ∀ k, k ∈ bkey <$> l → bk_user k = u) by (intros k (b & -> & [<- _]%Hin)%list_elem_of_fmap; done).
  split_and!.
  - intros k. destruct (decide (k ∈ bkey <$> l)) as [Hkl|Hno].
    + rewrite decide_True by auto. apply list_elem_of_fmap in Hkl as (b & -> & Hb). by apply Hgone.
    + rewrite Hrow by done. case_decide as Hku; [|done]. destruct (row f k) as [b|] eqn:Eb; [|done]. destruct Hno.
      destruct (bound_key s _ _ _ (proj1 Hr) Eb) as [<- _]. apply list_elem_of_fmap_2, Hin. by split.
  - intros id. destruct (decide (id ∈ (ident ∘ bkey) <$> l)) as [(b & -> & Hb)%list_elem_of_fmap|Hno]; [left; by apply Hgone|].
    right. by apply Hsec.
  - intros id Hid. apply Hsec. intros (b & -> & Hb)%list_elem_of_fmap. apply Hid. simpl.
    by apply (Hmine (bkey b)), list_elem_of_fmap_2.
Qed.

Lemma bindings_clears : clears PtBindings (λ o, (bo_Failed o <=? 0)%Z) (erasureBindings s).
Proof using All.
  intros u w Hu (Hr & Hk & Ha & Ho & Hl). unfold erasureBindings.
  set (J := λ (f : MemoryBindFlowStore) (l : MemoryLogger), f = fw_flows (ew_fed w) ∧ ∃ hist, ring_ok hist l).
  assert (HJ : ∀ f l t e, J f l → J f (log_Record t e l).1).
  { intros f l t e [-> (hist & Hh)]. split; [done|]. by eapply last_record. }
  eapply (runs_bind _ _ _ (λ w1 r, w1 = set_fed (ew_fed w1) w ∧ apart J (ew_fed w1) ∧ swept u (ew_fed w) (ew_fed w1) r)).
  { apply runs_zoom; [apply _|]. eapply runs_mono; [|intros f r Hf; split; [done|exact Hf]].
    apply runs_keeps; [by apply keeps_RevokeUserBindings|by split|]. by apply runs_RevokeUserBindings. }
  2: { by intros w1 e (_ & _ & _ & (? & ? & _) & _). }
  intros w1 sum (Ew & [Hfl Hh] & Hr1 & (? & [= <-] & Hf) & Hrow & Hsec & Hoth). split; [split; [|split]|].
  - split; [done|]. split; [|by rewrite Ew]. intros k b. rewrite Hrow. case_decide; [done|]. apply Hk.
  - intros p u' Hne. destruct p; simpl; try done; try by rewrite Ew.
    + intros k Hku. change (row (ew_fed w1) k = row (ew_fed w) k). by rewrite Hrow, decide_False by congruence.
    + intros id Hid. apply Hoth. congruence.
    + intros st f _. by rewrite Hfl.
  - intros p _. destruct p; simpl; try done; try by rewrite Ew.
    + intros _ k Hku. change (row (ew_fed w1) k = None). by rewrite Hrow, decide_True.
    + intros Hc id Hid. destruct (Hsec id) as [?| ->]; auto.
    + rewrite Hfl. done.
  - intros o _ _ k Hku. change (row (ew_fed w1) k = None). by rewrite Hrow, decide_True.
Qed.

#[export] Instance memory_deleter_ok : DeleterOk (memory_deleter s).
Proof using All.
  split; [exact accounts_clears|exact tokens_clears|exact vault_clears|exact bindings_clears|done|exact oidc_clears|
    exact flows_clears|done|done|exact audit_records].
Qed.

Lemma memory_deleter_answers : DeleterAnswers (memory_deleter s).
Proof using All.
  split; try done.
  - intros u w _ _. apply runs_call. destruct (DeleteUser u (ew_accounts w)) as [a r] eqn:E. injection E as _ <-. eauto.
  - intros u w _ (_ & _ & _ & Ho & _). apply runs_call. unfold TokenAdmins_RevokeTokens, oidc_engine.
    pose proof (RevokeTokens_spec (mkFilter EmptyString u) (ew_oidc w) Ho) as Hr.
    destruct (OIDC_RevokeTokens _ _) as [o r]. destruct Hr as (_ & _ & ->). simpl. eauto.
  - intros u w Hu (((Hv & _) & _) & _). apply runs_call. cbv zeta.
    destruct (DeleteSubject_lookup u _ (proj1 Hv) Hu) as (_ & _ & Hn).
    destruct (MemoryRepo_DeleteSubject _ _). simpl in *. rewrite Hn. simpl. eauto.
  - intros u w Hu (Hr & Hk & _). unfold erasureBindings.
    eapply (runs_bind _ _ _ (λ w1 r, ∃ sum, r = Ok sum ∧ su_Failed sum = 0%Z)); [| |by intros ? ? (? & ? & _)].
    + apply runs_zoom; [apply _|]. eapply runs_mono; [by apply runs_RevokeUserBindings|]. by intros f r (_ & ? & _).
    + intros w1 sum (? & [= <-] & Hf). eexists. split; [done|]. simpl. lia.
  - intros u w Hu (_ & _ & _ & Ho & _). apply runs_call. pose proof (PurgeSubject_spec u (ew_oidc w) Ho Hu) as Hr.
    cbv zeta in Hr. destruct (PurgeSubject _ _) as [o r]. destruct Hr as (_ & _ & ->). simpl. eauto.
  - intros u w _ _. apply runs_call. simpl. eauto.
Qed.

(** C12. Erasing an account over the stores in memory. The call succeeds, whatever the account
    holds and whatever its sources answer. Afterwards the account has no binding,
    no credential in the vault, no token and no residue of a spent one, no pending
    authorization request, code or device authorization, no pending bind, no
    account row and no linked identity. The audit log ends with the record of the
    erasure, which names no failed step. Every binding, credential, token, pending
    operation, pending bind, account row, linked identity and external sign-in of
    any other account is as it was. *)
Theorem DeleteAccount_memory actor subject w :
  memory_inv w → subject ≠ EmptyString →
  ∃ w' res, run (DeleteAccount (memory_deleter s) actor subject) w = Some (w', Ok (res, None)) ∧
    memory_inv w' ∧
    (∀ k, row (ew_fed w') k = if decide (bk_user k = subject) then None else row (ew_fed w) k) ∧
    (∀ id, secretAt s (ew_fed w') id = if decide (id_Subject id = subject) then None else secretAt s (ew_fed w) id) ∧
    (∀ u, tokens_of u (abs (ew_oidc w')) = if decide (u = subject) then no_tokens else tokens_of u (abs (ew_oidc w))) ∧
    (∀ u, pending_of u (abs (ew_oidc w')) = if decide (u = subject) then no_pending else pending_of u (abs (ew_oidc w))) ∧
    (∀ st f, fw_flows (ew_fed w') !! st = Some f → fl_User f ≠ subject) ∧
    (∀ st f, fl_User f ≠ subject → fw_flows (ew_fed w') !! st = Some f ↔ fw_flows (ew_fed w) !! st = Some f) ∧
    (∀ u, ma_users (ew_accounts w') !! u = if decide (u = subject) then None else ma_users (ew_accounts w) !! u) ∧
    (∀ id i, ma_identities (ew_accounts w') !! id = Some i ↔
      ma_identities (ew_accounts w) !! id = Some i ∧ li_User i ≠ subject) ∧
    (∀ k u, owners (ew_accounts w') !! k = Some u ↔ owners (ew_accounts w) !! k = Some u ∧ u ≠ subject) ∧
    ∃ t, last_event (vw_audit (fw_vault (ew_fed w'))) = Some (set_time t
      (erasure_event (memory_deleter s) actor subject OutcomeOK res EmptyString)).
Proof using All.
  intros Hw Hsub. change (es_inv w) in Hw.
  destruct (runs_elim _ _ _ (runs_DeleteAccount (memory_deleter s) actor subject w Hw))
    as (w' & r & Hrun & res & err & -> & (Hi & Hs & _) & Ht).
  destruct err as [e|]; [destruct Ht as (_ & Hno & _); by destruct (Hno Hsub); apply memory_deleter_answers|].
  destruct Ht as (_ & Hc & _ & Hps & _ & Hlast).
  exists w', res. split_and!; [done..| | | | | | | | | |].
  - intros k. case_decide as Hk; [by apply (Hc PtBindings)|by apply (Hs PtBindings (bk_user k))].
  - intros id. case_decide as Hid; [by apply (Hc PtVault)|by apply (Hs PtVault (id_Subject id))].
  - intros u. case_decide as Hu; [subst u; exact (Hc PtTokens eq_refl)|exact (Hs PtTokens u Hu)].
  - intros u. case_decide as Hu; [subst u; exact (Hc PtOIDC eq_refl)|exact (Hs PtOIDC u Hu)].
  - exact (Hc PtFlows eq_refl).
  - intros st f Hf. by apply (Hs PtFlows (fl_User f)).
  - intros u. case_decide as Hu; [subst u; apply (Hc PtAccount eq_refl)|apply (Hs PtAccount u Hu)].
  - intros id i. destruct (Hc PtAccount eq_refl) as (_ & _ & Hno). split.
    + intros Hi'. pose proof (Hno _ _ Hi') as Hne. split; [|done]. by apply (Hs PtAccount (li_User i) Hne).
    + intros [Hi' Hne]. by apply (Hs PtAccount (li_User i) Hne).
  - intros k u. destruct (Hc PtAccount eq_refl) as (_ & Hno & _). split.
    + intros Hk. assert (u ≠ subject) as Hne by (intros ->; by apply (Hno k)). split; [|done]. by apply (Hs PtAccount u Hne).
    + intros [Hk Hne]. by apply (Hs PtAccount u Hne).
  - simpl in Hps. destruct res. simpl in Hps. subst. exact Hlast.
Qed.
End memory.
