(* ===== verification/ErasureDemo.v ===== *)
(** * Accounts and erasure, on a concrete deployment

    Closed instances of the theorems of [Account], [Lifecycle] and [Erasure]. *)

From S2P Require Import Prelude GoStd Proc AuditLog Tokens VaultRepo VaultEnvelope Vault VaultProps VaultDemo.
From S2P Require Import FedRegistry FedStore FedLimits FedLocks Fed FedRun FedProps FedBind FedDemo Account Lifecycle.
From S2P Require Import OidcPolicy OidcTables OidcStore OidcWf OidcRevoke OidcSteps Erasure.

#[local] Existing Instance toy_platform.
#[local] Existing Instance canonical_order.
#[local] Existing Instance canonical_order_ok.
#[local] Existing Instance toy_aead.
#[local] Existing Instance toy_aead_ok.
#[local] Existing Instance vault_entropy.
#[local] Existing Instance vault_entropy_ok.
#[local] Existing Instance toy_json.
#[local] Existing Instance toy_json_ok.
#[local] Existing Instance toy_upstream.
#[local] Existing Instance demo_fed_keys.

(** ** Two accounts, the first with two identities *)

Definition hub : IdpIdentity := mkIdp "github" "1" "Ann" EmptyString EmptyString.
Definition goo : IdpIdentity := mkIdp "google" "1" "Ann" EmptyString EmptyString.
Definition other : IdpIdentity := mkIdp "github" "2" "Bob" EmptyString EmptyString.

Definition acc1 : MemoryAccounts := (CreateWithIdentity 10 0 hub NewMemoryAccounts).1.1.
Definition ann : string := from_option id EmptyString (NewUserID 0).2.
Definition ann_hub : string := from_option id EmptyString (NewIdentityID 1).2.
Definition acc2 : MemoryAccounts := (LinkIdentity 20 2 ann goo acc1).1.1.
Definition acc3 : MemoryAccounts := (CreateWithIdentity 30 3 other acc2).1.1.

Lemma acc3_run : account_run [CallCreate hub; CallLink ann goo; CallCreate other] acc3.
Proof.
  apply (run_step [CallCreate hub; CallLink ann goo] acc2), step_Create.
  - apply (run_step [CallCreate hub] acc1), step_Link.
    + apply (run_step [] NewMemoryAccounts), step_Create; [constructor|by intros uid _|by intros iid _].
    + intros iid [= <-]. vm_compute. reflexivity.
  - intros uid [= <-]. vm_compute. reflexivity.
  - intros iid [= <-]. vm_compute. reflexivity.
Qed.

Lemma accounts_refine_witness :
  FindByIdentity "google" "1" acc3 = Ok ann ∧ ∃ x, GetUser ann acc3 = Ok x ∧ us_ID x = ann.
Proof.
  destruct (accounts_refine _ acc3 acc3_run) as (_ & Hfind & Huser & _). rewrite Hfind.
  split; [vm_compute; reflexivity|]. eexists. split; [vm_compute; reflexivity|]. eapply Huser. vm_compute. reflexivity.
Defined.

Lemma UnlinkIdentity_exact_witness :
  ∃ s', UnlinkIdentity ann ann_hub acc3 = (s', Ok tt) ∧ owners s' = delete ("github", "1") (owners acc3).
Proof.
  pose proof (UnlinkIdentity_exact _ acc3 ann ann_hub acc3_run) as Hsp.
  assert (Hr : (UnlinkIdentity ann ann_hub acc3).2 = Ok tt) by (vm_compute; reflexivity).
  destruct (UnlinkIdentity ann ann_hub acc3) as [s' r]. simpl in Hr. subst r. exists s'. split; [done|].
  destruct Hsp as [(? & _)|(i & Hi & _ & [(? & _)|(_ & -> & _)])]; [done..|]. f_equal.
  assert (Hk : identityKey <$> ma_identities acc3 !! ann_hub = Some ("github", "1")) by (vm_compute; reflexivity).
  rewrite Hi in Hk. exact (inj Some _ _ Hk).
Defined.

(** ** The account that bound a source in [FedDemo] is erased *)

Definition token_for (id subject : string) : accessToken := mkAccessToken id "app" subject [] 0 100.
Definition erased_tokens : OIDCStore :=
  CreateAccessToken_locked "b" (token_for "b" "usr_2") (CreateAccessToken_locked "a" (token_for "a" "usr_1") emptyOIDCStore).

Lemma erased_tokens_wf : oidc_wf erased_tokens.
Proof.
  assert (Hno : ∀ s h, accessTokens (os_access s) !! h = None → refreshTokens (os_refresh s) = ∅ → refreshTombstones s = ∅ →
    fresh_access h s).
  { intros s h Ha Hr Ht. split_and!; [exact Ha|rewrite Hr|rewrite Ht]; intros k t Hk; by rewrite lookup_empty in Hk. }
  apply oidc_wf_put_access; [apply oidc_wf_put_access; [apply oidc_wf_empty|]|]; apply Hno; reflexivity.
Qed.

(** Another account stays, with the identity it signs in with. *)
Definition first_account : MemoryAccounts :=
  add_identity (link "idn_1" "usr_1" hub 10 10)
    (mkAccounts (<["usr_1" := mkUser "usr_1" "idn_1" 10]> (ma_users NewMemoryAccounts)) ∅ ∅ ∅).
Definition other_hub : IdpIdentity := mkIdp "github" "2" "Bob" EmptyString EmptyString.
Definition two_accounts : MemoryAccounts :=
  add_identity (link "idn_2" "usr_2" other_hub 20 20)
    (mkAccounts (<["usr_2" := mkUser "usr_2" "idn_2" 20]> (ma_users first_account)) (ma_identities first_account)
       (ma_byKey first_account) (ma_byUser first_account)).
Definition w_account : EWorld (list HTTPRequest) := mkEWorld w_bound erased_tokens two_accounts.

Lemma w_account_log : ∃ hist, ring_ok hist (vw_audit (fw_vault w_bound)).
Proof.
  exists (Events (vw_audit (fw_vault w_bound))). unfold ring_ok. split_and!.
  - apply Nat.ltb_lt. vm_compute. reflexivity.
  - vm_compute. reflexivity.
  - vm_compute. reflexivity.
  - apply Nat.ltb_lt. vm_compute. reflexivity.
  - intros _. vm_compute. reflexivity.
  - vm_compute. reflexivity.
Qed.

Lemma w_account_inv : memory_inv demo_fed w_account.
Proof.
  destruct w_bound_facts as (Hr & _ & _). split; [exact Hr|]. split; [|split; [|split; [exact erased_tokens_wf|exact w_account_log]]].
  - intros k b Hb. change (row w_bound k = Some b) in Hb. destruct (bound_key demo_fed _ _ _ (proj1 Hr) Hb) as [<- _].
    destruct demo_all_rows as [_ Hin]. apply Hin in Hb as ->%list_elem_of_singleton. rewrite demo_binding_key.
    exact demo_key3_valid.
  - apply (accounts_wf_create first_account "usr_2" "idn_2" other_hub 20); [|reflexivity..].
    apply (accounts_wf_create NewMemoryAccounts "usr_1" "idn_1" hub 10 accounts_wf_new); reflexivity.
Qed.

Lemma DeleteAccount_memory_witness :
  ∃ w' res, run (DeleteAccount (memory_deleter demo_fed) "usr_1" "usr_1") w_account = Some (w', Ok (res, None)) ∧
    row (ew_fed w') demo_key3 = None ∧ secretAt demo_fed (ew_fed w') (ident demo_key3) = None ∧
    ma_users (ew_accounts w') !! "usr_1" = None ∧ owners (ew_accounts w') !! ("github", "1") ≠ Some "usr_1" ∧
    owners (ew_accounts w') !! ("github", "2") = Some "usr_2" ∧
    tokens_of "usr_1" (abs (ew_oidc w')) = no_tokens ∧
    tokens_of "usr_2" (abs (ew_oidc w')) = tokens_of "usr_2" (abs erased_tokens).
Proof.
  destruct (DeleteAccount_memory demo_fed "usr_1" "usr_1" w_account w_account_inv ltac:(discriminate))
    as (w' & res & Hrun & _ & Hrow & Hsec & Htok & _ & _ & _ & Hus & _ & Hown & _). exists w', res. split; [exact Hrun|].
  split; [by rewrite Hrow|]. split; [by rewrite Hsec|]. split; [by rewrite Hus|].
  split; [by intros [_ []]%Hown|]. split; [by apply Hown; split|].
  split; [exact (Htok "usr_1")|exact (Htok "usr_2")].
Defined.

Lemma DeleteAccount_sound_witness :
  ∃ w' res err, run (DeleteAccount (memory_deleter demo_fed) "admin" "usr_1") w_account = Some (w', Ok (res, err)) ∧
    memory_inv demo_fed w' ∧ dr_PseudonymDestroyed res = false.
Proof.
  destruct (DeleteAccount_sound (H:=memory_estate demo_fed) (memory_deleter demo_fed) "admin" "usr_1" w_account w_account_inv)
    as (w' & res & err & Hrun & Hi & _ & Ht). exists w', res, err. split; [exact Hrun|]. split; [exact Hi|].
  destruct err; [exact (proj1 Ht)|exact (proj1 (proj2 (proj2 Ht)))].
Defined.
