(* ===== verification/Core.v ===== *)
(** * The component runtime ([internal/core])

    Components declare the capabilities they provide and inject; the runtime
    loads a component when every key it injects has an active provider and
    unloads it when that stops being true. A component's code is not the
    runtime's: it reaches it through a [Context] only, so it is a [script], the
    tree of the calls it may make with what it does after each answer.

    Fibers, contexts and disposers are pointers in the source; here they are
    numbers into heaps of the [App]. A section under [App.mu] or [scope.mu] is
    one action, and what runs with no lock held (a component's code, its
    inverses) is split at the calls it makes. *)

From S2P Require Import Prelude GoStd Proc.

(** ** Keys ([key.go], [errors.go]) *)

Record KeyRef := mkRef {
  kr_Namespace : string;
  kr_Name : string;
}.
#[export] Instance KeyRef_eq_dec : EqDecision KeyRef.
Proof. solve_decision. Defined.
#[export] Instance KeyRef_countable : Countable KeyRef.
Proof.
  refine (inj_countable' (λ r, (kr_Namespace r, kr_Name r)) (λ x, mkRef x.1 x.2) _). by intros [].
Defined.

Definition KeyRef_String (r : KeyRef) : string := kr_Namespace r +:+ "/" +:+ kr_Name r.

(** A value of type [any]: its dynamic type and the value. *)
Record any := mkAny {
  dyn_type : string;
  dyn_value : string;
}.

(** [Key[T]]: [key_accepts] tells the dynamic types for which [v.(T)] holds. *)
Record Key := mkKey {
  key_ref : KeyRef;
  key_accepts : string → bool;
}.

(** [None] is the panic. *)
Definition NewKey (namespace name : string) (accepts : string → bool) : option Key :=
  if bool_decide (namespace = EmptyString) || bool_decide (name = EmptyString) then None
  else Some (mkKey (mkRef namespace name) accepts).

Definition ErrUndeclared : error := New "core: undeclared capability".
Definition ErrUnavailable : error := New "core: dependency unavailable".
Definition ErrDuplicate : error := New "core: capability already provided".
Definition ErrTypeMismatch : error := New "core: capability type mismatch".

Definition undeclared (r : KeyRef) : error := Wrap ("core: undeclared capability: " +:+ KeyRef_String r) ErrUndeclared.
Definition unavailable (r : KeyRef) : error := Wrap ("core: dependency unavailable: " +:+ KeyRef_String r) ErrUnavailable.
Definition duplicate (r : KeyRef) : error := Wrap ("core: capability already provided: " +:+ KeyRef_String r) ErrDuplicate.
Definition typeMismatch (r : KeyRef) : error := Wrap ("core: capability type mismatch: " +:+ KeyRef_String r) ErrTypeMismatch.

(** ** Disposers ([scope.go]) *)

(** What a disposer of the runtime does: withdraw a binding, or run the inverse
    a component gave for one of its effects (a nil one does nothing). *)
Inductive inverse :=
| Withdraw (provider : option nat) (ref : KeyRef)
| Inverse (label : option string).

(** A disposer: one wrapped by [onceDisposer], whose [sync.Once] is a cell of
    the heap, or a function a component returned. *)
Inductive Disposer :=
| Once (cell : nat)
| Plain (label : string).
#[export] Instance Disposer_eq_dec : EqDecision Disposer.
Proof. solve_decision. Defined.

Inductive once := NotRun | Running | Done.
Record cell := mkCell {
  ce_inverse : inverse;
  ce_once : once;
}.

(** ** Components ([component.go]) *)

(** The disposer a component returns: none, one the runtime gave it (by
    position), or a function of its own. *)
Inductive returned :=
| RNil
| RHandle (h : nat)
| RFunc (label : string).

(** A component's code, by its next call on the context. Disposers it was
    given are numbered in the order it received them. *)
Inductive script : Type :=
| SReturn (d : returned)
| SFail (e : error)
| SPanic (v : string)
| SProvide (k : Key) (v : any) (next : result unit → script)
| SGet (k : Key) (next : result any → script)
| SEffect (label : string) (inv : option string) (next : script)
| SDispose (h : nat) (next : script)
| SDisposed (next : bool → script).

(** [Key.MustGet]. *)
Definition MustGet (k : Key) (next : any → script) : script :=
  SGet k (λ r, match r with Ok v => next v | Err e => SPanic (Error e) end).

Inductive State := StateInactive | StateLoading | StateActive | StateUnloading | StateFailed.
#[export] Instance State_eq_dec : EqDecision State.
Proof. solve_decision. Defined.

Definition State_String (s : State) : string :=
  match s with
  | StateInactive => "inactive"
  | StateLoading => "loading"
  | StateActive => "active"
  | StateUnloading => "unloading"
  | StateFailed => "failed"
  end.

Record Component := mkComponent {
  c_Name : string;
  c_Provides : list KeyRef;
  c_Inject : list KeyRef;
  c_Apply : option (any → script);
}.

Definition keySet (refs : list KeyRef) : gset KeyRef := list_to_set refs.

(** [fb_target] maps each declared key to the provider it resolved to; a nil
    map is the empty one, as [maps.Equal] has it. *)
Record Fiber := mkFiber {
  fb_comp : Component;
  fb_cfg : any;
  fb_ctx : option nat;
  fb_state : State;
  fb_err : option error;
  fb_target : gmap KeyRef (option nat);
  fb_removed : bool;
}.

(** [Context] with its [scope]; the sets are [None] on the root. *)
Record Context := mkContext {
  cx_owner : option nat;
  cx_injects : option (gset KeyRef);
  cx_provides : option (gset KeyRef);
  cx_stack : list Disposer;
  cx_disposed : bool;
}.

(** ** The runtime ([app.go]) *)

Record binding := mkBind {
  b_value : any;
  b_provider : option nat;
}.

(** What components did and what was undone, in order. *)
Inductive effect :=
| Did (label : string)
| Undid (label : string).

Record App := mkApp {
  a_store : gmap KeyRef binding;
  a_fibers : list nat;
  a_closed : bool;
  a_reconcileMu : bool;
  a_reconciling : bool;
  a_dirty : bool;
  a_heap : gmap nat Fiber;
  a_ctxs : gmap nat Context;
  a_cells : gmap nat cell;
  a_next : nat;
  a_log : list effect;
}.

Definition root : nat := 0.

Definition App_New : App :=
  mkApp ∅ [] false false false false ∅ {[root := mkContext None None None [] false]} ∅ 1 [].

Definition with_store (x : gmap KeyRef binding) (a : App) : App :=
  mkApp x (a_fibers a) (a_closed a) (a_reconcileMu a) (a_reconciling a) (a_dirty a) (a_heap a) (a_ctxs a)
    (a_cells a) (a_next a) (a_log a).
Definition with_fibers (x : list nat) (a : App) : App :=
  mkApp (a_store a) x (a_closed a) (a_reconcileMu a) (a_reconciling a) (a_dirty a) (a_heap a) (a_ctxs a)
    (a_cells a) (a_next a) (a_log a).
Definition with_closed (x : bool) (a : App) : App :=
  mkApp (a_store a) (a_fibers a) x (a_reconcileMu a) (a_reconciling a) (a_dirty a) (a_heap a) (a_ctxs a)
    (a_cells a) (a_next a) (a_log a).
Definition with_reconcile (mu reconciling dirty : bool) (a : App) : App :=
  mkApp (a_store a) (a_fibers a) (a_closed a) mu reconciling dirty (a_heap a) (a_ctxs a)
    (a_cells a) (a_next a) (a_log a).
Definition with_heap (x : gmap nat Fiber) (a : App) : App :=
  mkApp (a_store a) (a_fibers a) (a_closed a) (a_reconcileMu a) (a_reconciling a) (a_dirty a) x (a_ctxs a)
    (a_cells a) (a_next a) (a_log a).
Definition with_ctxs (x : gmap nat Context) (a : App) : App :=
  mkApp (a_store a) (a_fibers a) (a_closed a) (a_reconcileMu a) (a_reconciling a) (a_dirty a) (a_heap a) x
    (a_cells a) (a_next a) (a_log a).
Definition with_cells (x : gmap nat cell) (a : App) : App :=
  mkApp (a_store a) (a_fibers a) (a_closed a) (a_reconcileMu a) (a_reconciling a) (a_dirty a) (a_heap a) (a_ctxs a)
    x (a_next a) (a_log a).
Definition with_next (x : nat) (a : App) : App :=
  mkApp (a_store a) (a_fibers a) (a_closed a) (a_reconcileMu a) (a_reconciling a) (a_dirty a) (a_heap a) (a_ctxs a)
    (a_cells a) x (a_log a).
Definition emit (e : effect) (a : App) : App :=
  mkApp (a_store a) (a_fibers a) (a_closed a) (a_reconcileMu a) (a_reconciling a) (a_dirty a) (a_heap a) (a_ctxs a)
    (a_cells a) (a_next a) (a_log a ++ [e]).

(** The pointers: what a number of a heap holds. Numbers come from the heap
    itself, so the defaults are never read. *)
Definition no_context : Context := mkContext None None None [] true.
Definition no_fiber : Fiber := mkFiber (mkComponent EmptyString [] [] None) (mkAny EmptyString EmptyString) None StateInactive None ∅ true.
Definition ctx_of (a : App) (c : nat) : Context := default no_context (a_ctxs a !! c).
Definition fiber_of (a : App) (f : nat) : Fiber := default no_fiber (a_heap a !! f).
Definition put_fiber (f : nat) (x : Fiber) (a : App) : App := with_heap (<[f := x]> (a_heap a)) a.
Definition put_ctx (c : nat) (x : Context) (a : App) : App := with_ctxs (<[c := x]> (a_ctxs a)) a.
Definition set_state (s : State) (x : Fiber) : Fiber :=
  mkFiber (fb_comp x) (fb_cfg x) (fb_ctx x) s (fb_err x) (fb_target x) (fb_removed x).
Definition state_of (a : App) (f : nat) : State := fb_state (fiber_of a f).

(** A binding counts while its provider is active; the root's always do. *)
Definition available (a : App) (b : binding) : bool :=
  match b_provider b with None => true | Some p => bool_decide (state_of a p = StateActive) end.

(** [resolveTargetLocked]: [None] as soon as a declared key has no active
    provider. *)
Fixpoint resolve_keys (a : App) (refs : list KeyRef) (target : gmap KeyRef (option nat))
    : option (gmap KeyRef (option nat)) :=
  match refs with
  | [] => Some target
  | ref :: refs' =>
      match a_store a !! ref with
      | None => None
      | Some b => if available a b then resolve_keys a refs' (<[ref := b_provider b]> target) else None
      end
  end.
Definition resolveTargetLocked (a : App) (f : nat) : option (gmap KeyRef (option nat)) :=
  resolve_keys a (c_Inject (fb_comp (fiber_of a f))) ∅.

(** ** Scopes *)

(** The critical section of [scope.dispose]: the stack, oldest first, or
    nothing when another call already took it. *)
Definition begin_dispose (c : nat) (a : App) : App * list Disposer :=
  let x := ctx_of a c in
  if cx_disposed x then (a, [])
  else (put_ctx c (mkContext (cx_owner x) (cx_injects x) (cx_provides x) [] true) a, cx_stack x).

(** The critical section of [scope.add]: whether the inverse is to run now. *)
Definition begin_add (c : nat) (d : Disposer) (a : App) : App * bool :=
  let x := ctx_of a c in
  if cx_disposed x then (a, true)
  else (put_ctx c (mkContext (cx_owner x) (cx_injects x) (cx_provides x) (cx_stack x ++ [d]) false) a, false).

(** [sync.Once.Do]: the first call runs the function, later ones wait for it to
    return. *)
Definition once_begin (i : nat) (a : App) : option (App * option inverse) :=
  match a_cells a !! i with
  | None => Some (a, None)
  | Some x =>
      match ce_once x with
      | NotRun => Some (with_cells (<[i := mkCell (ce_inverse x) Running]> (a_cells a)) a, Some (ce_inverse x))
      | Running => None
      | Done => Some (a, None)
      end
  end.
Definition once_end (i : nat) (a : App) : App :=
  match a_cells a !! i with
  | None => a
  | Some x => with_cells (<[i := mkCell (ce_inverse x) Done]> (a_cells a)) a
  end.
Definition onceDisposer (fn : inverse) (a : App) : App * Disposer :=
  (with_next (S (a_next a)) (with_cells (<[a_next a := mkCell fn NotRun]> (a_cells a)) a), Once (a_next a)).

(** The section under [App.mu] of the withdrawal that [App.bind] returns. *)
Definition withdraw (provider : option nat) (ref : KeyRef) (a : App) : App :=
  match a_store a !! ref with
  | Some b => if bool_decide (b_provider b = provider) then with_store (delete ref (a_store a)) a else a
  | None => a
  end.

(** [requestReconcile], up to the unlock: whether this call is the one that
    reconciles. *)
Definition admit_reconcile (a : App) : App * bool :=
  if a_closed a || a_reconciling a then (with_reconcile (a_reconcileMu a) (a_reconciling a) true a, false)
  else (with_reconcile (a_reconcileMu a) true true a, true).

(** [Context.get], after the declaration check. *)
Definition get_available (ref : KeyRef) (a : App) : result any :=
  match a_store a !! ref with
  | None => Err (unavailable ref)
  | Some b => if available a b then Ok (b_value b) else Err (unavailable ref)
  end.

Definition declared (s : option (gset KeyRef)) (ref : KeyRef) : bool :=
  match s with None => true | Some m => bool_decide (ref ∈ m) end.
Definition requireInjected (a : App) (c : nat) (ref : KeyRef) : result unit :=
  if declared (cx_injects (ctx_of a c)) ref then Ok tt else Err (undeclared ref).
Definition requireProvided (a : App) (c : nat) (ref : KeyRef) : result unit :=
  if declared (cx_provides (ctx_of a c)) ref then Ok tt else Err (undeclared ref).

(** The check of [Key.Provide] and the section under [App.mu] of [App.bind] it
    leads to. What a context declares and who owns it never change, so reading
    them is not an action of its own. The answer is the provider. *)
Definition bind (c : nat) (ref : KeyRef) (value : any) (a : App) : App * result (option nat) :=
  match requireProvided a c ref with
  | Err e => (a, Err e)
  | Ok _ =>
      let provider := cx_owner (ctx_of a c) in
      match a_store a !! ref with
      | Some _ => (a, Err (duplicate ref))
      | None => (with_store (<[ref := mkBind value provider]> (a_store a)) a, Ok provider)
      end
  end.

(** What [step] decides under the lock, having marked the fiber. *)
Inductive verdict :=
| Nothing
| Load (ctx : nat) (old : option nat) (comp : Component) (cfg : any)
| Unload (ctx : option nat).

Definition begin_step (f : nat) (a : App) : App * verdict :=
  let x := fiber_of a f in
  if fb_removed x then (a, Nothing) else
  match resolveTargetLocked a f with
  | Some target =>
      if bool_decide (fb_state x = StateInactive) ||
         (bool_decide (fb_state x = StateActive) || bool_decide (fb_state x = StateFailed)) &&
         negb (bool_decide (target = fb_target x))
      then
        let c := a_next a in
        (with_next (S c)
           (put_ctx c (mkContext (Some f) (Some (keySet (c_Inject (fb_comp x))))
                         (Some (keySet (c_Provides (fb_comp x)))) [] false)
              (put_fiber f (mkFiber (fb_comp x) (fb_cfg x) (Some c) StateLoading None target (fb_removed x)) a)),
         Load c (fb_ctx x) (fb_comp x) (fb_cfg x))
      else (a, Nothing)
  | None =>
      if bool_decide (fb_state x = StateActive) || bool_decide (fb_state x = StateLoading)
      then (put_fiber f (set_state StateUnloading x) a, Unload (fb_ctx x))
      else (a, Nothing)
  end.

(** The section of [step] after [Apply]: [true] if the fiber was removed
    meanwhile. *)
Definition end_load (f : nat) (err : option error) (a : App) : App * bool :=
  let x := fiber_of a f in
  if fb_removed x then (a, true)
  else (put_fiber f
          match err with
          | Some e => mkFiber (fb_comp x) (fb_cfg x) (fb_ctx x) StateFailed (Some e) (fb_target x) (fb_removed x)
          | None => set_state StateActive x
          end a, false).
Definition drop_load (f : nat) (a : App) : App :=
  with_heap (alter (λ x, mkFiber (fb_comp x) (fb_cfg x) None StateInactive (fb_err x) ∅ (fb_removed x)) f (a_heap a)) a.
Definition end_unload (f : nat) (a : App) : App :=
  if bool_decide (state_of a f = StateUnloading) then put_fiber f (set_state StateInactive (fiber_of a f)) a else a.

(** The first section of [forceUnload]. *)
Definition begin_unload (f : nat) (a : App) : App * option (option nat) :=
  let x := fiber_of a f in
  if bool_decide (fb_state x = StateInactive) then (a, None)
  else (put_fiber f (mkFiber (fb_comp x) (fb_cfg x) (fb_ctx x) StateUnloading (fb_err x) ∅ (fb_removed x)) a,
        Some (fb_ctx x)).

Section runtime.
Context `{Platform}.

(** ** What runs without a lock

    [request] is [requestReconcile]. *)

Section requesting.
Context (request : go App unit).

Definition run_inverse (i : inverse) : go App unit :=
  match i with
  | Withdraw provider ref => modify (withdraw provider ref);; request
  | Inverse (Some label) => modify (emit (Undid label))
  | Inverse None => mret tt
  end.

Definition run_disposer (d : Disposer) : go App unit :=
  match d with
  | Plain label => modify (emit (Undid label))
  | Once i =>
      fn ← Act (once_begin i) (λ o, Ret (Ok o));
      match fn with
      | Some inv => run_inverse inv;; modify (once_end i)
      | None => mret tt
      end
  end.

Fixpoint run_disposers (ds : list Disposer) : go App unit :=
  match ds with
  | [] => mret tt
  | d :: ds' => run_disposer d;; run_disposers ds'
  end.

(** [scope.dispose]: last registered, first run. *)
Definition dispose (c : nat) : go App unit :=
  ds ← atomic (begin_dispose c);
  run_disposers (rev ds).

Definition scope_add (c : nat) (d : Disposer) : go App unit :=
  now ← atomic (begin_add c d);
  if (now : bool) then run_disposer d else mret tt.

(** [Key.Provide], with [App.bind]. *)
Definition Key_Provide (k : Key) (c : nat) (value : any) : go App Disposer :=
  owner ← call (bind c (key_ref k) value);
  request;;
  d ← atomic (onceDisposer (Withdraw owner (key_ref k)));
  scope_add c d;;
  mret d.

(** [Key.Get], with [Context.get]. *)
Definition Key_Get (k : Key) (c : nat) : go App any :=
  call (λ a, (a, requireInjected a c (key_ref k)));;
  v ← call (λ a, (a, get_available (key_ref k) a));
  if key_accepts k (dyn_type v) then mret v else throw (typeMismatch (key_ref k)).

(** [Context.Effect], whose function is an effect and the inverse it returns. *)
Definition Effect (c : nat) (label : string) (inv : option string) : go App Disposer :=
  modify (emit (Did label));;
  d ← atomic (onceDisposer (Inverse inv));
  scope_add c d;;
  mret d.

(** A component's code at work, given the disposers it has received. A panic is
    its own outcome. *)
Inductive outcome :=
| Returned (d : option Disposer)
| Failed (e : error)
| Panicked (v : string).

Definition returned_disposer (hs : list Disposer) (d : returned) : option Disposer :=
  match d with
  | RNil => None
  | RHandle h => hs !! h
  | RFunc label => Some (Plain label)
  end.

Fixpoint perform (c : nat) (hs : list Disposer) (s : script) : go App outcome :=
  match s with
  | SReturn d => mret (Returned (returned_disposer hs d))
  | SFail e => mret (Failed e)
  | SPanic v => mret (Panicked v)
  | SProvide k v next =>
      r ← try (Key_Provide k c v);
      match r with
      | Ok d => perform c (hs ++ [d]) (next (Ok tt))
      | Err e => perform c hs (next (Err e))
      end
  | SGet k next => r ← try (Key_Get k c); perform c hs (next r)
  | SEffect label inv next => d ← Effect c label inv; perform c (hs ++ [d]) next
  | SDispose h next =>
      match hs !! h with Some d => run_disposer d | None => mret tt end;;
      perform c hs next
  | SDisposed next => b ← reads (λ a, cx_disposed (ctx_of a c)); perform c hs (next b)
  end.

(** [applySafe]: a panic of the component is an error. Calling a nil function
    panics too. *)
Definition panicked (name v : string) : error :=
  New ("core: component " +:+ strconv_Quote name +:+ " panicked: " +:+ v).
Definition applySafe (comp : Component) (c : nat) (cfg : any) : go App (option Disposer) :=
  match c_Apply comp with
  | None => throw (panicked (c_Name comp) "runtime error: invalid memory address or nil pointer dereference")
  | Some apply =>
      o ← perform c [] (apply cfg);
      match o with
      | Returned d => mret d
      | Failed e => throw e
      | Panicked v => throw (panicked (c_Name comp) v)
      end
  end.

Definition dispose_opt (c : option nat) : go App unit :=
  match c with Some c => dispose c | None => mret tt end.

(** [App.step]; whether anything changed. *)
Definition step (f : nat) : go App bool :=
  v ← atomic (begin_step f);
  match v with
  | Nothing => mret false
  | Load c old comp cfg =>
      dispose_opt old;;
      r ← try (applySafe comp c cfg);
      match r with
      | Err _ => dispose c
      | Ok (Some d) => scope_add c d
      | Ok None => mret tt
      end;;
      removed ← atomic (end_load f (match r with Err e => Some e | Ok _ => None end));
      if (removed : bool) then dispose c;; modify (drop_load f);; mret true
      else mret true
  | Unload c =>
      dispose_opt c;;
      modify (end_unload f);;
      mret true
  end.

Fixpoint steps (fs : list nat) (changed : bool) : go App bool :=
  match fs with
  | [] => mret changed
  | f :: fs' => b ← step f; steps fs' (changed || b)
  end.

(** [App.pass] over a snapshot of the fibers. *)
Definition pass : go App bool :=
  fs ← reads a_fibers;
  steps fs false.

(** The loop of [App.reconcile]; the last section also releases
    [reconcileMu]. *)
Fixpoint reconcile_loop (fuel : nat) : go App unit :=
  match fuel with
  | 0 => diverge
  | S fuel =>
      modify (λ a, with_reconcile (a_reconcileMu a) (a_reconciling a) false a);;
      changed ← pass;
      stop ← atomic (λ a,
        if negb changed && negb (a_dirty a)
        then (with_reconcile (a_reconcileMu a) false (a_dirty a) a, true) else (a, false));
      if (stop : bool) then modify (λ a, with_reconcile false (a_reconciling a) (a_dirty a) a)
      else reconcile_loop fuel
  end.

Definition reconcile (fuel : nat) : go App unit :=
  await (λ a, if a_reconcileMu a then None else Some (with_reconcile true (a_reconciling a) (a_dirty a) a));;
  reconcile_loop fuel.
End requesting.

(** [App.requestReconcile]. A request made while reconciling is the same
    function one level down. *)
Fixpoint requestReconcile (fuel : nat) : go App unit :=
  match fuel with
  | 0 => diverge
  | S n =>
      mine ← atomic admit_reconcile;
      if (mine : bool) then reconcile (requestReconcile n) n else mret tt
  end.

(** ** The operations of [App] *)

Section operations.
Context (fuel : nat).
Local Abbreviation request := (requestReconcile fuel).

(** The registration of [Use], under the lock. *)
Definition register (c : Component) (cfg : any) (a : App) : App * nat :=
  let f := a_next a in
  (with_next (S f) (with_fibers (a_fibers a ++ [f])
     (put_fiber f (mkFiber c cfg None StateInactive None ∅ false) a)), f).

Definition App_Use (c : Component) (cfg : any) : go App nat :=
  guard_err (bool_decide (c_Name c = EmptyString)) (New "core: component name is required");;
  match c_Apply c with
  | None => throw (New ("core: component " +:+ strconv_Quote (c_Name c) +:+ " has a nil Apply"))
  | Some _ =>
      f ← atomic (register c cfg);
      request;;
      mret f
  end.

(** [App.forceUnload]. *)
Definition forceUnload (f : nat) : go App unit :=
  o ← atomic (begin_unload f);
  match o with
  | None => mret tt
  | Some c =>
      dispose_opt request c;;
      modify (end_unload f)
  end.

(** The section of [Remove] under the lock. *)
Fixpoint remove_first (f : nat) (fs : list nat) : list nat :=
  match fs with
  | [] => []
  | g :: fs' => if bool_decide (g = f) then fs' else g :: remove_first f fs'
  end.
Definition retire (f : nat) (a : App) : App * result unit :=
  if bool_decide (f ∈ a_fibers a) then
    let x := fiber_of a f in
    (put_fiber f (mkFiber (fb_comp x) (fb_cfg x) (fb_ctx x)
                    (if bool_decide (fb_state x = StateActive) then StateUnloading else fb_state x)
                    (fb_err x) (fb_target x) true)
       (with_fibers (remove_first f (a_fibers a)) a), Ok tt)
  else (a, Err (New ("core: fiber " +:+ strconv_Quote (c_Name (fb_comp (fiber_of a f))) +:+ " is not registered"))).

Definition App_Remove (f : nat) : go App unit :=
  call (retire f);;
  request;;
  forceUnload f.
End operations.

(** ** Teardown *)

(** [unloadOrder]: providers first, by depth-first search; a fiber that was
    seen is not visited again. The recursion is bounded by the fibers not yet
    seen. *)
Fixpoint visit (fuel : nat) (a : App) (f : nat) (acc : gset nat * list nat) : gset nat * list nat :=
  match fuel with
  | 0 => acc
  | S n =>
      if bool_decide (f ∈ acc.1) then acc
      else
        let acc' := foldl (λ acc ref,
            match a_store a !! ref with
            | Some b => match b_provider b with Some p => visit n a p acc | None => acc end
            | None => acc
            end) ({[f]} ∪ acc.1, acc.2) (c_Inject (fb_comp (fiber_of a f))) in
        (acc'.1, acc'.2 ++ [f])
  end.
Definition unloadOrder (a : App) : list nat :=
  rev (foldl (λ acc f, visit (S (size (a_heap a))) a f acc) (∅, []) (a_fibers a)).2.

Fixpoint unload_all (fuel : nat) (fs : list nat) : go App unit :=
  match fs with
  | [] => mret tt
  | f :: fs' => forceUnload fuel f;; unload_all fuel fs'
  end.

(** [App.Shutdown]. *)
Definition App_Shutdown (fuel : nat) : go App unit :=
  mine ← atomic (λ a, if a_closed a then (a, false) else (with_closed true a, true));
  if (mine : bool) then
    fs ← reads unloadOrder;
    unload_all fuel fs;;
    dispose (requestReconcile fuel) root
  else mret tt.

(** ** Reading the runtime *)

Record Capability := mkCapability {
  cp_Name : string;
  cp_Provides : list KeyRef;
  cp_Inject : list KeyRef;
  cp_State : State;
}.

(** [Capabilities]; [sort.Slice] by name, here a stable one. *)
Definition Capabilities (a : App) : list Capability :=
  sort_by cp_Name ((λ f, let x := fiber_of a f in
    mkCapability (c_Name (fb_comp x)) (c_Provides (fb_comp x)) (c_Inject (fb_comp x)) (fb_state x)) <$> a_fibers a).

(** [Fiber.Provides], in no particular order. *)
Definition Fiber_Provides (a : App) (f : nat) : list KeyRef :=
  (map_to_list (filter (λ kb : KeyRef * binding, b_provider kb.2 = Some f) (a_store a))).*1.
End runtime.
