(* ===== verification/CoreRun.v ===== *)
(** * The component runtime, one operation at a time

    What a component's code may change while it loads, what tearing a scope down
    leaves behind, and one step of a fiber. *)

From S2P Require Import Prelude GoStd Proc Core.

(** ** Updating the runtime *)

Lemma ctx_of_put c x a c' : ctx_of (put_ctx c x a) c' = if decide (c' = c) then x else ctx_of a c'.
Proof.
  unfold ctx_of, put_ctx. simpl. destruct (decide (c' = c)) as [->|Hne].
  - by rewrite lookup_insert_eq.
  - by rewrite lookup_insert_ne by congruence.
Qed.
Lemma ctx_of_put_eq c x a : ctx_of (put_ctx c x a) c = x.
Proof. rewrite ctx_of_put. by rewrite decide_True. Qed.

Lemma fiber_of_put f x a g : fiber_of (put_fiber f x a) g = if decide (g = f) then x else fiber_of a g.
Proof.
  unfold fiber_of, put_fiber. simpl. destruct (decide (g = f)) as [->|Hne].
  - by rewrite lookup_insert_eq.
  - by rewrite lookup_insert_ne by congruence.
Qed.

Lemma with_reconcile_id a : with_reconcile (a_reconcileMu a) (a_reconciling a) (a_dirty a) a = a.
Proof. by destruct a. Qed.

Lemma withdraw_store p ref a r b :
  a_store (withdraw p ref a) !! r = Some b ↔
  a_store a !! r = Some b ∧ (r = ref → b_provider b ≠ p).
Proof.
  unfold withdraw. destruct (a_store a !! ref) as [b0|] eqn:E.
  - case_bool_decide as Hp; simpl.
    + rewrite lookup_delete_Some. split; [intros [Hne Hb]; split; [done|congruence]|].
      intros [Hb Hn]. split; [|done]. intros ->. simplify_eq. by apply (Hn eq_refl).
    + split; [intros Hb; split; [done|]; intros ->; congruence|by intros [? _]].
  - split; [intros Hb; split; [done|]; congruence|by intros [? _]].
Qed.

Lemma withdraw_shape p ref a : withdraw p ref a = with_store (a_store (withdraw p ref a)) a.
Proof. unfold withdraw. repeat case_match; by destruct a. Qed.

(** ** Code of one provider

    What the code of provider [o] (a fiber, or the root), running in context [c]
    with the disposers [ds], may change: bindings of its own, its own scope, and
    those disposers. *)

Record evolves (o : option nat) (c : nat) (ds : list Disposer) (a a' : App) : Prop := {
  ev_fibers : a_fibers a' = a_fibers a;
  ev_heap : a_heap a' = a_heap a;
  ev_closed : a_closed a' = a_closed a;
  ev_store ref b : b_provider b ≠ o → a_store a' !! ref = Some b ↔ a_store a !! ref = Some b;
  ev_ctxs c' : c' ≠ c → a_ctxs a' !! c' = a_ctxs a !! c';
  ev_next : a_next a ≤ a_next a';
  ev_cells i x : a_cells a !! i = Some x → Once i ∉ ds → a_cells a' !! i = Some x;
  ev_new i x : a_cells a' !! i = Some x → is_Some (a_cells a !! i) ∨ a_next a ≤ i;
}.

(** The disposers [ds] are known, nobody is running one, and each binding of the
    provider can be withdrawn by one of them. *)
Record covers (o : option nat) (ds : list Disposer) (a : App) : Prop := {
  cov_stack i : Once i ∈ ds → ∃ x, a_cells a !! i = Some x ∧ ce_once x ≠ Running ∧
    ∀ p ref, ce_inverse x = Withdraw p ref → p = o;
  cov_cells i x : a_cells a !! i = Some x → i < a_next a;
  cov_bound ref b : a_store a !! ref = Some b → b_provider b = o →
    ∃ i, Once i ∈ ds ∧ a_cells a !! i = Some (mkCell (Withdraw o ref) NotRun);
}.

(** Disposers that came since [a]. *)
Definition grown (a : App) (ds ds' : list Disposer) : Prop :=
  (∀ i, Once i ∈ ds' → Once i ∈ ds ∨ a_next a ≤ i) ∧ ds ⊆ ds'.

Lemma grown_refl a ds : grown a ds ds.
Proof. split; [by left|done]. Qed.
Lemma grown_trans a a' ds ds' ds'' : a_next a ≤ a_next a' → grown a ds ds' → grown a' ds' ds'' → grown a ds ds''.
Proof.
  intros Hle [H1 H2] [H3 H4]. split; [|set_solver].
  intros i [Hi|?]%H3; [by apply H1|right; lia].
Qed.

Lemma evolves_refl o c ds a : evolves o c ds a a.
Proof. split; eauto. Qed.

Lemma evolves_trans o c ds ds' a1 a2 a3 :
  (∀ i x, a_cells a1 !! i = Some x → i < a_next a1) → (∀ i, Once i ∈ ds' → Once i ∈ ds ∨ a_next a1 ≤ i) →
  evolves o c ds a1 a2 → evolves o c ds' a2 a3 → evolves o c ds a1 a3.
Proof.
  intros Hlt Hg [A1 A2 A3 A4 A5 A7 A8 A10] [B1 B2 B3 B4 B5 B7 B8 B10]. split; try congruence.
  - intros ref b Hb. rewrite B4, A4 by done. done.
  - intros c' Hc. rewrite B5, A5 by done. done.
  - lia.
  - intros i x Hi Hs. apply B8; [by apply A8|]. intros [?|?]%Hg; [done|]. specialize (Hlt i x Hi). lia.
  - intros i x [[y Hy]|?]%B10; [by eapply A10|right; lia].
Qed.

Lemma evolves_fiber o c ds a a' g : evolves o c ds a a' → fiber_of a' g = fiber_of a g.
Proof. intros He. unfold fiber_of. by rewrite (ev_heap _ _ _ _ _ He). Qed.

(** What a request for reconciliation does while [o] is being worked on: it is
    only noted, or finds nothing to do. Either way the invariant [J] of the
    situation is kept by everything the code of [o] can do. *)
Record calm (o : option nat) (request : go App unit) (J : App → Prop) : Prop := {
  calm_request a : J a → ∃ mu rec dirty,
    run request a = Some (with_reconcile mu rec dirty a, Ok tt) ∧ J (with_reconcile mu rec dirty a);
  calm_cells x a : J a → J (with_cells x a);
  calm_ctxs x a : J a → J (with_ctxs x a);
  calm_next x a : J a → J (with_next x a);
  calm_emit x a : J a → J (emit x a);
  calm_store x a : J a →
    (∀ ref b, b_provider b ≠ o → x !! ref = Some b ↔ a_store a !! ref = Some b) → J (with_store x a);
}.

(** What running disposers undoes, given which of them already ran. *)
Fixpoint undo_log (m : gmap nat cell) (ds : list Disposer) : list effect :=
  match ds with
  | [] => []
  | Plain l :: ds' => Undid l :: undo_log m ds'
  | Once i :: ds' =>
      match m !! i with
      | Some (mkCell inv NotRun) =>
          match inv with Inverse (Some l) => [Undid l] | _ => [] end ++
          undo_log (<[i := mkCell inv Done]> m) ds'
      | _ => undo_log m ds'
      end
  end.

Lemma undo_log_ext m m' ds : (∀ i, Once i ∈ ds → m !! i = m' !! i) → undo_log m ds = undo_log m' ds.
Proof.
  revert m m'. induction ds as [|[i|l] ds IH]; intros m m' Hext; simpl; [done| |].
  - rewrite <-(Hext i) by set_solver. destruct (m !! i) as [[inv []]|]; [|apply IH; intros j Hj; apply Hext; set_solver..].
    f_equal. apply IH. intros j Hj. destruct (decide (j = i)) as [->|Hne]; [by rewrite !lookup_insert_eq|].
    rewrite !lookup_insert_ne by done. apply Hext. set_solver.
  - f_equal. apply IH. intros j Hj. apply Hext. set_solver.
Qed.

Section disposing.
Context `{Platform} (o : option nat) (c : nat) (request : go App unit) (J : App → Prop) (Hcalm : calm o request J).
Local Abbreviation evolves := (evolves o c).
Local Abbreviation covers := (covers o).

(** ** Running disposers *)

(** What a disposer that runs for the first time leaves behind. *)
Definition apply_inverse (inv : inverse) (a : App) : App :=
  match inv with
  | Withdraw p ref => withdraw p ref a
  | Inverse (Some l) => emit (Undid l) a
  | Inverse None => a
  end.
Definition undone (i : nat) (inv : inverse) (a : App) : App :=
  with_cells (<[i := mkCell inv Done]> (a_cells a)) (apply_inverse inv a).

Lemma J_withdraw ref a : J a → J (withdraw o ref a).
Proof.
  intros HJ. rewrite withdraw_shape. apply (calm_store _ _ _ Hcalm); [done|].
  intros r b Hp. rewrite withdraw_store. naive_solver.
Qed.

Lemma run_once i inv a :
  J a → a_cells a !! i = Some (mkCell inv NotRun) → (∀ p ref, inv = Withdraw p ref → p = o) →
  ∃ m r d, run (run_disposer request (Once i)) a = Some (with_reconcile m r d (undone i inv a), Ok tt) ∧
    J (with_reconcile m r d (undone i inv a)).
Proof.
  intros HJ Hi Hp. unfold run_disposer. rewrite run_bind. cbn [run]. unfold once_begin. rewrite Hi. simpl.
  set (a1 := with_cells _ a). assert (HJ1 : J a1) by by apply (calm_cells _ _ _ Hcalm).
  assert (Hend : ∀ b, a_cells b = a_cells a1 → once_end i b = with_cells (<[i := mkCell inv Done]> (a_cells a)) b).
  { intros b Hb. unfold once_end. rewrite Hb. unfold a1. simpl. rewrite lookup_insert_eq. simpl. by rewrite insert_insert_eq. }
  destruct inv as [p ref|[l|]]; rewrite run_bind; unfold run_inverse; run_simpl.
  - rewrite (Hp p ref eq_refl) in *.
    destruct (calm_request _ _ _ Hcalm _ (J_withdraw ref a1 HJ1)) as (m & r & d & Hr & HJ2). rewrite Hr. run_simpl.
    assert (Hc : a_cells (withdraw o ref a1) = a_cells a1) by by rewrite withdraw_shape.
    rewrite Hend by done. exists m, r, d.
    assert (Heq : with_cells (<[i:=mkCell (Withdraw o ref) Done]> (a_cells a)) (with_reconcile m r d (withdraw o ref a1))
      = with_reconcile m r d (undone i (Withdraw o ref) a)).
    { unfold undone, apply_inverse, a1, withdraw. simpl. by repeat case_match. }
    rewrite <-Heq. split; [done|]. by apply (calm_cells _ _ _ Hcalm).
  - rewrite Hend by done. exists (a_reconcileMu a), (a_reconciling a), (a_dirty a).
    assert (Heq : with_cells (<[i:=mkCell (Inverse (Some l)) Done]> (a_cells a)) (emit (Undid l) a1) =
      with_reconcile (a_reconcileMu a) (a_reconciling a) (a_dirty a) (undone i (Inverse (Some l)) a)) by done.
    rewrite <-Heq. split; [done|]. by apply (calm_cells _ _ _ Hcalm), (calm_emit _ _ _ Hcalm).
  - rewrite Hend by done. exists (a_reconcileMu a), (a_reconciling a), (a_dirty a).
    assert (Heq : with_cells (<[i:=mkCell (Inverse None) Done]> (a_cells a)) a1 =
      with_reconcile (a_reconcileMu a) (a_reconciling a) (a_dirty a) (undone i (Inverse None) a)) by done.
    rewrite <-Heq. split; [done|]. by apply (calm_cells _ _ _ Hcalm).
Qed.

Lemma run_spent i a x :
  a_cells a !! i = Some x → ce_once x = Done → run (run_disposer request (Once i)) a = Some (a, Ok tt).
Proof. intros Hi Hx. unfold run_disposer. rewrite run_bind. cbn [run]. unfold once_begin. by rewrite Hi, Hx. Qed.

Lemma undone_store i inv a ref b :
  (∀ p ref, inv = Withdraw p ref → p = o) → a_store (undone i inv a) !! ref = Some b →
  a_store a !! ref = Some b ∧ (inv = Withdraw o ref → b_provider b ≠ o).
Proof.
  intros Hp. destruct inv as [p r|[l|]]; [|done..]. rewrite (Hp p r eq_refl).
  intros [Hb Hn]%(withdraw_store o r a). split; [done|]. intros [= ->]. by apply Hn.
Qed.

Lemma undone_evolves i inv a ds m r d :
  Once i ∈ ds → is_Some (a_cells a !! i) → (∀ p ref, inv = Withdraw p ref → p = o) →
  evolves ds a (with_reconcile m r d (undone i inv a)).
Proof.
  intros Hi Hs Hp.
  assert (Hst : ∀ ref b, b_provider b ≠ o → a_store (undone i inv a) !! ref = Some b ↔ a_store a !! ref = Some b).
  { intros ref b Hb. destruct inv as [p rf|[l|]]; [|done..]. rewrite (Hp p rf eq_refl).
    etransitivity; [apply withdraw_store|]. naive_solver. }
  unfold undone, apply_inverse in *. split; simpl in *; try (repeat case_match; try rewrite withdraw_shape; done).
  - intros j y Hj Hn. by rewrite lookup_insert_ne by congruence.
  - intros j y [[<- _]|[_ Hj]]%lookup_insert_Some; eauto.
Qed.

Lemma undone_covers i inv a ds m r d :
  covers (Once i :: ds) a → a_cells a !! i = Some (mkCell inv NotRun) → (∀ p ref, inv = Withdraw p ref → p = o) →
  covers ds (with_reconcile m r d (undone i inv a)).
Proof.
  intros [C1 C2 C3] Hi Hp.
  assert (Hce : a_cells (undone i inv a) = <[i := mkCell inv Done]> (a_cells a)) by done.
  assert (Hnx : a_next (undone i inv a) = a_next a).
  { unfold undone, apply_inverse. repeat case_match; simpl; [by rewrite withdraw_shape|done..]. }
  assert (Hst := λ ref b, undone_store i inv a ref b Hp).
  generalize dependent (undone i inv a). intros u Hce Hnx Hst. split.
  - intros j Hj. destruct (C1 j) as (x & Hx & Hnr & Hpx); [set_solver|]. simpl. rewrite Hce.
    destruct (decide (j = i)) as [->|Hne].
    + rewrite lookup_insert_eq. eexists. split; [done|]. by simplify_eq/=.
    + rewrite lookup_insert_ne by done. eauto.
  - intros j x. simpl. rewrite Hce, Hnx. intros [[<- <-]|[Hne Hj]]%lookup_insert_Some; [|by eapply C2].
    by eapply C2.
  - intros ref b [Hb Hn]%Hst Hpb. destruct (C3 ref b Hb Hpb) as (j & Hj & Hc).
    assert (j ≠ i) by (intros ->; simplify_eq; by apply Hn). exists j. split; [set_solver|]. simpl. rewrite Hce.
    by rewrite lookup_insert_ne by done.
Qed.

(** One disposer of the scope: whether or not it ran before. *)
Lemma run_disposer_covers d ds a :
  J a → covers (d :: ds) a →
  ∃ a', run (run_disposer request d) a = Some (a', Ok tt) ∧ J a' ∧ covers ds a' ∧ evolves (d :: ds) a a' ∧
    a_ctxs a' = a_ctxs a ∧ a_next a' = a_next a ∧
    (∀ ref b, a_store a' !! ref = Some b → a_store a !! ref = Some b) ∧
    (∀ ds', a_log a ++ undo_log (a_cells a) (d :: ds') = a_log a' ++ undo_log (a_cells a') ds').
Proof.
  intros HJ Hcov. destruct d as [i|l].
  - destruct (cov_stack _ _ _ Hcov i) as ([inv st] & Hi & Hnr & Hp); [set_solver|]. simpl in Hp, Hnr.
    destruct st.
    + destruct (run_once i inv a HJ Hi Hp) as (m & r & d & Hrun & HJ'). eexists. split_and!; [exact Hrun|done|..].
      * by eapply undone_covers.
      * apply undone_evolves; [set_solver|by eexists|done].
      * unfold undone, apply_inverse. repeat case_match; simpl; [by rewrite withdraw_shape|done..].
      * unfold undone, apply_inverse. repeat case_match; simpl; [by rewrite withdraw_shape|done..].
      * intros ref b Hb. by apply (undone_store i inv a) in Hb as [? _].
      * intros ds'. simpl. rewrite Hi. unfold undone, apply_inverse.
        repeat case_match; simpl; [by rewrite withdraw_shape| |done]. by rewrite <-app_assoc.
    + done.
    + exists a. split_and!; [by eapply run_spent|done| |apply evolves_refl|done..|]; [|intros ds'; simpl; by rewrite Hi].
      destruct Hcov as [C1 C2 C3]. split; [intros j Hj; apply C1; set_solver|done|].
      intros ref b Hb Hpb. destruct (C3 ref b Hb Hpb) as (j & Hj & Hc).
      assert (j ≠ i) by (intros ->; simplify_eq). exists j. split; [set_solver|done].
  - exists (emit (Undid l) a). split_and!; [done|by apply (calm_emit _ _ _ Hcalm)| |split; eauto|done..|]; [|intros ds'; simpl; by rewrite <-app_assoc].
    destruct Hcov as [C1 C2 C3]. split; [intros j Hj; apply C1; set_solver|done|].
    intros ref b Hb Hpb. destruct (C3 ref b Hb Hpb) as (j & Hj & Hc). exists j. split; [set_solver|done].
Qed.

Lemma run_disposers_covers ds a :
  J a → covers ds a →
  ∃ a', run (run_disposers request ds) a = Some (a', Ok tt) ∧ J a' ∧ covers [] a' ∧ evolves ds a a' ∧
    a_ctxs a' = a_ctxs a ∧ a_next a' = a_next a ∧ a_log a' = a_log a ++ undo_log (a_cells a) ds.
Proof.
  revert a. induction ds as [|d ds IH]; intros a HJ Hcov; simpl.
  - exists a. split_and!; try done; [apply evolves_refl|by rewrite app_nil_r].
  - destruct (run_disposer_covers d ds a HJ Hcov) as (a1 & Hr1 & HJ1 & Hc1 & He1 & Hx1 & Hn1 & _ & Hl1).
    destruct (IH a1 HJ1 Hc1) as (a2 & Hr2 & HJ2 & Hc2 & He2 & Hx2 & Hn2 & Hl2).
    exists a2. rewrite run_bind, Hr1. split_and!; try done; [|congruence|congruence|by rewrite Hl2, <-Hl1].
    eapply evolves_trans; [| |exact He1|exact He2]; [|set_solver].
    intros i x Hi. by eapply (cov_cells _ _ _ Hcov).
Qed.

Lemma in_rev_elem (d : Disposer) ds : d ∈ rev ds ↔ d ∈ ds.
Proof. rewrite !list_elem_of_In. symmetry. apply in_rev. Qed.

Lemma covers_ext ds ds' a : (∀ d, d ∈ ds ↔ d ∈ ds') → covers ds a → covers ds' a.
Proof.
  intros Hext [C1 C2 C3]. split; [intros i Hi; apply C1, Hext, Hi|done|].
  intros ref b Hb Hp. destruct (C3 ref b Hb Hp) as (i & Hi & Hc). exists i. by rewrite <-Hext.
Qed.

Lemma evolves_ext ds ds' a a' : (∀ d, d ∈ ds → d ∈ ds') → evolves ds a a' → evolves ds' a a'.
Proof. intros Hext [E1 E2 E3 E4 E5 E6 E7 E8]. split; try done. intros i x Hi Hn. apply E7; eauto. Qed.

(** ** Teardown of a scope *)

Definition closed_ctx (x : Context) : Context := mkContext (cx_owner x) (cx_injects x) (cx_provides x) [] true.

Lemma run_dispose a :
  J a → covers (cx_stack (ctx_of a c)) a → cx_disposed (ctx_of a c) = false →
  ∃ a', run (dispose request c) a = Some (a', Ok tt) ∧ J a' ∧ covers [] a' ∧
    evolves (cx_stack (ctx_of a c)) a a' ∧ ctx_of a' c = closed_ctx (ctx_of a c) ∧ a_next a' = a_next a ∧
    a_log a' = a_log a ++ undo_log (a_cells a) (rev (cx_stack (ctx_of a c))).
Proof.
  intros HJ Hcov Hd. unfold dispose. rewrite run_bind, run_atomic. unfold begin_dispose. rewrite Hd. cbn [fst snd].
  set (a1 := put_ctx c _ a).
  destruct (run_disposers_covers (rev (cx_stack (ctx_of a c))) a1) as (a' & Hr & HJ' & Hc' & He & Hx & Hn & Hl).
  - by apply (calm_ctxs _ _ _ Hcalm).
  - apply (covers_ext (cx_stack (ctx_of a c))); [intros d; by rewrite in_rev_elem|]. by destruct Hcov.
  - exists a'. split_and!; try done; [|unfold ctx_of; rewrite Hx; apply ctx_of_put_eq].
    eapply evolves_trans; [| | |eapply evolves_ext; [|exact He]]; [|by left| |intros d; by rewrite in_rev_elem].
    + intros i x Hi. by eapply (cov_cells _ _ _ Hcov).
    + split; try done; [|by intros i x Hi; left; eexists]. intros c' Hne. simpl. by rewrite lookup_insert_ne.
Qed.

Lemma run_dispose_again a : cx_disposed (ctx_of a c) = true → run (dispose request c) a = Some (a, Ok tt).
Proof. intros Hd. unfold dispose. rewrite run_bind, run_atomic. unfold begin_dispose. by rewrite Hd. Qed.
End disposing.

(** ** An activation at work *)

Section working.
Context `{Platform} (f c : nat) (request : go App unit) (J : App → Prop) (Hcalm : calm (Some f) request J).
Local Abbreviation evolves := (evolves (Some f) c).
Local Abbreviation covers := (covers (Some f)).

(** The scope of an activation at work holds a disposer for each binding of the
    fiber, all of them declared. *)
Record working (a : App) : Prop := {
  wk_owner : cx_owner (ctx_of a c) = Some f;
  wk_provides : cx_provides (ctx_of a c) = Some (keySet (c_Provides (fb_comp (fiber_of a f))));
  wk_live : cx_disposed (ctx_of a c) = false;
  wk_covers : covers (cx_stack (ctx_of a c)) a;
  wk_declared ref b : a_store a !! ref = Some b → b_provider b = Some f → ref ∈ c_Provides (fb_comp (fiber_of a f));
}.

Definition progress (a0 a : App) : Prop :=
  J a ∧ working a ∧ evolves (cx_stack (ctx_of a0 c)) a0 a ∧
  grown a0 (cx_stack (ctx_of a0 c)) (cx_stack (ctx_of a c)).

Lemma progress_refl a : J a → working a → progress a a.
Proof. intros. split_and!; [done..|apply evolves_refl|apply grown_refl]. Qed.

Lemma progress_trans a0 a1 a2 : working a0 → progress a0 a1 → progress a1 a2 → progress a0 a2.
Proof.
  intros Hw (_ & _ & H1 & G1) (HJ & Hw2 & H2 & G2). split_and!; [done..| |].
  - eapply evolves_trans; [| |exact H1|exact H2]; [|by apply G1].
    intros i x Hi. by eapply (cov_cells _ _ _ (wk_covers _ Hw)).
  - eapply grown_trans; [|exact G1|exact G2]. by apply (ev_next _ _ _ _ _ H1).
Qed.

Lemma progress_emit e a : J a → working a → progress a (emit e a).
Proof.
  intros HJ [W1 W2 W3 [C1 C2 C3] W5]. split_and!; [by apply (calm_emit _ _ _ Hcalm)|by split|split; eauto|apply grown_refl].
Qed.

(** A disposer enters the scope. *)
Lemma run_scope_add d a :
  J a → working a →
  (∀ i, d = Once i → ∃ x, a_cells a !! i = Some x ∧ ce_once x ≠ Running ∧
    ∀ p ref, ce_inverse x = Withdraw p ref → p = Some f) →
  let x := ctx_of a c in
  let a' := put_ctx c (mkContext (cx_owner x) (cx_injects x) (cx_provides x) (cx_stack x ++ [d]) false) a in
  run (scope_add request c d) a = Some (a', Ok tt) ∧ J a' ∧ working a'.
Proof.
  intros HJ [W1 W2 W3 [C1 C2 C3] W5] Hd. cbv zeta.
  unfold scope_add. rewrite run_bind, run_atomic. unfold begin_add. rewrite W3. cbn [fst snd].
  split; [done|]. split; [by apply (calm_ctxs _ _ _ Hcalm)|].
  split; [by rewrite ctx_of_put_eq..| |done]. rewrite ctx_of_put_eq. cbn [cx_stack]. split; [|done|].
  - intros i [Hi|Hi%list_elem_of_singleton]%elem_of_app; [by apply C1|by apply Hd].
  - intros ref b Hb Hp. destruct (C3 ref b Hb Hp) as (i & Hi & Hc). exists i. split; [set_solver|done].
Qed.

(** A new disposer, allocated and put in the scope; [fn] withdraws at most the
    fiber's own binding, which may be the one not covered yet. *)
Lemma run_new_disposer fn a :
  J a → cx_owner (ctx_of a c) = Some f →
  cx_provides (ctx_of a c) = Some (keySet (c_Provides (fb_comp (fiber_of a f)))) →
  cx_disposed (ctx_of a c) = false →
  (∀ i, Once i ∈ cx_stack (ctx_of a c) → ∃ x, a_cells a !! i = Some x ∧ ce_once x ≠ Running ∧
    ∀ p ref, ce_inverse x = Withdraw p ref → p = Some f) →
  (∀ i x, a_cells a !! i = Some x → i < a_next a) →
  (∀ ref b, a_store a !! ref = Some b → b_provider b = Some f →
    ref ∈ c_Provides (fb_comp (fiber_of a f)) ∧ (fn = Withdraw (Some f) ref ∨
    ∃ i, Once i ∈ cx_stack (ctx_of a c) ∧ a_cells a !! i = Some (mkCell (Withdraw (Some f) ref) NotRun))) →
  (∀ p ref, fn = Withdraw p ref → p = Some f) →
  ∃ a', run (d ← atomic (onceDisposer fn); scope_add request c d;; mret d) a = Some (a', Ok (Once (a_next a))) ∧
    J a' ∧ working a' ∧ evolves (cx_stack (ctx_of a c)) a a' ∧
    grown a (cx_stack (ctx_of a c)) (cx_stack (ctx_of a' c)) ∧ Once (a_next a) ∈ cx_stack (ctx_of a' c).
Proof.
  intros HJ H1 H2 H3 H4 H5 H6 Hfn. rewrite run_bind, run_atomic. cbn [onceDisposer fst snd].
  set (a1 := with_next _ _).
  assert (Hold : ∀ i x, a_cells a !! i = Some x → a_cells a1 !! i = Some x).
  { intros i x Hi. simpl. rewrite lookup_insert_ne; [done|]. apply H5 in Hi. lia. }
  assert (HJ1 : J a1) by by apply (calm_next _ _ _ Hcalm), (calm_cells _ _ _ Hcalm).
  rewrite run_bind. unfold scope_add. rewrite run_bind, run_atomic. unfold begin_add.
  change (ctx_of a1 c) with (ctx_of a c). rewrite H3. cbn [fst snd]. run_simpl.
  eexists. split; [done|]. split; [by apply (calm_ctxs _ _ _ Hcalm)|]. rewrite ctx_of_put_eq. cbn [cx_stack].
  split_and!; [| | |set_solver].
  - split; [by rewrite ctx_of_put_eq..| |intros ref b Hb Hp; by apply (H6 ref b)].
    rewrite ctx_of_put_eq. cbn [cx_stack]. split.
    + intros i [Hi|Hi%list_elem_of_singleton]%elem_of_app.
      * destruct (H4 i Hi) as (x & Hx & Hnr & Hp). exists x. split; [by apply Hold|done].
      * simplify_eq. exists (mkCell fn NotRun). split; [by apply lookup_insert_eq|done].
    + intros i x. simpl. intros [[<- <-]|[Hne Hi]]%lookup_insert_Some; [lia|].
      apply H5 in Hi. lia.
    + intros ref b Hb Hp. destruct (H6 ref b Hb Hp) as [_ [->|(i & Hi & Hc)]].
      * exists (a_next a). split; [set_solver|by apply lookup_insert_eq].
      * exists i. split; [set_solver|by apply Hold].
  - split; simpl; try done; [by intros c' Hne; rewrite lookup_insert_ne|lia|by intros i x Hi _; apply Hold|].
    intros i x [[<- _]|[_ Hi]]%lookup_insert_Some; [by right|left; by eexists].
  - split; [|set_solver]. intros i [?|[= ->]%list_elem_of_singleton]%elem_of_app; [by left|by right].
Qed.

(** A scope that is covered answers for a new binding of a declared key. *)
Lemma run_Key_Provide k v a :
  J a → working a →
  ∃ a' r, run (Key_Provide request k c v) a = Some (a', r) ∧ progress a a' ∧
    ∀ d, r = Ok d → ∃ i, d = Once i ∧ Once i ∈ cx_stack (ctx_of a' c).
Proof.
  intros HJ Hw. pose proof Hw as [W1 W2 W3 [C1 C2 C3] W5]. unfold Key_Provide.
  rewrite run_bind, run_call. unfold bind, requireProvided, declared. rewrite W2.
  case_bool_decide as Hin; [|eexists _, _; split; [done|]; split; [by apply progress_refl|by intros]].
  cbv zeta. rewrite W1.
  destruct (a_store a !! key_ref k) as [b0|] eqn:Hs.
  { eexists _, _. split; [done|]. split; [by apply progress_refl|by intros]. }
  set (a1 := with_store _ a). rewrite run_bind.
  assert (Hother : ∀ ref b, b_provider b ≠ Some f → a_store a1 !! ref = Some b ↔ a_store a !! ref = Some b).
  { intros ref b Hb. simpl. rewrite lookup_insert_Some. split; [intros [[<- <-]|[_ ?]]; done|].
    intros Hr. right. split; [congruence|done]. }
  destruct (calm_request _ _ _ Hcalm a1) as (m & r & d & Hreq & HJ2); [by apply (calm_store _ _ _ Hcalm)|].
  rewrite Hreq. set (a2 := with_reconcile m r d a1) in *.
  destruct (run_new_disposer (Withdraw (Some f) (key_ref k)) a2) as (a' & Hrun & HJ' & Hw' & He & Hg & Hi);
    [done..| | |].
  - intros ref b. simpl. intros [[<- <-]|[Hne Hb]]%lookup_insert_Some Hp.
    + split; [|by left]. by apply elem_of_list_to_set in Hin.
    + split; [by eapply W5|right]. by eapply C3.
  - intros p ref [= <- _]. done.
  - rewrite Hrun. eexists _, _. split; [done|]. split.
    + split_and!; [done..| |done]. eapply evolves_trans; [| | |exact He].
      * intros i x Hx. by eapply C2.
      * by left.
      * split; try done. by intros i x Hx; left; eexists.
    + intros d0 [= <-]. eauto.
Qed.

Lemma run_Key_Get k a : ∃ r, run (Key_Get k c) a = Some (a, r).
Proof.
  unfold Key_Get. rewrite run_bind, run_call. destruct (requireInjected a c (key_ref k)) as [[]|e]; [|eauto].
  cbn [fst snd]. rewrite run_bind, run_call. destruct (get_available (key_ref k) a) as [v|e]; [|eauto].
  cbn [fst snd]. destruct (key_accepts k (dyn_type v)); eauto.
Qed.

Lemma run_Effect label inv a :
  J a → working a →
  ∃ a' d, run (Effect request c label inv) a = Some (a', Ok d) ∧ progress a a' ∧ d ∈ cx_stack (ctx_of a' c).
Proof.
  intros HJ Hw. unfold Effect. rewrite run_bind, run_modify.
  destruct (progress_emit (Did label) a HJ Hw) as (HJ1 & Hw1 & He1 & Hg1). pose proof Hw1 as [W1 W2 W3 [C1 C2 C3] W5].
  destruct (run_new_disposer (Inverse inv) (emit (Did label) a)) as (a' & Hrun & HJ' & Hw' & He & Hg & Hi);
    [done..| |by intros|].
  - intros ref b Hb Hp. split; [eauto|right; eauto].
  - rewrite Hrun. eexists _, _. split; [done|]. split; [|done].
    apply (progress_trans a (emit (Did label) a) a'); [exact Hw|by split_and!|by split_and!].
Qed.

(** A disposer the component calls early. *)
Lemma run_early d a :
  J a → working a → d ∈ cx_stack (ctx_of a c) →
  ∃ a', run (run_disposer request d) a = Some (a', Ok tt) ∧ progress a a'.
Proof.
  intros HJ Hw Hd. pose proof Hw as [W1 W2 W3 Hcov W5].
  destruct (run_disposer_covers (Some f) c request J Hcalm d (cx_stack (ctx_of a c)) a HJ) as (a' & Hr & HJ' & Hc' & He & Hx & Hn & Hmono & _).
  - eapply covers_ext; [|exact Hcov]. set_solver.
  - exists a'. split; [done|]. apply (evolves_ext (Some f) c _ (cx_stack (ctx_of a c))) in He; [|set_solver].
    assert (Hctx : ctx_of a' c = ctx_of a c) by (unfold ctx_of; by rewrite Hx).
    pose proof (evolves_fiber _ _ _ _ _ f He) as Hfib.
    split_and!; [done| |done|rewrite Hctx; apply grown_refl]. split; rewrite ?Hctx, ?Hfib; try done.
    intros ref b Hb Hp. eauto.
Qed.

(** What the runtime gave a component stays in its scope. *)
Definition outcome_ok (a : App) (o : outcome) : Prop :=
  match o with
  | Returned (Some (Once i)) => Once i ∈ cx_stack (ctx_of a c)
  | _ => True
  end.

Lemma handles_kept a a' (hs : list Disposer) :
  progress a a' → (∀ d, d ∈ hs → d ∈ cx_stack (ctx_of a c)) → ∀ d, d ∈ hs → d ∈ cx_stack (ctx_of a' c).
Proof. intros (_ & _ & _ & [_ Hs]) Hh d Hd. apply Hs, Hh, Hd. Qed.

(** Whatever a component does comes to an end, within its own bindings and its
    own scope. *)
Lemma run_perform s hs a :
  J a → working a → (∀ d, d ∈ hs → d ∈ cx_stack (ctx_of a c)) →
  ∃ a' o, run (perform request c hs s) a = Some (a', Ok o) ∧ progress a a' ∧ outcome_ok a' o.
Proof.
  revert hs a. induction s as [d|e|v|k v next IH|k next IH|l inv next IH|h next IH|next IH];
    intros hs a HJ Hw Hh; cbn [perform].
  - eexists _, _. split; [done|]. split; [by apply progress_refl|].
    destruct d as [|h|l]; simpl; [done| |done]. destruct (hs !! h) as [[i|l]|] eqn:E; simpl; [|done..].
    apply Hh. by eapply list_elem_of_lookup_2.
  - eexists _, _. split; [done|]. split; [by apply progress_refl|done].
  - eexists _, _. split; [done|]. split; [by apply progress_refl|done].
  - destruct (run_Key_Provide k v a HJ Hw) as (a1 & r & Hr & Hp & Hd). rewrite run_bind, run_try, Hr.
    pose proof Hp as (HJ1 & Hw1 & _). destruct r as [d|e].
    + destruct (Hd d eq_refl) as (i & -> & Hi).
      destruct (IH (Ok tt) (hs ++ [Once i]) a1 HJ1 Hw1) as (a2 & o & Ho & Hp2 & Hok).
      { intros d [Hd0|Hd0]%elem_of_app; [by eapply handles_kept|apply list_elem_of_singleton in Hd0; by subst]. }
      exists a2, o. split; [done|]. split; [by eapply progress_trans|done].
    + destruct (IH (Err e) hs a1 HJ1 Hw1) as (a2 & o & Ho & Hp2 & Hok); [by eapply handles_kept|].
      exists a2, o. split; [done|]. split; [by eapply progress_trans|done].
  - destruct (run_Key_Get k a) as (r & Hr). rewrite run_bind, run_try, Hr. by apply IH.
  - destruct (run_Effect l inv a HJ Hw) as (a1 & d & Hr & Hp & Hd). rewrite run_bind, Hr.
    pose proof Hp as (HJ1 & Hw1 & _). destruct (IH (hs ++ [d]) a1 HJ1 Hw1) as (a2 & o & Ho & Hp2 & Hok).
    { intros d' [Hd0|Hd0]%elem_of_app; [by eapply handles_kept|apply list_elem_of_singleton in Hd0; by subst]. }
    exists a2, o. split; [done|]. split; [by eapply progress_trans|done].
  - destruct (hs !! h) as [d|] eqn:E.
    + destruct (run_early d a HJ Hw) as (a1 & Hr & Hp); [apply Hh; by eapply list_elem_of_lookup_2|].
      rewrite run_bind, Hr. pose proof Hp as (HJ1 & Hw1 & _).
      destruct (IH hs a1 HJ1 Hw1) as (a2 & o & Ho & Hp2 & Hok); [by eapply handles_kept|].
      exists a2, o. split; [done|]. split; [by eapply progress_trans|done].
    + by apply IH.
  - by apply IH.
Qed.

Lemma run_applySafe comp cfg a :
  J a → working a →
  ∃ a' r, run (applySafe request comp c cfg) a = Some (a', r) ∧ progress a a' ∧
    match r with Ok d => outcome_ok a' (Returned d) | Err _ => True end.
Proof.
  intros HJ Hw. unfold applySafe. destruct (c_Apply comp) as [apply|].
  - destruct (run_perform (apply cfg) [] a HJ Hw) as (a' & o & Ho & Hp & Hok); [set_solver|].
    rewrite run_bind, Ho. destruct o; eexists _, _; (split; [done|split; done]).
  - eexists _, _. split; [done|]. split; [by apply progress_refl|done].
Qed.

End working.
