(* ===== verification/CoreSteps.v ===== *)
(** * The component runtime: well-formedness, and one step of a fiber *)

From S2P Require Import Prelude GoStd Proc Core CoreRun.

(** ** Well-formed runtimes *)

(** Numbers are taken from the counter, registered fibers are the ones not
    removed, a context belongs to the fiber that has it, and a disposer is in
    one scope. *)
Record wf_base (a : App) : Prop := {
  wb_heap f : is_Some (a_heap a !! f) → f < a_next a;
  wb_ctx c : is_Some (a_ctxs a !! c) → c < a_next a;
  wb_cells i x : a_cells a !! i = Some x → i < a_next a;
  wb_root : is_Some (a_ctxs a !! root) ∧ cx_owner (ctx_of a root) = None;
  wb_nodup : NoDup (a_fibers a);
  wb_reg f : f ∈ a_fibers a ↔ is_Some (a_heap a !! f) ∧ fb_removed (fiber_of a f) = false;
  wb_own f c : is_Some (a_heap a !! f) → fb_ctx (fiber_of a f) = Some c →
    is_Some (a_ctxs a !! c) ∧ cx_owner (ctx_of a c) = Some f ∧
    cx_provides (ctx_of a c) = Some (keySet (c_Provides (fb_comp (fiber_of a f))));
  wb_stack c i : Once i ∈ cx_stack (ctx_of a c) → ∃ x, a_cells a !! i = Some x ∧
    (cx_owner (ctx_of a c) ≠ None → ce_once x ≠ Running) ∧ ∀ p ref, ce_inverse x = Withdraw p ref → p = cx_owner (ctx_of a c);
  wb_disj c c' i : Once i ∈ cx_stack (ctx_of a c) → Once i ∈ cx_stack (ctx_of a c') → c = c';
  wb_prov ref b p : a_store a !! ref = Some b → b_provider b = Some p → is_Some (a_heap a !! p);
}.

(** Each binding of the fiber is declared and can be withdrawn from the scope. *)
Definition bound (g c : nat) (a : App) : Prop :=
  ∀ ref b, a_store a !! ref = Some b → b_provider b = Some g →
    ref ∈ c_Provides (fb_comp (fiber_of a g)) ∧
    ∃ i, Once i ∈ cx_stack (ctx_of a c) ∧ a_cells a !! i = Some (mkCell (Withdraw (Some g) ref) NotRun).

Definition unbound (g : nat) (a : App) : Prop :=
  ∀ ref b, a_store a !! ref = Some b → b_provider b ≠ Some g.

(** A fiber that is up has a live scope; one that is down binds nothing and its
    scope, if it had one, is torn down. *)
Definition status (g : nat) (a : App) : Prop :=
  match state_of a g with
  | StateActive | StateUnloading =>
      ∃ c, fb_ctx (fiber_of a g) = Some c ∧ cx_disposed (ctx_of a c) = false ∧ bound g c a
  | StateInactive | StateFailed =>
      unbound g a ∧ ∀ c, fb_ctx (fiber_of a g) = Some c → cx_disposed (ctx_of a c) = true
  | StateLoading => False
  end.

Record wf (a : App) : Prop := {
  wf_is_base : wf_base a;
  wf_status g : is_Some (a_heap a !! g) → status g a;
  wf_removed g : is_Some (a_heap a !! g) → fb_removed (fiber_of a g) = true → state_of a g ≠ StateActive;
  wf_kept g : is_Some (a_heap a !! g) → fb_removed (fiber_of a g) = false → state_of a g ≠ StateUnloading;
}.

Lemma wf_New : wf App_New.
Proof.
  split; [split|..].
  - intros f [x Hx]. simpl in Hx; by rewrite lookup_empty in Hx.
  - intros c [x Hx]. simpl in Hx. apply lookup_singleton_Some in Hx as [<- _]. unfold root. simpl. lia.
  - intros i x Hi. simpl in Hi; by rewrite lookup_empty in Hi.
  - split; [by eexists|done].
  - constructor.
  - intros f. split; [intros Hf; by apply elem_of_nil in Hf|]. intros [[x Hx] _]. simpl in Hx; by rewrite lookup_empty in Hx.
  - intros f c [x Hx]. simpl in Hx; by rewrite lookup_empty in Hx.
  - intros c i. unfold ctx_of. simpl. destruct (decide (c = root)) as [->|Hne].
    + rewrite lookup_singleton_eq. simpl. set_solver.
    + rewrite lookup_singleton_ne by done. simpl. set_solver.
  - intros c c' i. unfold ctx_of at 1. simpl. destruct (decide (c = root)) as [->|Hne].
    + rewrite lookup_singleton_eq. simpl. set_solver.
    + rewrite lookup_singleton_ne by done. simpl. set_solver.
  - intros ref b p Hb. simpl in Hb; by rewrite lookup_empty in Hb.
  - intros g [x Hx]. simpl in Hx; by rewrite lookup_empty in Hx.
  - intros g [x Hx]. simpl in Hx; by rewrite lookup_empty in Hx.
  - intros g [x Hx]. simpl in Hx; by rewrite lookup_empty in Hx.
Qed.

(** ** What the code of a fiber keeps *)

Section evolving.
Context (f c : nat) (a a' : App).
Context (Hwf : wf_base a) (Hown : cx_owner (ctx_of a c) = Some f)
  (Hev : evolves (Some f) c (cx_stack (ctx_of a c)) a a').

(** The scope after it: the same owner, and disposers that were there or are
    new. *)
Context (Hc : is_Some (a_ctxs a' !! c)) (Hown' : cx_owner (ctx_of a' c) = Some f)
  (Hprov' : cx_provides (ctx_of a' c) = cx_provides (ctx_of a c))
  (Hgrown : ∀ i, Once i ∈ cx_stack (ctx_of a' c) → Once i ∈ cx_stack (ctx_of a c) ∨ a_next a ≤ i)
  (Hstack : ∀ i, Once i ∈ cx_stack (ctx_of a' c) → ∃ x, a_cells a' !! i = Some x ∧ ce_once x ≠ Running ∧
    ∀ p ref, ce_inverse x = Withdraw p ref → p = Some f)
  (Hcells : ∀ i x, a_cells a' !! i = Some x → i < a_next a')
  (Hcnext : is_Some (a_heap a !! f) ∧ c < a_next a').

Lemma ctx_other c' : c' ≠ c → ctx_of a' c' = ctx_of a c'.
Proof. intros Hne. unfold ctx_of. by rewrite (ev_ctxs _ _ _ _ _ Hev). Qed.

Lemma stack_old c' i : Once i ∈ cx_stack (ctx_of a c') → i < a_next a.
Proof. intros Hi. destruct (wb_stack _ Hwf c' i Hi) as (x & Hx & _). by eapply (wb_cells _ Hwf). Qed.

Lemma cell_other c' i x :
  c' ≠ c → Once i ∈ cx_stack (ctx_of a c') → a_cells a !! i = Some x → a_cells a' !! i = Some x.
Proof.
  intros Hne Hi Hx. apply (ev_cells _ _ _ _ _ Hev); [done|]. intros Hi'.
  by apply Hne, (wb_disj _ Hwf c' c i).
Qed.

Lemma evolved_base : wf_base a'.
Proof.
  assert (Hfo : ∀ g, fiber_of a' g = fiber_of a g) by (intros g; by eapply evolves_fiber).
  assert (Hheap := ev_heap _ _ _ _ _ Hev). assert (Hnx := ev_next _ _ _ _ _ Hev).
  assert (Hrc : root ≠ c) by (intros E; destruct (wb_root _ Hwf) as [_ Hr]; rewrite E in Hr; congruence).
  split.
  - intros g Hg. rewrite Hheap in Hg. pose proof (wb_heap _ Hwf g Hg). lia.
  - intros c' Hc'. destruct (decide (c' = c)) as [->|Hne]; [by destruct Hcnext|].
    rewrite (ev_ctxs _ _ _ _ _ Hev) in Hc' by done. pose proof (wb_ctx _ Hwf c' Hc'). lia.
  - done.
  - rewrite (ev_ctxs _ _ _ _ _ Hev), ctx_other by done. apply Hwf.
  - rewrite (ev_fibers _ _ _ _ _ Hev). apply Hwf.
  - intros g. rewrite (ev_fibers _ _ _ _ _ Hev), Hheap, Hfo. apply Hwf.
  - intros g c' Hg Hx. rewrite Hheap in Hg. rewrite Hfo in Hx |- *.
    destruct (wb_own _ Hwf g c' Hg Hx) as (H1 & H2 & H3). destruct (decide (c' = c)) as [->|Hne].
    + rewrite Hown in H2. simplify_eq. rewrite Hprov'. done.
    + rewrite (ev_ctxs _ _ _ _ _ Hev), ctx_other by done. done.
  - intros c' i Hi. destruct (decide (c' = c)) as [->|Hne]; [rewrite Hown'; destruct (Hstack i Hi) as (x & ? & ? & ?); eauto|].
    rewrite ctx_other in Hi |- * by done. destruct (wb_stack _ Hwf c' i Hi) as (x & Hx & Hnr & Hp).
    exists x. split; [by eapply cell_other|done].
  - intros c1 c2 i H1 H2. destruct (decide (c1 = c)) as [->|Hn1], (decide (c2 = c)) as [->|Hn2]; [done|..].
    + rewrite ctx_other in H2 by done. apply Hgrown in H1 as [H1|H1]; [by apply (wb_disj _ Hwf c c2 i)|].
      apply stack_old in H2. lia.
    + rewrite ctx_other in H1 by done. apply Hgrown in H2 as [H2|H2]; [by apply (wb_disj _ Hwf c1 c i)|].
      apply stack_old in H1. lia.
    + rewrite ctx_other in H1, H2 by done. by apply (wb_disj _ Hwf c1 c2 i).
  - intros ref b p Hb Hp. rewrite Hheap. destruct (decide (p = f)) as [->|Hne]; [by destruct Hcnext|].
    eapply (wb_prov _ Hwf ref b); [|done]. apply (ev_store _ _ _ _ _ Hev); [congruence|done].
Qed.

(** The other fibers see no difference. *)
Lemma evolved_unbound g : g ≠ f → unbound g a → unbound g a'.
Proof.
  intros Hne Hu ref b Hb Hp. apply (ev_store _ _ _ _ _ Hev) in Hb; [by eapply Hu|congruence].
Qed.

Lemma evolved_status g : g ≠ f → is_Some (a_heap a !! g) → status g a → status g a'.
Proof.
  intros Hne Hg. unfold status, state_of. rewrite (evolves_fiber _ _ _ _ _ g Hev).
  assert (Hctx : ∀ c', fb_ctx (fiber_of a g) = Some c' → c' ≠ c).
  { intros c' Hc' ->. destruct (wb_own _ Hwf g c Hg Hc') as (_ & Ho & _). congruence. }
  assert (Hup : (∃ c', fb_ctx (fiber_of a g) = Some c' ∧ cx_disposed (ctx_of a c') = false ∧ bound g c' a) →
    ∃ c', fb_ctx (fiber_of a g) = Some c' ∧ cx_disposed (ctx_of a' c') = false ∧ bound g c' a').
  { intros (c' & Hc' & Hd & Hb). pose proof (Hctx c' Hc'). exists c'. rewrite ctx_other by done. split_and!; [done..|].
    intros ref b Hr Hp. apply (ev_store _ _ _ _ _ Hev) in Hr; [|congruence].
    destruct (Hb ref b Hr Hp) as (Hin & i & Hi & Hx). rewrite (evolves_fiber _ _ _ _ _ g Hev), ctx_other by done.
    split; [done|]. exists i. split; [done|by eapply cell_other]. }
  assert (Hdown : (unbound g a ∧ ∀ c', fb_ctx (fiber_of a g) = Some c' → cx_disposed (ctx_of a c') = true) →
    unbound g a' ∧ ∀ c', fb_ctx (fiber_of a g) = Some c' → cx_disposed (ctx_of a' c') = true).
  { intros [Hu Hd]. split; [by apply evolved_unbound|]. intros c' Hc'. rewrite ctx_other by by apply Hctx. by apply Hd. }
  destruct (fb_state (fiber_of a g)); auto.
Qed.
End evolving.

(** Writing one fiber. *)
Lemma put_fiber_base f x a :
  wf_base a → is_Some (a_heap a !! f) → fb_removed x = fb_removed (fiber_of a f) → fb_comp x = fb_comp (fiber_of a f) →
  (∀ c, fb_ctx x = Some c → is_Some (a_ctxs a !! c) ∧ cx_owner (ctx_of a c) = Some f ∧
    cx_provides (ctx_of a c) = Some (keySet (c_Provides (fb_comp (fiber_of a f))))) →
  wf_base (put_fiber f x a).
Proof.
  intros [B1 B2 B3 B4 B5 B6 B7 B8 B9 B10] Hf Hr Hcomp Hctx.
  assert (Hdom : ∀ g, is_Some (a_heap (put_fiber f x a) !! g) ↔ is_Some (a_heap a !! g)).
  { intros g. simpl. destruct (decide (g = f)) as [->|Hne]; [rewrite lookup_insert_eq; naive_solver|].
    by rewrite lookup_insert_ne. }
  split; try done.
  - intros g Hg. apply B1. by apply Hdom.
  - intros g. rewrite Hdom, fiber_of_put. case_decide as E; [rewrite E, Hr, <-E|]; apply B6.
  - intros g c' Hg. rewrite Hdom in Hg. rewrite fiber_of_put. case_decide as E; [|by apply B7].
    subst g. rewrite Hcomp. apply Hctx.
  - intros ref b p Hb Hp. rewrite Hdom. by eapply B10.
Qed.

Lemma put_fiber_status f x a g : g ≠ f → status g a → status g (put_fiber f x a).
Proof.
  intros Hne. unfold status, state_of, bound. rewrite fiber_of_put, decide_False by done. done.
Qed.

Lemma ctx_known a c g : cx_owner (ctx_of a c) = Some g → is_Some (a_ctxs a !! c).
Proof. unfold ctx_of. destruct (a_ctxs a !! c); [by eexists|done]. Qed.

(** The activation once the component's code is done, before its state is
    written: at work, or rolled back. *)
Definition settled_scope (f c : nat) (up : bool) (a : App) : Prop :=
  if up then working f c a
  else covers (Some f) [] a ∧ cx_owner (ctx_of a c) = Some f ∧ cx_disposed (ctx_of a c) = true ∧ cx_stack (ctx_of a c) = [] ∧
       cx_provides (ctx_of a c) = Some (keySet (c_Provides (fb_comp (fiber_of a f)))).

Lemma settled_covers f c up a : settled_scope f c up a → covers (Some f) (cx_stack (ctx_of a c)) a.
Proof. destruct up; simpl; [by intros []|]. by intros (? & _ & _ & -> & _). Qed.
Lemma settled_owner f c up a : settled_scope f c up a → cx_owner (ctx_of a c) = Some f.
Proof. destruct up; simpl; [by intros []|]. by intros (_ & ? & _). Qed.
Lemma settled_provides f c up a : settled_scope f c up a →
  cx_provides (ctx_of a c) = Some (keySet (c_Provides (fb_comp (fiber_of a f)))).
Proof. destruct up; simpl; [by intros []|]. by intros (_ & _ & _ & _ & ?). Qed.

(** A fiber whose scope is settled, with a state to match. *)
Lemma settled_status f c up a x :
  settled_scope f c up a → fb_ctx x = Some c → fb_comp x = fb_comp (fiber_of a f) →
  fb_state x = (if up then StateActive else fb_state x) →
  (up = false → fb_state x = StateFailed ∨ fb_state x = StateInactive) → status f (put_fiber f x a).
Proof.
  intros Hs Hc Hcomp Hst Hdown. unfold status, state_of. rewrite fiber_of_put, decide_True by done. destruct up.
  - rewrite Hst. destruct Hs as [W1 W2 W3 [C1 C2 C3] W5]. exists c. split_and!; [done..|].
    intros ref b Hb Hp. rewrite fiber_of_put, decide_True, Hcomp by done. split; [by eapply W5|by eapply C3].
  - destruct Hs as ([C1 C2 C3] & H2 & H3 & H4 & H5).
    assert (Hu : unbound f (put_fiber f x a)).
    { intros ref b Hb Hp. destruct (C3 ref b Hb Hp) as (i & Hi & _). set_solver. }
    destruct (Hdown eq_refl) as [-> | ->]; (split; [done|]); intros c' Hc'; by simplify_eq.
Qed.

Lemma evolved_wf f c a a' up x :
  wf_base a → (∀ g, g ≠ f → is_Some (a_heap a !! g) → status g a) →
  (∀ g, g ≠ f → is_Some (a_heap a !! g) → fb_removed (fiber_of a g) = true → state_of a g ≠ StateActive) →
  (∀ g, g ≠ f → is_Some (a_heap a !! g) → fb_removed (fiber_of a g) = false → state_of a g ≠ StateUnloading) →
  is_Some (a_heap a !! f) → cx_owner (ctx_of a c) = Some f →
  cx_provides (ctx_of a c) = Some (keySet (c_Provides (fb_comp (fiber_of a f)))) →
  evolves (Some f) c (cx_stack (ctx_of a c)) a a' →
  (∀ i, Once i ∈ cx_stack (ctx_of a' c) → Once i ∈ cx_stack (ctx_of a c) ∨ a_next a ≤ i) →
  settled_scope f c up a' →
  fb_ctx x = Some c → fb_comp x = fb_comp (fiber_of a f) → fb_removed x = fb_removed (fiber_of a f) →
  fb_state x = (if up then StateActive else fb_state x) →
  (up = false → fb_state x = StateFailed ∨ fb_state x = StateInactive) →
  (up = true → fb_removed x = false) →
  wf (put_fiber f x a').
Proof.
  intros Hb Hst Hrm Hkp Hf Ho Hp He Hg Hset Hxc Hxp Hxr Hxs Hxd Hxu.
  pose proof (settled_covers _ _ _ _ Hset) as Hcov. pose proof (settled_owner _ _ _ _ Hset) as Hown.
  assert (Hfo : ∀ g, fiber_of a' g = fiber_of a g) by (intros g; by eapply evolves_fiber).
  assert (Hheap := ev_heap _ _ _ _ _ He).
  assert (Hpv : cx_provides (ctx_of a' c) = cx_provides (ctx_of a c)).
  { rewrite (settled_provides _ _ _ _ Hset), Hp, Hfo. done. }
  assert (Hb' : wf_base a').
  { eapply (evolved_base f c a a'); try done.
    - by eapply ctx_known.
    - by apply Hcov.
    - by apply Hcov.
    - split; [done|]. pose proof (wb_ctx _ Hb c (ctx_known _ _ _ Ho)). pose proof (ev_next _ _ _ _ _ He). lia. }
  assert (Hdom : ∀ g, g ≠ f → is_Some (a_heap (put_fiber f x a') !! g) → is_Some (a_heap a !! g)).
  { intros g Hne. simpl. by rewrite lookup_insert_ne, Hheap. }
  split.
  - apply put_fiber_base; [done|by rewrite Hheap|by rewrite Hfo|by rewrite Hfo|]. intros c' Hc'. simplify_eq.
    split; [by eapply ctx_known|]. split; [done|by eapply settled_provides].
  - intros g Hg'. destruct (decide (g = f)) as [->|Hne].
    + eapply settled_status; [done..|by rewrite Hfo|done|done].
    + apply put_fiber_status; [done|]. apply (evolved_status f c a a'); try done; [by apply Hdom|].
      apply Hst; [done|by apply Hdom].
  - intros g Hg'. unfold state_of. rewrite fiber_of_put. case_decide as E.
    + subst g. intros Hr. destruct up; [by rewrite Hxu in Hr|]. destruct (Hxd eq_refl) as [-> | ->]; done.
    + rewrite Hfo. apply Hrm; [done|by apply Hdom].
  - intros g Hg'. unfold state_of. rewrite fiber_of_put. case_decide as E.
    + subst g. intros _. destruct up; [by rewrite Hxs|]. destruct (Hxd eq_refl) as [-> | ->]; done.
    + rewrite Hfo. apply Hkp; [done|by apply Hdom].
Qed.

(** ** One step of a fiber, while requests are only noted *)

Definition noting (closed rec mu : bool) (a : App) : Prop :=
  a_closed a = closed ∧ a_reconciling a = rec ∧ a_reconcileMu a = mu.

Lemma run_request_noted `{Platform} n a :
  a_closed a || a_reconciling a = true →
  run (requestReconcile (S n)) a = Some (with_reconcile (a_reconcileMu a) (a_reconciling a) true a, Ok tt).
Proof. intros Hq. cbn [requestReconcile]. rewrite run_bind, run_atomic. unfold admit_reconcile. by rewrite Hq. Qed.

Lemma calm_noting `{Platform} n closed rec mu o :
  closed || rec = true → calm o (requestReconcile (S n)) (noting closed rec mu).
Proof.
  intros Hq. split; try by intros.
  intros a (<- & <- & <-). eexists _, _, _. split; [by apply run_request_noted|done].
Qed.

(** What loading [f] with the providers [t] leaves: a fiber that is active, or
    failed and binding nothing; everybody else as before. *)
Record loaded (f : nat) (t : gmap KeyRef (option nat)) (a a' : App) : Prop := {
  ld_fibers : a_fibers a' = a_fibers a;
  ld_other g : g ≠ f → a_heap a' !! g = a_heap a !! g;
  ld_comp : fb_comp (fiber_of a' f) = fb_comp (fiber_of a f);
  ld_removed : fb_removed (fiber_of a' f) = fb_removed (fiber_of a f);
  ld_target : fb_target (fiber_of a' f) = t;
  ld_ctx : fb_ctx (fiber_of a' f) = Some (a_next a);
  ld_state : state_of a' f = StateActive ∨ (state_of a' f = StateFailed ∧ unbound f a');
  ld_store ref b : b_provider b ≠ Some f → a_store a' !! ref = Some b ↔ a_store a !! ref = Some b;
  ld_ctxs c : c ≠ a_next a → a_ctxs a' !! c = a_ctxs a !! c;
  ld_cells i x : a_cells a !! i = Some x → a_cells a' !! i = Some x;
  ld_next : a_next a < a_next a';
}.

Section stepping.
Context `{Platform} (n : nat) (closed rec mu : bool) (Hquiet : closed || rec = true).
Local Abbreviation request := (requestReconcile (S n)).
Local Abbreviation noting := (noting closed rec mu).

(** The activation as [step] opens it. *)
Definition opened (f : nat) (t : gmap KeyRef (option nat)) (a : App) : App :=
  let x := fiber_of a f in
  with_next (S (a_next a))
    (put_ctx (a_next a) (mkContext (Some f) (Some (keySet (c_Inject (fb_comp x))))
                           (Some (keySet (c_Provides (fb_comp x)))) [] false)
       (put_fiber f (mkFiber (fb_comp x) (fb_cfg x) (Some (a_next a)) StateLoading None t (fb_removed x)) a)).

Lemma opened_ctx f t a c : c ≠ a_next a → ctx_of (opened f t a) c = ctx_of a c.
Proof. intros Hne. unfold opened, ctx_of. simpl. by rewrite lookup_insert_ne by congruence. Qed.
Lemma opened_new f t a : ctx_of (opened f t a) (a_next a) =
  mkContext (Some f) (Some (keySet (c_Inject (fb_comp (fiber_of a f)))))
    (Some (keySet (c_Provides (fb_comp (fiber_of a f))))) [] false.
Proof. unfold opened, ctx_of. simpl. by rewrite lookup_insert_eq. Qed.
Lemma opened_fiber f t a g : fiber_of (opened f t a) g =
  if decide (g = f) then mkFiber (fb_comp (fiber_of a f)) (fb_cfg (fiber_of a f)) (Some (a_next a)) StateLoading None t
                           (fb_removed (fiber_of a f))
  else fiber_of a g.
Proof. apply (fiber_of_put f _ a g). Qed.

Lemma opened_base f t a : wf_base a → is_Some (a_heap a !! f) → wf_base (opened f t a).
Proof.
  intros Hb Hf. pose proof Hb as [B1 B2 B3 B4 B5 B6 B7 B8 B9 B10].
  assert (Hnew : a_ctxs a !! a_next a = None).
  { apply eq_None_not_Some. intros Hs%B2. lia. }
  assert (Hno : cx_stack (ctx_of a (a_next a)) = []) by (unfold ctx_of; by rewrite Hnew).
  assert (Hst : ∀ c i, Once i ∈ cx_stack (ctx_of (opened f t a) c) → c ≠ a_next a ∧ Once i ∈ cx_stack (ctx_of a c)).
  { intros c i. destruct (decide (c = a_next a)) as [->|Hne]; [rewrite opened_new; set_solver|].
    rewrite opened_ctx by done. done. }
  assert (Hdom : ∀ g, is_Some (a_heap (opened f t a) !! g) ↔ is_Some (a_heap a !! g)).
  { intros g. simpl. destruct (decide (g = f)) as [->|Hne]; [rewrite lookup_insert_eq; naive_solver|].
    by rewrite lookup_insert_ne. }
  split.
  - intros g Hg%Hdom%B1. simpl. lia.
  - intros c. simpl. destruct (decide (c = a_next a)) as [->|Hne]; [lia|]. rewrite lookup_insert_ne by done.
    intros Hc%B2. lia.
  - intros i x Hi%B3. simpl. lia.
  - destruct B4 as [Hr Ho]. assert (root ≠ a_next a) by (intros E; apply B2 in Hr; lia).
    rewrite opened_ctx by done. split; [|done]. simpl. by rewrite lookup_insert_ne.
  - done.
  - intros g. rewrite Hdom, opened_fiber. case_decide as E; [subst g|]; apply B6.
  - intros g c Hg. rewrite Hdom in Hg. rewrite opened_fiber. case_decide as E.
    + subst g. intros [= <-]. rewrite opened_new. simpl. rewrite lookup_insert_eq. split; [by eexists|done].
    + intros Hc. destruct (B7 g c Hg Hc) as (Hs & ?). assert (c ≠ a_next a) by (apply B2 in Hs; lia).
      rewrite opened_ctx by done. split; [|done]. simpl. by rewrite lookup_insert_ne.
  - intros c i [Hne Hi]%Hst. rewrite opened_ctx by done. by apply B8.
  - intros c c' i [_ Hi]%Hst [_ Hi']%Hst. by eapply B9.
  - intros ref b p Hb' Hp. rewrite Hdom. by eapply B10.
Qed.

Lemma opened_status f t a g :
  wf_base a → g ≠ f → is_Some (a_heap a !! g) → status g a → status g (opened f t a).
Proof.
  intros Hb Hne Hg. unfold status, state_of, bound. rewrite opened_fiber, decide_False by done.
  assert (Hold : ∀ c, fb_ctx (fiber_of a g) = Some c → ctx_of (opened f t a) c = ctx_of a c).
  { intros c Hc. apply opened_ctx. destruct (wb_own _ Hb g c Hg Hc) as (Hs%(wb_ctx _ Hb) & _). lia. }
  destruct (fb_state (fiber_of a g)); try done.
  - intros [Hu Hd]. split; [done|]. intros c Hc. rewrite (Hold c Hc). by apply Hd.
  - intros (c & Hc & Hd & Hbd). exists c. rewrite (Hold c Hc). done.
  - intros (c & Hc & Hd & Hbd). exists c. rewrite (Hold c Hc). done.
  - intros [Hu Hd]. split; [done|]. intros c Hc. rewrite (Hold c Hc). by apply Hd.
Qed.

Lemma opened_working f t a :
  wf_base a → unbound f a → working f (a_next a) (opened f t a).
Proof.
  intros Hb Hu. split; rewrite ?opened_new; try done.
  - rewrite opened_fiber, decide_True by done. done.
  - split; [set_solver| |intros ref b Hr Hp; by destruct (Hu ref b Hr)].
    intros i x Hi. apply (wb_cells _ Hb) in Hi. simpl. lia.
  - intros ref b Hr Hp. by destruct (Hu ref b Hr).
Qed.

(** Apply, and what [step] does with its answer. *)
Lemma run_activation f t a :
  wf_base a → unbound f a → noting a →
  ∃ a' r, run (r ← try (applySafe request (fb_comp (fiber_of a f)) (a_next a) (fb_cfg (fiber_of a f)));
               match r with
               | Err _ => dispose request (a_next a)
               | Ok (Some d) => scope_add request (a_next a) d
               | Ok None => mret tt
               end;; mret r) (opened f t a) = Some (a', Ok r) ∧
    noting a' ∧ evolves (Some f) (a_next a) [] (opened f t a) a' ∧ settled_scope f (a_next a) (is_ok r) a' ∧
    (∀ i, Once i ∈ cx_stack (ctx_of a' (a_next a)) → a_next (opened f t a) ≤ i).
Proof.
  intros Hb Hu HJ. pose proof (calm_noting n closed rec mu (Some f) Hquiet) as Hcalm.
  pose proof (opened_working f t a Hb Hu) as Hw.
  assert (HJ0 : noting (opened f t a)) by done.
  destruct (run_applySafe f (a_next a) request noting Hcalm (fb_comp (fiber_of a f)) (fb_cfg (fiber_of a f)) _ HJ0 Hw)
    as (a1 & r & Hr & (HJ1 & Hw1 & He1 & Hg1) & Hok).
  rewrite opened_new in He1, Hg1. cbn [cx_stack] in He1, Hg1.
  assert (Hnew : ∀ i, Once i ∈ cx_stack (ctx_of a1 (a_next a)) → a_next (opened f t a) ≤ i).
  { intros i Hi. apply Hg1 in Hi as [Hi|?]; [set_solver|done]. }
  assert (Hlt : ∀ i x, a_cells (opened f t a) !! i = Some x → i < a_next (opened f t a)).
  { intros i x Hi. by eapply (cov_cells _ _ _ (wk_covers _ _ _ Hw)). }
  rewrite run_bind, run_try, Hr. destruct r as [[d|]|e]; rewrite run_bind.
  - destruct (run_scope_add f (a_next a) request noting Hcalm d a1 HJ1 Hw1) as (Hrun & HJ2 & Hw2).
    { intros i ->. simpl in Hok. destruct (cov_stack _ _ _ (wk_covers _ _ _ Hw1) i Hok) as (x & ? & ? & ?). eauto. }
    rewrite Hrun. eexists _, _. split; [done|]. split_and!; [done| |done|].
    + eapply evolves_trans; [exact Hlt| |exact He1|]; [by left|]. split; try done; [|by intros i x Hi; left; eexists].
      intros c' Hne. simpl. by rewrite lookup_insert_ne.
    + intros i. rewrite ctx_of_put_eq. cbn [cx_stack]. intros [?|Hi]%elem_of_app; [by apply Hnew|].
      apply list_elem_of_singleton in Hi. subst d. by apply Hnew.
  - run_simpl. eexists _, _. split; [done|]. split_and!; done.
  - destruct (run_dispose (Some f) (a_next a) request noting Hcalm a1) as (a2 & Hrun & HJ2 & Hc2 & He2 & Hx2 & Hn2 & _);
      [done|apply Hw1|apply Hw1|].
    rewrite Hrun. eexists _, _. split; [done|]. split_and!; [done| | |].
    + eapply evolves_trans; [exact Hlt| |exact He1|exact He2]. intros i Hi. right. by apply Hnew.
    + unfold settled_scope. simpl. rewrite Hx2, (evolves_fiber _ _ _ _ _ f He2). destruct Hw1 as [W1 W2 _ _ _].
      split_and!; done.
    + rewrite Hx2. simpl. set_solver.
Qed.

(** A fiber that is down and can be loaded is loaded. *)
Lemma step_loads f a t :
  wf a → noting a → f ∈ a_fibers a → resolveTargetLocked a f = Some t →
  state_of a f = StateInactive ∨ (state_of a f = StateFailed ∧ t ≠ fb_target (fiber_of a f)) →
  ∃ a', run (step request f) a = Some (a', Ok true) ∧ noting a' ∧ wf a' ∧ loaded f t a a'.
Proof.
  intros [Hb Hst Hrm Hkp] HJ Hf Ht Hneed. apply (wb_reg _ Hb) in Hf as [Hf Hr].
  assert (Hd : unbound f a ∧ ∀ c, fb_ctx (fiber_of a f) = Some c → cx_disposed (ctx_of a c) = true).
  { pose proof (Hst f Hf) as Hs. unfold status in Hs. by destruct Hneed as [E|[E _]]; rewrite E in Hs. }
  destruct Hd as [Hu Hd]. unfold step. rewrite run_bind, run_atomic.
  assert (Hbegin : begin_step f a = (opened f t a, Load (a_next a) (fb_ctx (fiber_of a f)) (fb_comp (fiber_of a f)) (fb_cfg (fiber_of a f)))).
  { unfold begin_step, opened. cbv zeta. rewrite !Hr, Ht. unfold state_of in Hneed.
    destruct Hneed as [->|[-> Hne]]; [done|]. rewrite (bool_decide_false _ Hne). done. }
  rewrite Hbegin. cbn [fst snd]. rewrite run_bind.
  assert (Hold : run (dispose_opt request (fb_ctx (fiber_of a f))) (opened f t a) = Some (opened f t a, Ok tt)).
  { destruct (fb_ctx (fiber_of a f)) as [c|] eqn:Hc; [|done]. apply run_dispose_again.
    rewrite opened_ctx; [by apply Hd|]. destruct (wb_own _ Hb f c Hf Hc) as (Hs%(wb_ctx _ Hb) & _). lia. }
  rewrite Hold. destruct (run_activation f t a Hb Hu HJ) as (a1 & r & Hrun & HJ1 & He & Hset & Hnew).
  rewrite run_bind in Hrun. rewrite run_bind. destruct (run (try _) _) as [[a0 [r0|e]]|]; [|done..].
  rewrite run_bind in Hrun. rewrite run_bind. destruct (run _ a0) as [[a01 [[]|e]]|]; [|done..].
  rewrite run_ret in Hrun. injection Hrun as -> ->.
  rewrite run_bind, run_atomic.
  assert (Hfo : ∀ g, fiber_of a1 g = fiber_of (opened f t a) g) by (intros g; by eapply evolves_fiber).
  assert (Hx : fiber_of a1 f = mkFiber (fb_comp (fiber_of a f)) (fb_cfg (fiber_of a f)) (Some (a_next a)) StateLoading None t
    (fb_removed (fiber_of a f))) by (rewrite Hfo, opened_fiber, decide_True by done; done).
  unfold end_load. rewrite Hx. cbn [fb_removed]. rewrite Hr. cbn [fst snd]. run_simpl. eexists. split; [done|].
  split; [done|]. set (x := match _ with Some _ => _ | None => _ end).
  assert (Hxs : fb_state x = if is_ok r then StateActive else StateFailed) by (by destruct r).
  assert (Hxc : fb_ctx x = Some (a_next a) ∧ fb_comp x = fb_comp (fiber_of a f) ∧ fb_target x = t ∧
    fb_removed x = fb_removed (fiber_of a f)) by (by destruct r).
  destruct Hxc as (Hxc & Hxp & Hxt & Hxr). clearbody x.
  split.
  - eapply (evolved_wf f (a_next a) (opened f t a) a1 (is_ok r)); try done.
    + by apply opened_base.
    + intros g Hne Hg. simpl in Hg. rewrite lookup_insert_ne in Hg by done. by apply opened_status; [..|apply Hst].
    + intros g Hne Hg. simpl in Hg. rewrite lookup_insert_ne in Hg by done. unfold state_of.
      rewrite opened_fiber, decide_False by done. by apply Hrm.
    + intros g Hne Hg. simpl in Hg. rewrite lookup_insert_ne in Hg by done. unfold state_of.
      rewrite opened_fiber, decide_False by done. by apply Hkp.
    + simpl. rewrite lookup_insert_eq. by eexists.
    + by rewrite opened_new.
    + rewrite opened_new, opened_fiber, decide_True by done. done.
    + by rewrite opened_new.
    + intros i Hi. right. by apply Hnew.
    + rewrite opened_fiber, decide_True by done. done.
    + rewrite opened_fiber, decide_True by done. done.
    + rewrite Hxs. by destruct (is_ok r).
    + intros E. rewrite Hxs, E. by left.
    + intros _. by rewrite Hxr.
  - pose proof (ev_next _ _ _ _ _ He) as Hn. split; simpl; rewrite ?fiber_of_put, ?decide_True by done; try done.
    + apply (ev_fibers _ _ _ _ _ He).
    + intros g Hne. rewrite lookup_insert_ne by done. rewrite (ev_heap _ _ _ _ _ He). simpl.
      by rewrite lookup_insert_ne.
    + unfold state_of. rewrite fiber_of_put, decide_True, Hxs by done. destruct (is_ok r) eqn:E; [by left|right].
      split; [done|]. destruct Hset as ([_ _ C3] & _). intros ref b Hrb Hp.
      destruct (C3 ref b Hrb Hp) as (i & Hi & _). set_solver.
    + intros ref b Hp. apply (ev_store _ _ _ _ _ He). done.
    + intros c Hc. rewrite (ev_ctxs _ _ _ _ _ He) by done. simpl. by rewrite lookup_insert_ne.
    + intros i y Hi. apply (ev_cells _ _ _ _ _ He); [done|set_solver].
Qed.
End stepping.

(** ** Unloading *)

(** What tearing down the scope of [f] undoes, last done first. *)
Definition teardown_log (a : App) (f : nat) : list effect :=
  match fb_ctx (fiber_of a f) with
  | Some c => if cx_disposed (ctx_of a c) then [] else undo_log (a_cells a) (rev (cx_stack (ctx_of a c)))
  | None => []
  end.

(** What unloading [f] leaves: a fiber that is down, everybody else as before. *)
Record unloaded (f : nat) (a a' : App) : Prop := {
  ul_fibers : a_fibers a' = a_fibers a;
  ul_other g : g ≠ f → a_heap a' !! g = a_heap a !! g;
  ul_comp : fb_comp (fiber_of a' f) = fb_comp (fiber_of a f);
  ul_removed : fb_removed (fiber_of a' f) = fb_removed (fiber_of a f);
  ul_state : state_of a' f = StateInactive;
  ul_unbound : unbound f a';
  ul_store ref b : b_provider b ≠ Some f → a_store a' !! ref = Some b ↔ a_store a !! ref = Some b;
  ul_ctxs c : cx_owner (ctx_of a c) ≠ Some f → a_ctxs a' !! c = a_ctxs a !! c;
  ul_cells c i x : cx_owner (ctx_of a c) ≠ Some f → Once i ∈ cx_stack (ctx_of a c) →
    a_cells a !! i = Some x → a_cells a' !! i = Some x;
  ul_next : a_next a' = a_next a;
  ul_ctx : fb_ctx (fiber_of a' f) = fb_ctx (fiber_of a f);
  ul_log : a_log a' = a_log a ++ teardown_log a f;
}.

Lemma put_fiber_twice f x y a : put_fiber f x (put_fiber f y a) = put_fiber f x a.
Proof. unfold put_fiber, with_heap. simpl. by rewrite insert_insert_eq. Qed.

Lemma bound_covers f c a : wf_base a → cx_owner (ctx_of a c) = Some f → bound f c a → covers (Some f) (cx_stack (ctx_of a c)) a.
Proof.
  intros Hb Ho Hbd. split.
  - intros i Hi. destruct (wb_stack _ Hb c i Hi) as (x & Hx & Hnr & Hp). rewrite Ho in Hp, Hnr. eauto.
  - apply Hb.
  - intros ref b Hr Hp. by apply (Hbd ref b).
Qed.

Section unloading.
Context `{Platform} (f : nat) (request : go App unit) (J : App → Prop) (Hcalm : calm (Some f) request J).

Definition retiring (x : Fiber) (a : App) : Prop :=
  fb_comp x = fb_comp (fiber_of a f) ∧ fb_ctx x = fb_ctx (fiber_of a f) ∧
  fb_removed x = fb_removed (fiber_of a f) ∧ fb_state x = StateUnloading.

Lemma run_teardown a x :
  wf a → is_Some (a_heap a !! f) → retiring x a → J (put_fiber f x a) →
  ∃ a', run (dispose_opt request (fb_ctx x)) (put_fiber f x a) = Some (a', Ok tt) ∧ J a' ∧
    fiber_of a' f = x ∧ wf (put_fiber f (set_state StateInactive x) a') ∧
    unloaded f a (put_fiber f (set_state StateInactive x) a').
Proof.
  intros [Hb Hst Hrm Hkp] Hf (Hxp & Hxc & Hxr & Hxs) HJ. set (a1 := put_fiber f x a).
  assert (Hfx : fiber_of a1 f = x) by (unfold a1; rewrite fiber_of_put; by rewrite decide_True).
  assert (Hb1 : wf_base a1).
  { apply put_fiber_base; [done..|]. rewrite Hxc. intros c Hc. by apply (wb_own _ Hb). }
  assert (Hf1 : is_Some (a_heap a1 !! f)) by (simpl; rewrite lookup_insert_eq; by eexists).
  assert (Hdom : ∀ g, g ≠ f → is_Some (a_heap a1 !! g) → is_Some (a_heap a !! g)).
  { intros g Hne. simpl. by rewrite lookup_insert_ne. }
  assert (Hg1 : ∀ g, g ≠ f → fiber_of a1 g = fiber_of a g).
  { intros g Hne. unfold a1. by rewrite fiber_of_put, decide_False. }
  assert (Hcase : (∃ c, fb_ctx x = Some c ∧ cx_disposed (ctx_of a c) = false) ∨
    ¬ ∃ c, fb_ctx x = Some c ∧ cx_disposed (ctx_of a c) = false).
  { destruct (fb_ctx x) as [c|]; [|right; by intros (? & ? & _)].
    destruct (cx_disposed (ctx_of a c)) eqn:E; [right; intros (c' & [= <-] & ?); congruence|left; eauto]. }
  destruct Hcase as [(c & Hc & Hlive)|Hdown].
  - assert (Hbd : bound f c a1).
    { pose proof (Hst f Hf) as Hs. unfold status in Hs. rewrite <-Hxc, Hc in Hs.
      intros ref b Hr Hp. rewrite Hfx, Hxp.
      destruct (state_of a f); try done.
      - destruct Hs as [_ Hs]. specialize (Hs c eq_refl). congruence.
      - destruct Hs as (c' & [= <-] & _ & Hs). by apply (Hs ref b).
      - destruct Hs as (c' & [= <-] & _ & Hs). by apply (Hs ref b).
      - destruct Hs as [_ Hs]. specialize (Hs c eq_refl). congruence. }
    destruct (wb_own _ Hb1 f c Hf1) as (Hcs & Hco & Hcp); [by rewrite Hfx|].
    destruct (run_dispose (Some f) c request J Hcalm a1) as (a2 & Hrun & HJ2 & Hcov & He & Hcx & Hn & Hl);
      [done|by apply bound_covers|done|].
    assert (Hf2 : fiber_of a2 f = x) by (by rewrite (evolves_fiber _ _ _ _ _ f He)).
    exists a2. rewrite Hc. split_and!; [done..| |].
    + eapply (evolved_wf f c a1 a2 false); try done.
      * intros g Hne Hg. apply put_fiber_status; [done|]. apply Hst. by apply Hdom.
      * intros g Hne Hg. unfold state_of. rewrite Hg1 by done. apply Hrm. by apply Hdom.
      * intros g Hne Hg. unfold state_of. rewrite Hg1 by done. apply Hkp. by apply Hdom.
      * intros i. rewrite Hcx. simpl. set_solver.
      * unfold settled_scope. rewrite Hcx, Hf2. simpl. rewrite Hco, Hcp, Hfx. done.
      * simpl. by rewrite Hfx.
      * simpl. by rewrite Hfx.
      * intros _. by right.
    + split; simpl; rewrite ?fiber_of_put, ?decide_True by done; simpl; try done.
      * apply (ev_fibers _ _ _ _ _ He).
      * intros g Hne. rewrite lookup_insert_ne, (ev_heap _ _ _ _ _ He) by done. simpl. by rewrite lookup_insert_ne.
      * unfold state_of. by rewrite fiber_of_put, decide_True.
      * intros ref b Hr Hp. destruct (cov_bound _ _ _ Hcov ref b Hr Hp) as (i & Hi & _). set_solver.
      * intros ref b Hp. apply (ev_store _ _ _ _ _ He). done.
      * intros c' Hc'. apply (ev_ctxs _ _ _ _ _ He). intros ->. done.
      * intros c' i y Hc' Hi Hy. apply (ev_cells _ _ _ _ _ He); [done|]. intros Hi'. apply Hc'.
        by rewrite (wb_disj _ Hb1 c' c i).
      * rewrite Hl. unfold teardown_log. by rewrite <-Hxc, Hc, Hlive.
  - assert (Hrun : run (dispose_opt request (fb_ctx x)) a1 = Some (a1, Ok tt)).
    { destruct (fb_ctx x) as [c|] eqn:Hc; [|done]. apply run_dispose_again.
      apply not_false_iff_true. intros Hd. apply Hdown. eauto. }
    assert (Hs : unbound f a).
    { pose proof (Hst f Hf) as Hs. unfold status in Hs. rewrite <-Hxc in Hs.
      destruct (state_of a f); try done; [by destruct Hs| | |by destruct Hs];
        destruct Hs as (c & Hc & Hd & _); by destruct Hdown; eauto. }
    exists a1. split_and!; [done..| |]; unfold a1; rewrite put_fiber_twice.
    + split.
      * apply put_fiber_base; [done..|]. simpl. rewrite Hxc. intros c Hc. by apply (wb_own _ Hb).
      * intros g Hg. destruct (decide (g = f)) as [->|Hne].
        { unfold status, state_of. rewrite fiber_of_put, decide_True by done. simpl. split; [done|].
          intros c Hc. apply not_false_iff_true. intros Hd. apply Hdown. eauto. }
        apply put_fiber_status; [done|]. apply Hst. simpl in Hg. by rewrite lookup_insert_ne in Hg.
      * intros g Hg. unfold state_of. rewrite fiber_of_put. case_decide as E; [done|]. apply Hrm.
        simpl in Hg. by rewrite lookup_insert_ne in Hg.
      * intros g Hg. unfold state_of. rewrite fiber_of_put. case_decide as E; [done|]. apply Hkp.
        simpl in Hg. by rewrite lookup_insert_ne in Hg.
    + split; simpl; rewrite ?fiber_of_put, ?decide_True by done; try done.
      * intros g Hne. by rewrite lookup_insert_ne.
      * unfold state_of. by rewrite fiber_of_put, decide_True.
      * unfold teardown_log. rewrite <-Hxc. destruct (fb_ctx x) as [c|] eqn:Hc; [|by rewrite app_nil_r].
        destruct (cx_disposed (ctx_of a c)) eqn:E; [by rewrite app_nil_r|destruct Hdown; eauto].
Qed.
End unloading.

(** An active fiber that has lost a provider is unloaded. *)
Lemma step_unloads `{Platform} n closed rec mu f a :
  closed || rec = true → wf a → noting closed rec mu a → f ∈ a_fibers a →
  resolveTargetLocked a f = None → state_of a f = StateActive →
  ∃ a', run (step (requestReconcile (S n)) f) a = Some (a', Ok true) ∧ noting closed rec mu a' ∧ wf a' ∧ unloaded f a a'.
Proof.
  intros Hq Hwf HJ Hf Ht Hs. apply (wb_reg _ (wf_is_base _ Hwf)) in Hf as [Hf Hr].
  destruct (run_teardown f (requestReconcile (S n)) (noting closed rec mu) (calm_noting n closed rec mu (Some f) Hq)
    a (set_state StateUnloading (fiber_of a f)) Hwf Hf) as (a1 & Hrun & HJ1 & Hf1 & Hwf1 & Hul); [done..|].
  assert (Hbegin : begin_step f a = (put_fiber f (set_state StateUnloading (fiber_of a f)) a, Unload (fb_ctx (fiber_of a f)))).
  { unfold begin_step. cbv zeta. rewrite Hr, Ht. unfold state_of in Hs. by rewrite Hs. }
  unfold step. rewrite run_bind, run_atomic, Hbegin. cbn [fst snd]. rewrite run_bind. cbn [fb_ctx set_state] in Hrun. rewrite Hrun, run_bind, run_modify.
  rewrite run_ret.
  assert (Hend : end_unload f a1 = put_fiber f (set_state StateInactive (set_state StateUnloading (fiber_of a f))) a1).
  { unfold end_unload, state_of. rewrite Hf1. done. }
  rewrite Hend. eauto.
Qed.

(** In every other case a step does nothing. *)
Lemma step_idle `{Platform} request f a :
  wf a → f ∈ a_fibers a →
  match resolveTargetLocked a f with
  | Some t => state_of a f = StateActive ∨ state_of a f = StateFailed → t = fb_target (fiber_of a f)
  | None => True
  end →
  (resolveTargetLocked a f = None → state_of a f ≠ StateActive) →
  (state_of a f = StateInactive → resolveTargetLocked a f = None) →
  run (step request f) a = Some (a, Ok false).
Proof.
  intros Hwf Hf Ht Hn Hi. apply (wb_reg _ (wf_is_base _ Hwf)) in Hf as [Hf Hr].
  pose proof (wf_status _ Hwf f Hf) as Hs. unfold status in Hs. unfold state_of in *.
  unfold step. rewrite run_bind, run_atomic. unfold begin_step. cbv zeta. rewrite Hr.
  destruct (resolveTargetLocked a f) as [t|], (fb_state (fiber_of a f)); try done.
  - by specialize (Hi eq_refl).
  - assert (E : t = fb_target (fiber_of a f)) by auto. by rewrite (bool_decide_true _ E).
  - assert (E : t = fb_target (fiber_of a f)) by auto. by rewrite (bool_decide_true _ E).
  - by specialize (Hn eq_refl).
Qed.
