(* ===== verification/CoreSettle.v ===== *)
(** * The component runtime settles

    A reconciliation after a registration only loads, one after a withdrawal
    only unloads; both come to an end, with every fiber loaded exactly when its
    dependencies are there. *)

From S2P Require Import Prelude GoStd Proc Core CoreRun CoreSteps.

(** ** Resolution *)

(** Whatever is available in [a] is available in [a']. *)
Definition offers (a a' : App) : Prop :=
  ∀ ref b, a_store a !! ref = Some b → available a b = true → a_store a' !! ref = Some b ∧ available a' b = true.

Lemma resolve_keys_mono a a' refs t0 t :
  offers a a' → resolve_keys a refs t0 = Some t → resolve_keys a' refs t0 = Some t.
Proof.
  intros Ho. revert t0. induction refs as [|ref refs IH]; intros t0; simpl; [done|].
  destruct (a_store a !! ref) as [b|] eqn:E; [|done]. destruct (available a b) eqn:Ea; [|done].
  destruct (Ho ref b E Ea) as [-> ->]. apply IH.
Qed.

Lemma resolve_mono a a' f t :
  offers a a' → fb_comp (fiber_of a' f) = fb_comp (fiber_of a f) →
  resolveTargetLocked a f = Some t → resolveTargetLocked a' f = Some t.
Proof. intros Ho Hc. unfold resolveTargetLocked. rewrite Hc. by apply resolve_keys_mono. Qed.

Lemma resolve_keys_spec a refs t0 t :
  resolve_keys a refs t0 = Some t →
  (∀ ref, ref ∈ refs → ∃ b, a_store a !! ref = Some b ∧ available a b = true ∧ t !! ref = Some (b_provider b)) ∧
  (∀ ref, ref ∉ refs → t !! ref = t0 !! ref).
Proof.
  revert t0. induction refs as [|ref refs IH]; intros t0; simpl; [intros [= ->]; set_solver|].
  destruct (a_store a !! ref) as [b|] eqn:E; [|done]. destruct (available a b) eqn:Ea; [|done].
  intros [H1 H2]%IH. split.
  - intros r [->|Hr]%elem_of_cons; [|by apply H1]. destruct (decide (ref ∈ refs)) as [Hin|Hn]; [by apply H1|].
    exists b. split_and!; [done..|]. rewrite H2 by done. by apply lookup_insert_eq.
  - intros r Hr. rewrite H2 by set_solver. rewrite lookup_insert_ne by set_solver. done.
Qed.

(** The resolved target: exactly the declared keys, each with the active
    provider the store has for it. *)
Lemma resolve_spec a f t :
  resolveTargetLocked a f = Some t →
  ∀ ref o, t !! ref = Some o ↔ ref ∈ c_Inject (fb_comp (fiber_of a f)) ∧
    ∃ b, a_store a !! ref = Some b ∧ available a b = true ∧ b_provider b = o.
Proof.
  intros [H1 H2]%resolve_keys_spec ref o. split.
  - intros Hr. destruct (decide (ref ∈ c_Inject (fb_comp (fiber_of a f)))) as [Hin|Hn].
    + split; [done|]. destruct (H1 ref Hin) as (b & Hb & Ha & Ht). exists b. split_and!; [done..|congruence].
    + rewrite H2 in Hr by done. by rewrite lookup_empty in Hr.
  - intros [Hin (b & Hb & Ha & <-)]. destruct (H1 ref Hin) as (b' & Hb' & _ & ->). by simplify_eq.
Qed.

Lemma resolve_none a f :
  resolveTargetLocked a f = None → ∃ ref, ref ∈ c_Inject (fb_comp (fiber_of a f)) ∧
    ∀ b, a_store a !! ref = Some b → available a b = false.
Proof.
  unfold resolveTargetLocked. generalize (∅ : gmap KeyRef (option nat)).
  induction (c_Inject (fb_comp (fiber_of a f))) as [|ref refs IH]; intros t0; simpl; [done|].
  destruct (a_store a !! ref) as [b|] eqn:E; [|exists ref; split; [set_solver|congruence]].
  destruct (available a b) eqn:Ea.
  - intros (r & Hr & Hb)%IH. exists r. split; [set_solver|done].
  - exists ref. split; [set_solver|congruence].
Qed.

(** ** Settled runtimes *)

(** A fiber at rest: loaded with the providers its keys have now (or failed with
    just those), or down for want of one. *)
Definition stable (a : App) (f : nat) : Prop :=
  match resolveTargetLocked a f with
  | Some t => (state_of a f = StateActive ∨ state_of a f = StateFailed) ∧ fb_target (fiber_of a f) = t
  | None => state_of a f ≠ StateActive
  end.
Definition settled (a : App) : Prop := ∀ f, f ∈ a_fibers a → stable a f.

(** Nothing to unload, nothing to load. *)
Definition rising (a : App) : Prop :=
  ∀ f, f ∈ a_fibers a → state_of a f = StateActive → resolveTargetLocked a f = Some (fb_target (fiber_of a f)).
Definition falling (a : App) : Prop :=
  ∀ f t, f ∈ a_fibers a → resolveTargetLocked a f = Some t →
    (state_of a f = StateActive ∨ state_of a f = StateFailed) ∧ fb_target (fiber_of a f) = t.

Lemma settled_both a : settled a ↔ rising a ∧ falling a.
Proof.
  unfold settled, stable, rising, falling. split.
  - intros Hs. split.
    + intros f Hf Ha. specialize (Hs f Hf). destruct (resolveTargetLocked a f); [|done]. destruct Hs. congruence.
    + intros f t Hf Ht. specialize (Hs f Hf). by rewrite Ht in Hs.
  - intros [Hr Hl] f Hf. destruct (resolveTargetLocked a f) as [t|] eqn:E; [by apply Hl|].
    intros Ha. rewrite (Hr f Hf Ha) in E. done.
Qed.

(** An active fiber was loaded after the providers it was loaded with. *)
Definition aged (a : App) : Prop :=
  ∀ f ref p cf, f ∈ a_fibers a → state_of a f = StateActive → fb_target (fiber_of a f) !! ref = Some (Some p) →
    fb_ctx (fiber_of a f) = Some cf → ∃ cp, fb_ctx (fiber_of a p) = Some cp ∧ cp < cf.

(** What no reconciliation touches: which fibers there are, and what belongs to
    the root context. *)
Record roots (a a' : App) : Prop := {
  rt_fibers : a_fibers a' = a_fibers a;
  rt_heap g : is_Some (a_heap a' !! g) ↔ is_Some (a_heap a !! g);
  rt_comp g : fb_comp (fiber_of a' g) = fb_comp (fiber_of a g);
  rt_removed g : fb_removed (fiber_of a g) = true → fiber_of a' g = fiber_of a g;
  rt_flag g : fb_removed (fiber_of a' g) = fb_removed (fiber_of a g);
  rt_store ref b : b_provider b = None → a_store a' !! ref = Some b ↔ a_store a !! ref = Some b;
  rt_ctx : a_ctxs a' !! root = a_ctxs a !! root;
  rt_cells i x : Once i ∈ cx_stack (ctx_of a root) → a_cells a !! i = Some x → a_cells a' !! i = Some x;
  rt_next : a_next a ≤ a_next a';
}.

Lemma roots_refl a : roots a a.
Proof. by split. Qed.
Lemma roots_ctx a a' : roots a a' → ctx_of a' root = ctx_of a root.
Proof. intros Hr. unfold ctx_of. by rewrite (rt_ctx _ _ Hr). Qed.
Lemma roots_trans a1 a2 a3 : roots a1 a2 → roots a2 a3 → roots a1 a3.
Proof.
  intros H1 H2. split.
  - by rewrite (rt_fibers _ _ H2), (rt_fibers _ _ H1).
  - intros g. by rewrite (rt_heap _ _ H2), (rt_heap _ _ H1).
  - intros g. by rewrite (rt_comp _ _ H2), (rt_comp _ _ H1).
  - intros g Hg. rewrite (rt_removed _ _ H2), (rt_removed _ _ H1); [done..|]. by rewrite (rt_removed _ _ H1).
  - intros g. by rewrite (rt_flag _ _ H2), (rt_flag _ _ H1).
  - intros ref b Hb. by rewrite (rt_store _ _ H2), (rt_store _ _ H1).
  - by rewrite (rt_ctx _ _ H2), (rt_ctx _ _ H1).
  - intros i x Hi Hx. apply (rt_cells _ _ H2); [by rewrite (roots_ctx _ _ H1)|by apply (rt_cells _ _ H1)].
  - pose proof (rt_next _ _ H1). pose proof (rt_next _ _ H2). lia.
Qed.

(** Fibers from their heap entries. *)
Lemma fiber_same a a' g : a_heap a' !! g = a_heap a !! g → fiber_of a' g = fiber_of a g.
Proof. unfold fiber_of. by intros ->. Qed.

Section phases.
Context `{Platform} (n : nat) (mu : bool).
Local Abbreviation request := (requestReconcile (S n)).
Local Abbreviation noting := (noting false true mu).

Lemma loaded_roots f t a a' : wf a → f ∈ a_fibers a → loaded f t a a' → roots a a'.
Proof.
  intros Hwf Hf Hl. pose proof (wf_is_base _ Hwf) as Hb. apply (wb_reg _ Hb) in Hf as [Hf Hr]. split.
  - apply Hl.
  - intros g. destruct (decide (g = f)) as [->|Hne]; [|by rewrite (ld_other _ _ _ _ Hl)].
    split; [done|intros _]. pose proof (ld_ctx _ _ _ _ Hl) as Hc. unfold fiber_of in Hc.
    destruct (a_heap a' !! f); [by eexists|done].
  - intros g. destruct (decide (g = f)) as [->|Hne]; [apply Hl|]. by rewrite (fiber_same a a' g) by by apply Hl.
  - intros g Hg. apply fiber_same, Hl. congruence.
  - intros g. destruct (decide (g = f)) as [->|Hne]; [apply Hl|]. by rewrite (fiber_same a a' g) by by apply Hl.
  - intros ref b Hp. apply Hl. congruence.
  - apply Hl. intros E. destruct (wb_root _ Hb) as [Hs%(wb_ctx _ Hb) _]. lia.
  - intros i x _. apply Hl.
  - pose proof (ld_next _ _ _ _ Hl). lia.
Qed.

Lemma unloaded_roots f a a' : wf a → is_Some (a_heap a !! f) → fb_removed (fiber_of a f) = false → unloaded f a a' → roots a a'.
Proof.
  intros Hwf Hf Hr Hl. pose proof (wf_is_base _ Hwf) as Hb. destruct (wb_root _ Hb) as [_ Ho]. split.
  - apply Hl.
  - intros g. destruct (decide (g = f)) as [->|Hne]; [|by rewrite (ul_other _ _ _ Hl)].
    split; [done|intros _]. pose proof (ul_removed _ _ _ Hl) as Hc. rewrite Hr in Hc. unfold fiber_of in Hc.
    destruct (a_heap a' !! f); [by eexists|done].
  - intros g. destruct (decide (g = f)) as [->|Hne]; [apply Hl|]. by rewrite (fiber_same a a' g) by by apply Hl.
  - intros g Hg. apply fiber_same, Hl. congruence.
  - intros g. destruct (decide (g = f)) as [->|Hne]; [apply Hl|]. by rewrite (fiber_same a a' g) by by apply Hl.
  - intros ref b Hp. apply Hl. congruence.
  - apply Hl. congruence.
  - intros i x Hi. apply (ul_cells _ _ _ Hl root); [congruence|done].
  - by rewrite (ul_next _ _ _ Hl).
Qed.

(** ** The two phases *)

Lemma available_provider a b p : available a b = true → b_provider b = Some p → state_of a p = StateActive.
Proof. unfold available. intros Ha Hp. rewrite Hp in Ha. by apply bool_decide_eq_true_1 in Ha. Qed.

Lemma loaded_offers f t a a' : loaded f t a a' → state_of a f ≠ StateActive → offers a a'.
Proof.
  intros Hl Hs ref b Hb Ha.
  assert (Hp : b_provider b ≠ Some f) by (intros Hp; by apply Hs, (available_provider a b f)).
  split; [by apply Hl|]. unfold available in *. destruct (b_provider b) as [p|]; [|done].
  unfold state_of in *. rewrite (fiber_same a a' p); [done|]. apply Hl. congruence.
Qed.

Lemma unloaded_offers f a a' : unloaded f a a' → offers a' a.
Proof.
  intros Hl ref b Hb Ha. pose proof (ul_unbound _ _ _ Hl ref b Hb) as Hp.
  split; [by apply Hl|]. unfold available in *. destruct (b_provider b) as [p|]; [|done].
  unfold state_of in *. rewrite <-(fiber_same a a' p); [done|]. apply Hl. congruence.
Qed.

(** Fibers that are loaded with what their keys have now. *)
Definition done_loading (a : App) (f : nat) : bool :=
  bool_decide ((state_of a f = StateActive ∨ state_of a f = StateFailed) ∧
    resolveTargetLocked a f = Some (fb_target (fiber_of a f))).
Definition undone_count (a : App) : nat := length (filter (λ f, done_loading a f = false) (a_fibers a)).
Definition active_count (a : App) : nat := length (filter (λ f, state_of a f = StateActive) (a_fibers a)).

Lemma filter_length_lt {A} (P Q : A → Prop) `{!∀ x, Decision (P x), !∀ x, Decision (Q x)} (l : list A) x :
  (∀ y, y ∈ l → P y → Q y) → x ∈ l → Q x → ¬ P x → length (filter P l) < length (filter Q l).
Proof.
  intros Himp Hx HQ HP. induction l as [|y l IH]; [set_solver|].
  assert (Hle : length (filter P l) ≤ length (filter Q l)).
  { clear IH Hx. induction l as [|z l IH]; [done|]. rewrite !filter_cons.
    destruct (decide (P z)), (decide (Q z)); simpl; try (apply le_n_S || apply le_S); try (apply IH; set_solver).
    exfalso. set_solver. }
  rewrite !filter_cons. apply elem_of_cons in Hx as [->|Hx].
  - rewrite decide_False, decide_True by done. simpl. lia.
  - assert (length (filter P l) < length (filter Q l)) by (apply IH; set_solver).
    destruct (decide (P y)), (decide (Q y)); simpl; try lia. exfalso. set_solver.
Qed.

(** Whether there is something to load. *)
Definition loadable (a : App) (f : nat) (t : gmap KeyRef (option nat)) : Prop :=
  resolveTargetLocked a f = Some t ∧
  (state_of a f = StateInactive ∨ (state_of a f = StateFailed ∧ t ≠ fb_target (fiber_of a f))).

Lemma loadable_dec a f : (∃ t, loadable a f t) ∨ ∀ t, ¬ loadable a f t.
Proof.
  unfold loadable. destruct (resolveTargetLocked a f) as [t|]; [|right; by intros t [? _]].
  destruct (decide (state_of a f = StateInactive ∨ (state_of a f = StateFailed ∧ t ≠ fb_target (fiber_of a f)))).
  - left. by exists t.
  - right. by intros t' [[= <-] ?].
Qed.

(** A fiber that is neither to be loaded nor to be unloaded is at rest. *)
Lemma idle_stable f a :
  wf a → f ∈ a_fibers a → (∀ t, ¬ loadable a f t) →
  (state_of a f = StateActive → resolveTargetLocked a f = Some (fb_target (fiber_of a f))) →
  stable a f ∧ run (step request f) a = Some (a, Ok false).
Proof.
  intros Hwf Hf Hno Hact. pose proof (wf_is_base _ Hwf) as Hb. pose proof Hf as [Hh Hrem]%(wb_reg _ Hb).
  pose proof (wf_status _ Hwf f Hh) as Hs. pose proof (wf_kept _ Hwf f Hh Hrem) as Hk.
  assert (Hst : stable a f).
  { unfold stable. destruct (resolveTargetLocked a f) as [t|] eqn:Ht; [|intros Ha; by specialize (Hact Ha)].
    unfold status in Hs. destruct (state_of a f) eqn:E; try done.
    - destruct (Hno t). split; [done|by left].
    - specialize (Hact eq_refl). simplify_eq. auto.
    - split; [by right|]. destruct (decide (t = fb_target (fiber_of a f))) as [->|Hne]; [done|].
      destruct (Hno t). split; [done|by right]. }
  split; [done|]. unfold stable in Hst. apply step_idle; [done..| | |].
  - destruct (resolveTargetLocked a f); [|done]. by destruct Hst.
  - intros E. by rewrite E in Hst.
  - intros E. destruct (resolveTargetLocked a f); [|done]. destruct Hst as [[?|?] _]; congruence.
Qed.

Lemma loaded_aged f t a a' :
  wf a → rising a → aged a → f ∈ a_fibers a → resolveTargetLocked a f = Some t → state_of a f ≠ StateActive →
  loaded f t a a' → aged a'.
Proof.
  intros Hwf Hr Hag Hf Ht Hna Hl g ref p cf Hg Ha Htg Hcf. pose proof (wf_is_base _ Hwf) as Hb.
  assert (Hother : ∀ g, g ≠ f → fiber_of a' g = fiber_of a g) by (intros h Hne; by apply fiber_same, Hl).
  assert (Hact : ∀ h t' q, resolveTargetLocked a h = Some t' → t' !! ref = Some (Some q) →
    state_of a q = StateActive ∧ is_Some (a_heap a !! q)).
  { intros h t' q Hh Hq. apply (resolve_spec a h t' Hh) in Hq as (_ & b & Hbs & Hav & Hp).
    split; [by eapply available_provider|by eapply (wb_prov _ Hb)]. }
  rewrite (ld_fibers _ _ _ _ Hl) in Hg. destruct (decide (g = f)) as [->|Hne].
  - rewrite (ld_target _ _ _ _ Hl) in Htg. rewrite (ld_ctx _ _ _ _ Hl) in Hcf. simplify_eq.
    destruct (Hact f t p Ht Htg) as [Hpa Hph].
    pose proof (wf_status _ Hwf p Hph) as Hps. unfold status in Hps. rewrite Hpa in Hps.
    destruct Hps as (cp & Hcp & _). rewrite Hother by congruence. exists cp. split; [done|].
    destruct (wb_own _ Hb p cp Hph Hcp) as (Hcs%(wb_ctx _ Hb) & _). done.
  - unfold state_of in Ha. rewrite Hother in Ha, Htg, Hcf by done.
    destruct (Hact g _ p (Hr g Hg Ha) Htg) as [Hpa _]. rewrite Hother by congruence. by eapply Hag.
Qed.

Lemma loaded_undone f t a a' :
  f ∈ a_fibers a → loadable a f t → loaded f t a a' →
  (∀ g t, resolveTargetLocked a g = Some t → resolveTargetLocked a' g = Some t) → undone_count a' < undone_count a.
Proof.
  intros Hf [Ht Hneed] Hl Hmono. unfold undone_count. rewrite (ld_fibers _ _ _ _ Hl).
  assert (Hf' : done_loading a' f = true).
  { apply bool_decide_eq_true_2. rewrite (ld_target _ _ _ _ Hl). split; [|by apply Hmono].
    destruct (ld_state _ _ _ _ Hl) as [?|[? _]]; auto. }
  apply (filter_length_lt _ _ _ f); [|done| |by rewrite Hf'].
  - intros g _ Hg. destruct (decide (g = f)) as [->|Hne]; [congruence|].
    apply bool_decide_eq_false_2. apply bool_decide_eq_false_1 in Hg. intros [H1 H2]. apply Hg.
    unfold state_of in *. rewrite (fiber_same a a' g) by by apply Hl. split; [done|by apply Hmono].
  - apply bool_decide_eq_false_2. intros [H1 H2]. destruct Hneed as [E|[E Hne]].
    + destruct H1; congruence.
    + congruence.
Qed.

(** One step while rising: it loads, or there is nothing to do. *)
Lemma step_rising f a :
  wf a → noting a → rising a ∧ aged a → f ∈ a_fibers a →
  ∃ a' b, run (step request f) a = Some (a', Ok b) ∧ wf a' ∧ noting a' ∧ (rising a' ∧ aged a') ∧ roots a a' ∧
    (b = false → a' = a ∧ stable a f) ∧ (b = true → undone_count a' < undone_count a).
Proof.
  intros Hwf HJ [Hr Hag] Hf. destruct (loadable_dec a f) as [(t & Hld)|Hno].
  - pose proof Hld as [Ht Hneed].
    destruct (step_loads n false true mu eq_refl f a t) as (a' & Hrun & HJ' & Hwf' & Hl); [done..|].
    assert (Hna : state_of a f ≠ StateActive) by (destruct Hneed as [->|[-> _]]; done).
    pose proof (loaded_offers _ _ _ _ Hl Hna) as Hoff. pose proof (loaded_roots _ _ _ _ Hwf Hf Hl) as Hrt.
    assert (Hmono : ∀ g t, resolveTargetLocked a g = Some t → resolveTargetLocked a' g = Some t).
    { intros g t'. apply resolve_mono; [done|apply Hrt]. }
    exists a', true. split_and!; try done; [|by apply (loaded_aged f t a a')|intros _; by apply (loaded_undone f t a a')].
    intros g Hg Ha. rewrite (rt_fibers _ _ Hrt) in Hg. destruct (decide (g = f)) as [->|Hne].
    + rewrite (ld_target _ _ _ _ Hl). by apply Hmono.
    + unfold state_of in Ha. rewrite (fiber_same a a' g) in Ha |- * by by apply Hl. by apply Hmono, Hr.
  - destruct (idle_stable f a Hwf Hf Hno (Hr f Hf)) as [Hst Hrun]. exists a, false. by split_and!.
Qed.

(** One step while falling: it unloads, or there is nothing to do. *)
Lemma step_falling f a :
  wf a → noting a → falling a ∧ aged a → f ∈ a_fibers a →
  ∃ a' b, run (step request f) a = Some (a', Ok b) ∧ wf a' ∧ noting a' ∧ (falling a' ∧ aged a') ∧ roots a a' ∧
    (b = false → a' = a ∧ stable a f) ∧ (b = true → active_count a' < active_count a).
Proof.
  intros Hwf HJ [Hfa Hag] Hf. pose proof (wf_is_base _ Hwf) as Hb. pose proof Hf as [Hh Hrem]%(wb_reg _ Hb).
  destruct (decide (resolveTargetLocked a f = None ∧ state_of a f = StateActive)) as [[Ht Ha]|Hno].
  - destruct (step_unloads n false true mu f a) as (a' & Hrun & HJ' & Hwf' & Hl); [done..|].
    pose proof (unloaded_offers _ _ _ Hl) as Hoff. pose proof (unloaded_roots _ _ _ Hwf Hh Hrem Hl) as Hrt.
    assert (Hmono : ∀ g t, resolveTargetLocked a' g = Some t → resolveTargetLocked a g = Some t).
    { intros g t'. apply resolve_mono; [done|symmetry; apply Hrt]. }
    assert (Hother : ∀ g, g ≠ f → fiber_of a' g = fiber_of a g) by (intros h Hne; by apply fiber_same, Hl).
    exists a', true. split_and!; try done.
    + intros g t Hg Htg. rewrite (rt_fibers _ _ Hrt) in Hg. apply Hmono in Htg.
      destruct (decide (g = f)) as [->|Hne]; [congruence|]. unfold state_of. rewrite Hother by done. by apply Hfa.
    + intros g ref p cf Hg Hga Htg Hcf. rewrite (rt_fibers _ _ Hrt) in Hg. destruct (decide (g = f)) as [->|Hne].
      * rewrite (ul_state _ _ _ Hl) in Hga. done.
      * unfold state_of in Hga. rewrite Hother in Hga, Htg, Hcf by done.
        destruct (Hag g ref p cf Hg Hga Htg Hcf) as (cp & Hcp & Hlt). exists cp. split; [|done].
        destruct (decide (p = f)) as [->|Hnp]; [by rewrite (ul_ctx _ _ _ Hl)|by rewrite Hother].
    + intros _. unfold active_count. rewrite (rt_fibers _ _ Hrt). apply (filter_length_lt _ _ _ f); [|done..|].
      * intros g _ Hg. destruct (decide (g = f)) as [->|Hne]; [done|]. unfold state_of in *. by rewrite <-Hother.
      * by rewrite (ul_state _ _ _ Hl).
  - destruct (idle_stable f a Hwf Hf) as [Hst Hrun].
    + intros t [Ht Hneed]. destruct (Hfa f t Hf Ht) as [[E|E] Etgt]; destruct Hneed as [?|[? ?]]; congruence.
    + intros Ha. destruct (resolveTargetLocked a f) as [t|] eqn:E; [|by destruct Hno].
      by destruct (Hfa f t Hf E) as [_ ->].
    + exists a, false. by split_and!.
Qed.
End phases.

(** ** Reconciliation ends *)

Section reconciling.
Context `{Platform} (n : nat) (P : App → Prop) (count : App → nat).
Local Abbreviation request := (requestReconcile (S n)).
Local Abbreviation noting := (noting false true true).
Context (Hstep : ∀ f a, wf a → noting a → P a → f ∈ a_fibers a →
  ∃ a' b, run (step request f) a = Some (a', Ok b) ∧ wf a' ∧ noting a' ∧ P a' ∧ roots a a' ∧
    (b = false → a' = a ∧ stable a f) ∧ (b = true → count a' < count a)).

Lemma run_steps fs a b0 :
  wf a → noting a → P a → (∀ f, f ∈ fs → f ∈ a_fibers a) →
  ∃ a' b, run (steps request fs b0) a = Some (a', Ok (b0 || b)) ∧ wf a' ∧ noting a' ∧ P a' ∧ roots a a' ∧
    (b = false → a' = a ∧ ∀ f, f ∈ fs → stable a f) ∧ (b = true → count a' < count a).
Proof.
  revert a b0. induction fs as [|f fs IH]; intros a b0 Hwf HJ HP Hfs; cbn [steps].
  - exists a, false. rewrite orb_false_r. split_and!; try done. intros _. split; [done|]. set_solver.
  - destruct (Hstep f a) as (a1 & b1 & Hr1 & Hwf1 & HJ1 & HP1 & Hrt1 & Hidle1 & Hdec1); [done..|set_solver|].
    rewrite run_bind, Hr1.
    destruct (IH a1 (b0 || b1)) as (a2 & b2 & Hr2 & Hwf2 & HJ2 & HP2 & Hrt2 & Hidle2 & Hdec2); [done..| |].
    { intros g Hg. rewrite (rt_fibers _ _ Hrt1). set_solver. }
    exists a2, (b1 || b2). rewrite orb_assoc. split_and!; try done.
    + by eapply roots_trans.
    + intros [-> ->]%orb_false_iff. destruct (Hidle1 eq_refl) as [-> Hs1]. destruct (Hidle2 eq_refl) as [-> Hs2].
      split; [done|]. intros g [->|Hg]%elem_of_cons; [done|by apply Hs2].
    + intros E. destruct b1, b2; simpl in *.
      * specialize (Hdec1 eq_refl). specialize (Hdec2 eq_refl). lia.
      * destruct (Hidle2 eq_refl) as [-> _]. auto.
      * destruct (Hidle1 eq_refl) as [-> _]. auto.
      * done.
Qed.

Context (Hflags : ∀ m r d a, P a → P (with_reconcile m r d a))
  (Hcount : ∀ m r d a, count (with_reconcile m r d a) = count a).

Lemma run_reconcile_loop fuel a :
  count a < fuel → wf a → noting a → P a →
  ∃ a', run (reconcile_loop request fuel) a = Some (with_reconcile false false false a', Ok tt) ∧
    wf a' ∧ P a' ∧ settled a' ∧ roots a a' ∧ a_closed a' = false.
Proof.
  revert a. induction fuel as [|fuel IH]; intros a Hlt Hwf HJ HP; [lia|]. cbn [reconcile_loop].
  rewrite run_bind, run_modify, run_bind. set (a0 := with_reconcile _ _ false a).
  assert (Hwf0 : wf a0) by by destruct Hwf as [[] ? ? ?].
  destruct (run_steps (a_fibers a0) a0 false) as (a1 & b & Hr & Hwf1 & HJ1 & HP1 & Hrt & Hidle & Hdec); [done..|by apply Hflags|done|].
  assert (Hrt0 : roots a a0) by done.
  unfold pass. rewrite run_bind, run_reads. rewrite Hr. cbn [orb]. rewrite run_bind, run_atomic. destruct b; cbn [negb andb fst snd].
  - destruct (IH a1) as (a2 & Hr2 & Hwf2 & HP2 & Hs2 & Hrt2 & Hc2); [|done..|].
    + specialize (Hdec eq_refl). unfold a0 in Hdec. rewrite Hcount in Hdec. lia.
    + exists a2. split_and!; try done. eapply roots_trans; [exact Hrt0|]. by eapply roots_trans.
  - destruct (Hidle eq_refl) as [-> Hst]. cbn [negb andb fst snd a0 a_dirty with_reconcile]. cbn. eexists a0.
    split_and!; try done. apply HJ.
Qed.
End reconciling.
