(* ===== verification/CoreOps.v ===== *)
(** * The operations of the component runtime, alone

    Every operation on a settled runtime ends, and ends settled. *)

From S2P Require Import Prelude GoStd Proc Core CoreRun CoreSteps CoreSettle.

(** ** Reconciliation, from request to rest *)

(** Nobody is reconciling and the runtime is open. *)
Definition idle (a : App) : Prop :=
  a_closed a = false ∧ a_reconciling a = false ∧ a_reconcileMu a = false.

Lemma wf_flags m r d a : wf a → wf (with_reconcile m r d a).
Proof. by intros [[] ? ? ?]. Qed.

(** Store and fibers decide what is at rest. *)
Lemma resolve_ext a a' f : a_store a' = a_store a → a_heap a' = a_heap a → resolveTargetLocked a' f = resolveTargetLocked a f.
Proof.
  intros Hs Hh. unfold resolveTargetLocked, fiber_of. rewrite Hh. generalize (∅ : gmap KeyRef (option nat)).
  induction (c_Inject _) as [|ref refs IH]; intros t; simpl; [done|]. rewrite Hs.
  destruct (a_store a !! ref) as [b|]; [|done].
  assert (available a' b = available a b) as -> by (unfold available, state_of, fiber_of; by rewrite Hh).
  by destruct (available a b).
Qed.

Lemma stable_ext a a' f : a_store a' = a_store a → a_heap a' = a_heap a → stable a f → stable a' f.
Proof. intros Hs Hh. unfold stable, state_of, fiber_of. by rewrite (resolve_ext a a') , Hh. Qed.

Lemma settled_flags m r d a : settled a → settled (with_reconcile m r d a).
Proof. intros Hs f Hf. by apply (stable_ext a), Hs. Qed.
Lemma rising_flags m r d a : rising a → rising (with_reconcile m r d a).
Proof. intros Hs f Hf Ha. rewrite (resolve_ext a) by done. by apply Hs. Qed.
Lemma falling_flags m r d a : falling a → falling (with_reconcile m r d a).
Proof. intros Hs f t Hf. rewrite (resolve_ext a) by done. by apply Hs. Qed.
Lemma undone_flags m r d a : undone_count (with_reconcile m r d a) = undone_count a.
Proof.
  unfold undone_count. f_equal. apply list_filter_iff. intros f. unfold done_loading.
  rewrite (resolve_ext a) by done. done.
Qed.

Lemma count_undone a : undone_count a ≤ length (a_fibers a).
Proof. apply length_filter. Qed.
Lemma count_active a : active_count a ≤ length (a_fibers a).
Proof. apply length_filter. Qed.

Lemma run_reconcile_start `{Platform} k a :
  idle a → run (requestReconcile (S k)) a = run (reconcile_loop (requestReconcile k) k) (with_reconcile true true true a).
Proof.
  intros (H1 & H2 & H3). cbn [requestReconcile]. rewrite run_bind, run_atomic.
  unfold admit_reconcile. rewrite H1, H2. cbn [orb fst snd]. unfold reconcile. rewrite run_bind, run_await.
  cbn [a_reconcileMu with_reconcile]. by rewrite H3.
Qed.

Section requests.
Context `{Platform} (n : nat).
Local Abbreviation request := (requestReconcile (S (S n))).

Lemma run_request (P : App → Prop) (count : App → nat) a :
  (∀ f a, wf a → noting false true true a → P a → f ∈ a_fibers a →
    ∃ a' b, run (step (requestReconcile (S n)) f) a = Some (a', Ok b) ∧ wf a' ∧ noting false true true a' ∧ P a' ∧ roots a a' ∧
      (b = false → a' = a ∧ stable a f) ∧ (b = true → count a' < count a)) →
  (∀ m r d a, P a → P (with_reconcile m r d a)) →
  (∀ m r d a, count (with_reconcile m r d a) = count a) →
  count a ≤ n → idle a → wf a → P a →
  ∃ a', run request a = Some (a', Ok tt) ∧ idle a' ∧ wf a' ∧ P a' ∧ settled a' ∧ roots a a'.
Proof.
  intros Hstep HP Hc Hle Hi Hwf Ha. rewrite run_reconcile_start by done.
  destruct (run_reconcile_loop n P count Hstep HP Hc (S n) (with_reconcile true true true a))
    as (a' & Hrun & Hwf' & HP' & Hs & Hrt & Hcl).
  - rewrite Hc. lia.
  - by apply wf_flags.
  - by destruct Hi.
  - by apply HP.
  - rewrite Hrun. eexists. split; [done|]. split; [done|]. split; [by apply wf_flags|]. split; [by apply HP|]. split; [by apply settled_flags|]. by destruct Hrt.
Qed.

Lemma run_request_rising a :
  length (a_fibers a) ≤ n → idle a → wf a → rising a → aged a →
  ∃ a', run request a = Some (a', Ok tt) ∧ idle a' ∧ wf a' ∧ aged a' ∧ settled a' ∧ roots a a'.
Proof.
  intros Hle Hi Hwf Hr Hag.
  destruct (run_request (λ a, rising a ∧ aged a) undone_count a) as (a' & Hrun & Hi' & Hwf' & [_ Hag'] & Hs & Hrt); try done.
  - intros f b. apply step_rising.
  - intros m r d b [? ?]. split; [by apply rising_flags|done].
  - apply undone_flags.
  - pose proof (count_undone a). lia.
  - exists a'. split_and!; done.
Qed.

Lemma run_request_falling a :
  length (a_fibers a) ≤ n → idle a → wf a → falling a → aged a →
  ∃ a', run request a = Some (a', Ok tt) ∧ idle a' ∧ wf a' ∧ aged a' ∧ settled a' ∧ roots a a'.
Proof.
  intros Hle Hi Hwf Hr Hag.
  destruct (run_request (λ a, falling a ∧ aged a) active_count a) as (a' & Hrun & Hi' & Hwf' & [_ Hag'] & Hs & Hrt); try done.
  - intros f b. apply step_falling.
  - intros m r d b [? ?]. split; [by apply falling_flags|done].
  - pose proof (count_active a). lia.
  - exists a'. split_and!; done.
Qed.

(** ** Requests that find nothing to do *)

(** All registered fibers at rest, whatever is going on with [f], which is not
    one of them. *)
Definition at_rest (f : nat) (a : App) : Prop :=
  (f ∉ a_fibers a) ∧ state_of a f ≠ StateActive ∧
  ∀ g, g ∈ a_fibers a → fb_removed (fiber_of a g) = false ∧ stable a g ∧
    state_of a g ≠ StateLoading ∧ state_of a g ≠ StateUnloading.
Definition resting (f : nat) (a : App) : Prop := idle a ∧ at_rest f a.

Lemma step_resting req f a g : at_rest f a → g ∈ a_fibers a → run (step req g) a = Some (a, Ok false).
Proof.
  intros (_ & _ & Hall) Hg. destruct (Hall g Hg) as (Hr & Hst & Hl & Hu). unfold stable in Hst.
  assert (Hbegin : begin_step g a = (a, Nothing)).
  { unfold begin_step. cbv zeta. rewrite Hr. unfold state_of in *.
    destruct (resolveTargetLocked a g) as [t|], (fb_state (fiber_of a g)); try done.
    - by destruct Hst as [[?|?] _].
    - destruct Hst as [_ E]. by rewrite (bool_decide_true _ (eq_sym E)).
    - destruct Hst as [_ E]. by rewrite (bool_decide_true _ (eq_sym E)). }
  unfold step. by rewrite run_bind, run_atomic, Hbegin.
Qed.

Lemma steps_resting req a fs b :
  (∀ g, g ∈ fs → run (step req g) a = Some (a, Ok false)) → run (steps req fs b) a = Some (a, Ok b).
Proof.
  induction fs as [|g fs IH]; intros Hall; cbn [steps]; [done|].
  rewrite run_bind, Hall by set_solver. rewrite orb_false_r. apply IH. intros h Hh. apply Hall. set_solver.
Qed.

Lemma run_request_resting f a :
  resting f a → run request a = Some (with_reconcile false false false a, Ok tt).
Proof.
  intros Hres. rewrite run_reconcile_start by apply Hres.
  cbn [reconcile_loop]. rewrite run_bind, run_modify, run_bind. unfold pass. rewrite run_bind, run_reads.
  set (a1 := with_reconcile _ _ false _).
  rewrite (steps_resting (requestReconcile (S n)) a1); [done|].
  intros g Hg. apply (step_resting _ f); [|done]. destruct Hres as (_ & H1 & H2 & H3). split_and!; [done..|].
  intros h Hh. destruct (H3 h Hh) as (? & ? & ? & ?). split_and!; try done. by apply (stable_ext a).
Qed.
End requests.

(** ** What the root may change *)

(** The root's bindings, scope and disposers; nothing of a fiber. *)
Record rooted (a a' : App) : Prop := {
  ro_heap : a_heap a' = a_heap a;
  ro_fibers : a_fibers a' = a_fibers a;
  ro_store ref b : b_provider b ≠ None → a_store a' !! ref = Some b ↔ a_store a !! ref = Some b;
  ro_ctxs c : c ≠ root → a_ctxs a' !! c = a_ctxs a !! c;
  ro_root : is_Some (a_ctxs a' !! root) ∧ cx_owner (ctx_of a' root) = None;
  ro_next : a_next a ≤ a_next a';
  ro_cells i x : a_cells a !! i = Some x → Once i ∉ cx_stack (ctx_of a root) → a_cells a' !! i = Some x;
  ro_fresh i x : a_cells a' !! i = Some x → i < a_next a';
  ro_stack i : Once i ∈ cx_stack (ctx_of a' root) → (Once i ∈ cx_stack (ctx_of a root) ∨ a_next a ≤ i) ∧
    ∃ x, a_cells a' !! i = Some x ∧ ∀ p ref, ce_inverse x = Withdraw p ref → p = None;
}.

Lemma rooted_wf a a' : wf a → rooted a a' → wf a'.
Proof.
  intros [Hb Hst Hrm Hkp] [R1 R2 R3 R4 R5 R6 R7 R8 R9]. pose proof Hb as [B1 B2 B3 B4 B5 B6 B7 B8 B9 B10].
  assert (Hfo : ∀ g, fiber_of a' g = fiber_of a g) by (intros g; by apply fiber_same; rewrite R1).
  assert (Hctx : ∀ c, c ≠ root → ctx_of a' c = ctx_of a c) by (intros c Hc; unfold ctx_of; by rewrite R4).
  assert (Hlow : ∀ c i, Once i ∈ cx_stack (ctx_of a c) → i < a_next a).
  { intros c i Hi. destruct (B8 c i Hi) as (x & Hx & _). by eapply B3. }
  assert (Hcell : ∀ c i x, c ≠ root → Once i ∈ cx_stack (ctx_of a c) → a_cells a !! i = Some x → a_cells a' !! i = Some x).
  { intros c i x Hc Hi Hx. apply R7; [done|]. intros Hi'. by apply Hc, (B9 c root i). }
  assert (Hnr : ∀ g c, is_Some (a_heap a !! g) → fb_ctx (fiber_of a g) = Some c → c ≠ root).
  { intros g c Hg Hc ->. destruct (B7 g root Hg Hc) as (_ & Ho & _). destruct B4 as [_ Ho']. congruence. }
  split; [split|..].
  - intros g. rewrite R1. intros Hg%B1. lia.
  - intros c. destruct (decide (c = root)) as [->|Hne]; [intros _; destruct B4 as [Hr%B2 _]; lia|].
    rewrite R4 by done. intros Hc%B2. lia.
  - done.
  - done.
  - by rewrite R2.
  - intros g. rewrite R2, R1, Hfo. apply B6.
  - intros g c. rewrite R1, Hfo. intros Hg Hc. pose proof (Hnr g c Hg Hc). rewrite R4, Hctx by done. by apply B7.
  - intros c i. destruct (decide (c = root)) as [->|Hne].
    + intros Hi. destruct (R9 i Hi) as (_ & x & Hx & Hp). exists x. destruct R5 as [_ ->]. done.
    + rewrite Hctx by done. intros Hi. destruct (B8 c i Hi) as (x & Hx & ? & ?). exists x. split; [by eapply Hcell|done].
  - intros c c' i. destruct (decide (c = root)) as [->|Hn], (decide (c' = root)) as [->|Hn']; [done|..].
    + rewrite (Hctx c') by done. intros Hi Hi'. destruct (R9 i Hi) as ([H1|H1] & _); [by apply (B9 root c' i)|].
      apply Hlow in Hi'. lia.
    + rewrite (Hctx c) by done. intros Hi' Hi. destruct (R9 i Hi) as ([H1|H1] & _); [by apply (B9 c root i)|].
      apply Hlow in Hi'. lia.
    + rewrite !Hctx by done. apply B9.
  - intros ref b p Hr Hp. rewrite R1. eapply B10; [|done]. apply R3; [congruence|done].
  - intros g. rewrite R1. intros Hg. specialize (Hst g Hg). unfold status, state_of in *. rewrite Hfo.
    assert (Hub : unbound g a → unbound g a').
    { intros Hu ref b Hr Hp. apply (Hu ref b); [|done]. apply R3; [congruence|done]. }
    assert (Hbd : ∀ c, c ≠ root → bound g c a → bound g c a').
    { intros c Hc Hu ref b Hr Hp. rewrite Hfo, Hctx by done. destruct (Hu ref b) as (? & i & Hi & Hx); [|done|].
      - apply R3; [congruence|done].
      - split; [done|]. exists i. split; [done|by eapply Hcell]. }
    destruct (fb_state (fiber_of a g)); try done.
    + destruct Hst as [Hu Hd]. split; [auto|]. intros c Hc. rewrite Hctx by eauto. by apply Hd.
    + destruct Hst as (c & Hc & Hd & Hu). exists c. rewrite Hctx by eauto. eauto.
    + destruct Hst as (c & Hc & Hd & Hu). exists c. rewrite Hctx by eauto. eauto.
    + destruct Hst as [Hu Hd]. split; [auto|]. intros c Hc. rewrite Hctx by eauto. by apply Hd.
  - intros g. unfold state_of. rewrite R1, Hfo. apply Hrm.
  - intros g. unfold state_of. rewrite R1, Hfo. apply Hkp.
Qed.

Lemma rooted_trans a1 a2 a3 : wf a1 → rooted a1 a2 → rooted a2 a3 → rooted a1 a3.
Proof.
  intros Hwf [A1 A2 A3 A4 A5 A6 A7 A8 A9] [C1 C2 C3 C4 C5 C6 C7 C8 C9]. split; try done; try congruence.
  - intros ref b Hp. by rewrite C3, A3.
  - intros c Hc. by rewrite C4, A4.
  - lia.
  - intros i x Hi Hn. apply C7; [by apply A7|]. intros [[?|?] _]%A9; [done|].
    apply (wb_cells _ (wf_is_base _ Hwf)) in Hi. lia.
  - intros i Hi. destruct (C9 i Hi) as ([[[?|?] _]%A9|?] & ?); split; auto. right. lia.
Qed.

(** The root's scope: open, unconfined, with a disposer for each binding. *)
Definition root_ok (a : App) : Prop :=
  cx_disposed (ctx_of a root) = false ∧ cx_injects (ctx_of a root) = None ∧ cx_provides (ctx_of a root) = None ∧
  (∀ ref b, a_store a !! ref = Some b → b_provider b = None →
    ∃ i, Once i ∈ cx_stack (ctx_of a root) ∧ a_cells a !! i = Some (mkCell (Withdraw None ref) NotRun)) ∧
  (∀ i x, Once i ∈ cx_stack (ctx_of a root) → a_cells a !! i = Some x → ce_once x ≠ Running).

Lemma roots_root_ok a a' : wf a → roots a a' → root_ok a → root_ok a'.
Proof.
  intros Hwf Hr (H1 & H2 & H3 & H4 & H5). pose proof (roots_ctx _ _ Hr) as Hc.
  unfold root_ok. rewrite Hc. split_and!; try done.
  - intros ref b Hb Hp. apply (rt_store _ _ Hr) in Hb; [|done]. destruct (H4 ref b Hb Hp) as (i & Hi & Hx).
    exists i. split; [done|]. by apply (rt_cells _ _ Hr).
  - intros i x Hi Hx. destruct (wb_stack _ (wf_is_base _ Hwf) root i Hi) as (y & Hy & _).
    rewrite (rt_cells _ _ Hr i y Hi Hy) in Hx. simplify_eq. by eapply H5.
Qed.

(** A runtime between two operations. *)
Record good (a : App) : Prop := {
  gd_wf : wf a;
  gd_idle : idle a;
  gd_settled : settled a;
  gd_aged : aged a;
  gd_root : root_ok a;
}.

Lemma good_New : good App_New.
Proof.
  split; [apply wf_New|done|intros f Hf; by apply elem_of_nil in Hf|intros f ref p cf Hf; by apply elem_of_nil in Hf|].
  split_and!; done.
Qed.

(** ** Registration *)

Section registering.
Context (comp : Component) (cfg : any) (a : App).
Local Abbreviation f := (a_next a).
Local Abbreviation a1 := (register comp cfg a).1.

Lemma registered_fiber g : fiber_of a1 g = if decide (g = f) then mkFiber comp cfg None StateInactive None ∅ false else fiber_of a g.
Proof. apply (fiber_of_put f _ a g). Qed.

Lemma registered_heap g : is_Some (a_heap a1 !! g) ↔ g = f ∨ is_Some (a_heap a !! g).
Proof.
  simpl. destruct (decide (g = f)) as [->|Hne]; [rewrite lookup_insert_eq; naive_solver|].
  rewrite lookup_insert_ne by done. naive_solver.
Qed.

Lemma registered_wf : wf a → wf a1.
Proof.
  intros [Hb Hst Hrm Hkp]. pose proof Hb as [B1 B2 B3 B4 B5 B6 B7 B8 B9 B10].
  assert (Hnew : ¬ is_Some (a_heap a !! f)) by (intros Hs%B1; lia).
  assert (Hnf : f ∉ a_fibers a) by (intros [Hs _]%B6; done).
  split; [split|..]; try done.
  - intros g [->|Hg%B1]%registered_heap; simpl; lia.
  - intros c Hc%B2. simpl. lia.
  - intros i x Hi%B3. simpl. lia.
  - simpl. apply NoDup_app. split_and!; [done| |apply NoDup_singleton]. set_solver.
  - intros g. rewrite registered_heap, registered_fiber. simpl. rewrite elem_of_app, list_elem_of_singleton, B6.
    destruct (decide (g = f)) as [->|Hne]; naive_solver.
  - intros g c Hg. rewrite registered_fiber. destruct (decide (g = f)) as [->|Hne]; [done|].
    apply B7. apply registered_heap in Hg as [?|?]; done.
  - intros ref b p Hr Hp. apply registered_heap. right. by eapply B10.
  - intros g Hg. unfold status, state_of, bound. rewrite registered_fiber. destruct (decide (g = f)) as [->|Hne]; simpl.
    + split; [|done]. intros ref b Hr Hp. by apply Hnew, (B10 ref b).
    + apply Hst. apply registered_heap in Hg as [?|?]; done.
  - intros g Hg. unfold state_of. rewrite registered_fiber. destruct (decide (g = f)) as [->|Hne]; [done|].
    apply Hrm. apply registered_heap in Hg as [?|?]; done.
  - intros g Hg. unfold state_of. rewrite registered_fiber. destruct (decide (g = f)) as [->|Hne]; [done|].
    apply Hkp. apply registered_heap in Hg as [?|?]; done.
Qed.

Lemma registered_rising : wf a → settled a → aged a → rising a1 ∧ aged a1.
Proof.
  intros Hwf Hs Hag. apply settled_both in Hs as [Hr _]. pose proof (wf_is_base _ Hwf) as Hb.
  assert (Hnew : ¬ is_Some (a_heap a !! f)) by (intros Hs%(wb_heap _ Hb); lia).
  assert (Hoff : offers a a1).
  { intros ref b Hrb Ha. split; [done|]. unfold available, state_of in *. destruct (b_provider b) as [p|] eqn:Hp; [|done].
    rewrite registered_fiber, decide_False; [done|]. intros ->. by apply Hnew, (wb_prov _ Hb ref b). }
  assert (Hin : ∀ g, g ∈ a_fibers a1 → g ≠ f → g ∈ a_fibers a).
  { intros g. simpl. rewrite elem_of_app, list_elem_of_singleton. naive_solver. }
  split.
  - intros g Hg. unfold state_of. rewrite registered_fiber. destruct (decide (g = f)) as [->|Hne]; [done|].
    intros Ha. apply (resolve_mono a); [done|by rewrite registered_fiber, decide_False|]. by apply Hr; [apply Hin|].
  - intros g ref p cf Hg. unfold state_of. rewrite registered_fiber. destruct (decide (g = f)) as [->|Hne]; [done|].
    intros Ha Ht Hc. destruct (Hag g ref p cf) as (cp & Hcp & Hlt); [by apply Hin|done..|].
    exists cp. rewrite registered_fiber, decide_False; [done|]. intros ->. unfold fiber_of in Hcp.
    apply Hnew. destruct (a_heap a !! f); [by eexists|done].
Qed.
End registering.

(** Fibers that were removed are down. *)
Definition gone (f : nat) (a : App) : Prop := is_Some (a_heap a !! f) → fb_removed (fiber_of a f) = true → state_of a f = StateInactive.

Lemma roots_gone a a' f : roots a a' → gone f a → gone f a'.
Proof.
  intros Hr Hg Hh Ht. apply (rt_heap _ _ Hr) in Hh. rewrite (rt_flag _ _ Hr) in Ht.
  unfold state_of. rewrite (rt_removed _ _ Hr) by done. by apply Hg.
Qed.

Lemma good_after a a' : wf a → root_ok a → idle a' → wf a' → aged a' → settled a' → roots a a' → good a'.
Proof. intros. split; try done. by apply (roots_root_ok a). Qed.

Lemma run_Use `{Platform} n comp cfg a :
  good a → length (a_fibers a) < n →
  ∃ a' r, run (App_Use (S (S n)) comp cfg) a = Some (a', r) ∧ good a' ∧
    (∀ g, gone g a → gone g a') ∧
    match r with
    | Ok f => a_fibers a' = a_fibers a ++ [f] ∧ fb_comp (fiber_of a' f) = comp
    | Err _ => a' = a ∧ (c_Name comp = EmptyString ∨ c_Apply comp = None)
    end.
Proof.
  intros Hg Hn. pose proof Hg as [Hwf Hi Hs Hag Hro]. unfold App_Use. rewrite run_bind, run_guard.
  case_bool_decide as Hname; [by eexists _, _; split; [done|]; auto|].
  destruct (c_Apply comp) as [apply|] eqn:Ha; [|by eexists _, _; split; [done|]; auto].
  rewrite run_bind, run_atomic.
  destruct (registered_rising comp cfg a Hwf Hs Hag) as [Hr1 Hag1].
  destruct (run_request_rising n (register comp cfg a).1) as (a' & Hrun & Hi' & Hwf' & Hag' & Hs' & Hrt);
    [simpl; rewrite length_app; simpl; lia|done|by apply registered_wf|done..|].
  rewrite run_bind, Hrun, run_ret. eexists _, _. split; [done|]. split; [|split].
  - apply (good_after (register comp cfg a).1); try done. by apply registered_wf.
  - intros g Hgone. eapply roots_gone; [exact Hrt|]. intros Hh. unfold state_of. rewrite registered_fiber.
    destruct (decide (g = a_next a)) as [->|Hne]; [done|]. apply Hgone.
    by apply registered_heap in Hh as [?|?].
  - simpl. rewrite (rt_fibers _ _ Hrt), (rt_comp _ _ Hrt), registered_fiber, decide_True by done. done.
Qed.

(** ** Removal *)

Lemma remove_first_spec f fs :
  NoDup fs → NoDup (remove_first f fs) ∧ ∀ g, g ∈ remove_first f fs ↔ g ∈ fs ∧ g ≠ f.
Proof.
  induction fs as [|h fs IH]; simpl; [intros _; split; [constructor|set_solver]|].
  intros [Hh Hnd]%NoDup_cons. destruct (IH Hnd) as [IH1 IH2]. case_bool_decide as E.
  - subst h. split; [done|]. intros g. rewrite elem_of_cons. split; [|naive_solver]. intros Hg. split; [by right|].
    by intros ->.
  - split; [apply NoDup_cons; rewrite IH2; naive_solver|]. intros g. rewrite !elem_of_cons, IH2. naive_solver.
Qed.

Lemma remove_first_length f fs : length (remove_first f fs) ≤ length fs.
Proof. induction fs as [|h fs IH]; simpl; [done|]. case_bool_decide; simpl; lia. Qed.

Lemma resolve_both a a' f :
  offers a a' → offers a' a → fb_comp (fiber_of a' f) = fb_comp (fiber_of a f) →
  resolveTargetLocked a' f = resolveTargetLocked a f.
Proof.
  intros H1 H2 Hc. destruct (resolveTargetLocked a f) as [t|] eqn:E; [by apply (resolve_mono a)|].
  destruct (resolveTargetLocked a' f) as [t|] eqn:E'; [|done].
  apply (resolve_mono a' a) in E'; [congruence|done|done].
Qed.

(** What [f] binds while it is not active is nothing to the others. *)
Lemma rest_changed f a a' :
  at_rest f a → a_fibers a' = a_fibers a → (∀ g, g ≠ f → fiber_of a' g = fiber_of a g) →
  state_of a' f ≠ StateActive →
  (∀ ref b, b_provider b ≠ Some f → a_store a' !! ref = Some b ↔ a_store a !! ref = Some b) →
  at_rest f a'.
Proof.
  intros (Hf & Hs & Hall) Hfs Hfo Hs' Hst. split_and!; [by rewrite Hfs|done|].
  assert (Hav : ∀ b, available a' b = available a b ∨ b_provider b = Some f).
  { intros b. unfold available, state_of. destruct (b_provider b) as [p|]; [|by left].
    destruct (decide (p = f)) as [->|Hne]; [by right|]. left. by rewrite Hfo. }
  assert (Hno : ∀ x b, state_of x f ≠ StateActive → available x b = true → b_provider b ≠ Some f).
  { intros x b Hx Ha Hp. by apply Hx, (available_provider x b f). }
  assert (H1 : offers a a').
  { intros ref b Hr Ha. pose proof (Hno a b Hs Ha) as Hp. rewrite Hst by done. destruct (Hav b) as [->|?]; done. }
  assert (H2 : offers a' a).
  { intros ref b Hr Ha. pose proof (Hno a' b Hs' Ha) as Hp. rewrite <-Hst by done. destruct (Hav b) as [<-|?]; done. }
  intros g Hg. rewrite Hfs in Hg. assert (Hne : g ≠ f) by congruence.
  destruct (Hall g Hg) as (? & Hg2 & ? & ?). unfold stable, state_of in *.
  rewrite (resolve_both a a'), Hfo by (done || by rewrite Hfo). done.
Qed.

Lemma calm_resting `{Platform} n f : calm (Some f) (requestReconcile (S (S n))) (resting f).
Proof.
  split.
  - intros a Ha. eexists _, _, _. split; [by eapply run_request_resting|]. destruct Ha as ((Hc & _ & _) & Ha).
    split; [done|]. eapply rest_changed; [exact Ha|done..|apply Ha|done].
  - intros x a [Hi Ha]. split; [done|]. eapply rest_changed; [exact Ha|done..|apply Ha|done].
  - intros x a [Hi Ha]. split; [done|]. eapply rest_changed; [exact Ha|done..|apply Ha|done].
  - intros x a [Hi Ha]. split; [done|]. eapply rest_changed; [exact Ha|done..|apply Ha|done].
  - intros x a [Hi Ha]. split; [done|]. eapply rest_changed; [exact Ha|done..|apply Ha|done].
  - intros x a [Hi Ha] Hx. split; [done|]. eapply rest_changed; [exact Ha|done..|apply Ha|done].
Qed.

Section retiring.
Context `{Platform} (f : nat) (a : App) (Hwf : wf a) (Hf : f ∈ a_fibers a).
Local Abbreviation a1 := (retire f a).1.

(** The fiber as [Remove] marks it. *)
Definition retired_fiber (x : Fiber) : Fiber :=
  mkFiber (fb_comp x) (fb_cfg x) (fb_ctx x) (if bool_decide (fb_state x = StateActive) then StateUnloading else fb_state x)
    (fb_err x) (fb_target x) true.

Lemma retired_eq : retire f a = (put_fiber f (retired_fiber (fiber_of a f)) (with_fibers (remove_first f (a_fibers a)) a), Ok tt).
Proof. unfold retire. by rewrite bool_decide_true. Qed.

Lemma retired_of g : fiber_of a1 g = if decide (g = f) then retired_fiber (fiber_of a f) else fiber_of a g.
Proof. rewrite retired_eq. cbn [fst]. by rewrite fiber_of_put. Qed.

Lemma retired_state : state_of a1 f ≠ StateActive.
Proof. unfold state_of. rewrite retired_of, decide_True by done. simpl. by case_bool_decide. Qed.

Lemma retired_fibers g : g ∈ a_fibers a1 ↔ g ∈ a_fibers a ∧ g ≠ f.
Proof. rewrite retired_eq. simpl. apply remove_first_spec, Hwf. Qed.

Lemma retired_wf : wf a1.
Proof.
  pose proof Hwf as [Hb Hst Hrm Hkp]. pose proof Hb as [B1 B2 B3 B4 B5 B6 B7 B8 B9 B10].
  pose proof Hf as [Hh Hr]%B6.
  assert (Hdom : ∀ g, is_Some (a_heap a1 !! g) ↔ is_Some (a_heap a !! g)).
  { intros g. rewrite retired_eq. simpl. destruct (decide (g = f)) as [->|Hne]; [rewrite lookup_insert_eq; naive_solver|].
    by rewrite lookup_insert_ne. }
  assert (Hsame : a_store a1 = a_store a ∧ a_ctxs a1 = a_ctxs a ∧ a_cells a1 = a_cells a ∧ a_next a1 = a_next a).
  { by rewrite retired_eq. }
  destruct Hsame as (S1 & S2 & S3 & S4).
  assert (Hctx : ∀ c, ctx_of a1 c = ctx_of a c) by (intros c; unfold ctx_of; by rewrite S2).
  split; [split|..].
  - intros g. rewrite Hdom, S4. apply B1.
  - intros c. rewrite S2, S4. apply B2.
  - intros i x. rewrite S3, S4. apply B3.
  - rewrite S2, Hctx. apply B4.
  - rewrite retired_eq. apply remove_first_spec, B5.
  - intros g. rewrite retired_fibers, Hdom, retired_of, B6. destruct (decide (g = f)) as [->|Hne]; simpl; naive_solver.
  - intros g c. rewrite Hdom, S2, Hctx, retired_of. destruct (decide (g = f)) as [->|Hne]; apply B7.
  - intros c i. rewrite Hctx, S3. apply B8.
  - intros c c' i. rewrite !Hctx. apply B9.
  - intros ref b p. rewrite S1, Hdom. apply B10.
  - intros g Hg%Hdom. specialize (Hst g Hg). rewrite retired_eq. cbn [fst].
    destruct (decide (g = f)) as [->|Hne]; [|by apply put_fiber_status].
    unfold status, state_of, bound in *. rewrite fiber_of_put, decide_True by done. cbn [fb_state retired_fiber].
    case_bool_decide as E; [by rewrite E in Hst|done].
  - intros g Hg%Hdom. destruct (decide (g = f)) as [->|Hne]; [intros _; apply retired_state|].
    unfold state_of. rewrite retired_of, decide_False by done. by apply Hrm.
  - intros g Hg%Hdom. unfold state_of. rewrite retired_of. destruct (decide (g = f)) as [->|Hne]; [done|]. by apply Hkp.
Qed.

Lemma retired_falling : settled a → aged a → falling a1 ∧ aged a1.
Proof.
  intros Hs Hag. apply settled_both in Hs as [_ Hl].
  assert (Hoff : offers a1 a).
  { intros ref b Hr Ha.
    assert (Hp : b_provider b ≠ Some f) by (intros Hp; by apply retired_state, (available_provider a1 b f)).
    rewrite retired_eq in Hr. split; [done|]. unfold available, state_of in *. destruct (b_provider b) as [p|]; [|done].
    rewrite retired_of, decide_False in Ha by congruence. done. }
  split.
  - intros g t [Hg Hne]%retired_fibers Ht. unfold state_of. rewrite retired_of, decide_False by done.
    apply Hl; [done|]. apply (resolve_mono a1); [done| |done]. by rewrite retired_of, decide_False.
  - intros g ref p cf [Hg Hne]%retired_fibers. unfold state_of. rewrite retired_of, decide_False by done.
    intros Ha Ht Hc. destruct (Hag g ref p cf Hg Ha Ht Hc) as (cp & Hcp & Hlt). exists cp. split; [|done].
    rewrite retired_of. destruct (decide (p = f)) as [->|?]; done.
Qed.

Lemma retired_root : root_ok a → root_ok a1.
Proof. intros Hr. by rewrite retired_eq. Qed.
End retiring.

Lemma unloaded_root_ok f a a' : wf a → unloaded f a a' → root_ok a → root_ok a'.
Proof.
  intros Hwf Hl (H1 & H2 & H3 & H4 & H5). destruct (wb_root _ (wf_is_base _ Hwf)) as [_ Ho].
  assert (Hc : ctx_of a' root = ctx_of a root) by (unfold ctx_of; by rewrite (ul_ctxs _ _ _ Hl) by congruence).
  unfold root_ok. rewrite Hc. split_and!; try done.
  - intros ref b Hb Hp. apply (ul_store _ _ _ Hl) in Hb; [|congruence]. destruct (H4 ref b Hb Hp) as (i & Hi & Hx).
    exists i. split; [done|]. apply (ul_cells _ _ _ Hl root); [congruence|done..].
  - intros i x Hi Hx. destruct (wb_stack _ (wf_is_base _ Hwf) root i Hi) as (y & Hy & _).
    rewrite (ul_cells _ _ _ Hl root i y) in Hx by (congruence || done). simplify_eq. by eapply H5.
Qed.

Lemma unloaded_aged f a a' : (f ∉ a_fibers a) → unloaded f a a' → aged a → aged a'.
Proof.
  intros Hf Hl Hag g ref p cf Hg. rewrite (ul_fibers _ _ _ Hl) in Hg. assert (Hne : g ≠ f) by congruence.
  unfold state_of. rewrite (fiber_same a a' g) by by apply Hl. intros Ha Ht Hc.
  destruct (Hag g ref p cf Hg Ha Ht Hc) as (cp & Hcp & Hlt). exists cp. split; [|done].
  destruct (decide (p = f)) as [->|Hnp]; [by rewrite (ul_ctx _ _ _ Hl)|].
  by rewrite (fiber_same a a' p) by by apply Hl.
Qed.

Lemma good_at_rest f a : good a → (f ∉ a_fibers a) → state_of a f ≠ StateActive → at_rest f a.
Proof.
  intros [Hwf Hi Hs Hag Hro] Hf Hst. split_and!; [done..|]. intros g Hg.
  pose proof Hg as [Hh Hr]%(wb_reg _ (wf_is_base _ Hwf)). pose proof (wf_status _ Hwf g Hh) as Hg'. split_and!.
  - done.
  - by apply Hs.
  - intros E. unfold status in Hg'. by rewrite E in Hg'.
  - by apply (wf_kept _ Hwf).
Qed.

(** [forceUnload] of a fiber that is not registered any more. *)
Lemma run_forceUnload `{Platform} n f a :
  good a → is_Some (a_heap a !! f) → (f ∉ a_fibers a) → state_of a f ≠ StateActive →
  ∃ a', run (forceUnload (S (S n)) f) a = Some (a', Ok tt) ∧ good a' ∧ a_fibers a' = a_fibers a ∧
    state_of a' f = StateInactive ∧ (∀ g, g ≠ f → gone g a → gone g a') ∧ a_log a' = a_log a ++ teardown_log a f.
Proof.
  intros Hg Hh Hf Hs. pose proof Hg as [Hwf Hi Hset Hag Hro]. unfold forceUnload. rewrite run_bind, run_atomic.
  unfold begin_unload. cbv zeta. case_bool_decide as E; cbn [fst snd].
  { eexists. split; [done|]. split_and!; try done. unfold teardown_log.
    pose proof (wf_status _ Hwf f Hh) as Hst. unfold status, state_of in Hst. rewrite E in Hst. destruct Hst as [_ Hd].
    destruct (fb_ctx (fiber_of a f)) as [c|]; [rewrite Hd by done|]; by rewrite app_nil_r. }
  set (x := mkFiber _ _ _ StateUnloading _ ∅ _).
  assert (Hr1 : resting f (put_fiber f x a)).
  { split; [done|]. apply (rest_changed f a); try done; [by apply good_at_rest|..].
    - intros g Hne. by rewrite fiber_of_put, decide_False.
    - unfold state_of. by rewrite fiber_of_put, decide_True. }
  destruct (run_teardown f (requestReconcile (S (S n))) (resting f) (calm_resting n f) a x Hwf Hh)
    as (a2 & Hrun & [Hi2 Hr2] & Hf2 & Hwf2 & Hl); [done..|].
  change (fb_ctx (fiber_of a f)) with (fb_ctx x). rewrite run_bind, Hrun, run_modify.
  assert (Hend : end_unload f a2 = put_fiber f (set_state StateInactive x) a2).
  { unfold end_unload, state_of. by rewrite Hf2. }
  rewrite Hend. eexists. split; [done|]. split_and!; [|apply Hl|apply Hl| |apply Hl].
  2:{ intros g Hne Hgone Hh'. unfold state_of. rewrite (fiber_same a _ g) by by apply Hl. apply Hgone.
      by rewrite (ul_other _ _ _ Hl) in Hh'. }
  assert (Hr3 : at_rest f (put_fiber f (set_state StateInactive x) a2)).
  { apply (rest_changed f a2); try done.
    - intros g Hne. by rewrite fiber_of_put, decide_False.
    - unfold state_of. by rewrite fiber_of_put, decide_True. }
  split; [done|done| |by apply (unloaded_aged f a)|by apply (unloaded_root_ok f a)].
  intros g Hg'. destruct Hr3 as (_ & _ & Hall). by apply Hall.
Qed.

Lemma run_Remove `{Platform} n f a :
  good a → length (a_fibers a) ≤ n →
  ∃ a' r, run (App_Remove (S (S n)) f) a = Some (a', r) ∧ good a' ∧
    (∀ g, gone g a → gone g a') ∧
    if bool_decide (f ∈ a_fibers a)
    then r = Ok tt ∧ a_fibers a' = remove_first f (a_fibers a) ∧ state_of a' f = StateInactive
    else a' = a ∧ is_ok r = false.
Proof.
  intros Hg Hn. pose proof Hg as [Hwf Hi Hs Hag Hro]. unfold App_Remove. rewrite run_bind, run_call.
  case_bool_decide as Hf.
  - rewrite (retired_eq f a Hf). cbn [fst snd].
    destruct (retired_falling f a Hwf Hf Hs Hag) as [Hr1 Hag1]. pose proof (retired_wf f a Hwf Hf) as Hwf1.
    pose proof (retired_root f a Hf Hro) as Hro1. pose proof (retired_state f a Hf) as Hst1.
    pose proof (retired_fibers f a Hwf Hf) as Hfs1. pose proof (retired_of f a Hf f) as Hfo1.
    rewrite decide_True in Hfo1 by done. rewrite (retired_eq f a Hf) in *. cbn [fst] in *. set (a1 := put_fiber _ _ _) in *.
    destruct (run_request_falling n a1) as (a2 & Hrun & Hi' & Hwf' & Hag' & Hs' & Hrt);
      [pose proof (remove_first_length f (a_fibers a)); simpl; lia|done..|].
    rewrite run_bind, Hrun. assert (Hg2 : good a2) by (by apply (good_after a1)).
    assert (Hrem : fb_removed (fiber_of a1 f) = true) by by rewrite Hfo1.
    destruct (run_forceUnload n f a2 Hg2) as (a3 & Hrun3 & Hg3 & Hfs3 & Hst3 & Hgo3 & _).
    + apply (rt_heap _ _ Hrt). simpl. rewrite lookup_insert_eq. by eexists.
    + rewrite (rt_fibers _ _ Hrt), Hfs1. naive_solver.
    + unfold state_of. by rewrite (rt_removed _ _ Hrt) by done.
    + rewrite Hrun3. eexists _, _. split; [done|]. split_and!; try done; [|by rewrite Hfs3, (rt_fibers _ _ Hrt)].
      intros g Hgone. destruct (decide (g = f)) as [->|Hne]; [by intros _ _|]. apply Hgo3; [done|].
      apply (roots_gone a1); [done|]. intros Hh. unfold state_of, a1. rewrite fiber_of_put, decide_False by done.
      apply Hgone. simpl in Hh. by rewrite lookup_insert_ne in Hh.
  - unfold retire. rewrite bool_decide_false by done. eexists _, _. split; [done|]. done.
Qed.

(** ** The root context *)

Lemma rooted_settled a a' : a_store a' = a_store a → rooted a a' → settled a → settled a'.
Proof. intros Hs Hr Hset f Hf. rewrite (ro_fibers _ _ Hr) in Hf. apply (stable_ext a); [done|apply Hr|by apply Hset]. Qed.

Lemma rooted_aged a a' : rooted a a' → aged a → aged a'.
Proof.
  intros Hr Hag f ref p cf. rewrite (ro_fibers _ _ Hr). unfold state_of.
  rewrite !(fiber_same a a') by by rewrite (ro_heap _ _ Hr). apply Hag.
Qed.

(** A disposer allocated for the root and put in its scope. *)
Section root_scope.
Context `{Platform} (request : go App unit) (fn : inverse) (a : App).
Context (Hwf : wf a) (Hdis : cx_disposed (ctx_of a root) = false)
  (Hfn : ∀ p ref, fn = Withdraw p ref → p = None).

Definition root_scoped : App :=
  let x := ctx_of a root in
  put_ctx root (mkContext (cx_owner x) (cx_injects x) (cx_provides x) (cx_stack x ++ [Once (a_next a)]) false)
    (onceDisposer fn a).1.

Lemma run_root_scope :
  run (d ← atomic (onceDisposer fn); scope_add request root d;; mret d) a = Some (root_scoped, Ok (Once (a_next a))).
Proof.
  rewrite run_bind, run_atomic, run_bind. unfold scope_add. rewrite run_bind, run_atomic. unfold begin_add.
  change (ctx_of (onceDisposer fn a).1 root) with (ctx_of a root). rewrite Hdis. done.
Qed.

Lemma root_scoped_ctx : ctx_of root_scoped root = mkContext (cx_owner (ctx_of a root)) (cx_injects (ctx_of a root))
  (cx_provides (ctx_of a root)) (cx_stack (ctx_of a root) ++ [Once (a_next a)]) false.
Proof. apply ctx_of_put_eq. Qed.

Lemma root_scoped_cells i x : a_cells a !! i = Some x → a_cells root_scoped !! i = Some x.
Proof.
  intros Hi. simpl. rewrite lookup_insert_ne; [done|]. apply (wb_cells _ (wf_is_base _ Hwf)) in Hi. lia.
Qed.

Lemma root_scoped_rooted : rooted a root_scoped.
Proof.
  pose proof (wf_is_base _ Hwf) as Hb. destruct (wb_root _ Hb) as [Hr Ho]. split; try done.
  - intros c Hc. simpl. by rewrite lookup_insert_ne.
  - rewrite root_scoped_ctx. simpl. rewrite lookup_insert_eq. split; [by eexists|done].
  - simpl. lia.
  - intros i x Hi _. by apply root_scoped_cells.
  - intros i x. simpl. intros [[<- _]|[_ Hi]]%lookup_insert_Some; [lia|]. apply (wb_cells _ Hb) in Hi. lia.
  - intros i. rewrite root_scoped_ctx. cbn [cx_stack].
    intros [Hi|Hi]%elem_of_app.
    + split; [by left|]. destruct (wb_stack _ Hb root i Hi) as (x & Hx & _ & Hp). rewrite Ho in Hp.
      exists x. split; [by apply root_scoped_cells|done].
    + apply list_elem_of_singleton in Hi. simplify_eq. split; [by right|]. exists (mkCell fn NotRun).
      split; [apply lookup_insert_eq|done].
Qed.

Lemma root_scoped_ok :
  cx_injects (ctx_of a root) = None → cx_provides (ctx_of a root) = None →
  (∀ ref b, a_store a !! ref = Some b → b_provider b = None → fn = Withdraw None ref ∨
    ∃ i, Once i ∈ cx_stack (ctx_of a root) ∧ a_cells a !! i = Some (mkCell (Withdraw None ref) NotRun)) →
  (∀ i x, Once i ∈ cx_stack (ctx_of a root) → a_cells a !! i = Some x → ce_once x ≠ Running) →
  root_ok root_scoped.
Proof.
  intros H1 H2 H3 H4. unfold root_ok. rewrite root_scoped_ctx. split_and!; [done..| |].
  - intros ref b Hb Hp. cbn [cx_stack].
    destruct (H3 ref b Hb Hp) as [E|(i & Hi & Hx)].
    + exists (a_next a). split; [set_solver|]. simpl. rewrite <-E. apply lookup_insert_eq.
    + exists i. split; [set_solver|by apply root_scoped_cells].
  - cbn [cx_stack]. intros i x [Hi|Hi]%elem_of_app Hx.
    + destruct (wb_stack _ (wf_is_base _ Hwf) root i Hi) as (y & Hy & _).
      rewrite (root_scoped_cells i y Hy) in Hx. simplify_eq. by eapply H4.
    + apply list_elem_of_singleton in Hi. simplify_eq. simpl in Hx. rewrite lookup_insert_eq in Hx. by simplify_eq.
Qed.
End root_scope.

Lemma run_root_Effect `{Platform} request label inv a :
  good a → ∃ a' d, run (Effect request root label inv) a = Some (a', Ok d) ∧ good a' ∧ a_fibers a' = a_fibers a ∧
    (∀ g, gone g a → gone g a').
Proof.
  intros [Hwf Hi Hs Hag (R1 & R2 & R3 & R4 & R5)]. unfold Effect. rewrite run_bind, run_modify.
  assert (Hwf1 : wf (emit (Did label) a)) by by destruct Hwf as [[] ? ? ?].
  assert (Hfn : ∀ p ref, Inverse inv = Withdraw p ref → p = None) by done.
  rewrite run_root_scope by done. pose proof (root_scoped_rooted _ _ Hwf1 R1 Hfn) as Hro.
  eexists _, _. split; [done|]. split; [|done]. split.
  - by eapply rooted_wf.
  - done.
  - eapply rooted_settled; [|exact Hro|]; [done|]. intros f Hf. by apply (stable_ext a), Hs.
  - eapply rooted_aged; [exact Hro|]. exact Hag.
  - apply root_scoped_ok; [done..| |done]. intros ref b Hb Hp. right. by eapply R4.
Qed.

Lemma run_root_Provide `{Platform} n k v a :
  good a → length (a_fibers a) ≤ n →
  ∃ a' r, run (Key_Provide (requestReconcile (S (S n))) k root v) a = Some (a', r) ∧ good a' ∧
    a_fibers a' = a_fibers a ∧ (∀ g, gone g a → gone g a') ∧
    match r with
    | Ok d => a_store a' !! key_ref k = Some (mkBind v None)
    | Err _ => a' = a ∧ is_Some (a_store a !! key_ref k)
    end.
Proof.
  intros Hg Hn. pose proof Hg as [Hwf Hi Hs Hag (R1 & R2 & R3 & R4 & R5)]. destruct (wb_root _ (wf_is_base _ Hwf)) as [Hr0 Ho].
  unfold Key_Provide. rewrite run_bind, run_call. unfold bind, requireProvided. rewrite R3. cbn [declared]. cbv zeta. rewrite Ho.
  destruct (a_store a !! key_ref k) as [b0|] eqn:Hst.
  { eexists _, _. split; [done|]. split_and!; try done. }
  set (a1 := with_store _ a).
  assert (Hro1 : rooted a a1).
  { split; try done; simpl.
    - intros ref b Hp. rewrite lookup_insert_Some. split; [intros [[<- <-]|[_ ?]]; done|].
      intros Hr. right. split; [congruence|done].
    - apply (wf_is_base _ Hwf).
    - intros i Hi'. split; [by left|]. destruct (wb_stack _ (wf_is_base _ Hwf) root i Hi') as (x & Hx & _ & Hp).
      rewrite Ho in Hp. eauto. }
  assert (Hoff : offers a a1).
  { intros ref b Hr Ha. split; [|done]. simpl. rewrite lookup_insert_ne by congruence. done. }
  destruct (run_request_rising n a1) as (a2 & Hrun & Hi2 & Hwf2 & Hag2 & Hs2 & Hrt);
    [done|done|by eapply rooted_wf| |by eapply rooted_aged|].
  { apply settled_both in Hs as [Hris _]. intros f Hf Ha. apply (resolve_mono a); [done..|]. by apply Hris. }
  rewrite run_bind, Hrun. pose proof (roots_ctx _ _ Hrt) as Hctx. change (ctx_of a1 root) with (ctx_of a root) in Hctx.
  assert (Hfn : ∀ p ref, Withdraw None (key_ref k) = Withdraw p ref → p = None) by (intros; congruence).
  pose proof (run_root_scope (requestReconcile (S (S n))) (Withdraw None (key_ref k)) a2) as Hsc.
  rewrite Hctx in Hsc. specialize (Hsc R1). rewrite Hsc.
  assert (Hdis2 : cx_disposed (ctx_of a2 root) = false) by by rewrite Hctx.
  pose proof (root_scoped_rooted (Withdraw None (key_ref k)) a2 Hwf2 Hdis2 Hfn) as Hro2.
  eexists _, _. split; [done|]. split_and!; [split|simpl; apply (rt_fibers _ _ Hrt)|intros g; apply (roots_gone a1 a2 g Hrt)|].
  - by eapply rooted_wf.
  - done.
  - by eapply rooted_settled; [|exact Hro2|].
  - by eapply rooted_aged.
  - apply root_scoped_ok; rewrite ?Hctx; try done.
    + intros ref b Hb Hp. apply (rt_store _ _ Hrt) in Hb; [|done]. simpl in Hb.
      apply lookup_insert_Some in Hb as [[<- _]|[Hne Hb]]; [by left|right].
      destruct (R4 ref b Hb Hp) as (i & Hi' & Hx). exists i. split; [done|]. by apply (rt_cells _ _ Hrt).
    + intros i x Hi' Hx. destruct (wb_stack _ (wf_is_base _ Hwf) root i Hi') as (y & Hy & _).
      rewrite (rt_cells _ _ Hrt i y) in Hx by done. simplify_eq. by eapply R5.
  - simpl. apply (rt_store _ _ Hrt); [done|]. apply lookup_insert_eq.
Qed.

(** A disposer of the root, called by whoever holds it. *)
Section root_disposal.
Context `{Platform} (i : nat) (inv : inverse) (a : App).
Context (Hwf : wf a) (Hin : Once i ∈ cx_stack (ctx_of a root)) (Hx : a_cells a !! i = Some (mkCell inv NotRun))
  (Hp : ∀ p ref, inv = Withdraw p ref → p = None).

(** The runtime while the disposer runs, before anybody reacts. *)
Definition undoing : App := apply_inverse inv (with_cells (<[i := mkCell inv Running]> (a_cells a)) a).

Lemma undoing_shape :
  a_heap undoing = a_heap a ∧ a_fibers undoing = a_fibers a ∧ a_ctxs undoing = a_ctxs a ∧ a_next undoing = a_next a ∧
  a_cells undoing = <[i := mkCell inv Running]> (a_cells a) ∧ (idle a → idle undoing).
Proof. unfold undoing, apply_inverse. destruct inv as [p ref|[l|]]; [rewrite withdraw_shape|..]; done. Qed.

Lemma undoing_store ref b :
  a_store undoing !! ref = Some b ↔ a_store a !! ref = Some b ∧ (inv = Withdraw None ref → b_provider b ≠ None).
Proof.
  unfold undoing, apply_inverse. destruct inv as [p r|[l|]]; [|simpl; naive_solver..].
  rewrite (Hp p r eq_refl). etransitivity; [apply withdraw_store|]. naive_solver.
Qed.

Lemma undoing_ctx c : ctx_of undoing c = ctx_of a c.
Proof. destruct undoing_shape as (_ & _ & E & _). unfold ctx_of. by rewrite E. Qed.
Lemma undoing_fiber g : fiber_of undoing g = fiber_of a g.
Proof. destruct undoing_shape as (E & _). apply fiber_same. by rewrite E. Qed.

Lemma undoing_rooted : rooted a undoing.
Proof.
  destruct undoing_shape as (S1 & S2 & S3 & S4 & S5 & _). pose proof (wf_is_base _ Hwf) as Hb.
  destruct (wb_root _ Hb) as [Hr0 Ho]. split; rewrite ?S1, ?S2, ?S3, ?S4, ?S5, ?undoing_ctx; try done.
  - intros ref b Hb'. rewrite undoing_store. naive_solver.
  - intros j y Hj Hnj. rewrite lookup_insert_ne by congruence. done.
  - intros j y [[<- _]|[_ Hj]]%lookup_insert_Some; by eapply (wb_cells _ Hb).
  - intros j Hj. split; [by left|]. destruct (wb_stack _ Hb root j Hj) as (y & Hy & _ & Hpy).
    rewrite Ho in Hpy. destruct (decide (j = i)) as [->|Hne].
    + rewrite lookup_insert_eq. eexists. split; [done|]. done.
    + rewrite lookup_insert_ne by done. eauto.
Qed.

Lemma undoing_falling : settled a → falling undoing.
Proof.
  intros [_ Hl]%settled_both f t. destruct undoing_shape as (S1 & S2 & _).
  assert (Hoff : offers undoing a).
  { intros ref b [Hr _]%undoing_store Ha. split; [done|]. unfold available, state_of in *.
    destruct (b_provider b) as [p|]; [|done]. by rewrite undoing_fiber in Ha. }
  rewrite S2. unfold state_of. rewrite undoing_fiber. intros Hf Ht. apply Hl; [done|].
  apply (resolve_mono undoing); [done| |done]. by rewrite undoing_fiber.
Qed.

Local Abbreviation react request :=
  (match inv with Withdraw _ _ => request | Inverse _ => Ret (Ok tt) end : go App unit).

Lemma run_undoing request :
  run (run_disposer request (Once i)) a =
    match run (react request) undoing with Some (w, Ok _) => Some (once_end i w, Ok tt) | r => r end.
Proof.
  unfold run_disposer. rewrite run_bind. cbn [run]. unfold once_begin. rewrite Hx. cbn [ce_once ce_inverse run].
  unfold undoing, apply_inverse. destruct inv as [p ref|[l|]]; unfold run_inverse; rewrite run_bind; [|done..].
  rewrite run_bind, run_modify. destruct (run _ _) as [[w [[]|e]]|]; done.
Qed.

Lemma run_react n :
  idle a → settled a → aged a → length (a_fibers a) ≤ n →
  ∃ a3, run (react (requestReconcile (S (S n)))) undoing = Some (a3, Ok tt) ∧
    idle a3 ∧ wf a3 ∧ aged a3 ∧ settled a3 ∧ roots undoing a3.
Proof.
  intros Hi Hs Hag Hn. destruct undoing_shape as (S1 & S2 & S3 & S4 & S5 & S6).
  assert (wf undoing) by (eapply rooted_wf; [done|apply undoing_rooted]).
  assert (aged undoing) by (eapply rooted_aged; [apply undoing_rooted|done]).
  assert (Hcase : (∃ p ref, inv = Withdraw p ref) ∨ ∃ l, inv = Inverse l) by (case inv; eauto).
  destruct Hcase as [(p & ref & E)|(l & E)].
  - assert (Hr : react (requestReconcile (S (S n))) = requestReconcile (S (S n))) by by rewrite E. rewrite Hr.
    apply run_request_falling; [by rewrite S2|by apply S6|done|by apply undoing_falling|done].
  - assert (Hr : react (requestReconcile (S (S n))) = Ret (Ok tt)) by by rewrite E. rewrite Hr.
    eexists. split; [done|]. split_and!; try done; [by apply S6..|].
    eapply rooted_settled; [|apply undoing_rooted|done]. unfold undoing, apply_inverse. rewrite E. by destruct l.
Qed.

(** The disposer returns: its cell is spent. *)
Lemma undone_root a3 :
  roots undoing a3 → wf a3 →
  a_cells a3 !! i = Some (mkCell inv Running) ∧ rooted a3 (once_end i a3) ∧ (root_ok a → root_ok (once_end i a3)).
Proof.
  intros Hrt Hwf3. destruct undoing_shape as (S1 & S2 & S3 & S4 & S5 & _).
  pose proof (roots_ctx _ _ Hrt) as Hctx. rewrite undoing_ctx in Hctx. pose proof (wf_is_base _ Hwf3) as Hb3.
  assert (Hkeep : ∀ j y, Once j ∈ cx_stack (ctx_of a root) → a_cells undoing !! j = Some y → a_cells a3 !! j = Some y).
  { intros j y Hj. apply (rt_cells _ _ Hrt). by rewrite undoing_ctx. }
  assert (Hrun3 : a_cells a3 !! i = Some (mkCell inv Running)).
  { apply Hkeep; [done|]. rewrite S5. apply lookup_insert_eq. }
  assert (Hend : once_end i a3 = with_cells (<[i := mkCell inv Done]> (a_cells a3)) a3).
  { unfold once_end. by rewrite Hrun3. }
  rewrite Hend. split_and!; [done| |].
  - destruct (wb_root _ Hb3) as [Hr3 Ho3]. split; try done.
    + intros j y Hj Hnj. simpl. rewrite lookup_insert_ne; [done|]. rewrite Hctx in Hnj. congruence.
    + intros j y. simpl. intros [[<- _]|[_ Hj]]%lookup_insert_Some; by eapply (wb_cells _ Hb3).
    + intros j Hj. split; [by left|]. destruct (wb_stack _ Hb3 root j Hj) as (y & Hy & _ & Hpy).
      rewrite Ho3 in Hpy. simpl. destruct (decide (j = i)) as [->|Hne].
      * rewrite lookup_insert_eq. eexists. split; [done|]. by simplify_eq/=.
      * rewrite lookup_insert_ne by done. eauto.
  - intros (R1 & R2 & R3 & R4 & R5). unfold root_ok. change (ctx_of (with_cells _ a3) root) with (ctx_of a3 root).
    rewrite Hctx. split_and!; try done.
    + intros ref b Hrb Hpb. apply (rt_store _ _ Hrt) in Hrb; [|done]. apply undoing_store in Hrb as [Hrb Hne].
      destruct (R4 ref b Hrb Hpb) as (j & Hj & Hy). exists j. split; [done|]. simpl.
      assert (j ≠ i) by (intros ->; simplify_eq; by apply Hne).
      rewrite lookup_insert_ne by done. apply Hkeep; [done|]. rewrite S5. by rewrite lookup_insert_ne.
    + intros j y Hj. simpl. intros [[<- <-]|[Hne Hy]]%lookup_insert_Some; [done|].
      destruct (wb_stack _ (wf_is_base _ Hwf) root j Hj) as (z & Hz & _).
      rewrite (Hkeep j z) in Hy; [simplify_eq; by eapply R5|done|]. rewrite S5. by rewrite lookup_insert_ne.
Qed.
End root_disposal.

Lemma run_root_dispose `{Platform} n i a :
  good a → length (a_fibers a) ≤ n → Once i ∈ cx_stack (ctx_of a root) →
  ∃ a', run (run_disposer (requestReconcile (S (S n))) (Once i)) a = Some (a', Ok tt) ∧ good a' ∧ a_fibers a' = a_fibers a ∧
    (∀ g, gone g a → gone g a') ∧
    ∀ ref b, a_cells a !! i = Some (mkCell (Withdraw None ref) NotRun) → a_store a' !! ref = Some b → b_provider b ≠ None.
Proof.
  intros Hg Hn Hin. pose proof Hg as [Hwf Hi Hs Hag Hro].
  pose proof (wf_is_base _ Hwf) as Hb. destruct (wb_root _ Hb) as [_ Ho].
  destruct (wb_stack _ Hb root i Hin) as ([inv o] & Hx & _ & Hp). rewrite Ho in Hp. simpl in Hp.
  pose proof Hro as (_ & _ & _ & _ & Hnr). specialize (Hnr i _ Hin Hx). destruct o; [|done|].
  - destruct (run_react i inv a Hwf Hin Hx Hp n) as (a3 & Hrun & Hi3 & Hwf3 & Hag3 & Hs3 & Hrt); [done..|].
    destruct (undone_root i inv a Hwf Hin Hx Hp a3 Hrt Hwf3) as (Hcell & Hro3 & Hok).
    assert (Hst : a_store (once_end i a3) = a_store a3) by (unfold once_end; by rewrite Hcell).
    rewrite (run_undoing i inv a Hx) by done. rewrite Hrun. eexists. split; [done|]. split_and!.
    + split; [by eapply rooted_wf| |by eapply rooted_settled|by eapply rooted_aged|by apply Hok].
      unfold once_end. by rewrite Hcell.
    + rewrite (ro_fibers _ _ Hro3), (rt_fibers _ _ Hrt). by destruct (undoing_shape i inv a) as (_ & -> & _).
    + assert (Hh3 : a_heap (once_end i a3) = a_heap a3) by (unfold once_end; by rewrite Hcell).
      intros g Hgone. unfold gone, state_of, fiber_of. rewrite Hh3. apply (roots_gone (undoing i inv a) a3 g Hrt).
      unfold gone, state_of, fiber_of. by destruct (undoing_shape i inv a) as (-> & _).
    + intros ref b Hc Hrb Hpb. simplify_eq.
      rewrite Hst in Hrb. apply (rt_store _ _ Hrt) in Hrb; [|done].
      apply (undoing_store i (Withdraw None ref) a Hx Hp) in Hrb as [_ Hne]. by apply Hne.
  - exists a. split; [by eapply run_spent|]. split_and!; [done..|]. intros ref b. congruence.
Qed.

(** ** Any sequence of operations *)

(** What the owner of a runtime may do with it. A disposer it calls is one the
    root context gave it. *)
Inductive op :=
| OUse (c : Component) (cfg : any)
| ORemove (f : nat)
| OProvide (k : Key) (v : any)
| OEffect (label : string) (inv : option string)
| ODispose (i : nat).

Definition exec `{Platform} (fuel : nat) (o : op) : go App unit :=
  match o with
  | OUse c cfg => App_Use fuel c cfg;; mret tt
  | ORemove f => App_Remove fuel f
  | OProvide k v => Key_Provide (requestReconcile fuel) k root v;; mret tt
  | OEffect label inv => Effect (requestReconcile fuel) root label inv;; mret tt
  | ODispose i =>
      held ← reads (λ a, bool_decide (Once i ∈ cx_stack (ctx_of a root)));
      if (held : bool) then run_disposer (requestReconcile fuel) (Once i) else mret tt
  end.

Fixpoint exec_all `{Platform} (fuel : nat) (os : list op) (a : App) : option App :=
  match os with
  | [] => Some a
  | o :: os' => match run (exec fuel o) a with Some (a', _) => exec_all fuel os' a' | None => None end
  end.


Lemma exec_good `{Platform} n o a :
  good a → (∀ g, gone g a) → length (a_fibers a) < n →
  ∃ a' r, run (exec (S (S n)) o) a = Some (a', r) ∧ good a' ∧ (∀ g, gone g a') ∧
    length (a_fibers a') ≤ S (length (a_fibers a)).
Proof.
  intros Hg Hgo Hn. destruct o as [c cfg|f|k v|l inv|i]; cbn [exec].
  - destruct (run_Use n c cfg a Hg Hn) as (a' & r & Hr & Hg' & Hgo' & Hres). rewrite run_bind, Hr.
    destruct r as [f|e]; eexists _, _; (split; [done|]); (split_and!; [done|auto|]).
    + destruct Hres as [-> _]. rewrite length_app. simpl. lia.
    + destruct Hres as [-> _]. lia.
  - destruct (run_Remove n f a Hg) as (a' & r & Hr & Hg' & Hgo' & Hres); [lia|]. rewrite Hr.
    eexists _, _. split; [done|]. split_and!; [done|auto|]. case_bool_decide.
    + destruct Hres as (_ & -> & _). pose proof (remove_first_length f (a_fibers a)). lia.
    + destruct Hres as [-> _]. lia.
  - destruct (run_root_Provide n k v a Hg) as (a' & r & Hr & Hg' & Hfs & Hgo' & _); [lia|]. rewrite run_bind, Hr.
    destruct r as [d|e]; eexists _, _; (split; [done|]); (split_and!; [done|auto|rewrite Hfs; lia]).
  - destruct (run_root_Effect (requestReconcile (S (S n))) l inv a Hg) as (a' & d & Hr & Hg' & Hfs & Hgo'). rewrite run_bind, Hr.
    eexists _, _. split; [done|]. split_and!; [done|auto|rewrite Hfs; lia].
  - rewrite run_bind, run_reads. case_bool_decide as Hin.
    + destruct (run_root_dispose n i a Hg) as (a' & Hr & Hg' & Hfs & Hgo' & _); [lia|done|]. rewrite Hr.
      eexists _, _. split; [done|]. split_and!; [done|auto|rewrite Hfs; lia].
    + eexists _, _. split; [done|]. split_and!; [done|done|lia].
Qed.

Lemma exec_all_good `{Platform} n os a :
  good a → (∀ g, gone g a) → length (a_fibers a) + length os ≤ n →
  ∃ a', exec_all (S (S n)) os a = Some a' ∧ good a' ∧ (∀ g, gone g a').
Proof.
  revert a. induction os as [|o os IH]; intros a Hg Hgo Hn; simpl; [eauto|].
  simpl in Hn. destruct (exec_good n o a Hg Hgo) as (a1 & r & Hr & Hg1 & Hgo1 & Hl1); [lia|]. rewrite Hr.
  apply IH; [done..|lia].
Qed.

Lemma gone_New g : gone g App_New.
Proof. intros [x Hx]. simpl in Hx. by rewrite lookup_empty in Hx. Qed.

(** A runtime between two operations, in its own words: who is loaded, with
    what, and who binds what. *)
Definition quiescent (a : App) : Prop :=
  (∀ f, f ∈ a_fibers a →
     match resolveTargetLocked a f with
     | Some t => (state_of a f = StateActive ∨ state_of a f = StateFailed) ∧ fb_target (fiber_of a f) = t
     | None => state_of a f = StateInactive ∨ state_of a f = StateFailed
     end) ∧
  (∀ ref b p, a_store a !! ref = Some b → b_provider b = Some p →
     p ∈ a_fibers a ∧ state_of a p = StateActive ∧ ref ∈ c_Provides (fb_comp (fiber_of a p))).

Lemma good_quiescent a : good a → (∀ g, gone g a) → quiescent a.
Proof.
  intros [Hwf Hi Hs Hag Hro] Hgo. pose proof (wf_is_base _ Hwf) as Hb. split.
  - intros f Hf. specialize (Hs f Hf). unfold stable in Hs. destruct (resolveTargetLocked a f); [done|].
    apply (wb_reg _ Hb) in Hf as [Hh Hr]. pose proof (wf_status _ Hwf f Hh) as Hst. unfold status in Hst.
    pose proof (wf_kept _ Hwf f Hh Hr). destruct (state_of a f); auto; done.
  - intros ref b p Hrb Hp. pose proof (wb_prov _ Hb ref b p Hrb Hp) as Hh. pose proof (wf_status _ Hwf p Hh) as Hst.
    unfold status in Hst. pose proof (wf_kept _ Hwf p Hh) as Hk. specialize (Hgo p Hh).
    destruct (fb_removed (fiber_of a p)) eqn:Hr.
    + rewrite (Hgo eq_refl) in Hst. destruct Hst as [Hu _]. by destruct (Hu ref b Hrb).
    + split; [by apply (wb_reg _ Hb)|]. specialize (Hk eq_refl). destruct (state_of a p) eqn:E; try done.
      * destruct Hst as [Hu _]. by destruct (Hu ref b Hrb).
      * split; [done|]. destruct Hst as (c & _ & _ & Hbd). by apply (Hbd ref b).
      * destruct Hst as [Hu _]. by destruct (Hu ref b Hrb).
Qed.
