(* ===== verification/CoreShutdown.v ===== *)
(** * Shutting the component runtime down

    The order of [unloadOrder], and what [Shutdown] undoes. *)

From S2P Require Import Prelude GoStd Proc Core CoreRun CoreSteps CoreSettle CoreOps.

(** ** Depth-first search *)

Section dfs.
Context (deps : nat → list nat).

(** Nodes already seen, and the finished ones in order. *)
Fixpoint dfs (fuel : nat) (f : nat) (acc : gset nat * list nat) : gset nat * list nat :=
  match fuel with
  | 0 => acc
  | S n =>
      if bool_decide (f ∈ acc.1) then acc
      else
        let acc' := foldl (λ acc p, dfs n p acc) ({[f]} ∪ acc.1, acc.2) (deps f) in
        (acc'.1, acc'.2 ++ [f])
  end.

Context (rank : nat → nat) (Hrank : ∀ f p, p ∈ deps f → rank p < rank f).
Context (U : gset nat) (HU : ∀ f p, f ∈ U → p ∈ deps f → p ∈ U).

(** The finished nodes, each after the ones it depends on. *)
Record search (acc : gset nat * list nat) : Prop := {
  se_nodup : NoDup acc.2;
  se_seen x : x ∈ acc.2 → x ∈ acc.1;
  se_universe : acc.1 ⊆ U;
  se_order l1 x l2 p : acc.2 = l1 ++ x :: l2 → p ∈ deps x → p ∈ l1;
}.

(** What a search adds. *)
Record searched (acc acc' : gset nat * list nat) : Prop := {
  sd_seen : acc.1 ⊆ acc'.1;
  sd_done : acc.2 `prefix_of` acc'.2;
  sd_new x : x ∈ acc'.2 → x ∈ acc.2 ∨ x ∉ acc.1;
  sd_open x : x ∈ acc'.1 → x ∉ acc'.2 → x ∈ acc.1 ∧ x ∉ acc.2;
}.

Lemma searched_refl acc : searched acc acc.
Proof. split; [done|done|by left|done]. Qed.
Lemma searched_trans acc1 acc2 acc3 : searched acc1 acc2 → searched acc2 acc3 → searched acc1 acc3.
Proof.
  intros [A1 A2 A3 A4] [B1 B2 B3 B4]. split.
  - set_solver.
  - by etrans.
  - intros x [Hx|Hx]%B3; [by apply A3|right; set_solver].
  - intros x H1 H2. destruct (B4 x H1 H2). by apply A4.
Qed.

Definition above (r : nat) (acc : gset nat * list nat) : Prop := ∀ g, g ∈ acc.1 → g ∉ acc.2 → r < rank g.

Lemma above_searched r acc acc' : searched acc acc' → above r acc → above r acc'.
Proof. intros Hs Ha g H1 H2. destruct (sd_open _ _ Hs g H1 H2). by apply Ha. Qed.

Lemma dfs_fold n fs acc :
  (∀ f acc, size (U ∖ acc.1) < n → f ∈ U → search acc → above (rank f) acc →
    search (dfs n f acc) ∧ searched acc (dfs n f acc) ∧ f ∈ (dfs n f acc).2) →
  size (U ∖ acc.1) < n → search acc → (∀ f, f ∈ fs → f ∈ U ∧ above (rank f) acc) →
  let acc' := foldl (λ acc p, dfs n p acc) acc fs in
  search acc' ∧ searched acc acc' ∧ ∀ f, f ∈ fs → f ∈ acc'.2.
Proof.
  intros IH. revert acc. induction fs as [|f fs IHfs]; intros acc Hn Hs Hfs; simpl.
  - split_and!; [done|apply searched_refl|set_solver].
  - destruct (Hfs f) as [Hf Hab]; [set_solver|]. destruct (IH f acc Hn Hf Hs Hab) as (Hs1 & Hsd1 & Hin1).
    destruct (IHfs (dfs n f acc)) as (Hs2 & Hsd2 & Hin2); [|done| |].
    + eapply Nat.le_lt_trans; [|exact Hn]. apply subseteq_size. pose proof (sd_seen _ _ Hsd1). set_solver.
    + intros g Hg. destruct (Hfs g) as [? ?]; [set_solver|]. split; [done|by eapply above_searched].
    + split_and!; [done|by eapply searched_trans|]. intros g [->|Hg]%elem_of_cons; [|by apply Hin2].
      destruct (sd_done _ _ Hsd2) as [k ->]. set_solver.
Qed.

Lemma dfs_spec n f acc :
  size (U ∖ acc.1) < n → f ∈ U → search acc → above (rank f) acc →
  search (dfs n f acc) ∧ searched acc (dfs n f acc) ∧ f ∈ (dfs n f acc).2.
Proof.
  revert f acc. induction n as [|n IH]; intros f acc Hn Hf Hs Hab; [lia|]. simpl.
  case_bool_decide as Hin.
  { split_and!; [done|apply searched_refl|]. destruct (decide (f ∈ acc.2)) as [?|Hno]; [done|].
    specialize (Hab f Hin Hno). lia. }
  pose proof Hs as [S1 S2 S3 S4].
  destruct (dfs_fold n (deps f) ({[f]} ∪ acc.1, acc.2) IH) as (Hs1 & Hsd1 & Hin1).
  - simpl. assert (Hlt : size (U ∖ ({[f]} ∪ acc.1)) < size (U ∖ acc.1)); [|lia].
    apply subset_size. set_solver.
  - split; simpl; [done|set_solver|set_solver|done].
  - intros p Hp. split; [by eapply HU|]. intros g Hg1 Hg2. simpl in *.
    apply elem_of_union in Hg1 as [Hg1|Hg1]; [apply elem_of_singleton in Hg1; subst g; by apply Hrank|].
    specialize (Hab g Hg1 Hg2). pose proof (Hrank f p Hp). lia.
  - set (acc1 := foldl _ _ _) in *. destruct Hs1 as [T1 T2 T3 T4]. destruct Hsd1 as [D1 D2 D3 D4]. simpl in *.
    assert (Hfn : f ∉ acc1.2).
    { intros [Hx|Hx]%D3; [by apply Hin, S2|set_solver]. }
    split_and!; [split|split|]; simpl.
    + apply NoDup_app. split_and!; [done|set_solver|apply NoDup_singleton].
    + intros x [?|Hx]%elem_of_app; [by apply T2|]. apply list_elem_of_singleton in Hx. set_solver.
    + done.
    + intros l1 x l2 p Heq Hp. destruct l2 as [|y l2 _] using rev_ind.
      * apply app_inj_tail in Heq as [<- <-]. by apply Hin1.
      * rewrite app_comm_cons, app_assoc in Heq. apply app_inj_tail in Heq as [Heq _]. by eapply T4.
    + set_solver.
    + etrans; [exact D2|]. by eexists.
    + intros x [Hx|Hx]%elem_of_app.
      * apply D3 in Hx as [?|?]; [by left|right; set_solver].
      * apply list_elem_of_singleton in Hx. subst x. by right.
    + intros x H1 H2. destruct (D4 x) as [H3 H4]; [done|set_solver|]. set_solver.
    + set_solver.
Qed.

(** From nothing, over every root of [fs]. *)
Lemma dfs_all n fs :
  size U < n → (∀ f, f ∈ fs → f ∈ U) →
  let order := (foldl (λ acc f, dfs n f acc) (∅, []) fs).2 in
  NoDup order ∧ (∀ f, f ∈ fs → f ∈ order) ∧
  (∀ x, x ∈ order → x ∈ U) ∧ (∀ l1 x l2 p, order = l1 ++ x :: l2 → p ∈ deps x → p ∈ l1).
Proof.
  intros Hn Hfs. destruct (dfs_fold n fs (∅, [])) as ([S1 S2 S3 S4] & Hsd & Hin).
  - intros f acc. apply dfs_spec.
  - simpl. by rewrite difference_empty_L.
  - split; simpl; [constructor|set_solver|set_solver|]. intros l1 x l2 p Heq. by destruct l1.
  - intros f Hf. split; [by apply Hfs|]. intros g. simpl. set_solver.
  - split_and!; [done|done|set_solver|done].
Qed.
End dfs.

(** ** The order of unloading *)

(** The providers of the keys a fiber injects. *)
Definition deps (a : App) (f : nat) : list nat :=
  omap (λ ref, a_store a !! ref ≫= b_provider) (c_Inject (fb_comp (fiber_of a f))).

Lemma elem_of_deps a f p :
  p ∈ deps a f ↔ ∃ ref b, ref ∈ c_Inject (fb_comp (fiber_of a f)) ∧ a_store a !! ref = Some b ∧ b_provider b = Some p.
Proof.
  unfold deps. rewrite list_elem_of_omap. split.
  - intros (ref & Hr & Hp). destruct (a_store a !! ref) as [b|] eqn:E; [|done]. eauto.
  - intros (ref & b & Hr & Hb & Hp). exists ref. by rewrite Hb.
Qed.

Lemma visit_dfs n a f acc : visit n a f acc = dfs (deps a) n f acc.
Proof.
  revert f acc. induction n as [|n IH]; intros f acc; simpl; [done|]. case_bool_decide; [done|].
  assert (Hf : ∀ refs acc, foldl (λ acc ref, match a_store a !! ref with
      | Some b => match b_provider b with Some p => visit n a p acc | None => acc end | None => acc end) acc refs =
    foldl (λ acc p, dfs (deps a) n p acc) acc (omap (λ ref, a_store a !! ref ≫= b_provider) refs)).
  { induction refs as [|ref refs IHr]; intros acc'; simpl; [done|]. rewrite IHr.
    destruct (a_store a !! ref) as [b|]; simpl; [|done]. destruct (b_provider b) as [p|]; simpl; [|done]. by rewrite IH. }
  rewrite Hf. done.
Qed.

Lemma unloadOrder_dfs a :
  unloadOrder a = rev (foldl (λ acc f, dfs (deps a) (S (size (a_heap a))) f acc) (∅, []) (a_fibers a)).2.
Proof.
  unfold unloadOrder. f_equal. f_equal. generalize (∅ : gset nat, [] : list nat).
  induction (a_fibers a) as [|f fs IH]; intros acc; [done|]. cbn [foldl]. by rewrite visit_dfs, IH.
Qed.

(** How late a fiber was loaded; one that is down comes last. *)
Definition load_rank (a : App) (f : nat) : nat :=
  if bool_decide (state_of a f = StateActive) then default 0 (fb_ctx (fiber_of a f)) else a_next a.

Lemma load_rank_deps a f p : good a → (∀ g, gone g a) → p ∈ deps a f → load_rank a p < load_rank a f.
Proof.
  intros Hg Hgo (ref & b & Hr & Hb & Hp)%elem_of_deps. pose proof Hg as [Hwf _ Hs Hag _].
  destruct (good_quiescent a Hg Hgo) as [_ Hq]. destruct (Hq ref b p Hb Hp) as (Hpf & Hpa & _).
  pose proof (wf_is_base _ Hwf) as Hbase. pose proof Hpf as [Hph _]%(wb_reg _ Hbase).
  pose proof (wf_status _ Hwf p Hph) as Hst. unfold status in Hst. rewrite Hpa in Hst. destruct Hst as (cp & Hcp & _).
  unfold load_rank. rewrite (bool_decide_true _ Hpa), Hcp. simpl. case_bool_decide as Hfa.
  - assert (Hfh : is_Some (a_heap a !! f)).
    { unfold state_of, fiber_of in Hfa. destruct (a_heap a !! f); [by eexists|done]. }
    assert (Hff : f ∈ a_fibers a).
    { apply (wb_reg _ Hbase). split; [done|]. apply not_true_iff_false. intros Ht.
      by destruct (wf_removed _ Hwf f Hfh Ht). }
    pose proof (wf_status _ Hwf f Hfh) as Hst. unfold status in Hst. rewrite Hfa in Hst. destruct Hst as (cf & Hcf & _).
    rewrite Hcf. simpl. apply settled_both in Hs as [Hris _]. pose proof (Hris f Hff Hfa) as Hres.
    destruct (Hag f ref p cf Hff Hfa) as (cp' & Hcp' & Hlt); [|done|congruence].
    apply (resolve_spec a f _ Hres). split; [done|]. exists b. split_and!; [done| |done].
    unfold available. rewrite Hp. by apply bool_decide_eq_true_2.
  - by destruct (wb_own _ Hbase p cp Hph Hcp) as (Hc%(wb_ctx _ Hbase) & _).
Qed.

(** Every fiber once, each before the providers it was loaded with. *)
Lemma unloadOrder_spec a :
  good a → (∀ g, gone g a) →
  unloadOrder a ≡ₚ a_fibers a ∧
  ∀ l1 f l2 p, unloadOrder a = l1 ++ f :: l2 → p ∈ deps a f → p ∈ l2.
Proof.
  intros Hg Hgo. pose proof Hg as [Hwf _ _ _ _]. pose proof (wf_is_base _ Hwf) as Hb.
  set (U := list_to_set (a_fibers a) : gset nat).
  assert (HU : size U < S (size (a_heap a))).
  { rewrite <-(size_dom (D:=gset nat)). apply le_n_S, subseteq_size. intros f Hf%elem_of_list_to_set.
    apply elem_of_dom. by apply (wb_reg _ Hb) in Hf as [? _]. }
  destruct (dfs_all (deps a) (load_rank a) (λ f p, load_rank_deps a f p Hg Hgo) U) with
    (n := S (size (a_heap a))) (fs := a_fibers a) as (Hnd & Hall & Hin & Hord).
  - intros f p _ (ref & b & _ & Hrb & Hp)%elem_of_deps. apply elem_of_list_to_set.
    destruct (good_quiescent a Hg Hgo) as [_ Hq]. by destruct (Hq ref b p Hrb Hp).
  - done.
  - intros f Hf. by apply elem_of_list_to_set.
  - rewrite unloadOrder_dfs. set (order := (foldl _ _ _).2) in *. split.
    + rewrite rev_alt, rev_append_rev, app_nil_r. etrans; [symmetry; apply Permutation_rev|].
      apply NoDup_Permutation; [done|apply Hb|]. intros f. split; [|by apply Hall].
      intros Hf%Hin. by apply elem_of_list_to_set in Hf.
    + intros l1 f l2 p Heq' Hp. apply (f_equal (@rev nat)) in Heq'. rewrite rev_involutive, rev_app_distr in Heq'.
      simpl in Heq'. rewrite <-app_assoc in Heq'. apply (Hord _ _ _ p Heq') in Hp.
      by apply list_elem_of_In, in_rev, list_elem_of_In.
Qed.

(** ** Shutdown *)

Section closing.
Context `{Platform} (n : nat) (rec mu : bool).
Local Abbreviation noting := (noting true rec mu).

Lemma run_forceUnload_closed f a :
  wf a → noting a → is_Some (a_heap a !! f) →
  ∃ a', run (forceUnload (S n) f) a = Some (a', Ok tt) ∧ noting a' ∧ wf a' ∧ unloaded f a a'.
Proof.
  intros Hwf HJ Hh. unfold forceUnload. rewrite run_bind, run_atomic. unfold begin_unload. cbv zeta.
  case_bool_decide as E; cbn [fst snd].
  - exists a. split_and!; try done. pose proof (wf_status _ Hwf f Hh) as Hst. unfold status, state_of in Hst. rewrite E in Hst.
    destruct Hst as [Hu Hd]. split; try done. unfold teardown_log.
    destruct (fb_ctx (fiber_of a f)) as [c|]; [rewrite Hd by done|]; by rewrite app_nil_r.
  - set (x := mkFiber _ _ _ StateUnloading _ ∅ _).
    destruct (run_teardown f (requestReconcile (S n)) noting (calm_noting n true rec mu (Some f) eq_refl) a x Hwf Hh)
      as (a2 & Hrun & HJ2 & Hf2 & Hwf2 & Hl); [done..|].
    change (fb_ctx (fiber_of a f)) with (fb_ctx x). rewrite run_bind, Hrun, run_modify.
    assert (Hend : end_unload f a2 = put_fiber f (set_state StateInactive x) a2).
    { unfold end_unload, state_of. by rewrite Hf2. }
    rewrite Hend. eexists. split_and!; done.
Qed.

Lemma teardown_log_kept f g a a' :
  wf a → is_Some (a_heap a !! g) → g ≠ f → unloaded f a a' → teardown_log a' g = teardown_log a g.
Proof.
  intros Hwf Hg Hne Hl. unfold teardown_log. rewrite (fiber_same a a' g) by by apply Hl.
  destruct (fb_ctx (fiber_of a g)) as [c|] eqn:Hc; [|done].
  destruct (wb_own _ (wf_is_base _ Hwf) g c Hg Hc) as (_ & Ho & _).
  assert (Hctx : ctx_of a' c = ctx_of a c) by (unfold ctx_of; by rewrite (ul_ctxs _ _ _ Hl) by congruence).
  rewrite Hctx. destruct (cx_disposed (ctx_of a c)); [done|]. apply undo_log_ext. intros i Hi. rewrite in_rev_elem in Hi.
  destruct (wb_stack _ (wf_is_base _ Hwf) c i Hi) as (x & Hx & _). rewrite Hx.
  apply (ul_cells _ _ _ Hl c); [congruence|done..].
Qed.

(** What unloading the fibers [fs] one after the other leaves. *)
Record torn (fs : list nat) (a a' : App) : Prop := {
  tn_fibers : a_fibers a' = a_fibers a;
  tn_state f : f ∈ fs → state_of a' f = StateInactive;
  tn_unbound f : f ∈ fs → unbound f a';
  tn_store ref b : a_store a' !! ref = Some b → a_store a !! ref = Some b;
  tn_ctx : ctx_of a' root = ctx_of a root;
  tn_cells i x : Once i ∈ cx_stack (ctx_of a root) → a_cells a !! i = Some x → a_cells a' !! i = Some x;
  tn_log : a_log a' = a_log a ++ concat (teardown_log a <$> fs);
}.

Lemma run_unload_all fs a :
  NoDup fs → wf a → noting a → (∀ f, f ∈ fs → is_Some (a_heap a !! f)) →
  ∃ a', run (unload_all (S n) fs) a = Some (a', Ok tt) ∧ noting a' ∧ wf a' ∧ torn fs a a' ∧
    ∀ g, g ∉ fs → a_heap a' !! g = a_heap a !! g.
Proof.
  revert a. induction fs as [|f fs IH]; intros a Hnd Hwf HJ Hfs; cbn [unload_all].
  - exists a. split_and!; try done. split; try done; [set_solver..|]. by rewrite app_nil_r.
  - apply NoDup_cons in Hnd as [Hnf Hnd].
    destruct (run_forceUnload_closed f a Hwf HJ) as (a1 & Hr1 & HJ1 & Hwf1 & Hl); [apply Hfs; set_solver|].
    rewrite run_bind, Hr1. destruct (IH a1 Hnd Hwf1 HJ1) as (a2 & Hr2 & HJ2 & Hwf2 & Ht & Hh2).
    { intros g Hg. rewrite (ul_other _ _ _ Hl) by (intros ->; done). apply Hfs. set_solver. }
    exists a2. split_and!; try done.
    + destruct (wb_root _ (wf_is_base _ Hwf)) as [_ Ho].
      assert (Hc1 : ctx_of a1 root = ctx_of a root) by (unfold ctx_of; by rewrite (ul_ctxs _ _ _ Hl) by congruence).
      assert (Hf2 : fiber_of a2 f = fiber_of a1 f) by (by apply fiber_same, Hh2).
      split.
      * by rewrite (tn_fibers _ _ _ Ht), (ul_fibers _ _ _ Hl).
      * intros g [->|Hg]%elem_of_cons; [|by apply Ht]. unfold state_of. rewrite Hf2. apply Hl.
      * intros g [->|Hg]%elem_of_cons; [|by apply Ht]. intros ref b Hb%(tn_store _ _ _ Ht). by apply (ul_unbound _ _ _ Hl ref b).
      * intros ref b Hb%(tn_store _ _ _ Ht). apply (ul_store _ _ _ Hl); [|done]. by apply (ul_unbound _ _ _ Hl ref b).
      * by rewrite (tn_ctx _ _ _ Ht).
      * intros i x Hi Hx. apply (tn_cells _ _ _ Ht); [by rewrite Hc1|]. apply (ul_cells _ _ _ Hl root); [congruence|done..].
      * rewrite (tn_log _ _ _ Ht), (ul_log _ _ _ Hl). cbn [fmap list_fmap concat]. rewrite <-app_assoc. do 3 f_equal.
        apply list_fmap_ext. intros i g Hg%list_elem_of_lookup_2. apply (teardown_log_kept f); try done; [|by intros ->].
        apply Hfs. set_solver.
    + intros g Hg. rewrite Hh2 by set_solver. apply Hl. set_solver.
Qed.
End closing.

(** The root's scope, once the runtime is closed. *)
Lemma run_close_root `{Platform} n rec mu a :
  wf a → noting true rec mu a → root_ok a →
  ∃ a', run (dispose (requestReconcile (S n)) root) a = Some (a', Ok tt) ∧ a_fibers a' = a_fibers a ∧ a_heap a' = a_heap a ∧
    a_closed a' = true ∧
    (∀ ref b, a_store a' !! ref = Some b → a_store a !! ref = Some b ∧ b_provider b ≠ None) ∧
    a_log a' = a_log a ++ undo_log (a_cells a) (rev (cx_stack (ctx_of a root))).
Proof.
  intros Hwf HJ (R1 & R2 & R3 & R4 & R5). pose proof (wf_is_base _ Hwf) as Hb. destruct (wb_root _ Hb) as [_ Ho].
  destruct (run_dispose None root (requestReconcile (S n)) (noting true rec mu) (calm_noting n true rec mu None eq_refl) a)
    as (a' & Hrun & (Hcl & _ & _) & Hcov & He & Hc & Hn & Hl); [done| |done|].
  - split; [|apply Hb|done]. intros i Hi. destruct (wb_stack _ Hb root i Hi) as (x & Hx & _ & Hp). rewrite Ho in Hp.
    exists x. split_and!; [done|by eapply R5|done].
  - exists a'. split_and!; try done; [apply He|apply He|]. intros ref b Hrb.
    assert (Hp : b_provider b ≠ None).
    { intros Hp. destruct (cov_bound _ _ _ Hcov ref b Hrb Hp) as (i & Hi & _). set_solver. }
    split; [|done]. by apply (ev_store _ _ _ _ _ He).
Qed.

(** [Shutdown] of a runtime between two operations. *)
Lemma run_Shutdown `{Platform} n a :
  good a → (∀ g, gone g a) →
  ∃ a', run (App_Shutdown (S n)) a = Some (a', Ok tt) ∧ a_closed a' = true ∧ a_store a' = ∅ ∧
    a_fibers a' = a_fibers a ∧ (∀ f, f ∈ a_fibers a → state_of a' f = StateInactive) ∧
    a_log a' = a_log a ++ concat (teardown_log a <$> unloadOrder a) ++
                 undo_log (a_cells a) (rev (cx_stack (ctx_of a root))).
Proof.
  intros Hg Hgo. pose proof Hg as [Hwf (Hcl & Hrec & Hmu) Hs Hag Hro]. destruct (unloadOrder_spec a Hg Hgo) as [Hperm _].
  destruct (good_quiescent a Hg Hgo) as [_ Hq]. pose proof (wf_is_base _ Hwf) as Hb.
  unfold App_Shutdown. rewrite run_bind, run_atomic, Hcl. cbn [fst snd]. rewrite run_bind, run_reads.
  assert (Hord : unloadOrder (with_closed true a) = unloadOrder a) by by rewrite !unloadOrder_dfs.
  rewrite Hord. set (a0 := with_closed true a).
  assert (Hwf0 : wf a0) by by destruct Hwf as [[] ? ? ?].
  destruct (run_unload_all n false false (unloadOrder a) a0) as (a1 & Hr1 & HJ1 & Hwf1 & Ht & _).
  - rewrite Hperm. apply Hb.
  - done.
  - done.
  - intros f. rewrite Hperm. intros [Hf _]%(wb_reg _ Hb). done.
  - rewrite run_bind, Hr1.
    assert (Hro1 : root_ok a1).
    { destruct Hro as (R1 & R2 & R3 & R4 & R5). unfold root_ok. rewrite (tn_ctx _ _ _ Ht).
      change (ctx_of a0 root) with (ctx_of a root). split_and!; try done.
      - intros ref b Hrb%(tn_store _ _ _ Ht) Hp. destruct (R4 ref b Hrb Hp) as (i & Hi & Hx). exists i. split; [done|].
        by apply (tn_cells _ _ _ Ht).
      - intros i x Hi Hx. destruct (wb_stack _ Hb root i Hi) as (y & Hy & _).
        rewrite (tn_cells _ _ _ Ht i y) in Hx by done. simplify_eq. by eapply R5. }
    destruct (run_close_root n false false a1 Hwf1 HJ1 Hro1) as (a2 & Hr2 & Hfs & Hh & Hcl2 & Hst & Hlog).
    rewrite Hr2. exists a2. split_and!; try done.
    + apply map_eq. intros ref. rewrite lookup_empty. apply eq_None_not_Some. intros [b Hrb].
      destruct (Hst ref b Hrb) as [Hrb1 Hp]. destruct (b_provider b) as [p|] eqn:Ep; [|done].
      assert (Hpf : p ∈ unloadOrder a).
      { rewrite Hperm. by destruct (Hq ref b p (tn_store _ _ _ Ht ref b Hrb1) Ep). }
      by apply (tn_unbound _ _ _ Ht p Hpf ref b).
    + by rewrite Hfs, (tn_fibers _ _ _ Ht).
    + intros f Hf. unfold state_of. rewrite (fiber_same a1 a2) by by rewrite Hh. apply Ht. by rewrite Hperm.
    + rewrite Hlog, (tn_log _ _ _ Ht), <-app_assoc. simpl. do 2 f_equal. rewrite (tn_ctx _ _ _ Ht).
      apply undo_log_ext. intros i Hi. rewrite in_rev_elem in Hi. destruct (wb_stack _ Hb root i Hi) as (y & Hy & _).
      rewrite Hy. by apply (tn_cells _ _ _ Ht).
Qed.
