(* ===== verification/CoreCheck.v ===== *)
(** * The static check of a composition ([App.Check])

    Duplicate providers and dependency cycles, found on the declarations alone,
    and what a composition that passes is worth at run time. *)

From S2P Require Import Prelude GoStd Proc Core CoreRun CoreSteps CoreSettle CoreOps CoreShutdown.

(** ** The check *)

(** The names that declare each key, in the order of registration. *)
Definition declare (name : string) (providers : gmap KeyRef (list string)) (ref : KeyRef) : gmap KeyRef (list string) :=
  <[ref := default [] (providers !! ref) ++ [name]]> providers.
Definition check_providers (cs : list Component) : gmap KeyRef (list string) :=
  foldl (λ m c, foldl (declare (c_Name c)) m (c_Provides c)) ∅ cs.
Definition check_byName (cs : list Component) : gmap string Component :=
  foldl (λ m c, <[c_Name c := c]> m) ∅ cs.

(** [sort.Strings] on the names of a key declared more than once sorts the slice
    the map holds. *)
Definition sorted_providers (m : gmap KeyRef (list string)) : gmap KeyRef (list string) :=
  (λ names, if 1 <? length names then sort_by id names else names) <$> m.

Definition duplicate_msg (ref : KeyRef) (names : list string) : string :=
  "duplicate provider for " +:+ KeyRef_String ref +:+ ": " +:+ strings_Join names ", ".

(** Colours of the search. *)
Definition white : nat := 0.
Definition gray : nat := 1.
Definition black : nat := 2.

Record check_state := mkCheck {
  ck_color : gmap string nat;
  ck_stack : list string;
  ck_seen : gset string;
  ck_msgs : list string;
}.
Definition color_of (s : check_state) (name : string) : nat := default white (ck_color s !! name).

(** [stack[slices.Index(stack, p):]]. *)
Fixpoint suffix_from (p : string) (stack : list string) : list string :=
  match stack with
  | [] => []
  | x :: stack' => if bool_decide (x = p) then stack else suffix_from p stack'
  end.

Definition report_cycle (p : string) (s : check_state) : check_state :=
  let msg := "dependency cycle: " +:+ strings_Join (suffix_from p (ck_stack s) ++ [p]) " -> " in
  if bool_decide (msg ∈ ck_seen s) then s
  else mkCheck (ck_color s) (ck_stack s) ({[msg]} ∪ ck_seen s) (ck_msgs s ++ [msg]).

(** The providers of what a component injects: the two inner loops. *)
Definition successors (providers : gmap KeyRef (list string)) (byName : gmap string Component) (name : string) : list string :=
  match byName !! name with
  | Some c => c_Inject c ≫= λ ref, default [] (providers !! ref)
  | None => []
  end.

(** The closure [dfs]; the recursion goes through names not yet seen. *)
Fixpoint check_dfs (succs : string → list string) (fuel : nat) (name : string) (s : check_state) : check_state :=
  match fuel with
  | 0 => s
  | S n =>
      let s := mkCheck (<[name := gray]> (ck_color s)) (ck_stack s ++ [name]) (ck_seen s) (ck_msgs s) in
      let s := foldl (λ s p,
          if color_of s p =? white then check_dfs succs n p s
          else if color_of s p =? gray then report_cycle p s
          else s) s (succs name) in
      mkCheck (<[name := black]> (ck_color s)) (removelast (ck_stack s)) (ck_seen s) (ck_msgs s)
  end.

(** [Check] over the registered components; [ranged] is the order in which
    [range providers] visits the map. *)
Definition App_Check (ranged : gmap KeyRef (list string) → list (KeyRef * list string)) (cs : list Component) : list error :=
  let providers := check_providers cs in
  let dups := omap (λ '(ref, names), if 1 <? length names then Some (duplicate_msg ref (sort_by id names)) else None)
                (ranged providers) in
  let s := foldl (λ s c,
      if color_of s (c_Name c) =? white
      then check_dfs (successors (sorted_providers providers) (check_byName cs)) (S (length cs)) (c_Name c) s else s)
    (mkCheck ∅ [] ∅ dups) cs in
  (λ m, New ("core: " +:+ m)) <$> sort_by id (ck_msgs s).

Definition components (a : App) : list Component := (λ f, fb_comp (fiber_of a f)) <$> a_fibers a.

(** ** The search finds exactly the cycles *)

Section correctness.
Context (succs : string → list string).

(** One turn of the inner loop. *)
Definition gvisit (n : nat) (s : check_state) (p : string) : check_state :=
  if color_of s p =? white then check_dfs succs n p s
  else if color_of s p =? gray then report_cycle p s else s.

Context (U : gset string) (HU : ∀ x y, x ∈ U → y ∈ succs x → y ∈ U).

Definition edge (x y : string) : Prop := y ∈ succs x.

(** The names already coloured, the gray ones being the stack; messages only
    grow, and are all remembered. *)
Record ck_ok (s : check_state) : Prop := {
  co_dom x : is_Some (ck_color s !! x) → x ∈ U;
  co_gray x : color_of s x = gray ↔ x ∈ ck_stack s;
  co_color x : color_of s x = white ∨ color_of s x = gray ∨ color_of s x = black;
  co_nodup : NoDup (ck_stack s);
  co_seen m : m ∈ ck_seen s → m ∈ ck_msgs s;
}.

Definition unseen (s : check_state) : gset string := filter (λ x, color_of s x = white) U.

(** What a part of the search does: the stack is back where it was, colours only
    darken, messages are appended. *)
Record ck_steps (s s' : check_state) : Prop := {
  cs_stack : ck_stack s' = ck_stack s;
  cs_mono x : color_of s x ≠ white → color_of s' x = color_of s x;
  cs_new x : color_of s x = white → color_of s' x ≠ gray;
  cs_msgs : ∃ k, ck_msgs s' = ck_msgs s ++ k;
}.

Lemma ck_steps_refl s : ck_steps s s.
Proof. split; [done|done|by intros x ->|exists []; by rewrite app_nil_r]. Qed.
Lemma ck_steps_trans s1 s2 s3 : ck_ok s2 → ck_steps s1 s2 → ck_steps s2 s3 → ck_steps s1 s3.
Proof.
  intros Hok [A1 A2 A3 [k A4]] [B1 B2 B3 [l B4]]. split.
  - congruence.
  - intros x Hx. rewrite (B2 x), (A2 x); [done|done|]. by rewrite (A2 x).
  - intros x Hx. pose proof (A3 x Hx) as Hng. destruct (co_color _ Hok x) as [E|[E|E]]; [by apply B3|done|].
    rewrite (B2 x); by rewrite E.
  - exists (k ++ l). by rewrite B4, A4, app_assoc.
Qed.

Lemma color_set x c s stack seen msgs y :
  color_of (mkCheck (<[x := c]> (ck_color s)) stack seen msgs) y = if decide (y = x) then c else color_of s y.
Proof.
  unfold color_of. simpl. destruct (decide (y = x)) as [->|Hne]; [by rewrite lookup_insert_eq|].
  by rewrite lookup_insert_ne.
Qed.

Lemma report_ok p s :
  ck_ok s → ck_ok (report_cycle p s) ∧ ck_steps s (report_cycle p s) ∧ ck_msgs (report_cycle p s) ≠ [].
Proof.
  intros Hok. pose proof Hok as [H1 H2 H3 H4 H5]. unfold report_cycle. case_bool_decide as Hs.
  - split_and!; [done|apply ck_steps_refl|]. apply H5 in Hs. intros E. rewrite E in Hs. by apply elem_of_nil in Hs.
  - split_and!.
    + split; try done. simpl. intros m [Hm|Hm]%elem_of_union; [apply elem_of_singleton in Hm; set_solver|].
      apply elem_of_app. left. by apply H5.
    + split; try done; [|simpl; by eexists]. intros x Hx. change (color_of s x ≠ gray). by rewrite Hx.
    + simpl. by destruct (ck_msgs s).
Qed.

(** Consecutive names of the stack are edges. *)
Fixpoint path (l : list string) : Prop :=
  match l with
  | x :: ((y :: _) as l') => edge x y ∧ path l'
  | _ => True
  end.

Lemma path_snoc l x y : path (l ++ [x]) → edge x y → path (l ++ [x] ++ [y]).
Proof.
  induction l as [|z l IH]; simpl; [by intros _ ?|]. destruct l as [|w l]; simpl in *; [naive_solver|].
  intros [Hz Hp] Hxy. split; [done|]. by apply IH.
Qed.

Lemma path_reach l1 x l2 y : path (l1 ++ x :: l2 ++ [y]) → tc edge x y.
Proof.
  revert x. induction l1 as [|z l1 IH]; intros x; simpl.
  - revert x. induction l2 as [|w l2 IH2]; intros x; simpl; [intros [? _]; by apply tc_once|].
    intros [Hxw Hp]. eapply tc_l; [exact Hxw|]. apply IH2. by destruct l2.
  - intros Hp. apply IH. destruct (l1 ++ x :: l2 ++ [y]) eqn:E; [by destruct l1|]. by destruct Hp.
Qed.

(** A gray successor closes a cycle. *)
Lemma gray_cycle l name p : path (l ++ [name]) → p ∈ l ++ [name] → edge name p → tc edge p p.
Proof.
  intros Hp Hin He. apply path_snoc with (y := p) in Hp; [|done].
  apply list_elem_of_split in Hin as (l1 & l2 & Heq). rewrite app_assoc, Heq, <-app_assoc in Hp. simpl in Hp.
  by apply path_reach in Hp.
Qed.

Definition acyclic : Prop := ∀ x, ¬ tc edge x x.
Definition grounded (s : check_state) : Prop := ∀ x, color_of s x = black → Acc (flip edge) x.

(** What visiting a name achieves. *)
Record ck_visited (path_to : list string) (name : string) (s s' : check_state) : Prop := {
  cv_ok : ck_ok s';
  cv_steps : ck_steps s s';
  cv_done : ck_msgs s' = [] → color_of s' name = black;
  cv_grounded : ck_msgs s' = [] → grounded s → grounded s';
  cv_quiet : acyclic → path path_to → ck_msgs s' = ck_msgs s;
}.

Lemma unseen_mono s s' : ck_steps s s' → size (unseen s') ≤ size (unseen s).
Proof.
  intros Hst. apply subseteq_size. unfold unseen. intros x. rewrite !elem_of_filter. intros [Hw Hx]. split; [|done].
  destruct (decide (color_of s x = white)) as [?|Hne]; [done|]. rewrite (cs_mono _ _ Hst) in Hw; done.
Qed.

Lemma msgs_nil s s' : ck_steps s s' → ck_msgs s' = [] → ck_msgs s = [].
Proof. intros [_ _ _ [k ->]] E. by apply app_eq_nil in E as [? _]. Qed.

Section folding.
Context (n : nat) (name : string) (l : list string).
Context (IH : ∀ p s, size (unseen s) ≤ n → p ∈ U → color_of s p = white → ck_ok s →
  ck_visited (ck_stack s ++ [p]) p s (check_dfs succs n p s)).

Lemma gvisit_spec p s :
  size (unseen s) ≤ n → p ∈ U → ck_ok s → ck_stack s = l ++ [name] → edge name p →
  ck_visited (l ++ [name]) p s (gvisit n s p).
Proof.
  intros Hn Hp Hok Hst He. unfold gvisit. destruct (Nat.eqb_spec (color_of s p) white) as [Hw|Hw].
  - destruct (IH p s Hn Hp Hw Hok) as [V1 V2 V3 V4 V5]. split; try done. intros Hac Hpath. apply V5; [done|].
    rewrite Hst, <-app_assoc. by apply path_snoc.
  - destruct (Nat.eqb_spec (color_of s p) gray) as [Hg|Hg].
    + destruct (report_ok p s Hok) as (R1 & R2 & R3). split; try done. intros Hac Hpath.
      destruct (Hac p). apply (gray_cycle l name); [done| |done]. rewrite <-Hst. by apply (co_gray _ Hok).
    + split; try done; [apply ck_steps_refl|]. intros _. by destruct (co_color _ Hok p) as [?|[?|?]].
Qed.

Lemma gvisit_all ps s :
  size (unseen s) ≤ n → ck_ok s → ck_stack s = l ++ [name] → (∀ p, p ∈ ps → p ∈ U ∧ edge name p) →
  let s' := foldl (gvisit n) s ps in
  ck_ok s' ∧ ck_steps s s' ∧ (ck_msgs s' = [] → ∀ p, p ∈ ps → color_of s' p = black) ∧
  (ck_msgs s' = [] → grounded s → grounded s') ∧ (acyclic → path (l ++ [name]) → ck_msgs s' = ck_msgs s).
Proof.
  revert s. induction ps as [|p ps IHps]; intros s Hn Hok Hst Hps; simpl.
  - split_and!; [done|apply ck_steps_refl|set_solver|done|done].
  - destruct (Hps p) as [HpU Hpe]; [set_solver|]. destruct (gvisit_spec p s Hn HpU Hok Hst Hpe) as [V1 V2 V3 V4 V5].
    destruct (IHps (gvisit n s p)) as (W1 & W2 & W3 & W4 & W5).
    + pose proof (unseen_mono _ _ V2). lia.
    + done.
    + by rewrite (cs_stack _ _ V2).
    + intros q Hq. apply Hps. set_solver.
    + split_and!; [done|by apply (ck_steps_trans _ (gvisit n s p))| | |].
      * intros E q [->|Hq]%elem_of_cons; [|by apply W3]. pose proof (msgs_nil _ _ W2 E) as E1.
        rewrite (cs_mono _ _ W2 p); by rewrite V3.
      * intros E Hg. apply W4; [done|]. apply V4; [by eapply msgs_nil|done].
      * intros Hac Hpath. rewrite W5, V5; done.
Qed.
End folding.

Lemma check_dfs_spec n p s :
  size (unseen s) ≤ n → p ∈ U → color_of s p = white → ck_ok s → ck_visited (ck_stack s ++ [p]) p s (check_dfs succs n p s).
Proof.
  revert p s. induction n as [|n IH]; intros p s Hn Hp Hw Hok.
  { exfalso. assert (Hin : p ∈ unseen s) by (apply elem_of_filter; done).
    assert (Hz : size (unseen s) = 0) by lia. apply size_empty_iff in Hz. set_solver. }
  cbn [check_dfs]. set (s1 := mkCheck (<[p := gray]> (ck_color s)) _ _ _).
  pose proof Hok as [H1 H2 H3 H4 H5].
  assert (Hns : p ∉ ck_stack s) by (intros Hin%H2; rewrite Hw in Hin; done).
  assert (Hcol : ∀ y, color_of s1 y = if decide (y = p) then gray else color_of s y) by (intros y; apply color_set).
  assert (Hok1 : ck_ok s1).
  { split.
    - intros x. simpl. destruct (decide (x = p)) as [->|Hne]; [done|]. rewrite lookup_insert_ne by done. apply H1.
    - intros x. rewrite Hcol. simpl. rewrite elem_of_app, list_elem_of_singleton.
      destruct (decide (x = p)) as [->|Hne]; [naive_solver|]. rewrite H2. naive_solver.
    - intros x. rewrite Hcol. destruct (decide (x = p)); [auto|apply H3].
    - simpl. apply NoDup_app. split_and!; [done|set_solver|apply NoDup_singleton].
    - done. }
  destruct (gvisit_all n p (ck_stack s) IH (succs p) s1) as (W1 & W2 & W3 & W4 & W5).
  - apply Nat.lt_succ_r. eapply Nat.lt_le_trans; [|exact Hn]. apply subset_size. unfold unseen. split.
    + intros x. rewrite !elem_of_filter, Hcol. destruct (decide (x = p)) as [->|Hne]; [by intros [? _]|done].
    + intros Hsub. specialize (Hsub p). rewrite !elem_of_filter, Hcol, decide_True in Hsub by done.
      by destruct Hsub.
  - done.
  - done.
  - intros q Hq. split; [by eapply HU|done].
  - change (foldl _ s1 (succs p)) with (foldl (gvisit n) s1 (succs p)).
    set (s2 := foldl (gvisit n) s1 (succs p)) in *.
    assert (Hst2 : ck_stack s2 = ck_stack s ++ [p]) by (by rewrite (cs_stack _ _ W2)).
    set (s3 := mkCheck _ _ _ _).
    assert (Hcol3 : ∀ y, color_of s3 y = if decide (y = p) then black else color_of s2 y) by (intros y; apply color_set).
    assert (Hst3 : ck_stack s3 = ck_stack s) by (simpl; rewrite Hst2; apply removelast_last).
    destruct W1 as [O1 O2 O3 O4 O5]. destruct W2 as [T1 T2 T3 [k T4]]. split.
    + split.
      * intros x. simpl. destruct (decide (x = p)) as [->|Hne]; [done|]. rewrite lookup_insert_ne by done. apply O1.
      * intros x. rewrite Hcol3, Hst3. destruct (decide (x = p)) as [->|Hne]; [naive_solver|].
        rewrite O2, Hst2, elem_of_app, list_elem_of_singleton. naive_solver.
      * intros x. rewrite Hcol3. destruct (decide (x = p)); [auto|apply O3].
      * by rewrite Hst3.
      * done.
    + split; [done| | |by exists k].
      * intros x Hx. rewrite Hcol3. destruct (decide (x = p)) as [->|Hne]; [done|]. rewrite (T2 x); by rewrite Hcol, decide_False.
      * intros x Hx. rewrite Hcol3. destruct (decide (x = p)) as [->|Hne]; [done|]. apply T3. by rewrite Hcol, decide_False.
    + intros _. by rewrite Hcol3, decide_True.
    + intros E Hg x. rewrite Hcol3. destruct (decide (x = p)) as [->|Hne]; [intros _|].
      * constructor. intros y Hy. apply (W4 E); [|by apply W3]. intros z. rewrite Hcol.
        destruct (decide (z = p)) as [->|?]; [done|apply Hg].
      * apply (W4 E). intros z. rewrite Hcol. destruct (decide (z = p)) as [->|?]; [done|apply Hg].
    + intros Hac Hpath. by apply W5.
Qed.
End correctness.

(** ** The graph of a composition *)

Lemma declare_lookup name m ref ref' :
  default [] (declare name m ref !! ref') = default [] (m !! ref') ++ (if decide (ref' = ref) then [name] else []).
Proof.
  unfold declare. destruct (decide (ref' = ref)) as [->|Hne]; [by rewrite lookup_insert_eq|].
  rewrite lookup_insert_ne by done. by rewrite app_nil_r.
Qed.

(** The declarations of a key, one name each. *)
Definition declarations (cs : list Component) (ref : KeyRef) : list string :=
  cs ≫= λ c, (λ _, c_Name c) <$> filter (λ r, r = ref) (c_Provides c).

Lemma check_providers_declared cs ref : default [] (check_providers cs !! ref) = declarations cs ref.
Proof.
  unfold check_providers, declarations.
  assert (Hin : ∀ name refs m, default [] (foldl (declare name) m refs !! ref) =
    default [] (m !! ref) ++ ((λ _, name) <$> filter (λ r, r = ref) refs)).
  { intros name refs. induction refs as [|r refs IH]; intros m; simpl; [by rewrite app_nil_r|].
    rewrite IH, declare_lookup, <-app_assoc. f_equal. rewrite filter_cons.
    destruct (decide (ref = r)) as [->|Hne]; [by rewrite decide_True|by rewrite decide_False by congruence]. }
  assert (Hall : ∀ m, default [] (foldl (λ m c, foldl (declare (c_Name c)) m (c_Provides c)) m cs !! ref) =
    default [] (m !! ref) ++ (cs ≫= λ c, (λ _, c_Name c) <$> filter (λ r, r = ref) (c_Provides c))).
  { induction cs as [|c cs IH]; intros m; simpl; [by rewrite app_nil_r|]. by rewrite IH, Hin, <-app_assoc. }
  rewrite Hall. by rewrite lookup_empty.
Qed.

Lemma elem_of_declarations cs ref n :
  n ∈ declarations cs ref ↔ ∃ c, c ∈ cs ∧ c_Name c = n ∧ ref ∈ c_Provides c.
Proof.
  unfold declarations. rewrite list_elem_of_bind. split.
  - intros (c & Hn & Hc). apply list_elem_of_fmap in Hn as (r & -> & Hr). apply list_elem_of_filter in Hr as [-> Hr]. eauto.
  - intros (c & Hc & <- & Hr). exists c. split; [|done]. apply list_elem_of_fmap. exists ref. split; [done|].
    by apply list_elem_of_filter.
Qed.

Lemma sorted_declarations cs ref n :
  n ∈ default [] (sorted_providers (check_providers cs) !! ref) ↔ n ∈ declarations cs ref.
Proof.
  rewrite <-check_providers_declared. unfold sorted_providers. rewrite lookup_fmap.
  destruct (check_providers cs !! ref) as [names|]; simpl; [|done]. destruct (1 <? length names); [|done].
  by rewrite sort_by_perm.
Qed.

(** One component injects what another declares. *)
Definition needs (cs : list Component) (x y : string) : Prop :=
  ∃ c d ref, c ∈ cs ∧ d ∈ cs ∧ c_Name c = x ∧ c_Name d = y ∧ ref ∈ c_Inject c ∧ ref ∈ c_Provides d.

Lemma byName_spec cs : NoDup (c_Name <$> cs) → ∀ x c, check_byName cs !! x = Some c ↔ c ∈ cs ∧ c_Name c = x.
Proof.
  intros Hnd x c. unfold check_byName.
  assert (Hall : ∀ m : gmap string Component, foldl (λ m c, <[c_Name c := c]> m) m cs !! x = Some c ↔
    (c ∈ cs ∧ c_Name c = x) ∨ ((x ∉ (c_Name <$> cs)) ∧ m !! x = Some c)).
  { induction cs as [|d cs IH]; intros m; simpl; [set_solver|]. apply NoDup_cons in Hnd as [Hd Hnd].
    rewrite (IH Hnd). rewrite lookup_insert_Some, elem_of_cons, not_elem_of_cons. split.
    - intros [[? ?]|[Hx [[<- <-]|[Hne Hm]]]]; [naive_solver|left; auto|]. right. split; [|done]. by split; [congruence|].
    - intros [[[->|Hc] Hn]|[[Hne Hx] Hm]]; [|by left; split|by right; split; [|right; split; [congruence|]]].
      right. subst x. split; [done|]. by left. }
  rewrite Hall, lookup_empty. naive_solver.
Qed.

Lemma edge_needs cs x y :
  NoDup (c_Name <$> cs) →
  edge (successors (sorted_providers (check_providers cs)) (check_byName cs)) x y ↔ needs cs x y.
Proof.
  intros Hnd. unfold edge, successors, needs. split.
  - destruct (check_byName cs !! x) as [c|] eqn:E; [|set_solver]. apply byName_spec in E as [Hc Hx]; [|done].
    intros (ref & Hy & Hr)%list_elem_of_bind. apply sorted_declarations, elem_of_declarations in Hy as (d & Hd & Hn & Hp).
    exists c, d, ref. done.
  - intros (c & d & ref & Hc & Hd & Hx & Hy & Hr & Hp).
    assert (check_byName cs !! x = Some c) as -> by by apply byName_spec.
    apply list_elem_of_bind. exists ref. split; [|done]. apply sorted_declarations, elem_of_declarations. eauto.
Qed.

Lemma acc_acyclic {A} (R : A → A → Prop) x : Acc (flip R) x → ¬ tc R x x.
Proof.
  induction 1 as [x _ IH]. intros Hx. inversion Hx as [? ? Hxx|? y ? Hxy Hyx]; subst.
  - by apply (IH x).
  - apply (IH y); [done|]. eapply tc_r; [|exact Hxy]. done.
Qed.

Section top.
Context (succs : string → list string) (U : gset string) (HU : ∀ x y, x ∈ U → y ∈ succs x → y ∈ U).

Definition check_one (n : nat) (s : check_state) (c : Component) : check_state :=
  if color_of s (c_Name c) =? white then check_dfs succs n (c_Name c) s else s.

Lemma check_fold n cs s :
  size U ≤ n → (∀ c, c ∈ cs → c_Name c ∈ U) → ck_ok U s → ck_stack s = [] →
  let s' := foldl (check_one n) s cs in
  ck_ok U s' ∧ ck_steps s s' ∧ (ck_msgs s' = [] → ∀ c, c ∈ cs → color_of s' (c_Name c) = black) ∧
  (ck_msgs s' = [] → grounded succs s → grounded succs s') ∧ (acyclic succs → ck_msgs s' = ck_msgs s).
Proof.
  intros Hn. revert s. induction cs as [|c cs IH]; intros s Hcs Hok Hst; simpl.
  { split_and!; [done|apply ck_steps_refl|set_solver|done|done]. }
  assert (Hone : ck_visited succs U [] (c_Name c) s (check_one n s c)).
  { unfold check_one. destruct (Nat.eqb_spec (color_of s (c_Name c)) white) as [Hw|Hw].
    - destruct (check_dfs_spec succs U HU n (c_Name c) s) as [V1 V2 V3 V4 V5]; [|apply Hcs; set_solver|done..|].
      + etrans; [apply subseteq_size|exact Hn]. unfold unseen. set_solver.
      + split; try done. intros Hac _. apply V5; [done|]. by rewrite Hst.
    - split; try done; [apply ck_steps_refl|]. intros _. destruct (co_color _ _ Hok (c_Name c)) as [?|[Hg|?]]; [done| |done].
      apply (co_gray _ _ Hok) in Hg. rewrite Hst in Hg. by apply elem_of_nil in Hg. }
  destruct Hone as [V1 V2 V3 V4 V5].
  destruct (IH (check_one n s c)) as (W1 & W2 & W3 & W4 & W5).
  - intros d Hd. apply Hcs. set_solver.
  - done.
  - by rewrite (cs_stack _ _ V2).
  - split_and!; [done|by apply (ck_steps_trans U _ (check_one n s c))| | |].
    + intros E d [->|Hd]%elem_of_cons; [|by apply W3]. pose proof (msgs_nil _ _ W2 E) as E1.
      rewrite (cs_mono _ _ W2 (c_Name c)); by rewrite V3.
    + intros E Hg. apply W4; [done|]. apply V4; [by eapply msgs_nil|done].
    + intros Hac. rewrite W5, V5; done.
Qed.
End top.

Section check.
Context (ranged : gmap KeyRef (list string) → list (KeyRef * list string)) (Hranged : ∀ m, ranged m ≡ₚ map_to_list m).

Lemma duplicates_none cs :
  omap (λ '(ref, names), if 1 <? length names then Some (duplicate_msg ref (sort_by id names)) else None)
    (ranged (check_providers cs)) = [] ↔ ∀ ref, length (declarations cs ref) ≤ 1.
Proof.
  set (h := λ '(ref, names), _). split.
  - intros He ref. rewrite <-check_providers_declared. destruct (check_providers cs !! ref) as [names|] eqn:E; simpl; [|lia].
    destruct (Nat.ltb_spec 1 (length names)) as [Hlt|]; [|done]. exfalso.
    assert (Hin : duplicate_msg ref (sort_by id names) ∈ omap h (ranged (check_providers cs))).
    { apply list_elem_of_omap. exists (ref, names). split; [by rewrite Hranged, elem_of_map_to_list|].
      simpl. by apply Nat.ltb_lt in Hlt as ->. }
    rewrite He in Hin. by apply elem_of_nil in Hin.
  - intros Hall. destruct (omap h (ranged (check_providers cs))) as [|m ms] eqn:E; [done|]. exfalso.
    assert (Hin : m ∈ omap h (ranged (check_providers cs))) by (rewrite E; set_solver).
    apply list_elem_of_omap in Hin as ([ref names] & Hr & Hm). rewrite Hranged, elem_of_map_to_list in Hr.
    specialize (Hall ref). rewrite <-check_providers_declared, Hr in Hall. simpl in Hall, Hm.
    apply Nat.ltb_ge in Hall. by rewrite Hall in Hm.
Qed.

(** A clean check has visited every component, and found each to rest on others;
    without cycles the only messages are about duplicates. *)
Lemma Check_both cs :
  NoDup (c_Name <$> cs) →
  (App_Check ranged cs = [] → (∀ ref, length (declarations cs ref) ≤ 1) ∧ ∀ x, Acc (flip (needs cs)) x) ∧
  ((∀ ref, length (declarations cs ref) ≤ 1) → (∀ x, ¬ tc (needs cs) x x) → App_Check ranged cs = []).
Proof.
  intros Hnd. unfold App_Check. set (succs := successors _ _).
  set (dups := omap _ (ranged (check_providers cs))). pose proof (duplicates_none cs) as Hdup. fold dups in Hdup.
  change (foldl _ (mkCheck ∅ [] ∅ dups) cs) with (foldl (check_one succs (S (length cs))) (mkCheck ∅ [] ∅ dups) cs).
  set (U := list_to_set (c_Name <$> cs) : gset string).
  assert (Hedge : ∀ x y, edge succs x y ↔ needs cs x y) by (intros x y; by apply edge_needs).
  assert (Hname : ∀ x y, needs cs x y → x ∈ U ∧ y ∈ U).
  { intros x y (c & d & ref & Hc & Hd & <- & <- & _). unfold U. rewrite !elem_of_list_to_set.
    split; apply list_elem_of_fmap; eauto. }
  destruct (check_fold succs U (λ x y _ Hy, proj2 (Hname x y (proj1 (Hedge x y) Hy))) (S (length cs)) cs (mkCheck ∅ [] ∅ dups))
    as (W1 & W2 & W3 & W4 & W5).
  - unfold U. rewrite size_list_to_set, length_fmap by done. lia.
  - intros c Hc. apply elem_of_list_to_set, list_elem_of_fmap. eauto.
  - split; simpl; [intros x [? Hx]; by rewrite lookup_empty in Hx|..].
    + intros x. unfold color_of. simpl. rewrite lookup_empty. set_solver.
    + intros x. unfold color_of. simpl. rewrite lookup_empty. by left.
    + constructor.
    + set_solver.
  - done.
  - set (s' := foldl _ _ cs) in *. cbn [ck_msgs] in W5.
    assert (Hacc : ∀ x, Acc (flip (edge succs)) x → Acc (flip (needs cs)) x).
    { intros x. induction 1 as [x _ IH]. constructor. intros y Hy. by apply IH, Hedge. }
    split.
    + intros E%fmap_nil_inv. assert (E' : ck_msgs s' = []) by (apply Permutation_nil_r; by rewrite <-(sort_by_perm id), E).
      split; [apply Hdup, (msgs_nil _ _ W2 E')|]. intros x. destruct (decide (x ∈ U)) as [Hx|Hx].
      * apply Hacc, (W4 E'); [intros y; unfold color_of; simpl; by rewrite lookup_empty|].
        apply elem_of_list_to_set, list_elem_of_fmap in Hx as (c & -> & Hc). by apply W3.
      * constructor. intros y Hy. by apply Hname in Hy as [? _].
    + intros Hd Hac. rewrite W5; [by apply Hdup in Hd as ->|]. intros x Hx. apply (Hac x).
      eapply tc_congruence with (f := id); [|exact Hx]. intros ? ?. by apply Hedge.
Qed.
End check.

(** ** What a clean check is worth *)

(** Components of a registered fiber, by name. *)
Lemma component_of a f : f ∈ a_fibers a → fb_comp (fiber_of a f) ∈ components a.
Proof. intros Hf. apply list_elem_of_fmap. eauto. Qed.

(** In a runtime between two operations, where every injected key is declared by
    a registered component or bound by the root, no component failed, and the
    active ones bind what they declare, nothing is left inactive unless somebody
    waits for itself. *)
Lemma grounded_active a f :
  quiescent a →
  (∀ g ref, g ∈ a_fibers a → ref ∈ c_Inject (fb_comp (fiber_of a g)) →
     (∃ b, a_store a !! ref = Some b ∧ b_provider b = None) ∨
     ∃ h, h ∈ a_fibers a ∧ ref ∈ c_Provides (fb_comp (fiber_of a h))) →
  (∀ g, g ∈ a_fibers a → state_of a g ≠ StateFailed) →
  (∀ g ref, g ∈ a_fibers a → state_of a g = StateActive → ref ∈ c_Provides (fb_comp (fiber_of a g)) → is_Some (a_store a !! ref)) →
  Acc (flip (needs (components a))) (c_Name (fb_comp (fiber_of a f))) → f ∈ a_fibers a → state_of a f = StateActive.
Proof.
  intros [Hq Hb] Hclosed Hok Hbinds Hacc. remember (c_Name (fb_comp (fiber_of a f))) as x eqn:Hx. revert f Hx.
  induction Hacc as [x _ IH]. intros f -> Hf. specialize (Hq f Hf).
  destruct (resolveTargetLocked a f) as [t|] eqn:E; [destruct Hq as [[?|Hfail] _]; [done|by destruct (Hok f Hf)]|].
  exfalso. destruct (resolve_none a f E) as (ref & Hr & Hav).
  destruct (Hclosed f ref Hf Hr) as [(b & Hs & Hp)|(h & Hh & Hpr)].
  - specialize (Hav b Hs). unfold available in Hav. by rewrite Hp in Hav.
  - assert (Ha : state_of a h = StateActive).
    { eapply (IH (c_Name (fb_comp (fiber_of a h)))); [|done..].
      exists (fb_comp (fiber_of a f)), (fb_comp (fiber_of a h)), ref. split_and!; try done; by apply component_of. }
    destruct (Hbinds h ref Hh Ha Hpr) as [b Hs]. specialize (Hav b Hs). unfold available in Hav.
    destruct (b_provider b) as [p|] eqn:Hp; [|done]. apply bool_decide_eq_false_1 in Hav.
    by destruct (Hb ref b p Hs Hp) as (_ & ? & _).
Qed.
