(* ===== verification/CoreConc.v ===== *)
(** * The component runtime under interleaving

    Registrations, removals, shutdown and the code of components, in any number
    and in any order. *)

From S2P Require Import Prelude GoStd Proc Core CoreOps.

(** What holds whatever interleaves: a removed fiber is not active, a context
    allows what its fiber declared, and every binding of a fiber is one it
    declared. *)
Record confined (a : App) : Prop := {
  cf_heap f : is_Some (a_heap a !! f) → f < a_next a;
  cf_ctxs c : is_Some (a_ctxs a !! c) → c < a_next a;
  cf_fibers f : f ∈ a_fibers a → is_Some (a_heap a !! f);
  cf_removed f x : a_heap a !! f = Some x → fb_removed x = true → fb_state x ≠ StateActive;
  cf_ctx c x f : a_ctxs a !! c = Some x → cx_owner x = Some f →
    ∃ y, a_heap a !! f = Some y ∧ cx_provides x = Some (keySet (c_Provides (fb_comp y)));
  cf_bound ref b p : a_store a !! ref = Some b → b_provider b = Some p →
    ∃ y, a_heap a !! p = Some y ∧ ref ∈ c_Provides (fb_comp y);
}.

(** Fibers stay, keep their component, and never come back once removed. *)
Definition keeps_fibers (a a' : App) : Prop :=
  ∀ f x, a_heap a !! f = Some x → ∃ x', a_heap a' !! f = Some x' ∧ fb_comp x' = fb_comp x ∧
    (fb_removed x = true → fb_removed x' = true).

#[export] Instance keeps_fibers_preorder : PreOrder keeps_fibers.
Proof.
  split; [intros a f x Hx; eauto|].
  intros a1 a2 a3 H1 H2 f x Hx. destruct (H1 f x Hx) as (y & Hy & Ey & Ry). destruct (H2 f y Hy) as (z & Hz & Ez & Rz).
  exists z. split_and!; [done|congruence|auto].
Qed.

Lemma keeps_same a a' : a_heap a' = a_heap a → keeps_fibers a a'.
Proof. intros E f x Hx. rewrite E. eauto. Qed.

Lemma confined_New : confined App_New.
Proof.
  split; simpl; try by intros *; rewrite lookup_empty; (done || intros [? ?]).
  - intros c [x Hx]. apply lookup_singleton_Some in Hx as [<- _]. unfold root. lia.
  - intros f Hf. by apply elem_of_nil in Hf.
  - intros c x f Hx. apply lookup_singleton_Some in Hx as [_ <-]. done.
Qed.

(** One action of the runtime. *)
Definition sound (f : App → App) : Prop := ∀ a, confined a → confined (f a) ∧ keeps_fibers a (f a).

Lemma fiber_of_lookup a f x : a_heap a !! f = Some x → fiber_of a f = x.
Proof. unfold fiber_of. by intros ->. Qed.
Lemma ctx_of_lookup a c x : a_ctxs a !! c = Some x → ctx_of a c = x.
Proof. unfold ctx_of. by intros ->. Qed.

(** Writing a fiber that is there. *)
Lemma sound_put f x y a :
  confined a → a_heap a !! f = Some y → fb_comp x = fb_comp y → (fb_removed y = true → fb_removed x = true) →
  (fb_removed x = true → fb_state x ≠ StateActive) → confined (put_fiber f x a) ∧ keeps_fibers a (put_fiber f x a).
Proof.
  intros [C1 C2 C3 C4 C5 C6] Hy Hcomp Hrem Hst.
  assert (Hto : ∀ g z, a_heap a !! g = Some z → ∃ z', a_heap (put_fiber f x a) !! g = Some z' ∧ fb_comp z' = fb_comp z ∧
    (fb_removed z = true → fb_removed z' = true)).
  { intros g z Hz. simpl. destruct (decide (g = f)) as [->|Hne].
    - rewrite lookup_insert_eq. exists x. simplify_eq. auto.
    - rewrite lookup_insert_ne by done. eauto. }
  split; [split|exact Hto].
  - intros g. simpl. destruct (decide (g = f)) as [->|Hne]; [intros _; apply (C1 f); by eexists|]. rewrite lookup_insert_ne by done. apply C1.
  - done.
  - intros g Hg. destruct (C3 g Hg) as [z Hz]. destruct (Hto g z Hz) as (z' & Hz' & _). by eexists.
  - intros g z. simpl. intros [[<- <-]|[_ Hz]]%lookup_insert_Some; [done|by eapply C4].
  - intros c z g Hc Hg. destruct (C5 c z g Hc Hg) as (w & Hw & Hp). destruct (Hto g w Hw) as (w' & Hw' & Ew & _).
    exists w'. by rewrite Ew.
  - intros ref b p Hr Hp. destruct (C6 ref b p Hr Hp) as (w & Hw & Hin). destruct (Hto p w Hw) as (w' & Hw' & Ew & _).
    exists w'. by rewrite Ew.
Qed.

(** Writing a context without changing whose it is. *)
Lemma sound_ctx c x a :
  confined a → cx_owner x = cx_owner (ctx_of a c) → cx_provides x = cx_provides (ctx_of a c) → cx_disposed (ctx_of a c) = false →
  confined (put_ctx c x a) ∧ keeps_fibers a (put_ctx c x a).
Proof.
  intros [C1 C2 C3 C4 C5 C6] Ho Hp Hd. unfold ctx_of in *.
  destruct (a_ctxs a !! c) as [y|] eqn:Hc; [|done]. simpl in *. split; [split|]; try done.
  - intros c'. simpl. destruct (decide (c' = c)) as [->|Hne]; [intros _; apply (C2 c); by rewrite Hc|].
    rewrite lookup_insert_ne by done. apply C2.
  - intros c' z g. simpl. intros [[<- <-]|[_ Hz]]%lookup_insert_Some; [|by eapply C5].
    rewrite Ho, Hp. by eapply C5.
  - by apply keeps_same.
Qed.

Ltac same := intros a []; split; [by split|by apply keeps_same].

Lemma sound_flags m r d a : confined a → confined (with_reconcile m r d a) ∧ keeps_fibers a (with_reconcile m r d a).
Proof. intros []. split; [by split|by apply keeps_same]. Qed.
Lemma sound_cells x a : confined a → confined (with_cells x a) ∧ keeps_fibers a (with_cells x a).
Proof. intros []. split; [by split|by apply keeps_same]. Qed.
Lemma sound_emit e : sound (emit e).
Proof. same. Qed.
Lemma sound_closed x : sound (with_closed x).
Proof. same. Qed.

Lemma sound_onceDisposer fn a : confined a → confined (onceDisposer fn a).1 ∧ keeps_fibers a (onceDisposer fn a).1.
Proof.
  intros [C1 C2 C3 C4 C5 C6]. split; [|by apply keeps_same]. split; simpl; try done.
  - intros f Hf%C1. lia.
  - intros c Hc%C2. lia.
Qed.

Lemma sound_begin_dispose c a : confined a → confined (begin_dispose c a).1 ∧ keeps_fibers a (begin_dispose c a).1.
Proof.
  intros Ha. unfold begin_dispose. cbv zeta. destruct (cx_disposed (ctx_of a c)) eqn:E; [split; [done|by apply keeps_same]|]. cbn [fst]. by apply sound_ctx.
Qed.
Lemma sound_begin_add c d a : confined a → confined (begin_add c d a).1 ∧ keeps_fibers a (begin_add c d a).1.
Proof.
  intros Ha. unfold begin_add. cbv zeta. destruct (cx_disposed (ctx_of a c)) eqn:E; [split; [done|by apply keeps_same]|]. cbn [fst]. by apply sound_ctx.
Qed.

Lemma sound_withdraw p ref : sound (withdraw p ref).
Proof.
  intros a Ha. unfold withdraw. destruct (a_store a !! ref) as [b|]; [|by split]. case_bool_decide; [|by split].
  destruct Ha as [C1 C2 C3 C4 C5 C6]. split; [|by apply keeps_same]. split; try done. intros r x q. simpl.
  intros [_ Hx]%lookup_delete_Some. by eapply C6.
Qed.

(** The one action that binds: what it binds is declared. *)
Lemma sound_bind c ref v a : confined a → confined (bind c ref v a).1 ∧ keeps_fibers a (bind c ref v a).1.
Proof.
  intros Ha. unfold bind, requireProvided. destruct (declared (cx_provides (ctx_of a c)) ref) eqn:Hd; [|split; [done|by apply keeps_same]].
  cbv zeta. destruct (a_store a !! ref) as [b|]; [split; [done|by apply keeps_same]|]. cbn [fst].
  pose proof Ha as [C1 C2 C3 C4 C5 C6]. split; [|by apply keeps_same]. split; try done.
  intros r x p. simpl. intros [[<- <-]|[_ Hx]]%lookup_insert_Some Hp; [|by eapply C6]. simpl in Hp.
  unfold ctx_of in *. destruct (a_ctxs a !! c) as [y|] eqn:Hc; [|done]. simpl in *.
  destruct (C5 c y p Hc Hp) as (z & Hz & Hpr). exists z. split; [done|]. rewrite Hpr in Hd. simpl in Hd.
  apply bool_decide_eq_true_1 in Hd. by apply elem_of_list_to_set in Hd.
Qed.

Lemma sound_begin_step f a : confined a → confined (begin_step f a).1 ∧ keeps_fibers a (begin_step f a).1.
Proof.
  intros Ha. unfold begin_step. cbv zeta. destruct (fb_removed (fiber_of a f)) eqn:Hr; [split; [done|by apply keeps_same]|].
  assert (Hf : ∃ x, a_heap a !! f = Some x ∧ fiber_of a f = x).
  { unfold fiber_of in *. destruct (a_heap a !! f); [eauto|done]. }
  destruct Hf as (x & Hx & Hfx). rewrite !Hfx in *. destruct (resolveTargetLocked a f) as [t|].
  - destruct (_ || _); [|by split]. cbn [fst].
    destruct (sound_put f (mkFiber (fb_comp x) (fb_cfg x) (Some (a_next a)) StateLoading None t (fb_removed x)) x a Ha Hx)
      as [Hc1 Hk1]; [done..|].
    rewrite Hr in Hc1, Hk1. split; [|exact Hk1]. destruct Hc1 as [C1 C2 C3 C4 C5 C6].
    split; try done.
    + intros g Hg%C1. simpl in *. lia.
    + intros c. simpl. destruct (decide (c = a_next a)) as [->|Hne]; [lia|]. rewrite lookup_insert_ne by done.
      intros Hc%C2. simpl in *. lia.
    + intros c y g. simpl. intros [[<- <-]|[_ Hy]]%lookup_insert_Some; [|by eapply C5]. intros [= <-].
      rewrite lookup_insert_eq. eexists. split; [done|done].
  - destruct (_ || _); [|by split]. by apply (sound_put f _ x).
Qed.

Lemma sound_end_load f e a : confined a → confined (end_load f e a).1 ∧ keeps_fibers a (end_load f e a).1.
Proof.
  intros Ha. unfold end_load. cbv zeta. destruct (fb_removed (fiber_of a f)) eqn:Hr; [split; [done|by apply keeps_same]|].
  assert (Hf : ∃ x, a_heap a !! f = Some x ∧ fiber_of a f = x).
  { unfold fiber_of in *. destruct (a_heap a !! f); [eauto|done]. }
  destruct Hf as (x & Hx & Hfx). rewrite !Hfx in *. cbn [fst].
  apply (sound_put f _ x); [done|done|by destruct e|congruence|]. destruct e; [done|]. simpl. congruence.
Qed.

Lemma sound_drop_load f : sound (drop_load f).
Proof.
  intros a Ha. unfold drop_load. destruct (a_heap a !! f) as [x|] eqn:Hx.
  - set (g := λ x, mkFiber _ _ _ _ _ _ _). assert (alter g f (a_heap a) = <[f := g x]> (a_heap a)) as ->.
    { apply map_eq. intros h. destruct (decide (h = f)) as [->|Hne]; [by rewrite lookup_alter_eq, lookup_insert_eq, Hx|].
      by rewrite lookup_alter_ne, lookup_insert_ne. }
    by apply (sound_put f (g x) x).
  - assert (alter (λ x, mkFiber (fb_comp x) (fb_cfg x) None StateInactive (fb_err x) ∅ (fb_removed x)) f (a_heap a) = a_heap a) as ->.
    { apply map_eq. intros h. destruct (decide (h = f)) as [->|Hne]; [by rewrite lookup_alter_eq, Hx|by rewrite lookup_alter_ne]. }
    destruct Ha. split; [by split|by apply keeps_same].
Qed.

Lemma sound_end_unload f : sound (end_unload f).
Proof.
  intros a Ha. unfold end_unload. case_bool_decide as E; [|by split]. unfold state_of in E.
  destruct (a_heap a !! f) as [x|] eqn:Hx; [|unfold fiber_of in E; by rewrite Hx in E].
  rewrite (fiber_of_lookup a f x Hx) in *. by apply (sound_put f _ x).
Qed.

Lemma sound_begin_unload f a : confined a → confined (begin_unload f a).1 ∧ keeps_fibers a (begin_unload f a).1.
Proof.
  intros Ha. unfold begin_unload. cbv zeta. case_bool_decide as E; [split; [done|by apply keeps_same]|].
  destruct (a_heap a !! f) as [x|] eqn:Hx; [|unfold fiber_of in E; by rewrite Hx in E].
  rewrite (fiber_of_lookup a f x Hx) in *. by apply (sound_put f _ x).
Qed.

Lemma sound_register c cfg a : confined a → confined (register c cfg a).1 ∧ keeps_fibers a (register c cfg a).1.
Proof.
  intros [C1 C2 C3 C4 C5 C6].
  assert (Hto : ∀ g z, a_heap a !! g = Some z → a_heap (register c cfg a).1 !! g = Some z).
  { intros g z Hz. simpl. rewrite lookup_insert_ne; [done|]. assert (g < a_next a) by (apply C1; by eexists). lia. }
  split; [split|].
  - intros g. simpl. destruct (decide (g = a_next a)) as [->|Hne]; [lia|]. rewrite lookup_insert_ne by done. intros Hg%C1. lia.
  - intros k Hk%C2. simpl. lia.
  - intros g. simpl. intros [Hg|Hg]%elem_of_app.
    + destruct (C3 g Hg) as [z Hz]. exists z. by apply Hto.
    + apply list_elem_of_singleton in Hg. subst g. rewrite lookup_insert_eq. by eexists.
  - intros g z. simpl. intros [[<- <-]|[_ Hz]]%lookup_insert_Some; [done|by eapply C4].
  - intros k z g Hk Hg. destruct (C5 k z g Hk Hg) as (y & Hy & Hp). exists y. split; [by apply Hto|done].
  - intros ref b p Hr Hp. destruct (C6 ref b p Hr Hp) as (y & Hy & Hin). exists y. split; [by apply Hto|done].
  - intros g z Hz. exists z. split_and!; [by apply Hto|done|done].
Qed.

Lemma sound_retire `{Platform} f a : confined a → confined (retire f a).1 ∧ keeps_fibers a (retire f a).1.
Proof.
  intros Ha. unfold retire. case_bool_decide as Hf; [|by split]. cbv zeta. cbn [fst].
  pose proof (cf_fibers _ Ha f Hf) as [x Hx]. rewrite (fiber_of_lookup a f x Hx).
  assert (Hrf : ∀ g, g ∈ remove_first f (a_fibers a) → g ∈ a_fibers a).
  { intros g. induction (a_fibers a) as [|h fs IH]; simpl; [done|]. case_bool_decide; set_solver. }
  assert (Ha1 : confined (with_fibers (remove_first f (a_fibers a)) a)).
  { destruct Ha as [C1 C2 C3 C4 C5 C6]. split; try done. intros g Hg%Hrf. by apply C3. }
  match goal with |- confined (put_fiber f ?y _) ∧ _ => destruct (sound_put f y x _ Ha1 Hx) as [H1 H2] end; [done..| |].
  - intros _. simpl. by case_bool_decide.
  - split; [exact H1|]. etrans; [by apply (keeps_same a (with_fibers (remove_first f (a_fibers a)) a))|exact H2].
Qed.

(** ** The operations *)

(** Every action of the process is one of the above. *)
Local Abbreviation steady p := (guar confined keeps_fibers p (λ _, True)).

Lemma steady_bind {A B} (p : go App A) (f : A → go App B) : steady p → (∀ a, steady (f a)) → steady (mbind (M:=go App) f p).
Proof. intros Hp Hf. apply (guar_bind _ _ _ _ (λ _, True)); [done|auto|done]. Qed.
Lemma steady_try {A} (p : go App A) : steady p → steady (try p).
Proof. intros Hp. by apply (guar_try _ _ _ (λ _, True)). Qed.
Lemma steady_atomic {A} (f : App → App * A) :
  (∀ a, confined a → confined (f a).1 ∧ keeps_fibers a (f a).1) → steady (atomic f).
Proof. intros Hf. apply guar_atomic. intros a Ha. by destruct (Hf a Ha). Qed.
Lemma steady_call {A} (f : App → App * result A) :
  (∀ a, confined a → confined (f a).1 ∧ keeps_fibers a (f a).1) → steady (call f).
Proof. intros Hf. apply guar_call. intros a Ha. by destruct (Hf a Ha). Qed.
Lemma steady_reads {A} (f : App → A) : steady (reads f).
Proof. apply steady_atomic. intros a Ha. by split. Qed.
Lemma steady_modify (f : App → App) : sound f → steady (modify f).
Proof. intros Hf. apply steady_atomic. exact Hf. Qed.
Lemma steady_ret {A} (x : A) : steady (mret (M:=go App) x).
Proof. done. Qed.
Lemma steady_throw {A} e : steady (throw (W:=App) (A:=A) e).
Proof. done. Qed.

Create HintDb steady.
#[export] Hint Resolve steady_bind steady_try steady_reads steady_modify steady_ret steady_throw : steady.
#[export] Hint Resolve sound_emit sound_closed sound_withdraw sound_drop_load sound_end_unload : steady.

Lemma sound_once_end i : sound (once_end i).
Proof. intros a Ha. unfold once_end. destruct (a_cells a !! i); [by apply sound_cells|by split]. Qed.
Lemma steady_once_begin i : steady (Act (once_begin i) (λ o, Ret (Ok o))).
Proof.
  intros a a' o Ha. unfold once_begin. destruct (a_cells a !! i) as [x|]; [destruct (ce_once x)|]; intros [= <- <-];
    (split; [|split; [|done]]); (done || by apply sound_cells || by apply keeps_same).
Qed.
#[export] Hint Resolve sound_once_end steady_once_begin : steady.

Lemma steady_diverge {A} : steady (diverge (W:=App) (A:=A)).
Proof. by intros a a' b Ha. Qed.

Section requests.
Context `{Platform} (request : go App unit) (Hrequest : steady request).

Lemma steady_run_disposer d : steady (run_disposer request d).
Proof.
  unfold run_disposer. destruct d as [i|l]; [|auto with steady].
  apply steady_bind; [auto with steady|]. intros [[p ref|[l|]]|]; unfold run_inverse; [..|done]; auto 6 with steady.
Qed.
Local Hint Resolve steady_run_disposer : steady.

Lemma steady_run_disposers ds : steady (run_disposers request ds).
Proof. induction ds as [|d ds IH]; unfold run_disposers; fold run_disposers; auto with steady. Qed.
Lemma steady_dispose c : steady (dispose request c).
Proof.
  unfold dispose. apply steady_bind; [apply steady_atomic; intros; by apply sound_begin_dispose|].
  intros ds. apply steady_run_disposers.
Qed.
Lemma steady_dispose_opt c : steady (dispose_opt request c).
Proof. destruct c; [apply steady_dispose|done]. Qed.
Lemma steady_scope_add c d : steady (scope_add request c d).
Proof.
  unfold scope_add. apply steady_bind; [apply steady_atomic; intros; by apply sound_begin_add|].
  intros [|]; auto with steady.
Qed.
Local Hint Resolve steady_dispose steady_dispose_opt steady_scope_add : steady.
Lemma steady_onceDisposer fn : steady (atomic (onceDisposer fn)).
Proof. apply steady_atomic. intros a Ha. by apply sound_onceDisposer. Qed.
Local Hint Resolve steady_onceDisposer : steady.

Lemma steady_Provide k c v : steady (Key_Provide request k c v).
Proof.
  unfold Key_Provide. apply steady_bind; [apply steady_call; intros; by apply sound_bind|]. auto 8 with steady.
Qed.
Lemma steady_Get k c : steady (Key_Get k c).
Proof.
  unfold Key_Get. apply steady_bind; [apply steady_call; by intros|]. intros _.
  apply steady_bind; [apply steady_call; by intros|]. intros v. destruct (key_accepts k (dyn_type v)); auto with steady.
Qed.
Lemma steady_Effect c l inv : steady (Effect request c l inv).
Proof. unfold Effect. auto 8 with steady. Qed.
Local Hint Resolve steady_Provide steady_Get steady_Effect : steady.

Lemma steady_perform c hs s : steady (perform request c hs s).
Proof.
  revert hs. induction s as [d|e|v|k v next IH|k next IH|l inv next IH|h next IH|next IH]; intros hs; try done;
    unfold perform; fold perform; apply steady_bind; auto with steady.
  - intros [d|e]; apply IH.
  - destruct (hs !! h); auto with steady.
Qed.
Lemma steady_applySafe comp c cfg : steady (applySafe request comp c cfg).
Proof.
  unfold applySafe. destruct (c_Apply comp); [|done]. apply steady_bind; [apply steady_perform|].
  intros []; auto with steady.
Qed.
Local Hint Resolve steady_applySafe : steady.

Lemma steady_step f : steady (step request f).
Proof.
  unfold step. apply steady_bind; [apply steady_atomic; intros; by apply sound_begin_step|]. intros [|c old comp cfg|c].
  - done.
  - apply steady_bind; [auto with steady|]. intros _. apply steady_bind; [auto with steady|]. intros r.
    apply steady_bind; [destruct r as [[d|]|e]; auto with steady|]. intros _.
    apply steady_bind; [apply steady_atomic; intros; by apply sound_end_load|]. intros [|]; auto 7 with steady.
  - auto 7 with steady.
Qed.
Lemma steady_steps fs b : steady (steps request fs b).
Proof. revert b. induction fs as [|f fs IH]; intros b; unfold steps; fold steps; [done|]. apply steady_bind; [apply steady_step|auto]. Qed.
Lemma steady_reconcile_loop n : steady (reconcile_loop request n).
Proof.
  induction n as [|n IH]; unfold reconcile_loop; fold reconcile_loop; [apply steady_diverge|].
  apply steady_bind; [apply steady_modify; intros a Ha; by apply sound_flags|]. intros _.
  apply steady_bind; [unfold pass; apply steady_bind; [apply steady_reads|intros; apply steady_steps]|]. intros b.
  apply steady_bind.
  - apply steady_atomic. intros a Ha. destruct (_ && _); [by apply sound_flags|by split].
  - intros [|]; [apply steady_modify; intros a Ha; by apply sound_flags|exact IH].
Qed.
Lemma steady_reconcile n : steady (reconcile request n).
Proof.
  unfold reconcile. apply steady_bind; [|intros; apply steady_reconcile_loop].
  intros a a' b Ha. destruct (a_reconcileMu a); intros [= <- <-]. 
  destruct (sound_flags true (a_reconciling a) (a_dirty a) a Ha). by split_and!.
Qed.
End requests.

Lemma steady_request `{Platform} n : steady (requestReconcile n).
Proof.
  induction n as [|n IH]; unfold requestReconcile; fold requestReconcile; [apply steady_diverge|].
  apply steady_bind; [|intros [|]; [by apply steady_reconcile|done]].
  apply steady_atomic. intros a Ha. unfold admit_reconcile. repeat case_match; (by apply sound_flags) || by split.
Qed.

Lemma steady_forceUnload `{Platform} n f : steady (forceUnload n f).
Proof.
  unfold forceUnload. apply steady_bind; [apply steady_atomic; intros; by apply sound_begin_unload|].
  intros [c|]; [|done]. apply steady_bind; [apply steady_dispose_opt, steady_request|auto with steady].
Qed.

(** ** Everything that runs beside the runtime *)

(** An operation of the application, its shutdown, or a goroutine a component
    started with its context and the disposers it holds. *)
Inductive activity :=
| AOp (o : op)
| AShutdown
| AComponent (c : nat) (hs : list Disposer) (s : script).

Definition act `{Platform} (fuel : nat) (x : activity) : go App unit :=
  match x with
  | AOp o => exec fuel o
  | AShutdown => App_Shutdown fuel
  | AComponent c hs s => perform (requestReconcile fuel) c hs s;; mret tt
  end.

Lemma steady_exec `{Platform} n o : steady (exec n o).
Proof.
  pose proof (steady_request n) as Hreq. destruct o as [c cfg|f|k v|l inv|i]; unfold exec.
  - apply steady_bind; [|done]. unfold App_Use. apply steady_bind; [unfold guard_err; by case_bool_decide|]. intros _.
    destruct (c_Apply c); [|done].
    apply steady_bind; [apply steady_atomic; intros; by apply sound_register|]. auto with steady.
  - unfold App_Remove. apply steady_bind; [apply steady_call; intros; by apply sound_retire|]. intros _.
    apply steady_bind; [done|]. intros _. apply steady_forceUnload.
  - apply steady_bind; [by apply steady_Provide|done].
  - apply steady_bind; [by apply steady_Effect|done].
  - apply steady_bind; [apply steady_reads|]. intros [|]; [by apply steady_run_disposer|done].
Qed.

Lemma steady_act `{Platform} n x : steady (act n x).
Proof.
  pose proof (steady_request n) as Hreq. destruct x as [o| |c hs s]; unfold act.
  - apply steady_exec.
  - unfold App_Shutdown. apply steady_bind.
    + apply steady_atomic. intros a Ha. destruct (a_closed a); [by split|by apply sound_closed].
    + intros [|]; [|done]. apply steady_bind; [apply steady_reads|]. intros fs.
      apply steady_bind; [|intros; by apply steady_dispose].
      induction fs as [|f fs IH]; unfold unload_all; fold unload_all; [done|].
      apply steady_bind; [apply steady_forceUnload|done].
  - apply steady_bind; [by apply steady_perform|done].
Qed.

(** In a pool of activities the invariant holds throughout, and every later
    world keeps the fibers of an earlier one. *)
Lemma activities_confined `{Platform} n xs a a1 ps1 a2 ps2 :
  confined a → preach (a, act n <$> xs) (a1, ps1) → preach (a1, ps1) (a2, ps2) →
  confined a1 ∧ confined a2 ∧ keeps_fibers a1 a2.
Proof.
  intros Ha H1 H2.
  assert (Hps : ∀ i p, (act n <$> xs) !! i = Some p → steady p).
  { intros i p. rewrite list_lookup_fmap. intros (x & _ & ->)%fmap_Some. apply steady_act. }
  destruct (guar_reach confined (λ _, keeps_fibers) (λ _ _, True) a _ a1 ps1 Ha Hps H1) as [Ha1 Hps1].
  split; [done|]. clear H1 Hps Ha. remember (a1, ps1) as y1 eqn:E1. remember (a2, ps2) as y2 eqn:E2.
  revert a1 ps1 E1 Ha1 Hps1. induction H2 as [y|y [b qs] z Hst H2 IH]; intros a1 ps1 -> Ha1 Hps1.
  - injection E2 as <- <-. done.
  - inversion Hst as [? ? ? i B f k x Hi Hf]; subst.
    destruct (Hps1 i _ Hi a1 b x Ha1 Hf) as (Hb & Hk1 & Hk). destruct (IH eq_refl b _ eq_refl Hb) as [H3 H4].
    + intros j p [(<- & <- & _)|[_ Hj]]%list_lookup_insert_Some; [done|by apply (Hps1 j)].
    + split; [done|by etrans].
Qed.
