(* ===== verification/CoreProps.v ===== *)
(** * What the component runtime promises

    The properties of [internal/core]: it settles after every operation, it
    tears down in dependency order, its static check is exact and enough, and no
    interleaving revives a removed component or publishes what was not declared. *)

From S2P Require Import Prelude GoStd Proc Core CoreRun CoreSteps CoreSettle CoreOps CoreShutdown CoreCheck CoreConc.

Lemma exec_all_New `{Platform} n os :
  length os + 2 ≤ n → ∃ a, exec_all n os App_New = Some a ∧ good a ∧ ∀ g, gone g a.
Proof.
  intros Hn. destruct n as [|[|n]]; [lia..|]. apply exec_all_good; [apply good_New|apply gone_New|]. simpl. lia.
Qed.

(** C15. Whatever components are registered, removed and given capabilities, in
    whatever order, every operation returns, and the runtime is then at rest:
    a component is active (or failed, with the providers of its last attempt)
    exactly when all it injects is available, and every capability bound by a
    component is declared by it and its component is active. *)
Theorem runtime_settles `{Platform} n os :
  length os + 2 ≤ n → ∃ a, exec_all n os App_New = Some a ∧ quiescent a.
Proof.
  intros Hn. destruct (exec_all_New n os Hn) as (a & Ha & Hg & Hgo). exists a. split; [done|by apply good_quiescent].
Qed.

(** C16. [Shutdown] of a runtime built by any operations returns, unloads each
    fiber once and before the fibers it takes capabilities from, and undoes
    exactly the effects still standing, last done first within a component and
    the root's last; nothing stays bound. *)
Theorem Shutdown_exact `{Platform} n os :
  length os + 2 ≤ n → ∃ a a', exec_all n os App_New = Some a ∧ run (App_Shutdown n) a = Some (a', Ok tt) ∧
    unloadOrder a ≡ₚ a_fibers a ∧
    (∀ l1 f l2 p, unloadOrder a = l1 ++ f :: l2 → p ∈ deps a f → p ∈ l2) ∧
    a_log a' = a_log a ++ concat (teardown_log a <$> unloadOrder a) ++
                 undo_log (a_cells a) (rev (cx_stack (ctx_of a root))) ∧
    a_store a' = ∅ ∧ ∀ f, f ∈ a_fibers a' → state_of a' f = StateInactive.
Proof.
  intros Hn. destruct (exec_all_New n os Hn) as (a & Ha & Hg & Hgo). destruct n as [|n]; [lia|].
  destruct (run_Shutdown n a Hg Hgo) as (a' & Hr & _ & Hst & Hf & Hall & Hl).
  destruct (unloadOrder_spec a Hg Hgo) as [Hp Ho]. exists a, a'. rewrite Hf. done.
Qed.

Lemma acc_no_cycle {A} (R : relation A) x : Acc (flip R) x → ¬ tc R x x.
Proof.
  induction 1 as [x _ IH]. intros Hx. inversion Hx as [? ? Hxx|? y ? Hxy Hyx]; subst.
  - by apply (IH x).
  - apply (IH y Hxy). by eapply tc_r.
Qed.

(** C36. [Check] is silent exactly when no capability is declared twice and no
    component depends on itself through others, given that components have
    different names. *)
Theorem Check_exact ranged cs :
  (∀ m, ranged m ≡ₚ map_to_list m) → NoDup (c_Name <$> cs) →
  App_Check ranged cs = [] ↔ (∀ ref, length (declarations cs ref) ≤ 1) ∧ ∀ x, ¬ tc (needs cs) x x.
Proof.
  intros Hr Hnd. destruct (Check_both ranged Hr cs Hnd) as [H1 H2]. split.
  - intros [? Hacc]%H1. split; [done|]. intros x. apply acc_no_cycle, Hacc.
  - intros [? ?]. by apply H2.
Qed.

(** C35. A composition that [Check] passes runs. Take the runtime after any sequence of
    operations on a new one (with fuel for two more than their number), whose
    registered components have different names and pass [Check]. When every
    injected key is declared by a registered component or bound on the root, no
    component has failed and an active component has bound what it declares, then
    every registered component is active. *)
Theorem checked_composition_runs `{Platform} ranged n os a :
  (∀ m, ranged m ≡ₚ map_to_list m) → length os + 2 ≤ n → exec_all n os App_New = Some a →
  NoDup (c_Name <$> components a) → App_Check ranged (components a) = [] →
  (∀ g ref, g ∈ a_fibers a → ref ∈ c_Inject (fb_comp (fiber_of a g)) →
     (∃ b, a_store a !! ref = Some b ∧ b_provider b = None) ∨
     ∃ h, h ∈ a_fibers a ∧ ref ∈ c_Provides (fb_comp (fiber_of a h))) →
  (∀ g, g ∈ a_fibers a → state_of a g ≠ StateFailed) →
  (∀ g ref, g ∈ a_fibers a → state_of a g = StateActive → ref ∈ c_Provides (fb_comp (fiber_of a g)) → is_Some (a_store a !! ref)) →
  ∀ f, f ∈ a_fibers a → state_of a f = StateActive.
Proof.
  intros Hr Hn Ha Hnd Hck Hclosed Hok Hbinds f Hf. destruct (exec_all_New n os Hn) as (a0 & Ha0 & Hg & Hgo).
  rewrite Ha in Ha0. injection Ha0 as <-. apply (Check_both ranged Hr _ Hnd) in Hck as [_ Hacc].
  by apply grounded_active; [apply good_quiescent|..].
Qed.

(** C17. Any number of operations, shutdowns and goroutines of components,
    interleaved in any way from a new runtime: a fiber that was removed is never
    active again, and every capability a fiber has bound is one its component
    declared. *)
Theorem runtime_confined `{Platform} n xs a1 ps1 a2 ps2 :
  preach (App_New, act n <$> xs) (a1, ps1) → preach (a1, ps1) (a2, ps2) →
  (∀ f x, a_heap a1 !! f = Some x → fb_removed x = true → ∃ y, a_heap a2 !! f = Some y ∧
     fb_removed y = true ∧ fb_state y ≠ StateActive) ∧
  ∀ ref b p, a_store a2 !! ref = Some b → b_provider b = Some p →
    ∃ y, a_heap a2 !! p = Some y ∧ ref ∈ c_Provides (fb_comp y).
Proof.
  intros H1 H2. destruct (activities_confined n xs App_New a1 ps1 a2 ps2 confined_New H1 H2) as (_ & Hc & Hk). split.
  - intros f x Hx Hr. destruct (Hk f x Hx) as (y & Hy & _ & Hry). exists y. split_and!; [done|auto|].
    apply (cf_removed _ Hc f y Hy). auto.
  - apply (cf_bound _ Hc).
Qed.
