(* ===== verification/Wiring.v ===== *)
(** * The composition root ([internal/wiring]) and the runtime at work

    The authorization server as a component, the ways it comes up, and the
    runtime's properties at concrete compositions, two races among them. *)

From S2P Require Import Prelude GoStd Proc Tokens Client AuditLog Device Service Demo Core CoreOps CoreShutdown CoreCheck CoreConc CoreProps.

Section wiring.
(** Whether a value's dynamic type satisfies an interface. *)
Context (implements : string → string → bool).

Definition wire (namespace name iface : string) : Key := mkKey (mkRef namespace name) (implements iface).
Definition KeyLog : Key := wire "audit" "log" "audit.Logger".
Definition KeyClients : Key := wire "oauth" "clients" "oauth.ClientRegistry".
Definition KeyTokens : Key := wire "oauth" "tokens" "oauth.Store".
Definition KeyAS : Key := wire "oauth" "as" "oauth.Service".

(** [construct] is [oauth.NewService] at the component's [Config]. *)
Definition OAuthComponent (construct : any → any → any → result any) : Component :=
  mkComponent "oauth" [key_ref KeyAS] [key_ref KeyClients; key_ref KeyTokens; key_ref KeyLog]
    (Some (λ _,
       MustGet KeyClients (λ clients, MustGet KeyTokens (λ tokens, MustGet KeyLog (λ lg,
         match construct clients tokens lg with
         | Err e => SFail e
         | Ok svc => SProvide KeyAS svc (λ r, match r with Ok _ => SReturn RNil | Err e => SFail e end)
         end))))).
End wiring.

Lemma wire_NewKey implements ns n i :
  ns ≠ EmptyString → n ≠ EmptyString → NewKey ns n (implements i) = Some (wire implements ns n i).
Proof. intros H1 H2. unfold NewKey, wire. by rewrite !bool_decide_eq_false_2. Qed.

(** ** The authorization server over the in-memory components *)

#[local] Existing Instance toy_platform.

Definition in_memory (iface ty : string) : bool :=
  bool_decide ((iface, ty) ∈ [("oauth.ClientRegistry", "*oauth.MemoryClientRegistry"); ("oauth.Store", "*oauth.MemoryStore");
    ("audit.Logger", "*audit.MemoryLogger"); ("oauth.Service", "*oauth.service")]).

(** The three stores are fresh ones; a nil interface holds nothing. *)
Definition construct (cfg : Config) (clients tokens lg : any) : result any :=
  let holds ty v := bool_decide (dyn_type v = ty) in
  match NewService 0 EmptyString
      (if holds "*oauth.MemoryClientRegistry" clients then Some NewMemoryClientRegistry else None)
      (if holds "*oauth.MemoryStore" tokens then Some NewMemoryStore else None)
      (if holds "*audit.MemoryLogger" lg then Some NewMemoryLogger else None) cfg with
  | Ok _ => Ok (mkAny "*oauth.service" "as")
  | Err e => Err e
  end.

Definition clients_op : op := OProvide (KeyClients in_memory) (mkAny "*oauth.MemoryClientRegistry" "c").
Definition tokens_op : op := OProvide (KeyTokens in_memory) (mkAny "*oauth.MemoryStore" "t").
Definition log_op : op := OProvide (KeyLog in_memory) (mkAny "*audit.MemoryLogger" "l").
Definition nothing : any := mkAny EmptyString EmptyString.
Definition use_oauth (cfg : Config) : op := OUse (OAuthComponent in_memory (construct cfg)) nothing.
Definition wiring_ops : list op := [clients_op; tokens_op; log_op; use_oauth demo_config].

(** The states of the registered components, and the server they bound. *)
Definition came_up (os : list op) : option (list State * option string) :=
  (λ a, (state_of a <$> a_fibers a, dyn_type ∘ b_value <$> a_store a !! key_ref (KeyAS in_memory))) <$> exec_all 6 os App_New.

(** In whatever order the stores are bound and the component registered. *)
Example oauth_comes_up :
  forallb (λ os, bool_decide (came_up os = Some ([StateActive], Some "*oauth.service"))) (permutations wiring_ops) = true.
Proof. vm_compute. reflexivity. Qed.

Example oauth_waits_for_tokens :
  forallb (λ os, bool_decide (came_up os = Some ([StateInactive], None)))
    (permutations [clients_op; log_op; use_oauth demo_config]) = true.
Proof. vm_compute. reflexivity. Qed.

Example oauth_fails_closed :
  forallb (λ os, bool_decide (came_up os = Some ([StateFailed], None)))
    (permutations [clients_op; tokens_op; log_op;
       use_oauth (mkConfig EmptyString (cfg_Scopes demo_config) 0 0 0 None 0 0 EmptyString)]) = true.
Proof. vm_compute. reflexivity. Qed.

Lemma runtime_settles_witness : ∃ a, exec_all 6 wiring_ops App_New = Some a ∧ quiescent a.
Proof. apply (runtime_settles 6 wiring_ops). cbn [length wiring_ops]. lia. Defined.

Lemma Shutdown_exact_witness :
  ∃ a a', exec_all 6 wiring_ops App_New = Some a ∧ run (App_Shutdown 6) a = Some (a', Ok tt) ∧ a_store a' = ∅.
Proof.
  destruct (Shutdown_exact 6 wiring_ops) as (a & a' & Ha & Hr & _ & _ & _ & Hst & _); [cbn [length wiring_ops]; lia|].
  exists a, a'. split_and!; assumption.
Defined.

Definition up : App := default App_New (exec_all 6 wiring_ops App_New).

Lemma up_runs : exec_all 6 wiring_ops App_New = Some up.
Proof.
  assert (Hsome : bool_decide (is_Some (exec_all 6 wiring_ops App_New)) = true) by (vm_compute; reflexivity).
  apply bool_decide_eq_true_1 in Hsome as [a Ha]. unfold up. rewrite Ha. reflexivity.
Qed.
Lemma up_fibers : a_fibers up = [4].
Proof. vm_compute. reflexivity. Qed.
Lemma up_names : NoDup (c_Name <$> components up).
Proof. assert (c_Name <$> components up = ["oauth"]) as -> by (vm_compute; reflexivity). repeat constructor. set_solver. Qed.

Lemma Check_exact_witness :
  App_Check map_to_list (components up) = [] ↔
    (∀ ref, length (declarations (components up) ref) ≤ 1) ∧ ∀ x, ¬ tc (needs (components up)) x x.
Proof. apply (Check_exact map_to_list (components up)); [intros m; reflexivity|apply up_names]. Defined.

Lemma up_injects : ∀ r, r ∈ c_Inject (fb_comp (fiber_of up 4)) → ∃ b, a_store up !! r = Some b ∧ b_provider b = None.
Proof.
  assert (Hall : forallb (λ r, bool_decide (b_provider <$> a_store up !! r = Some None)) (c_Inject (fb_comp (fiber_of up 4))) = true)
    by (vm_compute; reflexivity).
  intros r Hr. rewrite forallb_forall in Hall. apply list_elem_of_In, Hall, bool_decide_eq_true_1 in Hr.
  apply fmap_Some in Hr as (b & Hb & Hp). exists b. split; [assumption|symmetry; assumption].
Qed.
Lemma up_provides : ∀ r, r ∈ c_Provides (fb_comp (fiber_of up 4)) → is_Some (a_store up !! r).
Proof.
  assert (Hall : forallb (λ r, bool_decide (is_Some (a_store up !! r))) (c_Provides (fb_comp (fiber_of up 4))) = true)
    by (vm_compute; reflexivity).
  intros r Hr. rewrite forallb_forall in Hall. apply list_elem_of_In, Hall, bool_decide_eq_true_1 in Hr. assumption.
Qed.

Lemma checked_composition_runs_witness : state_of up 4 = StateActive.
Proof.
  assert (Hs : bool_decide (state_of up 4 = StateFailed) = false) by (vm_compute; reflexivity).
  apply (checked_composition_runs map_to_list 6 wiring_ops up); rewrite ?up_fibers.
  - intros m. reflexivity.
  - cbn [length wiring_ops]. lia.
  - apply up_runs.
  - apply up_names.
  - vm_compute. reflexivity.
  - intros g ref ->%list_elem_of_singleton Hr. left. apply up_injects. assumption.
  - intros g ->%list_elem_of_singleton. exact (bool_decide_eq_false_1 _ Hs).
  - intros g ref ->%list_elem_of_singleton _ Hr. apply up_provides. assumption.
  - by apply list_elem_of_singleton.
Defined.

(** ** Interleavings *)

Local Abbreviation cpool := (App * list (go App unit))%type.

Definition turns (sched : list nat) (x : cpool) : cpool := default x (run_sched sched x.1 x.2).
Definition times (n i : nat) : list nat := replicate n i.

Lemma turns_reach sched x : bool_decide (is_Some (run_sched sched x.1 x.2)) = true → preach x (turns sched x).
Proof.
  destruct x as [w ps]. unfold turns. cbn [fst snd]. intros [[w1 ps1] E]%bool_decide_eq_true. rewrite E. by eapply run_sched_reach.
Qed.

(** Everybody returned. *)
Definition finished (x : cpool) : bool := forallb (λ p, match p with Ret _ => true | _ => false end) x.2.

(** A component that opens something and closes it, publishing or needing a key. *)
Definition pipe : Key := wire in_memory "demo" "pipe" "oauth.Store".
Definition opener (name : string) (provides inject : list KeyRef) : Component :=
  mkComponent name provides inject (Some (λ _, SEffect name (Some name)
    (foldr (λ r s, SProvide pipe (mkAny "*oauth.MemoryStore" name) (λ _, s)) (SReturn RNil) provides))).

Definition shutdown_pool : cpool := (App_New, act 8 <$> [AOp (OUse (opener "listener" [] []) nothing); AShutdown]).

(** A shutdown between two passes of a reconciliation: the next pass loads the
    component again, and nothing will ever close what it opened. *)
Example shutdown_race :
  let x := turns (times 11 0 ++ times 9 1 ++ times 14 0) shutdown_pool in
  finished x = true ∧ a_closed x.1 = true ∧ state_of x.1 <$> a_fibers x.1 = [StateActive] ∧
  a_log x.1 = [Did "listener"; Undid "listener"; Did "listener"].
Proof. vm_compute. done. Qed.

(** A provider and its dependent; while a third component is being registered
    the provider is removed, and its effect is undone before the dependent's. *)
Definition pair_up : App :=
  default App_New (exec_all 8 [OUse (opener "provider" [key_ref pipe] []) nothing;
                               OUse (opener "dependent" [] [key_ref pipe]) nothing] App_New).
Definition remove_pool : cpool := (pair_up, act 8 <$> [AOp (OUse (opener "third" [] []) nothing); AOp (ORemove 1)]).

Example remove_race :
  let x := turns (times 4 0 ++ times 12 1 ++ times 19 0) remove_pool in
  finished x = true ∧
  a_log x.1 = [Did "provider"; Did "dependent"; Undid "provider"; Undid "dependent"; Did "third"].
Proof. vm_compute. done. Qed.

(** Alone, [Remove] undoes the dependent first. *)
Example remove_alone :
  (λ x, a_log x.1) <$> run (App_Remove 8 1) pair_up =
  Some [Did "provider"; Did "dependent"; Undid "dependent"; Undid "provider"].
Proof. vm_compute. reflexivity. Qed.

(** Components of the same name: the last one hides the cycle of the first. *)
Example check_same_name :
  let k1 := mkRef "demo" "one" in let k2 := mkRef "demo" "two" in
  App_Check map_to_list [opener "a" [k1] [k2]; opener "b" [k2] [k1]; opener "a" [] []] = [] ∧
  App_Check map_to_list [opener "a" [k1] [k2]; opener "b" [k2] [k1]; opener "c" [] []] ≠ [].
Proof. vm_compute. done. Qed.

(** A removal that overtakes the load of what it removes. *)
Definition overtaken : list activity := [AOp (OUse (opener "late" [key_ref pipe] []) nothing); AOp (ORemove 1)].
Definition overtaking : cpool := turns (times 6 0 ++ times 1 1) (App_New, act 8 <$> overtaken).
Definition overtook : cpool := turns (times 12 0) overtaking.

Lemma runtime_confined_witness : ∃ y, a_heap overtook.1 !! 1 = Some y ∧ fb_removed y = true ∧ fb_state y ≠ StateActive.
Proof.
  assert (Hr : bool_decide (fb_removed <$> a_heap overtaking.1 !! 1 = Some true) = true) by (vm_compute; reflexivity).
  apply bool_decide_eq_true_1, fmap_Some in Hr as (x & Hx & Hrx).
  apply (runtime_confined 8 overtaken overtaking.1 overtaking.2 overtook.1 overtook.2) with (x := x).
  - rewrite <-surjective_pairing. apply turns_reach. vm_compute. reflexivity.
  - rewrite <-!surjective_pairing. apply turns_reach. vm_compute. reflexivity.
  - exact Hx.
  - symmetry. exact Hrx.
Defined.
