(* ===== verification/Admin.v ===== *)
(** * The operator plane ([internal/admin/admin.go])

    Registration and suspension of clients, and the kill switch. Like account
    erasure, the package owns no storage: its stores are ports, here processes
    over the world they share. A Go port that returns a value beside its error
    is a process that returns both. *)

From S2P Require Import Prelude GoStd Proc AuditLog Tokens Client.

(** ** Ports, configuration, requests *)

Record BindingOutcome := mkOutcome {
  bo_Total : Z;
  bo_Revoked : Z;
  bo_Cascade : Z;
  bo_Unsupported : Z;
  bo_Unavailable : Z;
  bo_Orphaned : Z;
  bo_Failed : Z;
}.

(** A value and an error, as Go returns them. *)
Local Abbreviation both A := (A * option error)%type.

Record Clients (W : Type) := mkClientsPort {
  cs_Create : Client → go W unit;
  cs_ListClients : Z → string → go W (list Client * string);
  cs_SetStatus : string → ClientStatus → go W unit;
  cs_RotateSecret : string → string → go W unit;
  cs_Delete : string → go W unit;
}.
Record SessionRevoker (W : Type) := mkSessionsPort {
  sr_RevokeAllSessions : go W (both Z);
  sr_RevokeSubjectSessions : string → go W (both Z);
}.
Record Bindings (W : Type) := mkBindingsPort {
  bi_RevokeAllBindings : go W (both BindingOutcome);
  bi_RevokeSubjectBindings : string → go W (both BindingOutcome);
}.
Arguments mkClientsPort {W}.
Arguments cs_Create {W}.
Arguments cs_ListClients {W}.
Arguments cs_SetStatus {W}.
Arguments cs_RotateSecret {W}.
Arguments cs_Delete {W}.
Arguments mkSessionsPort {W}.
Arguments sr_RevokeAllSessions {W}.
Arguments sr_RevokeSubjectSessions {W}.
Arguments mkBindingsPort {W}.
Arguments bi_RevokeAllBindings {W}.
Arguments bi_RevokeSubjectBindings {W}.

(** [Config]; a nil port is [None]. *)
Record AdminConfig (W : Type) := mkAdminConfig {
  ac_Clients : option (Clients W);
  ac_Tokens : option (TokenFilter → go W (both Z));
  ac_Sessions : option (SessionRevoker W);
  ac_Bindings : option (Bindings W);
  ac_Flows : option (string → go W (both Z));
  ac_Audit : option (Event → go W unit);
  ac_Now : option (W → Z);
}.
Arguments mkAdminConfig {W}.
Arguments ac_Clients {W}.
Arguments ac_Tokens {W}.
Arguments ac_Sessions {W}.
Arguments ac_Bindings {W}.
Arguments ac_Flows {W}.
Arguments ac_Audit {W}.
Arguments ac_Now {W}.

Record admin (W : Type) := mkAdmin {
  ad_clients : Clients W;
  ad_tokens : TokenFilter → go W (both Z);
  ad_sessions : option (SessionRevoker W);
  ad_bindings : option (Bindings W);
  ad_flows : option (string → go W (both Z));
  ad_audit : Event → go W unit;
  ad_now : W → Z;
}.
Arguments mkAdmin {W}.
Arguments ad_clients {W}.
Arguments ad_tokens {W}.
Arguments ad_sessions {W}.
Arguments ad_bindings {W}.
Arguments ad_flows {W}.
Arguments ad_audit {W}.
Arguments ad_now {W}.

(** [New]; [time_Now] is the default clock. *)
Definition NewAdmin {W} (time_Now : W → Z) (cfg : AdminConfig W) : result (admin W) :=
  match ac_Clients cfg, ac_Tokens cfg, ac_Audit cfg with
  | None, _, _ => Err (New "admin: Clients is required")
  | _, None, _ => Err (New "admin: Tokens is required")
  | _, _, None => Err (New "admin: Audit is required")
  | Some clients, Some tokens, Some audit =>
      Ok (mkAdmin clients tokens (ac_Sessions cfg) (ac_Bindings cfg) (ac_Flows cfg) audit (default time_Now (ac_Now cfg)))
  end.

Record RegisterRequest := mkRegister {
  rq_Name : string;
  rq_Type : ClientType;
  rq_RedirectURIs : list string;
  rq_AllowedScopes : list string;
}.
Record Registration := mkRegistration {
  rn_Client : Client;
  rn_Secret : string;
}.
Record Target := mkTarget {
  tg_All : bool;
  tg_ClientID : string;
  tg_Subject : string;
  tg_Bindings : bool;
}.

Record Report := mkReport {
  rp_TokensRevoked : Z;
  rp_SessionsRevoked : Z;
  rp_ClientsSuspended : Z;
  rp_FlowsPurged : Z;
  rp_Bindings : option BindingOutcome;
  rp_BindingsUnavailable : bool;
  rp_SessionsUnavailable : bool;
  rp_FlowsUnavailable : bool;
}.
Definition zero_report : Report := mkReport 0 0 0 0 None false false false.

Definition with_tokens (n : Z) (r : Report) : Report :=
  mkReport n (rp_SessionsRevoked r) (rp_ClientsSuspended r) (rp_FlowsPurged r) (rp_Bindings r)
    (rp_BindingsUnavailable r) (rp_SessionsUnavailable r) (rp_FlowsUnavailable r).
Definition with_sessions (n : Z) (r : Report) : Report :=
  mkReport (rp_TokensRevoked r) n (rp_ClientsSuspended r) (rp_FlowsPurged r) (rp_Bindings r)
    (rp_BindingsUnavailable r) (rp_SessionsUnavailable r) (rp_FlowsUnavailable r).
Definition with_suspended (n : Z) (r : Report) : Report :=
  mkReport (rp_TokensRevoked r) (rp_SessionsRevoked r) n (rp_FlowsPurged r) (rp_Bindings r)
    (rp_BindingsUnavailable r) (rp_SessionsUnavailable r) (rp_FlowsUnavailable r).
Definition with_flows (n : Z) (r : Report) : Report :=
  mkReport (rp_TokensRevoked r) (rp_SessionsRevoked r) (rp_ClientsSuspended r) n (rp_Bindings r)
    (rp_BindingsUnavailable r) (rp_SessionsUnavailable r) (rp_FlowsUnavailable r).
Definition with_bindings (o : BindingOutcome) (r : Report) : Report :=
  mkReport (rp_TokensRevoked r) (rp_SessionsRevoked r) (rp_ClientsSuspended r) (rp_FlowsPurged r) (Some o)
    (rp_BindingsUnavailable r) (rp_SessionsUnavailable r) (rp_FlowsUnavailable r).
Definition no_bindings (r : Report) : Report :=
  mkReport (rp_TokensRevoked r) (rp_SessionsRevoked r) (rp_ClientsSuspended r) (rp_FlowsPurged r) (rp_Bindings r)
    true (rp_SessionsUnavailable r) (rp_FlowsUnavailable r).
Definition no_sessions (r : Report) : Report :=
  mkReport (rp_TokensRevoked r) (rp_SessionsRevoked r) (rp_ClientsSuspended r) (rp_FlowsPurged r) (rp_Bindings r)
    (rp_BindingsUnavailable r) true (rp_FlowsUnavailable r).
Definition no_flows (r : Report) : Report :=
  mkReport (rp_TokensRevoked r) (rp_SessionsRevoked r) (rp_ClientsSuspended r) (rp_FlowsPurged r) (rp_Bindings r)
    (rp_BindingsUnavailable r) (rp_SessionsUnavailable r) true.

(** What [KillSwitch] can fail with. *)
Inductive KillError :=
| ErrInvalidTarget
| ErrBindingsUnavailable
| PartialError (Rep : Report) (Step : string) (cause : error).

Definition KillError_Error (e : KillError) : string :=
  match e with
  | ErrInvalidTarget => "admin: the kill switch needs exactly one target"
  | ErrBindingsUnavailable => "admin: this deployment cannot revoke data-source bindings"
  | PartialError _ step err => "admin: kill switch partially applied at " +:+ step +:+ ": " +:+ Error err
  end.

Definition ErrInvalidRegistration : error := New "admin: invalid registration".

(** [Target.setCount], [auditSubject], [scope]. *)
Definition named (s : string) : bool := negb (bool_decide (s = EmptyString)).
Definition setCount (t : Target) : nat :=
  Nat.b2n (tg_All t) + Nat.b2n (named (tg_ClientID t)) + Nat.b2n (named (tg_Subject t)) + Nat.b2n (tg_Bindings t).
Definition auditSubject (t : Target) : string :=
  if named (tg_ClientID t) then tg_ClientID t else if named (tg_Subject t) then tg_Subject t else "all".
Definition target_scope (t : Target) : string :=
  if tg_All t then "all" else if named (tg_ClientID t) then "client"
  else if named (tg_Subject t) then "subject" else "bindings".

(** [killDetail]. *)
Definition insert_if (b : bool) (k v : string) (m : gmap string string) : gmap string string :=
  if b then <[k := v]> m else m.
Definition killDetail (rep : Report) (t : Target) : gmap string string :=
  let detail : gmap string string := list_to_map
    [("scope", target_scope t); ("tokens_revoked", strconv_Itoa (rp_TokensRevoked rep));
     ("sessions_revoked", strconv_Itoa (rp_SessionsRevoked rep))] in
  let detail := insert_if (named (tg_ClientID t)) "client_id" (tg_ClientID t) detail in
  let detail := insert_if (negb (rp_FlowsPurged rep =? 0)%Z) "flows_purged" (strconv_Itoa (rp_FlowsPurged rep)) detail in
  let detail := insert_if (rp_BindingsUnavailable rep) "bindings_unavailable" "true" detail in
  let detail := insert_if (rp_SessionsUnavailable rep) "sessions_unavailable" "true" detail in
  let detail := insert_if (rp_FlowsUnavailable rep) "flows_unavailable" "true" detail in
  match rp_Bindings rep with
  | None => detail
  | Some o =>
      <["bindings_total" := strconv_Itoa (bo_Total o)]> (<["bindings_revoked" := strconv_Itoa (bo_Revoked o)]>
        (<["bindings_failed" := strconv_Itoa (bo_Failed o)]> detail))
  end.

Definition outcome_of (err : option error) : string :=
  match err with Some _ => OutcomeError | None => OutcomeOK end.
Definition err_of {A} (r : result A) : option error := match r with Ok _ => None | Err e => Some e end.

(** [errors.Join] of two, up to the wrapper it puts around a single one. *)
Definition join_errors (e1 e2 : option error) : option error :=
  match e1, e2 with
  | None, e => e
  | e, None => e
  | Some e1, Some e2 => Some (Join e1 e2)
  end.

Section service.
Context `{Platform} {W : Type} (s : admin W).
(** [rand.Read] into a buffer of a length, and [time.Now]. *)
Context (rand_Read : nat → go W (option string)) (time_Now : W → Z).

(** [record]: a row that cannot be written is logged, not returned. *)
Definition admin_event (t : Z) (actor action subject outcome : string) (detail : gmap string string) : Event :=
  mkEvent t action subject "admin" outcome (<["actor" := actor]> detail).
Definition record (actor action subject outcome : string) (detail : gmap string string) : go W unit :=
  t ← reads (ad_now s);
  try (ad_audit s (admin_event t actor action subject outcome detail));;
  mret tt.

(** ** Clients *)

Definition newClientID : go W string :=
  b ← rand_Read 8;
  match b with
  | None => throw (New "admin: generate client id")
  | Some b => mret ("cli_" +:+ hex_EncodeToString b)
  end.
Definition newSecret : go W string :=
  b ← rand_Read 32;
  match b with
  | None => throw (New "admin: generate client secret")
  | Some b => mret (hex_EncodeToString b)
  end.

(** [oauth.NewClientWithVerifier] with [VerifierGenerated]; the salt is read
    only if the verifier is reached. [None] is the panic of a read that fails. *)
Definition new_client (id secret : string) (req : RegisterRequest) : go W (option (result Client)) :=
  now ← reads time_Now;
  let build hash := newClient now id (rq_Name req) (rq_Type req) secret (rq_RedirectURIs req) (rq_AllowedScopes req) hash in
  match build (λ _, None) with
  | Some r => mret (Some r)
  | None => salt ← rand_Read secretHashSaltBytes; mret (build (NewGeneratedSecretHash salt))
  end.

(** The secret a registration gets: none unless the client is confidential. *)
Definition secret_for (req : RegisterRequest) : go W string :=
  if bool_decide (rq_Type req = ClientConfidential) then newSecret else mret EmptyString.

(** [Register]; [None] is the panic. *)
Definition Register (actor : string) (req : RegisterRequest) : go W (option Registration) :=
  id ← newClientID;
  secret ← secret_for req;
  client ← new_client id secret req;
  match client with
  | None => mret None
  | Some (Err err) => throw (Wrap ("admin: invalid registration: " +:+ Error err) (Join ErrInvalidRegistration err))
  | Some (Ok client) =>
      cs_Create (ad_clients s) client;;
      record actor "admin.client.register" id OutcomeOK (<["type" := cl_Type client]> {[ "client_id" := id ]});;
      mret (Some (mkRegistration client secret))
  end.

(** [RotateClientSecret]; [None] is the panic. *)
Definition RotateClientSecret (actor clientID : string) : go W (option string) :=
  secret ← newSecret;
  salt ← rand_Read secretHashSaltBytes;
  match NewGeneratedSecretHash salt secret with
  | None => mret None
  | Some hash =>
      r ← try (cs_RotateSecret (ad_clients s) clientID hash);
      record actor "admin.client.rotate_secret" clientID (outcome_of (err_of r)) {[ "client_id" := clientID ]};;
      match r with
      | Err err => throw err
      | Ok _ => mret (Some secret)
      end
  end.

Definition SuspendClient (actor clientID : string) : go W unit :=
  r ← try (cs_SetStatus (ad_clients s) clientID ClientSuspended);
  match r with
  | Err err =>
      record actor "admin.client.suspend" clientID OutcomeError {[ "client_id" := clientID ]};;
      throw err
  | Ok _ =>
      p ← ad_tokens s (mkFilter clientID EmptyString);
      record actor "admin.client.suspend" clientID (outcome_of p.2)
        (<["tokens_revoked" := strconv_Itoa p.1]> {[ "client_id" := clientID ]});;
      match p.2 with Some err => throw err | None => mret tt end
  end.

Definition ActivateClient (actor clientID : string) : go W unit :=
  r ← try (cs_SetStatus (ad_clients s) clientID ClientActive);
  record actor "admin.client.activate" clientID (outcome_of (err_of r)) {[ "client_id" := clientID ]};;
  lift_result r.

Definition DeleteClient (actor clientID : string) : go W unit :=
  r ← try (cs_Delete (ad_clients s) clientID);
  p ← ad_tokens s (mkFilter clientID EmptyString);
  let err := join_errors (err_of r) p.2 in
  record actor "admin.client.delete" clientID (outcome_of err)
    (<["tokens_revoked" := strconv_Itoa p.1]> {[ "client_id" := clientID ]});;
  match err with Some err => throw err | None => mret tt end.

(** ** The kill switch *)

Local Abbreviation Out := (Report * option KillError)%type.

Definition recordKill (actor : string) (t : Target) (outcome : string) (rep : Report) : go W unit :=
  record actor "admin.kill_switch" (auditSubject t) outcome (killDetail rep t).

(** [s.recordKill(...); return rep, partial(step, rep, err)]. *)
Definition stop (actor : string) (t : Target) (step : string) (rep : Report) (err : error) : go W Out :=
  recordKill actor t OutcomeError rep;;
  mret (rep, Some (PartialError rep step err)).

Definition clients_step (actor : string) (t : Target) (rep : Report) (k : Report → go W Out) : go W Out :=
  if named (tg_ClientID t) then
    r ← try (cs_SetStatus (ad_clients s) (tg_ClientID t) ClientSuspended);
    match r with
    | Err err => stop actor t "clients" rep err
    | Ok _ => k (with_suspended 1 rep)
    end
  else k rep.

Definition tokens_step (actor : string) (t : Target) (rep : Report) (k : Report → go W Out) : go W Out :=
  if tg_Bindings t then k rep
  else
    p ← ad_tokens s (mkFilter (tg_ClientID t) (tg_Subject t));
    let rep := with_tokens p.1 rep in
    match p.2 with
    | Some err => stop actor t "tokens" rep err
    | None => k rep
    end.

Definition sessions_step (actor : string) (t : Target) (rep : Report) (k : Report → go W Out) : go W Out :=
  if tg_All t || named (tg_Subject t) then
    match ad_sessions s with
    | Some port =>
        p ← (if tg_All t then sr_RevokeAllSessions port else sr_RevokeSubjectSessions port (tg_Subject t));
        match p.2 with
        | Some err => stop actor t "sessions" rep err
        | None => k (with_sessions p.1 rep)
        end
    | None => k (no_sessions rep)
    end
  else k rep.

Definition bindings_step (actor : string) (t : Target) (rep : Report) (k : Report → go W Out) : go W Out :=
  if tg_All t || tg_Bindings t || named (tg_Subject t) then
    match ad_bindings s with
    | Some port =>
        p ← (if named (tg_Subject t) && negb (tg_All t) && negb (tg_Bindings t)
             then bi_RevokeSubjectBindings port (tg_Subject t) else bi_RevokeAllBindings port);
        match p.2 with
        | Some err => stop actor t "bindings" rep err
        | None => k (with_bindings p.1 rep)
        end
    | None => k (no_bindings rep)
    end
  else k rep.

Definition flows_step (actor : string) (t : Target) (rep : Report) (k : Report → go W Out) : go W Out :=
  match (if named (tg_Subject t) then ad_flows s else None) with
  | Some port =>
      p ← port (tg_Subject t);
      match p.2 with
      | Some err => stop actor t "flows" rep err
      | None => k (with_flows p.1 rep)
      end
  | None => if tg_All t || named (tg_Subject t) then k (no_flows rep) else k rep
  end.

Definition KillSwitch (actor : string) (t : Target) : go W Out :=
  if negb (setCount t =? 1) then mret (zero_report, Some ErrInvalidTarget) else
  if tg_Bindings t && match ad_bindings s with None => true | Some _ => false end
  then mret (zero_report, Some ErrBindingsUnavailable)
  else
    clients_step actor t zero_report (λ rep,
    tokens_step actor t rep (λ rep,
    sessions_step actor t rep (λ rep,
    bindings_step actor t rep (λ rep,
    flows_step actor t rep (λ rep,
    recordKill actor t OutcomeOK rep;;
    mret (rep, None)))))).
End service.
