(* ===== verification/AdminProps.v ===== *)
(** * What the operator plane promises

    The kill switch against the contracts of its ports: what it says it cut is
    cut, what it could not reach it says, and a failure is told with what was
    already done. *)

From S2P Require Import Prelude GoStd Proc AuditLog Tokens Client Admin.

(** ** What a sweep is about *)

Inductive dim := DClients | DTokens | DSessions | DBindings | DFlows.

Definition dim_rank (d : dim) : nat :=
  match d with DClients => 0 | DTokens => 1 | DSessions => 2 | DBindings => 3 | DFlows => 4 end.
Definition dim_name (d : dim) : string :=
  match d with
  | DClients => "clients" | DTokens => "tokens" | DSessions => "sessions" | DBindings => "bindings" | DFlows => "flows"
  end.

(** The dimensions a target has. *)
Definition dims (t : Target) (d : dim) : bool :=
  match d with
  | DClients => named (tg_ClientID t)
  | DTokens => negb (tg_Bindings t)
  | DSessions => tg_All t || named (tg_Subject t)
  | DBindings => tg_All t || tg_Bindings t || named (tg_Subject t)
  | DFlows => tg_All t || named (tg_Subject t)
  end.

(** The dimensions the deployment can sweep for a target; no port enumerates
    the flows of everybody. *)
Definition configured {A} (o : option A) : bool := match o with Some _ => true | None => false end.
Definition reachable {W} (s : admin W) (t : Target) (d : dim) : bool :=
  match d with
  | DClients | DTokens => true
  | DSessions => configured (ad_sessions s)
  | DBindings => configured (ad_bindings s)
  | DFlows => named (tg_Subject t) && configured (ad_flows s)
  end.

(** What a report says it could not reach. *)
Definition flagged (rep : Report) (d : dim) : bool :=
  match d with
  | DClients | DTokens => false
  | DSessions => rp_SessionsUnavailable rep
  | DBindings => rp_BindingsUnavailable rep
  | DFlows => rp_FlowsUnavailable rep
  end.

(** ** What the ports promise *)

(** Whether nothing of a target is left in a dimension, and whether what is not
    the target's is as it was. *)
Class Plane (W : Type) := {
  pl_inv : W → Prop;
  pl_cut : dim → Target → W → Prop;
  pl_same : Target → W → W → Prop;
  pl_last : W → option Event;
  pl_same_refl t w : pl_same t w w;
  pl_same_trans t w1 w2 w3 : pl_same t w1 w2 → pl_same t w2 w3 → pl_same t w1 w3;
}.

Section contract.
Context {W : Type} `{Plane W}.

(** A step for a target: it undoes no cut and touches nothing else. *)
Definition advances (t : Target) (w w' : W) : Prop :=
  pl_inv w' ∧ pl_same t w w' ∧ ∀ d, pl_cut d t w → pl_cut d t w'.

(** A port that answers without an error, with a value it vouches for, has cut
    its dimension. *)
Definition cuts {A} (d : dim) (t : Target) (good : A → bool) (port : go W (A * option error)) : Prop :=
  ∀ w, pl_inv w → runs port w (λ w' r, ∃ a err, r = Ok (a, err) ∧ advances t w w' ∧
    (err = None → good a = true → pl_cut d t w')).
Definition sweeps (d : dim) (t : Target) (port : go W unit) : Prop :=
  ∀ w, pl_inv w → runs port w (λ w' r, advances t w w' ∧ (r = Ok tt → pl_cut d t w')).
Definition any_value {A} (_ : A) : bool := true.
Definition complete (o : BindingOutcome) : bool := (bo_Failed o <=? 0)%Z.

(** The log keeps what it says it kept. *)
Definition records (audit : Event → go W unit) : Prop :=
  ∀ e w, pl_inv w → runs (audit e) w (λ w' r,
    (∀ t, advances t w w') ∧ (r = Ok tt → ∃ z, pl_last w' = Some (set_time z e))).

Class AdminOk (s : admin W) : Prop := {
  ao_clients t : tg_ClientID t ≠ EmptyString → sweeps DClients t (cs_SetStatus (ad_clients s) (tg_ClientID t) ClientSuspended);
  ao_tokens t : setCount t = 1 → tg_Bindings t = false → cuts DTokens t any_value (ad_tokens s (mkFilter (tg_ClientID t) (tg_Subject t)));
  ao_all_sessions p t : ad_sessions s = Some p → tg_All t = true → cuts DSessions t any_value (sr_RevokeAllSessions p);
  ao_sessions p t : ad_sessions s = Some p → tg_All t = false → tg_Subject t ≠ EmptyString →
    cuts DSessions t any_value (sr_RevokeSubjectSessions p (tg_Subject t));
  ao_all_bindings p t : ad_bindings s = Some p → tg_All t || tg_Bindings t = true →
    cuts DBindings t complete (bi_RevokeAllBindings p);
  ao_bindings p t : ad_bindings s = Some p → tg_All t = false → tg_Bindings t = false → tg_Subject t ≠ EmptyString →
    cuts DBindings t complete (bi_RevokeSubjectBindings p (tg_Subject t));
  ao_flows p t : ad_flows s = Some p → tg_Subject t ≠ EmptyString → cuts DFlows t any_value (p (tg_Subject t));
  ao_audit : records (ad_audit s);
}.

Context (s : admin W) `{!AdminOk s} (actor : string) (t : Target) (w0 : W).

(** A dimension the report answers for: cut, or bindings left behind that the
    report counts. *)
Definition answered (rep : Report) (w : W) (d : dim) : Prop :=
  pl_cut d t w ∨ d = DBindings ∧ ∃ o, rp_Bindings rep = Some o ∧ (0 < bo_Failed o)%Z.

(** The call a dimension makes. *)
Definition sessions_call (p : SessionRevoker W) : go W (Z * option error) :=
  if tg_All t then sr_RevokeAllSessions p else sr_RevokeSubjectSessions p (tg_Subject t).
Definition bindings_call (p : Bindings W) : go W (BindingOutcome * option error) :=
  if named (tg_Subject t) && negb (tg_All t) && negb (tg_Bindings t)
  then bi_RevokeSubjectBindings p (tg_Subject t) else bi_RevokeAllBindings p.

(** Whether it is answered without an error and in full, wherever the sweep has
    come to. *)
Definition no_error {A} (good : A → bool) (port : go W (A * option error)) : Prop :=
  ∀ w, pl_inv w → pl_same t w0 w → runs port w (λ _ r, ∃ a, r = Ok (a, None) ∧ good a = true).
Definition answers (d : dim) : Prop :=
  match d with
  | DClients => ∀ w, pl_inv w → pl_same t w0 w → runs (cs_SetStatus (ad_clients s) (tg_ClientID t) ClientSuspended) w (λ _ r, r = Ok tt)
  | DTokens => no_error any_value (ad_tokens s (mkFilter (tg_ClientID t) (tg_Subject t)))
  | DSessions => ∀ p, ad_sessions s = Some p → no_error any_value (sessions_call p)
  | DBindings => ∀ p, ad_bindings s = Some p → no_error complete (bindings_call p)
  | DFlows => ∀ p, ad_flows s = Some p → no_error any_value (p (tg_Subject t))
  end.

(** After the steps before the [n]th. *)
Record so_far (n : nat) (rep : Report) (w : W) : Prop := {
  sf_inv : pl_inv w;
  sf_same : pl_same t w0 w;
  sf_done d : dim_rank d < n → dims t d = true → reachable s t d = true → answered rep w d;
  sf_flags d : flagged rep d = bool_decide (dim_rank d < n) && dims t d && negb (reachable s t d);
  sf_none : n ≤ 3 → rp_Bindings rep = None;
  sf_full o : answers DBindings → rp_Bindings rep = Some o → complete o = true;
}.

(** Whether the rows the audit log is given are kept. *)
Definition audited : Prop := ∀ e w, pl_inv w → runs (ad_audit s e) w (λ _ r, r = Ok tt).

Definition kill_event (z : Z) (outcome : string) (rep : Report) : Event :=
  admin_event z actor "admin.kill_switch" (auditSubject t) outcome (killDetail rep t).

Definition told (w' : W) (r : result (Report * option KillError)) : Prop :=
  ∃ rep err, r = Ok (rep, err) ∧ pl_same t w0 w' ∧
  match err with
  | None =>
      setCount t = 1 ∧ (∀ d, dims t d = true → if reachable s t d then answered rep w' d else flagged rep d = true) ∧
      (∀ d, flagged rep d = true → dims t d = true ∧ reachable s t d = false) ∧
      (∀ o, answers DBindings → rp_Bindings rep = Some o → complete o = true) ∧
      (audited → ∃ z, pl_last w' = Some (kill_event z OutcomeOK rep))
  | Some ErrInvalidTarget => setCount t ≠ 1 ∧ w' = w0
  | Some ErrBindingsUnavailable => tg_Bindings t = true ∧ ad_bindings s = None ∧ w' = w0
  | Some (PartialError rep' step _) =>
      rep' = rep ∧ ∃ d, step = dim_name d ∧ dims t d = true ∧ reachable s t d = true ∧ ¬ answers d ∧
        (∀ d', dim_rank d' < dim_rank d → dims t d' = true → reachable s t d' = true → answered rep w' d') ∧
        (audited → ∃ z, pl_last w' = Some (kill_event z OutcomeError rep))
  end.

Lemma so_far_step n rep w w' : so_far n rep w → advances t w w' → so_far n rep w'.
Proof.
  intros [Hi Hs Hd Hf Hn Hfu] (Hi' & Hs' & Hc). split; [done|by eapply pl_same_trans| |done..]. intros d H1 H2 H3.
  destruct (Hd d H1 H2 H3) as [Hcut|Hb]; [left; by apply Hc|by right].
Qed.

Lemma runs_recordKill outcome n rep w :
  so_far n rep w → runs (recordKill s actor t outcome rep) w (λ w' r, r = Ok tt ∧ so_far n rep w' ∧
    (audited → ∃ z, pl_last w' = Some (kill_event z outcome rep))).
Proof using All.
  intros Hw. set (ev := kill_event (ad_now s w) outcome rep). pose proof (ao_audit ev w (sf_inv _ _ _ Hw)) as Ha.
  apply runs_elim in Ha as (w' & r & Hr & Hadv & Hl). eapply runs_intro.
  { unfold recordKill, record. rewrite run_bind, run_reads, run_bind, run_try.
    change (admin_event _ _ _ _ _ _) with ev. rewrite Hr. apply run_ret. }
  split; [done|]. split; [by eapply so_far_step|]. intros Hall. specialize (Hall ev w (sf_inv _ _ _ Hw)).
  unfold runs in Hall. rewrite Hr in Hall. destruct (Hl Hall) as [z ->]. by exists z.
Qed.

Lemma runs_stop d rep err w :
  dims t d = true → reachable s t d = true → ¬ answers d → so_far (dim_rank d) rep w →
  runs (stop s actor t (dim_name d) rep err) w told.
Proof using All.
  intros Hd Hr Hno Hw. unfold stop. eapply runs_bind; [by apply runs_recordKill|..].
  - intros w' _ (_ & Hw' & Hl). apply runs_intro with (w' := w') (a := Ok (rep, Some (PartialError rep (dim_name d) err))); [done|].
    eexists _, _. split; [done|]. split; [apply Hw'|]. split; [done|]. exists d. split_and!; [done..|apply Hw'|done].
  - by intros w' e [? _].
Qed.

Lemma rank_inj d d' : dim_rank d' < S (dim_rank d) → d' = d ∨ dim_rank d' < dim_rank d.
Proof. destruct d, d'; simpl; (by left) || (right; lia) || lia. Qed.

Lemma so_far_next d rep rep' w :
  so_far (dim_rank d) rep w →
  (rp_Bindings rep' = rp_Bindings rep ∨
   dim_rank d = 3 ∧ ∀ o, answers DBindings → rp_Bindings rep' = Some o → complete o = true) →
  (dims t d = true → reachable s t d = true → answered rep' w d) →
  (∀ d', flagged rep' d' = if decide (dim_rank d' = dim_rank d) then dims t d && negb (reachable s t d) else flagged rep d') →
  so_far (S (dim_rank d)) rep' w.
Proof.
  intros [Hi Hs Hdone Hf Hn Hfu] Hb Hd Hfl. split; [done|done|..].
  - intros d' [->|Hlt]%rank_inj H1 H2; [auto|]. destruct (Hdone d' Hlt H1 H2) as [Hc|[-> (o & Ho & Hp)]]; [by left|].
    destruct Hb as [Hb|[Hb _]]; [right; rewrite Hb; eauto|]. rewrite Hb in Hlt. simpl in Hlt. lia.
  - intros d'. rewrite Hfl, Hf. destruct (decide (dim_rank d' = dim_rank d)) as [E|E].
    + assert (d' = d) as -> by (by destruct d, d'). by rewrite bool_decide_true by lia.
    + f_equal. f_equal. apply bool_decide_ext. lia.
  - intros Hle. destruct Hb as [->|[Hb _]]; [apply Hn; lia|lia].
  - intros o Ha Ho. destruct Hb as [Hb|[_ Hb]]; [rewrite Hb in Ho; auto|auto].
Qed.

(** A dimension that is not there, or cannot be reached. *)
Lemma so_far_skip d rep w : so_far (dim_rank d) rep w → dims t d = false → so_far (S (dim_rank d)) rep w.
Proof.
  intros Hw Hd. apply (so_far_next d rep); [done|by left|congruence|]. intros d'. rewrite (sf_flags _ _ _ Hw).
  case_decide as E; [|done]. assert (d' = d) as -> by (by destruct d, d'). rewrite Hd. by rewrite bool_decide_false by lia.
Qed.

(** A step of the sweep: the port is called, and what follows may count on its
    dimension. *)
Lemma runs_dimension {A} d good (port : go W (A * option error)) rep (onerr store : A → Report) k w :
  dims t d = true → reachable s t d = true → so_far (dim_rank d) rep w → cuts d t good port → (answers d → no_error good port) →
  (∀ a w, so_far (dim_rank d) rep w → so_far (dim_rank d) (onerr a) w) →
  (∀ a w, so_far (dim_rank d) rep w → (good a = true → pl_cut d t w) → (answers d → good a = true) →
     so_far (S (dim_rank d)) (store a) w) →
  (∀ a w, so_far (S (dim_rank d)) (store a) w → runs (k (store a)) w told) →
  runs (p ← port; match p.2 with Some err => stop s actor t (dim_name d) (onerr p.1) err | None => k (store p.1) end) w told.
Proof using All.
  intros Hd Hr Hw Hport Hans Herr Hst Hk. pose proof (Hport w (sf_inv _ _ _ Hw)) as Hp.
  apply runs_elim in Hp as (w' & r & Hrun & a & err & -> & Hadv & Hc).
  assert (Hw' : so_far (dim_rank d) rep w') by by eapply so_far_step.
  unfold runs. rewrite run_bind, Hrun. cbn [fst snd]. destruct err as [err|].
  - apply runs_stop; [done..| |auto]. intros Ha. pose proof (Hans Ha w (sf_inv _ _ _ Hw) (sf_same _ _ _ Hw)) as Hok.
    unfold runs in Hok. rewrite Hrun in Hok. by destruct Hok as (? & [=] & _).
  - apply Hk, Hst; [done|by apply Hc|]. intros Ha. pose proof (Hans Ha w (sf_inv _ _ _ Hw) (sf_same _ _ _ Hw)) as Hok.
    unfold runs in Hok. rewrite Hrun in Hok. by destruct Hok as (? & [= ->] & ?).
Qed.

Lemma named_not s0 : named s0 = true → s0 ≠ EmptyString.
Proof. unfold named. by intros ?%negb_true_iff%bool_decide_eq_false_1. Qed.

Local Ltac flags := intros d'; destruct d'; simpl; try done.

Lemma runs_clients_step rep k w :
  so_far 0 rep w → (∀ rep' w', so_far 1 rep' w' → runs (k rep') w' told) →
  runs (clients_step s actor t rep k) w told.
Proof using All.
  intros Hw Hk. unfold clients_step. destruct (named (tg_ClientID t)) eqn:Hn; [|by apply Hk, (so_far_skip DClients)].
  pose proof (ao_clients t (named_not _ Hn) w (sf_inv _ _ _ Hw)) as Hp. apply runs_elim in Hp as (w' & r & Hrun & Hadv & Hc).
  assert (Hw' : so_far 0 rep w') by by eapply so_far_step. unfold runs. rewrite run_bind, run_try, Hrun.
  destruct r as [[]|err].
  2: { apply (runs_stop DClients); [done..| |done]. intros Ha. pose proof (Ha w (sf_inv _ _ _ Hw) (sf_same _ _ _ Hw)) as Hok.
       unfold runs in Hok. by rewrite Hrun in Hok. }
  apply Hk, (so_far_next DClients rep); [done|by left|left; by apply Hc|]. flags; rewrite ?Hn; apply (sf_flags _ _ _ Hw' DClients).
Qed.

Lemma runs_tokens_step rep k w :
  setCount t = 1 → so_far 1 rep w → (∀ rep' w', so_far 2 rep' w' → runs (k rep') w' told) →
  runs (tokens_step s actor t rep k) w told.
Proof using All.
  intros Hone Hw Hk. unfold tokens_step. destruct (tg_Bindings t) eqn:Hn; [apply Hk, (so_far_skip DTokens); simpl; by rewrite ?Hn|].
  apply (runs_dimension DTokens any_value _ rep (λ n, with_tokens n rep) (λ n, with_tokens n rep) k); simpl; rewrite ?Hn; try done.
  - by apply ao_tokens.
  - intros a w' [Hi Hs Hd Hf Hno Hfu]. by split.
  - intros a w' Hw' Hc _. apply (so_far_next DTokens rep); [done|by left|left; by apply Hc|].
    flags. by rewrite andb_false_r.
  - intros a w'. apply Hk.
Qed.

Lemma runs_sessions_step rep k w :
  so_far 2 rep w → (∀ rep' w', so_far 3 rep' w' → runs (k rep') w' told) →
  runs (sessions_step s actor t rep k) w told.
Proof using All.
  intros Hw Hk. unfold sessions_step.
  destruct (tg_All t || named (tg_Subject t)) eqn:Hn; [|by apply Hk, (so_far_skip DSessions)].
  destruct (ad_sessions s) as [p|] eqn:Hp.
  - assert (Hr : reachable s t DSessions = true) by by simpl; rewrite Hp.
    apply (runs_dimension DSessions any_value _ rep (λ _, rep) (λ n, with_sessions n rep) k); try done.
    2: { intros Ha. by apply Ha. }
    + destruct (tg_All t) eqn:Ha; [by apply ao_all_sessions|]. apply ao_sessions; [done..|by apply named_not].
    + intros a w' Hw' Hc _. apply (so_far_next DSessions rep); [done|by left|left; by apply Hc|].
      flags. rewrite Hp, andb_false_r. apply (sf_flags _ _ _ Hw DSessions).
    + intros a w'. apply Hk.
  - apply Hk, (so_far_next DSessions rep); [done|by left|simpl; by rewrite Hp|]. flags. by rewrite Hn, Hp.
Qed.

Lemma runs_bindings_step rep k w :
  so_far 3 rep w → (∀ rep' w', so_far 4 rep' w' → runs (k rep') w' told) →
  runs (bindings_step s actor t rep k) w told.
Proof using All.
  intros Hw Hk. unfold bindings_step.
  destruct (tg_All t || tg_Bindings t || named (tg_Subject t)) eqn:Hn; [|by apply Hk, (so_far_skip DBindings)].
  destruct (ad_bindings s) as [p|] eqn:Hp.
  - assert (Hr : reachable s t DBindings = true) by by simpl; rewrite Hp.
    apply (runs_dimension DBindings complete _ rep (λ _, rep) (λ o, with_bindings o rep) k); try done.
    2: { intros Ha. by apply Ha. }
    + destruct (named (tg_Subject t)) eqn:Hs; [|rewrite orb_false_r in Hn; by apply ao_all_bindings].
      destruct (tg_All t) eqn:Ha; [apply ao_all_bindings; [done|by rewrite Ha]|].
      destruct (tg_Bindings t) eqn:Hb; [apply ao_all_bindings; [done|by rewrite Hb, orb_true_r]|].
      apply ao_bindings; [done..|by apply named_not].
    + intros o w' Hw' Hc Hfull. apply (so_far_next DBindings rep); [done|right; split; [done|by intros ? Ha [= <-]; apply Hfull]| |].
      * intros _ _. destruct (complete o) eqn:Ho; [left; by apply Hc|right]. split; [done|]. exists o. split; [done|].
        unfold complete in Ho. lia.
      * flags. rewrite Hp, andb_false_r. apply (sf_flags _ _ _ Hw DBindings).
    + intros a w'. apply Hk.
  - apply Hk, (so_far_next DBindings rep); [done|by left|simpl; by rewrite Hp|]. flags. by rewrite Hn, Hp.
Qed.

Lemma runs_flows_step rep k w :
  so_far 4 rep w → (∀ rep' w', so_far 5 rep' w' → runs (k rep') w' told) →
  runs (flows_step s actor t rep k) w told.
Proof using All.
  intros Hw Hk. unfold flows_step. destruct (if named (tg_Subject t) then ad_flows s else None) as [p|] eqn:Hp.
  - destruct (named (tg_Subject t)) eqn:Hn; [|done].
    assert (Hr : reachable s t DFlows = true) by by simpl; rewrite Hn, Hp.
    apply (runs_dimension DFlows any_value _ rep (λ _, rep) (λ n, with_flows n rep) k); try done.
    3: { intros Ha. by apply Ha. }
    + simpl. by rewrite Hn, orb_true_r.
    + apply ao_flows; [done|by apply named_not].
    + intros a w' Hw' Hc _. apply (so_far_next DFlows rep); [done|by left|left; by apply Hc|].
      flags. rewrite Hn, Hp, andb_false_r. apply (sf_flags _ _ _ Hw DFlows).
    + intros a w'. apply Hk.
  - assert (Hr : reachable s t DFlows = false) by (simpl; destruct (named (tg_Subject t)); [by rewrite Hp|done]).
    destruct (tg_All t || named (tg_Subject t)) eqn:Hn; [|by apply Hk, (so_far_skip DFlows)].
    apply Hk, (so_far_next DFlows rep); [done|by left|by rewrite Hr|]. flags. simpl in Hr.
    by rewrite Hn, Hr.
Qed.

(** The kill switch against its ports. Without an error the request named
    exactly one target, every dimension of the target is cut (bindings may be
    left behind, and are then counted as failed) or is one the deployment cannot
    reach and is flagged as such, and nothing else is flagged. With an error the
    report comes with it, the port of the step that stopped is one that can fail,
    and every dimension before it is cut. Either way the audit row carries that report, and what is not the
    target's is as it was. A refused request changes nothing. *)
Lemma KillSwitch_told : pl_inv w0 → runs (KillSwitch s actor t) w0 told.
Proof using All.
  intros Hw. unfold KillSwitch. destruct (Nat.eqb_spec (setCount t) 1) as [Hc|Hc]; simpl; [|eexists _, _; split; [done|]; split; [apply pl_same_refl|done]].
  assert (H0 : so_far 0 zero_report w0).
  { split; [done|apply pl_same_refl|intros d Hd; lia|by intros []|done|done]. }
  destruct (tg_Bindings t && _) eqn:Hb.
  - apply andb_true_iff in Hb as [Hb1 Hb2]. eexists _, _. split; [done|]. split; [apply pl_same_refl|].
    split; [done|]. by destruct (ad_bindings s).
  - apply runs_clients_step; [done|]. intros r1 w1 H1. apply runs_tokens_step; [done|done|]. intros r2 w2 H2.
    apply runs_sessions_step; [done|]. intros r3 w3 H3. apply runs_bindings_step; [done|]. intros r4 w4 H4.
    apply runs_flows_step; [done|]. intros r5 w5 H5. eapply runs_bind; [by apply runs_recordKill|..]; [|by intros w' e [? _]].
    intros w' _ (_ & Hw' & Hl). eapply runs_intro; [apply run_ret|]. eexists _, _. split; [done|]. split; [apply Hw'|].
    split_and!; [done|..|done].
    + intros d Hd. destruct (reachable s t d) eqn:Hr.
      * apply (sf_done _ _ _ Hw'); [destruct d; simpl; lia|done..].
      * rewrite (sf_flags _ _ _ Hw'), Hd, Hr. destruct d; done.
    + intros d. rewrite (sf_flags _ _ _ Hw'), !andb_true_iff, negb_true_iff. by intros [[_ ?] ?].
    + intros o. apply (sf_full _ _ _ Hw').
Qed.

(** C34. The kill switch against the contracts of its ports, errors included. It
    returns a report and perhaps an error. Without an error the request named
    exactly one target. Each dimension of the target that the deployment can reach
    is then cut, except that bindings the port could not remove may be left behind,
    and the report counts them as failed (never when the port answers in full).
    Each one it cannot reach is flagged as such, and nothing else is flagged. With
    an error the step that stopped is named, its port is one that can fail, and
    every reachable dimension before it is cut, with the same exception. Where the
    audit log keeps the rows it is given, its last row carries that very report;
    a log that refuses the row does not change the answer. What is not the target's
    is as it was; a refused request changes nothing. *)
Theorem KillSwitch_sound : pl_inv w0 → runs (KillSwitch s actor t) w0 told.
Proof using All. exact KillSwitch_told. Qed.
End contract.
