(* ===== verification/AdminMem.v ===== *)
(** * The operator plane over the stores of this development

    What [cmd/re0auth/main.go] hands to [admin.New] in memory mode: the client
    registry, the OpenID Provider store, the federation service, the bind flows
    and the audit ring. There are no durable sessions, so no session port. *)

From S2P Require Import Prelude GoStd Proc AuditLog Tokens Client VaultRepo VaultEnvelope Vault VaultProps.
From S2P Require Import FedRegistry FedStore FedLimits FedLocks Fed FedRun FedProps Account Lifecycle.
From S2P Require Import OidcPolicy OidcTables OidcStore OidcWf OidcRevoke Erasure Admin AdminProps.

(** ** The world *)

Record AWorld (U : Type) := mkAWorld {
  aw_stores : EWorld U;
  aw_clients : MemoryClientRegistry;
  aw_rand : nat;
}.
Arguments mkAWorld {U}.
Arguments aw_stores {U}.
Arguments aw_clients {U}.
Arguments aw_rand {U}.

Section world.
Context {U : Type}.
Local Abbreviation W := (AWorld U).
Local Abbreviation FW := (FWorld MemoryRepo MemoryLogger MemoryBindingStore MemoryBindFlowStore U).
Definition aw_fed (w : W) : FW := ew_fed (aw_stores w).
Definition set_afed (f : FW) (w : W) : W := mkAWorld (set_fed f (aw_stores w)) (aw_clients w) (aw_rand w).
Definition set_clients (c : MemoryClientRegistry) (w : W) : W := mkAWorld (aw_stores w) c (aw_rand w).
Definition set_aoidc (o : OIDCStore) (w : W) : W := mkAWorld (set_oidc o (aw_stores w)) (aw_clients w) (aw_rand w).

(** The registry with the token engine it is wired to. *)
Definition aw_engine (w : W) : MemoryClientRegistry * OIDCStore := (aw_clients w, ew_oidc (aw_stores w)).
Definition set_engine (x : MemoryClientRegistry * OIDCStore) (w : W) : W :=
  mkAWorld (set_oidc x.2 (aw_stores w)) x.1 (aw_rand w).

#[export] Instance afed_lens : Lens aw_fed set_afed.
Proof. split; [done|done|by intros [[] ? ?]]. Qed.
#[export] Instance engine_lens : Lens aw_engine set_engine.
Proof. split; [by intros [] ?|done|by intros [[] ? ?]]. Qed.
End world.

(** ** The ports *)

#[export] Instance oidc_admin `{Platform} `{MapOrder} : TokenAdmin OIDCStore := {| admin_RevokeTokens := OIDC_RevokeTokens |}.

Section ports.
Context `{Platform} `{Entropy} `{MapOrder} `{Aead} `{Json} {U : Type} `{Upstream U} (s : federation) (fuel : nat).
Local Abbreviation W := (AWorld U).

Definition on_clients {A} (f : MemoryClientRegistry → MemoryClientRegistry * result A) : go W A :=
  call (λ w, let '(c, r) := f (aw_clients w) in (set_clients c w, r)).

Definition memory_clients : Clients W :=
  mkClientsPort (λ c, on_clients (Create c)) (λ limit cursor, call (λ w, (w, ListClients limit cursor (aw_clients w))))
    (λ id status, on_clients (SetStatus id status)) (λ id hash, on_clients (RotateSecret id hash))
    (λ id, zoom aw_engine set_engine (Delete id)).

(** [oauth.TokenAdmins{oidcStore}]. *)
Definition admin_tokens (f : TokenFilter) : go W (Z * option error) :=
  atomic (λ w,
    let '(engines, (n, err)) := TokenAdmins_RevokeTokens oidc_engine f [ew_oidc (aw_stores w)] 0 None in
    (set_aoidc (default (ew_oidc (aw_stores w)) (head engines)) w, (Z.of_nat n, err))).

(** [bindingOutcome] and [bindingRevoker]. *)
Definition binding_outcome (x : BindingRevocationSummary) : BindingOutcome :=
  mkOutcome (su_Total x) (su_Revoked x) (su_Cascade x) (su_Unsupported x) (su_Unavailable x) (su_Orphaned x) (su_Failed x).
Definition bindingRevoker : Bindings W :=
  mkBindingsPort
    (p ← zoom aw_fed set_afed (RevokeAllBindings s fuel); mret (binding_outcome p.1, p.2))
    (λ subject,
       r ← try (zoom aw_fed set_afed (RevokeUserBindings s subject));
       mret (match r with Ok x => (binding_outcome x, None) | Err e => (binding_outcome zero_summary, Some e) end)).

(** [flowPurger]. *)
Definition flowPurger (subject : string) : go W (Z * option error) :=
  atomic (λ w,
    let '(f, n) := Flows_PurgeUserFlows subject (fw_flows (aw_fed w)) in
    (set_afed (set_flows f (aw_fed w)) w, match n with Ok n => (Z.of_nat n, None) | Err e => (0%Z, Some e) end)).

Definition admin_audit (e : Event) : go W unit :=
  call (λ w,
    let v := fw_vault (aw_fed w) in
    let '(l, err) := log_Record (vw_clock v) e (vw_audit v) in
    (set_afed (set_vault (set_audit l v) (aw_fed w)) w, match err with Some e => Err e | None => Ok tt end)).

Definition admin_clock (w : W) : Z := vw_clock (fw_vault (aw_fed w)).
Definition admin_rand (k : nat) : go W (option string) :=
  atomic (λ w, (mkAWorld (aw_stores w) (aw_clients w) (S (aw_rand w)), rand_read (aw_rand w) k)).

Definition memory_admin_config : AdminConfig W :=
  mkAdminConfig (Some memory_clients) (Some admin_tokens) None (Some bindingRevoker) (Some flowPurger)
    (Some admin_audit) None.
Definition memory_admin : admin W :=
  mkAdmin memory_clients admin_tokens None (Some bindingRevoker) (Some flowPurger) admin_audit admin_clock.

Lemma memory_admin_new : NewAdmin admin_clock memory_admin_config = Ok memory_admin.
Proof. done. Qed.
End ports.

(** ** What a target is *)

(** The client and subject of a credential, for the kill switch's filter. *)
Definition hit (t : Target) (client subject : string) : bool :=
  negb (tg_Bindings t) && Matches (mkFilter (tg_ClientID t) (tg_Subject t)) client subject.
(** The accounts whose bindings a target sweeps. *)
Definition hit_user (t : Target) (user : string) : bool :=
  tg_All t || tg_Bindings t || Admin.named (tg_Subject t) && bool_decide (user = tg_Subject t).

(** Nothing of the OP's state is hit. *)
Definition clear_of (R : string → string → bool) (σ : OPState) : Prop :=
  (∀ k x, op_access σ !! k = Some x → R (ot_clientID x) (ot_subject x) = false) ∧
  (∀ k x, op_refresh σ !! k = Some x → R (rf_clientID x) (rf_subject x) = false) ∧
  (∀ k x, op_tombstones σ !! k = Some x → R (ts_clientID x) (ts_subject x) = false) ∧
  (∀ k x, op_requests σ !! k = Some x → R (oa_ClientID x.1) (oa_Subject x.1) = false) ∧
  (∀ k x, op_codes σ !! k = Some x → request_matches R σ x = false) ∧
  (∀ k x, op_devices σ !! k = Some x → R (dv_clientID x) (dv_subject x) = false).

(** What is not hit. *)
Definition beyond (R : string → string → bool) (σ : OPState) :=
  (delete_where (λ x, R (ot_clientID x) (ot_subject x)) (op_access σ),
   delete_where (λ x, R (rf_clientID x) (rf_subject x)) (op_refresh σ),
   delete_where (λ x, R (ts_clientID x) (ts_subject x)) (op_tombstones σ),
   delete_where (λ x, R (oa_ClientID x.1) (oa_Subject x.1)) (op_requests σ),
   delete_where (request_matches R σ) (op_codes σ),
   delete_where (λ x, R (dv_clientID x) (dv_subject x)) (op_devices σ)).

Lemma delete_where_idem {V} (P : V → bool) (m : gmap string V) : delete_where P (delete_where P m) = delete_where P m.
Proof. apply map_eq. intros k. apply option_eq. intros v. rewrite !lookup_delete_where. naive_solver. Qed.
Lemma delete_where_none {V} (P : V → bool) (m : gmap string V) : (∀ k v, m !! k = Some v → P v = false) → delete_where P m = m.
Proof. intros HP. apply map_eq. intros k. apply option_eq. intros v. rewrite lookup_delete_where. naive_solver. Qed.

Lemma revoke_clears c u R σ : clear_of R (spec_revoke c u R σ) ∧ beyond R (spec_revoke c u R σ) = beyond R σ.
Proof.
  assert (Hcode : ∀ x, request_matches R (spec_revoke c u R σ) x = false).
  { intros x. unfold request_matches. simpl. destruct (delete_where _ (op_requests σ) !! cd_requestID x) as [[a e]|] eqn:E; [|done].
    by apply lookup_delete_where in E as [_ ?]. }
  split.
  - unfold clear_of. simpl. split_and!; intros k x [_ Hx]%lookup_delete_where; first [exact Hx|apply Hcode].
  - unfold beyond. f_equal; [f_equal|]; [|simpl|simpl; apply delete_where_idem].
    + simpl. by rewrite !delete_where_idem.
    + rewrite (delete_where_none (request_matches R (spec_revoke c u R σ))); [done|]. intros k x _. apply Hcode.
Qed.

(** ** The plane *)

Section plane.
Context `{Platform} `{Entropy} `{MapOrderOk} `{Aead} `{!AeadOk} `{Json} `{!JsonOk} {U : Type} `{Upstream U}.
Context (s : federation) `{!KeysOk (fe_vault s)} (fuel : nat) (Hpage : (0 < fe_sweepPage s)%Z).
Local Abbreviation W := (AWorld U).
Implicit Types w : W.

(** The stores are in order, and the sweep has fuel for a page per binding. *)
Definition admin_inv w : Prop :=
  memory_inv s (aw_stores w) ∧ length (binding_rows (fw_bindings (aw_fed w))) < fuel.

Definition admin_cut (d : dim) (t : Target) w : Prop :=
  match d with
  | DClients => ∃ c, byID (aw_clients w) !! tg_ClientID t = Some c ∧ cl_Status c = ClientSuspended
  | DTokens => clear_of (hit t) (abs (ew_oidc (aw_stores w)))
  | DSessions => True
  | DBindings => ∀ k, hit_user t (bk_user k) = true → row (aw_fed w) k = None
  | DFlows => ∀ st f, fw_flows (aw_fed w) !! st = Some f → Admin.named (tg_Subject t) = true → fl_User f ≠ tg_Subject t
  end.

Record admin_same (t : Target) w w' : Prop := {
  as_tokens : beyond (hit t) (abs (ew_oidc (aw_stores w'))) = beyond (hit t) (abs (ew_oidc (aw_stores w)));
  as_rows k : hit_user t (bk_user k) = false → row (aw_fed w') k = row (aw_fed w) k;
  as_secrets id : hit_user t (id_Subject id) = false → secretAt s (aw_fed w') id = secretAt s (aw_fed w) id;
  as_flows st f : (Admin.named (tg_Subject t) = true → fl_User f ≠ tg_Subject t) →
    fw_flows (aw_fed w') !! st = Some f ↔ fw_flows (aw_fed w) !! st = Some f;
  as_clients id : id ≠ tg_ClientID t → byID (aw_clients w') !! id = byID (aw_clients w) !! id;
  as_client : set_status ClientSuspended <$> byID (aw_clients w') !! tg_ClientID t =
    set_status ClientSuspended <$> byID (aw_clients w) !! tg_ClientID t;
  as_accounts : ew_accounts (aw_stores w') = ew_accounts (aw_stores w);
}.

Lemma admin_same_refl t w : admin_same t w w.
Proof. by split. Qed.
Lemma admin_same_trans t w1 w2 w3 : admin_same t w1 w2 → admin_same t w2 w3 → admin_same t w1 w3.
Proof.
  intros [A1 A2 A3 A4 A5 A6 A7] [B1 B2 B3 B4 B5 B6 B7]. split; [congruence|..|congruence|congruence].
  - intros k Hk. by rewrite B2, A2.
  - intros id Hid. by rewrite B3, A3.
  - intros st f Hf. by rewrite B4, A4.
  - intros id Hid. by rewrite B5, A5.
Qed.

#[export] Instance memory_plane : Plane W := {|
  pl_inv := admin_inv;
  pl_cut := admin_cut;
  pl_same := admin_same;
  pl_last w := last_event (vw_audit (fw_vault (aw_fed w)));
  pl_same_refl := admin_same_refl;
  pl_same_trans := admin_same_trans;
|}.

Lemma clients_sweeps t :
  tg_ClientID t ≠ EmptyString → sweeps DClients t (cs_SetStatus memory_clients (tg_ClientID t) ClientSuspended).
Proof.
  intros Hc w Hw. apply runs_call. unfold SetStatus. simpl.
  destruct (byID (aw_clients w) !! tg_ClientID t) as [c|] eqn:E; simpl.
  - split; [split; [exact Hw|split]|].
    + split; try done; simpl; [intros id Hid; by rewrite lookup_insert_ne|]. by rewrite lookup_insert_eq, E.
    + intros [] Hd; simpl in *; try done. exists (set_status ClientSuspended c). by rewrite lookup_insert_eq.
    + intros _. exists (set_status ClientSuspended c). simpl. by rewrite lookup_insert_eq.
  - split; [|done]. split; [by destruct w|split; [by destruct w as [? [] ?]|]]. by destruct w as [? [] ?]; intros [].
Qed.

(** What changes the OP store only. *)
Lemma advances_oidc t o w :
  admin_inv w → oidc_wf o → beyond (hit t) (abs o) = beyond (hit t) (abs (ew_oidc (aw_stores w))) →
  (clear_of (hit t) (abs (ew_oidc (aw_stores w))) → clear_of (hit t) (abs o)) → advances t w (set_aoidc o w).
Proof.
  intros [(Hr & Hk & Ha & Ho & Hl) Hf] Hwf Hb Hc. split; [by split_and!|]. split; [by split|]. by intros []; simpl.
Qed.

Lemma tokens_cuts t : tg_Bindings t = false → cuts DTokens t any_value (admin_tokens (U:=U) (mkFilter (tg_ClientID t) (tg_Subject t))).
Proof.
  intros Hb w Hw. apply runs_atomic. unfold TokenAdmins_RevokeTokens, oidc_engine.
  pose proof (RevokeTokens_spec (mkFilter (tg_ClientID t) (tg_Subject t)) (ew_oidc (aw_stores w))) as Hs.
  destruct (OIDC_RevokeTokens _ _) as [o r]. destruct Hs as (Ho & Habs & ->); [apply Hw|]. simpl in *.
  assert (HR : hit t = Matches (mkFilter (tg_ClientID t) (tg_Subject t))) by (unfold hit; by rewrite Hb).
  destruct (revoke_clears (tg_ClientID t) (tg_Subject t) (hit t) (abs (ew_oidc (aw_stores w)))) as [Hc1 Hc2].
  rewrite HR in Hc1, Hc2. rewrite <-Habs in Hc1, Hc2. eexists _, _. split; [done|].
  split; [apply advances_oidc; [done..|by rewrite HR|by rewrite HR]|]. intros _ _. simpl. by rewrite HR.
Qed.

Lemma flows_cuts t : tg_Subject t ≠ EmptyString → cuts DFlows t any_value (flowPurger (U:=U) (tg_Subject t)).
Proof.
  intros Hn w Hw. assert (Hnm : Admin.named (tg_Subject t) = true) by (unfold Admin.named; by rewrite bool_decide_false).
  apply runs_atomic. unfold Flows_PurgeUserFlows. simpl. eexists _, _. split; [done|].
  split; [split; [exact Hw|split]|].
  - split; try done. intros st f Hf. simpl. etrans; [apply lookup_delete_where|]. rewrite bool_decide_eq_false. naive_solver.
  - intros []; simpl; try done. intros Hno st f [Hf _]%lookup_delete_where. eauto.
  - intros _ _ st f [_ Hf%bool_decide_eq_false]%lookup_delete_where. done.
Qed.

Lemma audit_keeps : AdminProps.records (admin_audit (U:=U)).
Proof.
  intros e w Hw. pose proof Hw as [(Hr & Hk & Ha & Ho & hist & Hl) Hf]. apply runs_call. cbv zeta.
  set (v := fw_vault (aw_fed w)). destruct (last_record hist (vw_clock v) e (vw_audit v) Hl) as [Hring Hlast].
  destruct (log_Record (vw_clock v) e (vw_audit v)) as [l err] eqn:E; simpl in *. split.
  - intros t. split; [by split_and!|]. split; [by split|]. by intros [].
  - intros _. unfold last_event in *. rewrite Hlast. unfold stamp. case_match; [eauto|]. exists (ev_Time e). by destruct e.
Qed.

(** ** The bindings *)

Local Abbreviation FW := (FWorld MemoryRepo MemoryLogger MemoryBindingStore MemoryBindFlowStore U).

(** What a sweep of the bindings of some accounts leaves of the federation's
    stores. *)
Definition fed_swept (P : string → bool) (f f' : FW) : Prop :=
  rests s f' ∧ fw_flows f' = fw_flows f ∧ (∃ hist, ring_ok hist (vw_audit (fw_vault f'))) ∧
  (∀ k, row f' k = if P (bk_user k) then None else row f k) ∧
  (∀ id, P (id_Subject id) = false → secretAt s f' id = secretAt s f id).

Lemma rows_list (f : FW) x : rests s f → x ∈ binding_rows (fw_bindings f) ↔ row f (bkey x) = Some x.
Proof.
  intros [[_ Hb] _]. rewrite elem_of_binding_rows by done. unfold row. simpl. rewrite mem_row_Some by done. naive_solver.
Qed.

Lemma fewer_rows P f f' :
  rests s f → fed_swept P f f' → length (binding_rows (fw_bindings f')) ≤ length (binding_rows (fw_bindings f)).
Proof.
  intros Hf (Hf' & _ & _ & Hrow & _). apply submseteq_length, NoDup_submseteq.
  - eapply NoDup_fmap_1, binding_rows_NoDup, Hf'.
  - intros x. rewrite !rows_list by done. rewrite Hrow. by destruct (P _).
Qed.

(** A sweep, as the kill switch sees it. *)
Lemma advances_fed t P f w :
  admin_inv w → (∀ u, P u = true → hit_user t u = true) → fed_swept P (aw_fed w) f → advances t w (set_afed f w).
Proof.
  intros [(Hr & Hk & Ha & Ho & Hl) Hfuel] HP Hsw. pose proof (fewer_rows P _ _ Hr Hsw) as Hless.
  destruct Hsw as (Hr' & Hfl & Hring & Hrow & Hsec).
  assert (HPf : ∀ u, hit_user t u = false → P u = false) by (intros u Hu; apply not_true_iff_false; intros ?%HP; congruence).
  split; [split; [split_and!; try done|]|split; [split; try done|]].
  - intros k b. change (row f k = Some b → valid_key k). rewrite Hrow. destruct (P _); [done|]. apply Hk.
  - unfold aw_fed in *. simpl. lia.
  - intros k Hkk. change (row f k = row (aw_fed w) k). by rewrite Hrow, HPf.
  - intros id Hid. by apply Hsec, HPf.
  - intros st b Hb. change (fw_flows f !! st = Some b ↔ fw_flows (aw_fed w) !! st = Some b). by rewrite Hfl.
  - intros []; simpl; try done.
    + intros Hno k Hkk. change (row f k = None). rewrite Hrow. destruct (P _); [done|]. by apply Hno.
    + intros Hno st b. change (fw_flows f !! st = Some b → Admin.named (tg_Subject t) = true → fl_User b ≠ tg_Subject t).
      rewrite Hfl. apply Hno.
Qed.

(** The frame of a sweep: the flows stay, and the log stays a ring. *)
Definition calm (f0 : FW) (f : MemoryBindFlowStore) (l : MemoryLogger) : Prop :=
  f = fw_flows f0 ∧ ∃ hist, ring_ok hist l.
Lemma calm_record f0 f l t e : calm f0 f l → calm f0 f (log_Record t e l).1.
Proof. intros [-> (hist & Hh)]. split; [done|]. by eapply last_record. Qed.

Lemma runs_sweep_user u (f : FW) :
  u ≠ EmptyString → rests s f → (∀ k b, row f k = Some b → valid_key k) → (∃ hist, ring_ok hist (vw_audit (fw_vault f))) →
  runs (RevokeUserBindings s u) f (λ f' r, fed_swept (λ v, bool_decide (v = u)) f f' ∧
    ∃ sum, r = Ok sum ∧ su_Failed sum = 0%Z).
Proof using All.
  intros Hu Hr Hk Hring. eapply runs_mono.
  { apply (runs_keeps (apart (calm f))); [apply keeps_RevokeUserBindings, calm_record|by split|].
    by apply runs_RevokeUserBindings. }
  intros f' r ((Hfl & Hring') & Hr' & Hsum & Hrow & _ & Hsec). split; [|done]. split_and!; [done..| |].
  - intros k. rewrite Hrow. by repeat case_decide.
  - intros id Hid. apply Hsec. by apply bool_decide_eq_false_1 in Hid.
Qed.

Lemma runs_sweep_all (f : FW) :
  rests s f → (∀ k b, row f k = Some b → valid_key k) → (∃ hist, ring_ok hist (vw_audit (fw_vault f))) →
  length (binding_rows (fw_bindings f)) < fuel →
  runs (RevokeAllBindings s fuel) f (λ f' r, fed_swept (λ _, true) f f' ∧
    ∃ sum, r = Ok (sum, None) ∧ su_Failed sum = 0%Z).
Proof using All.
  intros Hr Hk Hring Hfuel.
  destruct (RevokeAllBindings_complete s fuel (binding_rows (fw_bindings f)) f memory_answers memory_log_takes_all Hpage Hr)
    as (f' & sum & Hrun & Hr' & Hrow & _ & _ & _ & Hfail); [|..|done|].
  - split; [by apply binding_rows_sorted, Hr|]. intros x. by apply rows_list.
  - apply Forall_forall. intros x Hx%rows_list; [|done]. by eapply Hk.
  - eapply runs_intro; [exact Hrun|].
    assert (Hapart : apart (calm f) f').
    { eapply (keeps_RevokeAllBindings s (calm f) (calm_record f)); [|exact Hrun]. by split. }
    destruct Hapart as [Hfl Hring']. split; [|eauto]. by split_and!.
Qed.

(** A call that is answered, and cuts its dimension. *)
Definition answers_cut {A} (d : dim) (t : Target) (good : A → bool) (port : go W (A * option error)) : Prop :=
  ∀ w, admin_inv w → runs port w (λ w' r, ∃ a, r = Ok (a, None) ∧ good a = true ∧ advances t w w' ∧ admin_cut d t w').

Lemma answers_cut_cuts {A} d t good (port : go W (A * option error)) : answers_cut d t good port → cuts d t good port.
Proof. intros Hp w Hw. eapply runs_mono; [by apply Hp|]. intros w' r (a & -> & _ & Hadv & Hc). by eexists _, _. Qed.
Lemma answers_cut_no_error {A} d t w0 good (port : go W (A * option error)) : answers_cut d t good port → no_error t w0 good port.
Proof. intros Hp w Hw _. eapply runs_mono; [by apply Hp|]. intros w' r (a & -> & Hg & _). eauto. Qed.

Lemma all_bindings_cut t :
  tg_All t || tg_Bindings t = true → answers_cut DBindings t complete (bi_RevokeAllBindings (bindingRevoker s fuel)).
Proof using All.
  intros Ht w Hw. pose proof Hw as [(Hr & Hk & _ & _ & Hl) Hfuel].
  eapply (runs_bind _ _ _ (λ w1 r, ∃ f sum, w1 = set_afed f w ∧ fed_swept (λ _, true) (aw_fed w) f ∧
    r = Ok (sum, None) ∧ su_Failed sum = 0%Z)).
  - apply runs_zoom; [apply _|]. eapply runs_mono; [by apply runs_sweep_all|]. intros f r (Hsw & sum & -> & Hz). by exists f, sum.
  - intros w1 p (f & sum & -> & Hsw & [= ->] & Hz). eapply runs_intro; [apply run_ret|]. eexists. split; [done|].
    split; [unfold complete; simpl; by rewrite Hz|].
    split; [apply (advances_fed t (λ _, true)); [done|intros u _; unfold hit_user; by rewrite Ht|done]|].
    intros k _. change (row f k = None). by rewrite (proj1 (proj2 (proj2 (proj2 Hsw)))).
  - by intros w1 e (? & ? & _ & _ & ? & _).
Qed.

Lemma user_bindings_cut t :
  tg_All t = false → tg_Bindings t = false → tg_Subject t ≠ EmptyString →
  answers_cut DBindings t complete (bi_RevokeSubjectBindings (bindingRevoker s fuel) (tg_Subject t)).
Proof using All.
  intros Ha Hb Hn w Hw. pose proof Hw as [(Hr & Hk & _ & _ & Hl) Hfuel].
  assert (Hhit : ∀ u, hit_user t u = bool_decide (u = tg_Subject t)).
  { intros u. unfold hit_user, Admin.named. by rewrite Ha, Hb, (bool_decide_false _ Hn). }
  eapply (runs_bind_try _ _ _ (λ w1 r, ∃ f sum, w1 = set_afed f w ∧
    fed_swept (λ v, bool_decide (v = tg_Subject t)) (aw_fed w) f ∧ r = Ok sum ∧ su_Failed sum = 0%Z)).
  - apply runs_zoom; [apply _|]. eapply runs_mono; [by apply runs_sweep_user|]. intros f r (Hsw & sum & -> & Hz). by exists f, sum.
  - intros w1 r (f & sum & -> & Hsw & -> & Hz). eapply runs_intro; [apply run_ret|]. eexists. split; [done|].
    split; [unfold complete; simpl; by rewrite Hz|].
    split; [apply (advances_fed t _ f w Hw (λ u Hu, eq_trans (Hhit u) Hu) Hsw)|].
    intros k Hku. rewrite Hhit in Hku. change (row f k = None). by rewrite (proj1 (proj2 (proj2 (proj2 Hsw)))), Hku.
Qed.

#[export] Instance memory_admin_ok : AdminOk (memory_admin (U:=U) s fuel).
Proof using All.
  split; simpl.
  - apply clients_sweeps.
  - intros t _ Hb. by apply tokens_cuts.
  - done.
  - done.
  - intros p t [= <-] Ht. by eapply answers_cut_cuts, all_bindings_cut.
  - intros p t [= <-] Ha Hb Hn. by eapply answers_cut_cuts, user_bindings_cut.
  - intros p t [= <-] Hn. by apply flows_cuts.
  - apply audit_keeps.
Qed.

Lemma memory_admin_answers t w0 d :
  setCount t = 1 → (Admin.named (tg_ClientID t) = true → is_Some (byID (aw_clients w0) !! tg_ClientID t)) →
  dims t d = true → reachable (memory_admin s fuel) t d = true → answers (memory_admin (U:=U) s fuel) t w0 d.
Proof using All.
  intros Hone Hreg Hd Hreach. destruct d; simpl in *; try done.
  - intros w _ Hs. apply runs_call. unfold SetStatus. simpl. destruct (Hreg Hd) as [c Hc].
    pose proof (as_client _ _ _ Hs) as Hsame. rewrite Hc in Hsame.
    destruct (byID (aw_clients w) !! tg_ClientID t) as [c'|]; [done|discriminate].
  - intros w Hw _. apply runs_atomic. unfold TokenAdmins_RevokeTokens, oidc_engine.
    pose proof (RevokeTokens_spec (mkFilter (tg_ClientID t) (tg_Subject t)) (ew_oidc (aw_stores w))) as Hs.
    destruct (OIDC_RevokeTokens _ _) as [o r]. destruct Hs as (_ & _ & ->); [apply Hw|]. simpl. eauto.
  - intros p [= <-]. unfold bindings_call. destruct (Admin.named (tg_Subject t)) eqn:Hn; simpl.
    + destruct (tg_All t) eqn:Ha; simpl; [eapply answers_cut_no_error, all_bindings_cut; by rewrite Ha|].
      destruct (tg_Bindings t) eqn:Hb; simpl; [eapply answers_cut_no_error, all_bindings_cut; by rewrite Hb, orb_true_r|].
      eapply answers_cut_no_error, user_bindings_cut; [done..|by apply named_not].
    + rewrite orb_false_r in Hd. by eapply answers_cut_no_error, all_bindings_cut.
  - intros p [= <-] w _ _. apply runs_atomic. simpl. eauto.
Qed.

(** C21. The kill switch over the stores in memory. A request that names exactly
    one target, a registered client if it names a client, succeeds whatever the
    sources answer. Afterwards no token, no residue of a spent one, no pending
    request, code or device authorization of the target is left (for the target
    that is about bindings, none is touched), the client is suspended, every
    binding of the target is gone, and so are the account's pending binds; what
    belongs to anybody else is as it was. The report says that sessions were not
    reached, and that pending binds were not when the target was everybody. *)
Theorem KillSwitch_memory actor t w :
  admin_inv w → setCount t = 1 →
  (Admin.named (tg_ClientID t) = true → is_Some (byID (aw_clients w) !! tg_ClientID t)) →
  ∃ w' rep, run (KillSwitch (memory_admin s fuel) actor t) w = Some (w', Ok (rep, None)) ∧ admin_same t w w' ∧
    (tg_Bindings t = false → clear_of (hit t) (abs (ew_oidc (aw_stores w')))) ∧
    (∀ k, hit_user t (bk_user k) = true → row (aw_fed w') k = None) ∧
    (Admin.named (tg_Subject t) = true → ∀ st f, fw_flows (aw_fed w') !! st = Some f → fl_User f ≠ tg_Subject t) ∧
    (Admin.named (tg_ClientID t) = true →
       ∃ c, byID (aw_clients w') !! tg_ClientID t = Some c ∧ cl_Status c = ClientSuspended) ∧
    rp_SessionsUnavailable rep = tg_All t || Admin.named (tg_Subject t) ∧
    rp_FlowsUnavailable rep = tg_All t ∧ rp_BindingsUnavailable rep = false ∧
    ∃ z, last_event (vw_audit (fw_vault (aw_fed w'))) = Some (kill_event actor t z OutcomeOK rep).
Proof using All.
  intros Hw Hone Hreg. pose proof (KillSwitch_told (memory_admin s fuel) actor t w Hw) as Ht.
  apply runs_elim in Ht as (w' & r & Hrun & rep & err & -> & Hsame & Hres).
  pose proof (λ d, memory_admin_answers t w d Hone Hreg) as Hans.
  destruct err as [[| |rep' step cause]|].
  { by destruct Hres. }
  { by destruct Hres as (_ & ? & _). }
  { destruct Hres as (_ & d & _ & Hd & Hr & Hno & _). by destruct (Hno (Hans d Hd Hr)). }
  destruct Hres as (_ & Hall & Hfl & Hfull & Haud). exists w', rep. split; [done|]. split; [done|].
  assert (Hflag : ∀ d, flagged rep d = dims t d && negb (reachable (memory_admin s fuel) t d)).
  { intros d. apply eq_true_iff_eq. rewrite andb_true_iff, negb_true_iff. split; [apply Hfl|].
    intros [Hd Hr]. specialize (Hall d Hd). by rewrite Hr in Hall. }
  assert (Hcut : ∀ d, d ≠ DBindings → dims t d = true → reachable (memory_admin s fuel) t d = true → admin_cut d t w').
  { intros d Hne Hd Hr. specialize (Hall d Hd). rewrite Hr in Hall. by destruct Hall as [?|[? _]]. }
  split_and!.
  - intros Hb. apply (Hcut DTokens); [done|simpl; by rewrite Hb|done].
  - intros k Hk. assert (Hd : dims t DBindings = true).
    { revert Hk. unfold hit_user. simpl. rewrite !orb_true_iff, andb_true_iff. tauto. }
    destruct (Hall DBindings Hd) as [Hc|(_ & o & Ho & Hpos)]; [by apply Hc|].
    specialize (Hfull o (Hans DBindings Hd eq_refl) Ho). unfold complete in Hfull. lia.
  - intros Hn st f Hf. apply (Hcut DFlows) with (st := st); simpl; [done|by rewrite Hn, orb_true_r|by rewrite Hn|done|done].
  - intros Hn. by apply (Hcut DClients).
  - etrans; [apply (Hflag DSessions)|]. simpl. by rewrite andb_true_r.
  - etrans; [apply (Hflag DFlows)|]. simpl. revert Hone. unfold setCount. destruct (tg_All t), (Admin.named (tg_Subject t)); simpl; (done || lia).
  - etrans; [apply (Hflag DBindings)|]. simpl. by rewrite andb_false_r.
  - apply Haud. intros e x Hx. apply runs_call. cbv zeta.
    pose proof (memory_log_takes_all (vw_clock (fw_vault (aw_fed x))) e (vw_audit (fw_vault (aw_fed x)))) as Hn.
    destruct (log_Record _ _ _) as [l o]. simpl in Hn. by subst o.
Qed.
End plane.

(** ** Clients *)

Section clients.
Context `{Platform} `{!PlatformOk} `{Entropy} `{!EntropyOk} `{MapOrderOk} `{Aead} `{Json} {U : Type} `{Upstream U}.
Context (s : federation) (fuel : nat).
Local Abbreviation W := (AWorld U).
Local Abbreviation plane := (memory_admin (U:=U) s fuel).
Implicit Types w : W.

(** The world with one more audit row, and with one read of the generator. *)
Definition logged (e : Event) w : W :=
  let v := fw_vault (aw_fed w) in
  set_afed (set_vault (set_audit (log_Record (vw_clock v) e (vw_audit v)).1 v) (aw_fed w)) w.
Definition drawn (n : nat) w : W := mkAWorld (aw_stores w) (aw_clients w) (n + aw_rand w).

Lemma run_admin_record actor action subject outcome detail w :
  run (record plane actor action subject outcome detail) w =
    Some (logged (admin_event (admin_clock w) actor action subject outcome detail) w, Ok tt).
Proof.
  unfold record. rewrite run_bind, run_reads, run_bind, run_try. cbn [ad_audit memory_admin ad_now]. unfold admin_audit.
  rewrite run_call. cbv zeta. unfold logged. cbv zeta. destruct (log_Record _ _ _) as [l err]. apply run_ret.
Qed.

Lemma run_rand k w : ∃ b, rand_read (aw_rand w) k = Some b ∧ len b = k ∧ run (admin_rand k) w = Some (drawn 1 w, Ok (Some b)).
Proof.
  destruct (rand_read_ok (aw_rand w) k) as (b & Hb & Hl). exists b. split_and!; [done..|].
  unfold admin_rand. rewrite run_atomic. cbn [fst snd]. by rewrite Hb.
Qed.

(** What a registration needs to be right about. *)
Definition acceptable (req : RegisterRequest) : Prop :=
  (rq_Type req = ClientPublic ∨ rq_Type req = ClientConfidential) ∧ rq_RedirectURIs req ≠ [] ∧
  Forall (λ r, validRedirectURI r = None) (rq_RedirectURIs req).

Lemma newClient_acceptable now id req secret hash :
  id ≠ EmptyString → acceptable req → (secret = EmptyString ↔ rq_Type req = ClientPublic) →
  newClient now id (rq_Name req) (rq_Type req) secret (rq_RedirectURIs req) (rq_AllowedScopes req) hash =
    let client h := mkClient id (rq_Name req) (rq_Type req) ClientActive now (rq_RedirectURIs req) (rq_AllowedScopes req) false h in
    if bool_decide (secret = EmptyString) then Some (Ok (client EmptyString)) else (λ h, Ok (client h)) <$> hash secret.
Proof.
  intros Hid (Htyp & Hne & Hall) Hsec. unfold newClient. rewrite (bool_decide_false (id = _)) by done.
  assert (E1 : negb (bool_decide (rq_Type req = ClientPublic)) && negb (bool_decide (rq_Type req = ClientConfidential)) = false).
  { destruct Htyp as [->| ->]; done. }
  assert (E2 : bool_decide (rq_Type req = ClientConfidential) && bool_decide (secret = EmptyString) = false).
  { apply andb_false_iff. destruct Htyp as [->|Ht]; [by left|right]. apply bool_decide_false. rewrite Hsec, Ht. done. }
  assert (E3 : bool_decide (rq_Type req = ClientPublic) && negb (bool_decide (secret = EmptyString)) = false).
  { destruct (decide (secret = EmptyString)) as [->|Hs]; [rewrite (bool_decide_true (EmptyString = EmptyString)) by done; apply andb_false_r|].
    rewrite (bool_decide_false (rq_Type req = _)); [done|]. by rewrite <-Hsec. }
  rewrite E1, E2, E3. apply check_redirects_spec in Hall. destruct (rq_RedirectURIs req) as [|r rs]; [done|].
  cbn [length Nat.eqb]. rewrite Hall. case_bool_decide; [done|]. by destruct (hash secret).
Qed.

Lemma newClient_unacceptable now id req secret :
  ¬ acceptable req → (secret = EmptyString ↔ rq_Type req ≠ ClientConfidential) →
  ∃ e, ∀ hash, newClient now id (rq_Name req) (rq_Type req) secret (rq_RedirectURIs req) (rq_AllowedScopes req) hash = Some (Err e).
Proof.
  intros Hno Hsec. unfold newClient. case_bool_decide; [eauto|].
  destruct (negb _ && _) eqn:E1; [eauto|]. destruct (bool_decide _ && bool_decide _) eqn:E2; [eauto|].
  destruct (bool_decide _ && negb _) eqn:E3; [eauto|]. destruct (Nat.eqb_spec (length (rq_RedirectURIs req)) 0); [eauto|].
  destruct (check_redirects _) as [e|] eqn:E; [eauto|]. destruct Hno. apply check_redirects_spec in E. split_and!; [|by intros Hn; rewrite Hn in *|done].
  apply andb_false_iff in E1 as [Hp%negb_false_iff%bool_decide_eq_true|Hc%negb_false_iff%bool_decide_eq_true]; auto.
Qed.

Lemma hex_nonempty b k : len b = S k → hex_EncodeToString b ≠ EmptyString.
Proof. by destruct b. Qed.

(** The client with a verifier made from a secret and a salt. *)
Definition opens (salt secret : string) (c : Client) : Prop :=
  Authenticate c secret = true ∧
  ∀ x, Authenticate c x = true → hmac_sha256 salt (secretHashFastDomain +:+ secret) = hmac_sha256 salt (secretHashFastDomain +:+ x).

Lemma generated_hash salt secret :
  len salt = secretHashSaltBytes → ∃ h, NewGeneratedSecretHash (Some salt) secret = Some h ∧ validSecretHash h = true ∧
    ∀ c, opens salt secret (set_secretHash h c).
Proof.
  intros Hs. unfold NewGeneratedSecretHash. destruct (hashGeneratedSecret (Some salt) secret) as [h|] eqn:E; [|done].
  destruct (hashGeneratedSecret_spec _ _ _ Hs E) as (Hv & Hl & Hver). exists h. split_and!; [done..|].
  intros c. unfold opens, Authenticate. simpl. rewrite (proj2 (Nat.eqb_neq _ _)) by done. simpl. split.
  - rewrite Hver. by apply bool_decide_true.
  - intros x. rewrite Hver. by intros ?%bool_decide_eq_true_1.
Qed.

Lemma run_secret_for req w :
  ∃ n secret, run (secret_for admin_rand req) w = Some (drawn n w, Ok secret) ∧ (secret = EmptyString ↔ rq_Type req ≠ ClientConfidential).
Proof.
  unfold secret_for. case_bool_decide as Ht; [|exists 0, EmptyString; split; [by destruct w|done]].
  destruct (run_rand 32 w) as (b & _ & Hl & Hr). exists 1, (hex_EncodeToString b). split.
  - unfold newSecret. by rewrite run_bind, Hr.
  - split; [intros E; by destruct (hex_nonempty b 31 Hl)|by intros []].
Qed.

Lemma run_new_client id secret req w :
  id ≠ EmptyString → (secret = EmptyString ↔ rq_Type req ≠ ClientConfidential) →
  (¬ acceptable req ∧ ∃ e, run (new_client admin_rand admin_clock id secret req) w = Some (w, Ok (Some (Err e)))) ∨
  (acceptable req ∧ ∃ n c, run (new_client admin_rand admin_clock id secret req) w = Some (drawn n w, Ok (Some (Ok c))) ∧
     cl_ID c = id ∧ cl_Status c = ClientActive ∧ cl_RedirectURIs c = rq_RedirectURIs req ∧
     cl_AllowedScopes c = rq_AllowedScopes req ∧
     (rq_Type req = ClientPublic → ∀ x, Authenticate c x = false) ∧
     (rq_Type req = ClientConfidential → ∃ salt, opens salt secret c)).
Proof.
  intros Hid Hsec. unfold new_client. rewrite run_bind, run_reads. cbv zeta. set (now := admin_clock w).
  destruct (decide (rq_Type req = ClientPublic ∨ rq_Type req = ClientConfidential)) as [Ht|Ht].
  2: { left. assert (Hno : ¬ acceptable req) by by intros [? _]. split; [done|].
       destruct (newClient_unacceptable now id req secret Hno Hsec) as [e He]. exists e. by rewrite He. }
  destruct (decide (rq_RedirectURIs req ≠ [] ∧ Forall (λ r, validRedirectURI r = None) (rq_RedirectURIs req))) as [[Hne Hall]|Hno].
  2: { left. assert (Hno' : ¬ acceptable req) by (intros (_ & ? & ?); by destruct Hno). split; [done|].
       destruct (newClient_unacceptable now id req secret Hno' Hsec) as [e He]. exists e. by rewrite He. }
  assert (Hacc : acceptable req) by done. right. split; [done|].
  assert (Hsec' : secret = EmptyString ↔ rq_Type req = ClientPublic).
  { rewrite Hsec. destruct Ht as [->| ->]; split; done. }
  rewrite !(λ h, newClient_acceptable now id req secret h Hid Hacc Hsec'). cbv zeta.
  destruct Ht as [Ht|Ht].
  - rewrite (bool_decide_true (secret = EmptyString)) by by apply Hsec'. exists 0. eexists. split; [by destruct w|].
    simpl. split_and!; try done. by rewrite Ht.
  - rewrite (bool_decide_false (secret = EmptyString)) by (rewrite Hsec'; by rewrite Ht). cbn [fmap option_fmap option_map].
    destruct (run_rand secretHashSaltBytes w) as (salt & _ & Hl & Hr). destruct (generated_hash salt secret Hl) as (h & Hh & _ & Hop).
    exists 1. eexists. split.
    { rewrite run_bind, Hr, run_ret. rewrite (newClient_acceptable now id req secret _ Hid Hacc Hsec'). cbv zeta.
      rewrite (bool_decide_false (secret = EmptyString)) by (rewrite Hsec'; by rewrite Ht). rewrite Hh. reflexivity. }
    simpl. split_and!; try done; [by rewrite Ht|]. intros _. exists salt.
    specialize (Hop (mkClient id (rq_Name req) (rq_Type req) ClientActive now (rq_RedirectURIs req) (rq_AllowedScopes req) false EmptyString)).
    exact Hop.
Qed.

(** [Register] over the registry in memory, when the id it draws is new. A
    request with a known type and valid redirect URIs is answered with a client
    that is registered under that id, active at once, and, if confidential, with
    a secret that opens it; any other request is refused as the caller's mistake
    and nothing is registered or recorded. *)
Theorem Register_exact actor req w b :
  rand_read (aw_rand w) 8 = Some b → let id := "cli_" +:+ hex_EncodeToString b in
  byID (aw_clients w) !! id = None →
  ∃ w' r, run (Register plane admin_rand admin_clock actor req) w = Some (w', r) ∧
  (acceptable req → ∃ reg, r = Ok (Some reg) ∧
     byID (aw_clients w') = <[id := rn_Client reg]> (byID (aw_clients w)) ∧ Get id (aw_clients w') = Ok (rn_Client reg) ∧
     cl_RedirectURIs (rn_Client reg) = rq_RedirectURIs req ∧ cl_AllowedScopes (rn_Client reg) = rq_AllowedScopes req ∧
     (rq_Type req = ClientPublic → rn_Secret reg = EmptyString ∧ ∀ x, Authenticate (rn_Client reg) x = false) ∧
     (rq_Type req = ClientConfidential → ∃ salt, opens salt (rn_Secret reg) (rn_Client reg))) ∧
  (¬ acceptable req → ∃ e, r = Err e ∧ errors_Is e ErrInvalidRegistration = true ∧
     aw_clients w' = aw_clients w ∧ aw_stores w' = aw_stores w).
Proof.
  intros Hb id Hfree. assert (Hid : id ≠ EmptyString) by done.
  assert (Hnew : run (newClientID admin_rand) w = Some (drawn 1 w, Ok id)).
  { unfold newClientID, admin_rand. rewrite run_bind, run_atomic. cbn [fst snd]. by rewrite Hb. }
  destruct (run_secret_for req (drawn 1 w)) as (n & secret & Hsec & Hiff).
  unfold Register. rewrite run_bind, Hnew, run_bind. rewrite Hsec, run_bind.
  destruct (run_new_client id secret req (drawn n (drawn 1 w)) Hid Hiff)
    as [[Hno (e & ->)]|(Hacc & m & c & -> & Hcid & Hst & Hred & Hsc & Hpub & Hconf)].
  - eexists _, _. split; [apply run_throw|]. split; [done|]. intros _. eexists. split; [done|]. split; [|done].
    reflexivity.
  - rewrite run_bind. cbn [ad_clients memory_admin cs_Create memory_clients]. unfold on_clients. rewrite run_call.
    unfold Create. cbn [aw_clients drawn]. rewrite Hcid, Hfree. rewrite run_bind, run_admin_record. eexists _, _. split; [apply run_ret|].
    split; [|done]. intros _. eexists. split; [done|]. cbn [rn_Client rn_Secret logged set_afed aw_clients set_clients byID].
    split_and!; try done.
    + unfold Get. simpl. by rewrite lookup_insert_eq, Hst.
    + intros Ht. split; [|by apply Hpub]. apply Hiff. by rewrite Ht.
Qed.

(** [RotateClientSecret] over the registry in memory. For a registered
    confidential client a new secret is returned that opens the client, whose
    record differs in the verifier only; for an id nobody has, and for a public
    client, the error says so and the registry is as it was. *)
Theorem RotateClientSecret_exact actor id w :
  ∃ w' r, run (RotateClientSecret plane admin_rand actor id) w = Some (w', r) ∧
  match byID (aw_clients w) !! id with
  | None => r = Err ErrClientNotFound ∧ aw_clients w' = aw_clients w
  | Some c =>
      if bool_decide (cl_Type c = ClientConfidential) then
        ∃ salt secret h, r = Ok (Some secret) ∧ opens salt secret (set_secretHash h c) ∧
          byID (aw_clients w') = <[id := set_secretHash h c]> (byID (aw_clients w))
      else r = Err ErrNoSecretToRotate ∧ aw_clients w' = aw_clients w
  end.
Proof.
  destruct (run_rand 32 w) as (b & _ & _ & Hr1). destruct (run_rand secretHashSaltBytes (drawn 1 w)) as (salt & _ & Hl & Hr2).
  destruct (generated_hash salt (hex_EncodeToString b) Hl) as (h & Hh & Hv & Hop).
  unfold RotateClientSecret. rewrite run_bind. unfold newSecret. rewrite run_bind, Hr1, run_ret, run_bind, Hr2, Hh.
  rewrite run_bind, run_try. cbn [ad_clients memory_admin cs_RotateSecret memory_clients]. unfold on_clients. rewrite run_call.
  unfold RotateSecret. rewrite Hv. cbn [negb aw_clients drawn].
  destruct (byID (aw_clients w) !! id) as [c|] eqn:Hc; rewrite ?run_bind.
  - destruct (decide (cl_Type c = ClientConfidential)) as [Ht|Ht].
    + rewrite !(bool_decide_true _ Ht). cbn [negb]. rewrite run_bind, run_admin_record. eexists _, _. split; [apply run_ret|].
      exists salt, (hex_EncodeToString b), h. split_and!; [done|apply Hop|done].
    + rewrite !(bool_decide_false _ Ht). cbn [negb]. rewrite run_bind, run_admin_record. eexists _, _. split; [apply run_throw|].
      split; [done|]. simpl. by destruct (aw_clients w).
  - rewrite run_admin_record. eexists _, _. split; [apply run_throw|]. split; [done|]. simpl. by destruct (aw_clients w).
Qed.

(** The tokens of a client, swept. *)
Lemma run_client_tokens id w :
  oidc_wf (ew_oidc (aw_stores w)) → ∃ o n, run (admin_tokens (mkFilter id EmptyString)) w = Some (set_aoidc o w, Ok (n, None)) ∧
    oidc_wf o ∧ clear_of (Matches (mkFilter id EmptyString)) (abs o) ∧
    beyond (Matches (mkFilter id EmptyString)) (abs o) =
      beyond (Matches (mkFilter id EmptyString)) (abs (ew_oidc (aw_stores w))).
Proof.
  intros Hwf. unfold admin_tokens. rewrite run_atomic. unfold TokenAdmins_RevokeTokens, oidc_engine.
  pose proof (RevokeTokens_spec (mkFilter id EmptyString) (ew_oidc (aw_stores w)) Hwf) as Hs.
  destruct (OIDC_RevokeTokens _ _) as [o r]. destruct Hs as (Ho & Habs & ->). simpl in *.
  destruct (revoke_clears id EmptyString (Matches (mkFilter id EmptyString)) (abs (ew_oidc (aw_stores w)))) as [Hc Hb].
  rewrite <-Habs in Hc, Hb. by eexists _, _.
Qed.

(** [SuspendClient] over the stores in memory: a registered client can no longer
    be looked up, and no credential of it is left while those of other clients
    are as they were; an unknown id is an error that changes neither store. *)
Theorem SuspendClient_exact actor id w :
  oidc_wf (ew_oidc (aw_stores w)) →
  ∃ w' r, run (SuspendClient plane actor id) w = Some (w', r) ∧
  match byID (aw_clients w) !! id with
  | None => r = Err ErrClientNotFound ∧ aw_clients w' = aw_clients w ∧ ew_oidc (aw_stores w') = ew_oidc (aw_stores w)
  | Some c =>
      r = Ok tt ∧ byID (aw_clients w') = <[id := set_status ClientSuspended c]> (byID (aw_clients w)) ∧
      Get id (aw_clients w') = Err ErrClientNotFound ∧
      clear_of (Matches (mkFilter id EmptyString)) (abs (ew_oidc (aw_stores w'))) ∧
      beyond (Matches (mkFilter id EmptyString)) (abs (ew_oidc (aw_stores w'))) =
        beyond (Matches (mkFilter id EmptyString)) (abs (ew_oidc (aw_stores w)))
  end.
Proof.
  intros Hwf. unfold SuspendClient. rewrite run_bind, run_try. cbn [ad_clients memory_admin cs_SetStatus memory_clients ad_tokens].
  unfold on_clients. rewrite run_call. unfold SetStatus. rewrite (bool_decide_true (ClientSuspended = ClientSuspended)) by done.
  rewrite andb_false_r. destruct (byID (aw_clients w) !! id) as [c|] eqn:Hc.
  - set (w1 := set_clients _ w). rewrite run_bind.
    destruct (run_client_tokens id w1 Hwf) as (o & n & -> & Ho & Hclear & Hbeyond). cbn [fst snd].
    rewrite run_bind, run_admin_record. eexists _, _. split; [apply run_ret|]. split_and!; try done.
    unfold Get. simpl. by rewrite lookup_insert_eq.
  - rewrite run_bind, run_admin_record. eexists _, _. split; [apply run_throw|]. by destruct w as [? [] ?].
Qed.

(** [DeleteClient] over the stores in memory, the registry wired to the token
    engine: the registration and every credential of the client are gone, whether
    or not it was registered, and those of other clients are as they were. *)
Theorem DeleteClient_exact actor id w :
  oidc_wf (ew_oidc (aw_stores w)) → Client.wired (aw_clients w) = true →
  ∃ w', run (DeleteClient plane actor id) w = Some (w', Ok tt) ∧
    byID (aw_clients w') = delete id (byID (aw_clients w)) ∧
    clear_of (Matches (mkFilter id EmptyString)) (abs (ew_oidc (aw_stores w'))) ∧
    beyond (Matches (mkFilter id EmptyString)) (abs (ew_oidc (aw_stores w'))) =
      beyond (Matches (mkFilter id EmptyString)) (abs (ew_oidc (aw_stores w))).
Proof.
  intros Hwf Hwired. unfold DeleteClient. rewrite run_bind, run_try. cbn [ad_clients memory_admin cs_Delete memory_clients ad_tokens].
  assert (Hdel : ∃ o, run (zoom aw_engine set_engine (Delete id)) w =
    Some (set_engine (mkClients (delete id (byID (aw_clients w))) true, o) w, Ok tt) ∧ oidc_wf o ∧
    beyond (Matches (mkFilter id EmptyString)) (abs o) =
      beyond (Matches (mkFilter id EmptyString)) (abs (ew_oidc (aw_stores w)))).
  { rewrite run_zoom by apply _. unfold Delete. rewrite run_bind, run_reads. cbn [fst aw_engine]. rewrite Hwired.
    rewrite !run_bind, run_call. cbn [snd aw_engine admin_RevokeTokens oidc_admin].
    pose proof (RevokeTokens_spec (mkFilter id EmptyString) (ew_oidc (aw_stores w)) Hwf) as Hs.
    destruct (OIDC_RevokeTokens _ _) as [o r]. destruct Hs as (Ho & Habs & ->). rewrite run_ret, run_modify. exists o.
    split; [simpl; by rewrite Hwired|]. split; [done|]. rewrite Habs. apply revoke_clears. }
  destruct Hdel as (o & -> & Ho & Hb). rewrite run_bind. set (w1 := set_engine _ w).
  destruct (run_client_tokens id w1 Ho) as (o2 & n & -> & _ & Hclear & Hbeyond). cbn [fst snd err_of join_errors].
  rewrite run_bind, run_admin_record. eexists. split; [apply run_ret|]. split_and!; try done. etrans; [exact Hbeyond|exact Hb].
Qed.
End clients.
