(* ===== verification/AdminDemo.v ===== *)
(** * The operator plane, on a concrete deployment

    Closed instances of the theorems of [AdminProps] and [AdminMem], and what a
    report leaves out. *)

From S2P Require Import Prelude GoStd Proc AuditLog Tokens Client VaultRepo VaultEnvelope Vault VaultProps VaultDemo.
From S2P Require Import FedRegistry FedStore FedLimits FedLocks Fed FedRun FedProps FedBind FedDemo Account.
From S2P Require Import OidcPolicy OidcTables OidcStore OidcWf OidcRevoke OidcSteps Erasure ErasureDemo Admin AdminProps AdminMem.

#[local] Existing Instance toy_platform.
#[local] Existing Instance toy_platform_ok.
#[local] Existing Instance canonical_order.
#[local] Existing Instance canonical_order_ok.
#[local] Existing Instance toy_aead.
#[local] Existing Instance toy_aead_ok.
#[local] Existing Instance vault_entropy.
#[local] Existing Instance vault_entropy_ok.
#[local] Existing Instance toy_json.
#[local] Existing Instance toy_json_ok.
#[local] Existing Instance toy_upstream.
#[local] Existing Instance demo_fed_keys.

(** The deployment of [ErasureDemo] with a registered client. *)
Definition w_plane : AWorld (list HTTPRequest) := mkAWorld w_account demo_clients 0.

Lemma w_plane_inv : admin_inv demo_fed 3 w_plane.
Proof. split; [exact w_account_inv|]. apply Nat.ltb_lt. vm_compute. reflexivity. Qed.

Definition one_account : Target := mkTarget false EmptyString "usr_1" false.
Definition one_client : Target := mkTarget false "app" EmptyString false.

Lemma KillSwitch_memory_witness :
  ∃ w' rep, run (KillSwitch (memory_admin demo_fed 3) "op" one_account) w_plane = Some (w', Ok (rep, None)) ∧
    row (aw_fed w') demo_key3 = None ∧ clear_of (hit one_account) (abs (ew_oidc (aw_stores w'))) ∧
    rp_SessionsUnavailable rep = true.
Proof.
  destruct (KillSwitch_memory demo_fed 3 eq_refl "op" one_account w_plane w_plane_inv eq_refl)
    as (w' & rep & Hrun & _ & Htok & Hrow & _ & _ & Hsess & _); [discriminate|].
  exists w', rep. split; [exact Hrun|]. split; [exact (Hrow demo_key3 eq_refl)|]. split; [exact (Htok eq_refl)|exact Hsess].
Defined.

Lemma KillSwitch_sound_witness :
  let s := memory_admin demo_fed 3 in
  runs (KillSwitch s "op" one_client) w_plane (told (H := memory_plane demo_fed 3) s "op" one_client w_plane).
Proof.
  exact (KillSwitch_sound (H := memory_plane demo_fed 3) (memory_admin demo_fed 3)
    (AdminOk0 := memory_admin_ok demo_fed 3 eq_refl) "op" one_client w_plane w_plane_inv).
Defined.

Definition demo_registration : RegisterRequest :=
  mkRegister "Game" ClientConfidential ["https://game.example/cb"] ["account.id"].

Lemma Register_exact_witness :
  ∃ w' reg, run (Register (memory_admin demo_fed 3) admin_rand admin_clock "op" demo_registration) w_plane =
    Some (w', Ok (Some reg)) ∧ ∃ salt, opens salt (rn_Secret reg) (rn_Client reg).
Proof.
  destruct (Register_exact demo_fed 3 "op" demo_registration w_plane _ eq_refl) as (w' & r & Hrun & Hok & _).
  { vm_compute. reflexivity. }
  assert (Hacc : acceptable demo_registration).
  { split; [by right|]. split; [discriminate|]. repeat constructor. }
  destruct (Hok Hacc) as (reg & -> & _ & _ & _ & _ & _ & Hconf). exists w', reg. split; [exact Hrun|]. exact (Hconf eq_refl).
Defined.

(** ** A sweep that stops half way *)

(** Ports over no state at all; the sweep of bindings removes three and then
    cannot read the next page. *)
Definition half_way : BindingOutcome := mkOutcome 3 3 0 0 0 0 0.
Definition failing : admin unit :=
  mkAdmin (mkClientsPort (λ _, mret tt) (λ _ _, mret ([], EmptyString)) (λ _ _, mret tt) (λ _ _, mret tt) (λ _, mret tt))
    (λ _, mret (0%Z, None)) None
    (Some (mkBindingsPort (mret (half_way, Some (New "next page"))) (λ _, mret (half_way, Some (New "next page")))))
    None (λ _, mret tt) (λ _, 0%Z).

(** The three that are gone are in neither the report nor the error. *)
Example killswitch_forgets_partial :
  ∃ rep err, run (KillSwitch failing "op" (mkTarget false EmptyString EmptyString true)) tt = Some (tt, Ok (rep, Some err)) ∧
    rp_Bindings rep = None ∧ err = PartialError rep "bindings" (New "next page").
Proof. eexists _, _. split; [reflexivity|]. by split. Qed.

(** A deletion of the empty id sweeps everybody's credentials. *)
Example delete_nobody :
  option_map (λ x, (map_size (op_access (abs (ew_oidc (aw_stores x.1)))), x.2))
    (run (DeleteClient (memory_admin demo_fed 3) "op" EmptyString) w_plane) = Some (0, Ok tt) ∧
  map_size (op_access (abs (ew_oidc (aw_stores w_plane)))) = 2.
Proof. vm_compute. done. Qed.
