(* ===== verification/Rely.v ===== *)
(** * A process among others

    Processes of a pool that all keep an invariant and move the world along one
    preorder, and what one of them can then say of its own result. *)

From S2P Require Import Prelude GoStd Proc.

Section rely.
Context {W : Type} (I : W → Prop) (F : W → W → Prop) `{!PreOrder F}.

(** [rely p w Q]: from [w], with the world moving along [F] before each action of
    the process and after the last one, [Q] holds of the world and the result. *)
Fixpoint rely {A} (p : proc W A) (w : W) (Q : W → A → Prop) : Prop :=
  match p with
  | Ret a => ∀ w1, I w1 → F w w1 → Q w1 a
  | Act act k => ∀ w1, I w1 → F w w1 → ∀ w2 b, act w1 = Some (w2, b) → rely (k b) w2 Q
  end.

Lemma rely_later {A} (p : proc W A) w w' Q : F w w' → rely p w Q → rely p w' Q.
Proof. intros Hf. destruct p as [a|B act k]; simpl; intros Hp w1 HI Hw; apply Hp; [done|by transitivity w'|done|by transitivity w']. Qed.

Lemma rely_mono {A} (p : proc W A) w (P Q : W → A → Prop) : rely p w P → (∀ w a, P w a → Q w a) → rely p w Q.
Proof. intros Hp HQ. revert w Hp. induction p as [a|B act k IH]; intros w Hp; simpl in *; eauto. Qed.

Lemma rely_pbind {A B} (p : proc W A) (f : A → proc W B) w Q :
  rely p w (λ w a, rely (f a) w Q) → rely (pbind p f) w Q.
Proof.
  revert w. induction p as [a|C act k IH]; intros w Hp; simpl in *; [|eauto].
  destruct (f a) as [b|B' act k]; simpl in *; intros w1 HI Hw; by apply (Hp w1 HI Hw w1 HI).
Qed.

Lemma rely_bind {A B} (p : go W A) (f : A → go W B) w (P : W → result A → Prop) Q :
  rely p w P → (∀ w a, P w (Ok a) → rely (f a) w Q) → (∀ w e, P w (Err e) → ∀ w1, I w1 → F w w1 → Q w1 (Err e)) →
  rely (mbind (M:=go W) f p) w Q.
Proof.
  intros Hp Hf He. apply rely_pbind. eapply rely_mono; [exact Hp|]. intros w1 [a|e] HP; [by apply Hf|].
  simpl. intros w2 HI Hw2. by eapply He.
Qed.

Lemma rely_atomic {A} (f : W → W * A) w (Q : W → result A → Prop) :
  (∀ w1 w2, I w1 → F w w1 → I w2 → F (f w1).1 w2 → Q w2 (Ok (f w1).2)) → rely (atomic f) w Q.
Proof. intros Hf w1 HI1 Hw1 w2 b [= E] w3 HI3 Hw3. specialize (Hf w1 w3 HI1 Hw1 HI3). rewrite E in Hf. by apply Hf. Qed.

(** What a process guarantees of its result it also says among others. *)
Lemma rely_guar {A} (p : proc W A) w (Q : A → Prop) : guar I F p Q → rely p w (λ _ a, Q a).
Proof.
  revert w. induction p as [a|B act k IH]; intros w Hp; simpl in *; [done|].
  intros w1 HI _ w2 b Ha. destruct (Hp w1 w2 b HI Ha) as (_ & _ & Hk). by apply IH.
Qed.

(** The world of a process has moved along [F] since it started, if its own
    actions do. *)
Lemma rely_since {A} (p : proc W A) w0 w (Q : W → A → Prop) :
  F w0 w → guar I F p (λ _, True) → rely p w Q → rely p w (λ w1 a, I w1 ∧ F w0 w1 ∧ Q w1 a).
Proof.
  revert w. induction p as [a|B act k IH]; intros w Hw Hg Hp; simpl in *.
  - intros w1 HI Hw1. split_and!; [done|by transitivity w|by apply Hp].
  - intros w1 HI Hw1 w2 b Ha. destruct (Hg w1 w2 b HI Ha) as (_ & HF & Hk).
    apply IH; [|done|by eapply Hp]. transitivity w1; [by transitivity w|done].
Qed.

(** Alone. *)
Lemma rely_run {A} (p : proc W A) w w' a Q :
  I w → guar I F p (λ _, True) → rely p w Q → run p w = Some (w', a) → Q w' a.
Proof.
  revert w. induction p as [b|B act k IH]; intros w HI Hg Hp; simpl in *; [intros [= <- <-]; by apply Hp|].
  destruct (act w) as [[w1 b]|] eqn:E; [|done]. destruct (Hg w w1 b HI E) as (HI1 & _ & Hk).
  apply IH; [done|done|]. by apply (Hp w).
Qed.

(** In a pool of processes that keep [I] and move along [F], the world does, and
    each process can rely on it. *)
Lemma guar_onward {A} w (ps : list (proc W A)) w' ps' :
  I w → (∀ j q, ps !! j = Some q → guar I F q (λ _, True)) → preach (w, ps) (w', ps') →
  I w' ∧ F w w' ∧ ∀ j q, ps' !! j = Some q → guar I F q (λ _, True).
Proof.
  intros HI Hps Hr. remember (w, ps) as x eqn:Ex. remember (w', ps') as y eqn:Ey.
  revert w ps Ex HI Hps. induction Hr as [x|x [w1 ps1] z Hst Hr IH]; intros w ps -> HI Hps.
  { injection Ey as <- <-. split_and!; [done|reflexivity|done]. }
  inversion Hst as [? ? ? j B act k b Hj Ha]; subst. destruct (Hps j _ Hj w w1 b HI Ha) as (HI1 & HF & Hk).
  destruct (IH eq_refl w1 (<[j := k b]> ps) eq_refl HI1) as (HI' & HF' & Hg); [|split_and!; [done|by transitivity w1|done]].
  intros j' q [(<- & <- & _)|[_ Hq]]%list_lookup_insert_Some; [done|by eapply Hps].
Qed.

Lemma rely_done {A} w (ps : list (proc W A)) w' ps' i p Q a :
  I w → (∀ j q, ps !! j = Some q → guar I F q (λ _, True)) → preach (w, ps) (w', ps') →
  ps !! i = Some p → rely p w Q → ps' !! i = Some (Ret a) → Q w' a.
Proof.
  intros HI Hps Hr. remember (w, ps) as x eqn:Ex. remember (w', ps') as y eqn:Ey.
  revert w ps p Ex HI Hps. induction Hr as [x|x [w1 ps1] z Hst Hr IH]; intros w ps p -> HI Hps Hi Hp Ha.
  { injection Ey as <- <-. rewrite Ha in Hi. injection Hi as <-. by apply Hp. }
  inversion Hst as [? ? ? j B act k b Hj Hact]; subst.
  destruct (Hps j _ Hj w w1 b HI Hact) as (HI1 & HF & Hk).
  assert (Hps1 : ∀ j' q, <[j := k b]> ps !! j' = Some q → guar I F q (λ _, True)).
  { intros j' q [(<- & <- & _)|[_ Hq]]%list_lookup_insert_Some; [done|by eapply Hps]. }
  assert (∃ p1, <[j := k b]> ps !! i = Some p1 ∧ rely p1 w1 Q) as (p1 & Hi1 & Hp1).
  { destruct (decide (i = j)) as [->|Hne].
    - exists (k b). split; [apply list_lookup_insert_eq; by eapply lookup_lt_Some|].
      rewrite Hj in Hi. injection Hi as <-. by apply (Hp w).
    - exists p. rewrite list_lookup_insert_ne by done. split; [done|]. by eapply rely_later. }
  by eapply IH.
Qed.
End rely.
