(* ===== verification/SafeUrl.v ===== *)
(** * Where a browser may be sent back to ([safeurl/safeurl.go], [redirectError])

    [net/url] for references that begin with a slash, the guard on [return_to],
    and the error redirect that adds a parameter to what passed the guard. *)

From S2P Require Import Prelude GoStd Fed.

(** ** [net/url], for a reference that begins with one slash *)

(** [strings.Cut(s, c)] without its third result. *)
Fixpoint strings_Cut (s : string) (c : ascii) : string * string :=
  match s with
  | EmptyString => (EmptyString, EmptyString)
  | String a s' => if bool_decide (a = c) then (EmptyString, s') else let '(x, y) := strings_Cut s' c in (String a x, y)
  end.

Definition is_ctl (c : ascii) : bool := (code c <? 32)%N || (code c =? 127)%N.

(** [shouldEscape], negated, for a whole path and for a fragment. *)
Definition path_plain (c : ascii) : bool :=
  is_unreserved c || existsb (λ d, bool_decide (c = d)) ["$"; "&"; "+"; ","; "/"; ":"; ";"; "="; "@"]%char.
Definition fragment_plain (c : ascii) : bool :=
  path_plain c || existsb (λ d, bool_decide (c = d)) ["?"; "!"; "("; ")"; "*"]%char.

Fixpoint url_escape (plain : ascii → bool) (s : string) : string :=
  match s with
  | EmptyString => EmptyString
  | String c s' =>
      if plain c then String c (url_escape plain s')
      else String "%" (String (upper_hex (code c / 16)) (String (upper_hex (code c mod 16)) (url_escape plain s')))
  end.

(** [validEncoded]. *)
Definition validEncoded (plain : ascii → bool) : string → bool :=
  str_forall (λ c, existsb (λ d, bool_decide (c = d))
    ["!"; "$"; "&"; "'"; "("; ")"; "*"; "+"; ","; ";"; "="; ":"; "@"; "["; "]"; "%"]%char || plain c).

Record RelURL := mkRelURL {
  ru_Path : string;
  ru_RawPath : string;
  ru_ForceQuery : bool;
  ru_RawQuery : string;
  ru_Fragment : string;
  ru_RawFragment : string;
}.

(** [setPath] and [setFragment]: the decoded form, and the text when it is not
    the default encoding of it. *)
Definition set_text (plain : ascii → bool) (p : string) : option (string * string) :=
  d ← url_PathUnescape p; Some (d, if bool_decide (p = url_escape plain d) then EmptyString else p).
(** [EscapedPath] and [EscapedFragment]. *)
Definition escaped_text (plain : ascii → bool) (d raw : string) : string :=
  if negb (bool_decide (raw = EmptyString)) && validEncoded plain raw && bool_decide (url_PathUnescape raw = Some d)
  then raw else url_escape plain d.

(** The query of [parse]: a lone [?] at the end sets [ForceQuery]. *)
Definition cut_query (rest : string) : string * string * bool :=
  let '(p, q) := strings_Cut rest "?" in
  (p, q, bool_decide (q = EmptyString) && negb (lacks "?" rest)).

(** [url.Parse] of [v], which begins with one slash and not two: there is no
    scheme and no authority. *)
Definition url_ParseRooted (v : string) : option RelURL :=
  let '(u, frag) := strings_Cut v "#" in
  if negb (str_forall (λ c, negb (is_ctl c)) u) then None else
  let '(rest, query, force) := cut_query u in
  '(path, rawPath) ← set_text path_plain rest;
  if bool_decide (frag = EmptyString) then Some (mkRelURL path rawPath force query EmptyString EmptyString) else
  '(fragment, rawFragment) ← set_text fragment_plain frag;
  Some (mkRelURL path rawPath force query fragment rawFragment).

(** [URL.String] of a URL without scheme, authority or opaque part, and with a
    rooted path. *)
Definition url_String (u : RelURL) : string :=
  escaped_text path_plain (ru_Path u) (ru_RawPath u) +:+
  (if ru_ForceQuery u || negb (bool_decide (ru_RawQuery u = EmptyString)) then String "?" (ru_RawQuery u) else EmptyString) +:+
  (if bool_decide (ru_Fragment u = EmptyString) then EmptyString
   else String "#" (escaped_text fragment_plain (ru_Fragment u) (ru_RawFragment u))).

(** [URL.Query]: the pairs that decode, the others dropped. *)
Definition parse_pair (m : gmap string (list string)) (pair : string) : gmap string (list string) :=
  if negb (lacks ";" pair) || bool_decide (pair = EmptyString) then m else
  let '(key, value) := strings_Cut pair "=" in
  match url_QueryUnescape key, url_QueryUnescape value with
  | Some key, Some value => <[key := default [] (m !! key) ++ [value]]> m
  | _, _ => m
  end.
Definition url_Query (u : RelURL) : gmap string (list string) := foldl parse_pair ∅ (strings_Split (ru_RawQuery u) "&").

(** ** [safeurl.RelativePath] *)

Definition MaxRelativePathBytes : nat := 2048.

Definition RelativePath (v : string) : string :=
  if bool_decide (v = EmptyString) then "/" else
  if MaxRelativePathBytes <? len v then "/" else
  if negb (strings_HasPrefix v "/") || strings_HasPrefix v "//" then "/" else
  if negb (lacks "\" v) then "/" else
  match url_ParseRooted v with None => "/" | Some _ => v end.

(** ** [redirectError] of a path that passed the guard: what it hands to
    [http.Redirect]; [None] is the error page. *)
Definition redirectError_target (returnTo code : string) : option string :=
  u ← url_ParseRooted returnTo;
  let q := <["error" := [code]]> (url_Query u) in
  Some (url_String (mkRelURL (ru_Path u) (ru_RawPath u) (ru_ForceQuery u) (url_Encode q) (ru_Fragment u) (ru_RawFragment u))).

(** ** [http.Redirect], of a reference that begins with a slash *)

(** [strings.LastIndex(s, c)], and the two sides of it. *)
Fixpoint cut_last (s : string) (c : ascii) : option (string * string) :=
  match s with
  | EmptyString => None
  | String a s' =>
      match cut_last s' c with
      | Some (x, y) => Some (String a x, y)
      | None => if bool_decide (a = c) then Some (EmptyString, s') else None
      end
  end.

(** [unescape] of a part of a URL answers. *)
Definition decodes (s : string) : bool := bool_decide (is_Some (url_PathUnescape s)).
Definition validUserinfo : string → bool :=
  str_forall (λ c, is_unreserved c || existsb (λ d, bool_decide (c = d))
    [":"; "!"; "$"; "&"; "'"; "("; ")"; "*"; "+"; ","; ";"; "="; "%"; "@"]%char).

(** [parseAuthority] answers an empty host: what follows the last [@] is empty, and
    what precedes it is a user, with or without a password. (A host that is not
    empty stays not empty, or is an error.) *)
Definition hostless_authority (authority : string) : bool :=
  match cut_last authority "@" with
  | None => bool_decide (authority = EmptyString)
  | Some (userinfo, host) =>
      let '(user, password) := strings_Cut userinfo ":" in
      bool_decide (host = EmptyString) && validUserinfo userinfo && decodes user && decodes password
  end.

(** [url.Parse] answers a URL without a host; two slashes, and not three, begin an
    authority. *)
Definition hostless (v : string) : bool :=
  let '(u, frag) := strings_Cut v "#" in
  let rest := (strings_Cut u "?").1 in
  str_forall (λ c, negb (is_ctl c)) u && decodes frag &&
  match strings_CutPrefix rest "//" with
  | Some rest' =>
      if strings_HasPrefix rest' "/" then decodes rest else
      let '(authority, path) := strings_Cut rest' "/" in hostless_authority authority && decodes path
  | None => decodes rest
  end.

(** [strings.HasSuffix(s, "/")]. *)
Fixpoint ends_slash (s : string) : bool :=
  match s with
  | EmptyString => false
  | String c EmptyString => bool_decide (c = "/"%char)
  | String _ s' => ends_slash s'
  end.

(** [hexEscapeNonASCII]. *)
Fixpoint hexEscapeNonASCII (s : string) : string :=
  match s with
  | EmptyString => EmptyString
  | String c s' =>
      if is_ascii c then String c (hexEscapeNonASCII s')
      else String "%" (hex_EncodeToString (String c EmptyString) +:+ hexEscapeNonASCII s')
  end.

(** The [Location] of [http.Redirect(url)]: without a host, the part before the
    query is cleaned, and keeps a slash at its end. *)
Definition clean_target (url : string) : string :=
  let p := (strings_Cut url "?").1 in
  let cleaned := path_CleanRooted p in
  cleaned +:+ (if ends_slash p && negb (ends_slash cleaned) then "/" else EmptyString) +:+
  (if lacks "?" url then EmptyString else String "?" (strings_Cut url "?").2).
Definition http_Redirect (url : string) : string :=
  hexEscapeNonASCII (if hostless url then clean_target url else url).

(** ** What a browser makes of it *)

(** A reference of this origin: it begins with one slash, not followed by a
    second one or a backslash. *)
Definition same_origin (v : string) : Prop :=
  ∃ rest, v = String "/" rest ∧ match rest with String c _ => c ≠ "/"%char ∧ c ≠ "\"%char | EmptyString => True end.

Lemma HasPrefix_iff v p : strings_HasPrefix v p = true ↔ ∃ rest, v = p +:+ rest.
Proof.
  unfold strings_HasPrefix. rewrite bool_decide_eq_true. split.
  - intros [r Hr]. exists r. by apply CutPrefix_Some.
  - intros [r ->]. exists r. apply CutPrefix_app.
Qed.

(** The rules of the guard. *)
Definition guarded (v : string) : Prop :=
  same_origin v ∧ lacks "\" v = true ∧ len v ≤ MaxRelativePathBytes ∧
  str_forall (λ c, negb (is_ctl c)) (strings_Cut v "#").1 = true.

Lemma guarded_root : guarded "/".
Proof. split_and!; [by exists EmptyString|done| |done]. unfold MaxRelativePathBytes. simpl. lia. Qed.


(** [RelativePath]: whatever the caller sends, the answer keeps the rules; a value
    that keeps them and decodes is kept as it is. *)
Lemma RelativePath_guarded v : guarded (RelativePath v).
Proof.
  unfold RelativePath. pose proof guarded_root as Hroot.
  case_bool_decide; [done|]. destruct (Nat.ltb_spec MaxRelativePathBytes (len v)); [done|].
  destruct (strings_HasPrefix v "/") eqn:E1; simpl; [|done]. destruct (strings_HasPrefix v "//") eqn:E2; [done|].
  destruct (lacks "\" v) eqn:E3; simpl; [|done]. destruct (url_ParseRooted v) as [u|] eqn:E4; [|done].
  apply HasPrefix_iff in E1 as [rest ->]. split_and!; [|done|done|].
  - exists rest. split; [done|]. destruct rest as [|c rest]; [done|]. split.
    + intros ->. apply not_true_iff_false in E2. apply E2, HasPrefix_iff. by exists rest.
    + intros ->. done.
  - unfold url_ParseRooted in E4. destruct (strings_Cut _ "#") as [x y]. simpl. by destruct (str_forall _ x).
Qed.
Lemma RelativePath_kept v : guarded v → is_Some (url_ParseRooted v) → RelativePath v = v.
Proof.
  intros ((rest & -> & Hne) & Hb & Hl & _) [u Hu]. unfold RelativePath. rewrite bool_decide_false by done.
  destruct (Nat.ltb_spec MaxRelativePathBytes (len (String "/" rest))); [lia|].
  rewrite (proj2 (HasPrefix_iff _ "/")) by (by exists rest). simpl.
  assert (E2 : strings_HasPrefix (String "/" rest) "//" = false).
  { apply not_true_iff_false. rewrite HasPrefix_iff. intros [r [= ->]]. by destruct Hne. }
  by rewrite E2, Hb, Hu.
Qed.

(** The path of a reference, as it is written. *)
Definition path_text (v : string) : string := (strings_Cut (strings_Cut v "#").1 "?").1.

Lemma Cut_cons a s c : a ≠ c → (strings_Cut (String a s) c).1 = String a (strings_Cut s c).1.
Proof. intros Ha. cbn [strings_Cut]. rewrite bool_decide_false by done. by destruct (strings_Cut s c). Qed.
Lemma Cut_head s c a t : (strings_Cut s c).1 = String a t → ∃ t', s = String a t'.
Proof.
  destruct s as [|b s]; [done|]. destruct (decide (b = c)) as [->|Hb]; [cbn [strings_Cut]; by rewrite bool_decide_true|].
  rewrite Cut_cons by done. intros [= -> _]. eauto.
Qed.

Lemma upper_hex_plain : forallb (λ n, path_plain (upper_hex (N.of_nat n)) && fragment_plain (upper_hex (N.of_nat n))) (seq 0 16) = true.
Proof. vm_compute. reflexivity. Qed.

(** What is escaped is a valid encoding. *)
Lemma escape_valid d : validEncoded path_plain (url_escape path_plain d) = true.
Proof.
  assert (Hhex : ∀ n, (n < 16)%N → path_plain (upper_hex n) = true).
  { intros n Hn. assert (Hin : In (N.to_nat n) (seq 0 16)) by (apply in_seq; lia).
    pose proof (proj1 (forallb_forall _ _) upper_hex_plain _ Hin) as Hf. cbv beta in Hf. rewrite N2Nat.id in Hf.
    by apply andb_true_iff in Hf as [? _]. }
  unfold validEncoded. induction d as [|c d IH]; [done|]. cbn [url_escape]. destruct (path_plain c) eqn:E; cbn [str_forall].
  - by rewrite E, orb_true_r.
  - rewrite IH, !Hhex, !orb_true_r; [done|apply N.mod_lt; done|]. pose proof (code_lt c). apply N.Div0.div_lt_upper_bound. lia.
Qed.

Lemma escaped_text_eq p d raw : set_text path_plain p = Some (d, raw) → p ≠ EmptyString →
  url_PathUnescape p = Some d ∧ escaped_text path_plain d raw = if validEncoded path_plain p then p else url_escape path_plain d.
Proof.
  unfold set_text, escaped_text. destruct (url_PathUnescape p) as [d'|] eqn:Ed; [|done]. intros [= -> <-] Hp. split; [done|].
  destruct (decide (p = url_escape path_plain d)) as [E|E].
  - rewrite (bool_decide_true _ E). simpl. rewrite E at 1. rewrite escape_valid. done.
  - rewrite (bool_decide_false _ E), (bool_decide_false _ Hp), Ed, (bool_decide_true (Some d = Some d)) by done. simpl.
    by rewrite andb_true_r.
Qed.

Lemma RelativePath_parses v : is_Some (url_ParseRooted (RelativePath v)).
Proof.
  assert (is_Some (url_ParseRooted "/")) by (vm_compute; eauto).
  unfold RelativePath. repeat (case_bool_decide || case_match); eauto.
Qed.

(** The path of a guarded reference. *)
Lemma path_text_rooted v : guarded v → same_origin (path_text v).
Proof.
  intros ((rest & -> & Hne) & _). unfold path_text. rewrite !Cut_cons by done. eexists. split; [reflexivity|].
  destruct (strings_Cut (strings_Cut rest "#").1 "?").1 as [|c t] eqn:E; [done|].
  apply Cut_head in E as [t' E]. apply Cut_head in E as [t'' ->]. done.
Qed.

(** What follows the path does not turn it into another origin. *)
Definition after_path (t : string) : Prop := match t with String c _ => c = "?"%char ∨ c = "#"%char | EmptyString => True end.
Lemma same_origin_app p t : after_path t → same_origin (p +:+ t) ↔ same_origin p ∨ (p = EmptyString ∧ same_origin t).
Proof.
  intros Ht. unfold same_origin. destruct p as [|a p]; simpl; [naive_solver|]. split.
  - intros (r & Hr & Hc). left. exists p. injection Hr as -> <-. split; [done|]. by destruct p.
  - intros [(r & Hr & Hc)|[? _]]; [|done]. injection Hr as -> <-. exists (p +:+ t). split; [done|].
    destruct p as [|c p]; simpl in *; [|done]. destruct t as [|c t]; [done|]. by destruct Ht as [-> | ->].
Qed.

(** Decoding a rooted path and encoding it again. *)
Lemma unescape_rooted p d : same_origin p → url_PathUnescape p = Some d → ∃ d', d = String "/" d'.
Proof.
  intros (r & -> & _). cbn [url_PathUnescape]. rewrite bool_decide_false by done.
  destruct (url_PathUnescape r) as [d'|]; [|done]. intros [= <-]. by exists d'.
Qed.
Lemma escape_origin d' : same_origin (url_escape path_plain (String "/" d')) ↔ ∀ r, d' ≠ String "/" r.
Proof.
  change (url_escape path_plain (String "/" d')) with (String "/" (url_escape path_plain d')). unfold same_origin. split.
  - intros (r & Hr & Hc) r' ->. injection Hr as <-. by destruct Hc.
  - intros Hd. exists (url_escape path_plain d'). split; [done|]. destruct d' as [|c d']; [done|]. cbn [url_escape].
    destruct (path_plain c) eqn:Ec; [|done]. split; [intros ->; by apply (Hd d')|by intros ->].
Qed.

(** *** The redirect *)

Lemma hexEscape_origin s : same_origin (hexEscapeNonASCII s) ↔ same_origin s.
Proof.
  unfold same_origin. destruct s as [|a [|c s]]; [done|..].
  - cbn [hexEscapeNonASCII]. destruct (is_ascii a) eqn:Ea; [done|]. split; [naive_solver|].
    intros (r & [= -> _] & _). done.
  - cbn [hexEscapeNonASCII]. destruct (is_ascii a) eqn:Ea.
    + destruct (is_ascii c) eqn:Ec; [split; intros (r & [= -> <-] & Hr); eauto|].
      split; intros (r & [= -> <-] & Hr); (eexists; split; [done|]); [|done]. split; by intros ->.
    + split; [naive_solver|]. intros (r & [= -> _] & _). done.
Qed.

(** A cleaned path begins with one slash. *)
Lemma Split_elem s c e x : x ∈ strings_Split s c → (lacks e s = true → lacks e x = true) ∧ lacks c x = true.
Proof.
  revert x. induction s as [|a s IH]; intros x; cbn [strings_Split].
  - intros ->%list_elem_of_singleton. done.
  - unfold lacks. cbn [str_forall]. fold (lacks e s). fold (lacks e x). fold (lacks c x). case_bool_decide as Ha.
    + intros [->|Hx]%elem_of_cons; [done|]. destruct (IH x Hx) as [H1 H2]. split; [|done]. by intros [_ ?]%andb_true_iff; apply H1.
    + destruct (strings_Split s c) as [|y l] eqn:E.
      * intros ->%list_elem_of_singleton. unfold lacks. simpl. rewrite (bool_decide_false _ Ha). split; [|done].
        by intros [-> _]%andb_true_iff.
      * intros [->|Hx]%elem_of_cons.
        -- destruct (IH y) as [H1 H2]; [by left|]. unfold lacks in *. cbn [str_forall]. rewrite (bool_decide_false _ Ha), H2.
           split; [|done]. intros [-> ?]%andb_true_iff. by rewrite H1.
        -- destruct (IH x) as [H1 H2]; [by right|]. split; [|done]. by intros [_ ?]%andb_true_iff; apply H1.
Qed.
Lemma clean_elems l acc : (∀ x, x ∈ acc → x ≠ EmptyString) →
  ∀ x, x ∈ foldl clean_elem acc l → x ≠ EmptyString ∧ (x ∈ acc ∨ x ∈ l).
Proof.
  revert acc. induction l as [|e l IH]; intros acc Hacc x; simpl; [naive_solver|]. intros Hx.
  apply IH in Hx as [Hne Hin].
  - split; [done|]. unfold clean_elem in Hin. destruct (_ || _); [set_solver|]. case_bool_decide; [|set_solver].
    destruct Hin as [Hin|Hin]; [|set_solver]. destruct acc; set_solver.
  - intros y Hy. unfold clean_elem in Hy. destruct (bool_decide (e = EmptyString)) eqn:Ee; simpl in Hy; [by apply Hacc|].
    apply bool_decide_eq_false in Ee. case_bool_decide; [by apply Hacc|]. case_bool_decide; [destruct acc; set_solver|set_solver].
Qed.
Lemma clean_origin p : lacks "\" p = true →
  path_CleanRooted p = "/" ∨ ∃ c t, path_CleanRooted p = String "/" (String c t) ∧ c ≠ "/"%char ∧ c ≠ "\"%char.
Proof.
  intros Hb. unfold path_CleanRooted. set (l := reverse _).
  assert (Hl : ∀ x, x ∈ l → x ≠ EmptyString ∧ lacks "/" x = true ∧ lacks "\" x = true).
  { intros x Hx%elem_of_reverse%clean_elems; [|set_solver]. destruct Hx as [Hne [Hin|Hin]]; [set_solver|].
    destruct (Split_elem p "/" "\" x Hin) as [H1 H2]. auto. }
  destruct l as [|x l]; [by left|]. right. destruct (Hl x) as (Hne & H1 & H2); [by left|].
  destruct x as [|c x]; [done|]. unfold lacks in H1, H2. cbn [str_forall] in H1, H2.
  apply andb_true_iff in H1 as [H1%negb_true_iff%bool_decide_eq_false _].
  apply andb_true_iff in H2 as [H2%negb_true_iff%bool_decide_eq_false _].
  destruct l as [|y l]; simpl; eauto.
Qed.
Lemma clean_target_origin url : lacks "\" (strings_Cut url "?").1 = true → same_origin (clean_target url).
Proof.
  intros Hb. unfold clean_target. cbv zeta. set (q := if lacks "?" url then _ else _).
  assert (Hq : after_path q) by (unfold q; destruct (lacks "?" url); simpl; auto).
  destruct (clean_origin _ Hb) as [->|(c & t & -> & Hc)].
  - change (ends_slash "/") with true. rewrite andb_false_r. apply (same_origin_app "/" q Hq). left. by exists EmptyString.
  - eexists. split; [reflexivity|]. done.
Qed.
Lemma Redirect_origin url : lacks "\" (strings_Cut url "?").1 = true →
  same_origin (http_Redirect url) ↔ same_origin url ∨ hostless url = true.
Proof.
  intros Hb. unfold http_Redirect. rewrite hexEscape_origin. pose proof (clean_target_origin url Hb).
  destruct (hostless url); naive_solver.
Qed.

(** *** The text of the target *)

Lemma hex16 (Q : ascii → bool) : forallb (λ n, Q (upper_hex (N.of_nat n))) (seq 0 16) = true →
  ∀ n, (n < 16)%N → Q (upper_hex n) = true.
Proof.
  intros Hall n Hn. assert (Hin : In (N.to_nat n) (seq 0 16)) by (apply in_seq; lia).
  pose proof (proj1 (forallb_forall _ _) Hall _ Hin) as Hf. cbv beta in Hf. by rewrite N2Nat.id in Hf.
Qed.
Lemma code_digits c : (code c / 16 < 16)%N ∧ (code c mod 16 < 16)%N.
Proof. pose proof (code_lt c). split; [apply N.Div0.div_lt_upper_bound; lia|by apply N.mod_lt]. Qed.

(** The characters of an escaped text. *)
Definition escape_chars (Q : ascii → bool) : bool := Q "%"%char && forallb (λ n, Q (upper_hex (N.of_nat n))) (seq 0 16).
Lemma escape_forall Q plain d : escape_chars Q = true → str_forall (λ c, negb (plain c) || Q c) d = true →
  str_forall Q (url_escape plain d) = true.
Proof.
  intros [Hp Hh]%andb_true_iff. induction d as [|c d IH]; [done|]. cbn [str_forall url_escape].
  intros [Hc Hd]%andb_true_iff. destruct (plain c); cbn [str_forall].
  - simpl in Hc. by rewrite Hc, IH.
  - rewrite Hp, !(hex16 _ Hh), IH by (done || apply code_digits). done.
Qed.
Lemma escape_all Q plain d : escape_chars Q = true → (∀ c, plain c = true → Q c = true) → str_forall Q (url_escape plain d) = true.
Proof.
  intros HQ Hp. apply escape_forall; [done|]. induction d as [|c d IH]; [done|]. cbn [str_forall]. rewrite IH, andb_true_r.
  destruct (plain c) eqn:E; [by rewrite Hp|done].
Qed.
Lemma QueryEscape_all Q d : escape_chars Q = true → (∀ c, is_unreserved c = true → Q c = true) → Q "+"%char = true →
  str_forall Q (url_QueryEscape d) = true.
Proof.
  intros [Hp Hh]%andb_true_iff Hu Hplus. induction d as [|c d IH]; [done|]. cbn [url_QueryEscape].
  destruct (is_unreserved c) eqn:E; [|case_bool_decide]; cbn [str_forall].
  - by rewrite Hu, IH.
  - by rewrite Hplus, IH.
  - rewrite Hp, !(hex16 _ Hh), IH by (done || apply code_digits). done.
Qed.
Lemma Join_forall Q l sep : str_forall Q sep = true → (∀ x, x ∈ l → str_forall Q x = true) → str_forall Q (strings_Join l sep) = true.
Proof.
  intros Hs. induction l as [|x [|y l] IH]; intros Hl; [done|apply Hl; by left|].
  cbn [strings_Join]. rewrite !str_forall_app, Hs, Hl by left. apply IH. intros z Hz. apply Hl. by right.
Qed.
Definition query_plain (c : ascii) : bool := is_unreserved c || existsb (λ d, bool_decide (c = d)) ["+"; "%"; "&"; "="]%char.
Lemma Encode_plain m : str_forall query_plain (url_Encode m) = true.
Proof.
  unfold url_Encode. apply Join_forall; [done|]. intros x Hx. apply list_elem_of_join in Hx as (l & Hx & Hl).
  apply list_elem_of_fmap in Hl as ([k vs] & -> & _). apply list_elem_of_fmap in Hx as (y & -> & _).
  assert (Hq : ∀ t, str_forall query_plain (url_QueryEscape t) = true).
  { intros t. apply QueryEscape_all; [done| |done]. intros c Hc. unfold query_plain. by rewrite Hc. }
  by rewrite !str_forall_app, !Hq.
Qed.

(** Decoding what was escaped. *)
Lemma hex_val_upper n : (n < 16)%N → hex_val (upper_hex n) = Some n.
Proof.
  intros Hn. assert (Hb : bool_decide (hex_val (upper_hex n) = Some n) = true); [|by apply bool_decide_eq_true in Hb].
  assert (Hin : In (N.to_nat n) (seq 0 16)) by (apply in_seq; lia).
  assert (Hall : forallb (λ k, bool_decide (hex_val (upper_hex (N.of_nat k)) = Some (N.of_nat k))) (seq 0 16) = true) by (vm_compute; reflexivity).
  pose proof (proj1 (forallb_forall _ _) Hall _ Hin) as Hf. cbv beta in Hf. by rewrite N2Nat.id in Hf.
Qed.
Lemma unescape_escape plain d : plain "%"%char = false → url_PathUnescape (url_escape plain d) = Some d.
Proof.
  intros Hp. induction d as [|c d IH]; [done|]. cbn [url_escape]. destruct (plain c) eqn:E.
  - cbn [url_PathUnescape]. rewrite bool_decide_false by (intros ->; congruence). by rewrite IH.
  - cbn [url_PathUnescape]. rewrite bool_decide_true by done. destruct (code_digits c) as [H1 H2].
    rewrite !hex_val_upper by done. simpl. rewrite IH. simpl. do 2 f_equal. apply chr_eq.
    rewrite N.mul_comm. symmetry. by apply N.div_mod.
Qed.
Lemma escape_decodes plain d : plain "%"%char = false → decodes (url_escape plain d) = true.
Proof. intros Hp. unfold decodes. rewrite unescape_escape by done. by apply bool_decide_eq_true; eauto. Qed.

(** Cutting at a separator that is not escaped. *)
Lemma Cut_app a b c : lacks c a = true → strings_Cut (a +:+ b) c = (a +:+ (strings_Cut b c).1, (strings_Cut b c).2).
Proof.
  unfold lacks. induction a as [|x a IH]; [intros _; change (EmptyString +:+ b) with b; by destruct (strings_Cut b c)|]. simpl.
  intros [Hx%negb_true_iff Ha]%andb_true_iff. rewrite Hx, IH by done. done.
Qed.
Lemma Cut_lacks s c e : (lacks e s = true → lacks e (strings_Cut s c).1 = true) ∧ lacks c (strings_Cut s c).1 = true.
Proof.
  unfold lacks. induction s as [|x s [IH1 IH2]]; [done|]. cbn [strings_Cut]. case_bool_decide as Hx; [done|].
  destruct (strings_Cut s c) as [y z]. simpl in *. rewrite (bool_decide_false _ Hx), IH2. split; [|done].
  intros [-> ?]%andb_true_iff. by rewrite IH1.
Qed.
Definition separates (plain : ascii → bool) (c : ascii) : bool :=
  plain c && escape_chars (λ d, negb (bool_decide (d = c))).
Lemma separates_digits plain c d : separates plain c = true →
  "%"%char ≠ c ∧ upper_hex (code d / 16) ≠ c ∧ upper_hex (code d mod 16) ≠ c.
Proof.
  intros [_ [Hp%negb_true_iff%bool_decide_eq_false Hh]%andb_true_iff]%andb_true_iff. destruct (code_digits d) as [H1 H2].
  pose proof (hex16 (λ x, negb (bool_decide (x = c))) Hh) as Hx.
  pose proof (Hx _ H1) as E1. pose proof (Hx _ H2) as E2. cbv beta in E1, E2.
  apply negb_true_iff, bool_decide_eq_false in E1, E2. done.
Qed.
Lemma escape_Cut plain c d : separates plain c = true →
  strings_Cut (url_escape plain d) c = (url_escape plain (strings_Cut d c).1, url_escape plain (strings_Cut d c).2).
Proof.
  intros Hs. assert (Hc : plain c = true) by (by apply andb_true_iff in Hs as [? _]).
  induction d as [|a d IH]; [done|]. destruct (separates_digits plain c a Hs) as (Hp & H1 & H2).
  cbn [url_escape strings_Cut]. destruct (decide (a = c)) as [->|Ha].
  - rewrite Hc. cbn [strings_Cut]. by rewrite bool_decide_true.
  - destruct (plain a) eqn:Ea; cbn [strings_Cut]; rewrite ?(bool_decide_false (a = c)), ?(bool_decide_false ("%"%char = c)),
      ?(bool_decide_false (upper_hex (code a / 16) = c)), ?(bool_decide_false (upper_hex (code a mod 16) = c)), IH by done;
      destruct (strings_Cut d c); cbn [fst snd url_escape]; by rewrite Ea.
Qed.
Lemma escape_cut_last plain c d : separates plain c = true →
  cut_last (url_escape plain d) c = (λ xy, (url_escape plain xy.1, url_escape plain xy.2)) <$> cut_last d c.
Proof.
  intros Hs. assert (Hc : plain c = true) by (by apply andb_true_iff in Hs as [? _]).
  induction d as [|a d IH]; [done|]. destruct (separates_digits plain c a Hs) as (Hp & H1 & H2).
  cbn [url_escape cut_last]. destruct (plain a) eqn:Ea; cbn [cut_last]; rewrite IH;
    (destruct (cut_last d c) as [[x y]|]; cbn [fmap option_fmap option_map fst snd url_escape]; [by rewrite Ea|]).
  - case_bool_decide; [done|done].
  - rewrite !bool_decide_false; [done|intros ->; congruence|done..].
Qed.

(** The host an authority names, after the user. *)
Definition host_part (rest : string) : string :=
  let authority := (strings_Cut rest "/").1 in
  match cut_last authority "@" with Some (_, host) => host | None => authority end.

Ltac by_char c := destruct c as [[] [] [] [] [] [] [] []]; (reflexivity || discriminate || (intros; exfalso; congruence)).

Lemma escape_nil plain d : bool_decide (url_escape plain d = EmptyString) = bool_decide (d = EmptyString).
Proof. apply bool_decide_ext. destruct d as [|c d]; simpl; [done|]. by destruct (plain c). Qed.
Lemma plain_userinfo c : negb (path_plain c) || (is_unreserved c || existsb (λ d, bool_decide (c = d))
  [":"; "!"; "$"; "&"; "'"; "("; ")"; "*"; "+"; ","; ";"; "="; "%"; "@"]%char) || bool_decide (c = "/"%char) = true.
Proof. by_char c. Qed.
Lemma escape_userinfo d : lacks "/" d = true → validUserinfo (url_escape path_plain d) = true.
Proof.
  intros Hd. apply escape_forall; [reflexivity|]. unfold lacks in Hd. eapply str_forall_impl; [|exact Hd].
  intros c Hc%negb_true_iff. pose proof (plain_userinfo c) as Hp. cbv beta in Hc. by rewrite Hc, orb_false_r in Hp.
Qed.
Lemma cut_last_lacks s c e x y : cut_last s c = Some (x, y) → lacks e s = true → lacks e x = true.
Proof.
  unfold lacks. revert x. induction s as [|a s IH]; intros x; [done|]. cbn [cut_last str_forall].
  intros Hx [Ha Hs]%andb_true_iff. destruct (cut_last s c) as [[x' y']|].
  - injection Hx as <- <-. cbn [str_forall]. by rewrite Ha, (IH x').
  - destruct (bool_decide (a = c)); [by injection Hx as <- <-|done].
Qed.
Lemma escape_hostless r : let a := (strings_Cut r "/").1 in
  hostless_authority (url_escape path_plain a) = bool_decide (host_part r = EmptyString).
Proof.
  cbv zeta. unfold hostless_authority, host_part. rewrite escape_cut_last by reflexivity.
  pose proof (proj2 (Cut_lacks r "/" "/")) as Ha. set (a := (strings_Cut r "/").1) in *.
  destruct (cut_last a "@") as [[x y]|] eqn:E; cbn [fmap option_fmap option_map fst snd]; [|apply escape_nil].
  rewrite escape_Cut, !escape_decodes, escape_nil, !andb_true_r by reflexivity.
  by rewrite (escape_userinfo x (cut_last_lacks _ _ _ _ _ E Ha)), andb_true_r.
Qed.

(** A path with two slashes, escaped, with its query and fragment. *)
Definition query_text (q : string) : Prop := q = EmptyString ∨ ∃ t, q = String "?" t ∧ str_forall query_plain t = true.
Definition fragment_text (f : string) : Prop := f = EmptyString ∨ ∃ t, f = String "#" t ∧ decodes t = true ∧ lacks "\" t = true.

Lemma query_chars (Q : ascii → bool) q : query_text q → Q "?"%char = true → (∀ c, query_plain c = true → Q c = true) → str_forall Q q = true.
Proof. intros [->|(t & -> & Ht)] H1 H2; [done|]. cbn [str_forall]. rewrite H1. by eapply str_forall_impl. Qed.
Lemma target_hostless r q f : query_text q → fragment_text f →
  hostless (url_escape path_plain (String "/" (String "/" r)) +:+ q +:+ f) = bool_decide (host_part r = EmptyString).
Proof.
  intros Hq Hf. set (p := url_escape path_plain (String "/" (String "/" r))). unfold hostless.
  assert (Hpath : ∀ Q, escape_chars Q = true → (∀ c, path_plain c = true → Q c = true) → str_forall Q p = true).
  { intros Q H1 H2. by apply escape_all. }
  assert (Hcut : strings_Cut (p +:+ q +:+ f) "#" = (p +:+ q, (strings_Cut f "#").2) ∧ decodes (strings_Cut f "#").2 = true).
  { rewrite <-str_app_assoc, Cut_app.
    - destruct Hf as [->|(t & -> & Ht & _)]; simpl; by rewrite str_app_nil_r.
    - rewrite lacks_app. apply andb_true_iff. split; [apply Hpath; [reflexivity|intros c; by_char c]|].
      apply query_chars; [done|reflexivity|intros c; by_char c]. }
  destruct Hcut as [-> ->].
  assert (Hrest : (strings_Cut (p +:+ q) "?").1 = p).
  { rewrite Cut_app by (apply Hpath; [reflexivity|intros c; by_char c]).
    destruct Hq as [->|(t & -> & _)]; simpl; by rewrite str_app_nil_r. }
  rewrite Hrest, str_forall_app, Hpath, (query_chars _ q Hq) by (reflexivity || (intros c; by_char c)).
  cbn [andb]. change p with ("//" +:+ url_escape path_plain r). rewrite CutPrefix_app.
  destruct r as [|c r]; [reflexivity|]. destruct (decide (c = "/"%char)) as [->|Hc].
  - change (url_escape path_plain (String "/" r)) with ("/" +:+ url_escape path_plain r).
    rewrite (proj2 (HasPrefix_iff _ "/")) by eauto. exact (escape_decodes path_plain (String "/" (String "/" (String "/" r))) eq_refl).
  - assert (Hno : strings_HasPrefix (url_escape path_plain (String c r)) "/" = false).
    { apply not_true_iff_false. intros [t Ht]%HasPrefix_iff. cbn [url_escape] in Ht. destruct (path_plain c); [|done].
      by injection Ht as -> _. }
    rewrite Hno, escape_Cut, escape_hostless, escape_decodes, andb_true_r by reflexivity. done.
Qed.

(** No backslash is left, and what follows the path does not belong to it. *)
Lemma target_lacks p d q f : lacks "\" p = true → query_text q → fragment_text f →
  lacks "\" ((if validEncoded path_plain p then p else url_escape path_plain d) +:+ q +:+ f) = true.
Proof.
  intros Hp Hq Hf. rewrite !lacks_app. apply andb_true_iff. split; [|apply andb_true_iff; split].
  - destruct (validEncoded path_plain p); [done|]. apply escape_all; [reflexivity|intros c; by_char c].
  - apply query_chars; [done|reflexivity|intros c; by_char c].
  - destruct Hf as [->|(t & -> & _ & Ht)]; [done|]. exact Ht.
Qed.
Lemma tail_after q f : query_text q → fragment_text f → after_path (q +:+ f).
Proof. intros [->|(t & -> & _)]; [|by left]. intros [->|(t & -> & _)]; [done|by right]. Qed.

Lemma fragment_decodes d raw :
  let t := escaped_text fragment_plain d raw in decodes t = true ∧ lacks "\" t = true.
Proof.
  cbv zeta. unfold escaped_text. destruct (_ && _) eqn:E; [|split; [by apply escape_decodes|apply escape_all; [reflexivity|intros c; by_char c]]].
  apply andb_true_iff in E as [[_ Hval]%andb_true_iff Hun%bool_decide_eq_true]. split.
  - unfold decodes. rewrite Hun. apply bool_decide_eq_true. eauto.
  - eapply str_forall_impl; [|exact Hval]. intros c; by_char c.
Qed.

(** The target of the error redirect: the path as it was written, or decoded and
    escaped again. *)
Lemma target_text v code u : guarded v → url_ParseRooted v = Some u → ∃ d q f,
  url_PathUnescape (path_text v) = Some (String "/" d) ∧ query_text q ∧ fragment_text f ∧
  redirectError_target v code = Some
    ((if validEncoded path_plain (path_text v) then path_text v else url_escape path_plain (String "/" d)) +:+ q +:+ f).
Proof.
  intros Hg Hu. unfold redirectError_target. rewrite Hu. cbn [mbind option_bind].
  pose proof (path_text_rooted v Hg) as Hp. unfold url_ParseRooted, cut_query, path_text in *.
  destruct (strings_Cut v "#") as [x frag]. cbn [fst] in *. destruct (negb _); [done|].
  destruct (strings_Cut x "?") as [p q]. cbn [fst] in *. destruct (set_text path_plain p) as [[d raw]|] eqn:Es; [|done].
  assert (Hpne : p ≠ EmptyString) by (by destruct Hp as (r & -> & _)).
  destruct (escaped_text_eq p d raw Es Hpne) as [Hd He].
  assert (ru_Path u = d ∧ ru_RawPath u = raw) as [-> ->].
  { simpl in Hu. case_bool_decide; [by injection Hu as <-|]. destruct (set_text fragment_plain frag) as [[? ?]|]; by simplify_eq/=. }
  unfold url_String. cbn [ru_Path ru_RawPath ru_ForceQuery ru_RawQuery ru_Fragment ru_RawFragment]. rewrite He.
  destruct (unescape_rooted p d Hp Hd) as [d' ->]. eexists d', _, _. split; [done|]. split; [|split; [|reflexivity]].
  - destruct (ru_ForceQuery u || _); [right|by left]. eexists. split; [done|]. apply Encode_plain.
  - destruct (bool_decide (ru_Fragment u = EmptyString)); [by left|right]. eexists. split; [done|]. apply fragment_decodes.
Qed.


(** What the guard lets through can leave the origin: a first segment that begins
    with an encoded slash, and a space further on. *)
Example leaves_origin :
  RelativePath "/%2Fevil.example/a b" = "/%2Fevil.example/a b" ∧
  redirectError_target "/%2Fevil.example/a b" "access_denied" = Some "//evil.example/a%20b?error=access_denied".
Proof. split; vm_compute; reflexivity. Qed.

