(* ===== verification/Session.v ===== *)
(** * Browser sessions ([internal/auth/auth.go])

    The session manager over the third-party library it drives
    ([github.com/alexedwards/scs/v2]), which is an interface here: the data of
    the current request's session and the store behind it are one value. What a
    request does with its session is a function on that value. *)

From S2P Require Import Prelude GoStd Proc AuditLog.

(** ** The library *)

Class Scs (S : Type) := {
  scs_GetString : string → S → string;
  scs_Put : string → string → S → S;
  scs_Remove : string → S → S;
  scs_Token : S → string;
  scs_RenewToken : S → S * option error;
  scs_Destroy : S → S * option error;
  scs_Clear : S → S * option error;
}.

(** What its documentation says. A key that is not there reads as the empty
    string. [RenewToken] keeps the values under a new token and deletes the old
    one from the store; [Destroy] deletes the token and the values; [Clear]
    deletes the values. *)
Class ScsOk (S : Type) `{Scs S} := {
  scs_stored : string → S → bool;
  scs_put_eq k v s : scs_GetString k (scs_Put k v s) = v;
  scs_put_ne k k' v s : k' ≠ k → scs_GetString k' (scs_Put k v s) = scs_GetString k' s;
  scs_remove_eq k s : scs_GetString k (scs_Remove k s) = EmptyString;
  scs_remove_ne k k' s : k' ≠ k → scs_GetString k' (scs_Remove k s) = scs_GetString k' s;
  scs_put_token k v s : scs_Token (scs_Put k v s) = scs_Token s;
  scs_remove_token k s : scs_Token (scs_Remove k s) = scs_Token s;
  scs_renewed s s' : scs_RenewToken s = (s', None) →
    (∀ k, scs_GetString k s' = scs_GetString k s) ∧ scs_Token s' ≠ EmptyString ∧ scs_Token s' ≠ scs_Token s ∧
    (scs_Token s ≠ EmptyString → scs_stored (scs_Token s) s' = false);
  scs_destroyed s s' : scs_Destroy s = (s', None) →
    (∀ k, scs_GetString k s' = EmptyString) ∧ scs_Token s' = EmptyString ∧
    (scs_Token s ≠ EmptyString → scs_stored (scs_Token s) s' = false);
  scs_cleared s k : scs_GetString k (scs_Clear s).1 = EmptyString;
}.

(** [SessionIndex]. *)
Class SessionIndex (I : Type) := {
  ix_Remember : string → string → I → I * option error;
  ix_Forget : string → I → I * option error;
}.
Class SessionIndexOk (I : Type) `{SessionIndex I} := {
  ix_subject : I → string → option string;
  ix_remembered t u x x' : ix_Remember t u x = (x', None) →
    ix_subject x' t = Some u ∧ ∀ t', t' ≠ t → ix_subject x' t' = ix_subject x t';
  ix_forgot t x x' : ix_Forget t x = (x', None) →
    ix_subject x' t = None ∧ ∀ t', t' ≠ t → ix_subject x' t' = ix_subject x t';
}.

(** [time.Format] and [time.Parse] with [time.RFC3339Nano]. *)
Class TimeText := {
  time_Format : Z → string;
  time_Parse : string → option Z;
}.
Class TimeTextOk `{TimeText} : Prop := {
  time_roundtrip t : time_Parse (time_Format t) = Some t;
  time_text t : time_Format t ≠ EmptyString;
}.

(** ** The manager *)

Definition keyUser : string := "usr".
Definition keyCSRF : string := "csrf".
Definition keyAuthTime : string := "auth_time".
Definition keyFlowState : string := "flow_state".
Definition keyFlowProvider : string := "flow_provider".
Definition keyFlowMode : string := "flow_mode".
Definition keyFlowReturnTo : string := "flow_return_to".
Definition keyFlowVerifier : string := "flow_verifier".
Definition keyFlowNonce : string := "flow_nonce".
Definition flowKeys : list string :=
  [keyFlowState; keyFlowProvider; keyFlowMode; keyFlowReturnTo; keyFlowVerifier; keyFlowNonce].

Section manager.
Context `{Platform} `{Entropy} `{TimeText} {S I : Type} `{Scs S} `{SessionIndex I}.

(** [User], [AuthenticatedAt]. *)
Definition Session_User (s : S) : option string :=
  let v := scs_GetString keyUser s in if bool_decide (v = EmptyString) then None else Some v.
Definition AuthenticatedAt (s : S) : option Z :=
  let v := scs_GetString keyAuthTime s in if bool_decide (v = EmptyString) then None else time_Parse v.

(** [SignIn] at time [now]; the index is [None] when none is configured. Its
    three calls of shared state: the old token leaves the index, the token is
    renewed, the new one enters the index. *)
Definition forget_old (s : S) (ix : option I) : option I :=
  match ix with
  | Some x => if bool_decide (scs_Token s = EmptyString) then Some x else Some (ix_Forget (scs_Token s) x).1
  | None => None
  end.
Definition renew (now : Z) (user : string) (s : S) : S * option error :=
  let s := scs_Put keyUser user s in
  let s := scs_Put keyAuthTime (time_Format now) s in
  match scs_RenewToken s with
  | (s, Some err) => ((scs_Clear (scs_Destroy s).1).1, Some err)
  | (s, None) => (s, None)
  end.
Definition remember (user : string) (s : S) (ix : option I) : S * option I * option error :=
  match ix with
  | None => (s, None, None)
  | Some x =>
      let token := scs_Token s in
      if bool_decide (token = EmptyString)
      then ((scs_Destroy s).1, Some x, Some (New "auth: no session token after renewal"))
      else match ix_Remember token user x with
           | (x, Some err) => ((scs_Destroy s).1, Some x, Some err)
           | (x, None) => (s, Some x, None)
           end
  end.
Definition SignIn (now : Z) (user : string) (s : S) (ix : option I) : S * option I * option error :=
  let ix := forget_old s ix in
  match renew now user s with
  | (s, Some err) => (s, ix, Some err)
  | (s, None) => remember user s ix
  end.

(** [EndSession]. *)
Definition EndSession (s : S) (ix : option I) : S * option I * option error :=
  let token := match ix with Some _ => scs_Token s | None => EmptyString end in
  match scs_Destroy s with
  | (s, Some err) => (s, ix, Some err)
  | (s, None) =>
      (s, match ix with
          | Some x => if bool_decide (token = EmptyString) then Some x else Some (ix_Forget token x).1
          | None => None
          end, None)
  end.

(** [recordAudit]; a failure to record is logged, not returned, and a nil logger
    is [None]. *)
Definition recordAudit {Lg} `{Logger Lg} (now : Z) (e : Event) (l : option Lg) : option Lg :=
  match l with
  | None => None
  | Some l => Some (log_Record now (if time_IsZero (ev_Time e) then set_time now e else e) l).1
  end.

(** [SignOut]. *)
Definition SignOut {Lg} `{Logger Lg} (now : Z) (s : S) (ix : option I) (l : option Lg) : S * option I * option Lg * option error :=
  let subject := default EmptyString (Session_User s) in
  let '(s, ix, err) := EndSession s ix in
  let outcome := match err with Some _ => OutcomeError | None => OutcomeOK end in
  (s, ix, recordAudit now (mkEvent 0 "auth.logout" subject EmptyString outcome ∅) l, err).

(** [randomToken]; [None] is its panic. *)
Definition randomToken (n k : nat) : option string := hex_EncodeToString <$> rand_read n k.

(** [newCSRFToken] and [CSRFToken]; [n] is the position of the generator. *)
Definition csrfDerivationLabel : string := "r0semi/csrf/1".
Definition newCSRFToken (n : nat) (s : S) : option string :=
  let token := scs_Token s in
  if bool_decide (token = EmptyString) then randomToken n 32
  else Some (hex_EncodeToString (sha256 (csrfDerivationLabel +:+ String (chr 0) token))).
Definition CSRFToken (n : nat) (s : S) : option (S * string) :=
  let tok := scs_GetString keyCSRF s in
  if bool_decide (tok = EmptyString)
  then tok ← newCSRFToken n s; Some (scs_Put keyCSRF tok s, tok)
  else Some (s, tok).

(** [ValidCSRF], of the request's [X-CSRF-Token]. *)
Definition ValidCSRF (got : string) (s : S) : bool :=
  let want := scs_GetString keyCSRF s in
  if bool_decide (want = EmptyString) || bool_decide (got = EmptyString) then false else bool_decide (want = got).

(** ** Handles of the browser *)

Definition handleKey (kind id : string) : string := "handle_" +:+ kind +:+ "_" +:+ id.
Definition ownerKey (kind id : string) : string := "owner_" +:+ kind +:+ "_" +:+ id.
Definition queueKey (kind : string) : string := "boundq_" +:+ kind.
Definition maxBoundHandlesPerKind : nat := 32.
Definition maxBoundHandleBytes : nat := 128.
Definition handleSep : ascii := chr 31.

Definition boundQueue (kind : string) (s : S) : list string :=
  let raw := scs_GetString (queueKey kind) s in
  if bool_decide (raw = EmptyString) then [] else strings_Split raw handleSep.

Definition release (kind id : string) (s : S) : S :=
  scs_Remove (ownerKey kind id) (scs_Remove (handleKey kind id) s).

(** The loop of [enqueue]: what is evicted, oldest first. *)
Fixpoint evict (fuel : nat) (kind : string) (ids : list string) (s : S) : list string * S :=
  match fuel with
  | 0 => (ids, s)
  | Datatypes.S fuel =>
      match ids with
      | id :: ids' => if maxBoundHandlesPerKind <? length ids then evict fuel kind ids' (release kind id s) else (ids, s)
      | [] => (ids, s)
      end
  end.
Definition enqueue (kind id : string) (s : S) : S :=
  let ids := boundQueue kind s ++ [id] in
  let '(ids, s) := evict (length ids) kind ids s in
  scs_Put (queueKey kind) (strings_Join ids (String handleSep EmptyString)) s.

Definition Bound (kind id : string) (s : S) : bool := bool_decide (scs_GetString (handleKey kind id) s = "1").
Definition trackable (id : string) : bool :=
  negb (bool_decide (id = EmptyString) || (maxBoundHandleBytes <? len id) || negb (lacks handleSep id)).

Definition Session_Bind (kind id : string) (s : S) : S :=
  if negb (trackable id) then s else
  if Bound kind id s then s
  else
    let s := enqueue kind id s in
    let s := scs_Put (handleKey kind id) "1" s in
    match Session_User s with
    | Some user => scs_Put (ownerKey kind id) user s
    | None => s
    end.

Definition OwnerMatches (kind id user : string) (s : S) : bool :=
  let owner := scs_GetString (ownerKey kind id) s in
  bool_decide (owner = EmptyString) || bool_decide (owner = user).

Definition Session_Unbind (kind id : string) (s : S) : S :=
  let s := release kind id s in
  let kept := filter (λ v, v ≠ id) (boundQueue kind s) in
  match kept with
  | [] => scs_Remove (queueKey kind) s
  | _ => scs_Put (queueKey kind) (strings_Join kept (String handleSep EmptyString)) s
  end.
End manager.
