(* ===== verification/SessionProps.v ===== *)
(** * What the session manager promises

    Signing in and out, the CSRF token, and the handles a browser may hold, which
    refine a bounded queue. *)

From S2P Require Import Prelude GoStd Proc AuditLog Scope Client Session.

Section manager.
Context `{Platform} `{Entropy} `{TimeTextOk} {S I : Type} `{ScsOk S} `{SessionIndexOk I}.
Implicit Types (s : S) (ix : option I).

(** What the index knows of a token. *)
Definition indexed ix (t : string) : option string := ix ≫= λ x, ix_subject x t.

Lemma renew_values now user s s' :
  renew now user s = (s', None) →
  scs_GetString keyUser s' = user ∧ scs_GetString keyAuthTime s' = time_Format now ∧
  (∀ k, k ≠ keyUser → k ≠ keyAuthTime → scs_GetString k s' = scs_GetString k s) ∧
  scs_Token s' ≠ EmptyString ∧ scs_Token s' ≠ scs_Token s ∧
  (scs_Token s ≠ EmptyString → scs_stored (scs_Token s) s' = false).
Proof.
  unfold renew. set (s1 := scs_Put keyAuthTime _ _). cbv zeta.
  destruct (scs_RenewToken s1) as [s2 [e|]] eqn:Hr; [done|]. intros [= ->]. destruct (scs_renewed _ _ Hr) as (Hv & Ht & Hne & Hst).
  assert (Htok : scs_Token s1 = scs_Token s) by (unfold s1; by rewrite !scs_put_token). rewrite Htok in *.
  split_and!; [| |intros k Hk Hk'|done..]; rewrite Hv; unfold s1.
  - rewrite scs_put_ne by done. apply scs_put_eq.
  - apply scs_put_eq.
  - by rewrite !scs_put_ne.
Qed.
Lemma renew_failed now user s s' e : renew now user s = (s', Some e) → Session_User s' = None ∧ ∀ k, scs_GetString k s' = EmptyString.
Proof.
  unfold renew. cbv zeta. destruct (scs_RenewToken _) as [s2 [e2|]]; [|done]. intros [= <- <-].
  split; [unfold Session_User|intros k]; by rewrite scs_cleared.
Qed.
Lemma remember_kept user s ix s' ix' : remember user s ix = (s', ix', None) →
  s' = s ∧ match ix with Some _ => indexed ix' (scs_Token s) = Some user | None => ix' = None end.
Proof.
  unfold remember. destruct ix as [x|]; [|by intros [= <- <-]]. case_bool_decide; [done|].
  destruct (ix_Remember _ _ _) as [z [e|]] eqn:Hm; [done|]. intros [= <- <-]. split; [done|]. by apply (ix_remembered _ _ _ _ Hm).
Qed.

(** A session that was signed in and is taken back: either nothing is left in it, or
    the library could not destroy it. *)
Definition taken_back s s' : Prop := (∀ k, scs_GetString k s' = EmptyString) ∨ ∃ e, scs_Destroy s = (s', Some e).
Lemma destroy_takes_back s : taken_back s (scs_Destroy s).1.
Proof.
  unfold taken_back. destruct (scs_Destroy s) as [s' [e|]] eqn:Hd; [right; by exists e|left].
  by destruct (scs_destroyed _ _ Hd).
Qed.
Lemma remember_failed user s ix s' ix' e : remember user s ix = (s', ix', Some e) → taken_back s s'.
Proof.
  unfold remember. destruct ix as [x|]; [|done]. case_bool_decide; [intros [= <- _ _]; apply destroy_takes_back|].
  destruct (ix_Remember _ _ _) as [z [e'|]]; [|done]. intros [= <- _ _]. apply destroy_takes_back.
Qed.

Lemma SignIn_values now user s ix s' ix' :
  SignIn now user s ix = (s', ix', None) →
  scs_GetString keyUser s' = user ∧ scs_GetString keyAuthTime s' = time_Format now ∧
  ∀ k, k ≠ keyUser → k ≠ keyAuthTime → scs_GetString k s' = scs_GetString k s.
Proof.
  unfold SignIn. cbv zeta. destruct (renew now user s) as [s1 [e|]] eqn:Hr; [done|].
  intros Hs. destruct (remember_kept _ _ _ _ _ Hs) as [-> _]. by destruct (renew_values _ _ _ _ Hr) as (? & ? & ? & _).
Qed.

(** C28. [SignIn] of an account. Without an error the session is the account's from
    now on, under a new token the index (if there is one) records for the
    account, its other values are kept, and the old token is no longer in the
    store. With an error of the renewal the session belongs to nobody. *)
Theorem SignIn_exact now user s ix s' ix' err :
  user ≠ EmptyString → SignIn now user s ix = (s', ix', err) →
  match err with
  | None =>
      Session_User s' = Some user ∧ AuthenticatedAt s' = Some now ∧
      scs_Token s' ≠ EmptyString ∧ scs_Token s' ≠ scs_Token s ∧
      (scs_Token s ≠ EmptyString → scs_stored (scs_Token s) s' = false) ∧
      (∀ k, k ≠ keyUser → k ≠ keyAuthTime → scs_GetString k s' = scs_GetString k s) ∧
      match ix with Some _ => indexed ix' (scs_Token s') = Some user | None => ix' = None end
  | Some _ => (renew now user s).2 ≠ None → Session_User s' = None
  end.
Proof.
  intros Hu Hs. unfold SignIn in Hs. cbv zeta in Hs. destruct (renew now user s) as [s1 [e|]] eqn:Hr.
  { injection Hs as <- <- <-. intros _. by eapply renew_failed. }
  destruct err as [e|]; [done|]. destruct (remember_kept _ _ _ _ _ Hs) as [-> Hix].
  destruct (renew_values _ _ _ _ Hr) as (Hv1 & Hv2 & Hv3 & Ht & Hne & Hst). split_and!; try done.
  - unfold Session_User. by rewrite Hv1, bool_decide_false.
  - unfold AuthenticatedAt. rewrite Hv2, bool_decide_false by apply time_text. apply time_roundtrip.
  - unfold forget_old in Hix. destruct ix as [x|]; [|done]. by case_bool_decide.
Qed.

(** [EndSession]: without an error the session is nobody's, its token is no
    longer in the store; with one, the index entry that keeps it reachable
    stays. *)
Theorem EndSession_exact s ix s' ix' err :
  EndSession s ix = (s', ix', err) →
  match err with
  | None => Session_User s' = None ∧ (∀ k, scs_GetString k s' = EmptyString) ∧
            (scs_Token s ≠ EmptyString → scs_stored (scs_Token s) s' = false)
  | Some _ => ix' = ix
  end.
Proof.
  unfold EndSession. destruct (scs_Destroy s) as [s1 [e|]] eqn:Hd; intros [= <- <- <-]; [done|].
  destruct (scs_destroyed _ _ Hd) as (Hv & _ & Hst). split_and!; try done. unfold Session_User. by rewrite Hv.
Qed.

(** The CSRF token. Two requests of one session that both find none agree on the
    token they hand out, and each then accepts it and nothing else. *)
Theorem CSRFToken_agree n1 n2 s1 s2 :
  scs_Token s1 = scs_Token s2 → scs_Token s1 ≠ EmptyString →
  scs_GetString keyCSRF s1 = scs_GetString keyCSRF s2 → (∀ x, sha256 x ≠ EmptyString) →
  ∃ s1' s2' tok, CSRFToken n1 s1 = Some (s1', tok) ∧ CSRFToken n2 s2 = Some (s2', tok) ∧
    ∀ got, ValidCSRF got s1' = bool_decide (got = tok) ∧ ValidCSRF got s2' = bool_decide (got = tok).
Proof.
  intros Ht Hne Hc Hsha. unfold CSRFToken, newCSRFToken. rewrite <-Ht, <-Hc. rewrite (bool_decide_false _ Hne).
  assert (Hvalid : ∀ s tok got, tok ≠ EmptyString → scs_GetString keyCSRF s = tok → ValidCSRF got s = bool_decide (got = tok)).
  { intros s tok got Htok Hg. unfold ValidCSRF. rewrite Hg, (bool_decide_false _ Htok). simpl.
    case_bool_decide as E; [subst got; by rewrite bool_decide_false by congruence|]. apply bool_decide_ext. naive_solver. }
  case_bool_decide as E; simpl.
  - set (tok := hex_EncodeToString _). assert (Htok : tok ≠ EmptyString).
    { unfold tok. pose proof (Hsha (csrfDerivationLabel +:+ String (chr 0) (scs_Token s1))) as Hs. by destruct (sha256 _). }
    eexists _, _, tok. split_and!; [done|done|]. intros got. split; apply Hvalid; (done || apply scs_put_eq).
  - eexists _, _, _. split_and!; [done|done|]. intros got. split; apply Hvalid; done.
Qed.
End manager.

(** ** Handles *)

(** The abstract session, for one kind of handle: who is signed in, and the
    handles held, oldest first, each with the account it was created for (empty
    when nobody was signed in). *)
Abbreviation held := (list (string * string)).
Definition holds (l : held) (id : string) : bool := bool_decide (id ∈ l.*1).
Definition owner_of (l : held) (id : string) : string :=
  default EmptyString (snd <$> head (filter (λ p, p.1 = id) l)).

Inductive handle_op :=
| HBind (kind id : string)
| HUnbind (kind id : string)
| HUser (user : string).

Definition op_kind (op : handle_op) : option string :=
  match op with HBind k _ | HUnbind k _ => Some k | HUser _ => None end.

(** The reference: a queue of at most [maxBoundHandlesPerKind] handles. *)
Definition ref_step (kind : string) (st : string * held) (op : handle_op) : string * held :=
  let '(u, l) := st in
  match op with
  | HBind k id =>
      if bool_decide (k = kind) && trackable id && negb (holds l id)
      then (u, drop (length l + 1 - maxBoundHandlesPerKind) (l ++ [(id, u)])) else (u, l)
  | HUnbind k id => if bool_decide (k = kind) then (u, filter (λ p, p.1 ≠ id) l) else (u, l)
  | HUser v => (v, l)
  end.

(** Kinds are the constants of the callers, none of which has an underscore. *)
Definition kind_ok (kind : string) : Prop := lacks "_" kind = true.

Lemma handleKey_inj k k' i i' : kind_ok k → kind_ok k' → handleKey k i = handleKey k' i' → k = k' ∧ i = i'.
Proof. unfold handleKey. intros Hk Hk' E. simplify_eq/=. by apply (str_sep_inj_l "_") in E. Qed.
Lemma ownerKey_inj k k' i i' : kind_ok k → kind_ok k' → ownerKey k i = ownerKey k' i' → k = k' ∧ i = i'.
Proof. unfold ownerKey. intros Hk Hk' E. simplify_eq/=. by apply (str_sep_inj_l "_") in E. Qed.
Lemma queueKey_inj k k' : queueKey k = queueKey k' → k = k'.
Proof. unfold queueKey. intros E. by simplify_eq/=. Qed.

(** The joined queue is read back. *)
Lemma lacks_before c x : lacks c x = true → str_before c x = None.
Proof. intros Hx. apply (str_before_none _ _ _ Hx). by rewrite bool_decide_true. Qed.
Lemma Split_queue l : l ≠ [] → Forall (λ x, lacks handleSep x = true) l →
  strings_Split (strings_Join l (String handleSep EmptyString)) handleSep = l.
Proof.
  intros Hl HF. induction HF as [|x l Hx HF IH]; [done|]. destruct l as [|y l]; [by apply Split_single, lacks_before|].
  change (strings_Join (x :: y :: l) (String handleSep EmptyString))
    with (x +:+ String handleSep (strings_Join (y :: l) (String handleSep EmptyString))).
  rewrite Split_part by by apply lacks_before. by rewrite IH.
Qed.

Lemma trackable_spec id : trackable id = true ↔ id ≠ EmptyString ∧ len id ≤ maxBoundHandleBytes ∧ lacks handleSep id = true.
Proof.
  unfold trackable. rewrite negb_true_iff, !orb_false_iff, negb_false_iff, bool_decide_eq_false, Nat.ltb_ge. tauto.
Qed.

(** Owners in a queue. *)
Lemma owner_snoc l id u i : id ∉ l.*1 → owner_of (l ++ [(id, u)]) i = if bool_decide (i = id) then u else owner_of l i.
Proof.
  intros Hn. unfold owner_of. rewrite filter_app, filter_cons, filter_nil. simpl. case_bool_decide as E.
  - subst i. rewrite decide_True by done. destruct (filter _ l) as [|p q] eqn:Ef; [done|]. exfalso. apply Hn.
    assert (Hp : p ∈ filter (λ p, p.1 = id) l) by (rewrite Ef; left). apply list_elem_of_filter in Hp as [<- Hp].
    by apply list_elem_of_fmap_2.
  - rewrite decide_False by done. by rewrite app_nil_r.
Qed.
Lemma owner_filter l id i : owner_of (filter (λ p, p.1 ≠ id) l) i = if bool_decide (i = id) then EmptyString else owner_of l i.
Proof.
  unfold owner_of. rewrite list_filter_filter. case_bool_decide as E.
  - subst i. rewrite filter_none; [done|]. apply Forall_forall. intros p _ [? Hne]. by apply Hne.
  - do 3 f_equal. apply list_filter_iff. intros p. split; [by intros []|]. intros <-. done.
Qed.
Lemma owner_absent l id : id ∉ l.*1 → owner_of l id = EmptyString.
Proof.
  intros Hn. unfold owner_of. rewrite filter_none; [done|]. apply Forall_forall. intros p Hp <-. by apply Hn, list_elem_of_fmap_2.
Qed.
Lemma holds_filter l id i : holds (filter (λ p, p.1 ≠ id) l) i = negb (bool_decide (i = id)) && holds l i.
Proof.
  unfold holds. apply eq_bool_prop_intro. rewrite andb_True, negb_True, !bool_decide_spec, !list_elem_of_fmap.
  setoid_rewrite list_elem_of_filter. naive_solver.
Qed.
Lemma holds_snoc l id u i : holds (l ++ [(id, u)]) i = bool_decide (i = id) || holds l i.
Proof.
  unfold holds. rewrite fmap_app. apply eq_bool_prop_intro. rewrite orb_True, !bool_decide_spec, elem_of_app. simpl.
  rewrite list_elem_of_singleton. tauto.
Qed.
Lemma tail_filter x o (l : held) : x ∉ l.*1 → filter (λ q, q.1 ≠ x) ((x, o) :: l) = l.
Proof.
  intros Hx. rewrite filter_cons_False by (intros Hne; by apply Hne).
  apply filter_all, Forall_forall. intros q Hq E. apply Hx. rewrite <-E. by apply list_elem_of_fmap_2.
Qed.

Section handles.
Context `{Platform} `{Entropy} `{TimeTextOk} {S I : Type} `{ScsOk S} `{SessionIndexOk I}.
Implicit Types (s : S) (ix : option I).

(** What a request does with the handles of its session, and the sign-ins and
    sign-outs between. *)
Inductive handle_step : S → handle_op → S → Prop :=
| do_bind s kind id : handle_step s (HBind kind id) (Session_Bind kind id s)
| do_unbind s kind id : handle_step s (HUnbind kind id) (Session_Unbind kind id s)
| do_sign_in now user s ix s' ix' : SignIn now user s ix = (s', ix', None) → handle_step s (HUser user) s'.

Inductive handle_steps : S → list handle_op → S → Prop :=
| handle_refl s : handle_steps s [] s
| handle_more s op s' ops s'' : handle_steps s ops s' → handle_step s' op s'' → handle_steps s (ops ++ [op]) s''.

(** The session implements the queue. *)
Record represents (kind : string) (st : string * held) (s : S) : Prop := {
  rp_user : scs_GetString keyUser s = st.1;
  rp_queue : scs_GetString (queueKey kind) s = strings_Join st.2.*1 (String handleSep EmptyString);
  rp_nodup : NoDup st.2.*1;
  rp_len : length st.2 ≤ maxBoundHandlesPerKind;
  rp_track : Forall (λ i, trackable i = true) st.2.*1;
  rp_handle id : scs_GetString (handleKey kind id) s = if holds st.2 id then "1" else EmptyString;
  rp_owner id : scs_GetString (ownerKey kind id) s = owner_of st.2 id;
}.

(** A key that an operation on the handles of [kind] does not touch. *)
Definition foreign (kind k : string) : Prop :=
  k ≠ queueKey kind ∧ (∀ i, k ≠ handleKey kind i) ∧ (∀ i, k ≠ ownerKey kind i).

Lemma release_foreign kind id s k : foreign kind k → scs_GetString k (release kind id s) = scs_GetString k s.
Proof. intros (_ & Hh & Ho). unfold release. by rewrite !scs_remove_ne. Qed.
Lemma evict_foreign kind fuel ids s k : foreign kind k → scs_GetString k (evict fuel kind ids s).2 = scs_GetString k s.
Proof.
  intros Hf. revert ids s. induction fuel as [|fuel IH]; intros [|id ids] s; try done. cbn [evict].
  destruct (_ <? _); [|done]. by rewrite IH, release_foreign.
Qed.
Lemma Bind_foreign kind id s k : foreign kind k → scs_GetString k (Session_Bind kind id s) = scs_GetString k s.
Proof.
  intros Hf. pose proof Hf as (Hq & Hh & Ho). unfold Session_Bind, enqueue. destruct (negb _); [done|]. destruct (Bound kind id s); [done|].
  pose proof (evict_foreign kind (length (boundQueue kind s ++ [id])) (boundQueue kind s ++ [id]) s k Hf) as He.
  destruct (evict _ _ _ _) as [ids s1]. cbv zeta. destruct (Session_User _); by rewrite !scs_put_ne.
Qed.
Lemma Unbind_foreign kind id s k : foreign kind k → scs_GetString k (Session_Unbind kind id s) = scs_GetString k s.
Proof.
  intros Hf. pose proof Hf as (Hq & _). unfold Session_Unbind. cbv zeta.
  destruct (filter _ _); rewrite ?scs_remove_ne, ?scs_put_ne by done; by apply release_foreign.
Qed.
Lemma foreign_user kind : foreign kind keyUser.
Proof. by split_and!. Qed.
Lemma foreign_kinds kind kind' : kind_ok kind → kind_ok kind' → kind' ≠ kind →
  foreign kind' (queueKey kind) ∧ (∀ i, foreign kind' (handleKey kind i)) ∧ (∀ i, foreign kind' (ownerKey kind i)).
Proof.
  intros Hk Hk' Hne. split_and!; [split_and!|intros i; split_and!|intros i; split_and!]; try done; intros.
  - by intros ?%queueKey_inj.
  - intros E%handleKey_inj; naive_solver.
  - intros E%ownerKey_inj; naive_solver.
Qed.

(** The keys of the handles of one kind. *)
Definition marks (kind : string) (l : held) s : Prop :=
  ∀ id, scs_GetString (handleKey kind id) s = (if holds l id then "1" else EmptyString) ∧
        scs_GetString (ownerKey kind id) s = owner_of l id.

Lemma marks_queue kind l s s' :
  marks kind l s → (∀ k, k ≠ queueKey kind → scs_GetString k s' = scs_GetString k s) → marks kind l s'.
Proof. intros Hm Hs id. by rewrite !Hs. Qed.
Lemma marks_release kind id l s : kind_ok kind → marks kind l s → marks kind (filter (λ p, p.1 ≠ id) l) (release kind id s).
Proof.
  intros Hk Hm i. unfold release. rewrite holds_filter, owner_filter. destruct (Hm i) as [Hh Ho]. split.
  - rewrite scs_remove_ne by done. case_bool_decide as E; simpl; [subst i; apply scs_remove_eq|].
    rewrite scs_remove_ne; [done|]. intros ?%handleKey_inj; naive_solver.
  - case_bool_decide as E; simpl; [subst i; apply scs_remove_eq|].
    rewrite !scs_remove_ne; [done|done|]. intros ?%ownerKey_inj; naive_solver.
Qed.
Lemma marks_bind kind id l s :
  kind_ok kind → marks kind l s → id ∉ l.*1 →
  let s1 := scs_Put (handleKey kind id) "1" s in
  marks kind (l ++ [(id, scs_GetString keyUser s)])
    match Session_User s1 with Some user => scs_Put (ownerKey kind id) user s1 | None => s1 end.
Proof.
  intros Hk Hm Hn s1 i. rewrite holds_snoc, owner_snoc by done. destruct (Hm i) as [Hh Ho].
  assert (Hh1 : scs_GetString (handleKey kind i) s1 = if bool_decide (i = id) || holds l i then "1" else EmptyString).
  { unfold s1. case_bool_decide as E; [subst i; apply scs_put_eq|]. rewrite scs_put_ne; [done|]. intros ?%handleKey_inj; naive_solver. }
  assert (Ho1 : scs_GetString (ownerKey kind i) s1 = owner_of l i) by (unfold s1; by rewrite scs_put_ne).
  assert (Hu1 : scs_GetString keyUser s1 = scs_GetString keyUser s) by (unfold s1; by rewrite scs_put_ne).
  unfold Session_User. rewrite Hu1.
  destruct (decide (scs_GetString keyUser s = EmptyString)) as [Eu|Eu]; [rewrite (bool_decide_true _ Eu)|rewrite (bool_decide_false _ Eu)].
  - split; [done|]. rewrite Ho1. case_bool_decide as E; [subst i|done]. rewrite Eu. by apply owner_absent.
  - split; [by rewrite scs_put_ne|]. case_bool_decide as E; [subst i; apply scs_put_eq|].
    rewrite scs_put_ne; [done|]. intros ?%ownerKey_inj; naive_solver.
Qed.

(** Reading nothing else, the representation only depends on these keys. *)
Lemma represents_keys kind u u' l s s' :
  represents kind (u, l) s → scs_GetString keyUser s' = u' →
  scs_GetString (queueKey kind) s' = scs_GetString (queueKey kind) s →
  (∀ i, scs_GetString (handleKey kind i) s' = scs_GetString (handleKey kind i) s) →
  (∀ i, scs_GetString (ownerKey kind i) s' = scs_GetString (ownerKey kind i) s) →
  represents kind (u', l) s'.
Proof.
  intros [R1 R2 R3 R4 R5 R6 R7] Hu Hq Hh Ho. split; try done; simpl in *.
  - by rewrite Hq.
  - intros id. by rewrite Hh.
  - intros id. by rewrite Ho.
Qed.
Lemma represents_marks kind st s : represents kind st s → marks kind st.2 s.
Proof. intros R id. split; apply R. Qed.

Lemma evict_stop kind fuel ids s : length ids ≤ maxBoundHandlesPerKind → evict fuel kind ids s = (ids, s).
Proof. intros Hl. destruct fuel as [|fuel], ids as [|id ids]; try done. cbn [evict]. by destruct (Nat.ltb_spec maxBoundHandlesPerKind (length (id :: ids))); [lia|]. Qed.

(** What the eviction leaves: the newest, one fewer than the cap. *)
Lemma evict_full kind u l s id : kind_ok kind → represents kind (u, l) s →
  let l0 := drop (length l + 1 - maxBoundHandlesPerKind) l in
  ∃ s1, evict (length (l.*1 ++ [id])) kind (l.*1 ++ [id]) s = (l0.*1 ++ [id], s1) ∧ marks kind l0 s1 ∧
    scs_GetString keyUser s1 = u ∧ length l0 < maxBoundHandlesPerKind.
Proof.
  intros Hk R l0. pose proof (represents_marks _ _ _ R) as Hm. destruct R as [Hu _ Hnd Hl _ _ _]. simpl in *.
  assert (Hlen : ∀ l' : held, length (l'.*1 ++ [id]) = length l' + 1) by (intros l'; by rewrite length_app, length_fmap).
  destruct (decide (length l < maxBoundHandlesPerKind)) as [Hlt|Hge].
  - assert (El : l0 = l) by (unfold l0; by replace (length l + 1 - maxBoundHandlesPerKind) with 0 by lia).
    exists s. rewrite El. split_and!; try done. apply evict_stop. rewrite Hlen. lia.
  - destruct l as [|[x o] l]; [unfold maxBoundHandlesPerKind in *; simpl in *; lia|]. simpl in *.
    assert (El : l0 = l).
    { unfold l0, maxBoundHandlesPerKind in *. by replace (length l + 1 - 31) with 1 by lia. }
    pose proof (marks_release kind x _ s Hk Hm) as Hm'. apply NoDup_cons in Hnd as [Hx _]. rewrite tail_filter in Hm' by done.
    exists (release kind x s). rewrite El. split_and!; [|done|by rewrite release_foreign by apply foreign_user|lia].
    specialize (Hlen l). cbn [evict app length]. destruct (Nat.ltb_spec maxBoundHandlesPerKind (Datatypes.S (length (list_fmap _ _ fst l ++ [id])))) as [_|Hc].
    { apply evict_stop. etrans; [apply Nat.eq_le_incl, Hlen|lia]. }
    exfalso. change (list_fmap _ _ fst l) with (l.*1) in Hc. rewrite Hlen in Hc. lia.
Qed.

Lemma trackable_join ids : ids ≠ [] → Forall (λ i, trackable i = true) ids →
  strings_Join ids (String handleSep EmptyString) ≠ EmptyString ∧
  strings_Split (strings_Join ids (String handleSep EmptyString)) handleSep = ids.
Proof.
  intros Hn HF. split.
  - destruct HF as [|x l Hx _]; [done|]. apply trackable_spec in Hx as [Hx _]. by destruct x, l.
  - apply Split_queue; [done|]. eapply Forall_impl; [exact HF|]. intros x Hx. by apply trackable_spec in Hx as (_ & _ & ?).
Qed.
Lemma boundQueue_eq kind ids s : Forall (λ i, trackable i = true) ids →
  scs_GetString (queueKey kind) s = strings_Join ids (String handleSep EmptyString) → boundQueue kind s = ids.
Proof.
  intros HF Hs. unfold boundQueue. rewrite Hs. destruct (decide (ids = [])) as [->|Hn]; [done|].
  destruct (trackable_join ids Hn HF) as [Hj Hsp]. by rewrite bool_decide_false.
Qed.

Lemma join_bytes ids : Forall (λ i, trackable i = true) ids →
  len (strings_Join ids (String handleSep EmptyString)) ≤ length ids * (maxBoundHandleBytes + 1).
Proof.
  induction 1 as [|x l Hx HF IH]; [simpl; lia|]. apply trackable_spec in Hx as (_ & Hx & _).
  destruct l as [|y l]; [cbn [strings_Join length]; lia|].
  change (strings_Join (x :: y :: l) (String handleSep EmptyString))
    with (x +:+ String handleSep (strings_Join (y :: l) (String handleSep EmptyString))).
  rewrite len_app. cbn [len String.length length] in *. unfold len in *. cbn [String.length]. lia.
Qed.
Lemma represents_intro kind u l s :
  scs_GetString keyUser s = u → scs_GetString (queueKey kind) s = strings_Join (l.*1) (String handleSep EmptyString) →
  NoDup l.*1 → length l ≤ maxBoundHandlesPerKind → Forall (λ i, trackable i = true) l.*1 → marks kind l s →
  represents kind (u, l) s.
Proof. intros Hu Hq Hn Hl HF Hm. split; try done; apply Hm. Qed.
Lemma represents_queue kind u l s : represents kind (u, l) s → boundQueue kind s = l.*1.
Proof. intros R. apply boundQueue_eq; apply R. Qed.

Lemma represents_bind kind id u l s : kind_ok kind → represents kind (u, l) s →
  represents kind (ref_step kind (u, l) (HBind kind id)) (Session_Bind kind id s).
Proof.
  intros Hk R. unfold Session_Bind. cbn [ref_step]. rewrite (bool_decide_true (kind = kind)) by done. cbn [andb].
  destruct (trackable id) eqn:Ht; [|done]. cbn [negb andb].
  assert (HB : Bound kind id s = holds l id).
  { unfold Bound. rewrite (rp_handle _ _ _ R). simpl. by destruct (holds l id). }
  rewrite HB. destruct (holds l id) eqn:Hh; [done|]. cbn [negb].
  assert (Hn : id ∉ l.*1) by (unfold holds in Hh; by apply bool_decide_eq_false in Hh).
  unfold enqueue. rewrite (represents_queue _ _ _ _ R). destruct (evict_full kind u l s id Hk R) as (s1 & -> & Hm & Hu & Hl0).
  set (l0 := drop _ l) in *. cbv zeta.
  assert (Hsub : l0 `sublist_of` l) by apply sublist_drop.
  assert (Hsub1 : l0.*1 `sublist_of` l.*1) by by apply fmap_sublist.
  set (s2 := scs_Put (queueKey kind) _ s1).
  assert (Hm2 : marks kind l0 s2) by (apply (marks_queue _ _ s1); [done|]; intros k Hne; by apply scs_put_ne).
  assert (Hu2 : scs_GetString keyUser s2 = u) by (unfold s2; by rewrite scs_put_ne).
  pose proof (marks_bind kind id l0 s2 Hk Hm2) as Hm3. rewrite Hu2 in Hm3. cbv zeta in Hm3.
  rewrite drop_app_le by (unfold maxBoundHandlesPerKind; lia). fold l0.
  apply represents_intro; rewrite ?fmap_app.
  - destruct (Session_User _); by rewrite !scs_put_ne.
  - destruct (Session_User _); rewrite !scs_put_ne by done; apply scs_put_eq.
  - apply NoDup_app. split_and!; [exact (sublist_NoDup _ _ (rp_nodup _ _ _ R) Hsub1)|intros x Hx ->%list_elem_of_singleton|apply NoDup_singleton].
    by eapply Hn, elem_of_sublist.
  - rewrite length_app. simpl. lia.
  - apply Forall_app. split; [|by constructor]. apply Forall_forall. intros x Hx.
    apply (proj1 (Forall_forall _ _) (rp_track _ _ _ R)). by eapply elem_of_sublist.
  - apply Hm3. intros Hin. apply Hn. by eapply elem_of_sublist.
Qed.

Lemma filter_fst (l : held) id : filter (λ v, v ≠ id) l.*1 = (filter (λ p, p.1 ≠ id) l).*1.
Proof. induction l as [|[x o] l IH]; [done|]. csimpl. rewrite !filter_cons. simpl. rewrite IH. by destruct (decide (x ≠ id)). Qed.

Lemma represents_unbind kind id u l s : kind_ok kind → represents kind (u, l) s →
  represents kind (ref_step kind (u, l) (HUnbind kind id)) (Session_Unbind kind id s).
Proof.
  intros Hk R. unfold Session_Unbind. cbn [ref_step]. rewrite (bool_decide_true (kind = kind)) by done.
  assert (Hq : boundQueue kind (release kind id s) = l.*1).
  { rewrite <-(represents_queue _ _ _ _ R). unfold boundQueue, release. by rewrite !scs_remove_ne. }
  rewrite Hq, filter_fst. set (l' := filter (λ p, p.1 ≠ id) l).
  pose proof (marks_release kind id l s Hk (represents_marks _ _ _ R)) as Hm. fold l' in Hm.
  assert (Hsub : l' `sublist_of` l) by apply sublist_filter.
  assert (Hsub1 : l'.*1 `sublist_of` l.*1) by by apply fmap_sublist.
  set (s' := match l'.*1 with [] => _ | _ => _ end).
  assert (Hs' : (∀ k, k ≠ queueKey kind → scs_GetString k s' = scs_GetString k (release kind id s)) ∧
                scs_GetString (queueKey kind) s' = strings_Join l'.*1 (String handleSep EmptyString)).
  { unfold s'. destruct (l'.*1); split; intros; (apply scs_put_eq || apply scs_remove_eq || by apply scs_put_ne || by apply scs_remove_ne). }
  destruct Hs' as [Hk' Hq']. apply represents_intro; try done.
  - rewrite Hk' by done. rewrite release_foreign by apply foreign_user. apply (rp_user _ _ _ R).
  - exact (sublist_NoDup _ _ (rp_nodup _ _ _ R) Hsub1).
  - etrans; [exact (sublist_length _ _ Hsub)|apply (rp_len _ _ _ R)].
  - apply Forall_forall. intros x Hx. apply (proj1 (Forall_forall _ _) (rp_track _ _ _ R)). by eapply elem_of_sublist.
  - by eapply marks_queue.
Qed.

Lemma represents_step kind s op s' st :
  kind_ok kind → (∀ k, op_kind op = Some k → kind_ok k) → handle_step s op s' →
  represents kind st s → represents kind (ref_step kind st op) s'.
Proof.
  intros Hk Hop Hstep R. destruct st as [u l]. destruct Hstep as [s k id|s k id|now user s ix s' ix' Hs].
  - destruct (decide (k = kind)) as [->|Hne]; [by apply represents_bind|]. cbn [ref_step]. rewrite bool_decide_false by done.
    destruct (foreign_kinds kind k) as (F1 & F2 & F3); [done|by apply Hop|done|].
    eapply represents_keys; [exact R|..]; intros; rewrite Bind_foreign; auto using foreign_user. apply (rp_user _ _ _ R).
  - destruct (decide (k = kind)) as [->|Hne]; [by apply represents_unbind|]. cbn [ref_step]. rewrite bool_decide_false by done.
    destruct (foreign_kinds kind k) as (F1 & F2 & F3); [done|by apply Hop|done|].
    eapply represents_keys; [exact R|..]; intros; rewrite Unbind_foreign; auto using foreign_user. apply (rp_user _ _ _ R).
  - destruct (SignIn_values _ _ _ _ _ _ Hs) as (Hu & _ & Hrest).
    eapply represents_keys; [exact R|done|..]; intros; by apply Hrest.
Qed.

(** C14. The handles of a session refine the queue: after any sequence of bindings,
    consumptions and sign-ins, [Bound] and [OwnerMatches] answer for every handle
    what the queue of the handle's kind says, the session holds at most
    [maxBoundHandlesPerKind] handles of the kind, and the bytes it spends on
    their queue are bounded. *)
Theorem handles_refine kind ops s s' :
  kind_ok kind → Forall (λ op, ∀ k, op_kind op = Some k → kind_ok k) ops →
  (∀ k, scs_GetString k s = EmptyString) → handle_steps s ops s' →
  let l := (foldl (ref_step kind) (EmptyString, []) ops).2 in
  (∀ id, Bound kind id s' = holds l id ∧
         ∀ user, OwnerMatches kind id user s' = bool_decide (owner_of l id = EmptyString) || bool_decide (owner_of l id = user)) ∧
  length l ≤ maxBoundHandlesPerKind ∧ NoDup l.*1 ∧
  len (scs_GetString (queueKey kind) s') ≤ maxBoundHandlesPerKind * (maxBoundHandleBytes + 1).
Proof.
  intros Hk Hops Hempty Hs l.
  assert (R : represents kind (foldl (ref_step kind) (EmptyString, []) ops) s').
  { induction Hs as [s|s op s' ops s'' Hs IH Hstep].
    - apply represents_intro; [apply Hempty|apply Hempty|constructor|apply Nat.le_0_l|constructor|]. intros id. by rewrite !Hempty.
    - apply Forall_app in Hops as [Hops Hop]. rewrite foldl_app. simpl.
      eapply represents_step; [done| |exact Hstep|by apply IH]. by inversion Hop. }
  split_and!; [|apply R|apply R|].
  2: { rewrite (rp_queue _ _ _ R). etrans; [apply join_bytes, R|]. rewrite length_fmap. apply Nat.mul_le_mono_r, R. }
  intros id. unfold Bound, OwnerMatches. rewrite (rp_handle _ _ _ R), (rp_owner _ _ _ R). fold l. by destruct (holds l id).
Qed.
End handles.
