(* ===== verification/Tombstones.v ===== *)
(** * The in-process session store ([internal/auth/session_tombstones.go])

    The wrapper that makes a deleted session stay deleted while requests that
    loaded it earlier are still writing it back, and the manager's choice of it
    ([NewManager]). *)

From S2P Require Import Prelude GoStd Proc Rely.
Local Open Scope Z_scope.

(** ** The wrapped store: [scs.Store] *)

Class ScsStore (I : Type) := {
  ss_Find : Z → string → I → result (option string);
  ss_Commit : Z → string → string → Z → I → I * option error;
  ss_Delete : Z → string → I → I * option error;
}.

(** As [scs.Store] documents them: [Find] reports a token that is not there or
    whose expiry has passed as not found; [Commit] adds or overwrites the row;
    [Delete] removes it. An operation that fails may have happened. *)
Class ScsStoreOk (I : Type) `{ScsStore I} := {
  ss_row : I → string → option (string * Z);
  ss_found now t i b : ss_Find now t i = Ok (Some b) → ∃ e, ss_row i t = Some (b, e) ∧ now <= e;
  ss_present now t i b e : ss_row i t = Some (b, e) → now <= e → ∀ r, ss_Find now t i = Ok r → r = Some b;
  ss_commit now t b e i : let '(i', err) := ss_Commit now t b e i in
    (ss_row i' t = Some (b, e) ∨ (err ≠ None ∧ ss_row i' t = ss_row i t)) ∧ ∀ t', t' ≠ t → ss_row i' t' = ss_row i t';
  ss_delete now t i : let '(i', err) := ss_Delete now t i in
    (ss_row i' t = None ∨ (err ≠ None ∧ ss_row i' t = ss_row i t)) ∧ ∀ t', t' ≠ t → ss_row i' t' = ss_row i t';
}.

(** ** The wrapper *)

Record tombstoningStore (I : Type) := mkTombstoning {
  ts_inner : I;
  ts_ttl : Z;
  ts_dead : gmap string Z;
}.
Arguments mkTombstoning {I} _ _ _.
Arguments ts_inner {I} _.
Arguments ts_ttl {I} _.
Arguments ts_dead {I} _.

Definition newTombstoningStore {I} (inner : I) (ttl : Z) : tombstoningStore I :=
  mkTombstoning inner (if ttl <=? 0 then 24 * time_Hour else ttl) ∅.

(** ** [NewManager]: the cookie and the store it decides on *)

Record Options (St : Type) := mkOptions {
  op_Lifetime : Z;
  op_IdleTimeout : Z;
  op_Secure : bool;
  op_CookieName : string;
  op_Store : option St;
}.
Arguments mkOptions {St} _ _ _ _ _.
Arguments op_Lifetime {St} _.
Arguments op_IdleTimeout {St} _.
Arguments op_Secure {St} _.
Arguments op_CookieName {St} _.
Arguments op_Store {St} _.

Record SessionManager (St I : Type) := mkSessionManager {
  sm_Lifetime : Z;
  sm_IdleTimeout : Z;
  sm_Store : St + tombstoningStore I;
  sm_Cookie_Name : string;
  sm_Cookie_HttpOnly : bool;
  sm_Cookie_Secure : bool;
  sm_Cookie_Path : string;
  sm_Cookie_Persist : bool;
}.
Arguments mkSessionManager {St I} _ _ _ _ _ _ _ _.
Arguments sm_Lifetime {St I} _.
Arguments sm_Store {St I} _.
Arguments sm_Cookie_Name {St I} _.
Arguments sm_Cookie_Secure {St I} _.
Arguments sm_Cookie_Path {St I} _.

(** [memstore] is [memstore.New()]. *)
Definition NewManager {St I} (memstore : I) (opts : Options St) : SessionManager St I :=
  let lifetime := if 0 <? op_Lifetime opts then op_Lifetime opts else 24 * time_Hour in
  let idle := if 0 <? op_IdleTimeout opts then op_IdleTimeout opts else 2 * time_Hour in
  let store := match op_Store opts with Some st => inl st | None => inr (newTombstoningStore memstore lifetime) end in
  let name := if bool_decide (op_CookieName opts = EmptyString)
              then (if op_Secure opts then "__Host-r0semi_session" else "r0semi_session")
              else op_CookieName opts in
  mkSessionManager lifetime idle store name true (op_Secure opts) "/" true.

Section store.
Context {I : Type} `{ScsStore I}.

(** The store and the clock. *)
Record TWorld := mkTWorld { tw_store : tombstoningStore I; tw_now : Z }.

Definition set_inner (i : I) (w : TWorld) : TWorld :=
  mkTWorld (mkTombstoning i (ts_ttl (tw_store w)) (ts_dead (tw_store w))) (tw_now w).
Definition set_dead (d : gmap string Z) (w : TWorld) : TWorld :=
  mkTWorld (mkTombstoning (ts_inner (tw_store w)) (ts_ttl (tw_store w)) d) (tw_now w).

(** [isDead], under the mutex. *)
Definition isDead (token : string) (w : TWorld) : TWorld * bool :=
  match ts_dead (tw_store w) !! token with
  | None => (w, false)
  | Some until => if tw_now w <? until then (w, true) else (set_dead (delete token (ts_dead (tw_store w))) w, false)
  end.

Definition tomb_Find (token : string) : go TWorld (option string) :=
  dead ← atomic (isDead token);
  if (dead : bool) then mret None
  else call (λ w, (w, ss_Find (tw_now w) token (ts_inner (tw_store w)))).

Definition tomb_Commit (token b : string) (expiry : Z) : go TWorld (option string) :=
  dead ← atomic (isDead token);
  if (dead : bool) then mret None
  else call (λ w, let '(i, err) := ss_Commit (tw_now w) token b expiry (ts_inner (tw_store w)) in
                  (set_inner i w, match err with Some e => Err e | None => Ok None end)).

(** [Delete]: the mark, under the mutex, and the delete. *)
Definition mark (token : string) (w : TWorld) : TWorld :=
  set_dead (<[token := tw_now w + ts_ttl (tw_store w)]> (ts_dead (tw_store w))) w.
Definition inner_Delete (token : string) : go TWorld (option string) :=
  call (λ w, let '(i, err) := ss_Delete (tw_now w) token (ts_inner (tw_store w)) in
             (set_inner i w, match err with Some e => Err e | None => Ok None end)).
Definition tomb_Delete (token : string) : go TWorld (option string) :=
  _ ← modify (mark token); inner_Delete token.

(** What the requests of a process do with the store, and the clock. *)
Inductive top :=
| TFind (token : string)
| TCommit (token b : string) (expiry : Z)
| TDelete (token : string)
| TTick (d : nat).

Definition tdo (op : top) : go TWorld (option string) :=
  match op with
  | TFind t => tomb_Find t
  | TCommit t b e => tomb_Commit t b e
  | TDelete t => tomb_Delete t
  | TTick d => _ ← modify (λ w, mkTWorld (tw_store w) (tw_now w + Z.of_nat d)); mret None
  end.
End store.
Arguments TWorld I : clear implicits.
Arguments mkTWorld {I} _ _.

(** ** A deleted session stays deleted *)

Section safety.
Context {I : Type} `{ScsStoreOk I}.
Implicit Types w : TWorld I.

Section one_token.
Variables (token : string) (D : Z).

(** No row of the token lives to [D]. *)
Definition short_rows w : Prop := ∀ b e, ss_row (ts_inner (tw_store w)) token = Some (b, e) → e < D.

(** The token was deleted, and the mark lasts until [D]. *)
Definition marked w : Prop :=
  D <= tw_now w + ts_ttl (tw_store w) ∧
  (tw_now w < D → ∃ until, ts_dead (tw_store w) !! token = Some until ∧ D <= until).

(** What every request and the clock respect. *)
Definition onward w w' : Prop :=
  tw_now w <= tw_now w' ∧ ts_ttl (tw_store w') = ts_ttl (tw_store w) ∧
  (short_rows w → short_rows w') ∧ (marked w → marked w').
#[export] Instance onward_preorder : PreOrder onward.
Proof.
  split; [by split|]. intros w1 w2 w3 (A1 & B1 & C1 & D1) (A2 & B2 & C2 & D2).
  split_and!; [lia|congruence|auto|auto].
Qed.

(** A commit of the token carries an expiry before [D]. *)
Definition op_short (op : top) : Prop :=
  match op with TCommit t _ e => t = token → e < D | _ => True end.

Lemma onward_inner w i :
  (short_rows w → short_rows (set_inner i w)) → onward w (set_inner i w).
Proof. intros Hs. split_and!; done. Qed.

Lemma onward_isDead t w : onward w (isDead t w).1.
Proof.
  unfold isDead. destruct (_ !! t) as [u|] eqn:E; [|reflexivity]. destruct (Z.ltb_spec (tw_now w) u); [reflexivity|].
  split_and!; [simpl; lia|done|done|]. intros [Ha Hm]. split; [done|]. simpl. intros Hn. destruct (Hm Hn) as (v & Hv & Hd).
  exists v. split; [|done]. rewrite lookup_delete_ne; [done|]. intros ->. rewrite Hv in E. injection E as ->. lia.
Qed.

Lemma onward_mark t w : onward w (mark t w).
Proof.
  split_and!; [simpl; lia|done|done|]. intros [Ha Hm]. split; [done|]. simpl. intros Hn.
  destruct (decide (t = token)) as [->|Hne]; [eexists; rewrite lookup_insert_eq; by split|].
  rewrite lookup_insert_ne by done. by apply Hm.
Qed.

Lemma onward_commit now t b e w : (t = token → e < D) →
  onward w (set_inner (ss_Commit now t b e (ts_inner (tw_store w))).1 w).
Proof.
  intros He. apply onward_inner. intros Hs b' e'. pose proof (ss_commit now t b e (ts_inner (tw_store w))) as L.
  destruct (ss_Commit _ _ _ _ _) as [i err]. destruct L as [L1 L2]. simpl.
  destruct (decide (t = token)) as [->|Hne]; [|rewrite L2 by done; apply Hs].
  destruct L1 as [->|[_ ->]]; [intros [= <- <-]; by apply He|apply Hs].
Qed.
Lemma onward_delete now t w : onward w (set_inner (ss_Delete now t (ts_inner (tw_store w))).1 w).
Proof.
  apply onward_inner. intros Hs b' e'. pose proof (ss_delete now t (ts_inner (tw_store w))) as L.
  destruct (ss_Delete _ _ _) as [i err]. destruct L as [L1 L2]. simpl.
  destruct (decide (t = token)) as [->|Hne]; [|rewrite L2 by done; apply Hs].
  destruct L1 as [->|[_ ->]]; [done|apply Hs].
Qed.

Lemma guar_tdo op : op_short op → guar (λ _, True) onward (tdo op) (λ _, True).
Proof.
  intros Hop. destruct op as [t|t b e|t|d]; cbn [tdo op_short] in *.
  - eapply (guar_bind _ _ _ _ (λ _, True)); [|intros [] _|done]; [|done|].
    + apply guar_atomic. intros w _. split_and!; [done|apply onward_isDead|done].
    + apply guar_call. intros w _. split_and!; [done|reflexivity|done].
  - eapply (guar_bind _ _ _ _ (λ _, True)); [|intros [] _|done]; [|done|].
    + apply guar_atomic. intros w _. split_and!; [done|apply onward_isDead|done].
    + apply guar_call. intros w _. pose proof (onward_commit (tw_now w) t b e w Hop) as Ho.
      by destruct (ss_Commit _ _ _ _ _) as [i err].
  - eapply (guar_bind _ _ _ _ (λ _, True)); [|intros _ _|done].
    + apply guar_atomic. intros w _. split_and!; [done|apply onward_mark|done].
    + apply guar_call. intros w _. pose proof (onward_delete (tw_now w) t w) as Ho. by destruct (ss_Delete _ _ _) as [i err].
  - eapply (guar_bind _ _ _ _ (λ _, True)); [|done|done]. apply guar_atomic. intros w _. split_and!; [done| |done].
    split_and!; [simpl; lia|done|done|]. intros [Ha Hm]. split; simpl; [lia|]. intros Hn. apply Hm. lia.
Qed.

Lemma rely_Find w : marked w → short_rows w → rely (λ _, True) onward (tomb_Find token) w (λ _ r, ∀ b, r ≠ Ok (Some b)).
Proof.
  intros Hm Hs w1 _ (_ & _ & Hs1 & Hm1) w2 dead [= E]. specialize (Hs1 Hs). specialize (Hm1 Hm).
  assert (Hd : dead = false → D <= tw_now w2 ∧ short_rows w2).
  { intros ->. destruct (onward_isDead token w1) as (_ & _ & Hs2 & _). rewrite E in Hs2. split; [|by apply Hs2].
    unfold isDead in E. destruct Hm1 as [_ Hm1]. destruct (Z.le_gt_cases D (tw_now w1)) as [Hle|Hlt].
    - destruct (_ !! token) as [u|]; [destruct (_ <? _)|]; injection E as <-; done.
    - destruct (Hm1 Hlt) as (u & Hu & Hdu). rewrite Hu in E. destruct (Z.ltb_spec (tw_now w1) u); [done|lia]. }
  destruct dead; [by intros w3 _ _ b|]. destruct (Hd eq_refl) as [Hn Hs2].
  intros w3 _ (Hn3 & _ & Hs3 & _) w4 r [= <- <-] w5 _ _ b Hb. destruct (ss_found _ _ _ _ Hb) as (e & He & Hle).
  specialize (Hs3 Hs2 _ _ He). lia.
Qed.
End one_token.

(** A token nobody deleted: the wrapper is the store it wraps, and what is
    committed is found until it expires. *)
Lemma tomb_roundtrip token b e w w1 r w2 r' :
  ts_dead (tw_store w) !! token = None → run (tomb_Commit token b e) w = Some (w1, Ok r) →
  run (tomb_Find token) w1 = Some (w2, Ok r') → tw_now w <= e → r' = Some b ∧ w2 = w1.
Proof.
  intros Hd. unfold tomb_Commit, tomb_Find. rewrite !run_bind, !run_atomic.
  assert (Hdead : ∀ w, ts_dead (tw_store w) !! token = None → isDead token w = (w, false)) by (intros w' E; unfold isDead; by rewrite E).
  rewrite (Hdead w Hd). cbn [fst snd]. rewrite run_call. pose proof (ss_commit (tw_now w) token b e (ts_inner (tw_store w))) as L.
  destruct (ss_Commit _ _ _ _ _) as [i [err|]]; [done|]. intros [= <- _]. rewrite Hdead by done. cbn [fst snd].
  rewrite run_call. intros [= <- Hf] Hn. split; [|done]. destruct L as [[L|[? _]] _]; [|done].
  by apply (ss_present (tw_now w) token i b e L Hn).
Qed.

End safety.
