(* ===== verification/SessionDemo.v ===== *)
(** * Sessions at work

    A session library, an index and a store in memory, which keep what the session
    manager relies on, and the properties of the manager on concrete sessions. *)

From S2P Require Import Prelude GoStd Proc Rely AuditLog Session SessionProps Tombstones.

(** ** A session library *)

(** The values and the token of a request's session, the tokens in the store, and
    whether the store refuses to delete. *)
Record DemoSession := mkDemoSession {
  ds_token : string;
  ds_values : gmap string string;
  ds_store : gset string;
  ds_stuck : bool;
}.
Definition demo_failure : error := New "store: unavailable".

#[export] Instance demo_scs : Scs DemoSession := {
  scs_GetString k s := default EmptyString (ds_values s !! k);
  scs_Put k v s := mkDemoSession (ds_token s) (<[k := v]> (ds_values s)) (ds_store s) (ds_stuck s);
  scs_Remove k s := mkDemoSession (ds_token s) (delete k (ds_values s)) (ds_store s) (ds_stuck s);
  scs_Token := ds_token;
  scs_RenewToken s := (mkDemoSession (String "t" (ds_token s)) (ds_values s) (ds_store s ∖ {[ ds_token s ]}) (ds_stuck s), None);
  scs_Destroy s := if ds_stuck s then (s, Some demo_failure)
                   else (mkDemoSession EmptyString ∅ (ds_store s ∖ {[ ds_token s ]}) (ds_stuck s), None);
  scs_Clear s := (mkDemoSession (ds_token s) ∅ (ds_store s) (ds_stuck s), None);
}.
Lemma token_longer (t : string) : String "t" t ≠ t.
Proof. intros E. apply (f_equal len) in E. simpl in E. lia. Qed.
#[export] Instance demo_scs_ok : ScsOk DemoSession.
Proof.
  refine {| scs_stored t s := bool_decide (t ∈ ds_store s) |}; simpl.
  - intros k v s. by rewrite lookup_insert_eq.
  - intros k k' v s Hk. by rewrite lookup_insert_ne.
  - intros k s. by rewrite lookup_delete_eq.
  - intros k k' s Hk. by rewrite lookup_delete_ne.
  - done.
  - done.
  - intros s s' [= <-]. simpl. split_and!; [done|done|apply token_longer|]. intros _. apply bool_decide_eq_false. set_solver.
  - intros s s'. destruct (ds_stuck s); [done|]. intros [= <-]. simpl. split_and!; [|done|].
    + intros k. by rewrite lookup_empty.
    + intros _. apply bool_decide_eq_false. set_solver.
  - intros s k. by rewrite lookup_empty.
Defined.

(** ** An index, which may refuse to write *)

Record DemoIndex := mkDemoIndex { di_rows : gmap string string; di_full : bool }.
#[export] Instance demo_index : SessionIndex DemoIndex := {
  ix_Remember t u x := if di_full x then (x, Some demo_failure) else (mkDemoIndex (<[t := u]> (di_rows x)) (di_full x), None);
  ix_Forget t x := (mkDemoIndex (delete t (di_rows x)) (di_full x), None);
}.
#[export] Instance demo_index_ok : SessionIndexOk DemoIndex.
Proof.
  refine {| ix_subject x t := di_rows x !! t |}; simpl.
  - intros t u x x'. destruct (di_full x); [done|]. intros [= <-]. simpl. split; [apply lookup_insert_eq|]. intros t' Ht. by apply lookup_insert_ne.
  - intros t x x' [= <-]. simpl. split; [apply lookup_delete_eq|]. intros t' Ht. by apply lookup_delete_ne.
Defined.

(** ** Times as text *)

Fixpoint pos_text (p : positive) : string :=
  match p with xH => EmptyString | xO p => String "0" (pos_text p) | xI p => String "1" (pos_text p) end.
Fixpoint text_pos (s : string) : option positive :=
  match s with
  | EmptyString => Some xH
  | String c s => if bool_decide (c = "0"%char) then xO <$> text_pos s else xI <$> text_pos s
  end.
Lemma text_pos_text p : text_pos (pos_text p) = Some p.
Proof. induction p as [p IH|p IH|]; simpl; [..|done]; by rewrite IH. Qed.
#[export] Instance demo_time : TimeText := {
  time_Format t := match t with Z0 => "z" | Zpos p => String "+" (pos_text p) | Zneg p => String "-" (pos_text p) end;
  time_Parse s := match s with
                  | String c s => if bool_decide (c = "z"%char) then Some 0%Z
                                  else if bool_decide (c = "+"%char) then Zpos <$> text_pos s else Zneg <$> text_pos s
                  | EmptyString => None
                  end;
}.
#[export] Instance demo_time_ok : TimeTextOk.
Proof. split; [|by intros []]. intros [|p|p]; simpl; [done|..]; by rewrite text_pos_text. Qed.

(** ** The manager *)

#[local] Existing Instance toy_platform.

(** A browser that visited a consent screen before it signed in. *)
Definition visitor : DemoSession := mkDemoSession "t1" {[ "flow_state" := "st" ]} {[ "t1" ]} false.

Lemma SignIn_exact_witness :
  let '(s, ix, err) := SignIn 7 "usr_1" visitor (Some (mkDemoIndex ∅ false)) in
  err = None ∧ Session_User s = Some "usr_1" ∧ scs_stored "t1" s = false ∧ scs_GetString "flow_state" s = "st" ∧
  indexed ix (scs_Token s) = Some "usr_1".
Proof.
  destruct (SignIn 7 "usr_1" visitor (Some (mkDemoIndex ∅ false))) as [[s ix] err] eqn:E.
  pose proof (SignIn_exact 7 "usr_1" visitor (Some (mkDemoIndex ∅ false)) s ix err) as T.
  assert (Herr : err = None) by (vm_compute in E; by injection E). subst err.
  destruct T as (Hu & _ & _ & _ & Hst & Hk & Hix); [discriminate|exact E|].
  split; [reflexivity|]. split; [exact Hu|]. split; [apply Hst; discriminate|]. split; [|exact Hix].
  rewrite Hk by discriminate. reflexivity.
Defined.

(** The session of a sign-in the index cannot record, when the store cannot delete
    it either: it answers an error, and stays signed in outside the index. *)
Example unrecorded_session :
  let s0 := mkDemoSession "t1" ∅ {[ "t1" ]} true in
  let '(s, ix, err) := SignIn 7 "usr_1" s0 (Some (mkDemoIndex ∅ true)) in
  err = Some demo_failure ∧ Session_User s = Some "usr_1" ∧ indexed ix (scs_Token s) = None.
Proof. vm_compute. split; [reflexivity|split; reflexivity]. Qed.

(** Handles of a browser: one bound before the sign-in, one after it. *)
Definition demo_ops : list handle_op := [HBind "authz" "a1"; HUser "usr_1"; HBind "authz" "a2"; HBind "device" "d1"; HUnbind "authz" "a1"].
Definition empty_session : DemoSession := mkDemoSession "t1" ∅ {[ "t1" ]} false.
Definition demo_session_1 : DemoSession := Session_Bind "authz" "a1" empty_session.
Definition demo_session_2 : DemoSession := (SignIn 7 "usr_1" demo_session_1 (None : option DemoIndex)).1.1.
Definition demo_session_5 : DemoSession :=
  Session_Unbind "authz" "a1" (Session_Bind "device" "d1" (Session_Bind "authz" "a2" demo_session_2)).

Lemma demo_steps : handle_steps (I:=DemoIndex) empty_session demo_ops demo_session_5.
Proof.
  change demo_ops with ([] ++ [HBind "authz" "a1"] ++ [HUser "usr_1"] ++ [HBind "authz" "a2"] ++ [HBind "device" "d1"] ++ [HUnbind "authz" "a1"]).
  rewrite !(assoc_L (++)). repeat (eapply handle_more; [|first [apply do_bind|apply do_unbind|idtac]]); [apply handle_refl|].
  apply (do_sign_in 7 "usr_1" demo_session_1 None demo_session_2 None). vm_compute. reflexivity.
Qed.

Lemma handles_refine_witness :
  Bound "authz" "a1" demo_session_5 = false ∧ Bound "authz" "a2" demo_session_5 = true ∧
  OwnerMatches "authz" "a2" "usr_1" demo_session_5 = true ∧ OwnerMatches "authz" "a2" "usr_2" demo_session_5 = false.
Proof.
  destruct (handles_refine (I:=DemoIndex) "authz" demo_ops empty_session demo_session_5) as [T _].
  - reflexivity.
  - repeat constructor; intros k [= <-]; reflexivity.
  - intros k. exact (f_equal (default EmptyString) (lookup_empty k)).
  - exact demo_steps.
  - destruct (T "a1") as [H1 _]. destruct (T "a2") as [H2 Ho]. rewrite H1, H2, !Ho. vm_compute. split; [reflexivity|]. split; [reflexivity|]. split; reflexivity.
Defined.

(** ** The in-process store *)

#[export] Instance demo_store : ScsStore (gmap string (string * Z)) := {
  ss_Find now t i := Ok ('(b, e) ← i !! t; if (now <=? e)%Z then Some b else None);
  ss_Commit _ t b e i := (<[t := (b, e)]> i, None);
  ss_Delete _ t i := (delete t i, None);
}.
#[export] Instance demo_store_ok : ScsStoreOk (gmap string (string * Z)).
Proof.
  refine {| ss_row i t := i !! t |}; simpl.
  - intros now t i b. destruct (i !! t) as [[b' e]|]; [|done]. simpl. destruct (Z.leb_spec now e); [|done]. intros [= <-]. eauto.
  - intros now t i b e Hi Hn r [= <-]. rewrite Hi. simpl. by rewrite (proj2 (Z.leb_le _ _) Hn).
  - intros now t b e i. split; [left; apply lookup_insert_eq|]. intros t' Ht. by apply lookup_insert_ne.
  - intros now t i. split; [left; apply lookup_delete_eq|]. intros t' Ht. by apply lookup_delete_ne.
Defined.

(** A request passed its check before the session was deleted and commits after
    it: the row is written again, and the next request does not find it. *)
Definition late_ops : list top := [TCommit "t1" "stale" 50; TDelete "t1"; TFind "t1"].
Definition late_world : TWorld (gmap string (string * Z)) :=
  mkTWorld (newTombstoningStore {[ "t1" := ("fresh", 50%Z) ]} 100) 10.
Definition late_check := default (late_world, []) (run_sched [0] late_world (tdo <$> late_ops)).
Definition late_end := default (late_world, [])
  (run_sched [1; 0; 2] (mark "t1" late_check.1) (<[1 := inner_Delete "t1"]> late_check.2)).

Lemma late_checked : run_sched [0] late_world (tdo <$> late_ops) = Some late_check.
Proof. reflexivity. Qed.
Lemma late_pending : late_check.2 !! 1 = Some (tomb_Delete "t1") ∧ late_check.2 !! 2 = Some (tomb_Find "t1").
Proof. split; reflexivity. Qed.
Lemma late_run : run_sched [1; 0; 2] (mark "t1" late_check.1) (<[1 := inner_Delete "t1"]> late_check.2) = Some late_end.
Proof. vm_compute. reflexivity. Qed.
Lemma late_found : ss_row (ts_inner (tw_store late_end.1)) "t1" = Some ("stale", 50%Z) ∧ late_end.2 !! 2 = Some (Ret (Ok None)).
Proof. vm_compute. split; reflexivity. Qed.
Lemma late_short : let D := (tw_now late_check.1 + ts_ttl (tw_store late_check.1))%Z in Forall (op_short "t1" D) late_ops ∧ short_rows "t1" D late_world.
Proof. split; [repeat constructor|]. intros b e. vm_compute. intros [= _ <-]. reflexivity. Qed.
#[local] Opaque late_check late_end.

