(* ===== verification/Idp.v ===== *)
(** * The identity-provider clients ([idp/idp.go])

    The registry of configured providers, the resolution of a provider's
    endpoints and key set (the discovery document is cached, ages out, and may not
    name another origin), and the identity a callback yields: from a verified
    id_token for an OIDC provider, from the profile endpoint otherwise. Deadlines,
    and the durations in the text of an error, are left out. *)

From S2P Require Import Prelude GoStd Proc FedRegistry Fed Account.

(** ** What other packages supply *)

(** A value of [map[string]any] as [encoding/json] decodes it: a string, a number
    (by its text under [%.0f]), or anything else. *)
Inductive any :=
| AString (s : string)
| AFloat (text : string)
| AOther.

(** [oauth2.Token] as it is read here: [Extra("id_token")] is the empty string
    when there is none. *)
Record IdpToken := mkIdpToken {
  it_AccessToken : string;
  it_IDToken : string;
}.

(** [oidcClaims]. *)
Record oidcClaims := mkClaims {
  cl_Subject : string;
  cl_Name : string;
  cl_Email : string;
  cl_Picture : string;
  cl_Nonce : string;
  cl_AZP : string;
}.

(** [golang.org/x/oauth2], [go-oidc], [encoding/json] and the HTTP client: [P] are
    discovered providers, [K] verified id_tokens. *)
Class IdpUpstream (U P K : Type) := {
  io_GenerateVerifier : U → U * string;
  io_AuthCodeURL : OAuthConfig → string → string → option string → string;
  io_Exchange : OAuthConfig → string → string → U → U * result IdpToken;
  io_Do : HTTPRequest → U → U * result HTTPResponse;
  oidc_NewProvider : string → U → U * result P;
  oidc_Endpoint : P → string * string;
  oidc_JWKSURI : P → result string;
  oidc_Verify : P → string → string → U → U * result K;
  oidc_Audience : K → list string;
  oidc_Claims : K → result oidcClaims;
  json_Object : string → result (gmap string any);
  json_QQ : string → result (string * string);
}.

(** What [go-oidc] says of [Verify]: the client is among the audiences. *)
Class IdpUpstreamOk (U P K : Type) `{IdpUpstream U P K} := {
  oidc_signed : P → string → K → Prop;
  oidc_verified p cid raw u u' k : oidc_Verify p cid raw u = (u', Ok k) → oidc_signed p raw k ∧ cid ∈ oidc_Audience k;
}.

(** ** Profiles *)

Definition field (raw : gmap string any) (key : string) : string :=
  match raw !! key with
  | Some (AString v) => v
  | Some (AFloat t) => t
  | _ => EmptyString
  end.
Fixpoint firstField (raw : gmap string any) (keys : list string) : string :=
  match keys with
  | [] => EmptyString
  | k :: keys => if bool_decide (field raw k = EmptyString) then firstField raw keys else field raw k
  end.

Definition github_identity (raw : gmap string any) : IdpIdentity :=
  mkIdp EmptyString (field raw "id") (firstField raw ["name"; "login"]) (field raw "email") (field raw "avatar_url").
Definition openid_identity (raw : gmap string any) : IdpIdentity :=
  mkIdp EmptyString (firstField raw ["sub"]) (firstField raw ["name"; "email"]) (field raw "email") (field raw "picture").
Definition discord_identity (raw : gmap string any) : IdpIdentity :=
  let id := field raw "id" in
  let hash := field raw "avatar" in
  let avatar := if negb (bool_decide (hash = EmptyString)) && negb (bool_decide (id = EmptyString))
                then "https://cdn.discordapp.com/avatars/" +:+ id +:+ "/" +:+ hash +:+ ".png" else EmptyString in
  mkIdp EmptyString id (firstField raw ["global_name"; "username"]) (field raw "email") avatar.

(** ** Definitions *)

(** How a profile becomes an identity: by a map of its fields, by the QQ calls, or
    not at all. *)
Inductive profile :=
| MapIdentity (f : gmap string any → IdpIdentity)
| FetchQQ
| NoProfile.

Record definition := mkDefinition {
  df_AuthURL : string;
  df_TokenURL : string;
  df_scopes : list string;
  df_userInfoURL : string;
  df_issuer : string;
  df_jwksURL : string;
  df_qqMeURL : string;
  df_qqUserInfoURL : string;
  df_profile : profile;
}.

Definition definitions : list (string * definition) :=
  [("github", mkDefinition "https://github.com/login/oauth/authorize" "https://github.com/login/oauth/access_token"
      ["read:user"; "user:email"] "https://api.github.com/user" EmptyString EmptyString EmptyString EmptyString
      (MapIdentity github_identity));
   ("google", mkDefinition "https://accounts.google.com/o/oauth2/v2/auth" "https://oauth2.googleapis.com/token"
      ["openid"; "email"; "profile"] "https://openidconnect.googleapis.com/v1/userinfo" "https://accounts.google.com"
      "https://www.googleapis.com/oauth2/v3/certs" EmptyString EmptyString (MapIdentity openid_identity));
   ("discord", mkDefinition "https://discord.com/oauth2/authorize" "https://discord.com/api/oauth2/token"
      ["identify"; "email"] "https://discord.com/api/users/@me" EmptyString EmptyString EmptyString EmptyString
      (MapIdentity discord_identity));
   ("microsoft", mkDefinition "https://login.microsoftonline.com/common/oauth2/v2.0/authorize"
      "https://login.microsoftonline.com/common/oauth2/v2.0/token" ["openid"; "email"; "profile"; "offline_access"]
      "https://graph.microsoft.com/oidc/userinfo" "https://login.microsoftonline.com/common/v2.0" EmptyString
      EmptyString EmptyString (MapIdentity openid_identity));
   ("qq", mkDefinition "https://graph.qq.com/oauth2.0/authorize" "https://graph.qq.com/oauth2.0/token"
      ["get_user_info"] EmptyString EmptyString EmptyString "https://graph.qq.com/oauth2.0/me?unionid=1"
      "https://graph.qq.com/user/get_user_info" FetchQQ)].

Definition find_name {A} (p : string) (l : list (string * A)) : option A := snd <$> head (filter (λ x, x.1 = p) l).

Definition providerLabels : list (string * string) :=
  [("github", "GitHub"); ("google", "Google"); ("discord", "Discord"); ("qq", "QQ"); ("microsoft", "Microsoft")].

(** ** The registry *)

Record Credentials := mkCredentials {
  cr_Provider : string;
  cr_ClientID : string;
  cr_ClientSecret : string;
  cr_AuthURL : string;
  cr_TokenURL : string;
  cr_Scopes : list string;
  cr_UserInfoURL : string;
  cr_Issuer : string;
  cr_JWKSURL : string;
  cr_DisplayName : string;
}.
Record RegistryConfig := mkRegistryConfig {
  rg_RedirectBase : string;
  rg_CallbackPath : string;
  rg_ProviderCacheTTL : Z;
  rg_Credentials : list Credentials;
}.
(** [Client]; its cache is in the world. *)
Record Client := mkIdpClient {
  ic_provider : string;
  ic_displayName : string;
  ic_def : definition;
  ic_issuer : string;
  ic_oauth : OAuthConfig;
  ic_providerTTL : Z;
}.

Definition defaultProviderCacheTTL : Z := 15 * time_Minute.
Definition providerStaleCeiling : Z := 2.

(** [validateProviderName]; a byte outside ASCII is in no allowed rune. *)
Definition name_char (first : bool) (c : ascii) : bool :=
  (is_lower c || is_digit c || bool_decide (c = "-"%char) || bool_decide (c = "_"%char)) &&
  negb (first && (bool_decide (c = "-"%char) || bool_decide (c = "_"%char))).
Definition validateProviderName `{Platform} (p : string) : option error :=
  match p with
  | EmptyString => Some (New "idp: provider name is required")
  | String c rest =>
      if name_char true c && str_forall (name_char false) rest then None
      else Some (New ("idp: provider name " +:+ strconv_Quote p +:+
                      " must be lowercase letters, digits, '-' or '_', and start with a letter or digit"))
  end.

(** [strings.ReplaceAll(s, old, new)] for a non-empty [old]; the fuel is the
    length of [s]. *)
Fixpoint replace_all (fuel : nat) (s old new : string) : string :=
  match fuel with
  | 0 => s
  | S fuel =>
      match strings_CutPrefix s old with
      | Some rest => new +:+ replace_all fuel rest old new
      | None => match s with EmptyString => EmptyString | String c s' => String c (replace_all fuel s' old new) end
      end
  end.
Definition strings_ReplaceAll (s old new : string) : string := replace_all (S (len s)) s old new.

Definition or_else (a b : string) : string := if bool_decide (a = EmptyString) then b else a.

(** One turn of the loop of [NewRegistry]. *)
Definition new_definition (cred : Credentials) (base : definition) : definition :=
  mkDefinition (or_else (cr_AuthURL cred) (df_AuthURL base)) (or_else (cr_TokenURL cred) (df_TokenURL base))
    (match cr_Scopes cred with [] => df_scopes base | scopes => scopes end)
    (or_else (cr_UserInfoURL cred) (df_userInfoURL base))
    (or_else (cr_Issuer cred) (df_issuer base))
    (or_else (cr_JWKSURL cred) (if bool_decide (cr_Issuer cred = EmptyString) then df_jwksURL base else EmptyString))
    (df_qqMeURL base) (df_qqUserInfoURL base) (df_profile base).

Definition new_client `{Platform} (base callbackPath : string) (ttl : Z) (cred : Credentials) : result Client :=
  match validateProviderName (cr_Provider cred) with
  | Some err => Err err
  | None =>
      match (match find_name (cr_Provider cred) definitions with
             | Some d => Ok (d, true)
             | None =>
                 if bool_decide (cr_Issuer cred = EmptyString)
                 then Err (New ("idp: provider " +:+ strconv_Quote (cr_Provider cred) +:+ " is neither built in nor OIDC (set issuer)"))
                 else Ok (mkDefinition EmptyString EmptyString ["openid"; "email"; "profile"] EmptyString (cr_Issuer cred)
                            EmptyString EmptyString EmptyString NoProfile, false)
             end) with
      | Err err => Err err
      | Ok (baseDef, builtIn) =>
          if bool_decide (cr_ClientID cred = EmptyString)
          then Err (New ("idp: " +:+ cr_Provider cred +:+ ": ClientID is required")) else
          if builtIn && bool_decide (cr_Provider cred = "microsoft") && bool_decide (cr_Issuer cred = EmptyString)
          then Err (New ("idp: microsoft: set issuer to https://login.microsoftonline.com/<tenant>/v2.0 " +:+
                         "(the built-in /common issuer cannot discover)")) else
          let def := new_definition cred baseDef in
          let label := or_else (cr_DisplayName cred)
            (or_else (default EmptyString (find_name (cr_Provider cred) providerLabels)) (cr_Provider cred)) in
          Ok (mkIdpClient (cr_Provider cred) label def (df_issuer def)
                (mkOAuth (cr_ClientID cred) (cr_ClientSecret cred) (df_AuthURL def) (df_TokenURL def)
                   (base +:+ strings_ReplaceAll callbackPath "{provider}" (cr_Provider cred)) (df_scopes def)) ttl)
      end
  end.

Fixpoint add_clients `{Platform} (base callbackPath : string) (ttl : Z) (creds : list Credentials) (r : gmap string Client)
    : result (gmap string Client) :=
  match creds with
  | [] => Ok r
  | cred :: creds =>
      match new_client base callbackPath ttl cred with
      | Err err => Err err
      | Ok c => add_clients base callbackPath ttl creds (<[cr_Provider cred := c]> r)
      end
  end.

Definition NewRegistry `{Platform} (cfg : RegistryConfig) : result (gmap string Client) :=
  if bool_decide (strings_TrimSpace (rg_RedirectBase cfg) = EmptyString) then Err (New "idp: RedirectBase is required") else
  add_clients (trim_slashes (rg_RedirectBase cfg)) (or_else (rg_CallbackPath cfg) "/auth/{provider}/callback")
    (if (rg_ProviderCacheTTL cfg <=? 0)%Z then defaultProviderCacheTTL else rg_ProviderCacheTTL cfg)
    (rg_Credentials cfg) ∅.

(** [Registry.Providers] and [Client.DisplayName]. *)
Definition Registry_Providers (r : gmap string Client) : list string := sort_by id (fst <$> map_to_list r).
Definition DisplayName (c : Client) : string := or_else (ic_displayName c) (ic_provider c).

(** ** Origins and endpoints *)

Section client.
Context `{Platform} {U P K : Type} `{IdpUpstream U P K}.

Definition idp_msg (c : Client) (m : string) : string := "idp: " +:+ ic_provider c +:+ ": " +:+ m.

(** [pinToIssuer]: the loop over the endpoints that are not empty. *)
Definition pin_one (c : Client) (issuer : URL) (name value : string) : option error :=
  if bool_decide (value = EmptyString) then None else
  match url_Parse value with
  | None => Some (Wrap (idp_msg c ("discovered " +:+ name +:+ " is not a URL: " +:+ Error (url_ParseError value))) (url_ParseError value))
  | Some u =>
      if negb (bool_decide (u_Scheme u = u_Scheme issuer)) || negb (bool_decide (u_Host u = u_Host issuer))
      then Some (New (idp_msg c ("discovered " +:+ name +:+ " " +:+ strconv_Quote value +:+ " is not on the issuer's origin " +:+
                 strconv_Quote (ic_issuer c) +:+
                 "; set auth_url/token_url/jwks_uri explicitly for a provider that hosts its endpoints elsewhere")))
      else None
  end.
Definition first_error (a b : option error) : option error := match a with Some e => Some e | None => b end.
Definition pinToIssuer (c : Client) (authURL tokenURL jwksURL : string) : option error :=
  match url_Parse (ic_issuer c) with
  | None => Some (Wrap (idp_msg c ("issuer is not a URL: " +:+ Error (url_ParseError (ic_issuer c)))) (url_ParseError (ic_issuer c)))
  | Some issuer =>
      first_error (pin_one c issuer "authorization_endpoint" authURL)
        (first_error (pin_one c issuer "token_endpoint" tokenURL) (pin_one c issuer "jwks_uri" jwksURL))
  end.

Definition pinJWKSURI (c : Client) (jwksURI : string) : option error :=
  if negb (bool_decide (df_jwksURL (ic_def c) = EmptyString)) then
    if negb (bool_decide (jwksURI = df_jwksURL (ic_def c)))
    then Some (New (idp_msg c ("discovered jwks_uri " +:+ strconv_Quote jwksURI +:+ " does not match the configured jwks_uri " +:+
               strconv_Quote (df_jwksURL (ic_def c)) +:+
               "; the key set that verifies id_tokens must be the one the operator named")))
    else None
  else pinToIssuer c EmptyString EmptyString jwksURI.
Definition pinDiscoveredJWKS (c : Client) (p : P) : option error :=
  match oidc_JWKSURI p with
  | Err err => Some (Wrap (idp_msg c ("decode discovery document: " +:+ Error err)) err)
  | Ok uri => pinJWKSURI c uri
  end.

(** [validateEndpoints]. *)
Definition validate_one (c : Client) (name value : string) : option error :=
  match url_Parse value with
  | None => Some (Wrap (idp_msg c (name +:+ " " +:+ strconv_Quote value +:+ " is not a URL: " +:+ Error (url_ParseError value)))
                   (url_ParseError value))
  | Some u =>
      if bool_decide (u_Scheme u = EmptyString) || bool_decide (u_Host u = EmptyString)
      then Some (New (idp_msg c (name +:+ " is missing or is not an absolute URL with a scheme and host (" +:+ strconv_Quote value +:+
                 "); fix the provider's discovery document or set the endpoint explicitly")))
      else None
  end.
Definition validateEndpoints (c : Client) (cfg : OAuthConfig) : option error :=
  first_error (validate_one c "auth_url (authorization_endpoint)" (oc_AuthURL cfg))
              (validate_one c "token_url (token_endpoint)" (oc_TokenURL cfg)).

(** ** Discovery and its cache *)

(** The world behind the clients: the other services, the discovered providers
    with the time each was stored, the clock. *)
Record IdpWorld := mkIdpWorld {
  dw_up : U;
  dw_cache : gmap string (P * Z);
  dw_now : Z;
}.
Definition set_dw_up (u : U) (w : IdpWorld) : IdpWorld := mkIdpWorld u (dw_cache w) (dw_now w).

(** A call of another service. *)
Definition ask {A} (f : U → U * result A) : go IdpWorld A :=
  call (λ w, let '(u, r) := f (dw_up w) in (set_dw_up u w, r)).
(** [return fmt.Errorf(... %w, err)]. *)
Definition or_fail {A} (wrap : error → error) (p : go IdpWorld A) : go IdpWorld A :=
  r ← try p; match r with Ok a => mret a | Err e => throw (wrap e) end.

(** The cache hit of [oidcProvider], under the mutex. *)
Definition cached (c : Client) (w : IdpWorld) : option P :=
  '(p, at') ← dw_cache w !! ic_provider c;
  if (dw_now w - at' <? ic_providerTTL c)%Z then Some p else None.

Definition retainOnDiscoveryFailure (c : Client) (cause : error) : go IdpWorld P :=
  entry ← reads (λ w, dw_cache w !! ic_provider c);
  match entry with
  | None => throw cause
  | Some (p, at') =>
      now ← reads dw_now;
      if (now - at' <? providerStaleCeiling * ic_providerTTL c)%Z then mret p
      else throw (Wrap (idp_msg c ("discovery has been failing but the cached provider is past the ceiling; refusing the stale key set: "
                                   +:+ Error cause)) cause)
  end.

Definition oidcProvider (c : Client) : go IdpWorld P :=
  hit ← reads (cached c);
  match hit with
  | Some p => mret p
  | None =>
      r ← try (ask (oidc_NewProvider (ic_issuer c)));
      match r with
      | Err err => retainOnDiscoveryFailure c (Wrap (idp_msg c ("discovery failed: " +:+ Error err)) err)
      | Ok p =>
          match pinDiscoveredJWKS c p with
          | Some err => retainOnDiscoveryFailure c err
          | None => _ ← modify (λ w, mkIdpWorld (dw_up w) (<[ic_provider c := (p, dw_now w)]> (dw_cache w)) (dw_now w)); mret p
          end
      end
  end.

(** ** The calls of a flow *)

Definition fail_if (e : option error) : go IdpWorld unit := match e with Some e => throw e | None => mret tt end.
Definition with_AuthURL (v : string) (cfg : OAuthConfig) : OAuthConfig :=
  mkOAuth (oc_ClientID cfg) (oc_ClientSecret cfg) v (oc_TokenURL cfg) (oc_RedirectURL cfg) (oc_Scopes cfg).
Definition with_TokenURL (v : string) (cfg : OAuthConfig) : OAuthConfig :=
  mkOAuth (oc_ClientID cfg) (oc_ClientSecret cfg) (oc_AuthURL cfg) v (oc_RedirectURL cfg) (oc_Scopes cfg).

Definition oauthConfig (c : Client) : go IdpWorld OAuthConfig :=
  let cfg := ic_oauth c in
  cfg ← (if bool_decide (oc_AuthURL cfg = EmptyString) || bool_decide (oc_TokenURL cfg = EmptyString) then
           if bool_decide (ic_issuer c = EmptyString)
           then throw (New (idp_msg c "auth_url and token_url must both be set: the provider carries no issuer to discover the missing endpoint from"))
           else
             provider ← oidcProvider c;
             let '(authURL, tokenURL) := oidc_Endpoint provider in
             cfg ← (if bool_decide (oc_AuthURL cfg = EmptyString)
                    then _ ← fail_if (pinToIssuer c authURL EmptyString EmptyString); mret (with_AuthURL authURL cfg)
                    else mret cfg);
             if bool_decide (oc_TokenURL cfg = EmptyString)
             then _ ← fail_if (pinToIssuer c EmptyString tokenURL EmptyString); mret (with_TokenURL tokenURL cfg)
             else mret cfg
         else mret cfg : go IdpWorld OAuthConfig);
  _ ← fail_if (validateEndpoints c cfg);
  mret cfg.

Definition NewVerifier (c : Client) : go IdpWorld string :=
  atomic (λ w, let '(u, v) := io_GenerateVerifier (dw_up w) in (set_dw_up u w, v)).
Definition NewNonce (c : Client) : go IdpWorld string :=
  atomic (λ w, let '(u, v) := io_GenerateVerifier (dw_up w) in (set_dw_up u w, v)).

Definition AuthCodeURL (c : Client) (state verifier nonce : string) : go IdpWorld string :=
  cfg ← oauthConfig c;
  mret (io_AuthCodeURL cfg state verifier (if bool_decide (nonce = EmptyString) then None else Some nonce)).

Definition Exchange (c : Client) (code verifier : string) : go IdpWorld IdpToken :=
  cfg ← oauthConfig c; ask (io_Exchange cfg code verifier).

(** ** Identities *)

(** [getText]. Its first two errors carry their cause without its text, which
    [redactURLError] shortens. *)
Definition getText (endpoint accessToken : string) : go IdpWorld string :=
  let headers := (if bool_decide (accessToken = EmptyString) then [] else [("Authorization", "Bearer " +:+ accessToken)]) ++
                 [("Accept", "application/json")] in
  match newRequest "GET" endpoint headers None EmptyString with
  | Err err => throw (Wrap "idp: build request" err)
  | Ok req =>
      resp ← or_fail (Wrap "idp: request") (ask (io_Do req));
      match read_limited (2 ^ 20) (rs_Body resp) with
      | Err err => throw (Wrap ("idp: read response: " +:+ Error err) err)
      | Ok body =>
          if negb (rs_StatusCode resp =? 200)%Z
          then throw (New ("idp: profile endpoint returned HTTP " +:+ pretty (rs_StatusCode resp)))
          else mret body
      end
  end.

Definition getJSON (endpoint accessToken : string) : go IdpWorld (gmap string any) :=
  body ← getText endpoint accessToken;
  match json_Object body with
  | Err err => throw (Wrap ("idp: decode profile: " +:+ Error err) err)
  | Ok raw => mret raw
  end.

(** [strings.TrimSuffix] with one byte, and what follows the first one. *)
Fixpoint trim_suffix (c : ascii) (s : string) : string :=
  match s with
  | EmptyString => EmptyString
  | String a EmptyString => if bool_decide (a = c) then EmptyString else s
  | String a s' => String a (trim_suffix c s')
  end.
Fixpoint after_first (c : ascii) (s : string) : option string :=
  match s with
  | EmptyString => None
  | String a s' => if bool_decide (a = c) then Some s' else after_first c s'
  end.
Definition stripJSONP (s : string) : string :=
  let s := strings_TrimSpace s in
  let s := default s (after_first "(" s) in
  let s := trim_suffix ";" (strings_TrimSpace s) in
  strings_TrimSpace (trim_suffix ")" (strings_TrimSpace s)).

Definition fetchQQ (def : definition) (clientID : string) (token : IdpToken) : go IdpWorld IdpIdentity :=
  meBody ← getText (df_qqMeURL def +:+ "&access_token=" +:+ url_QueryEscape (it_AccessToken token)) EmptyString;
  match json_QQ (stripJSONP meBody) with
  | Err err => throw (Wrap ("idp: qq: decode openid: " +:+ Error err) err)
  | Ok (openid, unionid) =>
      let subject := or_else unionid openid in
      if bool_decide (subject = EmptyString) || bool_decide (openid = EmptyString)
      then throw (New "idp: qq: no openid returned") else
      raw ← getJSON (df_qqUserInfoURL def +:+ "?fmt=json" +:+ "&access_token=" +:+ url_QueryEscape (it_AccessToken token) +:+
                     "&oauth_consumer_key=" +:+ url_QueryEscape clientID +:+ "&openid=" +:+ url_QueryEscape openid) EmptyString;
      mret (mkIdp EmptyString subject (firstField raw ["nickname"]) EmptyString (firstField raw ["figureurl_qq_2"; "figureurl_qq_1"]))
  end.

(** [NoProfile] is the nil function of a custom provider. *)
Definition identityFromUserInfo (c : Client) (token : IdpToken) : go IdpWorld IdpIdentity :=
  match df_profile (ic_def c) with
  | FetchQQ => fetchQQ (ic_def c) (oc_ClientID (ic_oauth c)) token
  | MapIdentity f => raw ← getJSON (df_userInfoURL (ic_def c)) (it_AccessToken token); mret (f raw)
  | NoProfile => _ ← getJSON (df_userInfoURL (ic_def c)) (it_AccessToken token); throw (New "panic: nil function")
  end.

(** The checks on the claims that the library leaves to its caller. *)
Definition checkClaims (c : Client) (audience : list string) (claims : oidcClaims) (nonce : string) : option error :=
  if bool_decide (nonce = EmptyString) || negb (bool_decide (cl_Nonce claims = nonce))
  then Some (New (idp_msg c "id_token nonce does not match the authorization request")) else
  if (1 <? length audience) && bool_decide (cl_AZP claims = EmptyString)
  then Some (New (idp_msg c ("id_token has " +:+ pretty (length audience) +:+ " audiences but no azp"))) else
  if negb (bool_decide (cl_AZP claims = EmptyString)) && negb (bool_decide (cl_AZP claims = oc_ClientID (ic_oauth c)))
  then Some (New (idp_msg c ("id_token azp " +:+ strconv_Quote (cl_AZP claims) +:+ " is not this client"))) else
  if bool_decide (cl_Subject claims = EmptyString) then Some (New (idp_msg c "id_token has no sub")) else None.

Definition identityFromIDToken (c : Client) (token : IdpToken) (nonce : string) : go IdpWorld IdpIdentity :=
  if bool_decide (it_IDToken token = EmptyString) then throw (New (idp_msg c "token response has no id_token")) else
  provider ← oidcProvider c;
  idToken ← or_fail (λ e, Wrap (idp_msg c ("verify id_token: " +:+ Error e)) e)
              (ask (oidc_Verify provider (oc_ClientID (ic_oauth c)) (it_IDToken token)));
  match oidc_Claims idToken with
  | Err err => throw (Wrap (idp_msg c ("decode id_token claims: " +:+ Error err)) err)
  | Ok claims =>
      _ ← fail_if (checkClaims c (oidc_Audience idToken) claims nonce);
      mret (mkIdp EmptyString (cl_Subject claims) (or_else (cl_Name claims) (cl_Email claims)) (cl_Email claims) (cl_Picture claims))
  end.

(** [Client.Identity]. *)
Definition Identity (c : Client) (token : IdpToken) (nonce : string) : go IdpWorld IdpIdentity :=
  if bool_decide (it_AccessToken token = EmptyString) then throw (New "idp: token has no access token") else
  ident ← (if bool_decide (ic_issuer c = EmptyString) then identityFromUserInfo c token else identityFromIDToken c token nonce);
  let ident := mkIdp (ic_provider c) (ip_Subject ident) (ip_DisplayName ident) (ip_Email ident) (ip_AvatarURL ident) in
  _ ← fail_if (Idp_Validate ident);
  mret ident.
End client.
Arguments IdpWorld U P : clear implicits.

(** ** [boundedBodyTransport]: a response over the limit is refused, not cut *)

Definition maxDiscoveryBytes : Z := 2 ^ 20.
Definition bound_body (limit : Z) (url : string) (resp : HTTPResponse) : result HTTPResponse :=
  match read_limited (limit + 1) (rs_Body resp) with
  | Err err => Err (Wrap ("idp: read response: " +:+ Error err) err)
  | Ok body =>
      if (limit <? Z.of_nat (len body))%Z
      then Err (New ("idp: " +:+ url +:+ ": response body exceeds the " +:+ pretty limit +:+ "-byte limit"))
      else Ok (mkResponse (rs_StatusCode resp) (Z.of_nat (len body)) (rs_ContentType resp) (rs_ContentEncoding resp) (body, None))
  end.
