(* ===== verification/Login.v ===== *)
(** * Signing in through an identity provider ([internal/auth/auth.go])

    The [/auth] handlers: the start of a flow, its callback (a sign-in, a first
    sign-in that creates the account, or the link of a further identity), and the
    way back through the provider for a fresh authentication. The session of the
    request is threaded through; the accounts, the session index, the audit log,
    the metrics, the providers, the clock and the random generator are the world
    that requests share. *)

From S2P Require Import Prelude GoStd Proc AuditLog SafeUrl Session Account.

(** ** The identity-provider clients *)

(** [idp.Client]: [C] are the clients, [T] the tokens of an exchange, [U] the
    world behind them. *)
Class IdpClient (U C T : Type) := {
  idp_Provider : C → string;
  idp_DisplayName : C → string;
  idp_NewVerifier : C → go U string;
  idp_NewNonce : C → go U string;
  idp_AuthCodeURL : C → string → string → string → go U string;
  idp_Exchange : C → string → string → go U T;
  idp_Identity : C → T → string → go U IdpIdentity;
}.

(** What the login plane relies on, of the clients a registry knows: they keep an
    invariant of the world behind them; a token is what the provider issued for a code and the flow's
    verifier, an identity what it attested with a token for the flow's nonce; an
    attested identity is of the client's provider and has a subject; and calls
    return. *)
Class IdpClientOk (U C T : Type) `{IdpClient U C T} := {
  idp_inv : U → Prop;
  idp_known : C → Prop;
  idp_issued : C → string → string → T → Prop;
  idp_attested : C → T → string → IdpIdentity → Prop;
  idp_verifier c : idp_known c → guar idp_inv (λ _ _, True) (idp_NewVerifier c) (λ _, True);
  idp_nonce c : idp_known c → guar idp_inv (λ _ _, True) (idp_NewNonce c) (λ _, True);
  idp_url c a b d : idp_known c → guar idp_inv (λ _ _, True) (idp_AuthCodeURL c a b d) (λ _, True);
  idp_exchanged c code v : idp_known c →
    guar idp_inv (λ _ _, True) (idp_Exchange c code v) (λ r, ∀ t, r = Ok t → idp_issued c code v t);
  idp_identified c t n : idp_known c →
    guar idp_inv (λ _ _, True) (idp_Identity c t n) (λ r, ∀ i, r = Ok i → idp_attested c t n i);
  idp_valid c t n i : idp_attested c t n i → ip_Provider i = idp_Provider c ∧ Idp_Validate i = None;
  idp_returns_verifier c u : runs (idp_NewVerifier c) u (λ _ _, True);
  idp_returns_nonce c u : runs (idp_NewNonce c) u (λ _ _, True);
  idp_returns_url c a b d u : runs (idp_AuthCodeURL c a b d) u (λ _ _, True);
  idp_returns_token c code v u : runs (idp_Exchange c code v) u (λ _ _, True);
  idp_returns_identity c t n u : runs (idp_Identity c t n) u (λ _ _, True);
}.

(** ** Codes *)

Definition codeAccessDenied : string := "access_denied".
Definition codeProviderUnavailable : string := "provider_unavailable".
Definition codeInvalidRequest : string := "invalid_request".
Definition codeExchangeFailed : string := "exchange_failed".
Definition codeIdentityFailed : string := "identity_failed".
Definition codeNotSignedIn : string := "not_signed_in".
Definition codeIdentityTaken : string := "identity_taken".
Definition codeLinkFailed : string := "link_failed".
Definition codeSignupFailed : string := "signup_failed".
Definition codeLookupFailed : string := "lookup_failed".
Definition codeSessionFailed : string := "session_failed".
Definition codeUnknownProvider : string := "unknown_provider".
Definition codeInvalidState : string := "invalid_state".
Definition codeProviderMismatch : string := "provider_mismatch".

Definition loginCodes : list (string * string) :=
  [(codeAccessDenied, OutcomeDenied); (codeIdentityTaken, OutcomeDenied); (codeUnknownProvider, OutcomeDenied);
   (codeInvalidState, OutcomeDenied); (codeProviderMismatch, OutcomeDenied); (codeInvalidRequest, OutcomeDenied);
   (codeNotSignedIn, OutcomeDenied); (codeProviderUnavailable, OutcomeError); (codeExchangeFailed, OutcomeError);
   (codeIdentityFailed, OutcomeError); (codeLinkFailed, OutcomeError); (codeSignupFailed, OutcomeError);
   (codeLookupFailed, OutcomeError); (codeSessionFailed, OutcomeError)].

Definition redirectCodes : list string :=
  [codeAccessDenied; codeProviderUnavailable; codeInvalidRequest; codeExchangeFailed; codeIdentityFailed;
   codeNotSignedIn; codeLinkFailed; codeSignupFailed; codeLookupFailed; codeSessionFailed].

Definition outcomeFor (c : string) : string :=
  default OutcomeError ((list_to_map loginCodes : gmap string string) !! c).

(** ** Requests and responses *)

(** What the handlers read of a request: the path value, the method and the query
    parameters. *)
Record AuthRequest := mkAuthRequest {
  ar_provider : string;
  ar_method : string;
  ar_mode : string;
  ar_return_to : string;
  ar_state : string;
  ar_error : string;
  ar_code : string;
}.

(** [http.Error] and [http.Redirect], with what they are called with; the
    [Location] of a redirect to [url] is [http_Redirect url]. *)
Inductive response :=
| HttpError (msg : string) (status : Z)
| HttpRedirect (url : string) (status : Z).

Definition requireSafeMethod (m : string) : bool := bool_decide (m ∈ ["GET"; "HEAD"; "OPTIONS"]).

Definition redirectError (returnTo c : string) : response :=
  match redirectError_target returnTo c with
  | None => HttpError "authentication failed" 400
  | Some url => HttpRedirect url 303
  end.

(** ** The world *)

Record LWorld (I Lg U : Type) := mkLWorld {
  lw_accounts : MemoryAccounts;
  lw_index : option I;
  lw_log : option Lg;
  lw_logins : list (string * string);
  lw_up : U;
  lw_now : Z;
  lw_rand : nat;
}.
Arguments mkLWorld {I Lg U} _ _ _ _ _ _ _.
Arguments lw_accounts {I Lg U} _.
Arguments lw_index {I Lg U} _.
Arguments lw_log {I Lg U} _.
Arguments lw_logins {I Lg U} _.
Arguments lw_up {I Lg U} _.
Arguments lw_now {I Lg U} _.
Arguments lw_rand {I Lg U} _.

Section handlers.
Context `{Platform} `{Entropy} `{TimeText} {S I Lg U C T : Type} `{Scs S} `{SessionIndex I} `{Logger Lg} `{IdpClient U C T}.
(** [Registry]: the configured clients. *)
Context (registry : gmap string C).
Abbreviation W := (LWorld I Lg U).

Definition set_accounts (a : MemoryAccounts) (w : W) : W :=
  mkLWorld a (lw_index w) (lw_log w) (lw_logins w) (lw_up w) (lw_now w) (lw_rand w).
Definition set_index (x : option I) (w : W) : W :=
  mkLWorld (lw_accounts w) x (lw_log w) (lw_logins w) (lw_up w) (lw_now w) (lw_rand w).
Definition set_log (l : option Lg) (w : W) : W :=
  mkLWorld (lw_accounts w) (lw_index w) l (lw_logins w) (lw_up w) (lw_now w) (lw_rand w).
Definition set_logins (l : list (string * string)) (w : W) : W :=
  mkLWorld (lw_accounts w) (lw_index w) (lw_log w) l (lw_up w) (lw_now w) (lw_rand w).
Definition set_up (u : U) (w : W) : W :=
  mkLWorld (lw_accounts w) (lw_index w) (lw_log w) (lw_logins w) u (lw_now w) (lw_rand w).
Definition set_rand (n : nat) (w : W) : W :=
  mkLWorld (lw_accounts w) (lw_index w) (lw_log w) (lw_logins w) (lw_up w) (lw_now w) n.

(** A call of a provider's client. *)
Definition upstream {A} (p : go U A) : go W A := zoom lw_up set_up p.

(** A panic of the generator ends the request. *)
Definition or_panic {A} (r : option A) : go W A :=
  match r with Some a => mret a | None => throw (New "panic: random source failed") end.
Definition draw (k : nat) : go W string :=
  r ← atomic (λ w, (set_rand (Datatypes.S (lw_rand w)) w, randomToken (lw_rand w) k)); or_panic r.

(** ** What is recorded *)

(** [observeLogin], [recordAuth], [denyLogin], [failLogin]. *)
Definition observeLogin (provider res : string) : go W unit :=
  modify (λ w, set_logins (lw_logins w ++ [(provider, res)]) w).

Definition recordAuth (action provider subject outcome c : string) : go W unit :=
  let detail : gmap string string := if bool_decide (c = EmptyString) then ∅ else {[ "code" := c ]} in
  modify (λ w, set_log (recordAudit (lw_now w) (mkEvent 0 action subject provider outcome detail) (lw_log w)) w).

Definition denyLogin (provider c : string) : go W unit :=
  _ ← observeLogin provider c;
  recordAuth "auth.login" provider EmptyString OutcomeDenied c.

Definition failLogin (provider returnTo c : string) (s : S) : go W (S * response) :=
  _ ← observeLogin provider c;
  _ ← recordAuth "auth.login" provider EmptyString (outcomeFor c) c;
  mret (s, redirectError returnTo c).

(** ** The account store *)

Definition findByIdentity (provider subject : string) : go W (result string) :=
  reads (λ w, FindByIdentity provider subject (lw_accounts w)).
Definition createWithIdentity (i : IdpIdentity) : go W (result (User * LinkedIdentity)) :=
  r ← atomic (λ w, let '(a, n, r) := CreateWithIdentity (lw_now w) (lw_rand w) i (lw_accounts w) in
                   (set_rand n (set_accounts a w), r));
  or_panic r.
Definition linkIdentity (user : string) (i : IdpIdentity) : go W (result LinkedIdentity) :=
  r ← atomic (λ w, let '(a, n, r) := LinkIdentity (lw_now w) (lw_rand w) user i (lw_accounts w) in
                   (set_rand n (set_accounts a w), r));
  or_panic r.
Definition touchLogin (provider subject : string) : go W unit :=
  modify (λ w, set_accounts (TouchLogin (lw_now w) provider subject (lw_accounts w)).1 w).

(** [Manager.SignIn]: its two calls of the index with the renewal between. *)
Definition signIn (user : string) (s : S) : go W (S * option error) :=
  _ ← modify (λ w, set_index (forget_old s (lw_index w)) w);
  now ← reads lw_now;
  match renew now user s with
  | (s, Some err) => mret (s, Some err)
  | (s, None) => atomic (λ w, let '(s, ix, err) := remember user s (lw_index w) in (set_index ix w, (s, err)))
  end.

(** ** The handlers *)

Definition identityProvider (identities : list LinkedIdentity) (primary : string) : string :=
  match filter (λ i, li_ID i = primary) identities with
  | i :: _ => li_Provider i
  | [] => from_option li_Provider EmptyString (head identities)
  end.

Definition handleReauth (rq : AuthRequest) (s : S) : go W (S * response) :=
  match Session_User s with
  | None => mret (s, HttpError "sign in required" 401)
  | Some user =>
      let returnTo := RelativePath (ar_return_to rq) in
      u ← reads (λ w, GetUser user (lw_accounts w));
      match u with
      | Err _ => mret (s, HttpError "cannot resolve your account" 500)
      | Ok u =>
          identities ← reads (λ w, Identities user (lw_accounts w));
          match identities with
          | Ok (i :: rest) =>
              let provider := identityProvider (i :: rest) (us_PrimaryIdentity u) in
              match registry !! provider with
              | None => mret (s, HttpError "the identity provider is no longer configured" 400)
              | Some _ =>
                  mret (s, HttpRedirect ("/auth/" +:+ url_PathEscape provider +:+ "/start?mode=login&return_to=" +:+
                                         url_QueryEscape returnTo) 302)
              end
          | _ => mret (s, HttpError "no identity to re-authenticate with" 400)
          end
      end
  end.

Definition ProviderLabel (p : string) : string := from_option idp_DisplayName p (registry !! p).

Definition putFlow (state provider mode returnTo verifier nonce : string) (s : S) : S :=
  let s := scs_Put keyFlowState state s in
  let s := scs_Put keyFlowProvider provider s in
  let s := scs_Put keyFlowMode mode s in
  let s := scs_Put keyFlowReturnTo returnTo s in
  let s := scs_Put keyFlowVerifier verifier s in
  scs_Put keyFlowNonce nonce s.

Definition handleStart (rq : AuthRequest) (s : S) : go W (S * response) :=
  let provider := ar_provider rq in
  match registry !! provider with
  | None => _ ← denyLogin "unknown" codeUnknownProvider; mret (s, HttpError "unknown provider" 404)
  | Some client =>
      let mode := if bool_decide (ar_mode rq = EmptyString) then "login" else ar_mode rq in
      if negb (bool_decide (mode = "login")) && negb (bool_decide (mode = "link"))
      then mret (s, HttpError "invalid mode" 400) else
      if negb (requireSafeMethod (ar_method rq)) then mret (s, HttpError "invalid method" 405) else
      if bool_decide (mode = "link") && bool_decide (Session_User s = None)
      then mret (s, HttpError "sign in required to link an identity" 401) else
      state ← draw 24;
      verifier ← upstream (idp_NewVerifier client);
      nonce ← upstream (idp_NewNonce client);
      let returnTo := RelativePath (ar_return_to rq) in
      let s := putFlow state provider mode returnTo verifier nonce s in
      authURL ← try (upstream (idp_AuthCodeURL client state verifier nonce));
      match authURL with
      | Err _ => failLogin provider returnTo codeProviderUnavailable s
      | Ok authURL => mret (s, HttpRedirect authURL 302)
      end
  end.

Definition clearFlow (s : S) : S := foldl (λ s k, scs_Remove k s) s flowKeys.

(** The callback of a link. *)
Definition finishLink (provider returnTo : string) (ident : IdpIdentity) (s : S) : go W (S * response) :=
  match Session_User s with
  | None => failLogin provider returnTo codeNotSignedIn s
  | Some user =>
      r ← linkIdentity user ident;
      match r with
      | Err err =>
          let detail := if errors_Is err ErrIdentityTaken then codeIdentityTaken else codeLinkFailed in
          _ ← observeLogin provider codeLinkFailed;
          _ ← recordAuth "auth.login" provider EmptyString (outcomeFor detail) detail;
          mret (s, redirectError returnTo codeLinkFailed)
      | Ok _ =>
          _ ← observeLogin provider "success";
          _ ← recordAuth "auth.identity.link" provider user OutcomeOK EmptyString;
          mret (s, HttpRedirect returnTo 303)
      end
  end.

(** The account of an identity that signs in: found, or created, or found after
    the creation lost to another one; [inl] is the code of a failure. *)
Definition resolveUser (provider : string) (ident : IdpIdentity) : go W (string + string) :=
  r ← findByIdentity (ip_Provider ident) (ip_Subject ident);
  match r with
  | Err err =>
      if errors_Is err ErrAccountNotFound then
        c ← createWithIdentity ident;
        match c with
        | Err _ =>
            e ← findByIdentity (ip_Provider ident) (ip_Subject ident);
            match e with
            | Err _ => mret (inl codeSignupFailed)
            | Ok existing => mret (inr existing)
            end
        | Ok (created, _) =>
            _ ← recordAuth "auth.signup" provider (us_ID created) OutcomeOK EmptyString;
            mret (inr (us_ID created))
        end
      else mret (inl codeLookupFailed)
  | Ok user => _ ← touchLogin (ip_Provider ident) (ip_Subject ident); mret (inr user)
  end.

(** The callback of a sign-in. *)
Definition finishLogin (provider returnTo : string) (ident : IdpIdentity) (s : S) : go W (S * response) :=
  u ← resolveUser provider ident;
  match u with
  | inl c => failLogin provider returnTo c s
  | inr user =>
      '(s, err) ← signIn user s;
      match err with
      | Some _ => failLogin provider returnTo codeSessionFailed s
      | None =>
          _ ← observeLogin provider "success";
          _ ← recordAuth "auth.login" provider user OutcomeOK EmptyString;
          mret (s, HttpRedirect returnTo 303)
      end
  end.

Definition handleCallback (rq : AuthRequest) (s : S) : go W (S * response) :=
  let provider := ar_provider rq in
  match registry !! provider with
  | None => _ ← denyLogin "unknown" codeUnknownProvider; mret (s, HttpError "unknown provider" 404)
  | Some client =>
      let want := scs_GetString keyFlowState s in
      if bool_decide (want = EmptyString) || negb (bool_decide (ar_state rq = want))
      then _ ← denyLogin provider codeInvalidState; mret (s, HttpError "invalid state" 400) else
      let mode := scs_GetString keyFlowMode s in
      let returnTo := RelativePath (scs_GetString keyFlowReturnTo s) in
      let verifier := scs_GetString keyFlowVerifier s in
      let nonce := scs_GetString keyFlowNonce s in
      let flowProvider := scs_GetString keyFlowProvider s in
      if negb (bool_decide (flowProvider = provider))
      then _ ← denyLogin provider codeProviderMismatch; mret (s, HttpError "provider mismatch" 400) else
      let s := clearFlow s in
      if negb (bool_decide (ar_error rq = EmptyString)) then failLogin provider returnTo codeAccessDenied s else
      if bool_decide (ar_code rq = EmptyString) then failLogin provider returnTo codeInvalidRequest s else
      token ← try (upstream (idp_Exchange client (ar_code rq) verifier));
      match token with
      | Err _ => failLogin provider returnTo codeExchangeFailed s
      | Ok token =>
          ident ← try (upstream (idp_Identity client token nonce));
          match ident with
          | Err _ => failLogin provider returnTo codeIdentityFailed s
          | Ok ident =>
              if bool_decide (mode = "link") then finishLink provider returnTo ident s
              else finishLogin provider returnTo ident s
          end
      end
  end.
End handlers.
