(* ===== verification/LoginProps.v ===== *)
(** * What the login plane promises

    A forged callback changes nothing, a callback spends its flow and signs the
    browser in to the account that owns the identity, whatever other requests do
    meanwhile. *)

From S2P Require Import Prelude GoStd Proc Rely AuditLog SafeUrl Session SessionProps Account Login.

(** ** The account store under logins *)

Section accounts.
Context `{Entropy}.

(** The generator does not repeat itself. *)
Definition apart : Prop := ∀ n m x, rand_read n 16 = Some x → rand_read m 16 = Some x → n = m.

(** The store is well formed, nobody is called the empty string, and no id drawn
    from now on is in use. *)
Record login_inv (a : MemoryAccounts) (n : nat) : Prop := {
  li_wf : accounts_wf a;
  li_named : ma_users a !! EmptyString = None;
  li_fresh m : n ≤ m → fresh_user m a ∧ fresh_identity m a;
}.

Definition grows (a a' : MemoryAccounts) : Prop := ∀ k u, owners a !! k = Some u → owners a' !! k = Some u.

Lemma owner_named a n k u : login_inv a n → owners a !! k = Some u → u ≠ EmptyString.
Proof.
  intros Hi Hk ->. assert (is_Some (ma_users a !! EmptyString)) as [x Hx]; [|by rewrite (li_named _ _ Hi) in Hx].
  apply user_owns; [apply Hi|eauto].
Qed.

Lemma NewUserID_inj : apart → ∀ n m x, (NewUserID n).2 = Some x → (NewUserID m).2 = Some x → n = m.
Proof.
  intros Hap n m x. unfold NewUserID, randomHex. destruct (rand_read n 16) as [a|] eqn:Ea, (rand_read m 16) as [b|] eqn:Eb; simpl; try done.
  intros [= <-] [= Hb]. apply hex_EncodeToString_inj in Hb as ->. by eapply Hap.
Qed.
Lemma NewIdentityID_inj : apart → ∀ n m x, (NewIdentityID n).2 = Some x → (NewIdentityID m).2 = Some x → n = m.
Proof.
  intros Hap n m x. unfold NewIdentityID, randomHex. destruct (rand_read n 16) as [a|] eqn:Ea, (rand_read m 16) as [b|] eqn:Eb; simpl; try done.
  intros [= <-] [= Hb]. apply hex_EncodeToString_inj in Hb as ->. by eapply Hap.
Qed.

Lemma login_inv_later a n m : login_inv a n → n ≤ m → login_inv a m.
Proof. intros [H1 H2 H3] Hm. split; [done..|]. intros k Hk. apply H3. lia. Qed.

Lemma create_inv (Hap : apart) now n i a :
  login_inv a n →
  let '(a', n', r) := CreateWithIdentity now n i a in
  login_inv a' n' ∧ grows a a' ∧
  match r with
  | Some (Ok (u, _)) => us_ID u ≠ EmptyString ∧ owners a' !! idp_key i = Some (us_ID u) ∧ owners a !! idp_key i = None
  | Some (Err _) => Idp_Validate i = None → is_Some (owners a !! idp_key i) ∧ a' = a
  | None => a' = a
  end.
Proof.
  intros Hi. pose proof (li_wf _ _ Hi) as Hw.
  assert (Hlater : ∀ m, n ≤ m → login_inv a m ∧ grows a a) by (intros m Hm; split; [by eapply login_inv_later|by intros ?]).
  unfold CreateWithIdentity. destruct (Idp_Validate i) as [e|]; [destruct (Hlater n); [lia|by split_and!]|].
  destruct (ma_byKey a !! _) as [id|] eqn:Hk.
  { destruct (Hlater n); [lia|]. split_and!; [done..|]. intros _. split; [|done]. unfold idp_key.
    destruct (proj1 (iw_keys a (aw_index a Hw) _ _) Hk) as (j & Hj & Hkj). exists (li_User j). apply owners_Some; [apply Hw|]. eauto 6. }
  destruct (NewUserID n) as [n1 [uid|]] eqn:En; assert (n1 = S n) as -> by (by injection En); [|destruct (Hlater (S n)); [lia|by split_and!]].
  destruct (NewIdentityID (S n)) as [n2 [iid|]] eqn:En2; assert (n2 = S (S n)) as -> by (by injection En2); [|destruct (Hlater (S (S n))); [lia|by split_and!]].
  destruct (li_fresh _ _ Hi n) as [Hfu _]; [lia|]. destruct (li_fresh _ _ Hi (S n)) as [_ Hfi]; [lia|].
  specialize (Hfu uid). specialize (Hfi iid). rewrite En in Hfu. rewrite En2 in Hfi. specialize (Hfu eq_refl). specialize (Hfi eq_refl).
  assert (Hne : uid ≠ EmptyString).
  { unfold NewUserID, randomHex in En. destruct (rand_read n 16); simpl in En; [|done]. injection En as <-. done. }
  assert (Hown : owners (add_identity (link iid uid i now now)
      (mkAccounts (<[uid := mkUser uid iid now]> (ma_users a)) (ma_identities a) (ma_byKey a) (ma_byUser a))) = <[idp_key i := uid]> (owners a)).
  { rewrite owners_add; [done| |done|done]. by destruct (aw_index _ Hw). }
  assert (Hnone : owners a !! idp_key i = None) by by apply owners_None.
  split_and!; [split|..].
  - by apply accounts_wf_create.
  - simpl. rewrite lookup_insert_ne by done. apply Hi.
  - intros m Hm. destruct (li_fresh _ _ Hi m) as [Hfum Hfim]; [lia|]. split; simpl.
    + intros x Hx. simpl. rewrite lookup_insert_ne; [by apply Hfum|]. intros <-.
      assert (n = m); [|lia]. eapply NewUserID_inj; [done| |exact Hx]. by rewrite En.
    + intros x Hx. simpl. rewrite lookup_insert_ne; [by apply Hfim|]. intros <-.
      assert (S n = m); [|lia]. eapply NewIdentityID_inj; [done| |exact Hx]. by rewrite En2.
  - intros k u Hku. rewrite Hown. rewrite lookup_insert_ne by congruence. done.
  - done.
  - rewrite Hown. apply lookup_insert_eq.
  - done.
Qed.

Lemma link_inv (Hap : apart) now n user i a :
  login_inv a n →
  let '(a', n', r) := LinkIdentity now n user i a in
  login_inv a' n' ∧ grows a a' ∧
  match r with
  | Some (Ok _) => owners a' !! idp_key i = Some user
  | _ => a' = a
  end.
Proof.
  intros Hi. pose proof (li_wf _ _ Hi) as Hw.
  assert (Hlater : ∀ m, n ≤ m → login_inv a m ∧ grows a a) by (intros m Hm; split; [by eapply login_inv_later|by intros ?]).
  unfold LinkIdentity. destruct (Idp_Validate i) as [e|]; [destruct (Hlater n); [lia|by split_and!]|].
  destruct (ma_users a !! user) as [x|] eqn:Hu; [|destruct (Hlater n); [lia|by split_and!]].
  destruct (ma_byKey a !! _) as [id|] eqn:Hk.
  { destruct (Hlater n); [lia|]. destruct (proj1 (iw_keys a (aw_index a Hw) _ _) Hk) as (j & Hj & Hkj). rewrite Hj. simpl.
    case_bool_decide as E; [|by split_and!]. split_and!; [done..|]. apply owners_Some; [apply Hw|]. eauto 6. }
  destruct (NewIdentityID n) as [n2 [iid|]] eqn:En2; assert (n2 = S n) as -> by (by injection En2); [|destruct (Hlater (S n)); [lia|by split_and!]].
  destruct (li_fresh _ _ Hi n) as [_ Hfi]; [lia|]. specialize (Hfi iid). rewrite En2 in Hfi. specialize (Hfi eq_refl).
  assert (Hnone : owners a !! idp_key i = None) by by apply owners_None.
  assert (Hown : owners (add_identity (link iid user i now 0) a) = <[idp_key i := user]> (owners a)) by (rewrite owners_add; [done|apply Hw|done|done]).
  split_and!; [split|..].
  - apply accounts_wf_link; simpl; eauto.
  - apply Hi.
  - intros m Hm. destruct (li_fresh _ _ Hi m) as [Hfum Hfim]; [lia|]. split; [done|].
    intros y Hy. simpl. rewrite lookup_insert_ne; [by apply Hfim|]. intros <-.
    assert (n = m); [|lia]. eapply NewIdentityID_inj; [done| |exact Hy]. by rewrite En2.
  - intros k u Hku. rewrite Hown. rewrite lookup_insert_ne by congruence. done.
  - rewrite Hown. apply lookup_insert_eq.
Qed.

Lemma touch_inv now n p sub a : login_inv a n → login_inv (TouchLogin now p sub a).1 n ∧ grows a (TouchLogin now p sub a).1.
Proof.
  intros Hi. destruct (TouchLogin_spec now p sub a (li_wf _ _ Hi)) as [Hw Ho]. split; [|intros k u; by rewrite Ho].
  assert (Hu : ma_users (TouchLogin now p sub a).1 = ma_users a) by (unfold TouchLogin; by destruct (_ !! _)).
  split; [done|by rewrite Hu; apply Hi|]. intros m Hm. destruct (li_fresh _ _ Hi m Hm) as [Hfu Hfi]. split.
  - intros x Hx. rewrite Hu. by apply Hfu.
  - intros x Hx. specialize (Hfi x Hx). unfold TouchLogin. destruct (_ !! (p, sub)) as [id|] eqn:Hk; [|done]. simpl.
    destruct (proj1 (iw_keys a (aw_index a (li_wf _ _ Hi)) _ _) Hk) as (j & Hj & _).
    rewrite lookup_insert_ne; [done|]. intros ->. congruence.
Qed.
End accounts.

(** ** Requests of the login plane *)

Section plane.
Context `{Platform} `{Entropy} `{TimeTextOk} {S I Lg U C T : Type} `{ScsOk S} `{SessionIndexOk I} `{Logger Lg} `{IdpClientOk U C T}.
Context (registry : gmap string C).
Abbreviation W := (LWorld I Lg U).
Implicit Types (w : W) (s : S).

#[local] Instance up_lens : Lens (@lw_up I Lg U) set_up.
Proof. split; intros; by destruct w. Qed.

Inductive lrequest :=
| LStart (rq : AuthRequest) (s : S)
| LCallback (rq : AuthRequest) (s : S)
| LReauth (rq : AuthRequest) (s : S)
| LTick (d : Z).

(** Time passes like the others take their turns. *)
Definition serve (rq : lrequest) : go W (S * response) :=
  match rq with
  | LStart rq s => handleStart registry rq s
  | LCallback rq s => handleCallback registry rq s
  | LReauth rq s => handleReauth registry rq s
  | LTick d => _ ← modify (λ w, mkLWorld (lw_accounts w) (lw_index w) (lw_log w) (lw_logins w) (lw_up w) (lw_now w + d)%Z (lw_rand w));
               throw (New "tick")
  end.

(** *** What every request respects *)

Definition winv w : Prop := login_inv (lw_accounts w) (lw_rand w) ∧ idp_inv (lw_up w).
Definition onwards w w' : Prop := grows (lw_accounts w) (lw_accounts w').

#[export] Instance onwards_preorder : PreOrder onwards.
Proof. split; [by intros w k u|]. intros w1 w2 w3 H12 H23 k u Hk. by apply H23, H12. Qed.

Definition orderly {A} (p : proc W A) (Q : A → Prop) : Prop := guar winv onwards p Q.

Lemma orderly_ret {A} (a : A) (Q : A → Prop) : Q a → orderly (Ret a) Q.
Proof. done. Qed.
Lemma orderly_bind {A B} (p : go W A) (f : A → go W B) :
  orderly p (λ _, True) → (∀ a, orderly (f a) (λ _, True)) → orderly (mbind (M:=go W) f p) (λ _, True).
Proof. intros Hp Hf. by eapply guar_bind; [exact Hp|intros a _; apply Hf|]. Qed.
Lemma orderly_try {A} (p : go W A) : orderly p (λ _, True) → orderly (try p) (λ _, True).
Proof. intros Hp. by eapply guar_try. Qed.

(** An action that leaves the accounts and the providers alone. *)
Lemma orderly_same {A} (f : W → W * A) :
  (∀ w, lw_accounts (f w).1 = lw_accounts w ∧ lw_up (f w).1 = lw_up w ∧ lw_rand w ≤ lw_rand (f w).1) → orderly (atomic f) (λ _, True).
Proof.
  intros Hf. apply guar_atomic. intros w [Hw Hu]. destruct (Hf w) as (Ha & Hup & Hr). unfold winv, onwards. rewrite Ha, Hup.
  split_and!; [by eapply login_inv_later|done|by intros k u|done].
Qed.
Lemma orderly_upstream {A} (p : go U A) (Q : result A → Prop) : guar idp_inv (λ _ _, True) p Q → orderly (upstream p) Q.
Proof.
  intros Hp. unfold upstream, orderly. induction p as [a|B act k IH]; simpl in *; [done|].
  intros w w' b [Hw Hu] Ha. destruct (act (lw_up w)) as [[v b']|] eqn:E; [|done]. injection Ha as <- <-.
  destruct (Hp _ _ _ Hu E) as (Hv & _ & Hk). split_and!; [by split|by intros k' u|by apply IH].
Qed.
Lemma orderly_upstream_any {A} (p : go U A) Q : guar idp_inv (λ _ _, True) p Q → orderly (upstream p) (λ _, True).
Proof. intros Hp. apply orderly_upstream. by eapply guar_mono. Qed.

(** The writes of the account store. *)
Context (Hap : apart) (Hknown : ∀ p c, registry !! p = Some c → idp_known c).

Lemma orderly_or_panic {A} (r : option A) : orderly (or_panic r) (λ _, True).
Proof. by destruct r. Qed.
Lemma orderly_create i : orderly (createWithIdentity i) (λ _, True).
Proof.
  unfold createWithIdentity. apply orderly_bind; [|apply orderly_or_panic]. apply guar_atomic. intros w [Hw Hu].
  pose proof (create_inv Hap (lw_now w) (lw_rand w) i (lw_accounts w) Hw) as Hc.
  destruct (CreateWithIdentity _ _ _ _) as [[a n] r]. by destruct Hc as (? & ? & _).
Qed.
Lemma orderly_link user i : orderly (linkIdentity user i) (λ _, True).
Proof.
  unfold linkIdentity. apply orderly_bind; [|apply orderly_or_panic]. apply guar_atomic. intros w [Hw Hu].
  pose proof (link_inv Hap (lw_now w) (lw_rand w) user i (lw_accounts w) Hw) as Hc.
  destruct (LinkIdentity _ _ _ _ _) as [[a n] r]. by destruct Hc as (? & ? & _).
Qed.
Lemma orderly_touch p sub : orderly (touchLogin p sub) (λ _, True).
Proof. apply guar_atomic. intros w [Hw Hu]. destruct (touch_inv (lw_now w) (lw_rand w) p sub _ Hw). by split_and!. Qed.

(** Takes a handler apart. *)
Ltac orderly_tac :=
  repeat match goal with
  | |- orderly (mbind _ _) _ => apply orderly_bind; [|intros ?]
  | |- orderly (try _) _ => apply orderly_try
  | |- orderly (upstream _) _ => eapply orderly_upstream_any;
      (first [apply idp_verifier|apply idp_nonce|apply idp_url|apply idp_exchanged|apply idp_identified]; by eapply Hknown)
  | |- orderly (createWithIdentity _) _ => apply orderly_create
  | |- orderly (linkIdentity _ _) _ => apply orderly_link
  | |- orderly (touchLogin _ _) _ => apply orderly_touch
  | |- orderly (or_panic _) _ => apply orderly_or_panic
  | |- orderly (mret _) _ => apply orderly_ret; exact Logic.I
  | |- orderly (throw _) _ => apply orderly_ret; exact Logic.I
  | |- orderly (match ?x with _ => _ end) _ => destruct x
  | |- orderly (atomic _) _ => apply orderly_same; intros w; simpl; split_and!; [| |lia]; repeat case_match; reflexivity
  end.

Lemma orderly_observe p r : orderly (observeLogin p r) (λ _, True).
Proof. apply orderly_same. intros w. simpl. split_and!; [done|done|lia]. Qed.
Lemma orderly_record a p sub o c : orderly (recordAuth a p sub o c) (λ _, True).
Proof. apply orderly_same. intros w. simpl. split_and!; [done|done|lia]. Qed.
Lemma orderly_fail p r c s : orderly (failLogin p r c s) (λ _, True).
Proof. unfold failLogin. orderly_tac; [apply orderly_observe|apply orderly_record]. Qed.
Lemma orderly_deny p c : orderly (denyLogin p c) (λ _, True).
Proof. unfold denyLogin. orderly_tac; [apply orderly_observe|apply orderly_record]. Qed.
Lemma orderly_signIn user s : orderly (signIn user s) (λ _, True).
Proof.
  unfold signIn, modify, reads. orderly_tac. apply orderly_same. intros w. destruct (remember _ _ _) as [[? ?] ?]. simpl. split_and!; [done|done|lia].
Qed.
Lemma orderly_resolve p i : orderly (resolveUser p i) (λ _, True).
Proof. unfold resolveUser, findByIdentity, reads. orderly_tac. apply orderly_record. Qed.
Lemma orderly_finishLogin p r i s : orderly (finishLogin p r i s) (λ _, True).
Proof.
  unfold finishLogin. apply orderly_bind; [apply orderly_resolve|]. intros [c|u]; [apply orderly_fail|].
  apply orderly_bind; [apply orderly_signIn|]. intros [s' [e|]]; [apply orderly_fail|].
  orderly_tac; [apply orderly_observe|apply orderly_record].
Qed.
Lemma orderly_finishLink p r i s : orderly (finishLink p r i s) (λ _, True).
Proof.
  unfold finishLink. destruct (Session_User s) as [u|]; [|apply orderly_fail]. orderly_tac;
    first [apply orderly_observe|apply orderly_record].
Qed.

Lemma orderly_serve rq : orderly (serve rq) (λ _, True).
Proof.
  destruct rq as [rq s|rq s|rq s|d]; cbn [serve].
  - unfold handleStart, draw. destruct (registry !! _) as [c|] eqn:Hc; [|orderly_tac; apply orderly_deny]. cbv zeta.
    orderly_tac. apply orderly_fail.
  - unfold handleCallback. destruct (registry !! _) as [c|] eqn:Hc; [|orderly_tac; apply orderly_deny]. cbv zeta.
    orderly_tac; first [apply orderly_deny|apply orderly_fail|apply orderly_finishLink|apply orderly_finishLogin].
  - unfold handleReauth, reads. orderly_tac.
  - unfold modify. orderly_tac.
Qed.

(** *** What a login finds *)

Definition owner w (i : IdpIdentity) : option string := owners (lw_accounts w) !! idp_key i.

Lemma owner_later w w' i u : onwards w w' → owner w i = Some u → owner w' i = Some u.
Proof. intros Ho. apply Ho. Qed.

(** A process that is orderly, with what it says of its result. *)
Lemma rely_orderly {A} (p : go W A) w (Q : W → result A → Prop) :
  orderly p (λ _, True) → rely winv onwards p w Q → rely winv onwards p w (λ w1 r, winv w1 ∧ onwards w w1 ∧ Q w1 r).
Proof. intros Hg Hp. by apply (rely_since winv onwards p w w); [reflexivity|..]. Qed.
Lemma rely_plain {A} (p : go W A) w : orderly p (λ _, True) → rely winv onwards p w (λ w1 _, winv w1 ∧ onwards w w1).
Proof.
  intros Hg. eapply rely_mono; [apply (rely_orderly p w (λ _ _, True) Hg), (rely_guar winv onwards p w (λ _, True) Hg)|].
  naive_solver.
Qed.

Lemma rely_find w i :
  rely winv onwards (findByIdentity (ip_Provider i) (ip_Subject i)) w (λ w1 r, winv w1 ∧ onwards w w1 ∧
    match r with Ok (Ok u) => owner w1 i = Some u | Ok (Err e) => e = ErrAccountNotFound ∧ owner w i = None | Err _ => False end).
Proof.
  apply rely_atomic. intros w1 w2 [Hw1 Hu1] Ho1 Hw2 Ho2.
  split; [done|]. split; [by transitivity w1|]. cbn [snd]. rewrite FindByIdentity_owners by apply Hw1.
  unfold owner, idp_key in *. destruct (owners (lw_accounts w1) !! (ip_Provider i, ip_Subject i)) as [u|] eqn:E; [by apply Ho2|].
  split; [done|]. apply eq_None_not_Some. intros [u Hu]. apply Ho1 in Hu. congruence.
Qed.

Lemma rely_create w i : Idp_Validate i = None →
  rely winv onwards (createWithIdentity i) w (λ w1 r,
    match r with Ok (Ok (u, _)) => owner w1 i = Some (us_ID u) | Ok (Err _) => is_Some (owner w1 i) | Err _ => True end).
Proof.
  intros Hv. unfold createWithIdentity.
  eapply (rely_bind winv onwards _ _ _ (λ w1 r,
    match r with Ok (Some (Ok (u, _))) => owner w1 i = Some (us_ID u) | Ok (Some (Err _)) => is_Some (owner w1 i) | _ => True end)).
  - apply rely_atomic. intros w1 w2 [Hw1 _] _ _ Ho2.
    pose proof (create_inv Hap (lw_now w1) (lw_rand w1) i (lw_accounts w1) Hw1) as Hc.
    destruct (CreateWithIdentity _ _ _ _) as [[a n] r]. cbn [fst snd] in *. destruct Hc as (Hi & _ & Hr).
    destruct r as [[[u l]|e]|]; [|destruct (Hr Hv) as [[u Hu] ->]|done].
    + apply Ho2. by destruct Hr as (_ & ? & _).
    + exists u. by apply Ho2.
  - intros w1 [r|] Hr; simpl; intros w2 _ Ho; [|done].
    destruct r as [[u l]|e]; [by apply Ho|]. destruct Hr as [u Hu]. exists u. by apply Ho.
  - done.
Qed.

(** The account of an identity, among any other requests. *)
Lemma rely_resolve w p i : Idp_Validate i = None →
  rely winv onwards (resolveUser p i) w (λ w1 r, ∀ x, r = Ok x → ∃ u, x = inr u ∧ winv w1 ∧ owner w1 i = Some u).
Proof.
  intros Hv. unfold resolveUser.
  eapply (rely_bind winv onwards); [by apply rely_find| |by intros w1 e (_ & _ & [])]. intros w1 [u|e] (_ & _ & Hr).
  - eapply (rely_bind winv onwards); [apply (rely_plain _ w1), orderly_touch| |done]. intros w2 [] [_ Ho2].
    intros w3 Hw3 Ho3 x [= <-]. exists u. split_and!; [done|done|]. by do 2 (eapply owner_later; [eassumption|]).
  - destruct Hr as [-> _]. change (errors_Is ErrAccountNotFound ErrAccountNotFound) with true. cbv iota.
    eapply (rely_bind winv onwards); [by apply rely_create| |done]. intros w2 [[u l]|e] Hr.
    + eapply (rely_bind winv onwards); [apply (rely_plain _ w2), orderly_record| |done]. intros w3 [] [_ Ho3].
      intros w4 Hw4 Ho4 x [= <-]. exists (us_ID u). split_and!; [done|done|]. by do 2 (eapply owner_later; [eassumption|]).
    + eapply (rely_bind winv onwards); [by apply rely_find| |by intros w3 e' (_ & _ & [])]. intros w3 [u|e'] (_ & Ho3 & Hr3).
      * intros w4 Hw4 Ho4 x [= <-]. exists u. split_and!; [done|done|]. by eapply owner_later.
      * destruct Hr as [u Hu]. destruct Hr3 as [_ Hn]. congruence.
Qed.

Lemma rely_link w user i :
  rely winv onwards (linkIdentity user i) w (λ w1 r, ∀ l, r = Ok (Ok l) → owner w1 i = Some user).
Proof.
  unfold linkIdentity.
  eapply (rely_bind winv onwards _ _ _ (λ w1 r, ∀ l, r = Ok (Some (Ok l)) → owner w1 i = Some user)).
  - apply rely_atomic. intros w1 w2 [Hw1 _] _ _ Ho2.
    pose proof (link_inv Hap (lw_now w1) (lw_rand w1) user i (lw_accounts w1) Hw1) as Hc.
    destruct (LinkIdentity _ _ _ _ _) as [[a n] r]. cbn [fst snd] in *. destruct Hc as (Hi & _ & Hr).
    intros l [= ->]. by apply Ho2.
  - intros w1 [r|] Hr; simpl; intros w2 _ Ho; [|done]. intros l [= ->]. by eapply Ho, Hr.
  - done.
Qed.

(** The session of the account, its other values kept. *)
Definition signed_as (user : string) s s' : Prop :=
  Session_User s' = Some user ∧ ∀ k, k ≠ keyUser → k ≠ keyAuthTime → scs_GetString k s' = scs_GetString k s.
Definition undone (user : string) s s' : Prop := ∃ s1, signed_as user s s1 ∧ taken_back s1 s'.

Lemma put_user_signed now user s : user ≠ EmptyString →
  signed_as user s (scs_Put keyAuthTime (time_Format now) (scs_Put keyUser user s)).
Proof.
  intros Hu. split.
  - unfold Session_User. by rewrite scs_put_ne, scs_put_eq, bool_decide_false.
  - intros k Hk Hk'. by rewrite !scs_put_ne.
Qed.
Lemma rely_signIn w user s : user ≠ EmptyString →
  rely winv onwards (signIn user s) w (λ _ r, ∀ s' err, r = Ok (s', err) →
    match err with None => signed_as user s s' | Some _ => undone user s s' end).
Proof.
  intros Hu. unfold signIn.
  eapply (rely_bind winv onwards); [apply (rely_plain _ w), orderly_same; intros; simpl; split_and!; [done|done|lia]| |by intros].
  intros w1 [] _.
  eapply (rely_bind winv onwards); [apply (rely_plain _ w1), orderly_same; intros; simpl; split_and!; [done|done|lia]| |by intros].
  intros w2 now _. destruct (renew now user s) as [s1 [e|]] eqn:Hr.
  { intros w3 _ _ s' err [= <- <-]. eexists. split; [by apply (put_user_signed now)|]. left. by eapply renew_failed. }
  assert (Hs1 : signed_as user s s1).
  { destruct (renew_values _ _ _ _ Hr) as (Hv1 & _ & Hv3 & _). split; [|done]. unfold Session_User. by rewrite Hv1, bool_decide_false. }
  apply rely_atomic. intros w3 w4 _ _ _ _ s' err.
  destruct (remember user s1 (lw_index w3)) as [[s2 ix] err'] eqn:Hm. cbn [snd]. intros [= <- <-]. destruct err' as [e|].
  - exists s1. split; [done|]. by eapply remember_failed.
  - by destruct (remember_kept _ _ _ _ _ Hm) as [-> _].
Qed.

(** A failure answers the browser with its code. *)
Lemma orderly_modify (f : W → W) :
  (∀ w, lw_accounts (f w) = lw_accounts w ∧ lw_up (f w) = lw_up w ∧ lw_rand (f w) = lw_rand w) → orderly (modify f) (λ r, r = Ok tt).
Proof.
  intros Hf. apply guar_atomic. intros w [Hw Hu]. destruct (Hf w) as (Ha & Hup & Hr). unfold winv, onwards. simpl. rewrite Ha, Hup, Hr.
  split_and!; [done|done|by intros k u|done].
Qed.
Lemma orderly_fail_result p r c s : orderly (failLogin p r c s) (λ x, x = Ok (s, redirectError r c)).
Proof.
  unfold failLogin. eapply guar_bind; [by apply orderly_modify|intros _ _|by intros].
  by eapply guar_bind; [by apply orderly_modify|intros _ _|by intros].
Qed.

Lemma rely_finishLogin w p r i s : Idp_Validate i = None →
  rely winv onwards (finishLogin p r i s) w (λ w1 x, ∀ s' resp, x = Ok (s', resp) →
    ∃ user, owner w1 i = Some user ∧
      (resp = HttpRedirect r 303 ∧ signed_as user s s' ∨ resp = redirectError r codeSessionFailed ∧ undone user s s')).
Proof.
  intros Hv. unfold finishLogin.
  eapply (rely_bind winv onwards); [by apply rely_resolve| |by intros]. intros w1 x Hx. destruct (Hx x eq_refl) as (user & -> & [Hw1 _] & Hown).
  assert (Hne : user ≠ EmptyString) by by eapply owner_named.
  eapply (rely_bind winv onwards); [eapply (rely_orderly _ w1); [apply orderly_signIn|by apply rely_signIn]| |by intros].
  intros w2 [s2 err] (_ & Ho2 & Hs2). specialize (Hs2 s2 err eq_refl). destruct err as [e|].
  - eapply rely_mono; [apply (rely_orderly _ w2), (rely_guar winv onwards), orderly_fail_result|].
    { eapply guar_mono; [apply orderly_fail_result|done]. }
    intros w3 a (_ & Ho3 & ->) s' resp [= <- <-]. exists user. split; [|by right]. by do 2 (eapply owner_later; [eassumption|]).
  - eapply (rely_bind winv onwards); [apply (rely_plain _ w2), orderly_observe| |by intros]. intros w3 [] [_ Ho3].
    eapply (rely_bind winv onwards); [apply (rely_plain _ w3), orderly_record| |by intros]. intros w4 [] [_ Ho4].
    intros w5 _ Ho5 s' resp [= <- <-]. exists user. split; [|by left]. by do 4 (eapply owner_later; [eassumption|]).
Qed.

Lemma rely_finishLink w p r i s :
  rely winv onwards (finishLink p r i s) w (λ w1 x, ∀ s' resp, x = Ok (s', resp) → s' = s ∧
    (resp = redirectError r codeNotSignedIn ∨ resp = redirectError r codeLinkFailed ∨
     ∃ user, resp = HttpRedirect r 303 ∧ Session_User s = Some user ∧ owner w1 i = Some user)).
Proof.
  unfold finishLink. destruct (Session_User s) as [user|].
  - eapply (rely_bind winv onwards); [by apply rely_link| |by intros]. intros w1 [l|e] Hl; cbv zeta;
      (eapply (rely_bind winv onwards); [apply (rely_plain _ w1), orderly_observe| |by intros]); intros w3 [] [_ Ho3];
      (eapply (rely_bind winv onwards); [apply (rely_plain _ w3), orderly_record| |by intros]); intros w4 [] [_ Ho4];
      intros w5 _ Ho5 s' resp [= <- <-]; (split; [done|]); [|auto].
    do 2 right. exists user. split_and!; try done. specialize (Hl l eq_refl). by do 3 (eapply owner_later; [eassumption|]).
  - eapply rely_mono; [apply (rely_guar winv onwards), orderly_fail_result|]. intros w3 a -> s' resp [= <- <-]. auto.
Qed.

(** *** The callback *)

Lemma clearFlow_get s k : scs_GetString k (clearFlow s) = if bool_decide (k ∈ flowKeys) then EmptyString else scs_GetString k s.
Proof.
  unfold clearFlow. generalize flowKeys. intros l. revert s. induction l as [|k' l IH]; intros s; [done|]. simpl. rewrite IH.
  destruct (decide (k ∈ l)) as [Hk|Hk].
  - rewrite !bool_decide_true; [done|by right|done].
  - rewrite (bool_decide_false _ Hk). destruct (decide (k = k')) as [->|Hne].
    + rewrite bool_decide_true by left. apply scs_remove_eq.
    + rewrite bool_decide_false by set_solver. by apply scs_remove_ne.
Qed.
Lemma session_keys : (keyUser ∉ flowKeys) ∧ (keyAuthTime ∉ flowKeys).
Proof. split; apply (bool_decide_unpack _); vm_compute; exact Logic.I. Qed.
Lemma clearFlow_user s : Session_User (clearFlow s) = Session_User s.
Proof. unfold Session_User. rewrite clearFlow_get. reflexivity. Qed.

(** A callback that is not of the flow this session has pending. *)
Definition forged (rq : AuthRequest) s : bool :=
  bool_decide (scs_GetString keyFlowState s = EmptyString) ||
  negb (bool_decide (ar_state rq = scs_GetString keyFlowState s)) ||
  negb (bool_decide (scs_GetString keyFlowProvider s = ar_provider rq)).

(** The failures of a callback that leave the session as it was. *)
Definition early_codes : list string :=
  [codeAccessDenied; codeInvalidRequest; codeExchangeFailed; codeIdentityFailed; codeNotSignedIn; codeLinkFailed].

(** How the callback of the pending flow ends. *)
Definition spent s : Prop := ∀ k, k ∈ flowKeys → scs_GetString k s = EmptyString.
Definition settled (client : C) (rq : AuthRequest) s w (x : result (S * response)) : Prop :=
  ∀ s' resp, x = Ok (s', resp) →
  let returnTo := RelativePath (scs_GetString keyFlowReturnTo s) in
  (spent s' ∧ ∃ c, c ∈ early_codes ∧ resp = redirectError returnTo c ∧ Session_User s' = Session_User s) ∨
  ∃ token ident user,
    idp_issued client (ar_code rq) (scs_GetString keyFlowVerifier s) token ∧
    idp_attested client token (scs_GetString keyFlowNonce s) ident ∧ owner w ident = Some user ∧
    (spent s' ∧ resp = HttpRedirect returnTo 303 ∧ Session_User s' = Some user ∧
       (scs_GetString keyFlowMode s = "link" → Session_User s = Some user) ∨
     resp = redirectError returnTo codeSessionFailed ∧ scs_GetString keyFlowMode s ≠ "link" ∧
       ∃ s1, spent s1 ∧ Session_User s1 = Some user ∧ taken_back s1 s').

Definition callback_ok (rq : AuthRequest) s w (x : result (S * response)) : Prop :=
  match registry !! ar_provider rq with
  | None => x = Ok (s, HttpError "unknown provider" 404)
  | Some client =>
      if forged rq s then ∃ msg, x = Ok (s, HttpError msg 400)
      else settled client rq s w x
  end.

Lemma orderly_deny_result p c s msg st :
  orderly ((_ ← denyLogin p c; mret (s, HttpError msg st)) : go W (S * response)) (λ x, x = Ok (s, HttpError msg st)).
Proof.
  eapply (guar_bind _ _ _ _ (λ r, r = Ok tt)); [|done|by intros]. unfold denyLogin.
  eapply guar_bind; [by apply orderly_modify|intros _ _; by apply orderly_modify|by intros].
Qed.

(** The part after the flow is spent. *)
Lemma rely_early w p r c s (Q : W → result (S * response) → Prop) :
  (∀ w1, Q w1 (Ok (s, redirectError r c))) → rely winv onwards (failLogin p r c s) w Q.
Proof. intros HQ. eapply rely_mono; [apply (rely_guar winv onwards), orderly_fail_result|]. intros w1 a ->. apply HQ. Qed.

Lemma clearFlow_spent s : spent (clearFlow s).
Proof. intros k Hk. by rewrite clearFlow_get, bool_decide_true. Qed.
Lemma signed_spent user s s' : signed_as user (clearFlow s) s' → spent s'.
Proof.
  intros [_ Hk] k Hin. rewrite Hk; [by apply clearFlow_spent| |]; intros ->; by apply session_keys in Hin.
Qed.
Lemma settled_early client rq s w c : c ∈ early_codes →
  settled client rq s w (Ok (clearFlow s, redirectError (RelativePath (scs_GetString keyFlowReturnTo s)) c)).
Proof.
  intros Hc s' resp [= <- <-]. left. split; [apply clearFlow_spent|]. exists c. by rewrite clearFlow_user.
Qed.

Lemma settled_link client rq s w token ident x : let r := RelativePath (scs_GetString keyFlowReturnTo s) in
  idp_issued client (ar_code rq) (scs_GetString keyFlowVerifier s) token →
  idp_attested client token (scs_GetString keyFlowNonce s) ident →
  (∀ s' resp, x = Ok (s', resp) → s' = clearFlow s ∧
    (resp = redirectError r codeNotSignedIn ∨ resp = redirectError r codeLinkFailed ∨
     ∃ user, resp = HttpRedirect r 303 ∧ Session_User (clearFlow s) = Some user ∧ owner w ident = Some user)) →
  settled client rq s w x.
Proof.
  intros r Htok Hid Hx s' resp ->. destruct (Hx s' resp eq_refl) as [-> [->|[->|(user & -> & Hu & Ho)]]].
  - eapply (settled_early client rq s w codeNotSignedIn); [set_solver|reflexivity].
  - eapply (settled_early client rq s w codeLinkFailed); [set_solver|reflexivity].
  - rewrite clearFlow_user in Hu. right. exists token, ident, user. split_and!; [done..|]. left.
    rewrite clearFlow_user. split; [apply clearFlow_spent|done].
Qed.
Lemma settled_login client rq s w token ident x : let r := RelativePath (scs_GetString keyFlowReturnTo s) in
  idp_issued client (ar_code rq) (scs_GetString keyFlowVerifier s) token →
  idp_attested client token (scs_GetString keyFlowNonce s) ident → scs_GetString keyFlowMode s ≠ "link" →
  (∀ s' resp, x = Ok (s', resp) → ∃ user, owner w ident = Some user ∧
    (resp = HttpRedirect r 303 ∧ signed_as user (clearFlow s) s' ∨
     resp = redirectError r codeSessionFailed ∧ undone user (clearFlow s) s')) →
  settled client rq s w x.
Proof.
  intros r Htok Hid Hmode Hx s' resp ->. destruct (Hx s' resp eq_refl) as (user & Ho & Hend).
  right. exists token, ident, user. split_and!; [done..|]. destruct Hend as [[-> Hs]|[-> (s1 & Hs & Ht)]]; [left|right].
  - split_and!; [by eapply signed_spent|done|apply Hs|done].
  - split_and!; [done..|]. exists s1. split_and!; [by eapply signed_spent|apply Hs|done].
Qed.

Lemma rely_upstream {A} (p : go U A) w (Q : result A → Prop) :
  guar idp_inv (λ _ _, True) p Q → rely winv onwards (try (upstream p)) w (λ _ r, ∃ r', r = Ok r' ∧ Q r').
Proof. intros Hp. apply (rely_guar winv onwards). eapply guar_try; [by apply orderly_upstream|eauto]. Qed.

Lemma rely_callback w rq s : rely winv onwards (handleCallback registry rq s) w (callback_ok rq s).
Proof.
  unfold handleCallback, callback_ok. cbv zeta. destruct (registry !! ar_provider rq) as [client|] eqn:Hc.
  2: { by eapply rely_mono; [apply (rely_guar winv onwards), orderly_deny_result|]. }
  unfold forged. destruct (bool_decide (scs_GetString keyFlowState s = _) || negb (bool_decide (ar_state rq = _))).
  { eapply rely_mono; [apply (rely_guar winv onwards), orderly_deny_result|]. simpl. eauto. }
  destruct (negb (bool_decide (scs_GetString keyFlowProvider s = _))).
  { eapply rely_mono; [apply (rely_guar winv onwards), orderly_deny_result|]. simpl. eauto. }
  cbn [orb]. set (r := RelativePath _). assert (Hfail : ∀ w1 c, c ∈ early_codes →
    rely winv onwards (failLogin (ar_provider rq) r c (clearFlow s)) w1 (settled client rq s)).
  { intros w1 c Hin. apply rely_early. intros w2. by apply settled_early. }
  destruct (negb _); [apply Hfail; set_solver|]. destruct (bool_decide _); [apply Hfail; set_solver|].
  eapply (rely_bind winv onwards); [eapply rely_upstream, idp_exchanged; by eapply Hknown| |by intros w1 e (? & ? & _)].
  intros w1 tok (r1 & [= <-] & Htok). destruct tok as [token|e]; [|apply Hfail; set_solver].
  eapply (rely_bind winv onwards); [eapply rely_upstream, idp_identified; by eapply Hknown| |by intros w2 e (? & ? & _)].
  intros w2 id (r2 & [= <-] & Hid). destruct id as [ident|e]; [|apply Hfail; set_solver].
  specialize (Htok token eq_refl). specialize (Hid ident eq_refl). case_bool_decide as Hmode.
  - eapply rely_mono; [by apply rely_finishLink|]. intros w3 x Hx. by eapply settled_link.
  - eapply rely_mono; [apply rely_finishLogin; by eapply idp_valid|]. intros w3 x Hx. by eapply settled_login.
Qed.

(** A callback among any number of requests of the login plane. *)
Lemma callback_signs_in rqs w w' ps' i rq s x :
  winv w → rqs !! i = Some (LCallback rq s) →
  preach (w, serve <$> rqs) (w', ps') → ps' !! i = Some (Ret x) →
  winv w' ∧ grows (lw_accounts w) (lw_accounts w') ∧ callback_ok rq s w' x.
Proof.
  intros Hw Hi Hr Hx.
  assert (Hg : ∀ j q, (serve <$> rqs) !! j = Some q → guar winv onwards q (λ _, True)).
  { intros j q (rq' & -> & _)%list_lookup_fmap_Some. apply orderly_serve. }
  destruct (guar_onward winv onwards _ _ _ _ Hw Hg Hr) as (Hw' & Ho & _). split_and!; [done|done|].
  eapply (rely_done winv onwards _ _ _ _ i (handleCallback registry rq s) (callback_ok rq s) x Hw Hg Hr); [|by apply rely_callback|done].
  by rewrite list_lookup_fmap, Hi.
Qed.

(** Every request comes to an end. *)
Lemma runs_bind_any {A B} (p : go W A) (f : A → go W B) w :
  runs p w (λ _ _, True) → (∀ a w, runs (f a) w (λ _ _, True)) → runs (mbind (M:=go W) f p) w (λ _ _, True).
Proof. intros Hp Hf. by eapply runs_bind; [exact Hp| |]. Qed.
Lemma runs_upstream {A} (p : go U A) w : (∀ u, runs p u (λ _ _, True)) → runs (upstream p) w (λ _ _, True).
Proof. intros Hp. unfold upstream. by apply (runs_zoom lw_up set_up). Qed.

Lemma runs_try_any {A} (p : go W A) w : runs p w (λ _ _, True) → runs (try p) w (λ _ _, True).
Proof. unfold runs. rewrite run_try. by destruct (run p w) as [[? ?]|]. Qed.

Ltac runs_tac :=
  repeat match goal with
  | |- runs (mbind _ _) _ _ => apply runs_bind_any; [|intros ? ?]
  | |- runs (try _) _ _ => apply runs_try_any
  | |- runs (upstream _) _ _ => apply runs_upstream; intros ?
  | |- runs (atomic _) _ _ => apply runs_atomic; exact Logic.I
  | |- runs (modify _) _ _ => apply runs_atomic; exact Logic.I
  | |- runs (reads _) _ _ => apply runs_atomic; exact Logic.I
  | |- runs (match ?x with _ => _ end) _ _ => destruct x
  | |- runs (failLogin _ _ _ _) _ _ => unfold failLogin
  | |- runs (observeLogin _ _) _ _ => apply runs_atomic; exact Logic.I
  | |- runs (recordAuth _ _ _ _ _) _ _ => apply runs_atomic; exact Logic.I
  | |- runs (mret _) _ _ => exact Logic.I
  | |- runs (throw _) _ _ => exact Logic.I
  end.

Lemma returns_finishLogin p r i s w : runs (finishLogin p r i s) w (λ _ _, True).
Proof. unfold finishLogin, resolveUser, findByIdentity, createWithIdentity, touchLogin, or_panic, signIn, observeLogin, recordAuth. runs_tac. Qed.
Lemma returns_finishLink p r i s w : runs (finishLink p r i s) w (λ _ _, True).
Proof. unfold finishLink, linkIdentity, or_panic, observeLogin, recordAuth. runs_tac. Qed.

(** No request of the login plane hangs: from any world, alone, every start,
    callback and re-authentication returns. *)
Theorem serve_returns rq w : runs (serve rq) w (λ _ _, True).
Proof.
  destruct rq as [rq s|rq s|rq s|d]; cbn [serve].
  - unfold handleStart, draw, or_panic, denyLogin, observeLogin, recordAuth. cbv zeta.
    runs_tac; [apply idp_returns_verifier|apply idp_returns_nonce|apply idp_returns_url].
  - unfold handleCallback, denyLogin, observeLogin, recordAuth. cbv zeta.
    runs_tac; first [apply idp_returns_token|apply idp_returns_identity|apply returns_finishLink|apply returns_finishLogin].
  - unfold handleReauth. cbv zeta. runs_tac.
  - runs_tac.
Qed.

(** A forged callback, alone: an answer to the browser and a record. *)
Lemma callback_forged rq s w : is_Some (registry !! ar_provider rq) → forged rq s = true →
  ∃ w' msg, run (handleCallback registry rq s) w = Some (w', Ok (s, HttpError msg 400)) ∧
    lw_accounts w' = lw_accounts w ∧ lw_index w' = lw_index w ∧ lw_up w' = lw_up w ∧ lw_rand w' = lw_rand w.
Proof.
  intros [client Hc] Hf. unfold handleCallback. rewrite Hc. cbv zeta. unfold forged in Hf.
  destruct (bool_decide _ || negb (bool_decide (ar_state rq = _))); [|cbn [orb] in Hf; rewrite Hf];
    unfold denyLogin, observeLogin, recordAuth; rewrite !run_bind, !run_modify; simpl; eauto 10.
Qed.

(** C20. A login flow is used once. After a callback of the pending flow (however it
    ended, short of a failure of the session library), the session it leaves
    accepts no further callback, whatever state or code it carries: the answer is
    400, and accounts, sessions and providers are not touched. *)
Theorem callback_single_use rq s w client w1 s1 resp1 rq2 w2 :
  winv w → registry !! ar_provider rq = Some client → forged rq s = false →
  run (handleCallback registry rq s) w = Some (w1, Ok (s1, resp1)) →
  resp1 ≠ redirectError (RelativePath (scs_GetString keyFlowReturnTo s)) codeSessionFailed →
  is_Some (registry !! ar_provider rq2) →
  ∃ w3 msg, run (handleCallback registry rq2 s1) w2 = Some (w3, Ok (s1, HttpError msg 400)) ∧
    lw_accounts w3 = lw_accounts w2 ∧ lw_index w3 = lw_index w2 ∧ lw_up w3 = lw_up w2 ∧ lw_rand w3 = lw_rand w2.
Proof.
  intros Hw Hc Hf Hr Hne Hc2. apply callback_forged; [done|].
  pose proof (rely_run winv onwards _ _ _ _ _ Hw (orderly_serve (LCallback rq s)) (rely_callback w rq s) Hr) as Hok. unfold callback_ok in Hok. rewrite Hc, Hf in Hok.
  assert (Hflow : spent s1) by (destruct (Hok _ _ eq_refl) as [[? _]|(? & ? & ? & _ & _ & _ & [[? _]|[? _]])]; done).
  unfold forged. rewrite Hflow by (by left). done.
Qed.
End plane.
