(* ===== verification/IdpProps.v ===== *)
(** * What an identity-provider client promises

    The registry holds only usable clients; an endpoint or a key set of another
    origin is never adopted from a discovery document, and a document ages out;
    an identity is attested by a verified token for this client and this flow.
    With this the clients meet what the login plane relies on. *)

From S2P Require Import Prelude GoStd Proc FedRegistry Fed Account Idp Login.

(** ** The registry *)

Definition name_ok (p : string) : Prop := ∃ c rest, p = String c rest ∧ name_char true c = true ∧ str_forall (name_char false) rest = true.

(** A client that can be used: its name fits in a path, it names itself to the
    provider, and the profile mapping it would need is there. *)
Record usable (name : string) (c : Client) : Prop := {
  ub_name : name_ok name;
  ub_provider : ic_provider c = name;
  ub_client : oc_ClientID (ic_oauth c) ≠ EmptyString;
  ub_label : DisplayName c ≠ EmptyString;
  ub_issuer : ic_issuer c = df_issuer (ic_def c);
  ub_profile : ic_issuer c = EmptyString → df_profile (ic_def c) ≠ NoProfile;
}.

Section registry.
Context `{Platform}.

Lemma validate_name p : validateProviderName p = None → name_ok p.
Proof.
  unfold validateProviderName. destruct p as [|c rest]; [done|].
  destruct (name_char true c) eqn:Ec, (str_forall (name_char false) rest) eqn:Er; try done. intros _. by exists c, rest.
Qed.

Lemma or_else_ne a b : b ≠ EmptyString → or_else a b ≠ EmptyString.
Proof. unfold or_else. by case_bool_decide. Qed.
Lemma or_else_empty a b : or_else a b = EmptyString → a = EmptyString ∧ b = EmptyString.
Proof. unfold or_else. by case_bool_decide. Qed.

(** Every built-in provider has a profile mapping. *)
Lemma builtin_profile p d : find_name p definitions = Some d → df_profile d ≠ NoProfile.
Proof.
  unfold find_name. intros Hd. destruct (filter _ definitions) as [|[q e] l] eqn:Ef; [done|]. injection Hd as <-.
  assert (Hin : (q, e) ∈ filter (λ x, x.1 = p) definitions) by (rewrite Ef; left). apply list_elem_of_filter in Hin as [_ Hin].
  assert (HF : Forall (λ x, df_profile x.2 ≠ NoProfile) definitions) by (unfold definitions; repeat constructor; done).
  exact (proj1 (Forall_forall _ _) HF (q, e) Hin).
Qed.

Lemma new_client_usable base path ttl cred c : new_client base path ttl cred = Ok c → usable (cr_Provider cred) c.
Proof.
  unfold new_client. destruct (validateProviderName _) eqn:Hn; [done|]. apply validate_name in Hn.
  assert (Hne : cr_Provider cred ≠ EmptyString) by (by destruct Hn as (? & ? & -> & _)).
  destruct (find_name (cr_Provider cred) definitions) as [d|] eqn:Hd; [|case_bool_decide as Hi; [done|]]; cbv iota beta;
    (case_bool_decide as Hid; [done|]); destruct (_ && _ && _); try done; intros [= <-]; split; simpl; try done.
  - repeat apply or_else_ne. done.
  - intros Hiss. by eapply builtin_profile.
  - repeat apply or_else_ne. done.
  - intros [? _]%or_else_empty. done.
Qed.

Lemma add_clients_usable base path ttl creds r r' :
  (∀ p c, r !! p = Some c → usable p c) → add_clients base path ttl creds r = Ok r' → ∀ p c, r' !! p = Some c → usable p c.
Proof.
  revert r. induction creds as [|cred creds IH]; intros r Hr; simpl; [by intros [= <-]|].
  destruct (new_client base path ttl cred) as [c|] eqn:Hc; [|done]. apply IH. intros p c'.
  rewrite lookup_insert_Some. intros [[<- <-]|[_ ?]]; [by eapply new_client_usable|auto].
Qed.

Lemma registry_usable cfg r p c : NewRegistry cfg = Ok r → r !! p = Some c → usable p c.
Proof.
  unfold NewRegistry. case_bool_decide; [done|]. intros Hr. eapply add_clients_usable; [|exact Hr]. intros q d. by rewrite lookup_empty.
Qed.

(** [NewRegistry]. Every client of a registry that was built is usable: its name
    is a path segment, it has a client id and a label, and a client without an
    issuer has the profile mapping its sign-in will call. *)
Theorem NewRegistry_usable cfg r : NewRegistry cfg = Ok r → ∀ p c, r !! p = Some c → usable p c.
Proof. intros Hr p c. by apply (registry_usable cfg r p c). Qed.
End registry.

(** ** Documents, endpoints and identities *)

Section client.
Context `{Platform} {U P K : Type} `{IdpUpstreamOk U P K}.
Context (r : gmap string Client).
Implicit Types (w : IdpWorld U P) (c : Client) (p : P).

(** Two URLs of one origin. *)
Definition of_origin (issuer value : string) : Prop :=
  ∃ u v, url_Parse issuer = Some u ∧ url_Parse value = Some v ∧ u_Scheme v = u_Scheme u ∧ u_Host v = u_Host u.
Definition absolute (value : string) : Prop := ∃ u, url_Parse value = Some u ∧ u_Scheme u ≠ EmptyString ∧ u_Host u ≠ EmptyString.

Lemma first_error_None a b : first_error a b = None ↔ a = None ∧ b = None.
Proof. destruct a; simpl; naive_solver. Qed.
Lemma pin_one_None c issuer u name v : url_Parse issuer = Some u →
  pin_one c u name v = None ↔ v = EmptyString ∨ of_origin issuer v.
Proof.
  intros Hu. unfold pin_one, of_origin. case_bool_decide as Hv; [naive_solver|].
  destruct (url_Parse v) as [x|] eqn:Hx; [|naive_solver].
  destruct (decide (u_Scheme x = u_Scheme u)) as [E1|E1]; [rewrite (bool_decide_true _ E1)|rewrite (bool_decide_false _ E1)];
    (destruct (decide (u_Host x = u_Host u)) as [E2|E2]; [rewrite (bool_decide_true _ E2)|rewrite (bool_decide_false _ E2)]);
    naive_solver.
Qed.
Lemma pinToIssuer_None c a t j : pinToIssuer c a t j = None ↔
  (∃ u, url_Parse (ic_issuer c) = Some u) ∧ ∀ v, v ∈ [a; t; j] → v = EmptyString ∨ of_origin (ic_issuer c) v.
Proof.
  unfold pinToIssuer. destruct (url_Parse (ic_issuer c)) as [u|] eqn:Hu; [|naive_solver].
  rewrite !first_error_None, !(pin_one_None _ _ _ _ _ Hu). split; [set_solver|]. intros [_ Hv]. split_and!; apply Hv; set_solver.
Qed.

(** The key set of a document is the one the operator named; where the operator
    named none, it is on the issuer's origin, or the document names none. *)
Definition key_set_ok c (uri : string) : Prop :=
  if decide (df_jwksURL (ic_def c) = EmptyString)
  then (∃ u, url_Parse (ic_issuer c) = Some u) ∧ (uri = EmptyString ∨ of_origin (ic_issuer c) uri)
  else uri = df_jwksURL (ic_def c).
Definition pinned c p : Prop := ∃ uri, oidc_JWKSURI p = Ok uri ∧ key_set_ok c uri.

(** The client accepts exactly the documents with such a key set. *)
Lemma pinned_spec c p : pinDiscoveredJWKS c p = None ↔ pinned c p.
Proof.
  unfold pinDiscoveredJWKS, pinned, pinJWKSURI, key_set_ok.
  destruct (oidc_JWKSURI p) as [uri|e]; [|naive_solver].
  destruct (decide (df_jwksURL (ic_def c) = EmptyString)) as [E|E];
    [rewrite (bool_decide_true _ E)|rewrite (bool_decide_false _ E)]; simpl.
  - rewrite pinToIssuer_None. split.
    + intros [Hu Hv]. exists uri. split_and!; [done..|]. apply Hv. set_solver.
    + intros (? & [= <-] & Hu & Hv). set_solver.
  - case_bool_decide; naive_solver.
Qed.

(** Every cached document was accepted by the client it is cached for. *)
Definition idp_cache_ok w : Prop :=
  ∀ name c p t, r !! name = Some c → dw_cache w !! name = Some (p, t) → pinned c p.
Definition known c : Prop := r !! ic_provider c = Some c.
Lemma registry_known cfg name c : NewRegistry cfg = Ok r → r !! name = Some c → known c.
Proof. intros Hr Hc. unfold known. by rewrite (ub_provider _ _ (registry_usable cfg r name c Hr Hc)). Qed.

Definition sound {A} (p : go (IdpWorld U P) A) (Q : A → Prop) : Prop :=
  guar idp_cache_ok (λ _ _, True) p (λ x, ∀ a, x = Ok a → Q a).

Lemma sound_ret {A} (a : A) (Q : A → Prop) : Q a → sound (mret a) Q.
Proof. by intros HQ x [= <-]. Qed.
Lemma sound_throw {A} e (Q : A → Prop) : sound (throw e) Q.
Proof. by intros x. Qed.
Lemma sound_then {A B} (p : go (IdpWorld U P) A) (f : A → go (IdpWorld U P) B) P' Q :
  sound p P' → (∀ a, P' a → sound (f a) Q) → sound (mbind (M:=go _) f p) Q.
Proof. intros Hp Hf. eapply guar_bind; [exact Hp|intros a Ha; apply Hf; by apply Ha|by intros]. Qed.
Lemma sound_same {A} (f : IdpWorld U P → IdpWorld U P * result A) (Q : A → Prop) :
  (∀ w, dw_cache (f w).1 = dw_cache w ∧ ∀ a, (f w).2 = Ok a → Q a) → sound (call f) Q.
Proof.
  intros Hf. apply guar_call. intros w Hw. destruct (Hf w) as [Hc HQ]. split_and!; [|done|done].
  intros name c p t Hr. rewrite Hc. by apply Hw.
Qed.
Lemma sound_ask {A} (f : U → U * result A) (Q : A → Prop) : (∀ u a, (f u).2 = Ok a → Q a) → sound (ask f) Q.
Proof. intros Hf. apply sound_same. intros w. specialize (Hf (dw_up w)). by destruct (f (dw_up w)). Qed.
Lemma sound_reads {A} (f : IdpWorld U P → A) (Q : A → Prop) : (∀ w, idp_cache_ok w → Q (f w)) → sound (reads f) Q.
Proof. intros Hf. apply guar_atomic. intros w Hw. split_and!; [done|done|]. intros a [= <-]. by apply Hf. Qed.
Lemma sound_try {A} (p : go (IdpWorld U P) A) (Q : A → Prop) : sound p Q → sound (try p) (λ x, ∀ a, x = Ok a → Q a).
Proof. intros Hp. eapply guar_try; [exact Hp|]. intros x Hx y [= <-]. done. Qed.
Lemma sound_or_fail {A} wrap (p : go (IdpWorld U P) A) (Q : A → Prop) : sound p Q → sound (or_fail wrap p) Q.
Proof.
  intros Hp. unfold or_fail. eapply sound_then; [by apply sound_try|]. intros [a|e] Ha; [by apply sound_ret, Ha|apply sound_throw].
Qed.
Lemma sound_fail_if e : sound (fail_if e) (λ _, e = None).
Proof. destruct e; [apply sound_throw|by apply sound_ret]. Qed.
Lemma sound_mono {A} (p : go (IdpWorld U P) A) (Q R : A → Prop) : sound p Q → (∀ a, Q a → R a) → sound p R.
Proof. intros Hp HQ. eapply guar_mono; [exact Hp|]. naive_solver. Qed.

(** Discovery answers an accepted document. *)
Lemma sound_retain c cause : known c → sound (retainOnDiscoveryFailure c cause) (pinned c).
Proof.
  intros Hc. unfold retainOnDiscoveryFailure.
  eapply (sound_then _ _ (λ e, ∀ p t, e = Some (p, t) → pinned c p)).
  - apply sound_reads. intros w Hw p t. by apply Hw.
  - intros [[p t]|] Hp; [|apply sound_throw]. eapply (sound_then _ _ (λ _, True)); [by apply sound_reads|].
    intros now _. destruct (_ <? _)%Z; [|apply sound_throw]. apply sound_ret. by eapply Hp.
Qed.
Lemma sound_provider c : known c → sound (oidcProvider c) (pinned c).
Proof.
  intros Hc. unfold oidcProvider. eapply (sound_then _ _ (λ e, ∀ p, e = Some p → pinned c p)).
  - apply sound_reads. intros w Hw p. unfold cached. destruct (dw_cache w !! ic_provider c) as [[q t]|] eqn:E; [|done]. simpl.
    destruct (_ <? _)%Z; [|done]. intros [= <-]. by eapply Hw.
  - intros [p|] Hp; [by apply sound_ret, Hp|]. eapply (sound_then _ _ (λ _, True)); [eapply sound_mono; [by apply sound_try, (sound_ask _ (λ _, True))|done]|].
    intros [p|e] _; [|by apply sound_retain]. destruct (pinDiscoveredJWKS c p) as [e|] eqn:Hpin; [by apply sound_retain|]. apply pinned_spec in Hpin.
    eapply (sound_then _ _ (λ _, True)); [|intros _ _; by apply sound_ret].
    apply guar_atomic. intros w Hw. split_and!; [|done|done]. intros name c' p' t Hr'. simpl. rewrite lookup_insert_Some.
    intros [[<- [= <- <-]]|[_ ?]]; [|by eapply Hw]. unfold known in Hc. rewrite Hc in Hr'. by injection Hr' as <-.
Qed.

Lemma validate_one_None c name v : validate_one c name v = None → absolute v.
Proof.
  unfold validate_one. destruct (url_Parse v) as [u|] eqn:Hu; [|done]. destruct (_ || _) eqn:E; [done|]. intros _.
  apply orb_false_iff in E as [E1 E2]. rewrite bool_decide_eq_false in E1, E2. by exists u.
Qed.

(** What a client sends its secret and its users to. *)
Definition trusted_config c (cfg : OAuthConfig) : Prop :=
  absolute (oc_AuthURL cfg) ∧ absolute (oc_TokenURL cfg) ∧
  (oc_AuthURL cfg = oc_AuthURL (ic_oauth c) ∨ of_origin (ic_issuer c) (oc_AuthURL cfg)) ∧
  (oc_TokenURL cfg = oc_TokenURL (ic_oauth c) ∨ of_origin (ic_issuer c) (oc_TokenURL cfg)) ∧
  oc_ClientID cfg = oc_ClientID (ic_oauth c) ∧ oc_ClientSecret cfg = oc_ClientSecret (ic_oauth c) ∧
  oc_RedirectURL cfg = oc_RedirectURL (ic_oauth c) ∧ oc_Scopes cfg = oc_Scopes (ic_oauth c).

(** The part of a configuration that an endpoint of the document may fill. *)
Definition filled c (cfg : OAuthConfig) : Prop :=
  (oc_AuthURL cfg = oc_AuthURL (ic_oauth c) ∨ oc_AuthURL cfg = EmptyString ∨ of_origin (ic_issuer c) (oc_AuthURL cfg)) ∧
  (oc_TokenURL cfg = oc_TokenURL (ic_oauth c) ∨ oc_TokenURL cfg = EmptyString ∨ of_origin (ic_issuer c) (oc_TokenURL cfg)) ∧
  oc_ClientID cfg = oc_ClientID (ic_oauth c) ∧ oc_ClientSecret cfg = oc_ClientSecret (ic_oauth c) ∧
  oc_RedirectURL cfg = oc_RedirectURL (ic_oauth c) ∧ oc_Scopes cfg = oc_Scopes (ic_oauth c).

(** [url.Parse] of the empty string has no scheme. *)
Context (Hempty : ∀ u, url_Parse EmptyString = Some u → u_Scheme u = EmptyString).

Lemma sound_oauthConfig c : known c → sound (oauthConfig c) (trusted_config c).
Proof.
  intros Hc. unfold oauthConfig. eapply (sound_then _ _ (filled c)).
  - destruct (_ || _); [|apply sound_ret; unfold filled; split_and!; auto]. case_bool_decide; [apply sound_throw|].
    eapply (sound_then _ _ (pinned c)); [by apply sound_provider|]. intros p _. destruct (oidc_Endpoint p) as [a t].
    eapply (sound_then _ _ (λ cfg, filled c cfg ∧ oc_TokenURL cfg = oc_TokenURL (ic_oauth c))).
    + case_bool_decide; [|apply sound_ret; by unfold filled; split_and!; auto]. eapply (sound_then _ _); [apply sound_fail_if|]. intros [] Hpin.
      apply sound_ret. split; [|done]. unfold filled. simpl. split_and!; auto. right. apply (proj2 (proj1 (pinToIssuer_None _ _ _ _) Hpin)). set_solver.
    + intros cfg [Hf Ht]. case_bool_decide; [|by apply sound_ret]. eapply (sound_then _ _); [apply sound_fail_if|]. intros [] Hpin.
      apply sound_ret. destruct Hf as (F1 & F2 & F3). unfold filled. simpl.
      split; [done|]. split; [|done]. right. apply (proj2 (proj1 (pinToIssuer_None _ _ _ _) Hpin)). set_solver.
  - intros cfg (F1 & F2 & F3 & F4 & F5 & F6). eapply (sound_then _ _); [apply sound_fail_if|]. intros [] Hv.
    unfold validateEndpoints in Hv. rewrite first_error_None in Hv. destruct Hv as [Hva Hvt].
    apply validate_one_None in Hva, Hvt. apply sound_ret.
    assert (Hne : ∀ v, absolute v → v ≠ EmptyString) by (intros v (u & Hu & Hs & _) ->; by apply Hempty in Hu).
    split; [done|]. split; [done|]. split; [|split; [|done]].
    + destruct F1 as [?|[E|?]]; [by left|by apply Hne in E|by right].
    + destruct F2 as [?|[E|?]]; [by left|by apply Hne in E|by right].
Qed.

(** *** Identities *)

(** What stands behind an identity of an OIDC provider: a token that verifies
    against an accepted key set, issued to this client, for this flow. *)
Definition attested c (token : IdpToken) (nonce : string) (i : IdpIdentity) : Prop :=
  ip_Provider i = ic_provider c ∧ Idp_Validate i = None ∧
  (ic_issuer c ≠ EmptyString → ∃ p k claims,
     pinned c p ∧ oidc_signed p (it_IDToken token) k ∧ oidc_Claims k = Ok claims ∧
     ip_Subject i = cl_Subject claims ∧ cl_Nonce claims = nonce ∧ nonce ≠ EmptyString ∧
     (cl_AZP claims = oc_ClientID (ic_oauth c) ∨ oidc_Audience k = [oc_ClientID (ic_oauth c)])).

Lemma checkClaims_None c aud claims nonce : oc_ClientID (ic_oauth c) ∈ aud → checkClaims c aud claims nonce = None →
  cl_Nonce claims = nonce ∧ nonce ≠ EmptyString ∧ cl_Subject claims ≠ EmptyString ∧
  (cl_AZP claims = oc_ClientID (ic_oauth c) ∨ aud = [oc_ClientID (ic_oauth c)]).
Proof.
  intros Hin. unfold checkClaims.
  destruct (decide (nonce = EmptyString)) as [->|Hn]; [done|]. rewrite (bool_decide_false _ Hn). simpl.
  destruct (decide (cl_Nonce claims = nonce)) as [Hnonce|Hne]; [rewrite (bool_decide_true _ Hnonce)|by rewrite (bool_decide_false _ Hne)]. simpl.
  destruct (decide (cl_AZP claims = EmptyString)) as [Ha|Ha]; [rewrite (bool_decide_true _ Ha)|rewrite (bool_decide_false _ Ha)]; simpl.
  - rewrite andb_true_r. destruct (Nat.ltb_spec 1 (length aud)) as [|Hl]; [done|]. case_bool_decide; [done|]. intros _.
    split_and!; try done. right. destruct aud as [|a [|b aud]]; simpl in *; [by apply elem_of_nil in Hin| |lia].
    by apply list_elem_of_singleton in Hin as ->.
  - rewrite andb_false_r.
    destruct (decide (cl_AZP claims = oc_ClientID (ic_oauth c))) as [Hz|Hz]; [rewrite (bool_decide_true _ Hz)|by rewrite (bool_decide_false _ Hz)].
    simpl. case_bool_decide; [done|]. auto.
Qed.

Lemma sound_any {A} (p : go (IdpWorld U P) A) (Q : A → Prop) : sound p Q → sound p (λ _, True).
Proof. intros Hp. by eapply sound_mono. Qed.
Lemma sound_getText e t : sound (getText e t) (λ _, True).
Proof.
  unfold getText. cbv zeta. destruct (newRequest _ _ _ _ _) as [req|]; [|apply sound_throw].
  eapply (sound_then _ _ (λ _, True)); [by apply sound_or_fail, sound_ask|]. intros resp _.
  destruct (read_limited _ _); [|apply sound_throw]. destruct (negb _); [apply sound_throw|by apply sound_ret].
Qed.
Lemma sound_getJSON e t : sound (getJSON e t) (λ _, True).
Proof.
  unfold getJSON. eapply sound_then; [apply sound_getText|]. intros body _. destruct (json_Object body); [by apply sound_ret|apply sound_throw].
Qed.
Lemma sound_userinfo c t : sound (identityFromUserInfo c t) (λ _, True).
Proof.
  unfold identityFromUserInfo. destruct (df_profile (ic_def c)) as [f| |].
  - eapply sound_then; [apply sound_getJSON|]. intros raw _. by apply sound_ret.
  - unfold fetchQQ. eapply sound_then; [apply sound_getText|]. intros body _. destruct (json_QQ _) as [[o u]|]; [|apply sound_throw].
    cbv zeta. destruct (_ || _); [apply sound_throw|]. eapply sound_then; [apply sound_getJSON|]. intros raw _. by apply sound_ret.
  - eapply sound_then; [apply sound_getJSON|]. intros raw _. apply sound_throw.
Qed.

Lemma sound_idtoken c t nonce : known c → sound (identityFromIDToken c t nonce) (λ i, ∃ p k claims,
  pinned c p ∧ oidc_signed p (it_IDToken t) k ∧ oidc_Claims k = Ok claims ∧
  ip_Subject i = cl_Subject claims ∧ cl_Nonce claims = nonce ∧ nonce ≠ EmptyString ∧
  (cl_AZP claims = oc_ClientID (ic_oauth c) ∨ oidc_Audience k = [oc_ClientID (ic_oauth c)])).
Proof.
  intros Hc. unfold identityFromIDToken. case_bool_decide; [apply sound_throw|].
  eapply sound_then; [by apply sound_provider|]. intros p Hp.
  eapply (sound_then _ _ (λ k, oidc_signed p (it_IDToken t) k ∧ oc_ClientID (ic_oauth c) ∈ oidc_Audience k)).
  { apply sound_or_fail, sound_ask. intros u k Hk. destruct (oidc_Verify p (oc_ClientID (ic_oauth c)) (it_IDToken t) u) as [u' r'] eqn:E.
    simpl in Hk. subst r'. by eapply oidc_verified. }
  intros k [Hs Haud]. destruct (oidc_Claims k) as [claims|] eqn:Hcl; [|apply sound_throw].
  eapply (sound_then _ _); [apply sound_fail_if|]. intros [] Hok. apply (checkClaims_None _ _ _ _ Haud) in Hok as (Hn & Hne & _ & Hz).
  apply sound_ret. exists p, k, claims. done.
Qed.

Lemma sound_identity c t nonce : known c → sound (Identity c t nonce) (attested c t nonce).
Proof.
  intros Hc. unfold Identity. case_bool_decide; [apply sound_throw|].
  eapply (sound_then _ _ (λ i, ic_issuer c ≠ EmptyString → ∃ p k claims,
    pinned c p ∧ oidc_signed p (it_IDToken t) k ∧ oidc_Claims k = Ok claims ∧
    ip_Subject i = cl_Subject claims ∧ cl_Nonce claims = nonce ∧ nonce ≠ EmptyString ∧
    (cl_AZP claims = oc_ClientID (ic_oauth c) ∨ oidc_Audience k = [oc_ClientID (ic_oauth c)]))).
  - case_bool_decide; [eapply sound_mono; [apply sound_userinfo|done]|]. eapply sound_mono; [by apply sound_idtoken|done].
  - intros i Hi. cbv zeta. eapply (sound_then _ _); [apply sound_fail_if|]. intros [] Hv. by apply sound_ret.
Qed.

Lemma sound_exchange c code v : known c → sound (Exchange c code v) (λ t, ∃ cfg u, trusted_config c cfg ∧ (io_Exchange cfg code v u).2 = Ok t).
Proof.
  intros Hc. unfold Exchange. eapply sound_then; [by apply sound_oauthConfig|]. intros cfg Hcfg. apply sound_ask. eauto.
Qed.
Lemma sound_url c a b d : known c → sound (AuthCodeURL c a b d) (λ x, ∃ cfg o, trusted_config c cfg ∧ x = io_AuthCodeURL cfg a b o).
Proof.
  intros Hc. unfold AuthCodeURL. eapply sound_then; [by apply sound_oauthConfig|]. intros cfg Hcfg. apply sound_ret. eauto.
Qed.

(** *** The calls among others *)

Inductive icall :=
| ICURL (c : Client) (state verifier nonce : string)
| ICExchange (c : Client) (code verifier : string)
| ICIdentity (c : Client) (token : IdpToken) (nonce : string)
| ICTick (d : Z).
Inductive ianswer :=
| IAURL (url : string)
| IAToken (t : IdpToken)
| IAIdentity (i : IdpIdentity)
| IATick.

Definition icall_client (q : icall) : option Client :=
  match q with ICURL c _ _ _ | ICExchange c _ _ | ICIdentity c _ _ => Some c | ICTick _ => None end.
Definition idp_serve (q : icall) : go (IdpWorld U P) ianswer :=
  match q with
  | ICURL c a b d => x ← AuthCodeURL c a b d; mret (IAURL x)
  | ICExchange c code v => x ← Exchange c code v; mret (IAToken x)
  | ICIdentity c t n => x ← Identity c t n; mret (IAIdentity x)
  | ICTick d => _ ← modify (λ w, mkIdpWorld (dw_up w) (dw_cache w) (dw_now w + d)%Z); mret IATick
  end.

(** What an answer may rest on. *)
Definition answer_ok (q : icall) (x : ianswer) : Prop :=
  match q, x with
  | ICURL c a b _, IAURL url => ∃ cfg o, trusted_config c cfg ∧ url = io_AuthCodeURL cfg a b o
  | ICExchange c code v, IAToken t => ∃ cfg u, trusted_config c cfg ∧ (io_Exchange cfg code v u).2 = Ok t
  | ICIdentity c t n, IAIdentity i => attested c t n i
  | ICTick _, IATick => True
  | _, _ => False
  end.

Lemma sound_serve q : (∀ c, icall_client q = Some c → known c) → sound (idp_serve q) (answer_ok q).
Proof.
  intros Hq. destruct q as [c a b d|c code v|c t n|d]; cbn [idp_serve].
  - eapply sound_then; [by apply sound_url, Hq|]. intros x Hx. by apply sound_ret.
  - eapply sound_then; [by apply sound_exchange, Hq|]. intros x Hx. by apply sound_ret.
  - eapply sound_then; [by apply sound_identity, Hq|]. intros x Hx. by apply sound_ret.
  - eapply (sound_then _ _ (λ _, True)); [|intros _ _; by apply sound_ret]. by apply guar_atomic.
Qed.


(** *** A document ages out *)

(** What the issuer answers now, if the client accepts it. *)
Definition offered c w : option P :=
  match (oidc_NewProvider (ic_issuer c) (dw_up w)).2 with
  | Ok p => if bool_decide (pinDiscoveredJWKS c p = None) then Some p else None
  | Err _ => None
  end.

Lemma offered_pinned c w p : offered c w = Some p → pinned c p.
Proof.
  unfold offered. destruct (oidc_NewProvider _ _) as [u [q|]]; [|done]. cbn [snd]. case_bool_decide as Hp; [|done]. intros [= <-]. by apply pinned_spec.
Qed.

(** The documents a client took from its issuer, each with the time, over a run of
    calls between which time passes and the world may change. *)
Inductive provider_run c : IdpWorld U P → list (P * Z) → Prop :=
| pr_start w : dw_cache w !! ic_provider c = None → provider_run c w []
| pr_time w found w' :
    provider_run c w found → dw_cache w' = dw_cache w → (dw_now w <= dw_now w')%Z → provider_run c w' found
| pr_call w found w' x :
    provider_run c w found → run (oidcProvider c) w = Some (w', x) →
    provider_run c w' (match cached c w, offered c w with None, Some p => (p, dw_now w) :: found | _, _ => found end).

(** One call, alone. *)
Lemma run_retain c cause w : ∃ e, run (retainOnDiscoveryFailure c cause) w = Some (w,
  match dw_cache w !! ic_provider c with
  | Some (p, t) => if (dw_now w - t <? providerStaleCeiling * ic_providerTTL c)%Z then Ok p else Err e
  | None => Err e
  end).
Proof.
  unfold retainOnDiscoveryFailure. rewrite run_bind, run_reads. destruct (dw_cache w !! ic_provider c) as [[p t]|]; [|eauto].
  rewrite run_bind, run_reads. destruct (_ <? _)%Z; [by exists cause|eauto].
Qed.

Lemma run_oidcProvider c w : ∃ w' x, run (oidcProvider c) w = Some (w', x) ∧ dw_now w' = dw_now w ∧
  match cached c w, offered c w with
  | Some p, _ => x = Ok p ∧ w' = w
  | None, Some p => x = Ok p ∧ dw_cache w' = <[ic_provider c := (p, dw_now w)]> (dw_cache w)
  | None, None => dw_cache w' = dw_cache w ∧ ∃ e,
      x = match dw_cache w !! ic_provider c with
          | Some (p, t) => if (dw_now w - t <? providerStaleCeiling * ic_providerTTL c)%Z then Ok p else Err e
          | None => Err e
          end
  end.
Proof.
  unfold oidcProvider. rewrite run_bind, run_reads. destruct (cached c w) as [p|]; [by exists w, (Ok p)|].
  rewrite run_bind, run_try. unfold ask. rewrite run_call. unfold offered.
  destruct (oidc_NewProvider (ic_issuer c) (dw_up w)) as [u [p|err]]; cbn [snd].
  - case_bool_decide as Hpin.
    + rewrite Hpin, run_bind, run_modify, run_ret. by eexists _, _.
    + destruct (pinDiscoveredJWKS c p) as [err|]; [|done]. destruct (run_retain c err (set_dw_up u w)) as [e He].
      rewrite He. eexists _, _. split; [done|]. split; [done|]. split; [done|]. by exists e.
  - destruct (run_retain c (Wrap (idp_msg c ("discovery failed: " +:+ Error err)) err) (set_dw_up u w)) as [e He].
    rewrite He. eexists _, _. split; [done|]. split; [done|]. split; [done|]. by exists e.
Qed.

Lemma provider_run_cache c w found : provider_run c w found →
  (∀ p t, dw_cache w !! ic_provider c = Some (p, t) → (p, t) ∈ found) ∧ ∀ p t, (p, t) ∈ found → pinned c p ∧ (t <= dw_now w)%Z.
Proof.
  induction 1 as [w Hn|w found w' _ [IH1 IH2] Hc Ht|w found w' x _ [IH1 IH2] Hr].
  - split; [intros p t; by rewrite Hn|]. intros p t Hin. by apply elem_of_nil in Hin.
  - rewrite Hc. split; [done|]. intros p t Hin. destruct (IH2 p t Hin). split; [done|lia].
  - destruct (run_oidcProvider c w) as (w2 & x2 & Hr2 & Hnow & Hcase). rewrite Hr in Hr2. injection Hr2 as <- <-. rewrite Hnow.
    destruct (cached c w) as [p|]; [by destruct Hcase as [_ ->]|].
    destruct (offered c w) as [p|] eqn:Ho; [|by destruct Hcase as [-> _]]. destruct Hcase as [_ ->]. split.
    + intros p' t'. rewrite lookup_insert_eq. intros [= <- <-]. left.
    + intros p' t' [[= -> ->]|Hin]%elem_of_cons; [|by apply IH2]. split; [by eapply offered_pinned|lia].
Qed.

(** C19. A retired key stops verifying. Over any run of calls, with the time and the
    issuer's answers changing between them: the document (with its key set) that
    verifies a login is one the issuer answered, and the client accepted, at this
    call or less than two cache lifetimes ago, however often discovery has failed
    since. And a call fails only if the issuer has no acceptable answer and the
    last one is older than that. *)
Theorem key_set_ages_out c w found w' x :
  (0 < ic_providerTTL c)%Z → provider_run c w found → run (oidcProvider c) w = Some (w', x) →
  match x with
  | Ok p => pinned c p ∧
      (offered c w = Some p ∨ ∃ t, (p, t) ∈ found ∧ (t <= dw_now w < t + providerStaleCeiling * ic_providerTTL c)%Z)
  | Err _ => offered c w = None ∧
      ∀ p t, dw_cache w !! ic_provider c = Some (p, t) → (t + providerStaleCeiling * ic_providerTTL c <= dw_now w)%Z
  end.
Proof.
  intros Httl Hrun Hr. destruct (provider_run_cache c w found Hrun) as [Hcache Hfound].
  destruct (run_oidcProvider c w) as (w2 & x2 & Hr2 & _ & Hcase). rewrite Hr in Hr2. injection Hr2 as <- <-.
  assert (Hold : ∀ p t, dw_cache w !! ic_provider c = Some (p, t) → (dw_now w - t < providerStaleCeiling * ic_providerTTL c)%Z →
    pinned c p ∧ (offered c w = Some p ∨ ∃ t, (p, t) ∈ found ∧ (t <= dw_now w < t + providerStaleCeiling * ic_providerTTL c)%Z)).
  { intros p t Hp Hage. specialize (Hcache _ _ Hp). destruct (Hfound _ _ Hcache). split; [done|]. right. exists t. split; [done|]. lia. }
  unfold cached in Hcase. destruct (dw_cache w !! ic_provider c) as [[p t]|] eqn:Hp; cbn [mbind option_bind] in Hcase.
  - destruct (Z.ltb_spec (dw_now w - t) (ic_providerTTL c)).
    { destruct Hcase as [-> _]. apply (Hold p t eq_refl). unfold providerStaleCeiling. lia. }
    destruct (offered c w) as [q|] eqn:Ho; [destruct Hcase as [-> _]; split; [by eapply offered_pinned|by left]|].
    destruct Hcase as (_ & e & ->). destruct (Z.ltb_spec (dw_now w - t) (providerStaleCeiling * ic_providerTTL c)); [by apply (Hold p t eq_refl)|].
    split; [done|]. intros p' t' [= <- <-]. lia.
  - destruct (offered c w) as [q|] eqn:Ho; [destruct Hcase as [-> _]; split; [by eapply offered_pinned|by left]|].
    destruct Hcase as (_ & e & ->). done.
Qed.
End client.

Lemma substring_len n s : n ≤ len s → len (String.substring 0 n s) = n.
Proof. revert n. induction s as [|c s IH]; intros [|n] Hn; simpl in *; [lia..|]. rewrite IH; lia. Qed.

(** A response within the limit is passed on whole; one over it is refused. *)
Lemma bound_body_whole limit url resp resp' : (0 <= limit)%Z →
  bound_body limit url resp = Ok resp' → rs_Body resp' = ((rs_Body resp).1, None) ∧ (Z.of_nat (len (rs_Body resp).1) <= limit)%Z.
Proof.
  intros Hl. unfold bound_body, read_limited. destruct (Z.leb_spec (limit + 1) (Z.of_nat (len (rs_Body resp).1))) as [Hle|Hlt].
  - destruct (Z.ltb_spec limit (Z.of_nat (len (String.substring 0 (Z.to_nat (limit + 1)) (rs_Body resp).1)))); [done|].
    rewrite substring_len in * by lia. lia.
  - destruct ((rs_Body resp).2); [done|]. destruct (Z.ltb_spec limit (Z.of_nat (len (rs_Body resp).1))); [done|]. intros [= <-]. done.
Qed.

(** ** The clients, as the login plane uses them *)

Section clients.
Context `{Platform} {U P K : Type} `{IdpUpstreamOk U P K}.
Context (r : gmap string Client) (Hempty : ∀ u, url_Parse EmptyString = Some u → u_Scheme u = EmptyString).

#[export] Instance idp_clients : IdpClient (IdpWorld U P) Client IdpToken := {
  idp_Provider := ic_provider;
  idp_DisplayName := DisplayName;
  idp_NewVerifier := NewVerifier;
  idp_NewNonce := NewNonce;
  idp_AuthCodeURL := AuthCodeURL;
  idp_Exchange := Exchange;
  idp_Identity := Identity;
}.

Definition returns {A} (p : go (IdpWorld U P) A) : Prop := ∀ w, runs p w (λ _ _, True).

Lemma returns_ret {A} (a : A) : returns (mret a).
Proof. done. Qed.
Lemma returns_throw {A} e : returns (throw (A:=A) e).
Proof. done. Qed.
Lemma returns_bind {A B} (p : go (IdpWorld U P) A) (f : A → go (IdpWorld U P) B) :
  returns p → (∀ a, returns (f a)) → returns (mbind (M:=go _) f p).
Proof. intros Hp Hf w. eapply runs_bind; [apply Hp|intros w' a _; apply Hf|done]. Qed.
Lemma returns_try {A} (p : go (IdpWorld U P) A) : returns p → returns (try p).
Proof. intros Hp w. specialize (Hp w). unfold runs in *. rewrite run_try. by destruct (run p w) as [[? ?]|]. Qed.
Lemma returns_call {A} (f : IdpWorld U P → IdpWorld U P * result A) : returns (call f).
Proof. intros w. by apply runs_call. Qed.
Lemma returns_atomic {A} (f : IdpWorld U P → IdpWorld U P * A) : returns (atomic f).
Proof. intros w. by apply runs_atomic. Qed.

Create HintDb returns discriminated.
#[local] Hint Resolve returns_ret returns_throw returns_call returns_atomic : returns.
#[local] Hint Extern 1 (returns (ask _)) => apply returns_call : returns.
#[local] Hint Extern 1 (returns (reads _)) => apply returns_atomic : returns.
#[local] Hint Extern 1 (returns (modify _)) => apply returns_atomic : returns.
Ltac returns_step :=
  match goal with
  | |- returns (mbind _ _) => apply returns_bind; [|intros ?]
  | |- returns (try _) => apply returns_try
  | |- returns (match ?x with _ => _ end) => destruct x
  | |- returns (fail_if _) => unfold fail_if
  | |- returns (or_fail _ _) => unfold or_fail
  | |- _ => solve [eauto with returns nocore]
  end.

Lemma returns_retain c e : returns (retainOnDiscoveryFailure c e).
Proof. unfold retainOnDiscoveryFailure. repeat returns_step. Qed.
Lemma returns_provider c : returns (oidcProvider c).
Proof. unfold oidcProvider. repeat (returns_step || apply returns_retain). Qed.
Lemma returns_config c : returns (oauthConfig c).
Proof. unfold oauthConfig. cbv zeta. repeat (returns_step || apply returns_provider). Qed.
Lemma returns_text a b : returns (getText a b).
Proof. unfold getText. cbv zeta. repeat returns_step. Qed.
Lemma returns_json a b : returns (getJSON a b).
Proof. unfold getJSON. repeat (returns_step || apply returns_text). Qed.
Lemma returns_identity c t n : returns (Identity c t n).
Proof.
  unfold Identity, identityFromUserInfo, identityFromIDToken, fetchQQ. cbv zeta.
  repeat (returns_step || apply returns_text || apply returns_json || apply returns_provider).
Qed.

(** The clients meet the contract. *)
#[local] Instance idp_clients_ok : IdpClientOk (IdpWorld U P) Client IdpToken.
Proof.
  refine {|
    idp_inv := idp_cache_ok r;
    idp_known := known r;
    idp_issued c code v t := ∃ cfg u, trusted_config c cfg ∧ (io_Exchange cfg code v u).2 = Ok t;
    idp_attested := attested;
  |}.
  - intros c _. apply guar_atomic. intros w Hw. simpl. by destruct (io_GenerateVerifier (dw_up w)).
  - intros c _. apply guar_atomic. intros w Hw. simpl. by destruct (io_GenerateVerifier (dw_up w)).
  - intros c a b d Hc. eapply guar_mono; [by apply sound_url|done].
  - intros c code v Hc. by apply sound_exchange.
  - intros c t n Hc. by apply sound_identity.
  - intros c t n i (Hp & Hv & _). done.
  - intros c u. by apply runs_atomic.
  - intros c u. by apply runs_atomic.
  - intros c a b d u. apply returns_bind; [apply returns_config|done].
  - intros c code v u. apply returns_bind; [apply returns_config|]. intros cfg w. by apply runs_call.
  - intros c t n u. apply returns_identity.
Defined.
End clients.
