(* ===== verification/LoginIdp.v ===== *)
(** * Signing in, with the configured providers

    The login plane over the registry [NewRegistry] built. *)

From S2P Require Import Prelude GoStd Proc Rely AuditLog SafeUrl Session SessionProps Account Fed Idp Login LoginProps IdpProps.

Section composed.
Context `{Platform} `{Entropy} `{TimeTextOk} {S I Lg U P K : Type} `{ScsOk S} `{SessionIndexOk I} `{Logger Lg} `{IdpUpstreamOk U P K}.
Context (Hempty : ∀ u, url_Parse EmptyString = Some u → u_Scheme u = EmptyString).

(** C5. Signing in. Take the registry of a configuration and any number of starts,
    callbacks and re-authentications of the login plane over it, in any
    interleaving of their actions, with a random source that does not repeat
    itself. When a callback answers: one that is not of the flow its session has
    pending (another state or provider, or no flow) has left the session alone and
    sends nobody anywhere. Otherwise the flow is spent, and one of three things
    has happened. The browser is sent back with a failure and the account it had.
    Or it is signed in to (or linked within) the one account that owns the
    identity the provider attested for this flow's code, verifier and nonce; a
    first sign-in that loses the race to create the account is signed in to the
    one that won. Or the session could not be rotated or recorded: the browser is
    sent back with that failure, and its session is empty, unless the session
    library failed to destroy it, in which case it is what the library left of the
    session of that one account. Meanwhile no identity has changed its owner. *)
Theorem sign_in_attested cfg r (rqs : list (lrequest (S:=S))) w w' ps' i rq s x :
  NewRegistry cfg = Ok r → apart → winv (H9 := idp_clients_ok r Hempty) w →
  rqs !! i = Some (LCallback rq s) →
  preach (w, serve (I:=I) (Lg:=Lg) r <$> rqs) (w', ps') → ps' !! i = Some (Ret x) →
  winv (H9 := idp_clients_ok r Hempty) w' ∧ grows (lw_accounts w) (lw_accounts w') ∧
  callback_ok (H9 := idp_clients_ok r Hempty) r rq s w' x.
Proof.
  intros Hreg Hap. apply callback_signs_in; [done|]. intros p c. by apply (registry_known r cfg).
Qed.
End composed.
