(* ===== verification/LoginDemo.v ===== *)
(** * Logins at work

    An OpenID provider that discovers, and the properties of the login plane and of
    the provider clients on concrete requests. *)

From S2P Require Import Prelude GoStd Proc Rely AuditLog SafeUrl Session SessionProps SessionDemo Account Fed Idp Login LoginProps IdpProps LoginIdp.

(** ** A platform that reads origins *)

Definition web_Parse (s : string) : option URL :=
  rest ← strings_CutPrefix s "https://";
  let host := default rest (str_before "/" rest) in
  Some (mkURL "https" EmptyString false host host EmptyString EmptyString EmptyString).
#[local] Instance web_platform : Platform := {|
  sha256 := @sha256 toy_platform;
  hmac_sha256 := @hmac_sha256 toy_platform;
  pbkdf2_sha256 := @pbkdf2_sha256 toy_platform;
  url_Parse := web_Parse;
  url_ParseError := @url_ParseError toy_platform;
  net_loopback_ip _ := false;
  unicode_ToUpper s := s;
  unicode_ToLower s := s;
  unicode_TrimSpace s := s;
  unicode_Fields s := [s];
  strconv_Quote s := s;
|}.
Lemma web_empty u : url_Parse EmptyString = Some u → u_Scheme u = EmptyString.
Proof. discriminate. Qed.

(** A generator that does not repeat itself, and is exhausted after 256 reads. *)
#[local] Instance short_entropy : Entropy := λ n k,
  if n <? 256 then Some (String (ascii_of_nat n) (fill (k - 1) EmptyString)) else None.
Lemma short_apart : apart.
Proof.
  intros n m x. unfold rand_read, short_entropy. destruct (Nat.ltb_spec n 256) as [Hn|]; [|done].
  destruct (Nat.ltb_spec m 256) as [Hm|]; [|done]. intros [= <-] [= Hc].
  by rewrite <-(nat_ascii_embedding n), <-(nat_ascii_embedding m), Hc.
Qed.

(** ** A provider *)

(** A discovery document; the provider answers the one it has, or none. *)
Record Document := mkDocument { doc_auth : string; doc_token : string; doc_jwks : string }.

(** A code is redeemed for an id_token that names the user of that name, for the
    flow with the nonce n. *)
#[local] Instance demo_upstream : IdpUpstream (option Document) Document (oidcClaims * list string) := {|
  io_GenerateVerifier u := (u, "verifier");
  io_AuthCodeURL cfg state _ _ := oc_AuthURL cfg +:+ "?state=" +:+ state;
  io_Exchange _ code _ u := (u, Ok (mkIdpToken "at" code));
  io_Do _ u := (u, Err demo_failure);
  oidc_NewProvider _ u := (u, match u with Some d => Ok d | None => Err demo_failure end);
  oidc_Endpoint d := (doc_auth d, doc_token d);
  oidc_JWKSURI d := Ok (doc_jwks d);
  oidc_Verify _ cid raw u := (u, Ok (mkClaims raw raw EmptyString EmptyString "n" cid, [cid]));
  oidc_Audience k := k.2;
  oidc_Claims k := Ok k.1;
  json_Object _ := Err demo_failure;
  json_QQ _ := Err demo_failure;
|}.
#[local] Instance demo_upstream_ok : IdpUpstreamOk (option Document) Document (oidcClaims * list string).
Proof.
  refine {| oidc_signed _ raw k := cl_Subject k.1 = raw |}.
  intros p cid raw u u' k [= _ <-]. split; [done|]. apply list_elem_of_singleton. done.
Defined.

Definition acme : Credentials :=
  mkCredentials "acme" "cid" "secret" EmptyString EmptyString [] EmptyString "https://id.example" EmptyString EmptyString.
Definition demo_config : RegistryConfig := mkRegistryConfig "https://app.example/" EmptyString 0 [acme].
Definition demo_registry : gmap string Client :=
  match NewRegistry demo_config with Ok r => r | Err _ => ∅ end.
Definition acme_client : Client := default (mkIdpClient EmptyString EmptyString (mkDefinition EmptyString EmptyString [] EmptyString
  EmptyString EmptyString EmptyString EmptyString NoProfile) EmptyString (mkOAuth EmptyString EmptyString EmptyString EmptyString
  EmptyString []) 0) (demo_registry !! "acme").
Lemma demo_registry_ok : NewRegistry demo_config = Ok demo_registry.
Proof. vm_compute. reflexivity. Qed.
Lemma acme_known : known demo_registry acme_client.
Proof. vm_compute. reflexivity. Qed.

Definition good_doc : Document := mkDocument "https://id.example/auth" "https://id.example/token" "https://id.example/keys".
Definition foreign_doc : Document := mkDocument "https://id.example/auth" "https://evil.example/token" "https://id.example/keys".
Definition world_of (d : option Document) : IdpWorld (option Document) Document := mkIdpWorld d ∅ 1000.
Lemma fresh_cache d : idp_cache_ok demo_registry (world_of d).
Proof. intros name c p t _. simpl. rewrite lookup_empty. discriminate. Qed.

(** ** The clients *)

(** The document names a token endpoint on another origin: the browser is sent to
    the issuer, and the exchange, which would send the secret, fails. *)
Definition demo_calls : list icall := [ICURL acme_client "st" "v" "n"; ICIdentity acme_client (mkIdpToken "at" "alice") "n"].
Definition calls_end := default (world_of None, [])
  (run_sched [0; 1; 0; 0; 1; 1; 1] (world_of (Some good_doc)) (idp_serve <$> demo_calls)).

Example foreign_token_endpoint :
  ∃ w e, run (Exchange acme_client "code" "v") (world_of (Some foreign_doc)) = Some (w, Err e).
Proof. eexists _, _. vm_compute. reflexivity. Qed.


(** A document is found; later the issuer stops answering, and the document still
    serves, and is refused once two lifetimes have passed. *)
Definition minutes (n : Z) : Z := n * time_Minute.
Definition aged (t : Z) : IdpWorld (option Document) Document := mkIdpWorld None {[ "acme" := (good_doc, 1000%Z) ]} (1000 + t).
Lemma aged_run t : (0 <= t)%Z → provider_run acme_client (aged t) [(good_doc, 1000%Z)].
Proof.
  intros Ht. apply (pr_time _ (mkIdpWorld (Some good_doc) {[ "acme" := (good_doc, 1000%Z) ]} 1000)); [|reflexivity|simpl; lia].
  set (w := world_of (Some good_doc)).
  replace [(good_doc, 1000%Z)] with
    (match cached acme_client w, offered acme_client w with None, Some p => [(p, dw_now w)] | _, _ => [] end) by (vm_compute; reflexivity).
  apply (pr_call acme_client w [] _ (Ok good_doc)); [apply pr_start|]; vm_compute; reflexivity.
Qed.

Lemma key_set_ages_out_witness :
  run (oidcProvider acme_client) (aged (minutes 29)) = Some (aged (minutes 29), Ok good_doc) ∧
  (1000 <= dw_now (aged (minutes 29)) < 1000 + 2 * minutes 15)%Z ∧
  ∃ e, run (oidcProvider acme_client) (aged (minutes 30)) = Some (aged (minutes 30), Err e).
Proof.
  split; [vm_compute; reflexivity|]. split; [|eexists; vm_compute; reflexivity].
  destruct (key_set_ages_out acme_client (aged (minutes 29)) [(good_doc, 1000%Z)] (aged (minutes 29)) (Ok good_doc))
    as [_ [Ho|(t & Hin & Ht)]].
  - vm_compute. reflexivity.
  - apply aged_run. vm_compute. discriminate.
  - vm_compute. reflexivity.
  - discriminate Ho.
  - apply list_elem_of_singleton in Hin. injection Hin as ->. exact Ht.
Defined.

(** ** Requests *)

Abbreviation LW := (LWorld DemoIndex MemoryLogger (IdpWorld (option Document) Document)).
Definition login_world : LW := mkLWorld NewMemoryAccounts (Some (mkDemoIndex ∅ false)) None [] (world_of (Some good_doc)) 1000 0.
Lemma login_world_inv : winv (H9 := idp_clients_ok demo_registry web_empty) login_world.
Proof.
  split; [|apply fresh_cache]. split; [apply accounts_wf_new|apply lookup_empty|]. intros m _.
  split; intros x _; apply lookup_empty.
Qed.

(** A browser in the middle of a sign-in. *)
Definition browser (token state : string) : DemoSession :=
  putFlow state "acme" "login" "/home" "v" "n" (mkDemoSession token ∅ {[ token ]} false).
Definition callback (state code : string) : AuthRequest := mkAuthRequest "acme" "GET" EmptyString EmptyString state EmptyString code.

(** Two first sign-ins of one identity at once: both find no account, the first
    creates it, the second loses that race. *)
Definition two_callbacks : list (lrequest (S:=DemoSession)) :=
  [LCallback (callback "s1" "alice") (browser "t1" "s1"); LCallback (callback "s2" "alice") (browser "t2" "s2")].
Definition race : list nat := replicate 7 0 ++ replicate 5 1 ++ replicate 7 0 ++ replicate 7 1.
Definition race_end := default (login_world, []) (run_sched race login_world (serve demo_registry <$> two_callbacks)).
Definition race_answer (i : nat) : result (DemoSession * response) :=
  match race_end.2 !! i with Some (Ret x) => x | _ => Err demo_failure end.
Definition signed_in (x : result (DemoSession * response)) : option string :=
  match x with Ok (s, _) => Session_User s | Err _ => None end.

Lemma race_run : run_sched race login_world (serve demo_registry <$> two_callbacks) = Some race_end.
Proof. vm_compute. reflexivity. Qed.
Lemma race_done : race_end.2 = [Ret (race_answer 0); Ret (race_answer 1)].
Proof. vm_compute. reflexivity. Qed.
Lemma race_same : is_Some (signed_in (race_answer 1)) ∧ signed_in (race_answer 0) = signed_in (race_answer 1).
Proof. vm_compute. split; [eexists|]; reflexivity. Qed.
#[local] Opaque race_end race_answer.

Lemma sign_in_attested_witness :
  forged (callback "s2" "alice") (browser "t2" "s2") = false ∧
  is_Some (signed_in (race_answer 1)) ∧ signed_in (race_answer 0) = signed_in (race_answer 1) ∧
  callback_ok (H9 := idp_clients_ok demo_registry web_empty) demo_registry (callback "s2" "alice") (browser "t2" "s2") race_end.1 (race_answer 1).
Proof.
  split; [vm_compute; reflexivity|]. split; [exact (proj1 race_same)|]. split; [exact (proj2 race_same)|].
  apply (sign_in_attested web_empty demo_config demo_registry two_callbacks login_world race_end.1 race_end.2 1).
  - exact demo_registry_ok.
  - exact short_apart.
  - exact login_world_inv.
  - reflexivity.
  - apply (run_sched_reach race). rewrite <-surjective_pairing. exact race_run.
  - rewrite race_done. reflexivity.
Defined.

(** The browser goes back and its callback comes again. *)
Definition once := default (login_world, Err demo_failure) (run (handleCallback demo_registry (callback "s1" "alice") (browser "t1" "s1")) login_world).
Definition once_session : DemoSession := match once.2 with Ok (s, _) => s | Err _ => browser "t1" "s1" end.
Lemma once_run : run (handleCallback demo_registry (callback "s1" "alice") (browser "t1" "s1")) login_world =
  Some (once.1, Ok (once_session, HttpRedirect "/home" 303)).
Proof. vm_compute. reflexivity. Qed.
#[local] Opaque once once_session.

Lemma callback_single_use_witness :
  ∃ w msg, run (handleCallback demo_registry (callback "s1" "alice") once_session) once.1 = Some (w, Ok (once_session, HttpError msg 400)) ∧
    lw_accounts w = lw_accounts once.1.
Proof.
  destruct (callback_single_use (H9 := idp_clients_ok demo_registry web_empty) demo_registry) with
    (rq := callback "s1" "alice") (s := browser "t1" "s1") (w := login_world) (client := acme_client) (w1 := once.1) (s1 := once_session)
    (resp1 := HttpRedirect "/home" 303) (rq2 := callback "s1" "alice") (w2 := once.1) as (w3 & msg & Hr & Ha & _).
  - exact short_apart.
  - intros p c. exact (registry_known demo_registry demo_config p c demo_registry_ok).
  - exact login_world_inv.
  - vm_compute. reflexivity.
  - vm_compute. reflexivity.
  - exact once_run.
  - intros E. vm_compute in E. discriminate E.
  - exists acme_client. vm_compute. reflexivity.
  - exists w3, msg. split; [exact Hr|exact Ha].
Defined.
